(* ===== verification/_CoqProject ===== *)
-Q . S2P
Prelude.v
Amount.v
Uint.v
Accounting.v
ChainTypes.v
ChainConfig.v
Compact.v
BlockTree.v
EffectiveBalance.v
ConsensusPoW.v
Tokens.v
Orders.v
PoS.v
PoSInterface.v
Utxo.v
ConsensusPoS.v
Constraints.v
Conservation.v
RewardDistribution.v
TxTypes.v
UndoCache.v
PoSAdapter.v
Policy.v
CheckTransaction.v
TokenIssuance.v
TxVerifier.v
Effects.v
Connect.v
Hierarchy.v
EpochSeal.v
ChainstateRef.v
Chainstate.v
Branches.v
Invalidation.v
BlockProcessing.v
ChainstateTheorems.v
Consensus.v
Traversal.v
MempoolEntry.v
MempoolStore.v
MempoolGraph.v
MempoolInvariant.v
MempoolOps.v
MempoolRemoval.v
MempoolHistory.v
CollectTxs.v
WorkQueue.v
OrphanPool.v
