(* ===== verification/Prelude.v ===== *)
(** * Verification of the Mintlayer ledger

    A development about the part of the Mintlayer node that decides which
    transactions and blocks are valid and what they do to the ledger.

    ** The program and its model

    The chainstate ([chainstate/src/detail]) keeps a tree of blocks and a main
    chain in it.  A new block is checked, gets an index in the tree, and when it
    has more trust than the tip, the main chain is rewritten to end in it; blocks
    that fail are marked, with everything below them.

    A block is connected by [default_strategy.rs], which runs the transaction
    verifier ([chainstate/tx-verifier]) on its transactions and its reward.  The
    verifier checks a transaction on its own, checks that its inputs pay for its
    outputs, and applies it to four ledgers, each a cache over a view: the
    unspent outputs ([utxo]), the pools and delegations ([pos-accounting]), the
    tokens ([tokens-accounting]) and the orders ([orders-accounting]).  It keeps
    undo records with which the transaction can be disconnected, and it is
    itself a view that another verifier can be put on.  The ledgers keep their
    changes as deltas ([accounting]).

    Whether a header may extend the chain is decided by the consensus
    ([consensus]): proof of work or proof of stake, by the height.  Proof of stake
    reads the pools of a sealed epoch and the randomness of the epochs, which the
    chainstate keeps up to date with every block ([epoch_seal.rs]).

    Transactions wait in the mempool ([mempool]): a store with the graph of
    who spends whom, indices by score, and the sums of fees and sizes along the
    graph; from it the transactions of a new block are collected.  Transactions
    whose inputs are not known yet wait in a pool of orphans, and the work of the
    peers in a queue.

    - Prelude.v: results with panics, the state and error monad ([ST], [zoom]),
      ordered iteration over maps ([BTreeMap]), loops and their laws.
    - Amount.v: [common/src/primitives/amount]: 128-bit amounts, checked.
    - Uint.v: [common/src/uint]: [Uint256] and the like as lists of limbs.
    - Accounting.v: [accounting]: deltas of data and of amounts, their
      combination and undo.
    - ChainTypes.v: outputs, inputs, accounts, commands of [common/src/chain].
    - ChainConfig.v: heights, upgrades, fees, emission, checkpoints and epochs
      of [common/src/chain].
    - Compact.v: compact targets ([compact.rs]) and what a block adds to the
      trust of its chain ([chaintrust], [consensus_data.rs]).
    - BlockTree.v: [chainstate/types]: statuses and indices of blocks, the search
      for ancestors along skip pointers, the median time.
    - Tokens.v, Orders.v, PoS.v, Utxo.v: one ledger each: its cache, its
      operations, undo, flush to a cache and to the in-memory database.
    - PoSInterface.v: the trait [PoSAccountingOperations] as a class with laws;
      the delta of PoS.v and the adapter of PoSAdapter.v are instances, and
      RewardDistribution.v is proved against the class.
    - Constraints.v: [constraints-value-accumulator]: what inputs bring and
      outputs need; Conservation.v relates it to the ledgers.
    - RewardDistribution.v: [reward_distribution.rs].
    - TxTypes.v: sources of transactions, identifiers, cached operations, errors.
    - UndoCache.v: [accounting_undo_cache], [utxos_undo_cache].
    - PoSAdapter.v: [pos_accounting_delta_adapter.rs].
    - Policy.v: [input_output_policy]; CheckTransaction.v:
      [check_transaction.rs] and [tokens_check]; TokenIssuance.v:
      [token_issuance_cache.rs].
    - TxVerifier.v: [transaction_verifier/mod.rs] and [default_strategy.rs].
    - Effects.v: the state of the chain that a verifier shows, the operations
      of a transaction, and what connecting and disconnecting do to the state.
    - Connect.v: the end-to-end properties of the verifier.
    - Hierarchy.v: [hierarchy.rs] and [flush.rs]: a verifier on top of another.
    - ChainstateRef.v: [chainstateref/mod.rs]: queries, checks of blocks,
      connecting and disconnecting the tip, reorganisations, over a record of
      maps ([Store]).
    - Chainstate.v: [detail/mod.rs], [block_invalidation],
      [error_classification.rs] and [consistency_checker.rs].
    - Branches.v, Invalidation.v, BlockProcessing.v: the proofs about them;
      ChainstateTheorems.v: their theorems, and a small chain to run them on.
    - EffectiveBalance.v: [effective_pool_balance.rs]; ConsensusPoW.v:
      [consensus/src/pow], checking and mining; ConsensusPoS.v:
      [consensus/src/pos], targets, kernels, the checks of a staked header and
      staking; Consensus.v: [validator.rs] and the production of consensus data,
      by the height.
    - EpochSeal.v: [epoch_seal.rs], the cache of epoch data, and what connecting
      and disconnecting the tip does to pools, deltas and epochs.
    - Traversal.v: [graph_traversals.rs]; MempoolEntry.v: [pool/entry.rs],
      [feerate.rs] and the types around them; MempoolStore.v:
      [tx_pool/store/mod.rs].  MempoolGraph.v, MempoolInvariant.v, MempoolOps.v
      and MempoolRemoval.v prove what its operations do; MempoolHistory.v has the
      theorems on the stores that any sequence of operations leads to.
    - CollectTxs.v: [tx_accumulator] and [collect_txs.rs].
    - WorkQueue.v: [work_queue/mod.rs]; OrphanPool.v: [orphans/mod.rs].

    A method of a mutable object is a function of the monad [ST S E]: it takes
    the object and returns the object and a result, so that what an early
    return leaves behind is part of the model; a panic is an outcome of its own.
    Integers of a width [w] are values with a proof of their range ([bint]), and
    the arithmetic is checked or wraps where the code's does.  Definitions have
    the names of the code; loops are the recursion of the iterator they run over,
    so that nothing needs fuel, with these exceptions: the division of Uint.v,
    whose fuel is the number of bits; the loops that follow parents, whose fuel
    is the height they start from; the search for another best chain, whose
    fuel is the number of blocks; mining and staking, which count the nonces or
    slots of their range; the searches of the mempool's graph and its
    post order, whose fuel is the number of entries; the collection of
    transactions, which takes one candidate in every pass; and the loops of the
    work queue and the pool of orphans, which take one peer, item or transaction
    in every turn.  Each is proved to be enough.

    ** What is proved

    - The ledgers refine an abstract ledger of functions from identifiers to
      values: every operation follows its rule or fails with the error the rule
      names, as long as balances stay in the range of the deltas (below),
      invariants (supply limits, covered orders, balanced books of pools) are
      preserved, undo records lead back, flushing a cache makes the lower
      level show what the cache showed.
    - Deltas: merging composes, undoing a merge reverts it, combination is
      associative.
    - Arithmetic: multiplication and division of wide integers are exact; order
      prices, emission and rewards are the rounded exact values and never
      overflow.
    - Value: the accumulator accepts exactly when the inputs cover the outputs
      with their timelocks, and a connected transaction conserves value in every
      currency.
    - The verifier: connecting a transaction has exactly the effect of its
      operations on the state; disconnecting leads back; nonces can not be used
      twice; frozen tokens do not move; rewards are bounded; the checks accept
      exactly the well-formed transactions, orders that give a deprecated token
      apart.
    - The chainstate: whatever blocks are processed, the main chain is the
      ancestry of the best block, its ledger is what connecting it gives, and the
      program's own checks of consistency pass; a refused block changes neither;
      a reorganisation ends in the block it is for, or fails because of a block
      of the new chain; invalidation, within the limit of reorganisations, and the
      clearing of failures keep the main chain and the index consistent, and the
      search for another chain ends.  The skip-pointer search and the last common
      ancestor agree with following parents.
    - The consensus: a header is accepted exactly under the conditions of its
      height; targets, retargeting and effective balances are the rounded exact
      values; mining finds the first nonce, and what is produced is accepted.
    - The seal: after any sequence of connected and disconnected blocks from the
      genesis the sealed pools and the randomness are those of the current chain.
    - The mempool: after any history the store is consistent in every index, its
      operations do not panic and remove exactly what they should, transactions
      come out in the order of insertion, and a block template has parents before
      children within its size.  The work queue serves every peer in turn, and the
      pool of orphans keeps its limits.

    ** What is assumed

    Keys, signatures and hashes ([CryptoTypes], [TxHash], [IdHashes]), the size
    of an encoded transaction and the Unicode table beyond ASCII
    ([TxParameters]), and the verification of signatures, scripts and timelocks
    of inputs ([InputChecks], which reads the verifier and does not change it)
    are parameters, because they are code of other libraries.  The id of a block
    ([BlockHashes]), encoded sizes and Merkle roots and the verification of the
    consensus ([BlockChecks]) are parameters as well, and so are the weights of
    empty time slots, which are computed with floating-point numbers
    ([TimeslotWeights]).  The chainstate is proved against an interface for the
    ledgers ([BlockLedger]), whose law is that disconnecting a block takes its
    connection back.  The theorems on the ledgers and the verifier are for amounts
    in the range of signed 128-bit integers, in which deltas are kept;
    mint_beyond_i128_is_unreadable, orders_operations_follow_rules and
    pos_operations_follow_rules say what happens beyond.

    Of proof of stake, the verifiable random function, the signature of a block and
    the hashes are parameters ([StakeCrypto]); where a theorem needs it, what is
    signed is accepted.  The collection of transactions takes the transaction
    verifier, the check of timelocks, the answers of the chainstate and the length
    of an encoded size as parameters; its theorem names what it relies on: the
    verifier does not panic in the states it can be in.  The work queue and the
    pool of orphans take the source of randomness as a parameter.

    ** Not modelled

    Storage engines, encodings, networking, wallet, API server, RPC and user
    interface: they move data in and out of the parts above or run concurrently
    around them.  Script and signature verification depends on cryptographic
    libraries.  Of the chainstate, the pool of orphans, events, the checks of
    whole chains of headers and the in-memory reorganisation are left out; a
    database transaction of the model does not fail.  Of the mempool, the admission
    of transactions with its policy, the rolling fee rate, reorganisations, the
    estimation of memory and events are left out.  The next steps are the admission
    of transactions and the mempool's reorganisations, then the orphans and the
    header checks of the chainstate. *)
From Stdlib Require Export ZArith Lia.
From stdpp Require Export base functions gmap sets list sorting strings.

#[global] Open Scope Z_scope.

(** * Results, panics and early returns

    Rust's [Result<A, E>] with a third outcome for a panic ([expect],
    [unwrap], [assert!]): a panic is not an error value the caller can
    inspect, and theorems that exclude it say so explicitly. *)

Inductive result (E A : Type) : Type :=
  | Ok (a : A)
  | Err (e : E)
  | Panic.
Arguments Ok {_ _} _.
Arguments Err {_ _} _.
Arguments Panic {_ _}.

#[global] Instance result_ret {E} : MRet (result E) := fun A a => Ok a.
#[global] Instance result_bind {E} : MBind (result E) := fun A B f m =>
  match m with
  | Ok a => f a
  | Err e => Err e
  | Panic => Panic
  end.
#[global] Instance result_fmap {E} : FMap (result E) := fun A B f m =>
  match m with
  | Ok a => Ok (f a)
  | Err e => Err e
  | Panic => Panic
  end.

Definition map_err {E F A} (f : E -> F) (m : result E A) : result F A :=
  match m with
  | Ok a => Ok a
  | Err e => Err (f e)
  | Panic => Panic
  end.

Definition ok_or {E A} (e : E) (o : option A) : result E A :=
  match o with Some a => Ok a | None => Err e end.

(** [Option::expect]. *)
Definition expect {E A} (o : option A) : result E A :=
  match o with Some a => Ok a | None => Panic end.

(** The [ensure!] macro: an early return unless the condition holds. *)
Definition ensure {E} (b : bool) (e : E) : result E unit :=
  if b then Ok tt else Err e.

(** [assert!]. *)
Definition assert_true {E} (b : bool) : result E unit :=
  if b then Ok tt else Panic.

Definition is_ok {E A} (m : result E A) : bool :=
  match m with Ok _ => true | _ => false end.

Definition no_panic {E A} (m : result E A) : Prop := m <> Panic.

(** * Methods on [&mut self]

    A fallible method that mutates its receiver.  The state is returned on
    every outcome: what a method wrote before it failed stays written, as in
    Rust. *)

Definition ST (S E A : Type) : Type := S -> S * result E A.

#[global] Instance st_ret {S E} : MRet (ST S E) := fun A a s => (s, Ok a).
#[global] Instance st_bind {S E} : MBind (ST S E) := fun A B f m s =>
  match m s with
  | (s', Ok a) => f a s'
  | (s', Err e) => (s', Err e)
  | (s', Panic) => (s', Panic)
  end.

(** A [&self] method called from a [&mut self] one. *)
Definition gets {S E A} (f : S -> result E A) : ST S E A := fun s => (s, f s).

(** A computation that does not touch the state. *)
Definition lift {S E A} (m : result E A) : ST S E A := fun s => (s, m).

Definition modify {S E} (f : S -> S) : ST S E unit := fun s => (f s, Ok tt).

(** A method of one field of the receiver, with the [From] conversion that
    [?] applies to its error. *)
Definition zoom {S T E F A} (get : S -> T) (set : T -> S -> S) (conv : E -> F)
    (m : ST T E A) : ST S F A := fun s =>
  match m (get s) with (t', r) => (set t' s, map_err conv r) end.

Definition st_map_err {S E F A} (f : E -> F) (m : ST S E A) : ST S F A := fun s =>
  match m s with (s', r) => (s', map_err f r) end.

(** The [&self] method that returns the receiver. *)
Definition self {S E} : ST S E S := fun s => (s, Ok s).

(** A constructor that runs fallible methods on a fresh value. *)
Definition construct {S E} (m : ST S E unit) (fresh : S) : result E S :=
  let '(s, r) := m fresh in _ ← r; Ok s.

Definition is_none {A} (o : option A) : bool := match o with None => true | Some _ => false end.

(** [Iterator::try_for_each] over a stateful closure. *)
Fixpoint try_for_each {S E A} (f : A -> ST S E unit) (l : list A) : ST S E unit :=
  match l with
  | [] => mret tt
  | x :: l' => f x ≫= fun _ => try_for_each f l'
  end.

(** [iter.map(f).collect::<Result<Vec<_>, _>>()]: stops at the first error. *)
Fixpoint try_collect {S E A B} (f : A -> ST S E B) (l : list A) : ST S E (list B) :=
  match l with
  | [] => mret []
  | x :: l' => f x ≫= fun y => try_collect f l' ≫= fun ys => mret (y :: ys)
  end.

(** [iter.filter_map(f).collect::<Result<Vec<_>, _>>()]. *)
Fixpoint try_filter_map {S E A B} (f : A -> ST S E (option B)) (l : list A) : ST S E (list B) :=
  match l with
  | [] => mret []
  | x :: l' => f x ≫= fun o => try_filter_map f l' ≫= fun ys =>
      mret (match o with Some y => y :: ys | None => ys end)
  end.

(** [Iterator::try_fold]. *)
Fixpoint try_fold {E A B} (f : B -> A -> result E B) (b : B) (l : list A) : result E B :=
  match l with
  | [] => Ok b
  | x :: l' => f b x ≫= fun b' => try_fold f b' l'
  end.

(** * Ordered maps

    [BTreeMap<K, V>] is a [gmap] together with the order its iterators
    follow.  Every loop over a map in the code goes through [btree_iter], so
    the entry at which a failing loop stops is the one Rust stops at. *)

Class BTreeKey (K : Type) `{Countable K} := {
  key_le : relation K;
  key_le_dec :: RelDecision key_le;
  key_le_partial :: PartialOrder key_le;
  key_le_total :: Total key_le
}.

Definition entry_le `{BTreeKey K} {V} : relation (K * V) :=
  fun p q => key_le p.1 q.1.
#[global] Instance entry_le_dec `{BTreeKey K} {V} : RelDecision (@entry_le K _ _ _ V).
Proof. intros p q; unfold entry_le; apply _. Defined.

Definition btree_iter `{BTreeKey K} {V} (m : gmap K V) : list (K * V) :=
  merge_sort entry_le (map_to_list m).

(** The iterator of a [BTreeSet]. *)
Definition set_iter `{BTreeKey K} (X : gset K) : list K := merge_sort key_le (elements X).

(** [collect::<BTreeMap<_, _>>()] and [BTreeMap::from_iter]: a later entry
    with the same key replaces an earlier one. *)
Definition btree_collect `{Countable K} {V} (l : list (K * V)) : gmap K V :=
  list_to_map (reverse l).

(** ** Key orders *)

#[global] Program Instance N_key : BTreeKey N := {| key_le := N.le |}.

(** Tuples compare lexicographically. *)
Definition lex_le `{BTreeKey A, BTreeKey B} : relation (A * B) := fun p q =>
  (p.1 <> q.1 /\ key_le p.1 q.1) \/ (p.1 = q.1 /\ key_le p.2 q.2).

#[global] Instance lex_le_dec `{BTreeKey A, BTreeKey B} : RelDecision (@lex_le A _ _ _ B _ _ _).
Proof. intros p q; unfold lex_le; apply _. Defined.

#[global] Instance lex_le_partial `{BTreeKey A, BTreeKey B} :
  PartialOrder (@lex_le A _ _ _ B _ _ _).
Proof.
  repeat split.
  - intros [a b]; right; split; reflexivity.
  - intros [a b] [c d] [e f] [[Hne L1]|[He L1]] [[Hne' L2]|[He' L2]];
      unfold lex_le; simpl in *; subst; eauto.
    + left. split; [|etrans; eassumption].
      intros ->. apply Hne. by apply (anti_symm key_le).
    + right. split; [done|]. etrans; eassumption.
  - intros [a b] [c d] [[Hne L1]|[He L1]] [[Hne' L2]|[He' L2]]; simpl in *; subst.
    + exfalso. apply Hne. by apply (anti_symm key_le).
    + done.
    + done.
    + f_equal. by apply (anti_symm key_le).
Qed.

#[global] Instance lex_le_total `{BTreeKey A, BTreeKey B} : Total (@lex_le A _ _ _ B _ _ _).
Proof.
  intros [a b] [c d]. unfold lex_le; simpl.
  destruct (decide (a = c)) as [->|Hne].
  - destruct (total key_le b d); eauto.
  - destruct (total key_le a c); [left|right]; left; split; congruence.
Qed.

#[global] Instance pair_key `{BTreeKey A, BTreeKey B} : BTreeKey (A * B) :=
  {| key_le := lex_le |}.

(** The order of a type that is ordered like its image. *)
Definition inj_key `{Countable A, BTreeKey B} (f : A -> B) `{!Inj (=) (=) f} : BTreeKey A.
Proof.
  refine {| key_le := fun a b => key_le (f a) (f b) |}.
  - intros a b. apply key_le_dec.
  - repeat split; [intros a; reflexivity|intros a b c; apply transitivity|].
    intros a b Hab Hba. apply (inj f). by apply (anti_symm key_le).
  - intros a b. apply (total key_le).
Defined.

Lemma NoDup_fst_in {A B} (l : list (A * B)) a b1 b2 :
  NoDup l.*1 -> (a, b1) ∈ l -> (a, b2) ∈ l -> b1 = b2.
Proof.
  induction l as [|[a' b] l IH]; csimpl; [intros _ []%elem_of_nil|].
  intros [Ha Hnd]%NoDup_cons [H1|H1]%elem_of_cons [H2|H2]%elem_of_cons; simplify_eq; [done| | |by apply IH].
  - destruct Ha. by apply (list_elem_of_fmap_2 fst _ (a', b2)).
  - destruct Ha. by apply (list_elem_of_fmap_2 fst _ (a', b1)).
Qed.

Lemma filter_all {A} (P : A -> Prop) `{forall x, Decision (P x)} (l : list A) :
  (forall x, x ∈ l -> P x) -> filter P l = l.
Proof.
  induction l as [|x l IH]; intros Hl; [done|]. rewrite filter_cons, decide_True by (apply Hl; left).
  f_equal. apply IH. intros y Hy. apply Hl. by right.
Qed.

Lemma filter_none {A} (P : A -> Prop) `{forall x, Decision (P x)} (l : list A) :
  (forall x, x ∈ l -> ~ P x) -> filter P l = [].
Proof.
  induction l as [|x l IH]; intros Hl; [done|]. rewrite filter_cons, decide_False by (apply Hl; left).
  apply IH. intros y Hy. apply Hl. by right.
Qed.

Lemma StronglySorted_filter {A} (R : relation A) (P : A -> Prop) `{forall x, Decision (P x)} (l : list A) :
  StronglySorted R l -> StronglySorted R (filter P l).
Proof.
  induction 1 as [|x l Hs IH Hx]; [constructor|]. rewrite filter_cons.
  case_decide; [|done]. constructor; [done|]. rewrite Forall_forall in Hx |- *.
  intros y [_ Hy]%list_elem_of_filter. by apply Hx.
Qed.

(** ** Iteration visits every entry once, in key order *)

Section btree.
Context `{BTreeKey K} {V : Type}.
Implicit Types (m : gmap K V) (l : list (K * V)).

#[global] Instance entry_le_trans : Transitive (@entry_le K _ _ _ V).
Proof. intros p q r. unfold entry_le. apply transitivity. Qed.

Lemma btree_iter_perm m : btree_iter m ≡ₚ map_to_list m.
Proof. apply merge_sort_Permutation. Qed.

Lemma btree_iter_sorted m : Sorted entry_le (btree_iter m).
Proof.
  apply Sorted_merge_sort. intros [k1 v1] [k2 v2]. unfold entry_le; simpl.
  apply (total key_le).
Qed.

Lemma btree_iter_NoDup m : NoDup (btree_iter m).*1.
Proof. rewrite btree_iter_perm. apply NoDup_fst_map_to_list. Qed.

Lemma elem_of_btree_iter m k v : (k, v) ∈ btree_iter m <-> m !! k = Some v.
Proof. rewrite btree_iter_perm. apply elem_of_map_to_list. Qed.

Lemma list_to_map_btree_iter m : list_to_map (btree_iter m) = m.
Proof.
  rewrite (list_to_map_proper _ (map_to_list m)).
  - apply list_to_map_to_list.
  - apply btree_iter_NoDup.
  - apply btree_iter_perm.
Qed.

Lemma btree_iter_empty : btree_iter (∅ : gmap K V) = [].
Proof. apply Permutation_nil_r. rewrite btree_iter_perm. by rewrite map_to_list_empty. Qed.

Lemma btree_iter_singleton k v : btree_iter ({[k := v]} : gmap K V) = [(k, v)].
Proof.
  apply Permutation_singleton_r. rewrite btree_iter_perm. by rewrite map_to_list_singleton.
Qed.

Lemma btree_collect_NoDup l : NoDup l.*1 -> btree_collect l = list_to_map l.
Proof.
  intros Hnd. unfold btree_collect. symmetry. apply list_to_map_proper; [done|].
  by rewrite reverse_Permutation.
Qed.

Lemma btree_collect_iter m : btree_collect (btree_iter m) = m.
Proof.
  rewrite btree_collect_NoDup by apply btree_iter_NoDup. apply list_to_map_btree_iter.
Qed.

(** Iterating over a map built from sorted entries gives the entries back. *)
Lemma btree_iter_of_sorted l : Sorted entry_le l -> NoDup l.*1 -> btree_iter (list_to_map l) = l.
Proof.
  intros Hs Hnd. assert (btree_iter (list_to_map l) ≡ₚ l) as Hperm.
  { rewrite btree_iter_perm. by apply map_to_list_to_map. }
  apply (Sorted_unique_strong entry_le); [|apply btree_iter_sorted|done|done].
  intros [k1 v1] [k2 v2] H1 H2 L1 L2. assert (k1 = k2) as <- by (by apply (anti_symm key_le)).
  rewrite Hperm in H1. f_equal. by apply (NoDup_fst_in l k1).
Qed.
End btree.

Section set_iter.
Context `{BTreeKey K}.
Implicit Types X : gset K.

Lemma set_iter_perm X : set_iter X ≡ₚ elements X.
Proof. apply merge_sort_Permutation. Qed.

Lemma elem_of_set_iter X x : x ∈ set_iter X <-> x ∈ X.
Proof. by rewrite set_iter_perm, elem_of_elements. Qed.

Lemma NoDup_set_iter X : NoDup (set_iter X).
Proof. rewrite set_iter_perm. apply NoDup_elements. Qed.

Lemma set_iter_sorted X : StronglySorted key_le (set_iter X).
Proof. apply Sorted_StronglySorted; [apply _|]. apply Sorted_merge_sort. apply _. Qed.

Lemma set_iter_empty : set_iter (∅ : gset K) = [].
Proof. unfold set_iter. by rewrite elements_empty. Qed.
End set_iter.

(** * Reasoning about outcomes *)

Section monad_laws.
Context {S E : Type}.

Lemma result_bind_Ok {A B} (m : result E A) (f : A -> result E B) b :
  (m ≫= f) = Ok b <-> exists a, m = Ok a /\ f a = Ok b.
Proof. destruct m; cbn; naive_solver. Qed.

Lemma st_bind_Ok {A B} (m : ST S E A) (f : A -> ST S E B) s s' b :
  (m ≫= f) s = (s', Ok b) <-> exists a s1, m s = (s1, Ok a) /\ f a s1 = (s', Ok b).
Proof.
  unfold mbind, st_bind. destruct (m s) as [s1 [a|e|]]; naive_solver.
Qed.

Lemma st_bind_run {A B} (m : ST S E A) (f : A -> ST S E B) s s1 a :
  m s = (s1, Ok a) -> (m ≫= f) s = f a s1.
Proof. intros Hm. unfold mbind, st_bind. by rewrite Hm. Qed.

Lemma st_bind_fail {A B} (m : ST S E A) (f : A -> ST S E B) s s1 e :
  m s = (s1, Err e) -> (m ≫= f) s = (s1, Err e).
Proof. intros Hm. unfold mbind, st_bind. by rewrite Hm. Qed.

Lemma gets_run {A} (f : S -> result E A) s : gets f s = (s, f s).
Proof. done. Qed.

Lemma lift_run {A} (m : result E A) (s : S) : lift m s = (s, m).
Proof. done. Qed.

Lemma gets_Ok {A} (f : S -> result E A) s s' a :
  gets f s = (s', Ok a) <-> s' = s /\ f s = Ok a.
Proof. unfold gets. split; [intros [=]|intros [-> ->]]; by subst. Qed.

Lemma lift_Ok {A} (m : result E A) (s s' : S) a :
  lift m s = (s', Ok a) <-> s' = s /\ m = Ok a.
Proof. unfold lift. split; [intros [=]|intros [-> ->]]; by subst. Qed.

Lemma mret_Ok {A} (x a : A) (s s' : S) :
  (mret x : ST S E A) s = (s', Ok a) <-> s' = s /\ x = a.
Proof. unfold mret, st_ret. split; [intros [=]|intros [-> ->]]; by subst. Qed.

Lemma ensure_Ok b (e : E) u : ensure b e = Ok u <-> b = true.
Proof. destruct u. by destruct b. Qed.

Lemma ok_or_Ok {A} (o : option A) (e : E) a : ok_or e o = Ok a <-> o = Some a.
Proof. destruct o; cbn; naive_solver. Qed.

Lemma expect_Ok {A} (o : option A) a : (expect o : result E A) = Ok a <-> o = Some a.
Proof. destruct o; cbn; naive_solver. Qed.

Lemma map_err_Ok {F A} (f : F -> E) (m : result F A) a : map_err f m = Ok a <-> m = Ok a.
Proof. destruct m; cbn; naive_solver. Qed.

Lemma st_map_err_Ok {F A} (f : F -> E) (m : ST S F A) s s' a :
  st_map_err f m s = (s', Ok a) <-> m s = (s', Ok a).
Proof. unfold st_map_err. destruct (m s) as [? []]; cbn; naive_solver. Qed.

Lemma zoom_Ok {T F A} (get : S -> T) (set : T -> S -> S) (conv : F -> E) (m : ST T F A) s s' a :
  zoom get set conv m s = (s', Ok a) <-> exists t, m (get s) = (t, Ok a) /\ s' = set t s.
Proof. unfold zoom. destruct (m (get s)) as [t []]; cbn; naive_solver. Qed.
End monad_laws.

(** [run_inv] turns a hypothesis saying that a method returned [Ok] into the
    facts its control flow established on the way. *)
Ltac run_inv_step :=
  match goal with
  | H : (mbind _ _) _ = (_, Ok _) |- _ =>
      apply st_bind_Ok in H; destruct H as (?&?&H&?)
  | H : mbind _ _ = Ok _ |- _ =>
      apply result_bind_Ok in H; destruct H as (?&H&?)
  | H : gets _ _ = (_, Ok _) |- _ => apply gets_Ok in H; destruct H as [? H]; subst
  | H : lift _ _ = (_, Ok _) |- _ => apply lift_Ok in H; destruct H as [? H]; subst
  | H : mret _ _ = (_, Ok _) |- _ => apply mret_Ok in H; destruct H as [? H]; subst
  | H : mret _ = Ok _ |- _ => injection H as H; subst
  | H : Ok _ = Ok _ |- _ => injection H as H; subst
  | H : (_, Ok _) = (_, Ok _) |- _ => injection H as ?; subst
  | H : ensure _ _ = Ok _ |- _ => apply ensure_Ok in H
  | H : ok_or _ _ = Ok _ |- _ => apply ok_or_Ok in H
  | H : expect _ = Ok _ |- _ => apply expect_Ok in H
  | H : map_err _ _ = Ok _ |- _ => apply map_err_Ok in H
  | H : st_map_err _ _ _ = (_, Ok _) |- _ => apply st_map_err_Ok in H
  | H : zoom _ _ _ _ _ = (_, Ok _) |- _ =>
      apply zoom_Ok in H; destruct H as (?&H&?); subst
  | H : Err _ = Ok _ |- _ => discriminate H
  | H : Panic = Ok _ |- _ => discriminate H
  | H : (_, Err _) = (_, Ok _) |- _ => discriminate H
  | H : (_, Panic) = (_, Ok _) |- _ => discriminate H
  | u : unit |- _ => destruct u
  end.
Ltac run_inv := repeat run_inv_step.

(** * Loops that update one map entry per step

    The shape of every merge in the accounting crates: a loop over the
    entries of one map whose body reads and rewrites the entry of another
    map with the same key.  [obs] is the map the body works on inside a
    larger state, [frame] what the body leaves alone. *)

Section pointwise.
Context `{Countable K} {S A B C E : Type}.
Context (f : K -> option A -> B -> result E (option A * C)).
Context (obs : S -> gmap K A) (frame : relation S) `{!PreOrder frame}.
Context (body : K * B -> ST S E (K * C)).

(** What the whole loop does to the entry of [k], given the map it iterates over. *)
Definition pointwise_rel (m : gmap K B) (st st' : gmap K A) (out : gmap K C) : Prop :=
  forall k,
    match m !! k with
    | Some v => exists o c, f k (st !! k) v = Ok (o, c) /\ st' !! k = o /\ out !! k = Some c
    | None => st' !! k = st !! k /\ out !! k = None
    end.

Lemma pointwise_rel_det m st st1 st2 o1 o2 :
  pointwise_rel m st st1 o1 -> pointwise_rel m st st2 o2 -> st1 = st2 /\ o1 = o2.
Proof.
  intros H1 H2. split; apply map_eq; intros k; specialize (H1 k); specialize (H2 k);
    destruct (m !! k); naive_solver congruence.
Qed.

Lemma pointwise_rel_cons l k v st st1 st' out o c :
  k ∉ l.*1 ->
  f k (st !! k) v = Ok (o, c) ->
  st1 = partial_alter (fun _ => o) k st ->
  pointwise_rel (list_to_map l) st1 st' out ->
  pointwise_rel (list_to_map ((k, v) :: l)) st st' (<[k:=c]> out).
Proof.
  intros Hk Hf -> Hrel j. simpl. specialize (Hrel j).
  destruct (decide (k = j)) as [<-|Hne].
  - rewrite not_elem_of_list_to_map_1 in Hrel by done. destruct Hrel as [Hst _].
    rewrite !lookup_insert_eq, Hst, lookup_partial_alter_eq. eauto.
  - rewrite !lookup_insert_ne by done. rewrite lookup_partial_alter_ne in Hrel by done. done.
Qed.

(** A step that succeeded did to its own entry what [f] says. *)
Definition step_sound : Prop := forall k v st st' kc,
  body (k, v) st = (st', Ok kc) ->
  exists o, kc.1 = k /\ f k (obs st !! k) v = Ok (o, kc.2) /\
    obs st' = partial_alter (fun _ => o) k (obs st) /\ frame st st'.

(** A step succeeds whenever [f] does. *)
Definition step_complete : Prop := forall k v st o c,
  f k (obs st !! k) v = Ok (o, c) -> exists st', body (k, v) st = (st', Ok (k, c)).

(** A step that does exactly what [f] says. *)
Definition step_exact : Prop := forall k v st,
  match f k (obs st !! k) v with
  | Ok (o, c) => exists st', body (k, v) st = (st', Ok (k, c)) /\
      obs st' = partial_alter (fun _ => o) k (obs st) /\ frame st st'
  | Err e => exists st', body (k, v) st = (st', Err e)
  | Panic => exists st', body (k, v) st = (st', Panic)
  end.

Lemma step_exact_sound : step_exact -> step_sound.
Proof.
  intros Hex k v st st' kc Hrun. specialize (Hex k v st).
  destruct (f k (obs st !! k) v) as [[o c]|e|]; destruct Hex as (st1 & Hb); [|congruence..].
  destruct Hb as (Hb & Hobs & Hfr). rewrite Hrun in Hb. simplify_eq. eauto.
Qed.

Lemma step_exact_complete : step_exact -> step_complete.
Proof. intros Hex k v st o c Hf. specialize (Hex k v st). rewrite Hf in Hex. naive_solver. Qed.

Lemma try_collect_pointwise l st st' out :
  step_sound -> NoDup l.*1 ->
  try_collect body l st = (st', Ok out) ->
  pointwise_rel (list_to_map l) (obs st) (obs st') (list_to_map out) /\
  frame st st' /\ out.*1 = l.*1.
Proof.
  intros Hsound. revert st out. induction l as [|[k v] l IH]; intros st out Hnd Hrun; simpl in *.
  - run_inv. split; [|split; [reflexivity|done]]. intros k. by rewrite !lookup_empty.
  - run_inv. apply NoDup_cons in Hnd as [Hk Hnd].
    edestruct Hsound as (o & Hk1 & Hf & Hobs & Hfr); [eassumption|].
    edestruct IH as (Hrel & Hfr' & Hkeys); [done|eassumption|].
    destruct x as [k' c]; simpl in *; subst k'. split; [|split].
    + by eapply pointwise_rel_cons.
    + by etrans.
    + by f_equal.
Qed.

Lemma try_collect_complete l st :
  step_sound -> step_complete -> NoDup l.*1 ->
  (forall k v, (k, v) ∈ l -> exists r, f k (obs st !! k) v = Ok r) ->
  exists st' out, try_collect body l st = (st', Ok out).
Proof.
  intros Hsound Hcomp. revert st. induction l as [|[k v] l IH]; intros st Hnd Hall; simpl in *.
  - by eexists _, _.
  - apply NoDup_cons in Hnd as [Hk Hnd].
    destruct (Hall k v) as [[o c] Hf]; [left|].
    destruct (Hcomp _ _ _ _ _ Hf) as [st1 Hb].
    destruct (Hsound _ _ _ _ _ Hb) as (o' & _ & Hf' & Hobs & _).
    destruct (IH st1 Hnd) as (st' & out & Hrun).
    { intros j w Hj. rewrite Hobs, lookup_partial_alter_ne; [apply Hall; by right|].
      intros ->. apply Hk. by apply (list_elem_of_fmap_2 fst _ (j, w)). }
    exists st', ((k, c) :: out). rewrite (st_bind_run _ _ _ _ _ Hb).
    by rewrite (st_bind_run _ _ _ _ _ Hrun).
Qed.

Lemma try_collect_no_panic l st :
  (forall x st, no_panic (body x st).2) -> no_panic (try_collect body l st).2.
Proof.
  intros Hb. revert st. induction l as [|x l IH]; intros st; simpl; [done|].
  unfold mbind, st_bind. specialize (Hb x st). destruct (body x st) as [st1 [y|e|]]; [|done|done].
  specialize (IH st1). by destruct (try_collect body l st1) as [st2 [ys|e|]].
Qed.
End pointwise.

Arguments pointwise_rel {_ _ _ _ _ _ _} f m st st' out.
Arguments step_sound {_ _ _ _ _ _ _ _} f obs frame body.
Arguments step_complete {_ _ _ _ _ _ _ _} f obs body.
Arguments step_exact {_ _ _ _ _ _ _ _} f obs frame body.

(** The frame of a body that works on the whole state. *)
Definition no_frame {S} : relation S := fun _ _ => True.
#[global] Instance no_frame_preorder {S} : PreOrder (@no_frame S).
Proof. split; repeat intro; done. Qed.

(** The frame that keeps the part [f] of the state. *)
Definition same {S A} (f : S -> A) : relation S := fun s s' => f s' = f s.
#[global] Instance same_preorder {S A} (f : S -> A) : PreOrder (same f).
Proof. split; repeat intro; unfold same in *; congruence. Qed.

(** A loop over a map that rewrites another map entry by entry succeeds
    exactly when every entry can be rewritten. *)
Lemma try_collect_btree `{BTreeKey K} {A B C E} (f : K -> option A -> B -> result E (option A * C))
    (body : K * B -> ST (gmap K A) E (K * C)) (m : gmap K B) (st st' : gmap K A) (out : gmap K C) :
  step_sound f (fun c => c) no_frame body ->
  step_complete f (fun c => c) body ->
  (exists l, try_collect body (btree_iter m) st = (st', Ok l) /\ btree_collect l = out) <->
  pointwise_rel f m st st' out.
Proof.
  intros Hsound Hcomp.
  assert (forall st' l, try_collect body (btree_iter m) st = (st', Ok l) ->
    pointwise_rel f m st st' (btree_collect l)) as Hrun.
  { intros st1 l Hrun.
    apply (try_collect_pointwise f (fun c => c) no_frame) in Hrun as (Hrel & _ & Hkeys);
      [|done|apply btree_iter_NoDup].
    rewrite list_to_map_btree_iter in Hrel.
    rewrite btree_collect_NoDup; [done|]. rewrite Hkeys. apply btree_iter_NoDup. }
  split; [intros (l & Hl & <-); by apply Hrun|]. intros Hrel.
  destruct (try_collect_complete f (fun c => c) no_frame body (btree_iter m) st)
    as (st1 & l & Hl); [done|done|apply btree_iter_NoDup| |].
  { intros k v Hkv%elem_of_btree_iter. specialize (Hrel k). rewrite Hkv in Hrel. naive_solver. }
  specialize (Hrun _ _ Hl). destruct (pointwise_rel_det _ _ _ _ _ _ _ Hrel Hrun) as [-> ->].
  eauto.
Qed.

(** The same for a loop over a map that rewrites the entries of one part of a
    larger state: it completes when every entry can be rewritten. *)
Lemma try_collect_store `{BTreeKey K} {S A B C E}
    (f : K -> option A -> B -> result E (option A * C)) (obs : S -> gmap K A)
    (frame : relation S) `{!PreOrder frame} (body : K * B -> ST S E (K * C))
    (m : gmap K B) (st : S) :
  step_exact f obs frame body ->
  (forall k v, m !! k = Some v -> exists r, f k (obs st !! k) v = Ok r) ->
  exists st' l, try_collect body (btree_iter m) st = (st', Ok l) /\
    pointwise_rel f m (obs st) (obs st') (btree_collect l) /\ frame st st'.
Proof.
  intros Hex Hall. pose proof (step_exact_sound _ _ _ _ Hex) as Hsound.
  pose proof (step_exact_complete _ _ _ _ Hex) as Hcomp.
  destruct (try_collect_complete f obs frame body (btree_iter m) st)
    as (st' & l & Hl); [done|done|apply btree_iter_NoDup| |].
  { intros k v Hkv%elem_of_btree_iter. eauto. }
  exists st', l. split; [done|].
  apply (try_collect_pointwise f obs frame) in Hl as (Hrel & Hfr & Hkeys);
    [|done|apply btree_iter_NoDup].
  rewrite list_to_map_btree_iter in Hrel. split; [|done].
  rewrite btree_collect_NoDup; [done|]. rewrite Hkeys. apply btree_iter_NoDup.
Qed.

(** A loop without results, as a loop that collects units. *)
Lemma try_for_each_collect {S E A K} (body : A -> ST S E unit) (key : A -> K) l s s' out :
  try_collect (fun x => body x ≫= fun _ => mret (key x, tt)) l s = (s', Ok out) ->
  try_for_each body l s = (s', Ok tt).
Proof.
  revert s out. induction l as [|x l IH]; intros s out; simpl.
  - intros Hrun. by run_inv.
  - unfold mbind, st_bind, mret, st_ret. destruct (body x s) as [s1 [[]|e|]]; [|done|done].
    destruct (try_collect _ l s1) as [s2 [ys|e|]] eqn:Hl; [|done|done].
    intros [= -> _]. by eapply IH.
Qed.

(** The same for [try_for_each], where the body only rewrites entries. *)
Section entrywise.
Context `{BTreeKey K} {A B E : Type}.
Context (g : K -> option A -> B -> result E (option A)).

Definition entry_rel (m : gmap K B) (st st' : gmap K A) : Prop := forall k,
  match m !! k with
  | Some v => g k (st !! k) v = Ok (st' !! k)
  | None => st' !! k = st !! k
  end.

Definition entry_step (f : K * B -> ST (gmap K A) E unit) : Prop := forall k v st,
  match g k (st !! k) v with
  | Ok o => f (k, v) st = (partial_alter (fun _ => o) k st, Ok tt)
  | Err e => exists st', f (k, v) st = (st', Err e)
  | Panic => exists st', f (k, v) st = (st', Panic)
  end.

Lemma try_for_each_entries f l st st' : entry_step f -> NoDup l.*1 ->
  try_for_each f l st = (st', Ok tt) <-> entry_rel (list_to_map l) st st'.
Proof.
  intros Hstep. revert st. induction l as [|[k v] l IH]; intros st Hnd; simpl.
  - unfold mret, st_ret. split.
    + intros [= <-] j. by rewrite lookup_empty.
    + intros Hrel. f_equal. apply map_eq. intros j. specialize (Hrel j).
      by rewrite lookup_empty in Hrel.
  - apply NoDup_cons in Hnd as [Hk Hnd]. pose proof (Hstep k v st) as Hs.
    apply not_elem_of_list_to_map_1 in Hk; simpl in Hk. split.
    + intros Hrun. run_inv. apply IH in H1; [|done]. intros j.
      destruct (g k (st !! k) v) as [o|e|] eqn:Hg; [|naive_solver congruence..].
      rewrite Hs in Hrun. simplify_eq. specialize (H1 j).
      destruct (decide (k = j)) as [<-|Hne].
      * rewrite lookup_insert_eq. rewrite Hk in H1.
        by rewrite H1, lookup_partial_alter_eq.
      * rewrite lookup_insert_ne by done. by rewrite lookup_partial_alter_ne in H1 by done.
    + intros Hrel. pose proof (Hrel k) as Hgk. rewrite lookup_insert_eq in Hgk.
      rewrite Hgk in Hs. rewrite (st_bind_run _ _ _ _ _ Hs). apply IH; [done|].
      intros j. specialize (Hrel j). destruct (decide (k = j)) as [<-|Hne].
      * by rewrite Hk, lookup_partial_alter_eq.
      * rewrite lookup_insert_ne in Hrel by done. by rewrite lookup_partial_alter_ne.
Qed.

Lemma try_for_each_btree f m st st' : entry_step f ->
  try_for_each f (btree_iter m) st = (st', Ok tt) <-> entry_rel m st st'.
Proof.
  intros Hstep. rewrite try_for_each_entries by (done || apply btree_iter_NoDup).
  by rewrite list_to_map_btree_iter.
Qed.

Lemma entry_rel_det m st st1 st2 : entry_rel m st st1 -> entry_rel m st st2 -> st1 = st2.
Proof.
  intros H1 H2. apply map_eq. intros k. specialize (H1 k). specialize (H2 k).
  destruct (m !! k); congruence.
Qed.
End entrywise.

(** * Sums over finite sets *)

Definition Zsum (l : list Z) : Z := foldr Z.add 0 l.

#[global] Instance Zsum_perm : Proper ((≡ₚ) ==> (=)) Zsum.
Proof. intros l1 l2 Hp. induction Hp; unfold Zsum in *; simpl; lia. Qed.

Section sums.
Context `{Countable K}.
Implicit Types (D : gset K) (f g : K -> Z).

Definition sum_over D f : Z := Zsum (f <$> elements D).

Lemma sum_over_empty f : sum_over ∅ f = 0.
Proof. unfold sum_over. by rewrite elements_empty. Qed.

Lemma sum_over_insert D f k : k ∉ D -> sum_over ({[k]} ∪ D) f = f k + sum_over D f.
Proof. intros Hk. unfold sum_over. by rewrite elements_union_singleton. Qed.

Lemma sum_over_ext D f g : (forall k, k ∈ D -> f k = g k) -> sum_over D f = sum_over D g.
Proof.
  intros Heq. unfold sum_over. f_equal. apply list_fmap_ext. intros i k Hk.
  apply Heq. rewrite <- elem_of_elements. by eapply list_elem_of_lookup_2.
Qed.

Lemma sum_over_split D f k : k ∈ D -> sum_over D f = f k + sum_over (D ∖ {[k]}) f.
Proof.
  intros Hk. rewrite <- sum_over_insert by set_solver. f_equal. by apply union_difference_singleton_L.
Qed.

Lemma sum_over_update D f k x : k ∈ D -> sum_over D (<[k:=x]> f) = sum_over D f - f k + x.
Proof.
  intros Hk. rewrite (sum_over_split D (<[k:=x]> f) k), (sum_over_split D f k) by done.
  rewrite fn_lookup_insert.
  rewrite (sum_over_ext _ (<[k:=x]> f) f); [ring|].
  intros j Hj. apply fn_lookup_insert_ne. set_solver.
Qed.

Lemma sum_over_change D f g k :
  k ∈ D -> (forall j, j <> k -> g j = f j) -> sum_over D g = sum_over D f - f k + g k.
Proof.
  intros Hk Hg. rewrite (sum_over_split D f k), (sum_over_split D g k) by done.
  rewrite (sum_over_ext _ g f); [ring|]. intros j Hj. apply Hg. set_solver.
Qed.

Lemma sum_over_nonneg D f : (forall k, 0 <= f k) -> 0 <= sum_over D f.
Proof.
  intros Hf. unfold sum_over. induction (elements D) as [|k l IH]; [done|].
  cbn. specialize (Hf k). unfold Zsum in IH. lia.
Qed.

Lemma sum_over_0 D : sum_over D (fun _ => 0) = 0.
Proof. unfold sum_over. by induction (elements D). Qed.

Lemma sum_over_member D f k : (forall k, 0 <= f k) -> k ∈ D -> f k <= sum_over D f.
Proof.
  intros Hf Hk. rewrite (sum_over_split D f k) by done.
  pose proof (sum_over_nonneg (D ∖ {[k]}) f Hf). lia.
Qed.

Lemma sum_over_mono D (f g : K -> Z) : (forall k, k ∈ D -> f k <= g k) -> sum_over D f <= sum_over D g.
Proof.
  intros Hle. unfold sum_over. assert (forall k, k ∈ elements D -> f k <= g k) as Hl.
  { intros k Hk. by apply Hle, elem_of_elements. }
  clear Hle. induction (elements D) as [|k l IH]; [done|]. cbn.
  specialize (IH ltac:(intros; apply Hl; by right)). specialize (Hl k ltac:(by left)). unfold Zsum in IH. lia.
Qed.

Lemma sum_over_add D (f g : K -> Z) : sum_over D (fun k => f k + g k) = sum_over D f + sum_over D g.
Proof. unfold sum_over. induction (elements D) as [|k l IH]; [done|]. cbn. unfold Zsum in IH. lia. Qed.

Lemma sum_over_scale D (x : Z) f : sum_over D (fun k => x * f k) = x * sum_over D f.
Proof. unfold sum_over. induction (elements D) as [|k l IH]; cbn; [lia|]. unfold Zsum in IH. lia. Qed.

Lemma sum_over_subset D D' f : D ⊆ D' -> (forall k, k ∉ D -> f k = 0) -> sum_over D' f = sum_over D f.
Proof.
  intros Hsub Hf. replace D' with ((D' ∖ D) ∪ D) by (rewrite difference_union_L; set_solver).
  assert (forall k, k ∈ D' ∖ D -> k ∉ D) as Hout by set_solver. revert Hout. clear Hsub.
  induction (D' ∖ D) as [|k X Hk IH] using set_ind_L; intros Hout.
  - by rewrite union_empty_l_L.
  - rewrite <- union_assoc_L, sum_over_insert by set_solver. rewrite IH by set_solver.
    rewrite Hf by set_solver. lia.
Qed.

(** Sums over two sets that both contain everything that counts. *)
Lemma sum_over_support D D' f :
  (forall k, k ∉ D -> f k = 0) -> (forall k, k ∉ D' -> f k = 0) -> sum_over D f = sum_over D' f.
Proof.
  intros HD HD'. rewrite <- (sum_over_subset D (D ∪ D') f), <- (sum_over_subset D' (D ∪ D') f) by (done || set_solver).
  done.
Qed.
End sums.

Lemma Zsum_app l1 l2 : Zsum (l1 ++ l2) = Zsum l1 + Zsum l2.
Proof. induction l1 as [|x l IH]; [done|]. cbn. unfold Zsum in *. lia. Qed.

Lemma Zsum_filter {A} (Q : A -> Prop) `{forall x, Decision (Q x)} (f : A -> Z) (l : list A) :
  Zsum (f <$> filter Q l) = Zsum ((fun x => if decide (Q x) then f x else 0) <$> l).
Proof.
  induction l as [|x l IH]; [done|]. rewrite filter_cons. cbn. case_decide; cbn; unfold Zsum in *; lia.
Qed.

Lemma btree_keys_elements `{BTreeKey K} {V} (m : gmap K V) : (btree_iter m).*1 ≡ₚ elements (dom m).
Proof.
  apply NoDup_Permutation; [apply btree_iter_NoDup|apply NoDup_elements|]. intros k.
  rewrite elem_of_elements, elem_of_dom, list_elem_of_fmap. split.
  - intros ([k' v] & -> & Hin%elem_of_btree_iter). by exists v.
  - intros [v Hv]. exists (k, v). split; [done|]. by apply elem_of_btree_iter.
Qed.

(** The sum of a function of the entries, along the iterator or over the keys. *)
Lemma Zsum_btree `{BTreeKey K} {V} (m : gmap K V) (f : K * V -> Z) (g : K -> Z) :
  (forall k v, m !! k = Some v -> f (k, v) = g k) -> Zsum (f <$> btree_iter m) = sum_over (dom m) g.
Proof.
  intros Hfg. unfold sum_over. rewrite <- (btree_keys_elements m), <- list_fmap_compose. f_equal.
  apply list_fmap_ext. intros i [k v] Hk%list_elem_of_lookup_2. apply Hfg. by apply elem_of_btree_iter.
Qed.
