(* ===== verification/Amount.v ===== *)
(** * Amounts: fixed-width integers, [Amount] and [SignedAmount]

    Models [common/src/primitives/amount/mod.rs] and [signed.rs].  [u128] and
    [i128] are integers that carry the proof of their range, so that an
    overflow is visible as the [None] of a checked operation and never as an
    out-of-range value.  [Amount] and [SignedAmount] are one-field structs
    around them and are identified with them. *)
From S2P Require Import Prelude.

(** ** Integers of a fixed width *)

Definition in_range (lo hi z : Z) : bool := (lo <=? z) && (z <=? hi).

Record bint (lo hi : Z) := mk_bint { ival : Z; ival_ok : in_range lo hi ival = true }.
Arguments mk_bint {_ _} _ _.
Arguments ival {_ _} _.
Arguments ival_ok {_ _} _.

(** The conversion behind [try_into], [checked_add] and the like. *)
Definition bint_of_Z {lo hi : Z} (z : Z) : option (bint lo hi) :=
  match in_range lo hi z as b return in_range lo hi z = b -> option (bint lo hi) with
  | true => fun H => Some (mk_bint z H)
  | false => fun _ => None
  end eq_refl.

Section bint.
Context {lo hi : Z}.
Implicit Types x y : bint lo hi.

Lemma bint_range x : lo <= ival x <= hi.
Proof. destruct x as [z H]; simpl. unfold in_range in H. lia. Qed.

Lemma bint_eq x y : ival x = ival y -> x = y.
Proof.
  destruct x as [x Hx], y as [y Hy]; simpl; intros ->. f_equal. apply (proof_irrel Hx Hy).
Qed.

#[global] Instance bint_eq_dec : EqDecision (bint lo hi).
Proof.
  refine (fun x y => match decide (ival x = ival y) with
                     | left H => left (bint_eq x y H)
                     | right H => right (fun e => H (f_equal ival e))
                     end).
Defined.

Lemma bint_of_Z_Some z x : bint_of_Z z = Some x <-> ival x = z.
Proof.
  unfold bint_of_Z. split.
  - generalize (eq_refl (in_range lo hi z)).
    destruct (in_range lo hi z) at 2 3; intros H [= <-]; done.
  - intros <-. pose proof (ival_ok x) as Hok.
    generalize (eq_refl (in_range lo hi (ival x))).
    destruct (in_range lo hi (ival x)) at 2 3; intros H; [|congruence].
    f_equal. by apply bint_eq.
Qed.

Lemma bint_of_Z_None z : bint_of_Z (lo := lo) (hi := hi) z = None <-> ~ (lo <= z <= hi).
Proof.
  destruct (bint_of_Z z) as [x|] eqn:Hx.
  - apply bint_of_Z_Some in Hx. pose proof (bint_range x). split; [done|lia].
  - split; [intros _|done]. intros Hz.
    assert (in_range lo hi z = true) as H by (unfold in_range; lia).
    rewrite (proj2 (bint_of_Z_Some z (mk_bint z H)) eq_refl) in Hx. done.
Qed.

Lemma bint_of_Z_ival x : bint_of_Z (ival x) = Some x.
Proof. by apply bint_of_Z_Some. Qed.

Lemma bint_of_Z_is_Some z :
  lo <= z <= hi -> exists x : bint lo hi, bint_of_Z z = Some x /\ ival x = z.
Proof.
  intros Hz. destruct (bint_of_Z z) as [x|] eqn:Hx.
  - exists x. split; [done|]. by apply bint_of_Z_Some.
  - apply bint_of_Z_None in Hx. done.
Qed.
End bint.

(** ** Machine types *)

Definition u128_MAX : Z := 2 ^ 128 - 1.
Definition i128_MIN : Z := - 2 ^ 127.
Definition i128_MAX : Z := 2 ^ 127 - 1.

(** [UnsignedIntType] and [SignedIntType]. *)
Abbreviation u128 := (bint 0 u128_MAX).
Abbreviation i128 := (bint i128_MIN i128_MAX).

Lemma u128_MAX_eq : u128_MAX = 340282366920938463463374607431768211455.
Proof. reflexivity. Qed.
Lemma i128_MAX_eq : i128_MAX = 170141183460469231731687303715884105727.
Proof. reflexivity. Qed.
Lemma i128_MIN_eq : i128_MIN = -170141183460469231731687303715884105728.
Proof. reflexivity. Qed.

(** [blia]: [lia] with the ranges of the fixed-width integers in the context. *)
Ltac pose_bint_ranges :=
  repeat match goal with
  | x : bint ?lo ?hi |- _ =>
      lazymatch goal with
      | _ : lo <= ival x <= hi |- _ => fail
      | _ => pose proof (bint_range x)
      end
  end.
Ltac blia :=
  pose_bint_ranges;
  pose proof u128_MAX_eq; pose proof i128_MAX_eq; pose proof i128_MIN_eq; lia.

#[global] Arguments u128_MAX : simpl never.
#[global] Arguments i128_MAX : simpl never.
#[global] Arguments i128_MIN : simpl never.

(** ** [Amount] *)

Abbreviation Amount := u128.
Abbreviation SignedAmount := i128.

Module Amount.
Definition ZERO : Amount := @mk_bint 0 u128_MAX 0 eq_refl.
Definition MAX : Amount := @mk_bint 0 u128_MAX u128_MAX eq_refl.

(** [Amount::from_atoms] on a constant, for concrete inputs (zero when out of range). *)
Definition lit (z : Z) : Amount := default ZERO (bint_of_Z z).

Definition from_signed (a : SignedAmount) : option Amount := bint_of_Z (ival a).
Definition into_signed (a : Amount) : option SignedAmount := bint_of_Z (ival a).

Definition add (a b : Amount) : option Amount := bint_of_Z (ival a + ival b).
Definition sub (a b : Amount) : option Amount := bint_of_Z (ival a - ival b).
Definition mul (a : Amount) (n : u128) : option Amount := bint_of_Z (ival a * ival n).

(** [checked_div] and [checked_rem] fail exactly on a zero divisor. *)
Definition div (a : Amount) (n : u128) : option Amount :=
  if ival n =? 0 then None else bint_of_Z (ival a / ival n).
Definition rem (a : Amount) (n : u128) : option Amount :=
  if ival n =? 0 then None else bint_of_Z (ival a mod ival n).

Definition ltb (a b : Amount) : bool := ival a <? ival b.
Definition leb (a b : Amount) : bool := ival a <=? ival b.
Definition eqb (a b : Amount) : bool := bool_decide (a = b).

(** [abs_diff]: the [expect]s are part of the model. *)
Definition abs_diff (a b : Amount) : result Empty_set Amount :=
  if ltb b a then expect (sub a b) else expect (sub b a).

(** [Sum<Amount> for Option<Amount>]: [try_fold] from zero. *)
Definition sum (l : list Amount) : option Amount :=
  foldl (fun acc a => acc ≫= fun s => add s a) (Some ZERO) l.
End Amount.

Module SignedAmount.
Definition ZERO : SignedAmount := @mk_bint i128_MIN i128_MAX 0 eq_refl.
Definition MIN : SignedAmount := @mk_bint i128_MIN i128_MAX i128_MIN eq_refl.
Definition MAX : SignedAmount := @mk_bint i128_MIN i128_MAX i128_MAX eq_refl.

Definition from_unsigned (a : Amount) : option SignedAmount := bint_of_Z (ival a).
Definition into_unsigned (a : SignedAmount) : option Amount := bint_of_Z (ival a).

Definition add (a b : SignedAmount) : option SignedAmount := bint_of_Z (ival a + ival b).
Definition sub (a b : SignedAmount) : option SignedAmount := bint_of_Z (ival a - ival b).
Definition mul (a b : SignedAmount) : option SignedAmount := bint_of_Z (ival a * ival b).
Definition neg (a : SignedAmount) : option SignedAmount := bint_of_Z (- ival a).

(** Division truncates towards zero; [MIN / -1] overflows and so does [MIN % -1]. *)
Definition div (a b : SignedAmount) : option SignedAmount :=
  if ival b =? 0 then None else bint_of_Z (Z.quot (ival a) (ival b)).
Definition rem (a b : SignedAmount) : option SignedAmount :=
  if ival b =? 0 then None
  else if (ival a =? i128_MIN) && (ival b =? -1) then None
  else bint_of_Z (Z.rem (ival a) (ival b)).

Definition sum (l : list SignedAmount) : option SignedAmount :=
  foldl (fun acc a => acc ≫= fun s => add s a) (Some ZERO) l.
End SignedAmount.

(** ** What the operations compute *)

Create HintDb amount discriminated.

Lemma Amount_add_Some a b c : Amount.add a b = Some c <-> ival c = ival a + ival b.
Proof. apply bint_of_Z_Some. Qed.
Lemma Amount_add_None a b : Amount.add a b = None <-> u128_MAX < ival a + ival b.
Proof. unfold Amount.add. rewrite bint_of_Z_None. blia. Qed.
Lemma Amount_sub_Some a b c : Amount.sub a b = Some c <-> ival c = ival a - ival b.
Proof. apply bint_of_Z_Some. Qed.
Lemma Amount_sub_None a b : Amount.sub a b = None <-> ival a < ival b.
Proof. unfold Amount.sub. rewrite bint_of_Z_None. blia. Qed.
Lemma into_signed_Some a c : Amount.into_signed a = Some c <-> ival c = ival a.
Proof. apply bint_of_Z_Some. Qed.
Lemma into_signed_None a : Amount.into_signed a = None <-> i128_MAX < ival a.
Proof. unfold Amount.into_signed. rewrite bint_of_Z_None. blia. Qed.
Lemma into_unsigned_Some a c : SignedAmount.into_unsigned a = Some c <-> ival c = ival a.
Proof. apply bint_of_Z_Some. Qed.
Lemma into_unsigned_None a : SignedAmount.into_unsigned a = None <-> ival a < 0.
Proof. unfold SignedAmount.into_unsigned. rewrite bint_of_Z_None. blia. Qed.
Lemma SignedAmount_add_Some a b c : SignedAmount.add a b = Some c <-> ival c = ival a + ival b.
Proof. apply bint_of_Z_Some. Qed.
Lemma SignedAmount_add_None a b :
  SignedAmount.add a b = None <-> ~ (i128_MIN <= ival a + ival b <= i128_MAX).
Proof. apply bint_of_Z_None. Qed.
Lemma SignedAmount_neg_Some a c : SignedAmount.neg a = Some c <-> ival c = - ival a.
Proof. apply bint_of_Z_Some. Qed.
Lemma SignedAmount_neg_None a : SignedAmount.neg a = None <-> ival a = i128_MIN.
Proof. unfold SignedAmount.neg. rewrite bint_of_Z_None. blia. Qed.

Lemma Amount_ltb_lt a b : Amount.ltb a b = true <-> ival a < ival b.
Proof. unfold Amount.ltb. lia. Qed.
Lemma Amount_leb_le a b : Amount.leb a b = true <-> ival a <= ival b.
Proof. unfold Amount.leb. lia. Qed.
Lemma Amount_eqb_eq a b : Amount.eqb a b = true <-> a = b.
Proof. unfold Amount.eqb. apply bool_decide_eq_true. Qed.
Lemma ival_ZERO : ival Amount.ZERO = 0.
Proof. done. Qed.

(** [amount_inv] replaces facts about checked operations and comparisons by
    the integer facts they stand for. *)
Ltac amount_inv :=
  repeat match goal with
  | H : Amount.add _ _ = Some _ |- _ => apply Amount_add_Some in H
  | H : Amount.add _ _ = None |- _ => apply Amount_add_None in H
  | H : Amount.sub _ _ = Some _ |- _ => apply Amount_sub_Some in H
  | H : Amount.sub _ _ = None |- _ => apply Amount_sub_None in H
  | H : Amount.into_signed _ = Some _ |- _ => apply into_signed_Some in H
  | H : Amount.into_signed _ = None |- _ => apply into_signed_None in H
  | H : SignedAmount.into_unsigned _ = Some _ |- _ => apply into_unsigned_Some in H
  | H : SignedAmount.into_unsigned _ = None |- _ => apply into_unsigned_None in H
  | H : SignedAmount.add _ _ = Some _ |- _ => apply SignedAmount_add_Some in H
  | H : SignedAmount.add _ _ = None |- _ => apply SignedAmount_add_None in H
  | H : SignedAmount.neg _ = Some _ |- _ => apply SignedAmount_neg_Some in H
  | H : SignedAmount.neg _ = None |- _ => apply SignedAmount_neg_None in H
  | H : Amount.ltb _ _ = true |- _ => apply Amount_ltb_lt in H
  | H : Amount.ltb _ _ = false |- _ => apply not_true_iff_false in H; rewrite Amount_ltb_lt in H
  | H : Amount.leb _ _ = true |- _ => apply Amount_leb_le in H
  | H : Amount.leb _ _ = false |- _ => apply not_true_iff_false in H; rewrite Amount_leb_le in H
  | H : Amount.eqb _ _ = true |- _ => apply Amount_eqb_eq in H
  | H : Amount.eqb _ _ = false |- _ => apply not_true_iff_false in H; rewrite Amount_eqb_eq in H
  end.

(** ** Sums *)

Definition sumZ {lo hi} (l : list (bint lo hi)) : Z := foldr (fun a acc => ival a + acc) 0 l.

Lemma Amount_sum_from (l : list Amount) (s : Amount) :
  foldl (fun acc a => acc ≫= fun s => Amount.add s a) (Some s) l = bint_of_Z (ival s + sumZ l).
Proof.
  revert s. induction l as [|a l IH]; intros s; simpl.
  - by rewrite Z.add_0_r, bint_of_Z_ival.
  - assert (0 <= sumZ l) by (clear; induction l as [|b l]; simpl; [lia|blia]).
    destruct (Amount.add s a) as [t|] eqn:Hadd; amount_inv; simpl.
    + rewrite IH. f_equal. lia.
    + transitivity (None : option Amount).
      * clear. induction l as [|b l IH]; simpl; [done|apply IH].
      * symmetry. apply bint_of_Z_None. lia.
Qed.

(** The iterator sum is the exact sum, or [None] when it leaves [u128]. *)
Lemma Amount_sum_eq (l : list Amount) : Amount.sum l = bint_of_Z (sumZ l).
Proof. unfold Amount.sum. rewrite Amount_sum_from. by rewrite ival_ZERO, Z.add_0_l. Qed.
