(* ===== verification/Uint.v ===== *)
(** * Wide unsigned integers

    Models the [construct_uint!] types of [common/src/uint/impls.rs]
    ([Uint128], [Uint256], [Uint512]): arrays of [n] little-endian 64-bit
    words with the addition, subtraction, multiplication, shifts, comparison
    and bitwise long division written word by word.  The theorems show that
    each operation computes on the words what the integer operation computes
    on the number they stand for, and that no assertion, index or checked
    addition in them ever panics. *)
From S2P Require Import Prelude Amount.

(** The words of a number, least significant first. *)
Abbreviation uint := (list Z).

Definition W : Z := 2 ^ 64.
Definition u64_MAX : Z := W - 1.
#[global] Arguments W : simpl never.
#[global] Arguments u64_MAX : simpl never.

(** ** Operations on [u64] *)

Definition u64_overflowing_add (a b : Z) : Z * bool := ((a + b) mod W, W <=? a + b).
Definition u64_not (a : Z) : Z := Z.lnot a mod W.
Definition u64_shl (a : Z) (s : nat) : Z := Z.shiftl a (Z.of_nat s) mod W.
Definition u64_shr (a : Z) (s : nat) : Z := Z.shiftr a (Z.of_nat s).
Definition u64_leading_zeros (a : Z) : nat :=
  if a =? 0 then 64%nat else (63 - Z.to_nat (Z.log2 a))%nat.

Section uint.
Context {E : Type}.

(** Array indexing and [a += b], which panic out of range (the crate is built
    with overflow checks). *)
Definition index (l : uint) (i : nat) : result E Z := expect (l !! i).
Definition add_assign (l : uint) (i : nat) (b : Z) : result E uint :=
  a ← index l i;
  _ ← assert_true (a + b <? W);
  Ok (<[i := a + b]> l).

(** [for i in l { state = f(state, i) }]. *)
Fixpoint for_each {A B} (f : A -> B -> result E A) (l : list B) (s : A) : result E A :=
  match l with
  | [] => Ok s
  | x :: l' => s' ← f s x; for_each f l' s'
  end.

(** ** Constants and conversions *)

Definition from_u64 (n : nat) (init : Z) : uint := <[0%nat := init]> (replicate n 0).
Definition from_u128 (n : nat) (init : u128) : uint :=
  <[1%nat := Z.shiftr (ival init) 64 mod W]> (<[0%nat := ival init mod W]> (replicate n 0)).
Definition ZERO (n : nat) : uint := from_u64 n 0.
Definition ONE (n : nat) : uint := from_u64 n 1.
Definition MAX (n : nat) : uint := replicate n u64_MAX.

(** ** Multiplication by one word *)

Fixpoint widening_mul_u64_loop (lhs : uint) (rhs carry : Z) : result E (uint * Z) :=
  match lhs with
  | [] => Ok ([], carry)
  | w :: lhs' =>
      _ ← assert_true (carry <? u64_MAX);
      let prod := w * rhs in
      _ ← assert_true (prod <=? u64_MAX * u64_MAX);
      let prod := prod + carry in
      _ ← assert_true (prod <? u64_MAX * u64_MAX + u64_MAX);
      '(res, carry') ← widening_mul_u64_loop lhs' rhs (Z.shiftr prod 64 mod W);
      Ok (prod mod W :: res, carry')
  end.
Definition widening_mul_u64 (self : uint) (rhs : Z) : result E (uint * Z) :=
  widening_mul_u64_loop self rhs 0.

(** ** Addition and subtraction *)

Fixpoint overflowing_add_with_carry (lhs rhs : uint) (carry : bool) : uint * bool :=
  match lhs, rhs with
  | l :: lhs', r :: rhs' =>
      let '(ab, ab_c) := u64_overflowing_add l r in
      let '(abc, abc_c) := u64_overflowing_add ab (Z.b2z carry) in
      let '(ret, carry') := overflowing_add_with_carry lhs' rhs' (ab_c || abc_c) in
      (abc :: ret, carry')
  | _, _ => ([], carry)
  end.
Definition overflowing_add (self other : uint) : uint * bool :=
  overflowing_add_with_carry self other false.
Definition uint_not (self : uint) : uint := u64_not <$> self.
Definition unchecked_sub (self other : uint) : uint :=
  let a := (overflowing_add self (uint_not other)).1 in
  (overflowing_add a (ONE (length self))).1.

(** ** Order: from the most significant word down *)

Fixpoint cmp_from_top (a b : uint) : comparison :=
  match a, b with
  | x :: a', y :: b' => if x <? y then Lt else if y <? x then Gt else cmp_from_top a' b'
  | _, _ => Eq
  end.
Definition cmp (a b : uint) : comparison := cmp_from_top (reverse a) (reverse b).
Definition geb (a b : uint) : bool := match cmp a b with Lt => false | _ => true end.

Definition checked_add (self other : uint) : option uint :=
  let '(result, carry) := overflowing_add self other in
  if carry then None else Some result.
Definition checked_sub (self other : uint) : option uint :=
  if geb self other then Some (unchecked_sub self other) else None.

(** ** Multiplication *)

Definition shr_words (self : uint) (k : nat) : uint := drop k self ++ replicate k 0.
Definition shl_words (self : uint) (k : nat) : uint :=
  replicate k 0 ++ take (length self - k) self.

Definition widening_mul_step (self : uint) (res : uint * uint) (entry : nat * Z) :
    result E (uint * uint) :=
  let '(res_lo, res_hi) := res in
  let '(i, rhs_i) := entry in
  '(res_i, carry_mul) ← widening_mul_u64 self rhs_i;
  let lo := shl_words res_i i in
  let hi := <[i := carry_mul]> (shr_words res_i (length self - i)) in
  let '(res_lo_new, carry0) := overflowing_add res_lo lo in
  let '(res_hi_new, carry1) := overflowing_add_with_carry res_hi hi carry0 in
  _ ← assert_true (negb carry1);
  Ok (res_lo_new, res_hi_new).
Definition widening_mul (self other : uint) : result E (uint * uint) :=
  let n := length self in
  for_each (widening_mul_step self) (imap pair other) (replicate n 0, replicate n 0).
Definition checked_mul (self other : uint) : result E (option uint) :=
  '(res, res_hi) ← widening_mul self other;
  Ok (if bool_decide (res_hi = ZERO (length self)) then Some res else None).

(** ** Shifts *)

Definition shl_step (original : uint) (word_shift bit_shift : nat) (ret : uint) (i : nat) :
    result E uint :=
  let n := length original in
  ret ← (if decide (i + word_shift < n)%nat
         then o ← index original i; add_assign ret (i + word_shift) (u64_shl o bit_shift)
         else Ok ret);
  if decide (0 < bit_shift /\ i + word_shift + 1 < n)%nat
  then o ← index original i; add_assign ret (i + word_shift + 1) (u64_shr o (64 - bit_shift))
  else Ok ret.
Definition shl (self : uint) (shift : nat) : result E uint :=
  let n := length self in
  for_each (shl_step self (shift / 64) (shift mod 64)) (seq 0 n) (replicate n 0).

Definition shr_step (original : uint) (word_shift bit_shift : nat) (ret : uint) (i : nat) :
    result E uint :=
  let n := length original in
  ret ← (o ← index original i; add_assign ret (i - word_shift) (u64_shr o bit_shift));
  if decide (0 < bit_shift /\ i < n - 1)%nat
  then o ← index original (i + 1); add_assign ret (i - word_shift) (u64_shl o (64 - bit_shift))
  else Ok ret.
Definition shr (self : uint) (shift : nat) : result E uint :=
  let n := length self in
  let word_shift := (shift / 64)%nat in
  for_each (shr_step self word_shift (shift mod 64)) (seq word_shift (n - word_shift))
    (replicate n 0).

(** ** Long division *)

(** The most significant non-zero word decides; [arr[0]] when all others are zero. *)
Fixpoint bits_from_top (top_first : uint) : nat :=
  match top_first with
  | [] => 0
  | [w] => (64 - u64_leading_zeros w)%nat
  | w :: rest =>
      if 0 <? w then (64 * length top_first - u64_leading_zeros w)%nat else bits_from_top rest
  end.
Definition bits (self : uint) : nat := bits_from_top (reverse self).

(** [ret[shift / 64] |= 1 << (shift % 64)]. *)
Definition set_bit (ret : uint) (shift : nat) : result E uint :=
  w ← index ret (shift / 64);
  Ok (<[(shift / 64)%nat := Z.lor w (u64_shl 1 (shift mod 64))]> ret).

Definition div_rem_step (shift : nat) (sub_copy shift_copy ret : uint) : result E (uint * uint) :=
  if geb sub_copy shift_copy
  then ret' ← set_bit ret shift; Ok (ret', unchecked_sub sub_copy shift_copy)
  else Ok (ret, sub_copy).

Fixpoint div_rem_loop (shift : nat) (sub_copy shift_copy ret : uint) : result E (uint * uint) :=
  '(ret, sub_copy) ← div_rem_step shift sub_copy shift_copy ret;
  shift_copy ← shr shift_copy 1;
  match shift with
  | O => Ok (ret, sub_copy)
  | S shift' => div_rem_loop shift' sub_copy shift_copy ret
  end.

Definition div_rem (self other : uint) : result E (uint * uint) :=
  let n := length self in
  let my_bits := bits self in
  let your_bits := bits other in
  _ ← assert_true (negb (your_bits =? 0)%nat);
  if decide (my_bits < your_bits)%nat then Ok (replicate n 0, self)
  else
    let shift := (my_bits - your_bits)%nat in
    shift_copy ← shl other shift;
    div_rem_loop shift self shift_copy (replicate n 0).

Definition checked_div (self other : uint) : result E (option uint) :=
  if bool_decide (other = ZERO (length self)) then Ok None
  else '(q, _) ← div_rem self other; Ok (Some q).
Definition checked_rem (self other : uint) : result E (option uint) :=
  if bool_decide (other = ZERO (length self)) then Ok None
  else '(_, r) ← div_rem self other; Ok (Some r).

(** ** Narrowing *)

(** [u128::try_from(Uint256)]. *)
Definition try_into_u128 (self : uint) : result E (option u128) :=
  match cmp self (from_u128 4 Amount.MAX) with
  | Gt => Ok None
  | _ => lo ← index self 0; hi ← index self 1; v ← expect (bint_of_Z (lo + W * hi)); Ok (Some v)
  end.

(** [From<Uint256> for Uint512]. *)
Definition into_uint512 (n : uint) : uint := take 4 n ++ replicate 4 0.
(** [TryFrom<Uint512> for Uint256]. *)
Definition try_into_uint256 (n : uint) : option uint :=
  match cmp n (into_uint512 (MAX 4)) with
  | Gt => None
  | _ => Some (take 4 n)
  end.
End uint.

(** ** Bytes of a hash *)

(** [slice_to_u64_le]. *)
Definition slice_to_u64_le (slice : list Z) : Z :=
  foldl Z.lor 0 (imap (fun i b => Z.shiftl b (8 * Z.of_nat i)) slice).
(** [Uint256::from_bytes]: the bytes in chunks of eight. *)
Definition from_bytes (bytes : list Z) : uint :=
  (fun i => slice_to_u64_le (take 8 (drop (8 * i) bytes))) <$> seq 0 4.
(** The 32 bytes of a hash, given as the number they spell in big-endian
    order. *)
Definition hash_bytes (hash : N) : list Z :=
  (fun i => Z.of_N hash / 256 ^ (31 - Z.of_nat i) mod 256) <$> seq 0 32.
(** [From<H256> for Uint256]. *)
Definition hash_to_uint (hash : N) : uint := from_bytes (hash_bytes hash).

(** * The number behind the words *)

Lemma W_eq : W = 18446744073709551616.
Proof. reflexivity. Qed.
Lemma W_pow : W = 2 ^ 64.
Proof. reflexivity. Qed.
Ltac wordlia := pose proof W_eq; unfold u64_MAX in *; nia.

Definition word (w : Z) : Prop := 0 <= w < W.

Fixpoint value (u : uint) : Z :=
  match u with
  | [] => 0
  | w :: u' => w + W * value u'
  end.

(** A well-formed number of [n] words. *)
Definition wf (n : nat) (u : uint) : Prop := length u = n /\ Forall word u.

Section value.
Implicit Types (u v : uint) (n : nat).

Lemma wf_cons n w u : wf (S n) (w :: u) <-> word w /\ wf n u.
Proof.
  unfold wf. rewrite Forall_cons. simpl. split; [intros [[=] [? ?]]|intros [? [? ?]]]; auto.
Qed.

Lemma wf_0 u : wf 0 u -> u = [].
Proof. intros [Hl _]. by destruct u. Qed.

Lemma W_pow_S n : W ^ Z.of_nat (S n) = W * W ^ Z.of_nat n.
Proof. rewrite Nat2Z.inj_succ, Z.pow_succ_r; lia. Qed.

Lemma W_pow_pos n : 0 < W ^ Z.of_nat n.
Proof. apply Z.pow_pos_nonneg; wordlia. Qed.

Lemma value_range n u : wf n u -> 0 <= value u < W ^ Z.of_nat n.
Proof.
  revert n. induction u as [|w u IH]; intros n Hwf.
  - destruct Hwf as [<- _]. simpl. lia.
  - destruct n as [|n]; [by destruct Hwf|]. apply wf_cons in Hwf as [Hw Hu].
    specialize (IH n Hu). rewrite W_pow_S. simpl. unfold word in Hw. nia.
Qed.

Lemma value_app u v : value (u ++ v) = value u + W ^ Z.of_nat (length u) * value v.
Proof.
  induction u as [|w u IH]; [simpl; lia|].
  rewrite <- app_comm_cons. cbn [value length]. rewrite IH, W_pow_S. lia.
Qed.

Lemma value_replicate n : value (replicate n 0) = 0.
Proof. induction n as [|n IH]; simpl; lia. Qed.

Lemma wf_replicate n : wf n (replicate n 0).
Proof.
  split; [apply length_replicate|]. apply Forall_replicate. unfold word. wordlia.
Qed.

Lemma value_inj n u v : wf n u -> wf n v -> value u = value v -> u = v.
Proof.
  revert n v. induction u as [|w u IH]; intros n v Hu Hv Heq.
  - destruct Hu as [<- _]. by apply wf_0 in Hv.
  - destruct n as [|n]; [by apply wf_0 in Hu|]. destruct v as [|x v]; [by destruct Hv|].
    apply wf_cons in Hu as [Hw Hu], Hv as [Hx Hv]. simpl in Heq. unfold word in *.
    assert (w = x /\ value u = value v) as [-> Hval].
    { assert (w mod W = x mod W) as Hm.
      { rewrite <- (Z.mod_add w (value u) W), <- (Z.mod_add x (value v) W) by wordlia.
        f_equal. lia. }
      rewrite !Z.mod_small in Hm by lia. split; [done|]. wordlia. }
    f_equal. by eapply IH.
Qed.

Lemma wf_length n u : wf n u -> length u = n.
Proof. by intros [? _]. Qed.

Lemma wf_lookup n u i w : wf n u -> u !! i = Some w -> word w.
Proof. intros [_ Hf] Hi. by eapply Forall_lookup_1. Qed.

Lemma wf_insert n u i w : wf n u -> word w -> wf n (<[i:=w]> u).
Proof.
  intros [Hl Hf] Hw. split; [by rewrite length_insert|]. by apply Forall_insert.
Qed.

Lemma value_from_u64 n w : word w -> wf (S n) (from_u64 (S n) w) /\ value (from_u64 (S n) w) = w.
Proof.
  intros Hw. unfold from_u64. split.
  - apply wf_insert; [apply wf_replicate|done].
  - simpl. rewrite value_replicate. lia.
Qed.

Lemma value_from_u128 n a : wf (S (S n)) (from_u128 (S (S n)) a) /\
  value (from_u128 (S (S n)) a) = ival a.
Proof.
  unfold from_u128. pose proof (bint_range a) as Ha. pose proof u128_MAX_eq as HM.
  rewrite Z.shiftr_div_pow2, <- W_pow by lia. split.
  - apply wf_insert; [apply wf_insert; [apply wf_replicate|]|];
      unfold word; apply Z.mod_pos_bound; wordlia.
  - simpl. rewrite value_replicate.
    rewrite (Z.mod_small (ival a / W)).
    + pose proof (Z.div_mod (ival a) W). wordlia.
    + split; [apply Z.div_pos; wordlia|]. apply Z.div_lt_upper_bound; wordlia.
Qed.
End value.

(** * Addition, negation, subtraction, order *)

Section add.
Implicit Types (u v : uint) (n : nat).

Lemma overflowing_add_with_carry_value n u v c :
  wf n u -> wf n v ->
  wf n (overflowing_add_with_carry u v c).1 /\
  value (overflowing_add_with_carry u v c).1
    + W ^ Z.of_nat n * Z.b2z (overflowing_add_with_carry u v c).2
  = value u + value v + Z.b2z c.
Proof.
  revert n v c. induction u as [|x u IH]; intros n v c Hu Hv.
  - destruct Hu as [<- _]. apply wf_0 in Hv. subst. simpl. split; [by split|lia].
  - destruct n as [|n]; [by apply wf_0 in Hu|]. destruct v as [|y v]; [by destruct Hv|].
    apply wf_cons in Hu as [Hx Hu], Hv as [Hy Hv]. simpl. unfold u64_overflowing_add.
    set (c1 := (W <=? x + y) || (W <=? (x + y) mod W + Z.b2z c)).
    specialize (IH n v c1 Hu Hv).
    destruct (overflowing_add_with_carry u v c1) as [r c'] eqn:Hr. simpl in *.
    destruct IH as [Hwf Hval]. rewrite wf_cons. split.
    + split; [unfold word; apply Z.mod_pos_bound; wordlia|done].
    + rewrite W_pow_S. unfold word in *.
      assert (((x + y) mod W + Z.b2z c) mod W + W * Z.b2z c1 = x + y + Z.b2z c) as Hw.
      { unfold c1. pose proof (Z.div_mod (x + y) W).
        assert (0 <= Z.b2z c <= 1) by (destruct c; simpl; lia).
        destruct (Z.leb_spec W (x + y)); simpl.
        - replace ((x + y) mod W) with (x + y - W)
            by (symmetry; rewrite <- (Z.mod_small (x + y - W) W) by lia;
                rewrite <- (Z.mod_add (x + y - W) 1 W) by wordlia; f_equal; lia).
          rewrite Z.mod_small by wordlia. lia.
        - rewrite (Z.mod_small (x + y)) by lia.
          destruct (Z.leb_spec W (x + y + Z.b2z c)); simpl.
          + replace (x + y + Z.b2z c) with W by lia. rewrite Z.mod_same; wordlia.
          + rewrite Z.mod_small; lia. }
      nia.
Qed.

Lemma u64_not_eq w : word w -> u64_not w = u64_MAX - w.
Proof.
  unfold word, u64_not, u64_MAX. intros Hw. rewrite <- (Z.mod_small (W - 1 - w) W) by lia.
  rewrite <- (Z.mod_add (Z.lnot w) 1 W) by wordlia. f_equal. unfold Z.lnot. lia.
Qed.

Lemma uint_not_value n u : wf n u -> wf n (uint_not u) /\ value (uint_not u) = W ^ Z.of_nat n - 1 - value u.
Proof.
  revert n. induction u as [|w u IH]; intros n Hu.
  - destruct Hu as [<- _]. split; [done|]. simpl. lia.
  - destruct n as [|n]; [by apply wf_0 in Hu|]. apply wf_cons in Hu as [Hw Hu].
    specialize (IH n Hu) as [Hwf Hval]. unfold uint_not in *. cbn [fmap list_fmap value].
    rewrite wf_cons, Hval, W_pow_S, u64_not_eq by done. unfold u64_MAX, word in *.
    split; [split; [lia|done]|lia].
Qed.

Lemma unchecked_sub_value n u v :
  wf n u -> wf n v -> value v <= value u ->
  wf n (unchecked_sub u v) /\ value (unchecked_sub u v) = value u - value v.
Proof.
  intros Hu Hv Hle. destruct n as [|n].
  { apply wf_0 in Hu, Hv. subst. split; [done|reflexivity]. }
  unfold unchecked_sub, overflowing_add. rewrite (wf_length _ _ Hu).
  destruct (uint_not_value _ _ Hv) as [Hn Hnv].
  destruct (overflowing_add_with_carry_value _ _ _ false Hu Hn) as [Ha Hav].
  destruct (value_from_u64 n 1) as [Ho Hov]; [unfold word; wordlia|].
  destruct (overflowing_add_with_carry_value _ _ _ false Ha Ho) as [Hr Hrv].
  split; [done|]. unfold ONE in *. rewrite Hov in Hrv. rewrite Hnv in Hav.
  pose proof (value_range _ _ Hu). pose proof (value_range _ _ Hv).
  pose proof (value_range _ _ Ha). pose proof (value_range _ _ Hr).
  pose proof (W_pow_pos (S n)). simpl Z.b2z in *.
  destruct (overflowing_add_with_carry u (uint_not v) false) as [a [|]],
    (overflowing_add_with_carry _ (from_u64 (S n) 1) false) as [r [|]]; simpl in *; nia.
Qed.

Lemma cmp_from_top_app u v x y :
  length u = length v ->
  cmp_from_top (u ++ [x]) (v ++ [y]) =
    match cmp_from_top u v with
    | Eq => Z.compare x y
    | o => o
    end.
Proof.
  revert v. induction u as [|a u IH]; intros [|b v] Hl; try done; simpl.
  - destruct (Z.ltb_spec x y), (Z.ltb_spec y x), (Z.compare_spec x y); lia || done.
  - destruct (a <? b), (b <? a); try done. apply IH. simpl in Hl. lia.
Qed.

Lemma cmp_value n u v : wf n u -> wf n v -> cmp u v = Z.compare (value u) (value v).
Proof.
  revert n v. induction u as [|x u IH]; intros n v Hu Hv.
  - destruct Hu as [<- _]. apply wf_0 in Hv. by subst.
  - destruct n as [|n]; [by apply wf_0 in Hu|]. destruct v as [|y v]; [by destruct Hv|].
    apply wf_cons in Hu as [Hx Hu], Hv as [Hy Hv]. specialize (IH n v Hu Hv).
    unfold cmp in *. rewrite !reverse_cons, cmp_from_top_app.
    2: { rewrite !length_reverse. by rewrite (wf_length _ _ Hu), (wf_length _ _ Hv). }
    rewrite IH. simpl. unfold word in *.
    destruct (Z.compare_spec (value u) (value v)).
    + destruct (Z.compare_spec x y); symmetry;
        [apply Z.compare_eq_iff|apply Z.compare_lt_iff|apply Z.compare_gt_iff]; lia.
    + symmetry. apply Z.compare_lt_iff. nia.
    + symmetry. apply Z.compare_gt_iff. nia.
Qed.

Lemma geb_value n u v : wf n u -> wf n v -> geb u v = (value v <=? value u).
Proof.
  intros Hu Hv. unfold geb. rewrite (cmp_value _ _ _ Hu Hv).
  destruct (Z.compare_spec (value u) (value v)), (Z.leb_spec (value v) (value u)); lia || done.
Qed.
End add.

(** * Multiplication *)

Section mul.
Context {E : Type}.
Implicit Types (u v : uint) (n : nat).

Lemma widening_mul_u64_loop_value n u rhs carry :
  wf n u -> word rhs -> 0 <= carry < u64_MAX ->
  exists res c, @widening_mul_u64_loop E u rhs carry = Ok (res, c) /\ wf n res /\
    0 <= c < u64_MAX /\ value res + W ^ Z.of_nat n * c = value u * rhs + carry.
Proof.
  revert n carry. induction u as [|w u IH]; intros n carry Hu Hr Hc.
  - destruct Hu as [<- _]. exists [], carry. simpl. split; [done|]. split; [done|]. lia.
  - destruct n as [|n]; [by apply wf_0 in Hu|]. apply wf_cons in Hu as [Hw Hu].
    unfold word in Hw, Hr. simpl. unfold u64_MAX in *.
    assert (0 <= w * rhs <= (W - 1) * (W - 1)) as Hp by nia.
    destruct (Z.ltb_spec carry (W - 1)); [|lia]. simpl.
    destruct (Z.leb_spec (w * rhs) ((W - 1) * (W - 1))); [|lia]. simpl.
    destruct (Z.ltb_spec (w * rhs + carry) ((W - 1) * (W - 1) + (W - 1))); [|lia]. simpl.
    rewrite Z.shiftr_div_pow2, <- W_pow by lia.
    assert (0 <= (w * rhs + carry) / W < W - 1) as Hq.
    { split; [apply Z.div_pos; wordlia|]. apply Z.div_lt_upper_bound; wordlia. }
    rewrite (Z.mod_small ((w * rhs + carry) / W)) by lia.
    destruct (IH n ((w * rhs + carry) / W) Hu Hr Hq) as (res & c & -> & Hwf & Hcr & Hval).
    simpl. exists ((w * rhs + carry) mod W :: res), c. split; [done|]. split; [|split; [done|]].
    + apply wf_cons. split; [|done]. unfold word. apply Z.mod_pos_bound. wordlia.
    + rewrite W_pow_S. cbn [value]. pose proof (Z.div_mod (w * rhs + carry) W).
      pose proof W_eq. nia.
Qed.

Lemma shl_words_value n u i :
  wf n u -> (i <= n)%nat ->
  wf n (shl_words u i) /\
  value (shl_words u i) = W ^ Z.of_nat i * value (take (n - i) u).
Proof.
  intros [Hl Hf] Hi. unfold shl_words. rewrite Hl. split.
  - split.
    + rewrite length_app, length_replicate, length_take. lia.
    + apply Forall_app. split; [apply Forall_replicate; unfold word; wordlia|by apply Forall_take].
  - rewrite value_app, value_replicate, length_replicate. lia.
Qed.

Lemma shr_words_value n u i :
  wf n u -> (i <= n)%nat -> wf n (shr_words u i) /\ value (shr_words u i) = value (drop i u).
Proof.
  intros [Hl Hf] Hi. unfold shr_words. split.
  - split.
    + rewrite length_app, length_replicate, length_drop. lia.
    + apply Forall_app. split; [by apply Forall_drop|apply Forall_replicate; unfold word; wordlia].
  - rewrite value_app, value_replicate. lia.
Qed.

(** Writing the zero word just above the shifted ones. *)
Lemma shr_words_insert_value n u i c :
  wf n u -> (i < n)%nat -> word c ->
  wf n (<[i := c]> (shr_words u (n - i))) /\
  value (<[i := c]> (shr_words u (n - i))) = value (drop (n - i) u) + W ^ Z.of_nat i * c.
Proof.
  intros Hu Hi Hc. destruct (shr_words_value n u (n - i) Hu) as [Hw _]; [lia|].
  split; [by apply wf_insert|]. unfold shr_words.
  assert (length (drop (n - i) u) = i) as Hd.
  { rewrite length_drop, (wf_length _ _ Hu). lia. }
  rewrite insert_app_r_alt by lia. rewrite Hd, Nat.sub_diag.
  destruct (n - i)%nat as [|k] eqn:Hk; [lia|]. simpl.
  rewrite value_app, Hd. simpl. rewrite value_replicate. lia.
Qed.

Lemma widening_mul_step_value n u lo hi i w acc :
  wf n u -> wf n lo -> wf n hi -> word w -> (i < n)%nat ->
  value lo + W ^ Z.of_nat n * value hi = value u * acc -> 0 <= acc < W ^ Z.of_nat i ->
  exists lo' hi', @widening_mul_step E u (lo, hi) (i, w) = Ok (lo', hi') /\
    wf n lo' /\ wf n hi' /\
    value lo' + W ^ Z.of_nat n * value hi' = value u * (acc + W ^ Z.of_nat i * w).
Proof.
  intros Hu Hlo Hhi Hw Hi Hval Hacc. unfold widening_mul_step, widening_mul_u64.
  destruct (widening_mul_u64_loop_value n u w 0 Hu Hw) as (r & c & -> & Hr & Hc & Hrv);
    [wordlia|]. simpl. rewrite (wf_length _ _ Hu).
  destruct (shl_words_value n r i Hr) as [Hl Hlv]; [lia|].
  destruct (shr_words_insert_value n r i c Hr Hi) as [Hh Hhv]; [unfold word, u64_MAX in *; lia|].
  destruct (overflowing_add_with_carry_value n lo (shl_words r i) false Hlo Hl) as [Ha Hav].
  unfold overflowing_add.
  destruct (overflowing_add_with_carry lo (shl_words r i) false) as [lo' c0]. simpl in Ha, Hav.
  destruct (overflowing_add_with_carry_value n hi _ c0 Hhi Hh) as [Hb Hbv].
  destruct (overflowing_add_with_carry hi _ c0) as [hi' c1]. simpl in Hb, Hbv.
  rewrite Hlv in Hav. rewrite Hhv in Hbv.
  assert (value r = value (take (n - i) r) + W ^ Z.of_nat (n - i) * value (drop (n - i) r)) as Hsplit.
  { rewrite <- (take_drop (n - i) r) at 1. rewrite value_app, length_take, (wf_length _ _ Hr).
    by rewrite Nat.min_l by lia. }
  assert (W ^ Z.of_nat i * W ^ Z.of_nat (n - i) = W ^ Z.of_nat n) as Hpow.
  { rewrite <- Z.pow_add_r by lia. f_equal. lia. }
  assert (value lo' + W ^ Z.of_nat n * (value hi' + W ^ Z.of_nat n * Z.b2z c1)
    = value u * (acc + W ^ Z.of_nat i * w)) as Htot.
  { rewrite Hbv. transitivity (value lo + W ^ Z.of_nat n * value hi
      + W ^ Z.of_nat i * (value r + W ^ Z.of_nat n * c)).
    - rewrite Hsplit, <- Hpow. rewrite <- Hpow in Hav. simpl in Hav. nia.
    - rewrite Hrv, Hval. lia. }
  assert (c1 = false) as ->.
  { destruct c1; [|done]. exfalso. pose proof (value_range _ _ Hu). pose proof (value_range _ _ Ha).
    pose proof (value_range _ _ Hb). unfold word in Hw.
    assert (acc + W ^ Z.of_nat i * w < W ^ Z.of_nat (S i)) by (rewrite W_pow_S; nia).
    assert (W ^ Z.of_nat (S i) <= W ^ Z.of_nat n) by (apply Z.pow_le_mono_r; wordlia).
    simpl in Htot. nia. }
  simpl. exists lo', hi'. simpl in Htot. split; [done|]. split; [done|]. split; [done|]. lia.
Qed.

Lemma widening_mul_loop_value n u l lo hi i acc :
  wf n u -> wf n lo -> wf n hi -> Forall word l -> (i + length l <= n)%nat ->
  value lo + W ^ Z.of_nat n * value hi = value u * acc -> 0 <= acc < W ^ Z.of_nat i ->
  exists lo' hi', @for_each E _ _ (widening_mul_step u)
      (imap (fun j w => ((i + j)%nat, w)) l) (lo, hi) = Ok (lo', hi') /\
    wf n lo' /\ wf n hi' /\
    value lo' + W ^ Z.of_nat n * value hi' = value u * (acc + W ^ Z.of_nat i * value l).
Proof.
  revert lo hi i acc. induction l as [|w l IH]; intros lo hi i acc Hu Hlo Hhi Hl Hi Hval Hacc.
  - exists lo, hi. simpl. repeat (split; [done|]). lia.
  - apply Forall_cons in Hl as [Hw Hl]. cbn [length] in Hi. cbn [imap for_each].
    rewrite Nat.add_0_r.
    destruct (widening_mul_step_value n u lo hi i w acc) as (lo1 & hi1 & -> & Hlo1 & Hhi1 & Hv1);
      [done..|lia|done|done|]. cbn [mbind result_bind].
    destruct (IH lo1 hi1 (S i) (acc + W ^ Z.of_nat i * w)) as (lo2 & hi2 & Hrun & Hlo2 & Hhi2 & Hv2);
      try done; try lia.
    { rewrite W_pow_S. unfold word in Hw. nia. }
    exists lo2, hi2. split; [|split; [done|split; [done|]]].
    + rewrite <- Hrun. f_equal. apply imap_ext. intros j x _. simpl. f_equal. lia.
    + rewrite Hv2, W_pow_S. cbn [value]. lia.
Qed.

Lemma widening_mul_value n u v :
  wf n u -> wf n v ->
  exists lo hi, @widening_mul E u v = Ok (lo, hi) /\ wf n lo /\ wf n hi /\
    value lo + W ^ Z.of_nat n * value hi = value u * value v.
Proof.
  intros Hu Hv. unfold widening_mul. rewrite (wf_length _ _ Hu).
  destruct (widening_mul_loop_value n u v (replicate n 0) (replicate n 0) 0 0)
    as (lo & hi & Hrun & Hlo & Hhi & Hval); try done; try apply wf_replicate.
  - apply Hv.
  - rewrite (wf_length _ _ Hv). lia.
  - rewrite value_replicate. lia.
  - exists lo, hi. split; [|split; [done|split; [done|]]].
    + rewrite <- Hrun. f_equal.
    + rewrite Hval. change (Z.of_nat 0) with 0. rewrite Z.pow_0_r. lia.
Qed.

(** [checked_mul] is the product, or [None] when it needs more than [n] words. *)
Lemma checked_mul_value n u v :
  wf (S n) u -> wf (S n) v ->
  exists r, @checked_mul E u v = Ok r /\
    match r with
    | Some p => wf (S n) p /\ value p = value u * value v
    | None => W ^ Z.of_nat (S n) <= value u * value v
    end.
Proof.
  intros Hu Hv. unfold checked_mul.
  destruct (widening_mul_value (S n) u v Hu Hv) as (lo & hi & -> & Hlo & Hhi & Hval).
  cbn [mbind result_bind]. eexists. split; [done|]. rewrite (wf_length _ _ Hu). unfold ZERO.
  destruct (value_from_u64 n 0) as [Hz Hzv]; [unfold word; wordlia|].
  case_bool_decide as Hhz.
  - split; [done|]. rewrite Hhz, Hzv in Hval. lia.
  - assert (value hi <> 0).
    { intros Hh. apply Hhz. eapply value_inj; [done|done|]. congruence. }
    pose proof (value_range _ _ Hlo). pose proof (value_range _ _ Hhi).
    pose proof (W_pow_pos (S n)). nia.
Qed.
End mul.

(** * Bits and shifts *)

Section bits.
Implicit Types (u : uint) (n : nat).

(** A number split at bit [b]. *)
Lemma testbit_split b lo v p :
  0 <= b -> 0 <= lo < 2 ^ b -> 0 <= p ->
  Z.testbit (lo + 2 ^ b * v) p = if p <? b then Z.testbit lo p else Z.testbit v (p - b).
Proof.
  intros Hb Hlo Hp. assert (0 < 2 ^ b) by lia. destruct (Z.ltb_spec p b).
  - rewrite <- (Z.mod_pow2_bits_low (lo + 2 ^ b * v) b p) by lia. f_equal.
    rewrite Z.mul_comm, Z.mod_add by lia. apply Z.mod_small. lia.
  - replace p with ((p - b) + b) at 1 by lia. rewrite <- Z.div_pow2_bits by lia. f_equal.
    rewrite Z.mul_comm, Z.div_add by lia. rewrite Z.div_small by lia. lia.
Qed.

Lemma nth_word n u i : wf n u -> word (nth i u 0).
Proof.
  intros [_ Hf]. destruct (nth_lookup_or_length u i 0) as [Hi|Hi].
  - by eapply Forall_lookup_1.
  - rewrite nth_overflow by done. unfold word. wordlia.
Qed.

Lemma value_testbit n u j :
  wf n u -> 0 <= j ->
  Z.testbit (value u) j = Z.testbit (nth (Z.to_nat (j / 64)) u 0) (j mod 64).
Proof.
  revert n j. induction u as [|w u IH]; intros n j Hu Hj.
  - simpl. rewrite Z.testbit_0_l. destruct (Z.to_nat (j / 64)); by rewrite Z.testbit_0_l.
  - destruct n as [|n]; [by apply wf_0 in Hu|]. apply wf_cons in Hu as [Hw Hu].
    cbn [value]. rewrite W_pow. rewrite testbit_split by (unfold word in Hw; rewrite ?W_pow in *; lia).
    destruct (Z.ltb_spec j 64).
    + rewrite Z.div_small, Z.mod_small by lia. done.
    + rewrite (IH n (j - 64) Hu) by lia.
      replace (j / 64) with ((j - 64) / 64 + 1)
        by (rewrite <- Z.div_add by lia; f_equal; lia).
      replace (j mod 64) with ((j - 64) mod 64)
        by (rewrite <- (Z.mod_add (j - 64) 1 64) by lia; f_equal; lia).
      assert (0 <= (j - 64) / 64) by (apply Z.div_pos; lia).
      by replace (Z.to_nat ((j - 64) / 64 + 1)) with (S (Z.to_nat ((j - 64) / 64))) by lia.
Qed.

(** A word shifted left with a lower part filled in. *)
Lemma u64_shl_eq x b : word x -> (b <= 64)%nat ->
  u64_shl x b = 2 ^ Z.of_nat b * (x mod 2 ^ (64 - Z.of_nat b)).
Proof.
  intros Hx Hb. unfold u64_shl. rewrite Z.shiftl_mul_pow2, W_pow by lia.
  replace (2 ^ 64) with (2 ^ Z.of_nat b * 2 ^ (64 - Z.of_nat b))
    by (rewrite <- Z.pow_add_r by lia; f_equal; lia).
  rewrite Z.mul_comm. apply Z.mul_mod_distr_l; apply Z.pow_nonzero; lia.
Qed.

Lemma word_join x b lo :
  word x -> (b <= 64)%nat -> 0 <= lo < 2 ^ Z.of_nat b ->
  word (u64_shl x b + lo) /\
  forall p, 0 <= p < 64 -> Z.testbit (u64_shl x b + lo) p =
    if p <? Z.of_nat b then Z.testbit lo p else Z.testbit x (p - Z.of_nat b).
Proof.
  intros Hx Hb Hlo. rewrite u64_shl_eq by done.
  assert (0 < 2 ^ (64 - Z.of_nat b)) by (apply Z.pow_pos_nonneg; lia).
  pose proof (Z.mod_pos_bound x (2 ^ (64 - Z.of_nat b))) as Hm. split.
  - unfold word. rewrite W_pow.
    replace (2 ^ 64) with (2 ^ Z.of_nat b * 2 ^ (64 - Z.of_nat b))
      by (rewrite <- Z.pow_add_r by lia; f_equal; lia). nia.
  - intros p Hp. rewrite Z.add_comm, testbit_split by lia.
    destruct (Z.ltb_spec p (Z.of_nat b)); [done|]. apply Z.mod_pow2_bits_low. lia.
Qed.

Lemma u64_shr_range x b : word x -> (b <= 64)%nat -> 0 <= u64_shr x b < 2 ^ (64 - Z.of_nat b).
Proof.
  intros Hx Hb. unfold u64_shr, word in *. rewrite Z.shiftr_div_pow2 by lia.
  assert (0 < 2 ^ Z.of_nat b) by (apply Z.pow_pos_nonneg; lia).
  split; [apply Z.div_pos; lia|]. apply Z.div_lt_upper_bound; [lia|].
  rewrite <- Z.pow_add_r by lia. replace (Z.of_nat b + (64 - Z.of_nat b)) with 64 by lia.
  rewrite <- W_pow. lia.
Qed.

Lemma u64_shr_testbit x b p : 0 <= p -> Z.testbit (u64_shr x b) p = Z.testbit x (p + Z.of_nat b).
Proof. intros Hp. unfold u64_shr. by rewrite Z.shiftr_spec. Qed.

Lemma word_testbit_high w p : word w -> 64 <= p -> Z.testbit w p = false.
Proof.
  intros Hw Hp. unfold word in Hw. rewrite W_pow in Hw.
  rewrite <- (Z.mod_small w (2 ^ 64)) by lia. apply Z.mod_pow2_bits_high. lia.
Qed.

Lemma value_testbit_high n u j : wf n u -> 64 * Z.of_nat n <= j -> Z.testbit (value u) j = false.
Proof.
  intros Hu Hj. pose proof (value_range _ _ Hu) as Hr. rewrite W_pow, <- Z.pow_mul_r in Hr by lia.
  rewrite <- (Z.mod_small (value u) (2 ^ (64 * Z.of_nat n))) by lia.
  apply Z.mod_pow2_bits_high. lia.
Qed.

(** A well-formed array is determined by the bits of its words. *)
Lemma value_words n u z :
  wf n u -> (forall j, 64 * Z.of_nat n <= j -> Z.testbit z j = false) ->
  (forall i p, (i < n)%nat -> 0 <= p < 64 ->
     Z.testbit (nth i u 0) p = Z.testbit z (64 * Z.of_nat i + p)) ->
  value u = z.
Proof.
  intros Hu Hhigh Hlow. apply Z.bits_inj'. intros j Hj.
  destruct (Z.lt_ge_cases j (64 * Z.of_nat n)) as [Hlt|Hge].
  - rewrite (value_testbit n) by done.
    assert (0 <= j / 64) by (apply Z.div_pos; lia).
    assert (j / 64 < Z.of_nat n) by (apply Z.div_lt_upper_bound; lia).
    rewrite Hlow by (try apply Z.mod_pos_bound; lia). f_equal.
    pose proof (Z.div_mod j 64). lia.
  - by rewrite (value_testbit_high n), Hhigh.
Qed.
End bits.

Section shifts.
Context {E : Type}.
Implicit Types (u : uint) (n : nat).

Lemma for_each_app {A B} (f : A -> B -> result E A) l1 l2 s :
  for_each f (l1 ++ l2) s = (s' ← for_each f l1 s; for_each f l2 s').
Proof. revert s. induction l1 as [|x l1 IH]; intros s; simpl; [done|]. destruct (f s x); simpl; auto. Qed.

Lemma index_nth u i : (i < length u)%nat -> @index E u i = Ok (nth i u 0).
Proof. intros Hi. unfold index. destruct (nth_lookup_or_length u i 0) as [->|]; [done|lia]. Qed.

Lemma add_assign_nth u i b :
  (i < length u)%nat -> nth i u 0 + b < W ->
  @add_assign E u i b = Ok (<[i := nth i u 0 + b]> u).
Proof.
  intros Hi Hb. unfold add_assign. rewrite index_nth by done. cbn [mbind result_bind].
  by rewrite (proj2 (Z.ltb_lt _ _) Hb).
Qed.

Lemma nth_insert u i j b :
  (i < length u)%nat -> nth j (<[i := b]> u) 0 = if decide (i = j) then b else nth j u 0.
Proof.
  intros Hi. rewrite !nth_lookup. case_decide as Hij.
  - subst. by rewrite list_lookup_insert_eq.
  - by rewrite list_lookup_insert_ne.
Qed.

(** ** Left shift *)

(** The two parts of word [j] of [u] shifted left. *)
Definition shl_hi u (ws b j : nat) : Z :=
  if decide (ws <= j)%nat then u64_shl (nth (j - ws) u 0) b else 0.
Definition shl_lo u (ws b j : nat) : Z :=
  if decide (ws + 1 <= j)%nat then u64_shr (nth (j - ws - 1) u 0) (64 - b) else 0.

Lemma shl_lo_range n u ws b j : wf n u -> (b < 64)%nat -> 0 <= shl_lo u ws b j < 2 ^ Z.of_nat b.
Proof.
  intros Hu Hb. unfold shl_lo. case_decide.
  - pose proof (u64_shr_range (nth (j - ws - 1) u 0) (64 - b) (nth_word _ _ _ Hu)) as Hr.
    replace (64 - Z.of_nat (64 - b)) with (Z.of_nat b) in Hr by lia. apply Hr. lia.
  - assert (0 < 2 ^ Z.of_nat b) by (apply Z.pow_pos_nonneg; lia). lia.
Qed.

Lemma shl_word n u ws b j : wf n u -> (b < 64)%nat -> word (shl_hi u ws b j + shl_lo u ws b j).
Proof.
  intros Hu Hb. pose proof (shl_lo_range n u ws b j Hu Hb) as Hlo. unfold shl_hi. case_decide.
  - apply word_join; [by eapply nth_word|lia|done].
  - assert (2 ^ Z.of_nat b <= 2 ^ 64) by (apply Z.pow_le_mono_r; lia).
    unfold word. rewrite W_pow. lia.
Qed.

(** After [k] steps of the loop. *)
Definition shl_state u (ws b k : nat) (ret : uint) : Prop :=
  length ret = length u /\ forall j, (j < length u)%nat ->
    nth j ret 0 = (if decide (j < ws + k)%nat then shl_hi u ws b j else 0)
                + (if decide (j < ws + 1 + k)%nat then shl_lo u ws b j else 0).

Lemma shl_step_state n u ws b k ret :
  wf n u -> (b < 64)%nat -> (k < n)%nat -> shl_state u ws b k ret ->
  exists ret', @shl_step E u ws b ret k = Ok ret' /\ shl_state u ws b (S k) ret'.
Proof.
  intros Hu Hb Hk [Hl Hst]. pose proof (wf_length _ _ Hu) as Hn. unfold shl_step.
  assert (exists ret1, (if decide (k + ws < length u)%nat
      then o ← index u k; add_assign ret (k + ws) (u64_shl o b) else Ok ret) = (Ok ret1 : result E uint) /\
    length ret1 = length u /\ forall j, (j < length u)%nat ->
    nth j ret1 0 = (if decide (j < ws + S k)%nat then shl_hi u ws b j else 0)
                 + (if decide (j < ws + 1 + k)%nat then shl_lo u ws b j else 0)) as (ret1 & -> & Hl1 & Hst1).
  { case_decide as Hin.
    - rewrite index_nth by lia. cbn [mbind result_bind].
      assert (nth (k + ws) ret 0 + u64_shl (nth k u 0) b
        = shl_hi u ws b (k + ws) + shl_lo u ws b (k + ws)) as Hsum.
      { rewrite Hst by done. rewrite decide_False, decide_True by lia. unfold shl_hi.
        rewrite decide_True by lia. replace (k + ws - ws)%nat with k by lia. lia. }
      pose proof (shl_word n u ws b (k + ws) Hu Hb) as Hw.
      rewrite add_assign_nth by (rewrite ?Hsum; unfold word in Hw; lia).
      eexists. split; [done|]. split; [by rewrite length_insert|]. intros j Hj.
      rewrite nth_insert by lia. case_decide as Hjk.
      + subst j. by rewrite Hsum, !decide_True by lia.
      + rewrite Hst by done. f_equal. repeat case_decide; lia || done.
    - eexists. split; [done|]. split; [done|]. intros j Hj. rewrite Hst by done.
      f_equal. repeat case_decide; lia || done. }
  cbn [mbind result_bind]. case_decide as Hca.
  - rewrite index_nth by lia. cbn [mbind result_bind].
    assert (nth (k + ws + 1) ret1 0 + u64_shr (nth k u 0) (64 - b) = shl_lo u ws b (k + ws + 1)) as Hsum.
    { rewrite Hst1 by lia. rewrite !decide_False by lia. unfold shl_lo.
      rewrite decide_True by lia. replace (k + ws + 1 - ws - 1)%nat with k by lia. lia. }
    pose proof (shl_lo_range n u ws b (k + ws + 1) Hu Hb) as Hr.
    assert (2 ^ Z.of_nat b <= 2 ^ 64) by (apply Z.pow_le_mono_r; lia).
    rewrite add_assign_nth by (rewrite ?Hsum, ?W_pow; lia).
    eexists. split; [done|]. split; [by rewrite length_insert|]. intros j Hj.
    rewrite nth_insert by lia. case_decide as Hjk.
    + subst j. rewrite Hsum. by rewrite decide_False, decide_True by lia.
    + rewrite Hst1 by done. f_equal. repeat case_decide; lia || done.
  - eexists. split; [done|]. split; [done|]. intros j Hj. rewrite Hst1 by done. f_equal.
    repeat case_decide; try (lia || done). destruct b as [|b]; [|lia].
    unfold shl_lo. rewrite decide_True by lia. unfold u64_shr.
    rewrite Z.shiftr_div_pow2 by lia. symmetry. apply Z.div_small.
    pose proof (nth_word n u (j - ws - 1) Hu) as Hw. unfold word in Hw. rewrite W_pow in Hw. simpl. lia.
Qed.

Lemma shl_loop_state n u ws b k :
  wf n u -> (b < 64)%nat -> (k <= n)%nat ->
  exists ret, for_each (@shl_step E u ws b) (seq 0 k) (replicate n 0) = Ok ret /\
    shl_state u ws b k ret.
Proof.
  intros Hu Hb. induction k as [|k IH]; intros Hk.
  - exists (replicate n 0). split; [done|]. split.
    + by rewrite length_replicate, (wf_length _ _ Hu).
    + intros j Hj. rewrite nth_lookup.
      rewrite lookup_replicate_2 by (rewrite <- (wf_length _ _ Hu); done). simpl.
      unfold shl_hi, shl_lo. repeat case_decide; lia.
  - destruct IH as (ret & Hrun & Hst); [lia|].
    destruct (shl_step_state n u ws b k ret) as (ret' & Hs & Hst'); [done|done|lia|done|].
    exists ret'. split; [|done]. rewrite seq_S, for_each_app, Hrun. simpl. by rewrite Hs.
Qed.

Lemma shl_value n u s :
  wf n u -> exists r, @shl E u s = Ok r /\ wf n r /\
    value r = Z.shiftl (value u) (Z.of_nat s) mod W ^ Z.of_nat n.
Proof.
  intros Hu. unfold shl. rewrite (wf_length _ _ Hu).
  set (ws := (s / 64)%nat). set (b := (s mod 64)%nat).
  assert (b < 64)%nat as Hb by (apply Nat.mod_upper_bound; lia).
  assert (Z.of_nat s = 64 * Z.of_nat ws + Z.of_nat b) as Hs.
  { unfold ws, b. pose proof (Nat.div_mod_eq s 64). lia. }
  destruct (shl_loop_state n u ws b n Hu Hb) as (r & Hrun & Hl & Hst); [lia|].
  exists r. rewrite (wf_length _ _ Hu) in *.
  assert (forall j, (j < n)%nat -> nth j r 0 = shl_hi u ws b j + shl_lo u ws b j) as Hw.
  { intros j Hj. rewrite Hst by done. unfold shl_hi, shl_lo.
    repeat case_decide; lia || done. }
  assert (wf n r) as Hr.
  { split; [done|]. apply Forall_lookup. intros j w Hj.
    assert (j < n)%nat by (rewrite <- Hl; by eapply lookup_lt_Some).
    apply nth_lookup_Some with (d := 0) in Hj. rewrite <- Hj, Hw by done. by eapply shl_word. }
  split; [done|]. split; [done|]. rewrite W_pow, <- Z.pow_mul_r by lia.
  apply (value_words n); [done| |].
  { intros j Hj. apply Z.mod_pow2_bits_high. lia. }
  intros i p Hi Hp. rewrite Z.mod_pow2_bits_low by lia. rewrite Z.shiftl_spec by lia.
  rewrite Hw by done. pose proof (shl_lo_range n u ws b i Hu Hb) as Hlo. unfold shl_hi.
  destruct (decide (ws <= i)%nat) as [Hwi|Hwi].
  2: { unfold shl_lo. rewrite decide_False by lia. rewrite Z.testbit_0_l.
       symmetry. apply Z.testbit_neg_r. lia. }
  destruct (word_join (nth (i - ws) u 0) b (shl_lo u ws b i)) as [_ Hj];
    [by eapply nth_word|lia|done|]. rewrite Hj by lia. clear Hj.
  destruct (Z.ltb_spec p (Z.of_nat b)) as [Hpb|Hpb].
  - unfold shl_lo. case_decide as Hwi'.
    + rewrite u64_shr_testbit by lia. rewrite (value_testbit n) by (done || lia).
      replace (64 * Z.of_nat i + p - Z.of_nat s)
        with (p + (64 - Z.of_nat b) + (Z.of_nat (i - ws - 1)) * 64) by lia.
      rewrite Z.div_add, Z.mod_add, Z.div_small, Z.mod_small by lia.
      replace (Z.to_nat (0 + Z.of_nat (i - ws - 1))) with (i - ws - 1)%nat by lia.
      f_equal. lia.
    + rewrite Z.testbit_0_l. symmetry. apply Z.testbit_neg_r. lia.
  - rewrite (value_testbit n) by (done || lia).
    replace (64 * Z.of_nat i + p - Z.of_nat s)
      with (p - Z.of_nat b + (Z.of_nat (i - ws)) * 64) by lia.
    rewrite Z.div_add, Z.mod_add, Z.div_small, Z.mod_small by lia.
    by replace (Z.to_nat (0 + Z.of_nat (i - ws))) with (i - ws)%nat by lia.
Qed.

(** ** Right shift *)

Definition shr_word u (ws b j : nat) : Z :=
  u64_shl (nth (j + ws + 1) u 0) (64 - b) + u64_shr (nth (j + ws) u 0) b.

Lemma shr_word_spec n u ws b j :
  wf n u -> (b < 64)%nat -> word (shr_word u ws b j) /\
  forall p, 0 <= p < 64 -> Z.testbit (shr_word u ws b j) p =
    if p <? 64 - Z.of_nat b then Z.testbit (nth (j + ws) u 0) (p + Z.of_nat b)
    else Z.testbit (nth (j + ws + 1) u 0) (p - (64 - Z.of_nat b)).
Proof.
  intros Hu Hb. unfold shr_word.
  pose proof (u64_shr_range (nth (j + ws) u 0) b (nth_word _ _ _ Hu)) as Hlo.
  destruct (word_join (nth (j + ws + 1) u 0) (64 - b) (u64_shr (nth (j + ws) u 0) b)) as [Hw Hj].
  { by eapply nth_word. }
  { lia. }
  { replace (Z.of_nat (64 - b)) with (64 - Z.of_nat b) by lia. apply Hlo. lia. }
  split; [done|]. intros p Hp. rewrite Hj by done.
  replace (Z.of_nat (64 - b)) with (64 - Z.of_nat b) by lia.
  destruct (p <? 64 - Z.of_nat b); [|done]. apply u64_shr_testbit. lia.
Qed.

Definition shr_state u (ws b k : nat) (ret : uint) : Prop :=
  length ret = length u /\ forall j, (j < length u)%nat ->
    nth j ret 0 = if decide (j < k)%nat then shr_word u ws b j else 0.

Lemma shr_step_state n u ws b k ret :
  wf n u -> (b < 64)%nat -> (ws + k < n)%nat -> shr_state u ws b k ret ->
  exists ret', @shr_step E u ws b ret (ws + k) = Ok ret' /\ shr_state u ws b (S k) ret'.
Proof.
  intros Hu Hb Hk [Hl Hst]. pose proof (wf_length _ _ Hu) as Hn. unfold shr_step.
  rewrite (index_nth u (ws + k)) by lia. cbn [mbind result_bind].
  replace (ws + k - ws)%nat with k by lia.
  destruct (shr_word_spec n u ws b k Hu Hb) as [Hw _].
  pose proof (u64_shr_range (nth (ws + k) u 0) b (nth_word _ _ _ Hu)) as Hr.
  specialize (Hr ltac:(lia)). assert (2 ^ (64 - Z.of_nat b) <= 2 ^ 64) by (apply Z.pow_le_mono_r; lia).
  assert (nth k ret 0 = 0) as H0 by (rewrite Hst by lia; by rewrite decide_False by lia).
  rewrite add_assign_nth by (rewrite ?H0, ?W_pow; lia). cbn [mbind result_bind].
  rewrite H0, Z.add_0_l.
  assert (nth k (<[k := u64_shr (nth (ws + k) u 0) b]> ret) 0 = u64_shr (nth (ws + k) u 0) b) as H1.
  { rewrite nth_insert by lia. by rewrite decide_True. }
  case_decide as Hca.
  - rewrite index_nth by lia. cbn [mbind result_bind].
    assert (u64_shr (nth (ws + k) u 0) b + u64_shl (nth (ws + k + 1) u 0) (64 - b)
      = shr_word u ws b k) as Hsum.
    { unfold shr_word. rewrite (Nat.add_comm k ws). lia. }
    rewrite add_assign_nth.
    2: { rewrite length_insert. lia. }
    2: { rewrite H1, Hsum. unfold word in Hw. lia. }
    rewrite H1, Hsum. eexists. split; [done|]. split; [by rewrite !length_insert|].
    intros j Hj. rewrite !nth_insert by (rewrite ?length_insert; lia). rewrite Hst by done.
    repeat case_decide; subst; lia || done.
  - assert (u64_shr (nth (ws + k) u 0) b = shr_word u ws b k) as Hsum.
    { unfold shr_word. rewrite (Nat.add_comm k ws).
      destruct (decide (b = 0%nat)) as [->|].
      - rewrite u64_shl_eq by (try lia; by eapply nth_word).
        replace (64 - Z.of_nat (64 - 0)) with 0 by lia. rewrite Z.mod_1_r. lia.
      - rewrite (nth_overflow u (n := ws + k + 1)) by lia. unfold u64_shl.
        rewrite Z.shiftl_0_l, Z.mod_0_l by wordlia. lia. }
    eexists. split; [done|]. split; [by rewrite length_insert|].
    intros j Hj. rewrite nth_insert by lia. rewrite Hst, Hsum by done.
    repeat case_decide; subst; lia || done.
Qed.

Lemma shr_loop_state n u ws b k :
  wf n u -> (b < 64)%nat -> (ws + k <= n)%nat ->
  exists ret, for_each (@shr_step E u ws b) (seq ws k) (replicate n 0) = Ok ret /\
    shr_state u ws b k ret.
Proof.
  intros Hu Hb. induction k as [|k IH]; intros Hk.
  - exists (replicate n 0). split; [done|]. split.
    + by rewrite length_replicate, (wf_length _ _ Hu).
    + intros j Hj. rewrite nth_lookup.
      by rewrite lookup_replicate_2 by (rewrite <- (wf_length _ _ Hu); done).
  - destruct IH as (ret & Hrun & Hst); [lia|].
    destruct (shr_step_state n u ws b k ret) as (ret' & Hs & Hst'); [done|done|lia|done|].
    exists ret'. split; [|done]. rewrite seq_S, for_each_app, Hrun. simpl. by rewrite Hs.
Qed.

Lemma shr_value n u s :
  wf n u -> exists r, @shr E u s = Ok r /\ wf n r /\ value r = Z.shiftr (value u) (Z.of_nat s).
Proof.
  intros Hu. unfold shr. rewrite (wf_length _ _ Hu).
  set (ws := (s / 64)%nat). set (b := (s mod 64)%nat).
  assert (b < 64)%nat as Hb by (apply Nat.mod_upper_bound; lia).
  assert (Z.of_nat s = 64 * Z.of_nat ws + Z.of_nat b) as Hs.
  { unfold ws, b. pose proof (Nat.div_mod_eq s 64). lia. }
  assert (exists r, for_each (@shr_step E u ws b) (seq ws (n - ws)) (replicate n 0) = Ok r /\
    shr_state u ws b n r) as (r & Hrun & Hl & Hst).
  { destruct (decide (ws <= n)%nat) as [Hw|Hw].
    - destruct (shr_loop_state n u ws b (n - ws) Hu Hb) as (r & Hrun & Hl & Hst); [lia|].
      exists r. split; [done|]. split; [done|]. intros j Hj. rewrite Hst by done.
      rewrite (wf_length _ _ Hu) in Hj. repeat case_decide; try (lia || done).
      unfold shr_word. rewrite !nth_overflow by (rewrite (wf_length _ _ Hu); lia).
      unfold u64_shl, u64_shr. rewrite Z.shiftl_0_l, Z.shiftr_0_l. done.
    - exists (replicate n 0). replace (n - ws)%nat with 0%nat by lia. split; [done|]. split.
      + by rewrite length_replicate, (wf_length _ _ Hu).
      + intros j Hj. rewrite (wf_length _ _ Hu) in Hj. rewrite nth_lookup, lookup_replicate_2 by done.
        rewrite decide_True by done. unfold shr_word.
        rewrite !nth_overflow by (rewrite (wf_length _ _ Hu); lia).
        unfold u64_shl, u64_shr. rewrite Z.shiftl_0_l, Z.shiftr_0_l. done. }
  exists r. rewrite (wf_length _ _ Hu) in *.
  assert (forall j, (j < n)%nat -> nth j r 0 = shr_word u ws b j) as Hw.
  { intros j Hj. rewrite Hst by done. by rewrite decide_True. }
  assert (wf n r) as Hr.
  { split; [done|]. apply Forall_lookup. intros j w Hj.
    assert (j < n)%nat by (rewrite <- Hl; by eapply lookup_lt_Some).
    apply nth_lookup_Some with (d := 0) in Hj. rewrite <- Hj, Hw by done.
    by eapply shr_word_spec. }
  split; [done|]. split; [done|]. apply (value_words n); [done| |].
  { intros j Hj. rewrite Z.shiftr_spec by lia. apply (value_testbit_high n); [done|lia]. }
  intros i p Hi Hp. rewrite Z.shiftr_spec by lia. rewrite Hw by done.
  destruct (shr_word_spec n u ws b i Hu Hb) as [_ Hj]. rewrite Hj by done. clear Hj.
  rewrite (value_testbit n) by (done || lia).
  destruct (Z.ltb_spec p (64 - Z.of_nat b)) as [Hpb|Hpb].
  - replace (64 * Z.of_nat i + p + Z.of_nat s)
      with (p + Z.of_nat b + Z.of_nat (i + ws) * 64) by lia.
    rewrite Z.div_add, Z.mod_add, Z.div_small, Z.mod_small by lia.
    by replace (Z.to_nat (0 + Z.of_nat (i + ws))) with (i + ws)%nat by lia.
  - replace (64 * Z.of_nat i + p + Z.of_nat s)
      with (p - (64 - Z.of_nat b) + Z.of_nat (i + ws + 1) * 64) by lia.
    rewrite Z.div_add, Z.mod_add, Z.div_small, Z.mod_small by lia.
    by replace (Z.to_nat (0 + Z.of_nat (i + ws + 1))) with (i + ws + 1)%nat by lia.
Qed.
End shifts.

(** * Long division *)

Section division.
Context {E : Type}.
Implicit Types (u v : uint) (n : nat).

(** [k] is the number of bits needed for [z]. *)
Definition bit_length (z : Z) (k : nat) : Prop :=
  (z = 0 /\ k = 0%nat) \/ (0 < k)%nat /\ 2 ^ (Z.of_nat k - 1) <= z < 2 ^ Z.of_nat k.

Lemma u64_leading_zeros_spec w : word w -> bit_length w (64 - u64_leading_zeros w).
Proof.
  intros Hw. unfold u64_leading_zeros. destruct (Z.eqb_spec w 0) as [->|Hnz]; [by left|].
  unfold word in Hw. rewrite W_pow in Hw. right.
  pose proof (Z.log2_spec w ltac:(lia)) as Hl. pose proof (Z.log2_nonneg w).
  assert (Z.log2 w < 64) by (apply Z.log2_lt_pow2; lia).
  split; [lia|].
  replace (Z.of_nat (64 - (63 - Z.to_nat (Z.log2 w)))) with (Z.log2 w + 1) by lia.
  replace (Z.log2 w + 1 - 1) with (Z.log2 w) by lia.
  by rewrite <- Z.add_1_r in Hl.
Qed.

Lemma bits_spec n u : wf n u -> bit_length (value u) (bits u).
Proof.
  revert n. induction u as [|w u IH] using rev_ind; intros n Hu; [by left|].
  destruct Hu as [Hl Hf]. apply Forall_app in Hf as [Hf [Hw _]%Forall_cons].
  assert (wf (length u) u) as Hu by done. specialize (IH _ Hu). unfold bits in *.
  rewrite reverse_snoc, value_app. cbn [value]. rewrite Z.mul_0_r, Z.add_0_r.
  pose proof (value_range _ _ Hu) as Hr. pose proof (u64_leading_zeros_spec w Hw) as Hlz.
  destruct (reverse u) as [|x ru] eqn:Hru.
  { apply (f_equal reverse) in Hru. rewrite reverse_involutive in Hru. subst. simpl.
    by rewrite Z.pow_0_r, Z.mul_1_l. }
  assert (length u = S (length ru)) as Hlen by (rewrite <- length_reverse, Hru; done).
  cbn [bits_from_top]. unfold word in Hw. destruct (Z.ltb_spec 0 w) as [Hpos|Hz].
  - right. destruct Hlz as [[? _]|[Hk Hlz]]; [lia|]. cbn [length].
    assert (u64_leading_zeros w < 64)%nat as Hlt by lia. rewrite <- Hlen.
    replace (64 * S (length u) - u64_leading_zeros w)%nat
      with (64 * length u + (64 - u64_leading_zeros w))%nat by lia.
    set (k := (64 - u64_leading_zeros w)%nat) in *.
    assert (W ^ Z.of_nat (length u) = 2 ^ (64 * Z.of_nat (length u))) as Hp
      by (rewrite W_pow, <- Z.pow_mul_r by lia; done).
    split; [lia|].
    replace (Z.of_nat (64 * length u + k)) with (64 * Z.of_nat (length u) + Z.of_nat k) by lia.
    rewrite Z.pow_add_r, <- Hp by lia.
    replace (64 * Z.of_nat (length u) + Z.of_nat k - 1)
      with (64 * Z.of_nat (length u) + (Z.of_nat k - 1)) by lia.
    rewrite Z.pow_add_r, <- Hp by lia. nia.
  - replace w with 0 by lia. rewrite Z.mul_0_r, Z.add_0_r. exact IH.
Qed.

(** Setting a bit above which everything and below which nothing is set. *)
Lemma set_bit_value n u k :
  wf n u -> (k < 64 * n)%nat -> (2 ^ (Z.of_nat k + 1) | value u) ->
  exists r, @set_bit E u k = Ok r /\ wf n r /\ value r = value u + 2 ^ Z.of_nat k.
Proof.
  intros Hu Hk [q Hq]. unfold set_bit.
  assert (k / 64 < n)%nat as Hi by (apply Nat.Div0.div_lt_upper_bound; lia).
  rewrite index_nth by (rewrite (wf_length _ _ Hu); done). cbn [mbind result_bind].
  eexists. split; [done|].
  assert (k mod 64 < 64)%nat as Hb by (apply Nat.mod_upper_bound; lia).
  assert (u64_shl 1 (k mod 64) = 2 ^ Z.of_nat (k mod 64)) as Hshl.
  { unfold u64_shl. rewrite Z.shiftl_mul_pow2, Z.mul_1_l, W_pow by lia. apply Z.mod_small.
    split; [lia|]. apply Z.pow_lt_mono_r; lia. }
  rewrite Hshl. set (i := (k / 64)%nat) in *. set (b := (k mod 64)%nat) in *.
  assert (k = 64 * i + b)%nat as Hkib by apply Nat.div_mod_eq.
  pose proof (nth_word n u i Hu) as Hw.
  assert (word (Z.lor (nth i u 0) (2 ^ Z.of_nat b))) as Hlor.
  { unfold word in *. split; [apply Z.lor_nonneg; lia|]. rewrite W_pow in *.
    assert (Z.lor (nth i u 0) (2 ^ Z.of_nat b) = 0 \/ 0 < Z.lor (nth i u 0) (2 ^ Z.of_nat b)) as [->|Hp]
      by (assert (0 <= Z.lor (nth i u 0) (2 ^ Z.of_nat b)) by (apply Z.lor_nonneg; lia); lia); [lia|].
    apply Z.log2_lt_pow2; [done|]. rewrite Z.log2_lor by lia.
    apply Z.max_lub_lt; [|rewrite Z.log2_pow2; lia].
    destruct (Z.eq_dec (nth i u 0) 0) as [->|]; [done|]. apply Z.log2_lt_pow2; lia. }
  assert (wf n (<[i := Z.lor (nth i u 0) (2 ^ Z.of_nat b)]> u)) as Hr by (by apply wf_insert).
  split; [done|].
  assert (value u + 2 ^ Z.of_nat k = Z.lor (value u) (2 ^ Z.of_nat k)) as ->.
  { rewrite Z.add_nocarry_lxor, Z.lxor_lor; [done|..];
      apply Z.bits_inj'; intros j Hj; rewrite Z.land_spec, Z.testbit_0_l;
      (destruct (Z.eq_dec j (Z.of_nat k)) as [->|Hne];
       [|rewrite (Z.pow2_bits_false (Z.of_nat k) j) by done; apply andb_false_r]);
      rewrite Hq, Z.mul_pow2_bits_low by lia; done. }
  assert (0 <= value u) by (pose proof (value_range _ _ Hu); lia).
  apply (value_words n); [done| |].
  { intros j Hj. rewrite Z.lor_spec, (value_testbit_high n) by done.
    apply Z.pow2_bits_false. lia. }
  intros j p Hj Hp. rewrite nth_insert by (rewrite (wf_length _ _ Hu); done).
  rewrite Z.lor_spec, (value_testbit n) by (done || lia).
  replace (64 * Z.of_nat j + p) with (p + Z.of_nat j * 64) by lia.
  rewrite Z.div_add, Z.mod_add, Z.div_small, Z.mod_small by lia.
  replace (Z.to_nat (0 + Z.of_nat j)) with j by lia.
  case_decide as Hij.
  - subst j. rewrite Z.lor_spec. f_equal.
    destruct (Z.eq_dec p (Z.of_nat b)) as [->|Hne].
    + rewrite Z.pow2_bits_true by lia. replace (Z.of_nat b + Z.of_nat i * 64) with (Z.of_nat k) by lia.
      by rewrite Z.pow2_bits_true by lia.
    + rewrite !Z.pow2_bits_false by lia. done.
  - rewrite Z.pow2_bits_false by lia. by rewrite orb_false_r.
Qed.

Lemma div_rem_step_value n k sub shc ret N D :
  wf n sub -> wf n shc -> wf n ret -> (k < 64 * n)%nat ->
  value shc = D * 2 ^ Z.of_nat k -> value sub < D * 2 ^ (Z.of_nat k + 1) ->
  (2 ^ (Z.of_nat k + 1) | value ret) -> N = value ret * D + value sub ->
  exists ret' sub', @div_rem_step E k sub shc ret = Ok (ret', sub') /\
    wf n ret' /\ wf n sub' /\ N = value ret' * D + value sub' /\
    0 <= value sub' < D * 2 ^ Z.of_nat k /\ (2 ^ Z.of_nat k | value ret').
Proof.
  intros Hsub Hshc Hret Hk Hvs Hlt Hdvd HN. unfold div_rem_step.
  rewrite (geb_value _ _ _ Hsub Hshc). rewrite Z.pow_add_r in Hlt by lia.
  assert (2 ^ Z.of_nat k | value ret) as Hdvd'.
  { etrans; [|exact Hdvd]. rewrite Z.pow_add_r by lia. apply Z.divide_factor_l. }
  destruct (Z.leb_spec (value shc) (value sub)) as [Hle|Hgt].
  - destruct (set_bit_value n ret k Hret Hk Hdvd) as (ret' & -> & Hr' & Hv').
    destruct (unchecked_sub_value n sub shc Hsub Hshc Hle) as [Hsb Hsv].
    exists ret', (unchecked_sub sub shc). cbn [mbind result_bind]. rewrite Hsv, Hv'.
    do 3 (split; [done|]). split; [lia|]. split; [lia|].
    apply Z.divide_add_r; [done|apply Z.divide_refl].
  - exists ret, sub. do 4 (split; [done|]). split; [|done].
    pose proof (value_range _ _ Hsub). lia.
Qed.

Lemma div_rem_loop_value n k sub shc ret N D :
  wf n sub -> wf n shc -> wf n ret -> (k < 64 * n)%nat ->
  value shc = D * 2 ^ Z.of_nat k -> value sub < D * 2 ^ (Z.of_nat k + 1) ->
  (2 ^ (Z.of_nat k + 1) | value ret) -> N = value ret * D + value sub ->
  exists q r, @div_rem_loop E k sub shc ret = Ok (q, r) /\ wf n q /\ wf n r /\
    N = value q * D + value r /\ 0 <= value r < D.
Proof.
  revert sub shc ret. induction k as [|k IH];
    intros sub shc ret Hsub Hshc Hret Hk Hvs Hlt Hdvd HN; cbn [div_rem_loop];
    destruct (div_rem_step_value n _ sub shc ret N D Hsub Hshc Hret Hk Hvs Hlt Hdvd HN)
      as (ret' & sub' & -> & Hret' & Hsub' & HN' & Hlt' & Hdvd'); cbn [mbind result_bind];
    destruct (@shr_value E n shc 1 Hshc) as (shc' & -> & Hshc' & Hvshc'); cbn [mbind result_bind].
  - exists ret', sub'. do 4 (split; [done|]). change (Z.of_nat 0) with 0 in Hlt'. lia.
  - replace (Z.of_nat (S k)) with (Z.of_nat k + 1) in * by lia.
    apply IH; try done; try lia.
    rewrite Hvshc', Hvs, Z.shiftr_div_pow2 by lia. rewrite Z.pow_add_r by lia.
    change (2 ^ Z.of_nat 1) with 2. change (2 ^ 1) with 2. rewrite Z.mul_assoc. by rewrite Z.div_mul.
Qed.

(** [div_rem] of two [n]-word numbers is Euclidean division; nothing panics
    when the divisor is not zero. *)
Lemma div_rem_value n u v :
  wf n u -> wf n v -> 0 < value v ->
  exists q r, @div_rem E u v = Ok (q, r) /\ wf n q /\ wf n r /\
    value q = value u / value v /\ value r = value u mod value v.
Proof.
  intros Hu Hv Hpos. unfold div_rem. rewrite (wf_length _ _ Hu).
  pose proof (bits_spec n u Hu) as Hbu. pose proof (bits_spec n v Hv) as Hbv.
  destruct Hbv as [[? _]|[Hbv Hbvv]]; [lia|].
  destruct (Nat.eqb_spec (bits v) 0); [lia|]. cbn [negb assert_true mbind result_bind].
  pose proof (value_range _ _ Hu) as Hru. pose proof (value_range _ _ Hv) as Hrv.
  case_decide as Hlt.
  - exists (replicate n 0), u. split; [done|]. split; [apply wf_replicate|]. split; [done|].
    assert (value u < value v).
    { destruct Hbu as [[-> _]|[Hbu Hbuu]]; [lia|].
      assert (2 ^ Z.of_nat (bits u) <= 2 ^ (Z.of_nat (bits v) - 1)) by (apply Z.pow_le_mono_r; lia).
      lia. }
    rewrite value_replicate, Z.div_small, Z.mod_small by lia. done.
  - destruct Hbu as [[_ Hbu]|[Hbu Hbuu]]; [lia|].
    set (k := (bits u - bits v)%nat).
    destruct (@shl_value E n v k Hv) as (shc & -> & Hshc & Hvshc). cbn [mbind result_bind].
    assert (Z.of_nat (bits u) = Z.of_nat (bits v) + Z.of_nat k) as Hbk by lia.
    assert (Z.of_nat (bits u) - 1 < 64 * Z.of_nat n) as Hbn.
    { rewrite W_pow, <- Z.pow_mul_r in Hru by lia.
      apply (Z.pow_lt_mono_r_iff 2); lia. }
    assert (value shc = value v * 2 ^ Z.of_nat k) as Hvs.
    { rewrite Hvshc, Z.shiftl_mul_pow2 by lia. apply Z.mod_small.
      rewrite W_pow, <- Z.pow_mul_r by lia. split; [nia|].
      assert (value v * 2 ^ Z.of_nat k < 2 ^ Z.of_nat (bits v) * 2 ^ Z.of_nat k) by nia.
      rewrite <- Z.pow_add_r, <- Hbk in * by lia.
      assert (2 ^ Z.of_nat (bits u) <= 2 ^ (64 * Z.of_nat n)) by (apply Z.pow_le_mono_r; lia).
      lia. }
    destruct (div_rem_loop_value n k u shc (replicate n 0) (value u) (value v))
      as (q & r & Hrun & Hq & Hr & HN & Hlr).
    { done. } { done. } { apply wf_replicate. } { lia. } { done. }
    { assert (2 ^ Z.of_nat (bits u) = 2 ^ (Z.of_nat (bits v) - 1) * 2 ^ (Z.of_nat k + 1)) as Hp
        by (rewrite <- Z.pow_add_r by lia; f_equal; lia). nia. }
    { rewrite value_replicate. apply Z.divide_0_r. }
    { rewrite value_replicate. lia. }
    exists q, r. split; [done|]. split; [done|]. split; [done|].
    split; [apply (Z.div_unique_pos _ _ _ (value r)); lia|apply (Z.mod_unique_pos _ _ (value q)); lia].
Qed.

Lemma checked_div_value n u v :
  wf (S n) u -> wf (S n) v ->
  exists r, @checked_div E u v = Ok r /\
    match r with
    | Some q => 0 < value v /\ wf (S n) q /\ value q = value u / value v
    | None => value v = 0
    end.
Proof.
  intros Hu Hv. unfold checked_div. rewrite (wf_length _ _ Hu). unfold ZERO.
  destruct (value_from_u64 n 0) as [Hz Hzv]; [unfold word; wordlia|].
  pose proof (value_range _ _ Hv). case_bool_decide as Hvz.
  - eexists. split; [done|]. simpl. by rewrite Hvz.
  - assert (value v <> 0) by (intros Hc; apply Hvz; eapply value_inj; [done..|congruence]).
    destruct (div_rem_value (S n) u v Hu Hv) as (q & r & -> & Hq & Hr & Hvq & Hvr); [lia|].
    eexists. split; [done|]. simpl. split; [lia|done].
Qed.

Lemma checked_rem_value n u v :
  wf (S n) u -> wf (S n) v ->
  exists r, @checked_rem E u v = Ok r /\
    match r with
    | Some q => 0 < value v /\ wf (S n) q /\ value q = value u mod value v
    | None => value v = 0
    end.
Proof.
  intros Hu Hv. unfold checked_rem. rewrite (wf_length _ _ Hu). unfold ZERO.
  destruct (value_from_u64 n 0) as [Hz Hzv]; [unfold word; wordlia|].
  pose proof (value_range _ _ Hv). case_bool_decide as Hvz.
  - eexists. split; [done|]. simpl. by rewrite Hvz.
  - assert (value v <> 0) by (intros Hc; apply Hvz; eapply value_inj; [done..|congruence]).
    destruct (div_rem_value (S n) u v Hu Hv) as (q & r & -> & Hq & Hr & Hvq & Hvr); [lia|].
    eexists. split; [done|]. simpl. split; [lia|done].
Qed.

Lemma checked_add_value n u v :
  wf n u -> wf n v ->
  match checked_add u v with
  | Some s => wf n s /\ value s = value u + value v
  | None => W ^ Z.of_nat n <= value u + value v
  end.
Proof.
  intros Hu Hv. unfold checked_add, overflowing_add.
  destruct (overflowing_add_with_carry_value n u v false Hu Hv) as [Hs Hval].
  destruct (overflowing_add_with_carry u v false) as [s [|]]; simpl in *.
  - pose proof (value_range _ _ Hs). lia.
  - split; [done|lia].
Qed.

Lemma checked_sub_value n u v :
  wf n u -> wf n v ->
  match checked_sub u v with
  | Some s => wf n s /\ value s = value u - value v
  | None => value u < value v
  end.
Proof.
  intros Hu Hv. unfold checked_sub. rewrite (geb_value _ _ _ Hu Hv).
  destruct (Z.leb_spec (value v) (value u)); [by apply unchecked_sub_value|lia].
Qed.

(** Narrowing to [u128] succeeds exactly when the number fits. *)
Lemma try_into_u128_value u :
  wf 4 u -> exists r, @try_into_u128 E u = Ok r /\ r = bint_of_Z (value u).
Proof.
  intros Hu. unfold try_into_u128. destruct (value_from_u128 2 Amount.MAX) as [Hm Hmv].
  rewrite (cmp_value _ _ _ Hu Hm), Hmv. cbn [Amount.MAX ival].
  destruct (Z.compare_spec (value u) u128_MAX) as [Heq|Hlt|Hgt].
  3: { exists None. split; [done|]. symmetry. apply bint_of_Z_None. lia. }
  all: pose proof (wf_length _ _ Hu) as Hl;
    destruct u as [|w0 [|w1 [|w2 [|w3 [|]]]]]; try discriminate Hl; clear Hl;
    repeat (apply wf_cons in Hu as [? Hu]); unfold word in *; simpl in *;
    pose proof u128_MAX_eq; rewrite W_eq in *;
    assert (w2 = 0 /\ w3 = 0) as [-> ->] by lia;
    rewrite !Z.mul_0_r, !Z.add_0_r in *;
    (destruct (bint_of_Z_is_Some (lo := 0) (hi := u128_MAX) (w0 + 18446744073709551616 * w1))
       as (x & Hx & _); [lia|]);
    exists (Some x); rewrite Hx; done.
Qed.

(** ** The operations where their results fit *)

Lemma mul_fits n u v :
  wf (S n) u -> wf (S n) v -> value u * value v < W ^ Z.of_nat (S n) ->
  exists p, @checked_mul E u v = Ok (Some p) /\ wf (S n) p /\ value p = value u * value v.
Proof.
  intros Hu Hv Hlt. destruct (@checked_mul_value E n u v Hu Hv) as ([p|] & Hrun & Hp); [by exists p|lia].
Qed.

Lemma div_runs n u v :
  wf (S n) u -> wf (S n) v -> 0 < value v ->
  exists q, @checked_div E u v = Ok (Some q) /\ wf (S n) q /\ value q = value u / value v.
Proof.
  intros Hu Hv Hpos. destruct (checked_div_value n u v Hu Hv) as ([q|] & Hrun & Hq); [|lia].
  exists q. naive_solver.
Qed.

Lemma sub_fits n u v :
  wf n u -> wf n v -> value v <= value u ->
  exists r, checked_sub u v = Some r /\ wf n r /\ value r = value u - value v.
Proof.
  intros Hu Hv Hle. pose proof (checked_sub_value n u v Hu Hv) as Hr.
  destruct (checked_sub u v) as [r|]; [by exists r|lia].
Qed.

Lemma add_fits n u v :
  wf n u -> wf n v -> value u + value v < W ^ Z.of_nat n ->
  exists r, checked_add u v = Some r /\ wf n r /\ value r = value u + value v.
Proof.
  intros Hu Hv Hlt. pose proof (checked_add_value n u v Hu Hv) as Hr.
  destruct (checked_add u v) as [r|]; [by exists r|lia].
Qed.

Lemma into_u128_fits u :
  wf 4 u -> value u <= u128_MAX -> exists x, @try_into_u128 E u = Ok (Some x) /\ ival x = value u.
Proof.
  intros Hu Hle. destruct (try_into_u128_value u Hu) as (r & Hrun & ->).
  pose proof (value_range 4 u Hu) as Hpos.
  destruct (bint_of_Z_is_Some (lo := 0) (hi := u128_MAX) (value u)) as (x & Hx & Hv); [lia|].
  exists x. by rewrite Hrun, Hx.
Qed.
End division.

(** * Conversions *)

Lemma wf_app n m u v : wf n u -> wf m v -> wf (n + m) (u ++ v).
Proof. intros [Hl Hu] [Hl' Hv]. split; [rewrite length_app; lia|by apply Forall_app]. Qed.

Lemma wf_take n m u : wf (n + m) u -> wf n (take n u).
Proof. intros [Hl Hu]. split; [rewrite length_take; lia|by apply Forall_take]. Qed.

Lemma wf_MAX n : wf n (MAX n) /\ value (MAX n) = W ^ Z.of_nat n - 1.
Proof.
  unfold MAX. induction n as [|n [IHw IHv]]; [done|]. split.
  - apply wf_cons. split; [unfold word; wordlia|done].
  - cbn [replicate value]. rewrite IHv, W_pow_S. unfold u64_MAX. lia.
Qed.

Lemma into_uint512_value u : wf 4 u -> wf 8 (into_uint512 u) /\ value (into_uint512 u) = value u.
Proof.
  intros Hu. unfold into_uint512. rewrite take_ge by (rewrite (wf_length _ _ Hu); lia). split.
  - apply (wf_app 4 4); [done|apply wf_replicate].
  - rewrite value_app, value_replicate. lia.
Qed.

Lemma W4 : W ^ Z.of_nat 4 = 2 ^ 256.
Proof. reflexivity. Qed.
Lemma W8 : W ^ Z.of_nat 8 = 2 ^ 512.
Proof. reflexivity. Qed.

(** Narrowing to 256 bits succeeds exactly when the number fits. *)
Lemma try_into_uint256_value u : wf 8 u ->
  match try_into_uint256 u with
  | Some v => wf 4 v /\ value v = value u
  | None => 2 ^ 256 <= value u
  end.
Proof.
  intros Hu. unfold try_into_uint256. destruct (wf_MAX 4) as [Hm Hmv].
  destruct (into_uint512_value _ Hm) as [Hm' Hmv'].
  rewrite (cmp_value _ _ _ Hu Hm'), Hmv', Hmv, W4.
  assert (value u = value (take 4 u) + 2 ^ 256 * value (drop 4 u)) as Hsplit.
  { rewrite <- (take_drop 4 u) at 1. rewrite value_app, length_take, (wf_length _ _ Hu). by rewrite <- W4. }
  pose proof (wf_take 4 4 u Hu) as Ht. pose proof (value_range 4 _ Ht) as Hr. rewrite W4 in Hr.
  assert (0 <= value (drop 4 u)) as Hd.
  { apply (value_range 4). destruct Hu as [Hl Hu]. split; [rewrite length_drop; lia|by apply Forall_drop]. }
  destruct (Z.compare_spec (value u) (2 ^ 256 - 1)); [| |lia]; (split; [done|nia]).
Qed.

Lemma lor_range k a b : 0 <= k -> 0 <= a < 2 ^ k -> 0 <= b < 2 ^ k -> 0 <= Z.lor a b < 2 ^ k.
Proof.
  intros Hk Ha Hb. assert (0 <= Z.lor a b) as Hpos by (apply Z.lor_nonneg; lia). split; [done|].
  destruct (Z.eq_dec (Z.lor a b) 0) as [->|Hne]; [apply Z.pow_pos_nonneg; lia|].
  apply Z.log2_lt_pow2; [lia|]. rewrite Z.log2_lor by lia.
  assert (forall x, 0 <= x < 2 ^ k -> x = 0 \/ Z.log2 x < k) as Hlog.
  { intros x Hx. destruct (Z.eq_dec x 0) as [->|]; [by left|]. right. apply Z.log2_lt_pow2; lia. }
  destruct (Hlog a Ha) as [->|], (Hlog b Hb) as [->|]; [done| | |lia].
  - rewrite Z.lor_0_l in *. change (Z.log2 0) with 0. pose proof (Z.log2_nonneg b). lia.
  - rewrite Z.lor_0_r in *. change (Z.log2 0) with 0. pose proof (Z.log2_nonneg a). lia.
Qed.

Lemma foldl_lor_range k l acc : 0 <= k -> 0 <= acc < 2 ^ k -> Forall (fun x => 0 <= x < 2 ^ k) l ->
  0 <= foldl Z.lor acc l < 2 ^ k.
Proof.
  intros Hk. revert acc. induction l as [|x l IH]; intros acc Hacc Hall; [done|].
  apply Forall_cons in Hall as [Hx Hall]. simpl. apply IH; [by apply lor_range|done].
Qed.

Lemma slice_to_u64_le_word bs : (length bs <= 8)%nat -> Forall (fun b => 0 <= b < 256) bs -> word (slice_to_u64_le bs).
Proof.
  intros Hl Hbs. unfold slice_to_u64_le, word. rewrite W_pow.
  assert (Forall (fun x => 0 <= x < 2 ^ 64) (imap (fun i b => Z.shiftl b (8 * Z.of_nat i)) bs)) as Hall.
  { apply Forall_lookup. intros i x. rewrite list_lookup_imap. intros (b & Hb & ->)%fmap_Some.
    pose proof (lookup_lt_Some _ _ _ Hb). rewrite Forall_lookup in Hbs. specialize (Hbs i b Hb).
    cbn beta. rewrite Z.shiftl_mul_pow2 by lia.
    pose proof (Z.pow_pos_nonneg 2 (8 * Z.of_nat i) ltac:(lia) ltac:(lia)).
    assert (2 ^ (8 * Z.of_nat i) * 256 <= 2 ^ 64); [|nia].
    change 256 with (2 ^ 8). rewrite <- Z.pow_add_r by lia. apply Z.pow_le_mono_r; lia. }
  by apply foldl_lor_range.
Qed.

Lemma hash_to_uint_wf h : wf 4 (hash_to_uint h).
Proof.
  split; [done|]. apply Forall_fmap, Forall_forall. intros i _. apply slice_to_u64_le_word.
  - rewrite length_take. lia.
  - apply Forall_take, Forall_drop, Forall_fmap, Forall_forall. intros j _. apply Z.mod_pos_bound. lia.
Qed.

(** * Main properties *)

(** Addition, subtraction and comparison of [n]-word numbers are those of
    the integers they stand for; addition fails exactly on overflow and
    subtraction exactly when the result would be negative. *)
Theorem uint_add_sub_cmp_exact n u v :
  wf n u -> wf n v ->
  match checked_add u v with
  | Some s => wf n s /\ value s = value u + value v
  | None => W ^ Z.of_nat n <= value u + value v
  end /\
  match checked_sub u v with
  | Some s => wf n s /\ value s = value u - value v
  | None => value u < value v
  end /\
  cmp u v = Z.compare (value u) (value v).
Proof.
  intros Hu Hv. split; [by apply checked_add_value|]. split; [by apply checked_sub_value|].
  by eapply cmp_value.
Qed.

(** The word-by-word multiplication never panics and returns the product,
    or [None] exactly when the product needs more words. *)
Theorem uint_mul_exact {E} n u v :
  wf (S n) u -> wf (S n) v ->
  exists r, @checked_mul E u v = Ok r /\
    match r with
    | Some p => wf (S n) p /\ value p = value u * value v
    | None => W ^ Z.of_nat (S n) <= value u * value v
    end.
Proof. apply checked_mul_value. Qed.

(** The bitwise long division terminates without a panic and returns the
    Euclidean quotient and remainder, or [None] exactly for a zero divisor. *)
Theorem uint_div_rem_exact {E} n u v :
  wf (S n) u -> wf (S n) v ->
  (exists r, @checked_div E u v = Ok r /\
    match r with
    | Some q => 0 < value v /\ wf (S n) q /\ value q = value u / value v
    | None => value v = 0
    end) /\
  (exists r, @checked_rem E u v = Ok r /\
    match r with
    | Some q => 0 < value v /\ wf (S n) q /\ value q = value u mod value v
    | None => value v = 0
    end).
Proof. intros Hu Hv. split; [by apply checked_div_value|by apply checked_rem_value]. Qed.

(** Shifting by any number of bits never panics (no word addition in the
    loops overflows, no index leaves the array); left shifts drop the bits
    above the width, right shifts the bits below zero. *)
Theorem uint_shift_exact {E} n u s :
  wf n u ->
  (exists r, @shl E u s = Ok r /\ wf n r /\
     value r = Z.shiftl (value u) (Z.of_nat s) mod W ^ Z.of_nat n) /\
  (exists r, @shr E u s = Ok r /\ wf n r /\ value r = Z.shiftr (value u) (Z.of_nat s)).
Proof. intros Hu. split; [by apply shl_value|by apply shr_value]. Qed.

Module Witnesses.
(** 2^64 and 3 as 256-bit numbers. *)
Definition big : uint := [0; 1; 0; 0].
Definition three : uint := [3; 0; 0; 0].

Lemma big_wf : wf 4 big.
Proof. split; [reflexivity|]. repeat constructor; discriminate. Qed.
Lemma three_wf : wf 4 three.
Proof. split; [reflexivity|]. repeat constructor; discriminate. Qed.

Lemma uint_add_sub_cmp_exact_witness :
  wf 4 big /\ cmp big three = Z.compare (value big) (value three).
Proof.
  split; [exact big_wf|]. apply (uint_add_sub_cmp_exact 4 big three big_wf three_wf).
Defined.

Lemma uint_mul_exact_witness :
  exists r, @checked_mul Empty_set big three = Ok r /\
    match r with
    | Some p => wf 4 p /\ value p = value big * value three
    | None => W ^ Z.of_nat 4 <= value big * value three
    end.
Proof. exact (uint_mul_exact 3 big three big_wf three_wf). Defined.

Lemma uint_div_rem_exact_witness :
  exists r, @checked_div Empty_set big three = Ok r /\
    match r with
    | Some q => 0 < value three /\ wf 4 q /\ value q = value big / value three
    | None => value three = 0
    end.
Proof. exact (proj1 (uint_div_rem_exact 3 big three big_wf three_wf)). Defined.

Lemma uint_shift_exact_witness :
  exists r, @shr Empty_set big 65 = Ok r /\ wf 4 r /\ value r = Z.shiftr (value big) 65.
Proof. exact (proj2 (uint_shift_exact 4 big 65 big_wf)). Defined.
End Witnesses.

(** The functions run. *)
Example div_computes : @checked_div Empty_set [0; 1; 0; 0] [3; 0; 0; 0]
  = Ok (Some [6148914691236517205; 0; 0; 0]).
Proof. vm_compute. reflexivity. Qed.
