(* ===== verification/Accounting.v ===== *)
(** * Deltas over account data and balances

    Models the [accounting] crate: [DataDelta] with its combination and
    inversion, [DeltaDataCollection], [DeltaAmountCollection], the two
    [combine_*] functions that apply a delta to a base value.  The tokens, orders and PoS ledgers are built on it. *)
From S2P Require Import Prelude Amount.

(** [accounting::Error]. *)
Inductive Error :=
  | ArithmeticErrorToUnsignedFailed
  | ArithmeticErrorToSignedFailed
  | ArithmeticErrorDeltaAdditionFailed
  | ArithmeticErrorSumToUnsignedFailed
  | ArithmeticErrorSumToSignedFailed
  | DataCreatedMultipleTimes
  | ModifyNonexistingData
  | RemoveNonexistingData
  | DeltaDataCreatedMultipleTimes
  | DeltaDataDeletedMultipleTimes
  | DeltaDataModifyAfterDelete
  | DeltaUndoNegationError
  | DeltaOverUndoApplied
  | DeltaDataMismatch.

#[global] Instance Error_eq_dec : EqDecision Error.
Proof. solve_decision. Defined.

(** ** Data deltas *)

Record DataDelta (T : Type) := mk_delta { old : option T; new : option T }.
Arguments mk_delta {_} _ _.
Arguments old {_} _.
Arguments new {_} _.

#[global] Instance DataDelta_eq_dec `{EqDecision T} : EqDecision (DataDelta T).
Proof. solve_decision. Defined.

(** [DataDeltaUndo]: a delta that is only ever used to take another one back. *)
Record DataDeltaUndo (T : Type) := mk_delta_undo { as_delta : DataDelta T }.
Arguments mk_delta_undo {_} _.
Arguments as_delta {_} _.

Definition invert {T} (d : DataDelta T) : DataDeltaUndo T :=
  mk_delta_undo (mk_delta (new d) (old d)).

Definition combine_delta_data `{EqDecision T} (lhs rhs : DataDelta T) :
    result Error (DataDelta T) :=
  _ ← ensure (bool_decide (new lhs = old rhs)) DeltaDataMismatch;
  Ok (mk_delta (old lhs) (new rhs)).

(** Combine data with an element of a delta collection. *)
Definition combine_data_with_delta `{EqDecision T} (lhs : option T) (rhs : option (DataDelta T)) :
    result Error (option T) :=
  match lhs, rhs with
  | lhs, None => Ok lhs
  | None, Some d =>
      match old d, new d with
      | None, next => Ok next
      | Some _, None => Err RemoveNonexistingData
      | Some _, Some _ => Err ModifyNonexistingData
      end
  | Some data, Some d =>
      match old d, new d with
      | None, None => Err DeltaDataMismatch
      | None, Some _ => Err DataCreatedMultipleTimes
      | Some prev, next =>
          _ ← ensure (bool_decide (data = prev)) DeltaDataMismatch;
          Ok next
      end
  end.

(** Apply a delta on top of a balance. *)
Definition combine_amount_delta (lhs : Amount) (rhs : option SignedAmount) : result Error Amount :=
  match rhs with
  | None => Ok lhs
  | Some v2 =>
      v1 ← ok_or ArithmeticErrorToSignedFailed (Amount.into_signed lhs);
      sum ← ok_or ArithmeticErrorDeltaAdditionFailed (SignedAmount.add v1 v2);
      ok_or ArithmeticErrorSumToUnsignedFailed (SignedAmount.into_unsigned sum)
  end.

(** ** Collections of data deltas *)

Inductive GetDataResult (T : Type) :=
  | Present (d : T)
  | Deleted
  | Missing.
Arguments Present {_} _.
Arguments Deleted {_}.
Arguments Missing {_}.

(** The one-field structs around [BTreeMap] are identified with the map. *)
Abbreviation DeltaDataCollection K T := (gmap K (DataDelta T)).
Abbreviation DeltaDataUndoCollection K T := (gmap K (DataDeltaUndo T)).
Abbreviation DeltaAmountCollection K := (gmap K SignedAmount).

Section data_collection.
Context `{BTreeKey K} `{EqDecision T}.

Definition get_data (c : DeltaDataCollection K T) (key : K) : GetDataResult T :=
  match c !! key with
  | Some delta =>
      match new delta with
      | None => Deleted
      | Some d => Present d
      end
  | None => Missing
  end.

(** [Entry::Occupied(e)]: the entry is removed before the deltas are combined. *)
Definition merge_delta_data_element (key : K) (other : DataDelta T) :
    ST (DeltaDataCollection K T) Error (DataDeltaUndo T) :=
  let undo := invert other in
  entry ← gets (fun c : DeltaDataCollection K T => Ok (c !! key));
  el ← match entry with
       | Some e => _ ← modify (delete key); lift (combine_delta_data e other)
       | None => mret other
       end;
  _ ← modify (insert key el);
  mret undo.

Definition merge_delta_data (other : DeltaDataCollection K T) :
    ST (DeltaDataCollection K T) Error (DeltaDataUndoCollection K T) :=
  data_undo ← try_collect (fun '(key, other_pool_data) =>
      u ← merge_delta_data_element key other_pool_data;
      mret (key, u)) (btree_iter other);
  mret (btree_collect data_undo).

Definition undo_merge_delta_data_element (key : K) (undo : DataDeltaUndo T) :
    ST (DeltaDataCollection K T) Error unit :=
  _ ← merge_delta_data_element key (as_delta undo);
  mret tt.

Definition undo_merge_delta_data (undo_data : DeltaDataUndoCollection K T) :
    ST (DeltaDataCollection K T) Error unit :=
  try_for_each (fun '(key, data) => undo_merge_delta_data_element key data)
    (btree_iter undo_data).
End data_collection.

(** ** Collections of balance deltas *)

Section amount_collection.
Context `{BTreeKey K}.

Definition combine_signed_amount_delta (lhs : option SignedAmount) (rhs : SignedAmount) :
    result Error SignedAmount :=
  match lhs with
  | None => Ok rhs
  | Some v1 => ok_or ArithmeticErrorDeltaAdditionFailed (SignedAmount.add v1 rhs)
  end.

Definition merge_delta_amount_element (key : K) (other_amount : SignedAmount) :
    ST (DeltaAmountCollection K) Error unit :=
  current ← gets (fun c : DeltaAmountCollection K => Ok (c !! key));
  new_bal ← lift (combine_signed_amount_delta current other_amount);
  if bool_decide (new_bal = SignedAmount.ZERO)
  then modify (delete key)
  else modify (insert key new_bal).

Definition merge_delta_amounts (delta_to_apply : DeltaAmountCollection K) :
    ST (DeltaAmountCollection K) Error unit :=
  try_for_each (fun '(key, other_amount) => merge_delta_amount_element key other_amount)
    (btree_iter delta_to_apply).

Definition undo_merge_delta_amounts (delta_to_remove : DeltaAmountCollection K) :
    ST (DeltaAmountCollection K) Error unit :=
  try_for_each (fun '(key, other_amount) =>
      negated ← lift (ok_or DeltaUndoNegationError (SignedAmount.neg other_amount));
      merge_delta_amount_element key negated)
    (btree_iter delta_to_remove).

Definition add_unsigned (id : K) (to_add : Amount) : ST (DeltaAmountCollection K) Error unit :=
  signed_amount_to_add ← lift (ok_or ArithmeticErrorToSignedFailed (Amount.into_signed to_add));
  merge_delta_amount_element id signed_amount_to_add.

Definition sub_unsigned (id : K) (to_sub : Amount) : ST (DeltaAmountCollection K) Error unit :=
  signed ← lift (ok_or ArithmeticErrorToSignedFailed (Amount.into_signed to_sub));
  signed_amount_to_sub ← lift (ok_or ArithmeticErrorToSignedFailed (SignedAmount.neg signed));
  merge_delta_amount_element id signed_amount_to_sub.
End amount_collection.

(** * Properties of data deltas *)

Section delta_laws.
Context `{EqDecision T}.
Implicit Types d : DataDelta T.

Lemma combine_delta_data_Ok d1 d2 d :
  combine_delta_data d1 d2 = Ok d <-> new d1 = old d2 /\ d = mk_delta (old d1) (new d2).
Proof.
  unfold combine_delta_data. case_bool_decide; cbn; naive_solver.
Qed.

(** A delta is the partial function that takes exactly its old value to its new one. *)
Lemma combine_data_with_delta_Ok (x y : option T) d :
  combine_data_with_delta x (Some d) = Ok y <-> x = old d /\ y = new d.
Proof.
  destruct d as [[o|] [n|]], x as [x|]; simpl; try (case_bool_decide; simpl); naive_solver.
Qed.

(** Combining deltas is associative, errors included: both bracketings
    fail on the same inputs and with the same error. *)
Lemma combine_delta_data_assoc_lemma d1 d2 d3 :
  (d12 ← combine_delta_data d1 d2; combine_delta_data d12 d3)
  = (d23 ← combine_delta_data d2 d3; combine_delta_data d1 d23).
Proof.
  unfold combine_delta_data, ensure, mbind, result_bind.
  repeat (case_bool_decide; simpl in *); congruence.
Qed.

(** Undoing a delta and applying it again is the delta itself. *)
Lemma combine_invert_delta d :
  (d' ← combine_delta_data d (as_delta (invert d)); combine_delta_data d' d) = Ok d.
Proof.
  apply result_bind_Ok. exists (mk_delta (old d) (old d)).
  rewrite !combine_delta_data_Ok. destruct d; naive_solver.
Qed.

(** Combining deltas is composing the updates they stand for. *)
Lemma combine_delta_data_compose d1 d2 d (x z : option T) :
  combine_delta_data d1 d2 = Ok d ->
  combine_data_with_delta x (Some d) = Ok z <->
  exists y, combine_data_with_delta x (Some d1) = Ok y /\
            combine_data_with_delta y (Some d2) = Ok z.
Proof.
  rewrite combine_delta_data_Ok. intros [Heq ->].
  setoid_rewrite combine_data_with_delta_Ok. simpl. naive_solver.
Qed.
End delta_laws.

(** ** Collections of data deltas *)

Section data_collection_laws.
Context `{BTreeKey K} `{EqDecision T}.
Implicit Types (c : DeltaDataCollection K T) (m : gmap K T) (d : DataDelta T).

(** The effect of merging [d] on the entry of its key. *)
Definition data_step (_ : K) (o : option (DataDelta T)) (d : DataDelta T) :
    result Error (option (DataDelta T) * DataDeltaUndo T) :=
  match o with
  | None => Ok (Some d, invert d)
  | Some e => el ← combine_delta_data e d; Ok (Some el, invert d)
  end.

Lemma merge_delta_data_element_run k d c :
  merge_delta_data_element k d c =
    match data_step k (c !! k) d with
    | Ok (o, u) => (partial_alter (fun _ => o) k c, Ok u)
    | Err e => (delete k c, Err e)
    | Panic => (delete k c, Panic)
    end.
Proof.
  unfold merge_delta_data_element, data_step, mbind, st_bind, gets, modify, lift, mret, st_ret.
  destruct (c !! k) as [e|]; [|done].
  simpl. destruct (combine_delta_data e d) as [el|err|]; simpl; try done.
  by rewrite insert_delete_eq.
Qed.

(** The merge fails only where the new side of the stored delta differs
    from the old side of the incoming one. *)
Lemma merge_delta_data_element_Ok k d c c' u :
  merge_delta_data_element k d c = (c', Ok u) <->
  u = invert d /\
  match c !! k with
  | None => c' = <[k:=d]> c
  | Some e => new e = old d /\ c' = <[k:=mk_delta (old e) (new d)]> c
  end.
Proof.
  rewrite merge_delta_data_element_run. unfold data_step.
  destruct (c !! k) as [e|]; [|naive_solver].
  destruct (combine_delta_data e d) as [el|er|] eqn:Hc; simpl.
  - apply combine_delta_data_Ok in Hc as [Hn ->]. naive_solver.
  - split; [done|]. intros (_ & Hn & _).
    by rewrite (proj2 (combine_delta_data_Ok e d _) (conj Hn eq_refl)) in Hc.
  - split; [done|]. intros (_ & Hn & _).
    by rewrite (proj2 (combine_delta_data_Ok e d _) (conj Hn eq_refl)) in Hc.
Qed.

Lemma merge_data_body_sound :
  step_sound data_step (fun c => c) no_frame
    (fun '(key, d) => u ← merge_delta_data_element key d; mret (key, u)).
Proof.
  intros k d c c' kc Hrun. run_inv. rewrite merge_delta_data_element_run in Hrun.
  destruct (data_step k (c !! k) d) as [[o u]|e|] eqn:Hs; simplify_eq/=.
  naive_solver.
Qed.

Lemma merge_data_body_complete :
  step_complete data_step (fun c => c)
    (fun '(key, d) => u ← merge_delta_data_element key d; mret (key, u)).
Proof.
  intros k d c o u Hs. exists (partial_alter (fun _ => o) k c).
  erewrite st_bind_run; [done|]. by rewrite merge_delta_data_element_run, Hs.
Qed.

(** [merge_delta_data] succeeds exactly when every key merges, and then
    changes every key the way [data_step] says. *)
Lemma merge_delta_data_Ok other c c' u :
  merge_delta_data other c = (c', Ok u) <-> pointwise_rel data_step other c c' u.
Proof.
  rewrite <- (try_collect_btree _ _ _ _ _ _ merge_data_body_sound merge_data_body_complete).
  unfold merge_delta_data. rewrite st_bind_Ok. unfold mret, st_ret. naive_solver.
Qed.
End data_collection_laws.

(** ** Merging collections is composing the updates *)

Section data_collection_semantics.
Context `{BTreeKey K} `{EqDecision T}.
Implicit Types (c : DeltaDataCollection K T) (m : gmap K T) (u : DeltaDataUndoCollection K T).

(** [applies c m m']: flushing the collection [c] into the data [m]
    succeeds with [combine_data_with_delta] on every key and yields [m']. *)
Definition applies c m m' : Prop :=
  forall k, combine_data_with_delta (m !! k) (c !! k) = Ok (m' !! k).

Lemma applies_iff c m m' :
  applies c m m' <->
  forall k, match c !! k with
            | Some d => m !! k = old d /\ m' !! k = new d
            | None => m' !! k = m !! k
            end.
Proof.
  split; intros Ha k; specialize (Ha k).
  - destruct (c !! k) as [d|]; [by apply combine_data_with_delta_Ok|].
    destruct (m !! k); simpl in Ha; congruence.
  - destruct (c !! k) as [d|]; [by apply combine_data_with_delta_Ok|].
    rewrite Ha. by destruct (m !! k).
Qed.

(** The merged collection, key by key. *)
Lemma merge_delta_data_lookup other c c' u k :
  merge_delta_data other c = (c', Ok u) ->
  u !! k = invert <$> other !! k /\
  match c !! k, other !! k with
  | o, None => c' !! k = o
  | None, Some d => c' !! k = Some d
  | Some e, Some d => new e = old d /\ c' !! k = Some (mk_delta (old e) (new d))
  end.
Proof.
  intros Hrel%merge_delta_data_Ok. specialize (Hrel k).
  destruct (other !! k) as [d|]; [|by destruct (c !! k); naive_solver].
  destruct Hrel as (o & v & Hs & Hc & Hu). unfold data_step in Hs.
  destruct (c !! k) as [e|]; [|by simplify_eq].
  run_inv. apply combine_delta_data_Ok in Hs as [Hn ->]. by simplify_eq.
Qed.

Lemma merge_delta_data_applies other c c' u m m'' :
  merge_delta_data other c = (c', Ok u) ->
  applies c' m m'' <-> exists m', applies c m m' /\ applies other m' m''.
Proof.
  intros Hmerge. setoid_rewrite applies_iff. split.
  - intros Ha.
    exists (merge (fun (x : option (DataDelta T)) (y : option T) =>
      match x with Some d => new d | None => y end) c m).
    split; intros k; rewrite lookup_merge; specialize (Ha k);
      destruct (merge_delta_data_lookup _ _ _ _ k Hmerge) as [_ Hk];
      destruct (c !! k) as [e|], (other !! k) as [d|]; destruct_and?;
      repeat match goal with Hc : c' !! k = _ |- _ => rewrite Hc in Ha; clear Hc end;
      simpl in *; destruct (m !! k); simpl; naive_solver.
  - intros (m' & Ha & Hb) k. specialize (Ha k). specialize (Hb k).
    destruct (merge_delta_data_lookup _ _ _ _ k Hmerge) as [_ Hk].
    destruct (c !! k) as [e|], (other !! k) as [d|]; destruct_and?;
      repeat match goal with Hc : c' !! k = _ |- _ => rewrite Hc; clear Hc end;
      simpl; naive_solver congruence.
Qed.

(** The undo collection takes a merge back: the result differs from the
    original collection only by deltas that change nothing. *)
Lemma undo_merge_delta_data_step : entry_step
  (fun (k : K) o (v : DataDeltaUndo T) => r ← data_step k o (as_delta v); Ok r.1)
  (fun '((key, data) : K * DataDeltaUndo T) => undo_merge_delta_data_element key data).
Proof.
  intros k v c. unfold undo_merge_delta_data_element, mbind, st_bind, result_bind.
  rewrite merge_delta_data_element_run.
  destruct (data_step k (c !! k) (as_delta v)) as [[o u]|e|]; simpl; eauto.
Qed.

Definition unchanged_delta (o : option T) : DataDelta T := mk_delta o o.

Lemma undo_merge_delta_data_restores other c c' u :
  merge_delta_data other c = (c', Ok u) ->
  exists c0, undo_merge_delta_data u c' = (c0, Ok tt) /\
    forall k, c0 !! k = match c !! k with
                        | Some d => Some d
                        | None => unchanged_delta ∘ old <$> other !! k
                        end.
Proof.
  intros Hm.
  exists (merge (fun (x y : option (DataDelta T)) =>
      match x with Some d => Some d | None => unchanged_delta ∘ old <$> y end) c other).
  split; [|intros k; rewrite lookup_merge; by destruct (c !! k), (other !! k)].
  apply try_for_each_btree with (1 := undo_merge_delta_data_step). intros k.
  rewrite lookup_merge. destruct (merge_delta_data_lookup _ _ _ _ k Hm) as [-> Hk].
  destruct (c !! k) as [e|], (other !! k) as [d|]; simpl; destruct_and?;
    repeat match goal with Hc : c' !! k = _ |- _ => rewrite Hc; clear Hc end; try done; simpl.
  - unfold combine_delta_data. simpl. rewrite bool_decide_true by done. simpl.
    destruct e as [eo en], d as [do dn]; simpl in *. by subst.
  - unfold combine_delta_data. simpl. by rewrite bool_decide_true.
Qed.

Lemma undo_merge_delta_data_applies other c c' u m m' m'' :
  merge_delta_data other c = (c', Ok u) -> applies c' m m'' ->
  exists c0, undo_merge_delta_data u c' = (c0, Ok tt) /\
    (applies c0 m m' <-> applies c m m').
Proof.
  intros Hm Ha. destruct (undo_merge_delta_data_restores _ _ _ _ Hm) as (c0 & Hrun & Hc0).
  exists c0. split; [done|]. rewrite !applies_iff in *. apply forall_proper. intros k.
  rewrite Hc0. specialize (Ha k).
  destruct (merge_delta_data_lookup _ _ _ _ k Hm) as [_ Hk].
  destruct (c !! k) as [e|], (other !! k) as [d|]; simpl; try done.
  rewrite Hk in Ha. naive_solver congruence.
Qed.
End data_collection_semantics.

(** * Properties of balance deltas *)

(** The integer an absent or present delta stands for. *)
Definition delta_val (o : option SignedAmount) : Z := default 0 (ival <$> o).

(** How a delta is stored: zero deltas are not stored at all. *)
Definition stored (z : Z) : option SignedAmount := if z =? 0 then None else bint_of_Z z.

Definition fits_i128 (z : Z) : Prop := i128_MIN <= z <= i128_MAX.

Lemma delta_val_fits o : fits_i128 (delta_val o).
Proof. unfold fits_i128. destruct o as [v|]; simpl; unfold delta_val; simpl; blia. Qed.

Lemma delta_val_stored z : fits_i128 z -> delta_val (stored z) = z.
Proof.
  intros Hz. unfold stored. destruct (Z.eqb_spec z 0) as [->|]; [done|].
  destruct (bint_of_Z_is_Some z Hz) as (x & -> & Hx). done.
Qed.

Lemma stored_nonzero z v : stored z = Some v -> ival v <> 0.
Proof. unfold stored. destruct (Z.eqb_spec z 0); [done|]. intros ->%bint_of_Z_Some. done. Qed.

(** Applying a delta to a balance, case by case. *)
Lemma combine_amount_delta_Ok base o v :
  combine_amount_delta base o = Ok v <->
  match o with
  | None => v = base
  | Some d => ival base <= i128_MAX /\ ival base + ival d <= i128_MAX /\ ival v = ival base + ival d
  end.
Proof.
  destruct o as [d|]; simpl; [|naive_solver]. split.
  - intros Hrun. run_inv. amount_inv. blia.
  - intros (H1 & H2 & H3). apply result_bind_Ok.
    destruct (bint_of_Z_is_Some (lo := i128_MIN) (hi := i128_MAX) (ival base)) as (x & Hx & Hxv);
      [blia|].
    exists x. split; [by apply ok_or_Ok|]. apply result_bind_Ok.
    destruct (bint_of_Z_is_Some (lo := i128_MIN) (hi := i128_MAX) (ival x + ival d)) as (y & Hy & Hyv);
      [blia|].
    exists y. split; [by apply ok_or_Ok|]. apply ok_or_Ok, into_unsigned_Some. lia.
Qed.

Lemma combine_amount_delta_val base o v :
  combine_amount_delta base o = Ok v -> ival v = ival base + delta_val o.
Proof. rewrite combine_amount_delta_Ok. destruct o; unfold delta_val; simpl; [tauto|intros ->; lia]. Qed.

(** Which error the failing application reports. *)
Lemma combine_amount_delta_Err base d e :
  combine_amount_delta base (Some d) = Err e <->
  (e = ArithmeticErrorToSignedFailed /\ i128_MAX < ival base) \/
  (e = ArithmeticErrorDeltaAdditionFailed /\ ival base <= i128_MAX /\
   i128_MAX < ival base + ival d) \/
  (e = ArithmeticErrorSumToUnsignedFailed /\ ival base <= i128_MAX /\ ival base + ival d < 0).
Proof.
  simpl. destruct (Amount.into_signed base) as [b|] eqn:Hb; simpl; amount_inv;
    [|split; [naive_solver|intros [[-> _]|[[_ ?]|[_ ?]]]; [done|lia..]]].
  destruct (SignedAmount.add b d) as [s|] eqn:Hs; simpl; amount_inv.
  - destruct (SignedAmount.into_unsigned s) eqn:Hu; simpl; amount_inv.
    + split; [done|]. intros [[_ ?]|[[_ ?]|[_ ?]]]; blia.
    + split; [|intros [[_ ?]|[[_ ?]|[-> ?]]]; [blia..|done]].
      intros [= <-]. right; right. split; [done|]. blia.
  - split; [|intros [[_ ?]|[[-> ?]|[_ ?]]]; [blia|done|blia]].
    intros [= <-]. right; left. split; [done|]. blia.
Qed.

Lemma combine_amount_delta_no_panic base o : no_panic (combine_amount_delta base o).
Proof.
  unfold no_panic. destruct o as [d|]; simpl; [|done].
  destruct (Amount.into_signed base); simpl; [|done].
  destruct (SignedAmount.add _ _); simpl; [|done]. by destruct (SignedAmount.into_unsigned _).
Qed.

Section amount_collection_laws.
Context `{BTreeKey K}.
Implicit Types (c : DeltaAmountCollection K) (k : K).

Definition delta_at c k : Z := delta_val (c !! k).

(** No entry that has no effect is stored. *)
Definition canonical c : Prop := forall k v, c !! k = Some v -> ival v <> 0.

Definition set_delta c k z : DeltaAmountCollection K := partial_alter (fun _ => stored z) k c.

Definition amount_step (_ : K) (o : option SignedAmount) (v : SignedAmount) :
    result Error (option SignedAmount) :=
  b ← combine_signed_amount_delta o v;
  Ok (if bool_decide (b = SignedAmount.ZERO) then None else Some b).

Lemma amount_step_Ok k o v o' :
  amount_step k o v = Ok o' <->
  fits_i128 (delta_val o + ival v) /\ o' = stored (delta_val o + ival v).
Proof.
  assert (forall b : SignedAmount,
    (if bool_decide (b = SignedAmount.ZERO) then None else Some b) = stored (ival b)) as Hst.
  { intros b. unfold stored. case_bool_decide as Hb.
    - by rewrite Hb.
    - destruct (Z.eqb_spec (ival b) 0) as [Hz|]; [|by rewrite bint_of_Z_ival].
      exfalso. apply Hb. by apply bint_eq. }
  unfold amount_step. rewrite result_bind_Ok. destruct o as [a|]; simpl; unfold delta_val; simpl.
  - split.
    + intros (b & Hb & Ho). run_inv. amount_inv. rewrite Hst, Hb.
      unfold fits_i128. split; [blia|done].
    + intros [Hf ->]. destruct (bint_of_Z_is_Some _ Hf) as (b & Hb & Hv).
      exists b. split; [by apply ok_or_Ok|]. by rewrite Hst, Hv.
  - split.
    + intros (b & [= <-] & Ho). run_inv. rewrite Hst. unfold fits_i128. split; [blia|done].
    + intros [Hf ->]. exists v. by rewrite Hst.
Qed.

Lemma merge_delta_amount_element_run k v c :
  merge_delta_amount_element k v c =
    match amount_step k (c !! k) v with
    | Ok o => (partial_alter (fun _ => o) k c, Ok tt)
    | Err e => (c, Err e)
    | Panic => (c, Panic)
    end.
Proof.
  unfold merge_delta_amount_element, amount_step, mbind, st_bind, result_bind, gets, lift, modify.
  destruct (combine_signed_amount_delta (c !! k) v) as [b|e|]; [|done|done].
  by case_bool_decide.
Qed.

Lemma merge_delta_amount_element_Ok k v c c' :
  merge_delta_amount_element k v c = (c', Ok tt) <->
  fits_i128 (delta_at c k + ival v) /\ c' = set_delta c k (delta_at c k + ival v).
Proof.
  rewrite merge_delta_amount_element_run. unfold set_delta, delta_at.
  destruct (amount_step k (c !! k) v) as [o|e|] eqn:Hs.
  - apply amount_step_Ok in Hs as [? ->]. naive_solver.
  - split; [done|]. intros [Hf _].
    by rewrite (proj2 (amount_step_Ok k (c !! k) v _) (conj Hf eq_refl)) in Hs.
  - split; [done|]. intros [Hf _].
    by rewrite (proj2 (amount_step_Ok k (c !! k) v _) (conj Hf eq_refl)) in Hs.
Qed.

(** A balance delta that does not fit leaves the collection as it was. *)
Lemma merge_delta_amount_element_fail k v c :
  ~ fits_i128 (delta_at c k + ival v) ->
  merge_delta_amount_element k v c = (c, Err ArithmeticErrorDeltaAdditionFailed).
Proof.
  intros Hf. rewrite merge_delta_amount_element_run. unfold amount_step, delta_at in *.
  destruct (c !! k) as [a|]; simpl in *; unfold delta_val in *; simpl in *.
  - destruct (SignedAmount.add a v) eqn:Hadd; [|done].
    exfalso. apply Hf. amount_inv. unfold fits_i128. blia.
  - exfalso. apply Hf. unfold fits_i128. blia.
Qed.

Lemma delta_at_set c k z j :
  fits_i128 z -> delta_at (set_delta c k z) j = if decide (k = j) then z else delta_at c j.
Proof.
  intros Hz. unfold delta_at, set_delta. case_decide as Hkj.
  - subst. by rewrite lookup_partial_alter_eq, delta_val_stored.
  - by rewrite lookup_partial_alter_ne.
Qed.

Lemma canonical_set c k z : canonical c -> canonical (set_delta c k z).
Proof.
  intros Hc j v. unfold set_delta. destruct (decide (k = j)) as [<-|].
  - rewrite lookup_partial_alter_eq. apply stored_nonzero.
  - rewrite lookup_partial_alter_ne by done. apply Hc.
Qed.

Lemma canonical_empty : canonical (∅ : DeltaAmountCollection K).
Proof. intros k v. by rewrite lookup_empty. Qed.

Lemma canonical_stored c k : canonical c -> c !! k = stored (delta_at c k).
Proof.
  intros Hc. unfold delta_at, stored. specialize (Hc k). destruct (c !! k) as [v|]; [|done].
  unfold delta_val; simpl. destruct (Z.eqb_spec (ival v) 0) as [Hz|].
  - by specialize (Hc v eq_refl).
  - by rewrite bint_of_Z_ival.
Qed.

(** Canonical collections are determined by the deltas they stand for. *)
Lemma canonical_eq c1 c2 :
  canonical c1 -> canonical c2 -> (forall k, delta_at c1 k = delta_at c2 k) -> c1 = c2.
Proof.
  intros H1 H2 Heq. apply map_eq. intros k.
  by rewrite (canonical_stored c1), (canonical_stored c2), Heq.
Qed.

Lemma add_unsigned_Ok id a c c' :
  add_unsigned id a c = (c', Ok tt) <->
  ival a <= i128_MAX /\ fits_i128 (delta_at c id + ival a) /\
  c' = set_delta c id (delta_at c id + ival a).
Proof.
  unfold add_unsigned. destruct (Amount.into_signed a) as [s|] eqn:Hs; amount_inv.
  - erewrite st_bind_run by done. rewrite merge_delta_amount_element_Ok, Hs.
    split; [|naive_solver]. intros [? ?]. split; [blia|done].
  - split; [done|]. lia.
Qed.

Lemma sub_unsigned_Ok id a c c' :
  sub_unsigned id a c = (c', Ok tt) <->
  ival a <= i128_MAX /\ fits_i128 (delta_at c id - ival a) /\
  c' = set_delta c id (delta_at c id - ival a).
Proof.
  unfold sub_unsigned. destruct (Amount.into_signed a) as [s|] eqn:Hs; amount_inv.
  - erewrite st_bind_run by done.
    destruct (SignedAmount.neg s) as [n|] eqn:Hn; amount_inv; [|blia].
    erewrite st_bind_run by done. rewrite merge_delta_amount_element_Ok, Hn, Hs.
    rewrite Z.add_opp_r. split; [|naive_solver]. intros [? ?]. split; [blia|done].
  - split; [done|]. lia.
Qed.

Lemma merge_delta_amounts_step : entry_step amount_step
  (fun '((key, other_amount) : K * SignedAmount) => merge_delta_amount_element key other_amount).
Proof.
  intros k v c. rewrite merge_delta_amount_element_run.
  destruct (amount_step k (c !! k) v); eauto.
Qed.

Lemma delta_at_None c k : c !! k = None -> delta_at c k = 0.
Proof. unfold delta_at. by intros ->. Qed.

Lemma delta_at_Some c k v : c !! k = Some v -> delta_at c k = ival v.
Proof. unfold delta_at. by intros ->. Qed.

(** A merge succeeds exactly when no key overflows, and then adds the deltas up. *)
Lemma merge_delta_amounts_Ok other c c' :
  canonical c ->
  merge_delta_amounts other c = (c', Ok tt) <->
  canonical c' /\ forall k, delta_at c' k = delta_at c k + delta_at other k.
Proof.
  intros Hc. unfold merge_delta_amounts. rewrite (try_for_each_btree amount_step)
    by apply merge_delta_amounts_step.
  split.
  - intros Hrel.
    assert (forall k, c' !! k = stored (delta_at c k + delta_at other k) /\
      fits_i128 (delta_at c k + delta_at other k)) as Hk.
    { intros k. specialize (Hrel k). destruct (other !! k) as [v|] eqn:Ho.
      - apply amount_step_Ok in Hrel as [Hf Hs]. by rewrite (delta_at_Some _ _ _ Ho).
      - rewrite (delta_at_None _ _ Ho), Z.add_0_r, Hrel.
        split; [by apply canonical_stored|apply delta_val_fits]. }
    split.
    + intros k v Hv. destruct (Hk k) as [Hkk _]. rewrite Hkk in Hv. by eapply stored_nonzero.
    + intros k. destruct (Hk k) as [Hkk Hf]. unfold delta_at at 1. rewrite Hkk.
      by apply delta_val_stored.
  - intros [Hc' Hsum] k. specialize (Hsum k).
    rewrite (canonical_stored c'), Hsum by done.
    destruct (other !! k) as [v|] eqn:Ho.
    + rewrite (delta_at_Some _ _ _ Ho) in Hsum |- *. apply amount_step_Ok. split; [|done].
      fold (delta_at c k). rewrite <- Hsum. apply delta_val_fits.
    + rewrite (delta_at_None _ _ Ho), Z.add_0_r. symmetry. by apply canonical_stored.
Qed.

Definition undo_amount_step (k : K) (o : option SignedAmount) (v : SignedAmount) :
    result Error (option SignedAmount) :=
  n ← ok_or DeltaUndoNegationError (SignedAmount.neg v); amount_step k o n.

Lemma undo_merge_delta_amounts_step : entry_step undo_amount_step
  (fun '((key, other_amount) : K * SignedAmount) =>
      negated ← lift (ok_or DeltaUndoNegationError (SignedAmount.neg other_amount));
      merge_delta_amount_element key negated).
Proof.
  intros k v c. unfold undo_amount_step.
  destruct (SignedAmount.neg v) as [n|] eqn:Hn; simpl.
  - erewrite st_bind_run by done. rewrite merge_delta_amount_element_run.
    destruct (amount_step k (c !! k) n); eauto.
  - eexists; done.
Qed.

(** Undoing a merge gives back the very collection the merge started from. *)
Lemma undo_merge_delta_amounts_restores other c c' :
  canonical c -> (forall k, other !! k <> Some SignedAmount.MIN) ->
  merge_delta_amounts other c = (c', Ok tt) ->
  undo_merge_delta_amounts other c' = (c, Ok tt).
Proof.
  intros Hc Hmin Hm. apply merge_delta_amounts_Ok in Hm as [Hc' Hsum]; [|done].
  apply (try_for_each_btree undo_amount_step); [apply undo_merge_delta_amounts_step|].
  intros k. specialize (Hmin k). specialize (Hsum k).
  rewrite (canonical_stored c), (canonical_stored c') by done. rewrite Hsum.
  pose proof (delta_val_fits (c' !! k)) as Hf'. fold (delta_at c' k) in Hf'.
  destruct (other !! k) as [v|] eqn:Ho.
  - rewrite (delta_at_Some _ _ _ Ho) in Hsum |- *. rewrite Hsum in Hf'.
    unfold undo_amount_step. destruct (SignedAmount.neg v) as [n|] eqn:Hn; amount_inv; simpl.
    + apply amount_step_Ok. rewrite delta_val_stored by done. rewrite Hn.
      replace (delta_at c k + ival v + - ival v) with (delta_at c k) by lia.
      split; [apply delta_val_fits|done].
    + exfalso. apply Hmin. f_equal. by apply bint_eq.
  - by rewrite (delta_at_None _ _ Ho), Z.add_0_r.
Qed.

(** [sub_unsigned] takes back [add_unsigned], and the other way round. *)
Lemma sub_add_unsigned id a c c' :
  canonical c -> add_unsigned id a c = (c', Ok tt) -> sub_unsigned id a c' = (c, Ok tt).
Proof.
  rewrite add_unsigned_Ok, sub_unsigned_Ok. intros Hc (Ha & Hf & ->).
  rewrite delta_at_set, decide_True by done.
  replace (delta_at c id + ival a - ival a) with (delta_at c id) by lia.
  split; [done|]. split; [apply delta_val_fits|]. apply canonical_eq; try by repeat apply canonical_set.
  intros k. rewrite !delta_at_set by (done || apply delta_val_fits).
  case_decide; by subst.
Qed.

Lemma add_sub_unsigned id a c c' :
  canonical c -> sub_unsigned id a c = (c', Ok tt) -> add_unsigned id a c' = (c, Ok tt).
Proof.
  rewrite add_unsigned_Ok, sub_unsigned_Ok. intros Hc (Ha & Hf & ->).
  rewrite delta_at_set, decide_True by done.
  replace (delta_at c id - ival a + ival a) with (delta_at c id) by lia.
  split; [done|]. split; [apply delta_val_fits|]. apply canonical_eq; try by repeat apply canonical_set.
  intros k. rewrite !delta_at_set by (done || apply delta_val_fits).
  case_decide; by subst.
Qed.
End amount_collection_laws.

(** * Views through deltas

    A cache shows its parent's data and balances as changed by its own
    deltas.  These lemmas are what the tokens, orders and PoS caches share. *)

Section data_view.
Context `{BTreeKey K} `{EqDecision T}.
Implicit Types (c : DeltaDataCollection K T) (base : K -> option T).

(** The data seen through the collection [c] on top of [base]. *)
Definition data_view c base (k : K) : option T :=
  match c !! k with Some d => new d | None => base k end.

(** Every delta starts from the value the parent has. *)
Definition data_consistent c base : Prop := forall k d, c !! k = Some d -> old d = base k.

Lemma get_data_view c base k :
  match get_data c k with Present d => Some d | Deleted => None | Missing => base k end
  = data_view c base k.
Proof. unfold get_data, data_view. destruct (c !! k) as [d|]; [by destruct (new d)|done]. Qed.

Lemma data_consistent_empty base : data_consistent ∅ base.
Proof. intros k d. by rewrite lookup_empty. Qed.

Lemma data_view_empty base k : data_view ∅ base k = base k.
Proof. unfold data_view. by rewrite lookup_empty. Qed.

(** A delta that starts from the visible value is always merged. *)
Lemma merge_delta_data_element_view c base k d :
  data_consistent c base -> data_view c base k = old d ->
  exists c', merge_delta_data_element k d c = (c', Ok (invert d)) /\
    data_consistent c' base /\
    forall j, data_view c' base j = if decide (k = j) then new d else data_view c base j.
Proof.
  intros Hcons Hview. unfold data_view in Hview.
  assert (forall e, old e = base k -> new e = new d ->
    data_consistent (<[k:=e]> c) base /\
    forall j, data_view (<[k:=e]> c) base j
              = if decide (k = j) then new d else data_view c base j) as Hins.
  { intros e Hold Hnew. split.
    - intros j e'. destruct (decide (k = j)) as [<-|].
      + rewrite lookup_insert_eq. by intros [= <-].
      + rewrite lookup_insert_ne by done. apply Hcons.
    - intros j. unfold data_view. case_decide.
      + subst. by rewrite lookup_insert_eq.
      + by rewrite lookup_insert_ne. }
  destruct (c !! k) as [e|] eqn:Hc.
  - exists (<[k:=mk_delta (old e) (new d)]> c). split; [|apply Hins; [by apply (Hcons k e)|done]].
    apply merge_delta_data_element_Ok. by rewrite Hc.
  - exists (<[k:=d]> c). split; [|by apply Hins].
    apply merge_delta_data_element_Ok. by rewrite Hc.
Qed.

Lemma undo_merge_delta_data_element_view c base k (u : DataDeltaUndo T) :
  data_consistent c base -> data_view c base k = old (as_delta u) ->
  exists c', undo_merge_delta_data_element k u c = (c', Ok tt) /\
    data_consistent c' base /\
    forall j, data_view c' base j
              = if decide (k = j) then new (as_delta u) else data_view c base j.
Proof.
  intros Hcons Hview.
  destruct (merge_delta_data_element_view c base k (as_delta u)) as (c' & Hm & Hrest); [done..|].
  exists c'. split; [|done]. unfold undo_merge_delta_data_element. by erewrite st_bind_run.
Qed.

(** Merging the deltas of a child into its parent: always possible, and the
    parent then shows what the child showed. *)
Lemma merge_delta_data_view other c base :
  data_consistent c base -> data_consistent other (data_view c base) ->
  exists c', merge_delta_data other c = (c', Ok (invert <$> other)) /\
    data_consistent c' base /\
    forall j, data_view c' base j = data_view other (data_view c base) j.
Proof.
  intros Hc Ho.
  exists (merge (fun (x y : option (DataDelta T)) =>
    match x, y with
    | Some e, Some d => Some (mk_delta (old e) (new d))
    | None, y => y
    | x, None => x
    end) c other).
  split; [|split].
  - apply merge_delta_data_Ok. intros k. rewrite lookup_merge, lookup_fmap.
    specialize (Ho k). unfold data_view in Ho.
    destruct (other !! k) as [d|]; simpl; [|by destruct (c !! k)].
    destruct (c !! k) as [e|]; eexists _, _; (split; [|done]); unfold data_step; [|done].
    by rewrite (proj2 (combine_delta_data_Ok e d _) (conj (eq_sym (Ho d eq_refl)) eq_refl)).
  - intros k d. rewrite lookup_merge. specialize (Hc k). specialize (Ho k).
    unfold data_view in Ho.
    destruct (c !! k) as [e|], (other !! k) as [d'|]; simpl; intros [= <-]; simpl; eauto.
  - intros k. unfold data_view. rewrite lookup_merge.
    by destruct (c !! k), (other !! k).
Qed.
End data_view.

Section amount_view.
Context `{BTreeKey K}.
Implicit Types (c : DeltaAmountCollection K).

(** Reading a balance through a delta collection. *)
Lemma combine_amount_delta_view c k (b v : Amount) :
  ival v = ival b + delta_at c k -> ival b <= i128_MAX -> ival v <= i128_MAX ->
  combine_amount_delta b (c !! k) = Ok v.
Proof.
  unfold delta_at. intros Hv Hb Hvb. apply combine_amount_delta_Ok.
  destruct (c !! k) as [d|]; unfold delta_val in Hv; simpl in Hv; [lia|].
  apply bint_eq. lia.
Qed.

(** Merging succeeds as soon as the sums fit. *)
Lemma merge_delta_amounts_view other c :
  canonical c -> (forall k, fits_i128 (delta_at c k + delta_at other k)) ->
  exists c', merge_delta_amounts other c = (c', Ok tt) /\ canonical c' /\
    forall k, delta_at c' k = delta_at c k + delta_at other k.
Proof.
  intros Hc Hfit.
  set (c' := merge (fun (x y : option SignedAmount) => stored (delta_val x + delta_val y)) c other).
  assert (forall k, c' !! k = stored (delta_at c k + delta_at other k)) as Hl.
  { intros k. unfold c'. rewrite lookup_merge. unfold delta_at.
    by destruct (c !! k), (other !! k). }
  assert (canonical c' /\ forall k, delta_at c' k = delta_at c k + delta_at other k) as Hc'.
  { split.
    - intros k v. rewrite Hl. apply stored_nonzero.
    - intros k. unfold delta_at at 1. rewrite Hl. by apply delta_val_stored. }
  exists c'. split; [|done]. by apply merge_delta_amounts_Ok.
Qed.

Lemma add_unsigned_view id a c :
  ival a <= i128_MAX -> fits_i128 (delta_at c id + ival a) ->
  add_unsigned id a c = (set_delta c id (delta_at c id + ival a), Ok tt).
Proof. intros. by apply add_unsigned_Ok. Qed.

Lemma sub_unsigned_view id a c :
  ival a <= i128_MAX -> fits_i128 (delta_at c id - ival a) ->
  sub_unsigned id a c = (set_delta c id (delta_at c id - ival a), Ok tt).
Proof. intros. by apply sub_unsigned_Ok. Qed.
End amount_view.

(** ** Ledgers behind deltas

    [data_rep c base cur] and [balance_rep c base cur]: the deltas [c] turn
    the values [base] of the parent into the values [cur] of the cache. *)

Section reps.
Context `{BTreeKey K} `{EqDecision T}.

Record data_rep (c : DeltaDataCollection K T) (base cur : K -> option T) : Prop := {
  data_rep_consistent : data_consistent c base;
  data_rep_view : forall k, cur k = data_view c base k
}.

Definition balances_bounded (cur : K -> Amount) : Prop := forall k, ival (cur k) <= i128_MAX.

Record balance_rep (c : DeltaAmountCollection K) (base cur : K -> Amount) : Prop := {
  balance_rep_canonical : canonical c;
  balance_rep_sum : forall k, ival (cur k) = ival (base k) + delta_at c k;
  balance_rep_base : balances_bounded base;
  balance_rep_cur : balances_bounded cur
}.

Lemma data_rep_empty base : data_rep ∅ base base.
Proof. split; [apply data_consistent_empty|]. intros k. by rewrite data_view_empty. Qed.

Lemma balance_rep_empty base : balances_bounded base -> balance_rep ∅ base base.
Proof.
  intros Hb. split; try done.
  intros k. rewrite delta_at_None by apply lookup_empty. lia.
Qed.

Lemma data_rep_ext c base cur cur' :
  (forall k, cur k = cur' k) -> data_rep c base cur -> data_rep c base cur'.
Proof. intros Heq [Hc Hv]. split; [done|]. intros k. by rewrite <- Heq. Qed.

Lemma balance_rep_ext c base cur cur' :
  (forall k, cur k = cur' k) -> balance_rep c base cur -> balance_rep c base cur'.
Proof.
  intros Heq [Hc Hs Hb Hb']. split; try done.
  - intros k. by rewrite <- Heq.
  - intros k. rewrite <- Heq. apply Hb'.
Qed.

Lemma data_rep_base_ext c base base' cur :
  (forall k, base' k = base k) -> data_rep c base cur -> data_rep c base' cur.
Proof.
  intros Heq [Hc Hv]. split.
  - intros k d Hk. rewrite Heq. by apply Hc.
  - intros k. rewrite Hv. unfold data_view. by rewrite Heq.
Qed.

Lemma balance_rep_base_ext c base base' cur :
  (forall k, base' k = base k) -> balance_rep c base cur -> balance_rep c base' cur.
Proof.
  intros Heq [Hc Hs Hb Hb']. split; try done; intros k; rewrite Heq; [apply Hs|apply Hb].
Qed.

(** Reading. *)
Lemma data_rep_get c base cur k :
  data_rep c base cur ->
  match get_data c k with Present d => Some d | Deleted => None | Missing => base k end = cur k.
Proof. intros [_ Hv]. by rewrite Hv, get_data_view. Qed.

Lemma balance_rep_get c base cur k :
  balance_rep c base cur -> combine_amount_delta (base k) (c !! k) = Ok (cur k).
Proof. intros [_ Hs Hb Hb']. by apply combine_amount_delta_view. Qed.

(** Writing one entry. *)
Lemma data_rep_merge c base cur k d :
  data_rep c base cur -> cur k = old d ->
  exists c', merge_delta_data_element k d c = (c', Ok (invert d)) /\
    data_rep c' base (<[k:=new d]> cur).
Proof.
  intros [Hc Hv] Hold. rewrite Hv in Hold.
  destruct (merge_delta_data_element_view c base k d Hc Hold) as (c' & Hm & Hc' & Hv').
  exists c'. split; [done|]. split; [done|]. intros j. rewrite Hv'.
  unfold insert, fn_insert. case_decide; [done|apply Hv].
Qed.

Lemma data_rep_undo c base cur k (u : DataDeltaUndo T) :
  data_rep c base cur -> cur k = old (as_delta u) ->
  exists c', undo_merge_delta_data_element k u c = (c', Ok tt) /\
    data_rep c' base (<[k:=new (as_delta u)]> cur).
Proof.
  intros Hrep Hold. destruct (data_rep_merge c base cur k (as_delta u) Hrep Hold) as (c' & Hm & Hr).
  exists c'. split; [|done]. unfold undo_merge_delta_data_element. by erewrite st_bind_run.
Qed.

Lemma balance_rep_set c base cur k (s : Amount) :
  balance_rep c base cur -> ival s <= i128_MAX ->
  fits_i128 (ival s - ival (base k)) /\
  balance_rep (set_delta c k (ival s - ival (base k))) base (<[k:=s]> cur).
Proof.
  intros [Hc Hs Hb Hb'] Hsb. pose proof (Hb k). pose proof (bint_range (base k)).
  pose proof (bint_range s). assert (fits_i128 (ival s - ival (base k))) as Hfit
    by (unfold fits_i128; blia).
  split; [done|]. split; [by apply canonical_set| |done|].
  - intros j. rewrite delta_at_set by done. unfold insert, fn_insert.
    case_decide; [subst; lia|apply Hs].
  - intros j. unfold insert, fn_insert. case_decide; [done|apply Hb'].
Qed.

Lemma balance_rep_add c base cur k (a s : Amount) :
  balance_rep c base cur -> ival s = ival (cur k) + ival a -> ival s <= i128_MAX ->
  exists c', add_unsigned k a c = (c', Ok tt) /\ balance_rep c' base (<[k:=s]> cur).
Proof.
  intros Hrep Hs Hsb. destruct (balance_rep_set c base cur k s Hrep Hsb) as [Hfit Hrep'].
  pose proof (balance_rep_sum _ _ _ Hrep k). pose proof (bint_range (cur k)).
  exists (set_delta c k (ival s - ival (base k))). split; [|done]. apply add_unsigned_Ok.
  replace (delta_at c k + ival a) with (ival s - ival (base k)) by lia. split; [lia|done].
Qed.

Lemma balance_rep_sub c base cur k (a s : Amount) :
  balance_rep c base cur -> ival s = ival (cur k) - ival a ->
  exists c', sub_unsigned k a c = (c', Ok tt) /\ balance_rep c' base (<[k:=s]> cur).
Proof.
  intros Hrep Hs. pose proof (balance_rep_cur _ _ _ Hrep k). pose proof (bint_range s).
  destruct (balance_rep_set c base cur k s Hrep) as [Hfit Hrep']; [blia|].
  pose proof (balance_rep_sum _ _ _ Hrep k).
  exists (set_delta c k (ival s - ival (base k))). split; [|done]. apply sub_unsigned_Ok.
  replace (delta_at c k - ival a) with (ival s - ival (base k)) by lia. split; [lia|done].
Qed.

(** Going back. *)
Lemma data_rep_inverse c base cur :
  data_rep c base cur -> data_rep (as_delta <$> (invert <$> c)) cur base.
Proof.
  intros [Hc Hv]. split.
  - intros k d. rewrite !lookup_fmap. destruct (c !! k) as [d0|] eqn:Hk; [|done].
    intros [= <-]. rewrite Hv. unfold data_view. by rewrite Hk.
  - intros k. unfold data_view. rewrite !lookup_fmap. specialize (Hv k). unfold data_view in Hv.
    destruct (c !! k) as [d0|] eqn:Hk; simpl; [|done]. by rewrite (Hc k d0 Hk).
Qed.

Lemma balance_rep_inverse c u base cur :
  balance_rep c base cur -> canonical u -> (forall k, delta_at u k = - delta_at c k) ->
  balance_rep u cur base.
Proof. intros [Hc Hs Hb Hb'] Hu Hneg. split; try done. intros k. rewrite Hs, Hneg. lia. Qed.

(** Flushing into the deltas of the parent. *)
Lemma data_rep_flush c other base cur cur' :
  data_rep c base cur -> data_rep other cur cur' ->
  exists c', merge_delta_data other c = (c', Ok (invert <$> other)) /\ data_rep c' base cur'.
Proof.
  intros [Hc Hv] [Hc' Hv'].
  destruct (merge_delta_data_view other c base Hc) as (c'' & Hm & Hcons & Hview).
  { intros k d Hk. rewrite (Hc' k d Hk). apply Hv. }
  exists c''. split; [done|]. split; [done|]. intros k. rewrite Hview, Hv'.
  unfold data_view at 1 2. destruct (other !! k); [done|apply Hv].
Qed.

Lemma balance_rep_flush c other base cur cur' :
  balance_rep c base cur -> balance_rep other cur cur' ->
  exists c', merge_delta_amounts other c = (c', Ok tt) /\ balance_rep c' base cur'.
Proof.
  intros [Hc Hs Hb Hb'] [Hc1 Hs1 Hb1 Hb1'].
  destruct (merge_delta_amounts_view other c Hc) as (c' & Hm & Hcan & Hsum).
  { intros k. specialize (Hs k). specialize (Hs1 k). pose proof (Hb k). pose proof (Hb1' k).
    pose proof (bint_range (base k)). pose proof (bint_range (cur' k)).
    unfold fits_i128. blia. }
  exists c'. split; [done|]. split; try done. intros k. rewrite Hsum, Hs1, Hs. lia.
Qed.

(** Taking a flush into the deltas of the parent back. *)
Lemma data_rep_unflush c other c' u base cur cur' :
  data_rep c base cur -> data_rep other cur cur' -> merge_delta_data other c = (c', Ok u) ->
  exists c0, undo_merge_delta_data u c' = (c0, Ok tt) /\ data_rep c0 base cur.
Proof.
  intros [Hc Hv] [Hc' Hv'] Hm. destruct (undo_merge_delta_data_restores _ _ _ _ Hm) as (c0 & Hu & Hc0).
  exists c0. split; [done|].
  assert (forall k d, c !! k = None -> other !! k = Some d -> old d = base k) as Hsame.
  { intros k d Hk Hd. rewrite (Hc' k d Hd), Hv. unfold data_view. by rewrite Hk. }
  split.
  - intros k d. rewrite Hc0. destruct (c !! k) as [e|] eqn:Hk; [intros [= <-]; by apply Hc|].
    destruct (other !! k) as [e|] eqn:He; [|done]. intros [= <-]. exact (Hsame k e Hk He).
  - intros k. rewrite Hv. unfold data_view. rewrite Hc0. destruct (c !! k) as [e|] eqn:Hk; [done|].
    destruct (other !! k) as [e|] eqn:He; [|done]. simpl. by rewrite (Hsame k e).
Qed.

Lemma balance_rep_unflush c other c' base cur cur' :
  balance_rep c base cur -> balance_rep other cur cur' -> merge_delta_amounts other c = (c', Ok tt) ->
  undo_merge_delta_amounts other c' = (c, Ok tt).
Proof.
  intros [Hc _ _ _] [_ Hs Hb _] Hm. apply undo_merge_delta_amounts_restores; [done| |done].
  intros k Hk. specialize (Hs k). specialize (Hb k). rewrite (delta_at_Some _ _ _ Hk) in Hs.
  pose proof (bint_range (cur' k)). assert (ival SignedAmount.MIN = i128_MIN) as HM by reflexivity.
  rewrite HM in Hs. blia.
Qed.
End reps.

(** ** Merging deltas into a storage

    The closures with which the databases of the ledgers merge the deltas of
    a cache into their storage, one entry at a time. *)

Section store.
Context `{BTreeKey K} {S E F : Type}.
Context (accounting_error : Error -> F) (view_fail storage_write : F).

(** A storage write, its error mapped to the ledger's. *)
Definition store_write (m : ST S E unit) : ST S F unit := st_map_err (fun _ => storage_write) m.

Definition store_merge_data `{EqDecision T} (get : S -> K -> result E (option T))
    (set : K -> T -> ST S E unit) (del : K -> ST S E unit) (entry : K * DataDelta T) :
    ST S F (K * DataDeltaUndo T) :=
  let '(id, delta) := entry in
  let undo := invert delta in
  old_data ← gets (fun s => map_err (fun _ => view_fail) (get s id));
  combined ← lift (map_err accounting_error (combine_data_with_delta old_data (Some delta)));
  _ ← match combined with
      | Some result => store_write (set id result)
      | None => store_write (del id)
      end;
  mret (id, undo).

Definition store_merge_balance (get : S -> K -> result E (option Amount))
    (set : K -> Amount -> ST S E unit) (del : K -> ST S E unit) (entry : K * SignedAmount) :
    ST S F (K * SignedAmount) :=
  let '(id, delta) := entry in
  balance ← gets (fun s => map_err (fun _ => view_fail) (get s id));
  result ← lift (map_err accounting_error
                   (combine_amount_delta (default Amount.ZERO balance) (Some delta)));
  _ ← (if Amount.ltb Amount.ZERO result
       then store_write (set id result)
       else store_write (del id));
  balance_undo ← lift (expect (SignedAmount.neg delta));
  mret (id, balance_undo).

(** The closure that takes a merge of data deltas back. *)
Definition store_undo_data `{EqDecision T} (get : S -> K -> result E (option T))
    (set : K -> T -> ST S E unit) (del : K -> ST S E unit) (entry : K * DataDeltaUndo T) :
    ST S F unit :=
  let '(id, delta) := entry in
  old_data ← gets (fun s => map_err (fun _ => view_fail) (get s id));
  combined ← lift (map_err accounting_error (combine_data_with_delta old_data (Some (as_delta delta))));
  match combined with
  | Some result => store_write (set id result)
  | None => store_write (del id)
  end.

(** A map of the storage that keeps what is written to it; [frame] relates
    the other parts of the storage before and after a write. *)
Record reliable_cell {V} (get : S -> K -> result E (option V)) (set : K -> V -> ST S E unit)
    (del : K -> ST S E unit) (obs : S -> gmap K V) (frame : relation S) : Prop := {
  cell_get : forall s k, get s k = Ok (obs s !! k);
  cell_set : forall s k v, exists s', set k v s = (s', Ok tt) /\
    obs s' = <[k:=v]> (obs s) /\ frame s s';
  cell_del : forall s k, exists s', del k s = (s', Ok tt) /\
    obs s' = delete k (obs s) /\ frame s s'
}.

Definition store_data_step `{EqDecision T} (_ : K) (o : option T) (d : DataDelta T) :
    result F (option T * DataDeltaUndo T) :=
  r ← map_err accounting_error (combine_data_with_delta o (Some d)); Ok (r, invert d).

Definition store_balance_step (_ : K) (o : option Amount) (d : SignedAmount) :
    result F (option Amount * SignedAmount) :=
  r ← map_err accounting_error (combine_amount_delta (default Amount.ZERO o) (Some d));
  n ← expect (SignedAmount.neg d);
  Ok (if Amount.ltb Amount.ZERO r then Some r else None, n).

Lemma store_merge_data_exact `{EqDecision T} get set del (obs : S -> gmap K T) frame :
  reliable_cell get set del obs frame ->
  step_exact store_data_step obs frame (store_merge_data get set del).
Proof.
  intros [Hget Hset Hdel] k d s.
  unfold store_data_step, store_merge_data, mbind, st_bind, gets, lift, store_write, st_map_err.
  rewrite Hget. cbn [map_err].
  destruct (combine_data_with_delta _ (Some d)) as [o|e|]; simpl; [|by eexists..].
  destruct o as [v|].
  - destruct (Hset s k v) as (s' & Hw & Hrest). exists s'. by rewrite Hw.
  - destruct (Hdel s k) as (s' & Hw & Hrest). exists s'. by rewrite Hw.
Qed.

Lemma store_merge_balance_exact get set del (obs : S -> gmap K Amount) frame :
  reliable_cell get set del obs frame ->
  step_exact store_balance_step obs frame (store_merge_balance get set del).
Proof.
  intros [Hget Hset Hdel] k d s.
  unfold store_balance_step, store_merge_balance, mbind, st_bind, gets, lift, store_write,
    st_map_err.
  rewrite Hget. cbn [map_err].
  destruct (combine_amount_delta _ (Some d)) as [r|e|]; cbn [map_err result_bind]; [|by eexists..].
  destruct (Amount.ltb Amount.ZERO r).
  - destruct (Hset s k r) as (s' & -> & Hrest). cbn [map_err].
    destruct (SignedAmount.neg d) as [n|]; cbn; [by exists s'|by eexists].
  - destruct (Hdel s k) as (s' & -> & Hrest). cbn [map_err].
    destruct (SignedAmount.neg d) as [n|]; cbn; [by exists s'|by eexists].
Qed.

(** Flushing into a storage: never fails, never panics, and the storage then
    holds what the cache showed. *)
Lemma store_flush_data `{EqDecision T} get set del (obs : S -> gmap K T) frame `{!PreOrder frame}
    (c : DeltaDataCollection K T) s cur :
  reliable_cell get set del obs frame -> data_rep c (fun k => obs s !! k) cur ->
  exists s' l, try_collect (store_merge_data get set del) (btree_iter c) s = (s', Ok l) /\
    (forall k, obs s' !! k = cur k) /\ btree_collect l = invert <$> c /\ frame s s'.
Proof.
  intros Hcell [Hcons Hview].
  destruct (try_collect_store _ _ _ _ c s (store_merge_data_exact _ _ _ _ _ Hcell))
    as (s' & l & Hrun & Hrel & Hfr).
  { intros k d Hk. unfold store_data_step.
    rewrite (proj2 (combine_data_with_delta_Ok _ _ d) (conj (eq_sym (Hcons _ _ Hk)) eq_refl)).
    by eexists. }
  exists s', l. split; [done|]. split; [|split; [|done]].
  - intros k. rewrite Hview. unfold data_view. specialize (Hrel k).
    destruct (c !! k) as [d|]; [|by destruct Hrel].
    destruct Hrel as (o & u & Hf & -> & _). unfold store_data_step in Hf. run_inv.
    by apply combine_data_with_delta_Ok in Hf as [_ ->].
  - apply map_eq. intros k. rewrite lookup_fmap. specialize (Hrel k).
    destruct (c !! k) as [d|]; [|by destruct Hrel].
    destruct Hrel as (o & u & Hf & _ & ->). unfold store_data_step in Hf. by run_inv.
Qed.

Lemma store_balance_step_Ok (c : DeltaAmountCollection K) base cur k d o :
  balance_rep c base cur -> c !! k = Some d -> default Amount.ZERO o = base k ->
  exists o' n, store_balance_step k o d = Ok (o', n) /\ default Amount.ZERO o' = cur k /\
    ival n = - ival d.
Proof.
  intros [_ Hs Hb Hb'] Hd Ho. unfold store_balance_step. rewrite Ho.
  specialize (Hs k). rewrite (delta_at_Some _ _ _ Hd) in Hs. specialize (Hb k). specialize (Hb' k).
  pose proof (bint_range (base k)). pose proof (bint_range (cur k)).
  rewrite (proj2 (combine_amount_delta_Ok (base k) (Some d) (cur k))) by lia.
  destruct (SignedAmount.neg d) as [n|] eqn:Hn; amount_inv; [|blia].
  cbn [map_err mbind result_bind expect]. eexists _, n. split; [done|]. split; [|done].
  destruct (Amount.ltb Amount.ZERO (cur k)) eqn:Hlt; amount_inv; [done|].
  apply bint_eq. rewrite ival_ZERO in *. simpl. lia.
Qed.

Lemma store_flush_balance get set del (obs : S -> gmap K Amount) frame `{!PreOrder frame}
    (c : DeltaAmountCollection K) s cur :
  reliable_cell get set del obs frame ->
  balance_rep c (fun k => default Amount.ZERO (obs s !! k)) cur ->
  exists s' l, try_collect (store_merge_balance get set del) (btree_iter c) s = (s', Ok l) /\
    (forall k, default Amount.ZERO (obs s' !! k) = cur k) /\
    (canonical (btree_collect l) /\ forall k, delta_at (btree_collect l) k = - delta_at c k) /\
    frame s s'.
Proof.
  intros Hcell Hrep.
  destruct (try_collect_store _ _ _ _ c s (store_merge_balance_exact _ _ _ _ _ Hcell))
    as (s' & l & Hrun & Hrel & Hfr).
  { intros k d Hk. destruct (store_balance_step_Ok _ _ _ k d (obs s !! k) Hrep Hk)
      as (o & n & Hs & _); [done|]. by eexists. }
  assert (forall k d, c !! k = Some d -> default Amount.ZERO (obs s' !! k) = cur k /\
    exists n, btree_collect l !! k = Some n /\ ival n = - ival d) as Hhit.
  { intros k d Hd. specialize (Hrel k). rewrite Hd in Hrel. destruct Hrel as (o & u & Hf & -> & Hu).
    destruct (store_balance_step_Ok _ _ _ k d (obs s !! k) Hrep Hd) as (o' & n & Hs & Ho & Hn);
      [done|]. rewrite Hf in Hs. simplify_eq. eauto. }
  assert (forall k, c !! k = None -> obs s' !! k = obs s !! k /\ btree_collect l !! k = None) as Hmiss.
  { intros k Hd. specialize (Hrel k). by rewrite Hd in Hrel. }
  exists s', l. split; [done|]. split; [|split; [split|done]].
  - intros k. destruct (c !! k) as [d|] eqn:Hd; [by apply (Hhit k d)|].
    destruct (Hmiss k Hd) as [-> _]. apply bint_eq. pose proof (balance_rep_sum _ _ _ Hrep k) as Hs.
    rewrite (delta_at_None _ _ Hd) in Hs. lia.
  - intros k v Hv. destruct (c !! k) as [d|] eqn:Hd.
    + destruct (Hhit k d Hd) as (_ & n & Hn & Heq). rewrite Hv in Hn. simplify_eq.
      pose proof (balance_rep_canonical _ _ _ Hrep k d Hd). lia.
    + destruct (Hmiss k Hd) as [_ Hn]. congruence.
  - intros k. destruct (c !! k) as [d|] eqn:Hd.
    + destruct (Hhit k d Hd) as (_ & n & Hn & Heq).
      by rewrite (delta_at_Some _ _ _ Hn), (delta_at_Some _ _ _ Hd).
    + destruct (Hmiss k Hd) as [_ Hn]. by rewrite (delta_at_None _ _ Hn), (delta_at_None _ _ Hd).
Qed.

(** Taking a flush of data deltas back. *)
Lemma store_undo_data_exact `{EqDecision T} get set del (obs : S -> gmap K T) frame :
  reliable_cell get set del obs frame ->
  step_exact (fun k o u => r ← store_data_step k o (as_delta u); Ok (r.1, tt)) obs frame
    (fun e => store_undo_data get set del e ≫= fun _ => mret (e.1, tt)).
Proof.
  intros [Hget Hset Hdel] k u s.
  unfold store_data_step, store_undo_data, mbind, st_bind, gets, lift, store_write, st_map_err, mret,
    st_ret.
  rewrite Hget. cbn [map_err].
  destruct (combine_data_with_delta _ (Some (as_delta u))) as [o|e|]; simpl; [|by eexists..].
  destruct o as [v|].
  - destruct (Hset s k v) as (s' & -> & Hrest). by exists s'.
  - destruct (Hdel s k) as (s' & -> & Hrest). by exists s'.
Qed.

Lemma store_flush_undo_data `{EqDecision T} get set del (obs : S -> gmap K T) frame
    `{!PreOrder frame} (u : DeltaDataUndoCollection K T) s cur :
  reliable_cell get set del obs frame -> data_rep (as_delta <$> u) (fun k => obs s !! k) cur ->
  exists s', try_for_each (store_undo_data get set del) (btree_iter u) s = (s', Ok tt) /\
    (forall k, obs s' !! k = cur k) /\ frame s s'.
Proof.
  intros Hcell [Hcons Hview].
  destruct (try_collect_store _ _ _ _ u s (store_undo_data_exact _ _ _ _ _ Hcell))
    as (s' & l & Hrun & Hrel & Hfr).
  { intros k d Hk. unfold store_data_step. specialize (Hcons k (as_delta d)).
    rewrite lookup_fmap, Hk in Hcons. specialize (Hcons eq_refl).
    rewrite (proj2 (combine_data_with_delta_Ok _ _ (as_delta d)) (conj (eq_sym Hcons) eq_refl)).
    by eexists. }
  exists s'. split; [by apply (try_for_each_collect _ fst) in Hrun|]. split; [|done].
  intros k. rewrite Hview. unfold data_view. rewrite lookup_fmap. specialize (Hrel k).
  destruct (u !! k) as [d|]; simpl; [|by destruct Hrel].
  destruct Hrel as (o & [] & Hf & -> & _). unfold store_data_step in Hf.
  destruct (combine_data_with_delta _ _) as [r|e|] eqn:Hc; simpl in Hf; simplify_eq.
  by apply combine_data_with_delta_Ok in Hc as [_ ->].
Qed.
End store.

(** * Main properties *)

Section properties.
Context `{BTreeKey K} `{EqDecision T}.

(** Combining data deltas is associative, errors included: both
    bracketings succeed on the same deltas with the same result, and fail
    with the same error otherwise. *)
Theorem combine_delta_data_associative (d1 d2 d3 : DataDelta T) :
  (d12 ← combine_delta_data d1 d2; combine_delta_data d12 d3)
  = (d23 ← combine_delta_data d2 d3; combine_delta_data d1 d23).
Proof. apply combine_delta_data_assoc_lemma. Qed.

(** Merging a collection of data deltas into another is composing the
    updates they stand for: the merged collection takes [m] to [m''] exactly
    when the first one takes [m] to some [m'] that the second one takes to
    [m'']. *)
Theorem merge_delta_data_composes (c other c' : DeltaDataCollection K T)
    (u : DeltaDataUndoCollection K T) (m m'' : gmap K T) :
  merge_delta_data other c = (c', Ok u) ->
  applies c' m m'' <-> exists m', applies c m m' /\ applies other m' m''.
Proof. intros Hm. by eapply merge_delta_data_applies. Qed.

(** The undo collection returned by a merge takes the merge back: undoing
    succeeds, and on any data the merged collection applies to, the result
    stands for the same updates as the collection before the merge. *)
Theorem undo_merge_delta_data_reverts (c other c' : DeltaDataCollection K T)
    (u : DeltaDataUndoCollection K T) (m m' m'' : gmap K T) :
  merge_delta_data other c = (c', Ok u) -> applies c' m m'' ->
  exists c0, undo_merge_delta_data u c' = (c0, Ok tt) /\ (applies c0 m m' <-> applies c m m').
Proof. apply undo_merge_delta_data_applies. Qed.

(** Merging balance deltas succeeds exactly when every sum fits a signed
    128-bit integer; it then adds the deltas up and never stores a zero. *)
Theorem merge_delta_amounts_exact (c other c' : DeltaAmountCollection K) :
  canonical c ->
  (merge_delta_amounts other c = (c', Ok tt) <->
     canonical c' /\ forall k, delta_at c' k = delta_at c k + delta_at other k) /\
  ((exists c1, merge_delta_amounts other c = (c1, Ok tt)) <->
     forall k, fits_i128 (delta_at c k + delta_at other k)).
Proof.
  intros Hc. split; [by apply merge_delta_amounts_Ok|]. split.
  - intros (c1 & Hm). apply merge_delta_amounts_Ok in Hm as [_ Hsum]; [|done].
    intros k. rewrite <- Hsum. apply delta_val_fits.
  - intros Hfit. destruct (merge_delta_amounts_view other c Hc Hfit) as (c1 & Hm & _). eauto.
Qed.

(** Undoing a merge of balance deltas restores the very collection the
    merge started from, unless a delta is [i128::MIN], whose negation
    overflows. *)
Theorem undo_merge_delta_amounts_reverts (c other c' : DeltaAmountCollection K) :
  canonical c -> (forall k, other !! k <> Some SignedAmount.MIN) ->
  merge_delta_amounts other c = (c', Ok tt) ->
  undo_merge_delta_amounts other c' = (c, Ok tt).
Proof. apply undo_merge_delta_amounts_restores. Qed.
End properties.

Module Witnesses.
(** A value created as 1 and then changed to 2; a balance of 5 reduced by 3. *)
Definition created : DeltaDataCollection N N := {[4%N := mk_delta None (Some 1%N)]}.
Definition changed : DeltaDataCollection N N := {[4%N := mk_delta (Some 1%N) (Some 2%N)]}.
Definition both : DeltaDataCollection N N := {[4%N := mk_delta None (Some 2%N)]}.
Definition changed_undo : DeltaDataUndoCollection N N :=
  {[4%N := mk_delta_undo (mk_delta (Some 2%N) (Some 1%N))]}.

Lemma created_changed : merge_delta_data changed created = (both, Ok changed_undo).
Proof. vm_compute. reflexivity. Qed.

Lemma both_applies : applies both ∅ {[4%N := 2%N]}.
Proof.
  apply applies_iff. intros k. unfold both. destruct (decide (k = 4%N)) as [->|Hne].
  - by rewrite !lookup_singleton_eq.
  - by rewrite !lookup_singleton_ne by done.
Qed.

Lemma merge_delta_data_composes_witness :
  exists m', applies created ∅ m' /\ applies changed m' {[4%N := 2%N]}.
Proof.
  apply (proj1 (merge_delta_data_composes created changed both changed_undo ∅ {[4%N := 2%N]}
    created_changed)). exact both_applies.
Defined.

Lemma undo_merge_delta_data_reverts_witness :
  exists c0, undo_merge_delta_data changed_undo both = (c0, Ok tt) /\
    (applies c0 ∅ {[4%N := 1%N]} <-> applies created ∅ {[4%N := 1%N]}).
Proof.
  exact (undo_merge_delta_data_reverts created changed both changed_undo ∅ {[4%N := 1%N]}
    {[4%N := 2%N]} created_changed both_applies).
Defined.

Definition signed (z : Z) : SignedAmount := default SignedAmount.ZERO (bint_of_Z z).
Definition five : DeltaAmountCollection N := {[4%N := signed 5]}.
Definition minus_three : DeltaAmountCollection N := {[4%N := signed (-3)]}.
Definition two : DeltaAmountCollection N := {[4%N := signed 2]}.

Lemma five_canonical : canonical five.
Proof. intros k v. unfold five. intros [_ <-]%lookup_singleton_Some. done. Qed.

Lemma merge_delta_amounts_exact_witness :
  canonical two /\ forall k, delta_at two k = delta_at five k + delta_at minus_three k.
Proof.
  apply (proj1 (merge_delta_amounts_exact five minus_three two five_canonical)).
  vm_compute. reflexivity.
Defined.

Lemma undo_merge_delta_amounts_reverts_witness :
  undo_merge_delta_amounts minus_three two = (five, Ok tt).
Proof.
  apply (undo_merge_delta_amounts_reverts five minus_three two five_canonical);
    [|vm_compute; reflexivity].
  intros k. unfold minus_three. intros [_ Hv]%lookup_singleton_Some. discriminate (f_equal ival Hv).
Defined.
End Witnesses.
