(* ===== verification/ChainTypes.v ===== *)
(** * Chain data: destinations, tokens, orders, inputs and outputs

    The types of [common/src/chain] that the ledgers work on, with the
    source's constructors and fields.  A 256-bit identifier ([H256], [Id<T>])
    is the natural number of its big-endian bytes, so that the order of the
    identifiers is the order of the numbers.  Enums whose variant names occur
    twice live in a module named after the enum. *)
From S2P Require Import Prelude Amount.

Abbreviation u8 := (bint 0 (2 ^ 8 - 1)).
Abbreviation u16 := (bint 0 (2 ^ 16 - 1)).
Abbreviation u32 := (bint 0 (2 ^ 32 - 1)).
Abbreviation u64 := (bint 0 (2 ^ 64 - 1)).

Abbreviation H256 := N (only parsing).
Abbreviation TokenId := H256 (only parsing).
Abbreviation PoolId := H256 (only parsing).
Abbreviation DelegationId := H256 (only parsing).
Abbreviation OrderId := H256 (only parsing).
Abbreviation TxId := H256 (only parsing).
Abbreviation BlockId := H256 (only parsing).
Abbreviation ScriptId := H256 (only parsing).
Abbreviation BlockHeight := u64.
Abbreviation BlockTimestamp := u64.

(** Keys, VRF outputs and signatures come from the cryptographic libraries and
    stay abstract: the ledgers only copy and compare them. *)
Class CryptoTypes := {
  PublicKey : Set;
  VRFPublicKey : Set;
  VRFReturn : Set;
  Signature : Set;
  PublicKey_eq_dec :: EqDecision PublicKey;
  VRFPublicKey_eq_dec :: EqDecision VRFPublicKey;
  VRFReturn_eq_dec :: EqDecision VRFReturn;
  Signature_eq_dec :: EqDecision Signature
}.

(** An instance for concrete inputs. *)
Definition numbered_keys : CryptoTypes :=
  {| PublicKey := N; VRFPublicKey := N; VRFReturn := N; Signature := N;
     PublicKey_eq_dec := _; VRFPublicKey_eq_dec := _;
     VRFReturn_eq_dec := _; Signature_eq_dec := _ |}.

(** [PublicKeyHash] and [HtlcSecretHash]: 160-bit hashes. *)
Abbreviation H160 := N (only parsing).

(** ** Destinations *)

Inductive Destination `{CryptoTypes} :=
  | AnyoneCanSpend
  | DestPublicKeyHash (h : H160)
  | DestPublicKey (k : PublicKey)
  | ScriptHash (h : ScriptId)
  | ClassicMultisig (h : H160).

#[global] Instance Destination_eq_dec `{CryptoTypes} : EqDecision Destination.
Proof. solve_decision. Defined.

(** ** Tokens *)

Inductive TokenTotalSupply :=
  | Fixed (limit : Amount)
  | Lockable
  | Unlimited.

#[global] Instance TokenTotalSupply_eq_dec : EqDecision TokenTotalSupply.
Proof. solve_decision. Defined.

Module IsTokenFreezable.
Inductive IsTokenFreezable := No | Yes.
#[global] Instance eq_dec : EqDecision IsTokenFreezable.
Proof. solve_decision. Defined.
End IsTokenFreezable.
Abbreviation IsTokenFreezable := IsTokenFreezable.IsTokenFreezable.

Module IsTokenUnfreezable.
Inductive IsTokenUnfreezable := No | Yes.
#[global] Instance eq_dec : EqDecision IsTokenUnfreezable.
Proof. solve_decision. Defined.
End IsTokenUnfreezable.
Abbreviation IsTokenUnfreezable := IsTokenUnfreezable.IsTokenUnfreezable.

Module IsTokenFrozen.
Inductive IsTokenFrozen := No (f : IsTokenFreezable) | Yes (u : IsTokenUnfreezable).
#[global] Instance eq_dec : EqDecision IsTokenFrozen.
Proof. solve_decision. Defined.
End IsTokenFrozen.
Abbreviation IsTokenFrozen := IsTokenFrozen.IsTokenFrozen.

Record TokenIssuanceV1 `{CryptoTypes} := {
  iss_token_ticker : list u8;
  iss_number_of_decimals : u8;
  iss_metadata_uri : list u8;
  iss_total_supply : TokenTotalSupply;
  iss_authority : Destination;
  iss_is_freezable : IsTokenFreezable
}.

#[global] Instance TokenIssuanceV1_eq_dec `{CryptoTypes} : EqDecision TokenIssuanceV1.
Proof. solve_decision. Defined.

(** The enum has a single variant. *)
Inductive TokenIssuance `{CryptoTypes} :=
  | TokenIssuance_V1 (i : TokenIssuanceV1).

#[global] Instance TokenIssuance_eq_dec `{CryptoTypes} : EqDecision TokenIssuance.
Proof. solve_decision. Defined.

(** [DataOrNoVec<u8>] encodes an absent vector as an empty one. *)
Record Metadata `{CryptoTypes} := {
  md_creator : option PublicKey;
  md_name : list u8;
  md_description : list u8;
  md_ticker : list u8;
  md_icon_uri : option (list u8);
  md_additional_metadata_uri : option (list u8);
  md_media_uri : option (list u8);
  md_media_hash : list u8
}.

#[global] Instance Metadata_eq_dec `{CryptoTypes} : EqDecision Metadata.
Proof. solve_decision. Defined.

Record NftIssuanceV0 `{CryptoTypes} := { nft_metadata : Metadata }.

#[global] Instance NftIssuanceV0_eq_dec `{CryptoTypes} : EqDecision NftIssuanceV0.
Proof. solve_decision. Defined.

Inductive NftIssuance `{CryptoTypes} :=
  | NftIssuance_V0 (i : NftIssuanceV0).

#[global] Instance NftIssuance_eq_dec `{CryptoTypes} : EqDecision NftIssuance.
Proof. solve_decision. Defined.

(** The deprecated token data carried by an output ([tokens::TokenData]). *)
Record TokenTransfer := { tt_token_id : TokenId; tt_amount : Amount }.

Record TokenIssuanceV0 := {
  iss0_token_ticker : list u8;
  iss0_amount_to_issue : Amount;
  iss0_number_of_decimals : u8;
  iss0_metadata_uri : list u8
}.

Inductive TokenDataV0 `{CryptoTypes} :=
  | TokenDataV0_TokenTransfer (t : TokenTransfer)
  | TokenDataV0_TokenIssuance (i : TokenIssuanceV0)
  | TokenDataV0_NftIssuance (i : NftIssuanceV0).

#[global] Instance TokenTransfer_eq_dec : EqDecision TokenTransfer.
Proof. solve_decision. Defined.
#[global] Instance TokenIssuanceV0_eq_dec : EqDecision TokenIssuanceV0.
Proof. solve_decision. Defined.
#[global] Instance TokenDataV0_eq_dec `{CryptoTypes} : EqDecision TokenDataV0.
Proof. solve_decision. Defined.

(** ** Output values *)

Inductive OutputValue `{CryptoTypes} :=
  | Coin (a : Amount)
  | TokenV0 (d : TokenDataV0)
  | TokenV1 (id : TokenId) (a : Amount).

#[global] Instance OutputValue_eq_dec `{CryptoTypes} : EqDecision OutputValue.
Proof. solve_decision. Defined.

Definition coin_amount `{CryptoTypes} (v : OutputValue) : option Amount :=
  match v with
  | Coin a => Some a
  | TokenV0 _ | TokenV1 _ _ => None
  end.

Definition amount `{CryptoTypes} (v : OutputValue) : Amount :=
  match v with
  | Coin a => a
  | TokenV0 d =>
      match d with
      | TokenDataV0_TokenTransfer t => tt_amount t
      | TokenDataV0_TokenIssuance i => iss0_amount_to_issue i
      | TokenDataV0_NftIssuance _ => Amount.lit 1
      end
  | TokenV1 _ a => a
  end.

Definition token_v1_id `{CryptoTypes} (v : OutputValue) : option TokenId :=
  match v with
  | Coin _ | TokenV0 _ => None
  | TokenV1 id _ => Some id
  end.

Module CoinOrTokenId.
Inductive CoinOrTokenId := Coin | TokenId (id : TokenId).

#[global] Instance eq_dec : EqDecision CoinOrTokenId.
Proof. solve_decision. Defined.

Definition from_output_value `{CryptoTypes} (v : OutputValue) : option CoinOrTokenId :=
  match v with
  | ChainTypes.Coin _ => Some Coin
  | TokenV0 _ => None
  | TokenV1 id _ => Some (TokenId id)
  end.

Definition to_output_value `{CryptoTypes} (c : CoinOrTokenId) (a : Amount) : OutputValue :=
  match c with
  | Coin => ChainTypes.Coin a
  | TokenId id => TokenV1 id a
  end.

Definition token_id (c : CoinOrTokenId) : option H256 :=
  match c with
  | Coin => None
  | TokenId id => Some id
  end.

Definition to_option (c : CoinOrTokenId) : option N := token_id c.
Definition of_option (o : option N) : CoinOrTokenId :=
  match o with None => Coin | Some id => TokenId id end.

#[global] Program Instance countable : Countable CoinOrTokenId :=
  inj_countable' to_option of_option _.
Next Obligation. by intros []. Qed.

(** The derived order: [Coin] before every token, tokens by identifier. *)
Definition le (a b : CoinOrTokenId) : Prop :=
  match a, b with
  | Coin, _ => True
  | TokenId _, Coin => False
  | TokenId i, TokenId j => (i <= j)%N
  end.

#[global] Instance le_dec : RelDecision le.
Proof. intros [] []; simpl; apply _. Defined.

#[global] Program Instance btree_key : BTreeKey CoinOrTokenId := {| key_le := le |}.
Next Obligation.
  repeat split.
  - intros []; simpl; [done|lia].
  - intros [] [] []; simpl; try done; lia.
  - intros [] []; simpl; try done; intros; f_equal; lia.
Qed.
Next Obligation. intros [] []; simpl; try (by left); try (by right); lia. Qed.
End CoinOrTokenId.
Abbreviation CoinOrTokenId := CoinOrTokenId.CoinOrTokenId.

(** ** Time locks *)

Inductive OutputTimeLock :=
  | UntilHeight (h : BlockHeight)
  | UntilTime (t : BlockTimestamp)
  | ForBlockCount (n : u64)
  | ForSeconds (n : u64).

#[global] Instance OutputTimeLock_eq_dec : EqDecision OutputTimeLock.
Proof. solve_decision. Defined.

Record HashedTimelockContract `{CryptoTypes} := {
  secret_hash : H160;
  spend_key : Destination;
  refund_timelock : OutputTimeLock;
  refund_key : Destination
}.

#[global] Instance HashedTimelockContract_eq_dec `{CryptoTypes} : EqDecision HashedTimelockContract.
Proof. solve_decision. Defined.

(** ** Staking *)

(** [PerThousand(u16)], at most 1000 by its constructor. *)
Abbreviation PerThousand := (bint 0 1000).

Definition PerThousand_new (value : u16) : option PerThousand :=
  if ival value <=? 1000 then bint_of_Z (ival value) else None.

Record StakePoolData `{CryptoTypes} := {
  sp_pledge : Amount;
  sp_staker : Destination;
  sp_vrf_public_key : VRFPublicKey;
  sp_decommission_key : Destination;
  sp_margin_ratio_per_thousand : PerThousand;
  sp_cost_per_block : Amount
}.

#[global] Instance StakePoolData_eq_dec `{CryptoTypes} : EqDecision StakePoolData.
Proof. solve_decision. Defined.

(** ** Orders *)

(** [common::chain::OrderData]. *)
Record ChainOrderData `{CryptoTypes} := {
  co_conclude_key : Destination;
  co_ask : OutputValue;
  co_give : OutputValue
}.

#[global] Instance ChainOrderData_eq_dec `{CryptoTypes} : EqDecision ChainOrderData.
Proof. solve_decision. Defined.

(** ** Transaction outputs *)

Inductive TxOutput `{CryptoTypes} :=
  | Transfer (v : OutputValue) (d : Destination)
  | LockThenTransfer (v : OutputValue) (d : Destination) (tl : OutputTimeLock)
  | Burn (v : OutputValue)
  | CreateStakePool (id : PoolId) (data : StakePoolData)
  | ProduceBlockFromStake (d : Destination) (id : PoolId)
  | CreateDelegationId (d : Destination) (id : PoolId)
  | DelegateStaking (a : Amount) (id : DelegationId)
  | IssueFungibleToken (i : TokenIssuance)
  | IssueNft (id : TokenId) (i : NftIssuance) (d : Destination)
  | DataDeposit (data : list u8)
  | Htlc (v : OutputValue) (c : HashedTimelockContract)
  | CreateOrder (o : ChainOrderData).

#[global] Instance TxOutput_eq_dec `{CryptoTypes} : EqDecision TxOutput.
Proof. solve_decision. Defined.

Definition timelock `{CryptoTypes} (o : TxOutput) : option OutputTimeLock :=
  match o with
  | Transfer _ _ | Burn _ | CreateStakePool _ _ | ProduceBlockFromStake _ _
  | CreateDelegationId _ _ | DelegateStaking _ _ | IssueFungibleToken _ | IssueNft _ _ _
  | DataDeposit _ | Htlc _ _ | CreateOrder _ => None
  | LockThenTransfer _ _ tl => Some tl
  end.

(** ** Outpoints *)

Inductive OutPointSourceId :=
  | SourceTransaction (id : TxId)
  | SourceBlockReward (id : BlockId).

#[global] Instance OutPointSourceId_eq_dec : EqDecision OutPointSourceId.
Proof. solve_decision. Defined.

Definition get_tx_id (s : OutPointSourceId) : option TxId :=
  match s with
  | SourceTransaction id => Some id
  | SourceBlockReward _ => None
  end.

Record UtxoOutPoint := { op_source_id : OutPointSourceId; op_output_index : u32 }.

#[global] Instance UtxoOutPoint_eq_dec : EqDecision UtxoOutPoint.
Proof. solve_decision. Defined.

Definition source_to_sum (s : OutPointSourceId) : N + N :=
  match s with SourceTransaction i => inl i | SourceBlockReward i => inr i end.
Definition source_of_sum (s : N + N) : OutPointSourceId :=
  match s with inl i => SourceTransaction i | inr i => SourceBlockReward i end.
#[global] Program Instance OutPointSourceId_countable : Countable OutPointSourceId :=
  inj_countable' source_to_sum source_of_sum _.
Next Obligation. by intros []. Qed.

#[global] Program Instance bint_countable {lo hi} : Countable (bint lo hi) :=
  inj_countable ival bint_of_Z _.
Next Obligation. intros lo hi x. apply bint_of_Z_ival. Qed.

#[global] Program Instance UtxoOutPoint_countable : Countable UtxoOutPoint :=
  inj_countable' (fun o => (op_source_id o, op_output_index o))
    (fun '(s, i) => {| op_source_id := s; op_output_index := i |}) _.
Next Obligation. by intros []. Qed.

(** The derived orders: transactions before block rewards, then the hash,
    then the output index. *)
Definition source_le (a b : OutPointSourceId) : Prop :=
  match a, b with
  | SourceTransaction i, SourceTransaction j => (i <= j)%N
  | SourceTransaction _, SourceBlockReward _ => True
  | SourceBlockReward _, SourceTransaction _ => False
  | SourceBlockReward i, SourceBlockReward j => (i <= j)%N
  end.
#[global] Instance source_le_dec : RelDecision source_le.
Proof. intros [] []; simpl; apply _. Defined.

#[global] Instance source_le_partial : PartialOrder source_le.
Proof.
  repeat split.
  - intros []; simpl; lia.
  - intros [] [] []; simpl; try done; lia.
  - intros [] []; simpl; try done; intros; f_equal; lia.
Qed.
#[global] Instance source_le_total : Total source_le.
Proof. intros [] []; simpl; try (by left); try (by right); lia. Qed.

#[global] Instance OutPointSourceId_key : BTreeKey OutPointSourceId :=
  {| key_le := source_le |}.

Definition outpoint_le (a b : UtxoOutPoint) : Prop :=
  (op_source_id a <> op_source_id b /\ source_le (op_source_id a) (op_source_id b)) \/
  (op_source_id a = op_source_id b /\ ival (op_output_index a) <= ival (op_output_index b)).
#[global] Instance outpoint_le_dec : RelDecision outpoint_le.
Proof. intros a b; unfold outpoint_le; apply _. Defined.

#[global] Program Instance UtxoOutPoint_key : BTreeKey UtxoOutPoint :=
  {| key_le := outpoint_le |}.
Next Obligation.
  repeat split.
  - intros [s i]. right; simpl. split; [done|lia].
  - intros [s1 i1] [s2 i2] [s3 i3] [[Hne L1]|[He L1]] [[Hne' L2]|[He' L2]];
      unfold outpoint_le; simpl in *; subst; eauto.
    + left. split; [|by etrans]. intros ->. apply Hne. by apply (anti_symm source_le).
    + right. split; [done|lia].
  - intros [s1 i1] [s2 i2] [[Hne L1]|[He L1]] [[Hne' L2]|[He' L2]]; simpl in *; subst; try done.
    + exfalso. apply Hne. by apply (anti_symm source_le).
    + f_equal. apply bint_eq. lia.
Qed.
Next Obligation.
  intros [s1 i1] [s2 i2]. unfold outpoint_le; simpl.
  destruct (decide (s1 = s2)) as [->|Hne].
  - destruct (Z.le_ge_cases (ival i1) (ival i2)); eauto.
  - destruct (total source_le s1 s2); [left|right]; left; split; congruence.
Qed.

(** ** Account inputs *)

Abbreviation AccountNonce := u64.

Definition AccountNonce_increment (n : AccountNonce) : option AccountNonce := bint_of_Z (ival n + 1).
Definition AccountNonce_decrement (n : AccountNonce) : option AccountNonce := bint_of_Z (ival n - 1).

Inductive AccountType :=
  | AccountDelegation (id : DelegationId)
  | AccountToken (id : TokenId)
  | AccountOrder (id : OrderId).

Inductive AccountSpending :=
  | DelegationBalance (id : DelegationId) (a : Amount).

Record AccountOutPoint := { ao_nonce : AccountNonce; ao_account : AccountSpending }.

Module AccountCommand.
Inductive AccountCommand `{CryptoTypes} :=
  | MintTokens (id : TokenId) (a : Amount)
  | UnmintTokens (id : TokenId)
  | LockTokenSupply (id : TokenId)
  | FreezeToken (id : TokenId) (u : IsTokenUnfreezable)
  | UnfreezeToken (id : TokenId)
  | ChangeTokenAuthority (id : TokenId) (d : Destination)
  | ConcludeOrder (id : OrderId)
  | FillOrder (id : OrderId) (a : Amount) (d : Destination)
  | ChangeTokenMetadataUri (id : TokenId) (uri : list u8).
End AccountCommand.
Abbreviation AccountCommand := AccountCommand.AccountCommand.

Module OrderAccountCommand.
Inductive OrderAccountCommand :=
  | FillOrder (id : OrderId) (a : Amount)
  | FreezeOrder (id : OrderId)
  | ConcludeOrder (id : OrderId).
End OrderAccountCommand.
Abbreviation OrderAccountCommand := OrderAccountCommand.OrderAccountCommand.

Definition AccountType_of_spending (s : AccountSpending) : AccountType :=
  match s with DelegationBalance id _ => AccountDelegation id end.

Definition AccountType_of_command `{CryptoTypes} (c : AccountCommand) : AccountType :=
  match c with
  | AccountCommand.MintTokens id _ | AccountCommand.UnmintTokens id
  | AccountCommand.LockTokenSupply id | AccountCommand.FreezeToken id _
  | AccountCommand.UnfreezeToken id | AccountCommand.ChangeTokenAuthority id _
  | AccountCommand.ChangeTokenMetadataUri id _ => AccountToken id
  | AccountCommand.ConcludeOrder id | AccountCommand.FillOrder id _ _ => AccountOrder id
  end.

Definition AccountType_of_order_command (c : OrderAccountCommand) : AccountType :=
  match c with
  | OrderAccountCommand.FillOrder id _ | OrderAccountCommand.FreezeOrder id
  | OrderAccountCommand.ConcludeOrder id => AccountOrder id
  end.

(** ** Transaction inputs *)

Inductive TxInput `{CryptoTypes} :=
  | InputUtxo (o : UtxoOutPoint)
  | InputAccount (o : AccountOutPoint)
  | InputAccountCommand (n : AccountNonce) (c : AccountCommand)
  | InputOrderAccountCommand (c : OrderAccountCommand).

Definition utxo_outpoint `{CryptoTypes} (i : TxInput) : option UtxoOutPoint :=
  match i with
  | InputUtxo o => Some o
  | InputAccount _ | InputAccountCommand _ _ | InputOrderAccountCommand _ => None
  end.

(** ** Versions of the order rules ([chainstate_upgrade/mod.rs]) *)

Inductive OrdersVersion := V0 | V1.
