(* ===== verification/ChainConfig.v ===== *)
(** * The configuration of a chain

    Models the part of [common/src/chain] that fixes the rules of a chain:
    block heights and distances ([primitives/height.rs]), the tables of
    network upgrades ([upgrades/]), the fees and the maturity distance that
    depend on them ([config/mod.rs]), and the emission schedule
    ([config/emission_schedule.rs]).  The theorems show that the upgrade in
    force at a height is the latest one at or below it, and that the
    precalculated emission table agrees with issuing the subsidy block by
    block. *)
From S2P Require Import Prelude Amount Uint ChainTypes.

(** ** Heights and distances *)

Abbreviation i64 := (bint (- 2 ^ 63) (2 ^ 63 - 1)).

(** [BlockDistance] and [BlockCount]. *)
Abbreviation BlockDistance := i64.
Abbreviation BlockCount := u64.

Module BlockHeight.
Definition zero : BlockHeight := @mk_bint 0 (2 ^ 64 - 1) 0 eq_refl.
Definition one : BlockHeight := @mk_bint 0 (2 ^ 64 - 1) 1 eq_refl.
Definition max : BlockHeight := @mk_bint 0 (2 ^ 64 - 1) (2 ^ 64 - 1) eq_refl.

Definition try_into_i64 (h : BlockHeight) : option i64 := bint_of_Z (ival h).

(** [Add<BlockDistance>]: the checked addition is unwrapped. *)
Definition add {E} (h : BlockHeight) (d : BlockDistance) : result E (option BlockHeight) :=
  match try_into_i64 h with
  | None => Ok None
  | Some height =>
      r ← expect (bint_of_Z (ival height + ival d) : option i64);
      Ok (bint_of_Z (ival r))
  end.

Definition sub (h : BlockHeight) (d : BlockDistance) : option BlockHeight :=
  height ← try_into_i64 h;
  if ival height <? 0 then None
  else
    raw_result ← (bint_of_Z (ival height - ival d) : option i64);
    if ival raw_result <? 0 then None else bint_of_Z (ival raw_result).

Definition distance (a b : BlockHeight) : option BlockDistance :=
  h1 ← try_into_i64 a;
  h2 ← try_into_i64 b;
  bint_of_Z (ival h1 - ival h2).

Definition checked_add (h : BlockHeight) (n : u64) : option BlockHeight := bint_of_Z (ival h + ival n).
Definition next_height {E} (h : BlockHeight) : result E BlockHeight := expect (bint_of_Z (ival h + 1)).
Definition prev_height (h : BlockHeight) : option BlockHeight := bint_of_Z (ival h - 1).
End BlockHeight.

(** ** Upgrades ([netupgrade.rs]) *)

(** The [Ord] of a version. *)
Class Ord (T : Type) := {
  ord_le : relation T;
  ord_le_dec :: RelDecision ord_le;
  ord_le_partial :: PartialOrder ord_le;
  ord_le_total :: Total ord_le
}.

Abbreviation NetUpgrades T := (list (BlockHeight * T)).

Inductive NetUpgradesInitializeError := NoUpgrades | FirstUpgradeNotAtGenesis.

Section upgrades.
Context {T : Type} `{!Ord T}.

(** Pairs compare lexicographically. *)
Definition upgrade_le : relation (BlockHeight * T) := fun p q =>
  ival p.1 < ival q.1 \/ (p.1 = q.1 /\ ord_le p.2 q.2).

#[global] Instance upgrade_le_dec : RelDecision upgrade_le.
Proof. intros p q. unfold upgrade_le. apply _. Defined.

Definition initialize (upgrades : list (BlockHeight * T)) :
    result NetUpgradesInitializeError (NetUpgrades T) :=
  let upgrades := merge_sort upgrade_le upgrades in
  match head upgrades with
  | Some (height, _) => if decide (height = BlockHeight.zero) then Ok upgrades else Err FirstUpgradeNotAtGenesis
  | None => Err NoUpgrades
  end.
End upgrades.

Definition version_at_height {T E} (self : NetUpgrades T) (height : BlockHeight) :
    result E (BlockHeight * T) :=
  expect (List.find (fun e => ival e.1 <=? ival height) (reverse self)).

(** [height_range]: the heights from the first entry with this version up to
    the next entry. *)
Fixpoint height_range `{EqDecision T} (self : NetUpgrades T) (version : T) :
    option (BlockHeight * BlockHeight) :=
  match self with
  | [] => None
  | (start_h, v) :: rest =>
      if decide (v = version)
      then Some (start_h, match rest with (end_h, _) :: _ => end_h | [] => BlockHeight.max end)
      else height_range rest version
  end.

(** ** Chainstate upgrades ([chainstate_upgrade/mod.rs]) *)

Module TokenIssuanceVersion.
Inductive t := V0 | V1.
End TokenIssuanceVersion.
Module RewardDistributionVersion.
Inductive t := V0 | V1.
End RewardDistributionVersion.
Module TokensFeeVersion.
Inductive t := V0 | V1.
End TokensFeeVersion.
Module DataDepositFeeVersion.
Inductive t := V0 | V1.
End DataDepositFeeVersion.
Module ChangeTokenMetadataUriActivated.
Inductive t := Yes | No.
End ChangeTokenMetadataUriActivated.
Module FrozenTokensValidationVersion.
Inductive t := V0 | V1.
End FrozenTokensValidationVersion.
Module HtlcActivated.
Inductive t := Yes | No.
End HtlcActivated.
Module OrdersActivated.
Inductive t := Yes | No.
End OrdersActivated.
Module StakerDestinationUpdateForbidden.
Inductive t := Yes | No.
End StakerDestinationUpdateForbidden.
Module TokenIdGenerationVersion.
Inductive t := V0 | V1.
End TokenIdGenerationVersion.
Module SighashInputCommitmentVersion.
Inductive t := V0 | V1.
End SighashInputCommitmentVersion.

Record ChainstateUpgrade := {
  token_issuance_version : TokenIssuanceVersion.t;
  reward_distribution_version : RewardDistributionVersion.t;
  tokens_fee_version : TokensFeeVersion.t;
  data_deposit_fee_version : DataDepositFeeVersion.t;
  change_token_metadata_uri_activated : ChangeTokenMetadataUriActivated.t;
  frozen_tokens_validation_version : FrozenTokensValidationVersion.t;
  htlc_activated : HtlcActivated.t;
  orders_activated : OrdersActivated.t;
  orders_version : OrdersVersion;
  staker_destination_update_forbidden : StakerDestinationUpdateForbidden.t;
  token_id_generation_version : TokenIdGenerationVersion.t;
  sighash_input_commitment_version : SighashInputCommitmentVersion.t
}.

(** ** Consensus upgrades ([consensus_upgrade.rs], [pos/config.rs]) *)

(** [Compact]: the bits of a target in compact form. *)
Abbreviation Compact := u32.

Module PoSConsensusVersion.
Inductive t := V0 | V1.
End PoSConsensusVersion.

Record PoSChainConfig := {
  target_limit : uint;
  pos_spend_maturity : BlockCount;
  block_count_to_average_for_blocktime : u64;
  difficulty_change_limit : PerThousand;
  consensus_version : PoSConsensusVersion.t
}.

(** [PoSChainConfig::new], with its assertion. *)
Definition PoSChainConfig_new {E} (limit : uint) (maturity : BlockCount) (average : u64)
    (change : PerThousand) (version : PoSConsensusVersion.t) : result E PoSChainConfig :=
  _ ← assert_true (2 <=? ival average);
  Ok {| target_limit := limit; pos_spend_maturity := maturity;
        block_count_to_average_for_blocktime := average; difficulty_change_limit := change;
        consensus_version := version |}.

Module ConsensusUpgrade.
Inductive ConsensusUpgrade :=
  | PoW (initial_difficulty : Compact)
  | PoS (initial_difficulty : option Compact) (config : PoSChainConfig)
  | IgnoreConsensus.
End ConsensusUpgrade.
Abbreviation ConsensusUpgrade := ConsensusUpgrade.ConsensusUpgrade.

Module PoWStatus.
Inductive PoWStatus := Ongoing | Threshold (initial_difficulty : Compact).
End PoWStatus.
Abbreviation PoWStatus := PoWStatus.PoWStatus.

Module PoSStatus.
Inductive PoSStatus :=
  | Ongoing (config : PoSChainConfig)
  | Threshold (initial_difficulty : option Compact) (config : PoSChainConfig).
Definition get_chain_config (s : PoSStatus) : PoSChainConfig :=
  match s with Ongoing config | Threshold _ config => config end.
End PoSStatus.
Abbreviation PoSStatus := PoSStatus.PoSStatus.

Module RequiredConsensus.
Inductive RequiredConsensus :=
  | PoW (s : PoWStatus)
  | PoS (s : PoSStatus)
  | IgnoreConsensus.

Definition from (u : ConsensusUpgrade) : RequiredConsensus :=
  match u with
  | ConsensusUpgrade.PoW d => PoW (PoWStatus.Threshold d)
  | ConsensusUpgrade.PoS d c => PoS (PoSStatus.Threshold d c)
  | ConsensusUpgrade.IgnoreConsensus => IgnoreConsensus
  end.
End RequiredConsensus.
Abbreviation RequiredConsensus := RequiredConsensus.RequiredConsensus.

Definition consensus_status {E} (self : NetUpgrades ConsensusUpgrade) (height : BlockHeight) :
    result E RequiredConsensus :=
  '(last_upgrade_height, last_consensus_upgrade) ← version_at_height self height;
  match last_consensus_upgrade with
  | ConsensusUpgrade.PoW initial_difficulty =>
      if ival last_upgrade_height <? ival height then Ok (RequiredConsensus.PoW PoWStatus.Ongoing)
      else
        _ ← assert_true (bool_decide (last_upgrade_height = height));
        Ok (RequiredConsensus.PoW (PoWStatus.Threshold initial_difficulty))
  | ConsensusUpgrade.PoS initial_difficulty config =>
      if ival last_upgrade_height <? ival height then Ok (RequiredConsensus.PoS (PoSStatus.Ongoing config))
      else
        _ ← assert_true (bool_decide (last_upgrade_height = height));
        Ok (RequiredConsensus.PoS (PoSStatus.Threshold initial_difficulty config))
  | ConsensusUpgrade.IgnoreConsensus => Ok RequiredConsensus.IgnoreConsensus
  end.

(** ** Proof of work ([pow.rs]) *)

Module ChainType.
Inductive ChainType := Mainnet | Testnet | Regtest | Signet.
End ChainType.
Abbreviation ChainType := ChainType.ChainType.

Record PoWChainConfig := {
  no_retargeting : bool;
  allow_min_difficulty_blocks : bool;
  limit : uint;
  reward_maturity_distance : BlockCount
}.

(** The durations in seconds. *)
Definition target_timespan : Z := 14 * 24 * 60 * 60.
Definition target_spacing : Z := 10 * 60.
Definition max_retarget_factor : Z := 4.

Definition default_no_retargeting (chain_type : ChainType) : bool :=
  match chain_type with
  | ChainType.Mainnet | ChainType.Testnet | ChainType.Signet => false
  | ChainType.Regtest => true
  end.
Definition default_allow_min_difficulty_blocks (chain_type : ChainType) : bool :=
  match chain_type with
  | ChainType.Mainnet | ChainType.Signet => false
  | ChainType.Testnet | ChainType.Regtest => true
  end.
Definition default_limit (chain_type : ChainType) : uint :=
  match chain_type with
  | ChainType.Mainnet | ChainType.Testnet =>
      [0xFFFFFFFFFFFFFFFF; 0xFFFFFFFFFFFFFFFF; 0xFFFFFFFFFFFFFFFF; 0x00000000FFFFFFFF]
  | ChainType.Signet => [0; 0; 0; 0x00000377AE000000]
  | ChainType.Regtest =>
      [0xFFFFFFFFFFFFFFFF; 0xFFFFFFFFFFFFFFFF; 0xFFFFFFFFFFFFFFFF; 0x7FFFFFFFFFFFFFFF]
  end.

(** [PoWChainConfigBuilder::new(chain_type).limit(value).build()]. *)
Definition PoWChainConfig_build (chain_type : ChainType) (limit : option uint) : PoWChainConfig :=
  {| no_retargeting := default_no_retargeting chain_type;
     allow_min_difficulty_blocks := default_allow_min_difficulty_blocks chain_type;
     limit := default (default_limit chain_type) limit;
     reward_maturity_distance := @mk_bint 0 (2 ^ 64 - 1) 500 eq_refl |}.
Definition PoWChainConfig_new (chain_type : ChainType) : PoWChainConfig := PoWChainConfig_build chain_type None.

(** ** Coins ([coin_unit.rs]) *)

Abbreviation CoinUnit := Amount.

Definition ATOMS_PER_COIN : Z := 10 ^ 11.

(** [CoinUnit::from_coins]: the product of a [u64] with the atoms per coin
    fits into [u128]. *)
Definition from_coins (n : u64) : CoinUnit := Amount.lit (ival n * ATOMS_PER_COIN).

(** ** Fees and maturity ([config/mod.rs]) *)

Definition FUNGIBLE_TOKEN_ISSUANCE_FEE : Amount := from_coins (@mk_bint 0 (2 ^ 64 - 1) 100 eq_refl).
Definition NFT_ISSUANCE_FEE_V0 : Amount := from_coins (@mk_bint 0 (2 ^ 64 - 1) 100 eq_refl).
Definition NFT_ISSUANCE_FEE_V1 : Amount := from_coins (@mk_bint 0 (2 ^ 64 - 1) 5 eq_refl).
Definition TOKEN_SUPPLY_CHANGE_FEE_V0 : Amount := from_coins (@mk_bint 0 (2 ^ 64 - 1) 100 eq_refl).
Definition TOKEN_SUPPLY_CHANGE_FEE_V1 : Amount := from_coins (@mk_bint 0 (2 ^ 64 - 1) 50 eq_refl).
Definition TOKEN_FREEZE_FEE_V0 : Amount := from_coins (@mk_bint 0 (2 ^ 64 - 1) 100 eq_refl).
Definition TOKEN_FREEZE_FEE_V1 : Amount := from_coins (@mk_bint 0 (2 ^ 64 - 1) 50 eq_refl).
Definition TOKEN_CHANGE_AUTHORITY_FEE_V0 : Amount := from_coins (@mk_bint 0 (2 ^ 64 - 1) 100 eq_refl).
Definition TOKEN_CHANGE_AUTHORITY_FEE_V1 : Amount := from_coins (@mk_bint 0 (2 ^ 64 - 1) 20 eq_refl).
Definition TOKEN_CHANGE_METADATA_URI_FEE : Amount := from_coins (@mk_bint 0 (2 ^ 64 - 1) 20 eq_refl).
Definition DATA_DEPOSIT_FEE_V0 : Amount := from_coins (@mk_bint 0 (2 ^ 64 - 1) 100 eq_refl).
Definition DATA_DEPOSIT_FEE_V1 : Amount := from_coins (@mk_bint 0 (2 ^ 64 - 1) 20 eq_refl).

#[global] Program Instance bint_key {lo hi} : BTreeKey (bint lo hi) := {| key_le a b := ival a <= ival b |}.
Next Obligation. intros lo hi a b. simpl. apply _. Defined.
Next Obligation.
  intros lo hi. split; [split|].
  - intros a. lia.
  - intros a b c. lia.
  - intros a b Hab Hba. apply bint_eq. lia.
Qed.
Next Obligation. intros lo hi a b. lia. Qed.

Record EmissionScheduleTabular := {
  initial_supply : CoinUnit;
  initial_subsidy : CoinUnit;
  periods : gmap BlockHeight CoinUnit
}.

(** A precalculated table of starting supplies and per-block rewards, with the
    initial entry that the closure keeps. *)
Record EmissionSchedule := {
  table : gmap BlockHeight (CoinUnit * CoinUnit);
  initial_entry : CoinUnit * CoinUnit
}.

(** The fields of [ChainConfig] that the modelled code reads; a [usize] is a
    number, a [Duration] its seconds, and [height_checkpoints] the map of a
    [Checkpoints]. *)
Record ChainConfig := {
  consensus_upgrades : NetUpgrades ConsensusUpgrade;
  chainstate_upgrades : NetUpgrades ChainstateUpgrade;
  empty_consensus_reward_maturity_block_count : BlockCount;
  emission_schedule : EmissionSchedule;
  max_block_size_with_standard_txs : N;
  max_block_size_with_smart_contracts : N;
  data_in_no_signature_witness_max_size : N;
  data_in_no_signature_witness_allowed : bool;
  cfg_data_deposit_max_size : option N;
  token_max_uri_len : N;
  token_max_dec_count : u8;
  token_max_name_len : N;
  token_max_description_len : N;
  token_min_hash_len : N;
  token_max_hash_len : N;
  min_stake_pool_pledge : Amount;
  genesis_block_id : BlockId;
  genesis_timestamp : BlockTimestamp;
  height_checkpoints : gmap BlockHeight BlockId;
  max_depth_for_reorg : BlockDistance;
  target_block_spacing : u64;
  epoch_length : u64;
  sealed_epoch_distance_from_tip : u64;
  max_block_header_size : N;
  proof_of_work_config : PoWChainConfig;
  cfg_final_supply : option CoinUnit;
  initial_randomness : H256;
  cfg_max_future_block_time_offset : option u64
}.

Definition TOKEN_MAX_TICKER_LEN : N := 12.
Definition DATA_DEPOSIT_MAX_SIZE_V0 : N := 128.
Definition DATA_DEPOSIT_MAX_SIZE_V1 : N := 384.

Section config.
Context {E : Type}.
Implicit Types (self : ChainConfig) (height : BlockHeight).

Definition chainstate_upgrade_at self height : result E ChainstateUpgrade :=
  snd <$> version_at_height (chainstate_upgrades self) height.

Definition data_deposit_fee self height : result E Amount :=
  u ← chainstate_upgrade_at self height;
  Ok (match data_deposit_fee_version u with
      | DataDepositFeeVersion.V0 => DATA_DEPOSIT_FEE_V0
      | DataDepositFeeVersion.V1 => DATA_DEPOSIT_FEE_V1
      end).

Definition data_deposit_max_size self height : result E N :=
  match cfg_data_deposit_max_size self with
  | Some n => Ok n
  | None =>
      u ← chainstate_upgrade_at self height;
      Ok (match data_deposit_fee_version u with
          | DataDepositFeeVersion.V0 => DATA_DEPOSIT_MAX_SIZE_V0
          | DataDepositFeeVersion.V1 => DATA_DEPOSIT_MAX_SIZE_V1
          end)
  end.

Definition fungible_token_issuance_fee self : Amount := FUNGIBLE_TOKEN_ISSUANCE_FEE.

Definition nft_issuance_fee self height : result E Amount :=
  u ← chainstate_upgrade_at self height;
  Ok (match tokens_fee_version u with
      | TokensFeeVersion.V0 => NFT_ISSUANCE_FEE_V0
      | TokensFeeVersion.V1 => NFT_ISSUANCE_FEE_V1
      end).

Definition token_supply_change_fee self height : result E Amount :=
  u ← chainstate_upgrade_at self height;
  Ok (match tokens_fee_version u with
      | TokensFeeVersion.V0 => TOKEN_SUPPLY_CHANGE_FEE_V0
      | TokensFeeVersion.V1 => TOKEN_SUPPLY_CHANGE_FEE_V1
      end).

Definition token_freeze_fee self height : result E Amount :=
  u ← chainstate_upgrade_at self height;
  Ok (match tokens_fee_version u with
      | TokensFeeVersion.V0 => TOKEN_FREEZE_FEE_V0
      | TokensFeeVersion.V1 => TOKEN_FREEZE_FEE_V1
      end).

Definition token_change_authority_fee self height : result E Amount :=
  u ← chainstate_upgrade_at self height;
  Ok (match tokens_fee_version u with
      | TokensFeeVersion.V0 => TOKEN_CHANGE_AUTHORITY_FEE_V0
      | TokensFeeVersion.V1 => TOKEN_CHANGE_AUTHORITY_FEE_V1
      end).

Definition token_change_metadata_uri_fee self : Amount := TOKEN_CHANGE_METADATA_URI_FEE.

Definition staking_pool_spend_maturity_block_count self height : result E BlockCount :=
  status ← consensus_status (consensus_upgrades self) height;
  Ok (match status with
      | RequiredConsensus.IgnoreConsensus | RequiredConsensus.PoW _ =>
          empty_consensus_reward_maturity_block_count self
      | RequiredConsensus.PoS status => pos_spend_maturity (PoSStatus.get_chain_config status)
      end).
End config.

(** ** Checkpoints ([checkpoints.rs]) *)

Section checkpoints.
Context {E : Type}.
Implicit Types (height : BlockHeight).

Inductive CheckpointsError := GenesisMismatch (expected actual : BlockId).

Definition Checkpoints_new (checkpoints : gmap BlockHeight BlockId) (genesis_id : BlockId) :
    result CheckpointsError (gmap BlockHeight BlockId) :=
  match checkpoints !! BlockHeight.zero with
  | None => Ok (<[BlockHeight.zero := genesis_id]> checkpoints)
  | Some entry =>
      _ ← ensure (bool_decide (entry = genesis_id)) (GenesisMismatch genesis_id entry);
      Ok checkpoints
  end.

Definition checkpoint_at_height (self : gmap BlockHeight BlockId) height : option BlockId := self !! height.

(** [range(..=height).next_back()]. *)
Definition parent_checkpoint_to_height (self : gmap BlockHeight BlockId) height :
    result E (BlockHeight * BlockId) :=
  expect (last (filter (fun e => ival e.1 <= ival height) (btree_iter self))).

(** ** Epochs *)

(** Division by a [NonZeroU64]. *)
Definition epoch_index_from_height (self : ChainConfig) height : Z := ival height / ival (epoch_length self).

Definition is_last_block_in_epoch (self : ChainConfig) height : result E bool :=
  next_height ← BlockHeight.next_height height;
  Ok (ival next_height mod ival (epoch_length self) =? 0).

Definition is_due_for_epoch_seal (self : ChainConfig) height : result E bool :=
  last_block ← is_last_block_in_epoch self height;
  Ok (last_block && (ival (sealed_epoch_distance_from_tip self) <=? epoch_index_from_height self height)).

Definition sealed_epoch_index (self : ChainConfig) height : result E (option u64) :=
  let current_epoch_index := epoch_index_from_height self height in
  last_block ← is_last_block_in_epoch self height;
  Ok (bint_of_Z (if (last_block : bool) then current_epoch_index - ival (sealed_epoch_distance_from_tip self)
                 else current_epoch_index - (ival (sealed_epoch_distance_from_tip self) + 1))).
End checkpoints.

(** ** The emission schedule ([emission_schedule.rs]) *)

Section emission.
Context {E : Type}.
Implicit Types (height : BlockHeight).

Definition u64_sub (a b : u64) : result E u64 := expect (bint_of_Z (ival a - ival b)).

(** The supply after [n] blocks with this subsidy. *)
Definition issue (supply subsidy : CoinUnit) (n : u64) : result E CoinUnit :=
  n ← expect (bint_of_Z (ival n));
  period ← expect (Amount.mul subsidy n);
  expect (Amount.add supply period).

(** The [scan] over the periods. *)
Fixpoint table_scan (supply old_subsidy : CoinUnit) (start_block : BlockHeight)
    (l : list (BlockHeight * CoinUnit)) : result E (list (BlockHeight * (CoinUnit * CoinUnit))) :=
  match l with
  | [] => Ok []
  | (end_block, new_subsidy) :: l =>
      n_blocks ← u64_sub end_block start_block;
      supply ← issue supply old_subsidy n_blocks;
      rest ← table_scan supply new_subsidy end_block l;
      Ok ((end_block, (supply, new_subsidy)) :: rest)
  end.

Definition schedule (self : EmissionScheduleTabular) : result E EmissionSchedule :=
  l ← table_scan (initial_supply self) (initial_subsidy self) BlockHeight.zero (btree_iter (periods self));
  Ok {| table := btree_collect l; initial_entry := (initial_supply self, initial_subsidy self) |}.

(** [table.range(zero..height).next_back()]. *)
Definition last_before (t : gmap BlockHeight (CoinUnit * CoinUnit)) height :
    option (BlockHeight * (CoinUnit * CoinUnit)) :=
  last (filter (fun e => ival e.1 < ival height) (btree_iter t)).

Definition amount_at (self : EmissionSchedule) height : result E CoinUnit :=
  let '(start, (start_supply, subsidy)) :=
    default (BlockHeight.zero, initial_entry self) (last_before (table self) height) in
  _ ← assert_true (ival start <=? ival height);
  n_blocks ← u64_sub height start;
  issue start_supply subsidy n_blocks.

Definition schedule_initial_supply (self : EmissionSchedule) : result E CoinUnit :=
  amount_at self BlockHeight.zero.

Definition subsidy (self : EmissionSchedule) height : result E CoinUnit :=
  prev_ht ← expect (BlockHeight.prev_height height);
  now ← amount_at self height;
  before ← amount_at self prev_ht;
  expect (Amount.sub now before).

Definition block_subsidy_at_height (self : ChainConfig) height : result E Amount :=
  subsidy (emission_schedule self) height.

Definition tail_emission (self : EmissionScheduleTabular) : BlockHeight * CoinUnit :=
  default (BlockHeight.zero, initial_subsidy self) (last (btree_iter (periods self))).

Definition final_supply (self : EmissionScheduleTabular) : result E (option CoinUnit) :=
  let '(tail_block, tail_subsidy) := tail_emission self in
  if decide (tail_subsidy = Amount.ZERO) then
    s ← schedule self;
    a ← amount_at s tail_block;
    Ok (Some a)
  else Ok None.

(** [mainnet_schedule_table], with the interval in nanoseconds. *)
Definition mainnet_subsidies : list Z := [151; 113; 85; 64; 48; 36; 27; 20; 15; 0].

Definition mainnet_schedule_table (block_interval : Z) : result E EmissionScheduleTabular :=
  _ ← assert_true (block_interval mod 1000000000 =? 0);
  let secs := block_interval / 1000000000 in
  _ ← assert_true (negb (secs =? 0));
  let blocks_per_year := (365 * 24 * 60 * 60) / secs in
  rewards ← expect (mapM (fun '(x, c) =>
    ht ← (bint_of_Z (blocks_per_year * x) : option BlockHeight);
    n ← (bint_of_Z c : option u64);
    Some (ht, from_coins n)) (zip (seqZ 1 10) mainnet_subsidies));
  Ok {| initial_supply := from_coins (@mk_bint 0 (2 ^ 64 - 1) 400000000 eq_refl);
        initial_subsidy := from_coins (@mk_bint 0 (2 ^ 64 - 1) 202 eq_refl);
        periods := btree_collect rewards |}.
End emission.

(** * Heights *)

(** Adding a distance panics exactly when the sum leaves [i64] above; it fails
    below zero and for heights that are not [i64]. *)
Lemma height_add_outcome {E} (h : BlockHeight) (d : BlockDistance) :
  match BlockHeight.add (E := E) h d with
  | Ok (Some r) => ival r = ival h + ival d
  | Ok None => 2 ^ 63 <= ival h \/ ival h + ival d < 0
  | Err _ => False
  | Panic => ival h < 2 ^ 63 /\ 2 ^ 63 <= ival h + ival d
  end.
Proof.
  unfold BlockHeight.add, BlockHeight.try_into_i64. pose proof (bint_range h). pose proof (bint_range d).
  destruct (bint_of_Z (ival h)) as [h'|] eqn:Hh; [apply bint_of_Z_Some in Hh|apply bint_of_Z_None in Hh; lia].
  pose proof (bint_range h').
  destruct (bint_of_Z (ival h' + ival d)) as [r|] eqn:Hr; simpl; [|apply bint_of_Z_None in Hr; lia].
  apply bint_of_Z_Some in Hr.
  destruct (bint_of_Z (ival r)) as [s|] eqn:Hs; [apply bint_of_Z_Some in Hs|apply bint_of_Z_None in Hs]; lia.
Qed.

(** * Upgrades *)

Section upgrades_lemmas.
Context {T : Type} `{!Ord T}.
Implicit Types (l u : NetUpgrades T) (p q : BlockHeight * T).

#[global] Instance upgrade_le_trans : Transitive (@upgrade_le T _).
Proof.
  intros [h1 v1] [h2 v2] [h3 v3] [Hlt|[He Hv]] [Hlt'|[He' Hv']]; unfold upgrade_le; simpl in *; subst;
    [left; lia|by left|by left|]. right. split; [done|]. by etrans.
Qed.

#[global] Instance upgrade_le_total : Total (@upgrade_le T _).
Proof.
  intros [h1 v1] [h2 v2]. unfold upgrade_le. simpl.
  destruct (Z.lt_trichotomy (ival h1) (ival h2)) as [Hlt|[Heq|Hlt]]; [by left; left| |by right; left].
  apply bint_eq in Heq as ->. destruct (total ord_le v1 v2); [left|right]; by right.
Qed.

(** Searching a sorted list from the end finds a largest element. *)
Lemma find_reverse_last {A} (R : relation A) `{!Reflexive R} (f : A -> bool) (l : list A) x :
  StronglySorted R l -> List.find f (reverse l) = Some x ->
  x ∈ l /\ f x = true /\ forall y, y ∈ l -> f y = true -> R y x.
Proof.
  intros Hs. induction l as [|z l IH] using rev_ind; [done|].
  apply StronglySorted_app in Hs as (Hord & Hs & _). rewrite reverse_snoc. simpl.
  destruct (f z) eqn:Hz.
  - intros [= <-]. split; [set_solver|]. split; [done|]. intros y [Hy| ->%list_elem_of_singleton]%elem_of_app _.
    + apply Hord; [done|set_solver].
    + done.
  - intros Hf. destruct (IH Hs Hf) as (Hx & Hfx & Hmax). split; [set_solver|]. split; [done|].
    intros y [Hy| ->%list_elem_of_singleton]%elem_of_app Hfy; [by apply Hmax|congruence].
Qed.

Lemma find_reverse_Some {A} (f : A -> bool) (l : list A) y :
  y ∈ l -> f y = true -> exists x, List.find f (reverse l) = Some x.
Proof.
  intros Hy Hf. destruct (List.find f (reverse l)) as [x|] eqn:Hx; [by exists x|].
  pose proof (List.find_none _ _ Hx y) as Hnone. rewrite Hnone in Hf; [done|].
  apply list_elem_of_In. by rewrite elem_of_reverse.
Qed.

Lemma initialize_Ok l u :
  initialize l = Ok u ->
  u ≡ₚ l /\ StronglySorted upgrade_le u /\ exists p, p ∈ l /\ p.1 = BlockHeight.zero.
Proof.
  unfold initialize. pose proof (merge_sort_Permutation upgrade_le l) as Hperm.
  assert (StronglySorted upgrade_le (merge_sort upgrade_le l)) as Hs.
  { apply Sorted_StronglySorted; [apply _|]. apply Sorted_merge_sort. apply _. }
  destruct (merge_sort upgrade_le l) as [|[h v] s] eqn:Hm; simpl; [done|].
  destruct (decide (h = BlockHeight.zero)) as [->|]; [|done]. intros [= <-].
  split; [done|]. split; [done|]. exists (BlockHeight.zero, v). split; [|done].
  rewrite <- Hperm. by left.
Qed.

Lemma version_at_height_spec {E} l u height :
  initialize l = Ok u ->
  exists p, version_at_height (E := E) u height = Ok p /\ p ∈ l /\ ival p.1 <= ival height /\
    forall q, q ∈ l -> ival q.1 <= ival height -> upgrade_le q p.
Proof.
  intros (Hperm & Hs & p0 & Hp0 & Hzero)%initialize_Ok. unfold version_at_height.
  destruct (find_reverse_Some (fun e => ival e.1 <=? ival height) u p0) as [p Hp].
  { by rewrite Hperm. }
  { rewrite Hzero. pose proof (bint_range height). simpl. lia. }
  rewrite Hp. exists p. split; [done|].
  assert (Reflexive (@upgrade_le T _)) as Hrefl by (intros [h v]; right; done).
  destruct (find_reverse_last upgrade_le _ _ _ Hs Hp) as (Hin & Hle & Hmax).
  split; [by rewrite <- Hperm|]. split; [lia|]. intros q Hq Hle'. apply Hmax; [by rewrite Hperm|lia].
Qed.
End upgrades_lemmas.

(** * Emission *)

Section emission_lemmas.
Implicit Types (t : EmissionScheduleTabular) (l : list (BlockHeight * CoinUnit)) (h : BlockHeight).

(** The subsidy of block [b]: that of the last period that starts before it. *)
Definition block_rate t (b : Z) : CoinUnit :=
  default (initial_subsidy t) (snd <$> last (filter (fun e => ival e.1 < b) (btree_iter (periods t)))).

(** The supply after [n] blocks, issued block by block. *)
Fixpoint supply_after t (n : nat) : Z :=
  match n with
  | O => ival (initial_supply t)
  | S m => supply_after t m + ival (block_rate t (Z.of_nat n))
  end.

Lemma supply_mono t n m : (n <= m)%nat -> supply_after t n <= supply_after t m.
Proof.
  induction 1 as [|m Hle IH]; [done|]. simpl. pose proof (bint_range (block_rate t (Z.of_nat (S m)))). lia.
Qed.

Lemma supply_nonneg t n : 0 <= supply_after t n.
Proof.
  pose proof (supply_mono t 0 n ltac:(lia)). pose proof (bint_range (initial_supply t)).
  simpl in *. lia.
Qed.

(** While the rate is constant the supply grows linearly. *)
Lemma supply_linear t (k n : nat) (r : CoinUnit) :
  (k <= n)%nat -> (forall b, Z.of_nat k < b <= Z.of_nat n -> block_rate t b = r) ->
  supply_after t n = supply_after t k + ival r * (Z.of_nat n - Z.of_nat k).
Proof.
  induction 1 as [|n Hle IH]; intros Hr; [lia|]. cbn [supply_after].
  rewrite IH, (Hr (Z.of_nat (S n))) by (intros; try apply Hr; lia). lia.
Qed.

(** The height as the number of blocks. *)
Definition blocks h : nat := Z.to_nat (ival h).

Lemma blocks_Z h : Z.of_nat (blocks h) = ival h.
Proof. unfold blocks. pose proof (bint_range h). lia. Qed.

Lemma issue_exact {E} t (k h : BlockHeight) (s r : CoinUnit) n :
  ival k <= ival h -> ival s = supply_after t (blocks k) ->
  (forall b, ival k < b <= ival h -> block_rate t b = r) ->
  supply_after t (blocks h) <= u128_MAX -> ival n = ival h - ival k ->
  exists a, issue (E := E) s r n = Ok a /\ ival a = supply_after t (blocks h).
Proof.
  intros Hle Hs Hr Hmax Hn. pose proof (blocks_Z k) as Hk. pose proof (blocks_Z h) as Hh.
  pose proof (supply_linear t (blocks k) (blocks h) r) as Hlin. rewrite Hk, Hh in Hlin.
  specialize (Hlin ltac:(lia) Hr). pose proof (supply_nonneg t (blocks k)) as Hpos.
  unfold issue, Amount.mul, Amount.add. pose proof (bint_range n). pose proof (bint_range r).
  destruct (bint_of_Z_is_Some (lo := 0) (hi := u128_MAX) (ival n) ltac:(blia)) as (n' & -> & Hn'). simpl.
  rewrite Hn', Hn.
  destruct (bint_of_Z_is_Some (lo := 0) (hi := u128_MAX) (ival r * (ival h - ival k)) ltac:(blia)) as (p & -> & Hp). simpl.
  destruct (bint_of_Z_is_Some (lo := 0) (hi := u128_MAX) (ival s + ival p) ltac:(blia)) as (a & -> & Ha).
  exists a. split; [done|]. lia.
Qed.

(** ** Constant rates *)

Lemma filter_before_const l (k : Z) (b h : Z) :
  (forall e, e ∈ l -> ival e.1 < h -> ival e.1 <= k) -> k < b <= h ->
  filter (fun e => ival e.1 < b) l = filter (fun e => ival e.1 < h) l.
Proof.
  intros Hk Hb. induction l as [|e l IH]; [done|]. rewrite !filter_cons.
  rewrite IH by (intros e' He'; apply Hk; by right). specialize (Hk e ltac:(by left)).
  repeat case_decide; (done || lia).
Qed.

Lemma periods_sorted t : StronglySorted entry_le (btree_iter (periods t)).
Proof. apply Sorted_StronglySorted; [apply _|apply btree_iter_sorted]. Qed.

(** The rate stays that of the last period up to the next height. *)
Lemma rate_after_last t h e :
  last (filter (fun e => ival e.1 < ival h) (btree_iter (periods t))) = Some e ->
  ival e.1 < ival h /\ forall b, ival e.1 < b <= ival h -> block_rate t b = e.2.
Proof.
  intros Hlast. pose proof (last_Some_elem_of _ _ Hlast) as Hin. apply list_elem_of_filter in Hin as [Hlt Hin].
  split; [done|]. intros b Hb. unfold block_rate.
  rewrite (filter_before_const _ (ival e.1) b (ival h)), Hlast; [done| |done].
  intros e' He' Hlt'. apply last_Some in Hlast as [l' Hl'].
  assert (StronglySorted entry_le (l' ++ [e])) as Hs.
  { rewrite <- Hl'. apply (StronglySorted_filter entry_le _ _ (periods_sorted t)). }
  assert (e' ∈ l' ++ [e]) as [Hin'| ->%list_elem_of_singleton]%elem_of_app.
  { rewrite <- Hl'. by apply list_elem_of_filter. }
  - apply StronglySorted_app in Hs as (Hord & _ & _). apply (Hord e' e); [done|set_solver].
  - lia.
Qed.

Lemma rate_before_first t h b :
  last (filter (fun e => ival e.1 < ival h) (btree_iter (periods t))) = None -> b <= ival h ->
  block_rate t b = initial_subsidy t.
Proof.
  intros Hnone Hb. unfold block_rate. apply last_None in Hnone.
  destruct (last (filter (fun e => ival e.1 < b) _)) as [e|] eqn:Hl; [|done].
  apply last_Some_elem_of, list_elem_of_filter in Hl as [Hlt Hin].
  assert (e ∈ filter (fun e => ival e.1 < ival h) (btree_iter (periods t))) as Hin'.
  { apply list_elem_of_filter. split; [lia|done]. }
  rewrite Hnone in Hin'. by apply elem_of_nil in Hin'.
Qed.

(** ** The table *)

(** Entries of the table against the periods they come from. *)
Definition table_entry t (p : BlockHeight * CoinUnit) (e : BlockHeight * (CoinUnit * CoinUnit)) : Prop :=
  e.1 = p.1 /\ e.2.2 = p.2 /\ ival e.2.1 = supply_after t (blocks p.1).

(** Every period ends at a height where the supply still fits. *)
Definition fits t : Prop :=
  forall p, p ∈ btree_iter (periods t) -> supply_after t (blocks p.1) <= u128_MAX.

(** The periods before the next one. *)
Lemma filter_before_next t pre k c l :
  btree_iter (periods t) = pre ++ (k, c) :: l ->
  filter (fun e => ival e.1 < ival k) (btree_iter (periods t)) = pre.
Proof.
  intros Heq. pose proof (btree_iter_NoDup (periods t)) as Hnd. pose proof (periods_sorted t) as Hsort.
  rewrite Heq in Hnd, Hsort |- *. apply StronglySorted_app in Hsort as (Hord & _ & Hs2).
  apply StronglySorted_inv in Hs2 as [_ Hall]. rewrite fmap_app, NoDup_app in Hnd.
  destruct Hnd as (_ & Hdisj & _). rewrite filter_app.
  rewrite (filter_all _ pre), (filter_none _ ((k, c) :: l)), (right_id_L [] (++)); [done|..].
  - intros e [->|He]%elem_of_cons; simpl; [lia|]. rewrite Forall_forall in Hall.
    pose proof (Hall e He) as Hle. unfold entry_le, key_le in Hle. simpl in *. lia.
  - intros e He. pose proof (Hord e (k, c) He ltac:(by left)) as Hle. unfold entry_le, key_le in Hle. simpl in *.
    destruct (decide (ival e.1 = ival k)) as [Hk%bint_eq|]; [|lia].
    destruct (Hdisj e.1); [by apply list_elem_of_fmap_2|]. rewrite Hk. simpl. left.
Qed.

Lemma table_scan_exact {E} t pre l (s r : CoinUnit) (start : BlockHeight) :
  fits t -> btree_iter (periods t) = pre ++ l ->
  (start, r) = default (BlockHeight.zero, initial_subsidy t) (last pre) ->
  ival s = supply_after t (blocks start) ->
  exists out, table_scan (E := E) s r start l = Ok out /\ Forall2 (table_entry t) l out.
Proof.
  intros Hfits. revert pre s r start. induction l as [|[k c] l IH]; intros pre s r start Heq Hstart Hs; simpl.
  { exists []. split; [done|constructor]. }
  pose proof (filter_before_next t pre k c l Heq) as Hfilter.
  assert (ival start <= ival k /\ forall b, ival start < b <= ival k -> block_rate t b = r) as [Hle Hrate].
  { pose proof (rate_after_last t k) as Hafter. pose proof (rate_before_first t k) as Hbefore.
    rewrite Hfilter in Hafter, Hbefore. destruct (last pre) as [e|]; simpl in Hstart.
    - destruct (Hafter e eq_refl) as [Hlt Hr]. subst e. simpl in *. split; [lia|done].
    - injection Hstart as -> ->. pose proof (bint_range k). simpl. split; [lia|]. intros b Hb. apply Hbefore; [done|lia]. }
  unfold u64_sub. pose proof (bint_range k) as Hk. pose proof (bint_range start) as Hst.
  destruct (bint_of_Z_is_Some (lo := 0) (hi := 2 ^ 64 - 1) (ival k - ival start) ltac:(lia)) as (n & -> & Hn). simpl.
  destruct (issue_exact (E := E) t start k s r n Hle Hs Hrate) as (s' & -> & Hs'); [|done|].
  { apply (Hfits (k, c)). rewrite Heq. set_solver. }
  simpl. destruct (IH (pre ++ [(k, c)]) s' c k) as (out & -> & Hout).
  - by rewrite <- (assoc_L (++)).
  - by rewrite last_snoc.
  - done.
  - simpl. eexists. split; [done|]. by constructor.
Qed.

Lemma Forall2_entry_filter t l out (x : Z) :
  Forall2 (table_entry t) l out ->
  Forall2 (table_entry t) (filter (fun e => ival e.1 < x) l) (filter (fun e => ival e.1 < x) out).
Proof.
  induction 1 as [|p e l out He Hl IH]; [constructor|]. rewrite !filter_cons. destruct He as [Hk He].
  rewrite Hk. case_decide; [|done]. constructor; [by split|done].
Qed.

Lemma table_entries_sorted t l out :
  Forall2 (table_entry t) l out -> StronglySorted entry_le l -> NoDup l.*1 ->
  StronglySorted entry_le out /\ NoDup out.*1.
Proof.
  intros Hl Hs Hnd. assert (l.*1 = out.*1) as Hkeys.
  { induction Hl as [|p e l out [Hk _] _ IH]; [done|]. apply StronglySorted_inv in Hs as [Hs _].
    csimpl in Hnd. apply NoDup_cons in Hnd as [_ Hnd]. csimpl. rewrite Hk. f_equal. by apply IH. }
  split; [|by rewrite <- Hkeys]. clear Hnd. revert out Hl Hkeys.
  induction Hs as [|p l Hs IH Hp]; intros out Hl Hkeys; inversion Hl as [|? e ? out' He Hl']; subst; [constructor|].
  csimpl in Hkeys. injection Hkeys as Hk Hkeys. constructor; [by apply IH|].
  rewrite Forall_forall in Hp. apply Forall_forall. intros e' He'.
  assert (e'.1 ∈ l.*1) as (p' & Heq & Hp')%list_elem_of_fmap by (rewrite Hkeys; by apply list_elem_of_fmap_2).
  specialize (Hp p' Hp'). unfold entry_le in *. by rewrite <- Hk, Heq.
Qed.

(** The schedule issues what issuing block by block does. *)
Lemma amount_at_exact {E} t :
  fits t ->
  exists s, schedule (E := E) t = Ok s /\
    forall h, supply_after t (blocks h) <= u128_MAX ->
      exists a, amount_at (E := E) s h = Ok a /\ ival a = supply_after t (blocks h).
Proof.
  intros Hfits. destruct (table_scan_exact (E := E) t [] (btree_iter (periods t)) (initial_supply t)
    (initial_subsidy t) BlockHeight.zero Hfits) as (out & Hscan & Hout); [done..|].
  unfold schedule. rewrite Hscan. eexists. split; [done|]. intros h Hmax.
  destruct (table_entries_sorted _ _ _ Hout (periods_sorted t) (btree_iter_NoDup _)) as [Hs Hnd].
  unfold amount_at, last_before. cbn [table initial_entry]. rewrite btree_collect_NoDup by done.
  rewrite btree_iter_of_sorted by (done || by apply StronglySorted_Sorted).
  pose proof (Forall2_last _ _ _ (Forall2_entry_filter t _ _ (ival h) Hout)) as Hlast.
  pose proof (rate_after_last t h) as Hafter. pose proof (rate_before_first t h) as Hbefore.
  pose proof (bint_range h) as Hh. destruct (last (filter _ out)) as [[k [s c]]|].
  - inversion Hlast as [p ? (Hk & Hc & Hsup) Heq|]; subst. simpl in *. subst.
    destruct (Hafter p ltac:(by symmetry)) as [Hlt Hrate]. pose proof (bint_range p.1).
    rewrite (proj2 (Z.leb_le _ _)) by lia. simpl. unfold u64_sub.
    destruct (bint_of_Z_is_Some (lo := 0) (hi := 2 ^ 64 - 1) (ival h - ival p.1) ltac:(lia)) as (n & -> & Hn). simpl.
    apply (issue_exact t p.1 h); [lia|done|done|done|done].
  - inversion Hlast as [|Heq]; subst. simpl.
    rewrite (proj2 (Z.leb_le _ _)) by (simpl; lia). simpl. unfold u64_sub. simpl.
    destruct (bint_of_Z_is_Some (lo := 0) (hi := 2 ^ 64 - 1) (ival h - 0) ltac:(lia)) as (n & -> & Hn). simpl.
    apply (issue_exact t BlockHeight.zero h); [simpl; lia|done| |done|done].
    intros b Hb. apply Hbefore; [by symmetry|lia].
Qed.
End emission_lemmas.

(** * The theorems *)

(** A table of upgrades is accepted exactly when some upgrade is at height
    0; then at every height a version is in force, and it is the last of the
    upgrades at or below that height, whatever the order they were given in. *)
Theorem upgrades_version_in_force {T} `{!Ord T} (l : list (BlockHeight * T)) :
  match initialize l with
  | Ok u => forall E height, exists p, version_at_height (E := E) u height = Ok p /\ p ∈ l /\
      ival p.1 <= ival height /\ forall q, q ∈ l -> ival q.1 <= ival height -> upgrade_le q p
  | Err NoUpgrades => l = []
  | Err FirstUpgradeNotAtGenesis => l <> [] /\ forall p, p ∈ l -> p.1 <> BlockHeight.zero
  | Panic => False
  end.
Proof.
  destruct (initialize l) as [u|e|] eqn:Hinit.
  - intros E height. by apply version_at_height_spec.
  - unfold initialize in Hinit. pose proof (merge_sort_Permutation upgrade_le l) as Hperm.
    assert (StronglySorted upgrade_le (merge_sort upgrade_le l)) as Hs.
    { apply Sorted_StronglySorted; [apply _|]. apply Sorted_merge_sort. apply _. }
    destruct (merge_sort upgrade_le l) as [|[h v] s] eqn:Hm; simpl in Hinit; simplify_eq.
    { by apply Permutation_nil_l in Hperm. }
    case_decide as Hh; [done|]. simplify_eq. split; [by intros ->; apply Permutation_nil_r in Hperm|].
    intros p Hp Hzero. rewrite <- Hperm in Hp. apply elem_of_cons in Hp as [->|Hp]; [done|].
    apply StronglySorted_inv in Hs as [_ Hall]. rewrite Forall_forall in Hall.
    destruct (Hall p Hp) as [Hlt|[Heq _]]; simpl in *; [|congruence].
    rewrite Hzero in Hlt. pose proof (bint_range h). simpl in Hlt. lia.
  - unfold initialize in Hinit. destruct (head _) as [[h v]|]; [|done]. by case_decide.
Qed.

(** The emission schedule computed from a table of periods agrees with
    issuing the subsidy block by block: the supply at every height is the
    initial supply plus the subsidies of all blocks up to it, the subsidy of a
    block is that of the last period that starts before it, and nothing panics
    as long as the supply fits into an amount. *)
Theorem emission_schedule_exact {E} (t : EmissionScheduleTabular) :
  fits t ->
  exists s, schedule (E := E) t = Ok s /\
    forall h, supply_after t (blocks h) <= u128_MAX ->
      (exists a, amount_at (E := E) s h = Ok a /\ ival a = supply_after t (blocks h)) /\
      (0 < ival h -> subsidy (E := E) s h = Ok (block_rate t (ival h))).
Proof.
  intros Hfits. destruct (amount_at_exact (E := E) t Hfits) as (s & Hs & Hamount). exists s. split; [done|].
  intros h Hmax. pose proof (Hamount h Hmax) as (a & Ha & Hav). split; [by exists a|]. intros Hpos.
  unfold subsidy, BlockHeight.prev_height. pose proof (bint_range h).
  destruct (bint_of_Z_is_Some (lo := 0) (hi := 2 ^ 64 - 1) (ival h - 1) ltac:(lia)) as (p & -> & Hp). simpl.
  assert (blocks h = S (blocks p)) as Hblocks by (unfold blocks; lia).
  pose proof (supply_mono t (blocks p) (blocks h) ltac:(lia)) as Hmono.
  destruct (Hamount p ltac:(lia)) as (b & Hb & Hbv). rewrite Ha. simpl. rewrite Hb. simpl.
  rewrite Hblocks in Hav. cbn [supply_after] in Hav. rewrite <- Hblocks, blocks_Z in Hav.
  destruct (Amount.sub a b) as [c|] eqn:Hc; amount_inv.
  - simpl. f_equal. apply bint_eq. lia.
  - pose proof (bint_range (block_rate t (ival h))). lia.
Qed.

(** ** The schedule of the main network *)

(** The default spacing of blocks is 120 seconds. *)
Definition default_target_block_spacing : Z := 120 * 1000000000.

Lemma block_rate_bound t r b :
  ival (initial_subsidy t) <= r -> (forall e, e ∈ btree_iter (periods t) -> ival e.2 <= r) ->
  ival (block_rate t b) <= r.
Proof.
  intros Hinit Hall. unfold block_rate. destruct (last _) as [e|] eqn:Hl; [|done]. simpl.
  apply last_Some_elem_of, list_elem_of_filter in Hl as [_ Hin]. by apply Hall.
Qed.

Lemma supply_bound t r n :
  (forall b, ival (block_rate t b) <= r) -> supply_after t n <= ival (initial_supply t) + r * Z.of_nat n.
Proof.
  intros Hr. induction n as [|n IH]; [simpl; lia|]. cbn [supply_after].
  specialize (Hr (Z.of_nat (S n))). lia.
Qed.

(** After the last period nothing more is issued if its subsidy is zero. *)
Lemma supply_tail t k n :
  last (btree_iter (periods t)) = Some (k, Amount.ZERO) -> supply_after t n <= supply_after t (blocks k).
Proof.
  intros Hlast. destruct (decide (n <= blocks k)%nat) as [Hle|Hgt]; [by apply supply_mono|].
  rewrite (supply_linear t (blocks k) n Amount.ZERO); [simpl; lia|lia|].
  intros b Hb. rewrite blocks_Z in Hb. unfold block_rate. rewrite filter_all, Hlast; [done|].
  intros e He. apply last_Some in Hlast as [l Hl]. pose proof (periods_sorted t) as Hs. rewrite Hl in Hs, He.
  apply StronglySorted_app in Hs as (Hord & _ & _).
  apply elem_of_app in He as [He| ->%list_elem_of_singleton]; [|simpl; lia].
  pose proof (Hord e (k, Amount.ZERO) He ltac:(by left)) as Hle. unfold entry_le, key_le in Hle. simpl in *. lia.
Qed.

Definition mainnet_table : EmissionScheduleTabular :=
  match mainnet_schedule_table (E := Empty_set) default_target_block_spacing with
  | Ok t => t
  | _ => {| initial_supply := Amount.ZERO; initial_subsidy := Amount.ZERO; periods := ∅ |}
  end.

Lemma mainnet_table_ok :
  mainnet_schedule_table (E := Empty_set) default_target_block_spacing = Ok mainnet_table.
Proof.
  assert (is_ok (mainnet_schedule_table (E := Empty_set) default_target_block_spacing) = true) as Hok
    by (vm_compute; reflexivity).
  unfold mainnet_table.
  destruct (mainnet_schedule_table (E := Empty_set) default_target_block_spacing); [reflexivity|done..].
Qed.

Lemma mainnet_periods :
  forallb (fun e => (ival e.2 <=? 202 * ATOMS_PER_COIN) && (ival e.1 <=? 2628000))
    (btree_iter (periods mainnet_table)) = true.
Proof. vm_compute. reflexivity. Qed.

Lemma mainnet_tail :
  (fun e => (ival e.1, ival e.2)) <$> last (btree_iter (periods mainnet_table)) = Some (2628000, 0).
Proof. vm_compute. reflexivity. Qed.

Lemma mainnet_final :
  fmap (M := option) ival (match final_supply (E := Empty_set) mainnet_table with Ok c => c | _ => None end)
    = Some (599990800 * ATOMS_PER_COIN).
Proof. vm_compute. reflexivity. Qed.

Lemma mainnet_rate b : ival (block_rate mainnet_table b) <= 202 * ATOMS_PER_COIN.
Proof.
  apply block_rate_bound; [vm_compute; discriminate|]. intros e He. pose proof mainnet_periods as Hp.
  rewrite forallb_forall in Hp. specialize (Hp e (proj1 (list_elem_of_In _ _) He)). lia.
Qed.

Lemma mainnet_fits : fits mainnet_table.
Proof.
  intros e He. pose proof mainnet_periods as Hp. rewrite forallb_forall in Hp.
  specialize (Hp e (proj1 (list_elem_of_In _ _) He)).
  pose proof (supply_bound mainnet_table _ (blocks e.1) mainnet_rate) as Hb. rewrite blocks_Z in Hb.
  assert (ival (initial_supply mainnet_table) = 400000000 * ATOMS_PER_COIN) as Hi by (vm_compute; reflexivity).
  rewrite u128_MAX_eq. unfold ATOMS_PER_COIN in *. lia.
Qed.

(** The supply of the main network is capped: at every height the schedule
    gives an amount, without panicking, and at most 599,990,800 coins are ever
    issued; that amount is reached and reported as the final supply. *)
Theorem mainnet_supply_is_capped :
  exists t s cap, mainnet_schedule_table (E := Empty_set) default_target_block_spacing = Ok t /\
    schedule (E := Empty_set) t = Ok s /\ final_supply (E := Empty_set) t = Ok (Some cap) /\
    ival cap = 599990800 * ATOMS_PER_COIN /\
    forall h, exists a, amount_at (E := Empty_set) s h = Ok a /\ ival a <= ival cap.
Proof.
  destruct (amount_at_exact (E := Empty_set) mainnet_table mainnet_fits) as (s & Hs & Hamount).
  pose proof mainnet_final as Hfinal. pose proof mainnet_tail as Htail.
  destruct (last (btree_iter (periods mainnet_table))) as [[k c]|] eqn:Hlast; [|done].
  injection Htail as Hk Hc. assert (c = Amount.ZERO) as -> by (by apply bint_eq).
  assert (supply_after mainnet_table (blocks k) <= u128_MAX) as Hmax.
  { apply (mainnet_fits (k, Amount.ZERO)). by apply last_Some_elem_of. }
  destruct (Hamount k Hmax) as (cap & Hcap & Hcapv).
  assert (final_supply (E := Empty_set) mainnet_table = Ok (Some cap)) as Hfs.
  { unfold final_supply, tail_emission. rewrite Hlast. cbn [default from_option id].
    rewrite decide_True by done. rewrite Hs. simpl. by rewrite Hcap. }
  rewrite Hfs in Hfinal. exists mainnet_table, s, cap.
  split; [apply mainnet_table_ok|]. split; [done|]. split; [done|]. split; [by injection Hfinal|].
  intros h. pose proof (supply_tail mainnet_table k (blocks h) Hlast) as Hle.
  destruct (Hamount h ltac:(lia)) as (a & Ha & Hav). exists a. split; [done|lia].
Qed.

(** * Concrete inputs *)

(** * A concrete configuration *)

Module Example.
Definition u64_lit (n : Z) : u64 := default (@mk_bint 0 (2 ^ 64 - 1) 0 eq_refl) (bint_of_Z n).

Definition upgrade : ChainstateUpgrade := {|
  token_issuance_version := TokenIssuanceVersion.V1;
  reward_distribution_version := RewardDistributionVersion.V1;
  tokens_fee_version := TokensFeeVersion.V1;
  data_deposit_fee_version := DataDepositFeeVersion.V1;
  change_token_metadata_uri_activated := ChangeTokenMetadataUriActivated.Yes;
  frozen_tokens_validation_version := FrozenTokensValidationVersion.V1;
  htlc_activated := HtlcActivated.Yes;
  orders_activated := OrdersActivated.Yes;
  orders_version := ChainTypes.V1;
  staker_destination_update_forbidden := StakerDestinationUpdateForbidden.Yes;
  token_id_generation_version := TokenIdGenerationVersion.V1;
  sighash_input_commitment_version := SighashInputCommitmentVersion.V1
|}.

Definition cfg_epochs (length distance : u64) (consensus : ConsensusUpgrade) (depth : Z) : ChainConfig := {|
  consensus_upgrades := [(BlockHeight.zero, consensus)];
  chainstate_upgrades := [(BlockHeight.zero, upgrade)];
  empty_consensus_reward_maturity_block_count := u64_lit 10;
  emission_schedule := {| table := ∅; initial_entry := (Amount.ZERO, Amount.lit 100) |};
  max_block_size_with_standard_txs := 1048576;
  max_block_size_with_smart_contracts := 1048576;
  data_in_no_signature_witness_max_size := 128;
  data_in_no_signature_witness_allowed := false;
  cfg_data_deposit_max_size := None;
  token_max_uri_len := 1024;
  token_max_dec_count := @mk_bint 0 (2 ^ 8 - 1) 18 eq_refl;
  token_max_name_len := 10;
  token_max_description_len := 100;
  token_min_hash_len := 4;
  token_max_hash_len := 32;
  min_stake_pool_pledge := Amount.lit 40;
  genesis_block_id := 0;
  genesis_timestamp := u64_lit 0;
  height_checkpoints := {[BlockHeight.zero := 0%N]};
  max_depth_for_reorg := default (@mk_bint (- 2 ^ 63) (2 ^ 63 - 1) 0 eq_refl) (bint_of_Z depth);
  target_block_spacing := u64_lit 120;
  epoch_length := length;
  sealed_epoch_distance_from_tip := distance;
  max_block_header_size := 1024;
  proof_of_work_config := PoWChainConfig_new ChainType.Regtest;
  cfg_final_supply := Some (from_coins (u64_lit 600000000));
  initial_randomness := 0;
  cfg_max_future_block_time_offset := Some (u64_lit 120)
|}.
Definition cfg_for : ConsensusUpgrade -> Z -> ChainConfig := cfg_epochs (u64_lit 5) (u64_lit 2).
Definition cfg_with_depth : Z -> ChainConfig := cfg_for ConsensusUpgrade.IgnoreConsensus.
Definition cfg : ChainConfig := cfg_with_depth 1000.
End Example.

Module Witnesses.
(** 100 coins, 10 per block up to block 5, 1 per block up to block 8. *)
Definition height (n : Z) : BlockHeight := default BlockHeight.zero (bint_of_Z n).
Definition small : EmissionScheduleTabular := {|
  initial_supply := Amount.lit 100; initial_subsidy := Amount.lit 10;
  periods := {[height 5 := Amount.lit 1; height 8 := Amount.ZERO]} |}.

Example small_schedule :
  match schedule (E := Empty_set) small with
  | Ok s => (fun n => ival <$> amount_at (E := Empty_set) s (height n)) <$> [0; 1; 5; 6; 8; 20]
  | _ => []
  end = Ok <$> [100; 110; 150; 151; 153; 153].
Proof. vm_compute. reflexivity. Qed.

Lemma small_fits : fits small.
Proof.
  intros e He. assert (forallb (fun e => supply_after small (blocks e.1) <=? u128_MAX)
    (btree_iter (periods small)) = true) as Hall by (vm_compute; reflexivity).
  rewrite forallb_forall in Hall. apply Z.leb_le, Hall. by apply list_elem_of_In.
Qed.

Lemma emission_schedule_exact_witness :
  exists s, schedule (E := Empty_set) small = Ok s /\ subsidy (E := Empty_set) s (height 6) = Ok (Amount.lit 1).
Proof.
  destruct (emission_schedule_exact (E := Empty_set) small small_fits) as (s & Hs & Hh).
  exists s. split; [exact Hs|]. destruct (Hh (height 6)) as [_ Hsub]; [vm_compute; discriminate|].
  rewrite Hsub; [f_equal; apply bint_eq; vm_compute; reflexivity|vm_compute; reflexivity].
Defined.
End Witnesses.
