(* ===== verification/Compact.v ===== *)
(** * Compact targets and the trust of a block

    Models [common/src/primitives/compact.rs], the conversion between a
    256-bit target and its 32-bit form of a size and a mantissa, and the block
    proof: what a block adds to the trust of its chain
    ([consensus_data.rs], [chaintrust/asymptote.rs]).  A [Uint256] is a list of
    four limbs, as in Uint.v.  The weights of the empty time slots are computed
    by the code with the exponential function of the floating-point library;
    they are a parameter ([TimeslotWeights]) of which the scaling is known:
    1200 weights, each less than the weight of a block. *)
From S2P Require Import Prelude Amount Uint ChainTypes ChainConfig.

(** ** Conversions ([compact.rs]) *)

(** [Uint256::low_u64]. *)
Definition low_u64 (self : uint) : Z := nth 0 self 0.

(** [TryFrom<Compact> for Uint256]; the error has the truncated value. *)
Definition try_from_compact (value : Compact) : result (option uint) uint :=
  let compact := ival value in
  let size := Z.shiftr compact 24 in
  let word := Z.land compact 0x7FFFFF in
  let word := if size <=? 3 then Z.shiftr word (8 * (3 - size)) else word in
  value ← (if size <=? 3 then Ok (from_u64 4 word)
           else shl (from_u64 4 word) (Z.to_nat (8 * (size - 3))));
  if (negb (word =? 0) && negb (Z.land compact 0x800000 =? 0))
     || (negb (word =? 0)
         && ((34 <? size) || ((0xFF <? word) && (33 <? size)) || ((0xFFFF <? word) && (32 <? size))))
  then Err (Some value)
  else Ok value.

(** [From<Uint256> for Compact]; [as u32] truncates. *)
Definition compact_from {E} (value : uint) : result E Compact :=
  let size := Z.of_nat ((bits value + 7) / 8) in
  compact ← (if size <=? 3 then Ok (u64_shl (low_u64 value) (Z.to_nat (8 * (3 - size))))
             else bn ← shr value (Z.to_nat (8 * (size - 3))); Ok (low_u64 bn));
  let '(compact, size) :=
    if negb (Z.land compact 0x800000 =? 0) then (Z.shiftr compact 8, size + 1) else (compact, size) in
  expect (bint_of_Z (Z.lor (compact mod 2 ^ 32) (Z.shiftl size 24 mod 2 ^ 32))).

(** ** What a block adds to the trust of its chain *)

(** [PoWData::get_block_proof]: [2^256 / (target + 1)], for a target that can
    be decoded. *)
Definition pow_get_block_proof {E} (bits : Compact) : result E (option uint) :=
  match try_from_compact bits with
  | Panic => Panic
  | Err _ => Ok None
  | Ok target =>
      match checked_add target (ONE 4) with
      | None => Ok None
      | Some ret1 =>
          ret ← checked_div (uint_not target) ret1;
          match ret with
          | None => Ok None
          | Some ret => Ok (Some (default (MAX 4) (checked_add ret (ONE 4))))
          end
      end
  end.

Definition SCALING_FACTOR : Z := 10 ^ 18.
Definition VEC_SIZE : nat := 1200.
Definition EPSILON : Z := 1.

Class TimeslotWeights := {
  TIMESLOTS_WEIGHTS : list Z;
  weights_length : length TIMESLOTS_WEIGHTS = VEC_SIZE;
  weights_scaled : Forall (fun w => 0 <= w < SCALING_FACTOR) TIMESLOTS_WEIGHTS
}.

Section chaintrust.
Context `{TimeslotWeights} {E : Type}.

Definition get_weight_for_timeslot (timeslot : u64) : Z :=
  match TIMESLOTS_WEIGHTS !! Z.to_nat (ival timeslot) with
  | Some w => w
  | None => SCALING_FACTOR - EPSILON
  end.

Definition get_weight_for_block : Z := SCALING_FACTOR.

Definition calculate_block_proof (timestamp_diff : u64) : result E uint :=
  let empty_time_slots_weight := get_weight_for_timeslot timestamp_diff in
  _ ← assert_true (empty_time_slots_weight <=? get_weight_for_block);
  expect (checked_sub (from_u64 4 get_weight_for_block) (from_u64 4 empty_time_slots_weight)).
End chaintrust.

(** * Properties *)

Section compact_lemmas.
#[local] Arguments Z.pow : simpl never.
#[local] Arguments Z.modulo : simpl never.
Implicit Types (u : uint) (c : Compact).

(** The number that a size and a mantissa stand for. *)
Definition scaled (size word : Z) : Z :=
  if size <=? 3 then word / 256 ^ (3 - size) else word * 256 ^ (size - 3).

Lemma pow_256 k : 0 <= k -> 2 ^ (8 * k) = 256 ^ k.
Proof. intros Hk. rewrite Z.pow_mul_r by lia. done. Qed.

Lemma land_pow2 x k : 0 <= k -> (Z.land x (2 ^ k) =? 0) = negb (Z.testbit x k).
Proof.
  intros Hk.
  assert (Z.land x (2 ^ k) = if Z.testbit x k then 2 ^ k else 0) as ->.
  { apply Z.bits_inj'. intros i Hi. rewrite Z.land_spec, Z.pow2_bits_eqb by lia.
    destruct (Z.eqb_spec k i) as [<-|].
    - destruct (Z.testbit x k); [by rewrite Z.pow2_bits_true|by rewrite Z.bits_0].
    - rewrite andb_false_r. destruct (Z.testbit x k); [by rewrite Z.pow2_bits_false|by rewrite Z.bits_0]. }
  pose proof (Z.pow_pos_nonneg 2 k ltac:(lia) Hk). destruct (Z.testbit x k); simpl; lia.
Qed.

Lemma compact_parts c : let size := Z.shiftr (ival c) 24 in let word := Z.land (ival c) 0x7FFFFF in
  0 <= size < 256 /\ 0 <= word < 2 ^ 23 /\
  ival c = size * 2 ^ 24 + (if Z.land (ival c) 0x800000 =? 0 then 0 else 2 ^ 23) + word.
Proof.
  pose proof (bint_range c) as Hc. simpl.
  rewrite Z.shiftr_div_pow2 by lia. change 0x7FFFFF with (Z.ones 23). rewrite Z.land_ones by lia.
  pose proof (Z.mod_pos_bound (ival c) (2 ^ 23)).
  split; [split; [apply Z.div_pos; lia|apply Z.div_lt_upper_bound; lia]|]. split; [lia|].
  change 0x800000 with (2 ^ 23) at 1. rewrite land_pow2 by lia. pose proof (Z.testbit_spec' (ival c) 23 ltac:(lia)) as Hb.
  pose proof (Z.div_mod (ival c) (2 ^ 23)). pose proof (Z.div_mod (ival c / 2 ^ 23) 2).
  assert (ival c / 2 ^ 24 = ival c / 2 ^ 23 / 2) as -> by (rewrite Z.div_div by lia; done).
  destruct (Z.testbit (ival c) 23); simpl in *; lia.
Qed.

(** The check of the code recognises exactly the numbers that need more than
    256 bits. *)
Lemma overflow_check size word : 0 <= size < 256 -> 0 <= word < 2 ^ 23 -> 3 < size ->
  (negb (word =? 0)
   && ((34 <? size) || ((0xFF <? word) && (33 <? size)) || ((0xFFFF <? word) && (32 <? size)))) =
  (2 ^ 256 <=? word * 256 ^ (size - 3)).
Proof.
  intros Hs Hw Hs3. change (2 ^ 256) with (256 ^ 32).
  assert (forall a b, 0 <= a <= b -> 256 ^ a <= 256 ^ b) as Hmono by (intros; apply Z.pow_le_mono_r; lia).
  destruct (Z.eqb_spec word 0) as [->|Hw0]; [simpl; lia|].
  assert (size <= 32 \/ size = 33 \/ size = 34 \/ 34 < size) as [Hc|[->|[->|Hc]]] by lia; simpl negb.
  - pose proof (Hmono (size - 3) 29 ltac:(lia)).
    assert (256 ^ 32 = 2 ^ 24 * 256 ^ 29) as -> by done.
    pose proof (Z.pow_pos_nonneg 256 (size - 3)). destruct (Z.leb_spec (2 ^ 24 * 256 ^ 29) (word * 256 ^ (size - 3))); [nia|lia].
  - assert (256 ^ 32 = 2 ^ 16 * 256 ^ (33 - 3)) as -> by done. lia.
  - assert (256 ^ 32 = 2 ^ 8 * 256 ^ (34 - 3)) as -> by done. lia.
  - pose proof (Hmono 32 (size - 3) ltac:(lia)). destruct (Z.leb_spec (256 ^ 32) (word * 256 ^ (size - 3))); [lia|nia].
Qed.

Lemma scaled_range size word : 0 <= size -> 0 <= word -> size <= 3 -> 0 <= scaled size word <= word.
Proof.
  intros Hs Hw Hs3. unfold scaled. destruct (Z.leb_spec size 3); [|lia].
  pose proof (Z.pow_pos_nonneg 256 (3 - size)). split; [apply Z.div_pos; lia|].
  apply Z.div_le_upper_bound; nia.
Qed.

(** A compact target decodes to the number that its size and mantissa stand
    for, unless the sign bit is set or the number has more than 256 bits. *)
Lemma try_from_compact_value c :
  let size := Z.shiftr (ival c) 24 in let word := Z.land (ival c) 0x7FFFFF in
  exists u, wf 4 u /\ value u = scaled size word mod 2 ^ 256 /\
    try_from_compact c =
      if negb (scaled size word =? 0) && Z.testbit (ival c) 23 || (2 ^ 256 <=? scaled size word)
      then Err (Some u) else Ok u.
Proof.
  intros size word. destruct (compact_parts c) as (Hs & Hw & _). fold size in Hs. fold word in Hw.
  unfold try_from_compact. fold size word. change 0x800000 with (2 ^ 23). rewrite land_pow2 by lia.
  rewrite negb_involutive. pose proof (scaled_range size word ltac:(lia) ltac:(lia)) as Hr.
  revert Hr. unfold scaled. destruct (Z.leb_spec size 3) as [H3|H3]; intros Hr.
  - rewrite Z.shiftr_div_pow2, pow_256 by lia. specialize (Hr H3). set (w := word / 256 ^ (3 - size)) in *.
    destruct (value_from_u64 3 w) as [Hu Hv]; [unfold Uint.word; rewrite W_eq; lia|].
    exists (from_u64 4 w). split; [done|]. split; [by rewrite Z.mod_small by lia|]. cbn [mbind result_bind].
    replace (34 <? size) with false by lia. replace (33 <? size) with false by lia.
    replace (32 <? size) with false by lia. replace (2 ^ 256 <=? w) with false by lia.
    by rewrite !andb_false_r.
  - destruct (value_from_u64 3 word) as [Hu Hv]; [unfold Uint.word; rewrite W_eq; lia|].
    destruct (shl_value (E := option uint) 4 _ (Z.to_nat (8 * (size - 3))) Hu) as (u & -> & Hwf & Hval).
    exists u. split; [done|]. rewrite Hval, Hv, Z.shiftl_mul_pow2 by lia.
    replace (Z.of_nat (Z.to_nat (8 * (size - 3)))) with (8 * (size - 3)) by lia. rewrite pow_256 by lia.
    split; [done|]. cbn [mbind result_bind]. rewrite overflow_check by done.
    pose proof (Z.pow_pos_nonneg 256 (size - 3) ltac:(lia) ltac:(lia)).
    replace (word * 256 ^ (size - 3) =? 0) with (word =? 0); [done|].
    destruct (Z.eqb_spec word 0), (Z.eqb_spec (word * 256 ^ (size - 3)) 0); nia.
Qed.

(** The encoding of a number: its length in bytes and its three top bytes, or
    the two top bytes when the sign bit would be set. *)
Definition bytes (x : Z) : Z := if x =? 0 then 0 else Z.log2 x / 8 + 1.
Definition mantissa (x : Z) : Z :=
  if bytes x <=? 3 then x * 256 ^ (3 - bytes x) else x / 256 ^ (bytes x - 3).
Definition encode (x : Z) : Z * Z :=
  if 2 ^ 23 <=? mantissa x then (bytes x + 1, mantissa x / 256) else (bytes x, mantissa x).

Lemma bytes_spec x : 0 < x -> 0 < bytes x /\ 256 ^ (bytes x - 1) <= x < 256 ^ bytes x.
Proof.
  intros Hx. unfold bytes. destruct (Z.eqb_spec x 0); [lia|].
  pose proof (Z.log2_spec x Hx) as Hl. pose proof (Z.log2_nonneg x).
  pose proof (Z.div_mod (Z.log2 x) 8). pose proof (Z.mod_pos_bound (Z.log2 x) 8).
  split; [lia|]. rewrite <- !pow_256 by lia. split.
  - etransitivity; [|apply Hl]. apply Z.pow_le_mono_r; lia.
  - eapply Z.lt_le_trans; [apply Hl|]. apply Z.pow_le_mono_r; lia.
Qed.

Lemma bytes_unique x k : 0 < k -> 256 ^ (k - 1) <= x < 256 ^ k -> bytes x = k.
Proof.
  intros Hk Hx. pose proof (Z.pow_pos_nonneg 256 (k - 1)). destruct (bytes_spec x) as [Hp Hb]; [lia|].
  assert (~ bytes x < k) by (intros Hc; pose proof (Z.pow_le_mono_r 256 (bytes x) (k - 1)); lia).
  assert (~ k < bytes x) by (intros Hc; pose proof (Z.pow_le_mono_r 256 k (bytes x - 1)); lia). lia.
Qed.

Lemma mantissa_spec x : 0 < x -> 2 ^ 16 <= mantissa x < 2 ^ 24.
Proof.
  intros Hx. destruct (bytes_spec x Hx) as [Hp [Hlo Hhi]]. unfold mantissa.
  destruct (Z.leb_spec (bytes x) 3).
  - pose proof (Z.pow_pos_nonneg 256 (3 - bytes x)).
    replace (2 ^ 16) with (256 ^ (bytes x - 1) * 256 ^ (3 - bytes x))
      by (rewrite <- Z.pow_add_r by lia; replace (_ + _) with 2 by lia; done).
    replace (2 ^ 24) with (256 ^ bytes x * 256 ^ (3 - bytes x))
      by (rewrite <- Z.pow_add_r by lia; replace (_ + _) with 3 by lia; done). nia.
  - pose proof (Z.pow_pos_nonneg 256 (bytes x - 3)). split.
    + apply Z.div_le_lower_bound; [lia|]. change (2 ^ 16) with (256 ^ 2).
      rewrite <- Z.pow_add_r by lia. by replace (_ + 2) with (bytes x - 1) by lia.
    + apply Z.div_lt_upper_bound; [lia|]. change (2 ^ 24) with (256 ^ 3).
      rewrite <- Z.pow_add_r by lia. by replace (_ + 3) with (bytes x) by lia.
Qed.

(** What the encoding keeps of a number. *)
Definition kept (x : Z) : Z := let p := 256 ^ Z.max 0 ((encode x).1 - 3) in x / p * p.

Lemma encode_spec x : 0 < x -> exists k, 0 <= k /\ Z.max 0 ((encode x).1 - 3) = k /\
  (k = 0 -> 0 < (encode x).1 <= 3 /\ (encode x).2 = x * 256 ^ (3 - (encode x).1)) /\
  (0 < k -> (encode x).2 = x / 256 ^ k /\ 2 ^ 15 * 256 ^ k <= x /\ (encode x).1 = k + 3) /\
  2 ^ 15 <= (encode x).2 < 2 ^ 23 /\
  bytes x <= (encode x).1 <= bytes x + 1 /\
  ((encode x).1 = bytes x <-> mantissa x < 2 ^ 23).
Proof.
  intros Hx. destruct (bytes_spec x Hx) as [Hp [Hlo Hhi]]. pose proof (mantissa_spec x Hx) as Hm.
  exists (Z.max 0 ((encode x).1 - 3)). split; [lia|]. split; [done|]. unfold encode.
  destruct (Z.leb_spec (2 ^ 23) (mantissa x)) as [Hbig|Hsmall]; cbn [fst snd].
  - assert (2 ^ 15 <= mantissa x / 256 < 2 ^ 23)
      by (split; [apply Z.div_le_lower_bound|apply Z.div_lt_upper_bound]; lia).
    split; [|split; [|split; [done|lia]]].
    + intros Hk. split; [lia|]. unfold mantissa. destruct (Z.leb_spec (bytes x) 3); [|lia].
      replace (3 - bytes x) with (1 + (3 - (bytes x + 1))) by lia. rewrite Z.pow_add_r by lia.
      change (256 ^ 1) with 256. rewrite Z.mul_assoc, (Z.mul_comm x 256), <- Z.mul_assoc, Z.mul_comm.
      by rewrite Z.div_mul.
    + intros Hk. rewrite Z.max_r by lia. replace (bytes x + 1 - 3) with ((bytes x - 3) + 1) by lia.
      rewrite Z.pow_add_r by lia. change (256 ^ 1) with 256. revert Hbig. unfold mantissa.
      destruct (Z.leb_spec (bytes x) 3); intros Hbig.
      * assert (bytes x = 3) as Hb3 by lia. rewrite Hb3 in *. change (256 ^ (3 - 3)) with 1 in *.
        rewrite Z.mul_1_r in *. split; [done|lia].
      * pose proof (Z.pow_pos_nonneg 256 (bytes x - 3)). rewrite Z.div_div by lia.
        pose proof (Z.mul_div_le x (256 ^ (bytes x - 3))). split; [done|]. split; [nia|lia].
  - split; [|split; [|split; [lia|lia]]].
    + intros Hk. split; [lia|]. unfold mantissa. by destruct (Z.leb_spec (bytes x) 3); [|lia].
    + intros Hk. rewrite Z.max_r by lia. revert Hm. unfold mantissa.
      destruct (Z.leb_spec (bytes x) 3); [lia|]. intros Hm.
      pose proof (Z.pow_pos_nonneg 256 (bytes x - 3)). pose proof (Z.mul_div_le x (256 ^ (bytes x - 3))).
      split; [done|]. split; [nia|lia].
Qed.

Lemma scaled_encode x : 0 <= x -> scaled (encode x).1 (encode x).2 = kept x.
Proof.
  intros Hx. destruct (decide (x = 0)) as [->|Hn]; [done|].
  destruct (encode_spec x) as (k & Hk & Hmax & H0 & Hpos & _); [lia|]. unfold scaled, kept. rewrite Hmax.
  destruct (decide (k = 0)) as [->|Hk0].
  - destruct (H0 eq_refl) as [Hs ->]. destruct (Z.leb_spec (encode x).1 3); [|lia].
    rewrite Z.div_mul by (apply Z.pow_nonzero; lia). change (256 ^ 0) with 1. by rewrite Z.div_1_r, Z.mul_1_r.
  - destruct Hpos as (-> & _ & ->); [lia|]. destruct (Z.leb_spec (k + 3) 3); [lia|].
    by replace (k + 3 - 3) with k by lia.
Qed.

(** The encoding rounds down by less than one part in [2^15], and is exact
    below [2^23]. *)
Lemma kept_close x : 0 <= x -> kept x <= x /\ (x - kept x) * 2 ^ 15 <= x /\ (x < 2 ^ 23 -> kept x = x).
Proof.
  intros Hx. destruct (decide (x = 0)) as [->|Hn]; [done|].
  destruct (encode_spec x) as (k & Hk & Hmax & H0 & Hpos & _); [lia|]. unfold kept. rewrite Hmax.
  destruct (decide (k = 0)) as [->|Hk0].
  - change (256 ^ 0) with 1. rewrite Z.div_1_r. lia.
  - destruct Hpos as (_ & Hge & _); [lia|]. pose proof (Z.pow_pos_nonneg 256 k).
    pose proof (Z.div_mod x (256 ^ k)). pose proof (Z.mod_pos_bound x (256 ^ k)).
    assert (256 ^ 1 <= 256 ^ k) by (apply Z.pow_le_mono_r; lia). nia.
Qed.

Lemma encode_kept x : 0 <= x -> encode (kept x) = encode x.
Proof.
  intros Hx. destruct (decide (x = 0)) as [->|Hn]; [done|].
  destruct (bytes_spec x) as [Hp [Hlo Hhi]]; [lia|].
  destruct (encode_spec x) as (k & Hk & Hmax & _ & Hpos & Hm & Hb & Hiff); [lia|].
  unfold kept. rewrite Hmax. destruct (decide (k = 0)) as [->|Hk0].
  { change (256 ^ 0) with 1. by rewrite Z.div_1_r, Z.mul_1_r. }
  destruct Hpos as (He2 & Hge & He1); [lia|].
  pose proof (Z.pow_pos_nonneg 256 k). set (p := 256 ^ k) in *.
  pose proof (Z.mul_div_le x p). assert (bytes (x / p * p) = bytes x) as Hbytes.
  { apply bytes_unique; [lia|]. split; [|nia].
    assert (256 ^ (bytes x - 1) = 256 ^ (bytes x - 1 - k) * p) as Heq
      by (unfold p; rewrite <- Z.pow_add_r by lia; f_equal; lia).
    rewrite Heq in *. apply Z.mul_le_mono_nonneg_r; [lia|]. apply Z.div_le_lower_bound; lia. }
  assert (mantissa (x / p * p) = if bool_decide ((encode x).1 = bytes x) then mantissa x
          else mantissa x / 256 * 256) as Hman.
  { unfold mantissa. rewrite Hbytes. case_bool_decide as Hc.
    - destruct (Z.leb_spec (bytes x) 3); [lia|]. replace (bytes x - 3) with k by lia. fold p.
      by rewrite Z.div_mul by lia.
    - assert (bytes x = k + 2) as Hbk by lia. rewrite Hbk. destruct (Z.leb_spec (k + 2) 3).
      + assert (k = 1) as Hk1 by lia. assert (p = 256) as -> by (unfold p; by rewrite Hk1).
        rewrite Hk1. change (256 ^ (3 - (1 + 2))) with 1. by rewrite !Z.mul_1_r.
      + replace (k + 2 - 3) with (k - 1) by lia. pose proof (Z.pow_pos_nonneg 256 (k - 1)).
        assert (p = 256 ^ (k - 1) * 256) as ->
          by (unfold p; rewrite <- (Z.pow_1_r 256) at 3; rewrite <- Z.pow_add_r by lia; f_equal; lia).
        rewrite <- Z.div_div by lia. rewrite (Z.mul_comm (256 ^ (k - 1)) 256), Z.mul_assoc.
        by rewrite Z.div_mul by lia. }
  unfold encode. rewrite Hbytes, Hman. case_bool_decide as Hc; [done|].
  assert (2 ^ 23 <= mantissa x) by (destruct (decide (mantissa x < 2 ^ 23)); [tauto|lia]).
  pose proof (Z.div_mod (mantissa x) 256). pose proof (Z.mod_pos_bound (mantissa x) 256).
  destruct (Z.leb_spec (2 ^ 23) (mantissa x)); [|lia].
  destruct (Z.leb_spec (2 ^ 23) (mantissa x / 256 * 256)); [by rewrite Z.div_mul by lia|lia].
Qed.

Lemma low_u64_value n u : wf (S n) u -> low_u64 u = value u mod W.
Proof.
  destruct u as [|w u]; [by intros [? _]|]. intros Hu. apply wf_cons in Hu as [Hw _]. simpl.
  unfold word in Hw. rewrite Z.mul_comm, Z_mod_plus_full. by rewrite Z.mod_small.
Qed.

Lemma size_value u : wf 4 u -> Z.of_nat ((bits u + 7) / 8) = bytes (value u).
Proof.
  intros Hu. unfold bytes. destruct (bits_spec 4 u Hu) as [[Hz ->]|(Hk & Hlo & Hhi)]; [by rewrite Hz|].
  pose proof (Z.pow_pos_nonneg 2 (Z.of_nat (bits u) - 1)).
  destruct (Z.eqb_spec (value u) 0); [lia|].
  assert (Z.log2 (value u) = Z.of_nat (bits u) - 1) as ->.
  { apply Z.log2_unique; [lia|]. by replace (Z.succ _) with (Z.of_nat (bits u)) by lia. }
  rewrite Nat2Z.inj_div, Nat2Z.inj_add.
  replace (Z.of_nat (bits u) + Z.of_nat 7) with ((Z.of_nat (bits u) - 1) + 1 * 8) by lia.
  rewrite Z.div_add by lia. done.
Qed.

(** A target is encoded as its size and mantissa. *)
Lemma compact_from_value {E} u : wf 4 u -> exists c, @compact_from E u = Ok c /\
  ival c = (encode (value u)).1 * 2 ^ 24 + (encode (value u)).2 /\
  0 <= (encode (value u)).1 < 256 /\ 0 <= (encode (value u)).2 < 2 ^ 23.
Proof.
  intros Hu. unfold compact_from. rewrite (size_value u Hu). pose proof (value_range 4 u Hu) as Hr.
  set (x := value u) in *.
  assert (0 <= bytes x <= 32 /\ 0 <= mantissa x < 2 ^ 24 /\
          0 <= (encode x).1 < 256 /\ 0 <= (encode x).2 < 2 ^ 23) as (Hb & Hm & He1 & He2).
  { destruct (decide (x = 0)) as [->|]; [done|]. destruct (bytes_spec x) as [? [Hlo _]]; [lia|].
    pose proof (mantissa_spec x ltac:(lia)).
    destruct (encode_spec x) as (_ & _ & _ & _ & _ & ? & ? & _); [lia|].
    assert (~ 32 < bytes x); [|lia]. intros Hc.
    pose proof (Z.pow_le_mono_r 256 32 (bytes x - 1) ltac:(lia) ltac:(lia)).
    change (W ^ Z.of_nat 4) with (256 ^ 32) in Hr. lia. }
  assert ((if bytes x <=? 3 then Ok (u64_shl (low_u64 u) (Z.to_nat (8 * (3 - bytes x))))
           else bn ← shr u (Z.to_nat (8 * (bytes x - 3))); Ok (low_u64 bn)) = @Ok E Z (mantissa x)) as ->.
  { revert Hm. unfold mantissa. destruct (Z.leb_spec (bytes x) 3) as [H3|H3]; intros Hm.
    - f_equal. unfold u64_shl. rewrite (low_u64_value 3) by done. fold x.
      rewrite Z.shiftl_mul_pow2 by lia. replace (Z.of_nat (Z.to_nat (8 * (3 - bytes x)))) with (8 * (3 - bytes x)) by lia.
      rewrite pow_256 by lia. rewrite Z.mul_mod_idemp_l by (rewrite W_eq; lia). rewrite Z.mod_small; [done|].
      rewrite W_eq. lia.
    - destruct (shr_value (E := E) 4 u (Z.to_nat (8 * (bytes x - 3))) Hu) as (r & -> & Hwf & Hval).
      cbn [mbind result_bind]. f_equal. rewrite (low_u64_value 3) by done. rewrite Hval. fold x.
      rewrite Z.shiftr_div_pow2 by lia. replace (Z.of_nat (Z.to_nat (8 * (bytes x - 3)))) with (8 * (bytes x - 3)) by lia.
      rewrite pow_256 by lia. rewrite Z.mod_small; [done|]. rewrite W_eq. lia. }
  cbn [mbind result_bind]. change 0x800000 with (2 ^ 23). rewrite land_pow2 by lia. rewrite negb_involutive.
  assert ((if Z.testbit (mantissa x) 23 then (Z.shiftr (mantissa x) 8, bytes x + 1) else (mantissa x, bytes x)) =
          ((encode x).2, (encode x).1)) as ->.
  { unfold encode. rewrite Z.shiftr_div_pow2 by lia. change (2 ^ 8) with 256.
    assert (Z.testbit (mantissa x) 23 = (2 ^ 23 <=? mantissa x)) as ->; [|by case_match].
    apply Z.b2z_inj. rewrite Z.testbit_spec' by lia.
    destruct (Z.leb_spec (2 ^ 23) (mantissa x)); simpl.
    - rewrite <- (Z.div_unique (mantissa x) (2 ^ 23) 1 (mantissa x - 2 ^ 23)) by lia. done.
    - by rewrite (Z.div_small (mantissa x)) by lia. }
  cbn [mbind result_bind]. rewrite Z.shiftl_mul_pow2 by lia.
  rewrite !Z.mod_small by lia.
  assert (Z.lor (encode x).2 ((encode x).1 * 2 ^ 24) = (encode x).1 * 2 ^ 24 + (encode x).2) as ->.
  { assert (Z.land ((encode x).1 * 2 ^ 24) (encode x).2 = 0) as Hland.
    { apply Z.bits_inj'. intros i Hi. rewrite Z.land_spec, Z.bits_0.
      destruct (decide (i < 24)); [by rewrite Z.mul_pow2_bits_low|].
      rewrite <- (Z.mod_small (encode x).2 (2 ^ 24)) by lia.
      rewrite Z.mod_pow2_bits_high by lia. apply andb_false_r. }
    by rewrite Z.add_nocarry_lxor, Z.lxor_lor, Z.lor_comm. }
  destruct (bint_of_Z_is_Some (lo := 0) (hi := 2 ^ 32 - 1) ((encode x).1 * 2 ^ 24 + (encode x).2))
    as (c & Hc & Hv); [lia|].
  exists c. rewrite Hc. done.
Qed.

Lemma compact_of_encode c size word : ival c = size * 2 ^ 24 + word -> 0 <= size < 256 -> 0 <= word < 2 ^ 23 ->
  Z.shiftr (ival c) 24 = size /\ Z.land (ival c) 0x7FFFFF = word /\ Z.testbit (ival c) 23 = false.
Proof.
  intros Hc Hs Hw. destruct (compact_parts c) as (Hs' & Hw' & Heq).
  change 0x800000 with (2 ^ 23) in Heq. rewrite land_pow2 in Heq by lia.
  destruct (Z.testbit (ival c) 23); cbn [negb] in Heq; [|split; [lia|]; split; [lia|done]]. lia.
Qed.
End compact_lemmas.

Lemma kept_nonneg x : 0 <= x -> 0 <= kept x.
Proof.
  intros Hx. unfold kept. apply Z.mul_nonneg_nonneg;
    [apply Z.div_pos; [lia|]; apply Z.pow_pos_nonneg; lia|apply Z.pow_nonneg; lia].
Qed.

(** Encoding a target and decoding it keeps the leading bits. *)
Lemma compact_keeps {E} u : wf 4 u -> exists c v, @compact_from E u = Ok c /\ try_from_compact c = Ok v /\
  wf 4 v /\ value v = kept (value u).
Proof.
  intros Hu. pose proof (value_range 4 u Hu) as Hr. change (W ^ Z.of_nat 4) with (2 ^ 256) in Hr.
  destruct (compact_from_value (E := E) u Hu) as (c & Hfrom & Hc & Hs & Hm).
  destruct (compact_of_encode c _ _ Hc Hs Hm) as (Hsz & Hwd & Hsign).
  destruct (try_from_compact_value c) as (v & Hv & Hval & Htry).
  rewrite Hsz, Hwd, Hsign, scaled_encode, andb_false_r in * by lia.
  destruct (kept_close (value u)) as (Hle & Hclose & Hexact); [lia|]. pose proof (kept_nonneg (value u)).
  rewrite Z.mod_small in Hval by lia. rewrite (proj2 (Z.leb_gt _ _)) in Htry by lia. by exists c, v.
Qed.

(** Compact targets round down.  Every 256-bit number has a compact form;
    it decodes, to a number that is at most the original, by less than one part
    in [2^15] and exactly the original below [2^23]; and encoding the decoded
    number gives the same compact form. *)
Theorem compact_target_rounds_down u : wf 4 u ->
  exists (c : Compact) v, compact_from (E := option uint) u = Ok c /\ try_from_compact c = Ok v /\ wf 4 v /\
    value v <= value u /\ (value u - value v) * 2 ^ 15 <= value u /\
    (value u < 2 ^ 23 -> v = u) /\
    compact_from (E := option uint) v = Ok c.
Proof.
  intros Hu. pose proof (value_range 4 u Hu) as Hr.
  destruct (compact_keeps (E := option uint) u Hu) as (c & v & Hc & Ht & Hv & Hval).
  destruct (kept_close (value u)) as (Hle & Hclose & Hexact); [lia|].
  exists c, v. rewrite Hval. split; [done|]. split; [done|]. split; [done|]. split; [done|]. split; [done|].
  split; [intros; eapply value_inj; [done..|]; rewrite Hval; auto|].
  destruct (compact_from_value (E := option uint) u Hu) as (c' & Hc'' & Hc' & _). rewrite Hc in Hc''. simplify_eq.
  destruct (compact_from_value (E := option uint) v Hv) as (c2 & -> & Hc2 & _). f_equal. apply bint_eq.
  by rewrite Hc2, Hc', Hval, encode_kept by lia.
Qed.

Section proof_lemmas.
Implicit Types (u : uint).
#[local] Arguments Z.pow : simpl never.

(** The proof of a proof-of-work block is the quotient of [2^256] by its target
    and one, as far as it fits. *)
Lemma pow_get_block_proof_value {E} (bits : Compact) : exists r, @pow_get_block_proof E bits = Ok r /\
  match r with
  | Some p => wf 4 p /\ exists target, try_from_compact bits = Ok target /\ wf 4 target /\
      value p = Z.min (2 ^ 256 - 1) (2 ^ 256 / (value target + 1)) /\ 0 < value p
  | None => forall target, try_from_compact bits = Ok target -> value target = 2 ^ 256 - 1
  end.
Proof.
  unfold pow_get_block_proof.
  destruct (try_from_compact_value bits) as (t & Ht & _ & ->).
  destruct (_ || _); [exists None; by split|].
  destruct (value_from_u64 3 1) as [H1 H1v]; [unfold word; rewrite W_eq; lia|]. fold (ONE 4) in *.
  pose proof (value_range 4 t Ht) as Hr. rewrite W4 in Hr.
  pose proof (checked_add_value 4 t (ONE 4) Ht H1) as Hadd. rewrite H1v, W4 in Hadd.
  destruct (checked_add t (ONE 4)) as [t1|]; [|exists None; split; [done|]; intros ? [= <-]; lia].
  destruct Hadd as [Ht1 Hv1]. destruct (uint_not_value 4 t Ht) as [Hn Hnv]. rewrite W4 in Hnv.
  destruct (checked_div_value (E := E) 3 _ _ Hn Ht1) as (q & -> & Hq).
  cbn [mbind result_bind]. destruct q as [q|]; [|lia]. destruct Hq as (_ & Hqwf & Hqv).
  pose proof (checked_add_value 4 q (ONE 4) Hqwf H1) as Hadd. rewrite H1v, W4 in Hadd.
  eexists. split; [done|].
  assert (2 ^ 256 / (value t + 1) = value q + 1) as Hdiv.
  { rewrite Hqv, Hv1, Hnv.
    replace (2 ^ 256) with ((2 ^ 256 - 1 - value t) + 1 * (value t + 1)) at 1 by lia. by rewrite Z.div_add by lia. }
  pose proof (value_range 4 q Hqwf). destruct (checked_add q (ONE 4)) as [p|]; cbn [default].
  - destruct Hadd as [Hp Hpv]. pose proof (value_range 4 p Hp) as Hpr. rewrite W4 in Hpr.
    split; [done|]. exists t. split; [done|]. split; [done|]. rewrite Hdiv. unfold id. lia.
  - split; [split; [done|]; repeat constructor; unfold word, u64_MAX; rewrite W_eq; lia|].
    exists t. split; [done|]. split; [done|]. rewrite Hdiv, Z.min_l by lia. done.
Qed.

(** The proof of a proof-of-stake block is positive and at most the weight of a block. *)
Lemma calculate_block_proof_value `{TimeslotWeights} {E} (diff : u64) : exists p,
  @calculate_block_proof _ E diff = Ok p /\ wf 4 p /\
  value p = SCALING_FACTOR - get_weight_for_timeslot diff /\ 0 < value p <= SCALING_FACTOR.
Proof.
  assert (0 <= get_weight_for_timeslot diff < SCALING_FACTOR) as Hw.
  { unfold get_weight_for_timeslot. case_match eqn:Hl; [|done].
    by apply (proj1 (Forall_lookup _ _) weights_scaled) in Hl. }
  unfold calculate_block_proof, get_weight_for_block, SCALING_FACTOR in *.
  destruct (Z.leb_spec (get_weight_for_timeslot diff) (10 ^ 18)); [|lia].
  destruct (value_from_u64 3 (10 ^ 18)) as [Ha Hav]; [unfold word; rewrite W_eq; lia|].
  destruct (value_from_u64 3 (get_weight_for_timeslot diff)) as [Hb Hbv]; [unfold word; rewrite W_eq; lia|].
  pose proof (checked_sub_value 4 _ _ Ha Hb) as Hs. rewrite Hav, Hbv in Hs.
  cbn [assert_true mbind result_bind].
  destruct (checked_sub (from_u64 4 (10 ^ 18)) (from_u64 4 (get_weight_for_timeslot diff))) as [p|]; [|lia].
  exists p. destruct Hs as [Hp Hv]. cbn [mbind result_bind expect]. split; [done|]. split; [done|]. lia.
Qed.
End proof_lemmas.

(** * A concrete target *)

Module Witnesses.
Lemma compact_target_rounds_down_witness : exists (c : Compact) v,
  compact_from (E := option uint) (from_u64 4 0x12345678) = Ok c /\ try_from_compact c = Ok v /\ value v = 0x12345600.
Proof.
  destruct (compact_target_rounds_down (from_u64 4 0x12345678)) as (c & v & Hc & Hv & _).
  - apply (value_from_u64 3). unfold word. rewrite W_eq. lia.
  - exists c, v. split; [done|]. split; [done|]. vm_compute in Hc. injection Hc as <-. vm_compute in Hv. injection Hv as <-.
    reflexivity.
Defined.
End Witnesses.
