(* ===== verification/BlockTree.v ===== *)
(** * The tree of block indices

    Models the block indices of [chainstate/types]: the bits of a block's
    status ([block_status.rs]), the indices of blocks and of the genesis
    ([block_index.rs], [gen_block_index.rs]), the heights to which the skip
    pointers lead ([height_skip.rs]), the search for an ancestor along them
    ([ancestor.rs]), the iterator over the ancestors
    ([block_index_history_iter.rs]), and the median time of
    [chainstate/src/detail/median_time.rs].

    The indices are a map from block ids; the genesis is not in it.  A block id
    is the hash of the header ([BlockHashes]).  The loops that follow ancestors
    are recursions whose fuel is the height they start from: every step goes to
    a lower height, so that fuel is never short in a well-formed tree.  Debug
    assertions are assertions. *)
From S2P Require Import Prelude Amount Uint ChainTypes ChainConfig Compact.

(** ** Block status ([block_status.rs]) *)

Module BlockValidationStage.
Inductive BlockValidationStage := Unchecked | CheckBlockOk | FullyChecked.

#[global] Instance eq_dec : EqDecision BlockValidationStage.
Proof. solve_decision. Defined.

Definition to_u64 (s : BlockValidationStage) : Z :=
  match s with Unchecked => 0 | CheckBlockOk => 1 | FullyChecked => 2 end.
Definition from_u64 (z : Z) : option BlockValidationStage :=
  if z =? 0 then Some Unchecked else if z =? 1 then Some CheckBlockOk
  else if z =? 2 then Some FullyChecked else None.
(** [Sequence::next]. *)
Definition next (s : BlockValidationStage) : option BlockValidationStage :=
  match s with Unchecked => Some CheckBlockOk | CheckBlockOk => Some FullyChecked | FullyChecked => None end.
(** The derived order. *)
Definition leb (a b : BlockValidationStage) : bool := to_u64 a <=? to_u64 b.
End BlockValidationStage.
Abbreviation BlockValidationStage := BlockValidationStage.BlockValidationStage.

Module BlockStatus.
Import BlockValidationStage.

Abbreviation BlockStatus := u64 (only parsing).

(** The bit where the field starts; it ends where the next one starts. *)
Inductive BlockStatusBitArea :=
  | ValidationStage | ValidationFailedBit | InvalidParentBit | ExplicitlyInvalidatedBit | ReservedArea | End_.

Definition bit_index (b : BlockStatusBitArea) : Z :=
  match b with
  | ValidationStage => 0
  | ValidationFailedBit => 8
  | InvalidParentBit => 9
  | ExplicitlyInvalidatedBit => 10
  | ReservedArea => 11
  | End_ => 64
  end.
Definition next_area (b : BlockStatusBitArea) : option BlockStatusBitArea :=
  match b with
  | ValidationStage => Some ValidationFailedBit
  | ValidationFailedBit => Some InvalidParentBit
  | InvalidParentBit => Some ExplicitlyInvalidatedBit
  | ExplicitlyInvalidatedBit => Some ReservedArea
  | ReservedArea => Some End_
  | End_ => None
  end.

Section status.
Context {E : Type}.
Implicit Types (self : u64) (range : Z * Z).

Definition bit_range_of (b : BlockStatusBitArea) : result E (Z * Z) :=
  next ← expect (next_area b); Ok (bit_index b, bit_index next).
Definition bit_range_of_range (r : BlockStatusBitArea * BlockStatusBitArea) : Z * Z :=
  (bit_index r.1, bit_index r.2).

Definition FAIL_BITS_RANGE : BlockStatusBitArea * BlockStatusBitArea := (ValidationFailedBit, ReservedArea).

Definition get_bits self range : result E Z :=
  let '(start, end_) := range in
  _ ← assert_true ((start <? end_) && (end_ <=? 64));
  if end_ - start =? 64 then Ok (ival self)
  else
    let lsb_mask := Z.shiftl 1 (end_ - start) - 1 in
    Ok (Z.land (Z.shiftr (ival self) start) lsb_mask).

Definition set_bits self range (val : Z) : result E u64 :=
  let '(start, end_) := range in
  _ ← assert_true ((start <? end_) && (end_ <=? 64));
  if end_ - start =? 64 then expect (bint_of_Z val)
  else
    let lsb_mask := Z.shiftl 1 (end_ - start) - 1 in
    let mask := Z.shiftl lsb_mask start in
    _ ← assert_true (val <=? lsb_mask);
    expect (bint_of_Z (Z.lor (Z.land (ival self) (Z.lnot mask)) (Z.shiftl val start))).

Definition get_field self (b : BlockStatusBitArea) : result E Z := range ← bit_range_of b; get_bits self range.
Definition set_field self (b : BlockStatusBitArea) (val : Z) : result E u64 :=
  range ← bit_range_of b; set_bits self range val.

Definition new : u64 := @mk_bint 0 (2 ^ 64 - 1) 0 eq_refl.

Definition last_valid_stage self : result E BlockValidationStage :=
  val ← get_field self ValidationStage; expect (from_u64 val).
Definition set_last_valid_stage self (stage : BlockValidationStage) : result E u64 :=
  set_field self ValidationStage (to_u64 stage).
Definition new_at_stage (stage : BlockValidationStage) : result E u64 := set_last_valid_stage new stage.
Definition new_fully_checked : result E u64 := new_at_stage FullyChecked.

Definition advance_validation_stage_to self (new_stage : BlockValidationStage) : result E u64 :=
  stage ← last_valid_stage self;
  _ ← assert_true (bool_decide (next stage = Some new_stage));
  set_last_valid_stage self new_stage.

Definition is_ok self : result E bool :=
  v ← get_bits self (bit_range_of_range FAIL_BITS_RANGE); Ok (v =? 0).
Definition is_fully_valid self : result E bool :=
  stage ← last_valid_stage self;
  if bool_decide (stage = FullyChecked) then is_ok self else Ok false.

Definition set_validation_failed self : result E u64 := set_field self ValidationFailedBit 1.
Definition validation_failed self : result E bool := v ← get_field self ValidationFailedBit; Ok (negb (v =? 0)).
Definition set_has_invalid_parent self : result E u64 := set_field self InvalidParentBit 1.
Definition has_invalid_parent self : result E bool := v ← get_field self InvalidParentBit; Ok (negb (v =? 0)).
Definition set_explicitly_invalidated self : result E u64 := set_field self ExplicitlyInvalidatedBit 1.
Definition is_explicitly_invalidated self : result E bool :=
  v ← get_field self ExplicitlyInvalidatedBit; Ok (negb (v =? 0)).
Definition with_cleared_fail_bits self : result E u64 := set_bits self (bit_range_of_range FAIL_BITS_RANGE) 0.
End status.
End BlockStatus.
Abbreviation BlockStatus := u64 (only parsing).

(** ** Skip heights ([height_skip.rs]) *)

Definition u64_wrapping_sub (a b : Z) : Z := (a - b) mod 2 ^ 64.
Definition invert_lowest_one (n : Z) : Z := Z.land n (u64_wrapping_sub n 1).

Definition skip_height (height : Z) : Z :=
  if height <? 2 then 0
  else if negb (Z.land height 1 =? 0) then invert_lowest_one (invert_lowest_one (height - 1)) + 1
  else invert_lowest_one height.
Definition get_skip_height {E} (h : BlockHeight) : result E BlockHeight := expect (bint_of_Z (skip_height (ival h))).

(** ** Headers, blocks and their indices *)

Record PoWData := { bits : Compact; nonce : u128 }.

(** The witnesses of a [PoSData] are left out: they are read by the
    verification of the input signatures only. *)
Record PoSData `{CryptoTypes} := {
  kernel_inputs : list TxInput;
  stake_pool_id : PoolId;
  vrf_data : VRFReturn;
  compact_target : Compact
}.

Inductive ConsensusData `{CryptoTypes} :=
  | ConsensusNone
  | ConsensusPoW (data : PoWData)
  | ConsensusPoS (data : PoSData).

(** A block header without its version tag. *)
Record BlockHeader `{CryptoTypes} := mk_header {
  hdr_prev_block_id : BlockId;
  hdr_tx_merkle_root : H256;
  hdr_witness_merkle_root : H256;
  hdr_timestamp : BlockTimestamp;
  hdr_consensus_data : ConsensusData
}.
Arguments mk_header {_} _ _ _ _ _.

(** The getters of a signed header are those of the header in it. *)
Record SignedBlockHeader `{CryptoTypes} := with_signature {
  signed_header :> BlockHeader;
  signature_data : option Signature
}.
Arguments with_signature {_} _ _.
Definition with_no_signature `{CryptoTypes} (h : BlockHeader) : SignedBlockHeader := with_signature h None.

(** The id of a block is the hash of its header, without the signature. *)
Class BlockHashes `{CryptoTypes} := { header_id : BlockHeader -> BlockId }.

(** [ConsensusData::get_block_proof]. *)
Definition get_block_proof `{CryptoTypes} `{TimeslotWeights} {E} (self : ConsensusData)
    (prev_block_timestamp this_block_timestamp : BlockTimestamp) : result E (option uint) :=
  match self with
  | ConsensusNone => Ok (Some (from_u64 4 1))
  | ConsensusPoW pow_data => pow_get_block_proof (bits pow_data)
  | ConsensusPoS _ =>
      match bint_of_Z (ival this_block_timestamp - ival prev_block_timestamp) with
      | None => Ok None
      | Some timestamp_diff => block_proof ← calculate_block_proof timestamp_diff; Ok (Some block_proof)
      end
  end.

(** [BlockIndex]; the chain trust is the [Uint256] that the stored hash is made
    from. *)
Record BlockIndex `{CryptoTypes} := mk_block_index {
  bi_block_id : BlockId;
  bi_block_header : SignedBlockHeader;
  bi_some_ancestor : BlockId;
  bi_chain_trust : uint;
  bi_block_height : BlockHeight;
  bi_chain_time_max : BlockTimestamp;
  bi_chain_transaction_count : u128;
  bi_status : BlockStatus;
  bi_is_persisted : bool
}.
Arguments mk_block_index {_} _ _ _ _ _ _ _ _ _.

Module GenBlockIndex.
Inductive GenBlockIndex `{CryptoTypes} :=
  | Block (b : BlockIndex)
  | Genesis (id : BlockId) (timestamp : BlockTimestamp).
End GenBlockIndex.
Abbreviation GenBlockIndex := GenBlockIndex.GenBlockIndex.

Section index.
Context `{CryptoTypes}.
Implicit Types (bi : BlockIndex) (g : GenBlockIndex) (chain_config : ChainConfig).
Import GenBlockIndex.

Definition bi_prev_block_id bi : BlockId := hdr_prev_block_id (bi_block_header bi).
Definition bi_block_timestamp bi : BlockTimestamp := hdr_timestamp (bi_block_header bi).
Definition bi_consensus_data bi : ConsensusData := hdr_consensus_data (bi_block_header bi).
Definition with_status (status : BlockStatus) bi : BlockIndex :=
  mk_block_index (bi_block_id bi) (bi_block_header bi) (bi_some_ancestor bi) (bi_chain_trust bi)
    (bi_block_height bi) (bi_chain_time_max bi) (bi_chain_transaction_count bi) status (bi_is_persisted bi).
Definition make_persisted bi : BlockIndex :=
  mk_block_index (bi_block_id bi) (bi_block_header bi) (bi_some_ancestor bi) (bi_chain_trust bi)
    (bi_block_height bi) (bi_chain_time_max bi) (bi_chain_transaction_count bi) (bi_status bi) true.

Definition genesis chain_config : GenBlockIndex :=
  Genesis (genesis_block_id chain_config) (genesis_timestamp chain_config).
Definition gen_block_id g : BlockId := match g with Block b => bi_block_id b | Genesis id _ => id end.
Definition gen_block_timestamp g : BlockTimestamp :=
  match g with Block b => bi_block_timestamp b | Genesis _ t => t end.
Definition gen_chain_timestamps_max g : BlockTimestamp :=
  match g with Block b => bi_chain_time_max b | Genesis _ t => t end.
Definition gen_block_height g : BlockHeight :=
  match g with Block b => bi_block_height b | Genesis _ _ => BlockHeight.zero end.
Definition gen_chain_trust g : uint := match g with Block b => bi_chain_trust b | Genesis _ _ => ZERO 4 end.
Definition gen_prev_block_id g : option BlockId :=
  match g with Block b => Some (bi_prev_block_id b) | Genesis _ _ => None end.
Definition gen_status {E} g : result E BlockStatus :=
  match g with Block b => Ok (bi_status b) | Genesis _ _ => BlockStatus.new_fully_checked end.
Definition gen_is_persisted g : bool := match g with Block b => bi_is_persisted b | Genesis _ _ => true end.
Definition gen_chain_transaction_count g : u128 :=
  match g with Block b => bi_chain_transaction_count b | Genesis _ _ => Amount.ZERO end.

(** [Id<GenBlock>::classify]: [None] for the genesis, the id of a block
    otherwise. *)
Definition classify chain_config (id : BlockId) : option BlockId :=
  if bool_decide (id = genesis_block_id chain_config) then None else Some id.
End index.

(** ** Ancestors ([ancestor.rs]) *)

Module GetAncestorError.
Inductive GetAncestorError :=
  | InvalidAncestorHeight (block_height ancestor_height : BlockHeight)
  | PrevBlockIndexNotFound (id : BlockId)
  | StartingPointNotFound (id : BlockId).
End GetAncestorError.
Abbreviation GetAncestorError := GetAncestorError.GetAncestorError.

Module AncestorGetterStartingPoint.
Inductive AncestorGetterStartingPoint `{CryptoTypes} :=
  | FromBlockIndex (bi : GenBlockIndex)
  | FromBlockId (id : BlockId).
End AncestorGetterStartingPoint.
Abbreviation AncestorGetterStartingPoint := AncestorGetterStartingPoint.AncestorGetterStartingPoint.

Section ancestor.
Context `{CryptoTypes} (chain_config : ChainConfig) (db_tx : gmap BlockId BlockIndex).
Import GenBlockIndex GetAncestorError AncestorGetterStartingPoint.

Definition gen_block_index_getter (block_id : BlockId) : option GenBlockIndex :=
  match classify chain_config block_id with
  | None => Some (genesis chain_config)
  | Some id => Block <$> db_tx !! id
  end.

(** The loop: [height_walk] decreases with every step. *)
Fixpoint ancestor_walk (fuel : nat) (target_height height_walk : BlockHeight) (block_index_walk : GenBlockIndex) :
    result GetAncestorError GenBlockIndex :=
  _ ← assert_true (ival target_height <=? ival height_walk);
  if bool_decide (height_walk = target_height) then Ok block_index_walk
  else
    match block_index_walk, fuel with
    | Genesis _ _, _ => Ok block_index_walk
    | Block _, O => Panic
    | Block cur_block_index, S fuel =>
        let ancestor := bi_some_ancestor cur_block_index in
        height_walk_prev ← expect (BlockHeight.prev_height height_walk);
        height_skip ← get_skip_height height_walk;
        height_skip_prev ← get_skip_height height_walk_prev;
        let at_target := bool_decide (height_skip = target_height) in
        let still_not_there := ival target_height <? ival height_skip in
        height_skip_prev_1 ← BlockHeight.next_height height_skip_prev;
        height_skip_prev_2 ← BlockHeight.next_height height_skip_prev_1;
        let too_close := ival height_skip_prev_2 <? ival height_skip in
        let prev_too_close := ival target_height <=? ival height_skip_prev in
        if at_target || (still_not_there && negb (too_close && prev_too_close)) then
          next ← expect (gen_block_index_getter ancestor);
          ancestor_walk fuel target_height height_skip next
        else
          let prev_block_id := bi_prev_block_id cur_block_index in
          next ← ok_or (PrevBlockIndexNotFound prev_block_id) (gen_block_index_getter prev_block_id);
          ancestor_walk fuel target_height height_walk_prev next
    end.

Definition block_index_ancestor_getter (starting_point : AncestorGetterStartingPoint)
    (target_height : BlockHeight) : result GetAncestorError GenBlockIndex :=
  block_index ← match starting_point with
                | FromBlockIndex bi => Ok bi
                | FromBlockId id => ok_or (StartingPointNotFound id) (gen_block_index_getter id)
                end;
  let height := gen_block_height block_index in
  if ival height <? ival target_height then Err (InvalidAncestorHeight height target_height)
  else ancestor_walk (Z.to_nat (ival height)) target_height height block_index.

(** ** The iterator over the ancestors and the median time *)

(** [BlockIndexHistoryIterator], as the list of its first [n] items. *)
Fixpoint history (n : nat) (next_id : option BlockId) : list GenBlockIndex :=
  match n, next_id with
  | S n, Some id =>
      match gen_block_index_getter id with
      | None => []
      | Some block_index => block_index :: history n (gen_prev_block_id block_index)
      end
  | _, _ => []
  end.

Definition MEDIAN_TIME_SPAN : nat := 11.

(** [iter.take(SPAN).sorted()], and the index of the middle, which is out of
    range when there is no block. *)
Definition calculate_median_time_past_from_blocktimestamps {E} (times : list BlockTimestamp) :
    result E BlockTimestamp :=
  let time_values := merge_sort key_le times in
  expect (time_values !! (length time_values / 2)%nat).
Definition calculate_median_time_past {E} (starting_block : BlockId) : result E BlockTimestamp :=
  calculate_median_time_past_from_blocktimestamps
    (gen_block_timestamp <$> history MEDIAN_TIME_SPAN (Some starting_block)).
End ancestor.

(** * Properties *)

Section status_lemmas.
Context {E : Type}.
Implicit Types (s : u64).
Import BlockStatus.

Lemma mask_ones k : 0 <= k -> Z.shiftl 1 k - 1 = Z.ones k.
Proof. intros Hk. rewrite Z.shiftl_1_l, Z.ones_equiv. lia. Qed.

Lemma get_bits_spec s a b : 0 <= a < b -> b <= 64 -> b - a < 64 ->
  @get_bits E s (a, b) = Ok (Z.land (Z.shiftr (ival s) a) (Z.ones (b - a))).
Proof.
  intros Ha Hb Hlen. unfold get_bits. replace (a <? b) with true by lia. replace (b <=? 64) with true by lia.
  replace (b - a =? 64) with false by lia. by rewrite mask_ones by lia.
Qed.

Lemma u64_of_bits z : 0 <= z -> (forall i, 64 <= i -> Z.testbit z i = false) -> 0 <= z <= 2 ^ 64 - 1.
Proof.
  intros Hz Hhigh. destruct (decide (z = 0)) as [->|]; [lia|].
  assert (Z.log2 z < 64); [|pose proof (Z.log2_lt_pow2 z 64); lia].
  destruct (decide (64 <= Z.log2 z)) as [Hl|]; [|lia].
  pose proof (Z.bit_log2 z ltac:(lia)) as Hbit. by rewrite Hhigh in Hbit.
Qed.

Lemma u64_bits_high (s : u64) i : 64 <= i -> Z.testbit (ival s) i = false.
Proof.
  intros Hi. pose proof (bint_range s). rewrite <- (Z.mod_small (ival s) (2 ^ 64)) by lia.
  by rewrite Z.mod_pow2_bits_high by lia.
Qed.

Lemma set_bits_spec s a b v : 0 <= a < b -> b <= 64 -> b - a < 64 -> 0 <= v < 2 ^ (b - a) ->
  exists s', @set_bits E s (a, b) v = Ok s' /\
    forall i, 0 <= i -> Z.testbit (ival s') i =
      if (a <=? i) && (i <? b) then Z.testbit v (i - a) else Z.testbit (ival s) i.
Proof.
  intros Ha Hb Hlen Hv. unfold set_bits. replace (a <? b) with true by lia. replace (b <=? 64) with true by lia.
  replace (b - a =? 64) with false by lia. cbn [andb assert_true mbind result_bind].
  rewrite mask_ones by lia. rewrite (proj2 (Z.leb_le v (Z.ones (b - a)))) by (rewrite Z.ones_equiv; lia).
  cbn [assert_true mbind result_bind].
  set (z := Z.lor _ _). assert (forall i, 0 <= i -> Z.testbit z i =
      if (a <=? i) && (i <? b) then Z.testbit v (i - a) else Z.testbit (ival s) i) as Hbits.
  { intros i Hi. unfold z. rewrite Z.lor_spec, Z.land_spec, Z.lnot_spec, !Z.shiftl_spec by lia.
    destruct (Z.leb_spec a i) as [Hai|Hai]; cbn [andb].
    - rewrite Z.testbit_ones_nonneg by lia. destruct (Z.ltb_spec i b) as [Hib|Hib].
      + replace (i - a <? b - a) with true by lia. by rewrite andb_false_r.
      + replace (i - a <? b - a) with false by lia. rewrite andb_true_r.
        rewrite <- (Z.mod_small v (2 ^ (b - a))) by lia. rewrite Z.mod_pow2_bits_high by lia. apply orb_false_r.
    - rewrite !(Z.testbit_neg_r _ (i - a)) by lia. by rewrite andb_true_r, orb_false_r. }
  destruct (bint_of_Z_is_Some (lo := 0) (hi := 2 ^ 64 - 1) z) as (s' & Hs' & Hval).
  { apply u64_of_bits.
    - unfold z. pose proof (bint_range s). apply Z.lor_nonneg. split; [|apply Z.shiftl_nonneg; lia].
      apply Z.land_nonneg. lia.
    - intros i Hi. rewrite Hbits by lia. replace (i <? b) with false by lia. rewrite andb_false_r.
      by apply u64_bits_high. }
  exists s'. rewrite Hs', Hval. done.
Qed.

(** What a status says: no bit of failure, and the last stage. *)
Definition ok s : bool := negb (Z.testbit (ival s) 8 || Z.testbit (ival s) 9 || Z.testbit (ival s) 10).
Definition stage s : option BlockValidationStage := BlockValidationStage.from_u64 (ival s mod 256).

Lemma is_ok_spec s : @is_ok E s = Ok (ok s).
Proof.
  unfold is_ok, bit_range_of_range, FAIL_BITS_RANGE. cbn [fst snd bit_index].
  rewrite get_bits_spec by lia. cbn [mbind result_bind]. f_equal. unfold ok.
  destruct (Z.eqb_spec (Z.land (Z.shiftr (ival s) 8) (Z.ones (11 - 8))) 0) as [Hz|Hz].
  - assert (forall i, 0 <= i < 3 -> Z.testbit (ival s) (8 + i) = false) as Hf.
    { intros i Hi. assert (Z.testbit (Z.land (Z.shiftr (ival s) 8) (Z.ones (11 - 8))) i = false) as Ht
        by (by rewrite Hz, Z.bits_0).
      rewrite Z.land_spec, Z.shiftr_spec, Z.testbit_ones_nonneg in Ht by lia.
      replace (i <? 11 - 8) with true in Ht by lia. rewrite andb_true_r in Ht. by rewrite Z.add_comm. }
    change 9 with (8 + 1). change 10 with (8 + 2). change (Z.testbit (ival s) 8) with (Z.testbit (ival s) (8 + 0)).
    by rewrite !Hf by lia.
  - symmetry. apply not_true_iff_false. intros Hall. apply Hz. apply Z.bits_inj'. intros i Hi.
    rewrite Z.land_spec, Z.shiftr_spec, Z.testbit_ones_nonneg, Z.bits_0 by lia.
    destruct (Z.ltb_spec i (11 - 8)); [|apply andb_false_r]. rewrite andb_true_r.
    rewrite negb_true_iff, !orb_false_iff in Hall. destruct Hall as [[? ?] ?].
    assert (i = 0 \/ i = 1 \/ i = 2) as [->|[->| ->]] by lia; done.
Qed.

Lemma last_valid_stage_spec s : @last_valid_stage E s = expect (stage s).
Proof.
  unfold last_valid_stage, get_field. cbn [bit_range_of next_area expect mbind result_bind bit_index].
  rewrite get_bits_spec by lia. cbn [mbind result_bind]. change (8 - 0) with 8.
  rewrite Z.land_ones, Z.shiftr_0_r by lia. done.
Qed.

Lemma stage_bits s s' : (forall i, 0 <= i < 8 -> Z.testbit (ival s) i = Z.testbit (ival s') i) -> stage s = stage s'.
Proof.
  intros Heq. unfold stage. f_equal. apply Z.bits_inj'. intros i Hi. change 256 with (2 ^ 8).
  destruct (decide (i < 8)); [by rewrite !Z.mod_pow2_bits_low by lia; apply Heq|].
  by rewrite !Z.mod_pow2_bits_high by lia.
Qed.

(** Marking a block as failed, in one of the three ways. *)
Lemma set_fail_bit_spec s k : 8 <= k < 11 -> exists s', @set_bits E s (k, k + 1) 1 = Ok s' /\
  ok s' = false /\ stage s' = stage s.
Proof.
  intros Hk. destruct (set_bits_spec s k (k + 1) 1) as (s' & -> & Hbits); [lia..| |].
  { replace (k + 1 - k) with 1 by lia. lia. }
  exists s'. split; [done|]. split.
  - assert (Z.testbit (ival s') k = true) as Ht.
    { rewrite Hbits by lia. replace (k <=? k) with true by lia. replace (k <? k + 1) with true by lia.
      cbn [andb]. by replace (k - k) with 0 by lia. }
    unfold ok. assert (k = 8 \/ k = 9 \/ k = 10) as [->|[->| ->]] by lia; rewrite Ht;
      rewrite ?orb_true_r; done.
  - apply stage_bits. intros i Hi. rewrite Hbits by lia. by replace (k <=? i) with false by lia.
Qed.

Lemma set_validation_failed_spec s : exists s', @set_validation_failed E s = Ok s' /\ ok s' = false /\ stage s' = stage s.
Proof. apply (set_fail_bit_spec s 8). lia. Qed.
Lemma set_has_invalid_parent_spec s : exists s', @set_has_invalid_parent E s = Ok s' /\ ok s' = false /\ stage s' = stage s.
Proof. apply (set_fail_bit_spec s 9). lia. Qed.
Lemma set_explicitly_invalidated_spec s :
  exists s', @set_explicitly_invalidated E s = Ok s' /\ ok s' = false /\ stage s' = stage s.
Proof. apply (set_fail_bit_spec s 10). lia. Qed.

Lemma with_cleared_fail_bits_spec s : exists s', @with_cleared_fail_bits E s = Ok s' /\ ok s' = true /\ stage s' = stage s.
Proof.
  destruct (set_bits_spec s 8 11 0) as (s' & Hs' & Hbits); [lia..|]. exists s'. split; [done|]. split.
  - unfold ok. by rewrite !Hbits by lia.
  - apply stage_bits. intros i Hi. rewrite Hbits by lia. by replace (8 <=? i) with false by lia.
Qed.

Lemma with_cleared_fail_bits_id s : ok s = true -> @with_cleared_fail_bits E s = Ok s.
Proof.
  unfold ok. rewrite negb_true_iff, !orb_false_iff. intros [[H8 H9] H10].
  destruct (set_bits_spec s 8 11 0) as (s' & Hs' & Hbits); [lia..|]. unfold with_cleared_fail_bits.
  change (bit_range_of_range FAIL_BITS_RANGE) with (8, 11). rewrite Hs'. f_equal. apply bint_eq, Z.bits_inj'. intros i Hi.
  rewrite Hbits by done. destruct (Z.leb_spec 8 i), (Z.ltb_spec i 11); cbn [andb]; try done.
  assert (i = 8 \/ i = 9 \/ i = 10) as [-> | [-> | ->]] by lia; by rewrite ?H8, ?H9, ?H10.
Qed.

Lemma set_last_valid_stage_spec s st : exists s', @set_last_valid_stage E s st = Ok s' /\ ok s' = ok s /\ stage s' = Some st.
Proof.
  destruct (set_bits_spec s 0 8 (BlockValidationStage.to_u64 st)) as (s' & Hs' & Hbits); [lia..| |].
  { destruct st; simpl; lia. }
  exists s'. split; [done|]. split; [unfold ok; by rewrite !Hbits by lia|].
  unfold stage. assert (ival s' mod 256 = BlockValidationStage.to_u64 st) as ->; [|by destruct st].
  apply Z.bits_inj'. intros i Hi. change 256 with (2 ^ 8). destruct (decide (i < 8)).
  - rewrite Z.mod_pow2_bits_low, Hbits by lia. replace (0 <=? i) with true by lia.
    replace (i <? 8) with true by lia. cbn [andb]. by rewrite Z.sub_0_r.
  - rewrite Z.mod_pow2_bits_high by lia. symmetry.
    rewrite <- (Z.mod_small (BlockValidationStage.to_u64 st) (2 ^ 8)) by (destruct st; simpl; lia).
    by rewrite Z.mod_pow2_bits_high by lia.
Qed.

Lemma advance_validation_stage_to_spec s st st' : stage s = Some st -> BlockValidationStage.next st = Some st' ->
  exists s', @advance_validation_stage_to E s st' = Ok s' /\ ok s' = ok s /\ stage s' = Some st'.
Proof.
  intros Hs Hn. unfold advance_validation_stage_to. rewrite last_valid_stage_spec, Hs.
  cbn [expect mbind result_bind]. rewrite bool_decide_true by done. apply set_last_valid_stage_spec.
Qed.
End status_lemmas.

(** ** Skip heights *)

Lemma invert_lowest_one_range n : 0 <= n < 2 ^ 64 -> 0 <= invert_lowest_one n <= Z.max 0 (n - 1).
Proof.
  intros Hn. unfold invert_lowest_one, u64_wrapping_sub. destruct (decide (n = 0)) as [->|]; [done|].
  rewrite Z.mod_small by lia. split; [apply Z.land_nonneg; lia|].
  pose proof (N.land_le_r (Z.to_N n) (Z.to_N (n - 1))) as Hle. apply N2Z.inj_le in Hle.
  rewrite N2Z.inj_land, !Z2N.id in Hle by lia. lia.
Qed.

Lemma skip_height_lt h : 0 < h < 2 ^ 64 -> 0 <= skip_height h < h.
Proof.
  intros Hh. unfold skip_height. destruct (Z.ltb_spec h 2); [lia|].
  pose proof (invert_lowest_one_range (h - 1)). pose proof (invert_lowest_one_range (invert_lowest_one (h - 1))).
  pose proof (invert_lowest_one_range h). destruct (negb _); lia.
Qed.

Lemma get_skip_height_spec {E} (h : BlockHeight) : exists k, @get_skip_height E h = Ok k /\
  ival k = skip_height (ival h) /\ (0 < ival h -> ival k < ival h).
Proof.
  pose proof (bint_range h) as Hr. unfold get_skip_height.
  assert (0 <= skip_height (ival h) <= 2 ^ 64 - 1) as Hs.
  { destruct (decide (ival h = 0)) as [->|]; [done|]. pose proof (skip_height_lt (ival h)). lia. }
  destruct (bint_of_Z_is_Some (lo := 0) (hi := 2 ^ 64 - 1) _ Hs) as (k & -> & Hk).
  exists k. split; [done|]. split; [done|]. intros. pose proof (skip_height_lt (ival h)). lia.
Qed.

(** ** Well-formed trees *)

Section tree.
Context `{CryptoTypes} `{TimeslotWeights} (chain_config : ChainConfig).
Implicit Types (db : gmap BlockId BlockIndex) (bi : BlockIndex) (g p a : GenBlockIndex) (id : BlockId).
Import GenBlockIndex.
Abbreviation getter := (gen_block_index_getter chain_config).

(** The reference definition of an ancestor: following parents. *)
Fixpoint follow db (n : nat) g : option GenBlockIndex :=
  match n with
  | O => Some g
  | S n => gen_prev_block_id g ≫= fun id => getter db id ≫= follow db n
  end.
Fixpoint follow_id db (n : nat) id : option BlockId :=
  match n with
  | O => Some id
  | S n => getter db id ≫= fun g => gen_prev_block_id g ≫= follow_id db n
  end.

(** How the index of a block continues the one of its parent. *)
Record continues db p bi : Prop := {
  cont_height : ival (bi_block_height bi) = ival (gen_block_height p) + 1;
  cont_skip : follow_id db (Z.to_nat (ival (gen_block_height p) - skip_height (ival (bi_block_height bi))))
                (bi_prev_block_id bi) = Some (bi_some_ancestor bi);
  cont_trust_wf : wf 4 (bi_chain_trust bi);
  cont_trust : exists (E : Type) (proof : uint), @get_block_proof _ _ E (bi_consensus_data bi)
                  (gen_block_timestamp p) (bi_block_timestamp bi) = Ok (Some proof) /\
                value (bi_chain_trust bi) = value (gen_chain_trust p) + value proof;
  cont_time_max : ival (bi_chain_time_max bi) =
                  Z.max (ival (gen_chain_timestamps_max p)) (ival (bi_block_timestamp bi));
  cont_count : ival (gen_chain_transaction_count p) <= ival (bi_chain_transaction_count bi)
}.

Record linked db bi : Prop := {
  linked_id : bi_block_id bi <> genesis_block_id chain_config;
  linked_parent : exists p, getter db (bi_prev_block_id bi) = Some p /\ continues db p bi
}.
Definition gen_linked db g : Prop := match g with Block bi => linked db bi | Genesis _ _ => g = genesis chain_config end.

Definition wf_tree db : Prop := forall id bi, db !! id = Some bi -> bi_block_id bi = id /\ linked db bi.

Lemma getter_genesis db : getter db (genesis_block_id chain_config) = Some (genesis chain_config).
Proof. unfold gen_block_index_getter, classify. by rewrite bool_decide_true. Qed.

Lemma getter_block db id bi : db !! id = Some bi -> id <> genesis_block_id chain_config -> getter db id = Some (Block bi).
Proof. intros Hdb Hid. unfold gen_block_index_getter, classify. by rewrite bool_decide_false, Hdb. Qed.

Lemma getter_inv db id g : getter db id = Some g ->
  (id = genesis_block_id chain_config /\ g = genesis chain_config) \/
  (id <> genesis_block_id chain_config /\ exists bi, g = Block bi /\ db !! id = Some bi).
Proof.
  unfold gen_block_index_getter, classify. case_bool_decide; [by intros [= <-]; left|].
  intros Hg. right. split; [done|]. destruct (db !! id) as [bi|]; [|done]. injection Hg as <-. eauto.
Qed.

Section in_tree.
Context (db : gmap BlockId BlockIndex) (Hwf : wf_tree db).

Lemma getter_linked id g : getter db id = Some g -> gen_linked db g /\ gen_block_id g = id.
Proof.
  intros [[-> ->]|(Hid & bi & -> & Hdb)]%getter_inv; [done|]. by apply Hwf in Hdb as [? ?].
Qed.

Lemma linked_prev bi : linked db bi -> exists p, getter db (bi_prev_block_id bi) = Some p /\ gen_linked db p /\
  gen_block_id p = bi_prev_block_id bi /\ continues db p bi.
Proof. intros [_ (p & Hp & Hc)]. exists p. pose proof (getter_linked _ _ Hp) as [? ?]. done. Qed.

(** Following parents down to any height succeeds. *)
Lemma follow_exists n g : gen_linked db g -> Z.of_nat n <= ival (gen_block_height g) ->
  exists a, follow db n g = Some a /\ gen_linked db a /\
    ival (gen_block_height a) = ival (gen_block_height g) - Z.of_nat n /\
    (forall id, getter db id = Some g -> follow_id db n id = Some (gen_block_id a)) /\
    (getter db (gen_block_id g) = Some g -> getter db (gen_block_id a) = Some a).
Proof.
  revert g. induction n as [|n IH]; intros g Hg Hn.
  { exists g. simpl. split; [done|]. split; [done|]. split; [lia|]. split; [|done].
    intros id Hid. by apply getter_linked in Hid as [_ <-]. }
  destruct g as [bi|i t]; [|simpl in *; lia]. simpl in Hg.
  destruct (linked_prev bi Hg) as (p & Hp & Hlp & Hpid & Hc). pose proof (cont_height _ _ _ Hc) as Hh. simpl in Hn.
  destruct (IH p Hlp) as (a & Hf & Hla & Hha & Hid & Hst); [lia|]. exists a. simpl. rewrite Hp. simpl.
  split; [done|]. split; [done|]. split; [lia|]. split.
  - intros id Hgi. rewrite Hgi. simpl. by apply Hid.
  - intros _. apply Hst. by rewrite Hpid.
Qed.

Lemma follow_add n m g : follow db (n + m) g = follow db n g ≫= follow db m.
Proof.
  revert g. induction n as [|n IH]; intros g; [done|]. simpl.
  destruct (gen_prev_block_id g) as [id|]; [|done]. simpl. destruct (getter db id); [|done]. simpl. apply IH.
Qed.

(** Every block adds to the trust of its chain. *)
Lemma get_block_proof_pos {E} (c : ConsensusData) t t' (proof : uint) :
  @get_block_proof _ _ E c t t' = Ok (Some proof) -> wf 4 proof /\ 0 < value proof.
Proof.
  destruct c as [|d|d]; cbn [get_block_proof].
  - intros [= <-]. destruct (value_from_u64 3 1) as [Hw Hv]; [unfold word; rewrite W_eq; lia|]. rewrite Hv. done.
  - destruct (pow_get_block_proof_value (E := E) (bits d)) as (r & -> & Hr). intros [= ->].
    destruct Hr as (Hw & _ & _ & _ & _ & Hpos). done.
  - destruct (bint_of_Z (ival t' - ival t)) as [diff|]; [|done].
    destruct (calculate_block_proof_value (E := E) diff) as (p & -> & Hw & _ & Hpos).
    cbn [mbind result_bind]. intros [= <-]. split; [done|lia].
Qed.

Lemma get_block_proof_total {E} (c : ConsensusData) t t' : exists r, @get_block_proof _ _ E c t t' = Ok r.
Proof.
  destruct c as [|d|d]; cbn [get_block_proof]; [eauto| |].
  - destruct (pow_get_block_proof_value (E := E) (bits d)) as (r & Hr & _). eauto.
  - destruct (bint_of_Z (ival t' - ival t)) as [diff|]; [|eauto].
    destruct (calculate_block_proof_value (E := E) diff) as (p & -> & _). eauto.
Qed.

Lemma trust_wf g : gen_linked db g -> wf 4 (gen_chain_trust g).
Proof.
  destruct g as [bi|]; simpl; intros Hl.
  - destruct Hl as [_ (p & _ & Hc)]. apply (cont_trust_wf _ _ _ Hc).
  - apply (value_from_u64 3). unfold word. rewrite W_eq. lia.
Qed.

Lemma trust_increases bi p : linked db bi -> getter db (bi_prev_block_id bi) = Some p ->
  value (gen_chain_trust p) < value (bi_chain_trust bi).
Proof.
  intros Hl Hp. destruct (linked_prev bi Hl) as (p' & Hp' & _ & _ & Hc). simplify_eq.
  destruct (cont_trust _ _ _ Hc) as (E & proof & Hproof & ->). apply get_block_proof_pos in Hproof as [_ ?]. lia.
Qed.

Lemma follow_trust n g a : gen_linked db g -> follow db n g = Some a ->
  value (gen_chain_trust a) <= value (gen_chain_trust g).
Proof.
  revert g. induction n as [|n IH]; intros g Hg Hf; [injection Hf as <-; lia|].
  destruct g as [bi|]; [|done]. destruct (linked_prev bi Hg) as (p & Hp & Hlp & _ & _).
  simpl in Hf. rewrite Hp in Hf. apply IH in Hf; [|done]. pose proof (trust_increases bi p Hg Hp). simpl. lia.
Qed.

Lemma follow_step bi p n : getter db (bi_prev_block_id bi) = Some p -> follow db (S n) (Block bi) = follow db n p.
Proof. intros Hp. simpl. by rewrite Hp. Qed.

(** The stored skip pointer leads to the ancestor at the skip height. *)
Lemma skip_pointer bi p : linked db bi -> getter db (bi_prev_block_id bi) = Some p ->
  exists a, getter db (bi_some_ancestor bi) = Some a /\ gen_linked db a /\
    ival (gen_block_height a) = skip_height (ival (bi_block_height bi)) /\
    follow db (Z.to_nat (ival (bi_block_height bi) - skip_height (ival (bi_block_height bi)))) (Block bi) = Some a.
Proof.
  intros Hl Hp. destruct (linked_prev bi Hl) as (p' & Hp' & Hlp & Hpid & Hc). simplify_eq.
  pose proof (cont_height _ _ _ Hc) as Hh. pose proof (cont_skip _ _ _ Hc) as Hs.
  pose proof (bint_range (bi_block_height bi)). pose proof (bint_range (gen_block_height p)).
  pose proof (skip_height_lt (ival (bi_block_height bi)) ltac:(lia)) as Hlt.
  set (n := Z.to_nat _) in Hs.
  destruct (follow_exists n p Hlp) as (a & Hf & Hla & Hha & Hid & Hst); [lia|].
  rewrite (Hid _ Hp) in Hs. injection Hs as Ha. exists a. rewrite <- Ha.
  split; [apply Hst; by rewrite Hpid|]. split; [done|]. split; [lia|].
  replace (Z.to_nat _) with (S n) by lia. by rewrite (follow_step bi p).
Qed.

Lemma ancestor_walk_spec fuel target hw cur : gen_linked db cur -> gen_block_height cur = hw ->
  ival target <= ival hw -> (Z.to_nat (ival hw) <= fuel)%nat ->
  exists a, ancestor_walk chain_config db fuel target hw cur = Ok a /\
    follow db (Z.to_nat (ival hw - ival target)) cur = Some a.
Proof.
  revert hw cur. induction fuel as [|fuel IH]; intros hw cur Hl Hh Ht Hf; cbn [ancestor_walk];
    (replace (ival target <=? ival hw) with true by lia); cbn [assert_true mbind result_bind];
    (case_bool_decide as Heq;
      [exists cur; by rewrite Heq, Z.sub_diag|]);
    (assert (ival hw <> ival target) by (intros ?; by apply Heq, bint_eq)).
  { pose proof (bint_range target). lia. }
  pose proof (bint_range target). pose proof (bint_range hw) as Hhr.
  destruct cur as [bi|i tm]; [|subst hw; simpl in *; lia]. simpl in Hh, Hl.
  destruct (linked_prev bi Hl) as (p & Hp & Hlp & Hpid & Hc). pose proof (cont_height _ _ _ Hc) as Hch.
  pose proof (bint_range (gen_block_height p)). rewrite Hh in *.
  assert (BlockHeight.prev_height hw = Some (gen_block_height p)) as ->
    by (unfold BlockHeight.prev_height; apply bint_of_Z_Some; lia).
  destruct (get_skip_height_spec (E := GetAncestorError) hw) as (hs & Hsk & Hhs & Hlt).
  destruct (get_skip_height_spec (E := GetAncestorError) (gen_block_height p)) as (hsp & Hskp & Hhsp & Hltp).
  cbn [expect mbind result_bind]. rewrite Hsk. cbn [mbind result_bind]. rewrite Hskp. cbn [mbind result_bind]. pose proof (bint_range hsp).
  assert (ival hsp <= Z.max 0 (ival hw - 2)) as Hle
    by (destruct (decide (ival (gen_block_height p) = 0)) as [Hz|]; [rewrite Hhsp, Hz; change (skip_height 0) with 0; lia|lia]).
  destruct (bint_of_Z_is_Some (lo := 0) (hi := 2 ^ 64 - 1) (ival hsp + 1)) as (h1 & Hh1 & Hv1); [lia|].
  destruct (bint_of_Z_is_Some (lo := 0) (hi := 2 ^ 64 - 1) (ival h1 + 1)) as (h2 & Hh2 & Hv2); [lia|].
  unfold BlockHeight.next_height. rewrite Hh1. cbn [expect mbind result_bind]. rewrite Hh2. cbn [expect mbind result_bind].
  destruct (skip_pointer bi p Hl Hp) as (a & Ha & Hla & Hha & Hfa). rewrite Hh, <- Hhs in *.
  destruct (_ || _) eqn:Hjump.
  - rewrite Ha. cbn [expect mbind result_bind].
    assert (ival target <= ival hs).
    { apply orb_true_iff in Hjump as [Hj|Hj].
      - apply bool_decide_eq_true in Hj. subst. lia.
      - apply andb_true_iff in Hj as [Hj _]. lia. }
    destruct (IH hs a) as (r & Hr & Hfr); [done|apply bint_eq; lia|lia|lia|]. exists r. split; [done|].
    replace (Z.to_nat (ival hw - ival target))
      with (Z.to_nat (ival hw - ival hs) + Z.to_nat (ival hs - ival target))%nat by lia.
    rewrite follow_add, Hfa. done.
  - rewrite Hp. cbn [ok_or mbind result_bind].
    destruct (IH (gen_block_height p) p) as (r & Hr & Hfr); [done|done|lia|lia|]. exists r. split; [done|].
    replace (Z.to_nat (ival hw - ival target)) with (S (Z.to_nat (ival (gen_block_height p) - ival target))) by lia.
    by rewrite (follow_step bi p).
Qed.

(** What the search finds, from an index or an id. *)
Lemma ancestor_getter_spec g target : gen_linked db g -> ival target <= ival (gen_block_height g) ->
  exists a, block_index_ancestor_getter chain_config db (AncestorGetterStartingPoint.FromBlockIndex g) target = Ok a /\
    follow db (Z.to_nat (ival (gen_block_height g) - ival target)) g = Some a /\
    gen_linked db a /\ gen_block_height a = target /\
    (getter db (gen_block_id g) = Some g -> getter db (gen_block_id a) = Some a).
Proof.
  intros Hl Ht. pose proof (bint_range target). unfold block_index_ancestor_getter. cbn [mbind result_bind].
  replace (ival (gen_block_height g) <? ival target) with false by lia.
  destruct (ancestor_walk_spec (Z.to_nat (ival (gen_block_height g))) target _ g Hl eq_refl Ht (Nat.le_refl _))
    as (a & -> & Hf).
  destruct (follow_exists (Z.to_nat (ival (gen_block_height g) - ival target)) g Hl ltac:(lia))
    as (a' & Hf' & Hla & Hha & _ & Hst). simplify_eq.
  exists a. split; [done|]. split; [done|]. split; [done|]. split; [apply bint_eq; lia|done].
Qed.
End in_tree.

(** ** Changes of a tree *)

(** What the tree is about: everything but the status and the flag of
    persistence. *)
Definition core bi : BlockIndex :=
  mk_block_index (bi_block_id bi) (bi_block_header bi) (bi_some_ancestor bi) (bi_chain_trust bi)
    (bi_block_height bi) (bi_chain_time_max bi) (bi_chain_transaction_count bi) BlockStatus.new false.
Definition gen_core g : GenBlockIndex := match g with Block bi => Block (core bi) | Genesis _ _ => g end.

(** [db'] has the blocks of [db]. *)
Definition extends db db' : Prop := forall id bi, db !! id = Some bi -> exists bi', db' !! id = Some bi' /\ core bi' = core bi.

Lemma extends_refl db : extends db db.
Proof. intros id bi Hid. eauto. Qed.
Lemma extends_trans db1 db2 db3 : extends db1 db2 -> extends db2 db3 -> extends db1 db3.
Proof. intros H12 H23 id bi Hid. destruct (H12 _ _ Hid) as (? & Hb & <-). by apply H23 in Hb. Qed.

Lemma extends_insert db id bi : (forall old, db !! id = Some old -> core bi = core old) -> extends db (<[id := bi]> db).
Proof.
  intros Hold x b Hx. destruct (decide (x = id)) as [->|Hn].
  - exists bi. rewrite lookup_insert_eq. split; [done|]. by apply Hold.
  - exists b. by rewrite lookup_insert_ne.
Qed.

Lemma extends_getter db db' id g : extends db db' -> getter db id = Some g ->
  exists g', getter db' id = Some g' /\ gen_core g' = gen_core g.
Proof.
  intros Hext [[-> ->]|(Hid & bi & -> & Hdb)]%getter_inv.
  - exists (genesis chain_config). by rewrite getter_genesis.
  - apply Hext in Hdb as (bi' & Hdb & Hc). exists (Block bi'). split; [by apply getter_block|]. simpl. by rewrite Hc.
Qed.

Lemma gen_core_facts g g' : gen_core g' = gen_core g ->
  gen_block_id g' = gen_block_id g /\ gen_prev_block_id g' = gen_prev_block_id g /\
  gen_block_height g' = gen_block_height g /\ gen_block_timestamp g' = gen_block_timestamp g /\
  gen_chain_timestamps_max g' = gen_chain_timestamps_max g /\ gen_chain_trust g' = gen_chain_trust g /\
  gen_chain_transaction_count g' = gen_chain_transaction_count g.
Proof.
  destruct g as [[]|], g' as [[]|]; simpl; intros [=]; subst; unfold bi_prev_block_id, bi_block_timestamp; done.
Qed.

Lemma core_facts bi bi' : core bi' = core bi ->
  bi_block_id bi' = bi_block_id bi /\ bi_prev_block_id bi' = bi_prev_block_id bi /\
  bi_block_height bi' = bi_block_height bi /\ bi_block_header bi' = bi_block_header bi /\
  bi_chain_trust bi' = bi_chain_trust bi.
Proof.
  intros Hc. destruct bi, bi'. unfold core in Hc. simpl in Hc. injection Hc as -> -> -> -> -> -> ->. done.
Qed.

Lemma extends_follow_id db db' n id r : extends db db' -> follow_id db n id = Some r -> follow_id db' n id = Some r.
Proof.
  intros Hext. revert id. induction n as [|n IH]; intros id; [done|]. simpl.
  destruct (getter db id) as [g|] eqn:Hg; [|done]. simpl.
  destruct (extends_getter _ _ _ _ Hext Hg) as (g' & -> & Hc). simpl.
  apply gen_core_facts in Hc as (_ & -> & _). destruct (gen_prev_block_id g); [|done]. simpl. apply IH.
Qed.

Lemma extends_linked db db' bi bi' : extends db db' -> core bi' = core bi -> linked db bi -> linked db' bi'.
Proof.
  intros Hext Hcore [Hid (p & Hp & Hc)].
  destruct (extends_getter _ _ _ _ Hext Hp) as (p' & Hp' & Hcp).
  apply gen_core_facts in Hcp as (_ & _ & Hh & Ht & Hm & Htr & Hcnt).
  destruct bi as [i h sa tr ht tm cnt st per], bi' as [i' h' sa' tr' ht' tm' cnt' st' per'].
  injection Hcore as -> -> -> -> -> -> ->. split; [done|]. exists p'. split; [done|].
  destruct Hc as [Hch Hcs Hcw Hct Hcm Hcc]. unfold bi_prev_block_id, bi_consensus_data, bi_block_timestamp in *.
  cbn -[get_block_proof] in *.
  split; cbn -[get_block_proof]; rewrite ?Hh, ?Ht, ?Hm, ?Htr, ?Hcnt; [done| |done..].
  by apply (extends_follow_id db).
Qed.

(** A new block, or a new status of a block, keeps the tree well formed. *)
Lemma wf_tree_insert db bi : wf_tree db -> linked db bi ->
  (forall old, db !! bi_block_id bi = Some old -> core bi = core old) ->
  wf_tree (<[bi_block_id bi := bi]> db).
Proof.
  intros Hwf Hl Hold id b Hb. pose proof (extends_insert db (bi_block_id bi) bi Hold) as Hext.
  apply lookup_insert_Some in Hb as [[<- <-]|[Hn Hb]].
  - split; [done|]. by apply (extends_linked db _ bi).
  - apply Hwf in Hb as [Hi Hb]. split; [done|]. by apply (extends_linked db _ b).
Qed.
End tree.

(** C15: the search along skip pointers finds the ancestor.  In a well-formed
    tree, for a starting point in the tree and a height up to its own, the
    search ends, without a failing assertion, with the index that following
    parents from the starting point leads to and that has the height; above the
    height of the starting point, and for an unknown starting point, it returns
    the error for that. *)
Theorem ancestor_search_exact `{CryptoTypes} `{TimeslotWeights} cfg db id (target : BlockHeight) :
  wf_tree cfg db ->
  match gen_block_index_getter cfg db id with
  | None => block_index_ancestor_getter cfg db (AncestorGetterStartingPoint.FromBlockId id) target =
              Err (GetAncestorError.StartingPointNotFound id)
  | Some g =>
      block_index_ancestor_getter cfg db (AncestorGetterStartingPoint.FromBlockId id) target =
      block_index_ancestor_getter cfg db (AncestorGetterStartingPoint.FromBlockIndex g) target /\
      if ival target <=? ival (gen_block_height g) then
        exists a, block_index_ancestor_getter cfg db (AncestorGetterStartingPoint.FromBlockIndex g) target = Ok a /\
          follow cfg db (Z.to_nat (ival (gen_block_height g) - ival target)) g = Some a /\
          gen_block_height a = target
      else block_index_ancestor_getter cfg db (AncestorGetterStartingPoint.FromBlockIndex g) target =
             Err (GetAncestorError.InvalidAncestorHeight (gen_block_height g) target)
  end.
Proof.
  intros Hwf. destruct (gen_block_index_getter cfg db id) as [g|] eqn:Hg.
  - split; [unfold block_index_ancestor_getter; by rewrite Hg|].
    destruct (Z.leb_spec (ival target) (ival (gen_block_height g))) as [Hle|Hlt].
    + destruct (getter_linked cfg db Hwf id g Hg) as [Hl _].
      destruct (ancestor_getter_spec cfg db Hwf g target Hl Hle) as (a & Ha & Hf & _ & Hh & _). eauto.
    + unfold block_index_ancestor_getter. cbn [mbind result_bind].
      by replace (ival (gen_block_height g) <? ival target) with true by lia.
  - unfold block_index_ancestor_getter. by rewrite Hg.
Qed.

(** * A concrete tree

    Three blocks on the genesis, and a second block at height 2. *)

Module Witnesses.
#[export] Existing Instance numbered_keys.
Export ChainConfig.Example.

#[global] Program Instance flat_weights : TimeslotWeights := {| TIMESLOTS_WEIGHTS := replicate 1200 0 |}.
Next Obligation. apply length_replicate. Qed.
Next Obligation. apply Forall_replicate. done. Qed.

Definition index (id prev ancestor : BlockId) (n : Z) : BlockIndex :=
  mk_block_index id (with_no_signature (mk_header prev 0 0 (u64_lit (100 * n)) ConsensusNone)) ancestor (from_u64 4 n) (u64_lit n)
    (u64_lit (100 * n)) Amount.ZERO BlockStatus.new true.

Definition tree : gmap BlockId BlockIndex :=
  list_to_map [(1, index 1 0 0 1); (2, index 2 1 0 2); (3, index 3 2 1 3); (4, index 4 1 0 2)]%N.

Lemma tree_wf : wf_tree cfg tree.
Proof.
  intros id bi Hbi. apply elem_of_list_to_map_2 in Hbi.
  repeat (apply elem_of_cons in Hbi as [[= -> ->]|Hbi]); [..|by apply not_elem_of_nil in Hbi];
    (split; [done|]; split; [done|]; eexists; (split; [vm_compute; reflexivity|]); split;
     [vm_compute; reflexivity|vm_compute; reflexivity|apply (value_from_u64 3); unfold word; rewrite W_eq; lia| |
      vm_compute; reflexivity|vm_compute; done];
     exists Empty_set; eexists; split; [vm_compute; reflexivity|vm_compute; reflexivity]).
Qed.

Lemma ancestor_search_exact_witness :
  block_index_ancestor_getter cfg tree (AncestorGetterStartingPoint.FromBlockId 3%N) (u64_lit 1) =
    Ok (GenBlockIndex.Block (index 1 0 0 1)).
Proof.
  destruct (ancestor_search_exact cfg tree 3%N (u64_lit 1) tree_wf) as [-> (a & -> & Hf & _)].
  vm_compute in Hf. by injection Hf as <-.
Defined.
End Witnesses.
