(* ===== verification/EffectiveBalance.v ===== *)
(** * The effective balance of a stake pool

    Models [consensus/src/pos/effective_pool_balance.rs]: how much of a pool's
    balance counts when a block is staked, given the pledge of its operator.
    The code works on [u128] and [Uint256] values with checked arithmetic; the
    formula it computes is on the integers.  The theorems show that for a final
    supply below [2^86] atoms the machine computation is the formula on every
    input, and what the formula promises: no pool counts for more than a
    thousandth of the final supply or for less than the share that the pledge
    influence leaves, and delegating to a pool never makes it count for less. *)
From S2P Require Import Prelude Amount Uint ChainTypes ChainConfig.

(** [Rational<u128>]. *)
Record Rational := Rational_new { numer : u128; denom : u128 }.

Definition K : u128 := @mk_bint 0 u128_MAX 1000 eq_refl.
Definition POOL_SATURATION_LEVEL : Rational := Rational_new (@mk_bint 0 u128_MAX 1 eq_refl) K.
Definition DEFAULT_PLEDGE_INFLUENCE_PARAMETER : Rational :=
  Rational_new (@mk_bint 0 u128_MAX 75375728 eq_refl) (@mk_bint 0 u128_MAX 1000000000 eq_refl).

Module EffectivePoolBalanceError.
Inductive EffectivePoolBalanceError :=
  | ArithmeticError
  | FinalSupplyZero
  | PoolBalanceGreaterThanSupply (balance supply : Amount)
  | PoolPledgeGreaterThanBalance (pledge balance : Amount)
  | AdjustmentMustFitIntoAmount.
End EffectivePoolBalanceError.
Abbreviation EffectivePoolBalanceError := EffectivePoolBalanceError.EffectivePoolBalanceError.
Import EffectivePoolBalanceError.

(** [std::cmp::min]. *)
Definition u128_min (a b : u128) : u128 := if Amount.leb a b then a else b.

(** [.ok_or(EffectivePoolBalanceError::ArithmeticError)?]. *)
Definition or_arithmetic_error {A} (m : result EffectivePoolBalanceError (option A)) :
    result EffectivePoolBalanceError A :=
  o ← m; ok_or ArithmeticError o.

Definition effective_pool_balance_impl (pledge_amount pool_balance final_supply : Amount)
    (pool_saturation_level pledge_influence : Rational) : result EffectivePoolBalanceError Amount :=
  _ ← ensure (Amount.ltb Amount.ZERO final_supply) FinalSupplyZero;
  _ ← ensure (Amount.ltb pool_balance final_supply) (PoolBalanceGreaterThanSupply pool_balance final_supply);
  _ ← ensure (Amount.leb pledge_amount pool_balance) (PoolPledgeGreaterThanBalance pledge_amount pool_balance);
  z ← ok_or ArithmeticError
        (v ← Amount.mul final_supply (numer pool_saturation_level); Amount.div v (denom pool_saturation_level));
  let a := pledge_influence in
  let sigma128 := u128_min pool_balance z in
  let sigma := from_u128 4 sigma128 in
  let s := from_u128 4 (u128_min pledge_amount z) in
  let z := from_u128 4 z in
  z_squared ← or_arithmetic_error (checked_mul z z);
  (* term1 = s (z - sigma) *)
  v ← ok_or ArithmeticError (checked_sub z sigma);
  term1 ← or_arithmetic_error (checked_mul v s);
  (* term2 = s (z sigma - term1) *)
  v ← or_arithmetic_error (checked_mul z sigma);
  v ← ok_or ArithmeticError (checked_sub v term1);
  term2 ← or_arithmetic_error (checked_mul v s);
  (* an (sigma z z - term2) *)
  v ← or_arithmetic_error (checked_mul sigma z_squared);
  v ← ok_or ArithmeticError (checked_sub v term2);
  adjustment_numerator ← or_arithmetic_error (checked_mul v (from_u128 4 (numer a)));
  an_ad ← ok_or ArithmeticError (Amount.add (numer a) (denom a));
  v ← or_arithmetic_error (checked_div adjustment_numerator (from_u128 4 an_ad));
  v ← or_arithmetic_error (checked_div v z_squared);
  adjustment ← try_into_u128 v;
  adjustment ← ok_or AdjustmentMustFitIntoAmount adjustment;
  effective_balance ← ok_or ArithmeticError (Amount.sub sigma128 adjustment);
  _ ← assert_true (Amount.leb effective_balance sigma128);
  Ok effective_balance.

Definition effective_pool_balance (pledge_amount pool_balance final_supply : Amount) :
    result EffectivePoolBalanceError Amount :=
  effective_pool_balance_impl pledge_amount pool_balance final_supply POOL_SATURATION_LEVEL
    DEFAULT_PLEDGE_INFLUENCE_PARAMETER.

(** * The formula *)

(** What is taken off the balance [sigma] of a pool with pledge [s], the size
    of a saturated pool being [z] and the pledge influence [an / ad]. *)
Definition shortfall (z sigma s : Z) : Z := sigma * (z * z) - s * (z * sigma - s * (z - sigma)).
Definition adjustment (an ad z sigma s : Z) : Z := an * shortfall z sigma s / ((an + ad) * (z * z)).

(** The effective balance for a pledge [p], a balance [b] and a supply [f]. *)
Definition saturation (f : Z) : Z := f / 1000.
Definition effective (p b f : Z) : Z :=
  let z := saturation f in
  let sigma := Z.min b z in
  sigma - adjustment 75375728 1000000000 z sigma (Z.min p z).

(** The outcome for every input. *)
Definition effective_outcome (p b f : Amount) (r : result EffectivePoolBalanceError Amount) : Prop :=
  if ival f =? 0 then r = Err FinalSupplyZero
  else if ival f <=? ival b then r = Err (PoolBalanceGreaterThanSupply b f)
  else if ival b <? ival p then r = Err (PoolPledgeGreaterThanBalance p b)
  else if ival f <? 1000 then r = Err ArithmeticError
  else exists e, r = Ok e /\ ival e = effective (ival p) (ival b) (ival f).

(** * Properties of the formula *)

Section formula.
Context (z sigma s : Z) (Hs : 0 <= s <= sigma) (Hz : sigma <= z).

Lemma pledge_term_nonneg : 0 <= z * sigma - s * (z - sigma) <= z * sigma.
Proof. nia. Qed.

Lemma shortfall_range : 0 <= shortfall z sigma s <= sigma * (z * z).
Proof.
  unfold shortfall. pose proof pledge_term_nonneg as [H1 H2].
  assert (s * (z * sigma - s * (z - sigma)) <= s * (z * sigma)) by nia.
  assert (s * (z * sigma) <= z * (z * sigma)) by nia. nia.
Qed.

Lemma shortfall_saturated : s = z -> shortfall z sigma s = 0.
Proof. intros ->. unfold shortfall. assert (sigma = z) as -> by lia. lia. Qed.

Context (an ad : Z) (Han : 0 <= an) (Had : 0 < ad) (Hpos : 0 < z).

Lemma adjustment_range : 0 <= adjustment an ad z sigma s /\ (an + ad) * adjustment an ad z sigma s <= an * sigma.
Proof.
  unfold adjustment. pose proof shortfall_range as [H1 H2].
  assert (0 < (an + ad) * (z * z)) as Hd by nia. split; [apply Z.div_pos; nia|].
  assert (an * shortfall z sigma s <= (z * z) * (an * sigma)) as Hle by nia.
  pose proof (Z.mul_div_le (an * shortfall z sigma s) ((an + ad) * (z * z)) Hd) as Hq.
  set (q := _ / _) in *. nia.
Qed.
End formula.

Lemma shortfall_growth z sigma sigma' s : 0 <= s <= sigma -> sigma <= sigma' <= z ->
  shortfall z sigma' s <= shortfall z sigma s + (sigma' - sigma) * (z * z).
Proof.
  intros Hs Hz. unfold shortfall.
  assert (0 <= (sigma' - sigma) * (s * z + s * s)) by (apply Z.mul_nonneg_nonneg; nia). lia.
Qed.

(** A larger balance counts for at least as much: what is taken off grows by
    at most what is added. *)
Lemma adjustment_growth an ad z sigma sigma' s :
  0 <= an -> 0 < ad -> 0 < z -> 0 <= s <= sigma -> sigma <= sigma' <= z ->
  adjustment an ad z sigma' s <= adjustment an ad z sigma s + (sigma' - sigma).
Proof.
  intros Han Had Hz Hs Hle. unfold adjustment. pose proof (shortfall_growth z sigma sigma' s Hs Hle) as Hg.
  assert (0 < (an + ad) * (z * z)) as Hd by nia. rewrite <- Z.div_add by lia. apply Z.div_le_mono; [done|].
  assert (0 <= ad * ((sigma' - sigma) * (z * z))) by nia. nia.
Qed.

(** * The machine computation is the formula *)

Lemma u128_min_value a b : ival (u128_min a b) = Z.min (ival a) (ival b).
Proof. unfold u128_min, Amount.leb. destruct (Z.leb_spec (ival a) (ival b)); lia. Qed.

Lemma bind_arith {A B} (m : result EffectivePoolBalanceError (option A)) a (k : A -> result _ B) :
  m = Ok (Some a) -> (or_arithmetic_error m ≫= k) = k a.
Proof. by intros ->. Qed.

Lemma bind_ok_or {A B} (o : option A) e a (k : A -> result EffectivePoolBalanceError B) :
  o = Some a -> (ok_or e o ≫= k) = k a.
Proof. by intros ->. Qed.

(** One checked operation whose result fits: [fits H Hr Hv] runs it. *)
Ltac run_checked :=
  match goal with
  | |- context [or_arithmetic_error (checked_mul ?u ?v) ≫= _] =>
      let r := fresh "r" in let Hr := fresh "Hr" in let Hw := fresh "Hw" in let Hv := fresh "Hv" in
      destruct (@mul_fits EffectivePoolBalanceError 3 u v) as (r & Hr & Hw & Hv);
        [done|done| |rewrite (bind_arith _ _ _ Hr); clear Hr]
  | |- context [ok_or _ (checked_sub ?u ?v) ≫= _] =>
      let r := fresh "r" in let Hr := fresh "Hr" in let Hw := fresh "Hw" in let Hv := fresh "Hv" in
      destruct (sub_fits 4 u v) as (r & Hr & Hw & Hv);
        [done|done| |rewrite (bind_ok_or _ _ _ _ Hr); clear Hr]
  | |- context [or_arithmetic_error (checked_div ?u ?v) ≫= _] =>
      let r := fresh "r" in let Hr := fresh "Hr" in let Hw := fresh "Hw" in let Hv := fresh "Hv" in
      destruct (@div_runs EffectivePoolBalanceError 3 u v) as (r & Hr & Hw & Hv);
        [done|done| |rewrite (bind_arith _ _ _ Hr); clear Hr]
  end.

(** The computation once the inputs are accepted, for a saturation level [z]
    whose cube leaves room for the influence parameter. *)
Section run.
Context (p b f z : Amount) (level a : Rational).
Context (Hf : 0 < ival f) (Hb : ival b < ival f) (Hp : ival p <= ival b).
Context (Hlevel : (v ← Amount.mul f (numer level); Amount.div v (denom level)) = Some z).
Context (Hroom : (ival (numer a) + 1) * (ival z * ival z * ival z) < 2 ^ 256).
Context (Had : 0 < ival (denom a)) (Hsum : ival (numer a) + ival (denom a) <= u128_MAX).

Lemma effective_pool_balance_impl_spec :
  if ival z =? 0 then effective_pool_balance_impl p b f level a = Err ArithmeticError
  else exists e, effective_pool_balance_impl p b f level a = Ok e /\
    ival e = Z.min (ival b) (ival z)
             - adjustment (ival (numer a)) (ival (denom a)) (ival z) (Z.min (ival b) (ival z)) (Z.min (ival p) (ival z)).
Proof.
  unfold effective_pool_balance_impl.
  rewrite (proj2 (Amount_ltb_lt Amount.ZERO f)), (proj2 (Amount_ltb_lt b f)), (proj2 (Amount_leb_le p b))
    by (rewrite ?ival_ZERO; lia).
  cbn [ensure mbind result_bind].
  rewrite (bind_ok_or _ _ _ _ Hlevel). cbv zeta.
  pose proof (u128_min_value b z) as Vb. pose proof (u128_min_value p z) as Vp.
  set (si := u128_min b z) in *. set (s := u128_min p z) in *. rewrite <- Vb, <- Vp.
  assert (ival s <= ival si <= ival z) as [Hs Hz] by lia. clear Vb Vp Hlevel Hf Hb Hp.
  pose proof (bint_range si) as Rsi. pose proof (bint_range s) as Rs. pose proof (bint_range (numer a)) as Ra.
  pose proof (shortfall_range (ival z) (ival si) (ival s) ltac:(lia) Hz) as Rsf.
  pose proof (pledge_term_nonneg (ival z) (ival si) (ival s) ltac:(lia) Hz) as Rt.
  assert (0 <= ival z * ival z <= ival z * ival z * ival z \/ ival z * ival z = 0) as Hsq by nia.
  assert (ival z * ival z * ival z < 2 ^ 256) as Hcube by nia.
  destruct (value_from_u128 2 z) as [Wz Vz]. destruct (value_from_u128 2 si) as [Wsi Vsi].
  destruct (value_from_u128 2 s) as [Ws Vs]. destruct (value_from_u128 2 (numer a)) as [Wa Va].
  run_checked; [rewrite Vz, W4; lia|].
  run_checked; [lia|].
  run_checked; [rewrite Hv0, Vz, Vsi, Vs, W4; nia|].
  run_checked; [rewrite Vz, Vsi, W4; nia|].
  run_checked; [rewrite Hv1, Hv0, Hv2, Vz, Vsi, Vs; lia|].
  rewrite Hv1, Hv0, Hv2, Vz, Vsi, Vs in Hv3. rewrite (Z.mul_comm (_ - _)) in Hv3.
  run_checked; [rewrite Hv3, Vs, W4; nia|]. rewrite Hv3, Vs in Hv4.
  run_checked; [rewrite Hv, Vz, Vsi, W4; nia|]. rewrite Hv, Vz, Vsi in Hv5.
  run_checked; [unfold shortfall in Rsf; lia|]. rewrite Hv4, Hv5, (Z.mul_comm (_ - _) (ival s)) in Hv6.
  fold (shortfall (ival z) (ival si) (ival s)) in Hv6.
  assert (shortfall (ival z) (ival si) (ival s) <= ival z * ival z * ival z) as Hsf by nia.
  run_checked; [rewrite Hv6, Va, W4; nia|]. rewrite Hv6, Va in Hv7.
  destruct (bint_of_Z_is_Some (lo := 0) (hi := u128_MAX) (ival (numer a) + ival (denom a))) as (aa & Haa & Vaa); [lia|].
  rewrite (bind_ok_or _ _ _ _ Haa). destruct (value_from_u128 2 aa) as [Waa Vaa'].
  run_checked; [lia|]. rewrite Hv7, Vaa', Vaa in Hv8.
  destruct (Z.eqb_spec (ival z) 0) as [Hz0|Hz0].
  - destruct (@checked_div_value EffectivePoolBalanceError 3 r8 r) as ([q|] & Hr & Hq); [done|done| |by rewrite Hr].
    rewrite Hv, Vz, Hz0 in Hq. lia.
  - pose proof (adjustment_range (ival z) (ival si) (ival s) ltac:(lia) Hz (ival (numer a)) (ival (denom a))
      ltac:(lia) Had ltac:(lia)) as [Ha0 Ha1].
    run_checked; [rewrite Hv, Vz; nia|].
    rewrite Hv8, Hv, Vz, Z.div_div, (Z.mul_comm (shortfall _ _ _)) in Hv9 by nia.
    fold (adjustment (ival (numer a)) (ival (denom a)) (ival z) (ival si) (ival s)) in Hv9.
    set (adj := adjustment _ _ _ _ _) in *.
    destruct (@into_u128_fits EffectivePoolBalanceError r9 Hw9) as (x & Hx & Vx); [nia|].
    rewrite Hx. cbn [mbind result_bind ok_or].
    destruct (bint_of_Z_is_Some (lo := 0) (hi := u128_MAX) (ival si - ival x)) as (e & He & Ve); [nia|].
    rewrite (bind_ok_or _ _ _ _ He), (proj2 (Amount_leb_le e si)) by lia. exists e. split; [done|lia].
Qed.
End run.

(** * Every input *)

Lemma effective_pool_balance_outcome (p b f : Amount) : ival f < 2 ^ 86 ->
  effective_outcome p b f (effective_pool_balance p b f).
Proof.
  intros Hf. unfold effective_outcome, effective_pool_balance.
  destruct (Z.eqb_spec (ival f) 0) as [Hf0|Hf0].
  { unfold effective_pool_balance_impl, Amount.ltb. rewrite ival_ZERO. by destruct (Z.ltb_spec 0 (ival f)); [lia|]. }
  pose proof (bint_range f) as Rf.
  destruct (Z.leb_spec (ival f) (ival b)) as [Hb|Hb].
  { unfold effective_pool_balance_impl, Amount.ltb. rewrite ival_ZERO.
    destruct (Z.ltb_spec 0 (ival f)), (Z.ltb_spec (ival b) (ival f)); lia || done. }
  destruct (Z.ltb_spec (ival b) (ival p)) as [Hp|Hp].
  { unfold effective_pool_balance_impl, Amount.ltb, Amount.leb. rewrite ival_ZERO.
    destruct (Z.ltb_spec 0 (ival f)), (Z.ltb_spec (ival b) (ival f)), (Z.leb_spec (ival p) (ival b)); lia || done. }
  destruct (bint_of_Z_is_Some (lo := 0) (hi := u128_MAX) (ival f / 1000)) as (z & Hz & Vz).
  { split; [apply Z.div_pos; lia|]. apply Z.div_le_upper_bound; lia. }
  assert ((v ← Amount.mul f (numer POOL_SATURATION_LEVEL); Amount.div v (denom POOL_SATURATION_LEVEL)) = Some z) as Hlevel.
  { unfold Amount.mul. cbn [numer ival POOL_SATURATION_LEVEL]. by rewrite Z.mul_1_r, bint_of_Z_ival. }
  assert (0 <= ival z < 2 ^ 86 / 1000 + 1) as Rz.
  { rewrite Vz. split; [apply Z.div_pos; lia|]. assert (ival f / 1000 <= 2 ^ 86 / 1000) by (apply Z.div_le_mono; lia). lia. }
  pose proof (effective_pool_balance_impl_spec p b f z POOL_SATURATION_LEVEL DEFAULT_PLEDGE_INFLUENCE_PARAMETER
    ltac:(lia) Hb Hp Hlevel) as Hrun.
  cbn [numer denom ival DEFAULT_PLEDGE_INFLUENCE_PARAMETER] in Hrun. rewrite Vz in *.
  assert (ival f / 1000 * (ival f / 1000) * (ival f / 1000) <= 2 ^ 229) as Hcube.
  { assert (2 ^ 86 / 1000 = 77371252455336267181195) as Hc by reflexivity. rewrite Hc in Rz.
    set (y := ival f / 1000) in *. assert (y * y <= 77371252455336267181195 * 77371252455336267181195) by nia.
    assert (77371252455336267181195 * 77371252455336267181195 * 77371252455336267181195 <= 2 ^ 229) by (compute; discriminate).
    nia. }
  specialize (Hrun ltac:(lia) ltac:(lia) ltac:(compute; discriminate)).
  assert ((ival f / 1000 =? 0) = (ival f <? 1000)) as <-; [|done].
  destruct (Z.ltb_spec (ival f) 1000); [by rewrite Z.div_small by lia|].
  apply Z.eqb_neq. assert (1 <= ival f / 1000) by (apply Z.div_le_lower_bound; lia). lia.
Qed.

Lemma effective_pool_balance_Ok (p b f e : Amount) : ival f < 2 ^ 86 ->
  effective_pool_balance p b f = Ok e ->
  0 <= ival p <= ival b /\ ival b < ival f /\ 1 <= saturation (ival f) /\
  ival e = effective (ival p) (ival b) (ival f).
Proof.
  intros Hf He. pose proof (effective_pool_balance_outcome p b f Hf) as Hx. rewrite He in Hx.
  unfold effective_outcome in Hx. pose proof (bint_range p).
  destruct (Z.eqb_spec (ival f) 0); [done|]. destruct (Z.leb_spec (ival f) (ival b)); [done|].
  destruct (Z.ltb_spec (ival b) (ival p)); [done|]. destruct (Z.ltb_spec (ival f) 1000); [done|].
  destruct Hx as (e' & [= <-] & Hv). assert (1 <= saturation (ival f)) by (apply Z.div_le_lower_bound; lia). lia.
Qed.

(** * Theorems *)

(** C27: For a final supply below 2^86 atoms, the computation of the effective
    pool balance in checked 128-bit and 256-bit arithmetic never panics and
    returns what the formula on the integers says: the balance
    capped at a thousandth of the supply, less the adjustment for the pledge,
    rounded down; or the error of the first condition that fails, where a
    supply of less than a thousand atoms is an arithmetic error.  The claim is for a
    pool with a pledge and a balance other than the whole supply.  Without a pledge
    the formula takes the full share of the influence off the balance, where a comment
    of the code says that it takes off nothing ([no_pledge_is_not_free]), and a balance
    of the whole supply is refused like a greater one, where the message of the error
    says greater ([balance_of_all]). *)
Theorem effective_balance_exact (p b f : Amount) : ival f < 2 ^ 86 -> 0 < ival p -> ival b <> ival f ->
  effective_outcome p b f (effective_pool_balance p b f).
Proof. intros Hf _ _. by apply effective_pool_balance_outcome. Qed.

(** What an effective balance is worth: it is at most the balance and at
    most a thousandth of the final supply, at least the share of the capped
    balance that the pledge influence leaves (1000000000 of 1075375728 parts),
    a pool whose pledge alone saturates it counts for the full thousandth, and
    a pool with a larger balance and the same pledge never counts for less. *)
Theorem effective_balance_bounds (p b b' f e : Amount) :
  ival f < 2 ^ 86 -> effective_pool_balance p b f = Ok e ->
  ival e <= Z.min (ival b) (ival f / 1000) /\
  1000000000 * Z.min (ival b) (ival f / 1000) <= 1075375728 * ival e /\
  (ival f / 1000 <= ival p -> ival e = ival f / 1000) /\
  (ival b <= ival b' < ival f -> exists e', effective_pool_balance p b' f = Ok e' /\ ival e <= ival e').
Proof.
  intros Hf He. destruct (effective_pool_balance_Ok p b f e Hf He) as (Hp & Hb & Hz & Ve).
  fold (saturation (ival f)). unfold effective in Ve. set (z := saturation (ival f)) in *.
  pose proof (adjustment_range z (Z.min (ival b) z) (Z.min (ival p) z) ltac:(lia) ltac:(lia) 75375728 1000000000
    ltac:(lia) ltac:(lia) ltac:(lia)) as [H0 H1].
  repeat split; [lia|lia| |].
  - intros Hsat. rewrite Ve. unfold adjustment. rewrite shortfall_saturated by lia.
    rewrite Z.mul_0_r, Z.div_0_l by nia. lia.
  - intros Hb'. pose proof (effective_pool_balance_outcome p b' f Hf) as Hx. unfold effective_outcome in Hx.
    destruct (Z.eqb_spec (ival f) 0); [lia|]. destruct (Z.leb_spec (ival f) (ival b')); [lia|].
    destruct (Z.ltb_spec (ival b') (ival p)); [lia|]. destruct (Z.ltb_spec (ival f) 1000) as [Hsmall|].
    { unfold z, saturation in Hz. rewrite Z.div_small in Hz by (pose proof (bint_range f); lia). lia. }
    destruct Hx as (e' & He' & Ve'). exists e'. split; [done|]. unfold effective in Ve'. fold z in Ve'.
    pose proof (adjustment_growth 75375728 1000000000 z (Z.min (ival b) z) (Z.min (ival b') z) (Z.min (ival p) z)
      ltac:(lia) ltac:(lia) ltac:(lia) ltac:(lia) ltac:(lia)). lia.
Qed.

Module Witnesses.
Definition supply : Amount := Amount.lit (600000000 * 10 ^ 11).
Definition pledge : Amount := Amount.lit (40000 * 10 ^ 11).
Definition balance : Amount := Amount.lit (200000 * 10 ^ 11).
Definition larger : Amount := Amount.lit (900000 * 10 ^ 11).

Lemma effective_balance_exact_witness :
  ival supply < 2 ^ 86 /\ effective_outcome pledge balance supply (effective_pool_balance pledge balance supply).
Proof.
  split; [reflexivity|]. apply (effective_balance_exact pledge balance supply); [reflexivity|reflexivity|vm_compute; discriminate].
Defined.

(** The pledge of 40000 coins in a pool of 200000: the value that the code's
    own test expects. *)
Example pool_of_200000 : effective_pool_balance pledge balance supply = Ok (Amount.lit 18679146570104142).
Proof. vm_compute. reflexivity. Qed.

(** Without a pledge the second term of the formula is not zero: the full share
    of the influence is taken off the balance. *)
Example no_pledge_is_not_free : exists e, effective_pool_balance Amount.ZERO balance supply = Ok e /\
  ival e < ival balance.
Proof. eexists. split; [vm_compute; reflexivity|reflexivity]. Qed.

(** The balance of a pool may not be the whole supply, though the error says
    that it must not be greater. *)
Example balance_of_all : effective_pool_balance pledge supply supply = Err (PoolBalanceGreaterThanSupply supply supply).
Proof. reflexivity. Qed.

Lemma effective_balance_bounds_witness : exists e e',
  effective_pool_balance pledge balance supply = Ok e /\ effective_pool_balance pledge larger supply = Ok e' /\
  ival e <= ival e' /\ ival e <= ival supply / 1000.
Proof.
  destruct (effective_pool_balance pledge balance supply) as [e| |] eqn:He; [|vm_compute in He; discriminate..].
  destruct (effective_balance_bounds pledge balance larger supply e) as (H1 & _ & _ & H4); [reflexivity|done|].
  destruct H4 as (e' & He' & Hle); [vm_compute; split; [discriminate|reflexivity]|].
  exists e, e'. split; [reflexivity|]. split; [done|]. split; [done|]. lia.
Defined.
End Witnesses.
