(* ===== verification/ConsensusPoW.v ===== *)
(** * Proof of work

    Models [consensus/src/pow]: the target that a block must meet, its
    adjustment every 2016 blocks, the check of a header and the search for a
    nonce.  Arithmetic on [u64] panics on overflow, as the crate is built with
    overflow checks.  The index of blocks behind a [BlockIndexHandle] is the map
    of BlockTree.v, whose reads do not fail.  The theorems show what the
    adjustment computes for a tree of blocks, within which bounds, and when it
    panics; which headers are accepted; and that mining finds the first nonce
    that is accepted. *)
From S2P Require Import Prelude Amount Uint ChainTypes ChainConfig Compact BlockTree.

(** [ChainstateError] of the consensus crate: the one variant that the
    modelled code makes; the message is left out. *)
Inductive CrateChainstateError := FailedToObtainAncestor (id : BlockId) (height : BlockHeight).

Module ConsensusPoWError.
Inductive ConsensusPoWError :=
  | ChainstateError (e : CrateChainstateError)
  | InvalidPoW (id : BlockId)
  | PrevBlockNotFound (id : BlockId)
  | NoPowDataInPreviousBlock
  | DecodingBitsFailed (bits : Compact)
  | PreviousBitsDecodingFailed (bits : Compact)
  | InvalidTargetBits (bits required : Compact)
  | PoSInputDataProvided
  | NoInputDataProvided.
End ConsensusPoWError.
Abbreviation ConsensusPoWError := ConsensusPoWError.ConsensusPoWError.
Import ConsensusPoWError.

(** [Uint256] comparison. *)
Definition uint_leb (a b : uint) : bool := geb b a.

(** [num::clamp]. *)
Definition clamp (input min max : Z) : Z := if input <? min then min else if max <? input then max else input.

(** ** Constants of the adjustment ([pow/mod.rs]) *)

(** The timespan is a [NonZeroU64]; none of the products overflows. *)
Definition target_timespan_in_secs : Z := target_timespan.
Definition max_target_timespan_in_secs : Z := target_timespan_in_secs * max_retarget_factor.
Definition min_target_timespan_in_secs : Z := target_timespan_in_secs / max_retarget_factor.
Definition difficulty_adjustment_interval : Z := target_timespan_in_secs / target_spacing.

(** ** Helpers ([pow/helpers.rs]) *)

Definition due_for_retarget (interval : Z) (block_height : BlockHeight) : bool := ival block_height mod interval =? 0.

(** [special_rules::block_production_stalled]; the sum may overflow. *)
Definition block_production_stalled {E} (target_spacing_in_secs new_block_time prev_block_time : Z) : result E bool :=
  deadline ← expect (bint_of_Z (lo := 0) (hi := 2 ^ 64 - 1) (prev_block_time + target_spacing_in_secs * 2));
  Ok (ival deadline <? new_block_time).

Definition calculate_new_target (actual_timespan_of_last_interval target_timespan : Z) (old_target : Compact)
    (difficulty_limit : uint) : result ConsensusPoWError Compact :=
  let actual_timespan := from_u64 4 actual_timespan_of_last_interval in
  let target_timespan := from_u64 4 target_timespan in
  old ← map_err (fun _ => PreviousBitsDecodingFailed old_target) (try_from_compact old_target);
  new_target ← checked_mul old actual_timespan;
  let new_target := default (MAX 4) new_target in
  new_target ← checked_div new_target target_timespan;
  new_target ← expect new_target;
  let new_target := if uint_leb new_target difficulty_limit then new_target else difficulty_limit in
  compact_from new_target.

Section pow.
Context `{CryptoTypes}.
Implicit Types (get_ancestor : BlockIndex -> BlockHeight -> result CrateChainstateError GenBlockIndex).
Implicit Types (prev_block_index : BlockIndex).

Definition get_starting_block_time (interval : Z) (block_index : BlockIndex) get_ancestor :
    result ConsensusPoWError BlockTimestamp :=
  retarget_height ← expect (bint_of_Z (ival (bi_block_height block_index) - (interval - 1)));
  retarget_block_index ← map_err ChainstateError (get_ancestor block_index retarget_height);
  Ok (gen_block_timestamp retarget_block_index).

(** ** The required work ([pow/work.rs]) *)

(** The subtraction panics when the time went backwards. *)
Definition actual_timespan {E} (prev_block_blocktime retarget_blocktime : Z) : result E Z :=
  timespan ← expect (bint_of_Z (lo := 0) (hi := 2 ^ 64 - 1) (prev_block_blocktime - retarget_blocktime));
  Ok (clamp (ival timespan) min_target_timespan_in_secs max_target_timespan_in_secs).

Section required.
Context (config : PoWChainConfig).

Definition next_work_required (retarget_block_time : BlockTimestamp) prev_block_index (prev_block_bits : Compact) :
    result ConsensusPoWError Compact :=
  actual_timespan_of_last_interval ←
    actual_timespan (ival (bi_block_timestamp prev_block_index)) (ival retarget_block_time);
  calculate_new_target actual_timespan_of_last_interval target_timespan_in_secs prev_block_bits (limit config).

Definition next_work_required_for_min_difficulty (new_block_time : BlockTimestamp) prev_block_index
    (prev_block_bits : Compact) : result ConsensusPoWError Compact :=
  stalled ← block_production_stalled target_spacing (ival new_block_time)
              (ival (bi_block_timestamp prev_block_index));
  if (stalled : bool) then compact_from (limit config) else Ok prev_block_bits.

(** The assertion on the kind of the previous block is in debug builds only. *)
Definition get_work_required prev_block_index (new_block_time : BlockTimestamp) get_ancestor :
    result ConsensusPoWError Compact :=
  match bi_consensus_data prev_block_index with
  | ConsensusNone | ConsensusPoS _ => Err NoPowDataInPreviousBlock
  | ConsensusPoW pow_data =>
      let prev_block_bits := bits pow_data in
      if no_retargeting config then Ok prev_block_bits
      else
        current_height ← BlockHeight.next_height (bi_block_height prev_block_index);
        if negb (due_for_retarget difficulty_adjustment_interval current_height) then
          if allow_min_difficulty_blocks config then
            next_work_required_for_min_difficulty new_block_time prev_block_index prev_block_bits
          else Ok prev_block_bits
        else
          retarget_block_time ← get_starting_block_time difficulty_adjustment_interval prev_block_index get_ancestor;
          next_work_required retarget_block_time prev_block_index prev_block_bits
  end.
End required.

Definition check_proof_of_work (block_hash : H256) (block_bits : Compact) : result ConsensusPoWError bool :=
  target ← map_err (fun _ => DecodingBitsFailed block_bits) (try_from_compact block_bits);
  Ok (uint_leb (hash_to_uint block_hash) target).

(** The target for the block after [prev_gen_block_index]. *)
Definition calculate_work_required (chain_config : ChainConfig) (prev_gen_block_index : GenBlockIndex)
    (block_timestamp : BlockTimestamp) (pow_status : PoWStatus) get_ancestor : result ConsensusPoWError Compact :=
  match pow_status with
  | PoWStatus.Threshold initial_difficulty => Ok initial_difficulty
  | PoWStatus.Ongoing =>
      match prev_gen_block_index with
      | GenBlockIndex.Genesis _ _ => compact_from (limit (proof_of_work_config chain_config))
      | GenBlockIndex.Block prev_block_index =>
          get_work_required (proof_of_work_config chain_config) prev_block_index block_timestamp get_ancestor
      end
  end.

(** ** The check of a header *)

Section check.
Context `{!BlockHashes} (chain_config : ChainConfig) (block_index_handle : gmap BlockId BlockIndex).

(** [get_ancestor_from_block_index_handle]. *)
Definition get_ancestor_from_block_index_handle (block_index : BlockIndex) (ancestor_height : BlockHeight) :
    result CrateChainstateError GenBlockIndex :=
  map_err (fun _ => FailedToObtainAncestor (bi_block_id block_index) ancestor_height)
    (block_index_ancestor_getter chain_config block_index_handle
       (AncestorGetterStartingPoint.FromBlockIndex (GenBlockIndex.Block block_index)) ancestor_height).

Definition check_pow_consensus (header : BlockHeader) (block_pow_data : PoWData) (pow_status : PoWStatus) :
    result ConsensusPoWError unit :=
  work_required ←
    match pow_status with
    | PoWStatus.Threshold initial_difficulty => Ok initial_difficulty
    | PoWStatus.Ongoing =>
        match classify chain_config (hdr_prev_block_id header) with
        | None => compact_from (limit (proof_of_work_config chain_config))
        | Some prev_id =>
            prev_block_index ← ok_or (PrevBlockNotFound prev_id) (block_index_handle !! prev_id);
            get_work_required (proof_of_work_config chain_config) prev_block_index (hdr_timestamp header)
              get_ancestor_from_block_index_handle
        end
    end;
  _ ← ensure (bool_decide (work_required = bits block_pow_data))
        (InvalidTargetBits (bits block_pow_data) work_required);
  ok ← check_proof_of_work (header_id header) work_required;
  if (ok : bool) then Ok tt else Err (InvalidPoW (header_id header)).
End check.

(** ** Mining *)

Inductive MiningResult := MiningSuccess | MiningFailed | MiningStopped.

Definition update_consensus_data (data : ConsensusData) (h : BlockHeader) : BlockHeader :=
  mk_header (hdr_prev_block_id h) (hdr_tx_merkle_root h) (hdr_witness_merkle_root h) (hdr_timestamp h) data.
Definition update_timestamp (t : BlockTimestamp) (h : BlockHeader) : BlockHeader :=
  mk_header (hdr_prev_block_id h) (hdr_tx_merkle_root h) (hdr_witness_merkle_root h) t (hdr_consensus_data h).

Section mine.
Context `{!BlockHashes} (target_bits : Compact) (stop_flag : u128 -> bool).

(** The loop over the nonces from [nonce] on; [stop_flag] is what the flag
    reads after a nonce was tried. *)
Fixpoint mine_loop (count : nat) (nonce : u128) : ST BlockHeader ConsensusPoWError MiningResult :=
  match count with
  | O => mret MiningFailed
  | S count =>
      _ ← modify (update_consensus_data (ConsensusPoW {| bits := target_bits; nonce := nonce |}));
      block_header ← self;
      found ← lift (check_proof_of_work (header_id block_header) target_bits);
      if (found : bool) then mret MiningSuccess
      else if stop_flag nonce then mret MiningStopped
      else mine_loop count (default nonce (bint_of_Z (ival nonce + 1)))
  end.

Definition mine (max_nonce : u128) : ST BlockHeader ConsensusPoWError MiningResult :=
  mine_loop (Z.to_nat (ival max_nonce)) Amount.ZERO.
End mine.
End pow.

(** * Properties *)

(** ** The adjustment on the integers *)

(** The target after an interval that took [timespan] seconds, before it is
    rounded to the compact form. *)
Definition retarget (limit old timespan : Z) : Z :=
  Z.min limit
    (Z.min (old * clamp timespan min_target_timespan_in_secs max_target_timespan_in_secs) (2 ^ 256 - 1)
     / target_timespan_in_secs).

Lemma clamp_range x lo hi : lo <= hi -> lo <= clamp x lo hi <= hi.
Proof. intros. unfold clamp. destruct (Z.ltb_spec x lo), (Z.ltb_spec hi x); lia. Qed.

Lemma retarget_bounds limit old timespan : 0 <= limit -> 0 <= old ->
  0 <= retarget limit old timespan <= limit /\ retarget limit old timespan <= 4 * old /\
  (old <= limit -> limit * max_target_timespan_in_secs < 2 ^ 256 -> old / 4 <= retarget limit old timespan).
Proof.
  intros Hl Ho. unfold retarget.
  pose proof (clamp_range timespan min_target_timespan_in_secs max_target_timespan_in_secs ltac:(done)) as Hc.
  set (c := clamp _ _ _) in *. unfold min_target_timespan_in_secs, max_target_timespan_in_secs in *.
  change (target_timespan_in_secs / max_retarget_factor) with 302400 in *.
  change (target_timespan_in_secs * max_retarget_factor) with 4838400 in *.
  change target_timespan_in_secs with 1209600 in *.
  assert (0 <= Z.min (old * c) (2 ^ 256 - 1) <= old * c) as Hm by nia.
  assert (0 <= Z.min (old * c) (2 ^ 256 - 1) / 1209600) by (apply Z.div_pos; lia).
  assert (Z.min (old * c) (2 ^ 256 - 1) / 1209600 <= 4 * old).
  { apply Z.div_le_upper_bound; [lia|]. nia. }
  split; [lia|]. split; [lia|]. intros Hle Hroom. rewrite (Z.min_l (old * c)) by nia.
  apply Z.min_glb.
  - assert (old / 4 <= old) by (apply Z.div_le_upper_bound; lia). lia.
  - apply Z.div_le_lower_bound; [lia|]. pose proof (Z.mul_div_le old 4 ltac:(lia)). nia.
Qed.

Lemma uint_leb_value n u v : wf n u -> wf n v -> uint_leb u v = (value u <=? value v).
Proof. intros Hu Hv. unfold uint_leb. by apply (geb_value n). Qed.

Lemma try_from_compact_runs (c : Compact) :
  (exists u, try_from_compact c = Ok u /\ wf 4 u) \/ exists u, try_from_compact c = Err u.
Proof.
  destruct (try_from_compact_value c) as (u & Hu & _ & ->).
  destruct (_ || _); [right; by eexists|left; by exists u].
Qed.

(** The new target of an old one that decodes to [u]. *)
Lemma calculate_new_target_value timespan (old : Compact) u lim : try_from_compact old = Ok u -> wf 4 u -> wf 4 lim ->
  let actual := clamp timespan min_target_timespan_in_secs max_target_timespan_in_secs in
  exists c v, calculate_new_target actual target_timespan_in_secs old lim = Ok c /\ try_from_compact c = Ok v /\
    wf 4 v /\ value v = kept (retarget (value lim) (value u) timespan).
Proof.
  intros Hold Hu Hl actual. unfold calculate_new_target. rewrite Hold. cbn [map_err mbind result_bind].
  pose proof (clamp_range timespan min_target_timespan_in_secs max_target_timespan_in_secs ltac:(done)) as Hc.
  fold actual in Hc. assert (word actual) as Hwa.
  { assert (0 <= min_target_timespan_in_secs /\ max_target_timespan_in_secs < W) by done. unfold word. lia. }
  destruct (value_from_u64 3 actual Hwa) as [Wa Va].
  destruct (value_from_u64 3 target_timespan_in_secs) as [Wt Vt]; [done|].
  destruct (@checked_mul_value ConsensusPoWError 3 u _ Hu Wa) as (m & -> & Hm). cbn [mbind result_bind].
  assert (wf 4 (default (MAX 4) m) /\ value (default (MAX 4) m) = Z.min (value u * actual) (2 ^ 256 - 1)) as [Wm Vm].
  { rewrite Va, W4 in Hm. destruct m as [m|]; cbn [from_option]; unfold id.
    - destruct Hm as [Hwm Hvm]. pose proof (value_range 4 m Hwm) as Hr. rewrite W4 in Hr. split; [done|lia].
    - destruct (wf_MAX 4) as [? ->]. rewrite W4. split; [done|]. lia. }
  destruct (@div_runs ConsensusPoWError 3 _ _ Wm Wt) as (q & -> & Wq & Vq); [rewrite Vt; done|].
  rewrite Vm, Vt in Vq. cbn [mbind result_bind expect].
  set (new := if uint_leb q lim then q else lim).
  assert (wf 4 new /\ value new = retarget (value lim) (value u) timespan) as [Wn Vn].
  { unfold new, retarget. fold actual. rewrite (uint_leb_value 4), <- Vq by done.
    destruct (Z.leb_spec (value q) (value lim)); (split; [done|lia]). }
  destruct (@compact_keeps ConsensusPoWError new Wn) as (c & v & Hc' & Hv & Wv & Vv). rewrite <- Vn. by exists c, v.
Qed.

Lemma try_from_compact_wf (c : Compact) u : try_from_compact c = Ok u -> wf 4 u.
Proof. intros Hc. destruct (try_from_compact_runs c) as [(v & Hv & ?)|(v & Hv)]; rewrite Hc in Hv; naive_solver. Qed.

Section tree.
Context `{CryptoTypes} `{TimeslotWeights} (cfg : ChainConfig) (db : gmap BlockId BlockIndex) (Hwf : wf_tree cfg db).

Lemma handle_ancestor prev (h : BlockHeight) : linked cfg db prev -> ival h <= ival (bi_block_height prev) ->
  exists a, get_ancestor_from_block_index_handle cfg db prev h = Ok a /\
    follow cfg db (Z.to_nat (ival (bi_block_height prev) - ival h)) (GenBlockIndex.Block prev) = Some a.
Proof.
  intros Hl Hh. destruct (ancestor_getter_spec cfg db Hwf (GenBlockIndex.Block prev) h Hl Hh) as (a & Ha & Hf & _).
  exists a. unfold get_ancestor_from_block_index_handle. rewrite Ha. done.
Qed.

(** The adjustment panics when the time went backwards over the interval, and
    otherwise gives a target that decodes to the rounded number. *)
Lemma next_work_required_value config t prev (bs : Compact) u : try_from_compact bs = Ok u -> wf 4 (limit config) ->
  let span := ival (bi_block_timestamp prev) - ival t in
  if span <? 0 then next_work_required config t prev bs = Panic
  else exists c v, next_work_required config t prev bs = Ok c /\ try_from_compact c = Ok v /\ wf 4 v /\
         value v = kept (retarget (value (limit config)) (value u) span).
Proof.
  intros Hu Hl span. unfold next_work_required, actual_timespan. fold span.
  pose proof (bint_range (bi_block_timestamp prev)). pose proof (bint_range t).
  destruct (Z.ltb_spec span 0) as [Hneg|Hpos].
  - by rewrite (proj2 (bint_of_Z_None (lo := 0) (hi := 2 ^ 64 - 1) span)) by lia.
  - destruct (bint_of_Z_is_Some (lo := 0) (hi := 2 ^ 64 - 1) span) as (x & -> & Vx); [unfold span in *; lia|].
    cbn [expect mbind result_bind]. rewrite Vx. apply calculate_new_target_value; [done|by eapply try_from_compact_wf|done].
Qed.
End tree.

(** ** Accepted headers *)

Lemma check_proof_of_work_iff hash (bs : Compact) :
  check_proof_of_work hash bs = Ok true <->
  exists target, try_from_compact bs = Ok target /\ value (hash_to_uint hash) <= value target.
Proof.
  unfold check_proof_of_work.
  destruct (try_from_compact_runs bs) as [(u & -> & Hu)|(u & ->)]; cbn [map_err mbind result_bind]; [|naive_solver].
  rewrite (uint_leb_value 4) by (done || apply hash_to_uint_wf). split.
  - intros [= Hle%Z.leb_le]. by exists u.
  - intros (? & [= <-] & Hle). f_equal. by apply Z.leb_le.
Qed.

Lemma check_proof_of_work_runs hash (bs : Compact) :
  (exists b, check_proof_of_work hash bs = Ok b) \/
  check_proof_of_work hash bs = Err (DecodingBitsFailed bs) /\ forall u, try_from_compact bs <> Ok u.
Proof.
  unfold check_proof_of_work. destruct (try_from_compact_runs bs) as [(u & -> & Hu)|(u & ->)]; [left; by eexists|by right].
Qed.

Section accept.
Context `{CryptoTypes} `{!BlockHashes} (cfg : ChainConfig) (db : gmap BlockId BlockIndex).

(** The work that the check requires is the one that the producer of the block
    computes from the index of the previous block. *)
Lemma check_pow_consensus_required header d status g :
  gen_block_index_getter cfg db (hdr_prev_block_id header) = Some g ->
  check_pow_consensus cfg db header d status =
    (work_required ← calculate_work_required cfg g (hdr_timestamp header) status
       (get_ancestor_from_block_index_handle cfg db);
     _ ← ensure (bool_decide (work_required = bits d)) (InvalidTargetBits (bits d) work_required);
     ok ← check_proof_of_work (header_id header) work_required;
     if (ok : bool) then Ok tt else Err (InvalidPoW (header_id header))).
Proof.
  intros Hg. unfold check_pow_consensus, calculate_work_required, gen_block_index_getter in *.
  destruct status as [|initial]; [|done]. destruct (classify _ _) as [prev|].
  - apply fmap_Some in Hg as (prev_index & -> & ->). done.
  - by injection Hg as <-.
Qed.

Lemma check_pow_consensus_Ok header d status g :
  gen_block_index_getter cfg db (hdr_prev_block_id header) = Some g ->
  check_pow_consensus cfg db header d status = Ok tt <->
  calculate_work_required cfg g (hdr_timestamp header) status (get_ancestor_from_block_index_handle cfg db) = Ok (bits d) /\
  check_proof_of_work (header_id header) (bits d) = Ok true.
Proof.
  intros Hg. rewrite (check_pow_consensus_required _ _ _ _ Hg). split.
  - intros Hok. apply result_bind_Ok in Hok as (w & Hw & Hok). apply result_bind_Ok in Hok as ([] & He & Hok).
    apply ensure_Ok, bool_decide_eq_true in He as ->. apply result_bind_Ok in Hok as ([] & Hb & Hok); done.
  - intros [-> Hb]. cbn [mbind result_bind]. rewrite bool_decide_true by done. cbn [ensure mbind result_bind]. by rewrite Hb.
Qed.
End accept.

(** ** Mining *)

Section mining.
Context `{CryptoTypes} `{!BlockHashes} (bs : Compact) (stop : u128 -> bool).
Implicit Types (h : BlockHeader) (n m : u128).

Definition with_nonce h n : BlockHeader := update_consensus_data (ConsensusPoW {| bits := bs; nonce := n |}) h.
(** The nonce is accepted for the header. *)
Definition meets h n : Prop := check_proof_of_work (header_id (with_nonce h n)) bs = Ok true.

Definition mining_outcome h (lo hi : Z) (out : BlockHeader * result ConsensusPoWError MiningResult) : Prop :=
  match out with
  | (h', Ok MiningSuccess) => exists n, lo <= ival n < hi /\ h' = with_nonce h n /\ meets h n /\
      forall m, lo <= ival m < ival n -> ~ meets h m
  | (_, Ok MiningFailed) => forall n, lo <= ival n < hi -> ~ meets h n
  | (h', Ok MiningStopped) => exists n, lo <= ival n < hi /\ stop n = true /\ h' = with_nonce h n /\
      forall m, lo <= ival m <= ival n -> ~ meets h m
  | (_, Err e) => e = DecodingBitsFailed bs /\ lo < hi /\ forall u, try_from_compact bs <> Ok u
  | (_, Panic) => False
  end.

Lemma mine_loop_outcome count h0 h n : h0 = h \/ (exists m, h0 = with_nonce h m) ->
  ival n + Z.of_nat count <= u128_MAX ->
  mining_outcome h (ival n) (ival n + Z.of_nat count) (mine_loop bs stop count n h0).
Proof.
  revert h0 n. induction count as [|count IH]; intros h0 n Hh0 Hn; [simpl; lia|].
  assert (update_consensus_data (ConsensusPoW {| bits := bs; nonce := n |}) h0 = with_nonce h n) as Hupd.
  { by destruct Hh0 as [->|[m ->]]. }
  cbn [mine_loop]. unfold mbind, st_bind, modify, self, lift. rewrite Hupd.
  destruct (check_proof_of_work_runs (header_id (with_nonce h n)) bs) as [([] & Hb)|[Hb Hdec]]; rewrite Hb.
  - exists n. split; [lia|]. split; [done|]. split; [done|]. intros m ?. lia.
  - assert (~ meets h n) as Hno by (unfold meets; rewrite Hb; done).
    destruct (stop n) eqn:Hstop.
    { exists n. split; [lia|]. split; [done|]. split; [done|]. intros m Hm. by assert (m = n) as -> by (apply bint_eq; lia). }
    pose proof (bint_range n).
    destruct (bint_of_Z_is_Some (lo := 0) (hi := u128_MAX) (ival n + 1)) as (n1 & -> & Vn1); [lia|]. cbn [from_option]. unfold id.
    specialize (IH (with_nonce h n) n1 ltac:(right; by exists n) ltac:(lia)).
    assert (forall m, ival n <= ival m -> ival n1 <= ival m \/ m = n) as Hcase.
    { intros m Hm. destruct (Z.eq_dec (ival m) (ival n)); [right; by apply bint_eq|left; lia]. }
    destruct (mine_loop bs stop count n1 (with_nonce h n)) as [h' [r|e|]]; [destruct r|..]; cbn in IH |- *.
    + destruct IH as (m & ? & ? & ? & Hmin). exists m. split; [lia|]. split; [done|]. split; [done|].
      intros k Hk. destruct (Hcase k ltac:(lia)) as [? | ->]; [apply Hmin; lia|done].
    + intros k Hk. destruct (Hcase k ltac:(lia)) as [? | ->]; [apply IH; lia|done].
    + destruct IH as (m & ? & ? & ? & Hmin). exists m. split; [lia|]. split; [done|]. split; [done|].
      intros k Hk. destruct (Hcase k ltac:(lia)) as [? | ->]; [apply Hmin; lia|done].
    + destruct IH as (? & ? & ?). split; [done|]. split; [lia|done].
    + done.
  - cbn. split; [done|]. split; [lia|done].
Qed.

Lemma mine_outcome h max_nonce : mining_outcome h 0 (ival max_nonce) (mine bs stop max_nonce h).
Proof.
  pose proof (bint_range max_nonce). unfold mine.
  pose proof (mine_loop_outcome (Z.to_nat (ival max_nonce)) h h Amount.ZERO ltac:(by left)) as Hout.
  rewrite ival_ZERO in Hout. rewrite Z2Nat.id in Hout by lia. apply Hout. lia.
Qed.
End mining.

(** * Theorems *)

(** C28: The work required after the last block of an interval of 2016 blocks:
    the subtraction of heights does not underflow; the adjustment panics exactly
    when the previous block is older than the block that started the interval,
    and otherwise gives a target that decodes to the old target scaled by the
    time the interval took (within a factor of four of two weeks), capped at the
    limit of the chain and rounded down to the compact form.  So it is never
    above the limit or above four times the old target, and not below a quarter
    of it by more than the rounding. *)
Theorem pow_retarget_exact `{CryptoTypes} (config : PoWChainConfig) (prev : BlockIndex) (d : PoWData)
    (old : uint) (new_time : BlockTimestamp) (get_ancestor : BlockIndex -> BlockHeight -> result CrateChainstateError GenBlockIndex)
    (start : BlockHeight) (a : GenBlockIndex) :
  bi_consensus_data prev = ConsensusPoW d -> try_from_compact (bits d) = Ok old ->
  no_retargeting config = false -> wf 4 (limit config) ->
  ival (bi_block_height prev) < 2 ^ 64 - 1 -> (ival (bi_block_height prev) + 1) mod 2016 = 0 ->
  ival start = ival (bi_block_height prev) - 2015 -> get_ancestor prev start = Ok a ->
  let span := ival (bi_block_timestamp prev) - ival (gen_block_timestamp a) in
  let required := get_work_required config prev new_time get_ancestor in
  if span <? 0 then required = Panic
  else exists c new, required = Ok c /\ try_from_compact c = Ok new /\
    value new = kept (retarget (value (limit config)) (value old) span) /\
    value new <= value (limit config) /\ value new <= 4 * value old /\
    (value old <= value (limit config) -> value (limit config) * max_target_timespan_in_secs < 2 ^ 256 ->
     exists exact, value old / 4 <= exact /\ value new <= exact /\ (exact - value new) * 2 ^ 15 <= exact).
Proof.
  intros Hd Hold Hre Hlim Hh Hmod Hstart Ha span required.
  assert (required = next_work_required config (gen_block_timestamp a) prev (bits d)) as ->.
  { unfold required, get_work_required. rewrite Hd, Hre. pose proof (bint_range (bi_block_height prev)).
    destruct (bint_of_Z_is_Some (lo := 0) (hi := 2 ^ 64 - 1) (ival (bi_block_height prev) + 1)) as (h & Hh' & Vh); [lia|].
    unfold BlockHeight.next_height. rewrite Hh'. cbn [expect mbind result_bind].
    change difficulty_adjustment_interval with 2016. unfold due_for_retarget, get_starting_block_time.
    rewrite Vh, Hmod. cbn [negb Z.eqb]. change (2016 - 1) with 2015. rewrite <- Hstart, bint_of_Z_ival.
    cbn [expect mbind result_bind]. by rewrite Ha. }
  pose proof (next_work_required_value config (gen_block_timestamp a) prev (bits d) old Hold Hlim) as Hnext.
  cbv zeta in Hnext. fold span in Hnext. destruct (span <? 0); [done|].
  destruct Hnext as (c & new & Hc & Hnew & Wnew & Vnew). exists c, new.
  pose proof (value_range 4 _ Hlim) as Rl. pose proof (value_range 4 _ (try_from_compact_wf _ _ Hold)) as Ro.
  destruct (retarget_bounds (value (limit config)) (value old) span) as (R1 & R2 & R3); [lia|lia|].
  destruct (kept_close (retarget (value (limit config)) (value old) span)) as (K1 & K2 & _); [lia|].
  split; [done|]. split; [done|]. split; [done|]. split; [lia|]. split; [lia|].
  intros H1 H2. exists (retarget (value (limit config)) (value old) span). rewrite Vnew. auto.
Qed.

(** A header is accepted by the proof-of-work check exactly when its bits
    are the ones that a producer computes from the index of its previous block
    for its time, they decode to a target, and the id of the header, read as a
    number, is at most that target. *)
Theorem pow_accepts_exactly `{CryptoTypes} `{!BlockHashes} (cfg : ChainConfig) (db : gmap BlockId BlockIndex)
    (header : BlockHeader) (d : PoWData) (status : PoWStatus) (g : GenBlockIndex) :
  gen_block_index_getter cfg db (hdr_prev_block_id header) = Some g ->
  check_pow_consensus cfg db header d status = Ok tt <->
  calculate_work_required cfg g (hdr_timestamp header) status (get_ancestor_from_block_index_handle cfg db) = Ok (bits d) /\
  exists target, try_from_compact (bits d) = Ok target /\ value (hash_to_uint (header_id header)) <= value target.
Proof. intros Hg. by rewrite (check_pow_consensus_Ok _ _ _ _ _ _ Hg), check_proof_of_work_iff. Qed.

(** C29: Mining tries the nonces in order: it succeeds with the first nonce below
    the bound whose header is accepted, fails only when none is, stops only when
    told to, and reports bits that do not decode; it never panics.  When the
    bits are the ones required for the header, the mined header passes the
    proof-of-work check. *)
Theorem mining_finds_the_first_nonce `{CryptoTypes} `{!BlockHashes} (bs : Compact) (stop : u128 -> bool) (max_nonce : u128)
    (h : BlockHeader) :
  mining_outcome bs stop h 0 (ival max_nonce) (mine bs stop max_nonce h) /\
  forall cfg db status g h', gen_block_index_getter cfg db (hdr_prev_block_id h) = Some g ->
    calculate_work_required cfg g (hdr_timestamp h) status (get_ancestor_from_block_index_handle cfg db) = Ok bs ->
    mine bs stop max_nonce h = (h', Ok MiningSuccess) ->
    exists d, hdr_consensus_data h' = ConsensusPoW d /\ check_pow_consensus cfg db h' d status = Ok tt.
Proof.
  pose proof (mine_outcome bs stop h max_nonce) as Hout. split; [done|].
  intros cfg db status g h' Hg Hreq Hm. rewrite Hm in Hout. destruct Hout as (n & _ & -> & Hmeets & _).
  eexists. split; [done|]. apply (check_pow_consensus_Ok cfg db (with_nonce bs h n) _ status g Hg). by split.
Qed.

Module Witnesses.
Import ChainConfig.Example.
#[local] Existing Instance numbered_keys.
(** Ids are the numbers in the field of the transactions' root, with the nonce
    in the lowest byte of the hash read as a number. *)
#[local] Instance nonce_hashes : BlockHashes := {|
  header_id h := match hdr_consensus_data h with
                 | ConsensusPoW d => Z.to_N ((200 - ival (nonce d)) * 256 ^ 31)
                 | _ => 0%N
                 end |}.
(** A target of 197 in compact form. *)
Definition easy : Compact := @mk_bint 0 (2 ^ 32 - 1) 0x0200C500 eq_refl.
Definition header : BlockHeader := mk_header 0 7 0 (u64_lit 100) ConsensusNone.
Definition retargeting : PoWChainConfig := PoWChainConfig_new ChainType.Mainnet.
Definition last_of_interval (t : Z) : BlockIndex :=
  mk_block_index 9 (with_no_signature (mk_header 8 0 0 (u64_lit t) (ConsensusPoW {| bits := easy; nonce := Amount.ZERO |})))
    0 (from_u64 4 1) (u64_lit 2015) (u64_lit t) Amount.ZERO BlockStatus.new true.
Definition to_genesis (_ : BlockIndex) (_ : BlockHeight) : result CrateChainstateError GenBlockIndex := Ok (genesis cfg).

(** An interval of one week halves the target; one that goes back in time
    panics. *)
Lemma pow_retarget_exact_witness : exists c new,
  get_work_required retargeting (last_of_interval 604800) (u64_lit 700000) to_genesis = Ok c /\
  try_from_compact c = Ok new /\ value new = 98.
Proof.
  pose proof (pow_retarget_exact retargeting (last_of_interval 604800) {| bits := easy; nonce := Amount.ZERO |}
    (from_u64 4 197) (u64_lit 700000) to_genesis BlockHeight.zero (genesis cfg)) as H.
  do 8 (specialize (H ltac:(first [reflexivity|split; [reflexivity|repeat constructor; compute; discriminate]]))).
  cbv zeta in H. destruct H as (c & new & Hc & Hnew & Hv & _). exists c, new. split; [exact Hc|]. split; [exact Hnew|].
  rewrite Hv. vm_compute. reflexivity.
Defined.

Example retarget_panics : get_work_required retargeting (last_of_interval 100) (u64_lit 700000)
    (fun _ _ => Ok (GenBlockIndex.Genesis 0 (u64_lit 101))) = Panic.
Proof. vm_compute. reflexivity. Qed.

Lemma pow_accepts_exactly_witness :
  check_pow_consensus cfg ∅ (with_nonce easy header (Amount.lit 3)) {| bits := easy; nonce := Amount.lit 3 |}
    (PoWStatus.Threshold easy) = Ok tt.
Proof.
  apply (pow_accepts_exactly cfg ∅ _ _ _ (genesis cfg)); [vm_compute; reflexivity|].
  split; [reflexivity|]. exists (from_u64 4 197). split; vm_compute; [reflexivity|discriminate].
Defined.

(** Hashes go down from 200 with the nonce: the fourth is the first to meet the
    target. *)
Lemma mining_finds_the_first_nonce_witness : exists h' d,
  mine easy (fun _ => false) (Amount.lit 10) header = (h', Ok MiningSuccess) /\
  hdr_consensus_data h' = ConsensusPoW d /\ nonce d = Amount.lit 3 /\
  check_pow_consensus cfg ∅ h' d (PoWStatus.Threshold easy) = Ok tt.
Proof.
  destruct (mining_finds_the_first_nonce easy (fun _ => false) (Amount.lit 10) header) as [_ Hacc].
  destruct (Hacc cfg ∅ (PoWStatus.Threshold easy) (genesis cfg) (with_nonce easy header (Amount.lit 3)))
    as (d & Hd & Hok); [vm_compute; reflexivity..|].
  exists (with_nonce easy header (Amount.lit 3)), d. split; [vm_compute; reflexivity|]. split; [exact Hd|].
  injection Hd as <-. split; [reflexivity|exact Hok].
Defined.
End Witnesses.
