(* ===== verification/Tokens.v ===== *)
(** * The tokens ledger

    Models the [tokens-accounting] crate: the data of a fungible token, the
    cache [TokensAccountingCache] with its eight operations and their undo,
    the delta merge, the storage-backed view [TokensAccountingDB] and the
    in-memory storage.  The theorems relate the cache, which records deltas on
    top of a parent view, to a plain ledger of tokens and supplies. *)
From S2P Require Import Prelude Amount Accounting ChainTypes.

(** ** Token data ([data.rs]) *)

Record FungibleTokenData `{CryptoTypes} := FungibleTokenData_new_unchecked {
  token_ticker : list u8;
  number_of_decimals : u8;
  metadata_uri : list u8;
  total_supply : TokenTotalSupply;
  is_locked : bool;
  frozen_state : IsTokenFrozen;
  authority : Destination
}.

Arguments FungibleTokenData_new_unchecked {_} _ _ _ _ _ _ _.

Inductive TokenData `{CryptoTypes} :=
  | FungibleToken (d : FungibleTokenData).

#[global] Instance FungibleTokenData_eq_dec `{CryptoTypes} : EqDecision FungibleTokenData.
Proof. solve_decision. Defined.
#[global] Instance TokenData_eq_dec `{CryptoTypes} : EqDecision TokenData.
Proof. solve_decision. Defined.

Section token_data.
Context `{CryptoTypes}.
Implicit Types self : FungibleTokenData.

(** [Result<Self, Self>]: the error returns the receiver. *)
Definition try_lock self : result FungibleTokenData FungibleTokenData :=
  match total_supply self with
  | Fixed _ | Unlimited => Err self
  | Lockable =>
      Ok (FungibleTokenData_new_unchecked (token_ticker self) (number_of_decimals self)
            (metadata_uri self) (total_supply self) true (frozen_state self) (authority self))
  end.

Definition is_frozen self : bool :=
  match frozen_state self with
  | IsTokenFrozen.No _ => false
  | IsTokenFrozen.Yes _ => true
  end.

Definition can_be_frozen self : bool :=
  match frozen_state self with
  | IsTokenFrozen.No IsTokenFreezable.No => false
  | IsTokenFrozen.No IsTokenFreezable.Yes => true
  | IsTokenFrozen.Yes _ => false
  end.

Definition can_be_unfrozen self : bool :=
  match frozen_state self with
  | IsTokenFrozen.No _ => false
  | IsTokenFrozen.Yes IsTokenUnfreezable.No => false
  | IsTokenFrozen.Yes IsTokenUnfreezable.Yes => true
  end.

Definition try_freeze self (is_unfreezable : IsTokenUnfreezable) :
    result FungibleTokenData FungibleTokenData :=
  if can_be_frozen self
  then Ok (FungibleTokenData_new_unchecked (token_ticker self) (number_of_decimals self)
             (metadata_uri self) (total_supply self) (is_locked self)
             (IsTokenFrozen.Yes is_unfreezable) (authority self))
  else Err self.

Definition try_unfreeze self : result FungibleTokenData FungibleTokenData :=
  if can_be_unfrozen self
  then Ok (FungibleTokenData_new_unchecked (token_ticker self) (number_of_decimals self)
             (metadata_uri self) (total_supply self) (is_locked self)
             (IsTokenFrozen.No IsTokenFreezable.Yes) (authority self))
  else Err self.

Definition with_authority self (new_authority : Destination) : FungibleTokenData :=
  FungibleTokenData_new_unchecked (token_ticker self) (number_of_decimals self)
    (metadata_uri self) (total_supply self) (is_locked self) (frozen_state self) new_authority.

Definition with_metadata_uri self (new_metadata_uri : list u8) : FungibleTokenData :=
  FungibleTokenData_new_unchecked (token_ticker self) (number_of_decimals self)
    new_metadata_uri (total_supply self) (is_locked self) (frozen_state self) (authority self).

Definition from_issuance (i : TokenIssuance) : FungibleTokenData :=
  match i with
  | TokenIssuance_V1 i =>
      FungibleTokenData_new_unchecked (iss_token_ticker i) (iss_number_of_decimals i)
        (iss_metadata_uri i) (iss_total_supply i) false
        (IsTokenFrozen.No (iss_is_freezable i)) (iss_authority i)
  end.
End token_data.

(** ** Errors ([error.rs]) *)

Inductive Error :=
  | StorageError
  | AccountingError (e : Accounting.Error)
  | TokenAlreadyExists (id : TokenId)
  | TokenDataNotFound (id : TokenId)
  | TokenDataNotFoundOnReversal (id : TokenId)
  | MintExceedsSupplyLimit (a limit : Amount) (id : TokenId)
  | AmountOverflow
  | CannotMintFromLockedSupply (id : TokenId)
  | CannotMintFrozenToken (id : TokenId)
  | CannotUnmintFromLockedSupply (id : TokenId)
  | CannotUnmintFrozenToken (id : TokenId)
  | NotEnoughCirculatingSupplyToUnmint (s a : Amount) (id : TokenId)
  | SupplyIsAlreadyLocked (id : TokenId)
  | CannotLockNotLockableSupply (id : TokenId)
  | CannotLockFrozenToken (id : TokenId)
  | CannotUnlockNotLockedSupplyOnReversal (id : TokenId)
  | CannotUndoMintForLockedSupplyOnReversal (id : TokenId)
  | CannotUndoUnmintForLockedSupplyOnReversal (id : TokenId)
  | TokenIsAlreadyFrozen (id : TokenId)
  | CannotFreezeNotFreezableToken (id : TokenId)
  | CannotUnfreezeNotUnfreezableToken (id : TokenId)
  | CannotUnfreezeTokenThatIsNotFrozen (id : TokenId)
  | CannotUndoFreezeTokenThatIsNotFrozen (id : TokenId)
  | CannotUndoUnfreezeTokenThatIsFrozen (id : TokenId)
  | CannotChangeAuthorityForFrozenToken (id : TokenId)
  | CannotUndoChangeAuthorityForFrozenToken (id : TokenId)
  | InvariantErrorNonZeroSupplyForNonExistingToken
  | CannotChangeMetadataUriForFrozenToken (id : TokenId)
  | CannotUndoChangeMetadataUriForFrozenToken (id : TokenId)
  | ViewFail
  | StorageWrite.

(** ** Deltas over the ledger ([data.rs]) *)

Record TokensAccountingDeltaData `{CryptoTypes} := mk_delta_data {
  dd_token_data : DeltaDataCollection TokenId TokenData;
  dd_circulating_supply : DeltaAmountCollection TokenId
}.

Record TokensAccountingDeltaUndoData `{CryptoTypes} := mk_delta_undo_data {
  ud_token_data : DeltaDataUndoCollection TokenId TokenData;
  ud_circulating_supply : DeltaAmountCollection TokenId
}.

Arguments mk_delta_data {_} _ _.
Arguments mk_delta_undo_data {_} _ _.

Section delta_data.
Context `{CryptoTypes}.

Definition TokensAccountingDeltaData_new : TokensAccountingDeltaData := mk_delta_data ∅ ∅.

(** The methods of the two collections of a delta, as methods of the delta. *)
Definition in_token_data {A} (m : ST (DeltaDataCollection TokenId TokenData) Accounting.Error A) :
    ST TokensAccountingDeltaData Error A :=
  zoom dd_token_data (fun t d => mk_delta_data t (dd_circulating_supply d)) AccountingError m.
Definition in_circulating_supply {A} (m : ST (DeltaAmountCollection TokenId) Accounting.Error A) :
    ST TokensAccountingDeltaData Error A :=
  zoom dd_circulating_supply (fun t d => mk_delta_data (dd_token_data d) t) AccountingError m.

Definition merge_with_delta (other : TokensAccountingDeltaData) :
    ST TokensAccountingDeltaData Error TokensAccountingDeltaUndoData :=
  token_data_undo ← in_token_data (merge_delta_data (dd_token_data other));
  let circulating_supply_undo := dd_circulating_supply other in
  _ ← in_circulating_supply (merge_delta_amounts (dd_circulating_supply other));
  mret (mk_delta_undo_data token_data_undo circulating_supply_undo).
End delta_data.

(** ** Views ([view.rs]) *)

Class TokensAccountingView `{CryptoTypes} (P : Type) := {
  view_error : Type;
  get_token_data : P -> TokenId -> result view_error (option TokenData);
  get_circulating_supply : P -> TokenId -> result view_error Amount
}.

(** ** Undo records ([operations.rs]) *)

Inductive TokenAccountingUndo `{CryptoTypes} :=
  | IssueTokenUndo (id : TokenId) (undo_data : DataDeltaUndo TokenData)
  | MintTokenUndo (id : TokenId) (amount_to_add : Amount)
  | UnmintTokenUndo (id : TokenId) (amount_to_burn : Amount)
  | LockSupplyUndo (id : TokenId) (undo_data : DataDeltaUndo TokenData)
  | FreezeTokenUndo (id : TokenId) (undo_data : DataDeltaUndo TokenData)
  | UnfreezeTokenUndo (id : TokenId) (undo_data : DataDeltaUndo TokenData)
  | ChangeTokenAuthorityUndo (id : TokenId) (undo_data : DataDeltaUndo TokenData)
  | ChangeTokenMetadataUriUndo (id : TokenId) (undo_data : DataDeltaUndo TokenData).

(** ** The cache ([cache.rs]) *)

Record TokensAccountingCache `{CryptoTypes} (P : Type) := mk_cache {
  parent : P;
  data : TokensAccountingDeltaData
}.
Arguments mk_cache {_ _} _ _.
Arguments parent {_ _} _.
Arguments data {_ _} _.

Section cache.
Context `{CryptoTypes} {P : Type} `{!TokensAccountingView P}.
Abbreviation Cache := (TokensAccountingCache P).

Definition TokensAccountingCache_new (p : P) : Cache := mk_cache p TokensAccountingDeltaData_new.

Definition cache_get_token_data (self : Cache) (id : TokenId) : result Error (option TokenData) :=
  match get_data (dd_token_data (data self)) id with
  | Present d => Ok (Some d)
  | Deleted => Ok None
  | Missing => map_err (fun _ => ViewFail) (get_token_data (parent self) id)
  end.

Definition cache_get_circulating_supply (self : Cache) (id : TokenId) : result Error Amount :=
  parent_supply ← map_err (fun _ => ViewFail) (get_circulating_supply (parent self) id);
  let local_delta := dd_circulating_supply (data self) !! id in
  map_err AccountingError (combine_amount_delta parent_supply local_delta).

#[global] Instance cache_view : TokensAccountingView Cache := {|
  view_error := Error;
  get_token_data := cache_get_token_data;
  get_circulating_supply := cache_get_circulating_supply
|}.

Definition in_data {A} (m : ST TokensAccountingDeltaData Error A) : ST Cache Error A :=
  zoom data (fun d c => mk_cache (parent c) d) (fun e => e) m.

Definition batch_write_tokens_data (delta : TokensAccountingDeltaData) :
    ST Cache Error TokensAccountingDeltaUndoData :=
  in_data (merge_with_delta delta).

Definition merge_token_delta (id : TokenId) (d : DataDelta TokenData) :
    ST Cache Error (DataDeltaUndo TokenData) :=
  in_data (in_token_data (merge_delta_data_element id d)).

Definition issue_token (id : TokenId) (d : TokenData) : ST Cache Error TokenAccountingUndo :=
  existing ← gets (fun self => cache_get_token_data self id);
  _ ← lift (ensure (bool_decide (existing = None)) (TokenAlreadyExists id));
  supply ← gets (fun self => cache_get_circulating_supply self id);
  _ ← lift (ensure (negb (Amount.ltb Amount.ZERO supply)) (TokenAlreadyExists id));
  undo_data ← merge_token_delta id (mk_delta None (Some d));
  mret (IssueTokenUndo id undo_data).

(** [self.get_token_data(&id)?.ok_or(e)?]. *)
Definition get_existing (id : TokenId) (e : Error) : ST Cache Error TokenData :=
  o ← gets (fun self => cache_get_token_data self id);
  lift (ok_or e o).

Definition mint_tokens (id : TokenId) (amount_to_add : Amount) :
    ST Cache Error TokenAccountingUndo :=
  token_data ← get_existing id (TokenDataNotFound id);
  _ ← match token_data with
      | FungibleToken data =>
          _ ← lift (ensure (negb (is_frozen data)) (CannotMintFrozenToken id));
          match total_supply data with
          | Fixed limit =>
              circulating_supply ← gets (fun self => cache_get_circulating_supply self id);
              expected_circulating_supply ←
                lift (ok_or AmountOverflow (Amount.add circulating_supply amount_to_add));
              lift (ensure (negb (Amount.ltb limit expected_circulating_supply))
                      (MintExceedsSupplyLimit amount_to_add limit id))
          | Lockable => lift (ensure (negb (is_locked data)) (CannotMintFromLockedSupply id))
          | Unlimited => mret tt
          end
      end;
  _ ← in_data (in_circulating_supply (add_unsigned id amount_to_add));
  mret (MintTokenUndo id amount_to_add).

Definition unmint_tokens (id : TokenId) (amount_to_burn : Amount) :
    ST Cache Error TokenAccountingUndo :=
  token_data ← get_existing id (TokenDataNotFound id);
  _ ← match token_data with
      | FungibleToken data =>
          if is_locked data then lift (Err (CannotUnmintFromLockedSupply id))
          else if is_frozen data then lift (Err (CannotUnmintFrozenToken id))
          else mret tt
      end;
  circulating_supply ← gets (fun self => cache_get_circulating_supply self id);
  _ ← lift (ensure (negb (Amount.ltb circulating_supply amount_to_burn))
              (NotEnoughCirculatingSupplyToUnmint circulating_supply amount_to_burn id));
  _ ← in_data (in_circulating_supply (sub_unsigned id amount_to_burn));
  mret (UnmintTokenUndo id amount_to_burn).

Definition lock_circulating_supply (id : TokenId) : ST Cache Error TokenAccountingUndo :=
  token_data ← get_existing id (TokenDataNotFound id);
  undo_data ←
    match token_data with
    | FungibleToken data =>
        _ ← (if is_locked data then lift (Err (SupplyIsAlreadyLocked id))
             else if is_frozen data then lift (Err (CannotLockFrozenToken id))
             else mret tt);
        new_data ← lift (map_err (fun _ => CannotLockNotLockableSupply id) (try_lock data));
        merge_token_delta id
          (mk_delta (Some (FungibleToken data)) (Some (FungibleToken new_data)))
    end;
  mret (LockSupplyUndo id undo_data).

Definition freeze_token (id : TokenId) (is_unfreezable : IsTokenUnfreezable) :
    ST Cache Error TokenAccountingUndo :=
  token_data ← get_existing id (TokenDataNotFound id);
  undo_data ←
    match token_data with
    | FungibleToken data =>
        _ ← lift (ensure (negb (is_frozen data)) (TokenIsAlreadyFrozen id));
        new_data ← lift (map_err (fun _ => CannotFreezeNotFreezableToken id)
                           (try_freeze data is_unfreezable));
        merge_token_delta id
          (mk_delta (Some (FungibleToken data)) (Some (FungibleToken new_data)))
    end;
  mret (FreezeTokenUndo id undo_data).

Definition unfreeze_token (id : TokenId) : ST Cache Error TokenAccountingUndo :=
  token_data ← get_existing id (TokenDataNotFound id);
  undo_data ←
    match token_data with
    | FungibleToken data =>
        _ ← lift (ensure (is_frozen data) (CannotUnfreezeTokenThatIsNotFrozen id));
        new_data ← lift (map_err (fun _ => CannotUnfreezeNotUnfreezableToken id)
                           (try_unfreeze data));
        merge_token_delta id
          (mk_delta (Some (FungibleToken data)) (Some (FungibleToken new_data)))
    end;
  mret (UnfreezeTokenUndo id undo_data).

Definition change_authority (id : TokenId) (new_authority : Destination) :
    ST Cache Error TokenAccountingUndo :=
  token_data ← get_existing id (TokenDataNotFound id);
  undo_data ←
    match token_data with
    | FungibleToken data =>
        _ ← lift (ensure (negb (is_frozen data)) (CannotChangeAuthorityForFrozenToken id));
        let new_data := with_authority data new_authority in
        merge_token_delta id
          (mk_delta (Some (FungibleToken data)) (Some (FungibleToken new_data)))
    end;
  mret (ChangeTokenAuthorityUndo id undo_data).

Definition change_metadata_uri (id : TokenId) (new_metadata_uri : list u8) :
    ST Cache Error TokenAccountingUndo :=
  token_data ← get_existing id (TokenDataNotFound id);
  undo_data ←
    match token_data with
    | FungibleToken data =>
        _ ← lift (ensure (negb (is_frozen data)) (CannotChangeMetadataUriForFrozenToken id));
        let new_data := with_metadata_uri data new_metadata_uri in
        merge_token_delta id
          (mk_delta (Some (FungibleToken data)) (Some (FungibleToken new_data)))
    end;
  mret (ChangeTokenMetadataUriUndo id undo_data).

Definition undo_token_delta (id : TokenId) (u : DataDeltaUndo TokenData) : ST Cache Error unit :=
  in_data (in_token_data (undo_merge_delta_data_element id u)).

Definition undo (undo_data : TokenAccountingUndo) : ST Cache Error unit :=
  match undo_data with
  | IssueTokenUndo id u =>
      _ ← get_existing id (TokenDataNotFoundOnReversal id);
      undo_token_delta id u
  | MintTokenUndo id amount_to_add =>
      d ← get_existing id (TokenDataNotFoundOnReversal id);
      _ ← match d with
          | FungibleToken data =>
              lift (ensure (negb (is_locked data)) (CannotUndoMintForLockedSupplyOnReversal id))
          end;
      in_data (in_circulating_supply (sub_unsigned id amount_to_add))
  | UnmintTokenUndo id amount_to_burn =>
      d ← get_existing id (TokenDataNotFoundOnReversal id);
      _ ← match d with
          | FungibleToken data =>
              lift (ensure (negb (is_locked data)) (CannotUndoUnmintForLockedSupplyOnReversal id))
          end;
      in_data (in_circulating_supply (add_unsigned id amount_to_burn))
  | LockSupplyUndo id u =>
      d ← get_existing id (TokenDataNotFoundOnReversal id);
      _ ← match d with
          | FungibleToken data =>
              lift (ensure (is_locked data) (CannotUnlockNotLockedSupplyOnReversal id))
          end;
      undo_token_delta id u
  | FreezeTokenUndo id u =>
      d ← get_existing id (TokenDataNotFoundOnReversal id);
      _ ← match d with
          | FungibleToken data =>
              lift (ensure (is_frozen data) (CannotUndoFreezeTokenThatIsNotFrozen id))
          end;
      undo_token_delta id u
  | UnfreezeTokenUndo id u =>
      d ← get_existing id (TokenDataNotFoundOnReversal id);
      _ ← match d with
          | FungibleToken data =>
              lift (ensure (negb (is_frozen data)) (CannotUndoUnfreezeTokenThatIsFrozen id))
          end;
      undo_token_delta id u
  | ChangeTokenAuthorityUndo id u =>
      d ← get_existing id (TokenDataNotFoundOnReversal id);
      _ ← match d with
          | FungibleToken data =>
              lift (ensure (negb (is_frozen data)) (CannotUndoChangeAuthorityForFrozenToken id))
          end;
      undo_token_delta id u
  | ChangeTokenMetadataUriUndo id u =>
      d ← get_existing id (TokenDataNotFoundOnReversal id);
      _ ← match d with
          | FungibleToken data =>
              lift (ensure (negb (is_frozen data)) (CannotUndoChangeMetadataUriForFrozenToken id))
          end;
      undo_token_delta id u
  end.
End cache.

(** ** Storage ([storage/mod.rs], [storage/db.rs], [storage/in_memory.rs]) *)

(** [TokensAccountingStorageRead] and [TokensAccountingStorageWrite]. *)
Class TokensAccountingStorage `{CryptoTypes} (S : Type) := {
  storage_error : Type;
  storage_get_token_data : S -> TokenId -> result storage_error (option TokenData);
  storage_get_circulating_supply : S -> TokenId -> result storage_error (option Amount);
  set_token_data : TokenId -> TokenData -> ST S storage_error unit;
  del_token_data : TokenId -> ST S storage_error unit;
  set_circulating_supply : TokenId -> Amount -> ST S storage_error unit;
  del_circulating_supply : TokenId -> ST S storage_error unit
}.

(** [TokensAccountingDB(S)]. *)
Record TokensAccountingDB (S : Type) := mk_db { db_store : S }.
Arguments mk_db {_} _.
Arguments db_store {_} _.

Section db.
Context `{CryptoTypes} {S : Type} `{!TokensAccountingStorage S}.

(** A method of the store, as a method of the database. *)
Definition in_store {A} (m : ST S Error A) : ST (TokensAccountingDB S) Error A :=
  zoom db_store (fun s _ => mk_db s) (fun e => e) m.

Definition db_merge_token_data : TokenId * DataDelta TokenData ->
    ST S Error (TokenId * DataDeltaUndo TokenData) :=
  store_merge_data AccountingError ViewFail StorageWrite
    storage_get_token_data set_token_data del_token_data.

Definition db_merge_circulating_supply : TokenId * SignedAmount ->
    ST S Error (TokenId * SignedAmount) :=
  store_merge_balance AccountingError ViewFail StorageWrite
    storage_get_circulating_supply set_circulating_supply del_circulating_supply.

Definition db_merge_with_delta (other : TokensAccountingDeltaData) :
    ST (TokensAccountingDB S) Error TokensAccountingDeltaUndoData :=
  in_store (
    data_undo ← try_collect db_merge_token_data (btree_iter (dd_token_data other));
    circulating_supply_undo ←
      try_collect db_merge_circulating_supply (btree_iter (dd_circulating_supply other));
    mret (mk_delta_undo_data (btree_collect data_undo) (btree_collect circulating_supply_undo))).

#[global] Instance db_view : TokensAccountingView (TokensAccountingDB S) := {|
  view_error := storage_error;
  get_token_data := fun db id => storage_get_token_data (db_store db) id;
  get_circulating_supply := fun db id =>
    default Amount.ZERO <$> storage_get_circulating_supply (db_store db) id
|}.

Definition db_batch_write_tokens_data (delta : TokensAccountingDeltaData) :
    ST (TokensAccountingDB S) Error TokensAccountingDeltaUndoData :=
  st_map_err (fun _ => StorageWrite) (db_merge_with_delta delta).
End db.

Record InMemoryTokensAccounting `{CryptoTypes} := mk_in_memory {
  mem_tokens_data : gmap TokenId TokenData;
  mem_circulating_supply : gmap TokenId Amount
}.
Arguments mk_in_memory {_} _ _.

Section in_memory.
Context `{CryptoTypes}.

Definition InMemoryTokensAccounting_new : InMemoryTokensAccounting := mk_in_memory ∅ ∅.

Definition in_tokens_data (f : gmap TokenId TokenData -> gmap TokenId TokenData)
    (s : InMemoryTokensAccounting) : InMemoryTokensAccounting :=
  mk_in_memory (f (mem_tokens_data s)) (mem_circulating_supply s).
Definition in_supplies (f : gmap TokenId Amount -> gmap TokenId Amount)
    (s : InMemoryTokensAccounting) : InMemoryTokensAccounting :=
  mk_in_memory (mem_tokens_data s) (f (mem_circulating_supply s)).

(** The in-memory storage cannot fail. *)
#[global] Instance in_memory_storage : TokensAccountingStorage InMemoryTokensAccounting := {|
  storage_error := Empty_set;
  storage_get_token_data := fun s id => Ok (mem_tokens_data s !! id);
  storage_get_circulating_supply := fun s id => Ok (mem_circulating_supply s !! id);
  set_token_data := fun id d => modify (in_tokens_data (insert id d));
  del_token_data := fun id => modify (in_tokens_data (delete id));
  set_circulating_supply := fun id a => modify (in_supplies (insert id a));
  del_circulating_supply := fun id => modify (in_supplies (delete id))
|}.
End in_memory.

(** * The abstract ledger

    What a token view promises, without deltas, parents or storage: which
    tokens exist, with which data, and how much of each circulates. *)

Record Ledger `{CryptoTypes} := mk_ledger {
  l_token : TokenId -> option TokenData;
  l_supply : TokenId -> Amount
}.
Arguments mk_ledger {_} _ _.

(** An operation of the ledger, one per command of a transaction. *)
Inductive TokenOp `{CryptoTypes} :=
  | OpIssue (id : TokenId) (i : TokenIssuance)
  | OpMint (id : TokenId) (a : Amount)
  | OpUnmint (id : TokenId) (a : Amount)
  | OpLock (id : TokenId)
  | OpFreeze (id : TokenId) (u : IsTokenUnfreezable)
  | OpUnfreeze (id : TokenId)
  | OpChangeAuthority (id : TokenId) (d : Destination)
  | OpChangeMetadataUri (id : TokenId) (uri : list u8).

(** The token an operation is about. *)
Definition op_id `{CryptoTypes} (op : TokenOp) : TokenId :=
  match op with
  | OpIssue id _ | OpMint id _ | OpUnmint id _ | OpLock id | OpFreeze id _ | OpUnfreeze id
  | OpChangeAuthority id _ | OpChangeMetadataUri id _ => id
  end.

Section spec.
Context `{CryptoTypes}.

Definition set_token (l : Ledger) (id : TokenId) (d : option TokenData) : Ledger :=
  mk_ledger (<[id:=d]> (l_token l)) (l_supply l).
Definition set_supply (l : Ledger) (id : TokenId) (a : Amount) : Ledger :=
  mk_ledger (l_token l) (<[id:=a]> (l_supply l)).

Definition existing_token (l : Ledger) (id : TokenId) : result Error FungibleTokenData :=
  match l_token l id with
  | Some (FungibleToken d) => Ok d
  | None => Err (TokenDataNotFound id)
  end.

(** How an operation changes the data of the token it is about. *)
Definition spec_data (op : TokenOp) (d : FungibleTokenData) : result Error FungibleTokenData :=
  match op with
  | OpLock id =>
      if is_locked d then Err (SupplyIsAlreadyLocked id)
      else if is_frozen d then Err (CannotLockFrozenToken id)
      else map_err (fun _ => CannotLockNotLockableSupply id) (try_lock d)
  | OpFreeze id u =>
      if is_frozen d then Err (TokenIsAlreadyFrozen id)
      else map_err (fun _ => CannotFreezeNotFreezableToken id) (try_freeze d u)
  | OpUnfreeze id =>
      if is_frozen d then map_err (fun _ => CannotUnfreezeNotUnfreezableToken id) (try_unfreeze d)
      else Err (CannotUnfreezeTokenThatIsNotFrozen id)
  | OpChangeAuthority id a =>
      if is_frozen d then Err (CannotChangeAuthorityForFrozenToken id)
      else Ok (with_authority d a)
  | OpChangeMetadataUri id uri =>
      if is_frozen d then Err (CannotChangeMetadataUriForFrozenToken id)
      else Ok (with_metadata_uri d uri)
  | _ => Ok d
  end.

(** Who may mint: an existing token that is not frozen, within a fixed
    supply, not from a locked one. *)
Definition mint_guard (l : Ledger) (id : TokenId) (a : Amount) : result Error unit :=
  d ← existing_token l id;
  _ ← ensure (negb (is_frozen d)) (CannotMintFrozenToken id);
  match total_supply d with
  | Fixed limit =>
      total ← ok_or AmountOverflow (Amount.add (l_supply l id) a);
      ensure (Amount.leb total limit) (MintExceedsSupplyLimit a limit id)
  | Lockable => ensure (negb (is_locked d)) (CannotMintFromLockedSupply id)
  | Unlimited => Ok tt
  end.

Definition spec_mint (l : Ledger) (id : TokenId) (a : Amount) : result Error Ledger :=
  _ ← mint_guard l id a;
  _ ← ok_or (AccountingError ArithmeticErrorToSignedFailed) (Amount.into_signed a);
  total ← ok_or AmountOverflow (Amount.add (l_supply l id) a);
  Ok (set_supply l id total).

Definition spec_unmint (l : Ledger) (id : TokenId) (a : Amount) : result Error Ledger :=
  d ← existing_token l id;
  _ ← ensure (negb (is_locked d)) (CannotUnmintFromLockedSupply id);
  _ ← ensure (negb (is_frozen d)) (CannotUnmintFrozenToken id);
  rest ← ok_or (NotEnoughCirculatingSupplyToUnmint (l_supply l id) a id)
               (Amount.sub (l_supply l id) a);
  Ok (set_supply l id rest).

Definition spec_op (op : TokenOp) (l : Ledger) : result Error Ledger :=
  match op with
  | OpIssue id i =>
      match l_token l id with
      | Some _ => Err (TokenAlreadyExists id)
      | None =>
          _ ← ensure (Amount.eqb (l_supply l id) Amount.ZERO) (TokenAlreadyExists id);
          Ok (set_token l id (Some (FungibleToken (from_issuance i))))
      end
  | OpMint id a => spec_mint l id a
  | OpUnmint id a => spec_unmint l id a
  | OpLock id | OpFreeze id _ | OpUnfreeze id | OpChangeAuthority id _
  | OpChangeMetadataUri id _ =>
      d ← existing_token l id;
      d' ← spec_data op d;
      Ok (set_token l id (Some (FungibleToken d')))
  end.

Lemma set_token_eq l id d : l_token (set_token l id d) id = d.
Proof. apply fn_lookup_insert. Qed.
Lemma set_supply_eq l id a : l_supply (set_supply l id a) id = a.
Proof. apply fn_lookup_insert. Qed.

(** What a successful mint, unmint and issuance say about the ledger. *)
Lemma spec_mint_Ok l id a l' :
  spec_mint l id a = Ok l' ->
  exists d t, l_token l id = Some (FungibleToken d) /\ is_frozen d = false /\
    ival t = ival (l_supply l id) + ival a /\ l' = set_supply l id t /\
    match total_supply d with
    | Fixed limit => ival t <= ival limit
    | Lockable => is_locked d = false
    | Unlimited => True
    end.
Proof.
  unfold spec_mint, mint_guard, existing_token. intros Hspec.
  destruct (l_token l id) as [[d]|]; [|done]. simpl in Hspec.
  destruct (is_frozen d) eqn:Hf; [done|]. simpl in Hspec.
  destruct (Amount.add (l_supply l id) a) as [t|] eqn:Ht; simpl in Hspec.
  - amount_inv. exists d, t. repeat split; try done.
    + run_inv. done.
    + destruct (total_supply d) as [limit| |]; [|by destruct (is_locked d)|done].
      destruct (Amount.leb t limit) eqn:Hle; [by amount_inv|done].
  - by run_inv.
Qed.

Lemma spec_unmint_Ok l id a l' :
  spec_unmint l id a = Ok l' ->
  exists d t, l_token l id = Some (FungibleToken d) /\ is_frozen d = false /\
    is_locked d = false /\ ival t = ival (l_supply l id) - ival a /\ l' = set_supply l id t.
Proof.
  unfold spec_unmint, existing_token. intros Hspec.
  destruct (l_token l id) as [[d]|]; [|done]. simpl in Hspec.
  destruct (is_locked d) eqn:Hl; [done|]. destruct (is_frozen d) eqn:Hf; [done|]. simpl in Hspec.
  destruct (Amount.sub (l_supply l id) a) as [t|] eqn:Ht; [|done]. amount_inv.
  simplify_eq/=. eauto 10.
Qed.

Lemma spec_issue_Ok l id i l' :
  spec_op (OpIssue id i) l = Ok l' ->
  l_token l id = None /\ l_supply l id = Amount.ZERO /\
  l' = set_token l id (Some (FungibleToken (from_issuance i))).
Proof.
  simpl. destruct (l_token l id); [done|]. intros Hspec. run_inv. by amount_inv.
Qed.

(** Supplies the deltas of a cache can represent. *)
Definition bounded (l : Ledger) : Prop := forall id, ival (l_supply l id) <= i128_MAX.

(** The rules of the ledger: a token that does not exist has no supply, a
    fixed supply is never exceeded, only lockable supplies are locked. *)
Definition ledger_inv (l : Ledger) : Prop := forall id,
  match l_token l id with
  | None => ival (l_supply l id) = 0
  | Some (FungibleToken d) =>
      (is_locked d = true -> total_supply d = Lockable) /\
      (forall limit, total_supply d = Fixed limit -> ival (l_supply l id) <= ival limit)
  end.
End spec.

(** The operation as the cache executes it. *)
Definition exec_op `{CryptoTypes} {P} `{!TokensAccountingView P} (op : TokenOp) :
    ST (TokensAccountingCache P) Error TokenAccountingUndo :=
  match op with
  | OpIssue id i => issue_token id (FungibleToken (from_issuance i))
  | OpMint id a => mint_tokens id a
  | OpUnmint id a => unmint_tokens id a
  | OpLock id => lock_circulating_supply id
  | OpFreeze id u => freeze_token id u
  | OpUnfreeze id => unfreeze_token id
  | OpChangeAuthority id d => change_authority id d
  | OpChangeMetadataUri id uri => change_metadata_uri id uri
  end.

(** * The cache implements the ledger *)

Section refinement.
Context `{CryptoTypes}.

(** [represents p l]: every query of the view [p] returns what [l] says. *)
Definition represents {P} `{!TokensAccountingView P} (p : P) (l : Ledger) : Prop :=
  forall id, get_token_data p id = Ok (l_token l id) /\
             get_circulating_supply p id = Ok (l_supply l id).

(** [cache_rep c lp l]: the parent of [c] shows [lp], and the deltas of [c]
    turn [lp] into [l]. *)
Record cache_rep {P} `{!TokensAccountingView P} (c : TokensAccountingCache P) (lp l : Ledger) :
    Prop := {
  rep_parent : represents (parent c) lp;
  rep_data : data_rep (dd_token_data (data c)) (l_token lp) (l_token l);
  rep_supplies : balance_rep (dd_circulating_supply (data c)) (l_supply lp) (l_supply l)
}.

Context {P : Type} `{!TokensAccountingView P}.
Implicit Types (c : TokensAccountingCache P) (l lp : Ledger).

(** The supply of a token can be queried. *)
Definition readable c (id : TokenId) : Prop := is_ok (cache_get_circulating_supply c id) = true.

Lemma rep_bound c lp l : cache_rep c lp l -> bounded l.
Proof. intros Hrep. apply (balance_rep_cur _ _ _ (rep_supplies _ _ _ Hrep)). Qed.

(** An empty cache shows its parent. *)
Lemma cache_rep_new_tokens p l :
  represents p l -> bounded l -> cache_rep (TokensAccountingCache_new p) l l.
Proof. intros Hp Hb. split; [done|apply data_rep_empty|by apply balance_rep_empty]. Qed.

Lemma cache_rep_token c lp l id :
  cache_rep c lp l -> cache_get_token_data c id = Ok (l_token l id).
Proof.
  intros Hrep. rewrite <- (data_rep_get _ _ _ id (rep_data _ _ _ Hrep)).
  unfold cache_get_token_data. destruct (rep_parent _ _ _ Hrep id) as [-> _].
  by destruct (get_data (dd_token_data (data c)) id).
Qed.

Lemma cache_rep_supply c lp l id :
  cache_rep c lp l -> cache_get_circulating_supply c id = Ok (l_supply l id).
Proof.
  intros Hrep. unfold cache_get_circulating_supply.
  destruct (rep_parent _ _ _ Hrep id) as [_ ->]. simpl.
  by rewrite (balance_rep_get _ _ _ id (rep_supplies _ _ _ Hrep)).
Qed.

(** The interface: what clients of a view rely on holds of the cache. *)
Lemma cache_represents_tokens c lp l : cache_rep c lp l -> represents c l.
Proof. intros Hrep id. split; [by eapply cache_rep_token|by eapply cache_rep_supply]. Qed.

(** ** Single updates *)

Lemma merge_token_delta_rep c lp l id d :
  cache_rep c lp l -> old d = l_token l id ->
  exists c', merge_token_delta id d c = (c', Ok (invert d)) /\
    cache_rep c' lp (set_token l id (new d)).
Proof.
  intros [Hp Hd Hs] Hold. destruct (data_rep_merge _ _ _ id d Hd (eq_sym Hold)) as (t & Hm & Hd').
  exists (mk_cache (parent c) (mk_delta_data t (dd_circulating_supply (data c)))). split; [|done].
  unfold merge_token_delta, in_data, in_token_data, zoom. by rewrite Hm.
Qed.

Lemma undo_token_delta_rep c lp l id u :
  cache_rep c lp l -> old (as_delta u) = l_token l id ->
  exists c', undo_token_delta id u c = (c', Ok tt) /\
    cache_rep c' lp (set_token l id (new (as_delta u))).
Proof.
  intros [Hp Hd Hs] Hold. destruct (data_rep_undo _ _ _ id u Hd (eq_sym Hold)) as (t & Hm & Hd').
  exists (mk_cache (parent c) (mk_delta_data t (dd_circulating_supply (data c)))). split; [|done].
  unfold undo_token_delta, in_data, in_token_data, zoom. by rewrite Hm.
Qed.

Lemma add_supply_rep c lp l id (a s : Amount) :
  cache_rep c lp l -> ival s = ival (l_supply l id) + ival a -> ival s <= i128_MAX ->
  exists c', in_data (in_circulating_supply (add_unsigned id a)) c = (c', Ok tt) /\
    cache_rep c' lp (set_supply l id s).
Proof.
  intros [Hp Hd Hr] Hs Hsb. destruct (balance_rep_add _ _ _ id a s Hr Hs Hsb) as (t & Hm & Hr').
  exists (mk_cache (parent c) (mk_delta_data (dd_token_data (data c)) t)). split; [|done].
  unfold in_data, in_circulating_supply, zoom. by rewrite Hm.
Qed.

Lemma sub_supply_rep c lp l id (a s : Amount) :
  cache_rep c lp l -> ival s = ival (l_supply l id) - ival a ->
  exists c', in_data (in_circulating_supply (sub_unsigned id a)) c = (c', Ok tt) /\
    cache_rep c' lp (set_supply l id s).
Proof.
  intros [Hp Hd Hr] Hs. destruct (balance_rep_sub _ _ _ id a s Hr Hs) as (t & Hm & Hr').
  exists (mk_cache (parent c) (mk_delta_data (dd_token_data (data c)) t)). split; [|done].
  unfold in_data, in_circulating_supply, zoom. by rewrite Hm.
Qed.

(** ** Operations *)

Lemma get_existing_rep c lp l id e :
  cache_rep c lp l -> get_existing id e c = (c, ok_or e (l_token l id)).
Proof.
  intros Hrep. unfold get_existing, gets, mbind, st_bind, lift.
  by rewrite (cache_rep_token _ _ _ _ Hrep).
Qed.

Definition delta_undo (l l' : Ledger) (id : TokenId) : DataDeltaUndo TokenData :=
  invert (mk_delta (l_token l id) (l_token l' id)).

(** The undo record of an operation that takes [l] to [l']. *)
Definition undo_record (op : TokenOp) (l l' : Ledger) : TokenAccountingUndo :=
  match op with
  | OpIssue id _ => IssueTokenUndo id (delta_undo l l' id)
  | OpMint id a => MintTokenUndo id a
  | OpUnmint id a => UnmintTokenUndo id a
  | OpLock id => LockSupplyUndo id (delta_undo l l' id)
  | OpFreeze id _ => FreezeTokenUndo id (delta_undo l l' id)
  | OpUnfreeze id => UnfreezeTokenUndo id (delta_undo l l' id)
  | OpChangeAuthority id _ => ChangeTokenAuthorityUndo id (delta_undo l l' id)
  | OpChangeMetadataUri id _ => ChangeTokenMetadataUriUndo id (delta_undo l l' id)
  end.

(** The shape shared by the operations that rewrite the data of a token. *)
Definition rewrite_token (id : TokenId)
    (f : FungibleTokenData -> result Error FungibleTokenData)
    (mk : DataDeltaUndo TokenData -> TokenAccountingUndo) :
    ST (TokensAccountingCache P) Error TokenAccountingUndo :=
  token_data ← get_existing id (TokenDataNotFound id);
  match token_data with
  | FungibleToken d =>
      d' ← lift (f d);
      u ← merge_token_delta id (mk_delta (Some (FungibleToken d)) (Some (FungibleToken d')));
      mret (mk u)
  end.

Definition rewrites (op : TokenOp) :
    option (TokenId * (DataDeltaUndo TokenData -> TokenAccountingUndo)) :=
  match op with
  | OpIssue _ _ | OpMint _ _ | OpUnmint _ _ => None
  | OpLock id => Some (id, LockSupplyUndo id)
  | OpFreeze id _ => Some (id, FreezeTokenUndo id)
  | OpUnfreeze id => Some (id, UnfreezeTokenUndo id)
  | OpChangeAuthority id _ => Some (id, ChangeTokenAuthorityUndo id)
  | OpChangeMetadataUri id _ => Some (id, ChangeTokenMetadataUriUndo id)
  end.

Lemma exec_op_rewrites op id mk c :
  rewrites op = Some (id, mk) -> exec_op op c = rewrite_token id (spec_data op) mk c.
Proof.
  destruct op; intros [= <- <-]; simpl;
    unfold lock_circulating_supply, freeze_token, unfreeze_token, change_authority,
      change_metadata_uri, rewrite_token, spec_data, mbind, st_bind, lift, ensure;
    (destruct (get_existing _ _ c) as [c' [[d0]|e0|]]; [|done|done]).
  - destruct (is_locked d0), (is_frozen d0); try done. by destruct (try_lock d0).
  - destruct (is_frozen d0); [done|]. by destruct (try_freeze d0 u).
  - destruct (is_frozen d0); [|done]. by destruct (try_unfreeze d0).
  - by destruct (is_frozen d0).
  - by destruct (is_frozen d0).
Qed.

Lemma rewrite_token_rep c lp l id f mk :
  cache_rep c lp l ->
  match (d ← existing_token l id; f d) with
  | Ok d' => exists c', rewrite_token id f mk c =
                 (c', Ok (mk (delta_undo l (set_token l id (Some (FungibleToken d'))) id))) /\
               cache_rep c' lp (set_token l id (Some (FungibleToken d')))
  | Err e => rewrite_token id f mk c = (c, Err e)
  | Panic => rewrite_token id f mk c = (c, Panic)
  end.
Proof.
  intros Hrep. unfold rewrite_token, existing_token, mbind, st_bind, lift.
  rewrite (get_existing_rep _ _ _ _ _ Hrep).
  destruct (l_token l id) as [[d]|] eqn:Htok; simpl; [|done].
  destruct (f d) as [d'|e|]; simpl; [|done|done].
  destruct (merge_token_delta_rep c lp l id
    (mk_delta (Some (FungibleToken d)) (Some (FungibleToken d')))) as (c' & Hm & Hrep');
    [done|by rewrite Htok|].
  exists c'. split; [|done]. rewrite Hm.
  unfold delta_undo. simpl. rewrite Htok. by rewrite fn_lookup_insert.
Qed.

Lemma spec_op_rewrites op id mk l :
  rewrites op = Some (id, mk) ->
  spec_op op l = (d' ← (d ← existing_token l id; spec_data op d);
                  Ok (set_token l id (Some (FungibleToken d')))).
Proof. destruct op; intros [= <- <-]; simpl; by destruct (existing_token l _). Qed.

Lemma exec_rewrites_rep c lp l op id mk :
  rewrites op = Some (id, mk) -> cache_rep c lp l ->
  match spec_op op l with
  | Ok l' => exists c', exec_op op c = (c', Ok (undo_record op l l')) /\ cache_rep c' lp l'
  | Err e => exec_op op c = (c, Err e)
  | Panic => exec_op op c = (c, Panic)
  end.
Proof.
  intros Hop Hrep. rewrite (exec_op_rewrites _ _ _ _ Hop).
  pose proof (rewrite_token_rep c lp l id (spec_data op) mk Hrep) as Hrw.
  rewrite (spec_op_rewrites _ _ _ _ Hop).
  assert (forall l', undo_record op l l' = mk (delta_undo l l' id)) as Hundo.
  { intros l'. by destruct op; simplify_eq/=. }
  destruct (d ← existing_token l id; spec_data op d) as [d'|e|]; simpl; [|done|done].
  by rewrite Hundo.
Qed.

Lemma exec_issue_rep c lp l id i :
  cache_rep c lp l ->
  match spec_op (OpIssue id i) l with
  | Ok l' => exists c', exec_op (OpIssue id i) c = (c', Ok (undo_record (OpIssue id i) l l')) /\
               cache_rep c' lp l'
  | Err e => exec_op (OpIssue id i) c = (c, Err e)
  | Panic => False
  end.
Proof.
  intros Hrep. simpl. unfold issue_token, mbind, st_bind, gets, lift.
  rewrite (cache_rep_token _ _ _ _ Hrep).
  destruct (l_token l id) as [t|] eqn:Htok; [done|]. simpl.
  rewrite (cache_rep_supply _ _ _ _ Hrep).
  destruct (Amount.eqb (l_supply l id) Amount.ZERO) eqn:Hz; simpl.
  - amount_inv. rewrite Hz. simpl.
    destruct (merge_token_delta_rep c lp l id
      (mk_delta None (Some (FungibleToken (from_issuance i))))) as (c' & Hm & Hrep');
      [done|by rewrite Htok|].
    exists c'. split; [|done]. rewrite Hm. unfold delta_undo. simpl.
    by rewrite Htok, fn_lookup_insert.
  - amount_inv. destruct (Amount.ltb Amount.ZERO (l_supply l id)) eqn:Hlt; [done|].
    amount_inv. exfalso. apply Hz, bint_eq. pose proof (bint_range (l_supply l id)).
    rewrite ival_ZERO in *. lia.
Qed.

Lemma exec_unmint_rep c lp l id a :
  cache_rep c lp l ->
  match spec_op (OpUnmint id a) l with
  | Ok l' => exists c', exec_op (OpUnmint id a) c = (c', Ok (undo_record (OpUnmint id a) l l')) /\
               cache_rep c' lp l'
  | Err e => exec_op (OpUnmint id a) c = (c, Err e)
  | Panic => False
  end.
Proof.
  intros Hrep. simpl. unfold unmint_tokens, spec_unmint, existing_token, mbind, st_bind, gets, lift.
  rewrite (get_existing_rep _ _ _ _ _ Hrep).
  destruct (l_token l id) as [[d]|] eqn:Htok; [|done]. simpl.
  destruct (is_locked d); [done|]. destruct (is_frozen d); [done|]. simpl.
  rewrite (cache_rep_supply _ _ _ _ Hrep).
  destruct (Amount.sub (l_supply l id) a) as [s|] eqn:Hs; simpl; amount_inv.
  - destruct (Amount.ltb (l_supply l id) a) eqn:Hlt; simpl; amount_inv;
      [pose proof (bint_range s); lia|].
    destruct (sub_supply_rep c lp l id a s) as (c' & Hm & Hrep'); [done..|].
    exists c'. by rewrite Hm.
  - destruct (Amount.ltb (l_supply l id) a) eqn:Hlt; simpl; amount_inv; [done|lia].
Qed.

(** The guards of minting, common to the code and the rules. *)
Lemma mint_guards_rep c lp l id a :
  cache_rep c lp l ->
  mint_tokens id a c =
    match mint_guard l id a with
    | Ok _ => (_ ← in_data (in_circulating_supply (add_unsigned id a));
               mret (MintTokenUndo id a)) c
    | Err e => (c, Err e)
    | Panic => (c, Panic)
    end.
Proof.
  intros Hrep. unfold mint_tokens, mint_guard, existing_token, mbind, st_bind, gets, lift.
  rewrite (get_existing_rep _ _ _ _ _ Hrep).
  destruct (l_token l id) as [[d]|]; [|done]. simpl.
  destruct (is_frozen d); [done|]. simpl. destruct (total_supply d) as [limit| |]; simpl.
  - rewrite (cache_rep_supply _ _ _ _ Hrep).
    destruct (Amount.add (l_supply l id) a) as [t|]; [|done]. simpl.
    replace (Amount.leb t limit) with (negb (Amount.ltb limit t)).
    + by destruct (Amount.ltb limit t).
    + unfold Amount.ltb, Amount.leb. lia.
  - by destruct (is_locked d).
  - done.
Qed.

(** Minting past what a delta can represent never leaves a readable cache. *)
Lemma add_unsigned_unreadable c lp l id a c' u :
  cache_rep c lp l -> i128_MAX < ival (l_supply l id) + ival a ->
  in_data (in_circulating_supply (add_unsigned id a)) c = (c', Ok u) -> ~ readable c' id.
Proof.
  intros Hrep Hbig Hrun Hread. unfold in_data, in_circulating_supply in Hrun. run_inv.
  apply add_unsigned_Ok in Hrun as (Ha & Hfit & ->).
  unfold readable, cache_get_circulating_supply in Hread. simpl in Hread.
  destruct (rep_parent _ _ _ Hrep id) as [_ Hp]. rewrite Hp in Hread. simpl in Hread.
  destruct (rep_supplies _ _ _ Hrep) as [_ Hsum Hpb _]. specialize (Hsum id). specialize (Hpb id).
  destruct (combine_amount_delta _ _) as [v|e|] eqn:Hc; [|done|done].
  pose proof Hc as Hv%combine_amount_delta_val. apply combine_amount_delta_Ok in Hc.
  fold (delta_at (set_delta (dd_circulating_supply (data c)) id
    (delta_at (dd_circulating_supply (data c)) id + ival a)) id) in Hv.
  rewrite delta_at_set, decide_True in Hv by done.
  case_match; [lia|]. subst v. lia.
Qed.

Lemma mint_guard_no_panic l id a : no_panic (mint_guard l id a).
Proof.
  unfold no_panic, mint_guard, existing_token. destruct (l_token l id) as [[d]|]; simpl; [|done].
  destruct (is_frozen d); simpl; [done|]. destruct (total_supply d) as [limit| |]; simpl.
  - destruct (Amount.add _ _) as [t|]; simpl; [|done]. by destruct (Amount.leb t limit).
  - by destruct (is_locked d).
  - done.
Qed.

(** A mint that leaves more than a delta can represent. *)
Definition over_limit (op : TokenOp) (l' : Ledger) : bool :=
  match op with
  | OpMint id _ => i128_MAX <? ival (l_supply l' id)
  | _ => false
  end.

Lemma exec_mint_rep c lp l id a :
  cache_rep c lp l ->
  match spec_op (OpMint id a) l with
  | Ok l' =>
      if over_limit (OpMint id a) l'
      then forall c' u, exec_op (OpMint id a) c = (c', Ok u) -> ~ readable c' id
      else exists c', exec_op (OpMint id a) c = (c', Ok (undo_record (OpMint id a) l l')) /\
             cache_rep c' lp l'
  | Err e => exec_op (OpMint id a) c = (c, Err e)
  | Panic => False
  end.
Proof.
  intros Hrep. simpl. rewrite (mint_guards_rep _ _ _ _ _ Hrep). unfold spec_mint.
  pose proof (mint_guard_no_panic l id a) as Hnp.
  destruct (mint_guard l id a) as [[]|e|]; simpl; [|done|done].
  destruct (Amount.into_signed a) as [sa|] eqn:Hsa; simpl; amount_inv.
  - pose proof (rep_bound _ _ _ Hrep id). destruct (Amount.add (l_supply l id) a) as [t|] eqn:Ht;
      simpl; amount_inv; [|blia]. rewrite fn_lookup_insert.
    destruct (Z.ltb_spec i128_MAX (ival t)) as [Hb|Hb].
    + intros c' u Hrun. run_inv.
      apply (add_unsigned_unreadable c lp l id a _ tt); [done|lia|done].
    + destruct (add_supply_rep c lp l id a t) as (c' & Hm & Hrep'); [done..|].
      exists c'. by erewrite st_bind_run.
  - unfold mbind, st_bind, in_data, in_circulating_supply, zoom, add_unsigned, lift, mbind, st_bind.
    rewrite (proj2 (into_signed_None a)) by done. simpl. by destruct c as [? [? ?]].
Qed.

Lemma existing_token_no_panic l id : existing_token l id <> Panic.
Proof. unfold existing_token. by destruct (l_token l id) as [[]|]. Qed.

Lemma spec_data_no_panic op d : spec_data op d <> Panic.
Proof.
  destruct op; simpl; try done; repeat case_match; try done;
    unfold try_lock, try_freeze, try_unfreeze; repeat case_match; done.
Qed.

(** Every operation, on every branch: the cache does what the rules say,
    fails with the same error and then leaves everything as it was. *)
Lemma exec_op_rep_tokens c lp l op :
  cache_rep c lp l ->
  match spec_op op l with
  | Ok l' =>
      if over_limit op l'
      then forall c' u, exec_op op c = (c', Ok u) -> ~ readable c' (op_id op)
      else exists c', exec_op op c = (c', Ok (undo_record op l l')) /\ cache_rep c' lp l'
  | Err e => exec_op op c = (c, Err e)
  | Panic => False
  end.
Proof.
  intros Hrep. destruct (rewrites op) as [[id mk]|] eqn:Hop.
  - pose proof (exec_rewrites_rep _ _ _ _ _ _ Hop Hrep) as Hex.
    destruct (spec_op op l) as [l'|e|] eqn:Hs; [|done|].
    + by replace (over_limit op l') with false by (by destruct op).
    + rewrite (spec_op_rewrites _ _ _ _ Hop) in Hs.
      pose proof (existing_token_no_panic l id).
      destruct (existing_token l id) as [d|e|]; simpl in Hs; [|done|done].
      pose proof (spec_data_no_panic op d). by destruct (spec_data op d).
  - destruct op; try done.
    + by apply exec_issue_rep.
    + by apply exec_mint_rep.
    + by apply exec_unmint_rep.
Qed.

Lemma exec_op_inv_tokens c lp l op c' u :
  cache_rep c lp l -> exec_op op c = (c', Ok u) -> readable c' (op_id op) ->
  exists l', spec_op op l = Ok l' /\ cache_rep c' lp l' /\ u = undo_record op l l'.
Proof.
  intros Hrep Hrun Hread. pose proof (exec_op_rep_tokens c lp l op Hrep) as Hex.
  destruct (spec_op op l) as [l'|e|]; [|by rewrite Hrun in Hex|done].
  destruct (over_limit op l'); [by apply Hex in Hrun|].
  destruct Hex as (c1 & Hc1 & Hrep1). rewrite Hrun in Hc1. simplify_eq. eauto.
Qed.

Lemma exec_op_after c lp l op l' :
  cache_rep c lp l -> spec_op op l = Ok l' -> over_limit op l' = false ->
  cache_rep (exec_op op c).1 lp l'.
Proof.
  intros Hrep Hspec Hlim. pose proof (exec_op_rep_tokens c lp l op Hrep) as Hex.
  rewrite Hspec, Hlim in Hex. by destruct Hex as (c' & -> & Hrep').
Qed.

Lemma cache_rep_readable c lp l id : cache_rep c lp l -> readable c id.
Proof. intros Hrep. unfold readable. by rewrite (cache_rep_supply _ _ _ _ Hrep). Qed.
End refinement.

(** ** Ledgers up to pointwise equality *)

#[global] Instance Ledger_equiv `{CryptoTypes} : Equiv Ledger := fun l1 l2 =>
  forall id, l_token l1 id = l_token l2 id /\ l_supply l1 id = l_supply l2 id.

#[global] Instance Ledger_equivalence `{CryptoTypes} : Equivalence (≡@{Ledger}).
Proof.
  split.
  - done.
  - intros l1 l2 Heq id. by destruct (Heq id).
  - intros l1 l2 l3 Heq Heq' id. destruct (Heq id), (Heq' id). by split; etrans.
Qed.

#[global] Instance cache_rep_proper `{CryptoTypes} {P} `{!TokensAccountingView P} :
  Proper ((=) ==> (=) ==> (≡) ==> iff) (@cache_rep _ P _).
Proof.
  assert (forall (c : TokensAccountingCache P) lp l l',
    l ≡ l' -> cache_rep c lp l -> cache_rep c lp l') as Himp.
  { intros c lp l l' Heq [Hp Hd Hs]. split; [done| |].
    - apply (data_rep_ext _ _ (l_token l)); [|done]. apply Heq.
    - apply (balance_rep_ext _ _ (l_supply l)); [|done]. apply Heq. }
  intros c ? <- lp ? <- l l' Heq. split; apply Himp; [done|by symmetry].
Qed.

Lemma cache_rep_equiv_tokens `{CryptoTypes} {P} `{!TokensAccountingView P}
    (c : TokensAccountingCache P) lp l l' :
  l' ≡ l -> cache_rep c lp l' -> cache_rep c lp l.
Proof. by intros ->. Qed.

Lemma set_token_restore `{CryptoTypes} l id d :
  set_token (set_token l id d) id (l_token l id) ≡ l.
Proof.
  intros j. simpl. split; [|done]. unfold insert, fn_insert. repeat case_decide; congruence.
Qed.
Lemma set_supply_restore `{CryptoTypes} l id a :
  set_supply (set_supply l id a) id (l_supply l id) ≡ l.
Proof.
  intros j. simpl. split; [done|]. unfold insert, fn_insert. repeat case_decide; congruence.
Qed.

(** * Undo *)

Section undo.
Context `{CryptoTypes}.
Implicit Types l : Ledger.

(** The guards of [undo] hold of the data an operation has just written. *)
Lemma spec_data_undo_guard op d d' :
  spec_data op d = Ok d' ->
  match op with
  | OpLock _ => is_locked d' = true
  | OpFreeze _ _ => is_frozen d' = true
  | OpUnfreeze _ | OpChangeAuthority _ _ | OpChangeMetadataUri _ _ => is_frozen d' = false
  | _ => True
  end.
Proof.
  destruct op; simpl; try done.
  - unfold try_lock. repeat case_match; simpl; try done. by intros [= <-].
  - unfold try_freeze. repeat case_match; simpl; try done. by intros [= <-].
  - unfold try_unfreeze. repeat case_match; simpl; try done. by intros [= <-].
  - destruct (is_frozen d) eqn:Hf; [done|]. by intros [= <-].
  - destruct (is_frozen d) eqn:Hf; [done|]. by intros [= <-].
Qed.

Context {P : Type} `{!TokensAccountingView P}.
Implicit Types c : TokensAccountingCache P.

Lemma undo_rewrites_rep c lp l l' op id mk :
  rewrites op = Some (id, mk) -> spec_op op l = Ok l' -> cache_rep c lp l' ->
  exists c', undo (undo_record op l l') c = (c', Ok tt) /\ cache_rep c' lp l.
Proof.
  intros Hop Hspec Hrep. rewrite (spec_op_rewrites _ _ _ _ Hop) in Hspec. run_inv.
  unfold existing_token in Hspec. destruct (l_token l id) as [[d0]|] eqn:Htok; simplify_eq.
  set (l' := set_token l id (Some (FungibleToken x))) in *.
  assert (l_token l' id = Some (FungibleToken x)) as Htok'.
  { apply set_token_eq. }
  pose proof (spec_data_undo_guard _ _ _ H1) as Hguard.
  destruct (undo_token_delta_rep c lp l' id (delta_undo l l' id)) as (c' & Hu & Hrep').
  { done. }
  { done. }
  exists c'. split.
  - destruct op; try done; injection Hop as -> _; cbn [undo undo_record];
      unfold mbind, st_bind, lift, ensure;
      rewrite (get_existing_rep _ _ _ _ _ Hrep), Htok'; cbn [ok_or]; rewrite Hguard; exact Hu.
  - exact (cache_rep_equiv_tokens _ _ _ _ (set_token_restore l id _) Hrep').
Qed.

Lemma undo_op_rep_tokens c lp l l' op :
  ledger_inv l -> bounded l -> spec_op op l = Ok l' -> cache_rep c lp l' ->
  exists c', undo (undo_record op l l') c = (c', Ok tt) /\ cache_rep c' lp l.
Proof.
  intros Hinv Hb Hspec Hrep. destruct (rewrites op) as [[id mk]|] eqn:Hop;
    [by eapply undo_rewrites_rep|].
  destruct op as [id i|id a|id a| | | | |]; try done; clear Hop; cbn [undo undo_record].
  - apply spec_issue_Ok in Hspec as (Htok & _ & ->). set (l' := set_token l id _) in *.
    destruct (undo_token_delta_rep c lp l' id (delta_undo l l' id)) as (c' & Hu & Hrep'); [done..|].
    exists c'. split; [|exact (cache_rep_equiv_tokens _ _ _ _ (set_token_restore l id _) Hrep')].
    unfold mbind, st_bind. rewrite (get_existing_rep _ _ _ _ _ Hrep). unfold l' at 1.
    by rewrite set_token_eq.
  - apply spec_mint_Ok in Hspec as (d & t & Htok & _ & Ht & -> & Hsup).
    specialize (Hinv id). rewrite Htok in Hinv. destruct Hinv as [Hlock _].
    destruct (sub_supply_rep c lp (set_supply l id t) id a (l_supply l id)) as (c' & Hu & Hrep');
      [done|rewrite set_supply_eq; lia|].
    exists c'. split; [|exact (cache_rep_equiv_tokens _ _ _ _ (set_supply_restore l id _) Hrep')].
    unfold mbind, st_bind, lift. rewrite (get_existing_rep _ _ _ _ _ Hrep). simpl. rewrite Htok.
    simpl. destruct (is_locked d); [|done]. by rewrite (Hlock eq_refl) in Hsup.
  - apply spec_unmint_Ok in Hspec as (d & t & Htok & _ & Hlock & Ht & ->).
    destruct (add_supply_rep c lp (set_supply l id t) id a (l_supply l id)) as (c' & Hu & Hrep');
      [done|rewrite set_supply_eq; lia|apply Hb|].
    exists c'. split; [|exact (cache_rep_equiv_tokens _ _ _ _ (set_supply_restore l id _) Hrep')].
    unfold mbind, st_bind, lift. rewrite (get_existing_rep _ _ _ _ _ Hrep). simpl. rewrite Htok.
    simpl. by rewrite Hlock.
Qed.
End undo.

(** * Invariants of the ledger *)

Section invariants.
Context `{CryptoTypes}.
Implicit Types (l : Ledger) (d : FungibleTokenData).

(** No rewriting operation touches the supply policy. *)
Lemma spec_data_supply op d d' :
  spec_data op d = Ok d' ->
  total_supply d' = total_supply d /\
  (is_locked d = true -> is_locked d' = true) /\
  (is_locked d' = true -> is_locked d = true \/ total_supply d = Lockable).
Proof.
  destruct op; simpl; unfold try_lock, try_freeze, try_unfreeze; repeat case_match;
    simpl; intros; simplify_eq/=; auto.
Qed.

Lemma spec_op_other op l l' id :
  spec_op op l = Ok l' -> id <> op_id op ->
  l_token l' id = l_token l id /\ l_supply l' id = l_supply l id.
Proof.
  intros Hspec Hne. destruct (rewrites op) as [[i mk]|] eqn:Hop.
  - rewrite (spec_op_rewrites _ _ _ _ Hop) in Hspec. run_inv. simpl.
    rewrite fn_lookup_insert_ne; [done|]. destruct op; naive_solver.
  - destruct op; try done; simpl in Hne.
    + apply spec_issue_Ok in Hspec as (_ & _ & ->). simpl. by rewrite fn_lookup_insert_ne.
    + apply spec_mint_Ok in Hspec as (d & t & _ & _ & _ & -> & _). simpl.
      by rewrite fn_lookup_insert_ne.
    + apply spec_unmint_Ok in Hspec as (d & t & _ & _ & _ & _ & ->). simpl.
      by rewrite fn_lookup_insert_ne.
Qed.

Lemma spec_op_inv_tokens op l l' : ledger_inv l -> spec_op op l = Ok l' -> ledger_inv l'.
Proof.
  intros Hinv Hspec id. destruct (decide (id = op_id op)) as [->|Hne].
  2: { destruct (spec_op_other _ _ _ _ Hspec Hne) as [-> ->]. apply Hinv. }
  specialize (Hinv (op_id op)). destruct (rewrites op) as [[i mk]|] eqn:Hop.
  - assert (op_id op = i) as Hi by (destruct op; naive_solver). rewrite Hi in *.
    rewrite (spec_op_rewrites _ _ _ _ Hop) in Hspec. unfold existing_token in Hspec.
    destruct (l_token l i) as [[d]|]; [|done]. simpl in Hspec. run_inv.
    rewrite set_token_eq. simpl. apply spec_data_supply in Hspec as (-> & _ & Hl).
    destruct Hinv as [Hlk Hfix]. split; [|done]. intros Hx. destruct (Hl Hx); auto.
  - destruct op; try done; cbn [op_id] in *.
    + apply spec_issue_Ok in Hspec as (Htok & Hz & ->). rewrite set_token_eq. simpl.
      rewrite Hz. destruct i; simpl. split; [done|]. intros limit _. simpl. blia.
    + apply spec_mint_Ok in Hspec as (d & t & Htok & _ & _ & -> & Hs). simpl.
      rewrite Htok in *. rewrite fn_lookup_insert. destruct Hinv as [Hl _]. split; [done|].
      intros limit Hlim. by rewrite Hlim in Hs.
    + apply spec_unmint_Ok in Hspec as (d & t & Htok & _ & _ & Ht & ->). simpl.
      rewrite Htok in *. rewrite fn_lookup_insert. destruct Hinv as [Hl Hfix]. split; [done|].
      intros limit Hlim. specialize (Hfix _ Hlim). blia.
Qed.

(** A locked supply stays as it is, and stays locked. *)
Definition supply_locked l (id : TokenId) : Prop :=
  exists d, l_token l id = Some (FungibleToken d) /\ is_locked d = true.

Lemma spec_op_locked op l l' id :
  ledger_inv l -> supply_locked l id -> spec_op op l = Ok l' ->
  supply_locked l' id /\ l_supply l' id = l_supply l id.
Proof.
  intros Hinv (d & Htok & Hlock) Hspec. destruct (decide (id = op_id op)) as [->|Hne].
  2: { destruct (spec_op_other _ _ _ _ Hspec Hne) as [Ht ->]. split; [|done].
       exists d. by rewrite Ht. }
  specialize (Hinv (op_id op)). rewrite Htok in Hinv. destruct Hinv as [Hlk _].
  destruct (rewrites op) as [[i mk]|] eqn:Hop.
  - assert (op_id op = i) as Hi by (destruct op; naive_solver). rewrite Hi in *.
    rewrite (spec_op_rewrites _ _ _ _ Hop) in Hspec. unfold existing_token in Hspec.
    rewrite Htok in Hspec. simpl in Hspec. run_inv. split; [|done].
    apply spec_data_supply in Hspec as (_ & Hl & _). exists x. rewrite set_token_eq. auto.
  - destruct op; try done; cbn [op_id] in *.
    + apply spec_issue_Ok in Hspec as (Hnone & _). congruence.
    + apply spec_mint_Ok in Hspec as (d' & t & Htok' & _ & _ & _ & Hs). simplify_eq.
      rewrite (Hlk Hlock) in Hs. congruence.
    + apply spec_unmint_Ok in Hspec as (d' & t & Htok' & _ & Hl & _). congruence.
Qed.

(** A token frozen without a way back never changes again. *)
Definition frozen_for_good l (id : TokenId) : Prop :=
  exists d, l_token l id = Some (FungibleToken d) /\
    frozen_state d = IsTokenFrozen.Yes IsTokenUnfreezable.No.

Lemma spec_op_frozen op l l' id :
  frozen_for_good l id -> spec_op op l = Ok l' ->
  l_token l' id = l_token l id /\ l_supply l' id = l_supply l id.
Proof.
  intros (d & Htok & Hfr) Hspec. destruct (decide (id = op_id op)) as [->|Hne];
    [exfalso|by eapply spec_op_other].
  assert (is_frozen d = true /\ can_be_unfrozen d = false) as [Hf Hu].
  { unfold is_frozen, can_be_unfrozen. by rewrite Hfr. }
  destruct (rewrites op) as [[i mk]|] eqn:Hop.
  - assert (op_id op = i) as Hi by (destruct op; naive_solver). rewrite Hi in *.
    rewrite (spec_op_rewrites _ _ _ _ Hop) in Hspec. unfold existing_token in Hspec.
    rewrite Htok in Hspec. simpl in Hspec. destruct op; simplify_eq/=;
      unfold try_unfreeze in Hspec; rewrite ?Hf, ?Hu in Hspec; try done.
    by destruct (is_locked d).
  - destruct op; try done; cbn [op_id] in *.
    + apply spec_issue_Ok in Hspec as (Hnone & _). congruence.
    + apply spec_mint_Ok in Hspec as (d' & t & Htok' & Hf' & _). congruence.
    + apply spec_unmint_Ok in Hspec as (d' & t & Htok' & Hf' & _). congruence.
Qed.
End invariants.

(** * Flushing a cache

    [consume] the deltas of a cache and write them to its parent: the parent
    then shows what the cache showed, whether it is another cache or a
    database. *)

(** What the database relies on: a storage that keeps what is written. *)
Class ReliableTokensStorage `{CryptoTypes} (S : Type) `{!TokensAccountingStorage S} := {
  tokens_of : S -> gmap TokenId TokenData;
  supplies_of : S -> gmap TokenId Amount;
  tokens_cell : reliable_cell storage_get_token_data set_token_data del_token_data
    tokens_of (same supplies_of);
  supplies_cell : reliable_cell storage_get_circulating_supply set_circulating_supply
    del_circulating_supply supplies_of (same tokens_of)
}.

#[global] Instance in_memory_reliable `{CryptoTypes} : ReliableTokensStorage InMemoryTokensAccounting.
Proof.
  refine {| tokens_of := mem_tokens_data; supplies_of := mem_circulating_supply |};
    split; intros; simpl; unfold same; eauto.
Defined.

Lemma flush_to_cache_tokens `{CryptoTypes} {P} `{!TokensAccountingView P}
    (c : TokensAccountingCache (TokensAccountingCache P)) lpp lp l :
  cache_rep (parent c) lpp lp -> cache_rep c lp l ->
  exists p', batch_write_tokens_data (data c) (parent c) =
      (p', Ok (mk_delta_undo_data (invert <$> dd_token_data (data c))
                 (dd_circulating_supply (data c)))) /\
    cache_rep p' lpp l.
Proof.
  intros [Hp Hd Hs] [_ Hd' Hs'].
  destruct (data_rep_flush _ _ _ _ _ Hd Hd') as (t & Ht & Htr).
  destruct (balance_rep_flush _ _ _ _ _ Hs Hs') as (s & Hsm & Hsr).
  exists (mk_cache (parent (parent c)) (mk_delta_data t s)). split; [|done].
  unfold batch_write_tokens_data, merge_with_delta, in_data, in_token_data,
    in_circulating_supply, zoom, mbind, st_bind. rewrite Ht. simpl. by rewrite Hsm.
Qed.

Lemma flush_to_db_tokens `{CryptoTypes} {S} `{!TokensAccountingStorage S} `{!ReliableTokensStorage S}
    (c : TokensAccountingCache (TokensAccountingDB S)) lp l :
  cache_rep c lp l ->
  exists db' u, db_batch_write_tokens_data (data c) (parent c) = (db', Ok u) /\
    represents db' l /\
    ud_token_data u = invert <$> dd_token_data (data c) /\
    forall id, delta_at (ud_circulating_supply u) id
               = - delta_at (dd_circulating_supply (data c)) id.
Proof.
  intros [Hp Hd Hs]. destruct (parent c) as [s] eqn:Hpar.
  assert (forall id, tokens_of s !! id = l_token lp id) as Ht.
  { intros id. destruct (Hp id) as [Ht _]. simpl in Ht. rewrite (cell_get _ _ _ _ _ tokens_cell) in Ht.
    congruence. }
  assert (forall id, default Amount.ZERO (supplies_of s !! id) = l_supply lp id) as Hsup.
  { intros id. destruct (Hp id) as [_ Hsu]. simpl in Hsu.
    rewrite (cell_get _ _ _ _ _ supplies_cell) in Hsu. by injection Hsu. }
  destruct (store_flush_data AccountingError ViewFail StorageWrite _ _ _ _ _
    (dd_token_data (data c)) s (l_token l) tokens_cell) as (s1 & l1 & Hr1 & Ho1 & Hu1 & Hf1).
  { by eapply data_rep_base_ext, Hd. }
  destruct (store_flush_balance AccountingError ViewFail StorageWrite _ _ _ _ _
    (dd_circulating_supply (data c)) s1 (l_supply l) supplies_cell)
    as (s2 & l2 & Hr2 & Ho2 & [_ Hu2] & Hf2).
  { eapply balance_rep_base_ext, Hs. intros k. by rewrite Hf1. }
  exists (mk_db s2), (mk_delta_undo_data (btree_collect l1) (btree_collect l2)).
  split; [|split; [|done]].
  - unfold db_batch_write_tokens_data, st_map_err, db_merge_with_delta, in_store, zoom, mbind,
      st_bind, db_merge_token_data, db_merge_circulating_supply. simpl. by rewrite Hr1, Hr2.
  - intros id. simpl. rewrite (cell_get _ _ _ _ _ tokens_cell), (cell_get _ _ _ _ _ supplies_cell).
    simpl. rewrite Ho2. split; [|done]. by rewrite Hf2, Ho1.
Qed.

(** * Sequences of operations *)

Section traces.
Context `{CryptoTypes} {P : Type} `{!TokensAccountingView P}.
Implicit Types (c : TokensAccountingCache P) (us : list TokenAccountingUndo).

(** [trace c us c']: successful operations lead from [c] to [c'], with the
    undo records [us], the latest first. *)
Inductive trace c : list TokenAccountingUndo -> TokensAccountingCache P -> Prop :=
  | trace_nil : trace c [] c
  | trace_step us c1 op c2 u :
      trace c us c1 -> exec_op op c1 = (c2, Ok u) -> readable c2 (op_id op) ->
      trace c (u :: us) c2.

(** Disconnecting: the undo records are applied from the latest on. *)
Definition undo_all us : ST (TokensAccountingCache P) Error unit := try_for_each undo us.

(** The ledgers along a trace. *)
Lemma trace_ledger_tokens c us c' lp l :
  trace c us c' -> cache_rep c lp l -> ledger_inv l ->
  exists l', cache_rep c' lp l' /\ ledger_inv l' /\
    (forall id, supply_locked l id ->
       supply_locked l' id /\ l_supply l' id = l_supply l id) /\
    (forall id, frozen_for_good l id ->
       l_token l' id = l_token l id /\ l_supply l' id = l_supply l id).
Proof.
  intros Htr Hrep Hinv. induction Htr as [|us c1 op c2 u Htr IH Hexec Hread].
  - exists l. auto.
  - destruct IH as (l1 & Hrep1 & Hinv1 & Hlock & Hfroz).
    destruct (exec_op_inv_tokens _ _ _ _ _ _ Hrep1 Hexec Hread) as (l2 & Hspec & Hrep2 & _).
    exists l2. split; [done|]. split; [by eapply spec_op_inv_tokens|]. split.
    + intros id Hl. destruct (Hlock id Hl) as [Hl1 Hs1].
      destruct (spec_op_locked _ _ _ _ Hinv1 Hl1 Hspec) as [Hl2 Hs2]. split; congruence.
    + intros id Hf. destruct (Hfroz id Hf) as [Ht1 Hs1].
      assert (frozen_for_good l1 id) as Hf1 by (unfold frozen_for_good; by rewrite Ht1).
      destruct (spec_op_frozen _ _ _ _ Hf1 Hspec) as [Ht2 Hs2]. split; congruence.
Qed.
End traces.

Lemma undo_all_restores_tokens `{CryptoTypes} {P P'} `{!TokensAccountingView P, !TokensAccountingView P'}
    (c c' : TokensAccountingCache P) us lp l :
  trace c us c' -> cache_rep c lp l -> ledger_inv l ->
  exists l', cache_rep c' lp l' /\
    forall (d : TokensAccountingCache P') lpd, cache_rep d lpd l' ->
      exists d', undo_all us d = (d', Ok tt) /\ cache_rep d' lpd l.
Proof.
  intros Htr Hrep Hinv. induction Htr as [|us c1 op c2 u Htr IH Hexec Hread].
  - exists l. split; [done|]. intros d lpd Hd. by exists d.
  - destruct IH as (l1 & Hrep1 & Hundo).
    destruct (trace_ledger_tokens _ _ _ _ _ Htr Hrep Hinv) as (l1' & Hrep1' & Hinv1' & _).
    assert (ledger_inv l1) as Hinv1.
    { intros id. specialize (Hinv1' id).
      pose proof (cache_rep_token _ _ _ id Hrep1). pose proof (cache_rep_token _ _ _ id Hrep1').
      pose proof (cache_rep_supply _ _ _ id Hrep1). pose proof (cache_rep_supply _ _ _ id Hrep1').
      replace (l_token l1 id) with (l_token l1' id) by congruence.
      by replace (l_supply l1 id) with (l_supply l1' id) by congruence. }
    destruct (exec_op_inv_tokens _ _ _ _ _ _ Hrep1 Hexec Hread) as (l2 & Hspec & Hrep2 & ->).
    exists l2. split; [done|]. intros d lpd Hd.
    destruct (undo_op_rep_tokens d lpd l1 l2 op Hinv1 (rep_bound _ _ _ Hrep1) Hspec Hd)
      as (d1 & Hd1 & Hrd1).
    destruct (Hundo d1 lpd Hrd1) as (d2 & Hd2 & Hrd2).
    exists d2. split; [|done]. unfold undo_all. simpl. by erewrite st_bind_run.
Qed.

(** * A concrete ledger

    An empty in-memory storage, and a token with a fixed supply of 1000. *)

Module Example.
#[export] Existing Instance numbered_keys.

Definition store : TokensAccountingDB InMemoryTokensAccounting := mk_db InMemoryTokensAccounting_new.
Abbreviation Cache := (TokensAccountingCache (TokensAccountingDB InMemoryTokensAccounting)).
Definition empty_ledger : Ledger := mk_ledger (fun _ => None) (fun _ => Amount.ZERO).
Definition cache : Cache := TokensAccountingCache_new store.

Definition issuance (s : TokenTotalSupply) : TokenIssuance := TokenIssuance_V1 {|
  iss_token_ticker := []; iss_number_of_decimals := @mk_bint 0 (2 ^ 8 - 1) 2 eq_refl; iss_metadata_uri := [];
  iss_total_supply := s; iss_authority := AnyoneCanSpend;
  iss_is_freezable := IsTokenFreezable.Yes |}.

Lemma store_represents_tokens : represents store empty_ledger.
Proof. intros id. split; [done|]. simpl. by rewrite lookup_empty. Qed.

Lemma empty_bounded_tokens : bounded empty_ledger.
Proof. intros id. simpl. blia. Qed.

Lemma empty_inv_tokens : ledger_inv empty_ledger.
Proof. by intros id. Qed.

Lemma cache_rep_cache_tokens : cache_rep cache empty_ledger empty_ledger.
Proof. apply cache_rep_new_tokens; [apply store_represents_tokens|apply empty_bounded_tokens]. Qed.

(** The state after an operation, and the undo record it returned. *)
Definition after (op : TokenOp) (c : Cache) : Cache := (exec_op op c).1.
Definition record_of (op : TokenOp) (c : Cache) : TokenAccountingUndo :=
  match (exec_op op c).2 with Ok u => u | _ => MintTokenUndo 0 Amount.ZERO end.

Definition issue (s : TokenTotalSupply) : TokenOp := OpIssue 7 (issuance s).
Definition mint : TokenOp := OpMint 7 (Amount.lit 600).
Definition issued (s : TokenTotalSupply) : Cache := after (issue s) cache.
Definition minted (s : TokenTotalSupply) : Cache := after mint (issued s).
Definition locked : Cache := after (OpLock 7) (minted Lockable).
Definition frozen : Cache := after (OpFreeze 7 IsTokenUnfreezable.No) locked.

(** The ledgers these caches show. *)
Definition token (s : TokenTotalSupply) (is_locked : bool) (f : IsTokenFrozen) : TokenData :=
  FungibleToken (FungibleTokenData_new_unchecked [] (@mk_bint 0 (2 ^ 8 - 1) 2 eq_refl) [] s
    is_locked f AnyoneCanSpend).
Definition issued_ledger (s : TokenTotalSupply) : Ledger :=
  set_token empty_ledger 7 (Some (token s false (IsTokenFrozen.No IsTokenFreezable.Yes))).
Definition minted_ledger (s : TokenTotalSupply) : Ledger :=
  set_supply (issued_ledger s) 7 (Amount.lit 600).
Definition locked_ledger : Ledger :=
  set_token (minted_ledger Lockable) 7
    (Some (token Lockable true (IsTokenFrozen.No IsTokenFreezable.Yes))).
Definition frozen_ledger : Ledger :=
  set_token locked_ledger 7
    (Some (token Lockable true (IsTokenFrozen.Yes IsTokenUnfreezable.No))).

Lemma issued_rep s : cache_rep (issued s) empty_ledger (issued_ledger s).
Proof. by apply (exec_op_after _ _ empty_ledger); [apply cache_rep_cache_tokens|..]. Qed.

Lemma minted_rep s :
  s = Lockable \/ s = Fixed (Amount.lit 1000) ->
  cache_rep (minted s) empty_ledger (minted_ledger s).
Proof.
  intros Hs. apply (exec_op_after _ _ (issued_ledger s)); [apply issued_rep| |done].
  by destruct Hs as [->| ->].
Qed.

Lemma frozen_rep : cache_rep frozen empty_ledger frozen_ledger.
Proof.
  apply (exec_op_after _ _ locked_ledger); [|done|done].
  apply (exec_op_after _ _ (minted_ledger Lockable)); [|done|done].
  apply minted_rep. auto.
Qed.

Lemma frozen_inv : ledger_inv frozen_ledger.
Proof.
  apply (spec_op_inv_tokens (OpFreeze 7 IsTokenUnfreezable.No) locked_ledger); [|done].
  apply (spec_op_inv_tokens (OpLock 7) (minted_ledger Lockable)); [|done].
  apply (spec_op_inv_tokens mint (issued_ledger Lockable)); [|done].
  by apply (spec_op_inv_tokens (issue Lockable) empty_ledger).
Qed.

(** A second cache on top of a first one. *)
Definition parent_cache : Cache := minted (Fixed (Amount.lit 1000)).
Definition child : TokensAccountingCache Cache :=
  (exec_op (OpUnmint 7 (Amount.lit 100)) (TokensAccountingCache_new parent_cache)).1.
Definition child_ledger : Ledger :=
  set_supply (minted_ledger (Fixed (Amount.lit 1000))) 7 (Amount.lit 500).

Lemma child_rep_tokens : cache_rep child (minted_ledger (Fixed (Amount.lit 1000))) child_ledger.
Proof.
  apply (exec_op_after _ _ (minted_ledger (Fixed (Amount.lit 1000)))); [|done|done].
  apply cache_rep_new_tokens; [eapply cache_represents_tokens|eapply rep_bound]; apply minted_rep; auto.
Qed.
End Example.

(** * Main properties *)

Section properties.
Context `{CryptoTypes} {P : Type} `{!TokensAccountingView P}.

(** C30: every operation of the cache (issue, mint, unmint, lock, freeze,
    unfreeze, change authority, change metadata uri) does to the visible
    ledger exactly what the rules say: it succeeds with the ruled new ledger
    and undo record, or fails with the ruled error and changes nothing.  The claim
    is for supplies up to [i128::MAX]: the cache keeps the change of a supply as a
    signed 128-bit number, so a mint that the rules allow beyond that is not
    part of it (it never leaves a supply that can be read,
    [mint_beyond_i128_is_unreadable]). *)
Theorem tokens_operations_follow_rules (c : TokensAccountingCache P) lp l op :
  cache_rep c lp l ->
  match spec_op op l with
  | Ok l' => over_limit op l' = false ->
      exists c', exec_op op c = (c', Ok (undo_record op l l')) /\ cache_rep c' lp l'
  | Err e => exec_op op c = (c, Err e)
  | Panic => False
  end.
Proof.
  intros Hrep. pose proof (exec_op_rep_tokens c lp l op Hrep) as Hex.
  destruct (spec_op op l); [|done|done]. intros Hlim. by rewrite Hlim in Hex.
Qed.

(** C31: whatever operations are executed, the visible ledger keeps its
    invariant: a token that does not exist has no supply, a fixed supply is
    never exceeded, only lockable supplies are locked. *)
Theorem tokens_supply_invariant (c c' : TokensAccountingCache P) us lp l :
  cache_rep c lp l -> ledger_inv l -> trace c us c' ->
  exists l', represents c' l' /\ ledger_inv l'.
Proof.
  intros Hrep Hinv Htr. destruct (trace_ledger_tokens _ _ _ _ _ Htr Hrep Hinv) as (l' & Hrep' & Hinv' & _).
  exists l'. split; [by eapply cache_represents_tokens|done].
Qed.

(** Once the supply of a token is locked, no sequence of operations
    changes it; and a token frozen as not unfreezable keeps both its data and
    its supply. *)
Theorem tokens_lock_and_freeze_are_final (c c' : TokensAccountingCache P) us lp l id :
  cache_rep c lp l -> ledger_inv l -> trace c us c' ->
  (supply_locked l id ->
     cache_get_circulating_supply c' id = cache_get_circulating_supply c id) /\
  (frozen_for_good l id ->
     cache_get_token_data c' id = cache_get_token_data c id /\
     cache_get_circulating_supply c' id = cache_get_circulating_supply c id).
Proof.
  intros Hrep Hinv Htr.
  destruct (trace_ledger_tokens _ _ _ _ _ Htr Hrep Hinv) as (l' & Hrep' & _ & Hlock & Hfroz).
  rewrite !(cache_rep_supply _ _ _ id Hrep), !(cache_rep_supply _ _ _ id Hrep').
  rewrite !(cache_rep_token _ _ _ id Hrep), !(cache_rep_token _ _ _ id Hrep').
  split.
  - intros Hl. by destruct (Hlock id Hl) as [_ ->].
  - intros Hf. by destruct (Hfroz id Hf) as [-> ->].
Qed.

(** C32: applying the undo records of a sequence of operations, from the
    latest on, succeeds and shows the ledger from before the sequence.  This
    holds for any cache that shows the ledger after the sequence, so also for
    a fresh cache over a parent to which the operations were flushed. *)
Theorem tokens_undo_restores_ledger {P'} `{!TokensAccountingView P'}
    (c c' : TokensAccountingCache P) us lp l :
  cache_rep c lp l -> ledger_inv l -> trace c us c' ->
  exists l', cache_rep c' lp l' /\
    forall (d : TokensAccountingCache P') lpd, cache_rep d lpd l' ->
      exists d', undo_all us d = (d', Ok tt) /\ cache_rep d' lpd l.
Proof. intros Hrep Hinv Htr. by eapply undo_all_restores_tokens. Qed.

(** Flushing a cache into the cache below it always succeeds, returns
    the inverted data deltas, and the cache below then shows what the flushed
    cache showed. *)
Theorem tokens_flush_to_cache (c : TokensAccountingCache (TokensAccountingCache P)) lpp lp l :
  cache_rep (parent c) lpp lp -> cache_rep c lp l ->
  exists p', batch_write_tokens_data (data c) (parent c) =
      (p', Ok (mk_delta_undo_data (invert <$> dd_token_data (data c))
                 (dd_circulating_supply (data c)))) /\
    cache_rep p' lpp l.
Proof. apply flush_to_cache_tokens. Qed.

(** A token of unlimited supply is not limited by the amount type
    ([u128]) but by [i128::MAX]: the mint that crosses it still succeeds, and
    from then on the supply of the token cannot be queried. *)
Theorem mint_beyond_i128_is_unreadable (c : TokensAccountingCache P) lp l id d a :
  cache_rep c lp l -> l_token l id = Some (FungibleToken d) ->
  is_frozen d = false -> total_supply d = Unlimited ->
  delta_at (dd_circulating_supply (data c)) id + ival a <= i128_MAX -> ival a <= i128_MAX ->
  i128_MAX < ival (l_supply l id) + ival a ->
  exists c', mint_tokens id a c = (c', Ok (MintTokenUndo id a)) /\
    cache_get_circulating_supply c' id
      = Err (AccountingError ArithmeticErrorDeltaAdditionFailed).
Proof.
  intros Hrep Htok Hf Hs Hd Ha Hbig. rewrite (mint_guards_rep _ _ _ _ _ Hrep).
  unfold mint_guard, existing_token. rewrite Htok. simpl. rewrite Hf, Hs. simpl.
  set (z := delta_at (dd_circulating_supply (data c)) id + ival a) in *.
  assert (fits_i128 z) as Hfit.
  { pose proof (delta_val_fits (dd_circulating_supply (data c) !! id)) as Hv.
    unfold fits_i128, z, delta_at in *. blia. }
  exists (mk_cache (parent c) (mk_delta_data (dd_token_data (data c))
    (set_delta (dd_circulating_supply (data c)) id z))). split.
  - unfold mbind, st_bind, in_data, in_circulating_supply, zoom.
    by rewrite add_unsigned_view.
  - unfold cache_get_circulating_supply. simpl. destruct (rep_parent _ _ _ Hrep id) as [_ ->].
    destruct (rep_supplies _ _ _ Hrep) as [_ Hsum Hpb _]. specialize (Hsum id). specialize (Hpb id).
    unfold set_delta. rewrite lookup_partial_alter_eq. unfold stored.
    destruct (Z.eqb_spec z 0) as [Hz|_]; [unfold z in Hz; lia|].
    destruct (bint_of_Z_is_Some z Hfit) as (v & -> & Hv).
    cbn [map_err mbind result_bind].
    rewrite (proj2 (combine_amount_delta_Err (l_supply lp id) v ArithmeticErrorDeltaAdditionFailed));
      [done|]. right; left. unfold z in Hv. split; [done|]. lia.
Qed.
End properties.

(** Flushing a cache into the database over a storage that keeps what is
    written always succeeds (the [expect] on the negated amount included), the
    database then answers every query as the cache did, and the returned undo
    data inverts every data delta and negates every supply delta. *)
Theorem tokens_flush_to_db `{CryptoTypes} {S} `{!TokensAccountingStorage S}
    `{!ReliableTokensStorage S} (c : TokensAccountingCache (TokensAccountingDB S)) lp l :
  cache_rep c lp l ->
  exists db' u, db_batch_write_tokens_data (data c) (parent c) = (db', Ok u) /\
    represents db' l /\
    ud_token_data u = invert <$> dd_token_data (data c) /\
    forall id, delta_at (ud_circulating_supply u) id
               = - delta_at (dd_circulating_supply (data c)) id.
Proof. apply flush_to_db_tokens. Qed.

(** ** The properties on concrete inputs *)

Module Witnesses.
Import Example.

(** A supply of at most 1000. *)
Definition cap : TokenTotalSupply := Fixed (Amount.lit 1000).

Lemma tokens_operations_follow_rules_witness :
  cache_rep cache empty_ledger empty_ledger /\
  exec_op (OpMint 7 (Amount.lit 600)) cache = (cache, Err (TokenDataNotFound 7)) /\
  exists c', exec_op (issue cap) cache = (c', Ok (undo_record (issue cap) empty_ledger (issued_ledger cap))) /\
    cache_rep c' empty_ledger (issued_ledger cap).
Proof.
  split; [apply cache_rep_cache_tokens|]. split.
  - exact (tokens_operations_follow_rules cache empty_ledger empty_ledger
      (OpMint 7 (Amount.lit 600)) cache_rep_cache_tokens).
  - exact (tokens_operations_follow_rules cache empty_ledger empty_ledger (issue cap) cache_rep_cache_tokens eq_refl).
Defined.

(** Issue a token, mint 600. *)
Definition records : list TokenAccountingUndo :=
  [record_of mint (issued cap); record_of (issue cap) cache].

Lemma minted_trace : trace cache records (minted cap).
Proof.
  apply trace_step with (c1 := issued cap) (op := mint);
    [|vm_compute; reflexivity|vm_compute; reflexivity].
  apply trace_step with (c1 := cache) (op := issue cap);
    [apply trace_nil|vm_compute; reflexivity|vm_compute; reflexivity].
Qed.

Lemma tokens_supply_invariant_witness :
  exists l', represents (minted cap) l' /\ ledger_inv l'.
Proof.
  exact (tokens_supply_invariant cache (minted cap) records empty_ledger empty_ledger
    cache_rep_cache_tokens empty_inv_tokens minted_trace).
Defined.

Lemma tokens_undo_restores_ledger_witness :
  exists l', cache_rep (minted cap) empty_ledger l' /\
    forall (d : Cache) lpd, cache_rep d lpd l' ->
      exists d', undo_all records d = (d', Ok tt) /\ cache_rep d' lpd empty_ledger.
Proof.
  exact (tokens_undo_restores_ledger cache (minted cap) records empty_ledger empty_ledger
    cache_rep_cache_tokens empty_inv_tokens minted_trace).
Defined.

(** The locked and frozen token 7, while token 8 is issued. *)
Definition issue_other : TokenOp := OpIssue 8 (issuance Unlimited).
Lemma frozen_trace_tokens : trace frozen [record_of issue_other frozen] (after issue_other frozen).
Proof.
  apply trace_step with (c1 := frozen) (op := issue_other);
    [apply trace_nil|vm_compute; reflexivity|vm_compute; reflexivity].
Qed.

Lemma tokens_lock_and_freeze_are_final_witness :
  supply_locked frozen_ledger 7 /\ frozen_for_good frozen_ledger 7 /\
  cache_get_circulating_supply (after issue_other frozen) 7
    = cache_get_circulating_supply frozen 7.
Proof.
  assert (supply_locked frozen_ledger 7) as Hl by (eexists; split; reflexivity).
  split; [exact Hl|]. split; [eexists; split; reflexivity|].
  exact (proj1 (tokens_lock_and_freeze_are_final frozen (after issue_other frozen) _ _ _ 7
    frozen_rep frozen_inv frozen_trace_tokens) Hl).
Defined.

Lemma tokens_flush_to_cache_witness :
  exists p', (batch_write_tokens_data (data child) parent_cache).1 = p' /\
    cache_rep p' empty_ledger child_ledger.
Proof.
  destruct (tokens_flush_to_cache child empty_ledger _ _
    (minted_rep (Fixed (Amount.lit 1000)) (or_intror eq_refl)) child_rep_tokens) as (p' & Hw & Hrep).
  exists p'. split; [|exact Hrep]. exact (f_equal fst Hw).
Defined.

Lemma tokens_flush_to_db_witness :
  exists db' u, db_batch_write_tokens_data (data (minted cap)) store = (db', Ok u) /\
    represents db' (minted_ledger cap).
Proof.
  destruct (tokens_flush_to_db (minted cap) empty_ledger (minted_ledger cap)
    (minted_rep cap (or_intror eq_refl))) as (db' & u & Hw & Hrep & _).
  exists db', u. split; [exact Hw|exact Hrep].
Defined.

(** One more atom on top of a supply of [i128::MAX]. *)
Definition full_ledger : Ledger :=
  set_supply (set_token empty_ledger 7
    (Some (token Unlimited false (IsTokenFrozen.No IsTokenFreezable.Yes)))) 7 (Amount.lit i128_MAX).
Definition full_cache : Cache := TokensAccountingCache_new (mk_db (mk_in_memory
  {[7%N := token Unlimited false (IsTokenFrozen.No IsTokenFreezable.Yes)]}
  {[7%N := Amount.lit i128_MAX]})).

Lemma full_rep : cache_rep full_cache full_ledger full_ledger.
Proof.
  apply cache_rep_new_tokens.
  - intros id. destruct (decide (id = 7%N)) as [->|Hne]; [done|].
    cbn. rewrite !lookup_singleton_ne by done. unfold insert, fn_insert.
    by rewrite !decide_False.
  - intros id. cbn. unfold insert, fn_insert. by case_decide.
Qed.

Lemma mint_beyond_i128_is_unreadable_witness :
  exists c', mint_tokens 7 (Amount.lit 1) full_cache = (c', Ok (MintTokenUndo 7 (Amount.lit 1))) /\
    cache_get_circulating_supply c' 7
      = Err (AccountingError ArithmeticErrorDeltaAdditionFailed).
Proof.
  apply (mint_beyond_i128_is_unreadable full_cache full_ledger full_ledger 7
    (FungibleTokenData_new_unchecked [] (@mk_bint 0 (2 ^ 8 - 1) 2 eq_refl) [] Unlimited
       false (IsTokenFrozen.No IsTokenFreezable.Yes) AnyoneCanSpend));
    [exact full_rep|reflexivity|reflexivity|reflexivity|..]; vm_compute; (reflexivity || discriminate).
Defined.
End Witnesses.
