(* ===== verification/Orders.v ===== *)
(** * The orders ledger

    Models the [orders-accounting] crate: order data, the price calculation
    on 256-bit integers, the cache [OrdersAccountingCache] with its four
    operations and their undo, the delta merge, the storage-backed view and
    the in-memory storage.  The theorems relate the cache to a plain ledger of
    orders with their two balances, and show that the balances always cover
    what the takers can still claim. *)
From S2P Require Import Prelude Amount Uint Accounting ChainTypes.

(** ** Order data ([data.rs]) *)

Record OrderData `{CryptoTypes} := mk_order {
  conclude_key : Destination;
  ask : OutputValue;
  give : OutputValue;
  is_frozen : bool
}.
Arguments mk_order {_} _ _ _ _.

#[global] Instance OrderData_eq_dec `{CryptoTypes} : EqDecision OrderData.
Proof. solve_decision. Defined.

Definition OrderData_new `{CryptoTypes} (k : Destination) (a g : OutputValue) : OrderData :=
  mk_order k a g false.

Definition try_freeze `{CryptoTypes} (self : OrderData) : result OrderData OrderData :=
  if is_frozen self then Err self
  else Ok (mk_order (conclude_key self) (ask self) (give self) true).

Definition from_chain_order `{CryptoTypes} (other : ChainOrderData) : OrderData :=
  OrderData_new (co_conclude_key other) (co_ask other) (co_give other).

(** ** Errors ([error.rs]) *)

Inductive Error :=
  | AccountingError (e : Accounting.Error)
  | OrderAlreadyExists (id : OrderId)
  | OrderDataNotFound (id : OrderId)
  | OrderWithZeroValue (id : OrderId)
  | InvariantOrderDataNotFoundForUndo (id : OrderId)
  | InvariantOrderAskBalanceChangedForUndo (id : OrderId)
  | InvariantOrderGiveBalanceChangedForUndo (id : OrderId)
  | InvariantOrderDataExistForConcludeUndo (id : OrderId)
  | InvariantOrderDataNotExistForFreezeUndo (id : OrderId)
  | InvariantOrderAskBalanceExistForConcludeUndo (id : OrderId)
  | InvariantOrderGiveBalanceExistForConcludeUndo (id : OrderId)
  | InvariantNonzeroAskBalanceForMissingOrder (id : OrderId)
  | InvariantNonzeroGiveBalanceForMissingOrder (id : OrderId)
  | OrderOverflow (id : OrderId)
  | OrderOverbid (id : OrderId) (available attempted : Amount)
  | OrderUnderbid (id : OrderId) (a : Amount)
  | AttemptedConcludeNonexistingOrderData (id : OrderId)
  | AttemptedFreezeNonexistingOrderData (id : OrderId)
  | AttemptedFreezeAlreadyFrozenOrder (id : OrderId)
  | AttemptedFillFrozenOrder (id : OrderId)
  | UnsupportedTokenVersion
  | ViewFail
  | StorageWrite.

Definition output_value_amount `{CryptoTypes} (v : OutputValue) : result Error Amount :=
  match v with
  | Coin a | TokenV1 _ a => Ok a
  | TokenV0 _ => Err UnsupportedTokenVersion
  end.

(** ** Views ([view.rs]) *)

Class OrdersAccountingView `{CryptoTypes} (P : Type) := {
  view_error : Type;
  get_order_data : P -> OrderId -> result view_error (option OrderData);
  get_ask_balance : P -> OrderId -> result view_error Amount;
  get_give_balance : P -> OrderId -> result view_error Amount
}.

(** ** Price calculation ([price_calculation.rs]) *)

Definition calculate_filled_amount {E} (ask_amount give_amount fill_amount_in_ask_currency : Amount) :
    result E (option Amount) :=
  let give := from_u128 4 give_amount in
  let fill := from_u128 4 fill_amount_in_ask_currency in
  let ask := from_u128 4 ask_amount in
  product ← checked_mul give fill;
  product ← expect product;
  quotient ← checked_div product ask;
  match quotient with
  | None => Ok None
  | Some quotient => try_into_u128 quotient
  end.

Section price.
Context `{CryptoTypes} {P : Type} `{!OrdersAccountingView P}.

Definition view_fail {A} (m : result view_error A) : result Error A := map_err (fun _ => ViewFail) m.

Definition calculate_fill_order_based_on_remaining_balances (view : P) (order_id : OrderId)
    (fill_amount_in_ask_currency : Amount) : result Error Amount :=
  ask_balance ← view_fail (get_ask_balance view order_id);
  give_balance ← view_fail (get_give_balance view order_id);
  _ ← ensure (Amount.leb fill_amount_in_ask_currency ask_balance)
        (OrderOverbid order_id ask_balance fill_amount_in_ask_currency);
  filled ← calculate_filled_amount ask_balance give_balance fill_amount_in_ask_currency;
  ok_or (OrderOverflow order_id) filled.

Definition calculate_fill_order_based_on_original_price (view : P) (order_id : OrderId)
    (fill_amount_in_ask_currency : Amount) : result Error Amount :=
  order_data ← view_fail (get_order_data view order_id);
  order_data ← ok_or (OrderDataNotFound order_id) order_data;
  original_ask ← output_value_amount (ask order_data);
  original_give ← output_value_amount (give order_data);
  current_ask_balance ← view_fail (get_ask_balance view order_id);
  _ ← ensure (Amount.leb fill_amount_in_ask_currency current_ask_balance)
        (OrderOverbid order_id current_ask_balance fill_amount_in_ask_currency);
  filled ← calculate_filled_amount original_ask original_give fill_amount_in_ask_currency;
  result ← ok_or (OrderOverflow order_id) filled;
  _ ← ensure (Amount.ltb Amount.ZERO result) (OrderUnderbid order_id fill_amount_in_ask_currency);
  Ok result.

Definition calculate_fill_order (view : P) (order_id : OrderId)
    (fill_amount_in_ask_currency : Amount) (orders_version : OrdersVersion) : result Error Amount :=
  match orders_version with
  | V0 => calculate_fill_order_based_on_remaining_balances view order_id fill_amount_in_ask_currency
  | V1 => calculate_fill_order_based_on_original_price view order_id fill_amount_in_ask_currency
  end.
End price.

(** ** Deltas ([data.rs]) *)

Record OrdersAccountingDeltaData `{CryptoTypes} := mk_delta_data {
  dd_order_data : DeltaDataCollection OrderId OrderData;
  dd_ask_balances : DeltaAmountCollection OrderId;
  dd_give_balances : DeltaAmountCollection OrderId
}.
Arguments mk_delta_data {_} _ _ _.

Record OrdersAccountingDeltaUndoData `{CryptoTypes} := mk_delta_undo_data {
  ud_order_data : DeltaDataUndoCollection OrderId OrderData;
  ud_ask_balances : DeltaAmountCollection OrderId;
  ud_give_balances : DeltaAmountCollection OrderId
}.
Arguments mk_delta_undo_data {_} _ _ _.

Section delta_data.
Context `{CryptoTypes}.

Definition OrdersAccountingDeltaData_new : OrdersAccountingDeltaData := mk_delta_data ∅ ∅ ∅.

(** The methods of the collections of a delta, as methods of the delta. *)
Definition in_order_data {A} (m : ST (DeltaDataCollection OrderId OrderData) Accounting.Error A) :
    ST OrdersAccountingDeltaData Error A :=
  zoom dd_order_data (fun t d => mk_delta_data t (dd_ask_balances d) (dd_give_balances d))
    AccountingError m.
Definition in_ask_balances {A} (m : ST (DeltaAmountCollection OrderId) Accounting.Error A) :
    ST OrdersAccountingDeltaData Error A :=
  zoom dd_ask_balances (fun t d => mk_delta_data (dd_order_data d) t (dd_give_balances d))
    AccountingError m.
Definition in_give_balances {A} (m : ST (DeltaAmountCollection OrderId) Accounting.Error A) :
    ST OrdersAccountingDeltaData Error A :=
  zoom dd_give_balances (fun t d => mk_delta_data (dd_order_data d) (dd_ask_balances d) t)
    AccountingError m.

Definition merge_with_delta (other : OrdersAccountingDeltaData) :
    ST OrdersAccountingDeltaData Error OrdersAccountingDeltaUndoData :=
  order_data_undo ← in_order_data (merge_delta_data (dd_order_data other));
  let ask_balance_undo := dd_ask_balances other in
  _ ← in_ask_balances (merge_delta_amounts (dd_ask_balances other));
  let give_balance_undo := dd_give_balances other in
  _ ← in_give_balances (merge_delta_amounts (dd_give_balances other));
  mret (mk_delta_undo_data order_data_undo ask_balance_undo give_balance_undo).
End delta_data.

(** ** Undo records ([operations.rs]) *)

Inductive OrdersAccountingUndo `{CryptoTypes} :=
  | CreateOrderUndo (id : OrderId) (undo_data : DataDeltaUndo OrderData)
      (ask_balance give_balance : Amount)
  | ConcludeOrderUndo (id : OrderId) (undo_data : DataDeltaUndo OrderData)
      (ask_balance give_balance : Amount)
  | FillOrderUndo (id : OrderId) (ask_balance give_balance : Amount)
  | FreezeOrderUndo (id : OrderId) (undo_data : DataDeltaUndo OrderData).

(** ** The cache ([cache.rs]) *)

Record OrdersAccountingCache `{CryptoTypes} (P : Type) := mk_cache {
  parent : P;
  data : OrdersAccountingDeltaData
}.
Arguments mk_cache {_ _} _ _.
Arguments parent {_ _} _.
Arguments data {_ _} _.

Section cache.
Context `{CryptoTypes} {P : Type} `{!OrdersAccountingView P}.
Abbreviation Cache := (OrdersAccountingCache P).

Definition OrdersAccountingCache_new (p : P) : Cache := mk_cache p OrdersAccountingDeltaData_new.

Definition cache_get_order_data (self : Cache) (id : OrderId) : result Error (option OrderData) :=
  match get_data (dd_order_data (data self)) id with
  | Present d => Ok (Some d)
  | Deleted => Ok None
  | Missing => map_err (fun _ => ViewFail) (get_order_data (parent self) id)
  end.

Definition cache_get_ask_balance (self : Cache) (id : OrderId) : result Error Amount :=
  parent_supply ← map_err (fun _ => ViewFail) (get_ask_balance (parent self) id);
  let local_delta := dd_ask_balances (data self) !! id in
  map_err AccountingError (combine_amount_delta parent_supply local_delta).

Definition cache_get_give_balance (self : Cache) (id : OrderId) : result Error Amount :=
  parent_supply ← map_err (fun _ => ViewFail) (get_give_balance (parent self) id);
  let local_delta := dd_give_balances (data self) !! id in
  map_err AccountingError (combine_amount_delta parent_supply local_delta).

#[global] Instance cache_view : OrdersAccountingView Cache := {|
  view_error := Error;
  get_order_data := cache_get_order_data;
  get_ask_balance := cache_get_ask_balance;
  get_give_balance := cache_get_give_balance
|}.

Definition in_data {A} (m : ST OrdersAccountingDeltaData Error A) : ST Cache Error A :=
  zoom data (fun d c => mk_cache (parent c) d) (fun e => e) m.

Definition merge_order_delta (id : OrderId) (d : DataDelta OrderData) :
    ST Cache Error (DataDeltaUndo OrderData) :=
  in_data (in_order_data (merge_delta_data_element id d)).
Definition undo_order_delta (id : OrderId) (u : DataDeltaUndo OrderData) : ST Cache Error unit :=
  in_data (in_order_data (undo_merge_delta_data_element id u)).
Definition ask_add (id : OrderId) (a : Amount) : ST Cache Error unit :=
  in_data (in_ask_balances (add_unsigned id a)).
Definition ask_sub (id : OrderId) (a : Amount) : ST Cache Error unit :=
  in_data (in_ask_balances (sub_unsigned id a)).
Definition give_add (id : OrderId) (a : Amount) : ST Cache Error unit :=
  in_data (in_give_balances (add_unsigned id a)).
Definition give_sub (id : OrderId) (a : Amount) : ST Cache Error unit :=
  in_data (in_give_balances (sub_unsigned id a)).

Definition batch_write_orders_data (delta : OrdersAccountingDeltaData) :
    ST Cache Error OrdersAccountingDeltaUndoData :=
  in_data (merge_with_delta delta).

Definition undo_create_order (id : OrderId) (undo_data : DataDeltaUndo OrderData)
    (undo_ask undo_give : Amount) : ST Cache Error unit :=
  ask_balance ← gets (fun self => cache_get_ask_balance self id);
  _ ← lift (ensure (bool_decide (ask_balance = undo_ask)) (InvariantOrderAskBalanceChangedForUndo id));
  _ ← ask_sub id undo_ask;
  give_balance ← gets (fun self => cache_get_give_balance self id);
  _ ← lift (ensure (bool_decide (give_balance = undo_give))
              (InvariantOrderGiveBalanceChangedForUndo id));
  _ ← give_sub id undo_give;
  d ← gets (fun self => cache_get_order_data self id);
  _ ← lift (ensure (bool_decide (d <> None)) (InvariantOrderDataNotFoundForUndo id));
  undo_order_delta id undo_data.

Definition undo_conclude_order (id : OrderId) (undo_data : DataDeltaUndo OrderData)
    (undo_ask undo_give : Amount) : ST Cache Error unit :=
  d ← gets (fun self => cache_get_order_data self id);
  _ ← lift (ensure (bool_decide (d = None)) (InvariantOrderDataExistForConcludeUndo id));
  _ ← undo_order_delta id undo_data;
  ask_balance ← gets (fun self => cache_get_ask_balance self id);
  _ ← lift (ensure (bool_decide (ask_balance = Amount.ZERO))
              (InvariantOrderAskBalanceExistForConcludeUndo id));
  _ ← ask_add id undo_ask;
  give_balance ← gets (fun self => cache_get_give_balance self id);
  _ ← lift (ensure (bool_decide (give_balance = Amount.ZERO))
              (InvariantOrderGiveBalanceExistForConcludeUndo id));
  give_add id undo_give.

Definition undo_freeze_order (id : OrderId) (undo_data : DataDeltaUndo OrderData) :
    ST Cache Error unit :=
  d ← gets (fun self => cache_get_order_data self id);
  _ ← lift (ensure (bool_decide (d <> None)) (InvariantOrderDataNotExistForFreezeUndo id));
  undo_order_delta id undo_data.

Definition undo_fill_order (id : OrderId) (undo_ask undo_give : Amount) : ST Cache Error unit :=
  _ ← ask_add id undo_ask;
  give_add id undo_give.

Definition create_order (id : OrderId) (d : OrderData) : ST Cache Error OrdersAccountingUndo :=
  existing ← gets (fun self => cache_get_order_data self id);
  _ ← lift (ensure (bool_decide (existing = None)) (OrderAlreadyExists id));
  ask_balance ← gets (fun self => cache_get_ask_balance self id);
  _ ← lift (ensure (bool_decide (ask_balance = Amount.ZERO)) (OrderAlreadyExists id));
  ask_amount ← lift (output_value_amount (ask d));
  give_amount ← lift (output_value_amount (give d));
  _ ← lift (ensure (Amount.ltb Amount.ZERO ask_amount && Amount.ltb Amount.ZERO give_amount)
              (OrderWithZeroValue id));
  undo_data ← merge_order_delta id (mk_delta None (Some d));
  _ ← ask_add id ask_amount;
  _ ← give_add id give_amount;
  mret (CreateOrderUndo id undo_data ask_amount give_amount).

Definition conclude_order (id : OrderId) : ST Cache Error OrdersAccountingUndo :=
  order_data ← gets (fun self => cache_get_order_data self id);
  order_data ← lift (ok_or (AttemptedConcludeNonexistingOrderData id) order_data);
  ask_balance ← gets (fun self => cache_get_ask_balance self id);
  give_balance ← gets (fun self => cache_get_give_balance self id);
  undo_data ← merge_order_delta id (mk_delta (Some order_data) None);
  _ ← ask_sub id ask_balance;
  _ ← give_sub id give_balance;
  mret (ConcludeOrderUndo id undo_data ask_balance give_balance).

Definition fill_order (id : OrderId) (fill_amount_in_ask_currency : Amount)
    (orders_version : OrdersVersion) : ST Cache Error OrdersAccountingUndo :=
  order_data ← gets (fun self => cache_get_order_data self id);
  order_data ← lift (ok_or (OrderDataNotFound id) order_data);
  _ ← lift (ensure (negb (is_frozen order_data)) (AttemptedFillFrozenOrder id));
  filled_amount ← gets (fun self =>
    calculate_fill_order self id fill_amount_in_ask_currency orders_version);
  _ ← give_sub id filled_amount;
  _ ← ask_sub id fill_amount_in_ask_currency;
  mret (FillOrderUndo id fill_amount_in_ask_currency filled_amount).

Definition undo (undo_data : OrdersAccountingUndo) : ST Cache Error unit :=
  match undo_data with
  | CreateOrderUndo id u a g => undo_create_order id u a g
  | ConcludeOrderUndo id u a g => undo_conclude_order id u a g
  | FillOrderUndo id a g => undo_fill_order id a g
  | FreezeOrderUndo id u => undo_freeze_order id u
  end.

Definition freeze_order (id : OrderId) : ST Cache Error OrdersAccountingUndo :=
  old_data ← gets (fun self => cache_get_order_data self id);
  old_data ← lift (ok_or (AttemptedFreezeNonexistingOrderData id) old_data);
  new_data ← lift (map_err (fun _ => AttemptedFreezeAlreadyFrozenOrder id) (try_freeze old_data));
  undo_data ← merge_order_delta id (mk_delta (Some old_data) (Some new_data));
  mret (FreezeOrderUndo id undo_data).
End cache.

(** ** Storage ([storage/mod.rs], [storage/db.rs], [storage/in_memory.rs]) *)

(** [OrdersAccountingStorageRead] and [OrdersAccountingStorageWrite]. *)
Class OrdersAccountingStorage `{CryptoTypes} (S : Type) := {
  storage_error : Type;
  storage_get_order_data : S -> OrderId -> result storage_error (option OrderData);
  storage_get_ask_balance : S -> OrderId -> result storage_error (option Amount);
  storage_get_give_balance : S -> OrderId -> result storage_error (option Amount);
  set_order_data : OrderId -> OrderData -> ST S storage_error unit;
  del_order_data : OrderId -> ST S storage_error unit;
  set_ask_balance : OrderId -> Amount -> ST S storage_error unit;
  del_ask_balance : OrderId -> ST S storage_error unit;
  set_give_balance : OrderId -> Amount -> ST S storage_error unit;
  del_give_balance : OrderId -> ST S storage_error unit
}.

Record OrdersAccountingDB (S : Type) := mk_db { db_store : S }.
Arguments mk_db {_} _.
Arguments db_store {_} _.

Section db.
Context `{CryptoTypes} {S : Type} `{!OrdersAccountingStorage S}.

Definition in_store {A} (m : ST S Error A) : ST (OrdersAccountingDB S) Error A :=
  zoom db_store (fun s _ => mk_db s) (fun e => e) m.

Definition db_merge_order_data : OrderId * DataDelta OrderData ->
    ST S Error (OrderId * DataDeltaUndo OrderData) :=
  store_merge_data AccountingError ViewFail StorageWrite
    storage_get_order_data set_order_data del_order_data.
Definition db_merge_ask_balance : OrderId * SignedAmount -> ST S Error (OrderId * SignedAmount) :=
  store_merge_balance AccountingError ViewFail StorageWrite
    storage_get_ask_balance set_ask_balance del_ask_balance.
Definition db_merge_give_balance : OrderId * SignedAmount -> ST S Error (OrderId * SignedAmount) :=
  store_merge_balance AccountingError ViewFail StorageWrite
    storage_get_give_balance set_give_balance del_give_balance.

Definition db_merge_with_delta (other : OrdersAccountingDeltaData) :
    ST (OrdersAccountingDB S) Error OrdersAccountingDeltaUndoData :=
  in_store (
    data_undo ← try_collect db_merge_order_data (btree_iter (dd_order_data other));
    ask_balance_undo ← try_collect db_merge_ask_balance (btree_iter (dd_ask_balances other));
    give_balance_undo ← try_collect db_merge_give_balance (btree_iter (dd_give_balances other));
    mret (mk_delta_undo_data (btree_collect data_undo) (btree_collect ask_balance_undo)
            (btree_collect give_balance_undo))).

#[global] Instance db_view : OrdersAccountingView (OrdersAccountingDB S) := {|
  view_error := storage_error;
  get_order_data := fun db id => storage_get_order_data (db_store db) id;
  get_ask_balance := fun db id => default Amount.ZERO <$> storage_get_ask_balance (db_store db) id;
  get_give_balance := fun db id => default Amount.ZERO <$> storage_get_give_balance (db_store db) id
|}.

Definition db_batch_write_orders_data (delta : OrdersAccountingDeltaData) :
    ST (OrdersAccountingDB S) Error OrdersAccountingDeltaUndoData :=
  st_map_err (fun _ => StorageWrite) (db_merge_with_delta delta).
End db.

Record InMemoryOrdersAccounting `{CryptoTypes} := mk_in_memory {
  mem_orders_data : gmap OrderId OrderData;
  mem_ask_balances : gmap OrderId Amount;
  mem_give_balances : gmap OrderId Amount
}.
Arguments mk_in_memory {_} _ _ _.

Section in_memory.
Context `{CryptoTypes}.

Definition InMemoryOrdersAccounting_new : InMemoryOrdersAccounting := mk_in_memory ∅ ∅ ∅.

Definition in_orders (f : gmap OrderId OrderData -> gmap OrderId OrderData)
    (s : InMemoryOrdersAccounting) : InMemoryOrdersAccounting :=
  mk_in_memory (f (mem_orders_data s)) (mem_ask_balances s) (mem_give_balances s).
Definition in_asks (f : gmap OrderId Amount -> gmap OrderId Amount)
    (s : InMemoryOrdersAccounting) : InMemoryOrdersAccounting :=
  mk_in_memory (mem_orders_data s) (f (mem_ask_balances s)) (mem_give_balances s).
Definition in_gives (f : gmap OrderId Amount -> gmap OrderId Amount)
    (s : InMemoryOrdersAccounting) : InMemoryOrdersAccounting :=
  mk_in_memory (mem_orders_data s) (mem_ask_balances s) (f (mem_give_balances s)).

#[global] Instance in_memory_storage : OrdersAccountingStorage InMemoryOrdersAccounting := {|
  storage_error := Error;
  storage_get_order_data := fun s id => Ok (mem_orders_data s !! id);
  storage_get_ask_balance := fun s id => Ok (mem_ask_balances s !! id);
  storage_get_give_balance := fun s id => Ok (mem_give_balances s !! id);
  set_order_data := fun id d => modify (in_orders (insert id d));
  del_order_data := fun id => modify (in_orders (delete id));
  set_ask_balance := fun id a => modify (in_asks (insert id a));
  del_ask_balance := fun id => modify (in_asks (delete id));
  set_give_balance := fun id a => modify (in_gives (insert id a));
  del_give_balance := fun id => modify (in_gives (delete id))
|}.
End in_memory.

(** * The abstract ledger *)

Record Ledger `{CryptoTypes} := mk_ledger {
  l_order : OrderId -> option OrderData;
  l_ask : OrderId -> Amount;
  l_give : OrderId -> Amount
}.
Arguments mk_ledger {_} _ _ _.

Inductive OrderOp `{CryptoTypes} :=
  | OpCreate (id : OrderId) (d : ChainOrderData)
  | OpConclude (id : OrderId)
  | OpFill (id : OrderId) (fill : Amount) (v : OrdersVersion)
  | OpFreeze (id : OrderId).

Definition op_id `{CryptoTypes} (op : OrderOp) : OrderId :=
  match op with OpCreate id _ | OpConclude id | OpFill id _ _ | OpFreeze id => id end.

(** The share of [give] that [fill] out of [ask] buys, rounded down. *)
Definition price (ask give fill : Amount) : option Amount :=
  if ival ask =? 0 then None else bint_of_Z (ival give * ival fill / ival ask).

Section spec.
Context `{CryptoTypes}.
Implicit Types l : Ledger.

Definition set_order l (id : OrderId) (o : option OrderData) (a g : Amount) : Ledger :=
  mk_ledger (<[id:=o]> (l_order l)) (<[id:=a]> (l_ask l)) (<[id:=g]> (l_give l)).

Definition spec_price l (id : OrderId) (d : OrderData) (fill : Amount) (v : OrdersVersion) :
    result Error Amount :=
  match v with
  | V0 =>
      _ ← ensure (Amount.leb fill (l_ask l id)) (OrderOverbid id (l_ask l id) fill);
      ok_or (OrderOverflow id) (price (l_ask l id) (l_give l id) fill)
  | V1 =>
      original_ask ← output_value_amount (ask d);
      original_give ← output_value_amount (give d);
      _ ← ensure (Amount.leb fill (l_ask l id)) (OrderOverbid id (l_ask l id) fill);
      filled ← ok_or (OrderOverflow id) (price original_ask original_give fill);
      _ ← ensure (Amount.ltb Amount.ZERO filled) (OrderUnderbid id fill);
      Ok filled
  end.

Definition spec_op (op : OrderOp) l : result Error Ledger :=
  match op with
  | OpCreate id d =>
      match l_order l id with
      | Some _ => Err (OrderAlreadyExists id)
      | None =>
          a ← output_value_amount (co_ask d);
          g ← output_value_amount (co_give d);
          _ ← ensure (Amount.ltb Amount.ZERO a && Amount.ltb Amount.ZERO g) (OrderWithZeroValue id);
          Ok (set_order l id (Some (from_chain_order d)) a g)
      end
  | OpConclude id =>
      _ ← ok_or (AttemptedConcludeNonexistingOrderData id) (l_order l id);
      Ok (set_order l id None Amount.ZERO Amount.ZERO)
  | OpFill id fill v =>
      d ← ok_or (OrderDataNotFound id) (l_order l id);
      _ ← ensure (negb (is_frozen d)) (AttemptedFillFrozenOrder id);
      filled ← spec_price l id d fill v;
      a ← ok_or (OrderOverflow id) (Amount.sub (l_ask l id) fill);
      g ← ok_or (OrderOverflow id) (Amount.sub (l_give l id) filled);
      Ok (set_order l id (Some d) a g)
  | OpFreeze id =>
      d ← ok_or (AttemptedFreezeNonexistingOrderData id) (l_order l id);
      d' ← map_err (fun _ => AttemptedFreezeAlreadyFrozenOrder id) (try_freeze d);
      Ok (set_order l id (Some d') (l_ask l id) (l_give l id))
  end.

(** The amounts of a new order fit a balance delta. *)
Definition op_in_range (op : OrderOp) : Prop :=
  match op with
  | OpCreate _ d => ival (amount (co_ask d)) <= i128_MAX /\ ival (amount (co_give d)) <= i128_MAX
  | _ => True
  end.

(** What remains to be given covers what remains to be asked, at the price
    the order was created with. *)
Definition order_covered (d : OrderData) (a g : Amount) : Prop :=
  exists original_ask original_give,
    output_value_amount (ask d) = Ok original_ask /\
    output_value_amount (give d) = Ok original_give /\
    0 < ival original_ask /\ 0 < ival original_give /\
    ival a <= ival original_ask /\ ival g <= ival original_give /\
    ival original_give * ival a <= ival g * ival original_ask.

Definition ledger_inv l : Prop := forall id,
  match l_order l id with
  | None => ival (l_ask l id) = 0 /\ ival (l_give l id) = 0
  | Some d => order_covered d (l_ask l id) (l_give l id)
  end.
End spec.

Definition exec_op `{CryptoTypes} {P} `{!OrdersAccountingView P} (op : OrderOp) :
    ST (OrdersAccountingCache P) Error OrdersAccountingUndo :=
  match op with
  | OpCreate id d => create_order id (from_chain_order d)
  | OpConclude id => conclude_order id
  | OpFill id fill v => fill_order id fill v
  | OpFreeze id => freeze_order id
  end.

(** * The price calculation *)

(** The 256-bit computation never panics and is the exact rounded quotient. *)
Lemma calculate_filled_amount_price {E} a g f : @calculate_filled_amount E a g f = Ok (price a g f).
Proof.
  unfold calculate_filled_amount, price.
  destruct (value_from_u128 2 a) as [Ha Hav], (value_from_u128 2 g) as [Hg Hgv],
    (value_from_u128 2 f) as [Hf Hfv].
  destruct (@checked_mul_value E 3 _ _ Hg Hf) as (r & -> & Hr). cbn [mbind result_bind].
  rewrite Hgv, Hfv in Hr.
  destruct r as [p|].
  2: { exfalso. pose proof (bint_range g). pose proof (bint_range f). pose proof u128_MAX_eq.
       assert (W ^ Z.of_nat 4 = 2 ^ 256) as HW by reflexivity. rewrite HW in Hr.
       assert (ival g * ival f <= u128_MAX * u128_MAX) by nia.
       assert (u128_MAX * u128_MAX < 2 ^ 256) by reflexivity. lia. }
  destruct Hr as [Hp Hpv]. cbn [expect mbind result_bind].
  destruct (@checked_div_value E 3 _ _ Hp Ha) as (q & -> & Hq). cbn [mbind result_bind].
  rewrite Hav, Hpv in Hq. destruct q as [q|].
  - destruct Hq as (Hpos & Hwf & Hqv). destruct (@try_into_u128_value E q Hwf) as (r & -> & ->).
    rewrite Hqv. destruct (Z.eqb_spec (ival a) 0); [lia|done].
  - by rewrite Hq.
Qed.

(** A fill within the remaining ask takes no more than the remaining give. *)
Lemma price_le a g f x :
  price a g f = Some x -> ival f <= ival a -> ival x <= ival g.
Proof.
  unfold price. destruct (Z.eqb_spec (ival a) 0); [done|]. intros ->%bint_of_Z_Some Hle.
  pose proof (bint_range a). pose proof (bint_range g). pose proof (bint_range f).
  apply Z.div_le_upper_bound; nia.
Qed.

Lemma price_mul a g f x :
  price a g f = Some x -> 0 < ival a /\ ival x * ival a <= ival g * ival f.
Proof.
  unfold price. destruct (Z.eqb_spec (ival a) 0); [done|]. intros ->%bint_of_Z_Some.
  pose proof (bint_range a). split; [lia|]. rewrite Z.mul_comm. apply Z.mul_div_le. lia.
Qed.

(** A price that exists whenever there is something to ask for. *)
Lemma price_Some a g f : 0 < ival a -> ival f <= ival a -> exists x, price a g f = Some x.
Proof.
  intros Ha Hf. unfold price. destruct (Z.eqb_spec (ival a) 0); [lia|].
  pose proof (bint_range g). pose proof (bint_range f).
  destruct (bint_of_Z_is_Some (lo := 0) (hi := u128_MAX) (ival g * ival f / ival a))
    as (x & -> & _); [|eauto].
  split; [apply Z.div_pos; nia|].
  transitivity (ival g); [apply Z.div_le_upper_bound; nia|lia].
Qed.

(** * The rules keep every order covered *)

Section invariants.
Context `{CryptoTypes}.
Implicit Types l : Ledger.

Lemma set_order_eq l id o a g :
  l_order (set_order l id o a g) id = o /\ l_ask (set_order l id o a g) id = a /\
  l_give (set_order l id o a g) id = g.
Proof. simpl. by rewrite !fn_lookup_insert. Qed.

Lemma set_order_ne l id j o a g : id <> j ->
  l_order (set_order l id o a g) j = l_order l j /\ l_ask (set_order l id o a g) j = l_ask l j /\
  l_give (set_order l id o a g) j = l_give l j.
Proof. intros Hne. simpl. by rewrite !fn_lookup_insert_ne. Qed.

Lemma ledger_inv_set l id o a g :
  ledger_inv l ->
  match o with None => ival a = 0 /\ ival g = 0 | Some d => order_covered d a g end ->
  ledger_inv (set_order l id o a g).
Proof.
  intros Hinv Ho j. destruct (decide (id = j)) as [<-|Hne].
  - destruct (set_order_eq l id o a g) as (-> & -> & ->). done.
  - destruct (set_order_ne l id j o a g Hne) as (-> & -> & ->). apply Hinv.
Qed.

(** A fill that follows the price keeps the order covered, whichever of the
    two price rules it uses. *)
Lemma spec_price_covered l id d fill v filled :
  order_covered d (l_ask l id) (l_give l id) ->
  spec_price l id d fill v = Ok filled ->
  ival fill <= ival (l_ask l id) /\ ival filled <= ival (l_give l id) /\
  forall a g : Amount, ival a = ival (l_ask l id) - ival fill ->
    ival g = ival (l_give l id) - ival filled -> order_covered d a g.
Proof.
  intros (oa & og & Hoa & Hog & Hoap & Hogp & Hla & Hlg & Hcov) Hp.
  pose proof (bint_range filled). pose proof (bint_range fill).
  pose proof (bint_range (l_ask l id)). pose proof (bint_range (l_give l id)).
  destruct v; unfold spec_price in Hp; rewrite ?Hoa, ?Hog in Hp; simpl in Hp;
    destruct (Amount.leb fill (l_ask l id)) eqn:Hfill; simpl in Hp; try done; amount_inv.
  - destruct (price _ _ _) as [x|] eqn:Hprice; simplify_eq/=.
    pose proof (price_le _ _ _ _ Hprice Hfill) as Hle.
    apply price_mul in Hprice as [Hpos Hmul]. split; [done|]. split; [done|].
    intros a g Ha Hg. exists oa, og. do 4 (split; [done|]). split; [lia|]. split; [lia|].
    rewrite Ha, Hg.
    apply (Z.mul_le_mono_pos_r _ _ (ival (l_ask l id))); [lia|].
    transitivity (ival (l_give l id) * ival oa * (ival (l_ask l id) - ival fill)); nia.
  - destruct (price _ _ _) as [x|] eqn:Hprice; simpl in Hp; [|done].
    destruct (Amount.ltb Amount.ZERO x); simplify_eq/=.
    apply price_mul in Hprice as [Hpos Hmul].
    assert (ival filled <= ival (l_give l id)) by nia.
    split; [done|]. split; [done|]. intros a g Ha Hg. exists oa, og.
    do 4 (split; [done|]). split; [lia|]. split; [lia|]. rewrite Ha, Hg. nia.
Qed.
End invariants.

(** * The cache implements the ledger *)

#[global] Instance Ledger_equiv `{CryptoTypes} : Equiv Ledger := fun l1 l2 => forall id,
  l_order l1 id = l_order l2 id /\ l_ask l1 id = l_ask l2 id /\ l_give l1 id = l_give l2 id.

#[global] Instance Ledger_equivalence `{CryptoTypes} : Equivalence (≡@{Ledger}).
Proof.
  split.
  - done.
  - intros l1 l2 Heq id. by destruct (Heq id) as (-> & -> & ->).
  - intros l1 l2 l3 Heq Heq' id. destruct (Heq id) as (-> & -> & ->). apply Heq'.
Qed.

(** Every query of the view [p] returns what [l] says. *)
Definition represents `{CryptoTypes} {P} `{!OrdersAccountingView P} (p : P) (l : Ledger) : Prop :=
  forall id, get_order_data p id = Ok (l_order l id) /\ get_ask_balance p id = Ok (l_ask l id) /\
             get_give_balance p id = Ok (l_give l id).

(** The parent of [c] shows [lp], and the deltas of [c] turn [lp] into [l]. *)
Record cache_rep `{CryptoTypes} {P} `{!OrdersAccountingView P} (c : OrdersAccountingCache P)
    (lp l : Ledger) : Prop := {
  rep_parent : represents (parent c) lp;
  rep_orders : data_rep (dd_order_data (data c)) (l_order lp) (l_order l);
  rep_asks : balance_rep (dd_ask_balances (data c)) (l_ask lp) (l_ask l);
  rep_gives : balance_rep (dd_give_balances (data c)) (l_give lp) (l_give l)
}.

Definition bounded `{CryptoTypes} (l : Ledger) : Prop :=
  balances_bounded (l_ask l) /\ balances_bounded (l_give l).

#[global] Instance cache_rep_proper `{CryptoTypes} {P} `{!OrdersAccountingView P} :
  Proper ((=) ==> (=) ==> (≡) ==> iff) (@cache_rep _ P _).
Proof.
  assert (forall (c : OrdersAccountingCache P) lp l l',
    l ≡ l' -> cache_rep c lp l -> cache_rep c lp l') as Himp.
  { intros c lp l l' Heq [Hp Ho Ha Hg]. split; [done| | |].
    - apply (data_rep_ext _ _ (l_order l)); [|done]. apply Heq.
    - apply (balance_rep_ext _ _ (l_ask l)); [|done]. apply Heq.
    - apply (balance_rep_ext _ _ (l_give l)); [|done]. apply Heq. }
  intros c ? <- lp ? <- l l' Heq. split; apply Himp; [done|by symmetry].
Qed.

Section refinement.
Context `{CryptoTypes} {P : Type} `{!OrdersAccountingView P}.
Implicit Types (c : OrdersAccountingCache P) (l lp : Ledger).

Lemma cache_rep_equiv_orders c lp l l' : l' ≡ l -> cache_rep c lp l' -> cache_rep c lp l.
Proof. by intros ->. Qed.

Lemma cache_rep_bounded_orders c lp l : cache_rep c lp l -> bounded l.
Proof.
  intros [_ _ Ha Hg]. split; [apply (balance_rep_cur _ _ _ Ha)|apply (balance_rep_cur _ _ _ Hg)].
Qed.

Lemma cache_rep_new_orders p l :
  represents p l -> bounded l -> cache_rep (OrdersAccountingCache_new p) l l.
Proof.
  intros Hp [Ha Hg]. split; [done|apply data_rep_empty|by apply balance_rep_empty..].
Qed.

Lemma cache_rep_order c lp l id : cache_rep c lp l -> cache_get_order_data c id = Ok (l_order l id).
Proof.
  intros Hrep. rewrite <- (data_rep_get _ _ _ id (rep_orders _ _ _ Hrep)).
  unfold cache_get_order_data. destruct (rep_parent _ _ _ Hrep id) as (-> & _).
  by destruct (get_data (dd_order_data (data c)) id).
Qed.

Lemma cache_rep_ask c lp l id : cache_rep c lp l -> cache_get_ask_balance c id = Ok (l_ask l id).
Proof.
  intros Hrep. unfold cache_get_ask_balance.
  destruct (rep_parent _ _ _ Hrep id) as (_ & -> & _). simpl.
  by rewrite (balance_rep_get _ _ _ id (rep_asks _ _ _ Hrep)).
Qed.

Lemma cache_rep_give c lp l id : cache_rep c lp l -> cache_get_give_balance c id = Ok (l_give l id).
Proof.
  intros Hrep. unfold cache_get_give_balance.
  destruct (rep_parent _ _ _ Hrep id) as (_ & _ & ->). simpl.
  by rewrite (balance_rep_get _ _ _ id (rep_gives _ _ _ Hrep)).
Qed.

Lemma cache_represents_orders c lp l : cache_rep c lp l -> represents c l.
Proof.
  intros Hrep id. split; [by eapply cache_rep_order|].
  split; [by eapply cache_rep_ask|by eapply cache_rep_give].
Qed.

(** ** Single updates *)

Lemma merge_order_delta_rep c lp l id d :
  cache_rep c lp l -> l_order l id = old d ->
  exists c', merge_order_delta id d c = (c', Ok (invert d)) /\
    cache_rep c' lp (mk_ledger (<[id:=new d]> (l_order l)) (l_ask l) (l_give l)).
Proof.
  intros [Hp Ho Ha Hg] Hold. destruct (data_rep_merge _ _ _ id d Ho Hold) as (t & Hm & Ho').
  exists (mk_cache (parent c) (mk_delta_data t (dd_ask_balances (data c)) (dd_give_balances (data c)))).
  split; [|done]. unfold merge_order_delta, in_data, in_order_data, zoom. by rewrite Hm.
Qed.

Lemma undo_order_delta_rep c lp l id u :
  cache_rep c lp l -> l_order l id = old (as_delta u) ->
  exists c', undo_order_delta id u c = (c', Ok tt) /\
    cache_rep c' lp (mk_ledger (<[id:=new (as_delta u)]> (l_order l)) (l_ask l) (l_give l)).
Proof.
  intros [Hp Ho Ha Hg] Hold. destruct (data_rep_undo _ _ _ id u Ho Hold) as (t & Hm & Ho').
  exists (mk_cache (parent c) (mk_delta_data t (dd_ask_balances (data c)) (dd_give_balances (data c)))).
  split; [|done]. unfold undo_order_delta, in_data, in_order_data, zoom. by rewrite Hm.
Qed.

Lemma ask_add_rep c lp l id (a s : Amount) :
  cache_rep c lp l -> ival s = ival (l_ask l id) + ival a -> ival s <= i128_MAX ->
  exists c', ask_add id a c = (c', Ok tt) /\
    cache_rep c' lp (mk_ledger (l_order l) (<[id:=s]> (l_ask l)) (l_give l)).
Proof.
  intros [Hp Ho Ha Hg] Hs Hb. destruct (balance_rep_add _ _ _ id a s Ha Hs Hb) as (t & Hm & Ha').
  exists (mk_cache (parent c) (mk_delta_data (dd_order_data (data c)) t (dd_give_balances (data c)))).
  split; [|done]. unfold ask_add, in_data, in_ask_balances, zoom. by rewrite Hm.
Qed.

Lemma ask_sub_rep c lp l id (a s : Amount) :
  cache_rep c lp l -> ival s = ival (l_ask l id) - ival a ->
  exists c', ask_sub id a c = (c', Ok tt) /\
    cache_rep c' lp (mk_ledger (l_order l) (<[id:=s]> (l_ask l)) (l_give l)).
Proof.
  intros [Hp Ho Ha Hg] Hs. destruct (balance_rep_sub _ _ _ id a s Ha Hs) as (t & Hm & Ha').
  exists (mk_cache (parent c) (mk_delta_data (dd_order_data (data c)) t (dd_give_balances (data c)))).
  split; [|done]. unfold ask_sub, in_data, in_ask_balances, zoom. by rewrite Hm.
Qed.

Lemma give_add_rep c lp l id (a s : Amount) :
  cache_rep c lp l -> ival s = ival (l_give l id) + ival a -> ival s <= i128_MAX ->
  exists c', give_add id a c = (c', Ok tt) /\
    cache_rep c' lp (mk_ledger (l_order l) (l_ask l) (<[id:=s]> (l_give l))).
Proof.
  intros [Hp Ho Ha Hg] Hs Hb. destruct (balance_rep_add _ _ _ id a s Hg Hs Hb) as (t & Hm & Hg').
  exists (mk_cache (parent c) (mk_delta_data (dd_order_data (data c)) (dd_ask_balances (data c)) t)).
  split; [|done]. unfold give_add, in_data, in_give_balances, zoom. by rewrite Hm.
Qed.

Lemma give_sub_rep c lp l id (a s : Amount) :
  cache_rep c lp l -> ival s = ival (l_give l id) - ival a ->
  exists c', give_sub id a c = (c', Ok tt) /\
    cache_rep c' lp (mk_ledger (l_order l) (l_ask l) (<[id:=s]> (l_give l))).
Proof.
  intros [Hp Ho Ha Hg] Hs. destruct (balance_rep_sub _ _ _ id a s Hg Hs) as (t & Hm & Hg').
  exists (mk_cache (parent c) (mk_delta_data (dd_order_data (data c)) (dd_ask_balances (data c)) t)).
  split; [|done]. unfold give_sub, in_data, in_give_balances, zoom. by rewrite Hm.
Qed.

(** ** Operations *)

Definition delta_undo (l l' : Ledger) (id : OrderId) : DataDeltaUndo OrderData :=
  invert (mk_delta (l_order l id) (l_order l' id)).

(** The undo record of an operation that takes [l] to [l']. *)
Definition undo_record (op : OrderOp) (l l' : Ledger) : OrdersAccountingUndo :=
  match op with
  | OpCreate id _ => CreateOrderUndo id (delta_undo l l' id) (l_ask l' id) (l_give l' id)
  | OpConclude id => ConcludeOrderUndo id (delta_undo l l' id) (l_ask l id) (l_give l id)
  | OpFill id fill _ =>
      FillOrderUndo id fill (default Amount.ZERO (Amount.sub (l_give l id) (l_give l' id)))
  | OpFreeze id => FreezeOrderUndo id (delta_undo l l' id)
  end.

Lemma calculate_fill_order_rep c lp l id d fill v :
  cache_rep c lp l -> l_order l id = Some d ->
  calculate_fill_order c id fill v = spec_price l id d fill v.
Proof.
  intros Hrep Hd. destruct v; simpl.
  - unfold calculate_fill_order_based_on_remaining_balances, view_fail. simpl.
    rewrite (cache_rep_ask _ _ _ _ Hrep), (cache_rep_give _ _ _ _ Hrep). simpl.
    destruct (Amount.leb fill (l_ask l id)); [|done]. simpl.
    by rewrite calculate_filled_amount_price.
  - unfold calculate_fill_order_based_on_original_price, view_fail. simpl.
    rewrite (cache_rep_order _ _ _ _ Hrep), Hd. simpl.
    destruct (output_value_amount (ask d)) as [oa|e|]; [|done|done]. simpl.
    destruct (output_value_amount (give d)) as [og|e|]; [|done|done]. simpl.
    rewrite (cache_rep_ask _ _ _ _ Hrep). simpl.
    destruct (Amount.leb fill (l_ask l id)); [|done]. simpl.
    by rewrite calculate_filled_amount_price.
Qed.

(** What [exec_op] does, given what the rules say. *)
Definition op_follows_rules c lp l (op : OrderOp) : Prop :=
  match spec_op op l with
  | Ok l' => exists c', exec_op op c = (c', Ok (undo_record op l l')) /\ cache_rep c' lp l'
  | Err e => exec_op op c = (c, Err e)
  | Panic => False
  end.

Lemma output_value_amount_amount v a :
  output_value_amount v = Ok a -> ChainTypes.amount v = a.
Proof. destruct v; simpl; congruence. Qed.

Lemma output_value_amount_no_panic v : output_value_amount v <> Panic.
Proof. by destruct v. Qed.

(** An order whose amounts do not fit a balance delta: its data are written, and
    its balances are not, or not both. *)
Definition half_created (op : OrderOp) l : Prop :=
  match op with
  | OpCreate id d => l_order l id = Some (from_chain_order d) /\ ival (l_give l id) = 0
  | _ => False
  end.

(** What [exec_op] does, for every operation. *)
Definition op_outcome c lp l (op : OrderOp) : Prop :=
  match spec_op op l with
  | Ok l' =>
      (op_in_range op -> exists c', exec_op op c = (c', Ok (undo_record op l l')) /\ cache_rep c' lp l') /\
      (~ op_in_range op -> exists c' l1, exec_op op c = (c', Err (AccountingError ArithmeticErrorToSignedFailed)) /\
        cache_rep c' lp l1 /\ half_created op l1)
  | Err e => exec_op op c = (c, Err e)
  | Panic => False
  end.

Lemma op_outcome_follows c lp l op : op_in_range op -> op_outcome c lp l op <-> op_follows_rules c lp l op.
Proof. unfold op_outcome, op_follows_rules. intros Hr. destruct (spec_op op l); naive_solver. Qed.

Lemma ask_add_fails id a c : i128_MAX < ival a -> ask_add id a c = (c, Err (AccountingError ArithmeticErrorToSignedFailed)).
Proof.
  intros Ha%into_signed_None. unfold ask_add, in_data, in_ask_balances, zoom, add_unsigned, mbind, st_bind, lift. rewrite Ha.
  by destruct c as [p []].
Qed.
Lemma give_add_fails id a c : i128_MAX < ival a -> give_add id a c = (c, Err (AccountingError ArithmeticErrorToSignedFailed)).
Proof.
  intros Ha%into_signed_None. unfold give_add, in_data, in_give_balances, zoom, add_unsigned, mbind, st_bind, lift. rewrite Ha.
  by destruct c as [p []].
Qed.

Lemma create_rep c lp l id d : cache_rep c lp l -> ledger_inv l -> op_outcome c lp l (OpCreate id d).
Proof.
  intros Hrep Hinv. unfold op_outcome. cbn [spec_op exec_op op_in_range half_created].
  unfold create_order, mbind, st_bind, gets, lift, result_bind.
  rewrite (cache_rep_order _ _ _ _ Hrep). specialize (Hinv id).
  destruct (l_order l id) as [o|] eqn:Ho; [done|]. destruct Hinv as [Ha0 Hg0].
  simpl. rewrite (cache_rep_ask _ _ _ _ Hrep).
  rewrite bool_decide_true by (apply bint_eq; done). simpl.
  pose proof (output_value_amount_no_panic (co_ask d)).
  pose proof (output_value_amount_no_panic (co_give d)).
  destruct (output_value_amount (co_ask d)) as [a|e|] eqn:Ea; [|done|done].
  destruct (output_value_amount (co_give d)) as [g|e|] eqn:Eg; [|done|done].
  rewrite (output_value_amount_amount _ _ Ea), (output_value_amount_amount _ _ Eg).
  destruct (Amount.ltb Amount.ZERO a && Amount.ltb Amount.ZERO g); simpl; [|done].
  destruct (merge_order_delta_rep c lp l id (mk_delta None (Some (from_chain_order d))) Hrep Ho)
    as (c1 & -> & Hrep1).
  destruct (decide (ival a <= i128_MAX)) as [Har|Har].
  2: { rewrite (ask_add_fails id a) by lia. split; [lia|]. intros _. eexists _, _. split; [done|]. split; [exact Hrep1|].
       cbn. by rewrite fn_lookup_insert. }
  destruct (ask_add_rep c1 lp _ id a a Hrep1) as (c2 & -> & Hrep2); [simpl; lia|done|].
  destruct (decide (ival g <= i128_MAX)) as [Hgr|Hgr].
  2: { rewrite (give_add_fails id g) by lia. split; [lia|]. intros _. eexists _, _. split; [done|]. split; [exact Hrep2|].
       cbn. by rewrite fn_lookup_insert. }
  destruct (give_add_rep c2 lp _ id g g Hrep2) as (c3 & -> & Hrep3); [simpl; lia|done|].
  split; [intros _|lia]. exists c3. split; [|done]. unfold delta_undo. simpl. by rewrite !fn_lookup_insert, Ho.
Qed.

Lemma conclude_rep c lp l id :
  cache_rep c lp l -> op_follows_rules c lp l (OpConclude id).
Proof.
  intros Hrep. unfold op_follows_rules. cbn [spec_op exec_op].
  unfold conclude_order, mbind, st_bind, gets, lift, result_bind.
  rewrite (cache_rep_order _ _ _ _ Hrep).
  destruct (l_order l id) as [d|] eqn:Ho; simpl; [|done].
  rewrite (cache_rep_ask _ _ _ _ Hrep), (cache_rep_give _ _ _ _ Hrep).
  destruct (merge_order_delta_rep c lp l id (mk_delta (Some d) None) Hrep Ho) as (c1 & -> & Hrep1).
  destruct (ask_sub_rep c1 lp _ id (l_ask l id) Amount.ZERO Hrep1) as (c2 & -> & Hrep2);
    [simpl; lia|].
  destruct (give_sub_rep c2 lp _ id (l_give l id) Amount.ZERO Hrep2) as (c3 & -> & Hrep3);
    [simpl; lia|].
  exists c3. split; [|done]. unfold delta_undo. simpl. by rewrite !fn_lookup_insert, Ho.
Qed.

Lemma freeze_rep c lp l id :
  cache_rep c lp l -> op_follows_rules c lp l (OpFreeze id).
Proof.
  intros Hrep. unfold op_follows_rules. cbn [spec_op exec_op].
  unfold freeze_order, mbind, st_bind, gets, lift, result_bind.
  rewrite (cache_rep_order _ _ _ _ Hrep).
  destruct (l_order l id) as [d|] eqn:Ho; simpl; [|done].
  unfold try_freeze. destruct (is_frozen d); simpl; [done|].
  destruct (merge_order_delta_rep c lp l id
    (mk_delta (Some d) (Some (mk_order (conclude_key d) (ask d) (give d) true))) Hrep Ho)
    as (c1 & -> & Hrep1).
  exists c1. split.
  - unfold delta_undo. simpl. by rewrite !fn_lookup_insert, Ho.
  - eapply cache_rep_equiv_orders; [|exact Hrep1]. intros j. simpl. split; [done|].
    unfold insert, fn_insert. repeat case_decide; by subst.
Qed.

Lemma spec_price_no_panic l id d fill v : spec_price l id d fill v <> Panic.
Proof.
  pose proof (output_value_amount_no_panic (ask d)).
  pose proof (output_value_amount_no_panic (give d)).
  destruct v; unfold spec_price.
  - destruct (Amount.leb _ _); simpl; [|done]. by destruct (price _ _ _).
  - destruct (output_value_amount (ask d)) as [oa|e|]; [|done|done]. simpl.
    destruct (output_value_amount (give d)) as [og|e|]; [|done|done]. simpl.
    destruct (Amount.leb _ _); simpl; [|done]. destruct (price _ _ _) as [x|]; simpl; [|done].
    by destruct (Amount.ltb _ _).
Qed.

Lemma fill_rep c lp l id fill v :
  cache_rep c lp l -> ledger_inv l -> op_follows_rules c lp l (OpFill id fill v).
Proof.
  intros Hrep Hinv. unfold op_follows_rules. cbn [spec_op exec_op].
  unfold fill_order, mbind, st_bind, gets, lift, result_bind.
  rewrite (cache_rep_order _ _ _ _ Hrep). specialize (Hinv id).
  destruct (l_order l id) as [d|] eqn:Ho; simpl; [|done].
  destruct (is_frozen d); simpl; [done|].
  rewrite (calculate_fill_order_rep _ _ _ _ _ fill v Hrep Ho).
  pose proof (spec_price_no_panic l id d fill v).
  destruct (spec_price l id d fill v) as [filled|e|] eqn:Hp; [|done|done].
  destruct (spec_price_covered _ _ _ _ _ _ Hinv Hp) as (Hfa & Hfg & _).
  destruct (Amount.sub (l_ask l id) fill) as [a|] eqn:Ha; amount_inv; [|lia]. simpl.
  destruct (Amount.sub (l_give l id) filled) as [g|] eqn:Hg; [|amount_inv; lia]. simpl.
  pose proof Hg as Hgv. amount_inv.
  destruct (give_sub_rep c lp l id filled g Hrep Hgv) as (c1 & -> & Hrep1).
  destruct (ask_sub_rep c1 lp _ id fill a Hrep1) as (c2 & -> & Hrep2); [simpl; lia|].
  exists c2. split.
  - rewrite fn_lookup_insert.
    replace (Amount.sub (l_give l id) g) with (Some filled); [done|].
    symmetry. apply Amount_sub_Some. lia.
  - eapply cache_rep_equiv_orders; [|exact Hrep2]. intros j. simpl.
    unfold insert, fn_insert. repeat case_decide; subst; rewrite ?Ho; done.
Qed.

(** Every operation, on every branch. *)
Lemma exec_op_outcome c lp l op : cache_rep c lp l -> ledger_inv l -> op_outcome c lp l op.
Proof.
  intros Hrep Hinv. destruct op; [by apply create_rep|apply op_outcome_follows; [done|]..].
  - by apply conclude_rep.
  - by apply fill_rep.
  - by apply freeze_rep.
Qed.

Lemma exec_op_rep_orders c lp l op :
  cache_rep c lp l -> ledger_inv l -> op_in_range op -> op_follows_rules c lp l op.
Proof. intros Hrep Hinv Hr. by apply op_outcome_follows, exec_op_outcome. Qed.

Lemma exec_op_inv_orders c lp l op c' u :
  cache_rep c lp l -> ledger_inv l -> op_in_range op -> exec_op op c = (c', Ok u) ->
  exists l', spec_op op l = Ok l' /\ cache_rep c' lp l' /\ u = undo_record op l l'.
Proof.
  intros Hrep Hinv Hr Hrun. pose proof (exec_op_rep_orders c lp l op Hrep Hinv Hr) as Hex.
  unfold op_follows_rules in Hex.
  destruct (spec_op op l) as [l'|e|]; [|by rewrite Hrun in Hex|done].
  destruct Hex as (c1 & Hc1 & Hrep1). rewrite Hrun in Hc1. simplify_eq. eauto.
Qed.
End refinement.

(** ** What the rules allow *)

Section rules.
Context `{CryptoTypes}.
Implicit Types l : Ledger.

Lemma spec_create_Ok l id d l' :
  spec_op (OpCreate id d) l = Ok l' ->
  exists a g, l_order l id = None /\ output_value_amount (co_ask d) = Ok a /\
    output_value_amount (co_give d) = Ok g /\ 0 < ival a /\ 0 < ival g /\
    l' = set_order l id (Some (from_chain_order d)) a g.
Proof.
  simpl. destruct (l_order l id); [done|].
  destruct (output_value_amount (co_ask d)) as [a|e|]; [|done|done]. simpl.
  destruct (output_value_amount (co_give d)) as [g|e|]; [|done|done]. simpl.
  destruct (Amount.ltb Amount.ZERO a && Amount.ltb Amount.ZERO g) eqn:Hz; [|done]. simpl.
  intros [= <-]. apply andb_true_iff in Hz as [Ha Hg]. amount_inv. by exists a, g.
Qed.

Lemma spec_conclude_Ok l id l' :
  spec_op (OpConclude id) l = Ok l' ->
  exists d, l_order l id = Some d /\ l' = set_order l id None Amount.ZERO Amount.ZERO.
Proof. simpl. destruct (l_order l id); [|done]. intros [= <-]. eauto. Qed.

Lemma spec_fill_Ok l id fill v l' :
  spec_op (OpFill id fill v) l = Ok l' ->
  exists d filled a g, l_order l id = Some d /\ is_frozen d = false /\
    spec_price l id d fill v = Ok filled /\ ival a = ival (l_ask l id) - ival fill /\
    ival g = ival (l_give l id) - ival filled /\ l' = set_order l id (Some d) a g.
Proof.
  cbn [spec_op]. destruct (l_order l id) as [d|]; [|done]. simpl.
  destruct (is_frozen d) eqn:Hf; [done|]. simpl.
  destruct (spec_price l id d fill v) as [filled|e|] eqn:Hp; [|done|done]. simpl.
  destruct (Amount.sub (l_ask l id) fill) as [a|] eqn:Ha; [|done]. simpl.
  destruct (Amount.sub (l_give l id) filled) as [g|] eqn:Hg; [|done]. simpl.
  amount_inv. intros [= <-]. by exists d, filled, a, g.
Qed.

Lemma spec_freeze_Ok l id l' :
  spec_op (OpFreeze id) l = Ok l' ->
  exists d, l_order l id = Some d /\ is_frozen d = false /\
    l' = set_order l id (Some (mk_order (conclude_key d) (ask d) (give d) true))
           (l_ask l id) (l_give l id).
Proof.
  simpl. destruct (l_order l id) as [d|]; [|done]. simpl. unfold try_freeze.
  destruct (is_frozen d) eqn:Hf; [done|]. intros [= <-]. eauto.
Qed.

Lemma spec_op_inv_orders op l l' : ledger_inv l -> spec_op op l = Ok l' -> ledger_inv l'.
Proof.
  intros Hinv Hspec. destruct op as [id d|id|id fill v|id]; pose proof (Hinv id) as Hid.
  - apply spec_create_Ok in Hspec as (a & g & _ & Ha & Hg & Hap & Hgp & ->).
    apply ledger_inv_set; [done|]. exists a, g. do 4 (split; [done|]). lia.
  - apply spec_conclude_Ok in Hspec as (d & _ & ->). by apply ledger_inv_set.
  - apply spec_fill_Ok in Hspec as (d & filled & a & g & Ho & _ & Hp & Ha & Hg & ->).
    rewrite Ho in Hid. destruct (spec_price_covered _ _ _ _ _ _ Hid Hp) as (_ & _ & Hcov).
    apply ledger_inv_set; [done|]. by apply Hcov.
  - apply spec_freeze_Ok in Hspec as (d & Ho & _ & ->). rewrite Ho in Hid.
    by apply ledger_inv_set.
Qed.
End rules.

(** ** Undo *)

Section undo_section.
Context `{CryptoTypes} {P : Type} `{!OrdersAccountingView P}.
Implicit Types (c : OrdersAccountingCache P) (l lp : Ledger).

Lemma set_order_restore l id o a g :
  set_order (set_order l id o a g) id (l_order l id) (l_ask l id) (l_give l id) ≡ l.
Proof. intros j. simpl. unfold insert, fn_insert. repeat case_decide; by subst. Qed.

Lemma undo_create_rep c lp l l' id d :
  ledger_inv l -> spec_op (OpCreate id d) l = Ok l' -> cache_rep c lp l' ->
  exists c', undo (undo_record (OpCreate id d) l l') c = (c', Ok tt) /\ cache_rep c' lp l.
Proof.
  intros Hinv Hspec Hrep. specialize (Hinv id).
  apply spec_create_Ok in Hspec as (a & g & Ho & _ & _ & _ & _ & ->).
  rewrite Ho in Hinv. destruct Hinv as [Ha0 Hg0]. cbn [undo undo_record].
  destruct (set_order_eq l id (Some (from_chain_order d)) a g) as (Ho' & Ha' & Hg').
  unfold delta_undo, undo_create_order, mbind, st_bind, gets, lift, result_bind.
  rewrite (cache_rep_ask _ _ _ _ Hrep), Ho, Ho', Ha', Hg', bool_decide_true by done. simpl.
  destruct (ask_sub_rep c lp _ id a (l_ask l id) Hrep) as (c1 & -> & Hrep1); [rewrite Ha'; lia|].
  rewrite (cache_rep_give _ _ _ _ Hrep1). cbn [l_give]. rewrite Hg', bool_decide_true by done. simpl.
  destruct (give_sub_rep c1 lp _ id g (l_give l id) Hrep1) as (c2 & -> & Hrep2).
  { cbn [l_give]. rewrite Hg'. lia. }
  rewrite (cache_rep_order _ _ _ _ Hrep2). cbn [l_order]. rewrite Ho', bool_decide_true by done. simpl.
  destruct (undo_order_delta_rep c2 lp _ id (invert (mk_delta None (Some (from_chain_order d)))) Hrep2)
    as (c3 & -> & Hrep3); [done|].
  exists c3. split; [done|]. eapply cache_rep_equiv_orders; [|exact Hrep3].
  etransitivity; [|apply (set_order_restore l id (Some (from_chain_order d)) a g)].
  intros j. cbn. by rewrite Ho.
Qed.

Lemma undo_conclude_rep c lp l l' id :
  bounded l -> spec_op (OpConclude id) l = Ok l' -> cache_rep c lp l' ->
  exists c', undo (undo_record (OpConclude id) l l') c = (c', Ok tt) /\ cache_rep c' lp l.
Proof.
  intros [Hab Hgb] Hspec Hrep. apply spec_conclude_Ok in Hspec as (d & Ho & ->).
  cbn [undo undo_record].
  destruct (set_order_eq l id None Amount.ZERO Amount.ZERO) as (Ho' & Ha' & Hg').
  unfold delta_undo, undo_conclude_order, mbind, st_bind, gets, lift, result_bind.
  rewrite (cache_rep_order _ _ _ _ Hrep), Ho, Ho'. simpl.
  destruct (undo_order_delta_rep c lp _ id (invert (mk_delta (Some d) None)) Hrep)
    as (c1 & -> & Hrep1); [done|].
  rewrite (cache_rep_ask _ _ _ _ Hrep1). cbn [l_ask]. rewrite Ha', bool_decide_true by done. simpl.
  destruct (ask_add_rep c1 lp _ id (l_ask l id) (l_ask l id) Hrep1) as (c2 & -> & Hrep2).
  { cbn [l_ask]. rewrite Ha'. simpl. lia. }
  { apply Hab. }
  rewrite (cache_rep_give _ _ _ _ Hrep2). cbn [l_give]. rewrite Hg', bool_decide_true by done. simpl.
  destruct (give_add_rep c2 lp _ id (l_give l id) (l_give l id) Hrep2) as (c3 & -> & Hrep3).
  { cbn [l_give]. rewrite Hg'. simpl. lia. }
  { apply Hgb. }
  exists c3. split; [done|]. eapply cache_rep_equiv_orders; [|exact Hrep3].
  etransitivity; [|apply (set_order_restore l id None Amount.ZERO Amount.ZERO)].
  intros j. cbn. by rewrite Ho.
Qed.

Lemma undo_fill_rep c lp l l' id fill v :
  bounded l -> spec_op (OpFill id fill v) l = Ok l' -> cache_rep c lp l' ->
  exists c', undo (undo_record (OpFill id fill v) l l') c = (c', Ok tt) /\ cache_rep c' lp l.
Proof.
  intros [Hab Hgb] Hspec Hrep.
  apply spec_fill_Ok in Hspec as (d & filled & a & g & Ho & _ & _ & Ha & Hg & ->).
  cbn [undo undo_record]. destruct (set_order_eq l id (Some d) a g) as (Ho' & Ha' & Hg').
  rewrite Hg'. replace (Amount.sub (l_give l id) g) with (Some filled)
    by (symmetry; apply Amount_sub_Some; lia). cbn [from_option Datatypes.id].
  unfold undo_fill_order, mbind, st_bind.
  destruct (ask_add_rep c lp _ id fill (l_ask l id) Hrep) as (c1 & -> & Hrep1).
  { rewrite Ha'. lia. }
  { apply Hab. }
  destruct (give_add_rep c1 lp _ id filled (l_give l id) Hrep1) as (c2 & -> & Hrep2).
  { cbn [l_give]. rewrite Hg'. lia. }
  { apply Hgb. }
  exists c2. split; [done|]. eapply cache_rep_equiv_orders; [|exact Hrep2].
  etransitivity; [|apply (set_order_restore l id (Some d) a g)].
  intros j. cbn. rewrite Ho. unfold insert, fn_insert. by repeat case_decide.
Qed.

Lemma undo_freeze_rep c lp l l' id :
  spec_op (OpFreeze id) l = Ok l' -> cache_rep c lp l' ->
  exists c', undo (undo_record (OpFreeze id) l l') c = (c', Ok tt) /\ cache_rep c' lp l.
Proof.
  intros Hspec Hrep. apply spec_freeze_Ok in Hspec as (d & Ho & _ & ->).
  cbn [undo undo_record]. set (d' := mk_order _ _ _ _) in *.
  destruct (set_order_eq l id (Some d') (l_ask l id) (l_give l id)) as (Ho' & Ha' & Hg').
  unfold delta_undo, undo_freeze_order, mbind, st_bind, gets, lift, result_bind.
  rewrite (cache_rep_order _ _ _ _ Hrep), Ho, Ho', bool_decide_true by done. simpl.
  destruct (undo_order_delta_rep c lp _ id (invert (mk_delta (Some d) (Some d'))) Hrep)
    as (c1 & -> & Hrep1); [done|].
  exists c1. split; [done|]. eapply cache_rep_equiv_orders; [|exact Hrep1].
  etransitivity; [|apply (set_order_restore l id (Some d') (l_ask l id) (l_give l id))].
  intros j. cbn. rewrite Ho. unfold insert, fn_insert. by repeat case_decide.
Qed.

(** Every operation is undone by its record, in any cache that shows the
    ledger it led to. *)
Lemma undo_op_rep_orders c lp l l' op :
  ledger_inv l -> bounded l -> spec_op op l = Ok l' -> cache_rep c lp l' ->
  exists c', undo (undo_record op l l') c = (c', Ok tt) /\ cache_rep c' lp l.
Proof.
  intros Hinv Hb. destruct op; [by apply undo_create_rep|by apply undo_conclude_rep| |].
  - by apply undo_fill_rep.
  - by apply undo_freeze_rep.
Qed.
End undo_section.

(** * Flushing a cache *)

(** What the database relies on: a storage that keeps what is written. *)
Class ReliableOrdersStorage `{CryptoTypes} (S : Type) `{!OrdersAccountingStorage S} := {
  orders_of : S -> gmap OrderId OrderData;
  asks_of : S -> gmap OrderId Amount;
  gives_of : S -> gmap OrderId Amount;
  orders_cell : reliable_cell storage_get_order_data set_order_data del_order_data
    orders_of (same (fun s => (asks_of s, gives_of s)));
  asks_cell : reliable_cell storage_get_ask_balance set_ask_balance del_ask_balance
    asks_of (same (fun s => (orders_of s, gives_of s)));
  gives_cell : reliable_cell storage_get_give_balance set_give_balance del_give_balance
    gives_of (same (fun s => (orders_of s, asks_of s)))
}.

#[global] Instance in_memory_reliable `{CryptoTypes} : ReliableOrdersStorage InMemoryOrdersAccounting.
Proof.
  refine {| orders_of := mem_orders_data; asks_of := mem_ask_balances;
            gives_of := mem_give_balances |}; split; intros; simpl; unfold same; eauto.
Defined.

Lemma flush_to_cache_orders `{CryptoTypes} {P} `{!OrdersAccountingView P}
    (c : OrdersAccountingCache (OrdersAccountingCache P)) lpp lp l :
  cache_rep (parent c) lpp lp -> cache_rep c lp l ->
  exists p', batch_write_orders_data (data c) (parent c) =
      (p', Ok (mk_delta_undo_data (invert <$> dd_order_data (data c))
                 (dd_ask_balances (data c)) (dd_give_balances (data c)))) /\
    cache_rep p' lpp l.
Proof.
  intros [Hp Ho Ha Hg] [_ Ho' Ha' Hg'].
  destruct (data_rep_flush _ _ _ _ _ Ho Ho') as (t & Ht & Htr).
  destruct (balance_rep_flush _ _ _ _ _ Ha Ha') as (a & Ham & Har).
  destruct (balance_rep_flush _ _ _ _ _ Hg Hg') as (g & Hgm & Hgr).
  exists (mk_cache (parent (parent c)) (mk_delta_data t a g)). split; [|done].
  unfold batch_write_orders_data, merge_with_delta, in_data, in_order_data,
    in_ask_balances, in_give_balances, zoom, mbind, st_bind. rewrite Ht. simpl.
  rewrite Ham. simpl. by rewrite Hgm.
Qed.

Lemma flush_to_db_orders `{CryptoTypes} {S} `{!OrdersAccountingStorage S} `{!ReliableOrdersStorage S}
    (c : OrdersAccountingCache (OrdersAccountingDB S)) lp l :
  cache_rep c lp l ->
  exists db' u, db_batch_write_orders_data (data c) (parent c) = (db', Ok u) /\
    represents db' l /\
    ud_order_data u = invert <$> dd_order_data (data c) /\
    forall id, delta_at (ud_ask_balances u) id = - delta_at (dd_ask_balances (data c)) id /\
               delta_at (ud_give_balances u) id = - delta_at (dd_give_balances (data c)) id.
Proof.
  intros [Hp Ho Ha Hg]. destruct (parent c) as [s] eqn:Hpar.
  assert (forall id, orders_of s !! id = l_order lp id /\
    default Amount.ZERO (asks_of s !! id) = l_ask lp id /\
    default Amount.ZERO (gives_of s !! id) = l_give lp id) as Hs.
  { intros id. destruct (Hp id) as (Hso & Hsa & Hsg). simpl in Hso, Hsa, Hsg.
    rewrite (cell_get _ _ _ _ _ orders_cell) in Hso. rewrite (cell_get _ _ _ _ _ asks_cell) in Hsa.
    rewrite (cell_get _ _ _ _ _ gives_cell) in Hsg.
    injection Hso as Hso. injection Hsa as Hsa. by injection Hsg as Hsg. }
  destruct (store_flush_data AccountingError ViewFail StorageWrite _ _ _ _ _
    (dd_order_data (data c)) s (l_order l) orders_cell) as (s1 & u1 & Hr1 & Ho1 & Hu1 & Hf1).
  { eapply data_rep_base_ext, Ho. intros k. by destruct (Hs k). }
  injection Hf1 as Hfa1 Hfg1.
  destruct (store_flush_balance AccountingError ViewFail StorageWrite _ _ _ _ _
    (dd_ask_balances (data c)) s1 (l_ask l) asks_cell) as (s2 & u2 & Hr2 & Ho2 & [_ Hu2] & Hf2).
  { eapply balance_rep_base_ext, Ha. intros k. rewrite Hfa1. by destruct (Hs k) as (_ & ? & _). }
  injection Hf2 as Hfo2 Hfg2.
  destruct (store_flush_balance AccountingError ViewFail StorageWrite _ _ _ _ _
    (dd_give_balances (data c)) s2 (l_give l) gives_cell) as (s3 & u3 & Hr3 & Ho3 & [_ Hu3] & Hf3).
  { eapply balance_rep_base_ext, Hg. intros k. rewrite Hfg2, Hfg1. by destruct (Hs k) as (_ & _ & ?). }
  injection Hf3 as Hfo3 Hfa3.
  exists (mk_db s3), (mk_delta_undo_data (btree_collect u1) (btree_collect u2) (btree_collect u3)).
  split; [|split; [|done]].
  - unfold db_batch_write_orders_data, st_map_err, db_merge_with_delta, in_store, zoom, mbind,
      st_bind, db_merge_order_data, db_merge_ask_balance, db_merge_give_balance. simpl.
    by rewrite Hr1, Hr2, Hr3.
  - intros id. simpl. rewrite (cell_get _ _ _ _ _ orders_cell), (cell_get _ _ _ _ _ asks_cell),
      (cell_get _ _ _ _ _ gives_cell). simpl. by rewrite Hfo3, Hfo2, Ho1, Hfa3, Ho2, Ho3.
Qed.

(** * Sequences of operations *)

Section traces.
Context `{CryptoTypes} {P : Type} `{!OrdersAccountingView P}.
Implicit Types (c : OrdersAccountingCache P) (us : list OrdersAccountingUndo).

(** [trace c us c']: successful operations lead from [c] to [c'], with the
    undo records [us], the latest first. *)
Inductive trace c : list OrdersAccountingUndo -> OrdersAccountingCache P -> Prop :=
  | trace_nil : trace c [] c
  | trace_step us c1 op c2 u :
      trace c us c1 -> op_in_range op -> exec_op op c1 = (c2, Ok u) -> trace c (u :: us) c2.

(** Disconnecting: the undo records are applied from the latest on. *)
Definition undo_all us : ST (OrdersAccountingCache P) Error unit := try_for_each undo us.

Lemma trace_ledger_orders c us c' lp l :
  trace c us c' -> cache_rep c lp l -> ledger_inv l ->
  exists l', cache_rep c' lp l' /\ ledger_inv l'.
Proof.
  intros Htr Hrep Hinv. induction Htr as [|us c1 op c2 u Htr (l1 & Hrep1 & Hinv1) Hr Hexec].
  - by exists l.
  - destruct (exec_op_inv_orders _ _ _ _ _ _ Hrep1 Hinv1 Hr Hexec) as (l2 & Hspec & Hrep2 & _).
    exists l2. split; [done|]. by eapply spec_op_inv_orders.
Qed.
End traces.

Lemma undo_all_restores_orders `{CryptoTypes} {P P'} `{!OrdersAccountingView P, !OrdersAccountingView P'}
    (c c' : OrdersAccountingCache P) us lp l :
  trace c us c' -> cache_rep c lp l -> ledger_inv l ->
  exists l', cache_rep c' lp l' /\ ledger_inv l' /\
    forall (d : OrdersAccountingCache P') lpd, cache_rep d lpd l' ->
      exists d', undo_all us d = (d', Ok tt) /\ cache_rep d' lpd l.
Proof.
  intros Htr Hrep Hinv. induction Htr as [|us c1 op c2 u Htr (l1 & Hrep1 & Hinv1 & Hundo) Hr Hexec].
  - exists l. split; [done|]. split; [done|]. intros d lpd Hd. by exists d.
  - destruct (exec_op_inv_orders _ _ _ _ _ _ Hrep1 Hinv1 Hr Hexec) as (l2 & Hspec & Hrep2 & ->).
    exists l2. split; [done|]. split; [by eapply spec_op_inv_orders|]. intros d lpd Hd.
    destruct (undo_op_rep_orders d lpd l1 l2 op Hinv1 (cache_rep_bounded_orders _ _ _ Hrep1) Hspec Hd)
      as (d1 & Hd1 & Hrd1).
    destruct (Hundo d1 lpd Hrd1) as (d2 & Hd2 & Hrd2).
    exists d2. split; [|done]. unfold undo_all. simpl. by erewrite st_bind_run.
Qed.

(** ** When an order can be filled *)

(** Splitting a fill in two never buys more. *)
Lemma price_split a g f1 f2 f x1 x2 x :
  ival f = ival f1 + ival f2 ->
  price a g f1 = Some x1 -> price a g f2 = Some x2 -> price a g f = Some x ->
  ival x1 + ival x2 <= ival x.
Proof.
  unfold price. destruct (Z.eqb_spec (ival a) 0); [done|].
  intros Hf ->%bint_of_Z_Some ->%bint_of_Z_Some ->%bint_of_Z_Some. rewrite Hf.
  pose proof (bint_range a).
  pose proof (Z.mul_div_le (ival g * ival f1) (ival a) ltac:(lia)).
  pose proof (Z.mul_div_le (ival g * ival f2) (ival a) ltac:(lia)).
  apply Z.div_le_lower_bound; lia.
Qed.

Lemma price_value a g f x : price a g f = Some x -> ival x = ival g * ival f / ival a.
Proof. unfold price. case_match; [done|]. apply bint_of_Z_Some. Qed.

(** Taking all that is asked for yields all that is left to give. *)
Lemma price_all a g : 0 < ival a -> price a g a = Some g.
Proof.
  intros Ha. unfold price. destruct (Z.eqb_spec (ival a) 0); [lia|].
  rewrite Z.div_mul by lia. apply bint_of_Z_ival.
Qed.

Lemma spec_price_enabled `{CryptoTypes} l id d (fill : Amount) v :
  order_covered d (l_ask l id) (l_give l id) -> ival fill <= ival (l_ask l id) ->
  0 < ival (l_ask l id) ->
  exists original_ask original_give filled,
    output_value_amount (ask d) = Ok original_ask /\
    output_value_amount (give d) = Ok original_give /\
    match v with
    | V0 => price (l_ask l id) (l_give l id) fill = Some filled /\
            spec_price l id d fill V0 = Ok filled
    | V1 => price original_ask original_give fill = Some filled /\
            spec_price l id d fill V1 =
              if Amount.ltb Amount.ZERO filled then Ok filled else Err (OrderUnderbid id fill)
    end.
Proof.
  intros (oa & og & Hoa & Hog & Hoap & Hogp & Hla & Hlg & Hcov) Hle Hpos.
  assert (Amount.leb fill (l_ask l id) = true) as Hleb by (by apply Z.leb_le).
  exists oa, og. destruct v.
  - destruct (price_Some (l_ask l id) (l_give l id) fill) as (x & Hx); [done|done|].
    exists x. repeat (split; [done|]). unfold spec_price. by rewrite Hleb, Hx.
  - destruct (price_Some oa og fill) as (x & Hx); [done|lia|].
    exists x. repeat (split; [done|]). unfold spec_price. rewrite Hoa, Hog, Hleb. simpl. rewrite Hx.
    simpl. by destruct (Amount.ltb Amount.ZERO x).
Qed.

Lemma fill_order_succeeds `{CryptoTypes} {P} `{!OrdersAccountingView P}
    (c : OrdersAccountingCache P) lp l id d fill v filled :
  cache_rep c lp l -> ledger_inv l -> l_order l id = Some d -> is_frozen d = false ->
  spec_price l id d fill v = Ok filled ->
  exists c', fill_order id fill v c = (c', Ok (FillOrderUndo id fill filled)) /\
    exists g : Amount, ival g = ival (l_give l id) - ival filled /\
      cache_get_give_balance c' id = Ok g.
Proof.
  intros Hrep Hinv Ho Hf Hp.
  pose proof (fill_rep c lp l id fill v Hrep Hinv) as Hr. unfold op_follows_rules in Hr.
  pose proof (Hinv id) as Hcov. rewrite Ho in Hcov.
  destruct (spec_price_covered _ _ _ _ _ _ Hcov Hp) as (Hle & Hgle & _).
  cbn [spec_op exec_op] in Hr. rewrite Ho in Hr. cbn [ok_or mbind result_bind] in Hr.
  rewrite Hf, Hp in Hr. simpl in Hr.
  destruct (Amount.sub (l_ask l id) fill) as [a|] eqn:Ha; [|amount_inv; lia].
  destruct (Amount.sub (l_give l id) filled) as [g|] eqn:Hg; [|amount_inv; lia]. simpl in Hr.
  destruct Hr as (c' & Hc' & Hrep'). pose proof Hg as Hgv. amount_inv.
  exists c'. split.
  - rewrite Hc', fn_lookup_insert. replace (Amount.sub (l_give l id) g) with (Some filled); [done|].
    symmetry. apply Amount_sub_Some. lia.
  - exists g. split; [done|]. rewrite (cache_rep_give _ _ _ _ Hrep'). simpl.
    by rewrite fn_lookup_insert.
Qed.

(** * A concrete ledger

    An empty in-memory storage; order 5 gives 1000 atoms of token 9 for 300
    coins. *)

Module Example.
#[export] Existing Instance numbered_keys.

Definition store : OrdersAccountingDB InMemoryOrdersAccounting := mk_db InMemoryOrdersAccounting_new.
Abbreviation Cache := (OrdersAccountingCache (OrdersAccountingDB InMemoryOrdersAccounting)).
Definition empty_ledger : Ledger :=
  mk_ledger (fun _ => None) (fun _ => Amount.ZERO) (fun _ => Amount.ZERO).
Definition cache : Cache := OrdersAccountingCache_new store.

Lemma store_represents_orders : represents store empty_ledger.
Proof. by intros id. Qed.

Lemma empty_bounded_orders : bounded empty_ledger.
Proof. split; intros id; vm_compute; discriminate. Qed.

Lemma empty_inv_orders : ledger_inv empty_ledger.
Proof. by intros id. Qed.

Lemma cache_rep_cache_orders : cache_rep cache empty_ledger empty_ledger.
Proof. apply cache_rep_new_orders; [apply store_represents_orders|apply empty_bounded_orders]. Qed.

Definition order : ChainOrderData := {|
  co_conclude_key := AnyoneCanSpend;
  co_ask := Coin (Amount.lit 300);
  co_give := TokenV1 9 (Amount.lit 1000)
|}.

Definition after (op : OrderOp) (c : Cache) : Cache := (exec_op op c).1.
Definition record_of (op : OrderOp) (c : Cache) : OrdersAccountingUndo :=
  match (exec_op op c).2 with Ok u => u | _ => FillOrderUndo 0 Amount.ZERO Amount.ZERO end.

Definition create : OrderOp := OpCreate 5 order.
Definition fill : OrderOp := OpFill 5 (Amount.lit 100) V1.
Definition created : Cache := after create cache.
Definition filled : Cache := after fill created.

Definition created_ledger : Ledger :=
  set_order empty_ledger 5 (Some (from_chain_order order)) (Amount.lit 300) (Amount.lit 1000).

Lemma create_in_range : op_in_range create.
Proof. split; vm_compute; discriminate. Qed.

Lemma created_rep : cache_rep created empty_ledger created_ledger.
Proof.
  pose proof (exec_op_rep_orders cache _ _ create cache_rep_cache_orders empty_inv_orders create_in_range) as Hex.
  change (exists c', exec_op create cache = (c', Ok (undo_record create empty_ledger created_ledger))
    /\ cache_rep c' empty_ledger created_ledger) in Hex.
  destruct Hex as (c' & Hc' & Hrep). unfold created, after. by rewrite Hc'.
Qed.

Lemma created_inv : ledger_inv created_ledger.
Proof. by apply (spec_op_inv_orders create empty_ledger); [apply empty_inv_orders|]. Qed.

(** 100 coins buy a third of the tokens, rounded down. *)
Example fill_runs :
  (exec_op fill created).2 = Ok (FillOrderUndo 5 (Amount.lit 100) (Amount.lit 333)) /\
  cache_get_give_balance filled 5 = Ok (Amount.lit 667).
Proof. vm_compute. split; reflexivity. Qed.
End Example.

(** * Main properties *)

Section properties.
Context `{CryptoTypes} {P : Type} `{!OrdersAccountingView P}.

(** C33: every operation of the orders cache (create, conclude, fill, freeze)
    does to the visible ledger exactly what the rules say: it succeeds with
    the ruled new ledger and undo record, or fails with the ruled error and
    changes nothing; it never panics.  There is one exception.  Balances are kept as
    signed 128-bit numbers, so creating an order that the rules allow but that asks
    or gives more than [i128::MAX] fails with an arithmetic error, after the data of
    the order were written to the cache. *)
Theorem orders_operations_follow_rules (c : OrdersAccountingCache P) lp l op :
  cache_rep c lp l -> ledger_inv l ->
  match spec_op op l with
  | Ok l' =>
      (op_in_range op -> exists c', exec_op op c = (c', Ok (undo_record op l l')) /\ cache_rep c' lp l') /\
      (~ op_in_range op -> exists c' l1, exec_op op c = (c', Err (AccountingError ArithmeticErrorToSignedFailed)) /\
        cache_rep c' lp l1 /\ half_created op l1)
  | Err e => exec_op op c = (c, Err e)
  | Panic => False
  end.
Proof. apply exec_op_outcome. Qed.

(** C34: whatever operations are executed, every order stays covered: its
    balances never exceed the amounts it was created with, and what is left
    to give is at least what the remaining ask is worth at the original
    price, so the takers together never receive more than that price allows.
    An id without an order has no balances. *)
Theorem orders_stay_covered (c c' : OrdersAccountingCache P) us lp l id :
  cache_rep c lp l -> ledger_inv l -> trace c us c' ->
  exists a g o, cache_get_ask_balance c' id = Ok a /\ cache_get_give_balance c' id = Ok g /\
    cache_get_order_data c' id = Ok o /\
    match o with
    | None => ival a = 0 /\ ival g = 0
    | Some d => exists original_ask original_give,
        output_value_amount (ask d) = Ok original_ask /\
        output_value_amount (give d) = Ok original_give /\
        0 <= ival original_ask - ival a /\ 0 <= ival original_give - ival g /\
        (ival original_give - ival g) * ival original_ask
          <= ival original_give * (ival original_ask - ival a)
    end.
Proof.
  intros Hrep Hinv Htr. destruct (trace_ledger_orders _ _ _ _ _ Htr Hrep Hinv) as (l' & Hrep' & Hinv').
  exists (l_ask l' id), (l_give l' id), (l_order l' id).
  split; [by eapply cache_rep_ask|]. split; [by eapply cache_rep_give|].
  split; [by eapply cache_rep_order|]. specialize (Hinv' id).
  destruct (l_order l' id) as [d|]; [|done].
  destruct Hinv' as (oa & og & Hoa & Hog & _ & _ & Ha & Hg & Hcov).
  exists oa, og. split; [done|]. split; [done|]. split; [lia|]. split; [lia|]. nia.
Qed.

(** C35: applying the undo records of a sequence of operations, from the
    latest on, succeeds and shows the ledger from before the sequence, in any
    cache that shows the ledger after it. *)
Theorem orders_undo_restores_ledger {P'} `{!OrdersAccountingView P'}
    (c c' : OrdersAccountingCache P) us lp l :
  cache_rep c lp l -> ledger_inv l -> trace c us c' ->
  exists l', cache_rep c' lp l' /\
    forall (d : OrdersAccountingCache P') lpd, cache_rep d lpd l' ->
      exists d', undo_all us d = (d', Ok tt) /\ cache_rep d' lpd l.
Proof.
  intros Hrep Hinv Htr.
  destruct (undo_all_restores_orders (P' := P') _ _ _ _ _ Htr Hrep Hinv) as (l' & Hrep' & _ & Hundo).
  by exists l'.
Qed.

(** An order that is not frozen can be filled with any amount up to its
    ask balance.  By the rule of version 0 the fill always succeeds, and
    filling all that is asked leaves nothing to give; by the rule of version
    1 it succeeds unless the amount buys nothing at the original price. *)
Theorem orders_fill_enabled (c : OrdersAccountingCache P) lp l id d (fill : Amount) :
  cache_rep c lp l -> ledger_inv l -> l_order l id = Some d -> is_frozen d = false ->
  ival fill <= ival (l_ask l id) -> 0 < ival (l_ask l id) ->
  (exists c' filled, fill_order id fill V0 c = (c', Ok (FillOrderUndo id fill filled)) /\
     ival filled = ival (l_give l id) * ival fill / ival (l_ask l id) /\
     (fill = l_ask l id -> cache_get_give_balance c' id = Ok Amount.ZERO)) /\
  (exists original_ask original_give,
     output_value_amount (ask d) = Ok original_ask /\
     output_value_amount (give d) = Ok original_give /\
     let bought := ival original_give * ival fill / ival original_ask in
     if bought =? 0 then fill_order id fill V1 c = (c, Err (OrderUnderbid id fill))
     else exists c' filled, fill_order id fill V1 c = (c', Ok (FillOrderUndo id fill filled)) /\
       ival filled = bought).
Proof.
  intros Hrep Hinv Ho Hf Hle Hpos. pose proof (Hinv id) as Hcov. rewrite Ho in Hcov.
  assert (forall v filled, spec_price l id d fill v = Ok filled ->
    exists c', fill_order id fill v c = (c', Ok (FillOrderUndo id fill filled)) /\
      exists g : Amount, ival g = ival (l_give l id) - ival filled /\
        cache_get_give_balance c' id = Ok g) as Hfill.
  { intros v filled Hp. by eapply fill_order_succeeds. }
  split.
  - destruct (spec_price_enabled l id d fill V0 Hcov Hle Hpos) as (_ & _ & filled & _ & _ & Hx & Hp).
    destruct (Hfill _ _ Hp) as (c' & Hc' & g & Hg & Hgive).
    exists c', filled. split; [done|]. split; [by eapply price_value|].
    intros ->. rewrite price_all in Hx by done. injection Hx as <-. rewrite Hgive. f_equal.
    apply bint_eq. simpl. lia.
  - destruct (spec_price_enabled l id d fill V1 Hcov Hle Hpos) as (oa & og & filled & Hoa & Hog & Hx & Hp).
    exists oa, og. split; [done|]. split; [done|]. cbv zeta. rewrite <- (price_value _ _ _ _ Hx).
    pose proof (bint_range filled).
    destruct (Amount.ltb Amount.ZERO filled) eqn:Hlt; amount_inv; rewrite ?ival_ZERO in *.
    + rewrite (proj2 (Z.eqb_neq _ _)) by lia.
      destruct (Hfill _ _ Hp) as (c' & Hc' & _). by exists c', filled.
    + rewrite (proj2 (Z.eqb_eq _ _)) by lia.
      pose proof (fill_rep c lp l id fill V1 Hrep Hinv) as Hr. unfold op_follows_rules in Hr.
      cbn [spec_op exec_op] in Hr. rewrite Ho in Hr. cbn [ok_or mbind result_bind] in Hr.
      by rewrite Hf, Hp in Hr.
Qed.

(** Flushing an orders cache into the cache below it always succeeds,
    and the cache below then shows what the flushed cache showed. *)
Theorem orders_flush_to_cache (c : OrdersAccountingCache (OrdersAccountingCache P)) lpp lp l :
  cache_rep (parent c) lpp lp -> cache_rep c lp l ->
  exists p', batch_write_orders_data (data c) (parent c) =
      (p', Ok (mk_delta_undo_data (invert <$> dd_order_data (data c))
                 (dd_ask_balances (data c)) (dd_give_balances (data c)))) /\
    cache_rep p' lpp l.
Proof. apply flush_to_cache_orders. Qed.
End properties.

(** Flushing an orders cache into the database over a storage that keeps
    what is written always succeeds, the database then answers every query as
    the cache did, and the undo data inverts every data delta and negates
    every balance delta. *)
Theorem orders_flush_to_db `{CryptoTypes} {S} `{!OrdersAccountingStorage S}
    `{!ReliableOrdersStorage S} (c : OrdersAccountingCache (OrdersAccountingDB S)) lp l :
  cache_rep c lp l ->
  exists db' u, db_batch_write_orders_data (data c) (parent c) = (db', Ok u) /\
    represents db' l /\
    ud_order_data u = invert <$> dd_order_data (data c) /\
    forall id, delta_at (ud_ask_balances u) id = - delta_at (dd_ask_balances (data c)) id /\
               delta_at (ud_give_balances u) id = - delta_at (dd_give_balances (data c)) id.
Proof. apply flush_to_db_orders. Qed.

(** The price of a fill is computed without overflow or panic, whatever
    the three amounts are: it is the exact quotient rounded down, or nothing
    when nothing is asked for or the quotient exceeds an amount.  Two fills
    together never buy more than one fill of their sum. *)
Theorem fill_price_exact {E} (a g f1 f2 f : Amount) :
  (match @calculate_filled_amount E a g f with
   | Ok (Some x) => 0 < ival a /\ ival x = ival g * ival f / ival a
   | Ok None => ival a = 0 \/ u128_MAX < ival g * ival f / ival a
   | _ => False
   end) /\
  (forall x1 x2 x, ival f = ival f1 + ival f2 ->
     @calculate_filled_amount E a g f1 = Ok (Some x1) ->
     @calculate_filled_amount E a g f2 = Ok (Some x2) ->
     @calculate_filled_amount E a g f = Ok (Some x) -> ival x1 + ival x2 <= ival x).
Proof.
  rewrite !calculate_filled_amount_price. split.
  - unfold price. pose proof (bint_range a). pose proof (bint_range g). pose proof (bint_range f).
    destruct (Z.eqb_spec (ival a) 0) as [|Hne]; [by left|].
    destruct (bint_of_Z _) as [x|] eqn:Hx.
    + apply bint_of_Z_Some in Hx. split; [lia|done].
    + right. apply bint_of_Z_None in Hx.
      assert (0 <= ival g * ival f / ival a) by (apply Z.div_pos; nia). lia.
  - intros x1 x2 x Hf [= Hx1] [= Hx2] [= Hx]. by eapply price_split.
Qed.

(** ** The properties on concrete inputs *)

Module Witnesses.
Import Example.

Lemma orders_operations_follow_rules_witness :
  exec_op (OpFill 5 (Amount.lit 301) V0) created =
    (created, Err (OrderOverbid 5 (Amount.lit 300) (Amount.lit 301))) /\
  exists c', exec_op create cache = (c', Ok (undo_record create empty_ledger created_ledger)) /\
    cache_rep c' empty_ledger created_ledger.
Proof.
  split.
  - exact (orders_operations_follow_rules created empty_ledger created_ledger
      (OpFill 5 (Amount.lit 301) V0) created_rep created_inv).
  - exact (proj1 (orders_operations_follow_rules cache empty_ledger empty_ledger create
      cache_rep_cache_orders empty_inv_orders) create_in_range).
Defined.

(** Create the order, buy a third, freeze it. *)
Definition frozen : Cache := after (OpFreeze 5) filled.
Definition records : list OrdersAccountingUndo :=
  [record_of (OpFreeze 5) filled; record_of fill created; record_of create cache].

Lemma frozen_trace_orders : trace cache records frozen.
Proof.
  apply trace_step with (c1 := filled) (op := OpFreeze 5); [|exact I|vm_compute; reflexivity].
  apply trace_step with (c1 := created) (op := fill); [|exact I|vm_compute; reflexivity].
  apply trace_step with (c1 := cache) (op := create);
    [apply trace_nil|exact create_in_range|vm_compute; reflexivity].
Qed.

Lemma orders_stay_covered_witness :
  exists a g o, cache_get_ask_balance frozen 5 = Ok a /\ cache_get_give_balance frozen 5 = Ok g /\
    cache_get_order_data frozen 5 = Ok (Some o) /\ 333 * 300 <= 1000 * (300 - ival a).
Proof.
  destruct (orders_stay_covered cache frozen records empty_ledger empty_ledger 5
    cache_rep_cache_orders empty_inv_orders frozen_trace_orders) as (a & g & o & Ha & Hg & Ho & Hcov).
  vm_compute in Ha, Hg, Ho. injection Ha as <-. injection Hg as <-. injection Ho as <-.
  eexists _, _, _. split; [vm_compute; reflexivity|]. split; [vm_compute; reflexivity|].
  split; [vm_compute; reflexivity|].
  destruct Hcov as (oa & og & Hoa & Hog & _ & _ & Hle).
  injection Hoa as <-. injection Hog as <-. exact Hle.
Defined.

Lemma orders_undo_restores_ledger_witness :
  exists l', cache_rep frozen empty_ledger l' /\
    forall (d : Cache) lpd, cache_rep d lpd l' ->
      exists d', undo_all records d = (d', Ok tt) /\ cache_rep d' lpd empty_ledger.
Proof.
  exact (orders_undo_restores_ledger cache frozen records empty_ledger empty_ledger
    cache_rep_cache_orders empty_inv_orders frozen_trace_orders).
Defined.

Lemma orders_fill_enabled_witness :
  exists c' filled, fill_order 5 (Amount.lit 300) V0 created
      = (c', Ok (FillOrderUndo 5 (Amount.lit 300) filled)) /\
    cache_get_give_balance c' 5 = Ok Amount.ZERO.
Proof.
  destruct (orders_fill_enabled created empty_ledger created_ledger 5 (from_chain_order order)
    (Amount.lit 300) created_rep created_inv) as [(c' & x & Hc' & _ & Hall) _];
    [reflexivity|reflexivity|vm_compute; discriminate|reflexivity|].
  exists c', x. split; [exact Hc'|]. apply Hall. reflexivity.
Defined.

(** A cache on top of the one that created the order. *)
Definition child : OrdersAccountingCache Cache :=
  (exec_op fill (OrdersAccountingCache_new created)).1.

Lemma child_rep_orders : exists l, cache_rep child created_ledger l.
Proof.
  assert (cache_rep (OrdersAccountingCache_new created) created_ledger created_ledger) as Hnew.
  { apply cache_rep_new_orders; [eapply cache_represents_orders|eapply cache_rep_bounded_orders]; apply created_rep. }
  destruct (exec_op_inv_orders (OrdersAccountingCache_new created) created_ledger created_ledger fill
    child (FillOrderUndo 5 (Amount.lit 100) (Amount.lit 333)) Hnew created_inv I)
    as (l' & _ & Hrep & _); [vm_compute; reflexivity|by exists l'].
Qed.

Lemma orders_flush_to_cache_witness :
  exists l p', cache_rep child created_ledger l /\
    (batch_write_orders_data (data child) created).1 = p' /\ cache_rep p' empty_ledger l.
Proof.
  destruct child_rep_orders as (l & Hl).
  destruct (orders_flush_to_cache child empty_ledger created_ledger l created_rep Hl)
    as (p' & Hw & Hrep).
  exists l, p'. split; [exact Hl|]. split; [exact (f_equal fst Hw)|exact Hrep].
Defined.

Lemma orders_flush_to_db_witness :
  exists db' u, db_batch_write_orders_data (data created) store = (db', Ok u) /\
    represents db' created_ledger.
Proof.
  destruct (orders_flush_to_db created empty_ledger created_ledger created_rep)
    as (db' & u & Hw & Hrep & _).
  exists db', u. split; [exact Hw|exact Hrep].
Defined.

Lemma fill_price_exact_witness :
  ival (Amount.lit 33) + ival (Amount.lit 66) <= ival (Amount.lit 100).
Proof.
  pose proof (@fill_price_exact Error (Amount.lit 300) (Amount.lit 1000) (Amount.lit 10)
    (Amount.lit 20) (Amount.lit 30)) as [_ Hsplit].
  apply Hsplit; vm_compute; reflexivity.
Defined.
End Witnesses.
