(* ===== verification/PoS.v ===== *)
(** * The proof-of-stake ledger

    Models the [pos-accounting] crate: pools, delegations, their balances and
    shares, the cache [PoSAccountingDelta] with its seven operations and their
    undo, the merge of deltas, the database over a storage with its undo, and
    the in-memory storage.  The theorems relate the cache to a plain ledger,
    show that the stake of a pool is the staker's balance plus the shares of
    the delegations, and that operations, flushes and their undo are exact. *)
From S2P Require Import Prelude Amount Accounting ChainTypes.

(** ** Pools and delegations ([pool/pool_data.rs], [pool/delegation.rs]) *)

Record PoolData `{CryptoTypes} := mk_pool {
  decommission_destination : Destination;
  pledge_amount : Amount;
  staker_rewards : Amount;
  vrf_public_key : VRFPublicKey;
  margin_ratio_per_thousand : PerThousand;
  cost_per_block : Amount
}.
Arguments mk_pool {_} _ _ _ _ _ _.

#[global] Instance PoolData_eq_dec `{CryptoTypes} : EqDecision PoolData.
Proof. solve_decision. Defined.

Record DelegationData `{CryptoTypes} := mk_delegation {
  spend_destination : Destination;
  source_pool : PoolId
}.
Arguments mk_delegation {_} _ _.

#[global] Instance DelegationData_eq_dec `{CryptoTypes} : EqDecision DelegationData.
Proof. solve_decision. Defined.

Definition DelegationData_new `{CryptoTypes} (pool : PoolId) (d : Destination) : DelegationData :=
  mk_delegation d pool.

(** ** Errors ([error.rs]) *)

Inductive Error :=
  | AccountingError (e : Accounting.Error)
  | InvariantErrorPoolBalanceAlreadyExists
  | InvariantErrorPoolDataAlreadyExists
  | AttemptedDecommissionNonexistingPoolData
  | DelegationCreationFailedPoolDoesNotExist
  | DelegationDeletionFailedIdDoesNotExist
  | DelegationDeletionFailedBalanceNonZero
  | DelegationDeletionFailedPoolsShareNonZero
  | DelegationDeletionFailedPoolStillExists
  | InvariantErrorDelegationCreationFailedIdAlreadyExists
  | DelegateToNonexistingId
  | DelegateToNonexistingPool
  | SpendingShareOfNonexistingDelegation (id : DelegationId)
  | AdditionError
  | SubError
  | DelegationBalanceAdditionError
  | DelegationBalanceSubtractionError
  | PoolBalanceAdditionError
  | PoolBalanceSubtractionError
  | DelegationSharesAdditionError
  | DelegationSharesSubtractionError
  | InvariantErrorPoolCreationReversalFailedDataNotFound
  | InvariantErrorPoolCreationReversalFailedAmountChanged
  | InvariantErrorDecommissionUndoFailedPoolBalanceAlreadyExists
  | InvariantErrorDecommissionUndoFailedPoolDataAlreadyExists
  | InvariantErrorDelegationIdUndoFailedNotFound
  | InvariantErrorDelegationIdUndoFailedDataConflict
  | InvariantErrorDelegationBalanceAdditionUndoError
  | InvariantErrorPoolBalanceAdditionUndoError
  | InvariantErrorDelegationSharesAdditionUndoError
  | InvariantErrorDelegationShareNotFound
  | PledgeValueToSignedError
  | InvariantErrorDelegationUndoFailedDataNotFound (id : DelegationId)
  | DuplicatesInDeltaAndUndo
  | IncreaseStakerRewardsOfNonexistingPool
  | StakerBalanceOverflow
  | InvariantErrorIncreasePledgeUndoFailedPoolBalanceNotFound
  | InvariantErrorIncreaseStakerRewardUndoFailedPoolBalanceNotFound
  | InvariantErrorNonZeroBalanceForNonExistingDelegation
  | ViewFail
  | StorageWrite.

Definition staker_balance `{CryptoTypes} (self : PoolData) : result Error Amount :=
  ok_or StakerBalanceOverflow (Amount.add (pledge_amount self) (staker_rewards self)).

Definition with_staker_rewards `{CryptoTypes} (self : PoolData) (rewards : Amount) : PoolData :=
  mk_pool (decommission_destination self) (pledge_amount self) rewards (vrf_public_key self)
    (margin_ratio_per_thousand self) (cost_per_block self).

(** [PoolData::increase_staker_rewards]. *)
Definition pool_increase_staker_rewards `{CryptoTypes} (self : PoolData) (reward : Amount) :
    result Error PoolData :=
  rewards ← ok_or StakerBalanceOverflow (Amount.add (staker_rewards self) reward);
  Ok (with_staker_rewards self rewards).

Definition from_stake_pool_data `{CryptoTypes} (stake_data : StakePoolData) : PoolData :=
  mk_pool (sp_decommission_key stake_data) (sp_pledge stake_data) Amount.ZERO
    (sp_vrf_public_key stake_data) (sp_margin_ratio_per_thousand stake_data)
    (sp_cost_per_block stake_data).

(** ** Views ([pool/view.rs]) *)

Class PoSAccountingView `{CryptoTypes} (P : Type) := {
  view_error : Type;
  pool_exists : P -> PoolId -> result view_error bool;
  get_pool_balance : P -> PoolId -> result view_error Amount;
  get_pool_data : P -> PoolId -> result view_error (option PoolData);
  get_pool_delegations_shares : P -> PoolId -> result view_error (option (gmap DelegationId Amount));
  get_delegation_balance : P -> DelegationId -> result view_error Amount;
  get_delegation_data : P -> DelegationId -> result view_error (option DelegationData);
  get_pool_delegation_share : P -> PoolId -> DelegationId -> result view_error Amount
}.

(** ** Deltas ([pool/delta/data.rs], [pool/delta/mod.rs]) *)

Record PoSAccountingDeltaData `{CryptoTypes} := mk_delta_data {
  dd_pool_data : DeltaDataCollection PoolId PoolData;
  dd_pool_balances : DeltaAmountCollection PoolId;
  dd_pool_delegation_shares : DeltaAmountCollection (PoolId * DelegationId);
  dd_delegation_balances : DeltaAmountCollection DelegationId;
  dd_delegation_data : DeltaDataCollection DelegationId DelegationData
}.
Arguments mk_delta_data {_} _ _ _ _ _.

Record DeltaMergeUndo `{CryptoTypes} := mk_merge_undo {
  pool_data_undo : DeltaDataUndoCollection PoolId PoolData;
  delegation_data_undo : DeltaDataUndoCollection DelegationId DelegationData;
  pool_balances_undo : DeltaAmountCollection PoolId;
  pool_delegation_shares_undo : DeltaAmountCollection (PoolId * DelegationId);
  delegation_balances_undo : DeltaAmountCollection DelegationId
}.
Arguments mk_merge_undo {_} _ _ _ _ _.

Section delta_data.
Context `{CryptoTypes}.

Definition PoSAccountingDeltaData_new : PoSAccountingDeltaData := mk_delta_data ∅ ∅ ∅ ∅ ∅.

(** The methods of the five collections of a delta, as methods of the delta. *)
Definition in_pool_data {A} (m : ST (DeltaDataCollection PoolId PoolData) Accounting.Error A) :
    ST PoSAccountingDeltaData Error A :=
  zoom dd_pool_data (fun t d => mk_delta_data t (dd_pool_balances d) (dd_pool_delegation_shares d)
    (dd_delegation_balances d) (dd_delegation_data d)) AccountingError m.
Definition in_pool_balances {A} (m : ST (DeltaAmountCollection PoolId) Accounting.Error A) :
    ST PoSAccountingDeltaData Error A :=
  zoom dd_pool_balances (fun t d => mk_delta_data (dd_pool_data d) t (dd_pool_delegation_shares d)
    (dd_delegation_balances d) (dd_delegation_data d)) AccountingError m.
Definition in_shares {A} (m : ST (DeltaAmountCollection (PoolId * DelegationId)) Accounting.Error A) :
    ST PoSAccountingDeltaData Error A :=
  zoom dd_pool_delegation_shares (fun t d => mk_delta_data (dd_pool_data d) (dd_pool_balances d) t
    (dd_delegation_balances d) (dd_delegation_data d)) AccountingError m.
Definition in_delegation_balances {A} (m : ST (DeltaAmountCollection DelegationId) Accounting.Error A) :
    ST PoSAccountingDeltaData Error A :=
  zoom dd_delegation_balances (fun t d => mk_delta_data (dd_pool_data d) (dd_pool_balances d)
    (dd_pool_delegation_shares d) t (dd_delegation_data d)) AccountingError m.
Definition in_delegation_data {A}
    (m : ST (DeltaDataCollection DelegationId DelegationData) Accounting.Error A) :
    ST PoSAccountingDeltaData Error A :=
  zoom dd_delegation_data (fun t d => mk_delta_data (dd_pool_data d) (dd_pool_balances d)
    (dd_pool_delegation_shares d) (dd_delegation_balances d) t) AccountingError m.

Definition data_merge_with_delta (other : PoSAccountingDeltaData) :
    ST PoSAccountingDeltaData Error DeltaMergeUndo :=
  let pool_balances_undo := dd_pool_balances other in
  _ ← in_pool_balances (merge_delta_amounts (dd_pool_balances other));
  let pool_delegation_shares_undo := dd_pool_delegation_shares other in
  _ ← in_shares (merge_delta_amounts (dd_pool_delegation_shares other));
  let delegation_balances_undo := dd_delegation_balances other in
  _ ← in_delegation_balances (merge_delta_amounts (dd_delegation_balances other));
  pool_data_undo ← in_pool_data (merge_delta_data (dd_pool_data other));
  delegation_data_undo ← in_delegation_data (merge_delta_data (dd_delegation_data other));
  mret (mk_merge_undo pool_data_undo delegation_data_undo pool_balances_undo
          pool_delegation_shares_undo delegation_balances_undo).

Definition data_undo_delta_merge (undo_data : DeltaMergeUndo) : ST PoSAccountingDeltaData Error unit :=
  _ ← in_pool_balances (undo_merge_delta_amounts (pool_balances_undo undo_data));
  _ ← in_shares (undo_merge_delta_amounts (pool_delegation_shares_undo undo_data));
  _ ← in_delegation_balances (undo_merge_delta_amounts (delegation_balances_undo undo_data));
  _ ← in_pool_data (undo_merge_delta_data (pool_data_undo undo_data));
  in_delegation_data (undo_merge_delta_data (delegation_data_undo undo_data)).
End delta_data.

(** ** Undo records ([pool/operations.rs]) *)

Inductive PoSAccountingUndo `{CryptoTypes} :=
  | CreatePoolUndo (pool_id : PoolId) (pledge : Amount) (data_undo : DataDeltaUndo PoolData)
  | DecommissionPoolUndo (pool_id : PoolId) (pool_balance : Amount)
      (data_undo : DataDeltaUndo PoolData)
  | CreateDelegationIdUndo (delegation_id : DelegationId) (data_undo : DataDeltaUndo DelegationData)
  | DeleteDelegationIdUndo (delegation_id : DelegationId) (data_undo : DataDeltaUndo DelegationData)
  | DelegateStakingUndo (delegation_target : DelegationId) (amount_to_delegate : Amount)
  | SpendFromShareUndo (delegation_id : DelegationId) (amount : Amount)
  | IncreaseStakerRewardsUndo (pool_id : PoolId) (amount_added : Amount)
      (data_undo : DataDeltaUndo PoolData).

(** ** The cache ([pool/delta/mod.rs], [pool/delta/view_impl.rs]) *)

Record PoSAccountingDelta `{CryptoTypes} (P : Type) := mk_cache {
  parent : P;
  data : PoSAccountingDeltaData
}.
Arguments mk_cache {_ _} _ _.
Arguments parent {_ _} _.
Arguments data {_ _} _.

(** The entries of a pool: [range((pool_id, 00..)..=(pool_id, ff..))], with the
    pool id dropped from the keys. *)
Definition pool_range {V} (m : gmap (PoolId * DelegationId) V) (pool_id : PoolId) :
    gmap DelegationId V :=
  btree_collect ((fun e => (e.1.2, e.2)) <$> filter (fun e => e.1.1 = pool_id) (btree_iter m)).

Definition non_empty {V} (m : gmap DelegationId V) : option (gmap DelegationId V) :=
  if decide (m = ∅) then None else Some m.

Definition signed_to_unsigned_pair (e : DelegationId * SignedAmount) :
    result Error (DelegationId * Amount) :=
  v ← ok_or (AccountingError ArithmeticErrorToUnsignedFailed) (SignedAmount.into_unsigned e.2);
  Ok (e.1, v).

Definition sum_maps_step (entry : DelegationId * SignedAmount) : ST (gmap DelegationId Amount) Error unit :=
  fun m1 =>
    let '(k, v) := entry in
    let base_value := match m1 !! k with Some pv => pv | None => Amount.ZERO end in
    match
      base_amount ← ok_or (AccountingError ArithmeticErrorToUnsignedFailed)
                      (Amount.into_signed base_value);
      new_amount ← ok_or (AccountingError ArithmeticErrorSumToSignedFailed)
                     (SignedAmount.add base_amount v);
      ok_or (AccountingError ArithmeticErrorToUnsignedFailed) (SignedAmount.into_unsigned new_amount)
    with
    | Ok new_amount => (<[k:=new_amount]> m1, Ok tt)
    | Err e => (m1, Err e)
    | Panic => (m1, Panic)
    end.

Definition sum_maps (m1 : gmap DelegationId Amount) (m2 : gmap DelegationId SignedAmount) :
    result Error (gmap DelegationId Amount) :=
  let '(m, r) := try_for_each sum_maps_step (btree_iter m2) m1 in
  _ ← r; Ok m.

Section cache.
Context `{CryptoTypes} {P : Type} `{!PoSAccountingView P}.
Abbreviation Cache := (PoSAccountingDelta P).

Definition PoSAccountingDelta_new (p : P) : Cache := mk_cache p PoSAccountingDeltaData_new.

Definition get_cached_delegations_shares (self : Cache) (pool_id : PoolId) :
    option (gmap DelegationId SignedAmount) :=
  non_empty (pool_range (dd_pool_delegation_shares (data self)) pool_id).

Definition view_fail {A} (m : result view_error A) : result Error A := map_err (fun _ => ViewFail) m.

Definition cache_get_pool_balance (self : Cache) (pool_id : PoolId) : result Error Amount :=
  parent_balance ← view_fail (get_pool_balance (parent self) pool_id);
  let local_delta := dd_pool_balances (data self) !! pool_id in
  map_err AccountingError (combine_amount_delta parent_balance local_delta).

Definition cache_get_pool_data (self : Cache) (pool_id : PoolId) : result Error (option PoolData) :=
  match get_data (dd_pool_data (data self)) pool_id with
  | Present d => Ok (Some d)
  | Deleted => Ok None
  | Missing => view_fail (get_pool_data (parent self) pool_id)
  end.

Definition cache_pool_exists (self : Cache) (pool_id : PoolId) : result Error bool :=
  d ← cache_get_pool_data self pool_id; Ok (bool_decide (d <> None)).

Definition cache_get_pool_delegations_shares (self : Cache) (pool_id : PoolId) :
    result Error (option (gmap DelegationId Amount)) :=
  parent_shares ← view_fail (get_pool_delegations_shares (parent self) pool_id);
  let local_shares := get_cached_delegations_shares self pool_id in
  match parent_shares, local_shares with
  | None, None => Ok None
  | None, Some m =>
      l ← (try_collect (fun e => lift (signed_to_unsigned_pair e)) (btree_iter m) tt).2;
      Ok (Some (btree_collect l))
  | Some m, None => Ok (Some m)
  | Some m1, Some m2 => m ← sum_maps m1 m2; Ok (Some m)
  end.

Definition cache_get_delegation_balance (self : Cache) (delegation_id : DelegationId) :
    result Error Amount :=
  parent_amount ← view_fail (get_delegation_balance (parent self) delegation_id);
  let local_amount := dd_delegation_balances (data self) !! delegation_id in
  map_err AccountingError (combine_amount_delta parent_amount local_amount).

Definition cache_get_delegation_data (self : Cache) (delegation_id : DelegationId) :
    result Error (option DelegationData) :=
  match get_data (dd_delegation_data (data self)) delegation_id with
  | Present d => Ok (Some d)
  | Deleted => Ok None
  | Missing => view_fail (get_delegation_data (parent self) delegation_id)
  end.

Definition cache_get_pool_delegation_share (self : Cache) (pool_id : PoolId)
    (delegation_id : DelegationId) : result Error Amount :=
  parent_amount ← view_fail (get_pool_delegation_share (parent self) pool_id delegation_id);
  let local_amount := dd_pool_delegation_shares (data self) !! (pool_id, delegation_id) in
  map_err AccountingError (combine_amount_delta parent_amount local_amount).

#[global] Instance cache_view : PoSAccountingView Cache := {|
  view_error := Error;
  pool_exists := cache_pool_exists;
  get_pool_balance := cache_get_pool_balance;
  get_pool_data := cache_get_pool_data;
  get_pool_delegations_shares := cache_get_pool_delegations_shares;
  get_delegation_balance := cache_get_delegation_balance;
  get_delegation_data := cache_get_delegation_data;
  get_pool_delegation_share := cache_get_pool_delegation_share
|}.

Definition in_data {A} (m : ST PoSAccountingDeltaData Error A) : ST Cache Error A :=
  zoom data (fun d c => mk_cache (parent c) d) (fun e => e) m.

Definition merge_with_delta (other : PoSAccountingDeltaData) : ST Cache Error DeltaMergeUndo :=
  in_data (data_merge_with_delta other).
Definition undo_delta_merge (undo_data : DeltaMergeUndo) : ST Cache Error unit :=
  in_data (data_undo_delta_merge undo_data).
Definition batch_write_delta (other : PoSAccountingDeltaData) : ST Cache Error DeltaMergeUndo :=
  merge_with_delta other.

Definition add_to_delegation_balance (id : DelegationId) (a : Amount) : ST Cache Error unit :=
  in_data (in_delegation_balances (add_unsigned id a)).
Definition sub_from_delegation_balance (id : DelegationId) (a : Amount) : ST Cache Error unit :=
  in_data (in_delegation_balances (sub_unsigned id a)).
Definition add_balance_to_pool (id : PoolId) (a : Amount) : ST Cache Error unit :=
  in_data (in_pool_balances (add_unsigned id a)).
Definition sub_balance_from_pool (id : PoolId) (a : Amount) : ST Cache Error unit :=
  in_data (in_pool_balances (sub_unsigned id a)).
Definition add_delegation_to_pool_share (pool_id : PoolId) (id : DelegationId) (a : Amount) :
    ST Cache Error unit :=
  in_data (in_shares (add_unsigned (pool_id, id) a)).
Definition sub_delegation_from_pool_share (pool_id : PoolId) (id : DelegationId) (a : Amount) :
    ST Cache Error unit :=
  in_data (in_shares (sub_unsigned (pool_id, id) a)).

(** [self.data.pool_data.merge_delta_data_element] and the like. *)
Definition merge_pool_delta (id : PoolId) (d : DataDelta PoolData) :
    ST Cache Error (DataDeltaUndo PoolData) :=
  in_data (in_pool_data (merge_delta_data_element id d)).
Definition undo_pool_delta (id : PoolId) (u : DataDeltaUndo PoolData) : ST Cache Error unit :=
  in_data (in_pool_data (undo_merge_delta_data_element id u)).
Definition merge_delegation_delta (id : DelegationId) (d : DataDelta DelegationData) :
    ST Cache Error (DataDeltaUndo DelegationData) :=
  in_data (in_delegation_data (merge_delta_data_element id d)).
Definition undo_delegation_delta (id : DelegationId) (u : DataDeltaUndo DelegationData) :
    ST Cache Error unit :=
  in_data (in_delegation_data (undo_merge_delta_data_element id u)).
End cache.

(** ** Operations ([pool/delta/operator_impls.rs]) *)

Section operations.
Context `{CryptoTypes} {P : Type} `{!PoSAccountingView P}.
Abbreviation Cache := (PoSAccountingDelta P).

(** [a > Amount::ZERO]. *)
Definition positive (a : Amount) : bool := Amount.ltb Amount.ZERO a.

Definition create_pool (pool_id : PoolId) (pool_data : PoolData) : ST Cache Error PoSAccountingUndo :=
  let pledge := pledge_amount pool_data in
  existing ← gets (fun self => cache_get_pool_data self pool_id);
  _ ← lift (ensure (bool_decide (existing = None)) InvariantErrorPoolDataAlreadyExists);
  balance ← gets (fun self => map_err (fun _ => ViewFail) (cache_get_pool_balance self pool_id));
  _ ← lift (ensure (negb (positive balance)) InvariantErrorPoolBalanceAlreadyExists);
  _ ← add_balance_to_pool pool_id pledge;
  data_undo ← merge_pool_delta pool_id (mk_delta None (Some pool_data));
  mret (CreatePoolUndo pool_id pledge data_undo).

Definition decommission_pool (pool_id : PoolId) : ST Cache Error PoSAccountingUndo :=
  last_data ← gets (fun self => cache_get_pool_data self pool_id);
  last_data ← lift (ok_or AttemptedDecommissionNonexistingPoolData last_data);
  last_amount ← gets (fun self => cache_get_pool_balance self pool_id);
  _ ← sub_balance_from_pool pool_id last_amount;
  data_undo ← merge_pool_delta pool_id (mk_delta (Some last_data) None);
  mret (DecommissionPoolUndo pool_id last_amount data_undo).

Definition increase_staker_rewards (pool_id : PoolId) (amount_to_add : Amount) :
    ST Cache Error PoSAccountingUndo :=
  pool_data ← gets (fun self => cache_get_pool_data self pool_id);
  pool_data ← lift (ok_or IncreaseStakerRewardsOfNonexistingPool pool_data);
  _ ← add_balance_to_pool pool_id amount_to_add;
  new_pool_data ← lift (pool_increase_staker_rewards pool_data amount_to_add);
  data_undo ← merge_pool_delta pool_id (mk_delta (Some pool_data) (Some new_pool_data));
  mret (IncreaseStakerRewardsUndo pool_id amount_to_add data_undo).

Definition create_delegation_id (target_pool : PoolId) (delegation_id : DelegationId)
    (spend_key : Destination) : ST Cache Error PoSAccountingUndo :=
  exists_ ← gets (fun self => cache_pool_exists self target_pool);
  _ ← lift (ensure exists_ DelegationCreationFailedPoolDoesNotExist);
  existing ← gets (fun self => cache_get_delegation_data self delegation_id);
  _ ← lift (ensure (bool_decide (existing = None))
              InvariantErrorDelegationCreationFailedIdAlreadyExists);
  let delegation_data := DelegationData_new target_pool spend_key in
  data_undo ← merge_delegation_delta delegation_id (mk_delta None (Some delegation_data));
  mret (CreateDelegationIdUndo delegation_id data_undo).

Definition delete_delegation_id (delegation_id : DelegationId) : ST Cache Error PoSAccountingUndo :=
  delegation_data ← gets (fun self => cache_get_delegation_data self delegation_id);
  delegation_data ← lift (ok_or DelegationDeletionFailedIdDoesNotExist delegation_data);
  balance ← gets (fun self => cache_get_delegation_balance self delegation_id);
  _ ← lift (ensure (negb (positive balance)) DelegationDeletionFailedBalanceNonZero);
  share ← gets (fun self =>
    cache_get_pool_delegation_share self (source_pool delegation_data) delegation_id);
  _ ← lift (ensure (negb (positive share)) DelegationDeletionFailedPoolsShareNonZero);
  exists_ ← gets (fun self => cache_pool_exists self (source_pool delegation_data));
  _ ← lift (ensure (negb exists_) DelegationDeletionFailedPoolStillExists);
  data_undo ← merge_delegation_delta delegation_id (mk_delta (Some delegation_data) None);
  mret (DeleteDelegationIdUndo delegation_id data_undo).

Definition delegate_staking (delegation_target : DelegationId) (amount_to_delegate : Amount) :
    ST Cache Error PoSAccountingUndo :=
  delegation_data ← gets (fun self => cache_get_delegation_data self delegation_target);
  delegation_data ← lift (ok_or DelegateToNonexistingId delegation_data);
  let pool_id := source_pool delegation_data in
  _ ← add_to_delegation_balance delegation_target amount_to_delegate;
  _ ← add_balance_to_pool pool_id amount_to_delegate;
  _ ← add_delegation_to_pool_share pool_id delegation_target amount_to_delegate;
  mret (DelegateStakingUndo delegation_target amount_to_delegate).

Definition spend_share_from_delegation_id (delegation_id : DelegationId) (amount : Amount) :
    ST Cache Error PoSAccountingUndo :=
  delegation_data ← gets (fun self => cache_get_delegation_data self delegation_id);
  delegation_data ← lift (ok_or (SpendingShareOfNonexistingDelegation delegation_id) delegation_data);
  let pool_id := source_pool delegation_data in
  _ ← sub_delegation_from_pool_share pool_id delegation_id amount;
  exists_ ← gets (fun self => cache_pool_exists self pool_id);
  _ ← (if exists_ : bool then sub_balance_from_pool pool_id amount else mret tt);
  _ ← sub_from_delegation_balance delegation_id amount;
  mret (SpendFromShareUndo delegation_id amount).

Definition undo_create_pool (pool_id : PoolId) (pledge : Amount) (data_undo : DataDeltaUndo PoolData) :
    ST Cache Error unit :=
  balance ← gets (fun self => cache_get_pool_balance self pool_id);
  _ ← lift (ensure (bool_decide (balance = pledge))
              InvariantErrorPoolCreationReversalFailedAmountChanged);
  _ ← sub_balance_from_pool pool_id pledge;
  d ← gets (fun self => cache_get_pool_data self pool_id);
  _ ← lift (ok_or InvariantErrorPoolCreationReversalFailedDataNotFound d);
  undo_pool_delta pool_id data_undo.

Definition undo_decommission_pool (pool_id : PoolId) (pool_balance : Amount)
    (data_undo : DataDeltaUndo PoolData) : ST Cache Error unit :=
  d ← gets (fun self => cache_get_pool_data self pool_id);
  _ ← lift (ensure (bool_decide (d = None)) InvariantErrorDecommissionUndoFailedPoolDataAlreadyExists);
  balance ← gets (fun self => cache_get_pool_balance self pool_id);
  _ ← lift (ensure (negb (positive balance))
              InvariantErrorDecommissionUndoFailedPoolBalanceAlreadyExists);
  _ ← add_balance_to_pool pool_id pool_balance;
  undo_pool_delta pool_id data_undo.

Definition undo_create_delegation_id (delegation_id : DelegationId)
    (data_undo : DataDeltaUndo DelegationData) : ST Cache Error unit :=
  d ← gets (fun self => cache_get_delegation_data self delegation_id);
  _ ← lift (ok_or InvariantErrorDelegationIdUndoFailedNotFound d);
  undo_delegation_delta delegation_id data_undo.

Definition undo_delete_delegation_id (delegation_id : DelegationId)
    (data_undo : DataDeltaUndo DelegationData) : ST Cache Error unit :=
  balance ← gets (fun self => cache_get_delegation_balance self delegation_id);
  _ ← lift (ensure (negb (positive balance)) DelegationDeletionFailedBalanceNonZero);
  undo_delegation_delta delegation_id data_undo.

Definition undo_delegate_staking (delegation_target : DelegationId) (amount_to_delegate : Amount) :
    ST Cache Error unit :=
  d ← gets (fun self => cache_get_delegation_data self delegation_target);
  d ← lift (ok_or (InvariantErrorDelegationUndoFailedDataNotFound delegation_target) d);
  let pool_id := source_pool d in
  _ ← sub_delegation_from_pool_share pool_id delegation_target amount_to_delegate;
  _ ← sub_balance_from_pool pool_id amount_to_delegate;
  sub_from_delegation_balance delegation_target amount_to_delegate.

Definition undo_spend_share_from_delegation_id (delegation_id : DelegationId) (amount : Amount) :
    ST Cache Error unit :=
  d ← gets (fun self => cache_get_delegation_data self delegation_id);
  d ← lift (ok_or DelegationCreationFailedPoolDoesNotExist d);
  let pool_id := source_pool d in
  _ ← add_to_delegation_balance delegation_id amount;
  exists_ ← gets (fun self => cache_pool_exists self pool_id);
  _ ← (if exists_ : bool then add_balance_to_pool pool_id amount else mret tt);
  add_delegation_to_pool_share pool_id delegation_id amount.

Definition undo_increase_staker_balance (pool_id : PoolId) (amount_added : Amount)
    (data_undo : DataDeltaUndo PoolData) : ST Cache Error unit :=
  _ ← undo_pool_delta pool_id data_undo;
  sub_balance_from_pool pool_id amount_added.

Definition undo (undo_data : PoSAccountingUndo) : ST Cache Error unit :=
  match undo_data with
  | CreatePoolUndo id a u => undo_create_pool id a u
  | DecommissionPoolUndo id a u => undo_decommission_pool id a u
  | CreateDelegationIdUndo id u => undo_create_delegation_id id u
  | DeleteDelegationIdUndo id u => undo_delete_delegation_id id u
  | DelegateStakingUndo id a => undo_delegate_staking id a
  | SpendFromShareUndo id a => undo_spend_share_from_delegation_id id a
  | IncreaseStakerRewardsUndo id a u => undo_increase_staker_balance id a u
  end.
End operations.

(** ** Storage ([storage/mod.rs], [pool/storage], [storage/in_memory.rs]) *)

(** [PoSAccountingStorageRead] and [PoSAccountingStorageWrite]. *)
Class PoSAccountingStorage `{CryptoTypes} (S : Type) := {
  storage_error : Type;
  storage_get_pool_balance : S -> PoolId -> result storage_error (option Amount);
  storage_get_pool_data : S -> PoolId -> result storage_error (option PoolData);
  storage_get_delegation_balance : S -> DelegationId -> result storage_error (option Amount);
  storage_get_delegation_data : S -> DelegationId -> result storage_error (option DelegationData);
  storage_get_pool_delegations_shares :
    S -> PoolId -> result storage_error (option (gmap DelegationId Amount));
  storage_get_pool_delegation_share : S -> PoolId -> DelegationId -> result storage_error (option Amount);
  set_pool_balance : PoolId -> Amount -> ST S storage_error unit;
  del_pool_balance : PoolId -> ST S storage_error unit;
  set_pool_data : PoolId -> PoolData -> ST S storage_error unit;
  del_pool_data : PoolId -> ST S storage_error unit;
  set_delegation_balance : DelegationId -> Amount -> ST S storage_error unit;
  del_delegation_balance : DelegationId -> ST S storage_error unit;
  set_delegation_data : DelegationId -> DelegationData -> ST S storage_error unit;
  del_delegation_data : DelegationId -> ST S storage_error unit;
  set_pool_delegation_share : PoolId -> DelegationId -> Amount -> ST S storage_error unit;
  del_pool_delegation_share : PoolId -> DelegationId -> ST S storage_error unit
}.

Record PoSAccountingDB (S : Type) := mk_db { db_store : S }.
Arguments mk_db {_} _.
Arguments db_store {_} _.

Section db.
Context `{CryptoTypes} {S : Type} `{!PoSAccountingStorage S}.

Definition in_store {A} (m : ST S Error A) : ST (PoSAccountingDB S) Error A :=
  zoom db_store (fun s _ => mk_db s) (fun e => e) m.

Definition merge_balances_generic `{BTreeKey K} (iter : list (K * SignedAmount))
    (getter : S -> K -> result storage_error (option Amount))
    (setter : K -> Amount -> ST S storage_error unit) (deleter : K -> ST S storage_error unit) :
    ST S Error (DeltaAmountCollection K) :=
  undo ← try_collect (store_merge_balance AccountingError ViewFail StorageWrite getter setter deleter) iter;
  mret (btree_collect undo).

Definition merge_data_generic `{BTreeKey K} `{EqDecision V} (delta : DeltaDataCollection K V)
    (getter : S -> K -> result storage_error (option V))
    (setter : K -> V -> ST S storage_error unit) (deleter : K -> ST S storage_error unit) :
    ST S Error (DeltaDataUndoCollection K V) :=
  undo ← try_collect (store_merge_data AccountingError ViewFail StorageWrite getter setter deleter)
           (btree_iter delta);
  mret (btree_collect undo).

Definition undo_merge_data_generic `{BTreeKey K} `{EqDecision V} (undo : DeltaDataUndoCollection K V)
    (getter : S -> K -> result storage_error (option V))
    (setter : K -> V -> ST S storage_error unit) (deleter : K -> ST S storage_error unit) :
    ST S Error unit :=
  try_for_each (store_undo_data AccountingError ViewFail StorageWrite getter setter deleter) (btree_iter undo).

Definition storage_get_share (s : S) (k : PoolId * DelegationId) :=
  storage_get_pool_delegation_share s k.1 k.2.
Definition set_share (k : PoolId * DelegationId) (a : Amount) := set_pool_delegation_share k.1 k.2 a.
Definition del_share (k : PoolId * DelegationId) := del_pool_delegation_share k.1 k.2.

Definition db_merge_with_delta (other : PoSAccountingDeltaData) :
    ST (PoSAccountingDB S) Error DeltaMergeUndo :=
  in_store (
    pool_data_undo ← merge_data_generic (dd_pool_data other)
      storage_get_pool_data set_pool_data del_pool_data;
    delegation_data_undo ← merge_data_generic (dd_delegation_data other)
      storage_get_delegation_data set_delegation_data del_delegation_data;
    pool_balances_undo ← merge_balances_generic (btree_iter (dd_pool_balances other))
      storage_get_pool_balance set_pool_balance del_pool_balance;
    delegation_balances_undo ← merge_balances_generic (btree_iter (dd_delegation_balances other))
      storage_get_delegation_balance set_delegation_balance del_delegation_balance;
    pool_delegation_shares_undo ← merge_balances_generic (btree_iter (dd_pool_delegation_shares other))
      storage_get_share set_share del_share;
    mret (mk_merge_undo pool_data_undo delegation_data_undo pool_balances_undo
            pool_delegation_shares_undo delegation_balances_undo)).

Definition db_undo_merge_with_delta (undo : DeltaMergeUndo) : ST (PoSAccountingDB S) Error unit :=
  in_store (
    _ ← undo_merge_data_generic (pool_data_undo undo)
      storage_get_pool_data set_pool_data del_pool_data;
    _ ← undo_merge_data_generic (delegation_data_undo undo)
      storage_get_delegation_data set_delegation_data del_delegation_data;
    _ ← merge_balances_generic (btree_iter (pool_balances_undo undo))
      storage_get_pool_balance set_pool_balance del_pool_balance;
    _ ← merge_balances_generic (btree_iter (delegation_balances_undo undo))
      storage_get_delegation_balance set_delegation_balance del_delegation_balance;
    _ ← merge_balances_generic (btree_iter (pool_delegation_shares_undo undo))
      storage_get_share set_share del_share;
    mret tt).

Definition db_batch_write_delta (d : PoSAccountingDeltaData) :
    ST (PoSAccountingDB S) Error DeltaMergeUndo := db_merge_with_delta d.

#[global] Instance db_view : PoSAccountingView (PoSAccountingDB S) := {|
  view_error := storage_error;
  pool_exists := fun db id =>
    (fun v => bool_decide (v <> None)) <$> storage_get_pool_data (db_store db) id;
  get_pool_balance := fun db id => default Amount.ZERO <$> storage_get_pool_balance (db_store db) id;
  get_pool_data := fun db id => storage_get_pool_data (db_store db) id;
  get_pool_delegations_shares := fun db id => storage_get_pool_delegations_shares (db_store db) id;
  get_delegation_balance := fun db id =>
    default Amount.ZERO <$> storage_get_delegation_balance (db_store db) id;
  get_delegation_data := fun db id => storage_get_delegation_data (db_store db) id;
  get_pool_delegation_share := fun db pool id =>
    default Amount.ZERO <$> storage_get_pool_delegation_share (db_store db) pool id
|}.
End db.

Record InMemoryPoSAccounting `{CryptoTypes} := mk_in_memory {
  mem_pool_data : gmap PoolId PoolData;
  mem_pool_balances : gmap PoolId Amount;
  mem_pool_delegation_shares : gmap (PoolId * DelegationId) Amount;
  mem_delegation_balances : gmap DelegationId Amount;
  mem_delegation_data : gmap DelegationId DelegationData
}.
Arguments mk_in_memory {_} _ _ _ _ _.

Section in_memory.
Context `{CryptoTypes}.
Implicit Types s : InMemoryPoSAccounting.

Definition InMemoryPoSAccounting_new : InMemoryPoSAccounting := mk_in_memory ∅ ∅ ∅ ∅ ∅.

Definition in_pools f s := mk_in_memory (f (mem_pool_data s)) (mem_pool_balances s)
  (mem_pool_delegation_shares s) (mem_delegation_balances s) (mem_delegation_data s).
Definition in_balances f s := mk_in_memory (mem_pool_data s) (f (mem_pool_balances s))
  (mem_pool_delegation_shares s) (mem_delegation_balances s) (mem_delegation_data s).
Definition in_mem_shares f s := mk_in_memory (mem_pool_data s) (mem_pool_balances s)
  (f (mem_pool_delegation_shares s)) (mem_delegation_balances s) (mem_delegation_data s).
Definition in_del_balances f s := mk_in_memory (mem_pool_data s) (mem_pool_balances s)
  (mem_pool_delegation_shares s) (f (mem_delegation_balances s)) (mem_delegation_data s).
Definition in_delegations f s := mk_in_memory (mem_pool_data s) (mem_pool_balances s)
  (mem_pool_delegation_shares s) (mem_delegation_balances s) (f (mem_delegation_data s)).

#[global] Instance in_memory_storage : PoSAccountingStorage InMemoryPoSAccounting := {|
  storage_error := Error;
  storage_get_pool_balance := fun s id => Ok (mem_pool_balances s !! id);
  storage_get_pool_data := fun s id => Ok (mem_pool_data s !! id);
  storage_get_delegation_balance := fun s id => Ok (mem_delegation_balances s !! id);
  storage_get_delegation_data := fun s id => Ok (mem_delegation_data s !! id);
  storage_get_pool_delegations_shares := fun s id =>
    Ok (non_empty (pool_range (mem_pool_delegation_shares s) id));
  storage_get_pool_delegation_share := fun s pool id => Ok (mem_pool_delegation_shares s !! (pool, id));
  set_pool_balance := fun id a => modify (in_balances (insert id a));
  del_pool_balance := fun id => modify (in_balances (delete id));
  set_pool_data := fun id d => modify (in_pools (insert id d));
  del_pool_data := fun id => modify (in_pools (delete id));
  set_delegation_balance := fun id a => modify (in_del_balances (insert id a));
  del_delegation_balance := fun id => modify (in_del_balances (delete id));
  set_delegation_data := fun id d => modify (in_delegations (insert id d));
  del_delegation_data := fun id => modify (in_delegations (delete id));
  set_pool_delegation_share := fun pool id a => modify (in_mem_shares (insert (pool, id) a));
  del_pool_delegation_share := fun pool id => modify (in_mem_shares (delete (pool, id)))
|}.
End in_memory.

(** * The abstract ledger *)

Record Ledger `{CryptoTypes} := mk_ledger {
  l_pool : PoolId -> option PoolData;
  l_pool_balance : PoolId -> Amount;
  l_share : PoolId * DelegationId -> Amount;
  l_balance : DelegationId -> Amount;
  l_delegation : DelegationId -> option DelegationData
}.
Arguments mk_ledger {_} _ _ _ _ _.

Inductive PoSOp `{CryptoTypes} :=
  | OpCreatePool (id : PoolId) (d : PoolData)
  | OpDecommission (id : PoolId)
  | OpIncreaseRewards (id : PoolId) (a : Amount)
  | OpCreateDelegation (pool : PoolId) (id : DelegationId) (spend_key : Destination)
  | OpDeleteDelegation (id : DelegationId)
  | OpDelegate (id : DelegationId) (a : Amount)
  | OpSpend (id : DelegationId) (a : Amount).

Section spec.
Context `{CryptoTypes}.
Implicit Types l : Ledger.

Definition upd_pool l id o := mk_ledger (<[id:=o]> (l_pool l)) (l_pool_balance l) (l_share l)
  (l_balance l) (l_delegation l).
Definition upd_pool_balance l id a := mk_ledger (l_pool l) (<[id:=a]> (l_pool_balance l)) (l_share l)
  (l_balance l) (l_delegation l).
Definition upd_share l k a := mk_ledger (l_pool l) (l_pool_balance l) (<[k:=a]> (l_share l))
  (l_balance l) (l_delegation l).
Definition upd_balance l id a := mk_ledger (l_pool l) (l_pool_balance l) (l_share l)
  (<[id:=a]> (l_balance l)) (l_delegation l).
Definition upd_delegation l id o := mk_ledger (l_pool l) (l_pool_balance l) (l_share l)
  (l_balance l) (<[id:=o]> (l_delegation l)).

(** The rules: an operation is refused with an error or leads to a new ledger.  They
    do not say what becomes of a sum that no amount can hold, or of a difference below
    zero ([expect] is [Panic] then): such an operation is not in range, see
    [op_in_range]. *)
Definition spec_op (op : PoSOp) l : result Error Ledger :=
  match op with
  | OpCreatePool id d =>
      _ ← ensure (bool_decide (l_pool l id = None)) InvariantErrorPoolDataAlreadyExists;
      _ ← ensure (negb (positive (l_pool_balance l id))) InvariantErrorPoolBalanceAlreadyExists;
      Ok (upd_pool (upd_pool_balance l id (pledge_amount d)) id (Some d))
  | OpDecommission id =>
      _ ← ok_or AttemptedDecommissionNonexistingPoolData (l_pool l id);
      Ok (upd_pool (upd_pool_balance l id Amount.ZERO) id None)
  | OpIncreaseRewards id a =>
      d ← ok_or IncreaseStakerRewardsOfNonexistingPool (l_pool l id);
      balance ← expect (Amount.add (l_pool_balance l id) a);
      rewards ← expect (Amount.add (staker_rewards d) a);
      Ok (upd_pool (upd_pool_balance l id balance) id (Some (with_staker_rewards d rewards)))
  | OpCreateDelegation pool id spend_key =>
      _ ← ensure (bool_decide (l_pool l pool <> None)) DelegationCreationFailedPoolDoesNotExist;
      _ ← ensure (bool_decide (l_delegation l id = None))
            InvariantErrorDelegationCreationFailedIdAlreadyExists;
      Ok (upd_delegation l id (Some (DelegationData_new pool spend_key)))
  | OpDeleteDelegation id =>
      d ← ok_or DelegationDeletionFailedIdDoesNotExist (l_delegation l id);
      _ ← ensure (negb (positive (l_balance l id))) DelegationDeletionFailedBalanceNonZero;
      _ ← ensure (negb (positive (l_share l (source_pool d, id))))
            DelegationDeletionFailedPoolsShareNonZero;
      _ ← ensure (bool_decide (l_pool l (source_pool d) = None)) DelegationDeletionFailedPoolStillExists;
      Ok (upd_delegation l id None)
  | OpDelegate id a =>
      d ← ok_or DelegateToNonexistingId (l_delegation l id);
      let pool := source_pool d in
      balance ← expect (Amount.add (l_balance l id) a);
      pool_balance ← expect (Amount.add (l_pool_balance l pool) a);
      share ← expect (Amount.add (l_share l (pool, id)) a);
      Ok (upd_share (upd_pool_balance (upd_balance l id balance) pool pool_balance) (pool, id) share)
  | OpSpend id a =>
      d ← ok_or (SpendingShareOfNonexistingDelegation id) (l_delegation l id);
      let pool := source_pool d in
      share ← expect (Amount.sub (l_share l (pool, id)) a);
      pool_balance ← (if bool_decide (l_pool l pool <> None)
                      then expect (Amount.sub (l_pool_balance l pool) a)
                      else Ok (l_pool_balance l pool));
      balance ← expect (Amount.sub (l_balance l id) a);
      Ok (upd_balance (upd_pool_balance (upd_share l (pool, id) share) pool pool_balance) id balance)
  end.

(** The amounts that keep every balance within a signed amount, and nothing
    spent that is not there. *)
Definition op_in_range l (op : PoSOp) : Prop :=
  match op with
  | OpCreatePool _ d => ival (pledge_amount d) <= i128_MAX
  | OpIncreaseRewards id a => ival (l_pool_balance l id) + ival a <= i128_MAX
  | OpDelegate id a => ival (l_balance l id) + ival a <= i128_MAX /\
      match l_delegation l id with
      | Some d => ival (l_pool_balance l (source_pool d)) + ival a <= i128_MAX
      | None => True
      end
  | OpSpend id a => ival a <= ival (l_balance l id)
  | _ => True
  end.

(** A new pool has no rewards yet (as [From<StakePoolData>] makes it) and an
    id for which nobody holds shares: the code derives pool ids from an output
    that is spent by the creation. *)
Definition op_fresh l (op : PoSOp) : Prop :=
  match op with
  | OpCreatePool id data =>
      ival (staker_rewards data) = 0 /\ forall d, ival (l_share l (id, d)) = 0
  | _ => True
  end.

(** The share that delegation [d] should hold in [pool]. *)
Definition due_share l (pool : PoolId) (d : DelegationId) : Amount :=
  match l_delegation l d with
  | Some data => if decide (source_pool data = pool) then l_balance l d else Amount.ZERO
  | None => Amount.ZERO
  end.

(** [D] contains all delegations.  A delegation holds shares of its own pool
    only, as many as its balance; the balance of a pool is what the staker
    owns plus the shares of the delegations. *)
Record ledger_inv (D : gset DelegationId) l : Prop := {
  inv_domain : forall d, d ∉ D -> l_delegation l d = None;
  inv_shares : forall pool d, l_share l (pool, d) = due_share l pool d;
  inv_balances : forall d, l_delegation l d = None -> ival (l_balance l d) = 0;
  inv_pools : forall pool data, l_pool l pool = Some data ->
    ival (l_pool_balance l pool) =
      ival (pledge_amount data) + ival (staker_rewards data)
      + sum_over D (fun d => ival (l_share l (pool, d)))
}.

Definition exec_op {P} `{!PoSAccountingView P} (op : PoSOp) :
    ST (PoSAccountingDelta P) Error PoSAccountingUndo :=
  match op with
  | OpCreatePool id d => create_pool id d
  | OpDecommission id => decommission_pool id
  | OpIncreaseRewards id a => increase_staker_rewards id a
  | OpCreateDelegation pool id spend_key => create_delegation_id pool id spend_key
  | OpDeleteDelegation id => delete_delegation_id id
  | OpDelegate id a => delegate_staking id a
  | OpSpend id a => spend_share_from_delegation_id id a
  end.
End spec.

(** * Listing the shares of a pool *)

Lemma pool_range_lookup {V} (m : gmap (PoolId * DelegationId) V) p d :
  pool_range m p !! d = m !! (p, d).
Proof.
  unfold pool_range. set (l := filter _ _).
  assert (forall e, e ∈ l <-> e.1.1 = p /\ m !! e.1 = Some e.2) as Hl.
  { intros [k v]. unfold l. by rewrite list_elem_of_filter, elem_of_btree_iter. }
  assert (NoDup ((fun e => (e.1.2, e.2)) <$> l).*1) as Hnd.
  { rewrite <- list_fmap_compose. apply NoDup_fmap_2_strong.
    - intros [[p1 d1] v1] [[p2 d2] v2] [Hp1 Hv1]%Hl [Hp2 Hv2]%Hl Heq. simpl in *. congruence.
    - apply NoDup_filter. eapply NoDup_fmap_1, btree_iter_NoDup. }
  rewrite btree_collect_NoDup by done. apply option_eq. intros v.
  rewrite <- elem_of_list_to_map by done. rewrite list_elem_of_fmap. split.
  - intros ([[p' d'] v'] & Heq & [Hp Hv]%Hl). simpl in *. congruence.
  - intros Hv. exists ((p, d), v). by rewrite Hl.
Qed.

Lemma non_empty_lookup {V} (m : gmap DelegationId V) d : default ∅ (non_empty m) !! d = m !! d.
Proof. unfold non_empty. case_decide as Hm; [by rewrite Hm|done]. Qed.

(** What [sum_maps] does to one entry. *)
Definition sum_maps_entry (_ : DelegationId) (o : option Amount) (v : SignedAmount) :
    result Error (option Amount) :=
  base_amount ← ok_or (AccountingError ArithmeticErrorToUnsignedFailed)
                  (Amount.into_signed (default Amount.ZERO o));
  new_amount ← ok_or (AccountingError ArithmeticErrorSumToSignedFailed)
                 (SignedAmount.add base_amount v);
  r ← ok_or (AccountingError ArithmeticErrorToUnsignedFailed) (SignedAmount.into_unsigned new_amount);
  Ok (Some r).

Lemma sum_maps_entry_step : entry_step sum_maps_entry sum_maps_step.
Proof.
  intros k v st. unfold sum_maps_entry, sum_maps_step.
  change (match st !! k with Some pv => pv | None => Amount.ZERO end) with (default Amount.ZERO (st !! k)).
  destruct (Amount.into_signed _); simpl; [|by eexists].
  destruct (SignedAmount.add _ _); simpl; [|by eexists].
  destruct (SignedAmount.into_unsigned _); simpl; [done|by eexists].
Qed.

Lemma sum_maps_exact (m1 : gmap DelegationId Amount) (m2 : gmap DelegationId SignedAmount)
    (f : DelegationId -> Amount) :
  (forall d, ival (f d) = ival (default Amount.ZERO (m1 !! d)) + delta_val (m2 !! d)) ->
  (forall d, ival (default Amount.ZERO (m1 !! d)) <= i128_MAX) -> (forall d, ival (f d) <= i128_MAX) ->
  exists m, sum_maps m1 m2 = Ok m /\ forall d, default Amount.ZERO (m !! d) = f d.
Proof.
  intros Hf Hb1 Hb.
  set (m := merge (fun o (v : option SignedAmount) => match v with
    | None => o
    | Some v => bint_of_Z (ival (default Amount.ZERO o) + ival v) end) m1 m2).
  assert (forall d, m !! d = match m2 !! d with None => m1 !! d | Some _ => Some (f d) end) as Hm.
  { intros d. unfold m. rewrite lookup_merge. unfold diag_None. specialize (Hf d).
    destruct (m2 !! d) as [v|]; [|by destruct (m1 !! d)]. unfold delta_val in Hf. simpl in Hf.
    destruct (m1 !! d); apply bint_of_Z_Some; simpl in *; lia. }
  exists m. split.
  - unfold sum_maps. rewrite (proj2 (try_for_each_btree _ _ m2 m1 m sum_maps_entry_step)); [done|].
    intros d. rewrite Hm. specialize (Hf d). specialize (Hb1 d). specialize (Hb d).
    destruct (m2 !! d) as [v|]; [|done]. unfold sum_maps_entry, delta_val in *. simpl in Hf.
    pose proof (bint_range (f d)). pose proof (bint_range (default Amount.ZERO (m1 !! d))).
    destruct (Amount.into_signed _) as [b|] eqn:Hs; amount_inv; [|blia]. simpl.
    destruct (SignedAmount.add b v) as [n|] eqn:Hn; amount_inv; [|blia]. simpl.
    destruct (SignedAmount.into_unsigned n) as [r|] eqn:Hr; amount_inv; [|blia]. simpl.
    do 2 f_equal. apply bint_eq. lia.
  - intros d. rewrite Hm. specialize (Hf d). destruct (m2 !! d); [done|].
    apply bint_eq. unfold delta_val in Hf. simpl in Hf. lia.
Qed.

Lemma signed_to_unsigned_exact (m : gmap DelegationId SignedAmount) (f : DelegationId -> Amount) :
  (forall d, ival (f d) = delta_val (m !! d)) ->
  exists l, (try_collect (fun e => lift (signed_to_unsigned_pair e)) (btree_iter m) tt).2 = Ok l /\
    forall d, default Amount.ZERO (btree_collect l !! d) = f d.
Proof.
  intros Hf. exists ((fun e => (e.1, f e.1)) <$> btree_iter m). split.
  - assert (forall e, e ∈ btree_iter m -> signed_to_unsigned_pair e = Ok (e.1, f e.1)) as Hall.
    { intros [d v] Hd%elem_of_btree_iter. specialize (Hf d). rewrite Hd in Hf.
      unfold signed_to_unsigned_pair, delta_val in *. simpl in *. pose proof (bint_range (f d)).
      destruct (SignedAmount.into_unsigned v) as [a|] eqn:Ha; amount_inv; [|lia]. simpl.
      do 2 f_equal. apply bint_eq. lia. }
    revert Hall. induction (btree_iter m) as [|e l IH]; intros Hall; [done|].
    simpl. unfold mbind, st_bind, lift. rewrite Hall by left.
    specialize (IH (fun e He => Hall e (list_elem_of_further _ _ _ He))).
    destruct (try_collect _ l tt) as [u r]. simpl in IH. by rewrite IH.
  - intros d. rewrite btree_collect_NoDup.
    2: { rewrite <- list_fmap_compose. apply btree_iter_NoDup. }
    specialize (Hf d). destruct (m !! d) as [v|] eqn:Hd.
    + erewrite elem_of_list_to_map_1; [done| |].
      * rewrite <- list_fmap_compose. apply btree_iter_NoDup.
      * apply list_elem_of_fmap. exists (d, v). by rewrite elem_of_btree_iter.
    + rewrite not_elem_of_list_to_map_1.
      * apply bint_eq. unfold delta_val in Hf. simpl in *. lia.
      * rewrite <- list_fmap_compose, list_elem_of_fmap. intros ([d' v] & Hd' & Hv%elem_of_btree_iter).
        simpl in Hd'. congruence.
Qed.

(** * The cache implements the ledger *)

(** Open the binds of a method so that its reads can be rewritten. *)
Ltac open_binds := unfold mbind, st_bind, gets, lift, result_bind.

Record ledger_eq `{CryptoTypes} (l1 l2 : Ledger) : Prop := {
  eq_pool : forall id, l_pool l1 id = l_pool l2 id;
  eq_pool_balance : forall id, l_pool_balance l1 id = l_pool_balance l2 id;
  eq_share : forall k, l_share l1 k = l_share l2 k;
  eq_balance : forall id, l_balance l1 id = l_balance l2 id;
  eq_delegation : forall id, l_delegation l1 id = l_delegation l2 id
}.
#[global] Instance Ledger_equiv `{CryptoTypes} : Equiv Ledger := ledger_eq.

#[global] Instance Ledger_equivalence `{CryptoTypes} : Equivalence (≡@{Ledger}).
Proof.
  split.
  - done.
  - intros l1 l2 []. by split.
  - intros l1 l2 l3 [] []. split; intros; etransitivity; eauto.
Qed.

(** A listing of the shares of a pool that agrees with [f]. *)
Definition lists_shares (o : option (gmap DelegationId Amount)) (f : DelegationId -> Amount) : Prop :=
  forall d, default Amount.ZERO (default ∅ o !! d) = f d.

(** Every query of the view [p] returns what [l] says. *)
Record represents `{CryptoTypes} {P} `{!PoSAccountingView P} (p : P) (l : Ledger) : Prop := {
  shows_pool : forall id, get_pool_data p id = Ok (l_pool l id);
  shows_exists : forall id, pool_exists p id = Ok (bool_decide (l_pool l id <> None));
  shows_pool_balance : forall id, get_pool_balance p id = Ok (l_pool_balance l id);
  shows_share : forall pool d, get_pool_delegation_share p pool d = Ok (l_share l (pool, d));
  shows_balance : forall d, get_delegation_balance p d = Ok (l_balance l d);
  shows_delegation : forall d, get_delegation_data p d = Ok (l_delegation l d);
  shows_shares : forall pool, exists o, get_pool_delegations_shares p pool = Ok o /\
    lists_shares o (fun d => l_share l (pool, d))
}.

Record bounded `{CryptoTypes} (l : Ledger) : Prop := {
  pool_balances_bounded : balances_bounded (l_pool_balance l);
  shares_bounded : balances_bounded (l_share l);
  del_balances_bounded : balances_bounded (l_balance l)
}.

(** The parent of [c] shows [lp], and the deltas of [c] turn [lp] into [l]. *)
Record cache_rep `{CryptoTypes} {P} `{!PoSAccountingView P} (c : PoSAccountingDelta P)
    (lp l : Ledger) : Prop := {
  rep_parent : represents (parent c) lp;
  rep_pools : data_rep (dd_pool_data (data c)) (l_pool lp) (l_pool l);
  rep_pool_balances : balance_rep (dd_pool_balances (data c)) (l_pool_balance lp) (l_pool_balance l);
  rep_shares : balance_rep (dd_pool_delegation_shares (data c)) (l_share lp) (l_share l);
  rep_balances : balance_rep (dd_delegation_balances (data c)) (l_balance lp) (l_balance l);
  rep_delegations : data_rep (dd_delegation_data (data c)) (l_delegation lp) (l_delegation l)
}.

#[global] Instance cache_rep_proper `{CryptoTypes} {P} `{!PoSAccountingView P} :
  Proper ((=) ==> (=) ==> (≡) ==> iff) (@cache_rep _ P _).
Proof.
  assert (forall (c : PoSAccountingDelta P) lp l l',
    l ≡ l' -> cache_rep c lp l -> cache_rep c lp l') as Himp.
  { intros c lp l l' [E1 E2 E3 E4 E5] [Hp H1 H2 H3 H4 H5]. split; [done|..];
      (by eapply data_rep_ext; [|eassumption]) || (by eapply balance_rep_ext; [|eassumption]). }
  intros c ? <- lp ? <- l l' Heq. split; apply Himp; [done|by symmetry].
Qed.

Section refinement.
Context `{CryptoTypes} {P : Type} `{!PoSAccountingView P}.
Implicit Types (c : PoSAccountingDelta P) (l lp : Ledger).

Lemma cache_rep_equiv_pos c lp l l' : l' ≡ l -> cache_rep c lp l' -> cache_rep c lp l.
Proof. by intros ->. Qed.

Lemma cache_rep_bounded_pos c lp l : cache_rep c lp l -> bounded l.
Proof.
  intros [_ _ Hpb Hs Hb _].
  split; [apply (balance_rep_cur _ _ _ Hpb)|apply (balance_rep_cur _ _ _ Hs)|].
  apply (balance_rep_cur _ _ _ Hb).
Qed.

Lemma cache_rep_new_pos p l : represents p l -> bounded l -> cache_rep (PoSAccountingDelta_new p) l l.
Proof.
  intros Hp [Hpb Hs Hb].
  split; [done|apply data_rep_empty|by apply balance_rep_empty..|apply data_rep_empty].
Qed.

(** ** Reading *)

Lemma cache_rep_pool c lp l id : cache_rep c lp l -> cache_get_pool_data c id = Ok (l_pool l id).
Proof.
  intros Hrep. rewrite <- (data_rep_get _ _ _ id (rep_pools _ _ _ Hrep)).
  unfold cache_get_pool_data, view_fail. rewrite (shows_pool _ _ (rep_parent _ _ _ Hrep)).
  by destruct (get_data _ id).
Qed.

Lemma cache_rep_delegation c lp l id :
  cache_rep c lp l -> cache_get_delegation_data c id = Ok (l_delegation l id).
Proof.
  intros Hrep. rewrite <- (data_rep_get _ _ _ id (rep_delegations _ _ _ Hrep)).
  unfold cache_get_delegation_data, view_fail. rewrite (shows_delegation _ _ (rep_parent _ _ _ Hrep)).
  by destruct (get_data _ id).
Qed.

Lemma cache_rep_exists c lp l id :
  cache_rep c lp l -> cache_pool_exists c id = Ok (bool_decide (l_pool l id <> None)).
Proof. intros Hrep. unfold cache_pool_exists. by rewrite (cache_rep_pool _ _ _ _ Hrep). Qed.

Lemma cache_rep_pool_balance c lp l id :
  cache_rep c lp l -> cache_get_pool_balance c id = Ok (l_pool_balance l id).
Proof.
  intros Hrep. unfold cache_get_pool_balance, view_fail.
  rewrite (shows_pool_balance _ _ (rep_parent _ _ _ Hrep)). simpl.
  by rewrite (balance_rep_get _ _ _ id (rep_pool_balances _ _ _ Hrep)).
Qed.

Lemma cache_rep_balance c lp l id :
  cache_rep c lp l -> cache_get_delegation_balance c id = Ok (l_balance l id).
Proof.
  intros Hrep. unfold cache_get_delegation_balance, view_fail.
  rewrite (shows_balance _ _ (rep_parent _ _ _ Hrep)). simpl.
  by rewrite (balance_rep_get _ _ _ id (rep_balances _ _ _ Hrep)).
Qed.

Lemma cache_rep_share c lp l pool id :
  cache_rep c lp l -> cache_get_pool_delegation_share c pool id = Ok (l_share l (pool, id)).
Proof.
  intros Hrep. unfold cache_get_pool_delegation_share, view_fail.
  rewrite (shows_share _ _ (rep_parent _ _ _ Hrep)). simpl.
  by rewrite (balance_rep_get _ _ _ (pool, id) (rep_shares _ _ _ Hrep)).
Qed.

(** The listing of the shares of a pool agrees with the single queries. *)
Lemma cache_rep_listing c lp l pool :
  cache_rep c lp l ->
  exists o, cache_get_pool_delegations_shares c pool = Ok o /\
    lists_shares o (fun d => l_share l (pool, d)).
Proof.
  intros Hrep. destruct (rep_shares _ _ _ Hrep) as [_ Hsum Hbase Hcur].
  destruct (shows_shares _ _ (rep_parent _ _ _ Hrep) pool) as (o & Ho & Hlist).
  unfold cache_get_pool_delegations_shares, view_fail. rewrite Ho. cbn [map_err mbind result_bind].
  unfold get_cached_delegations_shares.
  set (local := non_empty (pool_range (dd_pool_delegation_shares (data c)) pool)).
  assert (forall d, delta_val (default ∅ local !! d)
    = delta_at (dd_pool_delegation_shares (data c)) (pool, d)) as Hlocal.
  { intros d. unfold local. by rewrite non_empty_lookup, pool_range_lookup. }
  assert (forall d, ival (l_share l (pool, d))
    = ival (default Amount.ZERO (default ∅ o !! d)) + delta_val (default ∅ local !! d)) as Hsh.
  { intros d. rewrite Hlocal, Hlist. apply Hsum. }
  destruct o as [m1|], local as [m2|].
  - destruct (sum_maps_exact m1 m2 (fun d => l_share l (pool, d))) as (m & Hm & Hl).
    + exact Hsh.
    + intros d. pose proof (Hlist d) as Hd. simpl in Hd. rewrite Hd. apply Hbase.
    + intros d. apply Hcur.
    + exists (Some m). by rewrite Hm.
  - exists (Some m1). split; [done|]. intros d. apply bint_eq. rewrite Hsh. simpl.
    rewrite lookup_empty. unfold delta_val. simpl. lia.
  - destruct (signed_to_unsigned_exact m2 (fun d => l_share l (pool, d))) as (m & Hm & Hl).
    + intros d. rewrite Hsh. simpl. rewrite lookup_empty. simpl. lia.
    + rewrite Hm. exists (Some (btree_collect m)). split; [done|]. exact Hl.
  - exists None. split; [done|]. intros d. apply bint_eq. rewrite Hsh. simpl.
    rewrite !lookup_empty. unfold delta_val. simpl. lia.
Qed.

Lemma cache_represents_pos c lp l : cache_rep c lp l -> represents c l.
Proof.
  intros Hrep. split; intros; simpl.
  - by eapply cache_rep_pool.
  - by eapply cache_rep_exists.
  - by eapply cache_rep_pool_balance.
  - by eapply cache_rep_share.
  - by eapply cache_rep_balance.
  - by eapply cache_rep_delegation.
  - by eapply cache_rep_listing.
Qed.

(** ** Single updates *)

(** One collection of the delta was rewritten, as [Hm] says. *)
Ltac zoomed Hm :=
  eexists; split;
  [ unfold add_balance_to_pool, sub_balance_from_pool, add_to_delegation_balance,
      sub_from_delegation_balance, add_delegation_to_pool_share, sub_delegation_from_pool_share,
      merge_pool_delta, undo_pool_delta, merge_delegation_delta, undo_delegation_delta, in_data,
      in_pool_data, in_pool_balances, in_shares, in_delegation_balances, in_delegation_data, zoom;
    rewrite Hm; reflexivity
  | by split ].

Lemma add_balance_to_pool_rep c lp l id (a s : Amount) :
  cache_rep c lp l -> ival s = ival (l_pool_balance l id) + ival a -> ival s <= i128_MAX ->
  exists c', add_balance_to_pool id a c = (c', Ok tt) /\ cache_rep c' lp (upd_pool_balance l id s).
Proof.
  intros [Hp H1 H2 H3 H4 H5] Hs Hb. destruct (balance_rep_add _ _ _ id a s H2 Hs Hb) as (t & Hm & Hr).
  zoomed Hm.
Qed.

Lemma sub_balance_from_pool_rep c lp l id (a s : Amount) :
  cache_rep c lp l -> ival s = ival (l_pool_balance l id) - ival a ->
  exists c', sub_balance_from_pool id a c = (c', Ok tt) /\ cache_rep c' lp (upd_pool_balance l id s).
Proof.
  intros [Hp H1 H2 H3 H4 H5] Hs. destruct (balance_rep_sub _ _ _ id a s H2 Hs) as (t & Hm & Hr).
  zoomed Hm.
Qed.

Lemma add_to_delegation_balance_rep c lp l id (a s : Amount) :
  cache_rep c lp l -> ival s = ival (l_balance l id) + ival a -> ival s <= i128_MAX ->
  exists c', add_to_delegation_balance id a c = (c', Ok tt) /\ cache_rep c' lp (upd_balance l id s).
Proof.
  intros [Hp H1 H2 H3 H4 H5] Hs Hb. destruct (balance_rep_add _ _ _ id a s H4 Hs Hb) as (t & Hm & Hr).
  zoomed Hm.
Qed.

Lemma sub_from_delegation_balance_rep c lp l id (a s : Amount) :
  cache_rep c lp l -> ival s = ival (l_balance l id) - ival a ->
  exists c', sub_from_delegation_balance id a c = (c', Ok tt) /\ cache_rep c' lp (upd_balance l id s).
Proof.
  intros [Hp H1 H2 H3 H4 H5] Hs. destruct (balance_rep_sub _ _ _ id a s H4 Hs) as (t & Hm & Hr).
  zoomed Hm.
Qed.

Lemma add_delegation_to_pool_share_rep c lp l pool id (a s : Amount) :
  cache_rep c lp l -> ival s = ival (l_share l (pool, id)) + ival a -> ival s <= i128_MAX ->
  exists c', add_delegation_to_pool_share pool id a c = (c', Ok tt) /\
    cache_rep c' lp (upd_share l (pool, id) s).
Proof.
  intros [Hp H1 H2 H3 H4 H5] Hs Hb.
  destruct (balance_rep_add _ _ _ (pool, id) a s H3 Hs Hb) as (t & Hm & Hr). zoomed Hm.
Qed.

Lemma sub_delegation_from_pool_share_rep c lp l pool id (a s : Amount) :
  cache_rep c lp l -> ival s = ival (l_share l (pool, id)) - ival a ->
  exists c', sub_delegation_from_pool_share pool id a c = (c', Ok tt) /\
    cache_rep c' lp (upd_share l (pool, id) s).
Proof.
  intros [Hp H1 H2 H3 H4 H5] Hs.
  destruct (balance_rep_sub _ _ _ (pool, id) a s H3 Hs) as (t & Hm & Hr). zoomed Hm.
Qed.

Lemma merge_pool_delta_rep c lp l id d :
  cache_rep c lp l -> l_pool l id = old d ->
  exists c', merge_pool_delta id d c = (c', Ok (invert d)) /\ cache_rep c' lp (upd_pool l id (new d)).
Proof.
  intros [Hp H1 H2 H3 H4 H5] Hold. destruct (data_rep_merge _ _ _ id d H1 Hold) as (t & Hm & Hr).
  zoomed Hm.
Qed.

Lemma undo_pool_delta_rep c lp l id u :
  cache_rep c lp l -> l_pool l id = old (as_delta u) ->
  exists c', undo_pool_delta id u c = (c', Ok tt) /\ cache_rep c' lp (upd_pool l id (new (as_delta u))).
Proof.
  intros [Hp H1 H2 H3 H4 H5] Hold. destruct (data_rep_undo _ _ _ id u H1 Hold) as (t & Hm & Hr).
  zoomed Hm.
Qed.

Lemma merge_delegation_delta_rep c lp l id d :
  cache_rep c lp l -> l_delegation l id = old d ->
  exists c', merge_delegation_delta id d c = (c', Ok (invert d)) /\
    cache_rep c' lp (upd_delegation l id (new d)).
Proof.
  intros [Hp H1 H2 H3 H4 H5] Hold. destruct (data_rep_merge _ _ _ id d H5 Hold) as (t & Hm & Hr).
  zoomed Hm.
Qed.

Lemma undo_delegation_delta_rep c lp l id u :
  cache_rep c lp l -> l_delegation l id = old (as_delta u) ->
  exists c', undo_delegation_delta id u c = (c', Ok tt) /\
    cache_rep c' lp (upd_delegation l id (new (as_delta u))).
Proof.
  intros [Hp H1 H2 H3 H4 H5] Hold. destruct (data_rep_undo _ _ _ id u H5 Hold) as (t & Hm & Hr).
  zoomed Hm.
Qed.

(** ** Operations *)

Definition pool_undo (l l' : Ledger) (id : PoolId) : DataDeltaUndo PoolData :=
  invert (mk_delta (l_pool l id) (l_pool l' id)).
Definition delegation_undo (l l' : Ledger) (id : DelegationId) : DataDeltaUndo DelegationData :=
  invert (mk_delta (l_delegation l id) (l_delegation l' id)).

(** The undo record of an operation that takes [l] to [l']. *)
Definition undo_record (op : PoSOp) (l l' : Ledger) : PoSAccountingUndo :=
  match op with
  | OpCreatePool id d => CreatePoolUndo id (pledge_amount d) (pool_undo l l' id)
  | OpDecommission id => DecommissionPoolUndo id (l_pool_balance l id) (pool_undo l l' id)
  | OpIncreaseRewards id a => IncreaseStakerRewardsUndo id a (pool_undo l l' id)
  | OpCreateDelegation _ id _ => CreateDelegationIdUndo id (delegation_undo l l' id)
  | OpDeleteDelegation id => DeleteDelegationIdUndo id (delegation_undo l l' id)
  | OpDelegate id a => DelegateStakingUndo id a
  | OpSpend id a => SpendFromShareUndo id a
  end.

(** What [exec_op] does, given what the rules say. *)
Definition op_follows_rules c lp l (op : PoSOp) : Prop :=
  match spec_op op l with
  | Ok l' => exists c', exec_op op c = (c', Ok (undo_record op l l')) /\ cache_rep c' lp l'
  | Err e => exec_op op c = (c, Err e)
  | Panic => False
  end.

(** Close a goal [exists c', ...] with the cache [c] the run ends in. *)
Ltac ends_in c Hrep :=
  exists c; split;
  [ unfold mret, st_ret, pool_undo, delegation_undo; simpl; rewrite ?fn_lookup_insert; congruence
  | exact Hrep ].

Lemma create_pool_rep c lp l id d :
  cache_rep c lp l -> op_in_range l (OpCreatePool id d) -> op_follows_rules c lp l (OpCreatePool id d).
Proof.
  intros Hrep Hr. simpl in Hr. unfold op_follows_rules. cbn [spec_op exec_op].
  unfold create_pool; open_binds. rewrite (cache_rep_pool _ _ _ _ Hrep).
  destruct (l_pool l id) as [d0|] eqn:Hd; simpl; [done|].
  rewrite (cache_rep_pool_balance _ _ _ _ Hrep). simpl.
  destruct (positive (l_pool_balance l id)) eqn:Hpos; simpl; [done|].
  assert (ival (l_pool_balance l id) = 0) as Hz.
  { pose proof (bint_range (l_pool_balance l id)). unfold positive in Hpos. amount_inv.
    rewrite ival_ZERO in *. lia. }
  destruct (add_balance_to_pool_rep c lp l id (pledge_amount d) (pledge_amount d) Hrep)
    as (c1 & -> & Hrep1); [lia|done|].
  destruct (merge_pool_delta_rep c1 lp _ id (mk_delta None (Some d)) Hrep1) as (c2 & -> & Hrep2);
    [done|].
  ends_in c2 Hrep2.
Qed.

Lemma decommission_pool_rep c lp l id :
  cache_rep c lp l -> op_follows_rules c lp l (OpDecommission id).
Proof.
  intros Hrep. unfold op_follows_rules. cbn [spec_op exec_op].
  unfold decommission_pool; open_binds. rewrite (cache_rep_pool _ _ _ _ Hrep).
  destruct (l_pool l id) as [d|] eqn:Hd; simpl; [|done].
  rewrite (cache_rep_pool_balance _ _ _ _ Hrep).
  destruct (sub_balance_from_pool_rep c lp l id (l_pool_balance l id) Amount.ZERO Hrep)
    as (c1 & -> & Hrep1); [rewrite ival_ZERO; lia|].
  destruct (merge_pool_delta_rep c1 lp _ id (mk_delta (Some d) None) Hrep1) as (c2 & -> & Hrep2);
    [done|].
  ends_in c2 Hrep2.
Qed.

Lemma create_delegation_id_rep c lp l pool id k :
  cache_rep c lp l -> op_follows_rules c lp l (OpCreateDelegation pool id k).
Proof.
  intros Hrep. unfold op_follows_rules. cbn [spec_op exec_op].
  unfold create_delegation_id; open_binds. rewrite (cache_rep_exists _ _ _ _ Hrep).
  destruct (bool_decide (l_pool l pool <> None)); simpl; [|done].
  rewrite (cache_rep_delegation _ _ _ _ Hrep).
  destruct (l_delegation l id) as [d|] eqn:Hd; simpl; [done|].
  destruct (merge_delegation_delta_rep c lp l id
    (mk_delta None (Some (DelegationData_new pool k))) Hrep) as (c1 & -> & Hrep1); [done|].
  ends_in c1 Hrep1.
Qed.

Lemma delete_delegation_id_rep c lp l id :
  cache_rep c lp l -> op_follows_rules c lp l (OpDeleteDelegation id).
Proof.
  intros Hrep. unfold op_follows_rules. cbn [spec_op exec_op].
  unfold delete_delegation_id; open_binds. rewrite (cache_rep_delegation _ _ _ _ Hrep).
  destruct (l_delegation l id) as [d|] eqn:Hd; simpl; [|done].
  rewrite (cache_rep_balance _ _ _ _ Hrep).
  destruct (positive (l_balance l id)); simpl; [done|].
  rewrite (cache_rep_share _ _ _ _ _ Hrep).
  destruct (positive (l_share l (source_pool d, id))); simpl; [done|].
  rewrite (cache_rep_exists _ _ _ _ Hrep).
  destruct (l_pool l (source_pool d)) as [pd|]; simpl; [done|].
  destruct (merge_delegation_delta_rep c lp l id (mk_delta (Some d) None) Hrep)
    as (c1 & -> & Hrep1); [done|].
  ends_in c1 Hrep1.
Qed.

Lemma increase_staker_rewards_rep c lp l id a :
  cache_rep c lp l -> op_in_range l (OpIncreaseRewards id a) ->
  (forall d, l_pool l id = Some d -> ival (staker_rewards d) <= ival (l_pool_balance l id)) ->
  op_follows_rules c lp l (OpIncreaseRewards id a).
Proof.
  intros Hrep Hr Hle. simpl in Hr. unfold op_follows_rules. cbn [spec_op exec_op].
  unfold increase_staker_rewards; open_binds. rewrite (cache_rep_pool _ _ _ _ Hrep).
  destruct (l_pool l id) as [d|] eqn:Hd; simpl; [|done]. specialize (Hle d eq_refl).
  destruct (Amount.add (l_pool_balance l id) a) as [b|] eqn:Hb; amount_inv; [|blia].
  destruct (add_balance_to_pool_rep c lp l id a b Hrep) as (c1 & -> & Hrep1); [done|lia|]. simpl.
  unfold pool_increase_staker_rewards, mbind, result_bind.
  destruct (Amount.add (staker_rewards d) a) as [r|] eqn:Hrw; simpl; [|amount_inv; blia].
  destruct (merge_pool_delta_rep c1 lp _ id (mk_delta (Some d) (Some (with_staker_rewards d r))) Hrep1)
    as (c2 & -> & Hrep2); [done|].
  ends_in c2 Hrep2.
Qed.

Lemma delegate_staking_rep c lp l id a :
  cache_rep c lp l -> op_in_range l (OpDelegate id a) ->
  (forall d, l_delegation l id = Some d -> l_share l (source_pool d, id) = l_balance l id) ->
  op_follows_rules c lp l (OpDelegate id a).
Proof.
  intros Hrep [Hb Hpb] Hsh. unfold op_follows_rules. cbn [spec_op exec_op].
  unfold delegate_staking; open_binds. rewrite (cache_rep_delegation _ _ _ _ Hrep).
  destruct (l_delegation l id) as [d|] eqn:Hd; simpl; [|done]. specialize (Hsh d eq_refl).
  rewrite Hsh.
  destruct (Amount.add (l_balance l id) a) as [b|] eqn:Hba; amount_inv; [|blia]. simpl.
  destruct (Amount.add (l_pool_balance l (source_pool d)) a) as [pb|] eqn:Hpba; amount_inv; [|blia].
  simpl.
  destruct (add_to_delegation_balance_rep c lp l id a b Hrep) as (c1 & -> & Hrep1); [done|lia|].
  destruct (add_balance_to_pool_rep c1 lp _ (source_pool d) a pb Hrep1) as (c2 & -> & Hrep2);
    [done|lia|].
  destruct (add_delegation_to_pool_share_rep c2 lp _ (source_pool d) id a b Hrep2)
    as (c3 & -> & Hrep3); [simpl; rewrite Hsh; done|lia|].
  ends_in c3 Hrep3.
Qed.

Lemma spend_share_rep c lp l id a :
  cache_rep c lp l -> op_in_range l (OpSpend id a) ->
  (forall d, l_delegation l id = Some d -> l_share l (source_pool d, id) = l_balance l id /\
    (l_pool l (source_pool d) <> None -> ival (l_balance l id) <= ival (l_pool_balance l (source_pool d)))) ->
  op_follows_rules c lp l (OpSpend id a).
Proof.
  intros Hrep Hr Hsh. simpl in Hr. unfold op_follows_rules. cbn [spec_op exec_op].
  unfold spend_share_from_delegation_id; open_binds. rewrite (cache_rep_delegation _ _ _ _ Hrep).
  destruct (l_delegation l id) as [d|] eqn:Hd; simpl; [|done].
  destruct (Hsh d eq_refl) as [Hs Hpb]. rewrite Hs.
  destruct (Amount.sub (l_balance l id) a) as [b|] eqn:Hba; amount_inv; [|lia]. simpl.
  destruct (sub_delegation_from_pool_share_rep c lp l (source_pool d) id a b Hrep)
    as (c1 & -> & Hrep1); [rewrite Hs; done|].
  rewrite (cache_rep_exists _ _ _ _ Hrep1). cbn [l_pool upd_share].
  case_bool_decide as Hex; simpl.
  - specialize (Hpb Hex).
    destruct (Amount.sub (l_pool_balance l (source_pool d)) a) as [pb|] eqn:Hpba; amount_inv; [|lia].
    simpl.
    destruct (sub_balance_from_pool_rep c1 lp _ (source_pool d) a pb Hrep1) as (c2 & -> & Hrep2);
      [done|].
    destruct (sub_from_delegation_balance_rep c2 lp _ id a b Hrep2) as (c3 & -> & Hrep3); [done|].
    ends_in c3 Hrep3.
  - unfold mret, st_ret.
    destruct (sub_from_delegation_balance_rep c1 lp _ id a b Hrep1) as (c3 & -> & Hrep3); [done|].
    exists c3. split; [done|]. eapply cache_rep_equiv_pos; [|exact Hrep3]. split; intros j; simpl; try done.
    unfold insert, fn_insert. case_decide; by subst.
Qed.
End refinement.

(** * The rules keep the books balanced *)

Section invariants.
Context `{CryptoTypes}.
Implicit Types (l : Ledger) (D : gset DelegationId).

Lemma inv_member D l id d : ledger_inv D l -> l_delegation l id = Some d -> id ∈ D.
Proof.
  intros Hinv Hd. destruct (decide (id ∈ D)) as [|Hn]; [done|].
  rewrite (inv_domain _ _ Hinv _ Hn) in Hd. done.
Qed.

Lemma inv_own_share D l id d :
  ledger_inv D l -> l_delegation l id = Some d -> l_share l (source_pool d, id) = l_balance l id.
Proof.
  intros Hinv Hd. rewrite (inv_shares _ _ Hinv). unfold due_share. by rewrite Hd, decide_True.
Qed.

Lemma inv_no_share D l id pool :
  ledger_inv D l -> l_delegation l id = None -> ival (l_share l (pool, id)) = 0.
Proof. intros Hinv Hd. rewrite (inv_shares _ _ Hinv). unfold due_share. by rewrite Hd. Qed.

Lemma shares_nonneg l pool k : 0 <= ival (l_share l (pool, k)).
Proof. apply bint_range. Qed.

(** The stake of a pool covers the rewards of the staker and every share. *)
Lemma inv_pool_covers D l pool data :
  ledger_inv D l -> l_pool l pool = Some data ->
  ival (staker_rewards data) <= ival (l_pool_balance l pool) /\
  forall id d, l_delegation l id = Some d -> source_pool d = pool ->
    ival (l_balance l id) <= ival (l_pool_balance l pool).
Proof.
  intros Hinv Hp. rewrite (inv_pools _ _ Hinv _ _ Hp).
  pose proof (bint_range (pledge_amount data)). pose proof (bint_range (staker_rewards data)).
  pose proof (sum_over_nonneg D _ (shares_nonneg l pool)). split; [lia|].
  intros id d Hd <-. rewrite <- (inv_own_share _ _ _ _ Hinv Hd).
  pose proof (sum_over_member D _ id (shares_nonneg l (source_pool d)) (inv_member _ _ _ _ Hinv Hd)).
  simpl in *. lia.
Qed.

Lemma sum_shares_update D l pool id (s : Amount) q :
  id ∈ D ->
  sum_over D (fun d => ival (<[(pool, id):=s]> (l_share l) (q, d)))
  = sum_over D (fun d => ival (l_share l (q, d)))
    + (if decide (pool = q) then ival s - ival (l_share l (pool, id)) else 0).
Proof.
  intros Hid. case_decide as Hq; [subst q|].
  - rewrite (sum_over_ext _ _ (<[id:=ival s]> (fun d => ival (l_share l (pool, d))))).
    + rewrite sum_over_update by done. lia.
    + intros k _. unfold insert, fn_insert. repeat case_decide; congruence.
  - rewrite Z.add_0_r. apply sum_over_ext. intros k _. rewrite fn_lookup_insert_ne; congruence.
Qed.

(** A change of the balance of [id], of its share and of the balance of its
    pool by the same amount. *)
Lemma inv_move D l id d pool (b s pb : Amount) delta :
  ledger_inv D l -> l_delegation l id = Some d -> source_pool d = pool ->
  ival b = ival (l_balance l id) + delta -> ival s = ival (l_share l (pool, id)) + delta ->
  (l_pool l pool <> None -> ival pb = ival (l_pool_balance l pool) + delta) ->
  ledger_inv D (mk_ledger (l_pool l) (<[pool:=pb]> (l_pool_balance l)) (<[(pool, id):=s]> (l_share l))
                  (<[id:=b]> (l_balance l)) (l_delegation l)).
Proof.
  intros Hinv Hd Hpool Hb Hs Hpb. pose proof (inv_own_share _ _ _ _ Hinv Hd) as Hown.
  rewrite Hpool in Hown.
  pose proof (inv_member _ _ _ _ Hinv Hd) as HD. split; simpl.
  - apply Hinv.
  - intros q j. unfold due_share; simpl. pose proof (inv_shares _ _ Hinv q j) as Hsh.
    unfold due_share in Hsh. destruct (decide (j = id)) as [->|Hj].
    + rewrite Hd, Hpool in *. rewrite fn_lookup_insert. case_decide as Hq.
      * subst q. rewrite fn_lookup_insert. apply bint_eq. rewrite Hown in Hs. lia.
      * rewrite fn_lookup_insert_ne by congruence. done.
    + rewrite !fn_lookup_insert_ne by congruence. done.
  - intros j Hj. rewrite fn_lookup_insert_ne by congruence. by apply Hinv.
  - intros q data Hq. rewrite (sum_shares_update D l pool id s q HD).
    pose proof (inv_pools _ _ Hinv _ _ Hq) as Hbal. unfold insert, fn_insert.
    destruct (decide (pool = q)) as [Heq|Hne]; [|lia]. subst q.
    rewrite Hpb by (by rewrite Hq). lia.
Qed.

Lemma positive_false (a : Amount) : positive a = false <-> ival a = 0.
Proof.
  pose proof (bint_range a). unfold positive. rewrite <- not_true_iff_false, Amount_ltb_lt, ival_ZERO. lia.
Qed.

(** Rewriting the data and the balance of one pool. *)
Lemma inv_set_pool D l id o (b : Amount) :
  ledger_inv D l ->
  (forall data, o = Some data -> ival b = ival (pledge_amount data) + ival (staker_rewards data)
    + sum_over D (fun d => ival (l_share l (id, d)))) ->
  ledger_inv D (upd_pool (upd_pool_balance l id b) id o).
Proof.
  intros Hinv Ho. split; simpl; [apply Hinv|apply (inv_shares _ _ Hinv)|apply Hinv|].
  intros q data. unfold insert, fn_insert. case_decide; [subst; apply Ho|apply Hinv].
Qed.

Lemma inv_create_delegation D l id d :
  ledger_inv D l -> l_delegation l id = None ->
  ledger_inv ({[id]} ∪ D) (upd_delegation l id (Some d)).
Proof.
  intros Hinv Hid. split; simpl.
  - intros j Hj. rewrite fn_lookup_insert_ne by set_solver. apply Hinv. set_solver.
  - intros q j. rewrite (inv_shares _ _ Hinv). unfold due_share; simpl.
    unfold insert, fn_insert. case_decide; [subst j|done]. rewrite Hid.
    case_decide; [|done]. apply bint_eq. by rewrite (inv_balances _ _ Hinv _ Hid).
  - intros j. unfold insert, fn_insert. case_decide; [done|apply Hinv].
  - intros q data Hq. rewrite (inv_pools _ _ Hinv _ _ Hq). f_equal.
    destruct (decide (id ∈ D)) as [Hin|Hn].
    + by rewrite (subseteq_union_1_L {[id]} D) by set_solver.
    + rewrite sum_over_insert by done. by rewrite (inv_no_share _ _ _ _ Hinv Hid).
Qed.

Lemma inv_delete_delegation D l id :
  ledger_inv D l -> ival (l_balance l id) = 0 -> ledger_inv D (upd_delegation l id None).
Proof.
  intros Hinv Hb. split; simpl.
  - intros j Hj. unfold insert, fn_insert. case_decide; [done|by apply Hinv].
  - intros q j. rewrite (inv_shares _ _ Hinv). unfold due_share; simpl.
    unfold insert, fn_insert. case_decide; [subst j|done].
    destruct (l_delegation l id); [|done]. case_decide; [|done]. by apply bint_eq.
  - intros j. unfold insert, fn_insert. case_decide; [by subst|apply Hinv].
  - apply Hinv.
Qed.
End invariants.

(** ** What the rules allow *)

Section rules.
Context `{CryptoTypes}.
Implicit Types (l : Ledger) (D : gset DelegationId).

Lemma spec_delegate_Ok l id a l' :
  spec_op (OpDelegate id a) l = Ok l' ->
  exists d (b pb s : Amount), l_delegation l id = Some d /\
    ival b = ival (l_balance l id) + ival a /\
    ival pb = ival (l_pool_balance l (source_pool d)) + ival a /\
    ival s = ival (l_share l (source_pool d, id)) + ival a /\
    l' = upd_share (upd_pool_balance (upd_balance l id b) (source_pool d) pb) (source_pool d, id) s.
Proof.
  cbn [spec_op]. destruct (l_delegation l id) as [d|]; [|done]. simpl.
  destruct (Amount.add (l_balance l id) a) as [b|] eqn:Hb; [|done]. simpl.
  destruct (Amount.add (l_pool_balance l (source_pool d)) a) as [pb|] eqn:Hpb; [|done]. simpl.
  destruct (Amount.add (l_share l (source_pool d, id)) a) as [s|] eqn:Hs; [|done]. simpl.
  intros [= <-]. amount_inv. by exists d, b, pb, s.
Qed.

Lemma spec_spend_Ok l id a l' :
  spec_op (OpSpend id a) l = Ok l' ->
  exists d (b pb s : Amount), l_delegation l id = Some d /\
    ival b = ival (l_balance l id) - ival a /\
    ival pb = ival (l_pool_balance l (source_pool d))
              - (if bool_decide (l_pool l (source_pool d) <> None) then ival a else 0) /\
    ival s = ival (l_share l (source_pool d, id)) - ival a /\
    l' = upd_balance (upd_pool_balance (upd_share l (source_pool d, id) s) (source_pool d) pb) id b.
Proof.
  cbn [spec_op]. destruct (l_delegation l id) as [d|]; [|done]. simpl.
  destruct (Amount.sub (l_share l (source_pool d, id)) a) as [s|] eqn:Hs; [|done]. simpl.
  destruct (if bool_decide _ then _ else _) as [pb|e|] eqn:Hpb; simpl; [|done|done].
  destruct (Amount.sub (l_balance l id) a) as [b|] eqn:Hb; [|done]. simpl.
  intros [= <-]. amount_inv. exists d, b, pb, s. split; [done|]. split; [done|]. split; [|done].
  case_bool_decide; simpl in Hpb.
  - destruct (Amount.sub (l_pool_balance l (source_pool d)) a) eqn:Hp; simplify_eq/=. by amount_inv.
  - simplify_eq. lia.
Qed.

Lemma spec_increase_Ok l id a l' :
  spec_op (OpIncreaseRewards id a) l = Ok l' ->
  exists d (b r : Amount), l_pool l id = Some d /\ ival b = ival (l_pool_balance l id) + ival a /\
    ival r = ival (staker_rewards d) + ival a /\
    l' = upd_pool (upd_pool_balance l id b) id (Some (with_staker_rewards d r)).
Proof.
  cbn [spec_op]. destruct (l_pool l id) as [d|]; [|done]. simpl.
  destruct (Amount.add (l_pool_balance l id) a) as [b|] eqn:Hb; [|done]. simpl.
  destruct (Amount.add (staker_rewards d) a) as [r|] eqn:Hr; [|done]. simpl.
  intros [= <-]. amount_inv. by exists d, b, r.
Qed.

Lemma spec_create_pool_Ok l id d l' :
  spec_op (OpCreatePool id d) l = Ok l' ->
  l_pool l id = None /\ ival (l_pool_balance l id) = 0 /\
  l' = upd_pool (upd_pool_balance l id (pledge_amount d)) id (Some d).
Proof.
  cbn [spec_op]. case_bool_decide; [|done]. simpl.
  destruct (positive (l_pool_balance l id)) eqn:Hp; [done|]. intros [= <-].
  by apply positive_false in Hp.
Qed.

Lemma spec_decommission_Ok l id l' :
  spec_op (OpDecommission id) l = Ok l' ->
  exists d, l_pool l id = Some d /\ l' = upd_pool (upd_pool_balance l id Amount.ZERO) id None.
Proof. cbn [spec_op]. destruct (l_pool l id) as [d|]; [|done]. intros [= <-]. by exists d. Qed.

Lemma spec_create_delegation_Ok l pool id k l' :
  spec_op (OpCreateDelegation pool id k) l = Ok l' ->
  l_pool l pool <> None /\ l_delegation l id = None /\
  l' = upd_delegation l id (Some (DelegationData_new pool k)).
Proof.
  cbn [spec_op]. destruct (l_pool l pool) as [data|]; simpl; [|done].
  destruct (l_delegation l id); simpl; [done|]. by intros [= <-].
Qed.

Lemma spec_delete_delegation_Ok l id l' :
  spec_op (OpDeleteDelegation id) l = Ok l' ->
  exists d, l_delegation l id = Some d /\ ival (l_balance l id) = 0 /\
    l_pool l (source_pool d) = None /\ l' = upd_delegation l id None.
Proof.
  cbn [spec_op]. destruct (l_delegation l id) as [d|]; [|done]. simpl.
  destruct (positive (l_balance l id)) eqn:Hb; [done|]. simpl.
  destruct (positive (l_share l (source_pool d, id))); [done|]. simpl.
  case_bool_decide; [|done]. intros [= <-]. exists d. by apply positive_false in Hb.
Qed.

Lemma spec_increase_inv D id a l l' :
  ledger_inv D l -> spec_op (OpIncreaseRewards id a) l = Ok l' -> ledger_inv D l'.
Proof.
  intros Hinv Hspec. apply spec_increase_Ok in Hspec as (d & b & r & Hd & Hb & Hr & ->).
  apply inv_set_pool; [done|]. intros data [= <-]. simpl.
  rewrite Hb, Hr, (inv_pools _ _ Hinv _ _ Hd). lia.
Qed.

Lemma spec_spend_inv D id a l l' :
  ledger_inv D l -> spec_op (OpSpend id a) l = Ok l' -> ledger_inv D l'.
Proof.
  intros Hinv Hspec. apply spec_spend_Ok in Hspec as (d & b & pb & s & Hd & Hb & Hpb & Hs & ->).
  apply (inv_move D l id d (source_pool d) b s pb (- ival a)); try done; [lia..|].
  intros Hex. rewrite bool_decide_true in Hpb by done. lia.
Qed.

Lemma spec_op_inv_pos D op l l' :
  ledger_inv D l -> op_fresh l op -> spec_op op l = Ok l' -> exists D', ledger_inv D' l'.
Proof.
  intros Hinv Hfr Hspec. destruct op as [id d|id|id a|pool id k|id|id a|id a].
  - apply spec_create_pool_Ok in Hspec as (_ & _ & ->). destruct Hfr as [Hr Hfr].
    exists D. apply inv_set_pool; [done|]. intros data [= ->].
    rewrite (sum_over_ext _ _ (fun _ => 0)) by (intros; apply Hfr). rewrite sum_over_0. lia.
  - apply spec_decommission_Ok in Hspec as (d & Hd & ->). exists D. by apply inv_set_pool.
  - exists D. by eapply spec_increase_inv.
  - apply spec_create_delegation_Ok in Hspec as (_ & Hid & ->).
    exists ({[id]} ∪ D). by apply inv_create_delegation.
  - apply spec_delete_delegation_Ok in Hspec as (d & _ & Hb & _ & ->).
    exists D. by apply inv_delete_delegation.
  - apply spec_delegate_Ok in Hspec as (d & b & pb & s & Hd & Hb & Hpb & Hs & ->).
    exists D. by apply (inv_move D l id d (source_pool d) b s pb (ival a)).
  - exists D. by eapply spec_spend_inv.
Qed.
End rules.

Section exec.
Context `{CryptoTypes} {P : Type} `{!PoSAccountingView P}.
Implicit Types (c : PoSAccountingDelta P) (l lp : Ledger).

(** The balances that an operation on the ledger [l] changes can be read in [c]. *)
Definition balances_readable l (op : PoSOp) c : Prop :=
  match op with
  | OpCreatePool id _ | OpIncreaseRewards id _ => exists v, cache_get_pool_balance c id = Ok v
  | OpDelegate id _ => (exists v, cache_get_delegation_balance c id = Ok v) /\
      match l_delegation l id with
      | Some d => exists v, cache_get_pool_balance c (source_pool d) = Ok v
      | None => True
      end
  | OpSpend id _ => exists v, cache_get_delegation_balance c id = Ok v
  | _ => True
  end.

(** Every operation, on every branch. *)
Lemma exec_op_rep_pos c lp l D op :
  cache_rep c lp l -> ledger_inv D l -> op_in_range l op -> op_follows_rules c lp l op.
Proof.
  intros Hrep Hinv Hr. destruct op as [id d|id|id a|pool id k|id|id a|id a].
  - by apply create_pool_rep.
  - by apply decommission_pool_rep.
  - apply increase_staker_rewards_rep; [done|done|]. intros d Hd.
    by apply (inv_pool_covers _ _ _ _ Hinv Hd).
  - by apply create_delegation_id_rep.
  - by apply delete_delegation_id_rep.
  - apply delegate_staking_rep; [done|done|]. intros d Hd. by eapply inv_own_share.
  - apply spend_share_rep; [done|done|]. intros d Hd. split; [by eapply inv_own_share|].
    intros Hex. destruct (l_pool l (source_pool d)) as [data|] eqn:Hp; [|done].
    by eapply (inv_pool_covers _ _ _ _ Hinv Hp).
Qed.

Lemma exec_op_inv_pos c lp l D op c' u :
  cache_rep c lp l -> ledger_inv D l -> op_in_range l op -> exec_op op c = (c', Ok u) ->
  exists l', spec_op op l = Ok l' /\ cache_rep c' lp l' /\ u = undo_record op l l'.
Proof.
  intros Hrep Hinv Hr Hrun. pose proof (exec_op_rep_pos c lp l D op Hrep Hinv Hr) as Hex.
  unfold op_follows_rules in Hex.
  destruct (spec_op op l) as [l'|e|]; [|by rewrite Hrun in Hex|done].
  destruct Hex as (c1 & Hc1 & Hrep1). rewrite Hrun in Hc1. simplify_eq. eauto.
Qed.

(** A delegation that is spent past its balance cannot be read afterwards. *)
Lemma overspent_unreadable c lp l id a c' u v :
  cache_rep c lp l -> spend_share_from_delegation_id id a c = (c', Ok u) ->
  cache_get_delegation_balance c' id = Ok v -> ival a <= ival (l_balance l id).
Proof.
  intros Hrep Hrun Hread. unfold spend_share_from_delegation_id, sub_delegation_from_pool_share,
    sub_from_delegation_balance, sub_balance_from_pool in Hrun. run_inv.
  destruct (rep_balances _ _ _ Hrep) as [_ Hsum _ _]. specialize (Hsum id).
  pose proof (shows_balance _ _ (rep_parent _ _ _ Hrep) id) as Hp.
  unfold cache_get_delegation_balance, view_fail in Hread.
  repeat match goal with H : (if ?b then _ else _) _ = _ |- _ => destruct b end;
    unfold in_data, in_shares, in_pool_balances, in_delegation_balances in *; run_inv;
    simpl in *; rewrite Hp in *; simpl in *; run_inv;
    match goal with H : sub_unsigned id a _ = _ |- _ => apply sub_unsigned_Ok in H as (Ha & Hfit & ->) end;
    match goal with H : combine_amount_delta _ _ = _ |- _ => apply combine_amount_delta_val in H as Hv end;
    fold (delta_at (set_delta (dd_delegation_balances (data c)) id
      (delta_at (dd_delegation_balances (data c)) id - ival a)) id) in Hv;
    rewrite delta_at_set, decide_True in Hv by done; pose proof (bint_range v); lia.
Qed.

Lemma combined_in_range {K} `{BTreeKey K} (t : DeltaAmountCollection K) base id z v :
  ival base <= i128_MAX -> fits_i128 z -> combine_amount_delta base (set_delta t id z !! id) = Ok v ->
  ival base + z <= i128_MAX.
Proof.
  intros Hb Hz Hv. unfold set_delta, stored in Hv. rewrite lookup_partial_alter_eq in Hv.
  destruct (Z.eqb_spec z 0) as [->|_]; [lia|]. destruct (bint_of_Z_is_Some z Hz) as (d & Hd & Vd). rewrite Hd in Hv.
  apply combine_amount_delta_Ok in Hv. lia.
Qed.

(** A pool, or a delegation, whose balance can be read after an addition had room
    for it. *)
Lemma pool_added c lp cur id a c1 c' v :
  represents (parent c) lp -> balance_rep (dd_pool_balances (data c)) (l_pool_balance lp) cur ->
  add_balance_to_pool id a c = (c1, Ok tt) ->
  parent c' = parent c -> dd_pool_balances (data c') = dd_pool_balances (data c1) ->
  cache_get_pool_balance c' id = Ok v -> ival (cur id) + ival a <= i128_MAX.
Proof.
  intros Hp [_ Hsum Hbase _] Hrun Hpar Hsame Hread. specialize (Hsum id). specialize (Hbase id).
  apply zoom_Ok in Hrun as (d & Hrun & ->). apply zoom_Ok in Hrun as (t & Hrun & ->).
  apply add_unsigned_Ok in Hrun as (Ha & Hfit & ->). unfold cache_get_pool_balance, view_fail in Hread.
  rewrite Hpar, Hsame, (shows_pool_balance _ _ Hp) in Hread. cbn [map_err mbind result_bind] in Hread.
  apply map_err_Ok, combined_in_range in Hread; [lia|done|done].
Qed.

Lemma delegation_added c lp cur id a c1 c' v :
  represents (parent c) lp -> balance_rep (dd_delegation_balances (data c)) (l_balance lp) cur ->
  add_to_delegation_balance id a c = (c1, Ok tt) ->
  parent c' = parent c -> dd_delegation_balances (data c') = dd_delegation_balances (data c1) ->
  cache_get_delegation_balance c' id = Ok v -> ival (cur id) + ival a <= i128_MAX.
Proof.
  intros Hp [_ Hsum Hbase _] Hrun Hpar Hsame Hread. specialize (Hsum id). specialize (Hbase id).
  apply zoom_Ok in Hrun as (d & Hrun & ->). apply zoom_Ok in Hrun as (t & Hrun & ->).
  apply add_unsigned_Ok in Hrun as (Ha & Hfit & ->). unfold cache_get_delegation_balance, view_fail in Hread.
  rewrite Hpar, Hsame, (shows_balance _ _ Hp) in Hread. cbn [map_err mbind result_bind] in Hread.
  apply map_err_Ok, combined_in_range in Hread; [lia|done|done].
Qed.

Lemma readable_in_range c lp l op c' u :
  cache_rep c lp l -> exec_op op c = (c', Ok u) -> balances_readable l op c' -> op_in_range l op.
Proof.
  intros Hrep Hrun Hread. pose proof (rep_parent _ _ _ Hrep) as Hp. pose proof (rep_pool_balances _ _ _ Hrep) as Hpb.
  destruct op as [id d|id|id a|pool id k|id|id a|id a]; try done; cbn [exec_op balances_readable op_in_range] in *.
  - destruct Hread as [v Hread]. unfold create_pool in Hrun. run_inv.
    rename select (add_balance_to_pool _ _ _ = _) into Hadd. rename select (merge_pool_delta _ _ _ = _) into Hm.
    pose proof Hadd as Hadd'. apply zoom_Ok in Hadd' as (d1 & Hadd' & ->). apply zoom_Ok in Hadd' as (t1 & _ & ->).
    apply zoom_Ok in Hm as (d2 & Hm & ->). apply zoom_Ok in Hm as (t2 & _ & ->).
    assert (ival (l_pool_balance l id) + ival (pledge_amount d) <= i128_MAX)
      by (refine (pool_added c lp _ id _ _ _ v Hp Hpb Hadd _ _ Hread); done).
    pose proof (bint_range (l_pool_balance l id)). lia.
  - destruct Hread as [v Hread]. unfold increase_staker_rewards in Hrun. run_inv.
    rename select (add_balance_to_pool _ _ _ = _) into Hadd. rename select (merge_pool_delta _ _ _ = _) into Hm.
    pose proof Hadd as Hadd'. apply zoom_Ok in Hadd' as (d1 & Hadd' & ->). apply zoom_Ok in Hadd' as (t1 & _ & ->).
    apply zoom_Ok in Hm as (d2 & Hm & ->). apply zoom_Ok in Hm as (t2 & _ & ->).
    refine (pool_added c lp _ id _ _ _ v Hp Hpb Hadd _ _ Hread); done.
  - destruct Hread as [[v Hread] Hpool]. unfold delegate_staking in Hrun. run_inv.
    rename select (cache_get_delegation_data _ _ = _) into Hd. rewrite (cache_rep_delegation _ _ _ _ Hrep) in Hd.
    rename select (add_balance_to_pool _ _ _ = _) into Hadd. rename select (add_to_delegation_balance _ _ _ = _) into Hdel.
    rename select (add_delegation_to_pool_share _ _ _ _ = _) into Hsh.
    pose proof Hdel as Hdel'. apply zoom_Ok in Hdel' as (d1 & Hdel' & ->). apply zoom_Ok in Hdel' as (t1 & _ & ->).
    pose proof Hadd as Hadd'. apply zoom_Ok in Hadd' as (d2 & Hadd' & ->). apply zoom_Ok in Hadd' as (t2 & _ & ->).
    apply zoom_Ok in Hsh as (d3 & Hsh & ->). apply zoom_Ok in Hsh as (t3 & _ & ->).
    split; [refine (delegation_added c lp _ id _ _ _ v Hp (rep_balances _ _ _ Hrep) Hdel _ _ Hread); done|].
    destruct (l_delegation l id) as [d|]; [|done]. destruct Hpool as [w Hw]. simplify_eq/=.
    refine (pool_added _ lp _ _ _ _ _ w _ _ Hadd _ _ Hw); [exact Hp|exact Hpb|done|done].
  - destruct Hread as [v Hread]. by eapply overspent_unreadable.
Qed.

(** The errors of the rules do not depend on the range. *)
Lemma exec_op_refused c lp l op e : cache_rep c lp l -> spec_op op l = Err e -> exec_op op c = (c, Err e).
Proof.
  intros Hrep Hs. destruct op as [id d|id|id a|pool id k|id|id a|id a].
  - cbn [spec_op exec_op] in *. unfold create_pool; open_binds. rewrite (cache_rep_pool _ _ _ _ Hrep).
    destruct (l_pool l id); simpl in *; [congruence|]. rewrite (cache_rep_pool_balance _ _ _ _ Hrep). simpl.
    destruct (positive (l_pool_balance l id)); simpl in *; [congruence|done].
  - pose proof (decommission_pool_rep c lp l id Hrep) as Hex. unfold op_follows_rules in Hex. by rewrite Hs in Hex.
  - cbn [spec_op exec_op] in *. unfold increase_staker_rewards; open_binds. rewrite (cache_rep_pool _ _ _ _ Hrep).
    destruct (l_pool l id) as [d|]; simpl in *; [|congruence].
    destruct (Amount.add (l_pool_balance l id) a), (Amount.add (staker_rewards d) a); done.
  - pose proof (create_delegation_id_rep c lp l pool id k Hrep) as Hex. unfold op_follows_rules in Hex. by rewrite Hs in Hex.
  - pose proof (delete_delegation_id_rep c lp l id Hrep) as Hex. unfold op_follows_rules in Hex. by rewrite Hs in Hex.
  - cbn [spec_op exec_op] in *. unfold delegate_staking; open_binds. rewrite (cache_rep_delegation _ _ _ _ Hrep).
    destruct (l_delegation l id) as [d|]; simpl in *; [|congruence].
    by destruct (Amount.add (l_balance l id) a), (Amount.add (l_pool_balance l (source_pool d)) a),
      (Amount.add (l_share l (source_pool d, id)) a).
  - cbn [spec_op exec_op] in *. unfold spend_share_from_delegation_id; open_binds. rewrite (cache_rep_delegation _ _ _ _ Hrep).
    destruct (l_delegation l id) as [d|]; simpl in *; [|congruence].
    destruct (Amount.sub (l_share l (source_pool d, id)) a); [|done]. simpl in Hs. case_bool_decide; simpl in Hs.
    + by destruct (Amount.sub (l_pool_balance l (source_pool d)) a), (Amount.sub (l_balance l id) a).
    + by destruct (Amount.sub (l_balance l id) a).
Qed.
End exec.

(** Delegating to a pool that is gone, and spending the delegation again. *)
Lemma spec_delegate_dead_pool `{CryptoTypes} D l id d a :
  ledger_inv D l -> l_delegation l id = Some d -> l_pool l (source_pool d) = None ->
  op_in_range l (OpDelegate id a) -> 0 < ival a ->
  exists l1 l2, spec_op (OpDelegate id a) l = Ok l1 /\ spec_op (OpSpend id a) l1 = Ok l2 /\
    op_in_range l1 (OpSpend id a) /\ l_pool l1 (source_pool d) = None /\
    0 < ival (l_pool_balance l1 (source_pool d)) /\
    l_pool_balance l2 (source_pool d) = l_pool_balance l1 (source_pool d).
Proof.
  intros Hinv Hd Hp [Hb Hpb] Ha. rewrite Hd in Hpb. cbn [spec_op]. rewrite Hd. simpl.
  rewrite (inv_own_share _ _ _ _ Hinv Hd). pose proof (bint_range (l_balance l id)).
  pose proof (bint_range (l_pool_balance l (source_pool d))).
  destruct (Amount.add (l_balance l id) a) as [b|] eqn:Eb; [|amount_inv; blia]. simpl.
  destruct (Amount.add (l_pool_balance l (source_pool d)) a) as [pb|] eqn:Epb; [|amount_inv; blia].
  amount_inv. assert (Amount.sub b a = Some (l_balance l id)) as Hsub by (apply Amount_sub_Some; lia).
  exists (upd_share (upd_pool_balance (upd_balance l id b) (source_pool d) pb) (source_pool d, id) b).
  eexists. split; [done|]. simpl. rewrite Hd. simpl. rewrite !fn_lookup_insert, Hp, Hsub. simpl.
  split; [done|]. simpl. rewrite fn_lookup_insert. by repeat (split; [lia || done|]).
Qed.

(** ** Undo *)

Section undoing.
Context `{CryptoTypes} {P : Type} `{!PoSAccountingView P}.
Implicit Types (c : PoSAccountingDelta P) (l lp : Ledger).

(** The ledger reached by an undo is the one before the operation. *)
Ltac restored Hrep :=
  eapply cache_rep_equiv_pos; [|exact Hrep]; split; intros ?; simpl;
  unfold insert, fn_insert; repeat case_decide; subst; congruence.

Lemma undo_create_pool_rep c lp l l' id d :
  spec_op (OpCreatePool id d) l = Ok l' -> cache_rep c lp l' ->
  exists c', undo (undo_record (OpCreatePool id d) l l') c = (c', Ok tt) /\ cache_rep c' lp l.
Proof.
  intros Hspec Hrep. apply spec_create_pool_Ok in Hspec as (Ho & Hb & ->). cbn [undo undo_record].
  unfold undo_create_pool, pool_undo; open_binds.
  rewrite (cache_rep_pool_balance _ _ _ _ Hrep). cbn [upd_pool upd_pool_balance l_pool l_pool_balance].
  rewrite !fn_lookup_insert, bool_decide_true by done. simpl.
  destruct (sub_balance_from_pool_rep c lp _ id (pledge_amount d) (l_pool_balance l id) Hrep)
    as (c1 & -> & Hrep1); [simpl; rewrite fn_lookup_insert; lia|].
  rewrite (cache_rep_pool _ _ _ _ Hrep1). simpl. rewrite fn_lookup_insert, Ho. simpl.
  destruct (undo_pool_delta_rep c1 lp _ id (invert (mk_delta None (Some d))) Hrep1)
    as (c2 & -> & Hrep2); [simpl; by rewrite fn_lookup_insert|].
  exists c2. split; [done|]. restored Hrep2.
Qed.

Lemma undo_decommission_rep c lp l l' id :
  bounded l -> spec_op (OpDecommission id) l = Ok l' -> cache_rep c lp l' ->
  exists c', undo (undo_record (OpDecommission id) l l') c = (c', Ok tt) /\ cache_rep c' lp l.
Proof.
  intros Hb Hspec Hrep. apply spec_decommission_Ok in Hspec as (d & Ho & ->). cbn [undo undo_record].
  unfold undo_decommission_pool, pool_undo; open_binds. rewrite (cache_rep_pool _ _ _ _ Hrep).
  cbn [upd_pool upd_pool_balance l_pool l_pool_balance]. rewrite !fn_lookup_insert. simpl.
  rewrite (cache_rep_pool_balance _ _ _ _ Hrep). simpl. rewrite fn_lookup_insert, Ho. simpl.
  destruct (add_balance_to_pool_rep c lp _ id (l_pool_balance l id) (l_pool_balance l id) Hrep)
    as (c1 & -> & Hrep1).
  { simpl. rewrite fn_lookup_insert, ival_ZERO. lia. }
  { apply Hb. }
  destruct (undo_pool_delta_rep c1 lp _ id (invert (mk_delta (Some d) None)) Hrep1)
    as (c2 & -> & Hrep2); [simpl; by rewrite fn_lookup_insert|].
  exists c2. split; [done|]. restored Hrep2.
Qed.

Lemma undo_increase_rep c lp l l' id a :
  spec_op (OpIncreaseRewards id a) l = Ok l' -> cache_rep c lp l' ->
  exists c', undo (undo_record (OpIncreaseRewards id a) l l') c = (c', Ok tt) /\ cache_rep c' lp l.
Proof.
  intros Hspec Hrep. apply spec_increase_Ok in Hspec as (d & b & r & Ho & Hb & Hr & ->).
  cbn [undo undo_record]. unfold undo_increase_staker_balance, pool_undo; open_binds. simpl.
  rewrite fn_lookup_insert, Ho.
  destruct (undo_pool_delta_rep c lp _ id
    (invert (mk_delta (Some d) (Some (with_staker_rewards d r)))) Hrep) as (c1 & Hc1 & Hrep1);
    [simpl; by rewrite fn_lookup_insert|]. simpl in Hc1. rewrite Hc1.
  destruct (sub_balance_from_pool_rep c1 lp _ id a (l_pool_balance l id) Hrep1)
    as (c2 & -> & Hrep2); [simpl; rewrite fn_lookup_insert; lia|].
  exists c2. split; [done|]. restored Hrep2.
Qed.

Lemma undo_create_delegation_rep c lp l l' pool id k :
  spec_op (OpCreateDelegation pool id k) l = Ok l' -> cache_rep c lp l' ->
  exists c', undo (undo_record (OpCreateDelegation pool id k) l l') c = (c', Ok tt) /\ cache_rep c' lp l.
Proof.
  intros Hspec Hrep. apply spec_create_delegation_Ok in Hspec as (_ & Ho & ->).
  cbn [undo undo_record]. unfold undo_create_delegation_id, delegation_undo; open_binds.
  rewrite (cache_rep_delegation _ _ _ _ Hrep). simpl. rewrite fn_lookup_insert, Ho. simpl.
  destruct (undo_delegation_delta_rep c lp _ id
    (invert (mk_delta None (Some (DelegationData_new pool k)))) Hrep) as (c1 & Hc1 & Hrep1);
    [simpl; by rewrite fn_lookup_insert|].
  exists c1. split; [exact Hc1|]. restored Hrep1.
Qed.

Lemma undo_delete_delegation_rep c lp l l' id :
  spec_op (OpDeleteDelegation id) l = Ok l' -> cache_rep c lp l' ->
  exists c', undo (undo_record (OpDeleteDelegation id) l l') c = (c', Ok tt) /\ cache_rep c' lp l.
Proof.
  intros Hspec Hrep. apply spec_delete_delegation_Ok in Hspec as (d & Ho & Hb & _ & ->).
  cbn [undo undo_record]. unfold undo_delete_delegation_id, delegation_undo; open_binds.
  rewrite (cache_rep_balance _ _ _ _ Hrep). simpl. rewrite (proj2 (positive_false _) Hb). simpl.
  rewrite fn_lookup_insert, Ho.
  destruct (undo_delegation_delta_rep c lp _ id (invert (mk_delta (Some d) None)) Hrep)
    as (c1 & Hc1 & Hrep1); [simpl; by rewrite fn_lookup_insert|].
  exists c1. split; [exact Hc1|]. restored Hrep1.
Qed.

Lemma undo_delegate_rep c lp l l' id a :
  spec_op (OpDelegate id a) l = Ok l' -> cache_rep c lp l' ->
  exists c', undo (undo_record (OpDelegate id a) l l') c = (c', Ok tt) /\ cache_rep c' lp l.
Proof.
  intros Hspec Hrep. apply spec_delegate_Ok in Hspec as (d & b & pb & s & Hd & Hb & Hpb & Hs & ->).
  cbn [undo undo_record]. unfold undo_delegate_staking; open_binds.
  rewrite (cache_rep_delegation _ _ _ _ Hrep). simpl. rewrite Hd. simpl.
  destruct (sub_delegation_from_pool_share_rep c lp _ (source_pool d) id a
    (l_share l (source_pool d, id)) Hrep) as (c1 & -> & Hrep1);
    [simpl; rewrite fn_lookup_insert; lia|].
  destruct (sub_balance_from_pool_rep c1 lp _ (source_pool d) a
    (l_pool_balance l (source_pool d)) Hrep1) as (c2 & -> & Hrep2);
    [simpl; rewrite fn_lookup_insert; lia|].
  destruct (sub_from_delegation_balance_rep c2 lp _ id a (l_balance l id) Hrep2)
    as (c3 & -> & Hrep3); [simpl; rewrite fn_lookup_insert; lia|].
  exists c3. split; [done|]. restored Hrep3.
Qed.

Lemma undo_spend_rep c lp l l' id a :
  bounded l -> spec_op (OpSpend id a) l = Ok l' -> cache_rep c lp l' ->
  exists c', undo (undo_record (OpSpend id a) l l') c = (c', Ok tt) /\ cache_rep c' lp l.
Proof.
  intros Hbnd Hspec Hrep. apply spec_spend_Ok in Hspec as (d & b & pb & s & Hd & Hb & Hpb & Hs & ->).
  cbn [undo undo_record]. unfold undo_spend_share_from_delegation_id; open_binds.
  rewrite (cache_rep_delegation _ _ _ _ Hrep). simpl. rewrite Hd. simpl.
  destruct (add_to_delegation_balance_rep c lp _ id a (l_balance l id) Hrep) as (c1 & -> & Hrep1).
  { simpl. rewrite fn_lookup_insert. lia. }
  { apply Hbnd. }
  rewrite (cache_rep_exists _ _ _ _ Hrep1). simpl in Hpb |- *.
  case_bool_decide as Hex.
  - destruct (add_balance_to_pool_rep c1 lp _ (source_pool d) a
      (l_pool_balance l (source_pool d)) Hrep1) as (c2 & -> & Hrep2).
    { simpl. rewrite fn_lookup_insert. lia. }
    { apply Hbnd. }
    destruct (add_delegation_to_pool_share_rep c2 lp _ (source_pool d) id a
      (l_share l (source_pool d, id)) Hrep2) as (c3 & -> & Hrep3).
    { simpl. rewrite fn_lookup_insert. lia. }
    { apply Hbnd. }
    exists c3. split; [done|]. restored Hrep3.
  - unfold mret, st_ret. assert (pb = l_pool_balance l (source_pool d)) as -> by (apply bint_eq; lia).
    destruct (add_delegation_to_pool_share_rep c1 lp _ (source_pool d) id a
      (l_share l (source_pool d, id)) Hrep1) as (c3 & -> & Hrep3).
    { simpl. rewrite fn_lookup_insert. lia. }
    { apply Hbnd. }
    exists c3. split; [done|]. restored Hrep3.
Qed.

(** Every operation is undone by its record, in any cache that shows the
    ledger it led to. *)
Lemma undo_op_rep_pos c lp l l' op :
  bounded l -> spec_op op l = Ok l' -> cache_rep c lp l' ->
  exists c', undo (undo_record op l l') c = (c', Ok tt) /\ cache_rep c' lp l.
Proof.
  intros Hb. destruct op.
  - apply undo_create_pool_rep.
  - by apply undo_decommission_rep.
  - apply undo_increase_rep.
  - apply undo_create_delegation_rep.
  - apply undo_delete_delegation_rep.
  - apply undo_delegate_rep.
  - by apply undo_spend_rep.
Qed.
End undoing.

(** * Flushing a cache *)

(** What the database relies on: a storage that keeps what is written, and
    lists the shares of a pool as it stores them. *)
Class ReliablePoSStorage `{CryptoTypes} (S : Type) `{!PoSAccountingStorage S} := {
  pools_of : S -> gmap PoolId PoolData;
  pool_balances_of : S -> gmap PoolId Amount;
  shares_of : S -> gmap (PoolId * DelegationId) Amount;
  balances_of : S -> gmap DelegationId Amount;
  delegations_of : S -> gmap DelegationId DelegationData;
  pools_cell : reliable_cell storage_get_pool_data set_pool_data del_pool_data pools_of
    (same (fun s => (pool_balances_of s, shares_of s, balances_of s, delegations_of s)));
  pool_balances_cell : reliable_cell storage_get_pool_balance set_pool_balance del_pool_balance
    pool_balances_of (same (fun s => (pools_of s, shares_of s, balances_of s, delegations_of s)));
  shares_cell : reliable_cell storage_get_share set_share del_share
    shares_of (same (fun s => (pools_of s, pool_balances_of s, balances_of s, delegations_of s)));
  balances_cell : reliable_cell storage_get_delegation_balance set_delegation_balance
    del_delegation_balance
    balances_of (same (fun s => (pools_of s, pool_balances_of s, shares_of s, delegations_of s)));
  delegations_cell : reliable_cell storage_get_delegation_data set_delegation_data del_delegation_data
    delegations_of (same (fun s => (pools_of s, pool_balances_of s, shares_of s, balances_of s)));
  shares_listing : forall s pool, storage_get_pool_delegations_shares s pool
    = Ok (non_empty (pool_range (shares_of s) pool))
}.

#[global] Instance in_memory_reliable `{CryptoTypes} : ReliablePoSStorage InMemoryPoSAccounting.
Proof.
  refine {| pools_of := mem_pool_data; pool_balances_of := mem_pool_balances;
            shares_of := mem_pool_delegation_shares; balances_of := mem_delegation_balances;
            delegations_of := mem_delegation_data; shares_listing := fun _ _ => eq_refl |};
    split; intros; simpl; unfold same; try (destruct k); eauto.
Defined.

(** What the deltas [d] do. *)
Record delta_rep `{CryptoTypes} (d : PoSAccountingDeltaData) (lp l : Ledger) : Prop := {
  d_pools : data_rep (dd_pool_data d) (l_pool lp) (l_pool l);
  d_pool_balances : balance_rep (dd_pool_balances d) (l_pool_balance lp) (l_pool_balance l);
  d_shares : balance_rep (dd_pool_delegation_shares d) (l_share lp) (l_share l);
  d_balances : balance_rep (dd_delegation_balances d) (l_balance lp) (l_balance l);
  d_delegations : data_rep (dd_delegation_data d) (l_delegation lp) (l_delegation l)
}.

Lemma cache_rep_delta `{CryptoTypes} {P} `{!PoSAccountingView P} (c : PoSAccountingDelta P) lp l :
  cache_rep c lp l -> delta_rep (data c) lp l.
Proof. intros []. by split. Qed.

(** The undo data [u] of a merge of [d]. *)
Record undoes `{CryptoTypes} (u : DeltaMergeUndo) (d : PoSAccountingDeltaData) : Prop := {
  u_pools : pool_data_undo u = invert <$> dd_pool_data d;
  u_delegations : delegation_data_undo u = invert <$> dd_delegation_data d;
  u_pool_balances : canonical (pool_balances_undo u) /\
    forall k, delta_at (pool_balances_undo u) k = - delta_at (dd_pool_balances d) k;
  u_shares : canonical (pool_delegation_shares_undo u) /\
    forall k, delta_at (pool_delegation_shares_undo u) k = - delta_at (dd_pool_delegation_shares d) k;
  u_balances : canonical (delegation_balances_undo u) /\
    forall k, delta_at (delegation_balances_undo u) k = - delta_at (dd_delegation_balances d) k
}.

(** Merging two deltas that fit together. *)
Lemma merge_deltas_rep `{CryptoTypes} b d lpp lp l :
  delta_rep b lpp lp -> delta_rep d lp l ->
  exists b', data_merge_with_delta d b =
      (b', Ok (mk_merge_undo (invert <$> dd_pool_data d) (invert <$> dd_delegation_data d)
        (dd_pool_balances d) (dd_pool_delegation_shares d) (dd_delegation_balances d))) /\
    delta_rep b' lpp l.
Proof.
  intros [H1 H2 H3 H4 H5] [H1' H2' H3' H4' H5'].
  destruct (data_rep_flush _ _ _ _ _ H1 H1') as (t1 & Ht1 & Hr1).
  destruct (balance_rep_flush _ _ _ _ _ H2 H2') as (t2 & Ht2 & Hr2).
  destruct (balance_rep_flush _ _ _ _ _ H3 H3') as (t3 & Ht3 & Hr3).
  destruct (balance_rep_flush _ _ _ _ _ H4 H4') as (t4 & Ht4 & Hr4).
  destruct (data_rep_flush _ _ _ _ _ H5 H5') as (t5 & Ht5 & Hr5).
  exists (mk_delta_data t1 t2 t3 t4 t5). split; [|done].
  unfold data_merge_with_delta, in_pool_data, in_pool_balances, in_shares, in_delegation_balances,
    in_delegation_data, zoom, mbind, st_bind.
  rewrite Ht2. simpl. rewrite Ht3. simpl. rewrite Ht4. simpl. rewrite Ht1. simpl. by rewrite Ht5.
Qed.

Lemma flush_to_cache_pos `{CryptoTypes} {P} `{!PoSAccountingView P}
    (c : PoSAccountingDelta P) d lpp lp l :
  cache_rep c lpp lp -> delta_rep d lp l ->
  exists c', batch_write_delta d c =
      (c', Ok (mk_merge_undo (invert <$> dd_pool_data d) (invert <$> dd_delegation_data d)
        (dd_pool_balances d) (dd_pool_delegation_shares d) (dd_delegation_balances d))) /\
    cache_rep c' lpp l.
Proof.
  intros Hrep Hd. destruct (merge_deltas_rep _ _ _ _ _ (cache_rep_delta _ _ _ Hrep) Hd) as (b' & Hm & Hb').
  exists (mk_cache (parent c) b'). split.
  - unfold batch_write_delta, merge_with_delta, in_data, zoom. by rewrite Hm.
  - destruct Hb'. split; [apply (rep_parent _ _ _ Hrep)|done..].
Qed.

Section db_flush.
Context `{CryptoTypes} {S : Type} `{!PoSAccountingStorage S} `{!ReliablePoSStorage S}.
Implicit Types (s : S) (l lp : Ledger).

(** The storage holds the ledger. *)
Record holds s l : Prop := {
  holds_pools : forall k, pools_of s !! k = l_pool l k;
  holds_pool_balances : forall k, default Amount.ZERO (pool_balances_of s !! k) = l_pool_balance l k;
  holds_shares : forall k, default Amount.ZERO (shares_of s !! k) = l_share l k;
  holds_balances : forall k, default Amount.ZERO (balances_of s !! k) = l_balance l k;
  holds_delegations : forall k, delegations_of s !! k = l_delegation l k
}.

Lemma holds_represents s l : holds s l -> represents (mk_db s) l.
Proof.
  intros [H1 H2 H3 H4 H5]. split; intros; simpl.
  - by rewrite (cell_get _ _ _ _ _ pools_cell), H1.
  - rewrite (cell_get _ _ _ _ _ pools_cell). simpl. by rewrite H1.
  - rewrite (cell_get _ _ _ _ _ pool_balances_cell). simpl. by rewrite H2.
  - pose proof (cell_get _ _ _ _ _ shares_cell s (pool, d)) as Hg.
    unfold storage_get_share in Hg. simpl in Hg. rewrite Hg. simpl. by rewrite H3.
  - rewrite (cell_get _ _ _ _ _ balances_cell). simpl. by rewrite H4.
  - by rewrite (cell_get _ _ _ _ _ delegations_cell), H5.
  - rewrite shares_listing. eexists. split; [done|]. intros d.
    by rewrite non_empty_lookup, pool_range_lookup, H3.
Qed.

Lemma represents_holds s l : represents (mk_db s) l -> holds s l.
Proof.
  intros [H1 _ H2 H3 H4 H5 _]. split; intros k.
  - pose proof (H1 k) as Hk. simpl in Hk. rewrite (cell_get _ _ _ _ _ pools_cell) in Hk.
    by injection Hk.
  - pose proof (H2 k) as Hk. simpl in Hk. rewrite (cell_get _ _ _ _ _ pool_balances_cell) in Hk.
    by injection Hk.
  - destruct k as [pool d]. pose proof (H3 pool d) as Hk. simpl in Hk.
    pose proof (cell_get _ _ _ _ _ shares_cell s (pool, d)) as Hg.
    unfold storage_get_share in Hg. simpl in Hg. rewrite Hg in Hk. by injection Hk.
  - pose proof (H4 k) as Hk. simpl in Hk. rewrite (cell_get _ _ _ _ _ balances_cell) in Hk.
    by injection Hk.
  - pose proof (H5 k) as Hk. simpl in Hk. rewrite (cell_get _ _ _ _ _ delegations_cell) in Hk.
    by injection Hk.
Qed.

(** Merging one collection of the delta into the storage. *)
Lemma merge_data_generic_rep `{BTreeKey K} `{EqDecision V} get set del (obs : S -> gmap K V) frame
    `{!PreOrder frame} (c : DeltaDataCollection K V) s base cur :
  reliable_cell get set del obs frame -> (forall k, obs s !! k = base k) -> data_rep c base cur ->
  exists s', merge_data_generic c get set del s = (s', Ok (invert <$> c)) /\
    (forall k, obs s' !! k = cur k) /\ frame s s'.
Proof.
  intros Hcell Hbase Hrep.
  destruct (store_flush_data AccountingError ViewFail StorageWrite _ _ _ _ _ c s cur Hcell)
    as (s' & l & Hrun & Hcur & Hl & Hfr); [by eapply data_rep_base_ext, Hrep|].
  exists s'. split; [|done]. unfold merge_data_generic. rewrite (st_bind_run _ _ _ _ _ Hrun).
  by rewrite Hl.
Qed.

Lemma undo_data_generic_rep `{BTreeKey K} `{EqDecision V} get set del (obs : S -> gmap K V) frame
    `{!PreOrder frame} (u : DeltaDataUndoCollection K V) s base cur :
  reliable_cell get set del obs frame -> (forall k, obs s !! k = base k) ->
  data_rep (as_delta <$> u) base cur ->
  exists s', undo_merge_data_generic u get set del s = (s', Ok tt) /\
    (forall k, obs s' !! k = cur k) /\ frame s s'.
Proof.
  intros Hcell Hbase Hrep. eapply store_flush_undo_data; [done|done|].
  by eapply data_rep_base_ext, Hrep.
Qed.

Lemma merge_balances_generic_rep `{BTreeKey K} get set del (obs : S -> gmap K Amount) frame
    `{!PreOrder frame} (c : DeltaAmountCollection K) s base cur :
  reliable_cell get set del obs frame ->
  (forall k, default Amount.ZERO (obs s !! k) = base k) -> balance_rep c base cur ->
  exists s' u, merge_balances_generic (btree_iter c) get set del s = (s', Ok u) /\
    (forall k, default Amount.ZERO (obs s' !! k) = cur k) /\
    (canonical u /\ forall k, delta_at u k = - delta_at c k) /\ frame s s'.
Proof.
  intros Hcell Hbase Hrep.
  destruct (store_flush_balance AccountingError ViewFail StorageWrite _ _ _ _ _ c s cur Hcell)
    as (s' & l & Hrun & Hcur & Hl & Hfr); [by eapply balance_rep_base_ext, Hrep|].
  exists s', (btree_collect l). split; [|done].
  unfold merge_balances_generic. by rewrite (st_bind_run _ _ _ _ _ Hrun).
Qed.

Lemma db_merge_rep d s lp l :
  holds s lp -> delta_rep d lp l ->
  exists s' u, db_merge_with_delta d (mk_db s) = (mk_db s', Ok u) /\ holds s' l /\ undoes u d.
Proof.
  intros [H1 H2 H3 H4 H5] [R1 R2 R3 R4 R5].
  destruct (merge_data_generic_rep _ _ _ _ _ _ s _ _ pools_cell H1 R1) as (s1 & E1 & C1 & F1).
  injection F1 as F1b F1s F1d F1g.
  destruct (merge_data_generic_rep _ _ _ _ _ _ s1 _ _ delegations_cell
    ltac:(intros k; rewrite F1g; apply H5) R5) as (s2 & E2 & C2 & F2).
  injection F2 as F2p F2b F2s F2d.
  destruct (merge_balances_generic_rep _ _ _ _ _ _ s2 _ _ pool_balances_cell
    ltac:(intros k; rewrite F2b, F1b; apply H2) R2) as (s3 & u3 & E3 & C3 & N3 & F3).
  injection F3 as F3p F3s F3d F3g.
  destruct (merge_balances_generic_rep _ _ _ _ _ _ s3 _ _ balances_cell
    ltac:(intros k; rewrite F3d, F2d, F1d; apply H4) R4) as (s4 & u4 & E4 & C4 & N4 & F4).
  injection F4 as F4p F4b F4s F4g.
  destruct (merge_balances_generic_rep _ _ _ _ _ _ s4 _ _ shares_cell
    ltac:(intros k; rewrite F4s, F3s, F2s, F1s; apply H3) R3) as (s5 & u5 & E5 & C5 & N5 & F5).
  injection F5 as F5p F5b F5d F5g.
  eexists s5, _. split.
  { unfold db_merge_with_delta, in_store, zoom, mbind, st_bind. cbn [db_store].
    rewrite E1, E2, E3, E4, E5. reflexivity. }
  split; [|by split].
  split; intros k.
  - by rewrite F5p, F4p, F3p, F2p, C1.
  - by rewrite F5b, F4b, C3.
  - apply C5.
  - by rewrite F5d, C4.
  - by rewrite F5g, F4g, F3g, C2.
Qed.

Lemma db_undo_rep d u s lp l :
  holds s l -> delta_rep d lp l -> undoes u d ->
  exists s', db_undo_merge_with_delta u (mk_db s) = (mk_db s', Ok tt) /\ holds s' lp.
Proof.
  intros [H1 H2 H3 H4 H5] [R1 R2 R3 R4 R5] [U1 U5 [K2 U2] [K3 U3] [K4 U4]].
  apply data_rep_inverse in R1. apply data_rep_inverse in R5. rewrite <- U1 in R1. rewrite <- U5 in R5.
  pose proof (balance_rep_inverse _ _ _ _ R2 K2 U2) as R2'.
  pose proof (balance_rep_inverse _ _ _ _ R3 K3 U3) as R3'.
  pose proof (balance_rep_inverse _ _ _ _ R4 K4 U4) as R4'.
  destruct (undo_data_generic_rep _ _ _ _ _ _ s _ _ pools_cell H1 R1) as (s1 & E1 & C1 & F1).
  injection F1 as F1b F1s F1d F1g.
  destruct (undo_data_generic_rep _ _ _ _ _ _ s1 _ _ delegations_cell
    ltac:(intros k; rewrite F1g; apply H5) R5) as (s2 & E2 & C2 & F2).
  injection F2 as F2p F2b F2s F2d.
  destruct (merge_balances_generic_rep _ _ _ _ _ _ s2 _ _ pool_balances_cell
    ltac:(intros k; rewrite F2b, F1b; apply H2) R2') as (s3 & u3 & E3 & C3 & N3 & F3).
  injection F3 as F3p F3s F3d F3g.
  destruct (merge_balances_generic_rep _ _ _ _ _ _ s3 _ _ balances_cell
    ltac:(intros k; rewrite F3d, F2d, F1d; apply H4) R4') as (s4 & u4 & E4 & C4 & N4 & F4).
  injection F4 as F4p F4b F4s F4g.
  destruct (merge_balances_generic_rep _ _ _ _ _ _ s4 _ _ shares_cell
    ltac:(intros k; rewrite F4s, F3s, F2s, F1s; apply H3) R3') as (s5 & u5 & E5 & C5 & N5 & F5).
  injection F5 as F5p F5b F5d F5g.
  exists s5. split.
  { unfold db_undo_merge_with_delta, in_store, zoom, mbind, st_bind. cbn [db_store].
    rewrite E1, E2, E3, E4, E5. reflexivity. }
  split; intros k.
  - by rewrite F5p, F4p, F3p, F2p, C1.
  - by rewrite F5b, F4b, C3.
  - apply C5.
  - by rewrite F5d, C4.
  - by rewrite F5g, F4g, F3g, C2.
Qed.
End db_flush.

(** * Sequences of operations *)

Section traces.
Context `{CryptoTypes} {P : Type} `{!PoSAccountingView P}.
Implicit Types (c : PoSAccountingDelta P) (us : list PoSAccountingUndo).

(** [trace c us c']: successful operations lead from [c] to [c'], with the
    undo records [us], the latest first.  Each leaves balances that can be read: the
    operations themselves do not look whether a balance passes [i128::MAX] or a
    delegation is spent beyond its balance, but what they leave then is an error to
    every query.  And a new pool is fresh for the ledger that is visible when it is
    created: it has no rewards yet, and an id that was not used before. *)
Inductive trace c : list PoSAccountingUndo -> PoSAccountingDelta P -> Prop :=
  | trace_nil : trace c [] c
  | trace_step us c1 l1 op c2 u :
      trace c us c1 -> represents c1 l1 -> op_fresh l1 op ->
      exec_op op c1 = (c2, Ok u) -> balances_readable l1 op c2 -> trace c (u :: us) c2.

(** Disconnecting: the undo records are applied from the latest on. *)
Definition undo_all us : ST (PoSAccountingDelta P) Error unit := try_for_each undo us.
End traces.

Lemma represents_unique `{CryptoTypes} {P} `{!PoSAccountingView P} (p : P) l1 l2 :
  represents p l1 -> represents p l2 -> l1 ≡ l2.
Proof.
  intros [A1 _ A2 A3 A4 A5 _] [B1 _ B2 B3 B4 B5 _]. split; intros k.
  - specialize (A1 k). specialize (B1 k). congruence.
  - specialize (A2 k). specialize (B2 k). congruence.
  - destruct k as [q j]. specialize (A3 q j). specialize (B3 q j). congruence.
  - specialize (A4 k). specialize (B4 k). congruence.
  - specialize (A5 k). specialize (B5 k). congruence.
Qed.

Lemma balances_readable_equiv `{CryptoTypes} {P} `{!PoSAccountingView P} l1 l2 op (c : PoSAccountingDelta P) :
  l1 ≡ l2 -> balances_readable l1 op c -> balances_readable l2 op c.
Proof. intros [E1 E2 E3 E4 E5]. destruct op; simpl; try done. by rewrite E5. Qed.

Lemma op_fresh_equiv `{CryptoTypes} l1 l2 op : l1 ≡ l2 -> op_fresh l1 op -> op_fresh l2 op.
Proof.
  intros [E1 E2 E3 E4 E5]. destruct op; simpl; try done.
  intros [Hr Hs]. split; [done|]. intros j. by rewrite <- E3.
Qed.

(** The ledgers along a trace, and the way back. *)
Lemma trace_ledger_pos `{CryptoTypes} {P P'} `{!PoSAccountingView P, !PoSAccountingView P'}
    (c c' : PoSAccountingDelta P) us D lp l :
  trace c us c' -> cache_rep c lp l -> ledger_inv D l ->
  exists D' l', cache_rep c' lp l' /\ ledger_inv D' l' /\
    forall (d : PoSAccountingDelta P') lpd, cache_rep d lpd l' ->
      exists d', undo_all us d = (d', Ok tt) /\ cache_rep d' lpd l.
Proof.
  intros Htr Hrep Hinv.
  induction Htr as [|us c1 l1' op c2 u Htr (D1 & l1 & Hrep1 & Hinv1 & Hundo) Hshow Hfr Hexec Hread].
  - exists D, l. split; [done|]. split; [done|]. intros d lpd Hd. by exists d.
  - pose proof (represents_unique _ _ _ Hshow (cache_represents_pos _ _ _ Hrep1)) as Heq.
    apply (balances_readable_equiv _ _ _ _ Heq) in Hread.
    pose proof (readable_in_range _ _ _ _ _ _ Hrep1 Hexec Hread) as Hr. apply (op_fresh_equiv _ _ _ Heq) in Hfr.
    destruct (exec_op_inv_pos _ _ _ _ _ _ _ Hrep1 Hinv1 Hr Hexec) as (l2 & Hspec & Hrep2 & ->).
    destruct (spec_op_inv_pos _ _ _ _ Hinv1 Hfr Hspec) as (D2 & Hinv2).
    exists D2, l2. split; [done|]. split; [done|]. intros d lpd Hd.
    destruct (undo_op_rep_pos d lpd l1 l2 op (cache_rep_bounded_pos _ _ _ Hrep1) Hspec Hd) as (d1 & Hd1 & Hrd1).
    destruct (Hundo d1 lpd Hrd1) as (d2 & Hd2 & Hrd2).
    exists d2. split; [|done]. unfold undo_all. simpl. by erewrite st_bind_run.
Qed.

(** Merging deltas into a cache and taking the merge back. *)
Lemma unflush_from_cache `{CryptoTypes} {P} `{!PoSAccountingView P}
    (c : PoSAccountingDelta P) d lpp lp l :
  cache_rep c lpp lp -> delta_rep d lp l ->
  exists c' u c0, merge_with_delta d c = (c', Ok u) /\
    undo_delta_merge u c' = (c0, Ok tt) /\ cache_rep c0 lpp lp.
Proof.
  intros Hrep Hd. destruct (flush_to_cache_pos c d lpp lp l Hrep Hd) as (c' & Hm & _).
  destruct Hrep as [Hp H1 H2 H3 H4 H5], Hd as [H1' H2' H3' H4' H5'].
  destruct (data_rep_flush _ _ _ _ _ H1 H1') as (t1 & Ht1 & _).
  destruct (balance_rep_flush _ _ _ _ _ H2 H2') as (t2 & Ht2 & _).
  destruct (balance_rep_flush _ _ _ _ _ H3 H3') as (t3 & Ht3 & _).
  destruct (balance_rep_flush _ _ _ _ _ H4 H4') as (t4 & Ht4 & _).
  destruct (data_rep_flush _ _ _ _ _ H5 H5') as (t5 & Ht5 & _).
  destruct (data_rep_unflush _ _ _ _ _ _ _ H1 H1' Ht1) as (u1 & Hu1 & R1).
  destruct (data_rep_unflush _ _ _ _ _ _ _ H5 H5' Ht5) as (u5 & Hu5 & R5).
  assert (c' = mk_cache (parent c) (mk_delta_data t1 t2 t3 t4 t5)) as ->.
  { unfold batch_write_delta, merge_with_delta, data_merge_with_delta, in_data, in_pool_data,
      in_pool_balances, in_shares, in_delegation_balances, in_delegation_data, zoom, mbind, st_bind in Hm.
    rewrite Ht2 in Hm; simpl in Hm; rewrite Ht3 in Hm; simpl in Hm; rewrite Ht4 in Hm; simpl in Hm;
      rewrite Ht1 in Hm; simpl in Hm; rewrite Ht5 in Hm; simpl in Hm. by injection Hm. }
  eexists _, _, (mk_cache (parent c) (mk_delta_data u1 (dd_pool_balances (data c))
    (dd_pool_delegation_shares (data c)) (dd_delegation_balances (data c)) u5)).
  split; [exact Hm|]. split; [|by split].
  unfold undo_delta_merge, data_undo_delta_merge, in_data, in_pool_data, in_pool_balances, in_shares,
    in_delegation_balances, in_delegation_data, zoom, mbind, st_bind. simpl.
  rewrite (balance_rep_unflush _ _ _ _ _ _ H2 H2' Ht2). simpl.
  rewrite (balance_rep_unflush _ _ _ _ _ _ H3 H3' Ht3). simpl.
  rewrite (balance_rep_unflush _ _ _ _ _ _ H4 H4' Ht4). simpl. rewrite Hu1. simpl. by rewrite Hu5.
Qed.

(** * A concrete ledger

    An empty in-memory storage; pool 1 is created with a pledge of 100, then
    delegation 7 is created and 50 are delegated to it. *)

Module Example.
#[export] Existing Instance numbered_keys.

Definition store : PoSAccountingDB InMemoryPoSAccounting := mk_db InMemoryPoSAccounting_new.
Abbreviation Cache := (PoSAccountingDelta (PoSAccountingDB InMemoryPoSAccounting)).
Definition empty_ledger : Ledger :=
  mk_ledger (fun _ => None) (fun _ => Amount.ZERO) (fun _ => Amount.ZERO) (fun _ => Amount.ZERO)
    (fun _ => None).
Definition cache : Cache := PoSAccountingDelta_new store.

Lemma store_holds : holds InMemoryPoSAccounting_new empty_ledger.
Proof. by split. Qed.

Lemma store_represents_pos : represents store empty_ledger.
Proof. apply (holds_represents _ _ store_holds). Qed.

Lemma empty_bounded_pos : bounded empty_ledger.
Proof. split; intros id; vm_compute; discriminate. Qed.

Lemma empty_inv_pos : ledger_inv ∅ empty_ledger.
Proof. by split. Qed.

Lemma cache_rep_cache_pos : cache_rep cache empty_ledger empty_ledger.
Proof. apply cache_rep_new_pos; [apply store_represents_pos|apply empty_bounded_pos]. Qed.

Definition pool : PoolData := from_stake_pool_data {|
  sp_pledge := Amount.lit 100; sp_staker := AnyoneCanSpend; sp_vrf_public_key := 3%N;
  sp_decommission_key := AnyoneCanSpend; sp_margin_ratio_per_thousand := @mk_bint 0 1000 50 eq_refl;
  sp_cost_per_block := Amount.ZERO |}.

Definition after (op : PoSOp) (c : Cache) : Cache := (exec_op op c).1.
Definition record_of (op : PoSOp) (c : Cache) : PoSAccountingUndo :=
  match (exec_op op c).2 with Ok u => u | _ => SpendFromShareUndo 0 Amount.ZERO end.
Definition next (op : PoSOp) (l : Ledger) : Ledger :=
  match spec_op op l with Ok l' => l' | _ => l end.

Definition op1 : PoSOp := OpCreatePool 1 pool.
Definition op2 : PoSOp := OpCreateDelegation 1 7 AnyoneCanSpend.
Definition op3 : PoSOp := OpDelegate 7 (Amount.lit 50).
Definition c1 : Cache := after op1 cache.
Definition c2 : Cache := after op2 c1.
Definition c3 : Cache := after op3 c2.
Definition l1 : Ledger := next op1 empty_ledger.
Definition l2 : Ledger := next op2 l1.
Definition l3 : Ledger := next op3 l2.

(** One executed operation. *)
Lemma after_rep op c l D :
  cache_rep c empty_ledger l -> ledger_inv D l -> op_in_range l op -> op_fresh l op ->
  is_ok (spec_op op l) = true ->
  cache_rep (after op c) empty_ledger (next op l) /\ exec_op op c = (after op c, Ok (record_of op c)) /\
  exists D', ledger_inv D' (next op l).
Proof.
  intros Hrep Hinv Hr Hf Hok. pose proof (exec_op_rep_pos c _ l D op Hrep Hinv Hr) as Hex.
  pose proof (fun l' => spec_op_inv_pos D op l l' Hinv Hf) as Hinv'.
  unfold op_follows_rules in Hex. unfold next, after, record_of in *.
  destruct (spec_op op l) as [l'|e|]; [|done|done]. destruct Hex as (c' & Hc' & Hrep').
  rewrite Hc'. split; [done|]. split; [done|]. by apply Hinv'.
Qed.

Lemma c1_rep : cache_rep c1 empty_ledger l1 /\ exec_op op1 cache = (c1, Ok (record_of op1 cache)) /\
  exists D, ledger_inv D l1.
Proof.
  apply (after_rep op1 cache empty_ledger ∅);
    [apply cache_rep_cache_pos|apply empty_inv_pos|vm_compute; discriminate|by split|done].
Qed.

Lemma c2_rep : cache_rep c2 empty_ledger l2 /\ exec_op op2 c1 = (c2, Ok (record_of op2 c1)) /\
  exists D, ledger_inv D l2.
Proof.
  destruct c1_rep as (Hrep & _ & D & Hinv). by apply (after_rep op2 c1 l1 D).
Qed.

Lemma op3_in_range : op_in_range l2 op3.
Proof. split; vm_compute; discriminate. Qed.

Lemma c3_rep : cache_rep c3 empty_ledger l3 /\ exec_op op3 c2 = (c3, Ok (record_of op3 c2)) /\
  exists D, ledger_inv D l3.
Proof.
  destruct c2_rep as (Hrep & _ & D & Hinv).
  by apply (after_rep op3 c2 l2 D); [done|done|apply op3_in_range|..].
Qed.

Example runs :
  cache_get_pool_balance c3 1 = Ok (Amount.lit 150) /\
  cache_get_pool_delegations_shares c3 1 = Ok (Some {[7%N := Amount.lit 50]}).
Proof. split; vm_compute; reflexivity. Qed.
End Example.

(** * Main properties *)

Section properties.
Context `{CryptoTypes} {P : Type} `{!PoSAccountingView P}.

(** C36: every operation of the proof-of-stake cache (create and decommission
    a pool, reward its staker, create, delete, fund and spend a delegation)
    does to the visible ledger exactly what the rules say.  If the rules refuse it,
    it fails with the ruled error and changes nothing.  If they do not, and the
    balances stay in range (no balance above [i128::MAX], nothing spent beyond the
    balance of the delegation), it succeeds with the ruled new ledger and undo
    record.  Out of range the rules say nothing, and the operation may succeed all the
    same, as it does not look at the balances it changes; but then one of these
    balances can not be read afterwards. *)
Theorem pos_operations_follow_rules (c : PoSAccountingDelta P) D lp l op :
  cache_rep c lp l -> ledger_inv D l ->
  match spec_op op l with
  | Ok l' => op_in_range l op ->
      exists c', exec_op op c = (c', Ok (undo_record op l l')) /\ cache_rep c' lp l'
  | Err e => exec_op op c = (c, Err e)
  | Panic => ~ op_in_range l op
  end /\
  (~ op_in_range l op -> forall c' u, exec_op op c = (c', Ok u) -> ~ balances_readable l op c').
Proof.
  intros Hrep Hinv. split; [|intros Hr c' u Hrun Hread; by eapply Hr, readable_in_range].
  pose proof (exec_op_rep_pos c lp l D op Hrep Hinv) as Hex. unfold op_follows_rules in Hex.
  destruct (spec_op op l) as [l'|e|] eqn:Hs; [done|by eapply exec_op_refused|done].
Qed.

(** C37: whatever operations are executed, as long as they leave balances that can
    be read and new pools are fresh (the conditions of [trace]), the books stay
    balanced: the listed shares of a pool are the balances of the delegations to it, and the
    balance of an existing pool is its pledge plus its rewards plus the sum of
    those shares. *)
Theorem pos_books_balance (c c' : PoSAccountingDelta P) us D lp l :
  cache_rep c lp l -> ledger_inv D l -> trace c us c' ->
  exists D', forall pool, exists data b shares,
    cache_get_pool_data c' pool = Ok data /\ cache_get_pool_balance c' pool = Ok b /\
    cache_get_pool_delegations_shares c' pool = Ok shares /\
    (forall id d, cache_get_delegation_data c' id = Ok (Some d) -> source_pool d = pool ->
       id ∈ D' /\ cache_get_delegation_balance c' id
                    = Ok (default Amount.ZERO (default ∅ shares !! id))) /\
    forall pd, data = Some pd ->
      ival b = ival (pledge_amount pd) + ival (staker_rewards pd)
               + sum_over D' (fun id => ival (default Amount.ZERO (default ∅ shares !! id))).
Proof.
  intros Hrep Hinv Htr.
  destruct (trace_ledger_pos (P' := P) _ _ _ _ _ _ Htr Hrep Hinv) as (D' & l' & Hrep' & Hinv' & _).
  exists D'. intros pool. destruct (cache_rep_listing _ _ _ pool Hrep') as (o & Ho & Hlist).
  exists (l_pool l' pool), (l_pool_balance l' pool), o.
  split; [by eapply cache_rep_pool|]. split; [by eapply cache_rep_pool_balance|]. split; [done|]. split.
  - intros id d. rewrite (cache_rep_delegation _ _ _ _ Hrep'), (cache_rep_balance _ _ _ _ Hrep').
    intros [= Hd] <-. split; [by eapply inv_member|].
    by rewrite (Hlist id), (inv_own_share _ _ _ _ Hinv' Hd).
  - intros pd Hpd. rewrite (inv_pools _ _ Hinv' _ _ Hpd). f_equal. apply sum_over_ext.
    intros id _. by rewrite (Hlist id).
Qed.

(** C38: applying the undo records of a sequence of operations, from the
    latest on, succeeds and shows the ledger from before the sequence, in any
    cache that shows the ledger after it. *)
Theorem pos_undo_restores_ledger {P'} `{!PoSAccountingView P'}
    (c c' : PoSAccountingDelta P) us D lp l :
  cache_rep c lp l -> ledger_inv D l -> trace c us c' ->
  exists l', cache_rep c' lp l' /\
    forall (d : PoSAccountingDelta P') lpd, cache_rep d lpd l' ->
      exists d', undo_all us d = (d', Ok tt) /\ cache_rep d' lpd l.
Proof.
  intros Hrep Hinv Htr.
  destruct (trace_ledger_pos (P' := P') _ _ _ _ _ _ Htr Hrep Hinv) as (D' & l' & Hrep' & _ & Hundo).
  by exists l'.
Qed.

(** Spending more than the balance of a delegation may succeed in the
    cache, but then the balance of the delegation can no longer be read: the
    query with which the transaction verifier ends fails. *)
Theorem pos_overspend_is_detected (c c' : PoSAccountingDelta P) D lp l id a u :
  cache_rep c lp l -> ledger_inv D l -> ival (l_balance l id) < ival a ->
  spend_share_from_delegation_id id a c = (c', Ok u) ->
  cache_get_delegation_balance c' id = Err (AccountingError ArithmeticErrorSumToUnsignedFailed).
Proof.
  intros Hrep Hinv Hlt Hrun. unfold spend_share_from_delegation_id in Hrun.
  apply st_bind_Ok in Hrun as (od & s1 & Hg & Hrun). apply gets_Ok in Hg as [-> Hg].
  apply st_bind_Ok in Hrun as (d & s2 & Hl & Hrun). apply lift_Ok in Hl as [-> Hl].
  apply st_bind_Ok in Hrun as ([] & s3 & Hsh & Hrun).
  apply st_bind_Ok in Hrun as (ex & s4 & Hex & Hrun). apply gets_Ok in Hex as [-> _].
  apply st_bind_Ok in Hrun as ([] & s5 & Hpb & Hrun).
  apply st_bind_Ok in Hrun as ([] & s6 & Hb & Hrun). apply mret_Ok in Hrun as [-> _].
  apply zoom_Ok in Hsh as (d3 & Hsh & ->). apply zoom_Ok in Hsh as (t3 & _ & ->).
  assert (dd_delegation_balances (data s5) = dd_delegation_balances (data c) /\ parent s5 = parent c)
    as [Hsame Hpar].
  { destruct ex; [|by apply mret_Ok in Hpb as [-> _]].
    apply zoom_Ok in Hpb as (d4 & Hpb & ->). by apply zoom_Ok in Hpb as (t4 & _ & ->). }
  apply zoom_Ok in Hb as (d6 & Hb & ->). apply zoom_Ok in Hb as (t6 & Hb & ->).
  rewrite Hsame in Hb. apply sub_unsigned_Ok in Hb as (Ha & Hfit & ->).
  unfold cache_get_delegation_balance, view_fail. simpl. rewrite Hpar.
  rewrite (shows_balance _ _ (rep_parent _ _ _ Hrep)). cbn [map_err mbind result_bind].
  destruct (rep_balances _ _ _ Hrep) as [_ Hsum Hbase _]. specialize (Hsum id). specialize (Hbase id).
  pose proof (bint_range (l_balance lp id)). unfold set_delta. rewrite lookup_partial_alter_eq.
  unfold stored. destruct (Z.eqb_spec (delta_at (dd_delegation_balances (data c)) id - ival a) 0) as [|_];
    [lia|].
  destruct (bint_of_Z_is_Some _ Hfit) as (v & -> & Hv).
  rewrite (proj2 (combine_amount_delta_Err (l_balance lp id) v ArithmeticErrorSumToUnsignedFailed));
    [done|]. right; right. split; [done|]. lia.
Qed.

(** C39: delegating to a delegation whose pool was decommissioned succeeds:
    the pool without data gets a balance, and spending the delegation again
    does not take that balance back. *)
Theorem pos_delegate_to_decommissioned_pool (c : PoSAccountingDelta P) D lp l id d a :
  cache_rep c lp l -> ledger_inv D l -> l_delegation l id = Some d ->
  l_pool l (source_pool d) = None -> op_in_range l (OpDelegate id a) -> 0 < ival a ->
  exists c1 c2 b, delegate_staking id a c = (c1, Ok (DelegateStakingUndo id a)) /\
    cache_get_pool_data c1 (source_pool d) = Ok None /\
    cache_get_pool_balance c1 (source_pool d) = Ok b /\ 0 < ival b /\
    spend_share_from_delegation_id id a c1 = (c2, Ok (SpendFromShareUndo id a)) /\
    cache_get_pool_balance c2 (source_pool d) = Ok b.
Proof.
  intros Hrep Hinv Hd Hp Hr Ha.
  destruct (spec_delegate_dead_pool D l id d a Hinv Hd Hp Hr Ha)
    as (l1 & l2 & Hspec1 & Hspec2 & Hr1 & Hp1 & Hpos & Hsame).
  destruct (spec_op_inv_pos D (OpDelegate id a) l l1 Hinv I Hspec1) as (D1 & Hinv1).
  pose proof (exec_op_rep_pos c lp l D (OpDelegate id a) Hrep Hinv Hr) as Hex.
  unfold op_follows_rules in Hex. rewrite Hspec1 in Hex. destruct Hex as (c1 & Hc1 & Hrep1).
  pose proof (exec_op_rep_pos c1 lp l1 D1 (OpSpend id a) Hrep1 Hinv1 Hr1) as Hex.
  unfold op_follows_rules in Hex. rewrite Hspec2 in Hex. destruct Hex as (c2 & Hc2 & Hrep2).
  exists c1, c2, (l_pool_balance l1 (source_pool d)). split; [exact Hc1|].
  split; [by rewrite (cache_rep_pool _ _ _ _ Hrep1), Hp1|].
  split; [by eapply cache_rep_pool_balance|]. split; [done|]. split; [exact Hc2|].
  by rewrite (cache_rep_pool_balance _ _ _ _ Hrep2), Hsame.
Qed.

(** Flushing deltas into a cache always succeeds, the cache then shows
    what the deltas make of its ledger; and taking the merge back with the
    returned undo data succeeds and shows the ledger from before. *)
Theorem pos_cache_merge_and_undo (c : PoSAccountingDelta P) d lpp lp l :
  cache_rep c lpp lp -> delta_rep d lp l ->
  (exists c' u, batch_write_delta d c = (c', Ok u) /\ cache_rep c' lpp l) /\
  exists c' u c0, merge_with_delta d c = (c', Ok u) /\
    undo_delta_merge u c' = (c0, Ok tt) /\ cache_rep c0 lpp lp.
Proof.
  intros Hrep Hd. split; [|by eapply unflush_from_cache].
  destruct (flush_to_cache_pos c d lpp lp l Hrep Hd) as (c' & Hm & Hr). eauto.
Qed.
End properties.

(** Flushing the deltas of a cache into the database over a storage that
    keeps what is written always succeeds, and the database then answers every
    query, the listing of shares included, as the cache did. *)
Theorem pos_flush_to_db `{CryptoTypes} {S} `{!PoSAccountingStorage S} `{!ReliablePoSStorage S}
    (c : PoSAccountingDelta (PoSAccountingDB S)) lp l :
  cache_rep c lp l ->
  exists db' u, db_batch_write_delta (data c) (parent c) = (db', Ok u) /\
    represents db' l /\ undoes u (data c).
Proof.
  intros Hrep. pose proof (rep_parent _ _ _ Hrep) as Hp. destruct (parent c) as [s].
  destruct (db_merge_rep (data c) s lp l (represents_holds _ _ Hp) (cache_rep_delta _ _ _ Hrep))
    as (s' & u & Hm & Hh & Hu).
  exists (mk_db s'), u. split; [exact Hm|]. split; [by apply holds_represents|done].
Qed.

(** The undo data of a flush into the database takes the flush back: the
    undo succeeds on a database that shows the flushed ledger, which then
    shows the ledger from before the flush. *)
Theorem pos_db_undo_reverts_flush `{CryptoTypes} {S} `{!PoSAccountingStorage S}
    `{!ReliablePoSStorage S} (db : PoSAccountingDB S) d u lp l :
  represents db l -> delta_rep d lp l -> undoes u d ->
  exists db', db_undo_merge_with_delta u db = (db', Ok tt) /\ represents db' lp.
Proof.
  intros Hp Hd Hu. destruct db as [s].
  destruct (db_undo_rep d u s lp l (represents_holds _ _ Hp) Hd Hu) as (s' & Hm & Hh).
  exists (mk_db s'). split; [done|by apply holds_represents].
Qed.

(** ** The properties on concrete inputs *)

Module Witnesses.
Import Example.

Lemma pos_operations_follow_rules_witness :
  exec_op (OpDelegate 7 (Amount.lit 50)) cache = (cache, Err DelegateToNonexistingId) /\
  (exists c', exec_op op3 c2 = (c', Ok (undo_record op3 l2 l3)) /\ cache_rep c' empty_ledger l3) /\
  (exec_op (OpSpend 7 (Amount.lit 51)) c3).2 = Ok (record_of (OpSpend 7 (Amount.lit 51)) c3) /\
  ~ balances_readable l3 (OpSpend 7 (Amount.lit 51)) (after (OpSpend 7 (Amount.lit 51)) c3).
Proof.
  destruct c2_rep as (H2 & _ & D2 & I2), c3_rep as (H3 & _ & D3 & I3). split_and!.
  - exact (proj1 (pos_operations_follow_rules cache ∅ empty_ledger empty_ledger
      (OpDelegate 7 (Amount.lit 50)) cache_rep_cache_pos empty_inv_pos)).
  - exact (proj1 (pos_operations_follow_rules c2 D2 empty_ledger l2 op3 H2 I2) op3_in_range).
  - vm_compute. reflexivity.
  - apply (proj2 (pos_operations_follow_rules c3 D3 empty_ledger l3 (OpSpend 7 (Amount.lit 51)) H3 I3))
      with (u := record_of (OpSpend 7 (Amount.lit 51)) c3).
    + intros Hr. vm_compute in Hr. by apply Hr.
    + vm_compute. reflexivity.
Defined.

Definition records : list PoSAccountingUndo :=
  [record_of op3 c2; record_of op2 c1; record_of op1 cache].

Lemma trace_c3 : trace cache records c3.
Proof.
  destruct c1_rep as (H1 & E1 & _), c2_rep as (H2 & E2 & _), c3_rep as (H3 & E3 & _).
  apply trace_step with (c1 := c2) (l1 := l2) (op := op3);
    [|exact (cache_represents_pos _ _ _ H2)|exact I|exact E3|split; eexists; vm_compute; reflexivity].
  apply trace_step with (c1 := c1) (l1 := l1) (op := op2); [|exact (cache_represents_pos _ _ _ H1)|exact I|exact E2|exact I].
  apply trace_step with (c1 := cache) (l1 := empty_ledger) (op := op1);
    [apply trace_nil|exact (cache_represents_pos _ _ _ cache_rep_cache_pos)|by split|exact E1|eexists; vm_compute; reflexivity].
Qed.

Lemma pos_books_balance_witness :
  exists D' : gset DelegationId,
    150 = 100 + 0 + sum_over D' (fun id => ival (default Amount.ZERO
            (({[7%N := Amount.lit 50]} : gmap DelegationId Amount) !! id))).
Proof.
  destruct (pos_books_balance cache c3 records ∅ empty_ledger empty_ledger
    cache_rep_cache_pos empty_inv_pos trace_c3) as (D' & Hall).
  exists D'. destruct (Hall 1%N) as (data & b & shares & Hd & Hb & Hs & _ & Hsum).
  destruct runs as [Hb' Hs']. rewrite Hb' in Hb. rewrite Hs' in Hs.
  injection Hb as <-. injection Hs as <-. vm_compute in Hd. injection Hd as <-.
  exact (Hsum _ eq_refl).
Defined.

Lemma pos_undo_restores_ledger_witness :
  exists l', cache_rep c3 empty_ledger l' /\
    forall (d : Cache) lpd, cache_rep d lpd l' ->
      exists d', undo_all records d = (d', Ok tt) /\ cache_rep d' lpd empty_ledger.
Proof.
  exact (pos_undo_restores_ledger cache c3 records ∅ empty_ledger empty_ledger
    cache_rep_cache_pos empty_inv_pos trace_c3).
Defined.

Lemma pos_overspend_is_detected_witness :
  cache_get_delegation_balance (after (OpSpend 7 (Amount.lit 51)) c3) 7
    = Err (AccountingError ArithmeticErrorSumToUnsignedFailed).
Proof.
  destruct c3_rep as (Hrep & _ & D & Hinv).
  apply (pos_overspend_is_detected c3 _ D empty_ledger l3 7 (Amount.lit 51)
    (record_of (OpSpend 7 (Amount.lit 51)) c3) Hrep Hinv); vm_compute; reflexivity.
Defined.

Definition op4 : PoSOp := OpDecommission 1.
Definition c4 : Cache := after op4 c3.
Definition l4 : Ledger := next op4 l3.

Lemma c4_rep : cache_rep c4 empty_ledger l4 /\ exists D, ledger_inv D l4.
Proof.
  destruct c3_rep as (Hrep & _ & D & Hinv).
  by destruct (after_rep op4 c3 l3 D Hrep Hinv I I eq_refl) as (Hr & _ & Hi).
Qed.

Lemma pos_delegate_to_decommissioned_pool_witness :
  exists c5 b, delegate_staking 7 (Amount.lit 10) c4 = (c5, Ok (DelegateStakingUndo 7 (Amount.lit 10))) /\
    cache_get_pool_data c5 1 = Ok None /\ cache_get_pool_balance c5 1 = Ok b /\ 0 < ival b.
Proof.
  destruct c4_rep as (Hrep & D & Hinv).
  destruct (pos_delegate_to_decommissioned_pool c4 D empty_ledger l4 7
    (DelegationData_new 1 AnyoneCanSpend) (Amount.lit 10) Hrep Hinv)
    as (c5 & c6 & b & H1 & H2 & H3 & H4 & _);
    [reflexivity|reflexivity|split; vm_compute; discriminate|reflexivity|].
  exists c5, b. split; [exact H1|]. split; [exact H2|]. split; [exact H3|exact H4].
Defined.

(** The deltas of [c3], over the empty ledger. *)
Lemma d3_rep : delta_rep (data c3) empty_ledger l3.
Proof. apply cache_rep_delta, c3_rep. Qed.

Lemma pos_cache_merge_and_undo_witness :
  exists c' u, batch_write_delta (data c3) cache = (c', Ok u) /\ cache_rep c' empty_ledger l3.
Proof.
  exact (proj1 (pos_cache_merge_and_undo cache (data c3) empty_ledger empty_ledger l3
    cache_rep_cache_pos d3_rep)).
Defined.

Lemma pos_flush_to_db_witness :
  exists db' u, db_batch_write_delta (data c3) store = (db', Ok u) /\ represents db' l3 /\
    undoes u (data c3).
Proof. exact (pos_flush_to_db c3 empty_ledger l3 (proj1 c3_rep)). Defined.

Lemma pos_db_undo_reverts_flush_witness :
  exists db u db', represents db l3 /\ undoes u (data c3) /\
    db_undo_merge_with_delta u db = (db', Ok tt) /\ represents db' empty_ledger.
Proof.
  destruct (db_merge_rep (data c3) InMemoryPoSAccounting_new empty_ledger l3 store_holds d3_rep)
    as (s & u & _ & Hh & Hu).
  destruct (pos_db_undo_reverts_flush (mk_db s) (data c3) u empty_ledger l3
    (holds_represents _ _ Hh) d3_rep Hu) as (db' & Hrun & Hrep).
  exists (mk_db s), u, db'. split; [exact (holds_represents _ _ Hh)|]. split; [exact Hu|].
  split; [exact Hrun|exact Hrep].
Defined.
End Witnesses.
