(* ===== verification/PoSInterface.v ===== *)
(** * Operations on the ledger of pools, as its clients see them

    [PoSAccountingOperations] is the trait of the same name together with the
    queries its clients use; its laws say that the operations follow the rules
    of the abstract ledger and that their undo records undo them.  A delta over
    a view ([PoSAccountingDelta]) implements it, and so does the adapter of the
    transaction verifier (PoSAdapter.v). *)
From S2P Require Import Prelude Amount Accounting ChainTypes PoS.

(** ** The interface *)

(** The methods of the trait, one per constructor of [PoSOp]. *)
Class PoSAccountingOperations `{CryptoTypes} (S : Type) := {
  ops_pool_data : S -> PoolId -> result Error (option PoolData);
  ops_pool_balance : S -> PoolId -> result Error Amount;
  ops_shares : S -> PoolId -> result Error (option (gmap DelegationId Amount));
  ops_exec : PoSOp -> ST S Error PoSAccountingUndo;
  ops_undo : PoSAccountingUndo -> ST S Error unit
}.

Class PoSOperationsLaws `{CryptoTypes} (S : Type) `{!PoSAccountingOperations S} := {
  ops_rep : S -> Ledger -> Prop;
  ops_bounded s l : ops_rep s l -> bounded l;
  ops_pool_data_ok s l id : ops_rep s l -> ops_pool_data s id = Ok (l_pool l id);
  ops_pool_balance_ok s l id : ops_rep s l -> ops_pool_balance s id = Ok (l_pool_balance l id);
  ops_shares_ok s l pool : ops_rep s l -> exists o, ops_shares s pool = Ok o /\
    lists_shares o (fun d => l_share l (pool, d));
  ops_exec_ok s l D op : ops_rep s l -> ledger_inv D l -> op_in_range l op ->
    match spec_op op l with
    | Ok l' => exists s', ops_exec op s = (s', Ok (undo_record op l l')) /\ ops_rep s' l'
    | Err e => ops_exec op s = (s, Err e)
    | Panic => False
    end;
  ops_undo_ok s l l' op : bounded l -> spec_op op l = Ok l' -> ops_rep s l' ->
    exists s', ops_undo (undo_record op l l') s = (s', Ok tt) /\ ops_rep s' l;
  ops_rep_equiv s l l' : l' ≡ l -> ops_rep s l' -> ops_rep s l
}.

(** ** A delta over a view *)

Section delta.
Context `{CryptoTypes} {P : Type} `{!PoSAccountingView P}.

#[global] Instance delta_ops : PoSAccountingOperations (PoSAccountingDelta P) := {|
  ops_pool_data := cache_get_pool_data;
  ops_pool_balance := cache_get_pool_balance;
  ops_shares := cache_get_pool_delegations_shares;
  ops_exec := exec_op;
  ops_undo := undo
|}.

#[global] Instance delta_laws : PoSOperationsLaws (PoSAccountingDelta P).
Proof.
  refine {| ops_rep := fun c l => exists lp, cache_rep c lp l |}.
  - intros c l [lp Hrep]. by eapply cache_rep_bounded_pos.
  - intros c l id [lp Hrep]. by eapply cache_rep_pool.
  - intros c l id [lp Hrep]. by eapply cache_rep_pool_balance.
  - intros c l pool [lp Hrep]. by eapply cache_rep_listing.
  - intros c l D op [lp Hrep] Hinv Hr. pose proof (exec_op_rep_pos c lp l D op Hrep Hinv Hr) as Hop.
    unfold op_follows_rules in Hop. simpl. destruct (spec_op op l); naive_solver.
  - intros c l l' op Hb Hspec [lp Hrep]. destruct (undo_op_rep_pos c lp l l' op Hb Hspec Hrep) as (c' & ? & ?).
    simpl. eauto.
  - intros c l l' Heq [lp Hrep]. exists lp. by eapply cache_rep_equiv_pos.
Defined.
End delta.

(** ** Sequences of operations on the ledger *)

Section ledger_traces.
Context `{CryptoTypes}.
Implicit Types (l : Ledger) (us : list PoSAccountingUndo).

(** [ledger_trace l us l']: operations within range lead from [l] to [l'], with
    the undo records [us], the latest first. *)
Inductive ledger_trace l : list PoSAccountingUndo -> Ledger -> Prop :=
  | ledger_trace_nil : ledger_trace l [] l
  | ledger_trace_step us l1 op l2 : ledger_trace l us l1 -> bounded l1 -> spec_op op l1 = Ok l2 ->
      ledger_trace l (undo_record op l1 l2 :: us) l2.

Lemma ledger_trace_app l us l1 us' l2 :
  ledger_trace l us l1 -> ledger_trace l1 us' l2 -> ledger_trace l (us' ++ us) l2.
Proof. intros H1 H2. induction H2; [done|]. simpl. by eapply ledger_trace_step. Qed.

Lemma ledger_trace_one l op l' : bounded l -> spec_op op l = Ok l' -> ledger_trace l [undo_record op l l'] l'.
Proof. intros. by apply (ledger_trace_step l []); [apply ledger_trace_nil|..]. Qed.

(** Whatever implements the interface takes a sequence back with its records. *)
Lemma ledger_trace_undo {S} `{!PoSAccountingOperations S} `{!PoSOperationsLaws S} l us l' s :
  ledger_trace l us l' -> ops_rep s l' ->
  exists s', try_for_each ops_undo us s = (s', Ok tt) /\ ops_rep s' l.
Proof.
  intros Htr. revert s. induction Htr as [|us l1 op l2 Htr IH Hb Hspec]; intros s Hs; [by exists s|].
  destruct (ops_undo_ok s l1 l2 op Hb Hspec Hs) as (s1 & Hrun & Hs1).
  destruct (IH s1 Hs1) as (s2 & Hrun2 & Hs2). exists s2. split; [|done]. simpl. by rewrite (st_bind_run _ _ _ _ _ Hrun).
Qed.
End ledger_traces.
