(* ===== verification/Utxo.v ===== *)
(** * The set of unspent outputs

    Models the [utxo] crate: utxos and cache entries with their FRESH and
    DIRTY flags, the layered cache [UtxosCache] (adding, spending, connecting
    and disconnecting transactions and block rewards), flushing a cache into
    another cache or into the database, the initialization of the database
    from the genesis block, and the undo data of a block.  The theorems relate
    a cache to the set of unspent outputs it shows and show that the flags are
    always right, so that no layer loses or duplicates an output. *)
From S2P Require Import Prelude Amount Accounting ChainTypes.

(** ** Utxos ([utxo.rs], [error.rs]) *)

Inductive Error :=
  | OverwritingUtxo
  | FreshUtxoAlreadyExists
  | UtxoAlreadySpent (id : OutPointSourceId)
  | NoUtxoFound
  | NoBlockchainHeightFound
  | MissingBlockRewardUndo (id : BlockId)
  | InvalidBlockRewardOutputType (id : BlockId)
  | TxInputAndUndoMismatch (id : TxId)
  | ViewRead
  | StorageWrite.

Inductive UtxoSource :=
  | Blockchain (h : BlockHeight)
  | Mempool.

Definition is_mempool (s : UtxoSource) : bool :=
  match s with Blockchain _ => false | Mempool => true end.

Definition blockchain_height (s : UtxoSource) : result Error BlockHeight :=
  match s with Blockchain h => Ok h | Mempool => Err NoBlockchainHeightFound end.

Record Utxo `{CryptoTypes} := mk_utxo { output : TxOutput; source : UtxoSource }.
Arguments mk_utxo {_} _ _.

#[global] Instance UtxoSource_eq_dec : EqDecision UtxoSource.
Proof. solve_decision. Defined.
#[global] Instance Utxo_eq_dec `{CryptoTypes} : EqDecision Utxo.
Proof. solve_decision. Defined.

Definition new_for_blockchain `{CryptoTypes} (o : TxOutput) (height : BlockHeight) : Utxo :=
  mk_utxo o (Blockchain height).
Definition new_for_mempool `{CryptoTypes} (o : TxOutput) : Utxo := mk_utxo o Mempool.

(** ** Cache entries ([utxo_entry.rs]) *)

Inductive UtxoStatus `{CryptoTypes} :=
  | Spent
  | Entry (u : Utxo).

Module IsFresh.
Inductive IsFresh := Yes | No.
Definition from (v : bool) : IsFresh := if v then Yes else No.
End IsFresh.
Abbreviation IsFresh := IsFresh.IsFresh.

Module IsDirty.
Inductive IsDirty := Yes | No.
Definition from (v : bool) : IsDirty := if v then Yes else No.
End IsDirty.
Abbreviation IsDirty := IsDirty.IsDirty.

Record UtxoEntry `{CryptoTypes} := mk_entry {
  status : UtxoStatus;
  fresh_flag : IsFresh;
  dirty_flag : IsDirty
}.
Arguments mk_entry {_} _ _ _.

Section entry.
Context `{CryptoTypes}.
Implicit Types e : UtxoEntry.

Definition is_dirty e : bool := match dirty_flag e with IsDirty.Yes => true | IsDirty.No => false end.
Definition is_fresh e : bool := match fresh_flag e with IsFresh.Yes => true | IsFresh.No => false end.
Definition is_spent e : bool := match status e with Spent => true | Entry _ => false end.
Definition entry_utxo e : option Utxo := match status e with Spent => None | Entry u => Some u end.

(** [UtxoEntry::new], which asserts that the flags are a valid combination. *)
Definition UtxoEntry_new {E} (utxo : option Utxo) (f : IsFresh) (d : IsDirty) : result E UtxoEntry :=
  let entry := mk_entry (match utxo with Some u => Entry u | None => Spent end) f d in
  _ ← match status entry with
      | Entry _ => assert_true (negb (is_fresh entry) || is_dirty entry)
      | Spent => assert_true (xorb (is_fresh entry) (is_dirty entry))
      end;
  Ok entry.
End entry.

(** ** Views and transactions ([view.rs]) *)

Class UtxosView `{CryptoTypes} (P : Type) := {
  view_error : Type;
  utxo : P -> UtxoOutPoint -> result view_error (option Utxo);
  has_utxo : P -> UtxoOutPoint -> result view_error bool;
  best_block_hash : P -> result view_error BlockId
}.

Record Transaction `{CryptoTypes} := mk_tx { flags : u128; inputs : list TxInput; outputs : list TxOutput }.
Arguments mk_tx {_} _ _ _.

(** [BlockReward] and [BlockRewardTransactable], whose witness plays no role here. *)
Record BlockReward `{CryptoTypes} := mk_reward { reward_outputs : list TxOutput }.
Record BlockRewardTransactable `{CryptoTypes} := mk_transactable {
  t_inputs : option (list TxInput);
  t_outputs : option (list TxOutput)
}.
Arguments mk_reward {_} _.
Arguments mk_transactable {_} _ _.

(** The id of a transaction is the hash of its encoding. *)
Class TxHash `{CryptoTypes} := get_id : Transaction -> TxId.

Definition should_include_in_utxo_set `{CryptoTypes} (o : TxOutput) : bool :=
  match o with
  | Transfer _ _ | LockThenTransfer _ _ _ | CreateStakePool _ _ | ProduceBlockFromStake _ _
  | IssueNft _ _ _ | Htlc _ _ => true
  | CreateDelegationId _ _ | DelegateStaking _ _ | Burn _ | IssueFungibleToken _ | DataDeposit _
  | CreateOrder _ => false
  end.

(** [idx as u32]. *)
Definition as_u32 (idx : nat) : u32 :=
  match bint_of_Z (Z.of_nat idx mod 2 ^ 32) with Some i => i | None => @mk_bint 0 (2 ^ 32 - 1) 0 eq_refl end.

Definition outpoint (s : OutPointSourceId) (idx : nat) : UtxoOutPoint :=
  {| op_source_id := s; op_output_index := as_u32 idx |}.

(** [iter().enumerate()]. *)
Definition enumerate {A} (l : list A) : list (nat * A) := imap pair l.

(** ** The cache ([cache.rs]) *)

Record ConsumedUtxoCache `{CryptoTypes} := mk_consumed {
  container : gmap UtxoOutPoint UtxoEntry;
  best_block : BlockId
}.
Arguments mk_consumed {_} _ _.

(** The field [memory_usage] is never used by the code. *)
Record UtxosCache `{CryptoTypes} (P : Type) := mk_cache {
  parent : P;
  current_block_hash : BlockId;
  utxos : gmap UtxoOutPoint UtxoEntry
}.
Arguments mk_cache {_ _} _ _ _.
Arguments parent {_ _} _.
Arguments current_block_hash {_ _} _.
Arguments utxos {_ _} _.

(** Undo data ([undo.rs]). *)
Record UtxosTxUndoWithSources `{CryptoTypes} := mk_tx_undo {
  undo_utxos : list (option Utxo);
  undo_sources : list OutPointSourceId
}.
Arguments mk_tx_undo {_} _ _.

Section cache.
Context `{CryptoTypes} `{!TxHash} {P : Type} `{!UtxosView P}.
Abbreviation Cache := (UtxosCache P).

Definition UtxosCache_new (p : P) : result view_error Cache :=
  h ← best_block_hash p; Ok (mk_cache p h ∅).

Definition from_data (p : P) (c : ConsumedUtxoCache) : Cache := mk_cache p (best_block c) (container c).

Definition consume (self : Cache) : ConsumedUtxoCache :=
  mk_consumed (utxos self) (current_block_hash self).

Definition with_utxos (m : gmap UtxoOutPoint UtxoEntry) (self : Cache) : Cache :=
  mk_cache (parent self) (current_block_hash self) m.

Definition set_best_block (h : BlockId) : ST Cache Error unit :=
  modify (fun self => mk_cache (parent self) h (utxos self)).

Definition put (k : UtxoOutPoint) (e : UtxoEntry) : ST Cache Error unit :=
  modify (fun self => with_utxos (<[k:=e]> (utxos self)) self).
Definition remove (k : UtxoOutPoint) : ST Cache Error unit :=
  modify (fun self => with_utxos (delete k (utxos self)) self).

Definition cache_utxo (self : Cache) (k : UtxoOutPoint) : result view_error (option Utxo) :=
  match utxos self !! k with
  | Some res => Ok (entry_utxo res)
  | None => utxo (parent self) k
  end.

Definition cache_has_utxo (self : Cache) (k : UtxoOutPoint) : result view_error bool :=
  (fun u => bool_decide (is_Some u)) <$> cache_utxo self k.

#[global] Instance cache_view : UtxosView Cache := {|
  view_error := view_error;
  utxo := cache_utxo;
  has_utxo := cache_has_utxo;
  best_block_hash := fun self => Ok (current_block_hash self)
|}.

Definition has_utxo_in_cache (self : Cache) (k : UtxoOutPoint) : bool :=
  bool_decide (is_Some (utxos self !! k)).

Definition fetch_utxo_entry (k : UtxoOutPoint) : ST Cache Error (option UtxoEntry) :=
  cached ← gets (fun self => Ok (utxos self !! k));
  match cached with
  | Some res => mret (Some res)
  | None =>
      u ← gets (fun self => map_err (fun _ => ViewRead) (utxo (parent self) k));
      match u with
      | None => mret None
      | Some u =>
          entry ← lift (UtxoEntry_new (Some u) IsFresh.No IsDirty.No);
          _ ← put k entry;
          mret (Some entry)
      end
  end.

Definition add_utxo (k : UtxoOutPoint) (u : Utxo) (possible_overwrite : bool) : ST Cache Error unit :=
  current ← gets (fun self => Ok (utxos self !! k));
  fresh ← lift (match current with
    | None => Ok (negb possible_overwrite)
    | Some curr_entry =>
        if negb possible_overwrite then
          if negb (is_spent curr_entry) then Err OverwritingUtxo
          else Ok (negb (is_dirty curr_entry) || is_fresh curr_entry)
        else Ok (is_fresh curr_entry)
    end);
  new_entry ← lift (UtxoEntry_new (Some u) (IsFresh.from fresh) IsDirty.Yes);
  put k new_entry.

Definition spend_utxo (k : UtxoOutPoint) : ST Cache Error Utxo :=
  entry ← fetch_utxo_entry k;
  entry ← lift (ok_or NoUtxoFound entry);
  _ ← (if is_fresh entry then remove k
       else new_entry ← lift (UtxoEntry_new None IsFresh.No IsDirty.Yes); put k new_entry);
  lift (ok_or (UtxoAlreadySpent (op_source_id k)) (entry_utxo entry)).

(** [get_mut_utxo], with the change [f] that the caller makes through the
    reference. *)
Definition get_mut_utxo (k : UtxoOutPoint) (f : Utxo -> Utxo) : ST Cache Error (option Utxo) :=
  entry ← fetch_utxo_entry k;
  match entry with
  | None => mret None
  | Some entry =>
      match entry_utxo entry with
      | None => mret None
      | Some u =>
          cached ← gets (fun self => Ok (utxos self !! k));
          e ← match cached with
              | Some e => mret e
              | None => lift (UtxoEntry_new (Some u) (IsFresh.from (is_fresh entry))
                                (IsDirty.from (is_dirty entry)))
              end;
          match entry_utxo e with
          | None => mret None
          | Some u => _ ← put k (mk_entry (Entry (f u)) (fresh_flag e) (dirty_flag e)); mret (Some u)
          end
      end
  end.

Definition uncache (k : UtxoOutPoint) : ST Cache Error unit :=
  cached ← gets (fun self => Ok (utxos self !! k));
  match cached with
  | Some entry =>
      if negb (is_fresh entry) && negb (is_dirty entry) then remove k else lift (Err NoUtxoFound)
  | None => lift (Err NoUtxoFound)
  end.
End cache.

(** ** Transactions and block rewards *)

Section transactions.
Context `{CryptoTypes} `{!TxHash} {P : Type} `{!UtxosView P}.
Abbreviation Cache := (UtxosCache P).

Definition add_utxos_from_block_reward (reward : BlockReward) (src : UtxoSource) (block_id : BlockId)
    (check_for_overwrite : bool) : ST Cache Error unit :=
  try_for_each (fun '(idx, out) =>
    let k := outpoint (SourceBlockReward block_id) idx in
    overwrite ← (if check_for_overwrite : bool
                 then gets (fun self => map_err (fun _ => ViewRead) (cache_has_utxo self k))
                 else mret true);
    add_utxo k (mk_utxo out src) overwrite) (enumerate (reward_outputs reward)).

Definition add_utxos_from_tx (tx : Transaction) (src : UtxoSource) (check_for_overwrite : bool) :
    ST Cache Error unit :=
  let id := SourceTransaction (get_id tx) in
  try_for_each (fun '(idx, out) =>
    let k := outpoint id idx in
    has ← gets (fun self => map_err (fun _ => ViewRead) (cache_has_utxo self k));
    let overwrite := check_for_overwrite && has in
    add_utxo k (mk_utxo out src) overwrite)
    (filter (fun e => should_include_in_utxo_set e.2) (enumerate (outputs tx))).

Definition connect_transaction (tx : Transaction) (src : UtxoSource) :
    ST Cache Error UtxosTxUndoWithSources :=
  let sources := omap (fun input =>
    match input with
    | InputUtxo k => Some (op_source_id k)
    | InputAccount _ | InputAccountCommand _ _ | InputOrderAccountCommand _ => None
    end) (inputs tx) in
  us ← try_collect (fun input =>
    match input with
    | InputUtxo k => u ← spend_utxo k; mret (Some u)
    | InputAccount _ | InputAccountCommand _ _ | InputOrderAccountCommand _ => mret None
    end) (inputs tx);
  _ ← add_utxos_from_tx tx src false;
  mret (mk_tx_undo us sources).

Definition disconnect_transaction (tx : Transaction) (tx_undo : list (option Utxo)) :
    ST Cache Error unit :=
  _ ← try_for_each (fun '(i, out) =>
    let k := outpoint (SourceTransaction (get_id tx)) i in
    if should_include_in_utxo_set out then _ ← spend_utxo k; mret tt else mret tt)
    (enumerate (outputs tx));
  _ ← lift (assert_true (bool_decide (length (inputs tx) = length tx_undo)));
  try_for_each (fun '(input, undo) =>
    match undo with
    | None => mret tt
    | Some u =>
        match input with
        | InputUtxo k => add_utxo k u false
        | InputAccount _ | InputAccountCommand _ _ | InputOrderAccountCommand _ =>
            lift (Err (TxInputAndUndoMismatch (get_id tx)))
        end
    end) (zip (inputs tx) tx_undo).

Definition connect_block_transactable (r : BlockRewardTransactable) (block_id : BlockId)
    (height : BlockHeight) : ST Cache Error (option (list Utxo)) :=
  reward_undo ← match t_inputs r with
    | Some ins =>
        us ← try_collect spend_utxo (omap utxo_outpoint ins);
        mret (if decide (us = []) then None else Some us)
    | None => mret None
    end;
  _ ← match t_outputs r with
    | Some outs =>
        try_for_each (fun '(idx, out) =>
          _ ← lift (ensure (should_include_in_utxo_set out) (InvalidBlockRewardOutputType block_id));
          add_utxo (outpoint (SourceBlockReward block_id) idx) (mk_utxo out (Blockchain height)) false)
          (enumerate outs)
    | None => mret tt
    end;
  mret reward_undo.

Definition disconnect_block_transactable (r : BlockRewardTransactable) (block_id : BlockId)
    (reward_undo : option (list Utxo)) : ST Cache Error unit :=
  _ ← match t_outputs r with
    | Some outs =>
        try_for_each (fun '(i, _) =>
          _ ← spend_utxo (outpoint (SourceBlockReward block_id) i); mret tt) (enumerate outs)
    | None => mret tt
    end;
  match t_inputs r with
  | Some ins =>
      block_undo ← lift (ok_or (MissingBlockRewardUndo block_id) reward_undo);
      try_for_each (fun '(tx_in, u) =>
        match tx_in with
        | InputUtxo k => add_utxo k u false
        | InputAccount _ | InputAccountCommand _ _ | InputOrderAccountCommand _ => mret tt
        end) (zip ins block_undo)
  | None => mret tt
  end.

(** ** Flushing into the parent cache *)

Definition batch_write_entry (e : UtxoOutPoint * UtxoEntry) :
    ST (gmap UtxoOutPoint UtxoEntry) Error unit :=
  let '(key, entry) := e in
  if is_dirty entry then
    parent_entry ← gets (fun m => Ok (m !! key));
    match parent_entry with
    | None =>
        if negb (is_fresh entry && is_spent entry) then
          entry_copy ← lift (UtxoEntry_new (entry_utxo entry) (IsFresh.from (is_fresh entry)) IsDirty.Yes);
          modify (insert key entry_copy)
        else mret tt
    | Some parent_entry =>
        if is_fresh entry && negb (is_spent parent_entry) then lift (Err FreshUtxoAlreadyExists)
        else if is_fresh parent_entry && is_spent entry then modify (delete key)
        else
          entry_copy ← lift (UtxoEntry_new (entry_utxo entry)
                               (IsFresh.from (is_fresh parent_entry)) IsDirty.Yes);
          modify (insert key entry_copy)
    end
  else mret tt.

Definition batch_write (c : ConsumedUtxoCache) : ST Cache Error unit :=
  _ ← zoom utxos with_utxos (fun e => e) (try_for_each batch_write_entry (btree_iter (container c)));
  set_best_block (best_block c).
End transactions.

(** ** Storage ([storage/mod.rs], [storage/view_impls.rs], [storage/in_memory.rs]) *)

Class UtxosStorage `{CryptoTypes} (S : Type) := {
  storage_error : Type;
  storage_get_utxo : S -> UtxoOutPoint -> result storage_error (option Utxo);
  get_best_block_for_utxos : S -> result storage_error BlockId;
  set_utxo : UtxoOutPoint -> Utxo -> ST S storage_error unit;
  del_utxo : UtxoOutPoint -> ST S storage_error unit;
  set_best_block_for_utxos : BlockId -> ST S storage_error unit
}.

Record UtxosDB (S : Type) := mk_db { db_store : S }.
Arguments mk_db {_} _.
Arguments db_store {_} _.

Section db.
Context `{CryptoTypes} {S : Type} `{!UtxosStorage S}.

Definition in_store {A} (m : ST S Error A) : ST (UtxosDB S) Error A :=
  zoom db_store (fun s _ => mk_db s) (fun e => e) m.

#[global] Instance db_view : UtxosView (UtxosDB S) := {|
  view_error := storage_error;
  utxo := fun db k => storage_get_utxo (db_store db) k;
  has_utxo := fun db k => (fun u => bool_decide (is_Some u)) <$> storage_get_utxo (db_store db) k;
  best_block_hash := fun db => get_best_block_for_utxos (db_store db)
|}.

Definition db_write_entry (e : UtxoOutPoint * UtxoEntry) : ST S Error unit :=
  let '(k, entry) := e in
  if is_dirty entry then
    match entry_utxo entry with
    | Some u => store_write StorageWrite (set_utxo k u)
    | None => store_write StorageWrite (del_utxo k)
    end
  else mret tt.

Definition db_batch_write (c : ConsumedUtxoCache) : ST (UtxosDB S) Error unit :=
  in_store (
    _ ← try_for_each db_write_entry (btree_iter (container c));
    store_write StorageWrite (set_best_block_for_utxos (best_block c))).

(** [initialize_db], with the id and the outputs of the genesis block; every
    failure is a panic. *)
Definition unwrap {T E A} (m : ST T E A) : ST T Error A := fun s =>
  match m s with (s', Ok a) => (s', Ok a) | (s', _) => (s', Panic) end.

Definition initialize_db (genesis_id : BlockId) (genesis_utxos : list TxOutput) :
    ST (UtxosDB S) Error unit :=
  _ ← zoom db_store (fun s _ => mk_db s) (fun e => e)
        (unwrap (set_best_block_for_utxos genesis_id));
  utxos_cache ← unwrap (gets UtxosCache_new);
  let '(cache, r) := try_for_each (fun '(index, out) =>
      unwrap (add_utxo (outpoint (SourceBlockReward genesis_id) index)
                (new_for_blockchain out (@mk_bint 0 (2 ^ 64 - 1) 0 eq_refl)) false))
      (enumerate genesis_utxos) utxos_cache in
  _ ← lift r;
  unwrap (db_batch_write (consume cache)).
End db.

Record UtxosDBInMemoryImpl `{CryptoTypes} := mk_in_memory {
  mem_store : gmap UtxoOutPoint Utxo;
  mem_best_block_id : BlockId
}.
Arguments mk_in_memory {_} _ _.

#[global] Instance in_memory_storage `{CryptoTypes} : UtxosStorage UtxosDBInMemoryImpl := {|
  storage_error := Error;
  storage_get_utxo := fun s k => Ok (mem_store s !! k);
  get_best_block_for_utxos := fun s => Ok (mem_best_block_id s);
  set_utxo := fun k u => modify (fun s => mk_in_memory (<[k:=u]> (mem_store s)) (mem_best_block_id s));
  del_utxo := fun k => modify (fun s => mk_in_memory (delete k (mem_store s)) (mem_best_block_id s));
  set_best_block_for_utxos := fun h => modify (fun s => mk_in_memory (mem_store s) h)
|}.

(** ** The undo data of a block ([undo.rs]) *)

Inductive UtxosBlockUndoError :=
  | UndoAlreadyExists (id : TxId)
  | UndoAlreadyExistsForReward
  | TxUndoWithDependency (id : TxId).

Record UtxosBlockUndo `{CryptoTypes} := mk_block_undo {
  reward_undo : option (list Utxo);
  tx_undos : gmap TxId (list (option Utxo));
  child_parent_dependencies : gset (TxId * TxId);
  parent_child_dependencies : gset (TxId * TxId)
}.
Arguments mk_block_undo {_} _ _ _ _.

Section block_undo.
Context `{CryptoTypes}.

Definition add_dependency (tx_id : TxId) (b : UtxosBlockUndo) (source_tx_id : TxId) : UtxosBlockUndo :=
  mk_block_undo (reward_undo b) (tx_undos b)
    ({[(tx_id, source_tx_id)]} ∪ child_parent_dependencies b)
    ({[(source_tx_id, tx_id)]} ∪ parent_child_dependencies b).

Definition insert_tx_undo (tx_id : TxId) (u : UtxosTxUndoWithSources) :
    ST UtxosBlockUndo UtxosBlockUndoError unit :=
  existing ← gets (fun self => Ok (tx_undos self !! tx_id));
  match existing with
  | Some _ => lift (Err (UndoAlreadyExists tx_id))
  | None =>
      _ ← modify (fun self => mk_block_undo (reward_undo self) (<[tx_id:=undo_utxos u]> (tx_undos self))
                   (child_parent_dependencies self) (parent_child_dependencies self));
      modify (fun self => foldl (add_dependency tx_id) self (omap get_tx_id (undo_sources u)))
  end.

Definition UtxosBlockUndo_new (r : option (list Utxo)) (undos : gmap TxId UtxosTxUndoWithSources) :
    result UtxosBlockUndoError UtxosBlockUndo :=
  let '(b, res) := try_for_each (fun '(tx_id, u) => insert_tx_undo tx_id u) (btree_iter undos)
                     (mk_block_undo r ∅ ∅ ∅) in
  _ ← res; Ok b.

(** [ConsumedUtxosBlockUndo] and [from_data], whose two loops assert that the
    collections mirror one another (in debug builds). *)
Record ConsumedUtxosBlockUndo := mk_consumed_undo {
  consumed_reward_undo : option (list Utxo);
  consumed_tx_undos : gmap TxId (list (option Utxo));
  consumed_child_parent : gset (TxId * TxId);
  consumed_parent_child : gset (TxId * TxId)
}.

Definition block_undo_consume (b : UtxosBlockUndo) : ConsumedUtxosBlockUndo :=
  mk_consumed_undo (reward_undo b) (tx_undos b) (child_parent_dependencies b) (parent_child_dependencies b).

Definition contains_mirror (s : gset (TxId * TxId)) (p : TxId * TxId) : bool :=
  bool_decide ((p.2, p.1) ∈ s).

Definition block_undo_from_data (d : ConsumedUtxosBlockUndo) : result UtxosBlockUndoError UtxosBlockUndo :=
  _ ← assert_true (forallb (contains_mirror (consumed_parent_child d)) (elements (consumed_child_parent d)));
  _ ← assert_true (forallb (contains_mirror (consumed_child_parent d)) (elements (consumed_parent_child d)));
  Ok (mk_block_undo (consumed_reward_undo d) (consumed_tx_undos d)
        (consumed_child_parent d) (consumed_parent_child d)).
End block_undo.

(** * The set a cache shows *)

Abbreviation UtxoSet := (UtxoOutPoint -> option Utxo).

Definition represents `{CryptoTypes} {P} `{!UtxosView P} (p : P) (U : UtxoSet) : Prop :=
  forall k, utxo p k = Ok (U k).

(** The flags of a cached entry are right, where [p] is what the parent shows:
    an entry is FRESH only if the parent does not have the output, and an
    entry that is not DIRTY agrees with the parent. *)
Definition entry_ok `{CryptoTypes} (p : option Utxo) (e : UtxoEntry) : Prop :=
  match entry_utxo e, is_fresh e, is_dirty e with
  | Some _, true, true => p = None
  | Some _, false, true => True
  | Some u, false, false => p = Some u
  | None, true, false => p = None
  | None, false, true => True
  | _, _, _ => False
  end.

(** The parent of [c] shows [Up], [c] shows [U], and all flags are right. *)
Record cache_rep `{CryptoTypes} {P} `{!UtxosView P} (c : UtxosCache P) (Up U : UtxoSet) : Prop := {
  rep_parent : represents (parent c) Up;
  rep_entries : forall k e, utxos c !! k = Some e -> entry_ok (Up k) e;
  rep_shows : forall k, U k = match utxos c !! k with Some e => entry_utxo e | None => Up k end
}.

Section refinement.
Context `{CryptoTypes} {P : Type} `{!UtxosView P}.
Implicit Types (c : UtxosCache P) (U Up : UtxoSet).

Lemma cache_rep_ext c Up U U' : (forall k, U k = U' k) -> cache_rep c Up U -> cache_rep c Up U'.
Proof. intros Heq [Hp He Hs]. split; [done|done|]. intros k. by rewrite <- Heq. Qed.

Lemma utxo_cache_represents c Up U : cache_rep c Up U -> represents c U.
Proof.
  intros [Hp _ Hs] k. simpl. unfold cache_utxo. rewrite Hs.
  by destruct (utxos c !! k); [|rewrite Hp].
Qed.

Lemma cache_rep_has c Up U k :
  cache_rep c Up U -> cache_has_utxo c k = Ok (bool_decide (is_Some (U k))).
Proof.
  intros Hrep. unfold cache_has_utxo.
  pose proof (utxo_cache_represents _ _ _ Hrep k) as Hk. simpl in Hk. by rewrite Hk.
Qed.

Lemma put_rep c Up U k e :
  cache_rep c Up U -> entry_ok (Up k) e ->
  cache_rep (with_utxos (<[k:=e]> (utxos c)) c) Up (<[k:=entry_utxo e]> U).
Proof.
  intros [Hp He Hs] Hok. split; simpl; [done| |].
  - intros j e'. destruct (decide (k = j)) as [<-|Hne].
    + rewrite lookup_insert_eq. by intros [= <-].
    + rewrite lookup_insert_ne by done. apply He.
  - intros j. destruct (decide (k = j)) as [<-|Hne].
    + by rewrite fn_lookup_insert, lookup_insert_eq.
    + by rewrite fn_lookup_insert_ne, lookup_insert_ne.
Qed.

Lemma remove_rep c Up U k :
  cache_rep c Up U -> cache_rep (with_utxos (delete k (utxos c)) c) Up (<[k:=Up k]> U).
Proof.
  intros [Hp He Hs]. split; simpl; [done| |].
  - intros j e'. rewrite lookup_delete_Some. intros [_ Hj]. by apply He.
  - intros j. destruct (decide (k = j)) as [<-|Hne].
    + by rewrite fn_lookup_insert, lookup_delete_eq.
    + by rewrite fn_lookup_insert_ne, lookup_delete_ne.
Qed.

Lemma insert_same U k j : <[k:=U k]> U j = U j.
Proof. unfold insert, fn_insert. case_decide; by subst. Qed.

(** Fetching brings the entry into the cache and changes nothing visible. *)
Lemma fetch_rep c Up U k :
  cache_rep c Up U ->
  exists c' o, fetch_utxo_entry k c = (c', Ok o) /\ cache_rep c' Up U /\ utxos c' !! k = o /\
    match o with
    | Some e => entry_ok (Up k) e /\ U k = entry_utxo e
    | None => Up k = None /\ U k = None
    end.
Proof.
  intros Hrep. pose proof (rep_shows _ _ _ Hrep k) as Hk.
  unfold fetch_utxo_entry, mbind, st_bind, gets, lift.
  destruct (utxos c !! k) as [e|] eqn:He; simpl in Hk.
  - exists c, (Some e). split; [done|]. split; [done|]. split; [done|]. split; [|done].
    by apply (rep_entries _ _ _ Hrep).
  - rewrite (rep_parent _ _ _ Hrep k). simpl. destruct (Up k) as [u|] eqn:Hu.
    + simpl. eexists _, _. split; [done|]. split; [|split; [apply lookup_insert_eq|done]].
      eapply cache_rep_ext; [|apply (put_rep c Up U k (mk_entry (Entry u) IsFresh.No IsDirty.No) Hrep)].
      * intros j. change (<[k:=Some u]> U j = U j). rewrite <- Hk. apply insert_same.
      * done.
    + by exists c, None.
Qed.

(** ** Adding and spending *)

Lemma add_utxo_rep c Up U k u overwrite :
  cache_rep c Up U -> overwrite = true \/ U k = None ->
  exists c', add_utxo k u overwrite c = (c', Ok tt) /\ cache_rep c' Up (<[k:=Some u]> U).
Proof.
  intros Hrep Hfree. pose proof (rep_shows _ _ _ Hrep k) as Hk.
  unfold add_utxo, mbind, st_bind, gets, lift, result_bind.
  destruct (utxos c !! k) as [e|] eqn:He.
  - pose proof (rep_entries _ _ _ Hrep k e He) as Hok. unfold entry_ok in Hok.
    assert (forall f, (f = true -> Up k = None) ->
      exists c', (let '(s', r) := (c, UtxoEntry_new (Some u) (IsFresh.from f) IsDirty.Yes) in
        match r with Ok e => put k e s' | Err e => (s', Err e) | Panic => (s', Panic) end)
        = (c', Ok tt) /\ cache_rep c' Up (<[k:=Some u]> U)) as Hput.
    { intros f Hf. destruct f; simpl; eexists; (split; [done|]).
      - apply (put_rep c Up U k (mk_entry (Entry u) IsFresh.Yes IsDirty.Yes) Hrep). by apply Hf.
      - by apply (put_rep c Up U k (mk_entry (Entry u) IsFresh.No IsDirty.Yes) Hrep). }
    destruct overwrite; simpl.
    + apply Hput. intros Hf. rewrite Hf in Hok.
      by destruct (entry_utxo e), (is_dirty e).
    + destruct Hfree as [|Hnone]; [done|]. rewrite Hnone in Hk.
      unfold is_spent. unfold entry_utxo in Hk, Hok. destruct (status e); [|done]. simpl.
      apply Hput. by destruct (is_fresh e), (is_dirty e).
  - assert (overwrite = false -> Up k = None) as Hp.
    { intros ->. destruct Hfree as [|Hnone]; congruence. }
    destruct overwrite; simpl; eexists; (split; [done|]).
    + by apply (put_rep c Up U k (mk_entry (Entry u) IsFresh.No IsDirty.Yes) Hrep).
    + apply (put_rep c Up U k (mk_entry (Entry u) IsFresh.Yes IsDirty.Yes) Hrep). by apply Hp.
Qed.

(** The two ways in which spending an output that is not there is reported. *)
Definition not_spendable (k : UtxoOutPoint) (e : Error) : Prop :=
  e = NoUtxoFound \/ e = UtxoAlreadySpent (op_source_id k).

Lemma spend_utxo_rep c Up U k :
  cache_rep c Up U ->
  match U k with
  | Some u => exists c', spend_utxo k c = (c', Ok u) /\ cache_rep c' Up (<[k:=None]> U)
  | None => exists c' e, spend_utxo k c = (c', Err e) /\ not_spendable k e /\ cache_rep c' Up U
  end.
Proof.
  intros Hrep. destruct (fetch_rep c Up U k Hrep) as (c1 & o & Hf & Hrep1 & Ho & Hfetch).
  unfold spend_utxo. rewrite (st_bind_run _ _ _ _ _ Hf).
  destruct o as [e|]; unfold mbind, st_bind, lift; simpl.
  2: { destruct Hfetch as [_ ->]. exists c1, NoUtxoFound. split; [done|]. split; [by left|done]. }
  destruct Hfetch as [Hok Hshow]. unfold entry_ok in Hok.
  destruct (is_fresh e) eqn:Hfr; simpl.
  - assert (Up k = None) as Hp by (by destruct (entry_utxo e), (is_dirty e)).
    pose proof (remove_rep c1 Up U k Hrep1) as Hrem. rewrite Hp in Hrem. rewrite Hshow.
    destruct (entry_utxo e) as [u|]; simpl.
    + eexists. split; [done|]. exact Hrem.
    + eexists _, _. split; [done|]. split; [by right|].
      eapply cache_rep_ext; [|exact Hrem]. intros j. rewrite <- Hshow. apply insert_same.
  - pose proof (put_rep c1 Up U k (mk_entry Spent IsFresh.No IsDirty.Yes) Hrep1 I) as Hput.
    rewrite Hshow. destruct (entry_utxo e) as [u|]; simpl.
    + eexists. split; [done|]. exact Hput.
    + eexists _, _. split; [done|]. split; [by right|].
      eapply cache_rep_ext; [|exact Hput]. intros j. change (<[k:=None]> U j = U j).
      rewrite <- Hshow. apply insert_same.
Qed.
End refinement.

(** * Flushing *)

Section flush.
Context `{CryptoTypes}.
Implicit Types (e : UtxoEntry) (o : option UtxoEntry) (U Up : UtxoSet).

(** What flushing [e] into a cache does to the entry [o] of that cache. *)
Definition write_entry (_ : UtxoOutPoint) o e : result Error (option UtxoEntry) :=
  if is_dirty e then
    match o with
    | None =>
        if negb (is_fresh e && is_spent e)
        then Some <$> UtxoEntry_new (entry_utxo e) (IsFresh.from (is_fresh e)) IsDirty.Yes
        else Ok None
    | Some p =>
        if is_fresh e && negb (is_spent p) then Err FreshUtxoAlreadyExists
        else if is_fresh p && is_spent e then Ok None
        else Some <$> UtxoEntry_new (entry_utxo e) (IsFresh.from (is_fresh p)) IsDirty.Yes
    end
  else Ok o.

Lemma batch_write_entry_step : entry_step write_entry batch_write_entry.
Proof.
  intros k e m. unfold write_entry, batch_write_entry, mbind, st_bind, gets, lift, modify.
  destruct (is_dirty e).
  2: { unfold mret, st_ret. by rewrite partial_alter_self. }
  destruct (m !! k) as [p|] eqn:Hk.
  - destruct (is_fresh e && negb (is_spent p)); [by eexists|].
    destruct (is_fresh p && is_spent e); [done|].
    destruct (UtxoEntry_new _ _ _) as [e'|err|]; simpl; [done|by eexists..].
  - destruct (is_fresh e && is_spent e); simpl.
    { unfold mret, st_ret. by rewrite partial_alter_id. }
    destruct (UtxoEntry_new _ _ _) as [e'|err|]; simpl; [done|by eexists..].
Qed.

(** With the right flags the write succeeds, gives an entry with the right
    flags, and shows what the flushed entry showed. *)
Lemma write_entry_ok k (p : option Utxo) o e :
  (forall q, o = Some q -> entry_ok p q) ->
  entry_ok (match o with Some q => entry_utxo q | None => p end) e ->
  exists o', write_entry k o e = Ok o' /\ (forall e', o' = Some e' -> entry_ok p e') /\
    match o' with Some e' => entry_utxo e' | None => p end = entry_utxo e.
Proof.
  intros Hq He. destruct e as [[|u] [] []]; unfold entry_ok, write_entry in *; cbn in He |- *; try done.
  - exists o. split; [done|]. split; [done|]. by destruct o.
  - destruct o as [q|]; cbn.
    + specialize (Hq q eq_refl). destruct q as [[|v] [] []]; cbn in Hq |- *; try done;
        (eexists; split; [done|]); (split; [|done]); intros e' [= <-]; done.
    + eexists. split; [done|]. split; [|done]. by intros e' [= <-].
  - destruct o as [q|]; cbn.
    + specialize (Hq q eq_refl). destruct q as [[|v] [] []]; cbn in Hq, He |- *; try done;
        (eexists; split; [done|]); (split; [|done]); intros e' [= <-]; done.
    + eexists. split; [done|]. split; [|done]. by intros e' [= <-].
  - destruct o as [q|]; cbn.
    + specialize (Hq q eq_refl). destruct q as [[|v] [] []]; cbn in Hq |- *; try done;
        (eexists; split; [done|]); (split; [|done]); intros e' [= <-]; done.
    + eexists. split; [done|]. split; [|done]. by intros e' [= <-].
  - exists o. split; [done|]. split; [done|]. by destruct o.
Qed.

(** What the entries [m] of a cache make of the set its parent shows. *)
Definition apply_entries (m : gmap UtxoOutPoint UtxoEntry) U : UtxoSet := fun k =>
  match m !! k with Some e => entry_utxo e | None => U k end.

Lemma batch_write_rep {P} `{!UtxosView P} (c : UtxosCache P) Up U child :
  cache_rep c Up U -> (forall k e, container child !! k = Some e -> entry_ok (U k) e) ->
  exists c', batch_write child c = (c', Ok tt) /\
    cache_rep c' Up (apply_entries (container child) U) /\ current_block_hash c' = best_block child.
Proof.
  intros [Hp He Hs] Hchild.
  assert (forall k e, container child !! k = Some e -> exists o',
    write_entry k (utxos c !! k) e = Ok o' /\ (forall e', o' = Some e' -> entry_ok (Up k) e') /\
    match o' with Some e' => entry_utxo e' | None => Up k end = entry_utxo e) as Hw.
  { intros k e Hk. apply write_entry_ok; [intros q; apply He|]. rewrite <- Hs. by apply Hchild. }
  set (m := merge (fun o (x : option UtxoEntry) =>
    match x with
    | Some e => match write_entry (outpoint (SourceTransaction 0) 0) o e with Ok o' => o' | _ => None end
    | None => o
    end) (utxos c) (container child)).
  assert (forall k, m !! k = match container child !! k with
    | Some e => match write_entry k (utxos c !! k) e with Ok o' => o' | _ => None end
    | None => utxos c !! k end) as Hm.
  { intros k. unfold m. rewrite lookup_merge. unfold diag_None.
    by destruct (utxos c !! k), (container child !! k). }
  exists (mk_cache (parent c) (best_block child) m). split; [|split; [split; simpl|done]].
  - unfold batch_write, zoom, mbind, st_bind.
    rewrite (proj2 (try_for_each_btree _ _ (container child) (utxos c) m batch_write_entry_step)); [done|].
    intros k. rewrite Hm. destruct (container child !! k) as [e|] eqn:Hk; [|done].
    by destruct (Hw k e Hk) as (o' & -> & _).
  - done.
  - intros k e'. rewrite Hm. destruct (container child !! k) as [e|] eqn:Hk; [|apply He].
    destruct (Hw k e Hk) as (o' & -> & Hok & _). apply Hok.
  - intros k. rewrite Hm. unfold apply_entries.
    destruct (container child !! k) as [e|] eqn:Hk; [|apply Hs].
    by destruct (Hw k e Hk) as (o' & -> & _ & ->).
Qed.
End flush.

(** ** The database *)

(** What the database relies on: a storage that keeps what is written. *)
Class ReliableUtxosStorage `{CryptoTypes} (S : Type) `{!UtxosStorage S} := {
  utxos_of : S -> gmap UtxoOutPoint Utxo;
  best_block_of : S -> BlockId;
  utxos_cell : reliable_cell storage_get_utxo set_utxo del_utxo utxos_of (same best_block_of);
  best_block_get : forall s, get_best_block_for_utxos s = Ok (best_block_of s);
  best_block_set : forall s h, exists s', set_best_block_for_utxos h s = (s', Ok tt) /\
    best_block_of s' = h /\ utxos_of s' = utxos_of s
}.

#[global] Instance in_memory_reliable_utxo `{CryptoTypes} : ReliableUtxosStorage UtxosDBInMemoryImpl.
Proof.
  refine {| utxos_of := mem_store; best_block_of := mem_best_block_id;
            best_block_get := fun _ => eq_refl |}.
  - split; intros; simpl; unfold same; eauto.
  - intros s h. simpl. eauto.
Defined.

Section db_flush.
Context `{CryptoTypes} {S : Type} `{!UtxosStorage S} `{!ReliableUtxosStorage S}.
Implicit Types (s : S) (U : UtxoSet).

Lemma db_represents s U : represents (mk_db s) U <-> forall k, utxos_of s !! k = U k.
Proof.
  unfold represents. simpl. split; intros Hk k; specialize (Hk k).
  - rewrite (cell_get _ _ _ _ _ utxos_cell) in Hk. congruence.
  - by rewrite (cell_get _ _ _ _ _ utxos_cell), Hk.
Qed.

Lemma db_write_entry_exact :
  step_exact (fun (_ : UtxoOutPoint) (o : option Utxo) e =>
      Ok (E := Error) (if is_dirty e then entry_utxo e else o, tt))
    utxos_of (same best_block_of) (fun e => db_write_entry e ≫= fun _ => mret (e.1, tt)).
Proof.
  intros k e s. unfold db_write_entry, mbind, st_bind, store_write, st_map_err, mret, st_ret.
  destruct (is_dirty e).
  - destruct (entry_utxo e) as [u|].
    + destruct (cell_set _ _ _ _ _ utxos_cell s k u) as (s' & -> & Hrest). by exists s'.
    + destruct (cell_del _ _ _ _ _ utxos_cell s k) as (s' & -> & Hrest). by exists s'.
  - exists s. split; [done|]. split; [|done]. by rewrite partial_alter_self.
Qed.

(** Only DIRTY entries reach the database. *)
Definition apply_dirty (m : gmap UtxoOutPoint UtxoEntry) U : UtxoSet := fun k =>
  match m !! k with Some e => if is_dirty e then entry_utxo e else U k | None => U k end.

Lemma db_batch_write_exact s U child :
  represents (mk_db s) U ->
  exists s', db_batch_write child (mk_db s) = (mk_db s', Ok tt) /\
    represents (mk_db s') (apply_dirty (container child) U) /\ best_block_of s' = best_block child.
Proof.
  rewrite db_represents. intros Hs.
  destruct (try_collect_store _ _ _ _ (container child) s db_write_entry_exact)
    as (s1 & l & Hrun & Hrel & _); [eauto|].
  apply (try_for_each_collect _ fst) in Hrun.
  destruct (best_block_set s1 (best_block child)) as (s2 & Hset & Hbest & Hsame).
  exists s2. split; [|split; [|done]].
  - unfold db_batch_write, in_store, zoom, mbind, st_bind, store_write, st_map_err. simpl.
    by rewrite Hrun, Hset.
  - apply db_represents. intros k. rewrite Hsame. unfold apply_dirty. specialize (Hrel k).
    destruct (container child !! k) as [e|] eqn:Hk; [|destruct Hrel as [-> _]; apply Hs].
    destruct Hrel as (o & [] & [= <-] & -> & _). rewrite Hs. by destruct (is_dirty e).
Qed.

Lemma db_batch_write_rep s U child :
  represents (mk_db s) U -> (forall k e, container child !! k = Some e -> entry_ok (U k) e) ->
  exists s', db_batch_write child (mk_db s) = (mk_db s', Ok tt) /\
    represents (mk_db s') (apply_entries (container child) U) /\ best_block_of s' = best_block child.
Proof.
  intros Hs Hchild. destruct (db_batch_write_exact s U child Hs) as (s' & Hrun & Hrep & Hbest).
  exists s'. split; [done|]. split; [|done]. intros k. rewrite Hrep. unfold apply_dirty, apply_entries.
  destruct (container child !! k) as [e|] eqn:Hk; [|done]. specialize (Hchild k e Hk).
  unfold entry_ok in Hchild. f_equal. by destruct (is_dirty e), (entry_utxo e), (is_fresh e).
Qed.
End db_flush.

(** * Connecting and disconnecting *)

Lemma omap_filter {A B} (p : A -> bool) (f : A -> B) (l : list A) :
  omap (fun x => Some (f x)) (filter (fun x => p x) l) = omap (fun x => if p x then Some (f x) else None) l.
Proof.
  induction l as [|x l IH]; [done|]. rewrite filter_cons. simpl.
  destruct (p x); [rewrite decide_True by done; simpl; f_equal|rewrite decide_False by auto]; exact IH.
Qed.

Section sets.
Context `{CryptoTypes}.
Implicit Types (U : UtxoSet) (l : list (UtxoOutPoint * Utxo)) (ks : list UtxoOutPoint).

Definition add_all l U : UtxoSet := foldl (fun U e => <[e.1:=Some e.2]> U) U l.
Definition remove_all ks U : UtxoSet := foldl (fun U k => <[k:=None]> U) U ks.

Lemma add_all_out l U k : k ∉ l.*1 -> add_all l U k = U k.
Proof.
  revert U. induction l as [|[j u] l IH]; intros U Hk; [done|]. simpl in *.
  rewrite IH by set_solver. apply fn_lookup_insert_ne. set_solver.
Qed.

Lemma add_all_in l U k u : NoDup l.*1 -> (k, u) ∈ l -> add_all l U k = Some u.
Proof.
  revert U. induction l as [|[j v] l IH]; intros U Hnd Hin; [by apply elem_of_nil in Hin|].
  simpl in *. apply NoDup_cons in Hnd as [Hj Hnd]. apply elem_of_cons in Hin as [[= -> ->]|Hin].
  - rewrite add_all_out by done. by rewrite fn_lookup_insert.
  - by apply IH.
Qed.

Lemma remove_all_lookup ks U k : remove_all ks U k = if decide (k ∈ ks) then None else U k.
Proof.
  revert U. induction ks as [|j ks IH]; intros U; simpl; [done|]. rewrite IH.
  unfold insert, fn_insert. repeat case_decide; subst; set_solver.
Qed.

(** Spending the inputs of a transaction, one after the other. *)
Fixpoint spend_inputs (ins : list TxInput) U : option (list (option Utxo) * UtxoSet) :=
  match ins with
  | [] => Some ([], U)
  | i :: ins =>
      match utxo_outpoint i with
      | None => r ← spend_inputs ins U; Some (None :: r.1, r.2)
      | Some k =>
          match U k with
          | None => None
          | Some u => r ← spend_inputs ins (<[k:=None]> U); Some (Some u :: r.1, r.2)
          end
      end
  end.

(** The outputs that an undo list gives back to the inputs. *)
Definition input_pair (e : TxInput * option Utxo) : option (UtxoOutPoint * Utxo) :=
  k ← utxo_outpoint e.1; u ← e.2; Some (k, u).
Definition input_pairs (ins : list TxInput) (us : list (option Utxo)) : list (UtxoOutPoint * Utxo) :=
  omap input_pair (zip ins us).

Lemma spend_inputs_Some ins U us U1 :
  spend_inputs ins U = Some (us, U1) ->
  length ins = length us /\ NoDup (omap utxo_outpoint ins) /\
  (forall k, U1 k = if decide (k ∈ omap utxo_outpoint ins) then None else U k) /\
  (input_pairs ins us).*1 = omap utxo_outpoint ins /\
  (forall k u, (k, u) ∈ input_pairs ins us -> U k = Some u) /\
  (forall i o, (i, o) ∈ zip ins us -> utxo_outpoint i = None -> o = None).
Proof.
  revert U us U1. induction ins as [|i ins IH]; intros U us U1; simpl.
  { intros [= <- <-]. repeat split; try done; [constructor|intros; set_solver..]. }
  destruct (utxo_outpoint i) as [k0|] eqn:Hi.
  - destruct (U k0) as [u0|] eqn:Hu0; [|done].
    destruct (spend_inputs ins _) as [[us' U1']|] eqn:Hrest; [|done]. intros [= <- <-].
    destruct (IH _ _ _ Hrest) as (Hlen & Hnd & HU1 & Hkeys & Hpairs & Hacc). simpl.
    assert (k0 ∉ omap utxo_outpoint ins) as Hk0.
    { rewrite <- Hkeys. intros ([k u] & Hk & Hin)%list_elem_of_fmap. simpl in Hk. subst k.
      apply Hpairs in Hin. by rewrite fn_lookup_insert in Hin. }
    assert (input_pair (i, Some u0) = Some (k0, u0)) as Hp by (unfold input_pair; simpl; by rewrite Hi).
    unfold input_pairs. simpl. rewrite !Hp. simpl.
    split; [lia|]. split; [by constructor|]. split; [|split; [by f_equal|split]].
    + intros k. rewrite HU1. unfold insert, fn_insert. repeat case_decide; subst; set_solver.
    + intros k u [[= -> ->]|Hin]%elem_of_cons; [done|].
      assert (k0 <> k) as Hne.
      { intros ->. apply Hk0. rewrite <- Hkeys. by apply (list_elem_of_fmap_2 fst _ (k, u)). }
      apply Hpairs in Hin. by rewrite fn_lookup_insert_ne in Hin.
    + intros i' o [[= -> ->]|Hin]%elem_of_cons; [congruence|by apply Hacc].
  - destruct (spend_inputs ins U) as [[us' U1']|] eqn:Hrest; [|done]. intros [= <- <-].
    destruct (IH _ _ _ Hrest) as (Hlen & Hnd & HU1 & Hkeys & Hpairs & Hacc). simpl.
    assert (input_pair (i, None) = None) as Hp by (unfold input_pair; simpl; by rewrite Hi).
    unfold input_pairs. simpl. rewrite !Hp. simpl.
    split; [lia|]. repeat (split; [done|]).
    intros i' o [[= -> ->]|Hin]%elem_of_cons; [done|by apply Hacc].
Qed.

(** Giving the outputs back restores the set. *)
Lemma add_back ins U us U1 k :
  spend_inputs ins U = Some (us, U1) -> add_all (input_pairs ins us) U1 k = U k.
Proof.
  intros Hs. destruct (spend_inputs_Some _ _ _ _ Hs) as (_ & Hnd & HU1 & Hkeys & Hpairs & _).
  destruct (decide (k ∈ (input_pairs ins us).*1)) as [Hin|Hout].
  - pose proof Hin as ([k' u] & Hk & Hp)%list_elem_of_fmap. simpl in Hk. subst k'.
    rewrite (add_all_in _ _ k u); [|by rewrite Hkeys|done]. by rewrite (Hpairs _ _ Hp).
  - rewrite add_all_out by done. rewrite HU1, decide_False; [done|]. by rewrite <- Hkeys.
Qed.
End sets.

(** ** Loops over the cache *)

Section loops.
Context `{CryptoTypes} {P : Type} `{!UtxosView P}.
Implicit Types (c : UtxosCache P) (U Up : UtxoSet).

Abbreviation Loop A := (A -> ST (UtxosCache P) Error unit).

(** A loop whose body adds the output [g x], or skips [x]. *)
Definition adds {A} (g : A -> option (UtxoOutPoint * Utxo)) (body : Loop A) (l : list A) : Prop :=
  forall x c Up U, x ∈ l -> cache_rep c Up U ->
    match g x with
    | Some (k, u) => U k = None ->
        exists c', body x c = (c', Ok tt) /\ cache_rep c' Up (<[k:=Some u]> U)
    | None => body x c = (c, Ok tt)
    end.

Lemma adds_rep {A} g (body : Loop A) l c Up U :
  adds g body l -> NoDup (omap g l).*1 -> (forall k, k ∈ (omap g l).*1 -> U k = None) ->
  cache_rep c Up U ->
  exists c', try_for_each body l c = (c', Ok tt) /\ cache_rep c' Up (add_all (omap g l) U).
Proof.
  revert c U. induction l as [|x l IH]; intros c U Hb Hnd Hfree Hrep; [by exists c|].
  pose proof (Hb x c Up U ltac:(left) Hrep) as Hx.
  assert (adds g body l) as Hb' by (intros y ? ? ? Hy; apply Hb; by right).
  simpl in *. destruct (g x) as [[k u]|]; simpl in *.
  - apply NoDup_cons in Hnd as [Hk Hnd]. destruct Hx as (c1 & Hrun & Hrep1); [apply Hfree; by left|].
    rewrite (st_bind_run _ _ _ _ _ Hrun). apply IH; [done|done| |done].
    intros j Hj. rewrite fn_lookup_insert_ne; [apply Hfree; by right|]. by intros ->.
  - rewrite (st_bind_run _ _ _ _ _ Hx). by apply IH.
Qed.

(** A loop whose body spends the output [g x], or skips [x]. *)
Definition spends {A} (g : A -> option UtxoOutPoint) (body : Loop A) (l : list A) : Prop :=
  forall x c, x ∈ l ->
    body x c = match g x with Some k => (spend_utxo k ≫= fun _ => mret tt) c | None => (c, Ok tt) end.

Lemma spends_rep {A} g (body : Loop A) l c Up U :
  spends g body l -> NoDup (omap g l) -> (forall k, k ∈ omap g l -> is_Some (U k)) ->
  cache_rep c Up U ->
  exists c', try_for_each body l c = (c', Ok tt) /\ cache_rep c' Up (remove_all (omap g l) U).
Proof.
  revert c U. induction l as [|x l IH]; intros c U Hb Hnd Hthere Hrep; [by exists c|].
  pose proof (Hb x c ltac:(left)) as Hx.
  assert (spends g body l) as Hb' by (intros y ? Hy; apply Hb; by right).
  simpl in *. destruct (g x) as [k|]; simpl in *.
  - apply NoDup_cons in Hnd as [Hk Hnd]. destruct (Hthere k ltac:(by left)) as [u Hu].
    pose proof (spend_utxo_rep c Up U k Hrep) as Hs. rewrite Hu in Hs. destruct Hs as (c1 & Hrun & Hrep1).
    rewrite (st_bind_run _ _ _ _ _ Hrun) in Hx. rewrite (st_bind_run _ _ _ _ _ Hx). apply IH; [done|done| |done].
    intros j Hj. rewrite fn_lookup_insert_ne; [apply Hthere; by right|]. by intros ->.
  - rewrite (st_bind_run _ _ _ _ _ Hx). by apply IH.
Qed.

(** The loops that spend the inputs follow [spend_inputs]. *)
Lemma try_collect_spend (body : TxInput -> ST (UtxosCache P) Error (option Utxo)) ins c Up U :
  (forall i c, body i c = match utxo_outpoint i with
    | Some k => (spend_utxo k ≫= fun u => mret (Some u)) c
    | None => (c, Ok None)
    end) ->
  cache_rep c Up U ->
  match spend_inputs ins U with
  | Some (us, U1) => exists c', try_collect body ins c = (c', Ok us) /\ cache_rep c' Up U1
  | None => exists c' e k, try_collect body ins c = (c', Err e) /\ Some k ∈ utxo_outpoint <$> ins /\
      not_spendable k e
  end.
Proof.
  intros Hb. revert c U. induction ins as [|i ins IH]; intros c U Hrep; simpl; [by exists c|].
  destruct (utxo_outpoint i) as [k|] eqn:Hi.
  - pose proof (spend_utxo_rep c Up U k Hrep) as Hs. destruct (U k) as [u|].
    + destruct Hs as (c1 & Hrun & Hrep1). specialize (IH c1 _ Hrep1).
      assert (body i c = (c1, Ok (Some u))) as Hbi.
      { rewrite Hb, Hi. by rewrite (st_bind_run _ _ _ _ _ Hrun). }
      rewrite (st_bind_run _ _ _ _ _ Hbi). destruct (spend_inputs ins _) as [[us U1]|]; simpl.
      * destruct IH as (c2 & Hrest & Hrep2). rewrite (st_bind_run _ _ _ _ _ Hrest). by exists c2.
      * destruct IH as (c2 & e & k' & Hrest & Hin & He). exists c2, e, k'.
        unfold mbind, st_bind. rewrite Hrest. split; [done|]. split; [by right|done].
    + destruct Hs as (c1 & e & Hrun & He & _). exists c1, e, k.
      unfold mbind, st_bind. rewrite Hb, Hi. unfold mbind, st_bind. rewrite Hrun.
      split; [done|]. split; [left|done].
  - assert (body i c = (c, Ok None)) as Hbi by by rewrite Hb, Hi.
    rewrite (st_bind_run _ _ _ _ _ Hbi). specialize (IH c U Hrep).
    destruct (spend_inputs ins U) as [[us U1]|]; simpl.
    + destruct IH as (c2 & Hrest & Hrep2). rewrite (st_bind_run _ _ _ _ _ Hrest). by exists c2.
    + destruct IH as (c2 & e & k' & Hrest & Hin & He). exists c2, e, k'.
      unfold mbind, st_bind. rewrite Hrest. split; [done|]. split; [by right|done].
Qed.

Lemma try_collect_spend_keys ks c Up U :
  cache_rep c Up U ->
  match spend_inputs (InputUtxo <$> ks) U with
  | Some (us, U1) => exists c' vs, try_collect spend_utxo ks c = (c', Ok vs) /\ us = Some <$> vs /\
      cache_rep c' Up U1
  | None => exists c' e k, try_collect spend_utxo ks c = (c', Err e) /\ k ∈ ks /\ not_spendable k e
  end.
Proof.
  revert c U. induction ks as [|k ks IH]; intros c U Hrep; csimpl; [by exists c, []|].
  pose proof (spend_utxo_rep c Up U k Hrep) as Hs. destruct (U k) as [u|].
  - destruct Hs as (c1 & Hrun & Hrep1). specialize (IH c1 _ Hrep1).
    rewrite (st_bind_run _ _ _ _ _ Hrun). destruct (spend_inputs (InputUtxo <$> ks) _) as [[us U1]|]; simpl.
    + destruct IH as (c2 & vs & Hrest & -> & Hrep2). rewrite (st_bind_run _ _ _ _ _ Hrest). by exists c2, (u :: vs).
    + destruct IH as (c2 & e & k' & Hrest & Hin & He). exists c2, e, k'.
      unfold mbind, st_bind. rewrite Hrest. split; [done|]. split; [by right|done].
  - destruct Hs as (c1 & e & Hrun & He & _). exists c1, e, k.
    unfold mbind, st_bind. rewrite Hrun. split; [done|]. split; [left|done].
Qed.
End loops.

(** ** The outputs of a transaction or of a block reward *)

Lemma omap_keys_subset {A B K} (g : A -> option (K * B)) (f : A -> K) (l : list A) k :
  (forall x y, g x = Some y -> y.1 = f x) -> k ∈ (omap g l).*1 -> k ∈ f <$> l.
Proof.
  intros Hg ([k' u] & -> & Hin)%list_elem_of_fmap.
  apply list_elem_of_omap in Hin as (x & Hx & Hgx). apply Hg in Hgx as Hk. simpl in *. subst k'.
  by apply list_elem_of_fmap_2.
Qed.

Lemma omap_keys_NoDup {A B K} (g : A -> option (K * B)) (f : A -> K) (l : list A) :
  (forall x y, g x = Some y -> y.1 = f x) -> NoDup (f <$> l) -> NoDup (omap g l).*1.
Proof.
  intros Hg. induction l as [|x l IH]; [done|]. csimpl. intros [Hx Hnd]%NoDup_cons.
  destruct (g x) as [[k u]|] eqn:Hgx; [|by apply IH]. csimpl. constructor; [|by apply IH].
  apply Hg in Hgx as Hk. simpl in Hk. subst k. intros Hin. by apply Hx, (omap_keys_subset g f).
Qed.

Lemma as_u32_val i : Z.of_nat i < 2 ^ 32 -> ival (as_u32 i) = Z.of_nat i.
Proof.
  intros Hi. unfold as_u32. rewrite Z.mod_small by lia.
  destruct (bint_of_Z (Z.of_nat i)) as [b|] eqn:Hb.
  - by apply bint_of_Z_Some in Hb.
  - apply bint_of_Z_None in Hb. lia.
Qed.

Lemma outpoint_inj s i j :
  Z.of_nat i < 2 ^ 32 -> Z.of_nat j < 2 ^ 32 -> outpoint s i = outpoint s j -> i = j.
Proof.
  intros Hi Hj [= Heq]. apply (f_equal ival) in Heq. rewrite !as_u32_val in Heq by done. lia.
Qed.

Lemma enumerate_fst {A} (l : list A) : (enumerate l).*1 = seq 0 (length l).
Proof.
  apply list_eq. intros i. unfold enumerate. rewrite list_lookup_fmap, list_lookup_imap.
  destruct (l !! i) as [x|] eqn:Hi; simpl.
  - rewrite lookup_seq_lt; [done|by apply lookup_lt_Some in Hi].
  - rewrite lookup_seq_ge; [done|by apply lookup_ge_None].
Qed.

Lemma elem_of_enumerate {A} (l : list A) i x : (i, x) ∈ enumerate l -> x ∈ l.
Proof.
  intros [j Hj]%list_elem_of_lookup. unfold enumerate in Hj. rewrite list_lookup_imap in Hj.
  destruct (l !! j) as [y|] eqn:Hl; [|done]. simpl in Hj. injection Hj as <- <-.
  by apply list_elem_of_lookup_2 in Hl.
Qed.

Section outputs.
Context `{CryptoTypes}.
Implicit Types (s : OutPointSourceId) (outs : list TxOutput).

(** At most 2^32 outputs, so that [idx as u32] does not wrap. *)
Definition few {A} (l : list A) : Prop := Z.of_nat (length l) <= 2 ^ 32.

Lemma outpoints_NoDup s outs : few outs -> NoDup ((fun e => outpoint s e.1) <$> enumerate outs).
Proof.
  intros Hfew. change (NoDup ((outpoint s ∘ fst) <$> enumerate outs)).
  rewrite list_fmap_compose, enumerate_fst.
  apply NoDup_fmap_2_strong; [|apply NoDup_seq].
  intros i j Hi%elem_of_seq Hj%elem_of_seq. unfold few in Hfew. apply outpoint_inj; lia.
Qed.

(** The outputs that belong into the set, with their outpoints. *)
Definition included_pair s (src : UtxoSource) (e : nat * TxOutput) : option (UtxoOutPoint * Utxo) :=
  if should_include_in_utxo_set e.2 then Some (outpoint s e.1, mk_utxo e.2 src) else None.
Definition included s src outs : list (UtxoOutPoint * Utxo) :=
  omap (included_pair s src) (enumerate outs).

Lemma included_pair_key s src e y : included_pair s src e = Some y -> y.1 = outpoint s e.1.
Proof. unfold included_pair. destruct (should_include_in_utxo_set _); [|done]. by intros [= <-]. Qed.

Lemma included_NoDup s src outs : few outs -> NoDup (included s src outs).*1.
Proof.
  intros Hfew. apply (omap_keys_NoDup _ (fun e => outpoint s e.1)); [apply included_pair_key|].
  by apply outpoints_NoDup.
Qed.

Lemma included_key s src outs k : k ∈ (included s src outs).*1 -> exists i, k = outpoint s i.
Proof.
  intros Hk. apply (omap_keys_subset _ (fun e => outpoint s e.1)) in Hk; [|apply included_pair_key].
  apply list_elem_of_fmap in Hk as (e & -> & _). eauto.
Qed.

Lemma included_keys s src outs :
  omap (fun e => if should_include_in_utxo_set e.2 then Some (outpoint s e.1) else None) (enumerate outs)
  = (included s src outs).*1.
Proof.
  unfold included. induction (enumerate outs) as [|e l IH]; [done|]. simpl. unfold included_pair at 1.
  destruct (should_include_in_utxo_set e.2); simpl; [f_equal|]; exact IH.
Qed.

(** Spending the outputs takes them out again. *)
Lemma remove_added (l : list (UtxoOutPoint * Utxo)) (U : UtxoSet) k :
  (forall k, k ∈ l.*1 -> U k = None) -> remove_all l.*1 (add_all l U) k = U k.
Proof.
  intros Hfree. rewrite remove_all_lookup. case_decide as Hin; [by rewrite Hfree|]. by apply add_all_out.
Qed.

Lemma added_there (l : list (UtxoOutPoint * Utxo)) (U : UtxoSet) k :
  NoDup l.*1 -> k ∈ l.*1 -> is_Some (add_all l U k).
Proof.
  intros Hnd ([k' u] & -> & Hin)%list_elem_of_fmap. rewrite (add_all_in l U _ u); [by eexists|done|done].
Qed.
End outputs.

(** ** Transactions *)

Section connect.
Context `{CryptoTypes} `{!TxHash} {P : Type} `{!UtxosView P}.
Implicit Types (c : UtxosCache P) (U Up : UtxoSet).

(** No output of this source is in the set: its id is new. *)
Definition unused (s : OutPointSourceId) U : Prop := forall i, U (outpoint s i) = None.

Lemma unused_spent s ins U us U1 : unused s U -> spend_inputs ins U = Some (us, U1) -> unused s U1.
Proof.
  intros Hu Hs i. destruct (spend_inputs_Some _ _ _ _ Hs) as (_ & _ & -> & _). case_decide; [done|apply Hu].
Qed.

Lemma unused_included s src outs U k : unused s U -> k ∈ (included s src outs).*1 -> U k = None.
Proof. intros Hu [i ->]%included_key. apply Hu. Qed.

Lemma add_utxos_from_tx_rep tx src c Up U :
  few (outputs tx) -> unused (SourceTransaction (get_id tx)) U -> cache_rep c Up U ->
  exists c', add_utxos_from_tx tx src false c = (c', Ok tt) /\
    cache_rep c' Up (add_all (included (SourceTransaction (get_id tx)) src (outputs tx)) U).
Proof.
  intros Hfew Hun Hrep. set (s := SourceTransaction (get_id tx)).
  pose (f := fun e : nat * TxOutput => (outpoint s e.1, mk_utxo e.2 src)).
  assert (included s src (outputs tx) = omap (fun e => Some (f e))
    (filter (fun e => should_include_in_utxo_set e.2) (enumerate (outputs tx)))) as Hinc.
  { by rewrite (omap_filter (fun e => should_include_in_utxo_set e.2) f). }
  unfold add_utxos_from_tx. rewrite Hinc. apply adds_rep; [|rewrite <- Hinc; by apply included_NoDup| |done].
  - intros [i out] d Ud V _ Hd Hfree. simpl. unfold mbind at 1, st_bind at 1, gets.
    rewrite (cache_rep_has _ _ _ _ Hd). simpl. apply add_utxo_rep; [done|by right].
  - rewrite <- Hinc. intros k. by apply unused_included.
Qed.

Lemma connect_transaction_rep tx src c Up U :
  few (outputs tx) -> unused (SourceTransaction (get_id tx)) U -> cache_rep c Up U ->
  match spend_inputs (inputs tx) U with
  | Some (us, U1) => exists c',
      connect_transaction tx src c
        = (c', Ok (mk_tx_undo us (op_source_id <$> omap utxo_outpoint (inputs tx)))) /\
      cache_rep c' Up (add_all (included (SourceTransaction (get_id tx)) src (outputs tx)) U1)
  | None => exists c' e k, connect_transaction tx src c = (c', Err e) /\
      Some k ∈ utxo_outpoint <$> inputs tx /\ not_spendable k e
  end.
Proof.
  intros Hfew Hun Hrep. unfold connect_transaction.
  match goal with |- context [try_collect ?b (inputs tx)] =>
    pose proof (try_collect_spend b (inputs tx) c Up U) as Hspend end.
  specialize (Hspend ltac:(by intros [] ?) Hrep).
  destruct (spend_inputs (inputs tx) U) as [[us U1]|] eqn:Hs.
  - destruct Hspend as (c1 & Hrun & Hrep1). rewrite (st_bind_run _ _ _ _ _ Hrun).
    destruct (add_utxos_from_tx_rep tx src c1 Up U1 Hfew (unused_spent _ _ _ _ _ Hun Hs) Hrep1)
      as (c2 & Hadd & Hrep2).
    rewrite (st_bind_run _ _ _ _ _ Hadd). exists c2. split; [|done]. unfold mret, st_ret. do 3 f_equal.
    clear. induction (inputs tx) as [|[] l IH]; csimpl; [done|by f_equal|done..].
  - destruct Hspend as (c1 & e & k & Hrun & Hrest). exists c1, e, k.
    by rewrite (st_bind_fail _ _ _ _ _ Hrun).
Qed.

Lemma disconnect_transaction_rep tx src us c Up U U1 :
  few (outputs tx) -> unused (SourceTransaction (get_id tx)) U ->
  spend_inputs (inputs tx) U = Some (us, U1) ->
  cache_rep c Up (add_all (included (SourceTransaction (get_id tx)) src (outputs tx)) U1) ->
  exists c', disconnect_transaction tx us c = (c', Ok tt) /\ cache_rep c' Up U.
Proof.
  intros Hfew Hun Hs Hrep. pose proof (spend_inputs_Some _ _ _ _ Hs) as (Hlen & Hnd & HU1 & Hkeys & Hpairs & Hacc).
  pose proof (unused_spent _ _ _ _ _ Hun Hs) as Hun1. set (s := SourceTransaction (get_id tx)) in *.
  unfold disconnect_transaction.
  match goal with |- context [try_for_each ?b (enumerate (outputs tx))] =>
    pose proof (spends_rep (fun e => if should_include_in_utxo_set e.2 then Some (outpoint s e.1) else None)
      b (enumerate (outputs tx)) c Up (add_all (included s src (outputs tx)) U1)) as Hspend end.
  rewrite (included_keys s src) in Hspend. destruct Hspend as (c1 & Hrun & Hrep1).
  { intros [i out] d _. simpl. by destruct (should_include_in_utxo_set out). }
  { by apply included_NoDup. }
  { intros k. apply added_there. by apply included_NoDup. }
  { done. }
  rewrite (st_bind_run _ _ _ _ _ Hrun). unfold mbind at 1, st_bind at 1, lift.
  rewrite bool_decide_eq_true_2 by done. simpl.
  apply (cache_rep_ext _ _ _ U1) in Hrep1.
  2: { intros k. apply remove_added. intros j. by apply unused_included. }
  match goal with |- context [try_for_each ?b (zip _ _)] =>
    destruct (adds_rep input_pair b (zip (inputs tx) us) c1 Up U1) as (c2 & Hrun2 & Hrep2) end.
  - intros [i o] d Ud V Hin Hd. unfold input_pair. simpl.
    destruct i as [k|?|? ?|?]; simpl; [destruct o as [u|]; simpl; [|done]|..].
    { intros Hfree. apply add_utxo_rep; [done|by right]. }
    all: by rewrite (Hacc _ _ Hin).
  - fold (input_pairs (inputs tx) us). by rewrite Hkeys.
  - intros k. fold (input_pairs (inputs tx) us). rewrite Hkeys, HU1. intros Hk. by rewrite decide_True.
  - done.
  - exists c2. split; [done|]. eapply cache_rep_ext; [|exact Hrep2]. intros k. by apply add_back.
Qed.
End connect.

(** ** Block rewards *)

Lemma first_failure {A} (p : A -> bool) (l : list A) :
  forallb p l = false -> exists l1 x l2, l = l1 ++ x :: l2 /\ forallb p l1 = true /\ p x = false.
Proof.
  induction l as [|x l IH]; simpl; [done|]. destruct (p x) eqn:Hx; simpl.
  - intros (l1 & y & l2 & -> & Hl1 & Hy)%IH. exists (x :: l1), y, l2. simpl. by rewrite Hx.
  - intros _. by exists [], x, l.
Qed.

Lemma forallb_elem {A} (p : A -> bool) (l : list A) x : forallb p l = true -> x ∈ l -> p x = true.
Proof. intros Hp Hx. rewrite forallb_forall in Hp. apply Hp. by apply list_elem_of_In. Qed.

Lemma enumerate_forallb {A} (p : A -> bool) (l : list A) :
  forallb (fun e => p e.2) (enumerate l) = forallb p l.
Proof.
  apply eq_true_iff_eq. rewrite !forallb_forall. unfold enumerate. split; intros Hp x Hx.
  - apply list_elem_of_In, list_elem_of_lookup in Hx as [i Hi]. apply (Hp (i, x)).
    apply list_elem_of_In, list_elem_of_lookup. exists i. by rewrite list_lookup_imap, Hi.
  - destruct x as [i x]. apply Hp. apply list_elem_of_In. apply list_elem_of_In in Hx.
    by apply elem_of_enumerate in Hx.
Qed.

Lemma try_for_each_app {S E A} (f : A -> ST S E unit) l1 l2 s s1 :
  try_for_each f l1 s = (s1, Ok tt) -> try_for_each f (l1 ++ l2) s = try_for_each f l2 s1.
Proof.
  revert s. induction l1 as [|x l1 IH]; intros s; simpl; [by intros [= ->]|].
  intros (u & s2 & Hx & Hl)%st_bind_Ok. rewrite (st_bind_run _ _ _ _ _ Hx). by apply IH.
Qed.

Section reward.
Context `{CryptoTypes} {P : Type} `{!UtxosView P}.
Implicit Types (c : UtxosCache P) (U Up : UtxoSet) (b : BlockId).

Definition reward_inputs (r : BlockRewardTransactable) : list UtxoOutPoint :=
  omap utxo_outpoint (default [] (t_inputs r)).
Definition reward_outs (r : BlockRewardTransactable) : list TxOutput := default [] (t_outputs r).

Lemma connect_reward_outputs_rep b height outs c Up U :
  few outs -> unused (SourceBlockReward b) U -> cache_rep c Up U ->
  let run := try_for_each (fun '(idx, out) =>
      _ ← lift (ensure (should_include_in_utxo_set out) (InvalidBlockRewardOutputType b));
      add_utxo (outpoint (SourceBlockReward b) idx) (mk_utxo out (Blockchain height)) false)
      (enumerate outs) c in
  if forallb should_include_in_utxo_set outs
  then exists c', run = (c', Ok tt) /\
    cache_rep c' Up (add_all (included (SourceBlockReward b) (Blockchain height) outs) U)
  else exists c', run = (c', Err (InvalidBlockRewardOutputType b)).
Proof.
  intros Hfew Hun Hrep run. subst run. set (s := SourceBlockReward b). set (src := Blockchain height).
  match goal with |- context [try_for_each ?f _] => set (body := f) end.
  assert (forall l, forallb (fun e => should_include_in_utxo_set e.2) l = true ->
    adds (included_pair s src) body l) as Hadds.
  { intros l Hl [i out] d Ud V Hin Hd. pose proof (forallb_elem _ _ _ Hl Hin) as Hi.
    unfold included_pair. simpl in *. rewrite Hi. intros Hfree. unfold mbind, st_bind, lift. simpl.
    apply add_utxo_rep; [done|by right]. }
  rewrite <- enumerate_forallb. destruct (forallb _ _) eqn:Hall.
  - apply adds_rep; [by apply Hadds|by apply included_NoDup| |done].
    intros k. by apply unused_included.
  - apply first_failure in Hall as (l1 & [i out] & l2 & Heq & Hl1 & Hbad).
    pose proof (included_NoDup s src outs Hfew) as Hnd.
    pose proof (unused_included s src outs U) as Hfree.
    unfold included in Hnd, Hfree. rewrite Heq in Hnd, Hfree |- *.
    rewrite omap_app, fmap_app in Hnd, Hfree. apply NoDup_app in Hnd as (Hnd & _ & _).
    destruct (adds_rep (included_pair s src) body l1 c Up U) as (c1 & Hrun & _); [by apply Hadds|done| |done|].
    { intros k Hk. apply Hfree; [done|]. apply elem_of_app. by left. }
    exists c1. rewrite (try_for_each_app _ _ _ _ _ Hrun). simpl in *. apply st_bind_fail.
    unfold mbind, st_bind, lift. by rewrite Hbad.
Qed.
Lemma connect_block_transactable_rep r b height c Up U :
  few (reward_outs r) -> unused (SourceBlockReward b) U -> cache_rep c Up U ->
  match spend_inputs (InputUtxo <$> reward_inputs r) U with
  | Some (us, U1) => exists c' vs, us = Some <$> vs /\
      if forallb should_include_in_utxo_set (reward_outs r)
      then connect_block_transactable r b height c = (c', Ok (if decide (vs = []) then None else Some vs)) /\
        cache_rep c' Up (add_all (included (SourceBlockReward b) (Blockchain height) (reward_outs r)) U1)
      else connect_block_transactable r b height c = (c', Err (InvalidBlockRewardOutputType b))
  | None => exists c' e k, connect_block_transactable r b height c = (c', Err e) /\
      k ∈ reward_inputs r /\ not_spendable k e
  end.
Proof.
  intros Hfew Hun Hrep. unfold connect_block_transactable.
  match goal with |- context [mbind ?f ?m] => 
    assert (match spend_inputs (InputUtxo <$> reward_inputs r) U with
      | Some (us, U1) => exists c' vs, m c = (c', Ok (if decide (vs = []) then None else Some vs)) /\
          us = Some <$> vs /\ cache_rep c' Up U1
      | None => exists c' e k, m c = (c', Err e) /\ k ∈ reward_inputs r /\ not_spendable k e
      end) as Hspend end.
  { pose proof (try_collect_spend_keys (reward_inputs r) c Up U Hrep) as Hk. unfold reward_inputs in *.
    destruct (t_inputs r) as [ins|]; simpl in *; [|by exists c, []].
    destruct (spend_inputs _ U) as [[us U1]|].
    - destruct Hk as (c1 & vs & Hrun & Hrest). rewrite (st_bind_run _ _ _ _ _ Hrun). by exists c1, vs.
    - destruct Hk as (c1 & e & k & Hrun & Hrest). rewrite (st_bind_fail _ _ _ _ _ Hrun). by exists c1, e, k. }
  destruct (spend_inputs _ U) as [[us U1]|] eqn:Hs.
  2: { destruct Hspend as (c1 & e & k & Hrun & Hrest). rewrite (st_bind_fail _ _ _ _ _ Hrun). by exists c1, e, k. }
  destruct Hspend as (c1 & vs & Hrun & -> & Hrep1). rewrite (st_bind_run _ _ _ _ _ Hrun).
  pose proof (connect_reward_outputs_rep b height (reward_outs r) c1 Up U1 Hfew
    (unused_spent _ _ _ _ _ Hun Hs) Hrep1) as Hout. unfold reward_outs in *.
  destruct (t_outputs r) as [outs|]; cbn [default from_option id] in *.
  - destruct (forallb _ outs).
    + destruct Hout as (c2 & Hrun2 & Hrep2). exists c2, vs.
      split; [done|]. by rewrite (st_bind_run _ _ _ _ _ Hrun2).
    + destruct Hout as (c2 & Hrun2). exists c2, vs. split; [done|]. by rewrite (st_bind_fail _ _ _ _ _ Hrun2).
  - by exists c1, vs.
Qed.

Lemma disconnect_reward_outputs_rep s src outs c Up U :
  few outs -> unused s U -> forallb should_include_in_utxo_set outs = true ->
  cache_rep c Up (add_all (included s src outs) U) ->
  exists c1, try_for_each (fun '(i, _) => _ ← spend_utxo (outpoint s i); mret tt) (enumerate outs) c
    = (c1, Ok tt) /\ cache_rep c1 Up U.
Proof.
  intros Hfew Hun Hall Hrep. rewrite <- enumerate_forallb in Hall.
  match goal with |- context [try_for_each ?f _] => set (body := f) end.
  pose proof (spends_rep (fun e => if should_include_in_utxo_set e.2 then Some (outpoint s e.1) else None)
    body (enumerate outs) c Up (add_all (included s src outs) U)) as Hspend.
  rewrite (included_keys s src) in Hspend. destruct Hspend as (c1 & Hrun & Hrep1); [| | |done|].
  - intros [i out] d Hin. pose proof (forallb_elem _ _ _ Hall Hin) as Hi. simpl in *. by rewrite Hi.
  - by apply included_NoDup.
  - intros k. apply added_there. by apply included_NoDup.
  - exists c1. split; [done|]. eapply cache_rep_ext; [|exact Hrep1].
    intros k. apply remove_added. intros j. by apply unused_included.
Qed.

Lemma input_pairs_spent ins (vs : list Utxo) :
  omap (fun e => input_pair (e.1, Some e.2)) (zip ins vs) = input_pairs ins (Some <$> vs).
Proof.
  unfold input_pairs. revert vs. induction ins as [|i ins IH]; intros [|v vs]; [done..|].
  csimpl. by rewrite IH.
Qed.

Lemma disconnect_block_transactable_rep r b height vs c Up U U1 :
  few (reward_outs r) -> unused (SourceBlockReward b) U ->
  forallb should_include_in_utxo_set (reward_outs r) = true ->
  t_inputs r = None \/ t_inputs r = Some (InputUtxo <$> reward_inputs r) /\ reward_inputs r <> [] ->
  spend_inputs (InputUtxo <$> reward_inputs r) U = Some (Some <$> vs, U1) ->
  cache_rep c Up (add_all (included (SourceBlockReward b) (Blockchain height) (reward_outs r)) U1) ->
  exists c', disconnect_block_transactable r b (if decide (vs = []) then None else Some vs) c = (c', Ok tt) /\
    cache_rep c' Up U.
Proof.
  intros Hfew Hun Hall Hins Hs Hrep.
  pose proof (spend_inputs_Some _ _ _ _ Hs) as (Hlen & Hnd & HU1 & Hkeys & _ & _).
  unfold disconnect_block_transactable.
  match goal with |- context [mbind ?f ?m] =>
    assert (exists c1, m c = (c1, Ok tt) /\ cache_rep c1 Up U1) as (c1 & Hrun & Hrep1) end.
  { pose proof (disconnect_reward_outputs_rep _ _ _ c Up U1 Hfew (unused_spent _ _ _ _ _ Hun Hs) Hall Hrep)
      as Hloop. unfold reward_outs in *. destruct (t_outputs r) as [outs|]; simpl in *; [done|by exists c]. }
  rewrite (st_bind_run _ _ _ _ _ Hrun). destruct Hins as [Hnone|[Hsome Hne]].
  - rewrite Hnone. exists c1. split; [done|]. eapply cache_rep_ext; [|exact Hrep1].
    intros k. rewrite HU1. unfold reward_inputs. by rewrite Hnone.
  - rewrite Hsome, decide_False.
    2: { intros ->. rewrite length_fmap in Hlen. simpl in Hlen. by apply Hne, nil_length_inv. }
    unfold mbind at 1, st_bind at 1, lift. simpl.
    match goal with |- context [try_for_each ?f (zip ?l vs)] =>
      destruct (adds_rep (fun e => input_pair (e.1, Some e.2)) f (zip l vs) c1 Up U1) as (c2 & Hrun2 & Hrep2);
      rewrite ?input_pairs_spent, ?Hkeys end; [|done| |done|].
    + intros [i u] d Ud V Hin Hd. apply elem_of_zip_l, list_elem_of_fmap in Hin as (k & -> & _).
      simpl. intros Hfree. apply add_utxo_rep; [done|by right].
    + intros k Hk. by rewrite HU1, decide_True.
    + exists c2. split; [done|]. rewrite input_pairs_spent in Hrep2.
      eapply cache_rep_ext; [|exact Hrep2]. intros k. by apply add_back.
Qed.
End reward.

(** ** Sequences of transactions *)

Section blocks.
Context `{CryptoTypes} `{!TxHash}.
Implicit Types (U Up : UtxoSet) (txs : list Transaction).

(** Connecting transactions in order, and disconnecting them in reverse. *)
Definition connect_all {P} `{!UtxosView P} src txs : ST (UtxosCache P) Error (list UtxosTxUndoWithSources) :=
  try_collect (fun tx => connect_transaction tx src) txs.
Definition disconnect_all {P} `{!UtxosView P} txs undos : ST (UtxosCache P) Error unit :=
  try_for_each (fun '(tx, u) => disconnect_transaction tx (undo_utxos u)) (reverse (zip txs undos)).

(** The transactions are new to the set and have different ids. *)
Definition new_txs txs U : Prop :=
  NoDup (get_id <$> txs) /\
  forall tx, tx ∈ txs -> few (outputs tx) /\ unused (SourceTransaction (get_id tx)) U.

Lemma new_txs_cons tx txs src U us U1 :
  new_txs (tx :: txs) U -> spend_inputs (inputs tx) U = Some (us, U1) ->
  new_txs txs (add_all (included (SourceTransaction (get_id tx)) src (outputs tx)) U1).
Proof.
  intros [Hnd Htxs] Hs. csimpl in Hnd. apply NoDup_cons in Hnd as [Hid Hnd]. split; [done|].
  intros tx' Hin. destruct (Htxs tx' ltac:(by right)) as [Hfew Hun]. split; [done|].
  intros i. rewrite add_all_out; [by apply (unused_spent _ _ _ _ _ Hun Hs)|].
  intros [j [= Hid' _]]%included_key. apply Hid. rewrite <- Hid'. by apply list_elem_of_fmap_2.
Qed.

Lemma connect_all_rep {P} `{!UtxosView P} src txs (c c' : UtxosCache P) Up U undos :
  new_txs txs U -> cache_rep c Up U -> connect_all src txs c = (c', Ok undos) ->
  exists U', cache_rep c' Up U' /\
    forall Q (view : UtxosView Q) (d : UtxosCache Q) Uq, cache_rep d Uq U' ->
      exists d', disconnect_all txs undos d = (d', Ok tt) /\ cache_rep d' Uq U.
Proof.
  revert c U undos. induction txs as [|tx txs IH]; intros c U undos Hnew Hrep; unfold connect_all; simpl.
  { intros [= <- <-]. exists U. split; [done|]. intros Q ? d Uq Hd. by exists d. }
  destruct (proj2 Hnew tx ltac:(by left)) as [Hfew Hun].
  pose proof (connect_transaction_rep tx src c Up U Hfew Hun Hrep) as Hconn.
  destruct (spend_inputs (inputs tx) U) as [[us U1]|] eqn:Hs.
  2: { destruct Hconn as (c1 & e & k & Hrun & _). by rewrite (st_bind_fail _ _ _ _ _ Hrun). }
  destruct Hconn as (c1 & Hrun & Hrep1). rewrite (st_bind_run _ _ _ _ _ Hrun).
  intros (undos' & c2 & Hrest & [-> <-]%mret_Ok)%st_bind_Ok.
  destruct (IH _ _ _ (new_txs_cons _ _ src _ _ _ Hnew Hs) Hrep1 Hrest) as (U' & Hrep2 & Hback).
  exists U'. split; [done|]. intros Q ? d Uq Hd.
  destruct (Hback Q _ d Uq Hd) as (d1 & Hd1 & Hrepd1).
  destruct (disconnect_transaction_rep tx src us d1 Uq U U1 Hfew Hun Hs Hrepd1) as (d2 & Hd2 & Hrepd2).
  exists d2. split; [|done]. unfold disconnect_all in *. simpl. rewrite reverse_cons.
  rewrite (try_for_each_app _ _ _ _ _ Hd1). simpl. by rewrite (st_bind_run _ _ _ _ _ Hd2).
Qed.
End blocks.

(** ** The genesis block *)

Section genesis.
Context `{CryptoTypes} {S : Type} `{!UtxosStorage S} `{!ReliableUtxosStorage S}.

Lemma try_for_each_keeps {T E A B} (g : T -> B) (f : A -> ST T E unit) l s :
  (forall x s, g (f x s).1 = g s) -> g (try_for_each f l s).1 = g s.
Proof.
  intros Hf. revert s. induction l as [|x l IH]; intros s; [done|]. simpl. unfold mbind, st_bind.
  specialize (Hf x s). destruct (f x s) as [s1 [[]|e|]]; [by rewrite IH|done..].
Qed.

Lemma add_utxo_keeps {P} `{!UtxosView P} k u overwrite (c : UtxosCache P) :
  current_block_hash (add_utxo k u overwrite c).1 = current_block_hash c.
Proof.
  unfold add_utxo, mbind, st_bind, gets, lift, result_bind.
  destruct (utxos c !! k) as [[[|v] [] []]|], overwrite; done.
Qed.

(** All outputs of the genesis block, with their outpoints. *)
Definition genesis_pair (id : BlockId) (e : nat * TxOutput) : UtxoOutPoint * Utxo :=
  (outpoint (SourceBlockReward id) e.1, new_for_blockchain e.2 (@mk_bint 0 (2 ^ 64 - 1) 0 eq_refl)).
Definition genesis_set (id : BlockId) (outs : list TxOutput) : UtxoSet :=
  add_all (omap (fun e => Some (genesis_pair id e)) (enumerate outs)) (fun _ => None).

Lemma initialize_db_rep (s : S) id outs :
  utxos_of s = ∅ -> few outs ->
  exists s', initialize_db id outs (mk_db s) = (mk_db s', Ok tt) /\
    represents (mk_db s') (genesis_set id outs) /\ best_block_of s' = id.
Proof.
  intros Hempty Hfew. destruct (best_block_set s id) as (s1 & Hset & Hbest & Hsame).
  unfold initialize_db. erewrite st_bind_run by (unfold zoom, unwrap; simpl; by rewrite Hset).
  erewrite st_bind_run by (unfold unwrap, gets, UtxosCache_new; simpl; rewrite best_block_get; done).
  rewrite Hbest.
  assert (cache_rep (mk_cache (mk_db s1) id ∅) (fun _ => None) (fun _ => None)) as Hrep.
  { split; simpl; [|by intros ? ?|done]. apply db_represents. intros k. by rewrite Hsame, Hempty. }
  match goal with |- context [try_for_each ?f (enumerate outs)] =>
    destruct (adds_rep (fun e => Some (genesis_pair id e)) f (enumerate outs)
      (mk_cache (mk_db s1) id ∅) (fun _ => None) (fun _ => None)) as (c & Hrun & Hc); [| | |exact Hrep|];
    pose proof (try_for_each_keeps current_block_hash f (enumerate outs) (mk_cache (mk_db s1) id ∅)) as Hid end.
  - intros [i out] d Ud V _ Hd Hfree. unfold unwrap.
    edestruct add_utxo_rep as (d' & -> & Hd'); [exact Hd|right; exact Hfree|]. by exists d'.
  - apply (omap_keys_NoDup _ (fun e => outpoint (SourceBlockReward id) e.1)); [by intros ? ? [= <-]|].
    by apply outpoints_NoDup.
  - done.
  - unfold new_for_blockchain in *. rewrite Hrun. unfold mbind at 1, st_bind at 1, lift.
    destruct (db_batch_write_rep s1 (fun _ => None) (consume c)) as (s2 & Hw & Hrep2 & Hbb).
    { apply db_represents. intros k. by rewrite Hsame, Hempty. }
    { apply (rep_entries _ _ _ Hc). }
    exists s2. split; [unfold unwrap; by rewrite Hw|]. split.
    2: { rewrite Hbb. rewrite Hrun in Hid. apply Hid. intros [i out] d. unfold unwrap.
         pose proof (add_utxo_keeps (outpoint (SourceBlockReward id) i)
           (mk_utxo out (Blockchain (@mk_bint 0 (2 ^ 64 - 1) 0 eq_refl))) false d) as Hkeep.
         by destruct (add_utxo _ _ _ d) as [d' [[]|?|]]. }
    intros k. rewrite Hrep2. f_equal. symmetry. apply (rep_shows _ _ _ Hc).
Qed.
End genesis.

(** ** Undo data *)

Section undo_data.
Context `{CryptoTypes}.
Implicit Types (b : UtxosBlockUndo) (u : UtxosTxUndoWithSources).

(** The collections mirror one another. *)
Definition mirrored b : Prop :=
  forall x y, (x, y) ∈ child_parent_dependencies b <-> (y, x) ∈ parent_child_dependencies b.

(** [x] spends an output of [y] according to the undo data. *)
Definition depends (undos : gmap TxId UtxosTxUndoWithSources) (x y : TxId) : Prop :=
  exists u, undos !! x = Some u /\ SourceTransaction y ∈ undo_sources u.

Lemma add_dependencies_spec x l b :
  mirrored b ->
  let b' := foldl (add_dependency x) b l in
  mirrored b' /\ reward_undo b' = reward_undo b /\ tx_undos b' = tx_undos b /\
  forall z y, (z, y) ∈ child_parent_dependencies b' <->
    (z = x /\ y ∈ l) \/ (z, y) ∈ child_parent_dependencies b.
Proof.
  revert b. induction l as [|y l IH]; intros b Hm; simpl.
  { split; [done|]. split; [done|]. split; [done|]. set_solver. }
  destruct (IH (add_dependency x b y)) as (Hm' & Hr & Ht & Hd).
  { intros z w. unfold add_dependency. simpl. rewrite !elem_of_union, !elem_of_singleton, (Hm z w).
    naive_solver. }
  split; [done|]. split; [done|]. split; [done|]. intros z w. rewrite Hd. unfold add_dependency. simpl.
  rewrite elem_of_union, elem_of_singleton, elem_of_cons. naive_solver.
Qed.

Lemma elem_of_tx_sources u y : y ∈ omap get_tx_id (undo_sources u) <-> SourceTransaction y ∈ undo_sources u.
Proof.
  rewrite list_elem_of_omap. split.
  - intros ([id|id] & Hin & Heq); [|done]. by injection Heq as ->.
  - intros Hin. by exists (SourceTransaction y).
Qed.

(** [b] holds the undo data [undos]. *)
Definition block_undo_of r (undos : gmap TxId UtxosTxUndoWithSources) b : Prop :=
  mirrored b /\ reward_undo b = r /\ tx_undos b = undo_utxos <$> undos /\
  forall x y, (x, y) ∈ child_parent_dependencies b <-> depends undos x y.

Lemma insert_tx_undo_spec r undos b x u :
  block_undo_of r undos b ->
  match undos !! x with
  | Some _ => insert_tx_undo x u b = (b, Err (UndoAlreadyExists x))
  | None => exists b', insert_tx_undo x u b = (b', Ok tt) /\ block_undo_of r (<[x:=u]> undos) b'
  end.
Proof.
  intros (Hm & Hr & Ht & Hd). unfold insert_tx_undo, mbind, st_bind, gets, lift, modify.
  rewrite Ht, lookup_fmap. destruct (undos !! x) as [u'|] eqn:Hx; [done|]. simpl. eexists. split; [done|].
  set (b1 := mk_block_undo _ _ _ _). destruct (add_dependencies_spec x (omap get_tx_id (undo_sources u)) b1 Hm)
    as (Hm' & Hr' & Ht' & Hd'). split; [done|]. split; [by rewrite Hr'|].
  split; [rewrite Ht'; simpl; by rewrite Ht, fmap_insert|]. intros z y. rewrite Hd', elem_of_tx_sources. subst b1. simpl.
  rewrite Hd. unfold depends. destruct (decide (x = z)) as [<-|Hne].
  - setoid_rewrite lookup_insert_eq. setoid_rewrite Hx. naive_solver.
  - setoid_rewrite lookup_insert_ne; [|done]. naive_solver.
Qed.

Lemma insert_all_spec r l undos b :
  block_undo_of r undos b -> NoDup l.*1 -> (forall x, x ∈ l.*1 -> undos !! x = None) ->
  exists b', try_for_each (fun '(x, u) => insert_tx_undo x u) l b = (b', Ok tt) /\
    block_undo_of r (list_to_map l ∪ undos) b'.
Proof.
  revert undos b. induction l as [|[x u] l IH]; intros undos b Hb Hnd Hnew.
  { exists b. split; [done|]. simpl. by rewrite (left_id_L ∅ (∪)). }
  csimpl in *. apply NoDup_cons in Hnd as [Hx Hnd].
  pose proof (insert_tx_undo_spec r undos b x u Hb) as Hins. rewrite Hnew in Hins by left.
  destruct Hins as (b1 & Hrun & Hb1). rewrite (st_bind_run _ _ _ _ _ Hrun).
  destruct (IH _ _ Hb1 Hnd) as (b2 & Hrun2 & Hb2).
  { intros y Hy. rewrite lookup_insert_ne; [apply Hnew; by right|]. by intros ->. }
  exists b2. split; [done|]. rewrite <- insert_union_r in Hb2 by (by apply not_elem_of_list_to_map).
  by rewrite <- insert_union_l.
Qed.

Lemma mirrored_from_data b : mirrored b -> block_undo_from_data (block_undo_consume b) = Ok b.
Proof.
  intros Hm. unfold block_undo_from_data. simpl.
  rewrite !(proj2 (forallb_forall _ _)).
  - by destruct b.
  - intros [x y] Hxy%list_elem_of_In%elem_of_elements. apply bool_decide_eq_true_2. by apply Hm.
  - intros [x y] Hxy%list_elem_of_In%elem_of_elements. apply bool_decide_eq_true_2. by apply Hm.
Qed.
End undo_data.

(** * The theorems *)

Section claims.
Context `{CryptoTypes} `{!TxHash}.
Implicit Types (U Up : UtxoSet).

(** On any cache with right flags, adding an output that is not in the set
    and spending one that is do to the visible set exactly that; spending an
    output that is not in the set fails with one of two errors and leaves the
    set as it is.  The flags stay right and nothing panics. *)
Theorem utxo_add_and_spend {P} `{!UtxosView P} (c : UtxosCache P) Up U k u overwrite :
  cache_rep c Up U ->
  (overwrite = true \/ U k = None ->
    exists c', add_utxo k u overwrite c = (c', Ok tt) /\ cache_rep c' Up (<[k:=Some u]> U)) /\
  match U k with
  | Some v => exists c', spend_utxo k c = (c', Ok v) /\ cache_rep c' Up (<[k:=None]> U)
  | None => exists c' e, spend_utxo k c = (c', Err e) /\
      (e = NoUtxoFound \/ e = UtxoAlreadySpent (op_source_id k)) /\ cache_rep c' Up U
  end.
Proof.
  intros Hrep. split; [by apply add_utxo_rep|]. exact (spend_utxo_rep c Up U k Hrep).
Qed.

(** Connecting a transaction whose id is new spends all its inputs, each
    of them once, and adds exactly the outputs that belong into the set; the
    undo data lists what was spent, one slot per input.  It fails exactly when
    an input cannot be spent. *)
Theorem utxo_connect_transaction {P} `{!UtxosView P} (c : UtxosCache P) Up U tx src :
  cache_rep c Up U -> few (outputs tx) -> unused (SourceTransaction (get_id tx)) U ->
  match spend_inputs (inputs tx) U with
  | Some (us, U1) => exists c' U',
      connect_transaction tx src c
        = (c', Ok (mk_tx_undo us (op_source_id <$> omap utxo_outpoint (inputs tx)))) /\
      cache_rep c' Up U' /\ length us = length (inputs tx) /\ NoDup (omap utxo_outpoint (inputs tx)) /\
      (forall k, k ∈ omap utxo_outpoint (inputs tx) -> is_Some (U k) /\ U' k = None) /\
      (forall i out, (i, out) ∈ enumerate (outputs tx) -> should_include_in_utxo_set out = true ->
        U' (outpoint (SourceTransaction (get_id tx)) i) = Some (mk_utxo out src)) /\
      (forall k, k ∉ omap utxo_outpoint (inputs tx) -> op_source_id k <> SourceTransaction (get_id tx) ->
        U' k = U k)
  | None => exists c' e k, connect_transaction tx src c = (c', Err e) /\
      Some k ∈ utxo_outpoint <$> inputs tx /\ not_spendable k e
  end.
Proof.
  intros Hrep Hfew Hun. pose proof (connect_transaction_rep tx src c Up U Hfew Hun Hrep) as Hc.
  destruct (spend_inputs (inputs tx) U) as [[us U1]|] eqn:Hs; [|done].
  destruct Hc as (c' & Hrun & Hrep'). eexists c', _. split; [done|]. split; [done|].
  destruct (spend_inputs_Some _ _ _ _ Hs) as (Hlen & Hnd & HU1 & Hkeys & Hpairs & _).
  set (s := SourceTransaction (get_id tx)) in *.
  split; [done|]. split; [done|]. split; [|split].
  - intros k Hk. assert (is_Some (U k)) as HUk.
    { rewrite <- Hkeys in Hk. apply list_elem_of_fmap in Hk as ([k' u] & -> & Hin). exists u. by apply Hpairs. }
    split; [done|]. rewrite add_all_out; [by rewrite HU1, decide_True|].
    intros Hin. rewrite (unused_included s src _ U k Hun Hin) in HUk. by destruct HUk.
  - intros i out Hin Hinc. apply add_all_in; [by apply included_NoDup|].
    apply list_elem_of_omap. exists (i, out). split; [done|]. unfold included_pair. simpl. by rewrite Hinc.
  - intros k Hk Hsrc. rewrite add_all_out; [by rewrite HU1, decide_False|]. by intros [i ->]%included_key.
Qed.

(** C40: Connecting any sequence of new transactions and then disconnecting
    them in reverse order, with the undo data that connecting returned,
    succeeds and restores the set, also in another cache over another parent
    that shows the connected set. *)
Theorem utxo_disconnect_restores {P Q} `{!UtxosView P} `{!UtxosView Q}
    (c c' : UtxosCache P) (d : UtxosCache Q) Up Uq U src txs undos :
  cache_rep c Up U -> new_txs txs U -> connect_all src txs c = (c', Ok undos) ->
  exists U', cache_rep c' Up U' /\
    (cache_rep d Uq U' -> exists d', disconnect_all txs undos d = (d', Ok tt) /\ cache_rep d' Uq U).
Proof.
  intros Hrep Hnew Hrun. destruct (connect_all_rep src txs c c' Up U undos Hnew Hrep Hrun) as (U' & Hc' & Hback).
  exists U'. split; [done|]. by apply Hback.
Qed.

(** Connecting a block reward whose inputs are all outputs, of a block
    whose id is new, fails when an input cannot be spent or when an output does
    not belong into the set; otherwise disconnecting it with the undo data
    restores the set. *)
Theorem utxo_reward_round_trip {P} `{!UtxosView P} (c : UtxosCache P) Up U r b height :
  cache_rep c Up U -> few (reward_outs r) -> unused (SourceBlockReward b) U ->
  t_inputs r = None \/ t_inputs r = Some (InputUtxo <$> reward_inputs r) /\ reward_inputs r <> [] ->
  match spend_inputs (InputUtxo <$> reward_inputs r) U with
  | Some (us, U1) =>
      if forallb should_include_in_utxo_set (reward_outs r) then
        exists c' undo c'', connect_block_transactable r b height c = (c', Ok undo) /\
          cache_rep c' Up (add_all (included (SourceBlockReward b) (Blockchain height) (reward_outs r)) U1) /\
          disconnect_block_transactable r b undo c' = (c'', Ok tt) /\ cache_rep c'' Up U
      else exists c', connect_block_transactable r b height c = (c', Err (InvalidBlockRewardOutputType b))
  | None => exists c' e k, connect_block_transactable r b height c = (c', Err e) /\
      k ∈ reward_inputs r /\ not_spendable k e
  end.
Proof.
  intros Hrep Hfew Hun Hins. pose proof (connect_block_transactable_rep r b height c Up U Hfew Hun Hrep) as Hc.
  destruct (spend_inputs _ U) as [[us U1]|] eqn:Hs; [|done]. destruct Hc as (c' & vs & -> & Hc).
  destruct (forallb _ _) eqn:Hall; [|by exists c']. destruct Hc as [Hrun Hrep'].
  destruct (disconnect_block_transactable_rep r b height vs c' Up U U1) as (c'' & Hrun' & Hrep''); [done..|].
  eexists c', _, c''. split; [done|]. split; [done|]. split; [done|done].
Qed.

(** Flushing a cache into the cache it was built on never fails or panics:
    the parent then shows the set the child showed, with right flags towards
    its own parent, and has the child's best block. *)
Theorem utxo_flush_to_cache {P} `{!UtxosView P} (p : UtxosCache P) (c : UtxosCache (UtxosCache P)) Up U U' :
  cache_rep p Up U -> parent c = p -> cache_rep c U U' ->
  exists p', batch_write (consume c) p = (p', Ok tt) /\ cache_rep p' Up U' /\
    current_block_hash p' = current_block_hash c.
Proof.
  intros Hp <- Hc. destruct (batch_write_rep (parent c) Up U (consume c) Hp) as (p' & Hrun & Hrep & Hbest).
  { apply (rep_entries _ _ _ Hc). }
  exists p'. split; [done|]. split; [|done]. eapply cache_rep_ext; [|exact Hrep].
  intros k. symmetry. apply (rep_shows _ _ _ Hc).
Qed.
End claims.

Section db_claims.
Context `{CryptoTypes} {S : Type} `{!UtxosStorage S} `{!ReliableUtxosStorage S}.
Implicit Types (U : UtxoSet).

(** Flushing a cache into the database never fails: the database then
    shows the set the cache showed, and the best block of the cache. *)
Theorem utxo_flush_to_db (c : UtxosCache (UtxosDB S)) U U' :
  cache_rep c U U' ->
  exists db', db_batch_write (consume c) (parent c) = (db', Ok tt) /\
    represents db' U' /\ best_block_hash db' = Ok (current_block_hash c).
Proof.
  intros Hc. pose proof (rep_parent _ _ _ Hc) as Hp. destruct (parent c) as [s] eqn:Hs.
  destruct (db_batch_write_rep s U (consume c) Hp) as (s' & Hrun & Hrep & Hbest).
  { apply (rep_entries _ _ _ Hc). }
  exists (mk_db s'). split; [done|]. split.
  - intros k. rewrite Hrep. f_equal. symmetry. apply (rep_shows _ _ _ Hc).
  - simpl. by rewrite best_block_get, Hbest.
Qed.

(** Initializing an empty database from a genesis block never panics: the
    database then shows exactly the outputs of that block, at height 0. *)
Theorem utxo_initialize_db (s : S) id outs :
  utxos_of s = ∅ -> few outs ->
  exists db', initialize_db id outs (mk_db s) = (db', Ok tt) /\ best_block_hash db' = Ok id /\
    (forall i out, (i, out) ∈ enumerate outs -> utxo db' (outpoint (SourceBlockReward id) i)
      = Ok (Some (new_for_blockchain out (@mk_bint 0 (2 ^ 64 - 1) 0 eq_refl)))) /\
    (forall k, k ∉ (fun e => outpoint (SourceBlockReward id) e.1) <$> enumerate outs -> utxo db' k = Ok None).
Proof.
  intros Hempty Hfew. destruct (initialize_db_rep s id outs Hempty Hfew) as (s' & Hrun & Hrep & Hbest).
  pose proof (outpoints_NoDup (SourceBlockReward id) outs Hfew) as Hnd.
  exists (mk_db s'). split; [done|]. split; [simpl; by rewrite best_block_get, Hbest|]. split.
  - intros i out Hin. rewrite Hrep. f_equal. apply add_all_in.
    + apply (omap_keys_NoDup _ (fun e => outpoint (SourceBlockReward id) e.1)); [by intros ? ? [= <-]|done].
    + apply list_elem_of_omap. by exists (i, out).
  - intros k Hk. rewrite Hrep. f_equal. apply (add_all_out _ (fun _ => None)). contradict Hk.
    apply (omap_keys_subset _ (fun e => outpoint (SourceBlockReward id) e.1)) in Hk; [done|by intros ? ? [= <-]].
Qed.

(** A change made through [get_mut_utxo] to an output that the parent holds
    and the cache has not touched is visible in the cache, but is lost when the
    cache is flushed: the entry is not marked DIRTY. *)
Theorem utxo_get_mut_change_is_lost (s : S) h U k u f :
  represents (mk_db s) U -> U k = Some u ->
  exists c' db', get_mut_utxo k f (mk_cache (mk_db s) h ∅) = (c', Ok (Some u)) /\
    utxo c' k = Ok (Some (f u)) /\
    db_batch_write (consume c') (mk_db s) = (db', Ok tt) /\ utxo db' k = Ok (Some u).
Proof.
  intros Hs Hu. set (c' := mk_cache (mk_db s) h (<[k:=mk_entry (Entry (f u)) IsFresh.No IsDirty.No]> ∅)).
  destruct (db_batch_write_exact s U (consume c') Hs) as (s' & Hw & Hrep & _).
  exists c', (mk_db s'). split; [|split; [|split; [done|]]].
  - pose proof (Hs k) as Hk. rewrite Hu in Hk.
    unfold get_mut_utxo, fetch_utxo_entry, mbind, st_bind, gets, lift, put, modify, mret, st_ret, with_utxos.
    simpl. simpl in Hk. rewrite lookup_empty. simpl. rewrite Hk. simpl. rewrite lookup_insert_eq. simpl.
    by rewrite insert_insert_eq.
  - simpl. unfold cache_utxo, c'. simpl. by rewrite lookup_insert_eq.
  - rewrite Hrep. unfold apply_dirty, c'. simpl. rewrite lookup_insert_eq. simpl. by rewrite Hu.
Qed.
End db_claims.

(** The undo data of a block built from the undo data of its transactions
    keeps each of them and records exactly the dependencies between
    transactions; the two dependency collections mirror one another, so that
    taking the data apart and rebuilding it trips no assertion. *)
Theorem utxo_block_undo_mirrored `{CryptoTypes} (r : option (list Utxo))
    (undos : gmap TxId UtxosTxUndoWithSources) :
  exists b, UtxosBlockUndo_new r undos = Ok b /\
    reward_undo b = r /\ tx_undos b = undo_utxos <$> undos /\
    (forall x y, (x, y) ∈ child_parent_dependencies b <->
       exists u, undos !! x = Some u /\ SourceTransaction y ∈ undo_sources u) /\
    (forall x y, (x, y) ∈ child_parent_dependencies b <-> (y, x) ∈ parent_child_dependencies b) /\
    block_undo_from_data (block_undo_consume b) = Ok b.
Proof.
  destruct (insert_all_spec r (btree_iter undos) ∅ (mk_block_undo r ∅ ∅ ∅)) as (b & Hrun & Hb).
  { split; [done|]. split; [done|]. split; [by rewrite fmap_empty|].
    intros x y. simpl. split; [set_solver|]. by intros (u & ? & _). }
  { apply btree_iter_NoDup. }
  { done. }
  rewrite list_to_map_btree_iter, (right_id_L ∅ (∪)) in Hb. destruct Hb as (Hm & Hr & Ht & Hd).
  exists b. unfold UtxosBlockUndo_new. rewrite Hrun. split; [done|]. split; [done|]. split; [done|].
  split; [done|]. split; [done|]. by apply mirrored_from_data.
Qed.

(** * Concrete inputs *)

Module Example.
#[export] Existing Instance numbered_keys.

(** Transactions numbered by their flags. *)
#[export] Instance numbered_txs : TxHash := fun tx => Z.to_N (ival (flags tx)).

Definition coins (n : Z) : TxOutput := Transfer (Coin (Amount.lit n)) AnyoneCanSpend.
Definition height : BlockHeight := @mk_bint 0 (2 ^ 64 - 1) 3 eq_refl.

(** A database with one output, of the block reward 1. *)
Definition reward_1 : UtxoOutPoint := outpoint (SourceBlockReward 1) 0.
Definition first : Utxo := mk_utxo (coins 100) (Blockchain height).
Definition store : UtxosDBInMemoryImpl := mk_in_memory {[reward_1 := first]} 1.
Definition shown : UtxoSet := fun k => mem_store store !! k.
Abbreviation Cache := (UtxosCache (UtxosDB UtxosDBInMemoryImpl)).
Definition cache : Cache := mk_cache (mk_db store) 1 ∅.

(** Transaction 5 splits it, transaction 6 spends one part and an account. *)
Definition tx5 : Transaction := mk_tx (Amount.lit 5) [InputUtxo reward_1] [coins 40; Burn (Coin (Amount.lit 60))].
Definition tx6 : Transaction := mk_tx (Amount.lit 6)
  [InputUtxo (outpoint (SourceTransaction 5) 0);
   InputAccountCommand (@mk_bint 0 (2 ^ 64 - 1) 0 eq_refl) (AccountCommand.ConcludeOrder 9)] [coins 39].

Lemma shown_first : shown reward_1 = Some first.
Proof. apply lookup_singleton_eq. Qed.

Lemma shown_other k : op_source_id k <> SourceBlockReward 1 -> shown k = None.
Proof. intros Hk. apply lookup_singleton_ne. by intros <-. Qed.

Lemma unused_tx n : unused (SourceTransaction n) shown.
Proof. intros i. by apply shown_other. Qed.

Lemma cache_shows : cache_rep cache shown shown.
Proof. split; [by intros k|by intros k e|done]. Qed.

(** What transactions 5 and 6 leave: the burned part is not in the set. *)
Example connect_both :
  let '(c, r) := connect_all Mempool [tx5; tx6] cache in
  (undo_utxos <$> match r with Ok l => l | _ => [] end)
    = [[Some first]; [Some (mk_utxo (coins 40) Mempool); None]] /\
  cache_utxo c reward_1 = Ok None /\
  cache_utxo c (outpoint (SourceTransaction 5) 0) = Ok None /\
  cache_utxo c (outpoint (SourceTransaction 5) 1) = Ok None /\
  cache_utxo c (outpoint (SourceTransaction 6) 0) = Ok (Some (mk_utxo (coins 39) Mempool)).
Proof. vm_compute. done. Qed.
End Example.

Module Witnesses.
Import Example.

Lemma utxo_add_and_spend_witness : exists c', spend_utxo reward_1 cache = (c', Ok first).
Proof.
  pose proof (utxo_add_and_spend cache shown shown reward_1 first true cache_shows) as [_ Hspend].
  rewrite shown_first in Hspend. destruct Hspend as (c' & Hrun & _). by exists c'.
Defined.

Lemma few_outputs_tx5 : few (outputs tx5).
Proof. unfold few. simpl. lia. Qed.

Lemma utxo_connect_transaction_witness :
  exists c' u, connect_transaction tx5 Mempool cache = (c', Ok u) /\ undo_utxos u = [Some first] /\
    utxo c' (outpoint (SourceTransaction 5) 0) = Ok (Some (mk_utxo (coins 40) Mempool)).
Proof.
  pose proof (utxo_connect_transaction cache shown shown tx5 Mempool cache_shows few_outputs_tx5 (unused_tx 5))
    as Hc. cbn [inputs tx5 spend_inputs utxo_outpoint] in Hc. rewrite shown_first in Hc. simpl in Hc.
  destruct Hc as (c' & U' & Hrun & Hrep & _ & _ & _ & Hout & _).
  eexists c', _. split; [exact Hrun|]. split; [reflexivity|].
  rewrite (utxo_cache_represents _ _ _ Hrep). f_equal. apply (Hout 0%nat); [left|reflexivity].
Defined.

Definition connected : Cache := (connect_all Mempool [tx5; tx6] cache).1.
Definition undos : list UtxosTxUndoWithSources :=
  match (connect_all Mempool [tx5; tx6] cache).2 with Ok l => l | _ => [] end.

Lemma connects : connect_all Mempool [tx5; tx6] cache = (connected, Ok undos).
Proof.
  assert (is_ok (connect_all Mempool [tx5; tx6] cache).2 = true) as Hok by (vm_compute; reflexivity).
  unfold connected, undos.
  destruct (connect_all Mempool [tx5; tx6] cache) as [c [l|e|]]; [reflexivity|discriminate Hok..].
Qed.

Lemma both_new : new_txs [tx5; tx6] shown.
Proof.
  split; [by apply (bool_decide_unpack _)|].
  intros tx [->|[->|[]%elem_of_nil]%elem_of_cons]%elem_of_cons;
    (split; [unfold few; simpl; lia|apply unused_tx]).
Qed.

Lemma utxo_disconnect_restores_witness :
  exists c', disconnect_all [tx5; tx6] undos connected = (c', Ok tt) /\
    utxo c' reward_1 = Ok (Some first).
Proof.
  destruct (utxo_disconnect_restores cache connected connected shown shown shown Mempool [tx5; tx6] undos)
    as (U' & Hrep & Hback); [exact cache_shows|exact both_new|exact connects|].
  destruct (Hback Hrep) as (c' & Hrun & Hrep'). exists c'. split; [exact Hrun|].
  rewrite (utxo_cache_represents _ _ _ Hrep'). by rewrite shown_first.
Defined.

Definition reward : BlockRewardTransactable := mk_transactable (Some [InputUtxo reward_1]) (Some [coins 120]).

Lemma utxo_reward_round_trip_witness :
  exists c' undo c'', connect_block_transactable reward 2 height cache = (c', Ok undo) /\
    disconnect_block_transactable reward 2 undo c' = (c'', Ok tt) /\ cache_rep c'' shown shown.
Proof.
  pose proof (utxo_reward_round_trip cache shown shown reward 2 height cache_shows) as Hr.
  unfold few in Hr. cbn [reward_outs reward_inputs reward t_inputs t_outputs omap utxo_outpoint] in Hr.
  simpl in Hr. rewrite shown_first in Hr.
  destruct Hr as (c' & undo & c'' & Hrun & _ & Hrun' & Hrep); [lia|intros i; by apply shown_other|by right|].
  by exists c', undo, c''.
Defined.

(** A cache over the cache, in which the output was spent. *)
Definition child : UtxosCache Cache := (spend_utxo reward_1 (mk_cache cache 2 ∅)).1.

Lemma child_shows : cache_rep child shown (<[reward_1:=None]> shown).
Proof.
  assert (cache_rep (mk_cache cache 2 ∅) shown shown) as Hrep.
  { split; [|by intros k e|done]. apply (utxo_cache_represents _ _ _ cache_shows). }
  pose proof (spend_utxo_rep _ _ _ reward_1 Hrep) as Hs. rewrite shown_first in Hs.
  destruct Hs as (c' & Hrun & Hc'). unfold child. by rewrite Hrun.
Qed.

Lemma utxo_flush_to_cache_witness :
  exists p', batch_write (consume child) cache = (p', Ok tt) /\ utxo p' reward_1 = Ok None.
Proof.
  destruct (utxo_flush_to_cache cache child shown shown (<[reward_1:=None]> shown) cache_shows)
    as (p' & Hrun & Hrep & _); [reflexivity|exact child_shows|].
  exists p'. split; [exact Hrun|]. by rewrite (utxo_cache_represents _ _ _ Hrep), fn_lookup_insert.
Defined.

Lemma utxo_flush_to_db_witness :
  exists db', db_batch_write (consume connected) (mk_db store) = (db', Ok tt) /\
    best_block_hash db' = Ok 1%N.
Proof.
  destruct (connect_all_rep Mempool [tx5; tx6] cache connected shown shown undos both_new cache_shows connects)
    as (U' & Hrep & _).
  destruct (utxo_flush_to_db connected shown U' Hrep) as (db' & Hrun & _ & Hbest).
  exists db'. split; [exact Hrun|exact Hbest].
Defined.

Lemma utxo_initialize_db_witness :
  exists db', initialize_db 7 [coins 50; coins 60] (mk_db (mk_in_memory ∅ 0)) = (db', Ok tt) /\
    utxo db' (outpoint (SourceBlockReward 7) 1)
      = Ok (Some (new_for_blockchain (coins 60) (@mk_bint 0 (2 ^ 64 - 1) 0 eq_refl))).
Proof.
  destruct (utxo_initialize_db (mk_in_memory ∅ 0) 7 [coins 50; coins 60]) as (db' & Hrun & _ & Hin & _);
    [reflexivity|unfold few; simpl; lia|].
  exists db'. split; [exact Hrun|]. apply Hin. right. left.
Defined.

Lemma utxo_get_mut_change_is_lost_witness :
  exists c' db', get_mut_utxo reward_1 (fun u => mk_utxo (coins 1) (source u)) cache = (c', Ok (Some first)) /\
    db_batch_write (consume c') (mk_db store) = (db', Ok tt) /\ utxo db' reward_1 = Ok (Some first).
Proof.
  destruct (utxo_get_mut_change_is_lost store 1 shown reward_1 first
    (fun u => mk_utxo (coins 1) (source u))) as (c' & db' & Hget & _ & Hw & Hdb);
    [by intros k|exact shown_first|].
  exists c', db'. split; [exact Hget|]. split; [exact Hw|exact Hdb].
Defined.
End Witnesses.
