(* ===== verification/ConsensusPoS.v ===== *)
(** * Proof of stake

    Models [consensus/src/pos] with the randomness of [chainstate/types]
    ([pos_randomness.rs], [vrf_tools.rs]): the target of the next block from the
    average time between the last blocks, the check of the stake hash against
    the target and the effective balance of the pool, the checks of a
    proof-of-stake header, and the search for a time at which a pool may produce
    a block.  The verifiable random function and the signature scheme come from
    the cryptographic libraries: they are parameters ([StakeCrypto]).  The
    theorems say what the target is and how fast it changes, which headers are
    accepted, and that a staked header has a hash that the check accepts. *)
From S2P Require Import Prelude Amount Uint ChainTypes ChainConfig Compact BlockTree EffectiveBalance.
From S2P Require PoS Utxo ConsensusPoW.
Import ConsensusPoW(CrateChainstateError, uint_leb, get_ancestor_from_block_index_handle).

Abbreviation PoSRandomness := H256 (only parsing).
Abbreviation EpochIndex := u64 (only parsing).

(** What [construct_transcript] attaches to a transcript. *)
Record VRFTranscript := { tr_random_seed : H256; tr_slot : BlockTimestamp; tr_epoch_index : EpochIndex }.

(** Verifying VRF data, its output, and the signature of an encoded header. *)
Class StakeCrypto `{CryptoTypes} := {
  VRFError : Type;
  verify_vrf_data : VRFPublicKey -> VRFTranscript -> VRFReturn -> option VRFError;
  calculate_vrf_output : VRFReturn -> VRFPublicKey -> VRFTranscript -> VRFError + H256;
  verify_message : PublicKey -> Signature -> BlockHeader -> bool
}.

Inductive BlockSigError :=
  | BlockSignatureNotFound (id : BlockId)
  | WrongDestination (id : BlockId)
  | BadSignature (id : BlockId).

(** [PoSRandomnessError] around [ProofOfStakeVRFError]. *)
Inductive PoSRandomnessError `{StakeCrypto} := VRFDataVerificationFailed (e : VRFError).

Module ConsensusPoSError.
Inductive ConsensusPoSError `{StakeCrypto} :=
  | ChainstateError (e : CrateChainstateError)
  | StakeKernelHashTooHigh
  | NoKernel
  | MissingKernelUtxo
  | KernelOutpointMustBeUtxo
  | MultipleKernels
  | BitsToTargetConversionFailed (bits : Compact)
  | PrevBlockIndexNotFound (id : BlockId)
  | PoolDataNotFound (id : PoolId)
  | PoSAccountingError (e : PoS.Error)
  | RandomnessError (e : PoSRandomnessError)
  | InvalidTarget (bits : Compact)
  | DecodingBitsFailed (bits : Compact)
  | InvalidTargetBlockTime
  | InvariantBrokenNotMonotonicBlockTime
  | EmptyTimespan
  | NoInputDataProvided
  | PoWInputDataProvided
  | FutureTimestampInThePast
  | FailedToFetchUtxo
  | BlockSignatureError (e : BlockSigError)
  | FailedToSignBlockHeader
  | FailedToSignKernel
  | PoSBlockTimeStrictOrderInvalid (id : BlockId)
  | FiniteTotalSupplyIsRequired
  | EffectivePoolBalanceError (e : EffectivePoolBalanceError)
  | InvalidOutputTypeInStakeKernel (id : BlockId).
End ConsensusPoSError.
Abbreviation ConsensusPoSError := ConsensusPoSError.ConsensusPoSError.
Import ConsensusPoSError.

(** ** The target ([pos/target.rs]) *)

Section target.
Context `{StakeCrypto}.
Abbreviation checked := (result ConsensusPoSError).
Implicit Types (get_ancestor : BlockIndex -> BlockHeight -> result CrateChainstateError GenBlockIndex).
Implicit Types (pos_config : PoSChainConfig) (chain_config : ChainConfig).

(** [usize as i64]. *)
Definition as_i64 (n : Z) : Z := if n <? 2 ^ 63 then n else n - 2 ^ 64.

Definition calculate_average_block_time pos_config (block_index : BlockIndex) get_ancestor : checked Z :=
  block_distance_to_average ←
    expect (bint_of_Z (as_i64 (ival (block_count_to_average_for_blocktime pos_config)) - 1));
  let block_height_to_start_averaging :=
    default BlockHeight.zero (BlockHeight.sub (bi_block_height block_index) block_distance_to_average) in
  _ ← ensure (ival block_height_to_start_averaging <? ival (bi_block_height block_index)) EmptyTimespan;
  start ← map_err ChainstateError (get_ancestor block_index block_height_to_start_averaging);
  let time_span_start := ival (gen_block_timestamp start) in
  let current_block_time := ival (bi_block_timestamp block_index) in
  timespan_difference ← ok_or InvariantBrokenNotMonotonicBlockTime
    (bint_of_Z (lo := 0) (hi := 2 ^ 64 - 1) (current_block_time - time_span_start));
  block_distance_in_timespan ←
    expect (BlockHeight.distance (bi_block_height block_index) block_height_to_start_averaging);
  Ok (ival timespan_difference / ival block_distance_in_timespan).

(** [num::clamp] on [Uint512]. *)
Definition uint_clamp (input min max : uint) : uint :=
  if negb (uint_leb min input) then min else if negb (uint_leb input max) then max else input.

Definition calculate_new_target pos_config (prev_target : uint) (actual_block_time target_block_time : Z) :
    checked Compact :=
  let actual_block_time := if actual_block_time =? 0 then ONE 8 else from_u64 8 actual_block_time in
  let prev_target := into_uint512 prev_target in
  numerator ← checked_mul prev_target actual_block_time;
  numerator ← expect numerator;
  new_target ← checked_div numerator (from_u64 8 target_block_time);
  new_target ← expect new_target;
  let change_limit := difficulty_change_limit pos_config in
  numerator ← checked_mul prev_target (from_u64 8 (ival change_limit));
  numerator ← expect numerator;
  difficulty_change_limit ← checked_div numerator (from_u64 8 1000);
  difficulty_change_limit ← expect difficulty_change_limit;
  lower_limit ← expect (checked_sub prev_target difficulty_change_limit);
  upper_limit ← expect (checked_add prev_target difficulty_change_limit);
  let new_target := uint_clamp new_target lower_limit upper_limit in
  let new_target := default (target_limit pos_config) (try_into_uint256 new_target) in
  let new_target := if uint_leb new_target (target_limit pos_config) then new_target else target_limit pos_config in
  compact_from new_target.

Definition calculate_target_required_internal chain_config pos_config (prev_block_index : BlockIndex) get_ancestor :
    checked Compact :=
  status ← consensus_status (consensus_upgrades chain_config) (bi_block_height prev_block_index);
  match status with
  | RequiredConsensus.PoS (PoSStatus.Threshold (Some difficulty) _) => Ok difficulty
  | RequiredConsensus.PoS _ =>
      match bi_consensus_data prev_block_index with
      | ConsensusNone | ConsensusPoW _ => Panic
      | ConsensusPoS data =>
          prev_target ← map_err (fun _ => DecodingBitsFailed (compact_target data)) (try_from_compact (compact_target data));
          average_block_time ← calculate_average_block_time pos_config prev_block_index get_ancestor;
          _ ← ensure (negb (ival (target_block_spacing chain_config) =? 0)) InvalidTargetBlockTime;
          calculate_new_target pos_config prev_target average_block_time (ival (target_block_spacing chain_config))
      end
  | RequiredConsensus.PoW _ | RequiredConsensus.IgnoreConsensus => Panic
  end.

Definition calculate_target_required_from_block_index chain_config (pos_status : PoSStatus)
    (prev_gen_block_index : GenBlockIndex) get_ancestor : checked Compact :=
  match pos_status with
  | PoSStatus.Threshold (Some difficulty) _ => Ok difficulty
  | PoSStatus.Threshold None pos_config | PoSStatus.Ongoing pos_config =>
      match prev_gen_block_index with
      | GenBlockIndex.Genesis _ _ => compact_from (target_limit pos_config)
      | GenBlockIndex.Block block_index =>
          calculate_target_required_internal chain_config pos_config block_index get_ancestor
      end
  end.

Definition calculate_target_required chain_config (pos_status : PoSStatus) (prev_block_id : BlockId)
    (block_index_handle : gmap BlockId BlockIndex) : checked Compact :=
  match pos_status with
  | PoSStatus.Threshold (Some difficulty) _ => Ok difficulty
  | PoSStatus.Threshold None pos_config | PoSStatus.Ongoing pos_config =>
      match classify chain_config prev_block_id with
      | None => compact_from (target_limit pos_config)
      | Some prev_block_id =>
          prev_block_index ← ok_or (PrevBlockIndexNotFound prev_block_id) (block_index_handle !! prev_block_id);
          calculate_target_required_internal chain_config pos_config prev_block_index
            (get_ancestor_from_block_index_handle chain_config block_index_handle)
      end
  end.
End target.

(** ** The stake hash ([vrf_tools.rs], [pos_randomness.rs], [pos/hash_check.rs]) *)

Section hash.
Context `{StakeCrypto}.
Abbreviation checked := (result ConsensusPoSError).

Definition construct_transcript (epoch_index : EpochIndex) (random_seed : H256) (block_timestamp : BlockTimestamp) :
    VRFTranscript :=
  {| tr_random_seed := random_seed; tr_slot := block_timestamp; tr_epoch_index := epoch_index |}.

Definition verify_vrf_and_get_vrf_output (epoch_index : EpochIndex) (random_seed : H256) (vrf_data : VRFReturn)
    (vrf_public_key : VRFPublicKey) (block_timestamp : BlockTimestamp) : result PoSRandomnessError H256 :=
  let transcript := construct_transcript epoch_index random_seed block_timestamp in
  match verify_vrf_data vrf_public_key transcript vrf_data with
  | Some e => Err (VRFDataVerificationFailed e)
  | None =>
      match calculate_vrf_output vrf_data vrf_public_key transcript with
      | inl e => Err (VRFDataVerificationFailed e)
      | inr vrf_raw_output => Ok vrf_raw_output
      end
  end.

(** [PoSRandomness::from_block]. *)
Definition randomness_from_block (epoch_index : EpochIndex) (block_timestamp : BlockTimestamp)
    (seal_randomness : PoSRandomness) (vrf_data : VRFReturn) (vrf_pub_key : VRFPublicKey) :
    result PoSRandomnessError PoSRandomness :=
  verify_vrf_and_get_vrf_output epoch_index seal_randomness vrf_data vrf_pub_key block_timestamp.

(** The common last step of both versions: the comparison in 512 bits. *)
Definition check_pos_hash_v0 (hash target : uint) (pool_balance : Amount) : checked unit :=
  let hash := into_uint512 hash in
  product ← checked_mul (from_u128 8 pool_balance) (into_uint512 target);
  product ← expect product;
  ensure (uint_leb hash product) StakeKernelHashTooHigh.

Definition check_pos_hash_v1 (hash target : uint) (pledge_amount pool_balance final_supply : Amount) : checked unit :=
  let hash := into_uint512 hash in
  effective_balance ← map_err EffectivePoolBalanceError (effective_pool_balance pledge_amount pool_balance final_supply);
  product ← checked_mul (from_u128 8 effective_balance) (into_uint512 target);
  product ← expect product;
  ensure (uint_leb hash product) StakeKernelHashTooHigh.

(** Both versions are supported. *)
Definition check_pos_hash (version : PoSConsensusVersion.t) (hash target : uint)
    (pledge_amount pool_balance final_supply : Amount) : checked unit :=
  match version with
  | PoSConsensusVersion.V0 => check_pos_hash_v0 hash target pool_balance
  | PoSConsensusVersion.V1 => check_pos_hash_v1 hash target pledge_amount pool_balance final_supply
  end.

Definition calc_and_check_pos_hash (version : PoSConsensusVersion.t) (epoch_index : EpochIndex)
    (random_seed : PoSRandomness) (target : uint) (vrf_data : VRFReturn) (vrf_pub_key : VRFPublicKey)
    (block_timestamp : BlockTimestamp) (pledge_amount pool_balance final_supply : Amount) : checked unit :=
  hash ← map_err RandomnessError (randomness_from_block epoch_index block_timestamp random_seed vrf_data vrf_pub_key);
  check_pos_hash version (hash_to_uint hash) target pledge_amount pool_balance final_supply.
End hash.

(** ** The check of a header ([pos/mod.rs], [pos/kernel.rs], [pos/block_sig.rs]) *)

Section check.
Context `{StakeCrypto} `{!BlockHashes}.
Abbreviation checked := (result ConsensusPoSError).

Definition get_kernel_output {U} `{!Utxo.UtxosView U} (kernel_inputs : list TxInput) (utxos_view : U) :
    checked TxOutput :=
  match kernel_inputs with
  | [] => Err NoKernel
  | [kernel_input] =>
      kernel_outpoint ← ok_or KernelOutpointMustBeUtxo (utxo_outpoint kernel_input);
      kernel_output ← map_err (fun _ => FailedToFetchUtxo) (Utxo.utxo utxos_view kernel_outpoint);
      kernel_output ← ok_or MissingKernelUtxo kernel_output;
      Ok (Utxo.output kernel_output)
  | _ => Err MultipleKernels
  end.

(** The destination that the kernel output stakes for. *)
Definition staker_destination (header : BlockHeader) (kernel_output : TxOutput) : checked Destination :=
  match kernel_output with
  | CreateStakePool _ stake_pool => Ok (sp_staker stake_pool)
  | ProduceBlockFromStake dest _ => Ok dest
  | _ => Err (InvalidOutputTypeInStakeKernel (header_id header))
  end.

Definition check_block_signature (header : SignedBlockHeader) (staker : Destination) : result BlockSigError unit :=
  match staker with
  | AnyoneCanSpend | DestPublicKeyHash _ | ScriptHash _ | ClassicMultisig _ => Err (WrongDestination (header_id header))
  | DestPublicKey public_key =>
      match signature_data header with
      | None => Err (BlockSignatureNotFound (header_id header))
      | Some signature => ensure (verify_message public_key signature header) (BadSignature (header_id header))
      end
  end.

(** The epoch data of a sealed epoch is its randomness. *)
Definition randomness_of_sealed_epoch (chain_config : ChainConfig) (current_height : BlockHeight)
    (epoch_storage : gmap EpochIndex PoSRandomness) : checked PoSRandomness :=
  sealed_epoch_index ← sealed_epoch_index chain_config current_height;
  Ok match sealed_epoch_index with
     | Some sealed_epoch_index => default (initial_randomness chain_config) (epoch_storage !! sealed_epoch_index)
     | None => initial_randomness chain_config
     end.

Definition compact_target_to_target (compact_target : Compact) : checked uint :=
  map_err (fun _ => BitsToTargetConversionFailed compact_target) (try_from_compact compact_target).

Definition enforce_timestamp_ordering (prev_block_index : GenBlockIndex) (header : BlockHeader) : checked unit :=
  ensure (ival (gen_block_timestamp prev_block_index) <? ival (hdr_timestamp header))
    (PoSBlockTimeStrictOrderInvalid (header_id header)).

(** [pos_error] is the conversion of the errors of the view. *)
Definition check_proof_of_stake {U P} `{!Utxo.UtxosView U} `{!PoS.PoSAccountingView P} (pos_error : PoS.view_error -> PoS.Error)
    (chain_config : ChainConfig) (pos_status : PoSStatus) (header : SignedBlockHeader) (pos_data : PoSData)
    (block_index_handle : gmap BlockId BlockIndex) (epoch_data_storage : gmap EpochIndex PoSRandomness)
    (utxos_view : U) (pos_accounting_view : P) : checked unit :=
  target ← calculate_target_required chain_config pos_status (hdr_prev_block_id header) block_index_handle;
  _ ← ensure (bool_decide (target = compact_target pos_data)) (InvalidTarget (compact_target pos_data));
  prev_block_index ← ok_or (PrevBlockIndexNotFound (header_id header))
    (gen_block_index_getter chain_config block_index_handle (hdr_prev_block_id header));
  _ ← enforce_timestamp_ordering prev_block_index header;
  current_height ← BlockHeight.next_height (gen_block_height prev_block_index);
  random_seed ← randomness_of_sealed_epoch chain_config current_height epoch_data_storage;
  current_epoch_index ← expect (bint_of_Z (epoch_index_from_height chain_config current_height));
  let pool_id := stake_pool_id pos_data in
  pool_data ← map_err (fun e => PoSAccountingError (pos_error e)) (PoS.get_pool_data pos_accounting_view pool_id);
  pool_data ← ok_or (PoolDataNotFound pool_id) pool_data;
  kernel_output ← get_kernel_output (kernel_inputs pos_data) utxos_view;
  staker_dest ← staker_destination header kernel_output;
  _ ← map_err BlockSignatureError (check_block_signature header staker_dest);
  pool_balance ← map_err (fun e => PoSAccountingError (pos_error e)) (PoS.get_pool_balance pos_accounting_view pool_id);
  staker_balance ← map_err PoSAccountingError (PoS.staker_balance pool_data);
  final_supply ← ok_or FiniteTotalSupplyIsRequired (cfg_final_supply chain_config);
  target ← compact_target_to_target (compact_target pos_data);
  calc_and_check_pos_hash (consensus_version (PoSStatus.get_chain_config pos_status)) current_epoch_index random_seed
    target (vrf_data pos_data) (PoS.vrf_public_key pool_data) (hdr_timestamp header) staker_balance pool_balance
    final_supply.
End check.

(** ** Staking ([pos/mod.rs]) *)

(** Private keys: producing VRF data with a random generator of type [R], and
    the public key that verifies it. *)
Class StakingKeys `{CryptoTypes} (R : Type) := {
  VRFPrivateKey : Type;
  from_private_key : VRFPrivateKey -> VRFPublicKey;
  produce_vrf_data_with : VRFPrivateKey -> VRFTranscript -> R -> VRFReturn * R
}.

Record PoSFinalizeBlockInputData `{StakingKeys R} := {
  fin_vrf_private_key : VRFPrivateKey;
  fin_epoch_index : EpochIndex;
  fin_sealed_epoch_randomness : PoSRandomness;
  fin_pledge_amount : Amount;
  fin_pool_balance : Amount
}.

Inductive StakeResult := StakeSuccess | StakeFailed | StakeStopped.

Section stake.
Context `{StakeCrypto} {R : Type} `{!StakingKeys R}.
Abbreviation checked := (result ConsensusPoSError).

Definition produce_vrf_data (epoch_index : EpochIndex) (sealed_epoch_randomness : PoSRandomness)
    (timestamp : BlockTimestamp) (vrf_prv_key : VRFPrivateKey) (rng : R) : VRFReturn * R :=
  produce_vrf_data_with vrf_prv_key (construct_transcript epoch_index sealed_epoch_randomness timestamp) rng.

Section search.
Context (final_supply : Amount) (pos_config : PoSChainConfig) (target : uint) (sealed_epoch_randomness : PoSRandomness).
Context (epoch_index : EpochIndex) (pledge_amount pool_balance : Amount) (vrf_prv_key : VRFPrivateKey).

(** The check of one time slot with VRF data made for it. *)
Definition check_slot (timestamp : BlockTimestamp) (vrf_data : VRFReturn) : checked unit :=
  calc_and_check_pos_hash (consensus_version pos_config) epoch_index sealed_epoch_randomness target vrf_data
    (from_private_key vrf_prv_key) timestamp pledge_amount pool_balance final_supply.

(** The loop over [first..=max]; a panic in the check is one of the loop. *)
Fixpoint search_slots (count : nat) (timestamp : BlockTimestamp) (rng : R) :
    checked (option (BlockTimestamp * VRFReturn)) :=
  match count with
  | O => Ok None
  | S count =>
      let '(vrf_data, rng) := produce_vrf_data epoch_index sealed_epoch_randomness timestamp vrf_prv_key rng in
      match check_slot timestamp vrf_data with
      | Ok _ => Ok (Some (timestamp, vrf_data))
      | Err _ => search_slots count (default timestamp (bint_of_Z (ival timestamp + 1))) rng
      | Panic => Panic
      end
  end.
End search.

Definition find_timestamp_for_staking (final_supply : CoinUnit) (pos_config : PoSChainConfig) (target : Compact)
    (first_timestamp max_timestamp : BlockTimestamp) (sealed_epoch_randomness : PoSRandomness) (epoch_index : EpochIndex)
    (pledge_amount pool_balance : Amount) (vrf_prv_key : VRFPrivateKey) (rng : R) :
    checked (option (BlockTimestamp * VRFReturn)) :=
  target ← compact_target_to_target target;
  _ ← ensure (ival first_timestamp <=? ival max_timestamp) FutureTimestampInThePast;
  search_slots final_supply pos_config target sealed_epoch_randomness epoch_index pledge_amount pool_balance vrf_prv_key
    (Z.to_nat (ival max_timestamp - ival first_timestamp + 1)) first_timestamp rng.

Definition update_vrf_data (vrf_data : VRFReturn) (d : PoSData) : PoSData :=
  {| kernel_inputs := kernel_inputs d; stake_pool_id := stake_pool_id d; vrf_data := vrf_data;
     compact_target := compact_target d |}.

(** [stake]: the header and the timestamp are changed in place; logging is left
    out. *)
Definition stake (chain_config : ChainConfig) (pos_config : PoSChainConfig) (pos_data : PoSData)
    (max_block_timestamp : BlockTimestamp) (finalize_pos_data : PoSFinalizeBlockInputData) (rng : R) :
    ST (BlockHeader * BlockTimestamp) ConsensusPoSError StakeResult :=
  final_supply ← lift (ok_or FiniteTotalSupplyIsRequired (cfg_final_supply chain_config));
  '(_, first_timestamp) ← self;
  found ← lift (find_timestamp_for_staking final_supply pos_config (compact_target pos_data) first_timestamp
    max_block_timestamp (fin_sealed_epoch_randomness finalize_pos_data) (fin_epoch_index finalize_pos_data)
    (fin_pledge_amount finalize_pos_data) (fin_pool_balance finalize_pos_data) (fin_vrf_private_key finalize_pos_data) rng);
  match found with
  | Some (found_timestamp, vrf_data) =>
      _ ← modify (fun '(header, _) =>
        (ConsensusPoW.update_timestamp found_timestamp
           (ConsensusPoW.update_consensus_data (ConsensusPoS (update_vrf_data vrf_data pos_data)) header), found_timestamp));
      mret StakeSuccess
  | None =>
      _ ← modify (fun '(header, _) => (header, max_block_timestamp));
      mret StakeFailed
  end.
End stake.

(** * Properties *)

(** ** The target on the integers *)

(** The target after blocks that took [actual] seconds on average instead of
    [spacing], before it is rounded to the compact form: it changes by at most
    [change] parts in a thousand and is capped at the limit. *)
Definition target_change (change prev : Z) : Z := prev * change / 1000.
Definition next_stake_target (limit change prev actual spacing : Z) : Z :=
  let delta := target_change change prev in
  Z.min limit (ConsensusPoW.clamp (prev * Z.max 1 actual / spacing) (prev - delta) (prev + delta)).

Lemma target_change_range change prev : 0 <= change <= 1000 -> 0 <= prev -> 0 <= target_change change prev <= prev.
Proof.
  intros. unfold target_change. split; [apply Z.div_pos; nia|]. apply Z.div_le_upper_bound; nia.
Qed.

Lemma next_stake_target_bounds limit change prev actual spacing : 0 <= limit -> 0 <= change <= 1000 -> 0 <= prev ->
  let delta := target_change change prev in
  0 <= next_stake_target limit change prev actual spacing <= limit /\
  next_stake_target limit change prev actual spacing <= prev + delta /\
  (prev - delta <= limit -> prev - delta <= next_stake_target limit change prev actual spacing).
Proof.
  intros Hl Hc Hp delta. unfold next_stake_target. fold delta.
  pose proof (target_change_range change prev Hc Hp) as Hd. fold delta in Hd.
  pose proof (ConsensusPoW.clamp_range (prev * Z.max 1 actual / spacing) (prev - delta) (prev + delta) ltac:(lia)). lia.
Qed.

Section new_target.
Context `{StakeCrypto}.

Lemma uint_clamp_value x lo hi : wf 8 x -> wf 8 lo -> wf 8 hi ->
  wf 8 (uint_clamp x lo hi) /\ value (uint_clamp x lo hi) = ConsensusPoW.clamp (value x) (value lo) (value hi).
Proof.
  intros Hx Hlo Hhi. unfold uint_clamp, ConsensusPoW.clamp. rewrite !(ConsensusPoW.uint_leb_value 8) by done.
  destruct (Z.leb_spec (value lo) (value x)), (Z.ltb_spec (value x) (value lo)); try lia; cbn [negb]; [|done].
  destruct (Z.leb_spec (value x) (value hi)), (Z.ltb_spec (value hi) (value x)); try lia; done.
Qed.

Lemma word_lt z : 0 <= z < 2 ^ 64 -> word z.
Proof. unfold word. rewrite W_pow. done. Qed.

Lemma fits_512 a b : 0 <= a < 2 ^ 256 -> 0 <= b < 2 ^ 64 -> a * b < W ^ Z.of_nat 8.
Proof. intros. rewrite W8. assert (a * b <= 2 ^ 256 * 2 ^ 64) by (apply Z.mul_le_mono_nonneg; lia). assert (2 ^ 256 * 2 ^ 64 < 2 ^ 512) by done. lia. Qed.

(** One scaling of the previous target: [prev * num / den]. *)
Lemma scale_512 (prev : uint) num den : wf 8 prev -> value prev < 2 ^ 256 -> 0 <= num < 2 ^ 64 -> 0 < den < 2 ^ 64 ->
  exists p q, @checked_mul ConsensusPoSError prev (from_u64 8 num) = Ok (Some p) /\
    @checked_div ConsensusPoSError p (from_u64 8 den) = Ok (Some q) /\ wf 8 q /\ value q = value prev * num / den.
Proof.
  intros Hp Hlt Hn Hd. pose proof (value_range 8 _ Hp).
  destruct (value_from_u64 7 num (word_lt _ Hn)) as [Wn Vn].
  destruct (value_from_u64 7 den) as [Wd Vd]; [apply word_lt; lia|].
  destruct (@mul_fits ConsensusPoSError 7 prev _ Hp Wn) as (p & Hm & Wp & Vp); [rewrite Vn; apply fits_512; lia|].
  destruct (@div_runs ConsensusPoSError 7 p _ Wp Wd) as (q & Hq & Wq & Vq); [lia|].
  exists p, q. rewrite Vq, Vp, Vn, Vd. done.
Qed.

Lemma calculate_new_target_value_posc (config : PoSChainConfig) prev actual spacing :
  wf 4 prev -> wf 4 (target_limit config) -> 0 <= actual < 2 ^ 64 -> 0 < spacing < 2 ^ 64 ->
  exists c v, calculate_new_target config prev actual spacing = Ok c /\ try_from_compact c = Ok v /\ wf 4 v /\
    value v = kept (next_stake_target (value (target_limit config)) (ival (difficulty_change_limit config))
                      (value prev) actual spacing).
Proof.
  intros Hp Hl Ha Hs. destruct (into_uint512_value prev Hp) as [Wp Vp].
  pose proof (value_range 4 _ Hp) as Rp. rewrite W4 in Rp. pose proof (value_range 4 _ Hl) as Rl. rewrite W4 in Rl.
  pose proof (bint_range (difficulty_change_limit config)) as Rc.
  unfold calculate_new_target. cbv zeta.
  assert ((if actual =? 0 then ONE 8 else from_u64 8 actual) = from_u64 8 (Z.max 1 actual)) as ->.
  { destruct (Z.eqb_spec actual 0) as [->|]; [done|]. by rewrite Z.max_r by lia. }
  destruct (scale_512 (into_uint512 prev) (Z.max 1 actual) spacing) as (p & q & -> & Hq & Wq & Vq); [done|lia..|].
  cbn [mbind result_bind expect]. rewrite Hq. cbn [mbind result_bind expect].
  destruct (scale_512 (into_uint512 prev) (ival (difficulty_change_limit config)) 1000) as (p' & d & -> & Hd & Wd & Vd); [done|lia..|].
  cbn [mbind result_bind expect]. rewrite Hd. cbn [mbind result_bind expect].
  rewrite Vp in *. fold (target_change (ival (difficulty_change_limit config)) (value prev)) in Vd.
  pose proof (target_change_range _ (value prev) Rc ltac:(lia)) as Rd. set (delta := target_change _ _) in *.
  destruct (sub_fits 8 (into_uint512 prev) d) as (lo & -> & Wlo & Vlo); [done|done|lia|].
  destruct (add_fits 8 (into_uint512 prev) d) as (hi & -> & Whi & Vhi); [done|done|rewrite W8; lia|].
  cbn [mbind result_bind expect]. rewrite Vp, Vd in *.
  destruct (uint_clamp_value q lo hi Wq Wlo Whi) as [Wc Vc]. rewrite Vq, Vlo, Vhi in Vc.
  pose proof (try_into_uint256_value _ Wc) as Hn. set (narrowed := try_into_uint256 _) in *.
  assert (wf 4 (default (target_limit config) narrowed)) as Wn by (destruct narrowed; naive_solver).
  rewrite (ConsensusPoW.uint_leb_value 4) by done.
  match goal with |- context [compact_from ?n] => set (new := n) end.
  assert (wf 4 new /\ value new = next_stake_target (value (target_limit config)) (ival (difficulty_change_limit config))
                                    (value prev) actual spacing) as [Wnew Vnew].
  { unfold new, next_stake_target. fold delta. rewrite <- Vc.
    destruct narrowed as [n|]; cbn [from_option] in *; unfold id in *;
      match goal with |- context [?a <=? ?b] => destruct (Z.leb_spec a b) end; (split; [done|]); lia. }
  destruct (@compact_keeps ConsensusPoSError new Wnew) as (c & v & Hc & Hv & Wv & Vv). rewrite <- Vnew. by exists c, v.
Qed.
End new_target.

(** ** The average time between blocks *)

Section average.
Context `{StakeCrypto}.

(** The height at which the averaging starts: as many blocks back as the
    configuration says, but not before the genesis. *)
Lemma start_of_averaging (h : BlockHeight) (d : BlockDistance) (start : BlockHeight) :
  ival h < 2 ^ 63 -> 0 <= ival d -> ival start = Z.max 0 (ival h - ival d) ->
  default BlockHeight.zero (BlockHeight.sub h d) = start.
Proof.
  intros Hh Hd Hs. pose proof (bint_range h) as Rh. pose proof (bint_range d) as Rd. unfold BlockHeight.sub, BlockHeight.try_into_i64.
  destruct (bint_of_Z_is_Some (lo := - 2 ^ 63) (hi := 2 ^ 63 - 1) (ival h)) as (x & -> & Vx); [lia|]. cbn [mbind option_bind].
  rewrite (proj2 (Z.ltb_ge _ _)) by lia.
  destruct (bint_of_Z_is_Some (lo := - 2 ^ 63) (hi := 2 ^ 63 - 1) (ival x - ival d)) as (y & -> & Vy); [lia|]. cbn [mbind option_bind].
  apply bint_eq. destruct (Z.ltb_spec (ival y) 0); [cbn; lia|].
  destruct (bint_of_Z_is_Some (lo := 0) (hi := 2 ^ 64 - 1) (ival y)) as (z & -> & Vz); [lia|]. cbn. unfold id. lia.
Qed.

Lemma average_block_time_value (config : PoSChainConfig) (bi : BlockIndex) get_ancestor start a :
  2 <= ival (block_count_to_average_for_blocktime config) < 2 ^ 63 -> 0 < ival (bi_block_height bi) < 2 ^ 63 ->
  let n := Z.min (ival (bi_block_height bi)) (ival (block_count_to_average_for_blocktime config) - 1) in
  ival start = ival (bi_block_height bi) - n -> get_ancestor bi start = Ok a ->
  let span := ival (bi_block_timestamp bi) - ival (gen_block_timestamp a) in
  calculate_average_block_time config bi get_ancestor =
    if span <? 0 then Err InvariantBrokenNotMonotonicBlockTime else Ok (span / n).
Proof.
  intros Hc Hh n Hs Ha span. unfold calculate_average_block_time, as_i64. rewrite (proj2 (Z.ltb_lt _ _)) by lia.
  destruct (bint_of_Z_is_Some (lo := - 2 ^ 63) (hi := 2 ^ 63 - 1) (ival (block_count_to_average_for_blocktime config) - 1))
    as (d & Hd & Vd); [lia|]. setoid_rewrite Hd. cbn [expect mbind result_bind].
  rewrite (start_of_averaging _ d start) by lia. rewrite (proj2 (Z.ltb_lt _ _)) by lia.
  cbn [ensure mbind result_bind]. rewrite Ha. cbn [map_err mbind result_bind]. fold span.
  pose proof (bint_range (bi_block_timestamp bi)). pose proof (bint_range (gen_block_timestamp a)). pose proof (bint_range start).
  destruct (Z.ltb_spec span 0) as [Hneg|Hpos].
  - by rewrite (proj2 (bint_of_Z_None (lo := 0) (hi := 2 ^ 64 - 1) span)) by lia.
  - destruct (bint_of_Z_is_Some (lo := 0) (hi := 2 ^ 64 - 1) span) as (x & -> & Vx); [unfold span in *; lia|].
    cbn [ok_or mbind result_bind]. unfold BlockHeight.distance, BlockHeight.try_into_i64.
    destruct (bint_of_Z_is_Some (lo := - 2 ^ 63) (hi := 2 ^ 63 - 1) (ival (bi_block_height bi))) as (h1 & -> & V1); [lia|].
    destruct (bint_of_Z_is_Some (lo := - 2 ^ 63) (hi := 2 ^ 63 - 1) (ival start)) as (h2 & -> & V2); [lia|].
    cbn [mbind option_bind].
    destruct (bint_of_Z_is_Some (lo := - 2 ^ 63) (hi := 2 ^ 63 - 1) (ival h1 - ival h2)) as (y & Hy & Vy); [lia|].
    setoid_rewrite Hy. cbn [expect mbind result_bind]. rewrite Vx, Vy, V1, V2. do 2 f_equal. lia.
Qed.
End average.

(** ** The stake hash *)

Section hash_lemmas.
Context `{StakeCrypto}.

(** The comparison in 512 bits never overflows. *)
Lemma hash_below_product (hash target : uint) (balance : Amount) : wf 4 hash -> wf 4 target ->
  exists p, @checked_mul ConsensusPoSError (from_u128 8 balance) (into_uint512 target) = Ok (Some p) /\
    uint_leb (into_uint512 hash) p = (value hash <=? ival balance * value target).
Proof.
  intros Hh Ht. destruct (into_uint512_value hash Hh) as [Wh Vh]. destruct (into_uint512_value target Ht) as [Wt Vt].
  destruct (value_from_u128 6 balance) as [Wb Vb].
  pose proof (value_range 4 _ Ht) as Rt. rewrite W4 in Rt. pose proof (bint_range balance) as Rb.
  destruct (@mul_fits ConsensusPoSError 7 _ _ Wb Wt) as (p & Hp & Wp & Vp).
  { rewrite Vb, Vt, W8. assert (ival balance * value target <= u128_MAX * 2 ^ 256) by (apply Z.mul_le_mono_nonneg; lia).
    assert (u128_MAX * 2 ^ 256 < 2 ^ 512) by done. lia. }
  exists p. split; [done|]. by rewrite (ConsensusPoW.uint_leb_value 8), Vh, Vp, Vb, Vt.
Qed.

(** The balance that counts in a version of the consensus. *)
Definition counting_balance (version : PoSConsensusVersion.t) (pledge balance supply : Amount) :
    result EffectiveBalance.EffectivePoolBalanceError Amount :=
  match version with
  | PoSConsensusVersion.V0 => Ok balance
  | PoSConsensusVersion.V1 => effective_pool_balance pledge balance supply
  end.

Lemma check_pos_hash_eq version (hash target : uint) pledge balance supply : wf 4 hash -> wf 4 target ->
  check_pos_hash version hash target pledge balance supply =
    (e ← map_err EffectivePoolBalanceError (counting_balance version pledge balance supply);
     ensure (value hash <=? ival e * value target) StakeKernelHashTooHigh).
Proof.
  intros Hh Ht. destruct version; cbn [check_pos_hash counting_balance map_err mbind result_bind].
  - unfold check_pos_hash_v0. destruct (hash_below_product hash target balance Hh Ht) as (p & -> & Hle).
    cbn [mbind result_bind expect]. by rewrite Hle.
  - unfold check_pos_hash_v1. destruct (effective_pool_balance pledge balance supply) as [e| |]; [|done..].
    cbn [map_err mbind result_bind]. destruct (hash_below_product hash target e Hh Ht) as (p & -> & Hle).
    cbn [mbind result_bind expect]. by rewrite Hle.
Qed.

(** What a stake hash must satisfy. *)
Definition stake_hash_ok (version : PoSConsensusVersion.t) (epoch : EpochIndex) (seed : PoSRandomness) (target : uint)
    (vrf : VRFReturn) (key : VRFPublicKey) (t : BlockTimestamp) (pledge balance supply : Amount) : Prop :=
  exists hash e, verify_vrf_and_get_vrf_output epoch seed vrf key t = Ok hash /\
    counting_balance version pledge balance supply = Ok e /\
    value (hash_to_uint hash) <= ival e * value target.

Lemma calc_and_check_pos_hash_Ok version epoch seed target vrf key t pledge balance supply : wf 4 target ->
  calc_and_check_pos_hash version epoch seed target vrf key t pledge balance supply = Ok tt <->
  stake_hash_ok version epoch seed target vrf key t pledge balance supply.
Proof.
  intros Ht. unfold calc_and_check_pos_hash, stake_hash_ok, randomness_from_block. split.
  - intros Hok. run_inv. rewrite check_pos_hash_eq in * by (done || apply hash_to_uint_wf). run_inv.
    do 2 eexists. split; [done|]. split; [done|]. by apply Z.leb_le.
  - intros (hash & e & -> & He & Hle). cbn [map_err mbind result_bind].
    rewrite check_pos_hash_eq by (done || apply hash_to_uint_wf). rewrite He. cbn [map_err mbind result_bind].
    by rewrite (proj2 (Z.leb_le _ _) Hle).
Qed.
End hash_lemmas.

(** ** Accepted headers *)

Section accepted.
Context `{StakeCrypto} `{!BlockHashes} {U P : Type} `{!Utxo.UtxosView U} `{!PoS.PoSAccountingView P}.
Context (pos_error : PoS.view_error -> PoS.Error) (cfg : ChainConfig) (db : gmap BlockId BlockIndex).
Context (epochs : gmap EpochIndex PoSRandomness) (utxos : U) (pools : P).
Implicit Types (header : SignedBlockHeader) (d : PoSData) (g : GenBlockIndex).

(** The target that the check requires is the one that a producer computes from
    the index of the previous block. *)
Lemma calculate_target_required_eq status id g : gen_block_index_getter cfg db id = Some g ->
  calculate_target_required cfg status id db =
  calculate_target_required_from_block_index cfg status g (get_ancestor_from_block_index_handle cfg db).
Proof.
  intros Hg. unfold calculate_target_required, calculate_target_required_from_block_index, gen_block_index_getter in *.
  destruct (classify cfg id) as [prev|]; [apply fmap_Some in Hg as (bi & -> & ->)|injection Hg as <-];
    by destruct status as [|[|]].
Qed.

(** The key that the kernel stakes for. *)
Definition kernel_key (out : TxOutput) (key : PublicKey) : Prop :=
  (exists id sp, out = CreateStakePool id sp /\ sp_staker sp = DestPublicKey key) \/
  (exists id, out = ProduceBlockFromStake (DestPublicKey key) id).

(** The state that a header is checked against: the pool, its balances, the
    seed and the epoch of the height after [g], and the final supply. *)
Record stake_context d g (pool : PoS.PoolData) (balance pledge supply : Amount) (seed : PoSRandomness) (epoch : EpochIndex) : Prop := {
  ctx_pool : PoS.get_pool_data pools (stake_pool_id d) = Ok (Some pool);
  ctx_balance : PoS.get_pool_balance pools (stake_pool_id d) = Ok balance;
  ctx_pledge : PoS.staker_balance pool = Ok pledge;
  ctx_supply : cfg_final_supply cfg = Some supply;
  ctx_height : exists height : BlockHeight, ival height = ival (gen_block_height g) + 1 /\
    randomness_of_sealed_epoch cfg height epochs = Ok seed /\ ival epoch = ival height / ival (epoch_length cfg)
}.

Definition stake_accepted status header d g : Prop :=
  calculate_target_required_from_block_index cfg status g (get_ancestor_from_block_index_handle cfg db) = Ok (compact_target d) /\
  ival (gen_block_timestamp g) < ival (hdr_timestamp header) /\
  (exists out key sig, get_kernel_output (kernel_inputs d) utxos = Ok out /\ kernel_key out key /\
     signature_data header = Some sig /\ verify_message key sig header = true) /\
  exists pool balance pledge supply seed epoch target, stake_context d g pool balance pledge supply seed epoch /\
    try_from_compact (compact_target d) = Ok target /\
    stake_hash_ok (consensus_version (PoSStatus.get_chain_config status)) epoch seed target (vrf_data d)
      (PoS.vrf_public_key pool) (hdr_timestamp header) pledge balance supply.

Lemma kernel_signature_Ok header out :
  (dest ← staker_destination header out; map_err BlockSignatureError (check_block_signature header dest)) = Ok tt <->
  exists key sig, kernel_key out key /\ signature_data header = Some sig /\ verify_message key sig header = true.
Proof.
  split.
  - intros Hok. run_inv. unfold check_block_signature in *.
    repeat case_match; try discriminate; run_inv. do 2 eexists. split; [|by split].
    destruct out; simpl in *; try discriminate; run_inv; [left; by do 2 eexists|right; by eexists].
  - intros (key & sig & Hk & Hs & Hv).
    destruct Hk as [(id & sp & -> & Hsp)|(id & ->)]; cbn [staker_destination mbind result_bind];
      unfold check_block_signature; [rewrite Hsp|]; by rewrite Hs, Hv.
Qed.

Lemma check_proof_of_stake_Ok status header d g :
  gen_block_index_getter cfg db (hdr_prev_block_id header) = Some g ->
  check_proof_of_stake pos_error cfg status header d db epochs utxos pools = Ok tt <-> stake_accepted status header d g.
Proof.
  intros Hg. unfold check_proof_of_stake, stake_accepted. rewrite (calculate_target_required_eq _ _ _ Hg), Hg. split.
  - intros Hok. apply result_bind_Ok in Hok as (c & Hc & Hok). apply result_bind_Ok in Hok as (? & He & Hok).
    apply ensure_Ok, bool_decide_eq_true in He as ->. split; [done|].
    unfold enforce_timestamp_ordering, BlockHeight.next_height in Hok. run_inv.
    match goal with Heq : Some g = Some _ |- _ => injection Heq as <- end.
    split; [by apply Z.ltb_lt|]. split.
    + destruct (proj1 (kernel_signature_Ok header x7)) as (key & sig & Hks); [|by exists x7, key, sig].
      match goal with Hs : staker_destination _ _ = Ok _ |- _ => rewrite Hs end. cbn [mbind result_bind]. by apply map_err_Ok.
    + unfold compact_target_to_target in *. run_inv. subst.
      do 7 eexists. split; [|split; [eassumption|apply calc_and_check_pos_hash_Ok; [by eapply ConsensusPoW.try_from_compact_wf|eassumption]]].
      split; try eassumption. eexists. split; [by apply bint_of_Z_Some|]. split; [eassumption|]. by apply bint_of_Z_Some.
  - intros (-> & Ht & (out & key & sig & Hout & Hks) & (pool & balance & pledge & supply & seed & epoch & target & Hctx & Hdec & Hhash)).
    destruct Hctx as [Hpool Hbal Hpl Hsup (height & Hh & Hseed & Hep)].
    cbn [mbind result_bind]. rewrite bool_decide_true by done. cbn [ensure ok_or mbind result_bind].
    unfold enforce_timestamp_ordering, BlockHeight.next_height, compact_target_to_target.
    rewrite (proj2 (Z.ltb_lt _ _) Ht), (proj2 (bint_of_Z_Some _ height) Hh). cbn [ensure expect mbind result_bind].
    change (ival epoch = epoch_index_from_height cfg height) in Hep.
    rewrite Hseed. cbn [mbind result_bind]. rewrite (proj2 (bint_of_Z_Some _ epoch) Hep). cbn [expect mbind result_bind].
    rewrite Hpool. cbn [map_err ok_or mbind result_bind]. rewrite Hout. cbn [mbind result_bind].
    pose proof (proj2 (kernel_signature_Ok header out) ltac:(by exists key, sig)) as Hsig.
    apply result_bind_Ok in Hsig as (dest & Hdest & Hsig). rewrite Hdest. cbn [mbind result_bind].
    rewrite Hsig. cbn [mbind result_bind].
    rewrite Hbal, Hpl, Hsup, Hdec. cbn [map_err ok_or mbind result_bind].
    apply calc_and_check_pos_hash_Ok; [by eapply ConsensusPoW.try_from_compact_wf|done].
Qed.
End accepted.

(** ** Staking *)

Section staking.
Context `{StakeCrypto} {R : Type} `{!StakingKeys R}.
Context (supply : Amount) (config : PoSChainConfig) (target : uint) (seed : PoSRandomness) (epoch : EpochIndex).
Context (pledge balance : Amount) (key : VRFPrivateKey).
Abbreviation slot := (check_slot supply config target seed epoch pledge balance key).
Abbreviation vrf_for t rng := (produce_vrf_data epoch seed t key rng).1.

(** The slot [t] is not accepted with VRF data that was made for it. *)
Definition slot_fails (t : BlockTimestamp) : Prop := exists rng e, slot t (vrf_for t rng) = Err e.

Definition search_outcome (lo hi : Z) (r : result ConsensusPoSError (option (BlockTimestamp * VRFReturn))) : Prop :=
  match r with
  | Ok (Some (t, vrf)) => lo <= ival t < hi /\ slot t vrf = Ok tt /\ (exists rng, vrf = vrf_for t rng) /\
      forall s, lo <= ival s < ival t -> slot_fails s
  | Ok None => forall s, lo <= ival s < hi -> slot_fails s
  | Err _ => False
  | Panic => exists t rng, lo <= ival t < hi /\ slot t (vrf_for t rng) = Panic
  end.

Lemma search_slots_outcome count (t : BlockTimestamp) rng : ival t + Z.of_nat count <= 2 ^ 64 ->
  search_outcome (ival t) (ival t + Z.of_nat count)
    (search_slots supply config target seed epoch pledge balance key count t rng).
Proof.
  revert t rng. induction count as [|count IH]; intros t rng Hle; [simpl; intros; lia|].
  cbn [search_slots]. destruct (produce_vrf_data epoch seed t key rng) as [vrf rng'] eqn:Hvrf.
  assert (vrf = vrf_for t rng) as Hv by (by rewrite Hvrf).
  destruct (slot t vrf) as [[]|e|] eqn:Hslot.
  - split; [lia|]. split; [done|]. split; [by exists rng|]. intros; lia.
  - assert (slot_fails t) as Hfail by (exists rng, e; by rewrite <- Hv).
    destruct count as [|count].
    { intros s Hs. by assert (s = t) as -> by (apply bint_eq; lia). }
    pose proof (bint_range t).
    destruct (bint_of_Z_is_Some (lo := 0) (hi := 2 ^ 64 - 1) (ival t + 1)) as (t1 & -> & Vt1); [lia|]. cbn [from_option]. unfold id.
    specialize (IH t1 rng' ltac:(lia)).
    assert (forall s, ival t <= ival s -> ival t1 <= ival s \/ s = t) as Hcase.
    { intros s Hs. destruct (Z.eq_dec (ival s) (ival t)); [right; by apply bint_eq|left; lia]. }
    destruct (search_slots _ _ _ _ _ _ _ _ (S count) t1 rng') as [[[t' vrf']|]|e'|]; cbn in IH |- *.
    + destruct IH as (? & ? & ? & Hmin). split; [lia|]. split; [done|]. split; [done|].
      intros s Hs. destruct (Hcase s ltac:(lia)) as [? | ->]; [apply Hmin; lia|done].
    + intros s Hs. destruct (Hcase s ltac:(lia)) as [? | ->]; [apply IH; lia|done].
    + done.
    + destruct IH as (t2 & rng2 & ? & ?). exists t2, rng2. split; [lia|done].
  - exists t, rng. split; [lia|]. by rewrite <- Hv.
Qed.
End staking.

Lemma ensure_no_panic {E} b (e : E) : ensure b e <> Panic.
Proof. by destruct b. Qed.

(** Checking a slot does not panic for a supply within range. *)
Lemma check_slot_no_panic `{StakeCrypto} {R} `{!StakingKeys R} supply config target seed epoch pledge balance key t vrf :
  ival supply < 2 ^ 86 -> wf 4 target ->
  check_slot supply config target seed epoch pledge balance key t vrf <> Panic.
Proof.
  intros Hs Ht. unfold check_slot, calc_and_check_pos_hash, randomness_from_block, verify_vrf_and_get_vrf_output.
  destruct (verify_vrf_data _ _ _); [done|]. destruct (calculate_vrf_output _ _ _) as [|h]; [done|].
  cbn [map_err mbind result_bind]. rewrite check_pos_hash_eq by (done || apply hash_to_uint_wf).
  destruct (consensus_version config); cbn [counting_balance map_err mbind result_bind].
  - apply ensure_no_panic.
  - pose proof (effective_pool_balance_outcome pledge balance supply Hs) as Ho. unfold effective_outcome in Ho.
    destruct (effective_pool_balance pledge balance supply) as [e|e|].
    + apply ensure_no_panic.
    + done.
    + repeat case_match; try done; by destruct Ho as (? & ? & _).
Qed.

(** ** What staking produces *)

Section produced.
Context `{StakeCrypto} `{!BlockHashes} {R : Type} `{!StakingKeys R} {U P : Type} `{!Utxo.UtxosView U} `{!PoS.PoSAccountingView P}.
Context (pos_error : PoS.view_error -> PoS.Error) (cfg : ChainConfig) (db : gmap BlockId BlockIndex).
Context (epochs : gmap EpochIndex PoSRandomness) (utxos : U) (pools : P) (status : PoSStatus) (d : PoSData) (g : GenBlockIndex).
Context (fin : PoSFinalizeBlockInputData (R := R)) (h : BlockHeader) (first last : BlockTimestamp) (key : PublicKey).
Abbreviation config := (PoSStatus.get_chain_config status).

(** The inputs that a producer takes from the chain: the target after the
    previous block [g], times after it, the pool with its balances, the seed and
    the epoch, the VRF key of the pool and the key of the kernel. *)
Record staking_inputs (pool : PoS.PoolData) (supply : Amount) (target : uint) (out : TxOutput) : Prop := {
  in_decodes : try_from_compact (compact_target d) = Ok target;
  in_slots : ival first <= ival last;
  in_supply : ival supply < 2 ^ 86;
  in_prev : gen_block_index_getter cfg db (hdr_prev_block_id h) = Some g;
  in_later : ival (gen_block_timestamp g) < ival first;
  in_target : calculate_target_required_from_block_index cfg status g (get_ancestor_from_block_index_handle cfg db) =
                Ok (compact_target d);
  in_context : stake_context cfg epochs pools d g pool (fin_pool_balance fin) (fin_pledge_amount fin) supply
                 (fin_sealed_epoch_randomness fin) (fin_epoch_index fin);
  in_vrf_key : PoS.vrf_public_key pool = from_private_key (fin_vrf_private_key fin);
  in_kernel : get_kernel_output (kernel_inputs d) utxos = Ok out;
  in_kernel_key : kernel_key out key
}.

(** What [stake] returns. *)
Definition stake_outcome (supply : Amount) (target : uint)
    (r : (BlockHeader * BlockTimestamp) * result ConsensusPoSError StakeResult) : Prop :=
  let slot_fails := slot_fails supply config target (fin_sealed_epoch_randomness fin) (fin_epoch_index fin)
                      (fin_pledge_amount fin) (fin_pool_balance fin) (fin_vrf_private_key fin) in
  match r with
  | ((h', t), Ok StakeSuccess) =>
      ival first <= ival t <= ival last /\ (forall s, ival first <= ival s < ival t -> slot_fails s) /\
      exists d', hdr_consensus_data h' = ConsensusPoS d' /\ hdr_timestamp h' = t /\ hdr_prev_block_id h' = hdr_prev_block_id h /\
        forall sig, verify_message key sig h' = true ->
          check_proof_of_stake pos_error cfg status (with_signature h' (Some sig)) d' db epochs utxos pools = Ok tt
  | ((h', t), Ok StakeFailed) => h' = h /\ t = last /\ forall s, ival first <= ival s <= ival last -> slot_fails s
  | _ => False
  end.

Lemma stake_runs pool supply target out (rng : R) : staking_inputs pool supply target out ->
  stake_outcome supply target (stake cfg config d last fin rng (h, first)).
Proof.
  intros [Htgt Hfl Hsup Hg Htime Hreq Hctx Hkey Hout Hkk].
  unfold stake, find_timestamp_for_staking, compact_target_to_target, mbind, st_bind, lift, self, modify.
  rewrite (ctx_supply _ _ _ _ _ _ _ _ _ _ _ Hctx). cbn [ok_or]. unfold result_bind. rewrite Htgt. cbn [map_err].
  rewrite (proj2 (Z.leb_le _ _) Hfl). cbn [ensure].
  pose proof (bint_range first). pose proof (bint_range last).
  pose proof (search_slots_outcome supply config target (fin_sealed_epoch_randomness fin) (fin_epoch_index fin)
    (fin_pledge_amount fin) (fin_pool_balance fin) (fin_vrf_private_key fin)
    (Z.to_nat (ival last - ival first + 1)) first rng ltac:(lia)) as Hout'.
  rewrite Z2Nat.id in Hout' by lia. replace (ival first + (ival last - ival first + 1)) with (ival last + 1) in Hout' by lia.
  destruct (search_slots _ _ _ _ _ _ _ _ _ _ _) as [[[t vrf]|]|e|]; [| |done|].
  - destruct Hout' as (Ht & Hslot & _ & Hmin). split; [lia|]. split; [exact Hmin|].
    exists (update_vrf_data vrf d). split; [done|]. split; [done|]. split; [done|]. intros sig Hsig.
    apply (check_proof_of_stake_Ok pos_error cfg db epochs utxos pools status _ _ g); [exact Hg|].
    split; [exact Hreq|]. split; [cbn; lia|]. split; [by exists out, key, sig|].
    exists pool, (fin_pool_balance fin), (fin_pledge_amount fin), supply, (fin_sealed_epoch_randomness fin),
      (fin_epoch_index fin), target.
    split; [by destruct Hctx|]. split; [exact Htgt|]. rewrite Hkey.
    apply calc_and_check_pos_hash_Ok; [by eapply ConsensusPoW.try_from_compact_wf|exact Hslot].
  - split; [done|]. split; [done|]. intros s Hs. apply Hout'. lia.
  - destruct Hout' as (t & rng' & _ & Hp). revert Hp.
    apply check_slot_no_panic; [done|by eapply ConsensusPoW.try_from_compact_wf].
Qed.
End produced.

(** * Theorems *)

(** C26: The target after a proof-of-stake block, when no upgrade sets it: the
    time between the block and the one that starts the averaging, divided by the
    number of blocks between them, scales the old target; the result changes by
    at most the configured part of a thousand, is capped at the limit of the
    chain and rounded down to the compact form.  A chain whose time went
    backwards over the averaged blocks is reported as an error.  Nothing
    overflows or panics. *)
Theorem pos_target_exact `{StakeCrypto} (cfg : ChainConfig) (config : PoSChainConfig) (prev : BlockIndex) (status : PoSStatus)
    (d : PoSData) (old : uint) (get_ancestor : BlockIndex -> BlockHeight -> result CrateChainstateError GenBlockIndex)
    (start : BlockHeight) (a : GenBlockIndex) :
  consensus_status (E := ConsensusPoSError) (consensus_upgrades cfg) (bi_block_height prev) = Ok (RequiredConsensus.PoS status) ->
  (forall difficulty c, status <> PoSStatus.Threshold (Some difficulty) c) ->
  bi_consensus_data prev = ConsensusPoS d -> try_from_compact (compact_target d) = Ok old ->
  wf 4 (target_limit config) -> ival (target_block_spacing cfg) <> 0 ->
  2 <= ival (block_count_to_average_for_blocktime config) < 2 ^ 63 -> 0 < ival (bi_block_height prev) < 2 ^ 63 ->
  let n := Z.min (ival (bi_block_height prev)) (ival (block_count_to_average_for_blocktime config) - 1) in
  ival start = ival (bi_block_height prev) - n -> get_ancestor prev start = Ok a ->
  let span := ival (bi_block_timestamp prev) - ival (gen_block_timestamp a) in
  let change := ival (difficulty_change_limit config) in
  let required := calculate_target_required_internal cfg config prev get_ancestor in
  if span <? 0 then required = Err InvariantBrokenNotMonotonicBlockTime
  else exists c new, required = Ok c /\ try_from_compact c = Ok new /\
    value new = kept (next_stake_target (value (target_limit config)) change (value old) (span / n)
                        (ival (target_block_spacing cfg))) /\
    value new <= value (target_limit config) /\ value new <= value old + value old * change / 1000 /\
    (value old - value old * change / 1000 <= value (target_limit config) ->
     exists exact, value old - value old * change / 1000 <= exact /\ value new <= exact /\ (exact - value new) * 2 ^ 15 <= exact).
Proof.
  intros Hst Hth Hd Hold Hlim Hsp Hc Hh n Hstart Ha span change required.
  pose proof (average_block_time_value config prev get_ancestor start a Hc Hh Hstart Ha) as Havg. cbv zeta in Havg. fold span n in Havg.
  assert (required = (average ← calculate_average_block_time config prev get_ancestor;
                      calculate_new_target config old average (ival (target_block_spacing cfg)))) as ->.
  { unfold required, calculate_target_required_internal. rewrite Hst. cbn [mbind result_bind].
    destruct status as [c|[dif|] c]; [| by destruct (Hth dif c)|]; rewrite Hd, Hold; cbn [map_err mbind result_bind];
      destruct (calculate_average_block_time config prev get_ancestor); try done; cbn [mbind result_bind];
      (rewrite (proj2 (Z.eqb_neq _ _)) by done); done. }
  rewrite Havg. destruct (Z.ltb_spec span 0) as [|Hpos]; [done|]. cbn [mbind result_bind].
  pose proof (bint_range (bi_block_timestamp prev)). pose proof (bint_range (gen_block_timestamp a)).
  pose proof (bint_range (target_block_spacing cfg)).
  assert (0 <= span / n < 2 ^ 64) as Hspan.
  { split; [apply Z.div_pos; lia|]. apply Z.div_lt_upper_bound; [lia|]. unfold span in *. nia. }
  destruct (calculate_new_target_value_posc config old (span / n) (ival (target_block_spacing cfg))) as (c & new & Hrun & Hnew & Wnew & Vnew);
    [by eapply ConsensusPoW.try_from_compact_wf|done..|lia|].
  exists c, new. fold change in Vnew.
  pose proof (value_range 4 _ Hlim) as Rl. pose proof (value_range 4 _ (ConsensusPoW.try_from_compact_wf _ _ Hold)) as Ro.
  pose proof (bint_range (difficulty_change_limit config)) as Rc. fold change in Rc.
  destruct (next_stake_target_bounds (value (target_limit config)) change (value old) (span / n) (ival (target_block_spacing cfg)))
    as (B1 & B2 & B3); [lia..|]. unfold target_change in B2, B3.
  destruct (kept_close (next_stake_target (value (target_limit config)) change (value old) (span / n) (ival (target_block_spacing cfg))))
    as (K1 & K2 & _); [lia|].
  split; [done|]. split; [done|]. split; [done|]. split; [lia|]. split; [lia|].
  intros Hle. eexists. rewrite Vnew. split; [by apply B3|]. done.
Qed.

(** C25: A header is accepted by the proof-of-stake check exactly when its target
    is the one that a producer computes from the index of the previous block,
    its time is later than that block's, its one kernel is an unspent output
    that stakes for a public key which signed the header, and its VRF data
    verifies, for the pool's key, the seed of the sealed epoch and the time, to a
    hash of at most the counting balance of the pool times the target. *)
Theorem pos_accepts_exactly `{StakeCrypto} `{!BlockHashes} {U P} `{!Utxo.UtxosView U} `{!PoS.PoSAccountingView P}
    (pos_error : PoS.view_error -> PoS.Error) (cfg : ChainConfig) (db : gmap BlockId BlockIndex)
    (epochs : gmap EpochIndex PoSRandomness) (utxos : U) (pools : P) (status : PoSStatus) (header : SignedBlockHeader)
    (d : PoSData) (g : GenBlockIndex) :
  gen_block_index_getter cfg db (hdr_prev_block_id header) = Some g ->
  check_proof_of_stake pos_error cfg status header d db epochs utxos pools = Ok tt <->
  stake_accepted cfg db epochs utxos pools status header d g.
Proof. apply check_proof_of_stake_Ok. Qed.

(** What staking produces is accepted.  The search over the time slots
    returns the first slot that the stake check accepts, or none when every slot
    fails, and never panics for a supply below 2^86 atoms.  When it succeeds with
    the target, the seed, the epoch and the balances of the chain, starting
    after the previous block, the header with the new time and VRF data passes
    the proof-of-stake check once it is signed with the key of the kernel. *)
Theorem staked_header_accepted `{StakeCrypto} `{!BlockHashes} {R} `{!StakingKeys R} {U P} `{!Utxo.UtxosView U}
    `{!PoS.PoSAccountingView P} (pos_error : PoS.view_error -> PoS.Error) (cfg : ChainConfig) (db : gmap BlockId BlockIndex)
    (epochs : gmap EpochIndex PoSRandomness) (utxos : U) (pools : P) (status : PoSStatus) (d : PoSData) (g : GenBlockIndex)
    (fin : PoSFinalizeBlockInputData) (pool : PoS.PoolData) (supply : Amount) (rng : R) (h : BlockHeader)
    (first last : BlockTimestamp) (target : uint) (out : TxOutput) (key : PublicKey) :
  staking_inputs cfg db epochs utxos pools status d g fin h first last key pool supply target out ->
  stake_outcome pos_error cfg db epochs utxos pools status fin h first last key supply target
    (stake cfg (PoSStatus.get_chain_config status) d last fin rng (h, first)).
Proof. apply stake_runs. Qed.

Module Witnesses.
Import ChainConfig.Example.
#[local] Existing Instance numbered_keys.
#[local] Open Scope N_scope.

(** The id of a header is its transactions' root, the VRF data of a key is the
    key, its output is small from time 103 on, and a signature is the key. *)
#[export] Instance root_hashes : BlockHashes := {| header_id := hdr_tx_merkle_root |}.
#[export] Instance plain_crypto : StakeCrypto := {|
  VRFError := unit;
  verify_vrf_data key _ vrf := if vrf =? key then None else Some tt;
  calculate_vrf_output _ _ tr := inr (if (ival (tr_slot tr) <? 103)%Z then 256 ^ 28 else 0);
  verify_message key sig _ := sig =? key
|}.
#[export] Instance plain_keys : StakingKeys unit := {|
  VRFPrivateKey := N; from_private_key := id; produce_vrf_data_with key _ rng := (key, rng) |}.

Definition config : PoSChainConfig := {|
  target_limit := from_u64 4 1000; pos_spend_maturity := u64_lit 10;
  block_count_to_average_for_blocktime := u64_lit 3;
  difficulty_change_limit := @mk_bint 0 1000 100 eq_refl; consensus_version := PoSConsensusVersion.V1 |}.
Definition staking : ChainConfig := cfg_for (ConsensusUpgrade.PoS None config) 1000.
Definition compact_500 : Compact := @mk_bint 0 (2 ^ 32 - 1) 0x0201F400 eq_refl.
Definition compact_1000 : Compact := @mk_bint 0 (2 ^ 32 - 1) 0x0203E800 eq_refl.
Definition kernel : UtxoOutPoint := Utxo.outpoint (SourceBlockReward 1) 0.
Definition data (target : Compact) : PoSData :=
  {| kernel_inputs := [InputUtxo kernel]; stake_pool_id := 5; vrf_data := 9; compact_target := target |}.

(** A block at height 4 with target 500, 240 seconds after the genesis that the
    two blocks before it count from. *)
Definition fourth : BlockIndex :=
  mk_block_index 4 (with_no_signature (mk_header 3 4 0 (u64_lit 340) (ConsensusPoS (data compact_500))))
    0 (from_u64 4 4) (u64_lit 4) (u64_lit 340) Amount.ZERO BlockStatus.new true.
Definition at_100 (_ : BlockIndex) (_ : BlockHeight) : result CrateChainstateError GenBlockIndex :=
  Ok (GenBlockIndex.Genesis 0 (u64_lit 100)).

(** The blocks took 120 seconds each, as they should: the target stays. *)
Lemma pos_target_exact_witness : exists c new,
  calculate_target_required_internal staking config fourth at_100 = Ok c /\ try_from_compact c = Ok new /\ value new = 500%Z.
Proof.
  pose proof (pos_target_exact staking config fourth (PoSStatus.Ongoing config) (data compact_500) (from_u64 4 500) at_100
    (u64_lit 2) (GenBlockIndex.Genesis 0 (u64_lit 100))) as H.
  specialize (H eq_refl ltac:(discriminate) eq_refl ltac:(vm_compute; reflexivity)
    ltac:(split; [reflexivity|repeat constructor; compute; discriminate]) ltac:(discriminate)
    ltac:(vm_compute; split; [discriminate|reflexivity]) ltac:(vm_compute; split; reflexivity) eq_refl eq_refl).
  cbv zeta in H. destruct H as (c & new & Hc & Hnew & Hv & _). exists c, new. split; [exact Hc|]. split; [exact Hnew|].
  rewrite Hv. vm_compute. reflexivity.
Defined.

(** A target of less than a thousand parts of the limit does not move: with a
    change limit of one in a thousand, blocks that take a hundred times as long
    as they should leave a target of 500 where it is. *)
Example small_target_stays : next_stake_target 100000 1 500 12000 120 = 500%Z.
Proof. reflexivity. Qed.

Definition utxos : Utxo.UtxosDB Utxo.UtxosDBInMemoryImpl :=
  Utxo.mk_db (Utxo.mk_in_memory {[kernel := Utxo.mk_utxo (ProduceBlockFromStake (DestPublicKey 7) 5) (Utxo.Blockchain (u64_lit 1))]} 1).
Definition pool : PoS.PoolData :=
  PoS.mk_pool AnyoneCanSpend (Amount.lit 100) Amount.ZERO 9 (@mk_bint 0 1000 0 eq_refl) Amount.ZERO.
Definition pools : PoS.PoSAccountingDB PoS.InMemoryPoSAccounting :=
  PoS.mk_db (PoS.mk_in_memory {[5 := pool]} {[5 := Amount.lit 1000]} ∅ ∅ ∅).
Definition same_error : PoS.view_error (P := PoS.PoSAccountingDB PoS.InMemoryPoSAccounting) -> PoS.Error := fun e => e.
Definition fin : PoSFinalizeBlockInputData (R := unit) :=
  {| fin_vrf_private_key := 9 : VRFPrivateKey; fin_epoch_index := u64_lit 0; fin_sealed_epoch_randomness := 0;
     fin_pledge_amount := Amount.lit 100; fin_pool_balance := Amount.lit 1000 |}.
Definition supply : Amount := from_coins (u64_lit 600000000).
Definition status : PoSStatus := PoSStatus.Ongoing config.
Definition header : BlockHeader := mk_header 0 1 0 (u64_lit 0) ConsensusNone.

Lemma staking_context : stake_context staking ∅ pools (data compact_1000) (genesis staking) pool (Amount.lit 1000)
  (Amount.lit 100) supply 0 (u64_lit 0).
Proof.
  split; [vm_compute; reflexivity..|]. exists (u64_lit 1). split; [vm_compute; reflexivity|]. split; vm_compute; reflexivity.
Qed.

Lemma staking_inputs_ok : staking_inputs staking ∅ ∅ utxos pools status (data compact_1000) (genesis staking) fin header
  (u64_lit 101) (u64_lit 110) 7 pool supply (from_u64 4 1000) (ProduceBlockFromStake (DestPublicKey 7) 5).
Proof.
  split; [vm_compute; reflexivity|vm_compute; discriminate|vm_compute; reflexivity..|exact staking_context| | |].
  - reflexivity.
  - vm_compute. reflexivity.
  - right. by eexists.
Qed.

(** The slots 101 and 102 fail and 103 is found. *)
Definition staked : BlockHeader :=
  ConsensusPoW.update_timestamp (u64_lit 103) (ConsensusPoW.update_consensus_data (ConsensusPoS (data compact_1000)) header).

Lemma staked_header_accepted_witness :
  stake staking config (data compact_1000) (u64_lit 110) fin tt (header, u64_lit 101) = ((staked, u64_lit 103), Ok StakeSuccess) /\
  check_proof_of_stake same_error staking status (with_signature staked (Some 7)) (data compact_1000) ∅ ∅
    utxos pools = Ok tt.
Proof.
  split; [vm_compute; reflexivity|].
  pose proof (staked_header_accepted same_error staking ∅ ∅ utxos pools status (data compact_1000)
    (genesis staking) fin pool supply tt header (u64_lit 101) (u64_lit 110) (from_u64 4 1000)
    (ProduceBlockFromStake (DestPublicKey 7) 5) 7 staking_inputs_ok) as H.
  assert (stake staking (PoSStatus.get_chain_config status) (data compact_1000) (u64_lit 110) fin tt (header, u64_lit 101) =
          ((staked, u64_lit 103), Ok StakeSuccess)) as Hrun by (vm_compute; reflexivity).
  rewrite Hrun in H. destruct H as (_ & _ & d & Hd & _ & _ & Hok). injection Hd as <-. apply Hok. reflexivity.
Defined.

Lemma pos_accepts_exactly_witness :
  stake_accepted staking ∅ ∅ utxos pools status (with_signature staked (Some 7)) (data compact_1000) (genesis staking).
Proof.
  apply (pos_accepts_exactly same_error staking ∅ ∅ utxos pools status _ _ (genesis staking));
    vm_compute; reflexivity.
Defined.
End Witnesses.
