(* ===== verification/Constraints.v ===== *)
(** * Inputs against outputs

    Models the [constraints-value-accumulator] crate: the values that the
    inputs of a transaction bring in (unspent outputs, delegation balances,
    minted tokens, filled and concluded orders), the values its outputs
    require, the check that the inputs satisfy the outputs including the
    timelocks on staked coins, and the fees that remain.  The theorems show
    that the check succeeds exactly when the inputs cover the outputs and the
    timelocks can be kept, that it creates no value, and that the value an
    order, a delegation or a mint brings in is the value that leaves the
    corresponding ledger. *)
From S2P Require Import Prelude Amount Accounting ChainTypes ChainConfig Tokens Orders PoS.

(** ** Errors ([error.rs]) *)

Inductive Error :=
  | AmountOverflow
  | CoinOrTokenOverflow (c : CoinOrTokenId)
  | AttemptToPrintMoney (c : CoinOrTokenId)
  | AttemptToPrintMoneyOrViolateTimelockConstraints (c : CoinOrTokenId)
  | AttemptToViolateFeeRequirements
  | InputsAndInputsUtxosLengthMismatch (inputs utxos : nat)
  | MissingOutputOrSpent (o : UtxoOutPoint)
  | PoSAccountingError (e : PoS.Error)
  | OrdersAccountingError (e : Orders.Error)
  | TokensAccountingError (e : Tokens.Error)
  | PledgeAmountNotFound (id : PoolId)
  | SpendingNonSpendableOutput (o : UtxoOutPoint)
  | DelegationBalanceNotFound (id : DelegationId)
  | AccountBalanceNotFound (a : AccountType)
  | NegativeAccountBalance (a : AccountType)
  | UnsupportedTokenVersion.

(** ** Maps of amounts ([lib.rs], [accumulated_fee.rs]) *)

(** [NonZeroU64]. *)
Abbreviation NonZeroU64 := (bint 1 (2 ^ 64 - 1)).
Definition NonZeroU64_new (n : u64) : option NonZeroU64 := bint_of_Z (ival n).

Section amounts.
Context `{BTreeKey K}.
Abbreviation Amounts := (gmap K Amount).

(** The addition behind [entry(key).or_insert(ZERO)], with its error. *)
Definition increase_or (error : Error) (key : K) (amount : Amount) : ST Amounts Error unit :=
  value ← gets (fun m => Ok (default Amount.ZERO (m !! key)));
  _ ← modify (insert key value);
  sum ← lift (ok_or error (Amount.add value amount));
  modify (insert key sum).

Definition insert_or_increase (key : K) (amount : Amount) : ST Amounts Error unit :=
  increase_or AmountOverflow key amount.

Definition decrease_or (key : K) (amount : Amount) (error : Error) : ST Amounts Error unit :=
  if Amount.ltb Amount.ZERO amount then
    value ← gets (fun m => Ok (m !! key));
    match value with
    | Some value =>
        rest ← lift (ok_or error (Amount.sub value amount));
        modify (insert key rest)
    | None => lift (Err error)
    end
  else mret tt.

Definition merge_amount_maps (lhs rhs : Amounts) : result Error Amounts :=
  let '(lhs, r) := try_for_each (fun '(key, value) => insert_or_increase key value) (btree_iter rhs) lhs in
  _ ← r; Ok lhs.
End amounts.

Record AccumulatedFee := mk_fee {
  fee_unconstrained_value : gmap CoinOrTokenId Amount;
  fee_timelock_constrained : gmap NonZeroU64 Amount
}.

Definition AccumulatedFee_new : AccumulatedFee := mk_fee ∅ ∅.

Definition combine (self other : AccumulatedFee) : result Error AccumulatedFee :=
  u ← merge_amount_maps (fee_unconstrained_value self) (fee_unconstrained_value other);
  t ← merge_amount_maps (fee_timelock_constrained self) (fee_timelock_constrained other);
  Ok (mk_fee u t).

Definition map_into_block_fees (cfg : ChainConfig) (block_height : BlockHeight) (self : AccumulatedFee) :
    result Error Amount :=
  let unconstrained_change := default Amount.ZERO (fee_unconstrained_value self !! CoinOrTokenId.Coin) in
  maturity_distance ← staking_pool_spend_maturity_block_count cfg block_height;
  timelocked_change ← ok_or (CoinOrTokenOverflow CoinOrTokenId.Coin) (Amount.sum
    (omap (fun '(lock, amount) => if ival lock <=? ival maturity_distance then Some amount else None)
      (btree_iter (fee_timelock_constrained self))));
  ok_or (CoinOrTokenOverflow CoinOrTokenId.Coin) (Amount.add unconstrained_change timelocked_change).

(** ** The accumulator ([constraints_accumulator.rs]) *)

Record ConstrainedValueAccumulator := mk_acc {
  unconstrained_value : gmap CoinOrTokenId Amount;
  timelock_constrained : gmap NonZeroU64 Amount
}.
Abbreviation Acc := ConstrainedValueAccumulator.

Definition ConstrainedValueAccumulator_new : Acc := mk_acc ∅ ∅.

Definition from_block_reward (total_fee subsidy : Amount) : option Acc :=
  initial_value ← Amount.add total_fee subsidy;
  Some (mk_acc {[CoinOrTokenId.Coin := initial_value]} ∅).

(** A change of one of the two maps. *)
Definition in_unconstrained {A} (m : ST (gmap CoinOrTokenId Amount) Error A) : ST Acc Error A :=
  zoom unconstrained_value (fun u a => mk_acc u (timelock_constrained a)) (fun e => e) m.
Definition in_timelock {A} (m : ST (gmap NonZeroU64 Amount) Error A) : ST Acc Error A :=
  zoom timelock_constrained (fun t a => mk_acc (unconstrained_value a) t) (fun e => e) m.

Definition output_value_amount `{CryptoTypes} (value : OutputValue) : result Error Amount :=
  match value with
  | Coin amount | TokenV1 _ amount => Ok amount
  | TokenV0 _ => Err UnsupportedTokenVersion
  end.

Section accumulator.
Context `{CryptoTypes}.
Implicit Types (cfg : ChainConfig) (block_height : BlockHeight).

(** The value of an output that carries coins or tokens; tokens of the old
    version are ignored. *)
Definition add_output_value (value : OutputValue) : ST Acc Error unit :=
  match value with
  | Coin amount => in_unconstrained (insert_or_increase CoinOrTokenId.Coin amount)
  | TokenV0 _ => mret tt
  | TokenV1 token_id amount => in_unconstrained (insert_or_increase (CoinOrTokenId.TokenId token_id) amount)
  end.

(** Coins that have to stay locked for the maturity distance. *)
Definition add_maturing cfg block_height (coins : Amount) : ST Acc Error unit :=
  maturity_distance ← lift (staking_pool_spend_maturity_block_count cfg block_height);
  match NonZeroU64_new maturity_distance with
  | Some maturity_distance =>
      in_timelock (increase_or (CoinOrTokenOverflow CoinOrTokenId.Coin) maturity_distance coins)
  | None => in_unconstrained (insert_or_increase CoinOrTokenId.Coin coins)
  end.

Definition process_input_utxo {Pp} `{!PoSAccountingView Pp} cfg block_height (pos_view : Pp)
    (outpoint : UtxoOutPoint) (input_utxo : TxOutput) : ST Acc Error unit :=
  match input_utxo with
  | Transfer value _ | LockThenTransfer value _ _ | Htlc value _ => add_output_value value
  | CreateDelegationId _ _ | IssueFungibleToken _ | Burn _ | DataDeposit _ | CreateOrder _ =>
      lift (Err (SpendingNonSpendableOutput outpoint))
  | IssueNft token_id _ _ =>
      in_unconstrained (insert_or_increase (CoinOrTokenId.TokenId token_id) (Amount.lit 1))
  | DelegateStaking coins _ => in_unconstrained (insert_or_increase CoinOrTokenId.Coin coins)
  | CreateStakePool pool_id _ | ProduceBlockFromStake _ pool_id =>
      pool_data ← lift (map_err (fun _ => PoSAccountingError PoS.ViewFail) (get_pool_data pos_view pool_id));
      pool_data ← lift (ok_or (PledgeAmountNotFound pool_id) pool_data);
      staker_balance ← lift (map_err PoSAccountingError (staker_balance pool_data));
      add_maturing cfg block_height staker_balance
  end.

Section deltas.
Context {Pp Po Pt : Type} `{!PoSAccountingView Pp} `{!OrdersAccountingView Po} `{!TokensAccountingView Pt}.

(** The accumulator together with the temporary deltas that detect overspends
    across several inputs. *)
Record InputState := mk_state {
  accumulator : Acc;
  total_to_deduct : gmap CoinOrTokenId Amount;
  temp_pos_accounting : PoSAccountingDelta Pp;
  temp_tokens_accounting : TokensAccountingCache Pt;
  temp_orders_accounting : OrdersAccountingCache Po
}.

Definition in_acc {A} (m : ST Acc Error A) : ST InputState Error A :=
  zoom accumulator (fun a s => mk_state a (total_to_deduct s) (temp_pos_accounting s)
    (temp_tokens_accounting s) (temp_orders_accounting s)) (fun e => e) m.
Definition in_deduct {A} (m : ST (gmap CoinOrTokenId Amount) Error A) : ST InputState Error A :=
  zoom total_to_deduct (fun d s => mk_state (accumulator s) d (temp_pos_accounting s)
    (temp_tokens_accounting s) (temp_orders_accounting s)) (fun e => e) m.
Definition in_pos {A} (m : ST (PoSAccountingDelta Pp) PoS.Error A) : ST InputState Error A :=
  zoom temp_pos_accounting (fun p s => mk_state (accumulator s) (total_to_deduct s) p
    (temp_tokens_accounting s) (temp_orders_accounting s)) PoSAccountingError m.
Definition in_tokens {A} (m : ST (TokensAccountingCache Pt) Tokens.Error A) : ST InputState Error A :=
  zoom temp_tokens_accounting (fun t s => mk_state (accumulator s) (total_to_deduct s)
    (temp_pos_accounting s) t (temp_orders_accounting s)) TokensAccountingError m.
Definition in_orders {A} (m : ST (OrdersAccountingCache Po) Orders.Error A) : ST InputState Error A :=
  zoom temp_orders_accounting (fun o s => mk_state (accumulator s) (total_to_deduct s)
    (temp_pos_accounting s) (temp_tokens_accounting s) o) OrdersAccountingError m.

Definition process_input_account cfg block_height (account : AccountSpending) : ST InputState Error unit :=
  match account with
  | DelegationBalance delegation_id spend_amount =>
      _ ← in_pos (spend_share_from_delegation_id delegation_id spend_amount);
      _ ← in_pos (gets (fun self => cache_get_delegation_balance self delegation_id));
      in_acc (add_maturing cfg block_height spend_amount)
  end.

Definition process_conclude_order_command (id : OrderId) : ST InputState Error (CoinOrTokenId * Amount) :=
  order_data ← in_orders (gets (fun self => map_err (fun _ => Orders.ViewFail) (cache_get_order_data self id)));
  order_data ← in_orders (lift (ok_or (OrderDataNotFound id) order_data));
  ask_balance ← in_orders (gets (fun self => map_err (fun _ => Orders.ViewFail) (cache_get_ask_balance self id)));
  give_balance ← in_orders (gets (fun self => map_err (fun _ => Orders.ViewFail) (cache_get_give_balance self id)));
  _ ← in_orders (conclude_order id);
  _ ← in_orders (gets (fun self => cache_get_ask_balance self id));
  _ ← in_orders (gets (fun self => cache_get_give_balance self id));
  initially_asked ← lift (output_value_amount (ask order_data));
  filled_amount ← lift (ok_or (NegativeAccountBalance (AccountOrder id)) (Amount.sub initially_asked ask_balance));
  ask_currency ← lift (ok_or UnsupportedTokenVersion (CoinOrTokenId.from_output_value (ask order_data)));
  _ ← in_acc (in_unconstrained (insert_or_increase ask_currency filled_amount));
  give_currency ← lift (ok_or UnsupportedTokenVersion (CoinOrTokenId.from_output_value (give order_data)));
  _ ← in_acc (in_unconstrained (insert_or_increase give_currency give_balance));
  mret (CoinOrTokenId.Coin, Amount.ZERO).

Definition process_fill_order_command cfg block_height (order_id : OrderId)
    (fill_amount_in_ask_currency : Amount) : ST InputState Error (CoinOrTokenId * Amount) :=
  order_data ← in_orders (gets (fun self => map_err (fun _ => Orders.ViewFail) (cache_get_order_data self order_id)));
  order_data ← in_orders (lift (ok_or (OrderDataNotFound order_id) order_data));
  upgrade ← lift (chainstate_upgrade_at cfg block_height);
  filled_amount ← in_orders (gets (fun self =>
    calculate_fill_order self order_id fill_amount_in_ask_currency (orders_version upgrade)));
  _ ← in_orders (fill_order order_id fill_amount_in_ask_currency (orders_version upgrade));
  _ ← in_orders (gets (fun self => cache_get_ask_balance self order_id));
  _ ← in_orders (gets (fun self => cache_get_give_balance self order_id));
  give_currency ← lift (ok_or UnsupportedTokenVersion (CoinOrTokenId.from_output_value (give order_data)));
  _ ← in_acc (in_unconstrained (insert_or_increase give_currency filled_amount));
  ask_currency ← lift (ok_or UnsupportedTokenVersion (CoinOrTokenId.from_output_value (ask order_data)));
  mret (ask_currency, fill_amount_in_ask_currency).

Definition process_input_account_command cfg block_height (command : AccountCommand) :
    ST InputState Error (CoinOrTokenId * Amount) :=
  match command with
  | AccountCommand.MintTokens id amount =>
      _ ← in_tokens (mint_tokens id amount);
      _ ← in_tokens (gets (fun self => cache_get_circulating_supply self id));
      _ ← in_acc (in_unconstrained (insert_or_increase (CoinOrTokenId.TokenId id) amount));
      fee ← lift (token_supply_change_fee cfg block_height);
      mret (CoinOrTokenId.Coin, fee)
  | AccountCommand.LockTokenSupply _ | AccountCommand.UnmintTokens _ =>
      fee ← lift (token_supply_change_fee cfg block_height); mret (CoinOrTokenId.Coin, fee)
  | AccountCommand.FreezeToken _ _ | AccountCommand.UnfreezeToken _ =>
      fee ← lift (token_freeze_fee cfg block_height); mret (CoinOrTokenId.Coin, fee)
  | AccountCommand.ChangeTokenAuthority _ _ =>
      fee ← lift (token_change_authority_fee cfg block_height); mret (CoinOrTokenId.Coin, fee)
  | AccountCommand.ChangeTokenMetadataUri _ _ =>
      mret (CoinOrTokenId.Coin, token_change_metadata_uri_fee cfg)
  | AccountCommand.ConcludeOrder id => process_conclude_order_command id
  | AccountCommand.FillOrder id fill_amount_in_ask_currency _ =>
      process_fill_order_command cfg block_height id fill_amount_in_ask_currency
  end.

Definition process_input_order_account_command cfg block_height (command : OrderAccountCommand) :
    ST InputState Error (option (CoinOrTokenId * Amount)) :=
  match command with
  | OrderAccountCommand.FillOrder id amount =>
      r ← process_fill_order_command cfg block_height id amount; mret (Some r)
  | OrderAccountCommand.ConcludeOrder order_id =>
      r ← process_conclude_order_command order_id; mret (Some r)
  | OrderAccountCommand.FreezeOrder _ => mret None
  end.

Definition process_input cfg block_height (e : TxInput * option TxOutput) : ST InputState Error unit :=
  let '(input, input_utxo) := e in
  match input with
  | InputUtxo outpoint =>
      input_utxo ← lift (ok_or (MissingOutputOrSpent outpoint) input_utxo);
      pos ← gets (fun s => Ok (temp_pos_accounting s));
      in_acc (process_input_utxo cfg block_height pos outpoint input_utxo)
  | InputAccount outpoint => process_input_account cfg block_height (ao_account outpoint)
  | InputAccountCommand _ command =>
      '(id, to_deduct) ← process_input_account_command cfg block_height command;
      in_deduct (insert_or_increase id to_deduct)
  | InputOrderAccountCommand command =>
      r ← process_input_order_account_command cfg block_height command;
      match r with
      | Some (id, to_deduct) => in_deduct (insert_or_increase id to_deduct)
      | None => mret tt
      end
  end.

Definition from_inputs cfg block_height (orders_view : Po) (pos_view : Pp) (tokens_view : Pt)
    (inputs : list TxInput) (inputs_utxos : list (option TxOutput)) : result Error Acc :=
  _ ← ensure (bool_decide (length inputs = length inputs_utxos))
        (InputsAndInputsUtxosLengthMismatch (length inputs) (length inputs_utxos));
  let '(s, r) := try_for_each (process_input cfg block_height) (zip inputs inputs_utxos)
    (mk_state ConstrainedValueAccumulator_new ∅ (PoSAccountingDelta_new pos_view)
       (TokensAccountingCache_new tokens_view) (OrdersAccountingCache_new orders_view)) in
  _ ← r;
  let '(a, r) := in_unconstrained (try_for_each (fun '(currency, amount) =>
      decrease_or currency amount AttemptToViolateFeeRequirements) (btree_iter (total_to_deduct s)))
    (accumulator s) in
  _ ← r;
  Ok a.
End deltas.

Definition process_output_timelock (timelock : OutputTimeLock) (locked_coins : Amount) : ST Acc Error unit :=
  match timelock with
  | UntilHeight _ | UntilTime _ | ForSeconds _ =>
      in_unconstrained (insert_or_increase CoinOrTokenId.Coin locked_coins)
  | ForBlockCount block_count =>
      match NonZeroU64_new block_count with
      | Some block_count => in_timelock (insert_or_increase block_count locked_coins)
      | None => in_unconstrained (insert_or_increase CoinOrTokenId.Coin locked_coins)
      end
  end.

Definition process_output cfg block_height (output : TxOutput) : ST Acc Error unit :=
  match output with
  | Transfer value _ | Burn value | Htlc value _ => add_output_value value
  | DelegateStaking coins _ => in_unconstrained (insert_or_increase CoinOrTokenId.Coin coins)
  | CreateStakePool _ data => in_unconstrained (insert_or_increase CoinOrTokenId.Coin (sp_pledge data))
  | ProduceBlockFromStake _ _ | CreateDelegationId _ _ => mret tt
  | LockThenTransfer value _ timelock =>
      match value with
      | Coin coins => process_output_timelock timelock coins
      | TokenV0 _ => mret tt
      | TokenV1 token_id amount => in_unconstrained (insert_or_increase (CoinOrTokenId.TokenId token_id) amount)
      end
  | DataDeposit _ =>
      fee ← lift (data_deposit_fee cfg block_height);
      in_unconstrained (insert_or_increase CoinOrTokenId.Coin fee)
  | IssueFungibleToken _ =>
      in_unconstrained (insert_or_increase CoinOrTokenId.Coin (fungible_token_issuance_fee cfg))
  | IssueNft _ _ _ =>
      fee ← lift (nft_issuance_fee cfg block_height);
      in_unconstrained (insert_or_increase CoinOrTokenId.Coin fee)
  | CreateOrder order_data =>
      id ← lift (ok_or UnsupportedTokenVersion (CoinOrTokenId.from_output_value (co_give order_data)));
      amount ← lift (output_value_amount (co_give order_data));
      in_unconstrained (insert_or_increase id amount)
  end.

Definition from_outputs cfg block_height (outputs : list TxOutput) : result Error Acc :=
  let '(a, r) := try_for_each (process_output cfg block_height) outputs ConstrainedValueAccumulator_new in
  _ ← r; Ok a.
End accumulator.

(** ** Satisfying the outputs *)

(** What a timelocked output may use: a constraint or the unconstrained coins. *)
Inductive Slot := SlotCoin | SlotLock (lock : NonZeroU64).

Definition slot_value (s : Slot) (a : Acc) : Amount :=
  default Amount.ZERO (match s with
    | SlotCoin => unconstrained_value a !! CoinOrTokenId.Coin
    | SlotLock lock => timelock_constrained a !! lock
    end).

Definition set_slot (s : Slot) (v : Amount) : ST Acc Error unit :=
  match s with
  | SlotCoin => in_unconstrained (modify (insert CoinOrTokenId.Coin v))
  | SlotLock lock => in_timelock (modify (insert lock v))
  end.

(** [constraint_range_iter]: the constraints up to the timelock from the
    longest one down, then the unconstrained coins. *)
Definition constraint_range (timelock : NonZeroU64) (a : Acc) : list Slot :=
  (SlotLock <$> reverse (filter (fun lock => ival lock <= ival timelock)
    (btree_iter (timelock_constrained a)).*1)) ++
  (if decide (is_Some (unconstrained_value a !! CoinOrTokenId.Coin)) then [SlotCoin] else []).

(** The [while] loop: the rest of the iterator is the list. *)
Fixpoint satisfy_output (slots : list Slot) (output_coins : Amount) : ST Acc Error unit :=
  if Amount.ltb Amount.ZERO output_coins then
    match slots with
    | [] => lift (Err (AttemptToPrintMoneyOrViolateTimelockConstraints CoinOrTokenId.Coin))
    | s :: rest =>
        constrained_coins ← gets (fun a => Ok (slot_value s a));
        if Amount.ltb constrained_coins output_coins then
          output_coins ← lift (expect (Amount.sub output_coins constrained_coins));
          _ ← set_slot s Amount.ZERO;
          satisfy_output rest output_coins
        else
          remaining ← lift (expect (Amount.sub constrained_coins output_coins));
          set_slot s remaining
    end
  else mret tt.

Definition satisfy_with (self other : Acc) : result Error AccumulatedFee :=
  let '(a, r) := (
    _ ← in_unconstrained (try_for_each (fun '(key, value) =>
          decrease_or key value (AttemptToPrintMoneyOrViolateTimelockConstraints key))
          (btree_iter (unconstrained_value other)));
    try_for_each (fun '(timelock, locked_coins) =>
      slots ← gets (fun a => Ok (constraint_range timelock a));
      satisfy_output slots locked_coins) (btree_iter (timelock_constrained other))) self in
  _ ← r;
  Ok (mk_fee (unconstrained_value a) (timelock_constrained a)).

(** * Maps of amounts as functions *)

Section map_values.
Context `{BTreeKey K}.
Implicit Types (m : gmap K Amount) (k : K) (P : K -> Prop).

(** What a map holds for a key; nothing counts as zero. *)
Definition held m k : Z := ival (default Amount.ZERO (m !! k)).

Lemma held_range m k : 0 <= held m k <= u128_MAX.
Proof. apply bint_range. Qed.

Lemma held_insert m k v j : held (<[k:=v]> m) j = if decide (k = j) then ival v else held m j.
Proof.
  unfold held. case_decide as Hk; [subst; by rewrite lookup_insert_eq|by rewrite lookup_insert_ne].
Qed.

Lemma held_empty k : held ∅ k = 0.
Proof. unfold held. by rewrite lookup_empty. Qed.

(** The sum of the amounts under the keys with a property. *)
Definition msum P `{forall k, Decision (P k)} m : Z :=
  sum_over (dom m) (fun k => if decide (P k) then held m k else 0).

(** The same sum along the iterator. *)
Lemma msum_iter P `{forall k, Decision (P k)} m :
  msum P m = Zsum ((fun e => if decide (P e.1) then ival e.2 else 0) <$> btree_iter m).
Proof.
  symmetry. apply Zsum_btree. intros k v Hk. unfold held. by rewrite Hk.
Qed.

Lemma msum_filter_keys P `{forall k, Decision (P k)} m :
  msum P m = Zsum (held m <$> filter P (btree_iter m).*1).
Proof.
  rewrite Zsum_filter. unfold msum, sum_over. by rewrite (btree_keys_elements m).
Qed.

Lemma msum_nonneg P `{forall k, Decision (P k)} m : 0 <= msum P m.
Proof. apply sum_over_nonneg. intros k. pose proof (held_range m k). case_decide; lia. Qed.
End map_values.

(** ** Adding to and taking from a map *)

Section map_steps.
Context `{BTreeKey K}.
Implicit Types (m : gmap K Amount) (k : K) (a : Amount).

Lemma increase_or_spec error k a m :
  match Amount.add (default Amount.ZERO (m !! k)) a with
  | Some s => increase_or error k a m = (<[k:=s]> m, Ok tt)
  | None => exists m', increase_or error k a m = (m', Err error)
  end.
Proof.
  unfold increase_or, mbind, st_bind, gets, lift, modify. simpl.
  destruct (Amount.add _ a) as [s|]; simpl; [by rewrite insert_insert_eq|by eexists].
Qed.

(** What taking the amount [a] from an entry leaves. *)
Definition take_entry error (_ : K) (o : option Amount) a : result Error (option Amount) :=
  if Amount.ltb Amount.ZERO a then
    match o with
    | Some v => Some <$> ok_or error (Amount.sub v a)
    | None => Err error
    end
  else Ok o.

Lemma take_entry_spec error k o a :
  if decide (ival a <= ival (default Amount.ZERO o))
  then exists o', take_entry error k o a = Ok o' /\ (is_Some o' <-> is_Some o) /\
    ival (default Amount.ZERO o') = ival (default Amount.ZERO o) - ival a
  else take_entry error k o a = Err error.
Proof.
  unfold take_entry. pose proof (bint_range a). case_decide as Hle.
  - destruct (Amount.ltb Amount.ZERO a) eqn:Hpos; amount_inv; simpl in Hpos.
    + destruct o as [v|]; simpl in *; [|lia].
      destruct (Amount.sub v a) as [r|] eqn:Hr; amount_inv; [|lia]. simpl.
      exists (Some r). simpl. split; [done|]. split; [by split; eauto|done].
    + exists o. split; [done|]. split; [done|]. lia.
  - rewrite (proj2 (Amount_ltb_lt Amount.ZERO a)).
    2: { pose proof (bint_range (default Amount.ZERO o)). simpl. lia. }
    destruct o as [v|]; simpl in *; [|done].
    destruct (Amount.sub v a) as [r|] eqn:Hr; amount_inv; [|done]. pose proof (bint_range r). lia.
Qed.

Lemma decrease_or_run error k a m :
  match take_entry error k (m !! k) a with
  | Ok o => decrease_or k a error m = (partial_alter (fun _ => o) k m, Ok tt)
  | Err e => decrease_or k a error m = (m, Err e)
  | Panic => False
  end.
Proof.
  unfold take_entry, decrease_or, mbind, st_bind, gets, lift, modify.
  destruct (Amount.ltb Amount.ZERO a); [|by rewrite partial_alter_self].
  destruct (m !! k) as [v|]; [|done]. by destruct (Amount.sub v a).
Qed.

(** Taking every amount of a list from a map either takes all of them, or
    stops at one that is not covered. *)
Lemma take_list_spec (err : K -> Error) (l : list (K * Amount)) m :
  NoDup l.*1 ->
  let run := try_for_each (fun '(key, value) => decrease_or key value (err key)) l m in
  let taken : gmap K Amount := list_to_map l in
  (exists m', run = (m', Ok tt) /\ dom m' = dom m /\ forall k, held taken k <= held m k /\
    held m' k = held m k - held taken k) \/
  (exists m' k, run = (m', Err (err k)) /\ held m k < held taken k).
Proof.
  revert m. induction l as [|[k a] l IH]; intros m Hnd; simpl.
  { left. exists m. split; [done|]. split; [done|]. intros k. rewrite held_empty.
    pose proof (held_range m k). lia. }
  csimpl in Hnd. apply NoDup_cons in Hnd as [Hk Hnd].
  assert (held (list_to_map l) k = 0) as Hzero.
  { unfold held. by rewrite (not_elem_of_list_to_map_1 l k). }
  pose proof (decrease_or_run (err k) k a m) as Hrun. pose proof (take_entry_spec (err k) k (m !! k) a) as Htake.
  case_decide as Hle.
  - destruct Htake as (o & Ho & Hsome & Hval). rewrite Ho in Hrun. rewrite (st_bind_run _ _ _ _ _ Hrun).
    set (m1 := partial_alter (fun _ => o) k m) in *.
    assert (forall j, held m1 j = if decide (k = j) then held m k - ival a else held m j) as Hm1.
    { intros j. unfold m1, held. case_decide as Hkj; [subst; by rewrite lookup_partial_alter_eq|].
      by rewrite lookup_partial_alter_ne. }
    assert (dom m1 = dom m) as Hdom.
    { apply set_eq. intros j. rewrite !elem_of_dom. unfold m1. destruct (decide (k = j)) as [<-|Hne].
      - by rewrite lookup_partial_alter_eq.
      - by rewrite lookup_partial_alter_ne. }
    destruct (IH m1 Hnd) as [(m' & Hrest & Hdom' & Hv)|(m' & j & Hrest & Hlt)].
    + left. exists m'. split; [done|]. split; [congruence|]. intros j. specialize (Hv j).
      rewrite Hm1 in Hv. rewrite held_insert. case_decide as Hkj; [subst; unfold held in *; lia|lia].
    + right. exists m', j. split; [done|]. rewrite Hm1 in Hlt. rewrite held_insert.
      pose proof (bint_range a). case_decide as Hkj; [subst; unfold held in *; lia|lia].
  - rewrite Htake in Hrun. right. exists m, k. rewrite (st_bind_fail _ _ _ _ _ Hrun). split; [done|].
    rewrite held_insert, decide_True by done. unfold held. lia.
Qed.
End map_steps.

(** * Satisfying timelocked outputs *)

Section satisfy.
Implicit Types (a : Acc) (s : Slot) (slots : list Slot) (t lock : NonZeroU64).

#[global] Instance Slot_eq_dec : EqDecision Slot.
Proof. solve_decision. Defined.

Definition slot_held a s : Z := ival (slot_value s a).

Definition present a s : Prop :=
  match s with
  | SlotCoin => CoinOrTokenId.Coin ∈ dom (unconstrained_value a)
  | SlotLock lock => lock ∈ dom (timelock_constrained a)
  end.

(** The accumulator keeps its keys and its tokens. *)
Definition same_keys a a' : Prop :=
  dom (unconstrained_value a') = dom (unconstrained_value a) /\
  dom (timelock_constrained a') = dom (timelock_constrained a) /\
  forall c, c <> CoinOrTokenId.Coin -> held (unconstrained_value a') c = held (unconstrained_value a) c.

Lemma same_keys_refl a : same_keys a a.
Proof. by split. Qed.

Lemma same_keys_trans a1 a2 a3 : same_keys a1 a2 -> same_keys a2 a3 -> same_keys a1 a3.
Proof.
  intros (H1 & H2 & H3) (H4 & H5 & H6). split; [congruence|]. split; [congruence|].
  intros c Hc. by rewrite H6, H3.
Qed.

Lemma present_same a a' s : same_keys a a' -> present a s -> present a' s.
Proof. intros (H1 & H2 & _). destruct s; simpl; by rewrite ?H1, ?H2. Qed.

Lemma set_slot_run a s v :
  present a s ->
  exists a', set_slot s v a = (a', Ok tt) /\ same_keys a a' /\
    forall s', slot_held a' s' = if decide (s = s') then ival v else slot_held a s'.
Proof.
  intros Hp. destruct s as [|lock]; (eexists; split; [done|]); simpl in *; split.
  - split; [simpl; rewrite dom_insert_L; set_solver|]. split; [done|]. intros c Hc. simpl. by rewrite held_insert, decide_False.
  - intros [|lock']; unfold slot_held, slot_value; simpl; [by rewrite lookup_insert_eq|done].
  - split; [done|]. split; [simpl; rewrite dom_insert_L; set_solver|done].
  - intros [|lock']; unfold slot_held, slot_value; simpl; [done|].
    destruct (decide (lock = lock')) as [->|Hne]; [by rewrite lookup_insert_eq, decide_True|].
    rewrite lookup_insert_ne by done. by rewrite decide_False by congruence.
Qed.

Lemma slots_nonneg a slots : 0 <= Zsum (slot_held a <$> slots).
Proof.
  induction slots as [|s slots IH]; [done|]. cbn. pose proof (bint_range (slot_value s a)).
  unfold slot_held, Zsum in *. simpl in *. lia.
Qed.

Lemma Zsum_cons x l : Zsum (x :: l) = x + Zsum l.
Proof. done. Qed.

Lemma Zsum_ext {A} (f g : A -> Z) (l : list A) : (forall x, x ∈ l -> f x = g x) -> Zsum (f <$> l) = Zsum (g <$> l).
Proof. intros Hfg. f_equal. apply list_fmap_ext. intros i x Hx. apply Hfg. by eapply list_elem_of_lookup_2. Qed.

Lemma satisfy_nothing slots (c : Amount) a :
  ival c = 0 ->
  if decide (ival c <= Zsum (slot_held a <$> slots))
  then exists a', satisfy_output slots c a = (a', Ok tt) /\ same_keys a a' /\
    (forall s, slot_held a' s <= slot_held a s) /\
    (forall s, s ∉ slots -> slot_held a' s = slot_held a s) /\
    Zsum (slot_held a' <$> slots) = Zsum (slot_held a <$> slots) - ival c
  else exists a', satisfy_output slots c a
    = (a', Err (AttemptToPrintMoneyOrViolateTimelockConstraints CoinOrTokenId.Coin)).
Proof.
  intros Hz. pose proof (slots_nonneg a slots). rewrite decide_True by lia.
  exists a. split; [|split; [apply same_keys_refl|split; [done|split; [done|lia]]]].
  assert (Amount.ltb Amount.ZERO c = false) as Hf by (unfold Amount.ltb; simpl; lia).
  destruct slots; simpl; by rewrite Hf.
Qed.

(** The two branches of the loop. *)
Lemma satisfy_output_next s rest (c : Amount) a a1 :
  slot_held a s < ival c -> set_slot s Amount.ZERO a = (a1, Ok tt) ->
  exists c', ival c' = ival c - slot_held a s /\ satisfy_output (s :: rest) c a = satisfy_output rest c' a1.
Proof.
  intros Hlt Hset. pose proof (bint_range (slot_value s a)) as Hrange. unfold slot_held in *.
  destruct (Amount.sub c (slot_value s a)) as [c'|] eqn:Hsub; [|amount_inv; lia].
  exists c'. split; [by apply Amount_sub_Some|]. simpl. rewrite (proj2 (Amount_ltb_lt _ _)) by (simpl; lia).
  unfold mbind, st_bind, gets, lift. rewrite (proj2 (Amount_ltb_lt _ _)) by done. by rewrite Hsub, Hset.
Qed.

Lemma satisfy_output_last s rest (c : Amount) a :
  ival c <> 0 -> ival c <= slot_held a s ->
  exists r, ival r = slot_held a s - ival c /\ satisfy_output (s :: rest) c a = set_slot s r a.
Proof.
  intros Hnz Hle. pose proof (bint_range c) as Hrange. unfold slot_held in *.
  destruct (Amount.sub (slot_value s a) c) as [r|] eqn:Hsub; [|amount_inv; lia].
  exists r. split; [by apply Amount_sub_Some|]. simpl. rewrite (proj2 (Amount_ltb_lt _ _)) by (simpl; lia).
  assert (Amount.ltb (slot_value s a) c = false) as Hf by (unfold Amount.ltb; lia).
  unfold mbind, st_bind, gets, lift. rewrite Hf, Hsub. simpl. by destruct (set_slot s r a) as [? [[]|?|]].
Qed.

(** One timelocked output takes its coins from the slots, or fails when they
    do not hold enough. *)
Lemma satisfy_output_spec slots (c : Amount) a :
  NoDup slots -> (forall s, s ∈ slots -> present a s) ->
  if decide (ival c <= Zsum (slot_held a <$> slots))
  then exists a', satisfy_output slots c a = (a', Ok tt) /\ same_keys a a' /\
    (forall s, slot_held a' s <= slot_held a s) /\
    (forall s, s ∉ slots -> slot_held a' s = slot_held a s) /\
    Zsum (slot_held a' <$> slots) = Zsum (slot_held a <$> slots) - ival c
  else exists a', satisfy_output slots c a
    = (a', Err (AttemptToPrintMoneyOrViolateTimelockConstraints CoinOrTokenId.Coin)).
Proof.
  revert c a. induction slots as [|s rest IH]; intros c a Hnd Hp;
    destruct (decide (ival c = 0)) as [Hz|Hnz]; [by apply satisfy_nothing| |by apply satisfy_nothing|];
    assert (Amount.ltb Amount.ZERO c = true) as Hpos
      by (pose proof (bint_range c); unfold Amount.ltb; simpl; lia).
  { rewrite decide_False by (pose proof (bint_range c); cbn; lia). simpl. rewrite Hpos. by eexists. }
  apply NoDup_cons in Hnd as [Hs Hnd]. pose proof (Hp s ltac:(by left)) as Hps.
  pose proof (bint_range (slot_value s a)) as Hrange. pose proof (slots_nonneg a rest) as Hrest.
  rewrite !fmap_cons, !Zsum_cons.
  destruct (decide (slot_held a s < ival c)) as [Hlt|Hlt].
  - destruct (set_slot_run a s Amount.ZERO Hps) as (a1 & Hset & Hkeys & Hval).
    destruct (satisfy_output_next s rest c a a1 Hlt Hset) as (c' & Hc' & ->).
    assert (Zsum (slot_held a1 <$> rest) = Zsum (slot_held a <$> rest)) as Hsame.
    { apply Zsum_ext. intros s' Hs'. rewrite Hval, decide_False; [done|]. by intros <-. }
    specialize (IH c' a1 Hnd). rewrite Hsame, Hc' in IH.
    specialize (IH ltac:(intros s' Hs'; apply (present_same a a1 s' Hkeys), Hp; by right)).
    destruct (decide (ival c - slot_held a s <= Zsum (slot_held a <$> rest))) as [Hle|Hgt].
    2: { rewrite decide_False by lia. exact IH. }
    rewrite decide_True by lia. destruct IH as (a2 & Hrun & Hkeys2 & Hdec & Hout & Hsum).
    exists a2. split; [done|]. split; [by eapply same_keys_trans|]. split; [|split].
    + intros s'. etrans; [apply Hdec|]. rewrite Hval. case_decide as Hss; [subst; simpl; unfold slot_held; lia|done].
    + intros s' [Hne Hin]%not_elem_of_cons. rewrite Hout, Hval, decide_False by done. done.
    + rewrite !fmap_cons, !Zsum_cons, (Hout s Hs), Hval, decide_True by done. simpl. lia.
  - rewrite decide_True by lia. destruct (satisfy_output_last s rest c a Hnz ltac:(lia)) as (r & Hr & ->).
    destruct (set_slot_run a s r Hps) as (a1 & Hset & Hkeys & Hval).
    exists a1. split; [done|]. split; [done|]. split; [|split].
    + intros s'. rewrite Hval. pose proof (bint_range c). case_decide; [subst; lia|done].
    + intros s' [Hne Hin]%not_elem_of_cons. by rewrite Hval, decide_False by done.
    + rewrite !fmap_cons, !Zsum_cons, Hval, decide_True by done.
      rewrite (Zsum_ext (slot_held a1) (slot_held a) rest); [lia|].
      intros s' Hs'. rewrite Hval, decide_False; [done|]. by intros <-.
Qed.

(** ** One output *)

(** The coins an output with this timelock may use. *)
Definition avail a t : Z :=
  held (unconstrained_value a) CoinOrTokenId.Coin + msum (fun d => ival d <= ival t) (timelock_constrained a).

Lemma constraint_range_NoDup t a : NoDup (constraint_range t a).
Proof.
  unfold constraint_range. apply NoDup_app. split; [|split].
  - apply (NoDup_fmap_2_strong SlotLock); [by intros ? ? _ _ [=]|]. 
    rewrite reverse_Permutation. apply NoDup_filter, btree_iter_NoDup.
  - intros s (d & -> & _)%list_elem_of_fmap. case_decide; set_solver.
  - case_decide; [apply NoDup_singleton|constructor].
Qed.

Lemma elem_of_constraint_range t a d :
  SlotLock d ∈ constraint_range t a -> ival d <= ival t /\ d ∈ dom (timelock_constrained a).
Proof.
  unfold constraint_range. rewrite elem_of_app. intros [Hd|Hd].
  - apply list_elem_of_fmap in Hd as (d' & [= <-] & Hin). rewrite elem_of_reverse, list_elem_of_filter in Hin.
    destruct Hin as [Hle Hin]. split; [done|]. rewrite (btree_keys_elements (timelock_constrained a)) in Hin.
    by apply elem_of_elements.
  - case_decide; [by apply list_elem_of_singleton in Hd|by apply elem_of_nil in Hd].
Qed.

Lemma constraint_range_present t a s : s ∈ constraint_range t a -> present a s.
Proof.
  destruct s as [|d]; [|by intros [_ Hd]%elem_of_constraint_range].
  unfold constraint_range. rewrite elem_of_app. intros [(d & ? & _)%list_elem_of_fmap|Hin]; [done|].
  case_decide as Hc; [by apply elem_of_dom|by apply elem_of_nil in Hin].
Qed.

Lemma constraint_range_sum t a : Zsum (slot_held a <$> constraint_range t a) = avail a t.
Proof.
  unfold constraint_range, avail. rewrite fmap_app, Zsum_app, msum_filter_keys.
  rewrite <- list_fmap_compose, reverse_Permutation. unfold compose. rewrite Z.add_comm. f_equal.
  unfold held. case_decide as Hc; [cbn; unfold slot_held, slot_value; lia|].
  apply eq_None_not_Some in Hc. by rewrite Hc.
Qed.

Lemma constraint_range_perm t a a' : same_keys a a' -> constraint_range t a' ≡ₚ constraint_range t a.
Proof.
  intros (Hk1 & Hk2 & _). unfold constraint_range. apply Permutation_app.
  - apply fmap_Permutation. rewrite !reverse_Permutation, !btree_keys_elements. by rewrite Hk2.
  - assert (is_Some (unconstrained_value a' !! CoinOrTokenId.Coin) <->
      is_Some (unconstrained_value a !! CoinOrTokenId.Coin)) as Hiff by (by rewrite <- !elem_of_dom, Hk1).
    repeat case_decide; naive_solver.
Qed.

Lemma msum_diff `{BTreeKey K} (P : K -> Prop) `{forall k, Decision (P k)} (m m' : gmap K Amount) :
  dom m' = dom m ->
  msum P m - msum P m' = sum_over (dom m) (fun k => if decide (P k) then held m k - held m' k else 0).
Proof.
  intros Hdom. unfold msum. rewrite Hdom. apply Z.sub_move_r. rewrite <- sum_over_add.
  apply sum_over_ext. intros k _. case_decide; lia.
Qed.

(** [a'] is [a] after an output of [c] coins with timelock [t] took its coins. *)
Definition taken a a' t (c : Z) : Prop :=
  same_keys a a' /\
  (forall s, slot_held a' s <= slot_held a s) /\
  (forall d, ival t < ival d -> held (timelock_constrained a') d = held (timelock_constrained a) d) /\
  avail a' t = avail a t - c.

Lemma satisfy_step t (c : Amount) a :
  let run := (gets (fun a => Ok (constraint_range t a)) ≫= fun slots => satisfy_output slots c) a in
  if decide (ival c <= avail a t)
  then exists a', run = (a', Ok tt) /\ taken a a' t (ival c)
  else exists a', run = (a', Err (AttemptToPrintMoneyOrViolateTimelockConstraints CoinOrTokenId.Coin)).
Proof.
  pose proof (satisfy_output_spec (constraint_range t a) c a (constraint_range_NoDup t a)
    (constraint_range_present t a)) as Hspec.
  rewrite constraint_range_sum in Hspec. unfold mbind, st_bind, gets. case_decide as Hle; [|done].
  destruct Hspec as (a' & Hrun & Hkeys & Hdec & Hout & Hsum). exists a'. split; [done|].
  split; [done|]. split; [done|]. split.
  - intros d Hd. apply (Hout (SlotLock d)). intros Hin%elem_of_constraint_range. lia.
  - rewrite <- Hsum, <- constraint_range_sum. by apply Zsum_perm, fmap_Permutation, constraint_range_perm.
Qed.

(** ** Consequences for longer and shorter timelocks *)

Definition lock_taken a a' (d : NonZeroU64) : Z :=
  held (timelock_constrained a) d - held (timelock_constrained a') d.
Definition coin_taken a a' : Z :=
  held (unconstrained_value a) CoinOrTokenId.Coin - held (unconstrained_value a') CoinOrTokenId.Coin.

Lemma taken_nonneg a a' t c : taken a a' t c -> 0 <= coin_taken a a' /\ forall d, 0 <= lock_taken a a' d.
Proof.
  intros (_ & Hdec & _). split; [pose proof (Hdec SlotCoin)|intros d; pose proof (Hdec (SlotLock d))];
    unfold slot_held, slot_value, coin_taken, lock_taken, held in *; lia.
Qed.

(** Everything is taken from the coins and the constraints up to [t]. *)
Lemma taken_total a a' t c :
  taken a a' t c -> coin_taken a a' + sum_over (dom (timelock_constrained a)) (lock_taken a a') = c.
Proof.
  intros ((_ & Hdom & _) & _ & Hlong & Havail). unfold avail in Havail.
  pose proof (msum_diff (fun d => ival d <= ival t) _ _ Hdom) as Hdiff.
  rewrite (sum_over_ext _ _ (lock_taken a a')) in Hdiff.
  - unfold coin_taken. lia.
  - intros d _. unfold lock_taken. case_decide; [done|]. rewrite Hlong; lia.
Qed.

Lemma taken_avail a a' t c t' : taken a a' t c -> ival t <= ival t' -> avail a' t' = avail a t' - c.
Proof.
  intros Htaken Hle. pose proof (taken_total _ _ _ _ Htaken) as Htotal. destruct Htaken as ((_ & Hdom & _) & _ & Hlong & _).
  pose proof (msum_diff (fun d => ival d <= ival t') _ _ Hdom) as Hdiff.
  rewrite (sum_over_ext _ _ (lock_taken a a')) in Hdiff.
  - unfold avail, coin_taken in *. lia.
  - intros d _. unfold lock_taken. case_decide; [done|]. rewrite Hlong; lia.
Qed.

(** The constraints of at least [t'] blocks lose at most the output's coins,
    and nothing if the output is locked for less. *)
Lemma taken_locked a a' t c t' :
  taken a a' t c ->
  msum (fun d => ival t' <= ival d) (timelock_constrained a)
    - msum (fun d => ival t' <= ival d) (timelock_constrained a') <= (if decide (ival t' <= ival t) then c else 0).
Proof.
  intros Htaken. pose proof (taken_total _ _ _ _ Htaken) as Htotal.
  destruct (taken_nonneg _ _ _ _ Htaken) as [Hcoin Hlock]. destruct Htaken as ((_ & Hdom & _) & _ & Hlong & _).
  rewrite (msum_diff _ _ _ Hdom). case_decide as Hle.
  - etrans; [apply (sum_over_mono _ _ (lock_taken a a'))|lia].
    intros d _. case_decide; [done|apply Hlock].
  - rewrite (sum_over_ext _ _ (fun _ => 0)), sum_over_0; [done|].
    intros d _. case_decide; [|done]. rewrite Hlong; lia.
Qed.

(** ** All timelocked outputs *)

(** The coins of the outputs in the list whose timelock has a property. *)
Definition demand (Q : NonZeroU64 -> Prop) `{forall d, Decision (Q d)} (l : list (NonZeroU64 * Amount)) : Z :=
  Zsum ((fun e => if decide (Q e.1) then ival e.2 else 0) <$> l).

Lemma demand_cons Q `{forall d, Decision (Q d)} e l :
  demand Q (e :: l) = (if decide (Q e.1) then ival e.2 else 0) + demand Q l.
Proof. done. Qed.

Definition satisfy_all (l : list (NonZeroU64 * Amount)) : ST Acc Error unit :=
  try_for_each (fun '(timelock, locked_coins) =>
    slots ← gets (fun a => Ok (constraint_range timelock a));
    satisfy_output slots locked_coins) l.

(** What remains after all outputs of the list took their coins. *)
Definition all_taken a a' l : Prop :=
  same_keys a a' /\
  held (unconstrained_value a) CoinOrTokenId.Coin + msum (fun _ => True) (timelock_constrained a)
    = held (unconstrained_value a') CoinOrTokenId.Coin + msum (fun _ => True) (timelock_constrained a')
      + demand (fun _ => True) l /\
  forall t, msum (fun d => ival t <= ival d) (timelock_constrained a)
    <= msum (fun d => ival t <= ival d) (timelock_constrained a') + demand (fun d => ival t <= ival d) l.

Lemma demand_nonneg Q `{forall d, Decision (Q d)} l : 0 <= demand Q l.
Proof.
  induction l as [|e l IH]; [done|]. rewrite demand_cons. pose proof (bint_range e.2). case_decide; lia.
Qed.

Lemma demand_none Q `{forall d, Decision (Q d)} l : (forall e, e ∈ l -> ~ Q e.1) -> demand Q l = 0.
Proof.
  intros Hl. induction l as [|e l IH]; [done|]. rewrite demand_cons, decide_False by (apply Hl; left).
  rewrite IH; [done|]. intros e' He'. apply Hl. by right.
Qed.

Lemma all_taken_cons a a1 a2 t (c : Amount) l :
  taken a a1 t (ival c) -> all_taken a1 a2 l -> all_taken a a2 ((t, c) :: l).
Proof.
  intros Ht (Hkeys & Htotal & Hlock). pose proof (taken_total _ _ _ _ Ht) as Hsum.
  pose proof (fun t' => taken_locked _ _ _ _ t' Ht) as Hlock1.
  destruct Ht as (Hkeys1 & _). pose proof (proj1 (proj2 Hkeys1)) as Hdom.
  split; [by eapply same_keys_trans|]. split.
  - rewrite demand_cons, decide_True by done. pose proof (msum_diff (fun _ => True) _ _ Hdom) as Hdiff.
    rewrite (sum_over_ext _ _ (lock_taken a a1)) in Hdiff by (intros d _; by rewrite decide_True).
    unfold coin_taken in Hsum. simpl. lia.
  - intros t'. rewrite demand_cons. specialize (Hlock t'). specialize (Hlock1 t'). simpl. case_decide; lia.
Qed.

Lemma satisfy_all_spec l a :
  StronglySorted entry_le l -> NoDup l.*1 ->
  (exists a', satisfy_all l a = (a', Ok tt) /\ all_taken a a' l /\
    forall e, e ∈ l -> demand (fun d => ival d <= ival e.1) l <= avail a e.1) \/
  (exists a' e, satisfy_all l a
      = (a', Err (AttemptToPrintMoneyOrViolateTimelockConstraints CoinOrTokenId.Coin)) /\
    e ∈ l /\ avail a e.1 < demand (fun d => ival d <= ival e.1) l).
Proof.
  revert a. induction l as [|[t c] l IH]; intros a Hs Hnd.
  { left. exists a. split; [done|]. split; [|intros e []%elem_of_nil].
    split; [apply same_keys_refl|]. split; [cbn; lia|]. intros t. cbn. lia. }
  apply StronglySorted_inv in Hs as [Hs Hall]. rewrite Forall_forall in Hall.
  csimpl in Hnd. apply NoDup_cons in Hnd as [Ht Hnd].
  assert (forall e, e ∈ l -> ival t < ival e.1) as Hlater.
  { intros e He. pose proof (Hall e He) as Hle. unfold entry_le, key_le in Hle. simpl in Hle.
    destruct (decide (ival t = ival e.1)) as [Heq%bint_eq|]; [|lia].
    destruct Ht. rewrite Heq. by apply list_elem_of_fmap_2. }
  pose proof (satisfy_step t c a) as Hstep. unfold satisfy_all in *. cbn [try_for_each].
  case_decide as Hle.
  - destruct Hstep as (a1 & Hrun & Htaken). rewrite (st_bind_run _ _ _ _ _ Hrun).
    assert (forall e, e ∈ l -> avail a1 e.1 = avail a e.1 - ival c) as Havail.
    { intros e He. apply (taken_avail _ _ _ _ _ Htaken). specialize (Hlater e He). lia. }
    assert (forall e, e ∈ l -> demand (fun d => ival d <= ival e.1) ((t, c) :: l)
      = ival c + demand (fun d => ival d <= ival e.1) l) as Hdemand.
    { intros e He. rewrite demand_cons, decide_True; [done|]. specialize (Hlater e He). simpl. lia. }
    destruct (IH a1 Hs Hnd) as [(a2 & Hrest & Hall2 & Hcov)|(a2 & e & Hrest & He & Hlt)].
    + left. exists a2. split; [done|]. split; [by eapply all_taken_cons|].
      intros e [->|He]%elem_of_cons.
      * rewrite demand_cons, decide_True, demand_none by (simpl; first [lia|intros e He; specialize (Hlater e He); simpl; lia]).
        simpl. lia.
      * specialize (Hcov e He). rewrite Hdemand, (Havail e He) in * by done. lia.
    + right. exists a2, e. split; [done|]. split; [by right|]. rewrite Hdemand by done. rewrite (Havail e He) in Hlt. lia.
  - destruct Hstep as (a1 & Hrun). right. exists a1, (t, c). rewrite (st_bind_fail _ _ _ _ _ Hrun).
    split; [done|]. split; [left|]. rewrite demand_cons, decide_True by (simpl; lia).
    pose proof (demand_nonneg (fun d => ival d <= ival (t, c).1) l). simpl in *. lia.
Qed.
End satisfy.

(** * The check *)

Section check.
Implicit Types (self other : Acc).

(** The inputs cover the outputs: every currency suffices, and for every
    timelock of an output the coins that may be used for it suffice for it and
    all outputs with shorter timelocks together. *)
Definition covers self other : Prop :=
  (forall c, held (unconstrained_value other) c <= held (unconstrained_value self) c) /\
  forall t coins, timelock_constrained other !! t = Some coins ->
    held (unconstrained_value other) CoinOrTokenId.Coin
      + msum (fun d => ival d <= ival t) (timelock_constrained other)
    <= held (unconstrained_value self) CoinOrTokenId.Coin
      + msum (fun d => ival d <= ival t) (timelock_constrained self).

(** What the inputs bring is what the outputs and the fee hold, and coins that
    came with a constraint are in outputs locked at least as long, or in the
    fee under the same constraint. *)
Definition conserved self other (fee : AccumulatedFee) : Prop :=
  (forall c, c <> CoinOrTokenId.Coin -> held (unconstrained_value self) c
    = held (unconstrained_value other) c + held (fee_unconstrained_value fee) c) /\
  held (unconstrained_value self) CoinOrTokenId.Coin + msum (fun _ => True) (timelock_constrained self)
    = held (unconstrained_value other) CoinOrTokenId.Coin + msum (fun _ => True) (timelock_constrained other)
      + held (fee_unconstrained_value fee) CoinOrTokenId.Coin
      + msum (fun _ => True) (fee_timelock_constrained fee) /\
  forall t : NonZeroU64, msum (fun d => ival t <= ival d) (timelock_constrained self)
    <= msum (fun d => ival t <= ival d) (timelock_constrained other)
      + msum (fun d => ival t <= ival d) (fee_timelock_constrained fee).

Lemma btree_sorted `{BTreeKey K} {V} (m : gmap K V) : StronglySorted entry_le (btree_iter m).
Proof. apply Sorted_StronglySorted; [apply _|apply btree_iter_sorted]. Qed.

Lemma satisfy_with_spec self other :
  match satisfy_with self other with
  | Ok fee => covers self other /\ conserved self other fee
  | Err e => ~ covers self other /\ exists c, e = AttemptToPrintMoneyOrViolateTimelockConstraints c
  | Panic => False
  end.
Proof.
  unfold satisfy_with. pose proof (take_list_spec AttemptToPrintMoneyOrViolateTimelockConstraints
    (btree_iter (unconstrained_value other)) (unconstrained_value self) (btree_iter_NoDup _)) as Htake.
  cbv zeta in Htake. rewrite list_to_map_btree_iter in Htake.
  destruct Htake as [(u & Hrun & Hdom & Hu)|(u & c & Hrun & Hlt)].
  2: { rewrite (st_bind_fail _ _ _ (mk_acc u (timelock_constrained self)) _)
         by (unfold in_unconstrained, zoom; by rewrite Hrun).
       split; [|by exists c]. intros [Hcov _]. specialize (Hcov c). lia. }
  rewrite (st_bind_run _ _ _ (mk_acc u (timelock_constrained self)) tt)
    by (unfold in_unconstrained, zoom; by rewrite Hrun).
  set (a := mk_acc u (timelock_constrained self)).
  assert (forall Q `{forall d : NonZeroU64, Decision (Q d)},
    demand Q (btree_iter (timelock_constrained other)) = msum Q (timelock_constrained other)) as Hdemand.
  { intros Q ?. by rewrite msum_iter. }
  destruct (satisfy_all_spec (btree_iter (timelock_constrained other)) a (btree_sorted _) (btree_iter_NoDup _))
    as [(a' & Hrun' & (Hkeys & Htotal & Hlock) & Hcov)|(a' & [t coins] & Hrun' & Hin & Hlt)];
    unfold satisfy_all in Hrun'; rewrite Hrun'.
  - split; [split|split; [|split]].
    + intros c. apply Hu.
    + intros t coins Ht%elem_of_btree_iter. specialize (Hcov _ Ht). rewrite Hdemand in Hcov.
      unfold avail, a in Hcov. simpl in Hcov. pose proof (Hu CoinOrTokenId.Coin). lia.
    + intros c Hc. simpl. destruct Hkeys as (_ & _ & Htok). rewrite Htok by done. unfold a. simpl.
      pose proof (Hu c). lia.
    + rewrite Hdemand in Htotal. unfold a in Htotal. simpl in *. pose proof (Hu CoinOrTokenId.Coin). lia.
    + intros t. specialize (Hlock t). rewrite Hdemand in Hlock. unfold a in Hlock. simpl in *. lia.
  - split; [|by eexists]. intros [_ Hcov]. apply elem_of_btree_iter in Hin. specialize (Hcov t coins Hin).
    rewrite Hdemand in Hlt. unfold avail, a in Hlt. simpl in Hlt. pose proof (Hu CoinOrTokenId.Coin). lia.
Qed.
End check.

(** * Totals per currency *)

(** Where a value is recorded: under a currency, or with coins that have to
    stay locked for a number of blocks. *)
Inductive Place := PlaceValue (c : CoinOrTokenId) | PlaceLock (d : NonZeroU64).

#[global] Instance Place_eq_dec : EqDecision Place.
Proof. solve_decision. Defined.

Definition place_currency (p : Place) : CoinOrTokenId :=
  match p with PlaceValue c => c | PlaceLock _ => CoinOrTokenId.Coin end.

Section totals.
Implicit Types (a : Acc) (p q : Place) (c : CoinOrTokenId).

Definition placed a p : Z :=
  match p with
  | PlaceValue c => held (unconstrained_value a) c
  | PlaceLock d => held (timelock_constrained a) d
  end.

(** All of a currency, locked or not. *)
Definition gross a c : Z :=
  held (unconstrained_value a) c
  + (if decide (c = CoinOrTokenId.Coin) then msum (fun _ => True) (timelock_constrained a) else 0).

Definition add_at (error : Error) p (x : Amount) : ST Acc Error unit :=
  match p with
  | PlaceValue c => in_unconstrained (increase_or error c x)
  | PlaceLock d => in_timelock (increase_or error d x)
  end.

Lemma placed_range a p : 0 <= placed a p <= u128_MAX.
Proof. destruct p; apply held_range. Qed.

Lemma increase_or_held `{BTreeKey K} error (k : K) x (m : gmap K Amount) :
  if decide (held m k + ival x <= u128_MAX)
  then exists s, ival s = held m k + ival x /\ increase_or error k x m = (<[k:=s]> m, Ok tt)
  else exists m', increase_or error k x m = (m', Err error).
Proof.
  pose proof (increase_or_spec error k x m) as Hspec. unfold held.
  destruct (Amount.add _ x) as [s|] eqn:Hs; amount_inv.
  - pose proof (bint_range s). rewrite decide_True by lia. by exists s.
  - by rewrite decide_False by lia.
Qed.

Lemma increase_or_Ok `{BTreeKey K} error (k : K) x (m m' : gmap K Amount) :
  increase_or error k x m = (m', Ok tt) ->
  forall j, held m' j = held m j + (if decide (k = j) then ival x else 0).
Proof.
  intros Hrun j. pose proof (increase_or_held error k x m) as Hspec. rewrite Hrun in Hspec.
  case_decide; [|by destruct Hspec]. destruct Hspec as (s & Hs & [= ->]). rewrite held_insert.
  case_decide; [subst; lia|lia].
Qed.

Lemma add_at_spec error p x a :
  if decide (placed a p + ival x <= u128_MAX)
  then exists a', add_at error p x a = (a', Ok tt) /\
    forall q, placed a' q = placed a q + (if decide (p = q) then ival x else 0)
  else exists a', add_at error p x a = (a', Err error).
Proof.
  destruct a as [u t]. destruct p as [c|d]; unfold add_at, in_unconstrained, in_timelock, zoom; simpl;
    [pose proof (increase_or_held error c x u) as Hrun|pose proof (increase_or_held error d x t) as Hrun];
    case_decide.
  2,4: destruct Hrun as [m' ->]; by eexists.
  all: destruct Hrun as (s & Hs & ->); eexists; split; [done|]; intros [c'|d']; simpl;
    rewrite ?held_insert; repeat case_decide; simplify_eq; lia.
Qed.

Lemma msum_insert `{BTreeKey K} (m : gmap K Amount) k v :
  msum (fun _ => True) (<[k:=v]> m) = msum (fun _ => True) m - held m k + ival v.
Proof.
  unfold msum. rewrite dom_insert_L.
  rewrite (sum_over_ext _ _ (<[k:=ival v]> (held m))).
  2: { intros j _. rewrite held_insert. unfold insert, fn_insert. repeat case_decide; naive_solver. }
  rewrite (sum_over_ext (dom m) _ (held m)) by (intros; by rewrite decide_True).
  rewrite sum_over_update by set_solver. destruct (decide (k ∈ dom m)) as [Hk|Hk].
  - by replace ({[k]} ∪ dom m) with (dom m) by set_solver.
  - rewrite sum_over_insert by done. apply not_elem_of_dom in Hk.
    assert (held m k = 0) as Hz by (unfold held; by rewrite Hk). lia.
Qed.

Lemma add_at_gross error p x a a' :
  add_at error p x a = (a', Ok tt) ->
  forall c, gross a' c = gross a c + (if decide (place_currency p = c) then ival x else 0).
Proof.
  destruct a as [u t]. destruct p as [k|d]; unfold add_at, in_unconstrained, in_timelock, zoom; simpl;
    [pose proof (increase_or_held error k x u) as Hrun|pose proof (increase_or_held error d x t) as Hrun];
    case_decide.
  2,4: by destruct Hrun as [m' ->].
  all: destruct Hrun as (s & Hs & ->); intros [= <-] c; unfold gross; simpl;
    rewrite ?msum_insert, ?held_insert; repeat case_decide; simplify_eq; lia.
Qed.
End totals.

(** ** What the outputs require *)

Section outputs.
Context `{CryptoTypes}.
Implicit Types (cfg : ChainConfig) (h : BlockHeight).

Definition coin_place : Place := PlaceValue CoinOrTokenId.Coin.

Definition value_need (v : OutputValue) : option (Place * Amount) :=
  match v with
  | Coin x => Some (coin_place, x)
  | TokenV0 _ => None
  | TokenV1 id x => Some (PlaceValue (CoinOrTokenId.TokenId id), x)
  end.

Definition timelock_place (t : OutputTimeLock) : Place :=
  match t with
  | ForBlockCount n => match NonZeroU64_new n with Some d => PlaceLock d | None => coin_place end
  | _ => coin_place
  end.

(** The value one output requires, and where it counts. *)
Definition output_need cfg h (o : TxOutput) : result Error (option (Place * Amount)) :=
  match o with
  | Transfer v _ | Burn v | Htlc v _ => Ok (value_need v)
  | LockThenTransfer (Coin x) _ t => Ok (Some (timelock_place t, x))
  | LockThenTransfer v _ _ => Ok (value_need v)
  | DelegateStaking x _ => Ok (Some (coin_place, x))
  | CreateStakePool _ data => Ok (Some (coin_place, sp_pledge data))
  | ProduceBlockFromStake _ _ | CreateDelegationId _ _ => Ok None
  | DataDeposit _ => (fun fee => Some (coin_place, fee)) <$> data_deposit_fee cfg h
  | IssueFungibleToken _ => Ok (Some (coin_place, fungible_token_issuance_fee cfg))
  | IssueNft _ _ _ => (fun fee => Some (coin_place, fee)) <$> nft_issuance_fee cfg h
  | CreateOrder d => match value_need (co_give d) with Some n => Ok (Some n) | None => Err UnsupportedTokenVersion end
  end.

Definition add_need (n : option (Place * Amount)) : ST Acc Error unit :=
  match n with Some (p, x) => add_at AmountOverflow p x | None => mret tt end.

Lemma process_output_need cfg h o a :
  process_output cfg h o a = (n ← lift (output_need cfg h o); add_need n) a.
Proof.
  destruct o as [v d|v d t|v|id data|k id|id k|x id|i|id i d|b|v l|d]; simpl; try done.
  - by destruct v.
  - destruct v as [x| |]; [|done..]. destruct t as [?|?|n|?]; [done..| |done]. simpl.
    unfold process_output_timelock. by destruct (NonZeroU64_new n).
  - by destruct v.
  - unfold mbind, st_bind, lift. by destruct (nft_issuance_fee cfg h).
  - unfold mbind, st_bind, lift. by destruct (data_deposit_fee cfg h).
  - by destruct v.
  - by destruct (co_give d).
Qed.

(** What a need adds at a place, and to a currency. *)
Definition need_at (p : Place) (n : option (Place * Amount)) : Z :=
  match n with Some (q, x) => if decide (q = p) then ival x else 0 | None => 0 end.
Definition need_of (c : CoinOrTokenId) (n : option (Place * Amount)) : Z :=
  match n with Some (q, x) => if decide (place_currency q = c) then ival x else 0 | None => 0 end.

Lemma need_at_nonneg p n : 0 <= need_at p n.
Proof. destruct n as [[q x]|]; simpl; [|done]. pose proof (bint_range x). case_decide; lia. Qed.

Lemma add_need_spec n a :
  (exists a', add_need n a = (a', Ok tt) /\ forall p, placed a' p = placed a p + need_at p n) \/
  (exists a' p, add_need n a = (a', Err AmountOverflow) /\ u128_MAX < placed a p + need_at p n).
Proof.
  destruct n as [[p x]|]; simpl.
  2: { left. exists a. split; [done|]. intros. lia. }
  pose proof (add_at_spec AmountOverflow p x a) as Hrun. case_decide.
  - left. destruct Hrun as (a' & Hrun & Hq). by exists a'.
  - right. destruct Hrun as [a' Hrun]. exists a', p. rewrite decide_True by done. split; [done|lia].
Qed.

Lemma add_need_gross n a a' :
  add_need n a = (a', Ok tt) -> forall c, gross a' c = gross a c + need_of c n.
Proof.
  destruct n as [[p x]|]; simpl; [apply add_at_gross|]. intros [= <-] c. lia.
Qed.

Fixpoint output_needs cfg h (os : list TxOutput) : result Error (list (option (Place * Amount))) :=
  match os with
  | [] => Ok []
  | o :: os => n ← output_need cfg h o; ns ← output_needs cfg h os; Ok (n :: ns)
  end.

(** The outputs seen so far require more than an amount can hold. *)
Definition overflows cfg h (os : list TxOutput) (base : Place -> Z) : Prop :=
  exists pre ns p, pre `prefix_of` os /\ output_needs cfg h pre = Ok ns /\
    u128_MAX < base p + Zsum (need_at p <$> ns).

Lemma process_outputs_spec cfg h os a :
  match try_for_each (process_output cfg h) os a with
  | (a', Ok _) => exists ns, output_needs cfg h os = Ok ns /\
      (forall p, placed a' p = placed a p + Zsum (need_at p <$> ns)) /\
      (forall c, gross a' c = gross a c + Zsum (need_of c <$> ns))
  | (_, Err e) => e = AmountOverflow /\ overflows cfg h os (placed a) \/ output_needs cfg h os = Err e
  | (_, Panic) => output_needs cfg h os = Panic
  end.
Proof.
  revert a. induction os as [|o os IH]; intros a; cbn [try_for_each output_needs].
  { exists []. split; [done|]. split; intros; cbn; lia. }
  unfold mbind at 1, st_bind. rewrite process_output_need. unfold mbind at 1, st_bind, lift.
  destruct (output_need cfg h o) as [n|e|] eqn:Ho; simpl; [|by right|done].
  destruct (add_need_spec n a) as [(a1 & Hrun & Hp)|(a1 & p & Hrun & Hlt)]; rewrite Hrun.
  2: { left. split; [done|]. exists [o], [n], p. split; [apply prefix_cons, prefix_nil|].
       simpl. rewrite Ho. split; [done|]. cbn. lia. }
  specialize (IH a1). destruct (try_for_each _ os a1) as [a' [?|e|]].
  - destruct IH as (ns & -> & Hat & Hgross). exists (n :: ns). split; [done|].
    split; intros; cbn [fmap list_fmap]; rewrite ?Hat, ?Hgross, ?Hp, ?(add_need_gross _ _ _ Hrun);
      cbn; unfold Zsum; lia.
  - destruct IH as [[-> (pre & ns & p & Hpre & Hns & Hlt)]|IH]; [left|right; by rewrite IH].
    split; [done|]. exists (o :: pre), (n :: ns), p. split; [by apply prefix_cons|].
    split; [cbn; by rewrite Ho; simpl; rewrite Hns|]. rewrite Hp in Hlt. cbn. unfold Zsum in Hlt. lia.
  - by rewrite IH.
Qed.
End outputs.

(** * Main properties *)

Section properties.
Context `{CryptoTypes}.

(** The check of inputs against outputs succeeds exactly when the inputs
    cover the outputs (every currency suffices, and for each timelock of an
    output the coins locked at most that long suffice for it and all shorter
    timelocks); then nothing is created or lost between inputs, outputs and
    fee, and coins that have to stay locked are in outputs locked at least as
    long or remain in the fee under their constraint.  Otherwise it reports an
    attempt to print money; it never panics. *)
Theorem inputs_cover_outputs (self other : Acc) :
  match satisfy_with self other with
  | Ok fee => covers self other /\ conserved self other fee
  | Err e => ~ covers self other /\ exists c, e = AttemptToPrintMoneyOrViolateTimelockConstraints c
  | Panic => False
  end.
Proof. apply satisfy_with_spec. Qed.

(** The requirements accumulated from the outputs are, for every currency
    and every timelock, exactly the sum of what the single outputs require;
    the accumulation fails exactly when a sum exceeds what an amount holds or
    an order gives tokens of the unsupported version. *)
Theorem outputs_requirements_exact cfg h os :
  match from_outputs cfg h os with
  | Ok a => exists ns, output_needs cfg h os = Ok ns /\ forall p, placed a p = Zsum (need_at p <$> ns)
  | Err e => e = AmountOverflow /\ overflows cfg h os (fun _ => 0) \/ output_needs cfg h os = Err e
  | Panic => output_needs cfg h os = Panic
  end.
Proof.
  unfold from_outputs. pose proof (process_outputs_spec cfg h os ConstrainedValueAccumulator_new) as Hspec.
  assert (forall p, placed ConstrainedValueAccumulator_new p = 0) as Hzero by (intros []; apply held_empty).
  destruct (try_for_each _ _ _) as [a [[]|e|]]; cbn; [|destruct Hspec as [[-> Hov]|He]; [left|by right]|done].
  - destruct Hspec as (ns & Hns & Hp & _). exists ns. split; [done|]. intros p. rewrite Hp, Hzero. lia.
  - split; [done|]. destruct Hov as (pre & ns & p & ? & ? & Hlt). exists pre, ns, p. by rewrite Hzero in Hlt.
Qed.
End properties.
