(* ===== verification/Conservation.v ===== *)
(** * Conservation of value

    Puts the ledgers and the value check together.  A transaction's inputs
    spend outputs, withdraw from delegations, mint tokens and fill or conclude
    orders; [from_inputs] turns them into an amount per currency.  The
    theorems show that this amount is exactly what the spent outputs are worth
    plus what the ledgers of orders, delegations and token supplies lose when
    the same operations are applied to them, less the fees of the commands,
    so that a transaction that passes the check neither creates nor destroys
    value. *)
From S2P Require Import Prelude Amount Accounting ChainTypes ChainConfig Tokens Orders PoS Constraints.

(** ** The ledgers a transaction draws on *)

Record World `{CryptoTypes} := mk_world {
  w_orders : Orders.Ledger;
  w_tokens : Tokens.Ledger;
  w_pos : PoS.Ledger
}.
Arguments mk_world {_} _ _ _.

Definition ok {E A} (r : result E A) : option A := match r with Ok a => Some a | _ => None end.

Section world.
Context `{CryptoTypes}.
Implicit Types (cfg : ChainConfig) (h : BlockHeight) (w : World) (c : CoinOrTokenId).

Definition set_orders w (r : result Orders.Error Orders.Ledger) : option World :=
  (fun l => mk_world l (w_tokens w) (w_pos w)) <$> ok r.
Definition set_tokens w (r : result Tokens.Error Tokens.Ledger) : option World :=
  (fun l => mk_world (w_orders w) l (w_pos w)) <$> ok r.
Definition set_pos w (r : result PoS.Error PoS.Ledger) : option World :=
  (fun l => mk_world (w_orders w) (w_tokens w) l) <$> ok r.

Definition fill_world cfg h w (id : OrderId) (fill : Amount) : option World :=
  upgrade ← ok (@chainstate_upgrade_at Error cfg h);
  set_orders w (Orders.spec_op (OpFill id fill (orders_version upgrade)) (w_orders w)).

(** What an input does to the ledgers, as far as they hold value. *)
Definition apply_input cfg h w (input : TxInput) : option World :=
  match input with
  | InputUtxo _ => Some w
  | InputAccount outpoint =>
      match ao_account outpoint with
      | DelegationBalance id a => set_pos w (PoS.spec_op (OpSpend id a) (w_pos w))
      end
  | InputAccountCommand _ (AccountCommand.MintTokens id a) =>
      set_tokens w (Tokens.spec_op (OpMint id a) (w_tokens w))
  | InputAccountCommand _ (AccountCommand.ConcludeOrder id)
  | InputOrderAccountCommand (OrderAccountCommand.ConcludeOrder id) =>
      set_orders w (Orders.spec_op (OpConclude id) (w_orders w))
  | InputAccountCommand _ (AccountCommand.FillOrder id fill _)
  | InputOrderAccountCommand (OrderAccountCommand.FillOrder id fill) => fill_world cfg h w id fill
  | _ => Some w
  end.

Fixpoint apply_inputs cfg h w (inputs : list TxInput) : option World :=
  match inputs with
  | [] => Some w
  | input :: inputs => w ← apply_input cfg h w input; apply_inputs cfg h w inputs
  end.

(** ** Values *)

Definition if_currency (o : option CoinOrTokenId) c (x : Z) : Z := if decide (o = Some c) then x else 0.

(** An order holds what remains to be given and what was paid in. *)
Definition order_holds (l : Orders.Ledger) (id : OrderId) c : Z :=
  match l_order l id with
  | None => 0
  | Some d =>
      if_currency (CoinOrTokenId.from_output_value (give d)) c (ival (l_give l id))
      + if_currency (CoinOrTokenId.from_output_value (ask d)) c (ival (amount (ask d)) - ival (l_ask l id))
  end.

(** The value in the ledgers: orders and delegations hold it, minted tokens
    have left it. *)
Definition world_value (O : gset OrderId) (D : gset DelegationId) w c : Z :=
  sum_over O (fun id => order_holds (w_orders w) id c)
  + match c with
    | CoinOrTokenId.Coin => sum_over D (fun id => ival (l_balance (w_pos w) id))
    | CoinOrTokenId.TokenId id => - ival (l_supply (w_tokens w) id)
    end.

(** What spending an output brings; the output of a pool stands for the
    staker's balance. *)
Definition utxo_value (pools : PoolId -> option PoolData) (o : TxOutput) c : Z :=
  match o with
  | Transfer v _ | LockThenTransfer v _ _ | Htlc v _ => need_of c (value_need v)
  | DelegateStaking coins _ => if_currency (Some CoinOrTokenId.Coin) c (ival coins)
  | IssueNft id _ _ => if_currency (Some (CoinOrTokenId.TokenId id)) c 1
  | CreateStakePool id _ | ProduceBlockFromStake _ id =>
      match pools id with
      | Some d => if_currency (Some CoinOrTokenId.Coin) c (ival (pledge_amount d) + ival (staker_rewards d))
      | None => 0
      end
  | _ => 0
  end.

Definition input_value (pools : PoolId -> option PoolData) (e : TxInput * option TxOutput) c : Z :=
  match e with
  | (InputUtxo _, Some o) => utxo_value pools o c
  | _ => 0
  end.

Definition fee_value {E} (r : result E Amount) : Z := match r with Ok x => ival x | _ => 0 end.

(** The fee of a command, in coins. *)
Definition command_fee cfg h (input : TxInput) : Z :=
  match input with
  | InputAccountCommand _ (AccountCommand.MintTokens _ _ | AccountCommand.UnmintTokens _
      | AccountCommand.LockTokenSupply _) => fee_value (@token_supply_change_fee Error cfg h)
  | InputAccountCommand _ (AccountCommand.FreezeToken _ _ | AccountCommand.UnfreezeToken _) =>
      fee_value (@token_freeze_fee Error cfg h)
  | InputAccountCommand _ (AccountCommand.ChangeTokenAuthority _ _) =>
      fee_value (@token_change_authority_fee Error cfg h)
  | InputAccountCommand _ (AccountCommand.ChangeTokenMetadataUri _ _) =>
      ival (token_change_metadata_uri_fee cfg)
  | _ => 0
  end.

Definition if_coin c (x : Z) : Z := if_currency (Some CoinOrTokenId.Coin) c x.

(** Every order and delegation is in the finite sets, and the ledgers satisfy
    their invariants. *)
Record world_inv (O : gset OrderId) (D : gset DelegationId) w : Prop := {
  inv_orders : Orders.ledger_inv (w_orders w);
  inv_order_ids : forall id, l_order (w_orders w) id <> None -> id ∈ O;
  inv_pos : PoS.ledger_inv D (w_pos w)
}.
End world.

(** ** One input *)

(** [run_inv] on methods of the input state, keeping the state's fields apart. *)
Ltac input_inv :=
  repeat (run_inv_step; cbn [accumulator total_to_deduct temp_pos_accounting temp_tokens_accounting
    temp_orders_accounting] in * ).

Section input.
Context `{CryptoTypes} {Pp Po Pt : Type}.
Context `{!PoSAccountingView Pp} `{!OrdersAccountingView Po} `{!TokensAccountingView Pt}.
Variables (cfg : ChainConfig) (h : BlockHeight) (base : World) (O : gset OrderId) (D : gset DelegationId).
Implicit Types (s : @InputState _ Pp Po Pt) (w : World) (c : CoinOrTokenId).

(** The temporary deltas show the ledgers [w]. *)
Record shows s w : Prop := {
  show_orders : Orders.cache_rep (temp_orders_accounting s) (w_orders base) (w_orders w);
  show_tokens : Tokens.cache_rep (temp_tokens_accounting s) (w_tokens base) (w_tokens w);
  show_pos : PoS.cache_rep (temp_pos_accounting s) (w_pos base) (w_pos w)
}.

(** What the inputs so far bring, net of what is to be deducted. *)
Definition brought s c : Z := gross (accumulator s) c - held (total_to_deduct s) c.

(** *** Unspent outputs *)

Lemma add_maturing_gross x a a' :
  add_maturing cfg h x a = (a', Ok tt) -> forall c, gross a' c = gross a c + if_coin c (ival x).
Proof.
  unfold add_maturing. intros Hrun c. run_inv. unfold if_coin, if_currency.
  destruct (NonZeroU64_new _) as [d|].
  - rewrite (add_at_gross (CoinOrTokenOverflow CoinOrTokenId.Coin) (PlaceLock d) x a) by done.
    simpl. repeat case_decide; naive_solver.
  - rewrite (add_at_gross AmountOverflow coin_place x a) by done. simpl. repeat case_decide; naive_solver.
Qed.

Lemma process_input_utxo_gross {P} `{!PoSAccountingView P} (view : P) pools outpoint o a a' :
  (forall id, get_pool_data view id = Ok (pools id)) ->
  process_input_utxo cfg h view outpoint o a = (a', Ok tt) ->
  forall c, gross a' c = gross a c + utxo_value pools o c.
Proof.
  intros Hpools Hrun c.
  assert (forall p x, add_at AmountOverflow p x a = (a', Ok tt) ->
    gross a' c = gross a c + if_currency (Some (place_currency p)) c (ival x)) as Hadd.
  { intros p x Hx. rewrite (add_at_gross _ _ _ _ _ Hx). unfold if_currency. repeat case_decide; naive_solver. }
  assert (forall v, add_output_value v a = (a', Ok tt) -> gross a' c = gross a c + need_of c (value_need v)) as Hval.
  { intros v Hv. apply (add_need_gross (value_need v)). by destruct v. }
  assert (forall id, (pool_data ← lift (map_err (fun _ => PoSAccountingError PoS.ViewFail) (get_pool_data view id));
      pool_data ← lift (ok_or (PledgeAmountNotFound id) pool_data);
      staker_balance ← lift (map_err PoSAccountingError (staker_balance pool_data));
      add_maturing cfg h staker_balance) a = (a', Ok tt) ->
    gross a' c = gross a c + match pools id with
      | Some d => if_coin c (ival (pledge_amount d) + ival (staker_rewards d)) | None => 0 end) as Hpool.
  { intros id Hid. rewrite Hpools in Hid. run_inv. destruct (pools id) as [d|]; simplify_eq.
    match goal with Hs : staker_balance _ = _ |- _ => unfold staker_balance in Hs end. run_inv. amount_inv.
    rewrite (add_maturing_gross _ _ _ ltac:(eassumption)). unfold if_coin, if_currency. case_decide; lia. }
  destruct o as [v d|v d t|v|id data|k id|id k|x id|i|id i d|b|v l|d]; simpl in Hrun |- *;
    solve [by apply Hval|by apply Hpool|run_inv; done|by apply (Hadd coin_place)
      |by apply (Hadd (PlaceValue (CoinOrTokenId.TokenId id)) (Amount.lit 1))].
Qed.

(** *** Orders *)

Lemma amount_of_value v x : Constraints.output_value_amount v = Ok x -> amount v = x.
Proof. destruct v; simpl; congruence. Qed.

(** The orders' holdings change only in the order that is touched. *)
Lemma world_value_set_order w id o (a g : Amount) c :
  id ∈ O ->
  world_value O D (mk_world (set_order (w_orders w) id o a g) (w_tokens w) (w_pos w)) c
  = world_value O D w c - order_holds (w_orders w) id c
    + order_holds (set_order (w_orders w) id o a g) id c.
Proof.
  intros Hid. unfold world_value. simpl.
  rewrite (sum_over_change O (fun id => order_holds (w_orders w) id c) _ id Hid); [lia|].
  intros j Hj. unfold order_holds, set_order. simpl. by rewrite !fn_lookup_insert_ne.
Qed.

(** [s'] is [s] after an operation on the order [id]: the accumulator gained
    what the order lost, plus the amount [r.2] that is to be deducted again. *)
Definition orders_step s s' w (id : OrderId) (op : OrderOp) (r : CoinOrTokenId * Amount) : Prop :=
  exists l, Orders.spec_op op (w_orders w) = Ok l /\
    shows s' (mk_world l (w_tokens w) (w_pos w)) /\
    total_to_deduct s' = total_to_deduct s /\
    forall c, gross (accumulator s') c = gross (accumulator s) c
      + order_holds (w_orders w) id c - order_holds l id c + if_currency (Some r.1) c (ival r.2).

Lemma add_currency_gross k x (a a' : Acc) :
  in_unconstrained (insert_or_increase k x) a = (a', Ok tt) ->
  forall c, gross a' c = gross a c + if_currency (Some k) c (ival x).
Proof.
  intros Hrun c. rewrite (add_at_gross AmountOverflow (PlaceValue k) x a a' Hrun).
  unfold if_currency. simpl. repeat case_decide; naive_solver.
Qed.

Lemma conclude_step s s' w id r :
  shows s w -> world_inv O D w -> process_conclude_order_command id s = (s', Ok r) ->
  orders_step s s' w id (OpConclude id) r.
Proof.
  destruct s as [a ded p t o]. intros [Ho Ht Hp] Hinv Hrun.
  unfold process_conclude_order_command, in_orders, in_acc in Hrun. cbn in Ho, Ht, Hp. input_inv.
  rename select (conclude_order _ _ = _) into Hc. rename select (Amount.sub _ _ = _) into Hsub.
  rename select (Constraints.output_value_amount _ = _) into Hasked. apply amount_of_value in Hasked.
  rename select (CoinOrTokenId.from_output_value (ask _) = _) into Hask.
  rename select (CoinOrTokenId.from_output_value (give _) = _) into Hgive.
  match goal with
  | H1 : in_unconstrained _ a = _, H2 : in_unconstrained _ _ = (?a2, _) |- orders_step _ (mk_state ?a2 _ _ _ _) _ _ _ _ =>
      pose proof (add_currency_gross _ _ _ _ H1) as Hg1; pose proof (add_currency_gross _ _ _ _ H2) as Hg2
  end.
  rewrite (cache_rep_order _ _ _ _ Ho) in *. rewrite (cache_rep_ask _ _ _ _ Ho), (cache_rep_give _ _ _ _ Ho) in *.
  destruct (exec_op_inv_orders _ _ _ (OpConclude id) _ _ Ho (inv_orders _ _ _ Hinv) I Hc) as (l & Hl & Hrep & _).
  exists l. split; [done|]. split; [by split|]. split; [done|]. intros c. simpl. rewrite Hg2, Hg1.
  simplify_eq. apply spec_conclude_Ok in Hl as (d & Hd & ->). unfold order_holds. simpl.
  rewrite fn_lookup_insert, Hd. simplify_eq. amount_inv. rewrite Hask, Hgive.
  unfold if_currency. simpl. repeat case_decide; lia.
Qed.

Lemma fill_step s s' w id fill r :
  shows s w -> world_inv O D w -> process_fill_order_command cfg h id fill s = (s', Ok r) ->
  exists u, @chainstate_upgrade_at Error cfg h = Ok u /\ orders_step s s' w id (OpFill id fill (orders_version u)) r.
Proof.
  destruct s as [a ded p t o]. intros [Ho Ht Hp] Hinv Hrun.
  unfold process_fill_order_command, in_orders, in_acc in Hrun. cbn in Ho, Ht, Hp. input_inv.
  rename select (chainstate_upgrade_at _ _ = _) into Hup. eexists. split; [exact Hup|].
  rename select (fill_order _ _ _ _ = _) into Hc. rename select (calculate_fill_order _ _ _ _ = _) into Hprice.
  rename select (CoinOrTokenId.from_output_value (ask _) = _) into Hask.
  rename select (CoinOrTokenId.from_output_value (give _) = _) into Hgive.
  rename select (in_unconstrained _ a = _) into Hadd. pose proof (add_currency_gross _ _ _ _ Hadd) as Hg.
  rewrite (cache_rep_order _ _ _ _ Ho) in *. simplify_eq.
  rewrite (calculate_fill_order_rep _ _ _ _ _ _ _ Ho Hrun) in Hprice.
  destruct (exec_op_inv_orders _ _ _ (OpFill id fill _) _ _ Ho (inv_orders _ _ _ Hinv) I Hc) as (l & Hl & Hrep & _).
  exists l. split; [done|]. split; [by split|]. split; [done|]. intros c. simpl. rewrite Hg.
  apply spec_fill_Ok in Hl as (d & filled & a' & g' & Hd & _ & Hp' & Ha & Hg' & ->). simplify_eq.
  rewrite Hprice in Hp'. injection Hp' as <-.
  unfold order_holds. simpl. rewrite !fn_lookup_insert, Hrun, Hask, Hgive.
  unfold if_currency. simpl. repeat case_decide; lia.
Qed.

(** *** The other ledgers *)

Lemma spend_step s s' w id x :
  shows s w -> world_inv O D w -> process_input_account cfg h (DelegationBalance id x) s = (s', Ok tt) ->
  exists l, PoS.spec_op (OpSpend id x) (w_pos w) = Ok l /\
    shows s' (mk_world (w_orders w) (w_tokens w) l) /\
    total_to_deduct s' = total_to_deduct s /\
    forall c, gross (accumulator s') c = gross (accumulator s) c + if_coin c (ival x).
Proof.
  destruct s as [a ded p t o]. intros [Ho Ht Hp] Hinv Hrun.
  unfold process_input_account, in_pos, in_acc in Hrun. cbn in Ho, Ht, Hp. input_inv.
  rename select (cache_get_delegation_balance _ _ = _) into Hread.
  rename select (add_maturing _ _ _ _ = _) into Hadd.
  pose proof (overspent_unreadable _ _ _ _ _ _ _ _ Hp Hrun Hread) as Hle.
  destruct (exec_op_inv_pos _ _ _ D (OpSpend id x) _ _ Hp (inv_pos _ _ _ Hinv) Hle Hrun) as (l & Hl & Hrep & _).
  exists l. split; [done|]. split; [by split|]. split; [done|]. by apply add_maturing_gross.
Qed.

Lemma mint_step s s' w id x r :
  shows s w -> process_input_account_command cfg h (AccountCommand.MintTokens id x) s = (s', Ok r) ->
  exists l fee, Tokens.spec_op (OpMint id x) (w_tokens w) = Ok l /\
    shows s' (mk_world (w_orders w) l (w_pos w)) /\
    @token_supply_change_fee Error cfg h = Ok fee /\ r = (CoinOrTokenId.Coin, fee) /\
    total_to_deduct s' = total_to_deduct s /\
    forall c, gross (accumulator s') c = gross (accumulator s) c
      + if_currency (Some (CoinOrTokenId.TokenId id)) c (ival x).
Proof.
  destruct s as [a ded p t o]. intros [Ho Ht Hp] Hrun. cbn [process_input_account_command] in Hrun.
  unfold in_tokens, in_acc in Hrun. cbn in Ho, Ht, Hp. input_inv.
  rename select (cache_get_circulating_supply _ _ = _) into Hread.
  rename select (in_unconstrained _ _ = _) into Hadd. rename select (token_supply_change_fee _ _ = _) into Hfee.
  destruct (exec_op_inv_tokens _ _ _ (OpMint id x) _ _ Ht Hrun) as (l & Hl & Hrep & _).
  { unfold readable. simpl. by rewrite Hread. }
  exists l. eexists. split; [done|]. split; [by split|]. split; [done|]. split; [done|]. split; [done|].
  by apply add_currency_gross.
Qed.

Lemma deduct_brought s s' k x :
  in_deduct (insert_or_increase k x) s = (s', Ok tt) ->
  (forall w, shows s w -> shows s' w) /\ forall c, brought s' c = brought s c - if_currency (Some k) c (ival x).
Proof.
  unfold in_deduct. intros Hrun. run_inv. split.
  - intros w [? ? ?]. by split.
  - intros c. unfold brought. simpl. unfold insert_or_increase in Hrun.
    rewrite (increase_or_Ok _ _ _ _ _ Hrun). unfold if_currency. repeat case_decide; simplify_eq; lia.
Qed.

(** *** Any input *)

(** What one input does: the ledgers change as [apply_input] says, and the
    amounts brought in are the output's value and what the ledgers lost, less
    the command's fee. *)
Definition input_step s s' w (e : TxInput * option TxOutput) : Prop :=
  exists w', apply_input cfg h w e.1 = Some w' /\ shows s' w' /\ world_inv O D w' /\
    l_pool (w_pos w') = l_pool (w_pos w) /\
    forall c, brought s' c = brought s c + input_value (l_pool (w_pos w)) e c
      + (world_value O D w c - world_value O D w' c) - if_coin c (command_fee cfg h e.1).

(** The operation touches only the existing order [id]. *)
Definition touches w (op : OrderOp) (id : OrderId) : Prop :=
  forall l, Orders.spec_op op (w_orders w) = Ok l ->
    l_order (w_orders w) id <> None /\ exists o a g, l = set_order (w_orders w) id o a g.

Lemma conclude_touches w id : touches w (OpConclude id) id.
Proof. intros l Hl. apply spec_conclude_Ok in Hl as (d & Hd & ->). rewrite Hd. by eauto. Qed.

Lemma fill_touches w id fill v : touches w (OpFill id fill v) id.
Proof.
  intros l Hl. apply spec_fill_Ok in Hl as (d & x & a & g & Hd & _ & _ & _ & _ & ->). rewrite Hd. by eauto.
Qed.

Lemma orders_input_step s s1 s' w id op r e :
  world_inv O D w -> touches w op id -> orders_step s s1 w id op r ->
  in_deduct (insert_or_increase r.1 r.2) s1 = (s', Ok tt) ->
  apply_input cfg h w e.1 = set_orders w (Orders.spec_op op (w_orders w)) ->
  input_value (l_pool (w_pos w)) e = (fun _ => 0) -> command_fee cfg h e.1 = 0 ->
  input_step s s' w e.
Proof.
  intros Hinv Htouch (l & Hl & Hshow & Hded & Hgross) Hdeduct Happly Hval Hfee.
  destruct (Htouch l Hl) as [Hex (o & a & g & ->)]. pose proof (inv_order_ids _ _ _ Hinv id Hex) as Hid.
  destruct (deduct_brought _ _ _ _ Hdeduct) as [Hkeep Hbrought].
  exists (mk_world (set_order (w_orders w) id o a g) (w_tokens w) (w_pos w)).
  split; [rewrite Happly; unfold set_orders; by rewrite Hl|]. split; [by apply Hkeep|].
  destruct Hinv as [Hio Hids Hip]. split; [split|split; [done|]].
  - by eapply spec_op_inv_orders.
  - intros j. simpl. destruct (decide (j = id)) as [->|Hne]; [done|]. rewrite fn_lookup_insert_ne by done. apply Hids.
  - done.
  - intros c. rewrite Hbrought, Hval, Hfee, world_value_set_order by done. unfold brought.
    rewrite Hgross, Hded. unfold if_coin, if_currency. repeat case_decide; lia.
Qed.

(** Inputs that leave the ledgers alone. *)
Lemma plain_input_step s s' w e :
  apply_input cfg h w e.1 = Some w -> world_inv O D w -> shows s' w ->
  (forall c, brought s' c = brought s c + input_value (l_pool (w_pos w)) e c - if_coin c (command_fee cfg h e.1)) ->
  input_step s s' w e.
Proof.
  intros Happly Hinv Hshow Hb. exists w. do 4 (split; [done|]). intros c. rewrite Hb. lia.
Qed.

Lemma utxo_input_step s s' w outpoint o :
  shows s w -> world_inv O D w -> process_input cfg h (InputUtxo outpoint, o) s = (s', Ok tt) ->
  input_step s s' w (InputUtxo outpoint, o).
Proof.
  intros Hshow Hinv Hrun. unfold process_input, in_acc in Hrun. run_inv.
  rename select (process_input_utxo _ _ _ _ _ _ = _) into Hutxo.
  apply plain_input_step; [done|done|by destruct Hshow|]. intros c.
  assert (forall id, get_pool_data (temp_pos_accounting s) id = Ok (l_pool (w_pos w) id)) as Hpools.
  { intros id. simpl. by rewrite (cache_rep_pool _ _ _ _ (show_pos _ _ Hshow)). }
  unfold brought. simpl. rewrite (process_input_utxo_gross _ _ _ _ _ _ Hpools Hutxo).
  unfold if_coin, if_currency. case_decide; lia.
Qed.

Lemma account_input_step s s' w outpoint o :
  shows s w -> world_inv O D w -> process_input cfg h (InputAccount outpoint, o) s = (s', Ok tt) ->
  input_step s s' w (InputAccount outpoint, o).
Proof.
  intros Hshow Hinv Hrun. cbn [process_input] in Hrun. destruct outpoint as [n [id x]]. simpl in Hrun.
  destruct (spend_step _ _ _ _ _ Hshow Hinv Hrun) as (l & Hl & Hshow' & Hded & Hgross).
  exists (mk_world (w_orders w) (w_tokens w) l).
  split; [cbn [fst apply_input ao_account]; unfold set_pos; by rewrite Hl|]. split; [done|].
  destruct Hinv as [Hio Hids Hip]. pose proof (spec_spend_inv _ _ _ _ _ Hip Hl) as Hip'.
  apply spec_spend_Ok in Hl as (d & b & pb & sh & Hd & Hb & _ & _ & ->).
  split; [by split|]. split; [done|]. intros c. unfold brought. rewrite Hgross, Hded.
  assert (id ∈ D) as Hid.
  { destruct (decide (id ∈ D)); [done|]. by rewrite (inv_domain _ _ Hip) in Hd. }
  unfold world_value, if_coin, if_currency. simpl. destruct c as [|tok]; simpl; [|repeat case_decide; simplify_eq; lia].
  rewrite (sum_over_change D (fun id => ival (l_balance (w_pos w) id))
    (fun j => ival (<[id:=b]> (l_balance (w_pos w)) j)) id Hid).
  - simpl. rewrite fn_lookup_insert. repeat case_decide; simplify_eq; lia.
  - intros j Hj. simpl. by rewrite fn_lookup_insert_ne.
Qed.

(** A command that only has a fee. *)
Lemma fee_input_step s s' w n cmd o (fee : result Error Amount) :
  shows s w -> world_inv O D w ->
  process_input_account_command cfg h cmd s = (fee ← lift fee; mret (CoinOrTokenId.Coin, fee)) s ->
  apply_input cfg h w (InputAccountCommand n cmd) = Some w ->
  command_fee cfg h (InputAccountCommand n cmd) = fee_value fee ->
  process_input cfg h (InputAccountCommand n cmd, o) s = (s', Ok tt) ->
  input_step s s' w (InputAccountCommand n cmd, o).
Proof.
  intros Hshow Hinv Hcmd Happly Hfee Hrun. cbn [process_input] in Hrun. apply st_bind_Ok in Hrun as ([k x] & s1 & H1 & Hrun).
  rewrite Hcmd in H1. run_inv. destruct (deduct_brought _ _ _ _ Hrun) as [Hkeep Hb].
  apply plain_input_step; [done|done|by apply Hkeep|]. intros c. rewrite Hb. cbn [fst].
  rewrite Hfee. unfold if_coin. simpl. simplify_eq. lia.
Qed.

Lemma mint_input_step s s' w n id x o :
  shows s w -> world_inv O D w ->
  process_input cfg h (InputAccountCommand n (AccountCommand.MintTokens id x), o) s = (s', Ok tt) ->
  input_step s s' w (InputAccountCommand n (AccountCommand.MintTokens id x), o).
Proof.
  intros Hshow Hinv Hrun. unfold process_input in Hrun. apply st_bind_Ok in Hrun as ([k y] & s1 & H1 & Hrun).
  destruct (mint_step _ _ _ _ _ _ Hshow H1) as (l & fee & Hl & Hshow1 & Hfee & [= -> ->] & Hded & Hgross).
  destruct (deduct_brought _ _ _ _ Hrun) as [Hkeep Hb].
  exists (mk_world (w_orders w) l (w_pos w)). cbn [fst apply_input].
  split; [unfold set_tokens; by rewrite Hl|]. split; [by apply Hkeep|].
  destruct Hinv as [Hio Hids Hip]. split; [by split|]. split; [done|]. intros c.
  rewrite Hb. unfold brought. rewrite Hgross, Hded. cbn [input_value command_fee].
  rewrite Hfee. apply spec_mint_Ok in Hl as (d & t & _ & _ & Ht & -> & _).
  unfold world_value, if_coin, if_currency. simpl. destruct c as [|tok]; repeat case_decide; simplify_eq; try lia.
  - rewrite fn_lookup_insert. lia.
  - rewrite fn_lookup_insert_ne by congruence. lia.
Qed.

Lemma conclude_input_step s s1 s' w id r e :
  shows s w -> world_inv O D w -> process_conclude_order_command id s = (s1, Ok r) ->
  in_deduct (insert_or_increase r.1 r.2) s1 = (s', Ok tt) ->
  apply_input cfg h w e.1 = set_orders w (Orders.spec_op (OpConclude id) (w_orders w)) ->
  input_value (l_pool (w_pos w)) e = (fun _ => 0) -> command_fee cfg h e.1 = 0 ->
  input_step s s' w e.
Proof.
  intros Hshow Hinv H1 ????.
  eapply orders_input_step; [done|apply conclude_touches|by eapply conclude_step|done..].
Qed.

Lemma fill_input_step s s1 s' w id fill r e :
  shows s w -> world_inv O D w -> process_fill_order_command cfg h id fill s = (s1, Ok r) ->
  in_deduct (insert_or_increase r.1 r.2) s1 = (s', Ok tt) ->
  apply_input cfg h w e.1 = fill_world cfg h w id fill ->
  input_value (l_pool (w_pos w)) e = (fun _ => 0) -> command_fee cfg h e.1 = 0 ->
  input_step s s' w e.
Proof.
  intros Hshow Hinv H1 ? Happly ??. destruct (fill_step _ _ _ _ _ _ Hshow Hinv H1) as (u & Hu & Hstep).
  eapply orders_input_step; [done|apply fill_touches|exact Hstep|done| |done..].
  rewrite Happly. unfold fill_world. by rewrite Hu.
Qed.

Lemma process_input_step s s' w e :
  shows s w -> world_inv O D w -> process_input cfg h e s = (s', Ok tt) -> input_step s s' w e.
Proof.
  intros Hshow Hinv Hrun. destruct e as [[outpoint|outpoint|n cmd|cmd] o].
  - by apply utxo_input_step.
  - by apply account_input_step.
  - destruct cmd as [id x|id|id|id b|id|id d|id|id fill d|id u].
    1: by apply mint_input_step.
    1-5: by eapply fee_input_step.
    3: by apply (fee_input_step _ _ _ _ _ _ (Ok (token_change_metadata_uri_fee cfg))).
    all: cbn [process_input process_input_account_command] in Hrun;
      apply st_bind_Ok in Hrun as ([k y] & s1 & H1 & Hrun).
    + by eapply conclude_input_step.
    + by eapply fill_input_step.
  - cbn [process_input] in Hrun. apply st_bind_Ok in Hrun as (r & s1 & H1 & Hrun).
    destruct cmd as [id fill|id|id]; cbn [process_input_order_account_command] in H1; run_inv.
    1,3: match goal with r : CoinOrTokenId * Amount |- _ => destruct r as [k y] end.
    + by eapply fill_input_step.
    + by eapply conclude_input_step.
    + apply plain_input_step; [done..|]. intros c. unfold if_coin, if_currency. simpl. case_decide; lia.
Qed.

Lemma process_inputs_step es s s' w :
  shows s w -> world_inv O D w -> try_for_each (process_input cfg h) es s = (s', Ok tt) ->
  exists w', apply_inputs cfg h w es.*1 = Some w' /\ shows s' w' /\ world_inv O D w' /\
    forall c, brought s' c = brought s c + Zsum ((fun e => input_value (l_pool (w_pos w)) e c) <$> es)
      + (world_value O D w c - world_value O D w' c) - if_coin c (Zsum (command_fee cfg h <$> es.*1)).
Proof.
  revert s w. induction es as [|e es IH]; intros s w Hshow Hinv Hrun; cbn [try_for_each] in Hrun.
  - run_inv. exists w. do 3 (split; [done|]). intros c. unfold if_coin, if_currency. cbn. case_decide; lia.
  - run_inv. destruct (process_input_step _ _ _ _ Hshow Hinv Hrun) as (w1 & Happly & Hshow1 & Hinv1 & Hpools & Hb1).
    destruct (IH _ _ Hshow1 Hinv1 ltac:(eassumption)) as (w2 & Happly2 & Hshow2 & Hinv2 & Hb2).
    exists w2. cbn. rewrite Happly. do 3 (split; [done|]). intros c. rewrite Hb2, Hb1, Hpools.
    unfold if_coin, if_currency, Zsum. case_decide; lia.
Qed.
End input.

(** ** All inputs, and the whole transaction *)

Section transaction.
Context `{CryptoTypes} {Pp Po Pt : Type}.
Context `{!PoSAccountingView Pp} `{!OrdersAccountingView Po} `{!TokensAccountingView Pt}.
Implicit Types (cfg : ChainConfig) (h : BlockHeight) (w : World) (c : CoinOrTokenId).

(** The views show the ledgers [w], whose balances fit a signed amount. *)
Record views_show (orders_view : Po) (pos_view : Pp) (tokens_view : Pt) w : Prop := {
  view_orders : Orders.represents orders_view (w_orders w) /\ Orders.bounded (w_orders w);
  view_pos : PoS.represents pos_view (w_pos w) /\ PoS.bounded (w_pos w);
  view_tokens : Tokens.represents tokens_view (w_tokens w) /\ Tokens.bounded (w_tokens w)
}.

(** What the inputs bring: the outputs they spend, and what the ledgers lose. *)
Definition inputs_value w (es : list (TxInput * option TxOutput)) c : Z :=
  Zsum ((fun e => input_value (l_pool (w_pos w)) e c) <$> es).

Definition command_fees cfg h (inputs : list TxInput) c : Z := if_coin c (Zsum (command_fee cfg h <$> inputs)).

Lemma gross_new c : gross ConstrainedValueAccumulator_new c = 0.
Proof. unfold gross. simpl. rewrite held_empty. by case_decide. Qed.

Lemma deduct_gross (ded : gmap CoinOrTokenId Amount) (a a' : Acc) :
  in_unconstrained (try_for_each (fun '(currency, amount) =>
    decrease_or currency amount AttemptToViolateFeeRequirements) (btree_iter ded)) a = (a', Ok tt) ->
  forall c, gross a' c = gross a c - held ded c.
Proof.
  unfold in_unconstrained. intros Hrun c. run_inv.
  pose proof (take_list_spec (fun _ => AttemptToViolateFeeRequirements) (btree_iter ded) (unconstrained_value a)
    (btree_iter_NoDup _)) as Htake. cbv zeta in Htake. rewrite list_to_map_btree_iter in Htake.
  rewrite Hrun in Htake. destruct Htake as [(u & [= ->] & _ & Hu)|(u & k & [=] & _)].
  unfold gross. simpl. pose proof (Hu c). lia.
Qed.

Lemma from_inputs_value cfg h orders_view pos_view tokens_view inputs utxos a O D w :
  views_show orders_view pos_view tokens_view w -> world_inv O D w ->
  from_inputs cfg h orders_view pos_view tokens_view inputs utxos = Ok a ->
  exists w', apply_inputs cfg h w inputs = Some w' /\ world_inv O D w' /\
    forall c, gross a c + command_fees cfg h inputs c
      = inputs_value w (zip inputs utxos) c + (world_value O D w c - world_value O D w' c).
Proof.
  intros [[Ho Hob] [Hp Hpb] [Ht Htb]] Hinv Hrun. unfold from_inputs in Hrun. run_inv.
  apply bool_decide_eq_true in Hrun. rename select (_ = Ok a) into Hrest.
  destruct (try_for_each (process_input cfg h) _ _) as [s [[]|e|]] eqn:Hs; cbn in Hrest; [|done|done].
  destruct (in_unconstrained _ _) as [a' [[]|e|]] eqn:Ha in Hrest; cbn in Hrest; [|done|done]. simplify_eq.
  match type of Hs with try_for_each _ _ ?init = _ => assert (shows w init w) as Hshow end.
  { split; [by apply cache_rep_new_orders|by apply cache_rep_new_tokens|by apply cache_rep_new_pos]. }
  destruct (process_inputs_step cfg h w O D _ _ _ w Hshow Hinv Hs) as (w' & Happly & _ & Hinv' & Hb).
  rewrite fst_zip in * by lia. exists w'. do 2 (split; [done|]). intros c. specialize (Hb c).
  rewrite (deduct_gross _ _ _ Ha). unfold brought in Hb. simpl in Hb. unfold command_fees, inputs_value.
  rewrite held_empty, gross_new in Hb. lia.
Qed.

(** What the outputs require of a currency. *)
Definition outputs_value cfg h (os : list TxOutput) c : Z :=
  match output_needs cfg h os with Ok ns => Zsum (need_of c <$> ns) | _ => 0 end.

Lemma from_outputs_value cfg h os a :
  from_outputs cfg h os = Ok a -> forall c, gross a c = outputs_value cfg h os c.
Proof.
  unfold from_outputs, outputs_value. intros Hrun c.
  pose proof (process_outputs_spec cfg h os ConstrainedValueAccumulator_new) as Hspec.
  destruct (try_for_each _ _ _) as [a' [[]|e|]]; cbn in Hrun; [|done|done]. simplify_eq.
  destruct Hspec as (ns & -> & _ & Hg). by rewrite Hg, gross_new.
Qed.

Definition fee_value_of (fee : AccumulatedFee) c : Z :=
  gross (mk_acc (fee_unconstrained_value fee) (fee_timelock_constrained fee)) c.

Lemma conserved_gross self other fee :
  conserved self other fee -> forall c, gross self c = gross other c + fee_value_of fee c.
Proof.
  intros (Htok & Hcoin & _) c. unfold fee_value_of, gross. simpl. case_decide as Hc; [subst; lia|].
  rewrite (Htok c Hc). lia.
Qed.
End transaction.

(** * Main properties *)

Section properties.
Context `{CryptoTypes} {Pp Po Pt : Type}.
Context `{!PoSAccountingView Pp} `{!OrdersAccountingView Po} `{!TokensAccountingView Pt}.
Variables (cfg : ChainConfig) (h : BlockHeight) (orders_view : Po) (pos_view : Pp) (tokens_view : Pt).

(** The value that [from_inputs] accumulates is real: applying the same
    withdrawals, mints, fills and conclusions to the ledgers succeeds, and for
    every currency the accumulated value plus the fees of the commands is the
    worth of the spent outputs plus what the ledgers lost (in balances of
    delegations and orders) or issued (in minted tokens).  In particular an
    input can not withdraw from a delegation or an order what an earlier input
    of the same transaction already took. *)
Theorem inputs_bring_exact_value inputs utxos a O D w :
  views_show orders_view pos_view tokens_view w -> world_inv O D w ->
  from_inputs cfg h orders_view pos_view tokens_view inputs utxos = Ok a ->
  exists w', apply_inputs cfg h w inputs = Some w' /\ world_inv O D w' /\
    forall c, gross a c + command_fees cfg h inputs c
      = inputs_value w (zip inputs utxos) c + (world_value O D w c - world_value O D w' c).
Proof. apply from_inputs_value. Qed.

(** A transaction conserves value: when its inputs satisfy its outputs,
    then for every currency the spent outputs and what the ledgers give up are
    worth exactly the outputs, the fees of the commands and the fee that is
    left over. *)
Theorem transaction_conserves_value inputs utxos outputs ins outs fee O D w :
  views_show orders_view pos_view tokens_view w -> world_inv O D w ->
  from_inputs cfg h orders_view pos_view tokens_view inputs utxos = Ok ins ->
  from_outputs cfg h outputs = Ok outs -> satisfy_with ins outs = Ok fee ->
  exists w', apply_inputs cfg h w inputs = Some w' /\ world_inv O D w' /\
    forall c, inputs_value w (zip inputs utxos) c + world_value O D w c
      = world_value O D w' c + outputs_value cfg h outputs c + command_fees cfg h inputs c + fee_value_of fee c.
Proof.
  intros Hshow Hinv Hins Houts Hfee.
  destruct (from_inputs_value _ _ _ _ _ _ _ _ _ _ _ Hshow Hinv Hins) as (w' & Happly & Hinv' & Hval).
  exists w'. do 2 (split; [done|]). intros c. specialize (Hval c).
  pose proof (satisfy_with_spec ins outs) as Hsat. rewrite Hfee in Hsat. destruct Hsat as [_ Hcons].
  rewrite (conserved_gross _ _ _ Hcons), (from_outputs_value _ _ _ _ Houts) in Hval. lia.
Qed.
End properties.

(** * A concrete transaction

    Order 5 gives 1000 of token 9 for 300 coins, 600 of token 7 are minted out
    of at most 1000, delegation 7 holds 50 coins. *)

Module Witnesses.
#[export] Existing Instance numbered_keys.

Export ChainConfig.Example.

Definition world : World :=
  mk_world Orders.Example.created_ledger (Tokens.Example.minted_ledger (Fixed (Amount.lit 1000))) PoS.Example.l3.

Definition outpoint : UtxoOutPoint :=
  {| op_source_id := SourceTransaction 1%N; op_output_index := @mk_bint 0 (2 ^ 32 - 1) 0 eq_refl |}.

(** 10,000 coins pay the fee of the mint, 100 atoms buy from the order. *)
Definition coins : Amount := from_coins (u64_lit 10000).
Definition inputs : list TxInput := [
  InputUtxo outpoint;
  InputAccount {| ao_nonce := u64_lit 0; ao_account := DelegationBalance 7%N (Amount.lit 20) |};
  InputAccountCommand (u64_lit 0) (AccountCommand.MintTokens 7%N (Amount.lit 100));
  InputOrderAccountCommand (OrderAccountCommand.FillOrder 5%N (Amount.lit 100))].
Definition utxos : list (option TxOutput) := [Some (Transfer (Coin coins) AnyoneCanSpend); None; None; None].
Definition outputs : list TxOutput := [
  Transfer (TokenV1 7%N (Amount.lit 100)) AnyoneCanSpend;
  Transfer (TokenV1 9%N (Amount.lit 333)) AnyoneCanSpend;
  LockThenTransfer (Coin (Amount.lit 20)) AnyoneCanSpend (ForBlockCount (u64_lit 12));
  Transfer (Coin (from_coins (u64_lit 9000))) AnyoneCanSpend].

Abbreviation ins := (from_inputs cfg BlockHeight.zero Orders.Example.created PoS.Example.c3
  (Tokens.Example.minted (Fixed (Amount.lit 1000))) inputs utxos).

Lemma world_shown :
  views_show Orders.Example.created PoS.Example.c3 (Tokens.Example.minted (Fixed (Amount.lit 1000))) world.
Proof.
  pose proof Orders.Example.created_rep as Ho. pose proof (proj1 PoS.Example.c3_rep) as Hp.
  pose proof (Tokens.Example.minted_rep (Fixed (Amount.lit 1000)) ltac:(auto)) as Ht.
  split; split; first [by eapply cache_represents_orders|by eapply cache_rep_bounded_orders
    |by eapply cache_represents_pos|by eapply cache_rep_bounded_pos
    |by eapply cache_represents_tokens|by eapply rep_bound].
Qed.

Lemma world_ok : exists D, world_inv {[5%N]} D world.
Proof.
  destruct PoS.Example.c3_rep as (_ & _ & D & HD). exists D.
  split; [apply Orders.Example.created_inv| |exact HD].
  intros id. simpl. destruct (decide (id = 5%N)) as [->|Hne]; [set_solver|].
  by rewrite fn_lookup_insert_ne.
Qed.

Lemma is_ok_run {E A} (r : result E A) : is_ok r = true -> exists a, r = Ok a.
Proof. destruct r as [a|e|]; [by exists a|done..]. Qed.

Example inputs_run : (fun a => (ival <$> unconstrained_value a !! CoinOrTokenId.Coin,
    ival <$> unconstrained_value a !! CoinOrTokenId.TokenId 7%N,
    ival <$> unconstrained_value a !! CoinOrTokenId.TokenId 9%N,
    ival <$> (btree_iter (timelock_constrained a)).*2)) <$> ins
  = Ok (Some (ival coins - ival TOKEN_SUPPLY_CHANGE_FEE_V1 - 100), Some 100, Some 333, [20]).
Proof. vm_compute. reflexivity. Qed.

Lemma token_9_inputs : inputs_value world (zip inputs utxos) (CoinOrTokenId.TokenId 9%N) = 0.
Proof. vm_compute. reflexivity. Qed.

Lemma token_9_fees : command_fees cfg BlockHeight.zero inputs (CoinOrTokenId.TokenId 9%N) = 0.
Proof. vm_compute. reflexivity. Qed.

(** The tokens bought are the tokens the order lost. *)
Lemma inputs_bring_exact_value_witness :
  exists D a w', ins = Ok a /\ apply_inputs cfg BlockHeight.zero world inputs = Some w' /\
    gross a (CoinOrTokenId.TokenId 9%N) =
      world_value {[5%N]} D world (CoinOrTokenId.TokenId 9%N) - world_value {[5%N]} D w' (CoinOrTokenId.TokenId 9%N).
Proof.
  destruct world_ok as [D HD]. destruct (is_ok_run ins) as [a Ha]; [vm_compute; reflexivity|].
  destruct (inputs_bring_exact_value cfg BlockHeight.zero _ _ _ inputs utxos a {[5%N]} D world world_shown HD Ha)
    as (w' & Happly & _ & Hval).
  exists D, a, w'. split; [done|]. split; [exact Happly|]. specialize (Hval (CoinOrTokenId.TokenId 9%N)).
  rewrite token_9_inputs, token_9_fees in Hval. lia.
Defined.

Lemma transaction_conserves_value_witness :
  exists D a outs fee w', ins = Ok a /\ from_outputs cfg BlockHeight.zero outputs = Ok outs /\
    satisfy_with a outs = Ok fee /\ apply_inputs cfg BlockHeight.zero world inputs = Some w' /\
    world_value {[5%N]} D world (CoinOrTokenId.TokenId 9%N)
      = world_value {[5%N]} D w' (CoinOrTokenId.TokenId 9%N) + 333 + fee_value_of fee (CoinOrTokenId.TokenId 9%N).
Proof.
  destruct world_ok as [D HD]. destruct (is_ok_run ins) as [a Ha]; [vm_compute; reflexivity|].
  destruct (is_ok_run (from_outputs cfg BlockHeight.zero outputs)) as [outs Ho]; [vm_compute; reflexivity|].
  destruct (is_ok_run (satisfy_with a outs)) as [fee Hf].
  { assert (is_ok (i ← ins; o ← from_outputs cfg BlockHeight.zero outputs; satisfy_with i o) = true) as Hok
      by (vm_compute; reflexivity). by rewrite Ha, Ho in Hok. }
  destruct (transaction_conserves_value cfg BlockHeight.zero _ _ _ inputs utxos outputs a outs fee {[5%N]} D world
    world_shown HD Ha Ho Hf) as (w' & Happly & _ & Hval).
  exists D, a, outs, fee, w'. do 4 (split; [done|]). specialize (Hval (CoinOrTokenId.TokenId 9%N)).
  assert (outputs_value cfg BlockHeight.zero outputs (CoinOrTokenId.TokenId 9%N) = 333) as Hout by (vm_compute; reflexivity).
  rewrite Hout, token_9_inputs, token_9_fees in Hval. lia.
Defined.
End Witnesses.
