(* ===== verification/RewardDistribution.v ===== *)
(** * Distribution of block rewards

    Models [chainstate/tx-verifier/src/transaction_verifier/
    reward_distribution.rs]: the staker's part of a block reward in the two
    versions of the rules, the parts of the delegations in proportion to their
    balances, computed on 256-bit integers, and their payment through the
    proof-of-stake ledger.  The theorems show that the computation never
    panics, that exactly the reward is distributed, and who gets what. *)
From S2P Require Import Prelude Amount Uint Accounting ChainTypes ChainConfig PoS PoSInterface.

Inductive RewardDistributionError :=
  | PoSAccountingError (e : PoS.Error)
  | InvariantPoolBalanceIsZero (id : PoolId)
  | InvariantStakerBalanceGreaterThanPoolBalance (id : PoolId) (staker_balance pool_balance : Amount)
  | RewardAdditionError (block : BlockId)
  | TotalDelegationBalanceZero (id : PoolId)
  | PoolDataNotFound (id : PoolId)
  | StakerRewardCalculationFailed (block : BlockId) (id : PoolId)
  | StakerRewardCannotExceedTotalReward (block : BlockId) (id : PoolId) (reward total : Amount)
  | DistributedDelegationsRewardExceedTotal (id : PoolId) (block : BlockId) (distributed total : Amount)
  | DelegationRewardOverflow (id : DelegationId) (total reward balance : Amount)
  | DelegationsRewardSumFailed (block : BlockId) (id : PoolId)
  | StakerRewardOverflow (id : PoolId) (margin pro_rata cost : Amount).
Abbreviation Error := RewardDistributionError.

(** [PerThousand::denominator]. *)
Definition denominator : u128 := @mk_bint 0 u128_MAX 1000 eq_refl.
(** [mpt.value().into()], from [u16] to [u128]. *)
Definition mpt_value (mpt : PerThousand) : u128 := default Amount.ZERO (bint_of_Z (ival mpt)).

(** [Uint256::from_amount]. *)
Definition from_amount (a : Amount) : uint := from_u128 4 a.

Definition calculate_staker_reward_v0 (total_reward cost_per_block : Amount) (mpt : PerThousand) : option Amount :=
  match Amount.sub total_reward cost_per_block with
  | Some to_distribute =>
      v ← Amount.mul to_distribute (mpt_value mpt);
      v ← Amount.div v denominator;
      Amount.add v cost_per_block
  | None => Some total_reward
  end.

Definition calculate_staker_reward_v1 (total_reward pool_balance staker_balance cost_per_block : Amount)
    (mpt : PerThousand) (pool_id : PoolId) : result Error Amount :=
  _ ← ensure (Amount.leb staker_balance pool_balance)
        (InvariantStakerBalanceGreaterThanPoolBalance pool_id staker_balance pool_balance);
  _ ← ensure (Amount.ltb Amount.ZERO pool_balance) (InvariantPoolBalanceIsZero pool_id);
  match Amount.sub total_reward cost_per_block with
  | Some to_distribute =>
      let pool_balance := from_amount pool_balance in
      let staker_balance := from_amount staker_balance in
      numer ← checked_mul (from_amount to_distribute) staker_balance;
      numer ← expect numer;
      pro_rata ← checked_div numer pool_balance;
      pro_rata ← expect pro_rata;
      pro_rata ← try_into_u128 pro_rata;
      pro_rata_staker_reward ← expect pro_rata;
      delegators_reward ← expect (Amount.sub to_distribute pro_rata_staker_reward);
      let delegators_reward := from_amount delegators_reward in
      margin ← checked_mul delegators_reward (from_u64 4 (ival mpt));
      margin ← match margin with Some v => checked_div v (from_u64 4 (ival denominator)) | None => Ok None end;
      margin ← expect margin;
      margin ← try_into_u128 margin;
      margin_reward ← expect margin;
      ok_or (StakerRewardOverflow pool_id margin_reward pro_rata_staker_reward cost_per_block)
        (v ← Amount.add margin_reward pro_rata_staker_reward; Amount.add v cost_per_block)
  | None => Ok total_reward
  end.

(** The reward of one delegation. *)
Definition calculate_reward (pool_id : PoolId) (total_delegations_amount total_delegations_reward_amount : Amount)
    (e : DelegationId * Amount) : result Error (DelegationId * Amount) :=
  let '(delegation_id, balance_amount) := e in
  numer ← checked_mul (from_amount total_delegations_reward_amount) (from_amount balance_amount);
  numer ← expect numer;
  reward ← checked_div numer (from_amount total_delegations_amount);
  reward ← ok_or (TotalDelegationBalanceZero pool_id) reward;
  reward ← try_into_u128 reward;
  reward ← ok_or (DelegationRewardOverflow delegation_id total_delegations_amount
                    total_delegations_reward_amount balance_amount) reward;
  Ok (delegation_id, reward).

Definition calculate_rewards_per_delegation (delegation_shares : list (DelegationId * Amount)) (pool_id : PoolId)
    (total_delegations_amount total_delegations_reward_amount : Amount) :
    result Error (list (DelegationId * Amount)) :=
  _ ← ensure (negb (Amount.eqb total_delegations_amount Amount.ZERO)) (TotalDelegationBalanceZero pool_id);
  mapM (calculate_reward pool_id total_delegations_amount total_delegations_reward_amount) delegation_shares.

Section distribute.
Context `{CryptoTypes} {S : Type} `{!PoSAccountingOperations S}.
Abbreviation M := (ST S Error).

Definition accounting {A} (m : ST S PoS.Error A) : M A := st_map_err PoSAccountingError m.

Definition distribute_delegations_pos_reward (delegation_shares : gmap DelegationId Amount) (block_id : BlockId)
    (pool_id : PoolId) (total_delegations_balance total_delegations_reward : Amount) :
    M (list PoSAccountingUndo * Amount) :=
  rewards_per_delegation ← lift (calculate_rewards_per_delegation (btree_iter delegation_shares) pool_id
    total_delegations_balance total_delegations_reward);
  delegation_undos ← try_collect (fun '(delegation_id, reward) =>
      accounting (ops_exec (OpDelegate delegation_id reward)))
    (filter (fun e => Amount.ltb Amount.ZERO e.2) rewards_per_delegation);
  distributed ← lift (ok_or (DelegationsRewardSumFailed block_id pool_id)
    (Amount.sum rewards_per_delegation.*2));
  remainder ← lift (ok_or (DistributedDelegationsRewardExceedTotal pool_id block_id distributed
    total_delegations_reward) (Amount.sub total_delegations_reward distributed));
  mret (delegation_undos, remainder).

Definition staker_part (version : RewardDistributionVersion.t) (block_id : BlockId) (pool_id : PoolId)
    (pool_data : PoolData) (pool_balance total_reward : Amount) : result Error Amount :=
  match version with
  | RewardDistributionVersion.V0 =>
      ok_or (StakerRewardCalculationFailed block_id pool_id)
        (calculate_staker_reward_v0 total_reward (cost_per_block pool_data) (margin_ratio_per_thousand pool_data))
  | RewardDistributionVersion.V1 =>
      staker_balance ← map_err PoSAccountingError (staker_balance pool_data);
      calculate_staker_reward_v1 total_reward pool_balance staker_balance (cost_per_block pool_data)
        (margin_ratio_per_thousand pool_data) pool_id
  end.

Definition distribute_pos_reward (block_id : BlockId) (pool_id : PoolId) (total_reward : Amount)
    (version : RewardDistributionVersion.t) : M (list PoSAccountingUndo) :=
  pool_data ← accounting (gets (fun s => ops_pool_data s pool_id));
  pool_data ← lift (ok_or (PoolDataNotFound pool_id) pool_data);
  pool_balance ← accounting (gets (fun s => ops_pool_balance s pool_id));
  staker_reward ← lift (staker_part version block_id pool_id pool_data pool_balance total_reward);
  total_delegations_reward ← lift (ok_or (StakerRewardCannotExceedTotalReward block_id pool_id staker_reward
    total_reward) (Amount.sub total_reward staker_reward));
  '(delegation_undos, unallocated_reward) ←
    (if Amount.ltb Amount.ZERO total_delegations_reward then
       shares ← accounting (gets (fun s => ops_shares s pool_id));
       match shares with
       | Some delegation_shares =>
           total_delegations_balance ← lift (ok_or (DelegationsRewardSumFailed block_id pool_id)
             (Amount.sum (btree_iter delegation_shares).*2));
           if Amount.ltb Amount.ZERO total_delegations_balance then
             distribute_delegations_pos_reward delegation_shares block_id pool_id
               total_delegations_balance total_delegations_reward
           else mret ([], total_delegations_reward)
       | None => mret ([], total_delegations_reward)
       end
     else mret ([], Amount.ZERO));
  total_staker_reward ← lift (ok_or (RewardAdditionError block_id) (Amount.add staker_reward unallocated_reward));
  increase_pool_balance_undo ← accounting (ops_exec (OpIncreaseRewards pool_id total_staker_reward));
  mret (delegation_undos ++ [increase_pool_balance_undo]).
End distribute.

(** * Arithmetic without overflow *)

Section arithmetic.
Context {E : Type}.

Lemma from_amount_value a : wf 4 (from_amount a) /\ value (from_amount a) = ival a.
Proof. apply (value_from_u128 2). Qed.
End arithmetic.

(** The product of two amounts divided by a third, where it fits an amount
    again. *)
Lemma mul_div_amount {E} (a b : uint) (c : uint) (x y z : Z) :
  wf 4 a -> wf 4 b -> wf 4 c -> value a = x -> value b = y -> value c = z ->
  0 <= x <= u128_MAX -> 0 <= y <= u128_MAX -> 0 < z -> x * y / z <= u128_MAX ->
  exists p q r, @checked_mul E a b = Ok (Some p) /\ @checked_div E p c = Ok (Some q) /\
    @try_into_u128 E q = Ok (Some r) /\ ival r = x * y / z.
Proof.
  intros Ha Hb Hc <- <- <- Hx Hy Hz Hle.
  destruct (@mul_fits E 3 a b Ha Hb) as (p & Hp & Hwp & Hvp).
  { pose proof u128_MAX_eq. rewrite W4. assert (u128_MAX * u128_MAX < 2 ^ 256) by reflexivity. nia. }
  destruct (@div_runs E 3 p c Hwp Hc Hz) as (q & Hq & Hwq & Hvq). rewrite Hvp in Hvq.
  destruct (@into_u128_fits E q Hwq) as (r & Hr & Hvr); [lia|].
  exists p, q, r. rewrite Hvr. done.
Qed.

(** * Who gets how much *)

(** The staker's part of the reward [R]: the cost, in version 1 the share of
    the rest in proportion to the staker's balance, and the margin of what
    would go to the delegations. *)
Definition staker_cut (version : RewardDistributionVersion.t) (cost mpt staker_balance pool_balance R : Z) : Z :=
  if R <? cost then R
  else
    let pro_rata :=
      match version with
      | RewardDistributionVersion.V0 => 0
      | RewardDistributionVersion.V1 => (R - cost) * staker_balance / pool_balance
      end in
    pro_rata + (R - cost - pro_rata) * mpt / 1000 + cost.

(** The part of a delegation with balance [s] in the reward [R] for
    delegations with total balance [T]. *)
Definition delegation_cut (R T s : Z) : Z := if T =? 0 then 0 else R * s / T.

Lemma div_part x y z : 0 <= x -> 0 <= y <= z -> 0 < z -> 0 <= x * y / z <= x.
Proof. intros Hx Hy Hz. split; [apply Z.div_pos; nia|]. apply Z.div_le_upper_bound; nia. Qed.

Lemma staker_cut_range version cost mpt sb pb R :
  0 <= cost -> 0 <= mpt <= 1000 -> 0 <= sb <= pb -> 0 < pb -> 0 <= R ->
  0 <= staker_cut version cost mpt sb pb R <= R.
Proof.
  intros Hc Hm Hs Hp HR. unfold staker_cut. destruct (Z.ltb_spec R cost) as [Hlt|Hle]; [lia|].
  assert (0 <= match version with RewardDistributionVersion.V0 => 0
    | RewardDistributionVersion.V1 => (R - cost) * sb / pb end <= R - cost) as Hpr.
  { destruct version; [lia|]. apply div_part; lia. }
  pose proof (div_part (R - cost - match version with RewardDistributionVersion.V0 => 0
    | RewardDistributionVersion.V1 => (R - cost) * sb / pb end) mpt 1000). lia.
Qed.

Lemma ival_mpt_value m : ival (mpt_value m) = ival m.
Proof.
  unfold mpt_value. pose proof (bint_range m). pose proof u128_MAX_eq.
  destruct (bint_of_Z_is_Some (lo := 0) (hi := u128_MAX) (ival m)) as (x & -> & Hx); [lia|done].
Qed.

Lemma calculate_staker_reward_v0_spec R cost m sb pb :
  match calculate_staker_reward_v0 R cost m with
  | Some x => ival x = staker_cut RewardDistributionVersion.V0 (ival cost) (ival m) sb pb (ival R)
  | None => u128_MAX < (ival R - ival cost) * ival m
  end.
Proof.
  unfold calculate_staker_reward_v0, staker_cut.
  destruct (Amount.sub R cost) as [t|] eqn:Ht; amount_inv.
  2: { by destruct (Z.ltb_spec (ival R) (ival cost)); [|lia]. }
  pose proof (bint_range t). pose proof (bint_range m).
  destruct (Z.ltb_spec (ival R) (ival cost)); [lia|].
  unfold mbind, option_bind, Amount.mul. rewrite ival_mpt_value.
  destruct (bint_of_Z (lo := 0) (hi := u128_MAX) (ival t * ival m)) as [v|] eqn:Hv.
  2: { apply bint_of_Z_None in Hv. nia. }
  apply bint_of_Z_Some in Hv. unfold Amount.div, Amount.add. simpl.
  pose proof (div_part (ival t) (ival m) 1000 ltac:(lia) ltac:(lia) ltac:(lia)) as Hpart.
  pose proof (bint_range R). pose proof (bint_range cost). rewrite Hv.
  destruct (bint_of_Z_is_Some (lo := 0) (hi := u128_MAX) (ival t * ival m / 1000)) as (q & -> & Hq); [lia|].
  simpl. rewrite Hq.
  destruct (bint_of_Z_is_Some (lo := 0) (hi := u128_MAX) (ival t * ival m / 1000 + ival cost)) as (x & -> & Hx); [lia|].
  rewrite Hx, <- Ht. by rewrite Z.sub_0_r, Z.add_0_l.
Qed.

Lemma from_u64_value w : 0 <= w < 2 ^ 64 -> wf 4 (from_u64 4 w) /\ value (from_u64 4 w) = w.
Proof. intros Hw. apply (value_from_u64 3). unfold word. rewrite W_pow. lia. Qed.

Lemma calculate_staker_reward_v1_spec R pb sb cost m id :
  ival sb <= ival pb -> 0 < ival pb ->
  exists x, calculate_staker_reward_v1 R pb sb cost m id = Ok x /\
    ival x = staker_cut RewardDistributionVersion.V1 (ival cost) (ival m) (ival sb) (ival pb) (ival R).
Proof.
  intros Hle Hpos. unfold calculate_staker_reward_v1, staker_cut.
  rewrite (proj2 (Z.leb_le _ _) Hle : Amount.leb sb pb = true).
  rewrite (proj2 (Z.ltb_lt _ _) Hpos : Amount.ltb Amount.ZERO pb = true). cbn [ensure mbind result_bind].
  destruct (Amount.sub R cost) as [t|] eqn:Ht; amount_inv.
  2: { exists R. split; [done|]. by destruct (Z.ltb_spec (ival R) (ival cost)); [|lia]. }
  pose proof (bint_range t). pose proof (bint_range m). pose proof (bint_range sb). pose proof (bint_range R).
  destruct (Z.ltb_spec (ival R) (ival cost)); [pose proof (bint_range cost); lia|].
  destruct (from_amount_value t) as [Hwt Hvt], (from_amount_value sb) as [Hws Hvs],
    (from_amount_value pb) as [Hwp Hvp].
  pose proof (div_part (ival t) (ival sb) (ival pb) ltac:(lia) ltac:(lia) ltac:(lia)) as Hpart.
  destruct (@mul_div_amount Error _ _ _ _ _ _ Hwt Hws Hwp Hvt Hvs Hvp) as (p & q & r & Hp & Hq & Hr & Hrv); [lia..|].
  rewrite Hp; cbn [expect mbind result_bind]. rewrite Hq; cbn [expect mbind result_bind].
  rewrite Hr; cbn [expect mbind result_bind].
  destruct (Amount.sub t r) as [dr|] eqn:Hdr; amount_inv; [|lia]. cbn [expect mbind result_bind].
  pose proof (bint_range dr).
  destruct (from_amount_value dr) as [Hwd Hvd], (from_u64_value (ival m) ltac:(lia)) as [Hwm Hvm],
    (from_u64_value (ival denominator) ltac:(simpl; lia)) as [Hw1 Hv1].
  pose proof (div_part (ival dr) (ival m) 1000 ltac:(lia) ltac:(lia) ltac:(lia)) as Hpart2.
  destruct (@mul_div_amount Error _ _ _ _ _ _ Hwd Hwm Hw1 Hvd Hvm Hv1) as (p' & q' & r' & Hp' & Hq' & Hr' & Hrv');
    [pose proof u128_MAX_eq; simpl; lia..|].
  rewrite Hp'; cbn [expect mbind result_bind]. rewrite Hq'; cbn [expect mbind result_bind].
  rewrite Hr'; cbn [expect mbind result_bind]. change (ival denominator) with 1000 in Hrv'.
  unfold mbind, option_bind.
  destruct (Amount.add r' r) as [s1|] eqn:Hs1; amount_inv; [|lia].
  destruct (Amount.add s1 cost) as [s2|] eqn:Hs2; amount_inv; [|lia]. exists s2. split; [done|].
  rewrite Hs2, Hs1, Hrv', Hdr, Hrv, Ht. lia.
Qed.

(** ** Rewards of the delegations *)

Lemma calculate_reward_spec pool T R e :
  ival e.2 <= ival T -> 0 < ival T ->
  exists r, calculate_reward pool T R e = Ok (e.1, r) /\ ival r = ival R * ival e.2 / ival T.
Proof.
  destruct e as [id s]. simpl. intros Hle Hpos. pose proof (bint_range s). pose proof (bint_range R).
  destruct (from_amount_value R) as [HwR HvR], (from_amount_value s) as [Hws Hvs], (from_amount_value T) as [HwT HvT].
  pose proof (div_part (ival R) (ival s) (ival T) ltac:(lia) ltac:(lia) ltac:(lia)) as Hpart.
  destruct (@mul_div_amount Error _ _ _ _ _ _ HwR Hws HwT HvR Hvs HvT) as (p & q & r & Hp & Hq & Hr & Hrv);
    [pose proof (bint_range T); lia..|].
  exists r. split; [|done]. rewrite Hp; cbn [expect mbind result_bind]. rewrite Hq; cbn [ok_or mbind result_bind].
  by rewrite Hr.
Qed.

Lemma calculate_rewards_spec pool T R es :
  (forall e, e ∈ es -> ival e.2 <= ival T) -> 0 < ival T ->
  exists rs, calculate_rewards_per_delegation es pool T R = Ok rs /\
    Forall2 (fun e r => r.1 = e.1 /\ ival r.2 = ival R * ival e.2 / ival T) es rs.
Proof.
  intros Hle Hpos. unfold calculate_rewards_per_delegation.
  assert (Amount.eqb T Amount.ZERO = false) as ->.
  { apply bool_decide_eq_false. intros ->. simpl in Hpos. lia. }
  cbn [negb ensure mbind result_bind]. induction es as [|e es IH]; [by exists []|].
  destruct (calculate_reward_spec pool T R e) as (r & Hr & Hrv); [apply Hle; left|done|].
  destruct IH as (rs & Hrs & Hall). { intros e' He'. apply Hle. by right. }
  exists ((e.1, r) :: rs). split; [|by constructor]. simpl. rewrite Hr. simpl. by rewrite Hrs.
Qed.

(** ** Paying the delegations *)

Section pay.
Context `{CryptoTypes} {S : Type} `{!PoSAccountingOperations S} `{!PoSOperationsLaws S}.
Implicit Types (c : S) (l : Ledger) (rs : list (DelegationId * Amount)).

(** What the list pays to a delegation. *)
Definition paid rs (d : DelegationId) : Z := Zsum ((fun e => if decide (e.1 = d) then ival e.2 else 0) <$> rs).

(** [l'] is [l] after [pay d] was paid to every delegation [d] of the pool. *)
Record paid_out pool l l' (pay : DelegationId -> Z) (total : Z) : Prop := {
  po_pools : l_pool l' = l_pool l;
  po_delegations : l_delegation l' = l_delegation l;
  po_balance : ival (l_pool_balance l' pool) = ival (l_pool_balance l pool) + total;
  po_others : forall id, id <> pool -> l_pool_balance l' id = l_pool_balance l id;
  po_paid : forall d, ival (l_balance l' d) = ival (l_balance l d) + pay d
}.

Lemma spec_delegate_pays D l id d pool (a : Amount) l' :
  ledger_inv D l -> l_delegation l id = Some d -> source_pool d = pool ->
  spec_op (OpDelegate id a) l = Ok l' ->
  ledger_inv D l' /\ paid_out pool l l' (fun j => if decide (id = j) then ival a else 0) (ival a).
Proof.
  intros Hinv Hd Hpool Hspec.
  pose proof Hspec as Hok. apply spec_delegate_Ok in Hok as (d' & b & pb & s & Hd' & Hb & Hpb & Hs & ->).
  simplify_eq. split.
  { by apply (inv_move D l id d (source_pool d) b s pb (ival a)). }
  split; simpl; [done|done|by rewrite fn_lookup_insert|by intros j Hj; rewrite fn_lookup_insert_ne|].
  intros j. unfold insert, fn_insert. repeat case_decide; simplify_eq; lia.
Qed.

Lemma paid_out_trans pool l l1 l2 pay pay' t t' :
  paid_out pool l l1 pay t -> paid_out pool l1 l2 pay' t' ->
  paid_out pool l l2 (fun d => pay d + pay' d) (t + t').
Proof.
  intros [P1 D1 B1 O1 Y1] [P2 D2 B2 O2 Y2]. split; [congruence|congruence|lia| |].
  - intros id Hid. by rewrite O2, O1.
  - intros d. rewrite Y2, Y1. lia.
Qed.

Lemma paid_out_ext pool l l' pay pay' t t' :
  (forall d, pay d = pay' d) -> t = t' -> paid_out pool l l' pay t -> paid_out pool l l' pay' t'.
Proof. intros Hpay <- [P1 D1 B1 O1 Y1]. split; try done. intros d. by rewrite <- Hpay. Qed.

(** Paying a list of delegations of a pool, as long as the pool's balance
    stays in range. *)
Lemma pay_all rs c l D pool data :
  ops_rep c l -> ledger_inv D l -> l_pool l pool = Some data ->
  (forall e, e ∈ rs -> exists d, l_delegation l e.1 = Some d /\ source_pool d = pool) ->
  ival (l_pool_balance l pool) + Zsum (ival <$> rs.*2) <= i128_MAX ->
  exists c' us l', try_collect (fun '(id, r) => accounting (ops_exec (OpDelegate id r))) rs c = (c', Ok us) /\
    ops_rep c' l' /\ ledger_inv D l' /\ ledger_trace l (reverse us) l' /\
    paid_out pool l l' (paid rs) (Zsum (ival <$> rs.*2)).
Proof.
  revert c l. induction rs as [|[id a] rs IH]; intros c l Hrep Hinv Hpool Hdel Hmax.
  { exists c, [], l. split; [done|]. do 2 (split; [done|]). split; [apply ledger_trace_nil|].
    split; intros; cbn; done || lia. }
  destruct (Hdel (id, a)) as (d & Hd & Hsrc); [left|]. simpl in Hd. cbn in Hmax.
  assert (0 <= Zsum (ival <$> rs.*2)) as Hrest.
  { clear. induction rs as [|e rs IH]; [done|]. pose proof (bint_range e.2). cbn. unfold Zsum in IH. lia. }
  pose proof (proj2 (inv_pool_covers _ _ _ _ Hinv Hpool) _ _ Hd Hsrc) as Hcov. pose proof (bint_range a).
  assert (op_in_range l (OpDelegate id a)) as Hr.
  { simpl. rewrite Hd, Hsrc. unfold Zsum in *. lia. }
  pose proof (ops_exec_ok c l D _ Hrep Hinv Hr) as Hex.
  destruct (spec_op (OpDelegate id a) l) as [l1|e|] eqn:Hspec; [| |done].
  2: { exfalso. cbn [spec_op] in Hspec. rewrite Hd in Hspec. cbn [ok_or mbind result_bind] in Hspec.
       rewrite Hsrc in Hspec. rewrite <- Hsrc, (inv_own_share _ _ _ _ Hinv Hd), Hsrc in Hspec.
       destruct (Amount.add (l_balance l id) a) eqn:?; amount_inv; [|unfold Zsum in *; blia].
       destruct (Amount.add (l_pool_balance l pool) a) eqn:?; amount_inv; [|unfold Zsum in *; blia]. done. }
  destruct Hex as (c1 & Hrun & Hrep1).
  destruct (spec_delegate_pays D l id d pool a l1 Hinv Hd Hsrc Hspec) as [Hinv1 Hpaid1].
  destruct (IH c1 l1 Hrep1 Hinv1) as (c2 & us & l2 & Hrun2 & Hrep2 & Hinv2 & Htr & Hpaid2).
  { by rewrite (po_pools _ _ _ _ _ Hpaid1). }
  { intros e He. rewrite (po_delegations _ _ _ _ _ Hpaid1). apply Hdel. by right. }
  { rewrite (po_balance _ _ _ _ _ Hpaid1). unfold Zsum in *. lia. }
  exists c2, (undo_record (OpDelegate id a) l l1 :: us), l2. split.
  { cbn [try_collect]. rewrite (st_bind_run _ _ c c1 (undo_record (OpDelegate id a) l l1)).
    - rewrite (st_bind_run _ _ _ _ _ Hrun2). done.
    - unfold accounting, st_map_err. by rewrite Hrun. }
  do 2 (split; [done|]). split.
  - rewrite reverse_cons. apply (ledger_trace_app _ [undo_record (OpDelegate id a) l l1] l1); [|done].
    apply ledger_trace_one; [by eapply ops_bounded|done].
  - eapply paid_out_ext; [| |eapply paid_out_trans; [exact Hpaid1|exact Hpaid2]].
    + intros j. unfold paid. cbn. done.
    + done.
Qed.

(** ** The delegations' part *)

Lemma sumZ_Zsum {lo hi} (xs : list (bint lo hi)) : sumZ xs = Zsum (ival <$> xs).
Proof. unfold sumZ, Zsum. induction xs as [|x xs IH]; [done|]. cbn. lia. Qed.

(** The rewards never add up to more than what is distributed. *)
Lemma cuts_total D (f : DelegationId -> Z) R T :
  (forall d, 0 <= f d) -> 0 <= R -> 0 < T -> sum_over D f = T ->
  0 <= sum_over D (fun d => delegation_cut R T (f d)) <= R.
Proof.
  intros Hf HR HT Hsum. unfold delegation_cut. destruct (Z.eqb_spec T 0); [lia|].
  split; [apply sum_over_nonneg; intros d; specialize (Hf d); apply Z.div_pos; nia|].
  apply (Z.mul_le_mono_pos_l _ _ T); [done|]. rewrite <- sum_over_scale, <- Hsum at 1.
  rewrite Hsum. etrans; [apply (sum_over_mono D _ (fun d => R * f d))|].
  - intros d _. by apply Z.mul_div_le.
  - rewrite sum_over_scale, Hsum. lia.
Qed.

(** Positive rewards only, or all of them: it makes no difference. *)
Lemma Zsum_positive rs (g : DelegationId * Amount -> Z) :
  (forall e, ival e.2 = 0 -> g e = 0) ->
  Zsum (g <$> filter (fun e => Amount.ltb Amount.ZERO e.2) rs) = Zsum (g <$> rs).
Proof.
  intros Hg. rewrite Zsum_filter. f_equal. apply list_fmap_ext. intros i e _. case_decide as Hpos; [done|].
  unfold Amount.ltb in Hpos. simpl in Hpos. rewrite Hg; [done|]. pose proof (bint_range e.2).
  destruct (Z.ltb_spec 0 (ival e.2)); naive_solver lia.
Qed.

Section shares.
Context (m : gmap DelegationId Amount) (f : DelegationId -> Z) (g : Z -> Z).
Hypothesis lists : forall d, ival (default Amount.ZERO (m !! d)) = f d.
Hypothesis zero : g 0 = 0.

Lemma listed k v : m !! k = Some v -> ival v = f k.
Proof. intros Hk. rewrite <- lists. by rewrite Hk. Qed.

Lemma unlisted k : k ∉ dom m -> f k = 0.
Proof. intros Hk%not_elem_of_dom. rewrite <- lists. by rewrite Hk. Qed.

Lemma rewards_sum rs (h : DelegationId -> Z -> Z) :
  Forall2 (fun e r => r.1 = e.1 /\ ival r.2 = g (ival e.2)) (btree_iter m) rs ->
  Zsum ((fun r => h r.1 (ival r.2)) <$> rs) = sum_over (dom m) (fun d => h d (g (f d))).
Proof.
  intros Hall. rewrite <- (Zsum_btree m (fun e => h e.1 (g (ival e.2)))).
  - f_equal. induction Hall as [|e r es rs [He Hr] _ IH]; [done|]. cbn. by rewrite IH, He, Hr.
  - intros k v Hk. simpl. by rewrite (listed k v Hk).
Qed.

Lemma rewards_total rs D :
  (forall d, d ∉ D -> f d = 0) ->
  Forall2 (fun e r => r.1 = e.1 /\ ival r.2 = g (ival e.2)) (btree_iter m) rs ->
  Zsum (ival <$> rs.*2) = sum_over D (fun d => g (f d)).
Proof.
  intros HD Hall. rewrite <- list_fmap_compose.
  etrans; [exact (rewards_sum rs (fun _ x => x) Hall)|]. apply sum_over_support.
  - intros d Hd. by rewrite (unlisted d Hd).
  - intros d Hd. by rewrite (HD d Hd).
Qed.

Lemma rewards_paid rs d :
  Forall2 (fun e r => r.1 = e.1 /\ ival r.2 = g (ival e.2)) (btree_iter m) rs ->
  paid rs d = g (f d).
Proof.
  intros Hall. unfold paid.
  etrans; [exact (rewards_sum rs (fun k x => if decide (k = d) then x else 0) Hall)|].
  destruct (decide (d ∈ dom m)) as [Hd|Hd].
  - rewrite (sum_over_subset {[d]}); [|set_solver|intros k Hk; rewrite decide_False by set_solver; done].
    unfold sum_over. rewrite elements_singleton. cbn. rewrite decide_True by done. lia.
  - rewrite (unlisted d Hd), zero. rewrite (sum_over_ext _ _ (fun _ => 0)); [apply sum_over_0|].
    intros k Hk. rewrite decide_False; [done|]. by intros ->.
Qed.
End shares.

(** Nothing, or the payments above, and the rest for the staker. *)
Definition delegations_paid l D pool (R : Amount) (run : S * result Error (list PoSAccountingUndo * Amount)) : Prop :=
  let T := sum_over D (fun d => ival (l_share l (pool, d))) in
  let pay d := delegation_cut (ival R) T (ival (l_share l (pool, d))) in
  exists c' us l' rest, run = (c', Ok (us, rest)) /\ ops_rep c' l' /\ ledger_inv D l' /\
    ledger_trace l (reverse us) l' /\ paid_out pool l l' pay (sum_over D pay) /\
    ival rest = ival R - sum_over D pay.

Lemma share_outside D l pool d : ledger_inv D l -> d ∉ D -> ival (l_share l (pool, d)) = 0.
Proof.
  intros Hinv Hd. rewrite (inv_shares _ _ Hinv). unfold due_share. by rewrite (inv_domain _ _ Hinv d Hd).
Qed.

Lemma distribute_delegations_spec c l D pool data (m : gmap DelegationId Amount) block (T R : Amount) :
  ops_rep c l -> ledger_inv D l -> l_pool l pool = Some data ->
  (forall d, ival (default Amount.ZERO (m !! d)) = ival (l_share l (pool, d))) ->
  ival T = sum_over D (fun d => ival (l_share l (pool, d))) -> 0 < ival T ->
  ival (l_pool_balance l pool) + ival R <= i128_MAX ->
  delegations_paid l D pool R (distribute_delegations_pos_reward m block pool T R c).
Proof.
  intros Hrep Hinv Hpool Hm HT Hpos Hmax. unfold delegations_paid. cbv zeta. rewrite <- HT. set (f d := ival (l_share l (pool, d))) in *.
  assert (forall d, d ∉ D -> f d = 0) as Hout by (intros d; by apply share_outside).
  assert (forall d, 0 <= f d) as Hf by (intros d; apply bint_range).
  pose proof (cuts_total D f (ival R) (ival T) Hf (proj1 (bint_range R)) Hpos (eq_sym HT)) as Htotal.
  assert (forall s, delegation_cut (ival R) (ival T) s = ival R * s / ival T) as Hcut.
  { intros s. unfold delegation_cut. by destruct (Z.eqb_spec (ival T) 0); [lia|]. }
  destruct (calculate_rewards_spec pool T R (btree_iter m)) as (rs & Hrs & Hall); [|done|].
  { intros [d s] Hin%elem_of_btree_iter. simpl. rewrite (listed m f Hm d s Hin), HT.
    destruct (decide (d ∈ D)); [by apply sum_over_member|]. rewrite (Hout d) by done. by apply sum_over_nonneg. }
  assert (Forall2 (fun e r => r.1 = e.1 /\ ival r.2 = delegation_cut (ival R) (ival T) (ival e.2)) (btree_iter m) rs)
    as Hall'.
  { eapply Forall2_impl; [exact Hall|]. intros e r [? ?]. by rewrite Hcut. }
  assert (delegation_cut (ival R) (ival T) 0 = 0) as Hzero by (rewrite Hcut, Z.mul_0_r; by apply Z.div_0_l; lia).
  pose proof (rewards_total m f _ Hm Hzero rs D Hout Hall') as Hsum.
  set (rs' := filter (fun e => Amount.ltb Amount.ZERO e.2) rs).
  assert (Zsum (ival <$> rs'.*2) = Zsum (ival <$> rs.*2)) as Hsum'.
  { rewrite <- !list_fmap_compose. by apply (Zsum_positive rs (fun e => ival e.2)). }
  destruct (pay_all rs' c l D pool data Hrep Hinv Hpool) as (c' & us & l' & Hrun & Hrep' & Hinv' & Htr & Hpaid).
  { intros e [Hlt Hin]%list_elem_of_filter. unfold Amount.ltb in Hlt. simpl in Hlt.
    apply list_elem_of_lookup in Hin as [i Hi].
    destruct (Forall2_lookup_r _ _ _ _ _ Hall' Hi) as ([d s] & Hde & He1 & He2). simpl in He1, He2. rewrite He1.
    apply list_elem_of_lookup_2, elem_of_btree_iter in Hde. pose proof (listed m f Hm d s Hde) as Hs.
    unfold f in Hs. rewrite (inv_shares _ _ Hinv) in Hs. unfold due_share in Hs.
    assert (ival s <> 0) as Hne by (intros Hs0; rewrite Hs0, Hzero in He2; destruct (Z.ltb_spec 0 (ival e.2)); naive_solver lia).
    destruct (l_delegation l d) as [dd|]; [|done]. case_decide; [by exists dd|done]. }
  { rewrite Hsum', Hsum. lia. }
  assert (Amount.sum rs.*2 = bint_of_Z (Zsum (ival <$> rs.*2))) as Hs by (rewrite Amount_sum_eq; by rewrite sumZ_Zsum).
  destruct (bint_of_Z_is_Some (lo := 0) (hi := u128_MAX) (Zsum (ival <$> rs.*2))) as (tot & Htot & Htotv).
  { rewrite Hsum. pose proof (bint_range R). lia. }
  destruct (Amount.sub R tot) as [rest|] eqn:Hrest; amount_inv; [|lia].
  exists c', us, l', rest. split.
  { unfold distribute_delegations_pos_reward. rewrite Hrs. rewrite (st_bind_run _ _ c c rs) by done.
    rewrite (st_bind_run _ _ _ _ _ Hrun), Hs, Htot. rewrite (st_bind_run _ _ c' c' tot) by done.
    rewrite (st_bind_run _ _ c' c' rest); [done|]. unfold lift. simpl.
    by rewrite (proj2 (Amount_sub_Some R tot rest) Hrest). }
  do 3 (split; [done|]). split.
  - eapply paid_out_ext; [| |exact Hpaid].
    + intros d. etrans; [apply Zsum_positive; intros e He; rewrite He; by case_decide|].
      by apply (rewards_paid m f _ Hm Hzero rs d Hall').
    + by rewrite Hsum', Hsum.
  - rewrite Hrest, Htotv, Hsum. done.
Qed.

Lemma nothing_paid c l D pool (R rest : Amount) :
  ops_rep c l -> ledger_inv D l -> ival rest = ival R ->
  ival R = 0 \/ (forall d, ival (l_share l (pool, d)) = 0) ->
  delegations_paid l D pool R (c, Ok ([], rest)).
Proof.
  intros Hrep Hinv Hrest Hzero. unfold delegations_paid. cbv zeta.
  set (T := sum_over D (fun d => ival (l_share l (pool, d)))).
  assert (forall d, delegation_cut (ival R) T (ival (l_share l (pool, d))) = 0) as Hcut.
  { intros d. unfold delegation_cut. destruct (Z.eqb_spec T 0); [done|].
    destruct Hzero as [->|Hs]; [by rewrite Z.mul_0_l, Z.div_0_l|by rewrite Hs, Z.mul_0_r, Z.div_0_l]. }
  assert (sum_over D (fun d => delegation_cut (ival R) T (ival (l_share l (pool, d)))) = 0) as Hsum.
  { rewrite (sum_over_ext _ _ (fun _ => 0)) by (intros; apply Hcut). apply sum_over_0. }
  exists c, [], l, rest. do 3 (split; [done|]). split; [apply ledger_trace_nil|]. rewrite Hsum. split; [|lia].
  split; [done|done|lia|done|]. intros d. rewrite Hcut. lia.
Qed.

Lemma delegations_part c l D pool data block (R : Amount) :
  ops_rep c l -> ledger_inv D l -> l_pool l pool = Some data ->
  ival (l_pool_balance l pool) + ival R <= i128_MAX ->
  delegations_paid l D pool R
    ((if Amount.ltb Amount.ZERO R then
       shares ← accounting (gets (fun c => ops_shares c pool));
       match shares with
       | Some delegation_shares =>
           total_delegations_balance ← lift (ok_or (DelegationsRewardSumFailed block pool)
             (Amount.sum (btree_iter delegation_shares).*2));
           if Amount.ltb Amount.ZERO total_delegations_balance then
             distribute_delegations_pos_reward delegation_shares block pool total_delegations_balance R
           else mret ([], R)
       | None => mret ([], R)
       end
     else mret ([], Amount.ZERO)) c).
Proof.
  intros Hrep Hinv Hpool Hmax. destruct (Amount.ltb Amount.ZERO R) eqn:HR; amount_inv; simpl in HR.
  2: { apply nothing_paid; [done|done|pose proof (bint_range R); simpl; lia|]. left. pose proof (bint_range R). lia. }
  destruct (ops_shares_ok _ _ pool Hrep) as (o & Ho & Hlists).
  rewrite (st_bind_run _ _ c c o) by (unfold accounting, st_map_err, gets; by rewrite Ho).
  destruct o as [m|].
  2: { apply nothing_paid; [done|done|done|]. right. intros d. by rewrite <- (Hlists d). }
  assert (forall d, ival (default Amount.ZERO (m !! d)) = ival (l_share l (pool, d))) as Hm.
  { intros d. by rewrite <- (Hlists d). }
  assert (sumZ (btree_iter m).*2 = sum_over D (fun d => ival (l_share l (pool, d)))) as HT.
  { rewrite sumZ_Zsum, <- list_fmap_compose.
    etrans; [apply (Zsum_btree m _ (fun d => ival (l_share l (pool, d))))|].
    - intros k v Hk. simpl. by apply (listed m _ Hm).
    - apply sum_over_support; [by apply (unlisted m _ Hm)|by intros d; apply share_outside]. }
  pose proof (inv_pools _ _ Hinv _ _ Hpool) as Hbal. pose proof (bint_range (pledge_amount data)).
  pose proof (bint_range (staker_rewards data)). pose proof (bint_range (l_pool_balance l pool)).
  assert (0 <= sum_over D (fun d => ival (l_share l (pool, d)))) as Hnn by (apply sum_over_nonneg; intros; apply bint_range).
  destruct (bint_of_Z_is_Some (lo := 0) (hi := u128_MAX) (sumZ (btree_iter m).*2)) as (T & HTs & HTv); [lia|].
  rewrite (st_bind_run _ _ c c T) by (unfold lift; by rewrite Amount_sum_eq, HTs).
  destruct (Amount.ltb Amount.ZERO T) eqn:HTpos; amount_inv; simpl in HTpos.
  - apply (distribute_delegations_spec c l D pool data m block T R); [done|done|done|done|lia|lia|done].
  - apply nothing_paid; [done|done|done|]. right. intros d. destruct (decide (d ∈ D)) as [Hd|Hd]; [|by apply (share_outside D)].
    pose proof (sum_over_member D (fun d => ival (l_share l (pool, d))) d (fun _ => proj1 (bint_range _)) Hd).
    pose proof (bint_range (l_share l (pool, d))). simpl in *. lia.
Qed.

(** ** The staker's part *)

Lemma increase_staker_pays c l D pool data (a : Amount) :
  ops_rep c l -> ledger_inv D l -> l_pool l pool = Some data ->
  ival (l_pool_balance l pool) + ival a <= i128_MAX ->
  exists c' u l' data', accounting (ops_exec (OpIncreaseRewards pool a)) c = (c', Ok u) /\
    ops_rep c' l' /\ ledger_inv D l' /\ ledger_trace l [u] l' /\
    ival (l_pool_balance l' pool) = ival (l_pool_balance l pool) + ival a /\
    l_balance l' = l_balance l /\ l_pool l' pool = Some data' /\
    ival (staker_rewards data') = ival (staker_rewards data) + ival a /\
    forall id, id <> pool -> l_pool l' id = l_pool l id /\ l_pool_balance l' id = l_pool_balance l id.
Proof.
  intros Hrep Hinv Hpool Hmax.
  pose proof (ops_exec_ok c l D (OpIncreaseRewards pool a) Hrep Hinv Hmax) as Hex.
  destruct (spec_op (OpIncreaseRewards pool a) l) as [l'|e|] eqn:Hspec; [| |done].
  2: { exfalso. cbn [spec_op] in Hspec. rewrite Hpool in Hspec. simpl in Hspec.
       pose proof (proj1 (inv_pool_covers _ _ _ _ Hinv Hpool)).
       destruct (Amount.add (l_pool_balance l pool) a) eqn:?; amount_inv; [|blia]. simpl in Hspec.
       destruct (Amount.add (staker_rewards data) a) eqn:?; amount_inv; [done|blia]. }
  destruct Hex as (c' & Hrun & Hrep'). exists c', (undo_record (OpIncreaseRewards pool a) l l'), l'.
  pose proof (spec_increase_inv _ _ _ _ _ Hinv Hspec) as Hinv'.
  assert (ledger_trace l [undo_record (OpIncreaseRewards pool a) l l'] l') as Htr.
  { apply ledger_trace_one; [by eapply ops_bounded|done]. }
  assert (accounting (ops_exec (OpIncreaseRewards pool a)) c = (c', Ok (undo_record (OpIncreaseRewards pool a) l l'))) as Hacc.
  { unfold accounting, st_map_err. by rewrite Hrun. }
  apply spec_increase_Ok in Hspec as (d & b & r & Hd & Hb & Hr & Heq). rewrite Heq in *. simplify_eq.
  exists (with_staker_rewards data r). do 4 (split; [done|]). simpl. rewrite !fn_lookup_insert.
  do 4 (split; [done|]). intros id Hid. by rewrite !fn_lookup_insert_ne.
Qed.

Lemma cut_nonneg R T s : 0 <= R -> 0 <= T -> 0 <= s -> 0 <= delegation_cut R T s.
Proof. intros. unfold delegation_cut. destruct (Z.eqb_spec T 0); [done|]. apply Z.div_pos; nia. Qed.
End pay.


(** * Main properties *)

Section properties.
Context `{CryptoTypes} {S : Type} `{!PoSAccountingOperations S} `{!PoSOperationsLaws S}.
Implicit Types (c : S) (l : Ledger).

(** What the pool's data and the ledger say of the staker's part. *)
Definition staker_cut_of (version : RewardDistributionVersion.t) l pool (data : PoolData) (R : Amount) : Z :=
  staker_cut version (ival (cost_per_block data)) (ival (margin_ratio_per_thousand data))
    (ival (pledge_amount data) + ival (staker_rewards data)) (ival (l_pool_balance l pool)) (ival R).

(** The multiplication of version 0 is done on 128 bits. *)
Definition v0_fits (version : RewardDistributionVersion.t) (data : PoolData) (R : Amount) : Prop :=
  match version with
  | RewardDistributionVersion.V0 =>
      (ival R - ival (cost_per_block data)) * ival (margin_ratio_per_thousand data) <= u128_MAX
  | RewardDistributionVersion.V1 => True
  end.

Lemma staker_part_spec D l pool data version block (R : Amount) :
  ledger_inv D l -> l_pool l pool = Some data -> 0 < ival (l_pool_balance l pool) -> v0_fits version data R ->
  exists x, staker_part version block pool data (l_pool_balance l pool) R = Ok x /\
    ival x = staker_cut_of version l pool data R /\ ival x <= ival R.
Proof.
  intros Hinv Hpool Hpos Hfits. pose proof (inv_pools _ _ Hinv _ _ Hpool) as Hbal.
  assert (0 <= sum_over D (fun d => ival (l_share l (pool, d)))) as Hnn by (apply sum_over_nonneg; intros; apply bint_range).
  pose proof (bint_range (pledge_amount data)). pose proof (bint_range (staker_rewards data)).
  pose proof (staker_cut_range version (ival (cost_per_block data)) (ival (margin_ratio_per_thousand data))
    (ival (pledge_amount data) + ival (staker_rewards data)) (ival (l_pool_balance l pool)) (ival R)
    (proj1 (bint_range _)) (bint_range _) ltac:(lia) Hpos (proj1 (bint_range _))) as Hrange.
  unfold staker_cut_of. destruct version; simpl in *.
  - pose proof (calculate_staker_reward_v0_spec R (cost_per_block data) (margin_ratio_per_thousand data)
      (ival (pledge_amount data) + ival (staker_rewards data)) (ival (l_pool_balance l pool))) as Hv0.
    destruct (calculate_staker_reward_v0 _ _ _) as [x|]; [|lia]. exists x. rewrite Hv0. naive_solver lia.
  - unfold staker_balance. destruct (Amount.add (pledge_amount data) (staker_rewards data)) as [sb|] eqn:Hsb; amount_inv.
    2: { pose proof (bint_range (l_pool_balance l pool)). lia. }
    simpl. destruct (calculate_staker_reward_v1_spec R (l_pool_balance l pool) sb (cost_per_block data)
      (margin_ratio_per_thousand data) pool) as (x & Hx & Hxv); [lia|done|].
    exists x. rewrite Hx, Hxv, Hsb. naive_solver lia.
Qed.

(** C16: distributing a block reward never fails or panics while the pool's
    balance stays in range, and distributes exactly the reward: the staker
    gets the part the rules say, every delegation the share of the rest in
    proportion to its balance rounded down, and the staker the roundings; the
    pool's balance grows by the reward, other pools stay as they are, the
    books stay balanced, and the undo records that are returned, applied from
    the last on, are those of the operations that were executed. *)
Theorem reward_distributed_exactly c l D block pool data (R : Amount) version :
  ops_rep c l -> ledger_inv D l -> l_pool l pool = Some data -> 0 < ival (l_pool_balance l pool) ->
  ival (l_pool_balance l pool) + ival R <= i128_MAX -> v0_fits version data R ->
  let T := sum_over D (fun d => ival (l_share l (pool, d))) in
  let cut d := delegation_cut (ival R - staker_cut_of version l pool data R) T (ival (l_share l (pool, d))) in
  exists c' us l' data', distribute_pos_reward block pool R version c = (c', Ok us) /\
    ops_rep c' l' /\ ledger_inv D l' /\ ledger_trace l (reverse us) l' /\
    ival (l_pool_balance l' pool) = ival (l_pool_balance l pool) + ival R /\
    (forall d, ival (l_balance l' d) = ival (l_balance l d) + cut d) /\
    l_pool l' pool = Some data' /\
    ival (staker_rewards data') = ival (staker_rewards data) + ival R - sum_over D cut /\
    (forall id, id <> pool -> l_pool l' id = l_pool l id /\ l_pool_balance l' id = l_pool_balance l id).
Proof.
  intros Hrep Hinv Hpool Hpos Hmax Hfits T cut.
  destruct (staker_part_spec D l pool data version block R Hinv Hpool Hpos Hfits) as (x & Hx & Hxv & Hxle).
  destruct (Amount.sub R x) as [dr|] eqn:Hdr; amount_inv; [|lia]. pose proof (bint_range x).
  destruct (delegations_part c l D pool data block dr Hrep Hinv Hpool) as
    (c1 & us & l1 & rest & Hrun & Hrep1 & Hinv1 & Htr & Hpaid & Hrest); [lia|].
  assert (forall d, delegation_cut (ival dr) T (ival (l_share l (pool, d))) = cut d) as Hcut.
  { intros d. unfold cut. by rewrite <- Hxv, Hdr. }
  assert (sum_over D (fun d => delegation_cut (ival dr) T (ival (l_share l (pool, d)))) = sum_over D cut) as Hsum.
  { apply sum_over_ext. intros; apply Hcut. }
  fold T in Hpaid, Hrest. rewrite Hsum in Hpaid, Hrest. pose proof (po_balance _ _ _ _ _ Hpaid) as Hb1.
  pose proof (bint_range rest). assert (l_pool l1 pool = Some data) as Hpool1 by (by rewrite (po_pools _ _ _ _ _ Hpaid)).
  assert (0 <= T) as HT by (apply sum_over_nonneg; intros; apply bint_range).
  assert (0 <= sum_over D cut) as Hnn.
  { apply sum_over_nonneg. intros d. rewrite <- Hcut. apply cut_nonneg; [apply bint_range|done|apply bint_range]. }
  destruct (Amount.add x rest) as [tot|] eqn:Htot; [|amount_inv; pose proof (bint_range R); lia].
  pose proof (proj1 (Amount_add_Some _ _ _) Htot) as Htotv.
  destruct (increase_staker_pays c1 l1 D pool data tot Hrep1 Hinv1 Hpool1) as
    (c2 & u & l2 & data2 & Hrun2 & Hrep2 & Hinv2 & Htr2 & Hb2 & Hbal2 & Hpool2 & Hrew2 & Hother); [lia|].
  exists c2, (us ++ [u]), l2, data2. split.
  { unfold distribute_pos_reward.
    rewrite (st_bind_run _ _ c c (Some data)) by (unfold accounting, st_map_err, gets; by rewrite (ops_pool_data_ok _ _ _ Hrep), Hpool).
    rewrite (st_bind_run _ _ c c data) by done.
    rewrite (st_bind_run _ _ c c (l_pool_balance l pool))
      by (unfold accounting, st_map_err, gets; by rewrite (ops_pool_balance_ok _ _ _ Hrep)).
    rewrite (st_bind_run _ _ c c x) by (unfold lift; by rewrite Hx).
    rewrite (st_bind_run _ _ c c dr) by (unfold lift; by rewrite (proj2 (Amount_sub_Some R x dr) Hdr)).
    rewrite (st_bind_run _ _ _ _ _ Hrun). rewrite (st_bind_run _ _ c1 c1 tot) by (unfold lift; by rewrite Htot).
    by rewrite (st_bind_run _ _ _ _ _ Hrun2). }
  do 2 (split; [done|]). split; [rewrite reverse_app; by eapply (ledger_trace_app _ (reverse us) l1)|].
  split; [lia|]. split; [intros d; rewrite Hbal2, (po_paid _ _ _ _ _ Hpaid); by rewrite Hcut|].
  split; [done|]. split; [lia|]. intros id Hid. destruct (Hother id Hid) as [-> ->].
  split; [by rewrite (po_pools _ _ _ _ _ Hpaid)|by apply (po_others _ _ _ _ _ Hpaid)].
Qed.
End properties.

(** * A concrete reward

    Pool 1 holds a pledge of 100 and a delegation of 50. *)

Module Witnesses.
Import PoS.Example.

Example reward_runs :
  let '(c, r) := distribute_pos_reward 9%N 1%N (Amount.lit 32) RewardDistributionVersion.V1 c3 in
  is_ok r = true /\ cache_get_delegation_balance c 7%N = Ok (Amount.lit 61) /\
  cache_get_pool_balance c 1%N = Ok (Amount.lit 182).
Proof. vm_compute. done. Qed.

Lemma reward_distributed_exactly_witness :
  exists c' us, distribute_pos_reward 9%N 1%N (Amount.lit 32) RewardDistributionVersion.V1 c3 = (c', Ok us) /\
    cache_get_pool_balance c' 1%N = Ok (Amount.lit 182).
Proof.
  destruct c3_rep as (Hrep & _ & D & Hinv).
  assert (ops_rep c3 l3) as Hops by (exists empty_ledger; exact Hrep).
  destruct (reward_distributed_exactly c3 l3 D 9%N 1%N pool (Amount.lit 32) RewardDistributionVersion.V1
    Hops Hinv) as (c' & us & l' & data' & Hrun & Hrep' & _ & _ & Hbal & _); [vm_compute; done..|].
  exists c', us. split; [exact Hrun|]. change cache_get_pool_balance with (@ops_pool_balance _ (PoSAccountingDelta (PoSAccountingDB InMemoryPoSAccounting)) _). rewrite (ops_pool_balance_ok _ _ _ Hrep'). f_equal. apply bint_eq.
  rewrite Hbal. vm_compute. reflexivity.
Defined.
End Witnesses.
