(* ===== verification/TxTypes.v ===== *)
(** * The transaction verifier: sources, identifiers and errors

    What the parts of [chainstate/tx-verifier] share: where a transaction
    comes from ([tx_source.rs]), the identifiers of what a transaction creates
    ([common/src/chain/make_id.rs]), the undo data of the accounting crates
    ([accounting/src/block_undo.rs]), cached operations
    ([cached_operation.rs]) and the errors ([error.rs], [storage.rs],
    [check_transaction.rs], [input_output_policy/mod.rs]).  The payload of an
    error that no modelled code looks at is left out: that of the storage back
    ends and of the checks of signatures and scripts. *)
From S2P Require Import Prelude Amount Accounting ChainTypes ChainConfig BlockTree Utxo.
From S2P Require Tokens Orders PoS Constraints RewardDistribution.

(** ** Where a transaction comes from *)

Module TransactionSource.
Inductive TransactionSource := Chain (id : BlockId) | Mempool.

#[global] Instance eq_dec : EqDecision TransactionSource.
Proof. solve_decision. Defined.

(** The derived order: blocks by identifier, the mempool last. *)
Definition to_pair (s : TransactionSource) : N * N :=
  match s with Chain id => (0, id)%N | Mempool => (1, 0)%N end.
Definition of_pair (p : N * N) : TransactionSource :=
  if (p.1 =? 0)%N then Chain p.2 else Mempool.
Lemma of_to_pair s : of_pair (to_pair s) = s.
Proof. by destruct s. Qed.
#[global] Instance countable : Countable TransactionSource := inj_countable' to_pair of_pair of_to_pair.
#[global] Instance to_pair_inj : Inj (=) (=) to_pair.
Proof. intros a b Hab. by rewrite <- (of_to_pair a), <- (of_to_pair b), Hab. Qed.
#[global] Instance key : BTreeKey TransactionSource := inj_key to_pair.
End TransactionSource.
Abbreviation TransactionSource := TransactionSource.TransactionSource.

Inductive TransactionSourceForConnect `{CryptoTypes} :=
  | SourceChain (new_block_index : BlockIndex)
  | SourceMempool (current_best : GenBlockIndex) (effective_height : BlockHeight).

Section source.
Context `{CryptoTypes}.
Implicit Types (s : TransactionSourceForConnect).

Definition source_of s : TransactionSource :=
  match s with
  | SourceChain i => TransactionSource.Chain (bi_block_id i)
  | SourceMempool _ _ => TransactionSource.Mempool
  end.

Definition for_chain (new_block_index : BlockIndex) : TransactionSourceForConnect := SourceChain new_block_index.

Definition for_mempool_with_height {E} (current_best : GenBlockIndex) (effective_height : BlockHeight) :
    result E TransactionSourceForConnect :=
  _ ← assert_true (ival (gen_block_height current_best) <? ival effective_height);
  Ok (SourceMempool current_best effective_height).

Definition for_mempool {E} (current_best : GenBlockIndex) : result E TransactionSourceForConnect :=
  effective_height ← BlockHeight.next_height (gen_block_height current_best);
  for_mempool_with_height current_best effective_height.

Definition expected_block_height s : BlockHeight :=
  match s with
  | SourceChain i => bi_block_height i
  | SourceMempool _ effective_height => effective_height
  end.

Definition chain_block_index s : option BlockIndex :=
  match s with SourceChain i => Some i | SourceMempool _ _ => None end.

Definition to_utxo_source s : UtxoSource :=
  match s with
  | SourceChain i => Blockchain (bi_block_height i)
  | SourceMempool _ _ => Mempool
  end.
End source.

(** ** Accounts as keys *)

#[global] Instance AccountType_eq_dec : EqDecision AccountType.
Proof. solve_decision. Defined.

Definition AccountType_to_pair (a : AccountType) : N * N :=
  match a with AccountDelegation id => (0, id) | AccountToken id => (1, id) | AccountOrder id => (2, id) end%N.
Definition AccountType_of_pair (p : N * N) : AccountType :=
  match p.1 with
  | 0%N => AccountDelegation p.2
  | 1%N => AccountToken p.2
  | _ => AccountOrder p.2
  end.
Lemma AccountType_of_to_pair a : AccountType_of_pair (AccountType_to_pair a) = a.
Proof. by destruct a. Qed.
#[global] Instance AccountType_countable : Countable AccountType :=
  inj_countable' AccountType_to_pair AccountType_of_pair AccountType_of_to_pair.
#[global] Instance AccountType_to_pair_inj : Inj (=) (=) AccountType_to_pair.
Proof. intros a b Hab. by rewrite <- (AccountType_of_to_pair a), <- (AccountType_of_to_pair b), Hab. Qed.
#[global] Instance AccountType_key : BTreeKey AccountType := inj_key AccountType_to_pair.

(** ** Identifiers of what a transaction creates

    The identifiers are hashes of encoded inputs; the hash function is a
    parameter. *)

Class IdHashes `{CryptoTypes} := {
  PoolId_from_utxo : UtxoOutPoint -> PoolId;
  DelegationId_from_utxo : UtxoOutPoint -> DelegationId;
  TokenId_from_tx_input : TxInput -> TokenId;
  OrderId_from_utxo : UtxoOutPoint -> OrderId
}.

Inductive IdCreationError :=
  | NoUtxoInputsForPoolIdCreation
  | NoUtxoInputsForDelegationIdCreation
  | NoUtxoInputsForOrderIdCreation
  | NoUtxoInputsForTokenIdCreation
  | NoInputsForTokenIdCreation.

Section make_id.
Context `{CryptoTypes} `{!IdHashes}.

(** [inputs.iter().find_map(|input| input.utxo_outpoint())]. *)
Definition first_utxo_outpoint (inputs : list TxInput) : option UtxoOutPoint := head (omap utxo_outpoint inputs).

Definition make_pool_id (inputs : list TxInput) : result IdCreationError PoolId :=
  outpoint ← ok_or NoUtxoInputsForPoolIdCreation (first_utxo_outpoint inputs);
  Ok (PoolId_from_utxo outpoint).

Definition make_delegation_id (inputs : list TxInput) : result IdCreationError DelegationId :=
  outpoint ← ok_or NoUtxoInputsForDelegationIdCreation (first_utxo_outpoint inputs);
  Ok (DelegationId_from_utxo outpoint).

Definition make_order_id (inputs : list TxInput) : result IdCreationError OrderId :=
  outpoint ← ok_or NoUtxoInputsForOrderIdCreation (first_utxo_outpoint inputs);
  Ok (OrderId_from_utxo outpoint).

Definition make_token_id_with_version (version : TokenIdGenerationVersion.t) (inputs : list TxInput) :
    result IdCreationError TokenId :=
  match version with
  | TokenIdGenerationVersion.V0 =>
      input ← ok_or NoInputsForTokenIdCreation (head inputs);
      Ok (TokenId_from_tx_input input)
  | TokenIdGenerationVersion.V1 =>
      utxo_input ← ok_or NoUtxoInputsForTokenIdCreation
        (List.find (fun input => bool_decide (is_Some (utxo_outpoint input))) inputs);
      Ok (TokenId_from_tx_input utxo_input)
  end.

Definition make_token_id (chain_config : ChainConfig) (block_height : BlockHeight) (inputs : list TxInput) :
    result IdCreationError TokenId :=
  upgrade ← chainstate_upgrade_at chain_config block_height;
  make_token_id_with_version (token_id_generation_version upgrade) inputs.
End make_id.

(** ** Cached operations *)

Module CachedOperation.
Inductive CachedOperation (T : Type) :=
  | Write (v : T)
  | Read (v : T)
  | Erase.
Arguments Write {_} _.
Arguments Read {_} _.
Arguments Erase {_}.

#[global] Instance eq_dec `{EqDecision T} : EqDecision (CachedOperation T).
Proof. solve_decision. Defined.

Definition get {T} (self : CachedOperation T) : option T :=
  match self with Write v | Read v => Some v | Erase => None end.

Definition take {T} (self : CachedOperation T) : option T :=
  match self with Write v | Read v => Some v | Erase => None end.

(** The outcomes that the code excludes by an assertion are panics. *)
Definition combine {E T} `{EqDecision T} (lhs rhs : option (CachedOperation T)) :
    result E (option (CachedOperation T)) :=
  match lhs, rhs with
  | None, None => Ok None
  | None, Some v => Ok (Some v)
  | Some v, None => Ok (Some v)
  | Some lhs, Some rhs =>
      res ← match lhs, rhs with
            | Write lhs, Write rhs => _ ← assert_true (bool_decide (lhs = rhs)); Ok (Write rhs)
            | Write _, Read _ => Panic
            | Write _, Erase => Ok Erase
            | Read _, Write rhs => Ok (Write rhs)
            | Read _, Read rhs => Ok (Read rhs)
            | Read _, Erase => Ok Erase
            | Erase, Write rhs => Ok (Write rhs)
            | Erase, Read _ => Panic
            | Erase, Erase => Ok Erase
            end;
      Ok (Some res)
  end.
End CachedOperation.
Abbreviation CachedOperation := CachedOperation.CachedOperation.

(** ** Undo data of the accounting crates

    [BlockRewardUndo] and [TxUndo] wrap a list of undo records. *)

Module BlockUndoError.
Inductive BlockUndoError :=
  | UndoAlreadyExists (id : TxId)
  | MissingTxUndo (id : TxId)
  | UndoAlreadyExistsForReward.
End BlockUndoError.
Abbreviation BlockUndoError := BlockUndoError.BlockUndoError.

Record BlockUndo (U : Type) := BlockUndo_new {
  bu_reward_undos : option (list U);
  bu_tx_undos : gmap TxId (list U)
}.
Arguments BlockUndo_new {_} _ _.
Arguments bu_reward_undos {_} _.
Arguments bu_tx_undos {_} _.

(** ** Errors *)

Module IOPolicyError.
Inductive IOPolicyError :=
  | InvalidInputTypeInReward
  | InvalidOutputTypeInReward
  | InvalidInputTypeInTx
  | MultiplePoolCreated
  | MultipleDelegationCreated
  | MultipleOrdersCreated
  | ProduceBlockInTx
  | MultipleAccountCommands
  | AttemptToUseAccountInputInReward.
End IOPolicyError.
Abbreviation IOPolicyError := IOPolicyError.IOPolicyError.

(** Of the errors of the consensus crate, the two used here. *)
Inductive ConsensusPoSError := NoKernel | MultipleKernels.

Module SpendStakeError.
Inductive SpendStakeError :=
  | NoBlockRewardOutputs
  | MultipleBlockRewardOutputs
  | InvalidBlockRewardOutputType
  | StakePoolDataMismatch
  | StakePoolIdMismatch (input output : PoolId)
  | ConsensusError (e : ConsensusPoSError).
End SpendStakeError.
Abbreviation SpendStakeError := SpendStakeError.SpendStakeError.

Module TokenIssuanceError.
Inductive TokenIssuanceError :=
  | IssueErrorInvalidNameLength
  | IssueErrorInvalidTickerLength
  | IssueErrorInvalidDescriptionLength
  | IssueErrorTickerHasNoneAlphaNumericChar
  | IssueErrorNameHasNoneAlphaNumericChar
  | IssueErrorDescriptionHasNonAlphaNumericChar
  | IssueAmountIsZero
  | IssueErrorTooManyDecimals
  | IssueErrorIncorrectMetadataURI
  | IssueErrorIncorrectIconURI
  | IssueErrorIncorrectMediaURI
  | MediaHashTooShort
  | MediaHashTooLong
  | TokenIdMismatch (id expected : TokenId).
End TokenIssuanceError.
Abbreviation TokenIssuanceError := TokenIssuanceError.TokenIssuanceError.

Module TokensError.
Inductive TokensError :=
  | StorageError
  | IssueError (e : TokenIssuanceError) (tx : TxId)
  | MultipleTokenIssuanceInTransaction (tx : TxId)
  | CoinOrTokenOverflow (c : CoinOrTokenId)
  | InsufficientTokenFees (tx : TxId)
  | InvariantBrokenUndoIssuanceOnNonexistentToken (id : TokenId)
  | InvariantBrokenRegisterIssuanceWithDuplicateId (id : TokenId)
  | TokenMetadataUriTooLarge (id : TokenId).
End TokensError.
Abbreviation TokensError := TokensError.TokensError.

Module CheckTransactionError.
Inductive CheckTransactionError :=
  | PropertyQueryError
  | DuplicateInputInTransaction (tx : TxId)
  | InvalidWitnessCount (tx : TxId)
  | EmptyInputsInTransaction (tx : TxId)
  | TokensError (e : TokensError)
  | NoSignatureDataSizeTooLarge (size max : N) (tx : TxId)
  | NoSignatureDataNotAllowed (tx : TxId)
  | DataDepositMaxSizeExceeded (size max : N) (tx : TxId)
  | TxSizeTooLarge (tx : TxId) (size max : N)
  | DeprecatedTokenOperationVersion (v : TokenIssuanceVersion.t) (tx : TxId)
  | HtlcsAreNotActivated
  | OrdersAreNotActivated (tx : TxId)
  | OrdersV1AreNotActivated (tx : TxId)
  | DeprecatedOrdersCommands (tx : TxId)
  | OrdersCurrenciesMustBeDifferent (tx : TxId)
  | ChangeTokenMetadataUriNotActivated
  | AttemptToFillOrderWithZero (id : OrderId) (tx : TxId).
End CheckTransactionError.
Abbreviation CheckTransactionError := CheckTransactionError.CheckTransactionError.

Module TransactionVerifierStorageError.
Inductive TransactionVerifierStorageError :=
  | GenBlockIndexRetrievalFailed (id : BlockId)
  | StatePersistenceError
  | GetAncestorError
  | DuplicateBlockUndo (id : BlockId)
  | TokensError (e : TokensError)
  | UtxoError (e : Utxo.Error)
  | UtxoBlockUndoError (e : UtxosBlockUndoError)
  | PoSAccountingError (e : PoS.Error)
  | AccountingBlockUndoError (e : BlockUndoError)
  | TokensAccountingError (e : Tokens.Error)
  | OrdersAccountingError (e : Orders.Error).
End TransactionVerifierStorageError.
Abbreviation TransactionVerifierStorageError := TransactionVerifierStorageError.TransactionVerifierStorageError.

Module ConnectError.
Inductive ConnectTransactionError :=
  | StorageError
  | MissingOutputOrSpent (o : UtxoOutPoint)
  | MissingTxUndo (tx : TxId)
  | MissingBlockUndo (s : TransactionSource)
  | MissingBlockRewardUndo (id : BlockId)
  | InvariantErrorHeaderCouldNotBeLoadedFromHeight (h : BlockHeight)
  | BlockIndexCouldNotBeLoaded (id : BlockId)
  | FailedToAddAllFeesOfBlock (id : BlockId)
  | RewardAdditionError (id : BlockId)
  | UtxoError (e : Utxo.Error)
  | TokensError (e : TokensError)
  | TransactionVerifierError (e : TransactionVerifierStorageError)
  | UtxoBlockUndoError (e : UtxosBlockUndoError)
  | AccountingBlockUndoError (e : BlockUndoError)
  | BurnAmountSumError (tx : TxId)
  | AttemptToSpendBurnedAmount
  | PoSAccountingError (e : PoS.Error)
  | SpendStakeError (e : SpendStakeError)
  | StakerBalanceNotFound (id : PoolId)
  | UnexpectedPoolId (id expected : PoolId)
  | UndoFetchFailure
  | TxVerifierStorage
  | NonceIsNotIncremental (a : AccountType) (expected got : AccountNonce)
  | MissingTransactionNonce (a : AccountType)
  | NotEnoughPledgeToCreateStakePool (tx : TxId) (given required : Amount)
  | FailedToIncrementAccountNonce
  | IOPolicyErrorIn (e : IOPolicyError) (s : OutPointSourceId)
  | ConstrainedValueAccumulatorError (e : Constraints.Error) (s : OutPointSourceId)
  | TokensAccountingError (e : Tokens.Error)
  | TotalFeeRequiredOverflow
  | InsufficientCoinsFee (actual required : Amount)
  | AttemptToSpendFrozenToken (id : TokenId)
  | RewardDistributionError (e : RewardDistribution.RewardDistributionError)
  | CheckTransactionError (e : CheckTransactionError)
  | OrdersAccountingError (e : Orders.Error)
  | InputCheck
  | ConcludeInputAmountsDontMatch (tx : TxId) (id : OrderId)
  | ProduceBlockFromStakeChangesStakerDestination (block : BlockId) (id : PoolId)
  | IdCreationError (e : IdCreationError).
End ConnectError.
Abbreviation ConnectTransactionError := ConnectError.ConnectTransactionError.
