(* ===== verification/UndoCache.v ===== *)
(** * Undo data of connected transactions

    Models [accounting_undo_cache] and [utxos_undo_cache] of the transaction
    verifier: per source (a block or the mempool), the undo data of the reward
    and of every connected transaction, with the cached operations that a
    hierarchy of verifiers flushes downwards, and for outputs the dependencies
    between the transactions.  A cache is the map in its only field. *)
From S2P Require Import Prelude ChainTypes Utxo TxTypes.
Import CachedOperation.

(** The loops that combine two maps entry by entry. *)
Definition combine_entry {K T E} `{Countable K} `{EqDecision T} (e : K * CachedOperation T) :
    ST (gmap K (CachedOperation T)) E unit :=
  let '(id, op) := e in
  res ← gets (fun m => combine (m !! id) (Some op));
  match res with
  | Some res => modify (fun m => <[id:=res]> m)
  | None => mret tt
  end.

(** ** Undo data of the accounting of pools, tokens and orders *)

Module AccountingUndo.
Record CachedBlockUndo (U : Type) := mk_undo {
  reward_undos : option (CachedOperation (list U));
  tx_undos : gmap TxId (CachedOperation (list U))
}.
Arguments mk_undo {_} _ _.
Arguments reward_undos {_} _.
Arguments tx_undos {_} _.

Section block_undo.
Context {U : Type} `{!EqDecision U}.
Abbreviation M := (ST (CachedBlockUndo U) BlockUndoError).

Definition set_block_reward_undo (reward_undo : list U) : M unit :=
  b ← self;
  _ ← lift (ensure (is_none (reward_undos b)) BlockUndoError.UndoAlreadyExistsForReward);
  modify (fun b => mk_undo (Some (Write reward_undo)) (tx_undos b)).

Definition insert_tx_undo (tx_id : TxId) (tx_undo : list U) : M unit :=
  b ← self;
  match tx_undos b !! tx_id with
  | None => modify (fun b => mk_undo (reward_undos b) (<[tx_id:=Write tx_undo]> (tx_undos b)))
  | Some _ => lift (Err (BlockUndoError.UndoAlreadyExists tx_id))
  end.

Definition CachedBlockUndo_new (reward_undo : option (list U)) (undos : gmap TxId (list U)) :
    result BlockUndoError (CachedBlockUndo U) :=
  construct
    (_ ← match reward_undo with Some r => set_block_reward_undo r | None => mret tt end;
     try_for_each (fun '(tx_id, tx_undo) => insert_tx_undo tx_id tx_undo) (btree_iter undos))
    (mk_undo None ∅).

Definition from_block_undo (undo : BlockUndo U) : CachedBlockUndo U :=
  mk_undo (Read <$> bu_reward_undos undo) (Read <$> bu_tx_undos undo).

Definition consume (b : CachedBlockUndo U) : BlockUndo U :=
  BlockUndo_new (reward_undos b ≫= get) (omap get (tx_undos b)).

Definition is_empty (b : CachedBlockUndo U) : bool :=
  match reward_undos b with None => true | Some u => is_none (get u) end &&
  forallb (fun '(_, op) => is_none (get op)) (btree_iter (tx_undos b)).

Definition take_block_reward_undo (b : CachedBlockUndo U) : CachedBlockUndo U * option (list U) :=
  (mk_undo None (tx_undos b), reward_undos b ≫= take).

Definition take_tx_undo (tx_id : TxId) : M (option (list U)) :=
  b ← self;
  match tx_undos b !! tx_id with
  | Some tx_undo =>
      res ← lift (ok_or (BlockUndoError.MissingTxUndo tx_id) (take tx_undo));
      _ ← modify (fun b => mk_undo (reward_undos b) (<[tx_id:=Erase]> (tx_undos b)));
      mret (Some res)
  | None => mret None
  end.

Definition in_txs {A} (m : ST (gmap TxId (CachedOperation (list U))) BlockUndoError A) : M A :=
  zoom tx_undos (fun txs b => mk_undo (reward_undos b) txs) (fun e => e) m.

Definition combine_undo (other : CachedBlockUndo U) : M unit :=
  b ← self;
  _ ← match reward_undos b, reward_undos other with
      | _, None => mret tt
      | None, Some r => modify (fun b => mk_undo (Some r) (tx_undos b))
      | Some lhs, Some rhs => lift (ensure (bool_decide (lhs = rhs)) BlockUndoError.UndoAlreadyExistsForReward)
      end;
  in_txs (try_for_each combine_entry (btree_iter (tx_undos other))).
End block_undo.

(** ** The cache *)

Abbreviation AccountingBlockUndoCache U := (gmap TransactionSource (CachedOperation (CachedBlockUndo U))).

Section cache.
Context {U : Type} `{!EqDecision U}.
Abbreviation Cache := (AccountingBlockUndoCache U).
Abbreviation M := (ST Cache ConnectTransactionError).
Abbreviation Fetcher := (TransactionSource -> result ConnectTransactionError (option (CachedBlockUndo U))).

Definition put (tx_source : TransactionSource) (op : CachedOperation (CachedBlockUndo U)) {E} : ST Cache E unit :=
  modify (fun data => <[tx_source:=op]> data).

Definition add_reward_undo (tx_source : TransactionSource) (reward_undo : list U) : M unit :=
  data ← self;
  block_undo ← lift (map_err ConnectError.AccountingBlockUndoError
    match data !! tx_source with
    | Some (Write undo) | Some (Read undo) => construct (set_block_reward_undo reward_undo) undo
    | Some Erase | None => CachedBlockUndo_new (Some reward_undo) ∅
    end);
  put tx_source (Write block_undo).

Definition add_tx_undo (tx_source : TransactionSource) (tx_id : TxId) (tx_undo : list U) : M unit :=
  data ← self;
  block_undo ← lift (map_err ConnectError.AccountingBlockUndoError
    match data !! tx_source with
    | Some (Write undo) | Some (Read undo) => construct (insert_tx_undo tx_id tx_undo) undo
    | Some Erase | None => CachedBlockUndo_new None {[tx_id := tx_undo]}
    end);
  put tx_source (Write block_undo).

(** The undo data of a block, of the cache or else of the fetcher. *)
Definition block_undo_of (tx_source : TransactionSource) (fetcher : Fetcher) (data : Cache) :
    result ConnectTransactionError (option (CachedBlockUndo U)) :=
  match data !! tx_source with
  | None => fetcher tx_source
  | Some op => Ok (get op)
  end.

(** What is left of the undo data of a block is written, or the block erased. *)
Definition store_rest (tx_source : TransactionSource) (block_undo : CachedBlockUndo U) : M unit :=
  put tx_source (if is_empty block_undo then Erase else Write block_undo).

Definition take_tx_undo_of (tx_source : TransactionSource) (tx_id : TxId) (fetcher : Fetcher) : M (option (list U)) :=
  block_undo ← gets (block_undo_of tx_source fetcher);
  match block_undo with
  | Some block_undo =>
      let '(block_undo, res) := take_tx_undo tx_id block_undo in
      res ← lift (map_err ConnectError.AccountingBlockUndoError res);
      _ ← match res with Some _ => store_rest tx_source block_undo | None => mret tt end;
      mret res
  | None => mret None
  end.

Definition take_block_reward_undo_of (tx_source : TransactionSource) (fetcher : Fetcher) : M (option (list U)) :=
  block_undo ← gets (block_undo_of tx_source fetcher);
  match block_undo with
  | Some block_undo =>
      let '(block_undo, reward_undo) := take_block_reward_undo block_undo in
      _ ← match reward_undo with Some _ => store_rest tx_source block_undo | None => mret tt end;
      mret reward_undo
  | None => mret None
  end.

Definition set_undo_data (tx_source : TransactionSource) (new_undo : CachedBlockUndo U) :
    ST Cache BlockUndoError unit :=
  data ← self;
  match data !! tx_source with
  | None | Some Erase => put tx_source (Write new_undo)
  | Some (Write undo) =>
      let '(undo, r) := combine_undo new_undo undo in
      _ ← put tx_source (Write undo); lift r
  | Some (Read undo) =>
      let '(undo, r) := combine_undo new_undo undo in
      _ ← put tx_source (Read undo); lift r
  end.

Definition del_undo_data (tx_source : TransactionSource) : ST Cache BlockUndoError unit :=
  put tx_source Erase.
End cache.

(** ** What a cache holds

    The undo data of a transaction, of the cache or else of what is below it;
    the absence of any record of the transaction; the undo data of the reward. *)

Section held.
Context {U : Type} `{!EqDecision U}.
Abbreviation Cache := (AccountingBlockUndoCache U).
Abbreviation Fetcher := (TransactionSource -> result ConnectTransactionError (option (CachedBlockUndo U))).
Implicit Types (data : Cache) (fetcher : Fetcher) (src : TransactionSource) (id : TxId) (b : CachedBlockUndo U).

Definition holds data fetcher src id (undos : list U) : Prop :=
  exists b, block_undo_of src fetcher data = Ok (Some b) /\ (tx_undos b !! id) ≫= get = Some undos.

Definition lacks data fetcher src id : Prop :=
  exists ob, block_undo_of src fetcher data = Ok ob /\
    match ob with Some b => tx_undos b !! id = None | None => True end.

Definition holds_reward data fetcher src (undos : list U) : Prop :=
  exists b, block_undo_of src fetcher data = Ok (Some b) /\ reward_undos b ≫= get = Some undos.

(** Transactions with nothing to undo have no record. *)
Definition holds_undos data fetcher src id (undos : list U) : Prop :=
  match undos with [] => lacks data fetcher src id | _ => holds data fetcher src id undos end.

(** Nothing of the block is kept below without being in the cache. *)
Definition local data fetcher src : Prop := data !! src = None -> fetcher src = Ok None.

Lemma add_tx_undo_Ok src id undos data data' :
  add_tx_undo src id undos data = (data', Ok tt) ->
  exists b, data' = <[src:=Write b]> data /\
    match data !! src ≫= get with
    | Some b0 => tx_undos b0 !! id = None /\ b = mk_undo (reward_undos b0) (<[id:=Write undos]> (tx_undos b0))
    | None => b = mk_undo None {[id:=Write undos]}
    end.
Proof.
  unfold add_tx_undo, self, lift, put, modify, mbind, st_bind. intros Hrun.
  destruct (data !! src) as [[b0|b0|]|]; simpl in *.
  1,2: unfold construct, insert_tx_undo, self, lift, modify, mbind, st_bind in Hrun; simpl in Hrun;
       destruct (tx_undos b0 !! id) eqn:Hid; simpl in Hrun; [done|]; injection Hrun as <-; by eexists.
  all: unfold CachedBlockUndo_new, construct in Hrun; rewrite btree_iter_singleton in Hrun;
       injection Hrun as <-; by eexists.
Qed.

Lemma block_undo_of_put src op fetcher data :
  block_undo_of src fetcher (<[src:=op]> data) = Ok (get op).
Proof. unfold block_undo_of. by rewrite lookup_insert_eq. Qed.

Lemma local_block data fetcher src : local data fetcher src ->
  block_undo_of src fetcher data = Ok (data !! src ≫= get).
Proof.
  intros Hloc. unfold block_undo_of, local in *. destruct (data !! src); [done|]. by apply Hloc.
Qed.

Lemma add_tx_undo_holds src id undos data data' fetcher :
  add_tx_undo src id undos data = (data', Ok tt) ->
  holds data' fetcher src id undos /\ local data' fetcher src.
Proof.
  intros (b & -> & Hb)%add_tx_undo_Ok. split; [|unfold local; by rewrite lookup_insert_eq].
  exists b. rewrite block_undo_of_put. split; [done|].
  destruct (data !! src ≫= get) as [b0|]; [destruct Hb as [_ ->]|subst b]; simpl; by rewrite ?lookup_insert_eq, ?lookup_singleton_eq.
Qed.

Lemma add_tx_undo_frame src id undos data data' fetcher id' us :
  local data fetcher src -> add_tx_undo src id undos data = (data', Ok tt) -> id <> id' ->
  holds_undos data fetcher src id' us -> holds_undos data' fetcher src id' us.
Proof.
  intros Hloc (b & -> & Hb)%add_tx_undo_Ok Hne.
  unfold holds_undos, holds, lacks. rewrite (local_block _ _ _ Hloc), block_undo_of_put.
  destruct us as [|u us].
  - intros (ob & [= <-] & Hob). exists (Some b). split; [done|].
    destruct (data !! src ≫= get) as [b0|]; [destruct Hb as [_ ->]|subst b]; simpl.
    + by rewrite lookup_insert_ne.
    + by rewrite lookup_singleton_ne.
  - intros (b1 & [= Hb1] & Hu). exists b. split; [done|]. rewrite Hb1 in Hb. destruct Hb as [_ ->].
    simpl. by rewrite lookup_insert_ne.
Qed.

(** Taking the undo data of a transaction. *)
Lemma take_tx_undo_Ok src id undos data fetcher : undos <> [] ->
  holds_undos data fetcher src id undos ->
  exists b, block_undo_of src fetcher data = Ok (Some b) /\
    take_tx_undo_of src id fetcher data =
      (<[src:=if is_empty (mk_undo (reward_undos b) (<[id:=Erase]> (tx_undos b))) then Erase
              else Write (mk_undo (reward_undos b) (<[id:=Erase]> (tx_undos b)))]> data, Ok (Some undos)).
Proof.
  intros Hne Hh. destruct undos as [|u us]; [done|]. destruct Hh as (b & Hb & Hu). exists b. split; [done|].
  unfold take_tx_undo_of, gets, mbind, st_bind. rewrite Hb.
  unfold take_tx_undo, self, lift, modify, mbind, st_bind.
  destruct (tx_undos b !! id) as [op|] eqn:Hid; [|done]. simpl in Hu.
  replace (take op) with (Some (u :: us)) by (by destruct op). simpl. done.
Qed.

Lemma take_tx_undo_lacks src id data fetcher :
  lacks data fetcher src id -> take_tx_undo_of src id fetcher data = (data, Ok None).
Proof.
  intros (ob & Hob & Hl). unfold take_tx_undo_of, gets, mbind, st_bind. rewrite Hob.
  destruct ob as [b|]; [|done]. unfold take_tx_undo, self, mbind, st_bind. by rewrite Hl.
Qed.

Lemma is_empty_holds b id : is_empty b = true -> (tx_undos b !! id) ≫= get = None.
Proof.
  unfold is_empty. intros [_ Hall]%andb_prop. destruct (tx_undos b !! id) as [op|] eqn:Hid; [|done]. simpl.
  rewrite forallb_forall in Hall. specialize (Hall (id, op)). rewrite <- list_elem_of_In, elem_of_btree_iter in Hall.
  specialize (Hall Hid). simpl in Hall. by destruct (get op).
Qed.

(** Writing back what is left of a block keeps the other records. *)
Lemma store_frame src data fetcher b b' id' us :
  block_undo_of src fetcher data = Ok (Some b) -> tx_undos b' !! id' = tx_undos b !! id' ->
  holds_undos data fetcher src id' us ->
  holds_undos (<[src:=if is_empty b' then Erase else Write b']> data) fetcher src id' us.
Proof.
  intros Hb Hsame. unfold holds_undos, holds, lacks. rewrite block_undo_of_put.
  destruct us as [|u us].
  - intros (ob & Hob & Hl). rewrite Hb in Hob. injection Hob as <-. destruct (is_empty b'); [by exists None|].
    exists (Some b'). split; [done|]. by rewrite Hsame.
  - intros (b1 & Hb1 & Hu). rewrite Hb in Hb1. injection Hb1 as <-. destruct (is_empty b') eqn:He.
    + apply (is_empty_holds b' id') in He. rewrite Hsame in He. congruence.
    + exists b'. split; [done|]. by rewrite Hsame.
Qed.

(** Taking succeeds, and leaves the undo data of the other transactions. *)
Lemma take_tx_undo_holds src id undos data fetcher :
  holds_undos data fetcher src id undos ->
  exists data', take_tx_undo_of src id fetcher data = (data', Ok match undos with [] => None | _ => Some undos end) /\
    forall id' us, id <> id' -> holds_undos data fetcher src id' us -> holds_undos data' fetcher src id' us.
Proof.
  intros Hh. destruct (decide (undos = [])) as [->|Hne].
  { exists data. split; [by apply take_tx_undo_lacks|done]. }
  destruct (take_tx_undo_Ok _ _ _ _ _ Hne Hh) as (b & Hb & Hrun). eexists. split; [|intros id' us Hid].
  - rewrite Hrun. by destruct undos.
  - apply (store_frame _ _ _ b); [done|]. simpl. by rewrite lookup_insert_ne.
Qed.
End held.
End AccountingUndo.


(** ** Undo data of spent outputs *)

Module UtxosUndo.
Record CachedUtxosBlockUndo `{CryptoTypes} := mk_undo {
  reward_undo : option (CachedOperation (list Utxo));
  tx_undos : gmap TxId (CachedOperation (list (option Utxo)));
  child_parent_dependencies : gmap (TxId * TxId) (CachedOperation unit);
  parent_child_dependencies : gmap (TxId * TxId) (CachedOperation unit)
}.

Section block_undo.
Context `{CryptoTypes}.
Abbreviation M := (ST CachedUtxosBlockUndo UtxosBlockUndoError).

Definition empty_undo : CachedUtxosBlockUndo := mk_undo _ None ∅ ∅ ∅.

Definition with_reward (r : option (CachedOperation (list Utxo))) b : CachedUtxosBlockUndo :=
  mk_undo _ r (tx_undos b) (child_parent_dependencies b) (parent_child_dependencies b).
Definition with_txs (txs : gmap TxId (CachedOperation (list (option Utxo)))) b : CachedUtxosBlockUndo :=
  mk_undo _ (reward_undo b) txs (child_parent_dependencies b) (parent_child_dependencies b).
Definition with_child_parent (m : gmap (TxId * TxId) (CachedOperation unit)) b : CachedUtxosBlockUndo :=
  mk_undo _ (reward_undo b) (tx_undos b) m (parent_child_dependencies b).
Definition with_parent_child (m : gmap (TxId * TxId) (CachedOperation unit)) b : CachedUtxosBlockUndo :=
  mk_undo _ (reward_undo b) (tx_undos b) (child_parent_dependencies b) m.

Definition set_block_reward_undo (r : list Utxo) : M unit :=
  b ← self;
  _ ← lift (ensure (is_none (reward_undo b)) UndoAlreadyExistsForReward);
  modify (with_reward (Some (Write r))).

(** Both collections of dependencies get the operation, mirrored. *)
Definition set_dependency (op : CachedOperation unit) (child parent : TxId) b : CachedUtxosBlockUndo :=
  with_parent_child (<[(parent, child):=op]> (parent_child_dependencies b))
    (with_child_parent (<[(child, parent):=op]> (child_parent_dependencies b)) b).

Definition insert_tx_undo (tx_id : TxId) (tx_undo : UtxosTxUndoWithSources) : M unit :=
  b ← self;
  match tx_undos b !! tx_id with
  | Some _ => lift (Err (UndoAlreadyExists tx_id))
  | None =>
      _ ← modify (fun b => with_txs (<[tx_id:=Write (undo_utxos tx_undo)]> (tx_undos b)) b);
      modify (fun b => foldl (fun b source_tx_id => set_dependency (Write tt) tx_id source_tx_id b) b
                         (omap get_tx_id (undo_sources tx_undo)))
  end.

Definition CachedUtxosBlockUndo_new (r : option (list Utxo)) (undos : gmap TxId UtxosTxUndoWithSources) :
    result UtxosBlockUndoError CachedUtxosBlockUndo :=
  construct
    (_ ← match r with Some r => set_block_reward_undo r | None => mret tt end;
     try_for_each (fun '(tx_id, tx_undo) => insert_tx_undo tx_id tx_undo) (btree_iter undos))
    empty_undo.

Definition from_utxo_block_undo (undo : UtxosBlockUndo) : CachedUtxosBlockUndo :=
  let c := block_undo_consume undo in
  mk_undo _ (Read <$> consumed_reward_undo c) (Read <$> consumed_tx_undos c)
    (gset_to_gmap (Read tt) (consumed_child_parent c)) (gset_to_gmap (Read tt) (consumed_parent_child c)).

Definition consume b : result UtxosBlockUndoError UtxosBlockUndo :=
  block_undo_from_data (mk_consumed_undo (reward_undo b ≫= get) (omap get (tx_undos b))
    (dom (omap get (child_parent_dependencies b))) (dom (omap get (parent_child_dependencies b)))).

Definition is_empty b : bool :=
  match reward_undo b with None => true | Some u => is_none (get u) end &&
  forallb (fun '(_, op) => is_none (get op)) (btree_iter (tx_undos b)).

Definition has_children_of b (tx_id : TxId) : bool :=
  existsb (fun '(_, op) => negb (is_none (get op)))
    (filter (fun e => e.1.1 = tx_id) (btree_iter (parent_child_dependencies b))).

Definition get_parents_of b (tx_id : TxId) : list (TxId * TxId) :=
  omap (fun '((child, parent), op) => (fun _ => (child, parent)) <$> get op)
    (filter (fun e => e.1.1 = tx_id) (btree_iter (child_parent_dependencies b))).

Definition take_block_reward_undo b : CachedUtxosBlockUndo * option (list Utxo) :=
  (with_reward None b, reward_undo b ≫= take).

Definition take_tx_undo (tx_id : TxId) : M (option (list (option Utxo))) :=
  b ← self;
  if negb (has_children_of b tx_id) then
    let to_remove := get_parents_of b tx_id in
    _ ← modify (fun b => foldl (fun b '(id1, id2) => set_dependency Erase id1 id2 b) b to_remove);
    b ← self;
    let res := tx_undos b !! tx_id ≫= take in
    _ ← modify (fun b => with_txs (<[tx_id:=Erase]> (tx_undos b)) b);
    mret res
  else lift (Err (TxUndoWithDependency tx_id)).

Definition combine_undo (other : CachedUtxosBlockUndo) : M unit :=
  b ← self;
  _ ← match reward_undo b, reward_undo other with
      | _, None => mret tt
      | None, Some r => modify (with_reward (Some r))
      | Some lhs, Some rhs => lift (ensure (bool_decide (lhs = rhs)) UndoAlreadyExistsForReward)
      end;
  _ ← zoom tx_undos with_txs (fun e => e) (try_for_each combine_entry (btree_iter (tx_undos other)));
  _ ← zoom child_parent_dependencies with_child_parent (fun e => e)
        (try_for_each combine_entry (btree_iter (child_parent_dependencies other)));
  zoom parent_child_dependencies with_parent_child (fun e => e)
    (try_for_each combine_entry (btree_iter (parent_child_dependencies other))).
End block_undo.

(** ** The cache *)

Abbreviation UtxosBlockUndoCache := (gmap TransactionSource (CachedOperation CachedUtxosBlockUndo)).

Section cache.
Context `{CryptoTypes}.
Abbreviation M := (ST UtxosBlockUndoCache ConnectTransactionError).
Abbreviation Fetcher := (TransactionSource -> result ConnectTransactionError (option CachedUtxosBlockUndo)).
Implicit Types (tx_source : TransactionSource) (tx_id : TxId) (fetcher : Fetcher).

Definition put tx_source (op : CachedOperation CachedUtxosBlockUndo) {E} : ST UtxosBlockUndoCache E unit :=
  modify (fun data => <[tx_source:=op]> data).

Definition block_undo_of tx_source fetcher (data : UtxosBlockUndoCache) :
    result ConnectTransactionError (option CachedUtxosBlockUndo) :=
  match data !! tx_source with
  | None => fetcher tx_source
  | Some op => Ok (get op)
  end.

Definition can_disconnect_transaction (data : UtxosBlockUndoCache) tx_source tx_id fetcher :
    result ConnectTransactionError bool :=
  block_undo ← block_undo_of tx_source fetcher data;
  Ok (match block_undo with Some undo => negb (has_children_of undo tx_id) | None => false end).

Definition add_tx_undo tx_source tx_id (tx_undo : UtxosTxUndoWithSources) : M unit :=
  data ← self;
  block_undo ← lift (map_err ConnectError.UtxoBlockUndoError
    match data !! tx_source with
    | Some (Write undo) | Some (Read undo) => construct (insert_tx_undo tx_id tx_undo) undo
    | Some Erase | None => CachedUtxosBlockUndo_new None {[tx_id := tx_undo]}
    end);
  put tx_source (Write block_undo).

Definition add_reward_undo tx_source (r : list Utxo) : M unit :=
  data ← self;
  block_undo ← lift (map_err ConnectError.UtxoBlockUndoError
    match data !! tx_source with
    | Some (Write undo) | Some (Read undo) => construct (set_block_reward_undo r) undo
    | Some Erase | None => CachedUtxosBlockUndo_new (Some r) ∅
    end);
  put tx_source (Write block_undo).

Definition store_rest tx_source (block_undo : CachedUtxosBlockUndo) : M unit :=
  put tx_source (if is_empty block_undo then Erase else Write block_undo).

(** A block whose undo data was used up entirely is a panic. *)
Definition take_tx_undo_of tx_source tx_id fetcher : M (list (option Utxo)) :=
  data ← self;
  block_undo ← lift match data !! tx_source with
                    | None => undo ← fetcher tx_source; ok_or (ConnectError.MissingBlockUndo tx_source) undo
                    | Some (Write undo) | Some (Read undo) => Ok undo
                    | Some Erase => Panic
                    end;
  let '(block_undo, res) := take_tx_undo tx_id block_undo in
  res ← lift (map_err ConnectError.UtxoBlockUndoError res);
  res ← lift (ok_or (ConnectError.MissingTxUndo tx_id) res);
  _ ← store_rest tx_source block_undo;
  mret res.

Definition take_block_reward_undo_of tx_source fetcher : M (option (list Utxo)) :=
  block_undo ← gets (block_undo_of tx_source fetcher);
  match block_undo with
  | Some block_undo =>
      let '(block_undo, r) := take_block_reward_undo block_undo in
      _ ← match r with Some _ => store_rest tx_source block_undo | None => mret tt end;
      mret r
  | None => mret None
  end.

Definition set_undo_data tx_source (new_undo : CachedUtxosBlockUndo) :
    ST UtxosBlockUndoCache UtxosBlockUndoError unit :=
  data ← self;
  match data !! tx_source with
  | None | Some Erase => put tx_source (Write new_undo)
  | Some (Write undo) =>
      let '(undo, r) := combine_undo new_undo undo in
      _ ← put tx_source (Write undo); lift r
  | Some (Read undo) =>
      let '(undo, r) := combine_undo new_undo undo in
      _ ← put tx_source (Read undo); lift r
  end.

Definition del_undo_data tx_source : ST UtxosBlockUndoCache UtxosBlockUndoError unit := put tx_source Erase.
End cache.

(** ** What a cache holds

    The undo data of the transactions of a source and of its reward, and the
    dependencies between the transactions. *)

Section held.
Context `{CryptoTypes}.
Abbreviation Fetcher := (TransactionSource -> result ConnectTransactionError (option CachedUtxosBlockUndo)).
Implicit Types (data : UtxosBlockUndoCache) (fetcher : Fetcher) (src : TransactionSource) (id : TxId)
  (b : CachedUtxosBlockUndo) (txs : gmap TxId (list (option Utxo))) (R : option (list Utxo)).

(** The child [c] spends an output of the parent [p]. *)
Definition depends_on b (c p : TxId) : Prop := parent_child_dependencies b !! (p, c) ≫= get = Some tt.

Record block_holds b txs R (deps : TxId -> TxId -> Prop) : Prop := {
  bh_txs : forall id, tx_undos b !! id ≫= get = txs !! id;
  bh_reward : reward_undo b ≫= get = R;
  bh_deps : forall c p, depends_on b c p <-> deps c p;
  bh_mirror : forall c p, child_parent_dependencies b !! (c, p) = parent_child_dependencies b !! (p, c);
  bh_children : forall c p, deps c p -> is_Some (txs !! c)
}.

Definition holds data fetcher src txs R (deps : TxId -> TxId -> Prop) : Prop :=
  exists ob, block_undo_of src fetcher data = Ok ob /\ block_holds (default empty_undo ob) txs R deps.

Definition local data fetcher src : Prop := data !! src = None -> fetcher src = Ok None.

Lemma empty_undo_holds deps : (forall c p, ~ deps c p) -> block_holds empty_undo ∅ None deps.
Proof.
  intros Hd. split; [done|done| |done|].
  - intros c p. split; [done|]. intros Hcp. by apply Hd in Hcp.
  - intros c p Hcp. by apply Hd in Hcp.
Qed.

(** Setting dependencies changes nothing else. *)
Lemma set_dependencies op (l : list (TxId * TxId)) b :
  let b' := foldl (fun b e => set_dependency op e.1 e.2 b) b l in
  tx_undos b' = tx_undos b /\ reward_undo b' = reward_undo b /\
  (forall c p, parent_child_dependencies b' !! (p, c) = if decide ((c, p) ∈ l) then Some op else parent_child_dependencies b !! (p, c)) /\
  (forall c p, child_parent_dependencies b' !! (c, p) = if decide ((c, p) ∈ l) then Some op else child_parent_dependencies b !! (c, p)).
Proof.
  revert b. induction l as [|[c0 p0] l IH]; intros b; simpl.
  { repeat split; intros; rewrite decide_False by apply not_elem_of_nil; done. }
  destruct (IH (set_dependency op c0 p0 b)) as (-> & -> & Hpc & Hcp). repeat split; intros c p.
  - rewrite Hpc. simpl. destruct (decide ((c, p) ∈ l)) as [Hin|Hin].
    + by rewrite decide_True by (by right).
    + destruct (decide ((c, p) = (c0, p0))) as [[= -> ->]|Hne].
      * rewrite decide_True by left. by rewrite lookup_insert_eq.
      * rewrite decide_False by (rewrite elem_of_cons; naive_solver). rewrite lookup_insert_ne; [done|congruence].
  - rewrite Hcp. simpl. destruct (decide ((c, p) ∈ l)) as [Hin|Hin].
    + by rewrite decide_True by (by right).
    + destruct (decide ((c, p) = (c0, p0))) as [[= -> ->]|Hne].
      * rewrite decide_True by left. by rewrite lookup_insert_eq.
      * rewrite decide_False by (rewrite elem_of_cons; naive_solver). rewrite lookup_insert_ne; [done|congruence].
Qed.

Definition insert_undo id (u : UtxosTxUndoWithSources) b : CachedUtxosBlockUndo :=
  foldl (fun b source_tx_id => set_dependency (Write tt) id source_tx_id b)
    (with_txs (<[id:=Write (undo_utxos u)]> (tx_undos b)) b) (omap get_tx_id (undo_sources u)).

Lemma insert_undo_holds id u b txs R deps :
  block_holds b txs R deps ->
  block_holds (insert_undo id u b) (<[id:=undo_utxos u]> txs) R
    (fun c p => deps c p \/ c = id /\ SourceTransaction p ∈ undo_sources u).
Proof.
  intros [Ht HR Hd Hm Hc].
  set (l := (fun p => (id, p)) <$> omap get_tx_id (undo_sources u)).
  assert (insert_undo id u b = foldl (fun b e => set_dependency (Write tt) e.1 e.2 b)
    (with_txs (<[id:=Write (undo_utxos u)]> (tx_undos b)) b) l) as ->.
  { unfold insert_undo, l. generalize (with_txs (<[id:=Write (undo_utxos u)]> (tx_undos b)) b) as b1.
    induction (omap get_tx_id (undo_sources u)) as [|p ps IH]; intros b1; [done|]. apply IH. }
  destruct (set_dependencies (Write tt) l (with_txs (<[id:=Write (undo_utxos u)]> (tx_undos b)) b))
    as (Ht' & HR' & Hpc & Hcp).
  assert (forall c p, (c, p) ∈ l <-> c = id /\ SourceTransaction p ∈ undo_sources u) as Hl.
  { intros c p. unfold l. rewrite list_elem_of_fmap. split.
    - intros (q & [= -> ->] & (s & Hs & Hq)%list_elem_of_omap). destruct s; simplify_eq/=. done.
    - intros [-> Hs]. exists p. split; [done|]. apply list_elem_of_omap. by exists (SourceTransaction p). }
  split.
  - intros j. rewrite Ht'. simpl. destruct (decide (id = j)) as [<-|Hj].
    + by rewrite !lookup_insert_eq.
    + by rewrite !lookup_insert_ne, Ht by done.
  - by rewrite HR'.
  - intros c p. unfold depends_on. rewrite Hpc, <- Hl. case_decide as Hin.
    + split; [by right|done].
    + simpl. specialize (Hd c p). unfold depends_on in Hd. rewrite Hd. naive_solver.
  - intros c p. rewrite Hpc, Hcp. case_decide; [done|]. simpl. apply Hm.
  - intros c p [Hcp'|[-> _]]; [|rewrite lookup_insert_eq; eauto].
    apply lookup_insert_is_Some. destruct (decide (id = c)); eauto.
Qed.

Lemma utxos_add_tx_undo_Ok src id u data data' :
  add_tx_undo src id u data = (data', Ok tt) ->
  data' = <[src:=Write (insert_undo id u (default empty_undo (data !! src ≫= get)))]> data.
Proof.
  unfold add_tx_undo, self, lift, put, modify, mbind, st_bind. intros Hrun.
  destruct (data !! src) as [[b0|b0|]|]; simpl in *.
  1,2: unfold construct, insert_tx_undo, self, lift, modify, mbind, st_bind in Hrun; simpl in Hrun;
       destruct (tx_undos b0 !! id) eqn:Hid; simpl in Hrun; [done|]; by injection Hrun as <-.
  all: unfold CachedUtxosBlockUndo_new, construct in Hrun; rewrite btree_iter_singleton in Hrun; by injection Hrun as <-.
Qed.

Lemma utxos_block_undo_of_put src op fetcher data :
  block_undo_of src fetcher (<[src:=op]> data) = Ok (get op).
Proof. unfold block_undo_of. by rewrite lookup_insert_eq. Qed.

Lemma utxos_local_block data fetcher src : local data fetcher src ->
  block_undo_of src fetcher data = Ok (data !! src ≫= get).
Proof.
  intros Hloc. unfold block_undo_of, local in *. destruct (data !! src); [done|]. by apply Hloc.
Qed.

Lemma utxos_add_tx_undo_holds src id u data data' fetcher txs R deps :
  local data fetcher src -> holds data fetcher src txs R deps ->
  add_tx_undo src id u data = (data', Ok tt) ->
  local data' fetcher src /\ holds data' fetcher src (<[id:=undo_utxos u]> txs) R
    (fun c p => deps c p \/ c = id /\ SourceTransaction p ∈ undo_sources u).
Proof.
  intros Hloc (ob & Hob & Hb) ->%utxos_add_tx_undo_Ok. split; [unfold local; by rewrite lookup_insert_eq|].
  rewrite (utxos_local_block _ _ _ Hloc) in Hob. injection Hob as <-. eexists. split; [apply utxos_block_undo_of_put|].
  simpl. by apply insert_undo_holds.
Qed.

Lemma has_children_holds b txs R deps id :
  block_holds b txs R deps -> (forall c, ~ deps c id) -> has_children_of b id = false.
Proof.
  intros Hb Hno. apply not_true_iff_false. intros Hc. unfold has_children_of in Hc.
  apply existsb_exists in Hc as ([[p c] op] & Hin & Hop).
  apply list_elem_of_In, list_elem_of_filter in Hin as [Hp Hin]. simpl in Hp, Hop. subst p.
  apply elem_of_btree_iter in Hin. apply (Hno c). apply (bh_deps _ _ _ _ Hb). unfold depends_on. rewrite Hin. simpl.
  by destruct (get op) as [[]|].
Qed.

Lemma elem_of_parents b id c p :
  (c, p) ∈ get_parents_of b id <-> c = id /\ child_parent_dependencies b !! (id, p) ≫= get = Some tt.
Proof.
  unfold get_parents_of. rewrite list_elem_of_omap. split.
  - intros ([[c' p'] op] & [Hc Hin]%list_elem_of_filter & Hop). simpl in Hc. subst c'.
    apply elem_of_btree_iter in Hin. destruct (get op) as [[]|] eqn:Hg; [|done]. simplify_eq/=.
    by rewrite Hin.
  - intros [-> Hop]. destruct (child_parent_dependencies b !! (id, p)) as [op|] eqn:Hin; [|done].
    exists ((id, p), op). simpl in Hop. rewrite Hop, list_elem_of_filter, elem_of_btree_iter. done.
Qed.

Definition remove_undo id b : CachedUtxosBlockUndo :=
  let b' := foldl (fun b '(id1, id2) => set_dependency Erase id1 id2 b) b (get_parents_of b id) in
  with_txs (<[id:=Erase]> (tx_undos b')) b'.

Lemma remove_undo_holds id b txs R deps :
  block_holds b txs R deps ->
  block_holds (remove_undo id b) (delete id txs) R (fun c p => deps c p /\ c <> id).
Proof.
  intros [Ht HR Hd Hm Hc]. unfold remove_undo.
  assert (foldl (fun b '(id1, id2) => set_dependency Erase id1 id2 b) b (get_parents_of b id)
    = foldl (fun b e => set_dependency Erase e.1 e.2 b) b (get_parents_of b id)) as ->.
  { clear. generalize (get_parents_of b id) as l. intros l. revert b.
    induction l as [|[c p] l IH]; intros b; [done|apply IH]. }
  destruct (set_dependencies Erase (get_parents_of b id) b) as (Ht' & HR' & Hpc & Hcp).
  assert (forall c p, (c, p) ∈ get_parents_of b id <-> c = id /\ deps c p) as Hl.
  { intros c p. rewrite elem_of_parents, Hm. rewrite <- Hd. unfold depends_on. naive_solver. }
  split; simpl.
  - intros j. rewrite Ht'. destruct (decide (id = j)) as [<-|Hj].
    + by rewrite lookup_insert_eq, lookup_delete_eq.
    + by rewrite lookup_insert_ne, lookup_delete_ne, Ht by done.
  - by rewrite HR'.
  - intros c p. unfold depends_on. simpl. rewrite Hpc. case_decide as Hin; rewrite Hl in Hin; simpl.
    + naive_solver.
    + specialize (Hd c p). unfold depends_on in Hd. rewrite Hd.
      destruct (decide (c = id)); naive_solver.
  - intros c p. rewrite Hpc, Hcp. case_decide; [done|apply Hm].
  - intros c p [Hcp' Hne]. rewrite lookup_delete_ne by done. eauto.
Qed.

Lemma utxos_is_empty_holds b txs R deps : block_holds b txs R deps -> is_empty b = true ->
  block_holds empty_undo txs R deps.
Proof.
  intros Hb He. destruct Hb as [Ht HR Hd Hm Hc]. unfold is_empty in He. apply andb_prop in He as [Hr Hall].
  assert (txs = ∅) as ->.
  { apply map_empty. intros id. rewrite <- Ht. destruct (tx_undos b !! id) as [op|] eqn:Hid; [|done]. simpl.
    rewrite forallb_forall in Hall. specialize (Hall (id, op)).
    rewrite <- list_elem_of_In, elem_of_btree_iter in Hall. specialize (Hall Hid). simpl in Hall. by destruct (get op). }
  assert (R = None) as ->.
  { rewrite <- HR. destruct (reward_undo b) as [op|]; [|done]. simpl. by destruct (get op). }
  apply empty_undo_holds. intros c p Hcp. by destruct (Hc c p Hcp).
Qed.

Lemma store_rest_holds b src data fetcher txs R deps : block_holds b txs R deps ->
  holds (<[src:=if is_empty b then Erase else Write b]> data) fetcher src txs R deps.
Proof.
  intros Hb. eexists. split; [apply utxos_block_undo_of_put|]. destruct (is_empty b) eqn:He; simpl; [|done].
  by eapply utxos_is_empty_holds.
Qed.

(** A transaction on which no other depends can be taken out. *)
Lemma utxos_take_tx_undo_holds src id u data fetcher txs R deps :
  holds data fetcher src txs R deps -> txs !! id = Some u -> (forall c, ~ deps c id) ->
  exists data', take_tx_undo_of src id fetcher data = (data', Ok u) /\
    holds data' fetcher src (delete id txs) R (fun c p => deps c p /\ c <> id).
Proof.
  intros (ob & Hob & Hb) Hid Hno. destruct ob as [b|]; simpl in Hb.
  2: { by rewrite <- (bh_txs _ _ _ _ Hb) in Hid. }
  pose proof (remove_undo_holds id b txs R deps Hb) as Hrem.
  eexists. split; [|apply (store_rest_holds (remove_undo id b)); exact Hrem].
  assert (take_tx_undo id b = (remove_undo id b, Ok (Some u))) as Htake.
  { unfold take_tx_undo, self, modify, mbind, st_bind. rewrite (has_children_holds _ _ _ _ _ Hb Hno). simpl.
    unfold remove_undo. f_equal. rewrite <- (bh_txs _ _ _ _ Hb) in Hid.
    pose proof (remove_undo_holds id b txs R deps Hb) as Hrem'.
    assert (tx_undos (foldl (fun b '(id1, id2) => set_dependency Erase id1 id2 b) b (get_parents_of b id)) = tx_undos b) as ->.
    { generalize (get_parents_of b id) as l. clear. intros l. revert b.
      induction l as [|[c p] l IH]; intros b; [done|]. simpl. by rewrite IH. }
    destruct (tx_undos b !! id) as [op|]; [|done]. simpl in Hid. destruct op; simplify_eq/=; done. }
  unfold take_tx_undo_of, self, lift, mbind, st_bind. unfold block_undo_of in Hob.
  destruct (data !! src) as [[b0|b0|]|]; simplify_eq/=; rewrite ?Hob; simpl; rewrite ?Htake; done.
Qed.
End held.
End UtxosUndo.

