(* ===== verification/PoSAdapter.v ===== *)
(** * The adapter of the transaction verifier

    Models [pos_accounting_delta_adapter.rs]: every operation on pools and
    delegations is executed in a fresh delta, which is merged both into the
    accumulated delta and into the delta of the block the operation comes
    from.  The adapter satisfies the laws of the interface of PoSInterface.v,
    so that what is proved of its clients against the interface holds of it. *)
From S2P Require Import Prelude Amount Accounting ChainTypes PoS PoSInterface TxTypes.

(** ** The adapter *)

Record PoSAccountingDeltaAdapter `{CryptoTypes} (P : Type) := mk_adapter {
  accounting_delta : PoSAccountingDelta P;
  accounting_block_deltas : gmap TransactionSource PoSAccountingDeltaData
}.
Arguments mk_adapter {_ _} _ _.
Arguments accounting_delta {_ _} _.
Arguments accounting_block_deltas {_ _} _.

Section adapter.
Context `{CryptoTypes} {P : Type} `{!PoSAccountingView P}.
Abbreviation Adapter := (PoSAccountingDeltaAdapter P).
Implicit Types (a : Adapter) (tx_source : TransactionSource).

Definition PoSAccountingDeltaAdapter_new (p : P) : Adapter := mk_adapter (PoSAccountingDelta_new p) ∅.

Definition adapter_consume a : PoSAccountingDeltaData * gmap TransactionSource PoSAccountingDeltaData :=
  (data (accounting_delta a), accounting_block_deltas a).

(** [self.accounting_block_deltas.entry(tx_source).or_default()]. *)
Definition in_block_delta {A} tx_source (m : ST PoSAccountingDeltaData Error A) : ST Adapter Error A :=
  zoom (fun a => default PoSAccountingDeltaData_new (accounting_block_deltas a !! tx_source))
    (fun d a => mk_adapter (accounting_delta a) (<[tx_source:=d]> (accounting_block_deltas a)))
    (fun e => e) m.

Definition in_accounting_delta {A} (m : ST (PoSAccountingDelta P) Error A) : ST Adapter Error A :=
  zoom accounting_delta (fun d a => mk_adapter d (accounting_block_deltas a)) (fun e => e) m.

Definition adapter_batch_write_delta (d : PoSAccountingDeltaData) : ST Adapter Error DeltaMergeUndo :=
  in_accounting_delta (batch_write_delta d).

Definition apply_accounting_delta tx_source (d : PoSAccountingDeltaData) : ST Adapter Error unit :=
  _ ← in_block_delta tx_source (data_merge_with_delta d); mret tt.

Definition merge_delta tx_source (d : PoSAccountingDeltaData) : ST Adapter Error unit :=
  _ ← in_accounting_delta (merge_with_delta d);
  _ ← in_block_delta tx_source (data_merge_with_delta d);
  mret tt.

(** An operation in a fresh delta over the accumulated one, which is then
    merged: the body of every operation of [PoSAccountingOperationImpl]. *)
Definition in_fresh_delta {A} tx_source (m : ST (PoSAccountingDelta (PoSAccountingDelta P)) Error A) :
    ST Adapter Error A :=
  a ← self;
  let '(d, r) := m (PoSAccountingDelta_new (accounting_delta a)) in
  x ← lift r;
  _ ← merge_delta tx_source (data d);
  mret x.

Definition adapter_exec tx_source (op : PoSOp) : ST Adapter Error PoSAccountingUndo :=
  in_fresh_delta tx_source (exec_op op).
Definition adapter_undo tx_source (u : PoSAccountingUndo) : ST Adapter Error unit :=
  in_fresh_delta tx_source (undo u).

(** [operations(tx_source)]. *)
Definition operations tx_source : PoSAccountingOperations Adapter := {|
  ops_pool_data := fun a => cache_get_pool_data (accounting_delta a);
  ops_pool_balance := fun a => cache_get_pool_balance (accounting_delta a);
  ops_shares := fun a => cache_get_pool_delegations_shares (accounting_delta a);
  ops_exec := adapter_exec tx_source;
  ops_undo := adapter_undo tx_source
|}.

(** What the operations of a block leave as it is: the ledger below, the ledger
    before the block, and the deltas of the other blocks. *)
Record AdapterBase := mk_adapter_base {
  ab_below : Ledger;
  ab_before : Ledger;
  ab_others : gmap TransactionSource PoSAccountingDeltaData
}.

(** The accumulated delta shows the ledger [l] over the one below, and the
    delta of the block leads from the ledger before the block to [l]. *)
Record adapter_rep tx_source (b : AdapterBase) a (l : Ledger) : Prop := {
  ar_delta : cache_rep (accounting_delta a) (ab_below b) l;
  ar_block : delta_rep (default PoSAccountingDeltaData_new (accounting_block_deltas a !! tx_source)) (ab_before b) l;
  ar_others : delete tx_source (accounting_block_deltas a) = ab_others b
}.

Lemma delta_rep_new l : bounded l -> delta_rep PoSAccountingDeltaData_new l l.
Proof. intros []. split; (apply data_rep_empty || by apply balance_rep_empty). Qed.

(** What a fresh delta does to the ledger, merging it does to the adapter. *)
Lemma in_fresh_delta_rep {A} tx_source b a l l' (m : ST (PoSAccountingDelta (PoSAccountingDelta P)) Error A) d x :
  adapter_rep tx_source b a l -> m (PoSAccountingDelta_new (accounting_delta a)) = (d, Ok x) ->
  cache_rep d l l' ->
  exists a', in_fresh_delta tx_source m a = (a', Ok x) /\ adapter_rep tx_source b a' l'.
Proof.
  intros [Hd Hb Ho] Hrun Hd'. pose proof (cache_rep_delta _ _ _ Hd') as Hdata.
  destruct (flush_to_cache_pos _ _ _ _ _ Hd Hdata) as (d1 & Hm1 & Hd1).
  destruct (merge_deltas_rep _ _ _ _ _ Hb Hdata) as (b1 & Hm2 & Hb1).
  exists (mk_adapter d1 (<[tx_source:=b1]> (accounting_block_deltas a))). split.
  - unfold in_fresh_delta, merge_delta, in_accounting_delta, in_block_delta, self, zoom, lift, mbind, st_bind.
    rewrite Hrun. unfold batch_write_delta in Hm1. rewrite Hm1. simpl. by rewrite Hm2.
  - split; [done| |]; simpl; [by rewrite lookup_insert_eq|by rewrite delete_insert_eq].
Qed.

Lemma fresh_delta_rep tx_source b a l :
  adapter_rep tx_source b a l -> cache_rep (PoSAccountingDelta_new (accounting_delta a)) l l.
Proof.
  intros [Hd _ _]. apply cache_rep_new_pos; [by eapply cache_represents_pos|by eapply cache_rep_bounded_pos].
Qed.

Definition adapter_laws tx_source (b : AdapterBase) : @PoSOperationsLaws _ Adapter (operations tx_source).
Proof.
  refine (@Build_PoSOperationsLaws _ Adapter (operations tx_source)
    (adapter_rep tx_source b) _ _ _ _ _ _ _).
  - intros a l [Hd _ _]. by eapply cache_rep_bounded_pos.
  - intros a l id [Hd _ _]. by eapply cache_rep_pool.
  - intros a l id [Hd _ _]. by eapply cache_rep_pool_balance.
  - intros a l pool [Hd _ _]. by eapply cache_rep_listing.
  - intros a l D op Ha Hinv Hr. pose proof (fresh_delta_rep _ _ _ _ Ha) as Hfresh.
    pose proof (exec_op_rep_pos _ _ _ D op Hfresh Hinv Hr) as Hop. unfold op_follows_rules in Hop. simpl.
    destruct (spec_op op l) as [l'|e|]; [|by unfold adapter_exec, in_fresh_delta, self, lift, mbind, st_bind; rewrite Hop|done].
    destruct Hop as (d & Hrun & Hd). by apply (in_fresh_delta_rep _ _ _ _ _ _ _ _ Ha Hrun Hd).
  - intros a l l' op Hb Hspec Ha. pose proof (fresh_delta_rep _ _ _ _ Ha) as Hfresh.
    destruct (undo_op_rep_pos _ _ l l' op Hb Hspec Hfresh) as (d & Hrun & Hd).
    by apply (in_fresh_delta_rep _ _ _ _ _ _ _ _ Ha Hrun Hd).
  - intros a l l' Heq [Hd Hb Ho]. split; [by eapply cache_rep_equiv_pos| |done].
    destruct Hb, Heq. split;
      (by eapply data_rep_ext; [|eassumption]) || (by eapply balance_rep_ext; [|eassumption]).
Defined.
End adapter.
