(* ===== verification/Policy.v ===== *)
(** * Which inputs and outputs may be combined

    Models [input_output_policy] of the transaction verifier: the purposes of
    the inputs and outputs of a transaction and of a block reward, the fee for
    issuing tokens by the old rules, and the checks of values by the
    constrained value accumulator, composed as the verifier calls them. *)
From S2P Require Import Prelude Amount Accounting ChainTypes ChainConfig BlockTree Utxo TxTypes.
From S2P Require Tokens Orders PoS Constraints Conservation.
Import ConnectError.

(** ** Counting issuances ([tokens_utils.rs]) *)

Section issuance.
Context `{CryptoTypes}.

Definition is_token_or_nft_issuance (output : TxOutput) : bool :=
  match output with
  | Transfer v _ | LockThenTransfer v _ _ | Burn v =>
      match v with
      | TokenV0 data =>
          match data with
          | TokenDataV0_TokenIssuance _ | TokenDataV0_NftIssuance _ => true
          | TokenDataV0_TokenTransfer _ => false
          end
      | Coin _ | TokenV1 _ _ => false
      end
  | CreateStakePool _ _ | ProduceBlockFromStake _ _ | CreateDelegationId _ _ | DelegateStaking _ _
  | DataDeposit _ | Htlc _ _ | CreateOrder _ => false
  | IssueFungibleToken _ | IssueNft _ _ _ => true
  end.

Definition get_tokens_issuance_count (outputs : list TxOutput) : nat :=
  length (filter (fun output => is_token_or_nft_issuance output) outputs).
End issuance.

(** ** Purposes ([purposes_check.rs]) *)

Section policy.
Context `{CryptoTypes} `{!TxHash}.

Definition is_utxo (input : TxInput) : bool :=
  match input with
  | InputUtxo _ => true
  | InputAccount _ | InputAccountCommand _ _ | InputOrderAccountCommand _ => false
  end.

(** The outputs that the inputs spend, for the inputs that spend outputs. *)
Definition collect_inputs_utxos {P} `{!UtxosView P} (utxo_view : P) (inputs : list TxInput) :
    result ConnectTransactionError (list TxOutput) :=
  mapM (fun outpoint =>
      u ← map_err (fun _ => UtxoError ViewRead) (utxo utxo_view outpoint);
      ok_or (MissingOutputOrSpent outpoint) (output <$> u))
    (omap utxo_outpoint inputs).

(** The pool and the staker of the output that a block reward spends. *)
Definition reward_input (block_id : BlockId) (inputs_utxos : list TxOutput) :
    result ConnectTransactionError (PoolId * Destination) :=
  match inputs_utxos with
  | [] => Err (SpendStakeError (SpendStakeError.ConsensusError NoKernel))
  | [input_utxo] =>
      match input_utxo with
      | Transfer _ _ | LockThenTransfer _ _ _ | Burn _ | CreateDelegationId _ _ | DelegateStaking _ _
      | IssueFungibleToken _ | IssueNft _ _ _ | DataDeposit _ | Htlc _ _ | CreateOrder _ =>
          Err (IOPolicyErrorIn IOPolicyError.InvalidInputTypeInReward (SourceBlockReward block_id))
      | CreateStakePool input_pool_id input_pool_data => Ok (input_pool_id, sp_staker input_pool_data)
      | ProduceBlockFromStake input_staker_destination input_pool_id =>
          Ok (input_pool_id, input_staker_destination)
      end
  | _ => Err (SpendStakeError (SpendStakeError.ConsensusError MultipleKernels))
  end.

(** The staker and the pool of the output of a block reward. *)
Definition reward_output (block_id : BlockId) (outputs : list TxOutput) :
    result ConnectTransactionError (Destination * PoolId) :=
  match outputs with
  | [] => Err (SpendStakeError SpendStakeError.NoBlockRewardOutputs)
  | [output] =>
      match output with
      | Transfer _ _ | LockThenTransfer _ _ _ | Burn _ | CreateStakePool _ _ | CreateDelegationId _ _
      | DelegateStaking _ _ | IssueFungibleToken _ | IssueNft _ _ _ | DataDeposit _ | Htlc _ _
      | CreateOrder _ =>
          Err (IOPolicyErrorIn IOPolicyError.InvalidOutputTypeInReward (SourceBlockReward block_id))
      | ProduceBlockFromStake output_staker_destination output_pool_id =>
          Ok (output_staker_destination, output_pool_id)
      end
  | _ => Err (SpendStakeError SpendStakeError.MultipleBlockRewardOutputs)
  end.

Definition is_lock_then_transfer (output : TxOutput) : bool :=
  match output with
  | LockThenTransfer _ _ _ => true
  | Transfer _ _ | Burn _ | CreateStakePool _ _ | ProduceBlockFromStake _ _ | CreateDelegationId _ _
  | DelegateStaking _ _ | IssueFungibleToken _ | IssueNft _ _ _ | DataDeposit _ | Htlc _ _
  | CreateOrder _ => false
  end.

Definition check_reward_inputs_outputs_purposes {P} `{!UtxosView P} (chain_config : ChainConfig)
    (reward : BlockRewardTransactable) (utxo_view : P) (block_id : BlockId) (block_height : BlockHeight) :
    result ConnectTransactionError unit :=
  match t_inputs reward with
  | Some inputs =>
      _ ← ensure (forallb is_utxo inputs)
            (IOPolicyErrorIn IOPolicyError.AttemptToUseAccountInputInReward (SourceBlockReward block_id));
      inputs_utxos ← collect_inputs_utxos utxo_view inputs;
      '(input_pool_id, input_staker_destination) ← reward_input block_id inputs_utxos;
      outputs ← ok_or (SpendStakeError SpendStakeError.NoBlockRewardOutputs) (t_outputs reward);
      '(output_staker_destination, output_pool_id) ← reward_output block_id outputs;
      _ ← ensure (bool_decide (input_pool_id = output_pool_id))
            (SpendStakeError (SpendStakeError.StakePoolIdMismatch input_pool_id output_pool_id));
      upgrade ← chainstate_upgrade_at chain_config block_height;
      match staker_destination_update_forbidden upgrade with
      | StakerDestinationUpdateForbidden.Yes =>
          ensure (bool_decide (output_staker_destination = input_staker_destination))
            (ProduceBlockFromStakeChangesStakerDestination block_id input_pool_id)
      | StakerDestinationUpdateForbidden.No => Ok tt
      end
  | None =>
      outputs ← ok_or (SpendStakeError SpendStakeError.NoBlockRewardOutputs) (t_outputs reward);
      ensure (forallb is_lock_then_transfer outputs)
        (IOPolicyErrorIn IOPolicyError.InvalidOutputTypeInReward (SourceBlockReward block_id))
  end.

Definition is_valid_input_utxo (input_utxo : TxOutput) : bool :=
  match input_utxo with
  | Transfer _ _ | LockThenTransfer _ _ _ | CreateStakePool _ _ | ProduceBlockFromStake _ _
  | IssueNft _ _ _ | Htlc _ _ => true
  | Burn _ | CreateDelegationId _ _ | DelegateStaking _ _ | IssueFungibleToken _ | DataDeposit _
  | CreateOrder _ => false
  end.

Definition is_account_command (input : TxInput) : bool :=
  match input with
  | InputUtxo _ | InputAccount _ => false
  | InputAccountCommand _ _ | InputOrderAccountCommand _ => true
  end.

(** The four counters of the loop over the outputs. *)
Record OutputCounts := mk_counts {
  produce_block_outputs_count : N;
  stake_pool_outputs_count : N;
  create_delegation_output_count : N;
  create_order_output_count : N
}.

Definition count_output (c : OutputCounts) (output : TxOutput) : OutputCounts :=
  let '(mk_counts p s d o) := c in
  match output with
  | Transfer _ _ | LockThenTransfer _ _ _ | Burn _ | DelegateStaking _ _ | IssueFungibleToken _
  | IssueNft _ _ _ | DataDeposit _ | Htlc _ _ => c
  | CreateStakePool _ _ => mk_counts p (s + 1) d o
  | ProduceBlockFromStake _ _ => mk_counts (p + 1) s d o
  | CreateDelegationId _ _ => mk_counts p s (d + 1) o
  | CreateOrder _ => mk_counts p s d (o + 1)
  end%N.

Definition check_tx_inputs_outputs_purposes (tx : Transaction) (inputs_utxos : list TxOutput) :
    result IOPolicyError unit :=
  _ ← ensure (forallb is_valid_input_utxo inputs_utxos) IOPolicyError.InvalidInputTypeInTx;
  let account_commands_count := length (filter (fun input => is_account_command input) (inputs tx)) in
  _ ← ensure (account_commands_count <=? 1)%nat IOPolicyError.MultipleAccountCommands;
  let c := foldl count_output (mk_counts 0 0 0 0) (outputs tx) in
  _ ← ensure (produce_block_outputs_count c =? 0)%N IOPolicyError.ProduceBlockInTx;
  _ ← ensure (stake_pool_outputs_count c <=? 1)%N IOPolicyError.MultiplePoolCreated;
  _ ← ensure (create_delegation_output_count c <=? 1)%N IOPolicyError.MultipleDelegationCreated;
  ensure (create_order_output_count c <=? 1)%N IOPolicyError.MultipleOrdersCreated.

(** ** Values ([mod.rs]) *)

Definition burned_tokens (token_id : TokenId) (output : TxOutput) : option Amount :=
  match output with
  | Burn output_value =>
      match output_value with
      | Coin _ | TokenV0 _ => None
      | TokenV1 id amount => if bool_decide (id = token_id) then Some amount else None
      end
  | Transfer _ _ | LockThenTransfer _ _ _ | CreateStakePool _ _ | ProduceBlockFromStake _ _
  | CreateDelegationId _ _ | DelegateStaking _ _ | IssueFungibleToken _ | IssueNft _ _ _
  | DataDeposit _ | Htlc _ _ | CreateOrder _ => None
  end.

Definition calculate_tokens_burned_in_outputs (tx : Transaction) (token_id : TokenId) :
    result ConnectTransactionError Amount :=
  ok_or (BurnAmountSumError (get_id tx)) (Amount.sum (omap (burned_tokens token_id) (outputs tx))).

Definition burned_coins (output : TxOutput) : option Amount :=
  match output with
  | Burn v => coin_amount v
  | Transfer _ _ | LockThenTransfer _ _ _ | CreateStakePool _ _ | ProduceBlockFromStake _ _
  | CreateDelegationId _ _ | IssueFungibleToken _ | IssueNft _ _ _ | DataDeposit _
  | DelegateStaking _ _ | Htlc _ _ | CreateOrder _ => None
  end.

Definition check_issuance_fee_burn_v0 (chain_config : ChainConfig) (tx : Transaction) :
    result ConnectTransactionError unit :=
  let issuance_count := get_tokens_issuance_count (outputs tx) in
  if (0 <? issuance_count)%nat then
    total_burned ← ok_or (BurnAmountSumError (get_id tx)) (Amount.sum (omap burned_coins (outputs tx)));
    ensure (negb (Amount.ltb total_burned (fungible_token_issuance_fee chain_config)))
      (TokensError (TokensError.InsufficientTokenFees (get_id tx)))
  else Ok tt.

Definition check_reward_inputs_outputs_policy {P} `{!UtxosView P} (chain_config : ChainConfig) (utxo_view : P)
    (reward : BlockRewardTransactable) (block_id : BlockId) (block_height : BlockHeight)
    (consensus_data : ConsensusData) (total_fees : Amount) : result ConnectTransactionError unit :=
  block_subsidy_at_height ← block_subsidy_at_height chain_config block_height;
  _ ← check_reward_inputs_outputs_purposes chain_config reward utxo_view block_id block_height;
  match consensus_data with
  | ConsensusNone | ConsensusPoW _ =>
      match t_outputs reward with
      | Some outputs =>
          let in_block e := ConstrainedValueAccumulatorError e (SourceBlockReward block_id) in
          inputs_accumulator ← ok_or (RewardAdditionError block_id)
            (Constraints.from_block_reward total_fees block_subsidy_at_height);
          outputs_accumulator ← map_err in_block (Constraints.from_outputs chain_config block_height outputs);
          _ ← map_err in_block (Constraints.satisfy_with inputs_accumulator outputs_accumulator);
          Ok tt
      | None => Ok tt
      end
  | ConsensusPoS _ =>
      outputs ← ok_or (SpendStakeError SpendStakeError.NoBlockRewardOutputs) (t_outputs reward);
      match outputs with
      | [] => Err (SpendStakeError SpendStakeError.NoBlockRewardOutputs)
      | [_] => Ok tt
      | _ => Err (SpendStakeError SpendStakeError.MultipleBlockRewardOutputs)
      end
  end.

(** The output that an input spends, if it spends one. *)
Definition input_utxo_output {P} `{!UtxosView P} (utxo_view : P) (input : TxInput) :
    result ConnectTransactionError (option TxOutput) :=
  match input with
  | InputUtxo outpoint =>
      u ← map_err (fun _ => UtxoError ViewRead) (utxo utxo_view outpoint);
      u ← ok_or (MissingOutputOrSpent outpoint) u;
      Ok (Some (output u))
  | InputAccount _ | InputAccountCommand _ _ | InputOrderAccountCommand _ => Ok None
  end.

Definition check_tx_inputs_outputs_policy {Po Pp Pt Pu} `{!Orders.OrdersAccountingView Po}
    `{!PoS.PoSAccountingView Pp} `{!Tokens.TokensAccountingView Pt} `{!UtxosView Pu}
    (tx : Transaction) (chain_config : ChainConfig) (block_height : BlockHeight)
    (orders_view : Po) (pos_view : Pp) (tokens_view : Pt) (utxo_view : Pu) :
    result ConnectTransactionError Constraints.AccumulatedFee :=
  let in_tx e := ConstrainedValueAccumulatorError e (SourceTransaction (get_id tx)) in
  inputs_utxos ← collect_inputs_utxos utxo_view (inputs tx);
  _ ← map_err (fun e => IOPolicyErrorIn e (SourceTransaction (get_id tx)))
        (check_tx_inputs_outputs_purposes tx inputs_utxos);
  upgrade ← chainstate_upgrade_at chain_config block_height;
  _ ← match token_issuance_version upgrade with
      | TokenIssuanceVersion.V0 => check_issuance_fee_burn_v0 chain_config tx
      | TokenIssuanceVersion.V1 => Ok tt
      end;
  inputs_utxos ← mapM (input_utxo_output utxo_view) (inputs tx);
  inputs_accumulator ← map_err in_tx (Constraints.from_inputs chain_config block_height orders_view
    pos_view tokens_view (inputs tx) inputs_utxos);
  outputs_accumulator ← map_err in_tx (Constraints.from_outputs chain_config block_height (outputs tx));
  map_err in_tx (Constraints.satisfy_with inputs_accumulator outputs_accumulator).
End policy.
