(* ===== verification/CheckTransaction.v ===== *)
(** * Checks of a transaction on its own

    Models [check_transaction.rs] and [tokens_check] of the transaction
    verifier: the checks that need only the transaction and the chain
    configuration.  The size of an encoded transaction and the table of the
    alphanumeric characters beyond ASCII are parameters. *)
From S2P Require Import Prelude Amount ChainTypes ChainConfig BlockTree Utxo TxTypes Policy.
Import CheckTransactionError.

#[global] Instance AccountCommand_eq_dec `{CryptoTypes} : EqDecision AccountCommand.
Proof. solve_decision. Defined.
#[global] Instance OrderAccountCommand_eq_dec : EqDecision OrderAccountCommand.
Proof. solve_decision. Defined.
#[global] Instance AccountSpending_eq_dec : EqDecision AccountSpending.
Proof. solve_decision. Defined.
#[global] Instance AccountOutPoint_eq_dec : EqDecision AccountOutPoint.
Proof. solve_decision. Defined.
#[global] Instance TxInput_eq_dec `{CryptoTypes} : EqDecision TxInput.
Proof. solve_decision. Defined.

(** ** Signed transactions *)

(** The content of a standard signature is not looked at here. *)
Inductive InputWitness :=
  | NoSignature (data : option (list u8))
  | Standard.

Record SignedTransaction `{CryptoTypes} := mk_signed {
  transaction : Transaction;
  signatures : list InputWitness
}.
Arguments mk_signed {_} _ _.

Class TxParameters `{CryptoTypes} := {
  encoded_size : SignedTransaction -> N;
  is_alphanumeric_beyond_ascii : N -> bool
}.

Inductive TransactionSize :=
  | ScriptedTransaction (size : N)
  | SmartContractTransaction (size : N).

Definition has_smart_contracts `{CryptoTypes} (tx : Transaction) : bool := false.

Definition transaction_data_size `{TxParameters} (tx : SignedTransaction) : TransactionSize :=
  if has_smart_contracts (transaction tx) then SmartContractTransaction (encoded_size tx)
  else ScriptedTransaction (encoded_size tx).

Definition len {A} (l : list A) : N := N.of_nat (length l).

(** ** Text ([String::from_utf8], [char::is_alphanumeric]) *)

Definition is_ascii_alphanumeric (c : Z) : bool :=
  (48 <=? c) && (c <=? 57) || (65 <=? c) && (c <=? 90) || (97 <=? c) && (c <=? 122).

Definition is_alphanumeric `{TxParameters} (ch : Z) : bool :=
  if ch <? 128 then is_ascii_alphanumeric ch else is_alphanumeric_beyond_ascii (Z.to_N ch).

(** The six low bits of a continuation byte. *)
Definition continuation (b : Z) : option Z := if (128 <=? b) && (b <=? 191) then Some (b - 128) else None.

(** UTF-8: no overlong forms, no surrogates, at most 10FFFF. *)
Fixpoint from_utf8 (bytes : list Z) : option (list Z) :=
  match bytes with
  | [] => Some []
  | a :: rest1 =>
      if a <? 128 then cons a <$> from_utf8 rest1
      else match rest1 with
      | [] => None
      | b :: rest2 =>
          if (194 <=? a) && (a <=? 223) then
            b ← continuation b; cons ((a - 192) * 64 + b) <$> from_utf8 rest2
          else match rest2 with
          | [] => None
          | c :: rest3 =>
              if (224 <=? a) && (a <=? 239) then
                b ← continuation b; c ← continuation c;
                let ch := (a - 224) * 4096 + b * 64 + c in
                if (2048 <=? ch) && negb ((55296 <=? ch) && (ch <=? 57343))
                then cons ch <$> from_utf8 rest3 else None
              else match rest3 with
              | [] => None
              | d :: rest4 =>
                  if (240 <=? a) && (a <=? 244) then
                    b ← continuation b; c ← continuation c; d ← continuation d;
                    let ch := (a - 240) * 262144 + b * 4096 + c * 64 + d in
                    if (65536 <=? ch) && (ch <=? 1114111) then cons ch <$> from_utf8 rest4 else None
                  else None
              end
          end
      end
  end.

(** The characters of ["%:/?#[]@!$&\'()*+,;=-._~"]. *)
Definition rfc3986_symbols : list Z :=
  [37; 58; 47; 63; 35; 91; 93; 64; 33; 36; 38; 39; 40; 41; 42; 43; 44; 59; 61; 45; 46; 95; 126].
Definition is_rfc3986_valid_symbol (ch : Z) : bool := existsb (Z.eqb ch) rfc3986_symbols.

Definition check_is_text_ascii_alphanumeric (str : list u8) : bool :=
  forallb (fun c => is_ascii_alphanumeric (ival c)) str.

Definition is_uri_valid `{TxParameters} (uri : list u8) : bool :=
  match from_utf8 (ival <$> uri) with
  | Some uri => forallb (fun ch => is_alphanumeric ch || is_rfc3986_valid_symbol ch) uri
  | None => false
  end.

(** ** Issuance data ([tokens_check]) *)

Section tokens_check.
Context `{TxParameters}.
Implicit Types (chain_config : ChainConfig).
Import TokenIssuanceError.

Definition check_media_hash chain_config (hash : list u8) : result TokenIssuanceError unit :=
  _ ← ensure (token_min_hash_len chain_config <=? len hash)%N MediaHashTooShort;
  ensure (len hash <=? token_max_hash_len chain_config)%N MediaHashTooLong.

(** Text of at most [max] characters, not empty, alphanumeric. *)
Definition check_text (max : N) (text : list u8) (wrong_length wrong_character : TokenIssuanceError) :
    result TokenIssuanceError unit :=
  _ ← ensure ((len text <=? max)%N && bool_decide (text <> [])) wrong_length;
  ensure (check_is_text_ascii_alphanumeric text) wrong_character.

Definition check_token_ticker chain_config (ticker : list u8) : result TokenIssuanceError unit :=
  check_text TOKEN_MAX_TICKER_LEN ticker IssueErrorInvalidTickerLength
    IssueErrorTickerHasNoneAlphaNumericChar.

Definition check_nft_name chain_config (name : list u8) : result TokenIssuanceError unit :=
  check_text (token_max_name_len chain_config) name IssueErrorInvalidNameLength
    IssueErrorNameHasNoneAlphaNumericChar.

Definition check_nft_description chain_config (description : list u8) : result TokenIssuanceError unit :=
  check_text (token_max_description_len chain_config) description IssueErrorInvalidDescriptionLength
    IssueErrorDescriptionHasNonAlphaNumericChar.

(** A [DataOrNoVec] encodes like the vector it holds, or like an empty one, so
    that decoding its encoding as a vector gives this vector. *)
Definition check_optional_uri chain_config (uri : option (list u8)) (e : TokenIssuanceError) :
    result TokenIssuanceError unit :=
  let uri := default [] uri in
  if bool_decide (uri = []) then Ok tt
  else
    _ ← ensure (len uri <=? token_max_uri_len chain_config)%N e;
    ensure (is_uri_valid uri) e.

Definition check_nft_issuance_data chain_config (issuance : NftIssuanceV0) : result TokenIssuanceError unit :=
  let metadata := nft_metadata issuance in
  _ ← check_token_ticker chain_config (md_ticker metadata);
  _ ← check_nft_name chain_config (md_name metadata);
  _ ← check_nft_description chain_config (md_description metadata);
  _ ← check_optional_uri chain_config (md_icon_uri metadata) IssueErrorIncorrectIconURI;
  _ ← check_optional_uri chain_config (md_additional_metadata_uri metadata) IssueErrorIncorrectMetadataURI;
  _ ← check_optional_uri chain_config (md_media_uri metadata) IssueErrorIncorrectMediaURI;
  check_media_hash chain_config (md_media_hash metadata).

Definition check_tokens_issuance chain_config (issuance : TokenIssuance) : result TokenIssuanceError unit :=
  match issuance with
  | TokenIssuance_V1 issuance_data =>
      _ ← check_token_ticker chain_config (iss_token_ticker issuance_data);
      _ ← ensure (ival (iss_number_of_decimals issuance_data) <=? ival (token_max_dec_count chain_config))
            IssueErrorTooManyDecimals;
      _ ← ensure (is_uri_valid (iss_metadata_uri issuance_data)) IssueErrorIncorrectMetadataURI;
      ensure (len (iss_metadata_uri issuance_data) <=? token_max_uri_len chain_config)%N
        IssueErrorIncorrectMetadataURI
  end.
End tokens_check.

(** ** The checks *)

(** [iter.try_for_each] without state. *)
Fixpoint check_each {A E} (f : A -> result E unit) (l : list A) : result E unit :=
  match l with
  | [] => Ok tt
  | x :: l => _ ← f x; check_each f l
  end.

Section checks.
Context `{CryptoTypes} `{!TxHash} `{!TxParameters}.
Implicit Types (chain_config : ChainConfig) (block_height : BlockHeight) (tx : SignedTransaction).
Abbreviation checked := (result CheckTransactionError unit).

Definition tx_id tx : TxId := get_id (transaction tx).

Definition check_size chain_config tx : checked :=
  match transaction_data_size tx with
  | ScriptedTransaction size =>
      let max_allowed_size := max_block_size_with_standard_txs chain_config in
      ensure (size <=? max_allowed_size)%N (TxSizeTooLarge (tx_id tx) size max_allowed_size)
  | SmartContractTransaction size =>
      let max_allowed_size := max_block_size_with_smart_contracts chain_config in
      ensure (size <=? max_allowed_size)%N (TxSizeTooLarge (tx_id tx) size max_allowed_size)
  end.

(** The loop that inserts the inputs into a set. *)
Fixpoint insert_inputs (seen : list TxInput) (l : list TxInput) (e : CheckTransactionError) : checked :=
  match l with
  | [] => Ok tt
  | input :: l => _ ← ensure (bool_decide (input ∉ seen)) e; insert_inputs (input :: seen) l e
  end.

Definition check_duplicate_inputs tx : checked :=
  _ ← ensure (bool_decide (inputs (transaction tx) <> [])) (EmptyInputsInTransaction (tx_id tx));
  insert_inputs [] (inputs (transaction tx)) (DuplicateInputInTransaction (tx_id tx)).

Definition check_witness_count tx : checked :=
  ensure (bool_decide (length (inputs (transaction tx)) = length (signatures tx)))
    (InvalidWitnessCount (tx_id tx)).

Definition is_token_v0 (v : OutputValue) : bool :=
  match v with Coin _ | TokenV1 _ _ => false | TokenV0 _ => true end.

(** For an order both variables are computed from what is asked. *)
Definition has_token_v0 (output : TxOutput) : bool :=
  match output with
  | Transfer output_value _ | Burn output_value | LockThenTransfer output_value _ _ | Htlc output_value _ =>
      is_token_v0 output_value
  | CreateOrder data =>
      let ask_token_v0 := is_token_v0 (co_ask data) in
      let give_token_v0 := is_token_v0 (co_ask data) in
      ask_token_v0 || give_token_v0
  | CreateStakePool _ _ | ProduceBlockFromStake _ _ | CreateDelegationId _ _ | DelegateStaking _ _
  | IssueFungibleToken _ | IssueNft _ _ _ | DataDeposit _ => false
  end.

Definition check_metadata_uri_change chain_config (activated : ChangeTokenMetadataUriActivated.t)
    (input : TxInput) : checked :=
  match input with
  | InputUtxo _ | InputAccount _ | InputOrderAccountCommand _ => Ok tt
  | InputAccountCommand _ command =>
      match command with
      | AccountCommand.MintTokens _ _ | AccountCommand.UnmintTokens _ | AccountCommand.LockTokenSupply _
      | AccountCommand.FreezeToken _ _ | AccountCommand.UnfreezeToken _
      | AccountCommand.ChangeTokenAuthority _ _ | AccountCommand.ConcludeOrder _
      | AccountCommand.FillOrder _ _ _ => Ok tt
      | AccountCommand.ChangeTokenMetadataUri token_id metadata_uri =>
          _ ← match activated with
              | ChangeTokenMetadataUriActivated.Yes => Ok tt
              | ChangeTokenMetadataUriActivated.No => Err ChangeTokenMetadataUriNotActivated
              end;
          ensure (len metadata_uri <=? token_max_uri_len chain_config)%N
            (TokensError (TokensError.TokenMetadataUriTooLarge token_id))
      end
  end.

Definition check_issuance chain_config tx (output : TxOutput) : result TxTypes.TokensError unit :=
  match output with
  | IssueFungibleToken issuance =>
      map_err (fun e => TokensError.IssueError e (tx_id tx)) (check_tokens_issuance chain_config issuance)
  | IssueNft _ issuance _ =>
      match issuance with
      | NftIssuance_V0 data =>
          map_err (fun e => TokensError.IssueError e (tx_id tx)) (check_nft_issuance_data chain_config data)
      end
  | Transfer _ _ | LockThenTransfer _ _ _ | Burn _ | CreateStakePool _ _ | ProduceBlockFromStake _ _
  | CreateDelegationId _ _ | DelegateStaking _ _ | DataDeposit _ | Htlc _ _ | CreateOrder _ => Ok tt
  end.

Definition check_tokens_tx chain_config block_height tx : checked :=
  upgrade ← chainstate_upgrade_at chain_config block_height;
  _ ← match token_issuance_version upgrade with
      | TokenIssuanceVersion.V0 => Ok tt
      | TokenIssuanceVersion.V1 =>
          ensure (negb (existsb has_token_v0 (outputs (transaction tx))))
            (DeprecatedTokenOperationVersion TokenIssuanceVersion.V0 (tx_id tx))
      end;
  let issuance_count := get_tokens_issuance_count (outputs (transaction tx)) in
  _ ← ensure (issuance_count <=? 1)%nat
        (TokensError (TokensError.MultipleTokenIssuanceInTransaction (tx_id tx)));
  upgrade ← chainstate_upgrade_at chain_config block_height;
  _ ← check_each (check_metadata_uri_change chain_config (change_token_metadata_uri_activated upgrade))
        (inputs (transaction tx));
  map_err TokensError (check_each (check_issuance chain_config tx) (outputs (transaction tx))).

Definition check_signature_data chain_config tx (signature : InputWitness) : checked :=
  match signature with
  | NoSignature data =>
      _ ← ensure (data_in_no_signature_witness_allowed chain_config || is_none data)
            (NoSignatureDataNotAllowed (tx_id tx));
      match data with
      | Some inner_data =>
          let max_size := data_in_no_signature_witness_max_size chain_config in
          ensure (len inner_data <=? max_size)%N
            (NoSignatureDataSizeTooLarge (len inner_data) max_size (tx_id tx))
      | None => Ok tt
      end
  | Standard => Ok tt
  end.

Definition check_no_signature_size chain_config tx : checked :=
  check_each (check_signature_data chain_config tx) (signatures tx).

Definition check_data_deposit_output chain_config block_height tx (output : TxOutput) : checked :=
  match output with
  | Transfer _ _ | LockThenTransfer _ _ _ | Burn _ | CreateStakePool _ _ | ProduceBlockFromStake _ _
  | CreateDelegationId _ _ | DelegateStaking _ _ | IssueFungibleToken _ | IssueNft _ _ _ | Htlc _ _
  | CreateOrder _ => Ok tt
  | DataDeposit v =>
      max_size ← data_deposit_max_size chain_config block_height;
      ensure (len v <=? max_size)%N (DataDepositMaxSizeExceeded (len v) max_size (tx_id tx))
  end.

Definition check_data_deposit_outputs chain_config block_height tx : checked :=
  check_each (check_data_deposit_output chain_config block_height tx) (outputs (transaction tx)).

Definition is_htlc (output : TxOutput) : bool :=
  match output with
  | Transfer _ _ | LockThenTransfer _ _ _ | Burn _ | CreateStakePool _ _ | ProduceBlockFromStake _ _
  | CreateDelegationId _ _ | DelegateStaking _ _ | IssueFungibleToken _ | IssueNft _ _ _ | DataDeposit _
  | CreateOrder _ => false
  | Htlc _ _ => true
  end.

Definition check_htlc_outputs chain_config block_height tx : checked :=
  upgrade ← chainstate_upgrade_at chain_config block_height;
  match htlc_activated upgrade with
  | HtlcActivated.Yes => Ok tt
  | HtlcActivated.No => ensure (negb (existsb is_htlc (outputs (transaction tx)))) HtlcsAreNotActivated
  end.

Definition check_order_input (orders_version : OrdersVersion) tx (input : TxInput) : checked :=
  match input with
  | InputUtxo _ | InputAccount _ => Ok tt
  | InputAccountCommand _ account_command =>
      match account_command with
      | AccountCommand.MintTokens _ _ | AccountCommand.UnmintTokens _ | AccountCommand.LockTokenSupply _
      | AccountCommand.FreezeToken _ _ | AccountCommand.UnfreezeToken _
      | AccountCommand.ChangeTokenAuthority _ _ | AccountCommand.ChangeTokenMetadataUri _ _ => Ok tt
      | AccountCommand.FillOrder _ _ _ | AccountCommand.ConcludeOrder _ =>
          match orders_version with
          | V0 => Ok tt
          | V1 => Err (DeprecatedOrdersCommands (tx_id tx))
          end
      end
  | InputOrderAccountCommand cmd =>
      _ ← match orders_version with
          | V0 => Err (OrdersV1AreNotActivated (tx_id tx))
          | V1 => Ok tt
          end;
      match cmd with
      | OrderAccountCommand.FillOrder id fill =>
          ensure (Amount.ltb Amount.ZERO fill) (AttemptToFillOrderWithZero id (tx_id tx))
      | OrderAccountCommand.ConcludeOrder _ | OrderAccountCommand.FreezeOrder _ => Ok tt
      end
  end.

Definition check_order_output chain_config block_height tx (output : TxOutput) : checked :=
  match output with
  | Transfer _ _ | LockThenTransfer _ _ _ | Burn _ | CreateStakePool _ _ | ProduceBlockFromStake _ _
  | CreateDelegationId _ _ | DelegateStaking _ _ | IssueFungibleToken _ | IssueNft _ _ _ | DataDeposit _
  | Htlc _ _ => Ok tt
  | CreateOrder data =>
      upgrade ← chainstate_upgrade_at chain_config block_height;
      match orders_activated upgrade with
      | OrdersActivated.Yes =>
          ensure (bool_decide (CoinOrTokenId.from_output_value (co_ask data)
                                 <> CoinOrTokenId.from_output_value (co_give data)))
            (OrdersCurrenciesMustBeDifferent (tx_id tx))
      | OrdersActivated.No => Err (OrdersAreNotActivated (tx_id tx))
      end
  end.

Definition check_order_inputs_outputs chain_config block_height tx : checked :=
  upgrade ← chainstate_upgrade_at chain_config block_height;
  _ ← check_each (check_order_input (orders_version upgrade) tx) (inputs (transaction tx));
  check_each (check_order_output chain_config block_height tx) (outputs (transaction tx)).

Definition check_transaction chain_config block_height tx : checked :=
  _ ← check_size chain_config tx;
  _ ← check_duplicate_inputs tx;
  _ ← check_witness_count tx;
  _ ← check_tokens_tx chain_config block_height tx;
  _ ← check_no_signature_size chain_config tx;
  _ ← check_data_deposit_outputs chain_config block_height tx;
  _ ← check_htlc_outputs chain_config block_height tx;
  check_order_inputs_outputs chain_config block_height tx.

(** ** What a checked transaction is like *)

Definition text_ok (max : N) (text : list u8) : Prop :=
  text <> [] /\ (len text <= max)%N /\ Forall (fun c => is_ascii_alphanumeric (ival c) = true) text.

Definition optional_uri_ok chain_config (uri : option (list u8)) : Prop :=
  default [] uri = [] \/ (len (default [] uri) <= token_max_uri_len chain_config)%N /\ is_uri_valid (default [] uri) = true.

Definition nft_ok chain_config (d : NftIssuanceV0) : Prop :=
  let m := nft_metadata d in
  text_ok TOKEN_MAX_TICKER_LEN (md_ticker m) /\ text_ok (token_max_name_len chain_config) (md_name m) /\
  text_ok (token_max_description_len chain_config) (md_description m) /\
  optional_uri_ok chain_config (md_icon_uri m) /\ optional_uri_ok chain_config (md_additional_metadata_uri m) /\
  optional_uri_ok chain_config (md_media_uri m) /\
  (token_min_hash_len chain_config <= len (md_media_hash m) <= token_max_hash_len chain_config)%N.

Definition fungible_ok chain_config (i : TokenIssuance) : Prop :=
  let 'TokenIssuance_V1 d := i in
  text_ok TOKEN_MAX_TICKER_LEN (iss_token_ticker d) /\
  ival (iss_number_of_decimals d) <= ival (token_max_dec_count chain_config) /\
  is_uri_valid (iss_metadata_uri d) = true /\ (len (iss_metadata_uri d) <= token_max_uri_len chain_config)%N.

(** The values that an output holds: of an order, what it asks and what it gives. *)
Definition output_values (output : TxOutput) : list OutputValue :=
  match output with
  | Transfer v _ | Burn v | LockThenTransfer v _ _ | Htlc v _ => [v]
  | CreateOrder d => [co_ask d; co_give d]
  | _ => []
  end.

Definition gives_token_v0 (output : TxOutput) : bool :=
  match output with CreateOrder d => is_token_v0 (co_give d) | _ => false end.

(** Of an output, since the upgrade [u].  The rule on tokens of version 0 is about
    every value that the output holds. *)
Definition output_ok chain_config (u : ChainstateUpgrade) (max_deposit : N) (output : TxOutput) : Prop :=
  (token_issuance_version u = TokenIssuanceVersion.V1 -> Forall (fun v => is_token_v0 v = false) (output_values output)) /\
  match output with
  | IssueFungibleToken i => fungible_ok chain_config i
  | IssueNft _ (NftIssuance_V0 d) _ => nft_ok chain_config d
  | DataDeposit d => (len d <= max_deposit)%N
  | Htlc _ _ => htlc_activated u = HtlcActivated.Yes
  | CreateOrder d => orders_activated u = OrdersActivated.Yes /\
      CoinOrTokenId.from_output_value (co_ask d) <> CoinOrTokenId.from_output_value (co_give d)
  | _ => True
  end.

(** Of an input. *)
Definition input_ok chain_config (u : ChainstateUpgrade) (input : TxInput) : Prop :=
  match input with
  | InputAccountCommand _ (AccountCommand.ChangeTokenMetadataUri _ uri) =>
      change_token_metadata_uri_activated u = ChangeTokenMetadataUriActivated.Yes /\
      (len uri <= token_max_uri_len chain_config)%N
  | InputAccountCommand _ (AccountCommand.FillOrder _ _ _)
  | InputAccountCommand _ (AccountCommand.ConcludeOrder _) => orders_version u = V0
  | InputOrderAccountCommand (OrderAccountCommand.FillOrder _ fill) => orders_version u = V1 /\ 0 < ival fill
  | InputOrderAccountCommand _ => orders_version u = V1
  | _ => True
  end.

(** Of a signature: no data without a signature, unless allowed. *)
Definition witness_ok chain_config (w : InputWitness) : Prop :=
  match w with
  | NoSignature (Some d) => data_in_no_signature_witness_allowed chain_config = true /\
      (len d <= data_in_no_signature_witness_max_size chain_config)%N
  | _ => True
  end.

Record tx_well_formed chain_config (u : ChainstateUpgrade) (max_deposit : N) tx : Prop := {
  wf_size : (encoded_size tx <= max_block_size_with_standard_txs chain_config)%N;
  wf_spends : inputs (transaction tx) <> [];
  wf_distinct : NoDup (inputs (transaction tx));
  wf_signed : length (signatures tx) = length (inputs (transaction tx));
  wf_issues : (get_tokens_issuance_count (outputs (transaction tx)) <= 1)%nat;
  wf_inputs : Forall (input_ok chain_config u) (inputs (transaction tx));
  wf_outputs : Forall (output_ok chain_config u max_deposit) (outputs (transaction tx));
  wf_witnesses : Forall (witness_ok chain_config) (signatures tx)
}.

Lemma bind_unit {E} (m k : result E unit) : (_ ← m; k) = Ok tt <-> m = Ok tt /\ k = Ok tt.
Proof. destruct m as [[]|e|]; simpl; naive_solver. Qed.

Lemma ensure_iff {E} b (e : E) : ensure b e = Ok tt <-> b = true.
Proof. by destruct b. Qed.

Lemma check_each_iff {X E} (f : X -> result E unit) l : check_each f l = Ok tt <-> Forall (fun x => f x = Ok tt) l.
Proof. induction l as [|x l IH]; simpl; [done|]. by rewrite bind_unit, IH, Forall_cons. Qed.

Lemma existsb_false_iff {X} (f : X -> bool) l : existsb f l = false <-> Forall (fun x => f x = false) l.
Proof. induction l as [|x l IH]; simpl; [done|]. by rewrite orb_false_iff, IH, Forall_cons. Qed.

Lemma insert_inputs_iff seen l e : insert_inputs seen l e = Ok tt <-> NoDup l /\ forall x, x ∈ l -> x ∉ seen.
Proof.
  revert seen. induction l as [|x l IH]; intros seen; simpl.
  - split; [intros _; split; [constructor|set_solver]|done].
  - rewrite bind_unit, ensure_iff, bool_decide_eq_true, IH, NoDup_cons. set_solver.
Qed.

Lemma check_text_iff max text e e' : check_text max text e e' = Ok tt <-> text_ok max text.
Proof.
  unfold check_text, text_ok. rewrite bind_unit, !ensure_iff, andb_true_iff, bool_decide_eq_true, N.leb_le.
  unfold check_is_text_ascii_alphanumeric. rewrite forallb_forall, Forall_forall. setoid_rewrite list_elem_of_In. tauto.
Qed.

Lemma check_optional_uri_iff chain_config uri e :
  check_optional_uri chain_config uri e = Ok tt <-> optional_uri_ok chain_config uri.
Proof.
  unfold check_optional_uri, optional_uri_ok. case_bool_decide; [naive_solver|].
  rewrite bind_unit, !ensure_iff, N.leb_le. naive_solver.
Qed.

Lemma check_media_hash_iff chain_config hash : check_media_hash chain_config hash = Ok tt <->
  (token_min_hash_len chain_config <= len hash <= token_max_hash_len chain_config)%N.
Proof. unfold check_media_hash. by rewrite bind_unit, !ensure_iff, !N.leb_le. Qed.

Lemma map_err_iff {E F} (f : E -> F) (m : result E unit) : map_err f m = Ok tt <-> m = Ok tt.
Proof. apply map_err_Ok. Qed.

Lemma check_issuance_iff chain_config tx o : check_issuance chain_config tx o = Ok tt <->
  match o with
  | IssueFungibleToken i => fungible_ok chain_config i
  | IssueNft _ (NftIssuance_V0 d) _ => nft_ok chain_config d
  | _ => True
  end.
Proof.
  destruct o as [| | | | | | |[d]|id [d] k| | |]; simpl; try done; rewrite map_err_iff.
  - unfold check_token_ticker. rewrite !bind_unit, !ensure_iff, check_text_iff, N.leb_le, Z.leb_le. tauto.
  - unfold check_nft_issuance_data, check_token_ticker, check_nft_name, check_nft_description, nft_ok.
    by rewrite !bind_unit, !check_text_iff, !check_optional_uri_iff, check_media_hash_iff.
Qed.

Lemma check_duplicates_iff tx : check_duplicate_inputs tx = Ok tt <->
  inputs (transaction tx) <> [] /\ NoDup (inputs (transaction tx)).
Proof.
  unfold check_duplicate_inputs. rewrite bind_unit, ensure_iff, bool_decide_eq_true, insert_inputs_iff. set_solver.
Qed.

Section upgraded.
Context (chain_config : ChainConfig) (block_height : BlockHeight) (tx : SignedTransaction).
Context (u : ChainstateUpgrade) (max_deposit : N).
Hypothesis Hu : chainstate_upgrade_at chain_config block_height = (Ok u : result CheckTransactionError _).
Hypothesis Hmax : data_deposit_max_size chain_config block_height = (Ok max_deposit : result CheckTransactionError _).

Lemma check_signature_iff w : check_signature_data chain_config tx w = Ok tt <-> witness_ok chain_config w.
Proof.
  destruct w as [[d|]|]; simpl; [| |done].
  - rewrite bind_unit, !ensure_iff, N.leb_le, orb_true_iff. simpl. naive_solver.
  - by rewrite bind_unit, ensure_iff, orb_true_r.
Qed.

Lemma check_input_iff i : input_ok chain_config u i <->
  check_metadata_uri_change chain_config (change_token_metadata_uri_activated u) i = Ok tt /\
  check_order_input (orders_version u) tx i = Ok tt.
Proof.
  destruct i as [| |n cmd|cmd]; simpl; [done|done| |].
  - destruct cmd; simpl; try done.
    1,2: destruct (orders_version u); naive_solver.
    rewrite bind_unit, ensure_iff, N.leb_le. destruct (change_token_metadata_uri_activated u); naive_solver.
  - rewrite bind_unit. destruct (orders_version u), cmd; simpl; rewrite ?ensure_iff; unfold Amount.ltb; naive_solver lia.
Qed.

Lemma output_values_iff o : Forall (fun v => is_token_v0 v = false) (output_values o) <->
  has_token_v0 o = false /\ gives_token_v0 o = false.
Proof.
  destruct o; simpl; rewrite ?Forall_cons, ?Forall_nil, ?orb_false_iff; tauto.
Qed.

Lemma check_output_iff o : output_ok chain_config u max_deposit o <->
  ((token_issuance_version u = TokenIssuanceVersion.V1 -> has_token_v0 o = false /\ gives_token_v0 o = false) /\
   (htlc_activated u = HtlcActivated.No -> is_htlc o = false)) /\
  check_issuance chain_config tx o = Ok tt /\
  check_data_deposit_output chain_config block_height tx o = Ok tt /\
  check_order_output chain_config block_height tx o = Ok tt.
Proof.
  rewrite check_issuance_iff. unfold output_ok. rewrite output_values_iff.
  destruct o; simpl; rewrite ?Hmax, ?Hu; simpl; try (rewrite ?ensure_iff, ?N.leb_le; naive_solver).
  - destruct (htlc_activated u); naive_solver.
  - destruct (orders_activated u); rewrite ?ensure_iff, ?bool_decide_eq_true; naive_solver.
Qed.

Lemma check_tokens_tx_iff : check_tokens_tx chain_config block_height tx = Ok tt <->
  (token_issuance_version u = TokenIssuanceVersion.V1 ->
     Forall (fun o => has_token_v0 o = false) (outputs (transaction tx))) /\
  (get_tokens_issuance_count (outputs (transaction tx)) <= 1)%nat /\
  Forall (fun i => check_metadata_uri_change chain_config (change_token_metadata_uri_activated u) i = Ok tt)
    (inputs (transaction tx)) /\
  Forall (fun o => check_issuance chain_config tx o = Ok tt) (outputs (transaction tx)).
Proof.
  unfold check_tokens_tx. rewrite Hu. cbn [mbind result_bind].
  rewrite !bind_unit, map_err_iff, !check_each_iff, ensure_iff, Nat.leb_le.
  destruct (token_issuance_version u); [naive_solver|]. rewrite ensure_iff, negb_true_iff.
  rewrite existsb_false_iff. naive_solver.
Qed.

Lemma check_htlc_iff : check_htlc_outputs chain_config block_height tx = Ok tt <->
  (htlc_activated u = HtlcActivated.No -> Forall (fun o => is_htlc o = false) (outputs (transaction tx))).
Proof.
  unfold check_htlc_outputs. rewrite Hu. cbn [mbind result_bind].
  destruct (htlc_activated u); [naive_solver|]. rewrite ensure_iff, negb_true_iff, existsb_false_iff. naive_solver.
Qed.

Lemma check_orders_iff : check_order_inputs_outputs chain_config block_height tx = Ok tt <->
  Forall (fun i => check_order_input (orders_version u) tx i = Ok tt) (inputs (transaction tx)) /\
  Forall (fun o => check_order_output chain_config block_height tx o = Ok tt) (outputs (transaction tx)).
Proof. unfold check_order_inputs_outputs. rewrite Hu. cbn [mbind result_bind]. by rewrite bind_unit, !check_each_iff. Qed.

Lemma outputs_iff : Forall (output_ok chain_config u max_deposit) (outputs (transaction tx)) <->
  (token_issuance_version u = TokenIssuanceVersion.V1 ->
      Forall (fun o => gives_token_v0 o = false) (outputs (transaction tx))) /\
  ((token_issuance_version u = TokenIssuanceVersion.V1 ->
      Forall (fun o => has_token_v0 o = false) (outputs (transaction tx))) /\
   (htlc_activated u = HtlcActivated.No -> Forall (fun o => is_htlc o = false) (outputs (transaction tx)))) /\
  Forall (fun o => check_issuance chain_config tx o = Ok tt) (outputs (transaction tx)) /\
  Forall (fun o => check_data_deposit_output chain_config block_height tx o = Ok tt) (outputs (transaction tx)) /\
  Forall (fun o => check_order_output chain_config block_height tx o = Ok tt) (outputs (transaction tx)).
Proof. rewrite !Forall_forall. setoid_rewrite check_output_iff. naive_solver. Qed.

Lemma inputs_iff : Forall (input_ok chain_config u) (inputs (transaction tx)) <->
  Forall (fun i => check_metadata_uri_change chain_config (change_token_metadata_uri_activated u) i = Ok tt)
    (inputs (transaction tx)) /\
  Forall (fun i => check_order_input (orders_version u) tx i = Ok tt) (inputs (transaction tx)).
Proof. rewrite !Forall_forall. setoid_rewrite check_input_iff. naive_solver. Qed.
End upgraded.
End checks.

(** * Main property *)

(** C11: [check_transaction] accepts every well-formed transaction: not too large,
    with inputs that are not empty and all different, one signature per input, at
    most one issuance, and inputs, outputs and signatures that the upgrades in
    force at that height allow.  It accepts nothing else, with one exception: since
    the upgrade that forbids tokens of version 0, an order that gives such a token
    is not well-formed, but it is not refused for that, as the check looks at what
    is asked twice. *)
Theorem check_transaction_well_formed `{CryptoTypes} `{!TxHash} `{!TxParameters}
    (chain_config : ChainConfig) (block_height : BlockHeight) (tx : SignedTransaction) u max_deposit :
  chainstate_upgrade_at chain_config block_height = (Ok u : result CheckTransactionError _) ->
  data_deposit_max_size chain_config block_height = (Ok max_deposit : result CheckTransactionError _) ->
  tx_well_formed chain_config u max_deposit tx <->
  check_transaction chain_config block_height tx = Ok tt /\
  (token_issuance_version u = TokenIssuanceVersion.V1 ->
    Forall (fun o => gives_token_v0 o = false) (outputs (transaction tx))).
Proof.
  intros Hu Hmax. unfold check_transaction. rewrite !bind_unit.
  rewrite (check_tokens_tx_iff _ _ _ _ Hu), (check_htlc_iff _ _ _ _ Hu), (check_orders_iff _ _ _ _ Hu), check_duplicates_iff.
  unfold check_size, transaction_data_size, check_witness_count, check_no_signature_size, check_data_deposit_outputs. simpl.
  rewrite !ensure_iff, !check_each_iff, bool_decide_eq_true, N.leb_le.
  pose proof (outputs_iff _ _ tx _ _ Hu Hmax) as Ho. pose proof (inputs_iff chain_config tx u) as Hi.
  assert (Forall (fun w => check_signature_data chain_config tx w = Ok tt) (signatures tx) <->
    Forall (witness_ok chain_config) (signatures tx)) as Hw by (apply Forall_iff; intros w; apply check_signature_iff).
  split.
  - intros [? ? ? ? ? Hin Hout Hwit]. apply Hw in Hwit. apply Hi in Hin as [? ?]. apply Ho in Hout as (? & [? ?] & ? & ? & ?). by split_and!.
  - intros [(Hsize & [Hne Hnd] & Hlen & (Hv0 & Hcount & Hmeta & Hiss) & Hsig & Hdep & Hhtlc & Hoi & Hoo) Hgive].
    split; try done; [by apply Hi|by apply Ho|by apply Hw].
Qed.
