(* ===== verification/TokenIssuance.v ===== *)
(** * The cache of issued non-fungible tokens

    Models [token_issuance_cache.rs]: for every token that a transaction
    issues with an [IssueNft] output, the issuing transaction and its block,
    and the token by the id of the transaction. *)
From S2P Require Import Prelude Amount ChainTypes ChainConfig BlockTree Utxo TxTypes.
Import CachedOperation.

Record TokenAuxiliaryData `{CryptoTypes} := mk_aux_data {
  issuance_tx : Transaction;
  issuance_block_id : BlockId
}.
Arguments mk_aux_data {_} _ _.

(** [TokenIssuanceCache] and [ConsumedTokenIssuanceCache]. *)
Record TokenIssuanceCache `{CryptoTypes} := mk_issuance {
  aux_data : gmap TokenId (CachedOperation TokenAuxiliaryData);
  txid_vs_tokenid : gmap TxId (CachedOperation TokenId)
}.
Arguments mk_issuance {_} _ _.

Section issuance.
Context `{CryptoTypes} `{!TxHash} `{!IdHashes}.
Abbreviation M := (ST TokenIssuanceCache).
Implicit Types (tx : Transaction) (token_id : TokenId).
Abbreviation Getter := (TokenId -> result ConnectTransactionError (option TokenAuxiliaryData)).

Definition TokenIssuanceCache_new : TokenIssuanceCache := mk_issuance ∅ ∅.

Definition issued_nft (output : TxOutput) : option TokenId :=
  match output with
  | Transfer _ _ | LockThenTransfer _ _ _ | Burn _ | CreateStakePool _ _ | ProduceBlockFromStake _ _
  | CreateDelegationId _ _ | DelegateStaking _ _ | IssueFungibleToken _ | DataDeposit _ | Htlc _ _
  | CreateOrder _ => None
  | IssueNft id _ _ => Some id
  end.

Definition has_tokens_issuance_to_cache (outputs : list TxOutput) : option TokenId :=
  head (omap issued_nft outputs).

Definition put_aux_data token_id (op : CachedOperation TokenAuxiliaryData) {E} : M E unit :=
  modify (fun c => mk_issuance (<[token_id:=op]> (aux_data c)) (txid_vs_tokenid c)).

Definition insert_aux_data token_id (new_op : CachedOperation TokenAuxiliaryData) : M TokensError unit :=
  c ← self;
  match aux_data c !! token_id with
  | Some (Write _) | Some (Read _) =>
      lift (Err (TokensError.InvariantBrokenRegisterIssuanceWithDuplicateId token_id))
  | Some Erase | None => put_aux_data token_id new_op
  end.

Definition set_token_id (issuance_tx_id : TxId) token_id : M TokensError unit :=
  modify (fun c => mk_issuance (aux_data c) (<[issuance_tx_id:=Write token_id]> (txid_vs_tokenid c))).
Definition del_token_id (issuance_tx_id : TxId) : M TokensError unit :=
  modify (fun c => mk_issuance (aux_data c) (<[issuance_tx_id:=Erase]> (txid_vs_tokenid c))).

Definition set_token_aux_data token_id (data : TokenAuxiliaryData) : M TokensError unit :=
  insert_aux_data token_id (Write data).
Definition del_token_aux_data token_id : M TokensError unit := insert_aux_data token_id Erase.

Definition write_issuance (block_id : BlockId) tx token_id : M ConnectTransactionError unit :=
  st_map_err ConnectError.TokensError
    (_ ← insert_aux_data token_id (Write (mk_aux_data tx block_id));
     set_token_id (get_id tx) token_id).

Definition write_undo_issuance tx token_id : M TokensError unit :=
  c ← self;
  match aux_data c !! token_id with
  | Some _ => _ ← put_aux_data token_id Erase; del_token_id (get_id tx)
  | None => lift (Err (TokensError.InvariantBrokenUndoIssuanceOnNonexistentToken token_id))
  end.

Definition precache_token_issuance (token_data_getter : Getter) token_id : M ConnectTransactionError unit :=
  c ← self;
  match aux_data c !! token_id with
  | None =>
      current_token_data ← lift (token_data_getter token_id);
      match current_token_data with
      | Some el => put_aux_data token_id (Read el)
      | None => mret tt
      end
  | Some _ => lift (Err (ConnectError.TokensError
                (TokensError.InvariantBrokenRegisterIssuanceWithDuplicateId token_id)))
  end.

(** A transaction of the mempool is registered with the id zero. *)
Definition register (chain_config : ChainConfig) (block_height : BlockHeight) (block_id : option BlockId) tx
    (token_data_getter : Getter) : M ConnectTransactionError unit :=
  match has_tokens_issuance_to_cache (outputs tx) with
  | Some token_id =>
      expected_token_id ← lift (map_err ConnectError.IdCreationError
        (make_token_id chain_config block_height (inputs tx)));
      _ ← lift (ensure (bool_decide (token_id = expected_token_id))
            (ConnectError.TokensError (TokensError.IssueError
               (TokenIssuanceError.TokenIdMismatch token_id expected_token_id) (get_id tx))));
      _ ← precache_token_issuance token_data_getter token_id;
      write_issuance (default 0%N block_id) tx token_id
  | None => mret tt
  end.

Definition unregister tx (token_data_getter : Getter) : M ConnectTransactionError unit :=
  match has_tokens_issuance_to_cache (outputs tx) with
  | Some token_id =>
      _ ← precache_token_issuance token_data_getter token_id;
      st_map_err ConnectError.TokensError (write_undo_issuance tx token_id)
  | None => mret tt
  end.

(** What the cache shows of a token over what is below it. *)
Definition aux_view (c : TokenIssuanceCache) (below : TokenId -> option TokenAuxiliaryData) token_id :
    option TokenAuxiliaryData :=
  match aux_data c !! token_id with Some op => get op | None => below token_id end.

(** ** Registered once, and gone only in another cache *)

Lemma register_shows cfg h block tx getter below c c' token_id :
  has_tokens_issuance_to_cache (outputs tx) = Some token_id -> (forall id, getter id = Ok (below id)) ->
  register cfg h block tx getter c = (c', Ok tt) ->
  aux_data c !! token_id = None /\ below token_id = None /\
  c' = mk_issuance (<[token_id:=Write (mk_aux_data tx (default 0%N block))]> (aux_data c))
         (<[get_id tx:=Write token_id]> (txid_vs_tokenid c)).
Proof.
  intros Htok Hget Hrun. unfold register in Hrun. rewrite Htok in Hrun.
  apply st_bind_Ok in Hrun as (e & s1 & Hid & Hrun). apply lift_Ok in Hid as [-> Hid].
  apply st_bind_Ok in Hrun as ([] & s2 & Hens & Hrun). apply lift_Ok in Hens as [-> Hens].
  apply st_bind_Ok in Hrun as ([] & s3 & Hpre & Hrun).
  unfold precache_token_issuance, self, lift, mbind, st_bind in Hpre.
  destruct (aux_data c !! token_id) eqn:Hc; [done|]. rewrite Hget in Hpre.
  destruct (below token_id) eqn:Hb.
  - injection Hpre as <-. unfold write_issuance, insert_aux_data, st_map_err, self, mbind, st_bind in Hrun.
    simpl in Hrun. by rewrite lookup_insert_eq in Hrun.
  - injection Hpre as <-. unfold write_issuance, insert_aux_data, st_map_err, self, mbind, st_bind in Hrun.
    rewrite Hc in Hrun. by injection Hrun as <-.
Qed.

(** A cache in which a token is already cached can neither register nor
    unregister it. *)
Lemma unregister_cached tx getter c token_id op :
  has_tokens_issuance_to_cache (outputs tx) = Some token_id -> aux_data c !! token_id = Some op ->
  unregister tx getter c =
    (c, Err (ConnectError.TokensError (TokensError.InvariantBrokenRegisterIssuanceWithDuplicateId token_id))).
Proof.
  intros Htok Hc. unfold unregister. rewrite Htok. unfold precache_token_issuance, self, lift, mbind, st_bind.
  by rewrite Hc.
Qed.

(** In another cache over one that shows the token, it is unregistered. *)
Lemma unregister_removes tx (getter : Getter) c token_id data :
  has_tokens_issuance_to_cache (outputs tx) = Some token_id ->
  aux_data c !! token_id = None -> getter token_id = Ok (Some data) ->
  unregister tx getter c = (mk_issuance (<[token_id:=Erase]> (aux_data c)) (<[get_id tx:=Erase]> (txid_vs_tokenid c)), Ok tt).
Proof.
  intros Htok Hc Hb. unfold unregister. rewrite Htok.
  unfold precache_token_issuance, write_undo_issuance, st_map_err, self, lift, mbind, st_bind.
  rewrite Hc, Hb. simpl. rewrite lookup_insert_eq. simpl. by rewrite insert_insert_eq.
Qed.

(** Unregistering a transaction whose NFT, if it issued one, is known below only. *)
Lemma unregister_stored tx (getter : Getter) c :
  match has_tokens_issuance_to_cache (outputs tx) with
  | Some id => aux_data c !! id = None /\ exists data, getter id = Ok (Some data)
  | None => True
  end ->
  exists c', unregister tx getter c = (c', Ok tt) /\
    forall id, has_tokens_issuance_to_cache (outputs tx) <> Some id -> aux_data c' !! id = aux_data c !! id.
Proof.
  destruct (has_tokens_issuance_to_cache (outputs tx)) as [id|] eqn:Hid.
  - intros [Hc [data Hdata]]. eexists. split; [by apply (unregister_removes tx getter c id data)|].
    intros id' Hne. simpl. apply lookup_insert_ne. congruence.
  - intros _. exists c. unfold unregister. by rewrite Hid.
Qed.
End issuance.
