(* ===== verification/TxVerifier.v ===== *)
(** * The transaction verifier

    Models [TransactionVerifier] of [chainstate/tx-verifier]: connecting and
    disconnecting transactions and block rewards ([mod.rs]), what it reads from
    the storage below ([storage.rs]), and blocks ([default_strategy.rs]).  The
    checks of signatures, scripts and timelocks ([input_check]) read the
    verifier and do not change it; they are a parameter. *)
From S2P Require Import Prelude Amount Accounting ChainTypes ChainConfig BlockTree Utxo TxTypes UndoCache TokenIssuance.
From S2P Require Import PoSInterface PoSAdapter Policy CheckTransaction.
From S2P Require Tokens Orders PoS Constraints RewardDistribution.
Import CachedOperation ConnectError.

#[global] Instance DataDeltaUndo_eq_dec `{EqDecision T} : EqDecision (DataDeltaUndo T).
Proof. solve_decision. Defined.
#[global] Instance PoSAccountingUndo_eq_dec `{CryptoTypes} : EqDecision PoS.PoSAccountingUndo.
Proof. solve_decision. Defined.
#[global] Instance TokenAccountingUndo_eq_dec `{CryptoTypes} : EqDecision Tokens.TokenAccountingUndo.
Proof. solve_decision. Defined.
#[global] Instance OrdersAccountingUndo_eq_dec `{CryptoTypes} : EqDecision Orders.OrdersAccountingUndo.
Proof. solve_decision. Defined.

(** ** What a verifier reads from below *)

Class TransactionVerifierStorageRef `{CryptoTypes} (S : Type) := {
  storage_error : Type;
  get_token_id_from_issuance_tx : S -> TxId -> result storage_error (option TokenId);
  get_gen_block_index : S -> BlockId -> result storage_error (option GenBlockIndex);
  get_undo_data : S -> TransactionSource -> result storage_error (option UtxosUndo.CachedUtxosBlockUndo);
  get_token_aux_data : S -> TokenId -> result storage_error (option TokenAuxiliaryData);
  get_pos_accounting_undo : S -> TransactionSource ->
    result storage_error (option (AccountingUndo.CachedBlockUndo PoS.PoSAccountingUndo));
  get_tokens_accounting_undo : S -> TransactionSource ->
    result storage_error (option (AccountingUndo.CachedBlockUndo Tokens.TokenAccountingUndo));
  get_account_nonce_count : S -> AccountType -> result storage_error (option AccountNonce);
  get_orders_accounting_undo : S -> TransactionSource ->
    result storage_error (option (AccountingUndo.CachedBlockUndo Orders.OrdersAccountingUndo));
  get_best_block_for_utxos : S -> result storage_error BlockId
}.

(** ** The state *)

Record TransactionVerifier `{CryptoTypes} (S U A T O : Type) := mk_verifier {
  chain_config : ChainConfig;
  storage : S;
  best_block : BlockId;
  token_issuance_cache : TokenIssuanceCache;
  utxo_cache : UtxosCache U;
  utxo_block_undo : UtxosUndo.UtxosBlockUndoCache;
  pos_accounting_adapter : PoSAccountingDeltaAdapter A;
  pos_accounting_block_undo : AccountingUndo.AccountingBlockUndoCache PoS.PoSAccountingUndo;
  tokens_accounting_cache : Tokens.TokensAccountingCache T;
  tokens_accounting_block_undo : AccountingUndo.AccountingBlockUndoCache Tokens.TokenAccountingUndo;
  orders_accounting_cache : Orders.OrdersAccountingCache O;
  orders_accounting_block_undo : AccountingUndo.AccountingBlockUndoCache Orders.OrdersAccountingUndo;
  account_nonce : gmap AccountType (CachedOperation AccountNonce)
}.
Arguments mk_verifier {_ _ _ _ _ _} _ _ _ _ _ _ _ _ _ _ _ _ _.
Arguments chain_config {_ _ _ _ _ _} _.
Arguments storage {_ _ _ _ _ _} _.
Arguments best_block {_ _ _ _ _ _} _.
Arguments token_issuance_cache {_ _ _ _ _ _} _.
Arguments utxo_cache {_ _ _ _ _ _} _.
Arguments utxo_block_undo {_ _ _ _ _ _} _.
Arguments pos_accounting_adapter {_ _ _ _ _ _} _.
Arguments pos_accounting_block_undo {_ _ _ _ _ _} _.
Arguments tokens_accounting_cache {_ _ _ _ _ _} _.
Arguments tokens_accounting_block_undo {_ _ _ _ _ _} _.
Arguments orders_accounting_cache {_ _ _ _ _ _} _.
Arguments orders_accounting_block_undo {_ _ _ _ _ _} _.
Arguments account_nonce {_ _ _ _ _ _} _.

Section fields.
Context `{CryptoTypes} {S U A T O : Type}.
Abbreviation V := (TransactionVerifier S U A T O).
Implicit Types (v : V).

Definition with_issuance x v : V := mk_verifier (chain_config v) (storage v) (best_block v) x
  (utxo_cache v) (utxo_block_undo v) (pos_accounting_adapter v) (pos_accounting_block_undo v)
  (tokens_accounting_cache v) (tokens_accounting_block_undo v) (orders_accounting_cache v)
  (orders_accounting_block_undo v) (account_nonce v).
Definition with_utxo_cache x v : V := mk_verifier (chain_config v) (storage v) (best_block v)
  (token_issuance_cache v) x (utxo_block_undo v) (pos_accounting_adapter v) (pos_accounting_block_undo v)
  (tokens_accounting_cache v) (tokens_accounting_block_undo v) (orders_accounting_cache v)
  (orders_accounting_block_undo v) (account_nonce v).
Definition with_utxo_undo x v : V := mk_verifier (chain_config v) (storage v) (best_block v)
  (token_issuance_cache v) (utxo_cache v) x (pos_accounting_adapter v) (pos_accounting_block_undo v)
  (tokens_accounting_cache v) (tokens_accounting_block_undo v) (orders_accounting_cache v)
  (orders_accounting_block_undo v) (account_nonce v).
Definition with_adapter x v : V := mk_verifier (chain_config v) (storage v) (best_block v)
  (token_issuance_cache v) (utxo_cache v) (utxo_block_undo v) x (pos_accounting_block_undo v)
  (tokens_accounting_cache v) (tokens_accounting_block_undo v) (orders_accounting_cache v)
  (orders_accounting_block_undo v) (account_nonce v).
Definition with_pos_undo x v : V := mk_verifier (chain_config v) (storage v) (best_block v)
  (token_issuance_cache v) (utxo_cache v) (utxo_block_undo v) (pos_accounting_adapter v) x
  (tokens_accounting_cache v) (tokens_accounting_block_undo v) (orders_accounting_cache v)
  (orders_accounting_block_undo v) (account_nonce v).
Definition with_tokens x v : V := mk_verifier (chain_config v) (storage v) (best_block v)
  (token_issuance_cache v) (utxo_cache v) (utxo_block_undo v) (pos_accounting_adapter v)
  (pos_accounting_block_undo v) x (tokens_accounting_block_undo v) (orders_accounting_cache v)
  (orders_accounting_block_undo v) (account_nonce v).
Definition with_tokens_undo x v : V := mk_verifier (chain_config v) (storage v) (best_block v)
  (token_issuance_cache v) (utxo_cache v) (utxo_block_undo v) (pos_accounting_adapter v)
  (pos_accounting_block_undo v) (tokens_accounting_cache v) x (orders_accounting_cache v)
  (orders_accounting_block_undo v) (account_nonce v).
Definition with_orders x v : V := mk_verifier (chain_config v) (storage v) (best_block v)
  (token_issuance_cache v) (utxo_cache v) (utxo_block_undo v) (pos_accounting_adapter v)
  (pos_accounting_block_undo v) (tokens_accounting_cache v) (tokens_accounting_block_undo v) x
  (orders_accounting_block_undo v) (account_nonce v).
Definition with_orders_undo x v : V := mk_verifier (chain_config v) (storage v) (best_block v)
  (token_issuance_cache v) (utxo_cache v) (utxo_block_undo v) (pos_accounting_adapter v)
  (pos_accounting_block_undo v) (tokens_accounting_cache v) (tokens_accounting_block_undo v)
  (orders_accounting_cache v) x (account_nonce v).
Definition with_nonces x v : V := mk_verifier (chain_config v) (storage v) (best_block v)
  (token_issuance_cache v) (utxo_cache v) (utxo_block_undo v) (pos_accounting_adapter v)
  (pos_accounting_block_undo v) (tokens_accounting_cache v) (tokens_accounting_block_undo v)
  (orders_accounting_cache v) (orders_accounting_block_undo v) x.

(** The methods of the components, with the conversion of their errors. *)
Abbreviation M := (ST V ConnectTransactionError).
Definition in_issuance {B} (m : ST TokenIssuanceCache ConnectTransactionError B) : M B :=
  zoom token_issuance_cache with_issuance (fun e => e) m.
Definition in_utxos {B} (m : ST (UtxosCache U) Utxo.Error B) : M B := zoom utxo_cache with_utxo_cache UtxoError m.
Definition in_utxo_undo {B} (m : ST UtxosUndo.UtxosBlockUndoCache ConnectTransactionError B) : M B :=
  zoom utxo_block_undo with_utxo_undo (fun e => e) m.
Definition in_adapter {B} (m : ST (PoSAccountingDeltaAdapter A) PoS.Error B) : M B :=
  zoom pos_accounting_adapter with_adapter PoSAccountingError m.
Definition in_pos_undo {B} (m : ST (AccountingUndo.AccountingBlockUndoCache PoS.PoSAccountingUndo) ConnectTransactionError B) : M B :=
  zoom pos_accounting_block_undo with_pos_undo (fun e => e) m.
Definition in_tokens {B} (m : ST (Tokens.TokensAccountingCache T) Tokens.Error B) : M B :=
  zoom tokens_accounting_cache with_tokens TokensAccountingError m.
Definition in_tokens_undo {B} (m : ST (AccountingUndo.AccountingBlockUndoCache Tokens.TokenAccountingUndo) ConnectTransactionError B) : M B :=
  zoom tokens_accounting_block_undo with_tokens_undo (fun e => e) m.
Definition in_orders {B} (m : ST (Orders.OrdersAccountingCache O) Orders.Error B) : M B :=
  zoom orders_accounting_cache with_orders OrdersAccountingError m.
Definition in_orders_undo {B} (m : ST (AccountingUndo.AccountingBlockUndoCache Orders.OrdersAccountingUndo) ConnectTransactionError B) : M B :=
  zoom orders_accounting_block_undo with_orders_undo (fun e => e) m.
Definition set_nonce (account : AccountType) (op : CachedOperation AccountNonce) : M unit :=
  modify (fun v => with_nonces (<[account:=op]> (account_nonce v)) v).
End fields.

(** The checks of signatures, scripts and timelocks of the inputs, of a
    transaction and of a block reward. *)
Class InputChecks `{CryptoTypes} (V : Type) := {
  verify_inputs : V -> SignedTransaction -> TransactionSourceForConnect -> BlockTimestamp -> BlockHeight ->
    result ConnectTransactionError unit;
  verify_reward_inputs : V -> BlockRewardTransactable -> TransactionSourceForConnect -> BlockTimestamp ->
    BlockHeight -> result ConnectTransactionError unit
}.

Section verifier.
Context `{CryptoTypes} `{!TxHash} `{!IdHashes} `{!TxParameters}.
Context {S U A T O : Type} `{!TransactionVerifierStorageRef S} `{!UtxosView U}
  `{!PoS.PoSAccountingView A} `{!Tokens.TokensAccountingView T} `{!Orders.OrdersAccountingView O}.
Abbreviation V := (TransactionVerifier S U A T O).
Abbreviation M := (ST V ConnectTransactionError).
Implicit Types (v : V) (tx_source : TransactionSourceForConnect) (src : TransactionSource).

(** [new_generic]. *)
Definition TransactionVerifier_new (s : S) (config : ChainConfig) (utxos : U) (accounting : A) (tokens : T)
    (orders : O) : result Empty_set V :=
  best ← match get_best_block_for_utxos s with Ok b => Ok b | _ => Panic end;
  cache ← match UtxosCache_new utxos with Ok c => Ok c | _ => Panic end;
  Ok (mk_verifier config s best TokenIssuanceCache_new cache ∅ (PoSAccountingDeltaAdapter_new accounting) ∅
        (Tokens.TokensAccountingCache_new tokens) ∅ (Orders.OrdersAccountingCache_new orders) ∅ ∅).

(** ** Nonces *)

Definition nonce_count v (account : AccountType) : result storage_error (option AccountNonce) :=
  match account_nonce v !! account with
  | Some op => Ok (get op)
  | None => get_account_nonce_count (storage v) account
  end.

Definition spend_input_from_account (nonce : AccountNonce) (account : AccountType) : M unit :=
  count ← gets (fun v => map_err (fun _ => TxVerifierStorage) (nonce_count v account));
  expected_nonce ← lift match count with
                        | Some nonce => ok_or FailedToIncrementAccountNonce (AccountNonce_increment nonce)
                        | None => Ok (@mk_bint 0 (2 ^ 64 - 1) 0 eq_refl)
                        end;
  _ ← lift (ensure (bool_decide (expected_nonce = nonce)) (NonceIsNotIncremental account expected_nonce nonce));
  set_nonce account (Write nonce).

Definition unspend_input_from_account (account : AccountType) : M unit :=
  count ← gets (fun v => map_err (fun _ => TxVerifierStorage) (nonce_count v account));
  nonce ← lift (ok_or (MissingTransactionNonce account) count);
  set_nonce account match AccountNonce_decrement nonce with Some nonce => Write nonce | None => Erase end.

(** ** Pools and delegations *)

Definition pos_exec src (op : PoS.PoSOp) : M PoS.PoSAccountingUndo := in_adapter (adapter_exec src op).

Definition spend_input_from_utxo src (input_outpoint : UtxoOutPoint) : M (option PoS.PoSAccountingUndo) :=
  input_utxo ← gets (fun v => map_err (fun _ => UtxoError ViewRead) (utxo (utxo_cache v) input_outpoint));
  input_utxo ← lift (ok_or (MissingOutputOrSpent input_outpoint) input_utxo);
  match output input_utxo with
  | CreateStakePool pool_id _ | ProduceBlockFromStake _ pool_id =>
      undo ← pos_exec src (PoS.OpDecommission pool_id); mret (Some undo)
  | DelegateStaking _ _ | CreateDelegationId _ _ | Transfer _ _ | LockThenTransfer _ _ _ | Burn _
  | IssueFungibleToken _ | IssueNft _ _ _ | DataDeposit _ | Htlc _ _ | CreateOrder _ => mret None
  end.

Definition pos_input src (input : TxInput) : M (option PoS.PoSAccountingUndo) :=
  match input with
  | InputUtxo outpoint => spend_input_from_utxo src outpoint
  | InputAccount outpoint =>
      match ao_account outpoint with
      | DelegationBalance delegation_id withdraw_amount =>
          _ ← spend_input_from_account (ao_nonce outpoint) (AccountType_of_spending (ao_account outpoint));
          undo ← pos_exec src (PoS.OpSpend delegation_id withdraw_amount);
          mret (Some undo)
      end
  | InputAccountCommand _ _ | InputOrderAccountCommand _ => mret None
  end.

Definition pos_output src (tx : Transaction) (output : TxOutput) : M (option PoS.PoSAccountingUndo) :=
  match output with
  | CreateStakePool pool_id data =>
      expected_pool_id ← lift (map_err IdCreationError (make_pool_id (inputs tx)));
      _ ← lift (ensure (bool_decide (expected_pool_id = pool_id)) (UnexpectedPoolId pool_id expected_pool_id));
      v ← self;
      let min_pledge := min_stake_pool_pledge (chain_config v) in
      _ ← lift (ensure (Amount.leb min_pledge (sp_pledge data))
            (NotEnoughPledgeToCreateStakePool (get_id tx) (sp_pledge data) min_pledge));
      undo ← pos_exec src (PoS.OpCreatePool pool_id (PoS.from_stake_pool_data data));
      mret (Some undo)
  | CreateDelegationId spend_destination target_pool =>
      delegation_id ← lift (map_err IdCreationError (make_delegation_id (inputs tx)));
      undo ← pos_exec src (PoS.OpCreateDelegation target_pool delegation_id spend_destination);
      mret (Some undo)
  | DelegateStaking amount delegation_id =>
      undo ← pos_exec src (PoS.OpDelegate delegation_id amount); mret (Some undo)
  | Transfer _ _ | LockThenTransfer _ _ _ | Burn _ | ProduceBlockFromStake _ _ | IssueFungibleToken _
  | IssueNft _ _ _ | DataDeposit _ | Htlc _ _ | CreateOrder _ => mret None
  end.

(** The delegations that the inputs spend from, in the order of their ids. *)
Definition delegations_with_spendings (ins : list TxInput) : list DelegationId :=
  (btree_iter (gset_to_gmap tt (list_to_set (omap (fun input =>
     match input with
     | InputAccount outpoint => match ao_account outpoint with DelegationBalance id _ => Some id end
     | _ => None
     end) ins) : gset DelegationId))).*1.

(** The balance of every one of them is read once all is applied. *)
Definition read_balance (delegation_id : DelegationId) : M unit :=
  _ ← gets (fun v => map_err PoSAccountingError
        (PoS.cache_get_delegation_balance (accounting_delta (pos_accounting_adapter v)) delegation_id));
  mret tt.

Definition connect_pos_accounting_outputs tx_source (tx : Transaction) : M unit :=
  let src := source_of tx_source in
  inputs_undos ← try_filter_map (pos_input src) (inputs tx);
  outputs_undos ← try_filter_map (pos_output src tx) (outputs tx);
  _ ← try_for_each read_balance (delegations_with_spendings (inputs tx));
  match inputs_undos ++ outputs_undos with
  | [] => mret tt
  | undos => in_pos_undo (AccountingUndo.add_tx_undo src (get_id tx) undos)
  end.

(** Undo records are applied from the latest on. *)
Definition disconnect_pos_accounting_outputs src (tx : Transaction) : M unit :=
  v ← self;
  undos ← in_pos_undo (AccountingUndo.take_tx_undo_of src (get_id tx) (fun src =>
    map_err (fun _ => TxVerifierStorage) (get_pos_accounting_undo (storage v) src)));
  match undos with
  | Some undos => try_for_each (fun undo => in_adapter (adapter_undo src undo)) (reverse undos)
  | None => mret tt
  end.

(** ** Tokens *)

Definition check_not_frozen v (token_id : TokenId) : result ConnectTransactionError unit :=
  token_data ← map_err TokensAccountingError (Tokens.cache_get_token_data (tokens_accounting_cache v) token_id);
  match token_data with
  | Some (Tokens.FungibleToken data) =>
      ensure (negb (Tokens.is_frozen data)) (AttemptToSpendFrozenToken token_id)
  | None => Ok tt
  end.

Definition check_value_not_frozen v (value : OutputValue) : result ConnectTransactionError unit :=
  match value with
  | Coin _ | TokenV0 _ => Ok tt
  | TokenV1 token_id _ => check_not_frozen v token_id
  end.

Definition check_tx_output v (output : TxOutput) : result ConnectTransactionError unit :=
  match output with
  | Transfer output_value _ | Burn output_value | LockThenTransfer output_value _ _ | Htlc output_value _ =>
      check_value_not_frozen v output_value
  | CreateOrder data => check_each (check_value_not_frozen v) [co_ask data; co_give data]
  | CreateStakePool _ _ | ProduceBlockFromStake _ _ | CreateDelegationId _ _ | DelegateStaking _ _
  | IssueFungibleToken _ | IssueNft _ _ _ | DataDeposit _ => Ok tt
  end.

Definition check_order_doesnt_use_frozen_token v (order_id : OrderId) : result ConnectTransactionError unit :=
  order_data ← map_err OrdersAccountingError
    (Orders.cache_get_order_data (orders_accounting_cache v) order_id);
  order_data ← ok_or (OrdersAccountingError (Orders.OrderDataNotFound order_id)) order_data;
  check_each (check_value_not_frozen v) [Orders.ask order_data; Orders.give order_data].

Definition check_input_not_frozen v (block_height : BlockHeight) (input : TxInput) :
    result ConnectTransactionError unit :=
  match input with
  | InputUtxo utxo_outpoint =>
      u ← map_err (fun _ => TxVerifierStorage) (utxo (utxo_cache v) utxo_outpoint);
      u ← ok_or (MissingOutputOrSpent utxo_outpoint) u;
      upgrade ← chainstate_upgrade_at (chain_config v) block_height;
      match frozen_tokens_validation_version upgrade with
      | FrozenTokensValidationVersion.V0 => Ok tt
      | FrozenTokensValidationVersion.V1 => check_tx_output v (output u)
      end
  | InputAccount account_outpoint =>
      match ao_account account_outpoint with DelegationBalance _ _ => Ok tt end
  | InputAccountCommand _ account_command =>
      match account_command with
      | AccountCommand.MintTokens id _ | AccountCommand.UnmintTokens id | AccountCommand.LockTokenSupply id
      | AccountCommand.FreezeToken id _ | AccountCommand.ChangeTokenAuthority id _
      | AccountCommand.ChangeTokenMetadataUri id _ => check_not_frozen v id
      | AccountCommand.UnfreezeToken _ => Ok tt
      | AccountCommand.ConcludeOrder order_id | AccountCommand.FillOrder order_id _ _ =>
          check_order_doesnt_use_frozen_token v order_id
      end
  | InputOrderAccountCommand cmd =>
      match cmd with
      | OrderAccountCommand.FillOrder order_id _ | OrderAccountCommand.ConcludeOrder order_id =>
          check_order_doesnt_use_frozen_token v order_id
      | OrderAccountCommand.FreezeOrder _ => Ok tt
      end
  end.

Definition check_operations_with_frozen_tokens v (tx : Transaction) (block_height : BlockHeight) :
    result ConnectTransactionError unit :=
  _ ← check_each (check_input_not_frozen v block_height) (inputs tx);
  check_each (check_tx_output v) (outputs tx).

Definition tokens_exec (op : Tokens.TokenOp) : M (option Tokens.TokenAccountingUndo) :=
  undo ← in_tokens (Tokens.exec_op op); mret (Some undo).

(** The nonce is spent before the operation; an unmint that burns nothing
    spends the nonce only. *)
Definition tokens_input (tx : Transaction) (input : TxInput) : M (option Tokens.TokenAccountingUndo) :=
  match input with
  | InputUtxo _ | InputAccount _ | InputOrderAccountCommand _ => mret None
  | InputAccountCommand nonce account_op =>
      let spend := spend_input_from_account nonce (AccountType_of_command account_op) in
      match account_op with
      | AccountCommand.MintTokens token_id amount => _ ← spend; tokens_exec (Tokens.OpMint token_id amount)
      | AccountCommand.UnmintTokens token_id =>
          _ ← spend;
          total_burned ← lift (calculate_tokens_burned_in_outputs tx token_id);
          if Amount.ltb Amount.ZERO total_burned then tokens_exec (Tokens.OpUnmint token_id total_burned)
          else mret None
      | AccountCommand.LockTokenSupply token_id => _ ← spend; tokens_exec (Tokens.OpLock token_id)
      | AccountCommand.FreezeToken token_id is_unfreezable =>
          _ ← spend; tokens_exec (Tokens.OpFreeze token_id is_unfreezable)
      | AccountCommand.UnfreezeToken token_id => _ ← spend; tokens_exec (Tokens.OpUnfreeze token_id)
      | AccountCommand.ChangeTokenAuthority token_id new_authority =>
          _ ← spend; tokens_exec (Tokens.OpChangeAuthority token_id new_authority)
      | AccountCommand.ChangeTokenMetadataUri token_id new_metadata_uri =>
          _ ← spend; tokens_exec (Tokens.OpChangeMetadataUri token_id new_metadata_uri)
      | AccountCommand.ConcludeOrder _ | AccountCommand.FillOrder _ _ _ => mret None
      end
  end.

Definition tokens_output tx_source (tx : Transaction) (output : TxOutput) : M (option Tokens.TokenAccountingUndo) :=
  match output with
  | Transfer _ _ | Burn _ | CreateStakePool _ _ | ProduceBlockFromStake _ _ | CreateDelegationId _ _
  | DelegateStaking _ _ | LockThenTransfer _ _ _ | IssueNft _ _ _ | DataDeposit _ | Htlc _ _
  | CreateOrder _ => mret None
  | IssueFungibleToken issuance_data =>
      v ← self;
      token_id ← lift (map_err IdCreationError
        (make_token_id (chain_config v) (expected_block_height tx_source) (inputs tx)));
      tokens_exec (Tokens.OpIssue token_id issuance_data)
  end.

Definition connect_tokens_outputs tx_source (tx : Transaction) : M unit :=
  _ ← gets (fun v => check_operations_with_frozen_tokens v tx (expected_block_height tx_source));
  input_undos ← try_filter_map (tokens_input tx) (inputs tx);
  output_undos ← try_filter_map (tokens_output tx_source tx) (outputs tx);
  match input_undos ++ output_undos with
  | [] => mret tt
  | undos => in_tokens_undo (AccountingUndo.add_tx_undo (source_of tx_source) (get_id tx) undos)
  end.

Definition disconnect_tokens_accounting_outputs src (tx : Transaction) : M unit :=
  v ← self;
  undos ← in_tokens_undo (AccountingUndo.take_tx_undo_of src (get_id tx) (fun src =>
    map_err (fun _ => TxVerifierStorage) (get_tokens_accounting_undo (storage v) src)));
  match undos with
  | Some undos => try_for_each (fun undo => in_tokens (Tokens.undo undo)) (reverse undos)
  | None => mret tt
  end.

(** ** Orders *)

Definition orders_exec (op : Orders.OrderOp) : M (option Orders.OrdersAccountingUndo) :=
  undo ← in_orders (Orders.exec_op op); mret (Some undo).

Definition orders_input (input : TxInput) : M (option Orders.OrdersAccountingUndo) :=
  match input with
  | InputUtxo _ | InputAccount _ => mret None
  | InputAccountCommand nonce account_op =>
      match account_op with
      | AccountCommand.MintTokens _ _ | AccountCommand.UnmintTokens _ | AccountCommand.LockTokenSupply _
      | AccountCommand.FreezeToken _ _ | AccountCommand.UnfreezeToken _
      | AccountCommand.ChangeTokenAuthority _ _ | AccountCommand.ChangeTokenMetadataUri _ _ => mret None
      | AccountCommand.ConcludeOrder order_id =>
          _ ← spend_input_from_account nonce (AccountType_of_command account_op);
          orders_exec (Orders.OpConclude order_id)
      | AccountCommand.FillOrder order_id fill _ =>
          _ ← spend_input_from_account nonce (AccountType_of_command account_op);
          orders_exec (Orders.OpFill order_id fill V0)
      end
  | InputOrderAccountCommand cmd =>
      match cmd with
      | OrderAccountCommand.FillOrder order_id fill => orders_exec (Orders.OpFill order_id fill V1)
      | OrderAccountCommand.ConcludeOrder order_id => orders_exec (Orders.OpConclude order_id)
      | OrderAccountCommand.FreezeOrder order_id => orders_exec (Orders.OpFreeze order_id)
      end
  end.

Definition orders_output (tx : Transaction) (output : TxOutput) : M (option Orders.OrdersAccountingUndo) :=
  match output with
  | Transfer _ _ | Burn _ | CreateStakePool _ _ | ProduceBlockFromStake _ _ | CreateDelegationId _ _
  | DelegateStaking _ _ | LockThenTransfer _ _ _ | IssueNft _ _ _ | DataDeposit _ | IssueFungibleToken _
  | Htlc _ _ => mret None
  | CreateOrder order_data =>
      order_id ← lift (map_err IdCreationError (make_order_id (inputs tx)));
      orders_exec (Orders.OpCreate order_id order_data)
  end.

Definition connect_orders_outputs tx_source (tx : Transaction) : M unit :=
  input_undos ← try_filter_map orders_input (inputs tx);
  output_undos ← try_filter_map (orders_output tx) (outputs tx);
  match input_undos ++ output_undos with
  | [] => mret tt
  | undos => in_orders_undo (AccountingUndo.add_tx_undo (source_of tx_source) (get_id tx) undos)
  end.

Definition disconnect_orders_accounting_outputs src (tx : Transaction) : M unit :=
  v ← self;
  undos ← in_orders_undo (AccountingUndo.take_tx_undo_of src (get_id tx) (fun src =>
    map_err (fun _ => TxVerifierStorage) (get_orders_accounting_undo (storage v) src)));
  match undos with
  | Some undos => try_for_each (fun undo => in_orders (Orders.undo undo)) (reverse undos)
  | None => mret tt
  end.

Definition unspend_input (input : TxInput) : M unit :=
  match input with
  | InputUtxo _ | InputOrderAccountCommand _ => mret tt
  | InputAccount outpoint => unspend_input_from_account (AccountType_of_spending (ao_account outpoint))
  | InputAccountCommand _ cmd => unspend_input_from_account (AccountType_of_command cmd)
  end.

Definition disconnect_accounting_outputs src (tx : Transaction) : M unit :=
  _ ← try_for_each unspend_input (inputs tx);
  _ ← disconnect_pos_accounting_outputs src tx;
  _ ← disconnect_tokens_accounting_outputs src tx;
  disconnect_orders_accounting_outputs src tx.

(** ** Transactions *)

Definition issuance_getter v (id : TokenId) : result ConnectTransactionError (option TokenAuxiliaryData) :=
  map_err (fun _ => TxVerifierStorage) (get_token_aux_data (storage v) id).
Definition undo_fetcher v src : result ConnectTransactionError (option UtxosUndo.CachedUtxosBlockUndo) :=
  map_err (fun _ => UndoFetchFailure) (get_undo_data (storage v) src).

Definition connect_transaction `{!InputChecks V} tx_source (tx : SignedTransaction)
    (median_time_past : BlockTimestamp) : M Constraints.AccumulatedFee :=
  let height := expected_block_height tx_source in
  let t := transaction tx in
  v ← self;
  _ ← lift (map_err CheckTransactionError (check_transaction (chain_config v) height tx));
  let block_id := bi_block_id <$> chain_block_index tx_source in
  _ ← in_issuance (register (chain_config v) height block_id t (issuance_getter v));
  fee ← gets (fun v => check_tx_inputs_outputs_policy t (chain_config v) height (orders_accounting_cache v)
          (accounting_delta (pos_accounting_adapter v)) (tokens_accounting_cache v) (utxo_cache v));
  _ ← gets (fun v => verify_inputs v tx tx_source median_time_past height);
  _ ← connect_pos_accounting_outputs tx_source t;
  _ ← connect_tokens_outputs tx_source t;
  _ ← connect_orders_outputs tx_source t;
  tx_undo ← in_utxos (Utxo.connect_transaction t (to_utxo_source tx_source));
  _ ← in_utxo_undo (UtxosUndo.add_tx_undo (source_of tx_source) (get_id t) tx_undo);
  mret fee.

Definition disconnect_transaction src (tx : SignedTransaction) : M unit :=
  let t := transaction tx in
  v ← self;
  tx_undo ← in_utxo_undo (UtxosUndo.take_tx_undo_of src (get_id t) (undo_fetcher v));
  _ ← disconnect_accounting_outputs src t;
  _ ← in_utxos (Utxo.disconnect_transaction t tx_undo);
  v ← self;
  in_issuance (unregister t (issuance_getter v)).

Definition can_disconnect_transaction v src (tx_id : TxId) : result ConnectTransactionError bool :=
  match src with
  | TransactionSource.Chain block_id =>
      current ← map_err (fun _ => StorageError) (get_gen_block_index (storage v) block_id);
      current ← ok_or (BlockIndexCouldNotBeLoaded block_id) current;
      best ← map_err (fun _ => StorageError) (get_gen_block_index (storage v) (best_block v));
      best ← ok_or (BlockIndexCouldNotBeLoaded (best_block v)) best;
      if ival (gen_block_height current) <? ival (gen_block_height best) then Ok false
      else UtxosUndo.can_disconnect_transaction (utxo_block_undo v) src tx_id (undo_fetcher v)
  | TransactionSource.Mempool =>
      UtxosUndo.can_disconnect_transaction (utxo_block_undo v) src tx_id (undo_fetcher v)
  end.

(** ** Block rewards *)

Definition connect_block_reward `{!InputChecks V} (block_index : BlockIndex) (reward : BlockRewardTransactable)
    (total_fees : Amount) (median_time_past : BlockTimestamp) : M unit :=
  let block_height := bi_block_height block_index in
  let block_id := bi_block_id block_index in
  _ ← match t_inputs reward with
      | Some _ => gets (fun v => verify_reward_inputs v reward (for_chain block_index) median_time_past block_height)
      | None => mret tt
      end;
  reward_undo ← in_utxos (connect_block_transactable reward block_id block_height);
  _ ← match reward_undo with
      | Some reward_undo =>
          in_utxo_undo (UtxosUndo.add_reward_undo (TransactionSource.Chain block_id) reward_undo)
      | None => mret tt
      end;
  match bi_consensus_data block_index with
  | ConsensusNone | ConsensusPoW _ => mret tt
  | ConsensusPoS pos_data =>
      v ← self;
      block_subsidy ← lift (block_subsidy_at_height (chain_config v) block_height);
      total_reward ← lift (ok_or (RewardAdditionError block_id) (Amount.add block_subsidy total_fees));
      upgrade ← lift (chainstate_upgrade_at (chain_config v) block_height);
      undos ← zoom pos_accounting_adapter with_adapter RewardDistributionError
        (@RewardDistribution.distribute_pos_reward _ _ (operations (TransactionSource.Chain block_id))
           block_id (stake_pool_id pos_data) total_reward (reward_distribution_version upgrade));
      in_pos_undo (AccountingUndo.add_reward_undo (TransactionSource.Chain block_id) undos)
  end.

(** The undo records of the reward are applied in the order they were made. *)
Definition disconnect_block_reward (block_id : BlockId) (reward : BlockRewardTransactable)
    (consensus_data : ConsensusData) : M unit :=
  let src := TransactionSource.Chain block_id in
  v ← self;
  reward_undo ← in_utxo_undo (UtxosUndo.take_block_reward_undo_of src (undo_fetcher v));
  _ ← in_utxos (disconnect_block_transactable reward block_id reward_undo);
  match consensus_data with
  | ConsensusNone | ConsensusPoW _ => mret tt
  | ConsensusPoS _ =>
      reward_undo ← in_pos_undo (AccountingUndo.take_block_reward_undo_of src (fun src =>
        map_err (fun _ => TxVerifierStorage) (get_pos_accounting_undo (storage v) src)));
      match reward_undo with
      | Some reward_undo => try_for_each (fun undo => in_adapter (adapter_undo src undo)) reward_undo
      | None => mret tt
      end
  end.

Definition check_block_reward v (block_id : BlockId) (reward : BlockRewardTransactable)
    (consensus_data : ConsensusData) (total_fees : Amount) (block_height : BlockHeight) :
    result ConnectTransactionError unit :=
  check_reward_inputs_outputs_policy (chain_config v) (utxo_cache v) reward block_id block_height
    consensus_data total_fees.

Definition set_best_block (id : BlockId) : M unit := in_utxos (Utxo.set_best_block id).

(** ** Blocks ([default_strategy.rs]) *)

(** A block; [reward] are the outputs of its reward.  Its id is the hash of
    the header. *)
Record Block := mk_block {
  block_header : SignedBlockHeader;
  reward : list TxOutput;
  transactions : list SignedTransaction
}.

Definition block_get_id `{!BlockHashes} (b : Block) : BlockId := header_id (block_header b).
Definition prev_block_id (b : Block) : BlockId := hdr_prev_block_id (block_header b).
Definition block_consensus_data (b : Block) : ConsensusData := hdr_consensus_data (block_header b).

Definition block_reward_transactable (b : Block) : BlockRewardTransactable :=
  mk_transactable
    match block_consensus_data b with
    | ConsensusNone | ConsensusPoW _ => None
    | ConsensusPoS data => Some (kernel_inputs data)
    end
    (Some (reward b)).

Fixpoint connect_transactions `{!InputChecks V} (block_index : BlockIndex) (block_id : BlockId)
    (median_time_past : BlockTimestamp) (total : Constraints.AccumulatedFee) (txs : list SignedTransaction) :
    M Constraints.AccumulatedFee :=
  match txs with
  | [] => mret total
  | tx :: txs =>
      fee ← connect_transaction (SourceChain block_index) tx median_time_past;
      total ← lift match Constraints.combine total fee with
                   | Ok total => Ok total
                   | Err _ => Err (FailedToAddAllFeesOfBlock block_id)
                   | Panic => Panic
                   end;
      connect_transactions block_index block_id median_time_past total txs
  end.

Definition connect_block `{!InputChecks V} `{!BlockHashes} (block_index : BlockIndex) (b : Block)
    (median_time_past : BlockTimestamp) : M unit :=
  total_fees ← connect_transactions block_index (block_get_id b) median_time_past
    Constraints.AccumulatedFee_new (transactions b);
  v ← self;
  total_fees ← lift (map_err (fun e => ConstrainedValueAccumulatorError e (SourceBlockReward (block_get_id b)))
    (Constraints.map_into_block_fees (chain_config v) (bi_block_height block_index) total_fees));
  _ ← gets (fun v => check_block_reward v (block_get_id b) (block_reward_transactable b)
        (block_consensus_data b) total_fees (bi_block_height block_index));
  _ ← connect_block_reward block_index (block_reward_transactable b) total_fees median_time_past;
  set_best_block (block_get_id b).

Definition disconnect_block `{!BlockHashes} (b : Block) : M unit :=
  _ ← disconnect_block_reward (block_get_id b) (block_reward_transactable b) (block_consensus_data b);
  _ ← try_for_each (disconnect_transaction (TransactionSource.Chain (block_get_id b))) (reverse (transactions b));
  set_best_block (prev_block_id b).
End verifier.
