(* ===== verification/Effects.v ===== *)
(** * What connecting a transaction does to the ledgers

    The state of the chain, as a verifier shows it: the unspent outputs, the
    ledgers of pools, tokens and orders, and the nonces of the accounts.
    Connecting a transaction has exactly the effect of its operations on this
    state; disconnecting it, in any verifier that shows the state it led to and
    holds its undo data, leads back. *)
From S2P Require Import Prelude Amount Accounting ChainTypes ChainConfig BlockTree Utxo TxTypes UndoCache TokenIssuance.
From S2P Require Import PoSInterface PoSAdapter Policy CheckTransaction TxVerifier.
From S2P Require Tokens Orders PoS Constraints.
Import CachedOperation ConnectError.

(** ** Sequences of operations on a ledger *)

Section ops.
Context {Op L E : Type} (spec : Op -> L -> result E L).

Fixpoint run_ops (ops : list Op) (l : L) : result E L :=
  match ops with
  | [] => Ok l
  | op :: ops => l' ← spec op l; run_ops ops l'
  end.

(** Every operation is acceptable for the ledger it is applied to. *)
Fixpoint ops_ok (ok : L -> Op -> Prop) (l : L) (ops : list Op) : Prop :=
  match ops with
  | [] => True
  | op :: ops => ok l op /\ match spec op l with Ok l' => ops_ok ok l' ops | _ => True end
  end.

Lemma run_ops_app ops1 ops2 l l1 l2 :
  run_ops ops1 l = Ok l1 -> run_ops ops2 l1 = Ok l2 -> run_ops (ops1 ++ ops2) l = Ok l2.
Proof.
  revert l. induction ops1 as [|op ops1 IH]; intros l; simpl; [by intros [= ->]|].
  destruct (spec op l); simpl; [apply IH|done|done].
Qed.

Lemma ops_ok_app ok ops1 ops2 l :
  ops_ok ok l (ops1 ++ ops2) <->
  ops_ok ok l ops1 /\ match run_ops ops1 l with Ok l1 => ops_ok ok l1 ops2 | _ => True end.
Proof.
  revert l. induction ops1 as [|op ops1 IH]; intros l; simpl; [naive_solver|].
  destruct (spec op l); simpl; [|naive_solver..]. rewrite IH. naive_solver.
Qed.
End ops.

(** ** Nonces *)

(** The nonce that was used last, -1 if none was. *)
Definition nonce_val (o : option AccountNonce) : Z := match o with Some n => ival n | None => -1 end.

#[global] Instance nonce_val_inj : Inj (=) (=) nonce_val.
Proof.
  intros [m|] [n|]; simpl; intros Heq; [f_equal; by apply bint_eq|pose proof (bint_range m); lia|pose proof (bint_range n); lia|done].
Qed.

(** The nonces that a list of spendings uses of an account, in order. *)
Definition nonces_for (a : AccountType) (l : list (AccountType * AccountNonce)) : list Z :=
  omap (fun e => if decide (e.1 = a) then Some (ival e.2) else None) l.

Lemma nonces_for_cons a x n l :
  nonces_for a ((x, n) :: l) = if decide (x = a) then ival n :: nonces_for a l else nonces_for a l.
Proof. unfold nonces_for. simpl. by case_decide. Qed.

(** From [N] to [N'], every account uses the nonces that come next, without a
    gap and none twice. *)
Definition advances (N : AccountType -> option AccountNonce) l (N' : AccountType -> option AccountNonce) : Prop :=
  forall a, nonces_for a l = seqZ (nonce_val (N a) + 1) (Z.of_nat (length (nonces_for a l))) /\
    nonce_val (N' a) = nonce_val (N a) + Z.of_nat (length (nonces_for a l)).

Lemma advances_nil N : advances N [] N.
Proof. intros a. simpl. split; [done|lia]. Qed.

Lemma advances_one N a n : ival n = nonce_val (N a) + 1 -> advances N [(a, n)] (<[a:=Some n]> N).
Proof.
  intros Hn x. rewrite nonces_for_cons. destruct (decide (a = x)) as [<-|Hne]; simpl.
  - rewrite fn_lookup_insert. simpl. by rewrite Hn.
  - rewrite fn_lookup_insert_ne by done. split; [done|lia].
Qed.

Lemma advances_app N l1 N1 l2 N2 : advances N l1 N1 -> advances N1 l2 N2 -> advances N (l1 ++ l2) N2.
Proof.
  intros H1 H2 a. destruct (H1 a) as [E1 V1], (H2 a) as [E2 V2].
  unfold nonces_for in *. rewrite omap_app, length_app. split; [|lia].
  rewrite Nat2Z.inj_add, seqZ_app by lia. f_equal; [done|]. rewrite E2 at 1. f_equal. lia.
Qed.

(** Only the nonces that each account uses matter. *)
Lemma advances_ext N l l' N' :
  (forall a, nonces_for a l = nonces_for a l') -> advances N l N' -> advances N l' N'.
Proof. intros Heq Hadv a. rewrite <- Heq. apply Hadv. Qed.

(** ** The operations of a transaction *)

Section operations.
Context `{CryptoTypes} `{!TxHash} `{!IdHashes}.
Implicit Types (tx : Transaction) (cfg : ChainConfig) (height : BlockHeight).

(** The nonce that an input uses of its account. *)
Definition input_nonce (i : TxInput) : option (AccountType * AccountNonce) :=
  match i with
  | InputUtxo _ | InputOrderAccountCommand _ => None
  | InputAccount o => Some (AccountType_of_spending (ao_account o), ao_nonce o)
  | InputAccountCommand n cmd => Some (AccountType_of_command cmd, n)
  end.

Definition nonce_if (P : AccountType -> bool) (i : TxInput) : option (AccountType * AccountNonce) :=
  match input_nonce i with Some e => if P e.1 then Some e else None | None => None end.
Definition of_delegation (a : AccountType) : bool := match a with AccountDelegation _ => true | _ => false end.
Definition of_token (a : AccountType) : bool := match a with AccountToken _ => true | _ => false end.
Definition of_order (a : AccountType) : bool := match a with AccountOrder _ => true | _ => false end.

Lemma nonces_if P ins a :
  nonces_for a (omap (nonce_if P) ins) = if P a then nonces_for a (omap input_nonce ins) else [].
Proof.
  unfold nonces_for, nonce_if. induction ins as [|i ins IH]; [by destruct (P a)|].
  unfold omap in *. simpl.
  destruct (input_nonce i) as [[x n]|]; simpl; [|done].
  destruct (P x) eqn:HP; simpl; destruct (decide (x = a)) as [->|Hne]; simpl;
    rewrite IH, ?HP; by destruct (P a).
Qed.

(** Every account is of one of the three kinds. *)
Lemma nonces_by_kind ins a :
  nonces_for a (omap (nonce_if of_delegation) ins ++ omap (nonce_if of_token) ins ++ omap (nonce_if of_order) ins)
  = nonces_for a (omap input_nonce ins).
Proof.
  assert (forall l l', nonces_for a (l ++ l') = nonces_for a l ++ nonces_for a l') as Happ
    by (intros; apply omap_app).
  rewrite !Happ, !nonces_if. destruct a; simpl; by rewrite ?app_nil_r.
Qed.

Definition pos_input_op (U : UtxoSet) (i : TxInput) : option PoS.PoSOp :=
  match i with
  | InputUtxo k =>
      u ← U k;
      match output u with
      | CreateStakePool id _ | ProduceBlockFromStake _ id => Some (PoS.OpDecommission id)
      | _ => None
      end
  | InputAccount o => match ao_account o with DelegationBalance id a => Some (PoS.OpSpend id a) end
  | InputAccountCommand _ _ | InputOrderAccountCommand _ => None
  end.

Definition pos_output_op tx (out : TxOutput) : option PoS.PoSOp :=
  match out with
  | CreateStakePool id d => Some (PoS.OpCreatePool id (PoS.from_stake_pool_data d))
  | CreateDelegationId k pool =>
      match make_delegation_id (inputs tx) with
      | Ok id => Some (PoS.OpCreateDelegation pool id k)
      | _ => None
      end
  | DelegateStaking a id => Some (PoS.OpDelegate id a)
  | _ => None
  end.

Definition tokens_input_op tx (i : TxInput) : option Tokens.TokenOp :=
  match i with
  | InputAccountCommand _ cmd =>
      match cmd with
      | AccountCommand.MintTokens id a => Some (Tokens.OpMint id a)
      | AccountCommand.UnmintTokens id =>
          burned ← Amount.sum (omap (burned_tokens id) (outputs tx));
          if Amount.ltb Amount.ZERO burned then Some (Tokens.OpUnmint id burned) else None
      | AccountCommand.LockTokenSupply id => Some (Tokens.OpLock id)
      | AccountCommand.FreezeToken id u => Some (Tokens.OpFreeze id u)
      | AccountCommand.UnfreezeToken id => Some (Tokens.OpUnfreeze id)
      | AccountCommand.ChangeTokenAuthority id d => Some (Tokens.OpChangeAuthority id d)
      | AccountCommand.ChangeTokenMetadataUri id uri => Some (Tokens.OpChangeMetadataUri id uri)
      | AccountCommand.ConcludeOrder _ | AccountCommand.FillOrder _ _ _ => None
      end
  | _ => None
  end.

Definition tokens_output_op cfg height tx (out : TxOutput) : option Tokens.TokenOp :=
  match out with
  | IssueFungibleToken i =>
      match make_token_id cfg height (inputs tx) with Ok id => Some (Tokens.OpIssue id i) | _ => None end
  | _ => None
  end.

Definition orders_input_op (i : TxInput) : option Orders.OrderOp :=
  match i with
  | InputAccountCommand _ cmd =>
      match cmd with
      | AccountCommand.ConcludeOrder id => Some (Orders.OpConclude id)
      | AccountCommand.FillOrder id a _ => Some (Orders.OpFill id a V0)
      | _ => None
      end
  | InputOrderAccountCommand cmd =>
      Some match cmd with
           | OrderAccountCommand.FillOrder id a => Orders.OpFill id a V1
           | OrderAccountCommand.ConcludeOrder id => Orders.OpConclude id
           | OrderAccountCommand.FreezeOrder id => Orders.OpFreeze id
           end
  | _ => None
  end.

Definition orders_output_op tx (out : TxOutput) : option Orders.OrderOp :=
  match out with
  | CreateOrder d => match make_order_id (inputs tx) with Ok id => Some (Orders.OpCreate id d) | _ => None end
  | _ => None
  end.

Definition pos_ops U tx : list PoS.PoSOp := omap (pos_input_op U) (inputs tx) ++ omap (pos_output_op tx) (outputs tx).
Definition tokens_ops cfg height tx : list Tokens.TokenOp :=
  omap (tokens_input_op tx) (inputs tx) ++ omap (tokens_output_op cfg height tx) (outputs tx).
Definition orders_ops tx : list Orders.OrderOp := omap orders_input_op (inputs tx) ++ omap (orders_output_op tx) (outputs tx).

(** ** The state of the chain *)

Record ChainState := mk_state {
  s_utxos : UtxoSet;
  s_pos : PoS.Ledger;
  s_tokens : Tokens.Ledger;
  s_orders : Orders.Ledger;
  s_nonces : AccountType -> option AccountNonce
}.

Record state_inv (X : ChainState) : Prop := {
  si_pos : exists D, PoS.ledger_inv D (s_pos X);
  si_tokens : Tokens.ledger_inv (s_tokens X);
  si_orders : Orders.ledger_inv (s_orders X)
}.

(** The amounts stay within the range of the ledgers, and a pool that is
    created is new. *)
Definition pos_ok (l : PoS.Ledger) (op : PoS.PoSOp) : Prop := PoS.op_in_range l op /\ PoS.op_fresh l op.
Definition tokens_ok (l : Tokens.Ledger) (op : Tokens.TokenOp) : Prop :=
  forall l', Tokens.spec_op op l = Ok l' -> Tokens.over_limit op l' = false.

Record tx_in_range cfg height tx (X : ChainState) : Prop := {
  tr_pos : ops_ok PoS.spec_op pos_ok (s_pos X) (pos_ops (s_utxos X) tx);
  tr_tokens : ops_ok Tokens.spec_op tokens_ok (s_tokens X) (tokens_ops cfg height tx);
  tr_orders : ops_ok Orders.spec_op (fun _ => Orders.op_in_range) (s_orders X) (orders_ops tx);
  tr_few : few (outputs tx);
  tr_unused : unused (SourceTransaction (get_id tx)) (s_utxos X)
}.

(** What a transaction does to the state. *)
Record tx_effect cfg height (usrc : UtxoSource) tx (X X' : ChainState) : Prop := {
  te_utxos : exists us U1, spend_inputs (inputs tx) (s_utxos X) = Some (us, U1) /\
    s_utxos X' = add_all (included (SourceTransaction (get_id tx)) usrc (outputs tx)) U1;
  te_pos : run_ops PoS.spec_op (pos_ops (s_utxos X) tx) (s_pos X) = Ok (s_pos X');
  te_tokens : run_ops Tokens.spec_op (tokens_ops cfg height tx) (s_tokens X) = Ok (s_tokens X');
  te_orders : run_ops Orders.spec_op (orders_ops tx) (s_orders X) = Ok (s_orders X');
  te_nonces : advances (s_nonces X) (omap input_nonce (inputs tx)) (s_nonces X')
}.
End operations.

Section nonces.
Context `{CryptoTypes} `{!TxHash} `{!IdHashes} `{!TxParameters}.
Context {S U A T O : Type} `{!TransactionVerifierStorageRef S} `{!UtxosView U}
  `{!PoS.PoSAccountingView A} `{!Tokens.TokensAccountingView T} `{!Orders.OrdersAccountingView O}.
Abbreviation V := (TransactionVerifier S U A T O).
Implicit Types (v : V) (src : TransactionSource).

Definition nonces_show v (N : AccountType -> option AccountNonce) : Prop := forall a, nonce_count v a = Ok (N a).

(** Nonces are written, never only read. *)
Definition writes_nonces (N N' : gmap AccountType (CachedOperation AccountNonce)) : Prop :=
  forall a op, N' !! a = Some op -> N !! a = Some op \/ exists n, op = Write n.

Lemma writes_nonces_trans N N1 N2 : writes_nonces N N1 -> writes_nonces N1 N2 -> writes_nonces N N2.
Proof. intros H1' H2' a op Hop. destruct (H2' a op Hop) as [?|?]; [by apply H1'|by right]. Qed.

Lemma nonces_show_set v N a op : nonces_show v N ->
  nonces_show (with_nonces (<[a:=op]> (account_nonce v)) v) (<[a:=get op]> N).
Proof.
  intros Hshow x. specialize (Hshow x). unfold nonce_count in *. simpl. destruct (decide (a = x)) as [<-|Hne].
  - by rewrite lookup_insert_eq, fn_lookup_insert.
  - by rewrite lookup_insert_ne, fn_lookup_insert_ne.
Qed.

Lemma nonces_show_same v w N :
  account_nonce w = account_nonce v -> storage w = storage v -> nonces_show v N -> nonces_show w N.
Proof. unfold nonces_show, nonce_count. by intros -> ->. Qed.
End nonces.

(** The fields of a verifier that is given by an equation [H], which is
    forgotten: what follows does not look into it. *)
Ltac fields H :=
  match type of H with
  | @eq ?W _ _ =>
      let go p := (let E := fresh "E" in pose proof (f_equal p H) as E; simpl in E) in
      go (fun v : W => chain_config v); go (fun v : W => storage v); go (fun v : W => token_issuance_cache v);
      go (fun v : W => utxo_cache v); go (fun v : W => utxo_block_undo v);
      go (fun v : W => pos_accounting_adapter v); go (fun v : W => pos_accounting_block_undo v);
      go (fun v : W => tokens_accounting_cache v); go (fun v : W => tokens_accounting_block_undo v);
      go (fun v : W => orders_accounting_cache v); go (fun v : W => orders_accounting_block_undo v);
      go (fun v : W => account_nonce v); clear H
  end.

Ltac rewrite_fields :=
  repeat match goal with
  | E : ?p ?w = _ |- context [?p ?w] => match type of w with TransactionVerifier _ _ _ _ _ => rewrite E end
  end.
Ltac rewrite_fields_in H :=
  repeat match goal with
  | E : ?p ?w = _ |- _ =>
      match type of w with TransactionVerifier _ _ _ _ _ =>
        match type of H with context [p w] => rewrite E in H end
      end
  end.
Ltac same_nonces := eapply nonces_show_same; [| |eassumption]; simpl; congruence.

Section verifier.
Context `{CryptoTypes} `{!TxHash} `{!IdHashes} `{!TxParameters}.
Context {S U A T O : Type} `{!TransactionVerifierStorageRef S} `{!UtxosView U}
  `{!PoS.PoSAccountingView A} `{!Tokens.TokensAccountingView T} `{!Orders.OrdersAccountingView O}.
Abbreviation V := (TransactionVerifier S U A T O).
Implicit Types (v : V) (src : TransactionSource).

Lemma spend_input_Ok v v' N nonce a u :
  nonces_show v N -> spend_input_from_account nonce a v = (v', Ok u) ->
  v' = with_nonces (<[a:=Write nonce]> (account_nonce v)) v /\ ival nonce = nonce_val (N a) + 1.
Proof.
  intros Hshow Hrun. unfold spend_input_from_account, gets, lift, mbind, st_bind in Hrun. rewrite Hshow in Hrun.
  simpl in Hrun. destruct (N a) as [n|]; simpl in Hrun.
  - destruct (AccountNonce_increment n) as [m|] eqn:Hm; simpl in Hrun; [|done].
    unfold AccountNonce_increment in Hm. apply bint_of_Z_Some in Hm.
    case_bool_decide; [|done]. subst m. injection Hrun as <-. by split.
  - case_bool_decide as Heq; [|done]. subst nonce. injection Hrun as <-. by split.
Qed.

(** The reverse. *)
Lemma unspend_input_Ok v N a : nonces_show v N -> 0 <= nonce_val (N a) ->
  exists op, unspend_input_from_account a v = (with_nonces (<[a:=op]> (account_nonce v)) v, Ok tt) /\
    nonce_val (get op) = nonce_val (N a) - 1.
Proof.
  intros Hshow Hpos. destruct (N a) as [n|] eqn:Hn; simpl in Hpos; [|lia].
  exists match AccountNonce_decrement n with Some m => Write m | None => Erase end. split.
  - unfold unspend_input_from_account, gets, lift, mbind, st_bind. rewrite Hshow, Hn. simpl.
    unfold set_nonce, modify. by destruct (AccountNonce_decrement n).
  - unfold AccountNonce_decrement. destruct (bint_of_Z (ival n - 1)) as [m|] eqn:Hm; simpl.
    + apply bint_of_Z_Some in Hm. done.
    + apply bint_of_Z_None in Hm. pose proof (bint_range n). lia.
Qed.

Definition no_nonce {X} (_ : X) : option (AccountType * AccountNonce) := None.

Lemma omap_no_nonce {X} (l : list X) : omap no_nonce l = [].
Proof. by induction l. Qed.

(** ** One component of the verifier

    The three loops of connecting a transaction have the same shape: every
    element spends at most one nonce and executes at most one operation of one
    component, and the records it returns undo the operations when they are
    applied from the latest on. *)

Section phase.
Context {C Op Undo L Base Err : Type}.
Context (comp : V -> C) (set : C -> V -> V) (conv : Err -> ConnectTransactionError).
Context (exec : Op -> ST C Err Undo) (undo : Undo -> ST C Err unit).
Context (spec : Op -> L -> result Err L) (record : Op -> L -> L -> Undo).
Context (rep : Base -> C -> L -> Prop) (good inv : L -> Prop) (ok : L -> Op -> Prop).
Hypothesis rep_good : forall b c l, rep b c l -> good l.
Hypothesis exec_ok : forall b c l op c' u, rep b c l -> inv l -> ok l op -> exec op c = (c', Ok u) ->
  exists l', spec op l = Ok l' /\ rep b c' l' /\ inv l' /\ u = record op l l'.
Hypothesis undo_ok : forall b c l op l', good l -> inv l -> spec op l = Ok l' -> rep b c l' ->
  exists c', undo (record op l l') c = (c', Ok tt) /\ rep b c' l.
Hypothesis comp_set : forall c v, comp (set c v) = c.
Hypothesis set_comp : forall v, set (comp v) v = v.
Hypothesis set_set : forall c c' v, set c (set c' v) = set c v.

(** In every component that shows [l'], over whatever base, the records [us]
    lead back to [l]. *)
Definition undoable (l : L) (us : list Undo) (l' : L) : Prop := forall b c, rep b c l' ->
  exists c', try_for_each undo us c = (c', Ok tt) /\ rep b c' l.

(** The records of operations that lead from [l] to [l'], the latest first. *)
Inductive undo_path (l : L) : list Undo -> L -> Prop :=
  | path_nil : undo_path l [] l
  | path_next us l1 op l2 : undo_path l us l1 -> good l1 -> inv l1 -> spec op l1 = Ok l2 ->
      undo_path l (record op l1 l2 :: us) l2.

Lemma undo_path_app l us l1 us' l2 : undo_path l us l1 -> undo_path l1 us' l2 -> undo_path l (us' ++ us) l2.
Proof. intros Hu1. induction 1; [done|]. simpl. by constructor. Qed.

Lemma path_undoable l us l' : undo_path l us l' -> undoable l us l'.
Proof.
  induction 1 as [|us l1 op l2 _ IH Hg Hi Hspec]; intros b c Hc; [by exists c|].
  destruct (undo_ok b c l1 op l2 Hg Hi Hspec Hc) as (c1 & Hu & Hc1). destruct (IH b c1 Hc1) as (c2 & Hr & Hc2).
  exists c2. split; [|done]. simpl. by rewrite (st_bind_run _ _ _ _ _ Hu).
Qed.

(** The undo records of a component, in the verifier. *)
Lemma undo_in us b v l l' : undoable l us l' -> rep b (comp v) l' ->
  exists c', try_for_each (fun u => zoom comp set conv (undo u)) us v = (set c' v, Ok tt) /\ rep b c' l.
Proof.
  intros Hun Hrep. destruct (Hun _ _ Hrep) as (c' & Hrun & Hc'). clear Hun Hrep.
  exists c'. split; [|done]. revert v Hrun. induction us as [|u us IH]; intros v Hrun.
  { injection Hrun as <-. simpl. by rewrite set_comp. }
  simpl in Hrun |- *. apply st_bind_Ok in Hrun as ([] & c1 & Hu & Hrun).
  assert (zoom comp set conv (undo u) v = (set c1 v, Ok tt)) as Hz by (unfold zoom; by rewrite Hu).
  rewrite (st_bind_run _ _ _ _ _ Hz), IH by (by rewrite comp_set). by rewrite set_set.
Qed.

(** The state of a loop: [v0] with another component and other nonces. *)
Section loop.
Context {X : Type} (v0 : V) (op_of : X -> option Op) (nonce_of : X -> option (AccountType * AccountNonce)).
Context (f : X -> ST V ConnectTransactionError (option Undo)).

Definition at_ (c : C) (N : gmap AccountType (CachedOperation AccountNonce)) : V := set c (with_nonces N v0).

Definition spends (N : gmap AccountType (CachedOperation AccountNonce)) o N1 : Prop :=
  match o with
  | None => N1 = N
  | Some (a, n) => N1 = <[a:=Write n]> N /\
      forall NN, nonces_show (with_nonces N v0) NN -> ival n = nonce_val (NN a) + 1
  end.

Definition body_spec x : Prop := forall c N v' o, f x (at_ c N) = (v', Ok o) ->
  exists N1, spends N (nonce_of x) N1 /\
    match op_of x with
    | None => o = None /\ v' = at_ c N1
    | Some op => exists c' u, exec op c = (c', Ok u) /\ o = Some u /\ v' = at_ c' N1
    end.

Lemma spends_writes N o N1 : spends N o N1 -> writes_nonces N N1.
Proof.
  destruct o as [[a n]|]; simpl; [intros [-> _]|by intros ->; left].
  intros a' op [[<- <-]|[_ ?]]%lookup_insert_Some; [right; eauto|by left].
Qed.

Lemma spends_advances N o N1 NN : nonces_show (with_nonces N v0) NN -> spends N o N1 ->
  exists NN1, nonces_show (with_nonces N1 v0) NN1 /\ advances NN (option_list o) NN1.
Proof.
  intros Hshow Hsp. destruct o as [[a n]|]; simpl in *.
  - destruct Hsp as [-> Hn]. exists (<[a:=Some n]> NN). split; [|by apply advances_one, Hn].
    exact (nonces_show_set _ _ a (Write n) Hshow).
  - subst N1. exists NN. split; [done|apply advances_nil].
Qed.

(** Whatever the ledger is: the loop changes the component and the nonces only,
    and spends the nonces of its elements in order. *)
Definition moves (N : gmap AccountType (CachedOperation AccountNonce)) l N' : Prop :=
  writes_nonces N N' /\ forall NN, nonces_show (with_nonces N v0) NN ->
    exists NN', nonces_show (with_nonces N' v0) NN' /\ advances NN l NN'.

Lemma moves_app N l1 N1 l2 N2 : moves N l1 N1 -> moves N1 l2 N2 -> moves N (l1 ++ l2) N2.
Proof.
  intros [Hw1 Hm1] [Hw2 Hm2]. split; [by eapply writes_nonces_trans|].
  intros NN Hshow. destruct (Hm1 NN Hshow) as (NN1 & Hs1 & Ha1).
  destruct (Hm2 NN1 Hs1) as (NN2 & Hs2 & Ha2). exists NN2. split; [done|]. by eapply advances_app.
Qed.

Lemma phase_frame xs : Forall body_spec xs -> forall c N v' us,
  try_filter_map f xs (at_ c N) = (v', Ok us) -> exists c' N', v' = at_ c' N' /\ moves N (omap nonce_of xs) N'.
Proof.
  induction 1 as [|x xs Hx _ IH]; intros c N v' us Hrun.
  { injection Hrun as <- <-. exists c, N. split; [done|]. split; [by left|]. intros NN Hs. exists NN.
    split; [done|apply advances_nil]. }
  simpl in Hrun. apply st_bind_Ok in Hrun as (o & v1 & Hf & Hrun).
  apply st_bind_Ok in Hrun as (us1 & v2 & Hxs & [-> <-]%mret_Ok). destruct (Hx _ _ _ _ Hf) as (N1 & Hsp & Hop).
  assert (exists c1, v1 = at_ c1 N1) as [c1 ->].
  { destruct (op_of x); [destruct Hop as (c1 & ? & _ & _ & ->)|destruct Hop as [_ ->]]; eauto. }
  destruct (IH _ _ _ _ Hxs) as (c' & N' & -> & Hmoves). exists c', N'. split; [done|].
  assert (omap nonce_of (x :: xs) = option_list (nonce_of x) ++ omap nonce_of xs) as ->
    by (simpl; by destruct (nonce_of x)).
  eapply moves_app; [|done]. split; [by eapply spends_writes|]. intros NN Hs. by eapply spends_advances.
Qed.

(** The loop executes the operations of its elements, in order. *)
Lemma phase_run xs : Forall body_spec xs -> forall b c N l NN v' us,
  try_filter_map f xs (at_ c N) = (v', Ok us) ->
  rep b c l -> inv l -> nonces_show (with_nonces N v0) NN -> ops_ok spec ok l (omap op_of xs) ->
  exists c' N' l' NN', v' = at_ c' N' /\ rep b c' l' /\ inv l' /\ run_ops spec (omap op_of xs) l = Ok l' /\
    undo_path l (reverse us) l' /\ nonces_show (with_nonces N' v0) NN' /\ advances NN (omap nonce_of xs) NN'.
Proof.
  induction 1 as [|x xs Hx _ IH]; intros b c N l NN v' us Hrun Hrep Hinv Hshow Hok.
  { injection Hrun as <- <-. exists c, N, l, NN. split_and!; try done; [constructor|apply advances_nil]. }
  simpl in Hrun. apply st_bind_Ok in Hrun as (o & v1 & Hf & Hrun).
  apply st_bind_Ok in Hrun as (us1 & v2 & Hxs & [-> <-]%mret_Ok).
  destruct (Hx _ _ _ _ Hf) as (N1 & Hsp & Hop).
  destruct (spends_advances _ _ _ _ Hshow Hsp) as (NN1 & Hshow1 & Hadv1).
  assert (omap nonce_of (x :: xs) = option_list (nonce_of x) ++ omap nonce_of xs) as Hns
    by (simpl; by destruct (nonce_of x)).
  rewrite Hns. clear Hns. simpl in Hok |- *. destruct (op_of x) as [op|].
  - destruct Hop as (c1 & u & He & -> & ->). destruct Hok as [Hok1 Hok].
    destruct (exec_ok _ _ _ _ _ _ Hrep Hinv Hok1 He) as (l1 & Hspec & Hrep1 & Hinv1 & ->). rewrite Hspec in Hok.
    destruct (IH _ _ _ _ _ _ _ Hxs Hrep1 Hinv1 Hshow1 Hok) as (c' & N' & l' & NN' & -> & ? & ? & Hro & Hun & ? & ?).
    exists c', N', l', NN'. split_and!; try done.
    + simpl. by rewrite Hspec.
    + rewrite reverse_cons. eapply undo_path_app; [|exact Hun]. econstructor; [constructor|by eapply rep_good|done..].
    + by eapply advances_app.
  - destruct Hop as [-> ->].
    destruct (IH _ _ _ _ _ _ _ Hxs Hrep Hinv Hshow1 Hok) as (c' & N' & l' & NN' & -> & ? & ? & Hro & Hun & ? & ?).
    exists c', N', l', NN'. split_and!; try done. by eapply advances_app.
Qed.
End loop.

(** A loop over the inputs and one over the outputs. *)
Lemma phases_frame {X Y} v0 fi opi ni (xs : list X) fo opo (ys : list Y) c N v1 us v2 us' :
  (forall x, body_spec v0 opi ni fi x) -> (forall y, body_spec v0 opo no_nonce fo y) ->
  try_filter_map fi xs (at_ v0 c N) = (v1, Ok us) -> try_filter_map fo ys v1 = (v2, Ok us') ->
  exists c' N', v2 = at_ v0 c' N' /\ moves v0 N (omap ni xs) N'.
Proof.
  intros Hx Hy Hr1 Hr2.
  destruct (phase_frame v0 opi ni fi xs) with (2 := Hr1) as (c1 & N1 & -> & Hm1); [by apply Forall_forall|].
  destruct (phase_frame v0 opo no_nonce fo ys) with (2 := Hr2) as (c2 & N2 & -> & Hm2); [by apply Forall_forall|].
  exists c2, N2. split; [done|]. rewrite omap_no_nonce in Hm2. rewrite <- (app_nil_r (omap ni xs)).
  by eapply moves_app.
Qed.

Lemma phases_run {X Y} v0 fi opi ni (xs : list X) fo opo (ys : list Y) b c N l NN v1 us v2 us' :
  (forall x, body_spec v0 opi ni fi x) -> (forall y, body_spec v0 opo no_nonce fo y) ->
  try_filter_map fi xs (at_ v0 c N) = (v1, Ok us) -> try_filter_map fo ys v1 = (v2, Ok us') ->
  rep b c l -> inv l -> nonces_show (with_nonces N v0) NN -> ops_ok spec ok l (omap opi xs ++ omap opo ys) ->
  exists c' N' l' NN', v2 = at_ v0 c' N' /\ rep b c' l' /\ inv l' /\
    run_ops spec (omap opi xs ++ omap opo ys) l = Ok l' /\ undo_path l (reverse (us ++ us')) l' /\
    nonces_show (with_nonces N' v0) NN' /\ advances NN (omap ni xs) NN'.
Proof.
  intros Hx Hy Hr1 Hr2 Hrep Hinv Hshow [Hok1 Hok2]%ops_ok_app.
  destruct (phase_run v0 opi ni fi xs) with (2 := Hr1) (3 := Hrep) (4 := Hinv) (5 := Hshow) (6 := Hok1)
    as (c1 & N1 & l1 & NN1 & -> & Hrep1 & Hinv1 & Hro1 & Hun1 & Hshow1 & Hadv1); [by apply Forall_forall|].
  rewrite Hro1 in Hok2.
  destruct (phase_run v0 opo no_nonce fo ys) with (2 := Hr2) (3 := Hrep1) (4 := Hinv1) (5 := Hshow1) (6 := Hok2)
    as (c2 & N2 & l2 & NN2 & -> & Hrep2 & Hinv2 & Hro2 & Hun2 & Hshow2 & Hadv2); [by apply Forall_forall|].
  exists c2, N2, l2, NN2. split_and!; try done.
  - by eapply run_ops_app.
  - rewrite reverse_app. by eapply undo_path_app.
  - rewrite omap_no_nonce in Hadv2. rewrite <- (app_nil_r (omap ni xs)). by eapply advances_app.
Qed.
End phase.

(** ** The components of the verifier *)

Definition pos_rep src (b : AdapterBase) (a : PoSAccountingDeltaAdapter A) (l : PoS.Ledger) : Prop :=
  adapter_rep src b a l.
Definition pos_inv (l : PoS.Ledger) : Prop := exists D, PoS.ledger_inv D l.
Definition tokens_rep (b : Tokens.Ledger) (c : Tokens.TokensAccountingCache T) (l : Tokens.Ledger) : Prop :=
  Tokens.cache_rep c b l.
Definition orders_rep (b : Orders.Ledger) (c : Orders.OrdersAccountingCache O) (l : Orders.Ledger) : Prop :=
  Orders.cache_rep c b l.

Lemma pos_exec_ok src b a l op a' u :
  pos_rep src b a l -> pos_inv l -> pos_ok l op -> adapter_exec src op a = (a', Ok u) ->
  exists l', PoS.spec_op op l = Ok l' /\ pos_rep src b a' l' /\ pos_inv l' /\ u = PoS.undo_record op l l'.
Proof.
  intros Hrep [D Hinv] [Hr Hf] Hrun.
  pose proof (@ops_exec_ok _ _ (operations src) (adapter_laws src b) a l D op Hrep Hinv Hr) as Hop. simpl in Hop.
  destruct (PoS.spec_op op l) as [l'|e|] eqn:Hs; [|by rewrite Hrun in Hop|done].
  destruct Hop as (a1 & Hrun1 & Hrep1). rewrite Hrun in Hrun1. injection Hrun1 as -> ->.
  exists l'. split; [done|]. split; [done|]. split; [by eapply PoS.spec_op_inv_pos|done].
Qed.

Lemma pos_rep_good src b a l : pos_rep src b a l -> PoS.bounded l.
Proof. apply (@ops_bounded _ _ (operations src) (adapter_laws src b)). Qed.

Lemma pos_undo_ok src b a l op l' :
  PoS.bounded l -> pos_inv l -> PoS.spec_op op l = Ok l' -> pos_rep src b a l' ->
  exists a', adapter_undo src (PoS.undo_record op l l') a = (a', Ok tt) /\ pos_rep src b a' l.
Proof.
  intros Hb _ Hspec Ha.
  exact (@ops_undo_ok _ _ (operations src) (adapter_laws src b) a l l' op Hb Hspec Ha).
Qed.

Lemma tokens_exec_ok b c l op c' u : tokens_rep b c l -> Tokens.ledger_inv l -> tokens_ok l op ->
  Tokens.exec_op op c = (c', Ok u) ->
  exists l', Tokens.spec_op op l = Ok l' /\ tokens_rep b c' l' /\ Tokens.ledger_inv l' /\ u = Tokens.undo_record op l l'.
Proof.
  intros Hrep Hinv Hok Hrun. pose proof (Tokens.exec_op_rep_tokens c b l op Hrep) as Hop.
  destruct (Tokens.spec_op op l) as [l'|e|] eqn:Hs; [|by rewrite Hrun in Hop|done].
  rewrite (Hok l' Hs) in Hop. destruct Hop as (c1 & Hrun1 & Hrep1). rewrite Hrun in Hrun1. injection Hrun1 as -> ->.
  exists l'. split; [done|]. split; [done|]. split; [by eapply Tokens.spec_op_inv_tokens|done].
Qed.

Lemma tokens_undo_ok b c l op l' : Tokens.bounded l -> Tokens.ledger_inv l -> Tokens.spec_op op l = Ok l' ->
  tokens_rep b c l' -> exists c', Tokens.undo (Tokens.undo_record op l l') c = (c', Ok tt) /\ tokens_rep b c' l.
Proof.
  intros Hb Hinv Hspec Hc. exact (Tokens.undo_op_rep_tokens c b l l' op Hinv Hb Hspec Hc).
Qed.

Lemma orders_exec_ok b c l op c' u : orders_rep b c l -> Orders.ledger_inv l -> Orders.op_in_range op ->
  Orders.exec_op op c = (c', Ok u) ->
  exists l', Orders.spec_op op l = Ok l' /\ orders_rep b c' l' /\ Orders.ledger_inv l' /\ u = Orders.undo_record op l l'.
Proof.
  intros Hrep Hinv Hok Hrun.
  destruct (Orders.exec_op_inv_orders c b l op c' u Hrep Hinv Hok Hrun) as (l' & Hs & Hrep' & ->).
  exists l'. split; [done|]. split; [done|]. split; [by eapply Orders.spec_op_inv_orders|done].
Qed.

Lemma orders_undo_ok b c l op l' : Orders.bounded l -> Orders.ledger_inv l -> Orders.spec_op op l = Ok l' ->
  orders_rep b c l' -> exists c', Orders.undo (Orders.undo_record op l l') c = (c', Ok tt) /\ orders_rep b c' l.
Proof.
  intros Hb Hinv Hspec Hc. exact (Orders.undo_op_rep_orders c b l l' op Hinv Hb Hspec Hc).
Qed.

(** ** The loops *)

(** Spending a nonce first, then executing. *)
Lemma spend_first {B} v0 N nonce a v' o (k : ST V ConnectTransactionError B) (set : V -> V) :
  (forall w, account_nonce (set w) = account_nonce w /\ storage (set w) = storage w) ->
  (forall w m, with_nonces m (set w) = set (with_nonces m w)) ->
  (_ ← spend_input_from_account nonce a; k) (set (with_nonces N v0)) = (v', Ok o) ->
  exists N1, spends v0 N (Some (a, nonce)) N1 /\ k (set (with_nonces N1 v0)) = (v', Ok o).
Proof.
  intros Hset Hcomm Hrun. apply st_bind_Ok in Hrun as ([] & v1 & Hsp & Hrun).
  destruct (Hset (with_nonces N v0)) as [Hac Hst]. simpl in Hac, Hst.
  exists (<[a:=Write nonce]> N). split.
  - split; [done|]. intros NN Hshow. eapply spend_input_Ok; [|exact Hsp]. intros x.
    unfold nonce_count. rewrite Hac, Hst. apply (Hshow x).
  - assert (v1 = set (with_nonces (<[a:=Write nonce]> N) v0)) as ->; [|done].
    apply st_bind_Ok in Hsp as (? & ? & [-> _]%gets_Ok & Hsp). apply st_bind_Ok in Hsp as (? & ? & [-> _]%lift_Ok & Hsp).
    apply st_bind_Ok in Hsp as (? & ? & [-> _]%lift_Ok & Hsp). unfold set_nonce, modify in Hsp.
    rewrite Hac, Hcomm in Hsp. by injection Hsp as <-.
Qed.

Section bodies.
Context (v0 : V).

(** A method of one component, as a body that spends no nonce. *)
Lemma exec_body {C Op Undo Err} (comp : V -> C) (set : C -> V -> V) (conv : Err -> ConnectTransactionError)
    (exec : Op -> ST C Err Undo) op c N v' o :
  (forall c v, comp (set c v) = c) -> (forall c c' v, set c (set c' v) = set c v) ->
  (u ← zoom comp set conv (exec op); mret (Some u)) (set c (with_nonces N v0)) = (v', Ok o) ->
  exists c' u, exec op c = (c', Ok u) /\ o = Some u /\ v' = set c' (with_nonces N v0).
Proof.
  intros Hcs Hss Hrun. run_inv. rewrite Hcs in *. rewrite Hss. eauto.
Qed.

Ltac body_done := simpl in *; run_inv; eexists; split; [exact eq_refl|by split].
Ltac body_run := unfold at_ in *; eapply exec_body; [| |eassumption]; done.
Ltac body_exec := eexists; split; [exact eq_refl|]; body_run.
Ltac body_spend := unfold at_ in *;
  match goal with H : (_ ← spend_input_from_account ?n ?a; _) (?set (with_nonces ?N _)) = _ |- _ =>
    eapply (spend_first v0 N n a _ _ _ set) in H as (N1 & Hsp & H); [|done|done];
    exists N1; split; [exact Hsp|]
  end.

Lemma pos_input_body src Us i : (forall k, utxo (utxo_cache v0) k = Ok (Us k)) ->
  body_spec with_adapter (adapter_exec src) v0 (pos_input_op Us) (nonce_if of_delegation) (pos_input src) i.
Proof.
  intros HU c N v' o Hrun. destruct i as [k|[n [id a]]|n cmd|cmd]; simpl in Hrun.
  - apply st_bind_Ok in Hrun as (ou & v1 & [-> Hou]%gets_Ok & Hrun).
    assert (utxo (utxo_cache (at_ with_adapter v0 c N)) k = Ok (Us k)) as Hk by exact (HU k).
    rewrite Hk in Hou. injection Hou as <-. simpl. destruct (Us k) as [u|]; simpl in *; [|run_inv].
    apply st_bind_Ok in Hrun as (u' & v1 & [-> [= <-]]%lift_Ok & Hrun).
    destruct (output u); (body_done || body_exec).
  - unfold pos_input in Hrun. simpl in Hrun. body_spend. body_run.
  - destruct cmd; body_done.
  - body_done.
Qed.

Lemma pos_output_body src tx out :
  body_spec with_adapter (adapter_exec src) v0 (pos_output_op tx) no_nonce (pos_output src tx) out.
Proof.
  intros c N v' o Hrun. destruct out as [| | |pool d| |k pool| | | | | |]; simpl in Hrun; try (body_done || body_exec).
  - apply st_bind_Ok in Hrun as (id & v1 & [-> _]%lift_Ok & Hrun).
    apply st_bind_Ok in Hrun as (? & v1 & [-> _]%lift_Ok & Hrun). apply st_bind_Ok in Hrun as (w & v1 & Hw & Hrun).
    injection Hw as <- <-. apply st_bind_Ok in Hrun as (? & v1 & [-> _]%lift_Ok & Hrun). body_exec.
  - apply st_bind_Ok in Hrun as (id & v1 & [-> Hid%map_err_Ok]%lift_Ok & Hrun). simpl. rewrite Hid. body_exec.
Qed.

Lemma tokens_input_body tx i :
  body_spec with_tokens Tokens.exec_op v0 (tokens_input_op tx) (nonce_if of_token) (tokens_input tx) i.
Proof.
  intros c N v' o Hrun. destruct i as [k|[n [id a]]|n cmd|cmd]; simpl in Hrun; try body_done.
  destruct cmd as [id a|id| | | | | | |]; simpl in Hrun; try body_done; body_spend; try body_run.
  apply st_bind_Ok in Hrun as (b & v1 & [-> Hb]%lift_Ok & Hrun). apply ok_or_Ok in Hb.
  simpl. rewrite Hb. simpl. destruct (Amount.ltb Amount.ZERO b); [body_run|]. run_inv. by split.
Qed.

Lemma tokens_output_body tx_source tx out :
  body_spec with_tokens Tokens.exec_op v0
    (tokens_output_op (chain_config v0) (expected_block_height tx_source) tx) no_nonce (tokens_output tx_source tx) out.
Proof.
  intros c N v' o Hrun. destruct out; simpl in Hrun; try body_done.
  apply st_bind_Ok in Hrun as (w & v1 & Hw & Hrun). injection Hw as <- <-.
  apply st_bind_Ok in Hrun as (id & v1 & [-> Hid%map_err_Ok]%lift_Ok & Hrun). simpl in Hid |- *. rewrite Hid. body_exec.
Qed.

Lemma orders_input_body i :
  body_spec with_orders Orders.exec_op v0 orders_input_op (nonce_if of_order) orders_input i.
Proof.
  intros c N v' o Hrun. destruct i as [k|[n [id a]]|n cmd|cmd]; simpl in Hrun; try body_done.
  - destruct cmd; simpl in Hrun; try body_done; body_spend; body_run.
  - destruct cmd; body_exec.
Qed.

Lemma orders_output_body tx out :
  body_spec with_orders Orders.exec_op v0 (orders_output_op tx) no_nonce (orders_output tx) out.
Proof.
  intros c N v' o Hrun. destruct out; simpl in Hrun; try body_done.
  apply st_bind_Ok in Hrun as (id & v1 & [-> Hid%map_err_Ok]%lift_Ok & Hrun). simpl. rewrite Hid. body_exec.
Qed.
End bodies.

(** ** Connecting, component by component *)

(** The undo records of a transaction are kept if there are any. *)
Definition recorded {Un} (data : AccountingUndo.AccountingBlockUndoCache Un) src id (us : list Un) data' : Prop :=
  match us with
  | [] => data' = data
  | _ => AccountingUndo.add_tx_undo src id us data = (data', Ok tt)
  end.

Lemma read_balances_same ids v v' u : try_for_each read_balance ids v = (v', Ok u) -> v' = v.
Proof.
  revert v. induction ids as [|id ids IH]; intros v Hrun; simpl in Hrun; [by run_inv|].
  apply st_bind_Ok in Hrun as ([] & v1 & Hr & Hrun). apply st_bind_Ok in Hr as (? & ? & [-> _]%gets_Ok & [-> _]%mret_Ok).
  by apply IH.
Qed.

(** The records of the inputs, then those of the outputs, are kept. *)
Lemma keep_undos {Un} (comp : V -> AccountingUndo.AccountingBlockUndoCache Un) set src id (us us' : list Un) v v' :
  (forall w, set (comp w) w = w) ->
  match us ++ us' with
  | [] => mret tt
  | undos => zoom comp set (fun e => e) (AccountingUndo.add_tx_undo src id undos)
  end v = (v', Ok tt) ->
  exists d, v' = set d v /\ recorded (comp v) src id (us ++ us') d.
Proof.
  intros Hset Hrun. destruct (us ++ us') as [|u l]; simpl in *; run_inv; [|eauto].
  exists (comp v). by rewrite Hset.
Qed.

Lemma connect_pos_frame tx_source tx v v' Us :
  (forall k, utxo (utxo_cache v) k = Ok (Us k)) -> connect_pos_accounting_outputs tx_source tx v = (v', Ok tt) ->
  exists a N d, v' = with_pos_undo d (with_adapter a (with_nonces N v)) /\
    moves v (account_nonce v) (omap (nonce_if of_delegation) (inputs tx)) N.
Proof.
  intros HU Hrun. unfold connect_pos_accounting_outputs in Hrun.
  apply st_bind_Ok in Hrun as (us & v1 & Hr1 & Hrun). apply st_bind_Ok in Hrun as (us' & v2 & Hr2 & Hrun).
  apply st_bind_Ok in Hrun as (? & v3 & ->%read_balances_same & Hrun).
  apply keep_undos in Hrun as (d & -> & _); [|by intros []].
  assert (v = at_ with_adapter v (pos_accounting_adapter v) (account_nonce v)) as Hv by (by destruct v).
  rewrite Hv in Hr1 at 1.
  eapply phases_frame in Hr2 as (a & N & -> & Hm); [by exists a, N, d| | |exact Hr1].
  - intros i. by apply pos_input_body.
  - apply pos_output_body.
Qed.

Lemma connect_tokens_frame tx_source tx v v' : connect_tokens_outputs tx_source tx v = (v', Ok tt) ->
  check_operations_with_frozen_tokens v tx (expected_block_height tx_source) = Ok tt /\
  exists c N d, v' = with_tokens_undo d (with_tokens c (with_nonces N v)) /\
    moves v (account_nonce v) (omap (nonce_if of_token) (inputs tx)) N.
Proof.
  intros Hrun. unfold connect_tokens_outputs in Hrun.
  apply st_bind_Ok in Hrun as ([] & v1 & [-> Hck]%gets_Ok & Hrun). split; [done|].
  apply st_bind_Ok in Hrun as (us & v1 & Hr1 & Hrun). apply st_bind_Ok in Hrun as (us' & v2 & Hr2 & Hrun).
  apply keep_undos in Hrun as (d & -> & _); [|by intros []].
  assert (v = at_ with_tokens v (tokens_accounting_cache v) (account_nonce v)) as Hv by (by destruct v).
  rewrite Hv in Hr1 at 1.
  eapply phases_frame in Hr2 as (c & N & -> & Hm); [by exists c, N, d| | |exact Hr1].
  - apply tokens_input_body.
  - apply tokens_output_body.
Qed.

Lemma connect_orders_frame tx_source tx v v' : connect_orders_outputs tx_source tx v = (v', Ok tt) ->
  exists c N d, v' = with_orders_undo d (with_orders c (with_nonces N v)) /\
    moves v (account_nonce v) (omap (nonce_if of_order) (inputs tx)) N.
Proof.
  intros Hrun. unfold connect_orders_outputs in Hrun.
  apply st_bind_Ok in Hrun as (us & v1 & Hr1 & Hrun). apply st_bind_Ok in Hrun as (us' & v2 & Hr2 & Hrun).
  apply keep_undos in Hrun as (d & -> & _); [|by intros []].
  assert (v = at_ with_orders v (orders_accounting_cache v) (account_nonce v)) as Hv by (by destruct v).
  rewrite Hv in Hr1 at 1.
  eapply phases_frame in Hr2 as (c & N & -> & Hm); [by exists c, N, d| | |exact Hr1].
  - apply orders_input_body.
  - apply orders_output_body.
Qed.

Lemma connect_pos_Ok tx_source tx b v v' Us l NN :
  (forall k, utxo (utxo_cache v) k = Ok (Us k)) -> pos_rep (source_of tx_source) b (pos_accounting_adapter v) l ->
  pos_inv l -> nonces_show v NN -> ops_ok PoS.spec_op pos_ok l (pos_ops Us tx) ->
  connect_pos_accounting_outputs tx_source tx v = (v', Ok tt) ->
  exists a' N' d us l' NN', v' = with_pos_undo d (with_adapter a' (with_nonces N' v)) /\
    pos_rep (source_of tx_source) b a' l' /\ pos_inv l' /\ run_ops PoS.spec_op (pos_ops Us tx) l = Ok l' /\
    undo_path PoS.spec_op PoS.undo_record PoS.bounded pos_inv l (reverse us) l' /\
    recorded (pos_accounting_block_undo v) (source_of tx_source) (get_id tx) us d /\
    nonces_show (with_nonces N' v) NN' /\ advances NN (omap (nonce_if of_delegation) (inputs tx)) NN'.
Proof.
  intros HU Hrep Hinv Hshow Hok Hrun. unfold connect_pos_accounting_outputs in Hrun.
  apply st_bind_Ok in Hrun as (us & v1 & Hr1 & Hrun). apply st_bind_Ok in Hrun as (us' & v2 & Hr2 & Hrun).
  apply st_bind_Ok in Hrun as (? & v3 & ->%read_balances_same & Hrun).
  apply keep_undos in Hrun as (d & -> & Hrec); [|by intros []].
  assert (v = at_ with_adapter v (pos_accounting_adapter v) (account_nonce v)) as Hv by (by destruct v).
  rewrite Hv in Hr1.
  destruct (phases_run with_adapter (adapter_exec (source_of tx_source))
    PoS.spec_op PoS.undo_record (pos_rep (source_of tx_source)) PoS.bounded pos_inv pos_ok)
    with (ni := nonce_if of_delegation) (5 := Hr1) (6 := Hr2) (7 := Hrep)
    (8 := Hinv) (10 := Hok) (NN := NN) as (a' & N' & l' & NN' & -> & ? & ? & ? & ? & ? & ?).
  - apply pos_rep_good.
  - apply pos_exec_ok.
  - intros i. by apply pos_input_body.
  - apply pos_output_body.
  - by destruct v.
  - exists a', N', d, (us ++ us'), l', NN'. split_and!; try done.
Qed.

Lemma connect_tokens_Ok tx_source tx b v v' l NN :
  tokens_rep b (tokens_accounting_cache v) l -> Tokens.ledger_inv l -> nonces_show v NN ->
  ops_ok Tokens.spec_op tokens_ok l (tokens_ops (chain_config v) (expected_block_height tx_source) tx) ->
  connect_tokens_outputs tx_source tx v = (v', Ok tt) ->
  exists c' N' d us l' NN', v' = with_tokens_undo d (with_tokens c' (with_nonces N' v)) /\
    tokens_rep b c' l' /\ Tokens.ledger_inv l' /\
    run_ops Tokens.spec_op (tokens_ops (chain_config v) (expected_block_height tx_source) tx) l = Ok l' /\
    undo_path Tokens.spec_op Tokens.undo_record Tokens.bounded Tokens.ledger_inv l (reverse us) l' /\
    recorded (tokens_accounting_block_undo v) (source_of tx_source) (get_id tx) us d /\
    nonces_show (with_nonces N' v) NN' /\ advances NN (omap (nonce_if of_token) (inputs tx)) NN'.
Proof.
  intros Hrep Hinv Hshow Hok Hrun. unfold connect_tokens_outputs in Hrun.
  apply st_bind_Ok in Hrun as (? & v1 & [-> _]%gets_Ok & Hrun).
  apply st_bind_Ok in Hrun as (us & v1 & Hr1 & Hrun). apply st_bind_Ok in Hrun as (us' & v2 & Hr2 & Hrun).
  apply keep_undos in Hrun as (d & -> & Hrec); [|by intros []].
  assert (v = at_ with_tokens v (tokens_accounting_cache v) (account_nonce v)) as Hv by (by destruct v).
  rewrite Hv in Hr1 at 1.
  destruct (phases_run with_tokens Tokens.exec_op Tokens.spec_op Tokens.undo_record tokens_rep
    Tokens.bounded Tokens.ledger_inv tokens_ok) with (ni := nonce_if of_token) (5 := Hr1) (6 := Hr2) (7 := Hrep) (8 := Hinv) (10 := Hok) (NN := NN)
    as (c' & N' & l' & NN' & -> & ? & ? & ? & ? & ? & ?).
  - intros b0 c0 l0. apply Tokens.rep_bound.
  - apply tokens_exec_ok.
  - apply tokens_input_body.
  - apply tokens_output_body.
  - by destruct v.
  - exists c', N', d, (us ++ us'), l', NN'. split_and!; try done.
Qed.

Lemma connect_orders_Ok tx_source tx b v v' l NN :
  orders_rep b (orders_accounting_cache v) l -> Orders.ledger_inv l -> nonces_show v NN ->
  ops_ok Orders.spec_op (fun _ => Orders.op_in_range) l (orders_ops tx) ->
  connect_orders_outputs tx_source tx v = (v', Ok tt) ->
  exists c' N' d us l' NN', v' = with_orders_undo d (with_orders c' (with_nonces N' v)) /\
    orders_rep b c' l' /\ Orders.ledger_inv l' /\ run_ops Orders.spec_op (orders_ops tx) l = Ok l' /\
    undo_path Orders.spec_op Orders.undo_record Orders.bounded Orders.ledger_inv l (reverse us) l' /\
    recorded (orders_accounting_block_undo v) (source_of tx_source) (get_id tx) us d /\
    nonces_show (with_nonces N' v) NN' /\ advances NN (omap (nonce_if of_order) (inputs tx)) NN'.
Proof.
  intros Hrep Hinv Hshow Hok Hrun. unfold connect_orders_outputs in Hrun.
  apply st_bind_Ok in Hrun as (us & v1 & Hr1 & Hrun). apply st_bind_Ok in Hrun as (us' & v2 & Hr2 & Hrun).
  apply keep_undos in Hrun as (d & -> & Hrec); [|by intros []].
  assert (v = at_ with_orders v (orders_accounting_cache v) (account_nonce v)) as Hv by (by destruct v).
  rewrite Hv in Hr1 at 1.
  destruct (phases_run with_orders Orders.exec_op Orders.spec_op Orders.undo_record orders_rep
    Orders.bounded Orders.ledger_inv (fun _ => Orders.op_in_range)) with (ni := nonce_if of_order) (5 := Hr1) (6 := Hr2) (7 := Hrep) (8 := Hinv) (10 := Hok)
    (NN := NN) as (c' & N' & l' & NN' & -> & ? & ? & ? & ? & ? & ?).
  - intros b0 c0 l0. apply Orders.cache_rep_bounded_orders.
  - apply orders_exec_ok.
  - apply orders_input_body.
  - apply orders_output_body.
  - by destruct v.
  - exists c', N', d, (us ++ us'), l', NN'. split_and!; try done.
Qed.

(** ** What a verifier shows *)

(** What is below a verifier, and for pools the ledger before the block. *)
Record Bases := mk_bases {
  b_utxos : UtxoSet;
  b_pos : AdapterBase;
  b_tokens : Tokens.Ledger;
  b_orders : Orders.Ledger
}.

(** The delta of the block that the transactions come from, [src], is part of
    what is shown. *)
Record shows_over (B : Bases) src v (X : ChainState) : Prop := {
  sh_utxos : cache_rep (utxo_cache v) (b_utxos B) (s_utxos X);
  sh_pos : pos_rep src (b_pos B) (pos_accounting_adapter v) (s_pos X);
  sh_tokens : tokens_rep (b_tokens B) (tokens_accounting_cache v) (s_tokens X);
  sh_orders : orders_rep (b_orders B) (orders_accounting_cache v) (s_orders X);
  sh_nonces : nonces_show v (s_nonces X)
}.

Definition shows src v (X : ChainState) : Prop := exists B, shows_over B src v X.

Lemma shows_over_shows B src v X : shows_over B src v X -> shows src v X.
Proof. by exists B. Qed.

Lemma shows_utxo src v X k : shows src v X -> utxo (utxo_cache v) k = Ok (s_utxos X k).
Proof. intros [B [Hu _ _ _ _]]. by apply (utxo_cache_represents _ (b_utxos B)). Qed.

(** The records that undo a transaction. *)
Record tx_undos := mk_undos {
  u_utxos : list (option Utxo);
  u_pos : list PoS.PoSAccountingUndo;
  u_tokens : list Tokens.TokenAccountingUndo;
  u_orders : list Orders.OrdersAccountingUndo
}.

Record undoes (tx : Transaction) (usrc : UtxoSource) (u : tx_undos) (X X' : ChainState) : Prop := {
  un_utxos : exists U1, spend_inputs (inputs tx) (s_utxos X) = Some (u_utxos u, U1) /\
    s_utxos X' = add_all (included (SourceTransaction (get_id tx)) usrc (outputs tx)) U1;
  un_few : few (outputs tx);
  un_unused : unused (SourceTransaction (get_id tx)) (s_utxos X);
  un_pos : undo_path PoS.spec_op PoS.undo_record PoS.bounded pos_inv (s_pos X) (reverse (u_pos u)) (s_pos X');
  un_tokens : undo_path Tokens.spec_op Tokens.undo_record Tokens.bounded Tokens.ledger_inv (s_tokens X) (reverse (u_tokens u)) (s_tokens X');
  un_orders : undo_path Orders.spec_op Orders.undo_record Orders.bounded Orders.ledger_inv (s_orders X) (reverse (u_orders u)) (s_orders X');
  un_nonces : advances (s_nonces X) (omap input_nonce (inputs tx)) (s_nonces X')
}.

(** What is kept of a transaction by connecting it. *)
Record records src v (tx : Transaction) (u : tx_undos) v' : Prop := {
  rc_utxos : UtxosUndo.add_tx_undo src (get_id tx)
    (mk_tx_undo (u_utxos u) (op_source_id <$> omap utxo_outpoint (inputs tx))) (utxo_block_undo v)
    = (utxo_block_undo v', Ok tt);
  rc_pos : recorded (pos_accounting_block_undo v) src (get_id tx) (u_pos u) (pos_accounting_block_undo v');
  rc_tokens : recorded (tokens_accounting_block_undo v) src (get_id tx) (u_tokens u) (tokens_accounting_block_undo v');
  rc_orders : recorded (orders_accounting_block_undo v) src (get_id tx) (u_orders u) (orders_accounting_block_undo v');
  rc_issuance : exists height block, register (chain_config v) height block tx (issuance_getter v)
    (token_issuance_cache v) = (token_issuance_cache v', Ok tt);
  rc_nonces : writes_nonces (account_nonce v) (account_nonce v');
  rc_storage : storage v' = storage v;
  rc_config : chain_config v' = chain_config v
}.

Lemma connect_transaction_core `{!InputChecks V} B tx_source tx t v v' X fee :
  shows_over B (source_of tx_source) v X -> state_inv X ->
  tx_in_range (chain_config v) (expected_block_height tx_source) (transaction tx) X ->
  connect_transaction tx_source tx t v = (v', Ok fee) ->
  exists X' u, shows_over B (source_of tx_source) v' X' /\ state_inv X' /\
    tx_effect (chain_config v) (expected_block_height tx_source) (to_utxo_source tx_source) (transaction tx) X X' /\
    undoes (transaction tx) (to_utxo_source tx_source) u X X' /\
    records (source_of tx_source) v (transaction tx) u v'.
Proof.
  intros Hs [Hip Hit Hio] [Hrp Hrt Hro Hfew Hun] Hrun. unfold connect_transaction in Hrun. set (tt' := transaction tx) in *.
  pose proof (fun k => shows_utxo _ _ _ k (shows_over_shows _ _ _ _ Hs)) as HU. destruct Hs as [Hu Hp Ht Ho Hn].
  apply st_bind_Ok in Hrun as (w & v1 & Hw & Hrun). injection Hw as <- <-.
  apply st_bind_Ok in Hrun as (? & v1 & [-> _]%lift_Ok & Hrun).
  apply st_bind_Ok in Hrun as ([] & v1 & (iss & Hiss & Hv)%zoom_Ok & Hrun). fields Hv.
  apply st_bind_Ok in Hrun as (? & v2 & [-> _]%gets_Ok & Hrun). apply st_bind_Ok in Hrun as (? & v2 & [-> _]%gets_Ok & Hrun).
  apply st_bind_Ok in Hrun as ([] & v2 & Hc & Hrun).
  edestruct connect_pos_frame with (Us := s_utxos X) (2 := Hc) as (? & ? & ? & Hw1 & [Hwn1 _]);
    [by rewrite_fields|].
  apply (f_equal account_nonce) in Hw1. simpl in Hw1.
  apply (connect_pos_Ok _ _ (b_pos B) _ _ (s_utxos X) (s_pos X) (s_nonces X)) in Hc
    as (a & N1 & d1 & us1 & lp & NN1 & Hv & Hp' & Hip' & Hrp' & Hup & Hkp & Hn1 & Ha1);
    [|by rewrite_fields|congruence|done|same_nonces|done].
  fields Hv. apply st_bind_Ok in Hrun as ([] & v3 & Hc & Hrun).
  destruct (connect_tokens_frame _ _ _ _ Hc) as (_ & ? & ? & ? & Hw2 & [Hwn2 _]).
  apply (f_equal account_nonce) in Hw2. simpl in Hw2.
  apply (connect_tokens_Ok _ _ (b_tokens B) _ _ (s_tokens X) NN1) in Hc
    as (c & N2 & d2 & us2 & lt & NN2 & Hv & Ht' & Hit' & Hrt' & Hut & Hkt & Hn2 & Ha2);
    [|congruence|done|same_nonces|by rewrite_fields].
  fields Hv. apply st_bind_Ok in Hrun as ([] & v4 & Hc & Hrun).
  destruct (connect_orders_frame _ _ _ _ Hc) as (? & ? & ? & Hw3 & [Hwn3 _]).
  apply (f_equal account_nonce) in Hw3. simpl in Hw3.
  apply (connect_orders_Ok _ _ (b_orders B) _ _ (s_orders X) NN2) in Hc
    as (o & N3 & d3 & us3 & lo & NN3 & Hv & Ho' & Hio' & Hro' & Huo & Hko & Hn3 & Ha3);
    [|congruence|done|same_nonces|done].
  fields Hv. apply st_bind_Ok in Hrun as (tu & v5 & (uc & Huc & Hv)%zoom_Ok & Hrun). fields Hv.
  pose proof (connect_transaction_rep tt' (to_utxo_source tx_source) _ (b_utxos B) (s_utxos X) Hfew Hun Hu) as Hconn.
  replace (utxo_cache v4) with (utxo_cache v) in Huc by congruence.
  destruct (spend_inputs (inputs tt') (s_utxos X)) as [[us U1]|] eqn:Hspend.
  2: { destruct Hconn as (? & ? & ? & Hc & _). by rewrite Huc in Hc. }
  destruct Hconn as (uc' & Hc & Hu'). rewrite Huc in Hc. injection Hc as -> ->.
  apply st_bind_Ok in Hrun as ([] & v6 & (ud & Hud & Hv)%zoom_Ok & [-> _]%mret_Ok). fields Hv.
  assert (advances (s_nonces X) (omap input_nonce (inputs tt')) NN3) as Hadv.
  { eapply advances_ext; [intros a'; apply nonces_by_kind|]. by repeat (eapply advances_app; [eassumption|]). }
  exists (mk_state (add_all (included (SourceTransaction (get_id tt')) (to_utxo_source tx_source) (outputs tt')) U1)
    lp lt lo NN3), (mk_undos us us1 us2 us3).
  split; [split; simpl; [..|same_nonces]; congruence|].
  split; [by split|]. split; [split; simpl; [by exists us, U1|congruence..|exact Hadv]|].
  split; [split; simpl; [by exists U1|done..]|].
  assert (writes_nonces (account_nonce v) (account_nonce v6)) as Hwn.
  { replace (account_nonce v6) with (account_nonce v4) by congruence. rewrite Hw3.
    eapply writes_nonces_trans; [|exact Hwn3]. rewrite Hw2. eapply writes_nonces_trans; [|exact Hwn2]. rewrite Hw1.
    replace (account_nonce v) with (account_nonce v1) by congruence. exact Hwn1. }
  split; simpl; [congruence..|eexists _, _|exact Hwn|congruence|congruence].
  replace (token_issuance_cache v6) with iss by congruence. exact Hiss.
Qed.

(** ** Disconnecting *)

Definition pos_fetcher v src : result ConnectTransactionError (option (AccountingUndo.CachedBlockUndo PoS.PoSAccountingUndo)) :=
  map_err (fun _ => TxVerifierStorage) (get_pos_accounting_undo (storage v) src).
Definition tokens_fetcher v src : result ConnectTransactionError (option (AccountingUndo.CachedBlockUndo Tokens.TokenAccountingUndo)) :=
  map_err (fun _ => TxVerifierStorage) (get_tokens_accounting_undo (storage v) src).
Definition orders_fetcher v src : result ConnectTransactionError (option (AccountingUndo.CachedBlockUndo Orders.OrdersAccountingUndo)) :=
  map_err (fun _ => TxVerifierStorage) (get_orders_accounting_undo (storage v) src).

(** Where the undo data that a verifier does not have comes from. *)
Record UndoFetchers := mk_fetchers {
  f_utxos : TransactionSource -> result ConnectTransactionError (option UtxosUndo.CachedUtxosBlockUndo);
  f_pos : TransactionSource -> result ConnectTransactionError (option (AccountingUndo.CachedBlockUndo PoS.PoSAccountingUndo));
  f_tokens : TransactionSource -> result ConnectTransactionError (option (AccountingUndo.CachedBlockUndo Tokens.TokenAccountingUndo));
  f_orders : TransactionSource -> result ConnectTransactionError (option (AccountingUndo.CachedBlockUndo Orders.OrdersAccountingUndo))
}.
Definition fetchers v : UndoFetchers := mk_fetchers (undo_fetcher v) (pos_fetcher v) (tokens_fetcher v) (orders_fetcher v).

(** The verifier, or what is below it, keeps the accounting undo records of a
    transaction. *)
Record accounting_held_over (F : UndoFetchers) src v (id : TxId) (u : tx_undos) : Prop := {
  ah_pos : AccountingUndo.holds_undos (pos_accounting_block_undo v) (f_pos F) src id (u_pos u);
  ah_tokens : AccountingUndo.holds_undos (tokens_accounting_block_undo v) (f_tokens F) src id (u_tokens u);
  ah_orders : AccountingUndo.holds_undos (orders_accounting_block_undo v) (f_orders F) src id (u_orders u)
}.
Definition accounting_held src v : TxId -> tx_undos -> Prop := accounting_held_over (fetchers v) src v.

Lemma fetchers_same v w : storage w = storage v -> fetchers w = fetchers v.
Proof. unfold fetchers, undo_fetcher, pos_fetcher, tokens_fetcher, orders_fetcher. by intros ->. Qed.

(** An NFT that the transaction issued is stored below, and the verifier has
    not looked at it. *)
Definition nft_stored v (tx : Transaction) : Prop :=
  match has_tokens_issuance_to_cache (outputs tx) with
  | Some id => aux_data (token_issuance_cache v) !! id = None /\
      exists data, get_token_aux_data (storage v) id = Ok (Some data)
  | None => True
  end.

(** Giving the nonces back. *)
Lemma unspend_inputs_Ok ins v NN :
  nonces_show v NN ->
  (forall a, Z.of_nat (length (nonces_for a (omap input_nonce ins))) <= nonce_val (NN a) + 1) ->
  exists N' NN', try_for_each unspend_input ins v = (with_nonces N' v, Ok tt) /\
    nonces_show (with_nonces N' v) NN' /\
    forall a, nonce_val (NN' a) = nonce_val (NN a) - Z.of_nat (length (nonces_for a (omap input_nonce ins))).
Proof.
  revert v NN. induction ins as [|i ins IH]; intros v NN Hshow Hle.
  { exists (account_nonce v), NN. split; [by destruct v|]. split; [|intros a; simpl; lia].
    by eapply nonces_show_same; [| |exact Hshow]. }
  destruct (input_nonce i) as [[x n]|] eqn:Hi.
  - assert (omap input_nonce (i :: ins) = (x, n) :: omap input_nonce ins) as Heq by (simpl; by rewrite Hi).
    rewrite Heq in Hle |- *. clear Heq. setoid_rewrite nonces_for_cons in Hle.
    assert ((unspend_input i : ST V ConnectTransactionError unit) = unspend_input_from_account x) as Hbody by (destruct i; by simplify_eq/=).
    destruct (unspend_input_Ok v NN x Hshow) as (op & Hrun & Hval).
    { specialize (Hle x). rewrite decide_True in Hle by done. simpl in Hle. lia. }
    cbn [try_for_each]. rewrite Hbody, (st_bind_run _ _ _ _ _ Hrun).
    destruct (IH _ _ (nonces_show_set _ _ x op Hshow)) as (N' & NN' & Hrest & Hshow' & Hvals).
    { intros a. specialize (Hle a). destruct (decide (x = a)) as [<-|Hne].
      - rewrite fn_lookup_insert, Hval. simpl in Hle. lia.
      - by rewrite fn_lookup_insert_ne. }
    exists N', NN'. split; [done|]. split; [done|]. intros a. rewrite Hvals, nonces_for_cons. destruct (decide (x = a)) as [<-|Hne].
    + rewrite fn_lookup_insert, Hval. simpl. lia.
    + by rewrite fn_lookup_insert_ne.
  - assert (omap input_nonce (i :: ins) = omap input_nonce ins) as Heq by (simpl; by rewrite Hi).
    rewrite Heq in Hle |- *. destruct (IH v NN Hshow Hle) as (N' & NN' & Hrest & Hs).
    exists N', NN'. split; [|done]. by destruct i.
Qed.

(** The records of the other transactions stay. *)
Definition keeps {Un} (data data' : AccountingUndo.AccountingBlockUndoCache Un)
    (fetcher : TransactionSource -> result ConnectTransactionError (option (AccountingUndo.CachedBlockUndo Un))) src
    (id : TxId) : Prop :=
  forall id' us, id <> id' -> AccountingUndo.holds_undos data fetcher src id' us ->
    AccountingUndo.holds_undos data' fetcher src id' us.

(** Taking the records of one component and applying them. *)
Lemma take_and_undo {C Un Err L Base} (comp : V -> C) set (conv : Err -> ConnectTransactionError) (undo : Un -> ST C Err unit)
    (rep : Base -> C -> L -> Prop) (ucomp : V -> AccountingUndo.AccountingBlockUndoCache Un) uset fetcher src id us b v l l' :
  (forall c v, comp (set c v) = c) -> (forall v, set (comp v) v = v) -> (forall c c' v, set c (set c' v) = set c v) ->
  (forall d v, comp (uset d v) = comp v) ->
  undoable undo rep l (reverse us) l' -> rep b (comp v) l' ->
  AccountingUndo.holds_undos (ucomp v) fetcher src id us ->
  exists c d, (undos ← zoom ucomp uset (fun e => e) (AccountingUndo.take_tx_undo_of src id fetcher);
    match undos with
    | Some undos => try_for_each (fun undo' => zoom comp set conv (undo undo')) (reverse undos)
    | None => mret tt
    end) v = (set c (uset d v), Ok tt) /\ rep b c l /\ keeps (ucomp v) d fetcher src id.
Proof.
  intros Hcs Hsc Hss Hcu Hun Hrep Hheld.
  destruct (AccountingUndo.take_tx_undo_holds _ _ _ _ _ Hheld) as (d & Htake & Hkeep).
  assert (zoom ucomp uset (fun e => e) (AccountingUndo.take_tx_undo_of src id fetcher) v
    = (uset d v, Ok match us with [] => None | _ => Some us end)) as Hz by (unfold zoom; by rewrite Htake).
  rewrite (st_bind_run _ _ _ _ _ Hz).
  destruct (undo_in comp set conv undo rep Hcs Hsc Hss (reverse us) b (uset d v) l l' Hun) as (c & Hc & Hrep').
  { by rewrite Hcu. }
  exists c, d. split; [|done]. destruct us; [|done]. injection Hc as Hc. simpl. by rewrite <- Hc.
Qed.

Lemma disconnect_pos_Ok src tx us b w l l' :
  undoable (adapter_undo src) (pos_rep src) l (reverse us) l' -> (pos_rep src) b (pos_accounting_adapter w) l' ->
  AccountingUndo.holds_undos (pos_accounting_block_undo w) (pos_fetcher w) src (get_id tx) us ->
  exists w' c d, disconnect_pos_accounting_outputs src tx w = (w', Ok tt) /\
    w' = with_adapter c (with_pos_undo d w) /\ (pos_rep src) b c l /\ keeps (pos_accounting_block_undo w) d (pos_fetcher w) src (get_id tx).
Proof.
  intros Hun Hrep Hh.
  destruct (take_and_undo pos_accounting_adapter with_adapter PoSAccountingError (adapter_undo src) (pos_rep src)
    pos_accounting_block_undo with_pos_undo (pos_fetcher w) src (get_id tx) us b w l l')
    as (c & d & Hrun & Hc); [done|by intros []|done..|].
  eexists _, c, d. split; [exact Hrun|done].
Qed.

Lemma disconnect_tokens_Ok src tx us b w l l' :
  undoable Tokens.undo tokens_rep l (reverse us) l' -> tokens_rep b (tokens_accounting_cache w) l' ->
  AccountingUndo.holds_undos (tokens_accounting_block_undo w) (tokens_fetcher w) src (get_id tx) us ->
  exists w' c d, disconnect_tokens_accounting_outputs src tx w = (w', Ok tt) /\
    w' = with_tokens c (with_tokens_undo d w) /\ tokens_rep b c l /\ keeps (tokens_accounting_block_undo w) d (tokens_fetcher w) src (get_id tx).
Proof.
  intros Hun Hrep Hh.
  destruct (take_and_undo tokens_accounting_cache with_tokens TokensAccountingError Tokens.undo tokens_rep
    tokens_accounting_block_undo with_tokens_undo (tokens_fetcher w) src (get_id tx) us b w l l')
    as (c & d & Hrun & Hc); [done|by intros []|done..|].
  eexists _, c, d. split; [exact Hrun|done].
Qed.

Lemma disconnect_orders_Ok src tx us b w l l' :
  undoable Orders.undo orders_rep l (reverse us) l' -> orders_rep b (orders_accounting_cache w) l' ->
  AccountingUndo.holds_undos (orders_accounting_block_undo w) (orders_fetcher w) src (get_id tx) us ->
  exists w' c d, disconnect_orders_accounting_outputs src tx w = (w', Ok tt) /\
    w' = with_orders c (with_orders_undo d w) /\ orders_rep b c l /\ keeps (orders_accounting_block_undo w) d (orders_fetcher w) src (get_id tx).
Proof.
  intros Hun Hrep Hh.
  destruct (take_and_undo orders_accounting_cache with_orders OrdersAccountingError Orders.undo orders_rep
    orders_accounting_block_undo with_orders_undo (orders_fetcher w) src (get_id tx) us b w l l')
    as (c & d & Hrun & Hc); [done|by intros []|done..|].
  eexists _, c, d. split; [exact Hrun|done].
Qed.

Lemma disconnect_accounting_Ok B src tx usrc u w X X' :
  undoes tx usrc u X X' -> shows_over B src w X' ->
  AccountingUndo.holds_undos (pos_accounting_block_undo w) (pos_fetcher w) src (get_id tx) (u_pos u) ->
  AccountingUndo.holds_undos (tokens_accounting_block_undo w) (tokens_fetcher w) src (get_id tx) (u_tokens u) ->
  AccountingUndo.holds_undos (orders_accounting_block_undo w) (orders_fetcher w) src (get_id tx) (u_orders u) ->
  exists w', disconnect_accounting_outputs src tx w = (w', Ok tt) /\
    pos_rep src (b_pos B) (pos_accounting_adapter w') (s_pos X) /\
    tokens_rep (b_tokens B) (tokens_accounting_cache w') (s_tokens X) /\
    orders_rep (b_orders B) (orders_accounting_cache w') (s_orders X) /\ nonces_show w' (s_nonces X) /\
    (utxo_cache w' = utxo_cache w /\ utxo_block_undo w' = utxo_block_undo w /\
     token_issuance_cache w' = token_issuance_cache w /\ storage w' = storage w) /\
    keeps (pos_accounting_block_undo w) (pos_accounting_block_undo w') (pos_fetcher w) src (get_id tx) /\
    keeps (tokens_accounting_block_undo w) (tokens_accounting_block_undo w') (tokens_fetcher w) src (get_id tx) /\
    keeps (orders_accounting_block_undo w) (orders_accounting_block_undo w') (orders_fetcher w) src (get_id tx).
Proof.
  intros [_ _ _ Hup Hut Huo Hadv] [_ Hsp Hst Hso Hsn] Hhp Hht Hho.
  apply (path_undoable (adapter_undo src) _ _ (pos_rep src)) in Hup; [|intros b a; apply pos_undo_ok].
  apply (path_undoable Tokens.undo _ _ tokens_rep) in Hut; [|intros b a; apply tokens_undo_ok].
  apply (path_undoable Orders.undo _ _ orders_rep) in Huo; [|intros b a; apply orders_undo_ok]. unfold disconnect_accounting_outputs.
  destruct (unspend_inputs_Ok (inputs tx) w (s_nonces X') Hsn) as (N & NN & Hrun & Hnn & Hvals).
  { intros a. destruct (Hadv a) as [_ ->].
    assert (-1 <= nonce_val (s_nonces X a)); [|lia]. destruct (s_nonces X a) as [n|]; simpl; [|done].
    pose proof (bint_range n). lia. }
  rewrite (st_bind_run _ _ _ _ _ Hrun). clear Hrun. remember (with_nonces N w) as w1 eqn:Hv.
  assert (nonces_show w1 (s_nonces X)) as Hn.
  { intros a. rewrite (Hnn a). do 2 f_equal. apply (inj nonce_val). rewrite Hvals.
    destruct (Hadv a) as [_ ->]. lia. }
  fields Hv. clear Hnn Hvals.
  destruct (disconnect_pos_Ok src tx (u_pos u) (b_pos B) w1 (s_pos X) (s_pos X') Hup) as (w2 & c2 & d2 & Hrun & Hv & Hp & Hk2);
    [by rewrite_fields|unfold pos_fetcher in *; by rewrite_fields|].
  rewrite (st_bind_run _ _ _ _ _ Hrun). clear Hrun. fields Hv.
  destruct (disconnect_tokens_Ok src tx (u_tokens u) (b_tokens B) w2 (s_tokens X) (s_tokens X') Hut)
    as (w3 & c3 & d3 & Hrun & Hv & Ht & Hk3);
    [by rewrite_fields|unfold tokens_fetcher in *; by rewrite_fields|].
  rewrite (st_bind_run _ _ _ _ _ Hrun). clear Hrun. fields Hv.
  destruct (disconnect_orders_Ok src tx (u_orders u) (b_orders B) w3 (s_orders X) (s_orders X') Huo)
    as (w4 & c4 & d4 & Hrun & Hv & Ho & Hk4);
    [by rewrite_fields|unfold orders_fetcher in *; by rewrite_fields|].
  exists w4. fields Hv. split; [done|]. split; [congruence|]. split; [congruence|]. split; [congruence|].
  split; [same_nonces|]. split; [split_and!; congruence|].
  unfold pos_fetcher, tokens_fetcher, orders_fetcher in *. rewrite_fields_in Hk2. rewrite_fields_in Hk3.
  rewrite_fields_in Hk4. by rewrite_fields.
Qed.

(** What disconnecting needs: the records of the transaction, on which no
    other depends.  The records of the others stay. *)
Lemma disconnect_transaction_core B src tx usrc u w X X' txs R deps :
  undoes (transaction tx) usrc u X X' -> shows_over B src w X' ->
  UtxosUndo.holds (utxo_block_undo w) (undo_fetcher w) src txs R deps ->
  txs !! get_id (transaction tx) = Some (u_utxos u) -> (forall c, ~ deps c (get_id (transaction tx))) ->
  accounting_held src w (get_id (transaction tx)) u -> nft_stored w (transaction tx) ->
  exists w', disconnect_transaction src tx w = (w', Ok tt) /\ shows_over B src w' X /\ storage w' = storage w /\
    UtxosUndo.holds (utxo_block_undo w') (undo_fetcher w') src (delete (get_id (transaction tx)) txs) R
      (fun c p => deps c p /\ c <> get_id (transaction tx)) /\
    (forall id u', get_id (transaction tx) <> id -> accounting_held src w id u' -> accounting_held src w' id u') /\
    (forall id, has_tokens_issuance_to_cache (outputs (transaction tx)) <> Some id ->
       aux_data (token_issuance_cache w') !! id = aux_data (token_issuance_cache w) !! id).
Proof.
  intros Hun Hs Hhold Htx Hnodeps Hacc Hnft. unfold disconnect_transaction. set (t := transaction tx) in *.
  rewrite (st_bind_run _ _ w w w eq_refl).
  destruct (UtxosUndo.utxos_take_tx_undo_holds _ _ _ _ _ _ _ _ Hhold Htx Hnodeps) as (d & Htake & Hrest).
  assert (in_utxo_undo (UtxosUndo.take_tx_undo_of src (get_id t) (undo_fetcher w)) w = (with_utxo_undo d w, Ok (u_utxos u)))
    as Hrun by (unfold in_utxo_undo, zoom; by rewrite Htake).
  rewrite (st_bind_run _ _ _ _ _ Hrun). clear Hrun. remember (with_utxo_undo d w) as w1 eqn:Hv. fields Hv.
  destruct (disconnect_accounting_Ok B src t usrc u w1 X X' Hun)
    as (w2 & Hrun & Hp & Ht & Ho & Hn & (Euc & Euu & Eiss & Est) & Hk1 & Hk2 & Hk3).
  { destruct Hs. split; rewrite_fields; try done. same_nonces. }
  1-3: destruct Hacc; unfold pos_fetcher, tokens_fetcher, orders_fetcher in *; by rewrite_fields.
  rewrite (st_bind_run _ _ _ _ _ Hrun). clear Hrun.
  destruct (un_utxos _ _ _ _ _ Hun) as (U1 & Hspend & HX'). pose proof (sh_utxos _ _ _ _ Hs) as Hu.
  rewrite HX' in Hu.
  destruct (disconnect_transaction_rep t usrc (u_utxos u) (utxo_cache w) (b_utxos B) (s_utxos X) U1
    (un_few _ _ _ _ _ Hun) (un_unused _ _ _ _ _ Hun) Hspend Hu) as (uc & Huc & Hu').
  assert (in_utxos (Utxo.disconnect_transaction t (u_utxos u)) w2 = (with_utxo_cache uc w2, Ok tt)) as Hrun.
  { unfold in_utxos, zoom. replace (utxo_cache w2) with (utxo_cache w) by congruence. by rewrite Huc. }
  rewrite (st_bind_run _ _ _ _ _ Hrun). clear Hrun. remember (with_utxo_cache uc w2) as w3 eqn:Hv. fields Hv.
  rewrite (st_bind_run _ _ w3 w3 w3 eq_refl).
  destruct (unregister_stored t (issuance_getter w3) (token_issuance_cache w3)) as (iss & Hiss & Haux).
  { revert Hnft. unfold nft_stored, issuance_getter. rewrite_fields.
    destruct (has_tokens_issuance_to_cache (outputs t)); [|done].
    intros [Hc [data Hdata]]. split; [done|]. rewrite Hdata. by exists data. }
  exists (with_issuance iss w3). split; [unfold in_issuance, zoom; by rewrite Hiss|].
  remember (with_issuance iss w3) as w4 eqn:Hv. fields Hv. split; [|split; [congruence|split; [|split]]].
  - split; rewrite_fields; [done..|]. same_nonces.
  - unfold undo_fetcher. rewrite_fields. done.
  - intros id u' Hne [Ha Hb Hc]. unfold pos_fetcher, tokens_fetcher, orders_fetcher in *.
    rewrite_fields_in Hk1. rewrite_fields_in Hk2. rewrite_fields_in Hk3.
    simpl in *. split; simpl; unfold pos_fetcher, tokens_fetcher, orders_fetcher in *; rewrite_fields; auto.
  - intros id Hid. rewrite_fields. rewrite Haux by done. by rewrite_fields.
Qed.
End verifier.
