(* ===== verification/Connect.v ===== *)
(** * What it takes to connect a transaction, and what it brings

    The end-to-end properties of the transaction verifier: the effect of
    connecting a transaction on the state of the chain, conservation of value,
    the way back, and what a connected transaction can not do. *)
From S2P Require Import Prelude Amount Accounting ChainTypes ChainConfig BlockTree Utxo TxTypes UndoCache TokenIssuance.
From S2P Require Import PoSInterface PoSAdapter Policy CheckTransaction TxVerifier Effects.
From S2P Require Tokens Orders PoS Constraints Conservation.
Import CachedOperation ConnectError.

Section connect.
Context `{CryptoTypes} `{!TxHash} `{!IdHashes} `{!TxParameters}.
Context {S U A T O : Type} `{!TransactionVerifierStorageRef S} `{!UtxosView U}
  `{!PoS.PoSAccountingView A} `{!Tokens.TokensAccountingView T} `{!Orders.OrdersAccountingView O}.
Abbreviation V := (TransactionVerifier S U A T O).
Context `{!InputChecks V}.
Implicit Types (v w : V) (src : TransactionSource) (tx : SignedTransaction) (tx_source : TransactionSourceForConnect).

(** ** What was checked before anything changed *)

Record connect_checks tx_source tx v fee : Prop := {
  ck_check : check_transaction (chain_config v) (expected_block_height tx_source) tx = Ok tt;
  ck_policy : check_tx_inputs_outputs_policy (transaction tx) (chain_config v) (expected_block_height tx_source)
    (orders_accounting_cache v) (accounting_delta (pos_accounting_adapter v)) (tokens_accounting_cache v)
    (utxo_cache v) = Ok fee
}.

Lemma connect_checked tx_source tx t v v' fee :
  connect_transaction tx_source tx t v = (v', Ok fee) -> connect_checks tx_source tx v fee.
Proof.
  intros Hrun. apply st_bind_Ok in Hrun as (w & v1 & Hw & Hrun). injection Hw as <- <-.
  apply st_bind_Ok in Hrun as ([] & v1 & [-> Hck%map_err_Ok]%lift_Ok & Hrun).
  apply st_bind_Ok in Hrun as ([] & v1 & (iss & _ & ->)%zoom_Ok & Hrun).
  apply st_bind_Ok in Hrun as (fee' & v1 & [-> Hpol]%gets_Ok & Hrun).
  split; [done|]. replace fee with fee'; [exact Hpol|]. clear Hpol.
  do 4 apply st_bind_Ok in Hrun as (? & ? & _ & Hrun). do 2 apply st_bind_Ok in Hrun as (? & ? & _ & Hrun).
  by apply mret_Ok in Hrun as [_ ->].
Qed.

(** ** Value *)

Definition world_of (X : ChainState) : Conservation.World :=
  Conservation.mk_world (s_orders X) (s_tokens X) (s_pos X).

(** The outputs that the inputs spend. *)
Definition spent_outputs (X : ChainState) (ins : list TxInput) : list (option TxOutput) :=
  (fun i => match i with InputUtxo k => output <$> s_utxos X k | _ => None end) <$> ins.

Lemma shows_views src v X : shows src v X ->
  Conservation.views_show (orders_accounting_cache v) (accounting_delta (pos_accounting_adapter v))
    (tokens_accounting_cache v) (world_of X).
Proof.
  intros [B [_ [Hp _ _] Ht Ho _]]. unfold tokens_rep, orders_rep in *.
  split; split; first [by eapply Orders.cache_represents_orders|by eapply Orders.cache_rep_bounded_orders
    |by eapply PoS.cache_represents_pos|by eapply PoS.cache_rep_bounded_pos
    |by eapply Tokens.cache_represents_tokens|by eapply Tokens.rep_bound].
Qed.

Lemma spent_outputs_read src v X ins us : shows src v X ->
  mapM (input_utxo_output (utxo_cache v)) ins = Ok us -> us = spent_outputs X ins.
Proof.
  intros Hs. revert us. induction ins as [|i ins IH]; intros us; simpl; [by intros [= <-]|].
  intros (o & Ho & (us' & Hus & [= <-])%result_bind_Ok)%result_bind_Ok. rewrite (IH _ Hus). f_equal.
  destruct i as [k| | |]; simpl in Ho; try (by injection Ho as <-).
  pose proof (shows_utxo _ _ _ k Hs) as Hk. simpl in Hk. rewrite Hk in Ho. simpl in Ho.
  destruct (s_utxos X k); [by injection Ho as <-|done].
Qed.

(** ** What the loops do, whatever the ledgers are *)

Lemma connect_frame tx_source tx t v v' Us fee :
  (forall k, utxo (utxo_cache v) k = Ok (Us k)) -> connect_transaction tx_source tx t v = (v', Ok fee) ->
  (exists v1, check_operations_with_frozen_tokens v1 (transaction tx) (expected_block_height tx_source) = Ok tt /\
     chain_config v1 = chain_config v /\ utxo_cache v1 = utxo_cache v /\
     tokens_accounting_cache v1 = tokens_accounting_cache v /\ orders_accounting_cache v1 = orders_accounting_cache v) /\
  forall NN, nonces_show v NN ->
    exists NN', nonces_show v' NN' /\ advances NN (omap input_nonce (inputs (transaction tx))) NN'.
Proof.
  intros HU Hrun. unfold connect_transaction in Hrun. set (tt' := transaction tx) in *.
  apply st_bind_Ok in Hrun as (w & v1 & Hw & Hrun). injection Hw as <- <-.
  apply st_bind_Ok in Hrun as (? & v1 & [-> _]%lift_Ok & Hrun).
  apply st_bind_Ok in Hrun as ([] & v1 & (iss & _ & Hv)%zoom_Ok & Hrun). fields Hv.
  apply st_bind_Ok in Hrun as (? & v2 & [-> _]%gets_Ok & Hrun). apply st_bind_Ok in Hrun as (? & v2 & [-> _]%gets_Ok & Hrun).
  apply st_bind_Ok in Hrun as ([] & v2 & Hc & Hrun).
  apply (connect_pos_frame _ _ _ _ Us) in Hc as (a & N1 & d1 & Hv & Hm1); [|by rewrite_fields]. fields Hv.
  apply st_bind_Ok in Hrun as ([] & v3 & Hc & Hrun).
  apply connect_tokens_frame in Hc as (Hck & c & N2 & d2 & Hv & Hm2). fields Hv.
  apply st_bind_Ok in Hrun as ([] & v4 & Hc & Hrun).
  apply connect_orders_frame in Hc as (o & N3 & d3 & Hv & Hm3). fields Hv.
  apply st_bind_Ok in Hrun as (tu & v5 & (uc & _ & Hv)%zoom_Ok & Hrun). fields Hv.
  apply st_bind_Ok in Hrun as ([] & v6 & (ud & _ & Hv)%zoom_Ok & [-> _]%mret_Ok). fields Hv.
  split; [exists v2; split_and!; congruence|].
  intros NN Hshow. destruct (proj2 Hm1 NN) as (NN1 & Hs1 & Ha1); [same_nonces|].
  destruct (proj2 Hm2 NN1) as (NN2 & Hs2 & Ha2); [same_nonces|]. destruct (proj2 Hm3 NN2) as (NN3 & Hs3 & Ha3); [same_nonces|].
  exists NN3. split; [same_nonces|]. eapply advances_ext; [intros a'; apply nonces_by_kind|].
  by repeat (eapply advances_app; [eassumption|]).
Qed.

(** ** Frozen tokens *)

Definition value_tokens (x : OutputValue) : list TokenId := match x with TokenV1 id _ => [id] | _ => [] end.

Definition output_tokens (out : TxOutput) : list TokenId :=
  match out with
  | Transfer x _ | Burn x | LockThenTransfer x _ _ | Htlc x _ => value_tokens x
  | CreateOrder d => value_tokens (co_ask d) ++ value_tokens (co_give d)
  | _ => []
  end.

Definition order_tokens (X : ChainState) (id : OrderId) : list TokenId :=
  match Orders.l_order (s_orders X) id with
  | Some d => value_tokens (Orders.ask d) ++ value_tokens (Orders.give d)
  | None => []
  end.

(** The tokens an input touches: those of the output it spends, since the
    upgrade that validates it, the token it manages, except to unfreeze it, or
    those of the order it fills or concludes. *)
Definition input_tokens (X : ChainState) (spending_checked : bool) (i : TxInput) : list TokenId :=
  match i with
  | InputUtxo k =>
      match s_utxos X k with Some u => if spending_checked then output_tokens (output u) else [] | None => [] end
  | InputAccount _ => []
  | InputAccountCommand _ cmd =>
      match cmd with
      | AccountCommand.MintTokens id _ | AccountCommand.UnmintTokens id | AccountCommand.LockTokenSupply id
      | AccountCommand.FreezeToken id _ | AccountCommand.ChangeTokenAuthority id _
      | AccountCommand.ChangeTokenMetadataUri id _ => [id]
      | AccountCommand.UnfreezeToken _ => []
      | AccountCommand.ConcludeOrder id | AccountCommand.FillOrder id _ _ => order_tokens X id
      end
  | InputOrderAccountCommand cmd =>
      match cmd with
      | OrderAccountCommand.FillOrder id _ | OrderAccountCommand.ConcludeOrder id => order_tokens X id
      | OrderAccountCommand.FreezeOrder _ => []
      end
  end.

Definition frozen (X : ChainState) (id : TokenId) : bool :=
  match Tokens.l_token (s_tokens X) id with Some (Tokens.FungibleToken d) => Tokens.is_frozen d | None => false end.

Definition spending_checked (cfg : ChainConfig) (height : BlockHeight) : bool :=
  match chainstate_upgrade_at cfg height : result Empty_set _ with
  | Ok u => match frozen_tokens_validation_version u with
            | FrozenTokensValidationVersion.V0 => false
            | FrozenTokensValidationVersion.V1 => true
            end
  | _ => false
  end.

Lemma check_each_Ok {X E} (f : X -> result E unit) l : check_each f l = Ok tt -> forall x, x ∈ l -> f x = Ok tt.
Proof.
  induction l as [|y l IH]; simpl; [intros _ x Hx; by apply not_elem_of_nil in Hx|].
  intros ([] & Hy & Hl)%result_bind_Ok x [->|Hx]%elem_of_cons; [done|by apply IH].
Qed.

Section frozen.
Context (v : V) (X : ChainState).
Hypothesis Htokens : exists b, tokens_rep b (tokens_accounting_cache v) (s_tokens X).
Hypothesis Horders : exists b, orders_rep b (orders_accounting_cache v) (s_orders X).
Hypothesis Hutxos : forall k, utxo (utxo_cache v) k = Ok (s_utxos X k).

Lemma check_not_frozen_Ok id : check_not_frozen v id = Ok tt -> frozen X id = false.
Proof.
  destruct Htokens as [lp Hrep]. unfold check_not_frozen, frozen. rewrite (Tokens.cache_rep_token _ _ _ _ Hrep). simpl.
  destruct (Tokens.l_token (s_tokens X) id) as [[d]|]; [|done]. by destruct (Tokens.is_frozen d).
Qed.

Lemma check_value_Ok x id : check_value_not_frozen v x = Ok tt -> id ∈ value_tokens x -> frozen X id = false.
Proof.
  destruct x; simpl; intros Hck Hid; try by apply not_elem_of_nil in Hid.
  apply list_elem_of_singleton in Hid as ->. by apply check_not_frozen_Ok.
Qed.

Lemma check_values_Ok x y id : check_each (check_value_not_frozen v) [x; y] = Ok tt ->
  id ∈ value_tokens x ++ value_tokens y -> frozen X id = false.
Proof.
  intros Hck Hid. apply elem_of_app in Hid as [Hid|Hid]; (eapply check_value_Ok; [|exact Hid]);
    apply (check_each_Ok _ _ Hck); set_solver.
Qed.

Lemma check_tx_output_Ok out id : check_tx_output v out = Ok tt -> id ∈ output_tokens out -> frozen X id = false.
Proof.
  destruct out; cbn [check_tx_output output_tokens]; intros Hck Hid; try by apply not_elem_of_nil in Hid.
  all: first [by eapply check_value_Ok|by eapply check_values_Ok].
Qed.

Lemma check_order_Ok oid id :
  check_order_doesnt_use_frozen_token v oid = Ok tt -> id ∈ order_tokens X oid -> frozen X id = false.
Proof.
  destruct Horders as [lp Hrep]. unfold check_order_doesnt_use_frozen_token, order_tokens.
  rewrite (Orders.cache_rep_order _ _ _ _ Hrep). cbn [map_err mbind result_bind].
  destruct (Orders.l_order (s_orders X) oid) as [d|]; [|done]. apply check_values_Ok.
Qed.

Lemma check_input_Ok height i id : check_input_not_frozen v height i = Ok tt ->
  id ∈ input_tokens X (spending_checked (chain_config v) height) i -> frozen X id = false.
Proof.
  destruct i as [k|o|n cmd|cmd]; cbn [check_input_not_frozen input_tokens].
  - rewrite Hutxos. simpl. destruct (s_utxos X k) as [u|]; simpl; [|done]. unfold spending_checked.
    intros (up & Hup & Hck)%result_bind_Ok.
    assert (chainstate_upgrade_at (chain_config v) height = (Ok up : result Empty_set _)) as ->.
    { unfold chainstate_upgrade_at, version_at_height in *. destruct (List.find _ _); [by injection Hup as <-|done]. }
    destruct (frozen_tokens_validation_version up); [intros Hid; by apply not_elem_of_nil in Hid|].
    by apply check_tx_output_Ok.
  - intros _ Hid. by apply not_elem_of_nil in Hid.
  - destruct cmd; intros Hck Hid; first [by eapply check_order_Ok|by apply not_elem_of_nil in Hid
      |apply list_elem_of_singleton in Hid as ->; by apply check_not_frozen_Ok].
  - destruct cmd; intros Hck Hid; first [by eapply check_order_Ok|by apply not_elem_of_nil in Hid].
Qed.
End frozen.

(** ** The undo records of a block *)

(** Where outputs of the transactions [ids] may be, and what was there before. *)
Definition made_by (U0 : UtxoSet) (ids : list TxId) (Us : UtxoSet) : Prop :=
  forall k, Us k <> None -> U0 k <> None \/ exists p, op_source_id k = SourceTransaction p /\ p ∈ ids.

(** The records [es] of a block, the latest first, are kept: no transaction
    depends on a later one. *)
Record block_held src v (es : list (TxId * tx_undos)) : Prop := {
  bk_utxos : exists R deps, UtxosUndo.holds (utxo_block_undo v) (undo_fetcher v) src
      (list_to_map (prod_map (fun id => id) u_utxos <$> es)) R deps /\
    forall es1 e es2, es = es1 ++ e :: es2 -> forall c, deps c e.1 -> c ∈ es1.*1;
  bk_accounting : forall e, e ∈ es -> accounting_held src v e.1 e.2
}.

Definition no_undos : tx_undos := mk_undos [] [] [] [].

(** Nothing else of the block is kept, here or below. *)
Record room_over (F : UndoFetchers) src v (U0 : UtxoSet) (es : list (TxId * tx_undos)) : Prop := {
  rm_utxos : exists R deps, UtxosUndo.local (utxo_block_undo v) (f_utxos F) src /\
    UtxosUndo.holds (utxo_block_undo v) (f_utxos F) src
      (list_to_map (prod_map (fun id => id) u_utxos <$> es)) R deps /\
    (forall es1 e es2, es = es1 ++ e :: es2 -> forall c, deps c e.1 -> c ∈ es1.*1) /\
    (forall c p, deps c p -> p ∈ es.*1 \/ ~ unused (SourceTransaction p) U0);
  rm_local : AccountingUndo.local (pos_accounting_block_undo v) (f_pos F) src /\
    AccountingUndo.local (tokens_accounting_block_undo v) (f_tokens F) src /\
    AccountingUndo.local (orders_accounting_block_undo v) (f_orders F) src;
  rm_accounting : forall e, e ∈ es -> accounting_held_over F src v e.1 e.2;
  rm_rest : forall id, id ∉ es.*1 -> accounting_held_over F src v id no_undos
}.
Definition room src v : UtxoSet -> list (TxId * tx_undos) -> Prop := room_over (fetchers v) src v.

Lemma room_held src v U0 es : room src v U0 es -> block_held src v es.
Proof. intros [(R & deps & _ & Hh & Ho & _) _ Ha _]. split; [by exists R, deps|done]. Qed.

(** A block of which nothing is kept. *)
Definition new_block_over (F : UndoFetchers) src v : Prop :=
  utxo_block_undo v !! src = None /\ f_utxos F src = Ok None /\
  pos_accounting_block_undo v !! src = None /\ f_pos F src = Ok None /\
  tokens_accounting_block_undo v !! src = None /\ f_tokens F src = Ok None /\
  orders_accounting_block_undo v !! src = None /\ f_orders F src = Ok None.
Definition new_block src v : Prop := new_block_over (fetchers v) src v.

Lemma new_block_room F src v U0 : new_block_over F src v -> room_over F src v U0 [].
Proof.
  intros (H1' & H2' & H3' & H4' & H5' & H6' & H7' & H8').
  split.
  - exists None, (fun _ _ => False). split; [by intros _|]. split.
    + exists None. unfold UtxosUndo.block_undo_of. rewrite H1', H2'. split; [done|]. apply UtxosUndo.empty_undo_holds. tauto.
    + split; [|done]. intros es1 e es2 Heq. by destruct es1.
  - split_and!; by intros _.
  - intros e He. by apply not_elem_of_nil in He.
  - intros id _. split; exists None; unfold AccountingUndo.block_undo_of; (split; [|done]);
      by rewrite ?H3', ?H5', ?H7'.
Qed.

Lemma recorded_held {Un} (data data' : AccountingUndo.AccountingBlockUndoCache Un) fetcher src id us :
  AccountingUndo.local data fetcher src -> AccountingUndo.holds_undos data fetcher src id [] ->
  recorded data src id us data' ->
  AccountingUndo.local data' fetcher src /\ AccountingUndo.holds_undos data' fetcher src id us /\
  keeps data data' fetcher src id.
Proof.
  intros Hloc Hlacks Hrec. destruct us as [|u us]; simpl in Hrec; [subst data'; split_and!; try done; by intros ???|].
  destruct (AccountingUndo.add_tx_undo_holds _ _ _ _ _ fetcher Hrec) as [Hh Hl].
  split; [done|]. split; [done|]. intros id' us' Hne. by eapply AccountingUndo.add_tx_undo_frame.
Qed.

Lemma outpoint_of k i : op_source_id k = i -> exists n, k = outpoint i n.
Proof.
  intros <-. exists (Z.to_nat (ival (op_output_index k))). destruct k as [i n]. unfold outpoint. f_equal. simpl.
  apply bint_eq. pose proof (bint_range n). rewrite as_u32_val by lia. lia.
Qed.

(** An input spends what is there. *)
Lemma source_spent ins Us us U1 p : spend_inputs ins Us = Some (us, U1) ->
  SourceTransaction p ∈ op_source_id <$> omap utxo_outpoint ins -> exists n, Us (outpoint (SourceTransaction p) n) <> None.
Proof.
  intros (_ & _ & _ & Hkeys & Hpairs & _)%spend_inputs_Some (k & Hk & Hin)%list_elem_of_fmap.
  rewrite <- Hkeys in Hin. apply list_elem_of_fmap in Hin as ([k' u] & -> & Hin). apply Hpairs in Hin. simpl in *.
  destruct (outpoint_of k' (SourceTransaction p)) as [n Hn]; [done|]. exists n. rewrite <- Hn. by rewrite Hin.
Qed.

(** A transaction adds its own outputs only. *)
Lemma made_by_next U0 ids (t : Transaction) usrc u X X' : made_by U0 ids (s_utxos X) -> undoes t usrc u X X' ->
  made_by U0 (get_id t :: ids) (s_utxos X').
Proof.
  intros Hmade Hun k Hk. destruct (un_utxos _ _ _ _ _ Hun) as (U1 & Hspend & HX'). rewrite HX' in Hk.
  destruct (decide (k ∈ (included (SourceTransaction (get_id t)) usrc (outputs t)).*1)) as [Hin|Hout].
  - apply included_key in Hin as [i ->]. right. exists (get_id t). split; [done|set_solver].
  - rewrite (add_all_out _ _ _ Hout) in Hk. apply spend_inputs_Some in Hspend as (_ & _ & HU1 & _).
    rewrite HU1 in Hk. case_decide; [done|]. destruct (Hmade k Hk) as [?|(p & ? & ?)]; [by left|].
    right. exists p. split; [done|set_solver].
Qed.

(** Connecting makes room for one more. *)
Lemma room_next F src v v' U0 es X X' (t : Transaction) usrc u :
  room_over F src v U0 es -> records src v t u v' -> undoes t usrc u X X' ->
  made_by U0 es.*1 (s_utxos X) -> get_id t ∉ es.*1 -> unused (SourceTransaction (get_id t)) U0 ->
  room_over F src v' U0 ((get_id t, u) :: es).
Proof.
  intros [(R & deps & Hloc & Hh & Hord & Hpar) (Hl1 & Hl2 & Hl3) Hacc Hrest] [Hu Hp Ht Ho _ _ Hst _] Hun Hmade Hid Hunused.
  destruct (Hrest _ Hid) as [Ha1 Ha2 Ha3].
  destruct (recorded_held _ _ _ _ _ _ Hl1 Ha1 Hp) as (Hl1' & Hh1 & Hk1).
  destruct (recorded_held _ _ _ _ _ _ Hl2 Ha2 Ht) as (Hl2' & Hh2 & Hk2).
  destruct (recorded_held _ _ _ _ _ _ Hl3 Ha3 Ho) as (Hl3' & Hh3 & Hk3).
  assert (forall id u', get_id t <> id -> accounting_held_over F src v id u' -> accounting_held_over F src v' id u') as Hkeep.
  { intros id u' Hne [? ? ?]. split; auto. }
  destruct (UtxosUndo.utxos_add_tx_undo_holds _ _ _ _ _ _ _ _ _ Hloc Hh Hu) as [Hloc' Hh'].
  destruct (un_utxos _ _ _ _ _ Hun) as (U1 & Hspend & _).
  assert (forall p, SourceTransaction p ∈ op_source_id <$> omap utxo_outpoint (inputs t) ->
    p ∈ es.*1 \/ ~ unused (SourceTransaction p) U0) as Hsrc.
  { intros p Hp'. destruct (source_spent _ _ _ _ _ Hspend Hp') as [n Hn].
    destruct (Hmade _ Hn) as [HU0|(q & [= <-] & Hq)]; [|by left]. right. intros Hunp. by apply HU0. }
  split; [eexists R, _; split; [exact Hloc'|]; split; [exact Hh'|]; split|by split_and!|..].
  - intros es1 e es2 Heq c. destruct es1 as [|e0 es1]; simplify_eq/=; intros [Hc|[-> Hc]].
    + destruct (Hpar _ _ Hc) as [Hc'|Hc']; [done|]. by destruct Hc'.
    + destruct (Hsrc _ Hc) as [Hc'|Hc']; [done|]. by destruct Hc'.
    + apply elem_of_cons. right. by eapply Hord.
    + apply elem_of_cons. by left.
  - simpl. intros c p [Hc|[-> Hc]]; [destruct (Hpar _ _ Hc)|destruct (Hsrc _ Hc)]; set_solver.
  - intros e [->|He]%elem_of_cons; [by split|].
    apply Hkeep; [|by apply Hacc]. intros Heq. apply Hid. rewrite Heq. by apply list_elem_of_fmap_2.
  - intros id [Hne Hin]%not_elem_of_cons. apply Hkeep; [done|by apply Hrest].
Qed.

(** ** The transactions of a block *)

Section sequence.
Context (cfg : ChainConfig) (height : BlockHeight) (usrc : UtxoSource) (src : TransactionSource).
Implicit Types (txs : list SignedTransaction) (l : list (SignedTransaction * tx_undos)).

(** Every transaction is in range of the state it is connected in. *)
Fixpoint txs_in_range txs (X : ChainState) : Prop :=
  match txs with
  | [] => True
  | tx :: txs => tx_in_range cfg height (transaction tx) X /\
      forall X1, tx_effect cfg height usrc (transaction tx) X X1 -> txs_in_range txs X1
  end.

Fixpoint txs_effect txs (X X' : ChainState) : Prop :=
  match txs with
  | [] => X' = X
  | tx :: txs => exists X1, tx_effect cfg height usrc (transaction tx) X X1 /\ txs_effect txs X1 X'
  end.

(** Each of the undo records leads back over its transaction. *)
Fixpoint undo_chain l (X X' : ChainState) : Prop :=
  match l with
  | [] => X' = X
  | (tx, u) :: l => exists X1, undoes (transaction tx) usrc u X X1 /\ undo_chain l X1 X'
  end.

Definition entries l : list (TxId * tx_undos) := (fun e => (get_id (transaction e.1), e.2)) <$> l.

Lemma undo_chain_snoc l tx u X X' :
  undo_chain (l ++ [(tx, u)]) X X' <-> exists X1, undo_chain l X X1 /\ undoes (transaction tx) usrc u X1 X'.
Proof.
  revert X. induction l as [|[t w] l IH]; intros X; simpl; [naive_solver|].
  setoid_rewrite IH. naive_solver.
Qed.

Lemma entries_ids l : (entries l).*1 = (fun tx => get_id (transaction tx)) <$> l.*1.
Proof. unfold entries. by rewrite <- !list_fmap_compose. Qed.

(** The latest transaction of those that are kept can be disconnected. *)
Lemma disconnect_held B tx u es w X X' :
  undoes (transaction tx) usrc u X X' -> shows_over B src w X' ->
  block_held src w ((get_id (transaction tx), u) :: es) -> get_id (transaction tx) ∉ es.*1 ->
  nft_stored w (transaction tx) ->
  exists w', disconnect_transaction src tx w = (w', Ok tt) /\ shows_over B src w' X /\ block_held src w' es /\
    storage w' = storage w /\
    forall id, has_tokens_issuance_to_cache (outputs (transaction tx)) <> Some id ->
      aux_data (token_issuance_cache w') !! id = aux_data (token_issuance_cache w) !! id.
Proof.
  intros Hun Hs [(R & deps & Hh & Hord) Hacc] Hid Hnft.
  edestruct (disconnect_transaction_core B src tx usrc u w X X') as (w' & Hrun & Hs' & Hst & Hh' & Hk & Haux);
    [done|done|exact Hh|simpl; by rewrite lookup_insert_eq| |apply (Hacc (get_id (transaction tx), u)); by left|done|].
  { intros c Hc. pose proof (Hord [] _ es eq_refl c Hc) as Hin. by apply not_elem_of_nil in Hin. }
  exists w'. split; [done|]. split; [done|]. split; [|done]. split.
  - eexists R, _. split.
    + match type of Hh' with UtxosUndo.holds _ _ _ ?m _ _ => replace m with
        (list_to_map (prod_map (fun id => id) u_utxos <$> es) : gmap TxId _) in Hh'; [exact Hh'|] end.
      simpl. rewrite delete_insert_id; [done|]. apply not_elem_of_list_to_map_1.
      by rewrite <- list_fmap_compose.
    + intros es1 e es2 -> c [Hc Hne]. specialize (Hord ((get_id (transaction tx), u) :: es1) e es2 eq_refl c Hc).
      simpl in Hord. apply elem_of_cons in Hord as [->|Hin]; [done|done].
  - intros e He. apply Hk; [|apply Hacc; by right]. intros Heq. apply Hid. rewrite Heq. by apply list_elem_of_fmap_2.
Qed.

(** The transactions of a block are disconnected from the latest on. *)
Lemma disconnect_chain B l es w X X' :
  undo_chain l X X' -> shows_over B src w X' -> block_held src w (reverse (entries l) ++ es) ->
  NoDup (((entries l) ++ es).*1) -> Forall (fun tx => nft_stored w (transaction tx)) l.*1 ->
  NoDup (omap (fun tx => has_tokens_issuance_to_cache (outputs (transaction tx))) l.*1) ->
  exists w', try_for_each (disconnect_transaction src) (reverse l.*1) w = (w', Ok tt) /\ shows_over B src w' X /\
    block_held src w' es.
Proof.
  revert w X'. induction l as [|[tx u] l IH] using rev_ind; intros w X' Hch Hs Hh Hnd Hnft Hndn.
  { simpl in Hch. subst X'. by exists w. }
  apply undo_chain_snoc in Hch as (X1 & Hch & Hun). unfold entries in *.
  rewrite fmap_app, reverse_app in Hh. simpl in Hh. rewrite !fmap_app in Hnd. rewrite fmap_app in Hnft, Hndn |- *.
  rewrite reverse_app. simpl in *. apply Forall_app in Hnft as [Hnft [Hnft1 _]%Forall_cons].
  rewrite omap_app in Hndn. apply NoDup_app in Hndn as (Hndn & Hdis & _).
  rewrite <- app_assoc in Hnd. apply NoDup_app in Hnd as (Hnd1 & Hd1 & Hnd2). simpl in Hnd2.
  apply NoDup_cons in Hnd2 as [Hid Hnd2].
  destruct (disconnect_held B tx u _ w X1 X' Hun Hs Hh) as (w1 & Hrun & Hs1 & Hh1 & Hst & Haux); [|done|].
  { rewrite fmap_app, not_elem_of_app. split; [|done]. intros (e & He & Hin)%list_elem_of_fmap.
    apply (Hd1 e.1); [apply list_elem_of_fmap; exists e; split; [done|by apply elem_of_reverse]|]. rewrite <- He. left. }
  destruct (IH w1 X1 Hch Hs1 Hh1) as (w2 & Hrun2 & Hs2 & Hh2).
  - rewrite fmap_app. apply NoDup_app. split; [done|]. split; [|done]. intros x Hx Hin. apply (Hd1 x Hx). by right.
  - apply Forall_forall. intros t Ht. apply Forall_forall with (x := t) in Hnft; [|done]. unfold nft_stored in *.
    destruct (has_tokens_issuance_to_cache (outputs (transaction t))) as [id|] eqn:Hn; [|done].
    rewrite Hst, Haux; [done|]. intros Heq. apply (Hdis id); [apply list_elem_of_omap; by exists t|].
    simpl. rewrite Heq. by left.
  - done.
  - exists w2. split; [|done]. by rewrite (st_bind_run _ _ _ _ _ Hrun).
Qed.
End sequence.

Lemma connect_chain F B (K : V -> Prop) (bi : BlockIndex) (id : BlockId) t txs total v v' X U0 es total' :
  let tx_source := SourceChain bi in
  let src := source_of tx_source in
  let usrc := to_utxo_source tx_source in
  (forall v t u v', K v -> records src v t u v' -> K v') -> K v ->
  shows_over B src v X -> state_inv X -> txs_in_range (chain_config v) (bi_block_height bi) usrc txs X ->
  room_over F src v U0 es -> made_by U0 es.*1 (s_utxos X) ->
  NoDup ((fun tx => get_id (transaction tx)) <$> txs) ->
  Forall (fun tx => (get_id (transaction tx) ∉ es.*1) /\ unused (SourceTransaction (get_id (transaction tx))) U0) txs ->
  connect_transactions bi id t total txs v = (v', Ok total') ->
  exists X' l, l.*1 = txs /\ shows_over B src v' X' /\ state_inv X' /\
    txs_effect (chain_config v) (bi_block_height bi) usrc txs X X' /\ undo_chain usrc l X X' /\
    room_over F src v' U0 (reverse (entries l) ++ es) /\ storage v' = storage v /\ K v'.
Proof.
  intros tx_source src usrc HK. revert v X es total.
  induction txs as [|tx txs IH]; intros v X es total Hk Hs Hinv Hr Hroom Hmade Hnd Hfr Hrun.
  { injection Hrun as <- <-. by exists X, []. }
  simpl in Hrun. apply st_bind_Ok in Hrun as (fee & v1 & Hc & Hrun).
  apply st_bind_Ok in Hrun as (total1 & v2 & [-> _]%lift_Ok & Hrun). destruct Hr as [Hr1 Hr].
  destruct (connect_transaction_core B tx_source tx t v v1 X fee Hs Hinv Hr1 Hc)
    as (X1 & u & Hs1 & Hinv1 & Heff & Hun & Hrec).
  apply NoDup_cons in Hnd as [Hid Hnd]. apply Forall_cons in Hfr as [[Hid1 Hunused] Hfr].
  pose proof (room_next _ _ _ _ _ _ _ _ _ _ _ Hroom Hrec Hun Hmade Hid1 Hunused) as Hroom1.
  pose proof (made_by_next _ _ _ _ _ _ _ Hmade Hun) as Hmade1.
  destruct (IH v1 X1 ((get_id (transaction tx), u) :: es) total1)
    as (X' & l & Hl & Hs' & Hinv' & Heff' & Hch & Hroom' & Hst & Hk');
    [by eapply HK|exact Hs1|exact Hinv1| |exact Hroom1|exact Hmade1|exact Hnd| |exact Hrun|].
  { rewrite (rc_config _ _ _ _ _ Hrec). by apply Hr. }
  { apply Forall_forall. intros t' Ht'. apply Forall_forall with (x := t') in Hfr as [Hn ?]; [|done]. split; [|done].
    simpl. apply not_elem_of_cons. split; [|done]. intros Heq. apply Hid, list_elem_of_fmap. by exists t'. }
  exists X', ((tx, u) :: l). split; [rewrite fmap_cons; by rewrite Hl|]. split; [done|]. split; [done|].
  rewrite (rc_config _ _ _ _ _ Hrec) in Heff'. split; [by exists X1|]. split; [by exists X1|].
  unfold entries in *. rewrite fmap_cons, reverse_cons, <- app_assoc. split; [done|].
  split; [by rewrite Hst, (rc_storage _ _ _ _ _ Hrec)|done].
Qed.

(** * Main properties *)

(** C5: connecting a transaction does to the state of the chain exactly what the
    transaction says.  If it succeeds in a verifier that shows the state [X],
    then the verifier shows the state [X'] in which the outputs that the inputs
    name are spent and the new ones are there, the operations of the inputs and
    outputs have been executed, in order, on the ledgers of pools, tokens and
    orders, and every account has used the nonces that came next.  The
    invariants of the ledgers are preserved. *)
Theorem connect_transaction_effect tx_source tx t v v' X fee :
  shows (source_of tx_source) v X -> state_inv X ->
  tx_in_range (chain_config v) (expected_block_height tx_source) (transaction tx) X ->
  connect_transaction tx_source tx t v = (v', Ok fee) ->
  exists X', shows (source_of tx_source) v' X' /\ state_inv X' /\
    tx_effect (chain_config v) (expected_block_height tx_source) (to_utxo_source tx_source) (transaction tx) X X'.
Proof.
  intros [B Hs] Hinv Hr Hrun.
  destruct (connect_transaction_core _ _ _ _ _ _ _ _ Hs Hinv Hr Hrun) as (X' & u & ? & ? & ? & _).
  exists X'. split; [by exists B|done].
Qed.

(** C4: a transaction that is connected conserves value: for every currency,
    the outputs that it spends and what the ledgers give up are worth exactly
    its outputs, the fees of its commands and the fee that connecting it
    returns. *)
Theorem connected_transaction_conserves_value tx_source tx t v v' X fee Os D :
  shows (source_of tx_source) v X -> Conservation.world_inv Os D (world_of X) ->
  connect_transaction tx_source tx t v = (v', Ok fee) ->
  let height := expected_block_height tx_source in
  let ins := inputs (transaction tx) in
  exists W, Conservation.apply_inputs (chain_config v) height (world_of X) ins = Some W /\
    Conservation.world_inv Os D W /\
    forall c, Conservation.inputs_value (world_of X) (zip ins (spent_outputs X ins)) c
        + Conservation.world_value Os D (world_of X) c
      = Conservation.world_value Os D W c + Conservation.outputs_value (chain_config v) height (outputs (transaction tx)) c
        + Conservation.command_fees (chain_config v) height ins c + Conservation.fee_value_of fee c.
Proof.
  intros Hs Hw Hrun. apply connect_checked in Hrun as [_ Hpol].
  unfold check_tx_inputs_outputs_policy in Hpol.
  apply result_bind_Ok in Hpol as (? & _ & Hpol). apply result_bind_Ok in Hpol as (? & _ & Hpol).
  apply result_bind_Ok in Hpol as (up & _ & Hpol). apply result_bind_Ok in Hpol as (? & _ & Hpol).
  apply result_bind_Ok in Hpol as (us & Hus & Hpol). apply result_bind_Ok in Hpol as (ins & Hins%map_err_Ok & Hpol).
  apply result_bind_Ok in Hpol as (outs & Houts%map_err_Ok & Hfee%map_err_Ok).
  rewrite (spent_outputs_read _ _ _ _ _ Hs Hus) in Hins.
  exact (Conservation.transaction_conserves_value _ _ _ _ _ _ _ _ _ _ _ _ _ _ (shows_views _ _ _ Hs) Hw Hins Houts Hfee).
Qed.

(** C6: disconnecting the transactions of a block, the latest first, undoes
    connecting them.  If all of them were connected, then the verifier keeps
    the records that undo them, and any verifier that shows the state they led
    to, keeps these records, and has the NFTs that they issued, all different,
    stored below it and not in its own cache, disconnects them all and shows the
    state from before.  If they issued no NFT, the verifier that connected them is
    one of these; a verifier that has the NFT in its cache, like the one that
    connected the issuance, refuses to disconnect it ([unregister_cached]). *)
Theorem block_transactions_roundtrip (bi : BlockIndex) (id : BlockId) t txs total v v' X total' :
  let src := TransactionSource.Chain (bi_block_id bi) in
  shows src v X -> state_inv X ->
  txs_in_range (chain_config v) (bi_block_height bi) (to_utxo_source (SourceChain bi)) txs X ->
  new_block src v -> NoDup ((fun tx => get_id (transaction tx)) <$> txs) ->
  Forall (fun tx => unused (SourceTransaction (get_id (transaction tx))) (s_utxos X)) txs ->
  connect_transactions bi id t total txs v = (v', Ok total') ->
  exists X' es, shows src v' X' /\ state_inv X' /\
    txs_effect (chain_config v) (bi_block_height bi) (to_utxo_source (SourceChain bi)) txs X X' /\
    block_held src v' es /\
    forall w, shows src w X' -> block_held src w es ->
      Forall (fun tx => nft_stored w (transaction tx)) txs ->
      NoDup (omap (fun tx => has_tokens_issuance_to_cache (outputs (transaction tx))) txs) ->
      exists w', try_for_each (disconnect_transaction src) (reverse txs) w = (w', Ok tt) /\ shows src w' X.
Proof.
  intros src [B Hs] Hinv Hr Hnew Hnd Hun Hrun.
  destruct (connect_chain (fetchers v) B (fun _ => True) bi id t txs total v v' X (s_utxos X) [] total' ltac:(done) I Hs Hinv Hr)
    as (X' & l & <- & Hs' & Hinv' & Heff & Hch & Hroom & Hst & _); [| |exact Hnd| |exact Hrun|].
  { by apply new_block_room. }
  { intros k Hk. by left. }
  { eapply Forall_impl; [exact Hun|]. intros tx ?. split; [apply not_elem_of_nil|done]. }
  exists X', (reverse (entries l)). rewrite app_nil_r in Hroom. split; [by exists B|]. do 2 (split; [done|]).
  split; [apply (room_held _ _ (s_utxos X)); unfold room; by rewrite (fetchers_same v)|]. intros w [Bw Hw] Hheld Hnft Hndn.
  destruct (disconnect_chain (to_utxo_source (SourceChain bi)) src Bw l [] w X X') as (w' & ? & ? & _); try done.
  - by rewrite app_nil_r.
  - by rewrite app_nil_r, entries_ids.
  - exists w'. split; [done|by exists Bw].
Qed.

(** C8: a nonce is used once.  If an account has used the nonce that an input
    names, then no transaction with this input is connected, whatever else it
    does. *)
Theorem used_nonce_is_refused tx_source tx t v X i a n :
  shows (source_of tx_source) v X -> i ∈ inputs (transaction tx) -> input_nonce i = Some (a, n) ->
  ival n <= nonce_val (s_nonces X a) ->
  forall v' fee, connect_transaction tx_source tx t v <> (v', Ok fee).
Proof.
  intros Hs Hi Hn Hle v' fee Hrun.
  destruct (connect_frame _ _ _ _ _ (s_utxos X) _ (fun k => shows_utxo _ _ _ k Hs) Hrun) as [_ Hnon].
  destruct Hs as [B Hs]. destruct (Hnon _ (sh_nonces _ _ _ _ Hs)) as (NN & _ & Hadv). destruct (Hadv a) as [Hseq _].
  assert (ival n ∈ nonces_for a (omap input_nonce (inputs (transaction tx)))) as Hin.
  { apply list_elem_of_omap. exists (a, n). simpl. rewrite decide_True by done. split; [|done].
    apply list_elem_of_omap. by exists i. }
  rewrite Hseq in Hin. apply elem_of_seqZ in Hin. lia.
Qed.

(** C9: a frozen token does not move.  A transaction that is connected neither
    has an output in a token that is frozen at that moment, nor issues a command
    for it other than to unfreeze it, nor fills or concludes an order that asks
    or gives it, nor, since the upgrade that validates it, spends an output in
    it. *)
Theorem frozen_token_does_not_move tx_source tx t v v' X fee id :
  shows (source_of tx_source) v X -> connect_transaction tx_source tx t v = (v', Ok fee) -> frozen X id = true ->
  (forall out, out ∈ outputs (transaction tx) -> id ∉ output_tokens out) /\
  forall i, i ∈ inputs (transaction tx) ->
    id ∉ input_tokens X (spending_checked (chain_config v) (expected_block_height tx_source)) i.
Proof.
  intros Hs Hrun Hfr.
  destruct (connect_frame _ _ _ _ _ (s_utxos X) _ (fun k => shows_utxo _ _ _ k Hs) Hrun)
    as [(v1 & Hck & Hcfg & Hu & Ht & Ho) _].
  apply result_bind_Ok in Hck as ([] & Hins & Houts).
  assert (forall k, utxo (utxo_cache v1) k = Ok (s_utxos X k)) as HU
    by (intros k; rewrite Hu; by eapply shows_utxo).
  destruct Hs as [B [_ _ Hst Hso _]]. rewrite <- Ht in Hst. rewrite <- Ho in Hso.
  split.
  - intros out Hout Hid. pose proof (check_each_Ok _ _ Houts out Hout) as Hc.
    enough (frozen X id = false) by congruence. eapply check_tx_output_Ok; by eauto.
  - intros i Hi Hid. pose proof (check_each_Ok _ _ Hins i Hi) as Hc. rewrite <- Hcfg in Hid.
    enough (frozen X id = false) by congruence. eapply check_input_Ok; by eauto.
Qed.
End connect.

(** ** Block rewards *)

Section rewards.
Context `{CryptoTypes} `{!TxHash} {P : Type} `{!UtxosView P}.

(** The pool that an output belongs to, and its staker. *)
Definition pool_of (out : TxOutput) : option (PoolId * Destination) :=
  match out with
  | CreateStakePool id d => Some (id, sp_staker d)
  | ProduceBlockFromStake d id => Some (id, d)
  | _ => None
  end.

Lemma fee_value_nonneg fee c : 0 <= Conservation.fee_value_of fee c.
Proof.
  unfold Conservation.fee_value_of, Constraints.gross. simpl.
  pose proof (Constraints.held_range (Constraints.fee_unconstrained_value fee) c).
  case_decide; [|lia]. pose proof (Constraints.msum_nonneg (fun _ => True) (Constraints.fee_timelock_constrained fee)). lia.
Qed.

Lemma from_block_reward_gross fees subsidy a : Constraints.from_block_reward fees subsidy = Some a ->
  forall c, Constraints.gross a c = if decide (c = CoinOrTokenId.Coin) then ival fees + ival subsidy else 0.
Proof.
  unfold Constraints.from_block_reward. destruct (Amount.add fees subsidy) as [x|] eqn:Hx; simpl; [|done].
  intros [= <-] c. apply Amount_add_Some in Hx. unfold Constraints.gross, Constraints.held. simpl.
  case_decide as Hc; [|by rewrite lookup_singleton_ne].
  subst c. rewrite lookup_singleton_eq. simpl. unfold Constraints.msum. rewrite dom_empty_L, sum_over_empty. lia.
Qed.

Lemma all_utxos ins : forallb is_utxo ins = true -> ins = InputUtxo <$> omap utxo_outpoint ins.
Proof. induction ins as [|[] ins IH]; simpl; try done. intros Hall. f_equal. by apply IH. Qed.

(** The kernel of a proof-of-stake reward spends the output of a pool. *)
Lemma reward_purposes_Ok cfg (view : P) Us reward block_id h outs :
  (forall k, utxo view k = Ok (Us k)) -> t_outputs reward = Some outs ->
  check_reward_inputs_outputs_purposes cfg reward view block_id h = Ok tt ->
  match t_inputs reward with
  | None => Forall (fun o => is_lock_then_transfer o = true) outs
  | Some ins => exists k u pool staker d, ins = [InputUtxo k] /\ Us k = Some u /\
      pool_of (output u) = Some (pool, staker) /\ outs = [ProduceBlockFromStake d pool] /\
      (forall up, chainstate_upgrade_at cfg h = (Ok up : result ConnectTransactionError _) ->
         staker_destination_update_forbidden up = StakerDestinationUpdateForbidden.Yes -> d = staker)
  end.
Proof.
  intros HU Houts. unfold check_reward_inputs_outputs_purposes. rewrite Houts.
  destruct (t_inputs reward) as [ins|].
  - intros ([] & Hutxo%ensure_Ok & Hck)%result_bind_Ok.
    apply result_bind_Ok in Hck as (us & Hus & Hck). apply result_bind_Ok in Hck as ([pool staker] & Hin & Hck).
    apply result_bind_Ok in Hck as (outs' & [= <-]%ok_or_Ok & Hck).
    apply result_bind_Ok in Hck as ([d pool'] & Hout & Hck).
    apply result_bind_Ok in Hck as ([] & Hpool%ensure_Ok%bool_decide_eq_true & Hck). subst pool'.
    apply result_bind_Ok in Hck as (up & Hup & Hck).
    destruct us as [|o [|? ?]]; [done| |done]. assert (pool_of o = Some (pool, staker)) as Ho by (destruct o; by simplify_eq/=).
    assert (outs = [ProduceBlockFromStake d pool]) as ->
      by (destruct outs as [|o' [|? ?]]; [done|destruct o'; by simplify_eq/=|done]).
    apply all_utxos in Hutxo. unfold collect_inputs_utxos in Hus.
    destruct (omap utxo_outpoint ins) as [|k [|k2 ks]]; simpl in Hus; [done| |].
    + rewrite HU in Hus. simpl in Hus. destruct (Us k) as [u|] eqn:Hk; simpl in Hus; [|done]. injection Hus as <-.
      exists k, u, pool, staker, d. do 4 (split; [done|]). intros up' Hup' Hf. rewrite Hup in Hup'. injection Hup' as <-.
      rewrite Hf in Hck. by apply ensure_Ok, bool_decide_eq_true in Hck.
    + by run_inv.
  - simpl. intros Hall%ensure_Ok. rewrite Forall_forall. rewrite forallb_forall in Hall.
    setoid_rewrite list_elem_of_In. done.
Qed.

(** C10: a block reward is bounded.  Without proof of stake, the outputs of a
    reward that passes the check are worth at most the fees of the block and the
    subsidy of its height, in coins only; with proof of stake there is one
    output.  A reward without inputs has time-locked outputs only; one with
    inputs spends the output of a pool and leaves it to the same pool and, since
    the upgrade that forbids to change it, to the same staker. *)
Theorem block_reward_is_bounded cfg (view : P) Us reward block_id h consensus fees subsidy outs :
  (forall k, utxo view k = Ok (Us k)) -> t_outputs reward = Some outs ->
  block_subsidy_at_height cfg h = (Ok subsidy : result ConnectTransactionError _) ->
  check_reward_inputs_outputs_policy cfg view reward block_id h consensus fees = Ok tt ->
  match consensus with
  | ConsensusPoS _ => length outs = 1%nat
  | ConsensusNone | ConsensusPoW _ =>
      Conservation.outputs_value cfg h outs CoinOrTokenId.Coin <= ival fees + ival subsidy /\
      forall id, Conservation.outputs_value cfg h outs (CoinOrTokenId.TokenId id) <= 0
  end /\
  match t_inputs reward with
  | None => Forall (fun o => is_lock_then_transfer o = true) outs
  | Some ins => exists k u pool staker d, ins = [InputUtxo k] /\ Us k = Some u /\
      pool_of (output u) = Some (pool, staker) /\ outs = [ProduceBlockFromStake d pool] /\
      (forall up, chainstate_upgrade_at cfg h = (Ok up : result ConnectTransactionError _) ->
         staker_destination_update_forbidden up = StakerDestinationUpdateForbidden.Yes -> d = staker)
  end.
Proof.
  intros HU Houts Hsub Hck. unfold check_reward_inputs_outputs_policy in Hck. rewrite Hsub in Hck.
  apply result_bind_Ok in Hck as (? & [= <-] & Hck). apply result_bind_Ok in Hck as ([] & Hpurp & Hck).
  split; [|by eapply reward_purposes_Ok]. rewrite Houts in Hck.
  assert (forall a, Constraints.from_block_reward fees subsidy = Some a -> forall o, Constraints.from_outputs cfg h outs = Ok o ->
    forall fee, Constraints.satisfy_with a o = Ok fee ->
    Conservation.outputs_value cfg h outs CoinOrTokenId.Coin <= ival fees + ival subsidy /\
    forall id, Conservation.outputs_value cfg h outs (CoinOrTokenId.TokenId id) <= 0) as Hpay.
  { intros a Ha o Ho fee Hfee. pose proof (Constraints.satisfy_with_spec a o) as Hs. rewrite Hfee in Hs. destruct Hs as [_ Hcons].
    pose proof (Conservation.conserved_gross _ _ _ Hcons) as Hg. pose proof (from_block_reward_gross _ _ _ Ha) as Hg'.
    pose proof (Conservation.from_outputs_value _ _ _ _ Ho) as Hv.
    split; [specialize (Hg CoinOrTokenId.Coin)|intros id; specialize (Hg (CoinOrTokenId.TokenId id))];
      rewrite Hg', Hv in Hg; simpl in Hg; pose proof (fee_value_nonneg fee) as Hf.
    - specialize (Hf CoinOrTokenId.Coin). lia.
    - specialize (Hf (CoinOrTokenId.TokenId id)). lia. }
  destruct consensus as [| |d]; [..|by destruct outs as [|? [|? ?]]].
  all: apply result_bind_Ok in Hck as (a & Ha%ok_or_Ok & Hck); apply result_bind_Ok in Hck as (o & Ho%map_err_Ok & Hck);
    apply result_bind_Ok in Hck as (fee & Hfee%map_err_Ok & _); by eapply Hpay.
Qed.
End rewards.

(** * A concrete block

    On top of the ledgers of Conservation.v: transaction 2 spends 10,000 coins,
    withdraws from a delegation and fills an order; transaction 3 spends an
    output of it and mints a token. *)

Module Witnesses.
#[export] Existing Instance numbered_keys.
#[export] Existing Instance Utxo.Example.numbered_txs.
#[export] Instance numbered_ids : IdHashes := {|
  PoolId_from_utxo := fun _ => 1%N;
  DelegationId_from_utxo := fun _ => 8%N;
  TokenId_from_tx_input := fun _ => 10%N;
  OrderId_from_utxo := fun _ => 11%N
|}.
#[export] Instance small : TxParameters := {|
  encoded_size := fun _ => 500%N;
  is_alphanumeric_beyond_ascii := fun _ => false
|}.
#[export] Instance no_storage : TransactionVerifierStorageRef unit := {|
  storage_error := Empty_set;
  get_token_id_from_issuance_tx := fun _ _ => Ok None;
  get_gen_block_index := fun _ _ => Ok None;
  get_undo_data := fun _ _ => Ok None;
  get_token_aux_data := fun _ _ => Ok None;
  get_pos_accounting_undo := fun _ _ => Ok None;
  get_tokens_accounting_undo := fun _ _ => Ok None;
  get_account_nonce_count := fun _ _ => Ok None;
  get_orders_accounting_undo := fun _ _ => Ok None;
  get_best_block_for_utxos := fun _ => Ok 0%N
|}.

Import Conservation.Witnesses.

Definition store : UtxosDBInMemoryImpl :=
  mk_in_memory {[outpoint := mk_utxo (Transfer (Coin coins) AnyoneCanSpend) (Blockchain BlockHeight.zero)]} 0.
Definition shown : UtxoSet := fun k => mem_store store !! k.

Abbreviation Verifier := (TransactionVerifier unit (UtxosDB UtxosDBInMemoryImpl)
  (PoS.PoSAccountingDB PoS.InMemoryPoSAccounting) (Tokens.TokensAccountingDB Tokens.InMemoryTokensAccounting)
  (Orders.OrdersAccountingDB Orders.InMemoryOrdersAccounting)).

#[export] Instance accept_all : InputChecks Verifier := {|
  verify_inputs := fun _ _ _ _ _ => Ok tt;
  verify_reward_inputs := fun _ _ _ _ _ => Ok tt
|}.

Definition verifier (tokens : Tokens.Example.Cache) : Verifier :=
  mk_verifier cfg tt 0%N TokenIssuanceCache_new (mk_cache (Utxo.mk_db store) 0%N ∅) ∅ (mk_adapter PoS.Example.c3 ∅) ∅
    tokens ∅ Orders.Example.created ∅ ∅.

Definition state (tokens : Tokens.Ledger) : ChainState :=
  mk_state shown PoS.Example.l3 tokens Orders.Example.created_ledger (fun _ => None).

Definition v : Verifier := verifier (Tokens.Example.minted (Fixed (Amount.lit 1000))).
Definition X : ChainState := state (Tokens.Example.minted_ledger (Fixed (Amount.lit 1000))).

Definition outpoint_2 : UtxoOutPoint := Utxo.outpoint (SourceTransaction 2%N) 2.
Definition spend : AccountOutPoint := {| ao_nonce := u64_lit 0; ao_account := DelegationBalance 7%N (Amount.lit 20) |}.
Definition tx : SignedTransaction := mk_signed (mk_tx (Amount.lit 2)
  [InputUtxo outpoint; InputAccount spend; InputOrderAccountCommand (OrderAccountCommand.FillOrder 5%N (Amount.lit 100))]
  [Transfer (TokenV1 9%N (Amount.lit 333)) AnyoneCanSpend;
   LockThenTransfer (Coin (Amount.lit 20)) AnyoneCanSpend (ForBlockCount (u64_lit 8000));
   Transfer (Coin (from_coins (u64_lit 9000))) AnyoneCanSpend]) (repeat Standard 3).
Definition tx3 : SignedTransaction := mk_signed (mk_tx (Amount.lit 3)
  [InputUtxo outpoint_2; InputAccountCommand (u64_lit 0) (AccountCommand.MintTokens 7%N (Amount.lit 100))]
  [Transfer (TokenV1 7%N (Amount.lit 100)) AnyoneCanSpend]) (repeat Standard 2).
Definition pow_data : PoWData := {| bits := @mk_bint 0 (2 ^ 32 - 1) 0 eq_refl; nonce := @mk_bint 0 u128_MAX 0 eq_refl |}.
Definition bi : BlockIndex :=
  mk_block_index 3%N (with_no_signature (mk_header 0%N 0%N 0%N (u64_lit 0) ConsensusNone)) 0%N [1; 0; 0; 0] BlockHeight.zero (u64_lit 0)
    Amount.ZERO BlockStatus.new false.
Definition src : TransactionSource := TransactionSource.Chain 3%N.
Definition t : BlockTimestamp := u64_lit 0.
Definition run := connect_transaction (SourceChain bi) tx t v.
Definition run_block := connect_transactions bi 3%N t Constraints.AccumulatedFee_new [tx; tx3] v.

Example connects_connect : is_ok run.2 = true /\ is_ok run_block.2 = true.
Proof. vm_compute. split; reflexivity. Qed.

Lemma shown_other_connect k : op_source_id k <> SourceTransaction 1%N -> shown k = None.
Proof. intros Hk. apply lookup_singleton_ne. by intros <-. Qed.

Lemma state_shown c l : Tokens.cache_rep c Tokens.Example.empty_ledger l -> shows src (verifier c) (state l).
Proof.
  intros Hrep. exists (mk_bases shown (mk_adapter_base PoS.Example.empty_ledger PoS.Example.l3 ∅) Tokens.Example.empty_ledger
    Orders.Example.empty_ledger). split; simpl.
  - split; [by intros k|by intros k e|done].
  - split; [exact (proj1 PoS.Example.c3_rep)| |done].
    apply delta_rep_new. eapply PoS.cache_rep_bounded_pos, (proj1 PoS.Example.c3_rep).
  - exact Hrep.
  - apply Orders.Example.created_rep.
  - by intros a.
Qed.

Lemma X_shown : shows src v X.
Proof. apply state_shown, Tokens.Example.minted_rep. auto. Qed.

Lemma X_inv : state_inv X.
Proof.
  destruct PoS.Example.c3_rep as (_ & _ & D & HD). split; [by exists D| |apply Orders.Example.created_inv].
  apply (Tokens.spec_op_inv_tokens Tokens.Example.mint (Tokens.Example.issued_ledger (Fixed (Amount.lit 1000)))); [|done].
  by apply (Tokens.spec_op_inv_tokens (Tokens.Example.issue (Fixed (Amount.lit 1000))) Tokens.Example.empty_ledger).
Qed.

Lemma run_eq : exists v' fee, run = (v', Ok fee).
Proof.
  destruct run as [v' r] eqn:Hrun. destruct (is_ok_run r) as [fee ->]; [|by eexists _, _].
  rewrite <- (proj1 connects_connect), Hrun. done.
Qed.

Lemma run_block_eq : exists v' total, run_block = (v', Ok total).
Proof.
  destruct run_block as [v' r] eqn:Hrun. destruct (is_ok_run r) as [total ->]; [|by eexists _, _].
  rewrite <- (proj2 connects_connect), Hrun. done.
Qed.

Lemma tx_ok : tx_in_range cfg BlockHeight.zero (transaction tx) X.
Proof.
  split.
  - split; [split; [vm_compute; discriminate|done]|]. vm_compute. done.
  - done.
  - split; [done|]. vm_compute. done.
  - vm_compute. discriminate.
  - intros i. by apply shown_other_connect.
Qed.

Lemma connect_transaction_effect_witness :
  exists v' fee X', run = (v', Ok fee) /\ shows src v' X' /\
    s_utxos X' outpoint = None /\ ival (PoS.l_balance (s_pos X') 7%N) = 30.
Proof.
  destruct run_eq as (v' & fee & Hrun).
  destruct (connect_transaction_effect (SourceChain bi) tx t v v' X fee X_shown X_inv tx_ok Hrun)
    as (X' & Hs & _ & Heff).
  exists v', fee, X'. split; [done|]. split; [done|]. split.
  - destruct (te_utxos _ _ _ _ _ _ Heff) as (us & U1 & Hsp & ->).
    rewrite add_all_out by (intros [i Hi]%included_key; discriminate).
    apply spend_inputs_Some in Hsp as (_ & _ & -> & _). by rewrite decide_True by (vm_compute; left).
  - pose proof (f_equal (fun r => match r with Ok l => ival (PoS.l_balance l 7%N) | _ => 0 end)
      (te_pos _ _ _ _ _ _ Heff)) as Hpos. cbn beta iota in Hpos. rewrite <- Hpos. vm_compute. reflexivity.
Defined.

(** The order gave the 333 tokens that the transaction has as an output. *)
Lemma connected_transaction_conserves_value_witness :
  exists v' fee D W, run = (v', Ok fee) /\
    Conservation.apply_inputs cfg BlockHeight.zero (world_of X) (Utxo.inputs (transaction tx)) = Some W /\
    Conservation.world_value {[5%N]} D (world_of X) (CoinOrTokenId.TokenId 9%N)
      = Conservation.world_value {[5%N]} D W (CoinOrTokenId.TokenId 9%N) + 333
        + Conservation.fee_value_of fee (CoinOrTokenId.TokenId 9%N).
Proof.
  destruct run_eq as (v' & fee & Hrun). destruct world_ok as [D HD].
  destruct (connected_transaction_conserves_value (SourceChain bi) tx t v v' X fee {[5%N]} D X_shown HD Hrun)
    as (W & Happly & _ & Hval).
  exists v', fee, D, W. split; [done|]. split; [exact Happly|]. specialize (Hval (CoinOrTokenId.TokenId 9%N)).
  assert (Conservation.inputs_value (world_of X) (zip (Utxo.inputs (transaction tx))
    (spent_outputs X (Utxo.inputs (transaction tx)))) (CoinOrTokenId.TokenId 9%N) = 0) as Hin by (vm_compute; reflexivity).
  assert (Conservation.outputs_value cfg BlockHeight.zero (Utxo.outputs (transaction tx)) (CoinOrTokenId.TokenId 9%N) = 333)
    as Hout by (vm_compute; reflexivity).
  assert (Conservation.command_fees cfg BlockHeight.zero (Utxo.inputs (transaction tx)) (CoinOrTokenId.TokenId 9%N) = 0)
    as Hfees by (vm_compute; reflexivity).
  cbn zeta in Hval. change (chain_config v) with cfg in Hval.
  change (expected_block_height (SourceChain bi)) with BlockHeight.zero in Hval.
  rewrite Hin, Hout, Hfees in Hval. lia.
Defined.

(** The account of the delegation is at nonce 0 after the withdrawal. *)
Definition used : ChainState :=
  mk_state shown PoS.Example.l3 (Tokens.Example.minted_ledger (Fixed (Amount.lit 1000))) Orders.Example.created_ledger
    (<[AccountDelegation 7%N:=Some (u64_lit 0)]> (fun _ => None)).
Definition v_used : Verifier := with_nonces {[AccountDelegation 7%N := Write (u64_lit 0)]} v.

Lemma used_shown : shows src v_used used.
Proof.
  destruct X_shown as [B [? ? ? ? _]]. exists B. split; [done..|]. intros a. unfold nonce_count. simpl.
  destruct (decide (a = AccountDelegation 7%N)) as [->|Hne].
  - by rewrite lookup_singleton_eq, fn_lookup_insert.
  - by rewrite lookup_singleton_ne, fn_lookup_insert_ne.
Qed.

Lemma used_nonce_is_refused_witness :
  shows src v_used used /\ forall v' fee, connect_transaction (SourceChain bi) tx t v_used <> (v', Ok fee).
Proof.
  split; [apply used_shown|].
  apply (used_nonce_is_refused (SourceChain bi) tx t v_used used (InputAccount spend) (AccountDelegation 7%N) (u64_lit 0)
    used_shown); [simpl; set_solver|reflexivity|vm_compute; discriminate].
Defined.

(** Token 7 is frozen, the transaction does not touch it. *)
Definition v_frozen : Verifier := verifier Tokens.Example.frozen.
Definition X_frozen : ChainState := state Tokens.Example.frozen_ledger.

Lemma frozen_token_does_not_move_witness :
  is_ok (connect_transaction (SourceChain bi) tx t v_frozen).2 = true /\ frozen X_frozen 7%N = true /\
  forall out, out ∈ Utxo.outputs (transaction tx) -> 7%N ∉ output_tokens out.
Proof.
  assert (is_ok (connect_transaction (SourceChain bi) tx t v_frozen).2 = true) as Hok by (vm_compute; reflexivity).
  split; [done|]. assert (frozen X_frozen 7%N = true) as Hfr by (vm_compute; reflexivity). split; [done|].
  destruct (connect_transaction (SourceChain bi) tx t v_frozen) as [v' r] eqn:Hrun.
  destruct (is_ok_run r Hok) as [fee ->].
  exact (proj1 (frozen_token_does_not_move (SourceChain bi) tx t v_frozen v' X_frozen fee 7%N
    (state_shown _ _ Tokens.Example.frozen_rep) Hrun Hfr)).
Defined.

(** Transaction 3 is in range of what transaction 2 leads to. *)
Lemma block_ok : txs_in_range cfg BlockHeight.zero (Blockchain BlockHeight.zero) [tx; tx3] X.
Proof.
  split; [apply tx_ok|]. intros X1 Heff. split; [|done].
  destruct (te_utxos _ _ _ _ _ _ Heff) as (us & U1 & Hsp & HU).
  pose proof (te_tokens _ _ _ _ _ _ Heff) as Ht. simpl in Ht. injection Ht as Ht.
  assert (s_utxos X1 outpoint_2 = Some (mk_utxo (Transfer (Coin (from_coins (u64_lit 9000))) AnyoneCanSpend)
    (Blockchain BlockHeight.zero))) as Hk.
  { rewrite HU. apply add_all_in; [apply included_NoDup; vm_compute; discriminate|]. vm_compute. set_solver. }
  split.
  - unfold pos_ops. simpl. rewrite Hk. done.
  - simpl. split; [|by destruct (Tokens.spec_mint _ _ _)]. rewrite <- Ht. intros l' Hl. vm_compute in Hl. by injection Hl as <-.
  - done.
  - vm_compute. discriminate.
  - intros i. rewrite HU, add_all_out by (intros [j Hj]%included_key; discriminate).
    apply spend_inputs_Some in Hsp as (_ & _ & -> & _). case_decide; [done|by apply shown_other_connect].
Qed.

Lemma v_new : new_block src v.
Proof. by split_and!. Qed.

Lemma block_ids : NoDup ((fun tx => get_id (transaction tx)) <$> [tx; tx3]).
Proof. apply (bool_decide_unpack _). vm_compute. done. Qed.

Lemma block_unused : Forall (fun tx => unused (SourceTransaction (get_id (transaction tx))) (s_utxos X)) [tx; tx3].
Proof. repeat constructor; intros i; by apply shown_other_connect. Qed.

(** The verifier that connected the two can disconnect them. *)
Lemma block_transactions_roundtrip_witness :
  exists v' total w', run_block = (v', Ok total) /\
    try_for_each (disconnect_transaction src) (reverse [tx; tx3]) v' = (w', Ok tt) /\ shows src w' X.
Proof.
  destruct run_block_eq as (v' & total & Hrun). unfold run_block in Hrun.
  destruct (block_transactions_roundtrip bi 3%N t [tx; tx3] Constraints.AccumulatedFee_new v v' X total
    X_shown X_inv block_ok v_new block_ids block_unused Hrun) as (X' & es & Hs' & _ & _ & Hheld & Hback).
  destruct (Hback v' Hs' Hheld) as (w' & Hdis & Hw); [by repeat constructor|constructor|].
  exists v', total, w'. split; [exact Hrun|]. split; [exact Hdis|exact Hw].
Defined.

Lemma check_transaction_well_formed_witness : tx_well_formed cfg upgrade DATA_DEPOSIT_MAX_SIZE_V1 tx.
Proof.
  apply (check_transaction_well_formed cfg BlockHeight.zero tx upgrade DATA_DEPOSIT_MAX_SIZE_V1);
    [reflexivity|reflexivity|].
  split; [vm_compute; reflexivity|]. intros _. by repeat constructor.
Defined.

(** An order that gives a token of version 0 is accepted, although such tokens are
    refused everywhere else. *)
Definition v0_value : OutputValue := TokenV0 (TokenDataV0_TokenTransfer {| tt_token_id := 9%N; tt_amount := Amount.lit 5 |}).
Definition v0_order : TxOutput := CreateOrder {| co_conclude_key := AnyoneCanSpend;
  co_ask := Coin (Amount.lit 10); co_give := v0_value |}.
Definition with_output (o : TxOutput) : SignedTransaction :=
  mk_signed (mk_tx (Amount.lit 2) [InputUtxo outpoint] [o]) [Standard].

Example order_giving_token_v0_accepted :
  check_transaction cfg BlockHeight.zero (with_output v0_order) = Ok tt /\
  (exists e, check_transaction cfg BlockHeight.zero (with_output (Transfer v0_value AnyoneCanSpend)) = Err e) /\
  ~ tx_well_formed cfg upgrade DATA_DEPOSIT_MAX_SIZE_V1 (with_output v0_order).
Proof.
  split; [vm_compute; reflexivity|]. split; [eexists; vm_compute; reflexivity|].
  intros [_ _ _ _ _ _ Hout _]. apply Forall_cons in Hout as [[Hv0 _] _].
  specialize (Hv0 eq_refl). apply Forall_cons in Hv0 as [_ Hv0]. by apply Forall_cons in Hv0 as [? _].
Qed.

(** A reward of 110 coins out of a subsidy of 100 and fees of 20. *)
Definition reward_outputs : list TxOutput :=
  [LockThenTransfer (Coin (Amount.lit 110)) AnyoneCanSpend (ForBlockCount (u64_lit 10))].
Definition reward : BlockRewardTransactable := mk_transactable None (Some reward_outputs).

Lemma block_reward_is_bounded_witness :
  check_reward_inputs_outputs_policy cfg (mk_cache (Utxo.mk_db store) 0%N ∅) reward 3%N (u64_lit 1) (ConsensusPoW pow_data)
    (Amount.lit 20) = Ok tt /\
  Conservation.outputs_value cfg (u64_lit 1) reward_outputs CoinOrTokenId.Coin <= 20 + 100.
Proof.
  assert (check_reward_inputs_outputs_policy cfg (mk_cache (Utxo.mk_db store) 0%N ∅) reward 3%N (u64_lit 1) (ConsensusPoW pow_data)
    (Amount.lit 20) = Ok tt) as Hck by (vm_compute; reflexivity).
  split; [exact Hck|].
  destruct X_shown as [B [Hu _ _ _ _]].
  refine (proj1 (proj1 (block_reward_is_bounded cfg _ shown reward 3%N (u64_lit 1) (ConsensusPoW pow_data) (Amount.lit 20)
    (Amount.lit 100) reward_outputs _ eq_refl _ Hck))).
  - exact (utxo_cache_represents _ _ _ Hu).
  - vm_compute. reflexivity.
Defined.
End Witnesses.
