(* ===== verification/Hierarchy.v ===== *)
(** * Verifiers over verifiers

    Models [hierarchy.rs], [flush.rs] and the delta of a verifier in [mod.rs]
    and [storage.rs]: a verifier is a storage for the verifiers that are
    derived from it, a derived verifier is consumed into a delta, and the delta
    is flushed into the storage below.  Debug assertions are not modelled.
    Proved: connecting the transactions of a block in a derived verifier and
    flushing it does to the verifier below what connecting them there does. *)
From S2P Require Import Prelude Amount Accounting ChainTypes ChainConfig BlockTree Utxo TxTypes UndoCache TokenIssuance.
From S2P Require Import PoSInterface PoSAdapter Policy CheckTransaction TxVerifier Effects Connect.
From S2P Require Tokens Orders PoS Constraints Conservation.
Import CachedOperation.

(** ** The storage below *)

(** The flushable views included. *)
Class TransactionVerifierStorageMut `{CryptoTypes} (S : Type) := {
  mut_error : Type;
  st_set_token_aux_data : TokenId -> TokenAuxiliaryData -> ST S mut_error unit;
  st_del_token_aux_data : TokenId -> ST S mut_error unit;
  st_set_token_id : TxId -> TokenId -> ST S mut_error unit;
  st_del_token_id : TxId -> ST S mut_error unit;
  set_utxo_undo_data : TransactionSource -> UtxosUndo.CachedUtxosBlockUndo -> ST S mut_error unit;
  del_utxo_undo_data : TransactionSource -> ST S mut_error unit;
  set_pos_accounting_undo_data : TransactionSource -> AccountingUndo.CachedBlockUndo PoS.PoSAccountingUndo ->
    ST S mut_error unit;
  del_pos_accounting_undo_data : TransactionSource -> ST S mut_error unit;
  st_apply_accounting_delta : TransactionSource -> PoS.PoSAccountingDeltaData -> ST S mut_error unit;
  set_account_nonce_count : AccountType -> AccountNonce -> ST S mut_error unit;
  del_account_nonce_count : AccountType -> ST S mut_error unit;
  set_tokens_accounting_undo_data : TransactionSource -> AccountingUndo.CachedBlockUndo Tokens.TokenAccountingUndo ->
    ST S mut_error unit;
  del_tokens_accounting_undo_data : TransactionSource -> ST S mut_error unit;
  set_orders_accounting_undo_data : TransactionSource -> AccountingUndo.CachedBlockUndo Orders.OrdersAccountingUndo ->
    ST S mut_error unit;
  del_orders_accounting_undo_data : TransactionSource -> ST S mut_error unit;
  st_batch_write : ConsumedUtxoCache -> ST S mut_error unit;
  st_batch_write_delta : PoS.PoSAccountingDeltaData -> ST S mut_error PoS.DeltaMergeUndo;
  st_batch_write_tokens_data : Tokens.TokensAccountingDeltaData -> ST S mut_error Tokens.TokensAccountingDeltaUndoData;
  st_batch_write_orders_data : Orders.OrdersAccountingDeltaData -> ST S mut_error Orders.OrdersAccountingDeltaUndoData
}.

(** ** The change that a verifier has caused *)

Record TransactionVerifierDelta `{CryptoTypes} := mk_delta {
  d_utxo_cache : ConsumedUtxoCache;
  d_utxo_block_undo : UtxosUndo.UtxosBlockUndoCache;
  d_token_issuance_cache : TokenIssuanceCache;
  d_accounting_delta : PoS.PoSAccountingDeltaData;
  d_pos_accounting_delta_undo : AccountingUndo.AccountingBlockUndoCache PoS.PoSAccountingUndo;
  d_pos_accounting_block_deltas : gmap TransactionSource PoS.PoSAccountingDeltaData;
  d_account_nonce : gmap AccountType (CachedOperation AccountNonce);
  d_tokens_accounting_delta : Tokens.TokensAccountingDeltaData;
  d_tokens_accounting_delta_undo : AccountingUndo.AccountingBlockUndoCache Tokens.TokenAccountingUndo;
  d_orders_accounting_delta : Orders.OrdersAccountingDeltaData;
  d_orders_accounting_delta_undo : AccountingUndo.AccountingBlockUndoCache Orders.OrdersAccountingUndo
}.

Definition consume_verifier `{CryptoTypes} {S U A T O} (v : TransactionVerifier S U A T O) : TransactionVerifierDelta :=
  let '(accounting_delta, accounting_block_deltas) := adapter_consume (pos_accounting_adapter v) in {|
    d_utxo_cache := Utxo.consume (utxo_cache v);
    d_utxo_block_undo := utxo_block_undo v;
    d_token_issuance_cache := token_issuance_cache v;
    d_accounting_delta := accounting_delta;
    d_pos_accounting_delta_undo := pos_accounting_block_undo v;
    d_pos_accounting_block_deltas := accounting_block_deltas;
    d_account_nonce := account_nonce v;
    d_tokens_accounting_delta := Tokens.data (tokens_accounting_cache v);
    d_tokens_accounting_delta_undo := tokens_accounting_block_undo v;
    d_orders_accounting_delta := Orders.data (orders_accounting_cache v);
    d_orders_accounting_delta_undo := orders_accounting_block_undo v
  |}.

(** ** Flushing *)

(** Entries that were only read are not written. *)
Definition flush_op {S E K T} (set : K -> T -> ST S E unit) (del : K -> ST S E unit) (e : K * CachedOperation T) :
    ST S E unit :=
  match e.2 with
  | Write x => set e.1 x
  | Read _ => mret tt
  | Erase => del e.1
  end.

Section flush.
Context `{CryptoTypes} {S : Type} `{!TransactionVerifierStorageMut S}.
Abbreviation M := (ST S mut_error).

Definition flush_tokens (token_cache : TokenIssuanceCache) : M unit :=
  _ ← try_for_each (flush_op st_set_token_aux_data st_del_token_aux_data) (btree_iter (aux_data token_cache));
  try_for_each (flush_op st_set_token_id st_del_token_id) (btree_iter (txid_vs_tokenid token_cache)).

Definition flush_to_storage (consumed : TransactionVerifierDelta) : M unit :=
  _ ← flush_tokens (d_token_issuance_cache consumed);
  _ ← st_batch_write (d_utxo_cache consumed);
  _ ← try_for_each (flush_op set_utxo_undo_data del_utxo_undo_data) (btree_iter (d_utxo_block_undo consumed));
  _ ← st_batch_write_delta (d_accounting_delta consumed);
  _ ← try_for_each (fun '(tx_source, delta) => st_apply_accounting_delta tx_source delta)
        (btree_iter (d_pos_accounting_block_deltas consumed));
  _ ← try_for_each (flush_op set_pos_accounting_undo_data del_pos_accounting_undo_data)
        (btree_iter (d_pos_accounting_delta_undo consumed));
  _ ← st_batch_write_tokens_data (d_tokens_accounting_delta consumed);
  _ ← try_for_each (flush_op set_tokens_accounting_undo_data del_tokens_accounting_undo_data)
        (btree_iter (d_tokens_accounting_delta_undo consumed));
  _ ← try_for_each (flush_op set_account_nonce_count del_account_nonce_count)
        (btree_iter (d_account_nonce consumed));
  _ ← st_batch_write_orders_data (d_orders_accounting_delta consumed);
  try_for_each (flush_op set_orders_accounting_undo_data del_orders_accounting_undo_data)
    (btree_iter (d_orders_accounting_delta_undo consumed)).
End flush.

(** ** A verifier as the storage of another *)

Section storage.
Context `{CryptoTypes} `{!TxHash} `{!IdHashes} `{!TxParameters}.
Context {S U A T O : Type} `{!TransactionVerifierStorageRef S} `{!UtxosView U}
  `{!PoS.PoSAccountingView A} `{!Tokens.TokensAccountingView T} `{!Orders.OrdersAccountingView O}.
Abbreviation V := (TransactionVerifier S U A T O).

(** What is cached, or else what is below. *)
Definition cached {K X E} `{Countable K} (m : gmap K (CachedOperation X)) (below : K -> result E (option X)) (k : K) :
    result E (option X) :=
  match m !! k with Some op => Ok (get op) | None => below k end.

#[global] Instance verifier_storage_ref : TransactionVerifierStorageRef V := {|
  storage_error := storage_error (S := S);
  get_token_id_from_issuance_tx v :=
    cached (txid_vs_tokenid (token_issuance_cache v)) (get_token_id_from_issuance_tx (storage v));
  get_gen_block_index v := get_gen_block_index (storage v);
  get_undo_data v := cached (utxo_block_undo v) (get_undo_data (storage v));
  get_token_aux_data v := cached (aux_data (token_issuance_cache v)) (get_token_aux_data (storage v));
  get_pos_accounting_undo v := cached (pos_accounting_block_undo v) (get_pos_accounting_undo (storage v));
  get_tokens_accounting_undo v := cached (tokens_accounting_block_undo v) (get_tokens_accounting_undo (storage v));
  get_account_nonce_count v := cached (account_nonce v) (get_account_nonce_count (storage v));
  get_orders_accounting_undo v := cached (orders_accounting_block_undo v) (get_orders_accounting_undo (storage v));
  get_best_block_for_utxos v := Ok (TxVerifier.best_block v)
|}.

(** The methods of the components, with the errors of the storage. *)
Definition issuance_mut {B} (m : ST TokenIssuanceCache TokensError B) : ST V TransactionVerifierStorageError B :=
  zoom token_issuance_cache with_issuance TransactionVerifierStorageError.TokensError m.
Definition utxo_undo_mut {B} (m : ST UtxosUndo.UtxosBlockUndoCache UtxosBlockUndoError B) :
    ST V TransactionVerifierStorageError B :=
  zoom utxo_block_undo with_utxo_undo TransactionVerifierStorageError.UtxoBlockUndoError m.
Definition pos_undo_mut {B} (m : ST (AccountingUndo.AccountingBlockUndoCache PoS.PoSAccountingUndo) BlockUndoError B) :
    ST V TransactionVerifierStorageError B :=
  zoom pos_accounting_block_undo with_pos_undo TransactionVerifierStorageError.AccountingBlockUndoError m.
Definition tokens_undo_mut {B} (m : ST (AccountingUndo.AccountingBlockUndoCache Tokens.TokenAccountingUndo) BlockUndoError B) :
    ST V TransactionVerifierStorageError B :=
  zoom tokens_accounting_block_undo with_tokens_undo TransactionVerifierStorageError.AccountingBlockUndoError m.
Definition orders_undo_mut {B} (m : ST (AccountingUndo.AccountingBlockUndoCache Orders.OrdersAccountingUndo) BlockUndoError B) :
    ST V TransactionVerifierStorageError B :=
  zoom orders_accounting_block_undo with_orders_undo TransactionVerifierStorageError.AccountingBlockUndoError m.
Definition adapter_mut {B} (m : ST (PoSAccountingDeltaAdapter A) PoS.Error B) : ST V TransactionVerifierStorageError B :=
  zoom pos_accounting_adapter with_adapter TransactionVerifierStorageError.PoSAccountingError m.
Definition nonces_mut {B} (m : ST (gmap AccountType (CachedOperation AccountNonce)) TransactionVerifierStorageError B) :
    ST V TransactionVerifierStorageError B :=
  zoom account_nonce with_nonces (fun e => e) m.

#[global] Instance verifier_storage_mut : TransactionVerifierStorageMut V := {|
  mut_error := TransactionVerifierStorageError;
  st_set_token_aux_data token_id data := issuance_mut (set_token_aux_data token_id data);
  st_del_token_aux_data token_id := issuance_mut (del_token_aux_data token_id);
  st_set_token_id tx_id token_id := issuance_mut (set_token_id tx_id token_id);
  st_del_token_id tx_id := issuance_mut (del_token_id tx_id);
  set_utxo_undo_data tx_source undo := utxo_undo_mut (UtxosUndo.set_undo_data tx_source undo);
  del_utxo_undo_data tx_source := utxo_undo_mut (UtxosUndo.del_undo_data tx_source);
  set_pos_accounting_undo_data tx_source undo := pos_undo_mut (AccountingUndo.set_undo_data tx_source undo);
  del_pos_accounting_undo_data tx_source := pos_undo_mut (AccountingUndo.del_undo_data tx_source);
  st_apply_accounting_delta tx_source delta := adapter_mut (apply_accounting_delta tx_source delta);
  set_account_nonce_count account nonce := nonces_mut (modify (fun m => <[account:=Write nonce]> m));
  del_account_nonce_count account := nonces_mut (modify (fun m => <[account:=Erase]> m));
  set_tokens_accounting_undo_data tx_source undo := tokens_undo_mut (AccountingUndo.set_undo_data tx_source undo);
  del_tokens_accounting_undo_data tx_source := tokens_undo_mut (AccountingUndo.del_undo_data tx_source);
  set_orders_accounting_undo_data tx_source undo := orders_undo_mut (AccountingUndo.set_undo_data tx_source undo);
  del_orders_accounting_undo_data tx_source := orders_undo_mut (AccountingUndo.del_undo_data tx_source);
  st_batch_write utxos := zoom utxo_cache with_utxo_cache TransactionVerifierStorageError.UtxoError (Utxo.batch_write utxos);
  st_batch_write_delta data := adapter_mut (adapter_batch_write_delta data);
  st_batch_write_tokens_data data :=
    zoom tokens_accounting_cache with_tokens TransactionVerifierStorageError.TokensAccountingError (Tokens.batch_write_tokens_data data);
  st_batch_write_orders_data data :=
    zoom orders_accounting_cache with_orders TransactionVerifierStorageError.OrdersAccountingError (Orders.batch_write_orders_data data)
|}.

Abbreviation DerivedTxVerifier := (TransactionVerifier V (UtxosCache U) (PoS.PoSAccountingDelta A)
  (Tokens.TokensAccountingCache T) (Orders.OrdersAccountingCache O)).

(** A new cache of outputs over a cache is always constructed. *)
Definition derive_child {E} (v : V) : result E DerivedTxVerifier :=
  cache ← match UtxosCache_new (utxo_cache v) with Ok c => Ok c | _ => Panic end;
  Ok (mk_verifier (chain_config v) v (TxVerifier.best_block v) TokenIssuanceCache_new cache ∅
        (PoSAccountingDeltaAdapter_new (accounting_delta (pos_accounting_adapter v))) ∅
        (Tokens.TokensAccountingCache_new (tokens_accounting_cache v)) ∅
        (Orders.OrdersAccountingCache_new (orders_accounting_cache v)) ∅ ∅).
End storage.

(** ** Loops in a field *)

Lemma zoom_run {S C E F B} (get : S -> C) (set : C -> S -> S) (conv : E -> F) (m : ST C E B) s c' x :
  m (get s) = (c', Ok x) -> zoom get set conv m s = (set c' s, Ok x).
Proof. intros Hm. unfold zoom. by rewrite Hm. Qed.

Lemma try_for_each_zoom {S C E F X} (get : S -> C) (set : C -> S -> S) (conv : E -> F) (f : X -> ST C E unit) l s c' :
  (forall c s, get (set c s) = c) -> (forall s, set (get s) s = s) -> (forall c c' s, set c (set c' s) = set c s) ->
  try_for_each f l (get s) = (c', Ok tt) ->
  try_for_each (fun x => zoom get set conv (f x)) l s = (set c' s, Ok tt).
Proof.
  intros Hgs Hsg Hss. revert s. induction l as [|x l IH]; intros s Hrun.
  { injection Hrun as <-. by rewrite Hsg. }
  simpl in Hrun |- *. apply st_bind_Ok in Hrun as ([] & c1 & Hx & Hrun).
  assert (zoom get set conv (f x) s = (set c1 s, Ok tt)) as Hz by (unfold zoom; by rewrite Hx).
  rewrite (st_bind_run _ _ _ _ _ Hz), IH by (by rewrite Hgs). by rewrite Hss.
Qed.

Lemma try_for_each_ext {S E X} (f g : X -> ST S E unit) l s :
  (forall x s, f x s = g x s) -> try_for_each f l s = try_for_each g l s.
Proof.
  intros Hfg. revert s. induction l as [|x l IH]; intros s; [done|]. simpl. unfold mbind, st_bind. rewrite Hfg.
  destruct (g x s) as [s' [[]|e|]]; [apply IH|done..].
Qed.

Lemma flush_zoom {S C E F K T} (get : S -> C) (set : C -> S -> S) (conv : E -> F) (put : K -> T -> ST C E unit)
    (del : K -> ST C E unit) l s c' :
  (forall c s, get (set c s) = c) -> (forall s, set (get s) s = s) -> (forall c c' s, set c (set c' s) = set c s) ->
  try_for_each (flush_op put del) l (get s) = (c', Ok tt) ->
  try_for_each (flush_op (fun k x => zoom get set conv (put k x)) (fun k => zoom get set conv (del k))) l s
    = (set c' s, Ok tt).
Proof.
  intros Hgs Hsg Hss Hrun. rewrite <- (try_for_each_zoom get set conv (flush_op put del) l s c' Hgs Hsg Hss Hrun).
  apply try_for_each_ext. intros [k [x|x|]] s'; [done| |done]. unfold flush_op, zoom, mret, st_ret. simpl. by rewrite Hsg.
Qed.

(** ** Combining what is new with what is there *)

(** All of [new] was written, and nothing of it is there. *)
Definition fresh_over {K T} `{Countable K} (old new : gmap K (CachedOperation T)) : Prop :=
  forall k op, new !! k = Some op -> (exists x, op = Write x) /\ old !! k ≫= get = None.

Lemma combine_entries {K T E} `{BTreeKey K} `{!EqDecision T} (old new : gmap K (CachedOperation T)) :
  fresh_over old new ->
  try_for_each combine_entry (btree_iter new) old = (new ∪ old, Ok tt : result E unit).
Proof.
  intros Hfresh. apply (try_for_each_btree (fun _ o op => combine o (Some op)) combine_entry).
  - intros k op st. unfold combine_entry, gets, modify, mbind, st_bind.
    destruct (combine (st !! k) (Some op)) as [o|e|] eqn:Hc; [|eauto..].
    destruct o as [o|]; [done|]. exfalso. destruct (st !! k) as [x|]; simpl in Hc; [|done].
    by apply result_bind_Ok in Hc as (? & _ & ?).
  - intros k. rewrite lookup_union. destruct (new !! k) as [op|] eqn:Hk.
    + destruct (Hfresh k op Hk) as [[x ->] Hold]. destruct (old !! k) as [[y|y|]|]; done.
    + by destruct (old !! k).
Qed.

Section undo.
Context {Un : Type} `{!EqDecision Un}.
Implicit Types (data : AccountingUndo.AccountingBlockUndoCache Un) (src : TransactionSource)
  (b : AccountingUndo.CachedBlockUndo Un).

(** What a new verifier has recorded of the block: nothing, or records it wrote. *)
Definition block_new b : Prop :=
  AccountingUndo.reward_undos b = None /\ forall id op, AccountingUndo.tx_undos b !! id = Some op -> exists us, op = Write us.
Definition only_new src data : Prop := data = ∅ \/ exists b, data = {[src := Write b]} /\ block_new b.

Lemma recorded_new src id us data data' : only_new src data -> recorded data src id us data' -> only_new src data'.
Proof.
  intros Hnew. destruct us as [|u us]; simpl; [by intros ->|].
  intros (b & -> & Hb)%AccountingUndo.add_tx_undo_Ok. right. exists b.
  destruct Hnew as [->|(b0 & -> & Hr & Hw)].
  - split; [by rewrite insert_empty|]. rewrite lookup_empty in Hb. simpl in Hb. subst b. split; [done|].
    intros id' op. simpl. intros [<- <-]%lookup_singleton_Some. eauto.
  - rewrite insert_singleton_eq. split; [done|]. rewrite lookup_singleton_eq in Hb. simpl in Hb. destruct Hb as [_ ->].
    split; [done|]. intros id' op. simpl. intros [[<- <-]|[_ ?]]%lookup_insert_Some; eauto.
Qed.

Definition empty_block : AccountingUndo.CachedBlockUndo Un := AccountingUndo.mk_undo None ∅.
Definition block_here src data : AccountingUndo.CachedBlockUndo Un := default empty_block (data !! src ≫= get).

Lemma combine_new b b0 : block_new b ->
  (forall id, AccountingUndo.tx_undos b !! id = None \/ AccountingUndo.tx_undos b0 !! id = None) ->
  AccountingUndo.combine_undo b b0 = (AccountingUndo.mk_undo (AccountingUndo.reward_undos b0)
    (AccountingUndo.tx_undos b ∪ AccountingUndo.tx_undos b0), Ok tt).
Proof.
  intros [Hr Hw] Hdis. unfold AccountingUndo.combine_undo, AccountingUndo.in_txs, zoom, self, mbind, st_bind. rewrite Hr.
  assert (fresh_over (AccountingUndo.tx_undos b0) (AccountingUndo.tx_undos b)) as Hfr.
  { intros id op Hid. split; [by eapply Hw|]. destruct (Hdis id) as [He|He]; [congruence|by rewrite He]. }
  destruct (AccountingUndo.reward_undos b0) eqn:Hr0; simpl; rewrite (combine_entries _ _ Hfr); simpl; by rewrite Hr0.
Qed.

Lemma set_undo_new src b data : block_new b ->
  (forall id, AccountingUndo.tx_undos b !! id = None \/ AccountingUndo.tx_undos (block_here src data) !! id = None) ->
  exists op, AccountingUndo.set_undo_data src b data = (<[src:=op]> data, Ok tt) /\
    get op = Some (AccountingUndo.mk_undo (AccountingUndo.reward_undos (block_here src data))
      (AccountingUndo.tx_undos b ∪ AccountingUndo.tx_undos (block_here src data))).
Proof.
  intros Hnew Hdis. unfold AccountingUndo.set_undo_data, self, AccountingUndo.put, modify, lift, mbind, st_bind.
  unfold block_here in *. destruct (data !! src) as [[d|d|]|]; simpl in *.
  1,2: rewrite (combine_new _ _ Hnew Hdis); by eexists.
  all: exists (Write b); split; [done|]; rewrite (right_id_L ∅ (∪)); simpl; f_equal; destruct Hnew, b; simpl in *; by subst.
Qed.

(** Flushing the records into a cache that has none of these transactions. *)
Lemma flush_undo_holds src new data fetcher (f : TransactionSource -> result ConnectTransactionError _) :
  only_new src new -> AccountingUndo.local data fetcher src -> f src = Ok None ->
  (forall id, AccountingUndo.lacks new f src id \/ AccountingUndo.lacks data fetcher src id) ->
  exists data', try_for_each (flush_op AccountingUndo.set_undo_data AccountingUndo.del_undo_data) (btree_iter new) data
      = (data', Ok tt) /\
    AccountingUndo.local data' fetcher src /\
    forall id us, AccountingUndo.holds_undos new f src id us /\ AccountingUndo.lacks data fetcher src id \/
        AccountingUndo.lacks new f src id /\ AccountingUndo.holds_undos data fetcher src id us ->
      AccountingUndo.holds_undos data' fetcher src id us.
Proof.
  intros [->|(b & -> & Hb)] Hloc Hf Hdis.
  { exists data. rewrite btree_iter_empty. split; [done|]. split; [done|]. intros id us [[Hn Hl]|[_ Hh]]; [|done].
    destruct us as [|u us]; [done|]. destruct Hn as (b & Hb & _). unfold AccountingUndo.block_undo_of in Hb.
    by rewrite lookup_empty, Hf in Hb. }
  assert (forall id, AccountingUndo.lacks {[src := Write b]} f src id -> AccountingUndo.tx_undos b !! id = None) as Hl1.
  { intros id (ob & Hob & Hl). unfold AccountingUndo.block_undo_of in Hob. rewrite lookup_singleton_eq in Hob.
    by injection Hob as <-. }
  assert (forall id, AccountingUndo.lacks data fetcher src id -> AccountingUndo.tx_undos (block_here src data) !! id = None) as Hl2.
  { intros id (ob & Hob & Hl). rewrite (AccountingUndo.local_block _ _ _ Hloc) in Hob. injection Hob as <-.
    unfold block_here. destruct (data !! src ≫= get); [done|apply lookup_empty]. }
  destruct (set_undo_new src b data Hb) as (op & Hrun & Hop); [intros id; destruct (Hdis id); eauto|].
  exists (<[src:=op]> data). rewrite btree_iter_singleton. simpl. unfold flush_op. simpl. rewrite (st_bind_run _ _ _ _ _ Hrun).
  split; [done|]. split; [unfold AccountingUndo.local; by rewrite lookup_insert_eq|]. intros id us Hcase.
  assert (match us with [] => AccountingUndo.tx_undos b !! id ∪ AccountingUndo.tx_undos (block_here src data) !! id = None
    | _ => (AccountingUndo.tx_undos b !! id ∪ AccountingUndo.tx_undos (block_here src data) !! id) ≫= get = Some us end) as Hg.
  { destruct Hcase as [[Hn Hl]|[Hl Hh]]; [rewrite (Hl2 _ Hl)|rewrite (Hl1 _ Hl)]; destruct us as [|u us].
    - by rewrite (Hl1 _ Hn).
    - destruct Hn as (b1 & Hb1 & Hu). unfold AccountingUndo.block_undo_of in Hb1. rewrite lookup_singleton_eq in Hb1.
      injection Hb1 as <-. by rewrite (right_id_L None (∪)).
    - by rewrite (Hl2 _ Hh).
    - destruct Hh as (b1 & Hb1 & Hu). rewrite (AccountingUndo.local_block _ _ _ Hloc) in Hb1. injection Hb1 as Hb1.
      unfold block_here. rewrite Hb1. by rewrite (left_id_L None (∪)). }
  unfold AccountingUndo.holds_undos, AccountingUndo.holds, AccountingUndo.lacks.
  rewrite AccountingUndo.block_undo_of_put, Hop.
  destruct us; [eexists (Some _); split; [done|]|eexists; split; [done|]]; simpl; by rewrite lookup_union.
Qed.
End undo.

Section utxo_undo.
Context `{CryptoTypes}.
Import UtxosUndo.
Implicit Types (data : UtxosBlockUndoCache) (src : TransactionSource) (b : CachedUtxosBlockUndo).

Definition all_written {K X} `{Countable K} (m : gmap K (CachedOperation X)) : Prop :=
  forall k op, m !! k = Some op -> exists x, op = Write x.

Record utxos_block_new b : Prop := {
  bn_reward : reward_undo b = None;
  bn_txs : all_written (tx_undos b);
  bn_child_parent : all_written (child_parent_dependencies b);
  bn_parent_child : all_written (parent_child_dependencies b)
}.
Definition only_new_utxos src data : Prop := data = ∅ \/ exists b, data = {[src := Write b]} /\ utxos_block_new b.

Lemma all_written_insert {K X} `{Countable K} (m : gmap K (CachedOperation X)) k x :
  all_written m -> all_written (<[k:=Write x]> m).
Proof. intros Hm j op [[_ <-]|[_ ?]]%lookup_insert_Some; eauto. Qed.

Lemma insert_undo_new id u b : utxos_block_new b -> utxos_block_new (insert_undo id u b).
Proof.
  intros [Hr Ht Hc Hp]. unfold insert_undo.
  assert (utxos_block_new (with_txs (<[id:=Write (undo_utxos u)]> (tx_undos b)) b)) as Hb
    by (split; simpl; [done|by apply all_written_insert|done|done]).
  clear Hr Ht Hc Hp. revert Hb. generalize (with_txs (<[id:=Write (undo_utxos u)]> (tx_undos b)) b) as b1.
  induction (omap get_tx_id (undo_sources u)) as [|p ps IH]; intros b1 Hb; [done|]. simpl. apply IH.
  destruct Hb. split; simpl; [done|done|by apply all_written_insert|by apply all_written_insert].
Qed.

Lemma add_tx_undo_new src id u data data' :
  only_new_utxos src data -> add_tx_undo src id u data = (data', Ok tt) -> only_new_utxos src data'.
Proof.
  intros Hnew ->%utxos_add_tx_undo_Ok. right. destruct Hnew as [->|(b & -> & Hb)].
  - eexists. split; [by rewrite insert_empty|]. apply insert_undo_new. rewrite lookup_empty. simpl.
    split; simpl; try done; intros ? ?; by rewrite lookup_empty.
  - eexists. split; [by rewrite insert_singleton_eq|]. apply insert_undo_new. by rewrite lookup_singleton_eq.
Qed.

Definition join b b0 : CachedUtxosBlockUndo :=
  UtxosUndo.mk_undo _ (reward_undo b0) (tx_undos b ∪ tx_undos b0)
    (child_parent_dependencies b ∪ child_parent_dependencies b0)
    (parent_child_dependencies b ∪ parent_child_dependencies b0).

Section two.
Context b txs R deps (Hb : block_holds b txs R deps) (Hnew : utxos_block_new b).
Context b0 txs0 R0 deps0 (Hb0 : block_holds b0 txs0 R0 deps0) (Hdis : forall id, txs !! id = None \/ txs0 !! id = None).

Lemma combine_utxos_new : combine_undo b b0 = (join b b0, Ok tt).
Proof.
  assert (forall c p, child_parent_dependencies b !! (c, p) <> None -> child_parent_dependencies b0 !! (c, p) ≫= get = None) as Hdep.
  { intros c p Hcp. destruct (child_parent_dependencies b !! (c, p)) as [op|] eqn:Hop; [|done].
    destruct (bn_child_parent _ Hnew _ _ Hop) as [[] ->].
    assert (deps c p) as Hd. { apply (bh_deps _ _ _ _ Hb). unfold depends_on. by rewrite <- (bh_mirror _ _ _ _ Hb), Hop. }
    destruct (bh_children _ _ _ _ Hb c p Hd) as [x Hx]. rewrite (bh_mirror _ _ _ _ Hb0).
    destruct (parent_child_dependencies b0 !! (p, c) ≫= get) as [[]|] eqn:Hp; [|done].
    apply (bh_deps _ _ _ _ Hb0) in Hp. destruct (bh_children _ _ _ _ Hb0 c p Hp) as [y Hy].
    destruct (Hdis c); congruence. }
  assert (fresh_over (tx_undos b0) (tx_undos b)) as H1.
  { intros id op Hid. split; [by eapply bn_txs|]. rewrite (bh_txs _ _ _ _ Hb0).
    destruct (bn_txs _ Hnew _ _ Hid) as [x ->]. pose proof (bh_txs _ _ _ _ Hb id) as Hx. rewrite Hid in Hx. simpl in Hx.
    destruct (Hdis id); congruence. }
  assert (fresh_over (child_parent_dependencies b0) (child_parent_dependencies b)) as H2.
  { intros [c p] op Hcp. split; [by eapply bn_child_parent|]. apply Hdep. congruence. }
  assert (fresh_over (parent_child_dependencies b0) (parent_child_dependencies b)) as H3.
  { intros [p c] op Hpc. split; [by eapply bn_parent_child|]. rewrite <- (bh_mirror _ _ _ _ Hb0). apply Hdep.
    rewrite (bh_mirror _ _ _ _ Hb). congruence. }
  unfold combine_undo, zoom, self, mbind, st_bind. rewrite (bn_reward _ Hnew).
  destruct (reward_undo b0) eqn:Hr; simpl; rewrite (combine_entries _ _ H1); simpl;
    rewrite (combine_entries _ _ H2); simpl; rewrite (combine_entries _ _ H3); simpl; unfold with_txs, with_child_parent, with_parent_child, join; simpl; by rewrite ?Hr.
Qed.

Lemma join_holds : block_holds (join b b0) (txs ∪ txs0) R0 (fun c p => deps c p \/ deps0 c p).
Proof.
  split; simpl.
  - intros id. rewrite !lookup_union, <- (bh_txs _ _ _ _ Hb), <- (bh_txs _ _ _ _ Hb0).
    destruct (tx_undos b !! id) as [op|] eqn:Hid; [|by destruct (tx_undos b0 !! id) as [[]|]].
    destruct (bn_txs _ Hnew _ _ Hid) as [x ->]. simpl. by destruct (tx_undos b0 !! id) as [[]|].
  - apply (bh_reward _ _ _ _ Hb0).
  - intros c p. rewrite <- (bh_deps _ _ _ _ Hb), <- (bh_deps _ _ _ _ Hb0). unfold depends_on. simpl. rewrite lookup_union.
    destruct (parent_child_dependencies b !! (p, c)) as [op|] eqn:Hop.
    + destruct (bn_parent_child _ Hnew _ _ Hop) as [[] ->]. simpl.
      destruct (parent_child_dependencies b0 !! (p, c)) as [[]|]; simpl; tauto.
    + rewrite (left_id_L None (∪)). simpl. split; [by right|by intros [?|?]].
  - intros c p. by rewrite !lookup_union, (bh_mirror _ _ _ _ Hb), (bh_mirror _ _ _ _ Hb0).
  - intros c p [Hd|Hd]; [apply (bh_children _ _ _ _ Hb) in Hd|apply (bh_children _ _ _ _ Hb0) in Hd];
      destruct Hd as [x Hx]; rewrite lookup_union, Hx.
    + destruct (txs0 !! c); eauto.
    + destruct (txs !! c); eauto.
Qed.
End two.

Lemma join_empty b : utxos_block_new b -> join b empty_undo = b.
Proof. intros [Hr _ _ _]. unfold join. simpl. rewrite !(right_id_L ∅ (∪)), <- Hr. by destruct b. Qed.

Lemma set_utxos_undo_new src b txs R deps data txs0 R0 deps0 :
  block_holds b txs R deps -> utxos_block_new b ->
  block_holds (default empty_undo (data !! src ≫= get)) txs0 R0 deps0 ->
  (forall id, txs !! id = None \/ txs0 !! id = None) ->
  exists op, UtxosUndo.set_undo_data src b data = (<[src:=op]> data, Ok tt) /\
    get op = Some (join b (default empty_undo (data !! src ≫= get))).
Proof.
  intros Hb Hnew Hb0 Hdis. unfold UtxosUndo.set_undo_data, self, UtxosUndo.put, modify, lift, mbind, st_bind.
  destruct (data !! src) as [[d|d|]|]; simpl in *.
  1,2: rewrite (combine_utxos_new _ _ _ _ Hb Hnew _ _ _ _ Hb0 Hdis); by eexists.
  all: exists (Write b); by rewrite join_empty.
Qed.

(** Flushing the records of outputs into a cache that has none of these transactions. *)
Lemma flush_utxos_undo src new data fetcher (f : TransactionSource -> result ConnectTransactionError _)
    txs R deps txs0 R0 deps0 :
  only_new_utxos src new -> UtxosUndo.local data fetcher src -> f src = Ok None ->
  UtxosUndo.holds new f src txs R deps -> UtxosUndo.holds data fetcher src txs0 R0 deps0 ->
  (forall id, txs !! id = None \/ txs0 !! id = None) ->
  exists data', try_for_each (flush_op UtxosUndo.set_undo_data UtxosUndo.del_undo_data) (btree_iter new) data
      = (data', Ok tt) /\ UtxosUndo.local data' fetcher src /\
    UtxosUndo.holds data' fetcher src (txs ∪ txs0) R0 (fun c p => deps c p \/ deps0 c p).
Proof.
  intros Hnew Hloc Hf (ob & Hob & Hb) (ob0 & Hob0 & Hb0) Hdis. unfold UtxosUndo.block_undo_of in Hob.
  rewrite (UtxosUndo.utxos_local_block _ _ _ Hloc) in Hob0. injection Hob0 as <-.
  destruct Hnew as [->|(b & -> & Hnew)].
  - rewrite lookup_empty, Hf in Hob. injection Hob as <-. simpl in Hb. exists data. rewrite btree_iter_empty.
    split; [done|]. split; [done|]. exists (data !! src ≫= get). split; [by apply UtxosUndo.utxos_local_block|].
    assert (utxos_block_new empty_undo) as He by (split; simpl; try done; intros ? ?; by rewrite lookup_empty).
    pose proof (join_holds _ _ _ _ Hb He _ _ _ _ Hb0) as Hj.
    assert (join empty_undo (default empty_undo (data !! src ≫= get)) = default empty_undo (data !! src ≫= get)) as <-; [|exact Hj].
    unfold join. simpl. rewrite !(left_id_L ∅ (∪)). by destruct (default _ _).
  - rewrite lookup_singleton_eq in Hob. injection Hob as <-. simpl in Hb.
    destruct (set_utxos_undo_new src b _ _ _ data _ _ _ Hb Hnew Hb0 Hdis) as (op & Hrun & Hop).
    exists (<[src:=op]> data). rewrite btree_iter_singleton. simpl. unfold flush_op. simpl.
    rewrite (st_bind_run _ _ _ _ _ Hrun). split; [done|]. split; [unfold UtxosUndo.local; by rewrite lookup_insert_eq|].
    eexists. split; [apply UtxosUndo.utxos_block_undo_of_put|]. rewrite Hop. simpl. by eapply join_holds.
Qed.
End utxo_undo.

(** ** What connecting leaves in a derived verifier *)

Section issuance.
Context `{CryptoTypes} `{!TxHash} `{!IdHashes}.

Lemma register_new cfg h block tx getter c c' : register cfg h block tx getter c = (c', Ok tt) ->
  c' = c \/ exists id data, getter id = Ok None /\ aux_data c !! id = None /\
    c' = mk_issuance (<[id:=Write data]> (aux_data c)) (<[get_id tx:=Write id]> (txid_vs_tokenid c)).
Proof.
  unfold register. destruct (has_tokens_issuance_to_cache (outputs tx)) as [id|]; [|intros [-> _]%mret_Ok; by left].
  intros Hrun. right. apply st_bind_Ok in Hrun as (e & s1 & [-> _]%lift_Ok & Hrun).
  apply st_bind_Ok in Hrun as ([] & s2 & [-> _]%lift_Ok & Hrun). apply st_bind_Ok in Hrun as ([] & s3 & Hpre & Hrun).
  unfold precache_token_issuance, self, lift, mbind, st_bind in Hpre.
  destruct (aux_data c !! id) eqn:Hc; [done|]. destruct (getter id) as [[el|]|e1|] eqn:Hg; simplify_eq/=.
  - injection Hpre as <-. unfold write_issuance, insert_aux_data, st_map_err, self, mbind, st_bind in Hrun.
    simpl in Hrun. by rewrite lookup_insert_eq in Hrun.
  - injection Hpre as <-. unfold write_issuance, insert_aux_data, st_map_err, self, mbind, st_bind in Hrun.
    rewrite Hc in Hrun. injection Hrun as <-. by eexists id, _.
Qed.

Lemma flush_aux l (c : TokenIssuanceCache) : NoDup l.*1 ->
  (forall k op, (k, op) ∈ l -> (exists x, op = Write x) /\ aux_data c !! k ≫= get = None) ->
  try_for_each (flush_op set_token_aux_data del_token_aux_data) l c
    = (mk_issuance (list_to_map l ∪ aux_data c) (txid_vs_tokenid c), Ok tt).
Proof.
  revert c. induction l as [|[k op] l IH]; intros c Hnd Hl; simpl.
  { rewrite (left_id_L ∅ (∪)). by destruct c. }
  apply NoDup_cons in Hnd as [Hk Hnd]. destruct (Hl k op ltac:(left)) as [[x ->] Hold].
  assert (set_token_aux_data k x c = (mk_issuance (<[k:=Write x]> (aux_data c)) (txid_vs_tokenid c), Ok tt)) as Hx.
  { unfold set_token_aux_data, insert_aux_data, self, mbind, st_bind. by destruct (aux_data c !! k) as [[]|]. }
  unfold flush_op at 1. simpl. rewrite (st_bind_run _ _ _ _ _ Hx), IH; [|done|].
  - simpl. do 2 f_equal. rewrite <- insert_union_l, insert_union_r; [done|]. by apply not_elem_of_list_to_map_1.
  - intros j op Hj. simpl. rewrite lookup_insert_ne; [apply Hl; by right|].
    intros ->. apply Hk. by apply (list_elem_of_fmap_2 fst _ (j, op)).
Qed.

Lemma flush_ids l (c : TokenIssuanceCache) :
  exists m, try_for_each (flush_op set_token_id del_token_id) l c = (mk_issuance (aux_data c) m, Ok tt).
Proof.
  revert c. induction l as [|[k [x|x|]] l IH]; intros c; simpl; [exists (txid_vs_tokenid c); by destruct c|..].
  - destruct (IH (mk_issuance (aux_data c) (<[k:=Write x]> (txid_vs_tokenid c)))) as [m Hm]. by exists m.
  - apply IH.
  - destruct (IH (mk_issuance (aux_data c) (<[k:=Erase]> (txid_vs_tokenid c)))) as [m Hm]. by exists m.
Qed.
End issuance.

Lemma flush_nonces `{CryptoTypes} (new old : gmap AccountType (CachedOperation AccountNonce)) : all_written new ->
  try_for_each (flush_op (fun account nonce => modify (fun m => <[account:=Write nonce]> m))
      (fun account => modify (fun m => <[account:=Erase]> m))) (btree_iter new) old
    = (new ∪ old, Ok tt : result TransactionVerifierStorageError unit).
Proof.
  intros Hw. apply (try_for_each_btree (fun _ o (op : CachedOperation AccountNonce) =>
    match op with Write n => Ok (Some (Write n)) | Read _ => Ok o | Erase => Ok (Some Erase) end)).
  - intros k [x|x|] st; simpl; [done| |done]. unfold flush_op, mret, st_ret. simpl. f_equal. symmetry. apply partial_alter_id. done.
  - intros k. rewrite lookup_union. destruct (new !! k) as [op|] eqn:Hk; [|by destruct (old !! k)].
    destruct (Hw k op Hk) as [x ->]. by destruct (old !! k).
Qed.

Section derived.
Context `{CryptoTypes} `{!TxHash} `{!IdHashes} `{!TxParameters}.
Context {S U A T O : Type} `{!TransactionVerifierStorageRef S} `{!UtxosView U}
  `{!PoS.PoSAccountingView A} `{!Tokens.TokensAccountingView T} `{!Orders.OrdersAccountingView O}.
Abbreviation V := (TransactionVerifier S U A T O).
Abbreviation D := (TransactionVerifier V (UtxosCache U) (PoS.PoSAccountingDelta A)
  (Tokens.TokensAccountingCache T) (Orders.OrdersAccountingCache O)).
Implicit Types (v : V) (c : D) (src : TransactionSource).

(** The verifier below, and records of the source [src] that were written. *)
Record derived_new src v c : Prop := {
  dn_storage : storage c = v;
  dn_utxos : only_new_utxos src (utxo_block_undo c);
  dn_pos : only_new src (pos_accounting_block_undo c);
  dn_tokens : only_new src (tokens_accounting_block_undo c);
  dn_orders : only_new src (orders_accounting_block_undo c);
  dn_nonces : all_written (account_nonce c);
  dn_issuance : forall id op, aux_data (token_issuance_cache c) !! id = Some op ->
    (exists x, op = Write x) /\ get_token_aux_data v id = Ok None
}.

Lemma derived_new_next src v c (tx : Transaction) u c' : derived_new src v c -> records src c tx u c' -> derived_new src v c'.
Proof.
  intros [Hst Hu Hp Ht Ho Hn Hi] [Ru Rp Rt Ro (h & b & Ri) Rn Rs _]. split.
  - congruence.
  - by eapply add_tx_undo_new.
  - by eapply recorded_new.
  - by eapply recorded_new.
  - by eapply recorded_new.
  - intros a op Hop. destruct (Rn a op Hop) as [?|[n ->]]; eauto.
  - apply register_new in Ri as [->|(id & data & Hg & _ & ->)]; [done|]. simpl.
    intros id' op [[<- <-]|[_ Hop]]%lookup_insert_Some; [|by apply Hi]. split; [eauto|].
    unfold issuance_getter in Hg. rewrite Hst in Hg. by apply map_err_Ok in Hg.
Qed.

(** What the derived verifier starts from: what the one below shows. *)
Definition bases_at (X : ChainState) : Bases :=
  mk_bases (s_utxos X) (mk_adapter_base (s_pos X) (s_pos X) ∅) (s_tokens X) (s_orders X).
Definition no_fetchers : UndoFetchers :=
  mk_fetchers (fun _ => Ok None) (fun _ => Ok None) (fun _ => Ok None) (fun _ => Ok None).

Lemma derive_child_shows src v X : shows src v X ->
  exists c, (derive_child v : result Empty_set D) = Ok c /\ shows_over (bases_at X) src c X /\ derived_new src v c /\
    chain_config c = chain_config v /\ new_block_over no_fetchers src c.
Proof.
  intros [B [Hu Hp Ht Ho Hn]].
  eexists. split; [unfold derive_child; simpl; reflexivity|].
  split; [split; simpl|split; [split; simpl; try done; try (by left)|]].
  - split; simpl; [by eapply utxo_cache_represents|intros k e; by rewrite lookup_empty|intros k; by rewrite lookup_empty].
  - destruct Hp as [Hp _ _]. split; simpl; [|rewrite lookup_empty|by rewrite delete_empty].
    + apply PoS.cache_rep_new_pos; [by eapply PoS.cache_represents_pos|by eapply PoS.cache_rep_bounded_pos].
    + apply delta_rep_new. by eapply PoS.cache_rep_bounded_pos.
  - apply Tokens.cache_rep_new_tokens; [by eapply Tokens.cache_represents_tokens|by eapply Tokens.rep_bound].
  - apply Orders.cache_rep_new_orders; [by eapply Orders.cache_represents_orders|by eapply Orders.cache_rep_bounded_orders].
  - intros a. unfold nonce_count. simpl. rewrite lookup_empty. apply Hn.
  - split; [done|]. by split_and!.
Qed.
(** ** Flushing a derived verifier *)

(** An empty delta changes nothing. *)
Lemma delta_rep_empty d lb l l' :
  PoS.delta_rep d lb l -> PoS.delta_rep PoS.PoSAccountingDeltaData_new l l' -> PoS.delta_rep d lb l'.
Proof.
  intros [E1 E2 E3 E4 E5] [[_ G1] G2 G3 G4 [_ G5]].
  split; first [eapply data_rep_ext; [|eassumption]|eapply balance_rep_ext; [|eassumption]]; intros k; simpl in *.
  - by rewrite G1, data_view_empty.
  - apply bint_eq. by rewrite (balance_rep_sum _ _ _ G2), Z.add_0_r.
  - apply bint_eq. by rewrite (balance_rep_sum _ _ _ G3), Z.add_0_r.
  - apply bint_eq. by rewrite (balance_rep_sum _ _ _ G4), Z.add_0_r.
  - by rewrite G5, data_view_empty.
Qed.

Lemma flush_pos src b (a : PoSAccountingDeltaAdapter A) (ac : PoSAccountingDeltaAdapter (PoS.PoSAccountingDelta A)) l l' :
  pos_rep src b a l -> pos_rep src (mk_adapter_base l l ∅) ac l' ->
  exists a1 u a2, adapter_batch_write_delta (PoS.data (accounting_delta ac)) a = (a1, Ok u) /\
    try_for_each (fun '(tx_source, delta) => apply_accounting_delta tx_source delta)
      (btree_iter (accounting_block_deltas ac)) a1 = (a2, Ok tt) /\ pos_rep src b a2 l'.
Proof.
  intros [Hd Hb Ho] [Hd' Hb' Ho']. simpl in *.
  destruct (PoS.flush_to_cache_pos _ _ _ _ _ Hd (PoS.cache_rep_delta _ _ _ Hd')) as (d1 & Hm1 & Hd1).
  assert (exists u, adapter_batch_write_delta (PoS.data (accounting_delta ac)) a = (mk_adapter d1 (accounting_block_deltas a), Ok u))
    as [u Hrun1] by (unfold adapter_batch_write_delta, in_accounting_delta, zoom; rewrite Hm1; by eexists).
  destruct (accounting_block_deltas ac !! src) as [d|] eqn:Hsrc; simpl in Hb'.
  - assert (accounting_block_deltas ac = {[src := d]}) as ->
      by (rewrite <- (insert_delete_id _ _ _ Hsrc), Ho'; apply insert_empty).
    destruct (PoS.merge_deltas_rep _ _ _ _ _ Hb Hb') as (b1 & Hm2 & Hb1).
    exists (mk_adapter d1 (accounting_block_deltas a)), u, (mk_adapter d1 (<[src:=b1]> (accounting_block_deltas a))). split; [exact Hrun1|]. split.
    + rewrite btree_iter_singleton. simpl.
      unfold apply_accounting_delta, in_block_delta, zoom, mbind, st_bind. simpl. by rewrite Hm2.
    + split; simpl; [done|by rewrite lookup_insert_eq|by rewrite delete_insert_eq].
  - assert (accounting_block_deltas ac = ∅) as -> by (by rewrite <- Ho', delete_id).
    exists (mk_adapter d1 (accounting_block_deltas a)), u, (mk_adapter d1 (accounting_block_deltas a)). split; [exact Hrun1|]. rewrite btree_iter_empty.
    split; [done|]. split; simpl; [done|by eapply delta_rep_empty|done].
Qed.

Lemma flush_tokens_cache b (p : Tokens.TokensAccountingCache T) (c : Tokens.TokensAccountingCache (Tokens.TokensAccountingCache T)) l l' :
  tokens_rep b p l -> tokens_rep l c l' ->
  exists p' u, Tokens.batch_write_tokens_data (Tokens.data c) p = (p', Ok u) /\ tokens_rep b p' l'.
Proof.
  intros Hp Hc.
  destruct (Tokens.flush_to_cache_tokens (Tokens.mk_cache p (Tokens.data c)) b l l' Hp) as (p' & Hrun & Hp').
  { destruct Hc. split; simpl; [by eapply Tokens.cache_represents_tokens|done..]. }
  by eexists _, _.
Qed.

Lemma flush_orders_cache b (p : Orders.OrdersAccountingCache O) (c : Orders.OrdersAccountingCache (Orders.OrdersAccountingCache O)) l l' :
  orders_rep b p l -> orders_rep l c l' ->
  exists p' u, Orders.batch_write_orders_data (Orders.data c) p = (p', Ok u) /\ orders_rep b p' l'.
Proof.
  intros Hp Hc.
  destruct (Orders.flush_to_cache_orders (Orders.mk_cache p (Orders.data c)) b l l' Hp) as (p' & Hrun & Hp').
  { destruct Hc. split; simpl; [by eapply Orders.cache_represents_orders|done..]. }
  by eexists _, _.
Qed.

Lemma flush_utxos_cache Up (p : UtxosCache U) (c : UtxosCache (UtxosCache U)) Us Us' :
  cache_rep p Up Us -> cache_rep c Us Us' -> exists p', batch_write (Utxo.consume c) p = (p', Ok tt) /\ cache_rep p' Up Us'.
Proof.
  intros Hp Hc. destruct (batch_write_rep p Up Us (Utxo.consume c) Hp (rep_entries _ _ _ Hc)) as (p' & Hrun & Hrep & _).
  exists p'. split; [done|]. eapply cache_rep_ext; [|exact Hrep]. intros k. symmetry. apply (rep_shows _ _ _ Hc).
Qed.

Lemma list_to_map_entries {X} (es1 es0 : list (TxId * X)) :
  (list_to_map (es1 ++ es0) : gmap TxId X) = list_to_map es1 ∪ list_to_map es0.
Proof. apply list_to_map_app. Qed.

Section flush_derived.
Context (B : Bases) (src : TransactionSource) (v : V) (X : ChainState) (c : D) (X' : ChainState).
Context (U0 U1 : UtxoSet) (es0 es1 : list (TxId * tx_undos)).
Hypothesis Hv : shows_over B src v X.
Hypothesis Hc : shows_over (bases_at X) src c X'.
Hypothesis Hnew : derived_new src v c.
Hypothesis Hroom0 : room src v U0 es0.
Hypothesis Hroom1 : room_over no_fetchers src c U1 es1.
Hypothesis Hdis : forall id, id ∈ es1.*1 -> (id ∉ es0.*1) /\ unused (SourceTransaction id) U0.

(** The records of outputs of the two verifiers, joined. *)
Lemma flush_utxos_records : exists d,
  try_for_each (flush_op UtxosUndo.set_undo_data UtxosUndo.del_undo_data) (btree_iter (utxo_block_undo c)) (utxo_block_undo v)
    = (d, Ok tt) /\
  exists R deps, UtxosUndo.holds d (undo_fetcher v) src
      (list_to_map (prod_map (fun id => id) u_utxos <$> (es1 ++ es0))) R deps /\
    forall es e es', es1 ++ es0 = es ++ e :: es' -> forall x : TxId, deps x e.1 -> x ∈ es.*1.
Proof.
  destruct (rm_utxos _ _ _ _ _ Hroom0) as (R0 & deps0 & Hloc & Hh0 & Hord0 & Hpar0).
  destruct (rm_utxos _ _ _ _ _ Hroom1) as (R1 & deps1 & _ & Hh1 & Hord1 & _).
  destruct (flush_utxos_undo src _ _ _ _ _ _ _ _ _ _ (dn_utxos _ _ _ Hnew) Hloc eq_refl Hh1 Hh0) as (d & Hrun & _ & Hh).
  { intros id. destruct (decide (id ∈ es1.*1)) as [Hin|Hin]; [right|left]; apply not_elem_of_list_to_map_1;
      rewrite <- list_fmap_compose; [|exact Hin]. by apply Hdis. }
  exists d. split; [done|]. exists R0, (fun x p => deps1 x p \/ deps0 x p).
  split; [by rewrite fmap_app, list_to_map_entries|].
  assert (forall x p, deps1 x p -> x ∈ es1.*1) as Hchild.
  { intros x p Hx. destruct Hh1 as (ob & _ & Hb). destruct (UtxosUndo.bh_children _ _ _ _ Hb x p Hx) as [us Hus].
    apply elem_of_list_to_map_2, list_elem_of_fmap in Hus as (e & He & Hin). apply list_elem_of_fmap. exists e.
    destruct e as [i w]. by injection He as -> _. }
  intros es e es' Heq x Hx. apply app_eq_app in Heq as [l [[-> Heq]|[-> Heq]]].
  - destruct l as [|e' l]; simpl in Heq.
    + rewrite app_nil_r in *. destruct Hx as [Hx|Hx]; [by apply (Hchild x e.1)|]. exfalso.
      pose proof (Hord0 [] e es' (eq_sym Heq) x Hx) as Hin. by apply not_elem_of_nil in Hin.
    + injection Heq as <- ->. destruct Hx as [Hx|Hx]; [by eapply Hord1|]. exfalso.
      destruct (Hdis e.1) as [Hn Hun]; [rewrite fmap_app; set_solver|]. destruct (Hpar0 _ _ Hx); naive_solver.
  - rewrite fmap_app, elem_of_app. destruct Hx as [Hx|Hx]; [left; by eapply Hchild|right]. by eapply Hord0.
Qed.

Lemma flush_accounting_records {Un} `{!EqDecision Un} (new data : AccountingUndo.AccountingBlockUndoCache Un) fetcher
    (f : TransactionSource -> result ConnectTransactionError _) (undos : tx_undos -> list Un) :
  only_new src new -> AccountingUndo.local data fetcher src -> f src = Ok None ->
  (forall e, e ∈ es1 -> AccountingUndo.holds_undos new f src e.1 (undos e.2)) ->
  (forall id, id ∉ es1.*1 -> AccountingUndo.lacks new f src id) ->
  (forall e, e ∈ es0 -> AccountingUndo.holds_undos data fetcher src e.1 (undos e.2)) ->
  (forall id, id ∉ es0.*1 -> AccountingUndo.lacks data fetcher src id) ->
  exists d, try_for_each (flush_op AccountingUndo.set_undo_data AccountingUndo.del_undo_data) (btree_iter new) data = (d, Ok tt) /\
    forall e, e ∈ es1 ++ es0 -> AccountingUndo.holds_undos d fetcher src e.1 (undos e.2).
Proof.
  intros Hn Hloc Hf Hh1 Hl1 Hh0 Hl0.
  destruct (flush_undo_holds src new data fetcher f Hn Hloc Hf) as (d & Hrun & _ & Hd).
  { intros id. destruct (decide (id ∈ es1.*1)) as [Hin|Hin]; [right; by apply Hl0, Hdis|left; by apply Hl1]. }
  exists d. split; [done|]. intros e [He|He]%elem_of_app; apply Hd.
  - left. split; [by apply Hh1|]. by apply Hl0, Hdis, list_elem_of_fmap_2.
  - right. split; [|by apply Hh0]. apply Hl1. intros Hin. destruct (Hdis _ Hin) as [Hno _]. by apply Hno, list_elem_of_fmap_2.
Qed.

(** The tokens that were issued in the derived verifier are not known below. *)
Lemma flush_issuance : exists iss, flush_tokens (token_issuance_cache c) v = (with_issuance iss v, Ok tt) /\
  aux_data iss = aux_data (token_issuance_cache c) ∪ aux_data (token_issuance_cache v).
Proof.
  assert (forall k op, (k, op) ∈ btree_iter (aux_data (token_issuance_cache c)) ->
    (exists x, op = Write x) /\ aux_data (token_issuance_cache v) !! k ≫= get = None) as Hl.
  { intros k op Hk%elem_of_btree_iter. destruct (dn_issuance _ _ _ Hnew k op Hk) as [Hw Hnone]. split; [done|].
    simpl in Hnone. unfold cached in Hnone. destruct (aux_data (token_issuance_cache v) !! k) as [op0|]; [|done].
    simpl. by injection Hnone. }
  pose proof (flush_aux _ (token_issuance_cache v) (btree_iter_NoDup _) Hl) as Hrun. rewrite list_to_map_btree_iter in Hrun.
  apply (flush_zoom token_issuance_cache with_issuance TransactionVerifierStorageError.TokensError) in Hrun; [|done|by intros []|done].
  destruct (flush_ids (btree_iter (txid_vs_tokenid (token_issuance_cache c)))
    (mk_issuance (aux_data (token_issuance_cache c) ∪ aux_data (token_issuance_cache v)) (txid_vs_tokenid (token_issuance_cache v))))
    as [m Hrun2].
  eexists. split; [unfold flush_tokens; rewrite (st_bind_run _ _ _ _ _ Hrun)|].
  - refine (flush_zoom token_issuance_cache with_issuance TransactionVerifierStorageError.TokensError _ _ _ (with_issuance _ v) _ _ _ _ Hrun2);
      [done|by intros []|done].
  - done.
Qed.

Lemma flush_all_records : exists dp dt do,
  try_for_each (flush_op AccountingUndo.set_undo_data AccountingUndo.del_undo_data)
    (btree_iter (pos_accounting_block_undo c)) (pos_accounting_block_undo v) = (dp, Ok tt) /\
  try_for_each (flush_op AccountingUndo.set_undo_data AccountingUndo.del_undo_data)
    (btree_iter (tokens_accounting_block_undo c)) (tokens_accounting_block_undo v) = (dt, Ok tt) /\
  try_for_each (flush_op AccountingUndo.set_undo_data AccountingUndo.del_undo_data)
    (btree_iter (orders_accounting_block_undo c)) (orders_accounting_block_undo v) = (do, Ok tt) /\
  forall e, e ∈ es1 ++ es0 -> AccountingUndo.holds_undos dp (pos_fetcher v) src e.1 (u_pos e.2) /\
    AccountingUndo.holds_undos dt (tokens_fetcher v) src e.1 (u_tokens e.2) /\
    AccountingUndo.holds_undos do (orders_fetcher v) src e.1 (u_orders e.2).
Proof.
  destruct (rm_local _ _ _ _ _ Hroom0) as (Lp & Lt & Lo).
  pose proof (rm_accounting _ _ _ _ _ Hroom1) as A1. pose proof (rm_rest _ _ _ _ _ Hroom1) as N1.
  pose proof (rm_accounting _ _ _ _ _ Hroom0) as A0. pose proof (rm_rest _ _ _ _ _ Hroom0) as N0.
  destruct (flush_accounting_records _ _ _ (fun _ => Ok None) u_pos (dn_pos _ _ _ Hnew) Lp eq_refl) as (dp & Hdp & Hhp);
    [intros e He; apply (A1 e He)|intros id Hid; apply (N1 _ Hid)|intros e He; apply (A0 e He)|intros id Hid; apply (N0 _ Hid)|].
  destruct (flush_accounting_records _ _ _ (fun _ => Ok None) u_tokens (dn_tokens _ _ _ Hnew) Lt eq_refl) as (dt & Hdt & Hht);
    [intros e He; apply (A1 e He)|intros id Hid; apply (N1 _ Hid)|intros e He; apply (A0 e He)|intros id Hid; apply (N0 _ Hid)|].
  destruct (flush_accounting_records _ _ _ (fun _ => Ok None) u_orders (dn_orders _ _ _ Hnew) Lo eq_refl) as (do & Hdo & Hho);
    [intros e He; apply (A1 e He)|intros id Hid; apply (N1 _ Hid)|intros e He; apply (A0 e He)|intros id Hid; apply (N0 _ Hid)|].
  exists dp, dt, do. split_and!; [done..|]. intros e He. split_and!; [by apply Hhp|by apply Hht|by apply Hho].
Qed.

(** The verifier below then shows what the derived one showed, and keeps its records. *)
Lemma flush_derived : exists v', flush_to_storage (consume_verifier c) v = (v', Ok tt) /\
  shows_over B src v' X' /\ block_held src v' (es1 ++ es0) /\ storage v' = storage v /\
  forall id, get_token_aux_data v' id = get_token_aux_data c id.
Proof.
  destruct Hv as [Vu Vp Vt Vo Vn]. destruct Hc as [Cu Cp Ct Co Cn].
  destruct flush_issuance as (iss & Hiss & Haux). destruct flush_utxos_records as (du & Hdu & Hheld).
  destruct (flush_utxos_cache _ _ _ _ _ Vu Cu) as (uc & Huc & Hu).
  destruct (flush_pos _ _ _ _ _ _ Vp Cp) as (a1 & pu & a2 & Ha1 & Ha2 & Hp).
  destruct (flush_tokens_cache _ _ _ _ _ Vt Ct) as (tc & tu & Htc & Ht).
  destruct (flush_orders_cache _ _ _ _ _ Vo Co) as (oc & ou & Hoc & Ho).
  destruct flush_all_records as (dp & dt & do & Hdp & Hdt & Hdo & Hh).
  pose proof (flush_nonces _ (account_nonce v) (dn_nonces _ _ _ Hnew)) as Hnn.
  exists (mk_verifier (chain_config v) (storage v) (TxVerifier.best_block v) iss uc du a2 dp tc dt oc do
    (account_nonce c ∪ account_nonce v)). split.
  - unfold flush_to_storage, consume_verifier. simpl. rewrite (st_bind_run _ _ _ _ _ Hiss).
    erewrite st_bind_run; [|apply zoom_run; exact Huc].
    erewrite st_bind_run; [|eapply (flush_zoom utxo_block_undo with_utxo_undo); [done|by intros []|done|exact Hdu]].
    erewrite st_bind_run; [|apply zoom_run; exact Ha1].
    erewrite st_bind_run; [|erewrite try_for_each_ext; [apply (try_for_each_zoom pos_accounting_adapter with_adapter
      TransactionVerifierStorageError.PoSAccountingError); [done|by intros []|done|exact Ha2]|by intros [s d] w]].
    erewrite st_bind_run; [|eapply (flush_zoom pos_accounting_block_undo with_pos_undo); [done|by intros []|done|exact Hdp]].
    erewrite st_bind_run; [|apply zoom_run; exact Htc].
    erewrite st_bind_run; [|eapply (flush_zoom tokens_accounting_block_undo with_tokens_undo); [done|by intros []|done|exact Hdt]].
    erewrite st_bind_run; [|eapply (flush_zoom account_nonce with_nonces); [done|by intros []|done|exact Hnn]].
    erewrite st_bind_run; [|apply zoom_run; exact Hoc].
    etrans; [eapply (flush_zoom orders_accounting_block_undo with_orders_undo); [done|by intros []|done|exact Hdo]|done].
  - split; [split; simpl; [exact Hu|exact Hp|exact Ht|exact Ho|]|].
    { intros a. specialize (Cn a). unfold nonce_count in *. simpl. rewrite lookup_union.
      destruct (account_nonce c !! a) as [op|] eqn:Hop; [by destruct (account_nonce v !! a)|].
      rewrite (left_id_L None (∪)). by rewrite (dn_storage _ _ _ Hnew) in Cn. }
    split; [split; [exact Hheld|intros e He; split; simpl; apply (Hh e He)]|].
    split; [done|]. intros id. simpl. unfold cached. rewrite Haux, (dn_storage _ _ _ Hnew), lookup_union. simpl. unfold cached.
    by destruct (aux_data (token_issuance_cache c) !! id), (aux_data (token_issuance_cache v) !! id).
Qed.
End flush_derived.

(** * Main property *)

(** C7: connecting the transactions of a block in a derived verifier and flushing
    it does to the verifier below what the transactions say.  If the verifier
    below shows the state [X] and keeps the records [es] of earlier transactions
    of the block, then flushing never fails or panics, the verifier shows the
    state [X'] to which the transactions lead, keeps their records besides
    [es], and, if they issued no NFTs, can disconnect them again, the latest
    first. *)
Theorem derived_verifier_flush `{!InputChecks D} (bi : BlockIndex) (id : BlockId) t txs total v X c0 c total' U0 es :
  let src := TransactionSource.Chain (bi_block_id bi) in
  shows src v X -> state_inv X ->
  txs_in_range (chain_config v) (bi_block_height bi) (to_utxo_source (SourceChain bi)) txs X -> room src v U0 es ->
  NoDup (((fun tx => get_id (transaction tx)) <$> txs) ++ es.*1) ->
  Forall (fun tx => unused (SourceTransaction (get_id (transaction tx))) U0 /\
    unused (SourceTransaction (get_id (transaction tx))) (s_utxos X)) txs ->
  derive_child v = (Ok c0 : result Empty_set D) -> connect_transactions bi id t total txs c0 = (c, Ok total') ->
  exists X' v' es', flush_to_storage (consume_verifier c) v = (v', Ok tt) /\ shows src v' X' /\ state_inv X' /\
    txs_effect (chain_config v) (bi_block_height bi) (to_utxo_source (SourceChain bi)) txs X X' /\
    block_held src v' (es' ++ es) /\
    (Forall (fun tx => has_tokens_issuance_to_cache (outputs (transaction tx)) = None) txs ->
     exists w, try_for_each (disconnect_transaction src) (reverse txs) v' = (w, Ok tt) /\ shows src w X /\
       block_held src w es).
Proof.
  intros src [B Hs] Hinv Hr Hroom Hnd Hfr Hder Hrun. apply NoDup_app in Hnd as (Hnd & Hdis & Hnd0).
  destruct (derive_child_shows src v X (shows_over_shows _ _ _ _ Hs)) as (c1 & Hc1 & Hs1 & Hnew & Hcfg & Hnb).
  rewrite Hder in Hc1. injection Hc1 as <-. rewrite <- Hcfg in Hr |- *.
  destruct (connect_chain no_fetchers (bases_at X) (derived_new src v) bi id t txs total c0 c X (s_utxos X) [] total')
    as (X' & l & <- & Hs' & Hinv' & Heff & Hch & Hroom' & _ & Hnew'); [|exact Hnew|exact Hs1|exact Hinv|exact Hr
    |by apply new_block_room|intros k Hk; by left|exact Hnd| |exact Hrun|].
  { intros w tx u w' Hw Hrec. by eapply derived_new_next. }
  { eapply Forall_impl; [exact Hfr|]. intros tx [_ ?]. split; [apply not_elem_of_nil|done]. }
  rewrite app_nil_r in Hroom'.
  destruct (flush_derived B src v X c X' U0 (s_utxos X) es (reverse (entries l)) Hs Hs' Hnew' Hroom Hroom')
    as (v' & Hflush & Hv' & Hheld & Hst & _).
  { intros x Hx. rewrite fmap_reverse, elem_of_reverse, entries_ids in Hx. split; [by apply Hdis|].
    apply list_elem_of_fmap in Hx as (tx & -> & Htx). by apply Forall_forall with (x := tx) in Hfr as [? _]. }
  exists X', v', (reverse (entries l)). split; [done|]. split; [by exists B|]. do 3 (split; [done|]). intros Hnft.
  destruct (disconnect_chain (to_utxo_source (SourceChain bi)) src B l es v' X X' Hch Hv' Hheld) as (w & Hw & Hsw & Hhw).
  - rewrite fmap_app, entries_ids. apply NoDup_app. split_and!; [done| |done]. intros x Hx. by apply Hdis.
  - eapply Forall_impl; [exact Hnft|]. intros tx Htx. unfold nft_stored. by rewrite Htx.
  - assert (omap (fun tx => has_tokens_issuance_to_cache (outputs (transaction tx))) l.*1 = []) as ->; [|constructor].
    clear -Hnft. induction Hnft as [|tx txs Htx _ IH]; [done|]. simpl. by rewrite Htx.
  - exists w. split; [done|]. split; [by exists B|done].
Qed.
End derived.

(** ** A run *)

Module Witnesses.
Import Connect.Witnesses.
Abbreviation Derived := (TransactionVerifier Verifier (UtxosCache (UtxosDB UtxosDBInMemoryImpl))
  (PoS.PoSAccountingDelta (PoS.PoSAccountingDB PoS.InMemoryPoSAccounting))
  (Tokens.TokensAccountingCache (Tokens.TokensAccountingDB Tokens.InMemoryTokensAccounting))
  (Orders.OrdersAccountingCache (Orders.OrdersAccountingDB Orders.InMemoryOrdersAccounting))).

#[export] Instance accept_all_derived : InputChecks Derived := {|
  verify_inputs := fun _ _ _ _ _ => Ok tt;
  verify_reward_inputs := fun _ _ _ _ _ => Ok tt
|}.

Definition run_derived : result Empty_set bool :=
  c0 ← derive_child v;
  let '(c, r) := connect_transactions bi 3%N t Constraints.AccumulatedFee_new [tx; tx3] c0 in
  let '(v', r') := flush_to_storage (consume_verifier c) v in
  let '(w, r'') := try_for_each (disconnect_transaction src) (reverse [tx; tx3]) v' in
  Ok (is_ok r && is_ok r' && is_ok r'').

Example runs_derived : run_derived = Ok true.
Proof. vm_compute. reflexivity. Qed.

(** The two transactions of a block, one of which spends an output of the other. *)
Lemma derived_verifier_flush_witness :
  exists c0 c total X' v', derive_child v = (Ok c0 : result Empty_set Derived) /\
    connect_transactions bi 3%N t Constraints.AccumulatedFee_new [tx; tx3] c0 = (c, Ok total) /\
    flush_to_storage (consume_verifier c) v = (v', Ok tt) /\ shows src v' X' /\
    exists w, try_for_each (disconnect_transaction src) (reverse [tx; tx3]) v' = (w, Ok tt) /\ shows src w X.
Proof.
  destruct (derive_child v : result Empty_set Derived) as [c0|e|] eqn:Hc0; [|discriminate Hc0..].
  destruct (connect_transactions bi 3%N t Constraints.AccumulatedFee_new [tx; tx3] c0) as [c r] eqn:Hrun.
  assert (exists total, r = Ok total) as [total ->].
  { apply Conservation.Witnesses.is_ok_run. rewrite <- (f_equal snd Hrun : _ = r). injection Hc0 as <-. vm_compute. reflexivity. }
  assert (room src v (s_utxos X) []) as Hroom by (apply new_block_room, v_new).
  destruct (derived_verifier_flush bi 3%N t [tx; tx3] Constraints.AccumulatedFee_new v X c0 c total (s_utxos X) []
    X_shown X_inv block_ok Hroom) as (X' & v' & es' & Hflush & Hs & _ & _ & _ & Hback).
  - rewrite app_nil_r. apply block_ids.
  - eapply Forall_impl; [apply block_unused|]. intros x Hx. by split.
  - exact Hc0.
  - exact Hrun.
  - exists c0, c, total, X', v'. do 4 (split; [done|]). destruct Hback as (w & Hw & Hsw & _); [repeat constructor|].
    by exists w.
Defined.
End Witnesses.
