(* ===== verification/EpochSeal.v ===== *)
(** * The epoch seal

    Models [chainstate/src/detail/chainstateref/epoch_seal.rs] with the cache of
    epoch data ([chainstate/types/src/epoch_data_cache.rs]), the deltas of the
    epochs ([apply_accounting_delta] of [tx_verifier_storage.rs]) and the two
    functions that the chainstate calls after the tip has changed
    ([post_connect_tip] and [post_disconnect_tip] of [chainstateref/mod.rs]).

    The chainstate keeps, beside the pools at the tip, the pools as they were at
    the end of an older epoch (the sealed storage) and the randomness of every
    epoch.  Both are maintained step by step as blocks come and go: the sealed
    storage with the accounting delta of every epoch and the undo data of every
    seal, the randomness by overwriting.  The theorems say that this bookkeeping
    is exact: after any sequence of connected and disconnected blocks the sealed
    storage holds the ledger of the current chain at the end of the sealed epoch,
    no step fails on well-formed deltas, and neither the sealed ledger nor the
    randomness that the next block is checked with depends on the blocks that
    were connected and taken back before. *)
From S2P Require Import Prelude Amount Uint Accounting ChainTypes ChainConfig BlockTree PoS TxTypes.
From S2P Require ConsensusPoS TxVerifier.
Import ConsensusPoS(EpochIndex, PoSRandomness).

(** ** Epoch data and its cache ([epoch_data.rs], [epoch_data_cache.rs]) *)

Record EpochData := EpochData_new { randomness : PoSRandomness }.

(** [EpochStorageRead] and [EpochStorageWrite]; the storage does not fail. *)
Class EpochStorageRead (S : Type) := { get_epoch_data : S -> EpochIndex -> option EpochData }.
Class EpochStorageWrite (S : Type) := {
  epoch_storage_read :: EpochStorageRead S;
  set_epoch_data : EpochIndex -> EpochData -> S -> S;
  del_epoch_data : EpochIndex -> S -> S
}.

Inductive DataEntry := DataWrite (d : EpochData) | DataErase.

Record EpochDataCache (P : Type) := mk_epoch_cache {
  epoch_parent : P;
  epoch_entries : gmap EpochIndex DataEntry
}.
Arguments mk_epoch_cache {_} _ _.
Arguments epoch_parent {_} _.
Arguments epoch_entries {_} _.

(** [ConsumedEpochDataCache]. *)
Abbreviation ConsumedEpochDataCache := (gmap EpochIndex DataEntry) (only parsing).

Section epoch_cache.
Context {P : Type} `{!EpochStorageRead P}.

Definition EpochDataCache_new (p : P) : EpochDataCache P := mk_epoch_cache p ∅.
Definition EpochDataCache_from_data (p : P) (data : ConsumedEpochDataCache) : EpochDataCache P := mk_epoch_cache p data.
Definition epoch_cache_consume (self : EpochDataCache P) : ConsumedEpochDataCache := epoch_entries self.

Definition cache_get_epoch_data (self : EpochDataCache P) (epoch_index : EpochIndex) : option EpochData :=
  match epoch_entries self !! epoch_index with
  | Some (DataWrite data) => Some data
  | Some DataErase => None
  | None => get_epoch_data (epoch_parent self) epoch_index
  end.
#[global] Instance epoch_cache_read : EpochStorageRead (EpochDataCache P) := {| get_epoch_data := cache_get_epoch_data |}.

Definition cache_set_epoch_data (epoch_index : EpochIndex) (epoch_data : EpochData) (self : EpochDataCache P) :
    EpochDataCache P := mk_epoch_cache (epoch_parent self) (<[epoch_index := DataWrite epoch_data]> (epoch_entries self)).
Definition cache_del_epoch_data (epoch_index : EpochIndex) (self : EpochDataCache P) : EpochDataCache P :=
  mk_epoch_cache (epoch_parent self) (<[epoch_index := DataErase]> (epoch_entries self)).
#[global] Instance epoch_cache_write : EpochStorageWrite (EpochDataCache P) :=
  {| set_epoch_data := cache_set_epoch_data; del_epoch_data := cache_del_epoch_data |}.
End epoch_cache.

(** [ConsumedEpochDataCache::flush]. *)
Definition flush_entry {S} `{!EpochStorageWrite S} (storage : S) (e : EpochIndex * DataEntry) : S :=
  match e.2 with
  | DataWrite data => set_epoch_data e.1 data storage
  | DataErase => del_epoch_data e.1 storage
  end.
Definition epoch_flush {S} `{!EpochStorageWrite S} (self : ConsumedEpochDataCache) (storage : S) : S :=
  foldl flush_entry storage (btree_iter self).

(** ** The database *)

(** The parts of the database that change with the tip: the pools at the tip and
    at the seal, the delta of every epoch, the undo data of every sealed epoch,
    and the data of every epoch. *)
Record EpochStore `{CryptoTypes} (S : Type) := mk_epoch_store {
  tip_pools : S;
  sealed_pools : S;
  epoch_deltas : gmap EpochIndex PoSAccountingDeltaData;
  epoch_undo_deltas : gmap EpochIndex DeltaMergeUndo;
  epoch_data : gmap EpochIndex EpochData
}.
Arguments mk_epoch_store {_ _} _ _ _ _ _.
Arguments tip_pools {_ _} _.
Arguments sealed_pools {_ _} _.
Arguments epoch_deltas {_ _} _.
Arguments epoch_undo_deltas {_ _} _.
Arguments epoch_data {_ _} _.

Section store.
Context `{CryptoTypes} {S : Type}.
Implicit Types (s : EpochStore S).

Definition with_tip_pools x s := mk_epoch_store x (sealed_pools s) (epoch_deltas s) (epoch_undo_deltas s) (epoch_data s).
Definition with_sealed_pools x s := mk_epoch_store (tip_pools s) x (epoch_deltas s) (epoch_undo_deltas s) (epoch_data s).
Definition with_epoch_deltas x s := mk_epoch_store (tip_pools s) (sealed_pools s) x (epoch_undo_deltas s) (epoch_data s).
Definition with_epoch_undo_deltas x s := mk_epoch_store (tip_pools s) (sealed_pools s) (epoch_deltas s) x (epoch_data s).
Definition with_epoch_data x s := mk_epoch_store (tip_pools s) (sealed_pools s) (epoch_deltas s) (epoch_undo_deltas s) x.

#[global] Instance store_epoch_read : EpochStorageRead (EpochStore S) := {| get_epoch_data s e := epoch_data s !! e |}.
#[global] Instance store_epoch_write : EpochStorageWrite (EpochStore S) := {|
  set_epoch_data e d s := with_epoch_data (<[e:=d]> (epoch_data s)) s;
  del_epoch_data e s := with_epoch_data (delete e (epoch_data s)) s
|}.
End store.

(** ** Errors *)

Module EpochSealError.
Inductive EpochSealError `{ConsensusPoS.StakeCrypto} {E : Type} :=
  | StorageError (e : E)
  | SpendStakeError (e : SpendStakeError)
  | RandomnessError (e : ConsensusPoS.PoSRandomnessError)
  | PoolDataNotFound (id : PoolId).
Arguments EpochSealError {_ _} E.
End EpochSealError.
Abbreviation EpochSealError := EpochSealError.EpochSealError.

(** The errors of [BlockError] and of [TransactionVerifierStorageError] that
    arise here. *)
Module TipError.
Inductive TipError `{ConsensusPoS.StakeCrypto} {E : Type} :=
  | PoSAccountingError (e : PoS.Error)
  | EpochSealError (e : EpochSealError E)
  | GenBlockIndexRetrievalFailed (id : BlockId).
Arguments TipError {_ _} E.
End TipError.
Abbreviation TipError := TipError.TipError.

(** ** The operations ([epoch_seal.rs]) *)

Section seal.
Context `{ConsensusPoS.StakeCrypto} {S : Type} `{!PoSAccountingStorage S} (chain_config : ChainConfig).
Abbreviation M := (ST (EpochStore S) (TipError (storage_error (S := S)))).
Abbreviation sealing := (result (EpochSealError (storage_error (S := S)))).

Inductive BlockStateEvent := Connect (tip_height : BlockHeight) | Disconnect (tip_height : BlockHeight).
Inductive BlockStateEventWithIndex :=
  | ConnectBlock (tip_height : BlockHeight) (tip : TxVerifier.Block)
  | DisconnectBlock (tip_height : BlockHeight).

(** [epoch_index_from_height] as a [u64]. *)
Definition epoch_index {E} (height : BlockHeight) : result E EpochIndex :=
  expect (bint_of_Z (epoch_index_from_height chain_config height)).

(** [PoSAccountingDB] over the sealed and over the tip storage. *)
Definition in_sealed {A} (m : ST (PoSAccountingDB S) Error A) : M A :=
  zoom (fun s => mk_db (sealed_pools s)) (fun db => with_sealed_pools (db_store db)) TipError.PoSAccountingError m.
Definition in_tip {A} (m : ST (PoSAccountingDB S) Error A) : M A :=
  zoom (fun s => mk_db (tip_pools s)) (fun db => with_tip_pools (db_store db)) TipError.PoSAccountingError m.

Definition advance_epoch_seal (tip_height : BlockHeight) : M unit :=
  current_epoch_index ← lift (epoch_index tip_height);
  epoch_index_to_seal ← lift (expect (bint_of_Z (ival current_epoch_index - ival (sealed_epoch_distance_from_tip chain_config))));
  s ← self;
  match epoch_deltas s !! epoch_index_to_seal with
  | Some epoch_delta =>
      epoch_undo ← in_sealed (db_batch_write_delta epoch_delta);
      modify (fun s => with_epoch_undo_deltas (<[epoch_index_to_seal := epoch_undo]> (epoch_undo_deltas s)) s)
  | None => mret tt
  end.

Definition rollback_epoch_seal (tip_height : BlockHeight) : M unit :=
  current_epoch_index ← lift (epoch_index tip_height);
  epoch_index_to_unseal ← lift (expect (bint_of_Z (ival current_epoch_index - ival (sealed_epoch_distance_from_tip chain_config))));
  s ← self;
  match epoch_undo_deltas s !! epoch_index_to_unseal with
  | Some epoch_undo =>
      _ ← in_sealed (db_undo_merge_with_delta epoch_undo);
      modify (fun s => with_epoch_undo_deltas (delete epoch_index_to_unseal (epoch_undo_deltas s)) s)
  | None => mret tt
  end.

Definition update_epoch_seal (block_op : BlockStateEvent) : M unit :=
  match block_op with
  | Connect tip_height =>
      due ← lift (is_due_for_epoch_seal chain_config tip_height);
      if (due : bool) then advance_epoch_seal tip_height else mret tt
  | Disconnect tip_height =>
      disconnected_tip ← lift (BlockHeight.next_height tip_height);
      due ← lift (is_due_for_epoch_seal chain_config disconnected_tip);
      if (due : bool) then rollback_epoch_seal disconnected_tip else mret tt
  end.

(** The key of the pool that the first output of the reward stakes for. *)
Definition reward_vrf_key {P} `{!PoSAccountingView P} (conv : view_error -> storage_error (S := S)) (pos_view : P)
    (block : TxVerifier.Block) : sealing VRFPublicKey :=
  reward_output ← ok_or (EpochSealError.SpendStakeError SpendStakeError.NoBlockRewardOutputs)
    (head (TxVerifier.reward block));
  match reward_output with
  | CreateStakePool _ d => Ok (sp_vrf_public_key d)
  | ProduceBlockFromStake _ pool_id =>
      pool_data ← map_err (fun e => EpochSealError.StorageError (conv e)) (get_pool_data pos_view pool_id);
      pool_data ← ok_or (EpochSealError.PoolDataNotFound pool_id) pool_data;
      Ok (vrf_public_key pool_data)
  | _ => Err (EpochSealError.SpendStakeError SpendStakeError.InvalidBlockRewardOutputType)
  end.

Definition create_randomness_from_block {C P} `{!EpochStorageRead C} `{!PoSAccountingView P}
    (conv : view_error -> storage_error (S := S)) (epoch_data_cache : C) (pos_view : P) (block : TxVerifier.Block)
    (block_height : BlockHeight) (pos_data : PoSData) : sealing PoSRandomness :=
  vrf_pub_key ← reward_vrf_key conv pos_view block;
  index ← sealed_epoch_index chain_config block_height;
  let sealed_epoch_randomness :=
    match index ≫= get_epoch_data epoch_data_cache with
    | Some d => randomness d
    | None => initial_randomness chain_config
    end in
  epoch_index ← epoch_index block_height;
  map_err EpochSealError.RandomnessError
    (ConsensusPoS.randomness_from_block epoch_index (hdr_timestamp (TxVerifier.block_header block)) sealed_epoch_randomness
       (vrf_data pos_data) vrf_pub_key).

Definition update_epoch_data {C P} `{!EpochStorageWrite C} `{!PoSAccountingView P}
    (conv : view_error -> storage_error (S := S)) (pos_view : P) (block_op : BlockStateEventWithIndex) :
    ST C (EpochSealError (storage_error (S := S))) unit :=
  match block_op with
  | ConnectBlock tip_height tip =>
      last_block ← lift (is_last_block_in_epoch chain_config tip_height);
      if (last_block : bool) then
        match TxVerifier.block_consensus_data tip with
        | ConsensusNone | ConsensusPoW _ => mret tt
        | ConsensusPoS pos_data =>
            epoch_data_cache ← self;
            epoch_randomness ← lift (create_randomness_from_block conv epoch_data_cache pos_view tip tip_height pos_data);
            epoch_index ← lift (epoch_index tip_height);
            modify (set_epoch_data epoch_index (EpochData_new epoch_randomness))
        end
      else mret tt
  | DisconnectBlock tip_height =>
      last_block ← lift (is_last_block_in_epoch chain_config tip_height);
      if (last_block : bool) then
        disconnected_tip ← lift (BlockHeight.next_height tip_height);
        epoch_index ← lift (epoch_index disconnected_tip);
        modify (del_epoch_data epoch_index)
      else mret tt
  end.

(** ** After the tip has changed ([chainstateref/mod.rs]) *)

(** The errors of the view of the tip storage are those of the storage. *)
Definition tip_error (e : view_error (P := PoSAccountingDB S)) : storage_error (S := S) := e.

(** [EpochDataCache::new], [update_epoch_data], [consume] and [flush]. *)
Definition update_epoch_data_in_store (block_op : BlockStateEventWithIndex) : M unit :=
  s ← self;
  let '(epoch_data_cache, r) :=
    update_epoch_data (C := EpochDataCache (EpochStore S)) tip_error (mk_db (tip_pools s)) block_op (EpochDataCache_new s) in
  _ ← lift (map_err TipError.EpochSealError r);
  modify (epoch_flush (epoch_cache_consume epoch_data_cache)).

Definition post_connect_tip (tip_index : BlockIndex) (tip : TxVerifier.Block) : M unit :=
  let tip_height := bi_block_height tip_index in
  _ ← update_epoch_seal (Connect tip_height);
  update_epoch_data_in_store (ConnectBlock tip_height tip).

(** The delta of an epoch whose first block was disconnected is deleted. *)
Definition del_unused_epoch_delta (tip_height : BlockHeight) : M unit :=
  last_block ← lift (is_last_block_in_epoch chain_config tip_height);
  if (last_block : bool) then
    next_height ← lift (BlockHeight.next_height tip_height);
    epoch_index ← lift (epoch_index next_height);
    modify (fun s => with_epoch_deltas (delete epoch_index (epoch_deltas s)) s)
  else mret tt.

Definition post_disconnect_tip (tip_height : BlockHeight) : M unit :=
  _ ← update_epoch_seal (Disconnect tip_height);
  _ ← del_unused_epoch_delta tip_height;
  update_epoch_data_in_store (DisconnectBlock tip_height).

(** ** What a block does to the pools ([tx_verifier_storage.rs]) *)

(** [apply_accounting_delta]; the index of the block is read from the database. *)
Definition apply_epoch_delta (index : gmap BlockId BlockIndex) (tx_source : TransactionSource)
    (delta : PoSAccountingDeltaData) : M unit :=
  match tx_source with
  | TransactionSource.Chain id =>
      block_index ← lift (ok_or (TipError.GenBlockIndexRetrievalFailed id) (index !! id));
      current_epoch_index ← lift (epoch_index (bi_block_height block_index));
      s ← self;
      let '(current_epoch_delta, r) :=
        data_merge_with_delta delta (default PoSAccountingDeltaData_new (epoch_deltas s !! current_epoch_index)) in
      _ ← lift (map_err TipError.PoSAccountingError r);
      modify (fun s => with_epoch_deltas (<[current_epoch_index := current_epoch_delta]> (epoch_deltas s)) s)
  | TransactionSource.Mempool => lift Panic
  end.

(** The part of [flush_to_storage] that writes pools, for the delta of a verifier
    that connected or disconnected one block: the accumulated delta goes to the
    tip, the delta of the block to its epoch. *)
Definition flush_pools (index : gmap BlockId BlockIndex) (id : BlockId)
    (accounting_delta block_delta : PoSAccountingDeltaData) : M unit :=
  _ ← in_tip (db_batch_write_delta accounting_delta);
  apply_epoch_delta index (TransactionSource.Chain id) block_delta.

(** What [connect_tip] and [disconnect_tip] do to this part of the database. *)
Definition connect_pools (index : gmap BlockId BlockIndex) (tip_index : BlockIndex) (tip : TxVerifier.Block)
    (accounting_delta block_delta : PoSAccountingDeltaData) : M unit :=
  _ ← flush_pools index (bi_block_id tip_index) accounting_delta block_delta;
  post_connect_tip tip_index tip.
Definition disconnect_pools (index : gmap BlockId BlockIndex) (tip_index : BlockIndex) (prev_height : BlockHeight)
    (accounting_delta block_delta : PoSAccountingDeltaData) : M unit :=
  _ ← flush_pools index (bi_block_id tip_index) accounting_delta block_delta;
  post_disconnect_tip prev_height.
End seal.

(** * Properties *)

(** ** Flushing the cache of epoch data *)

Section flush.
Context `{CryptoTypes} {S : Type}.
Implicit Types (s : EpochStore S) (e : EpochIndex).

Lemma flush_entries_lookup (l : list (EpochIndex * DataEntry)) s : NoDup l.*1 ->
  (forall e, epoch_data (foldl flush_entry s l) !! e =
    match (list_to_map l : gmap EpochIndex DataEntry) !! e with
    | Some (DataWrite d) => Some d | Some DataErase => None | None => epoch_data s !! e end) /\
  foldl flush_entry s l = with_epoch_data (epoch_data (foldl flush_entry s l)) s.
Proof.
  revert s. induction l as [|[k v] l IH]; intros s Hnd; [by destruct s|].
  apply NoDup_cons in Hnd as [Hk Hnd]. cbn [foldl fst fmap list_fmap] in *.
  destruct (IH (flush_entry s (k, v)) Hnd) as [Hl Heq]. split.
  - intros e. rewrite Hl. cbn [list_to_map foldr uncurry]. destruct (decide (k = e)) as [->|Hne].
    + rewrite lookup_insert_eq, (not_elem_of_list_to_map_1 l e) by done.
      destruct v; cbn; [by rewrite lookup_insert_eq|by rewrite lookup_delete_eq].
    + rewrite lookup_insert_ne by done. destruct (list_to_map l !! e) as [[]|]; try done.
      destruct v; cbn; [by rewrite lookup_insert_ne|by rewrite lookup_delete_ne].
  - rewrite Heq at 1. by destruct v.
Qed.

(** What is read after a flush is what was read through the cache. *)
Lemma epoch_flush_lookup (m : gmap EpochIndex DataEntry) s :
  (forall e, epoch_data (epoch_flush m s) !! e = get_epoch_data (EpochDataCache_from_data s m) e) /\
  epoch_flush m s = with_epoch_data (epoch_data (epoch_flush m s)) s.
Proof.
  destruct (flush_entries_lookup (btree_iter m) s) as [Hl Heq]; [apply btree_iter_NoDup|]. split; [|done].
  intros e. unfold epoch_flush. rewrite Hl, list_to_map_btree_iter. done.
Qed.
End flush.

(** ** Epochs *)

Section epochs.
Context (cfg : ChainConfig) (Hlen : 0 < ival (epoch_length cfg)).
Abbreviation len := (ival (epoch_length cfg)).
Abbreviation dist := (ival (sealed_epoch_distance_from_tip cfg)).

(** The height whose ledger an epoch starts from: that of the last block of the
    epoch before it, or the genesis. *)
Definition epoch_base (e : Z) : Z := Z.max 0 (e * len - 1).
(** How many epochs are sealed when the tip is at height [h]. *)
Definition sealed_epochs (h : Z) : Z := Z.max 0 ((h + 1) / len - dist).

Lemma epoch_index_runs {E} (h : BlockHeight) : exists e, epoch_index (E := E) cfg h = Ok e /\ ival e = ival h / len.
Proof.
  pose proof (bint_range h). unfold epoch_index, epoch_index_from_height.
  destruct (bint_of_Z_is_Some (lo := 0) (hi := 2 ^ 64 - 1) (ival h / len)) as (e & -> & Ve); [|by exists e].
  split; [apply Z.div_pos; lia|]. apply Z.div_le_upper_bound; nia.
Qed.

Lemma next_height_runs {E} (h : BlockHeight) : ival h < 2 ^ 64 - 1 ->
  exists n, BlockHeight.next_height (E := E) h = Ok n /\ ival n = ival h + 1.
Proof.
  intros Hh. pose proof (bint_range h). unfold BlockHeight.next_height.
  destruct (bint_of_Z_is_Some (lo := 0) (hi := 2 ^ 64 - 1) (ival h + 1)) as (n & -> & Vn); [lia|by exists n].
Qed.

Lemma last_block_runs {E} (h : BlockHeight) : ival h < 2 ^ 64 - 1 ->
  is_last_block_in_epoch (E := E) cfg h = Ok ((ival h + 1) mod len =? 0).
Proof.
  intros Hh. unfold is_last_block_in_epoch. destruct (next_height_runs (E := E) h Hh) as (n & -> & Vn). cbn. by rewrite Vn.
Qed.

Lemma due_runs {E} (h : BlockHeight) : ival h < 2 ^ 64 - 1 ->
  is_due_for_epoch_seal (E := E) cfg h = Ok (((ival h + 1) mod len =? 0) && (dist <=? ival h / len)).
Proof. intros Hh. unfold is_due_for_epoch_seal. by rewrite last_block_runs. Qed.

Lemma epoch_split h : 0 <= h -> h / len * len <= h < (h / len + 1) * len.
Proof. intros. pose proof (Z.div_mod h len ltac:(lia)). pose proof (Z.mod_pos_bound h len Hlen). nia. Qed.

(** The last block of an epoch is the base of the next one. *)
Lemma epoch_last h : 0 <= h -> (h + 1) mod len = 0 <-> h = (h / len + 1) * len - 1.
Proof.
  intros Hh. pose proof (epoch_split h Hh). split.
  - intros Hm. apply Z.mod_divide in Hm as [k Hk]; [|lia]. assert (k = h / len + 1) as -> by nia. lia.
  - intros ->. replace (_ - 1 + 1) with ((h / len + 1) * len) by lia. apply Z.mod_mul. lia.
Qed.

(** The epoch of a height and of the one after it. *)
Lemma epoch_next h : 0 <= h ->
  (h + 1) / len = if (h + 1) mod len =? 0 then h / len + 1 else h / len.
Proof.
  intros Hh. pose proof (epoch_split h Hh). pose proof (epoch_split (h + 1) ltac:(lia)).
  destruct (Z.eqb_spec ((h + 1) mod len) 0) as [Hm|Hm].
  - apply epoch_last in Hm; [|done]. nia.
  - assert (h <> (h / len + 1) * len - 1) by (by rewrite <- epoch_last). nia.
Qed.

Lemma epoch_base_mono e e' : e <= e' -> epoch_base e <= epoch_base e'.
Proof. unfold epoch_base. nia. Qed.

(** Connecting the block at height [h + 1] seals one more epoch exactly when a
    seal is due. *)
Lemma sealed_epochs_next h : 0 <= h ->
  sealed_epochs (h + 1) = if ((h + 1 + 1) mod len =? 0) && (dist <=? (h + 1) / len) then (h + 1) / len - dist + 1
                          else sealed_epochs h.
Proof.
  intros Hh. unfold sealed_epochs. rewrite (epoch_next (h + 1)) by lia.
  destruct (Z.eqb_spec ((h + 1 + 1) mod len) 0), (Z.leb_spec dist ((h + 1) / len)); cbn; lia.
Qed.
Lemma sealed_epochs_due h : 0 <= h -> dist <= (h + 1) / len -> sealed_epochs h = (h + 1) / len - dist.
Proof. unfold sealed_epochs. lia. Qed.
End epochs.

(** ** The steps, one by one *)

(** The undo data of the seal of an epoch that led from [l] to [l']; an epoch
    without a delta has none. *)
Definition seal_undo `{CryptoTypes} (o : option DeltaMergeUndo) (l l' : Ledger) : Prop :=
  match o with
  | Some u => exists d, undoes u d /\ delta_rep d l l'
  | None => l ≡ l'
  end.

Lemma delta_rep_new_equiv `{CryptoTypes} l l' : delta_rep PoSAccountingDeltaData_new l l' -> l ≡ l'.
Proof.
  intros [[_ G1] G2 G3 G4 [_ G5]]. split; intros k; cbn in *.
  - by rewrite G1, data_view_empty.
  - apply bint_eq. by rewrite (balance_rep_sum _ _ _ G2), Z.add_0_r.
  - apply bint_eq. by rewrite (balance_rep_sum _ _ _ G3), Z.add_0_r.
  - apply bint_eq. by rewrite (balance_rep_sum _ _ _ G4), Z.add_0_r.
  - by rewrite G5, data_view_empty.
Qed.

Lemma delta_rep_new_seal `{CryptoTypes} l : bounded l -> delta_rep PoSAccountingDeltaData_new l l.
Proof. intros []. split; cbn; auto using data_rep_empty, balance_rep_empty. Qed.

Lemma delta_rep_bounded `{CryptoTypes} d l l' : delta_rep d l l' -> bounded l /\ bounded l'.
Proof.
  intros [_ R2 R3 R4 _].
  split; split; first [eapply balance_rep_base; eassumption|eapply balance_rep_cur; eassumption].
Qed.

Lemma holds_equiv `{CryptoTypes} {S} `{!PoSAccountingStorage S} `{!ReliablePoSStorage S} (s : S) l l' :
  l ≡ l' -> holds s l -> holds s l'.
Proof.
  intros [E1 E2 E3 E4 E5] [H1 H2 H3 H4 H5].
  split; intros k; [rewrite <- E1|rewrite <- E2|rewrite <- E3|rewrite <- E4|rewrite <- E5]; auto.
Qed.

Section runs.
Context `{ConsensusPoS.StakeCrypto} {S : Type} `{!PoSAccountingStorage S} `{!ReliablePoSStorage S}.
Context (cfg : ChainConfig) (Hlen : 0 < ival (epoch_length cfg)).
Abbreviation len := (ival (epoch_length cfg)).
Abbreviation dist := (ival (sealed_epoch_distance_from_tip cfg)).
Implicit Types (s : EpochStore S) (e : EpochIndex) (l : Ledger).

Lemma flush_pools_runs s index id bi d bd lb l l' e :
  holds (tip_pools s) l -> delta_rep d l l' -> delta_rep bd l l' -> index !! id = Some bi ->
  ival e = ival (bi_block_height bi) / len -> delta_rep (default PoSAccountingDeltaData_new (epoch_deltas s !! e)) lb l ->
  exists t dd, flush_pools cfg index id d bd s = (with_epoch_deltas (<[e:=dd]> (epoch_deltas s)) (with_tip_pools t s), Ok tt) /\
    holds t l' /\ delta_rep dd lb l'.
Proof.
  intros Ht Hd Hbd Hbi He Hb. destruct (db_merge_rep d _ _ _ Ht Hd) as (t & u & Hrun & Ht' & _).
  destruct (merge_deltas_rep _ _ _ _ _ Hb Hbd) as (dd & Hm & Hdd). exists t, dd. split; [|done].
  unfold flush_pools, in_tip, db_batch_write_delta, zoom, mbind, st_bind. rewrite Hrun.
  cbn [db_store apply_epoch_delta mbind]. unfold mbind, st_bind, lift, self, modify. rewrite Hbi. cbn [ok_or].
  destruct (epoch_index_runs (E := TipError (storage_error (S := S))) cfg Hlen (bi_block_height bi)) as (e' & -> & He').
  assert (e' = e) as -> by (apply bint_eq; lia). cbn [epoch_deltas with_tip_pools]. by rewrite Hm.
Qed.

(** Sealing and unsealing an epoch. *)
Lemma advance_runs s h e l l' :
  ival e = ival h / len - dist -> holds (sealed_pools s) l ->
  delta_rep (default PoSAccountingDeltaData_new (epoch_deltas s !! e)) l l' -> epoch_undo_deltas s !! e = None ->
  exists p u, advance_epoch_seal cfg h s = (mk_epoch_store (tip_pools s) p (epoch_deltas s) u (epoch_data s), Ok tt) /\
    holds p l' /\ seal_undo (u !! e) l l' /\ forall e', e' <> e -> u !! e' = epoch_undo_deltas s !! e'.
Proof.
  intros He Hl Hd Hu. unfold advance_epoch_seal, mbind, st_bind, lift, self.
  destruct (epoch_index_runs (E := TipError (storage_error (S := S))) cfg Hlen h) as (c & -> & Hc).
  rewrite Hc, <- He, bint_of_Z_ival. cbn [expect].
  destruct (epoch_deltas s !! e) as [d|] eqn:Hde; cbn [default] in Hd.
  - destruct (db_merge_rep d _ _ _ Hl Hd) as (p & u & Hrun & Hp & Hun). unfold in_sealed, zoom, db_batch_write_delta, modify.
    rewrite Hrun. eexists p, _. split; [reflexivity|]. split; [done|]. split.
    + rewrite lookup_insert_eq. by exists d.
    + intros e' Hne. by rewrite lookup_insert_ne.
  - exists (sealed_pools s), (epoch_undo_deltas s). apply delta_rep_new_equiv in Hd. split; [by destruct s|].
    split; [by eapply holds_equiv|]. by rewrite Hu.
Qed.

Lemma rollback_runs s h e l l' :
  ival e = ival h / len - dist -> holds (sealed_pools s) l' -> seal_undo (epoch_undo_deltas s !! e) l l' ->
  exists p u, rollback_epoch_seal cfg h s = (mk_epoch_store (tip_pools s) p (epoch_deltas s) u (epoch_data s), Ok tt) /\
    holds p l /\ u !! e = None /\ forall e', e' <> e -> u !! e' = epoch_undo_deltas s !! e'.
Proof.
  intros He Hl Hu. unfold rollback_epoch_seal, mbind, st_bind, lift, self.
  destruct (epoch_index_runs (E := TipError (storage_error (S := S))) cfg Hlen h) as (c & -> & Hc).
  rewrite Hc, <- He, bint_of_Z_ival. cbn [expect].
  destruct (epoch_undo_deltas s !! e) as [u|] eqn:Hue; cbn [seal_undo] in Hu.
  - destruct Hu as (d & Hun & Hd). destruct (db_undo_rep d u _ _ _ Hl Hd Hun) as (p & Hrun & Hp).
    unfold in_sealed, zoom, modify. rewrite Hrun. eexists p, _. split; [reflexivity|]. split; [done|]. split.
    + apply lookup_delete_eq.
    + intros e' Hne. by rewrite lookup_delete_ne.
  - exists (sealed_pools s), (epoch_undo_deltas s). split; [by destruct s|]. split; [by eapply holds_equiv|]. done.
Qed.

(** ** The data of an epoch *)

(** The key of the pool that the reward of the block stakes for, in the ledger
    after the block. *)
Definition staking_key (b : TxVerifier.Block) l : option VRFPublicKey :=
  match head (TxVerifier.reward b) with
  | Some (CreateStakePool _ d) => Some (sp_vrf_public_key d)
  | Some (ProduceBlockFromStake _ pool) => vrf_public_key <$> l_pool l pool
  | _ => None
  end.

(** The data that [process_genesis] writes: those of epoch 0. *)
Definition genesis_epoch_data : gmap EpochIndex EpochData :=
  {[ @mk_bint 0 (2 ^ 64 - 1) 0 eq_refl := EpochData_new (initial_randomness cfg) ]}.

(** The seed that the blocks of a height are checked with. *)
Definition sealed_seed (h : Z) (data : gmap EpochIndex EpochData) : PoSRandomness :=
  let index := if (h + 1) mod len =? 0 then h / len - dist else h / len - (dist + 1) in
  match bint_of_Z index ≫= (fun e => data !! e) with
  | Some d => randomness d
  | None => initial_randomness cfg
  end.

(** [r] is the randomness of the proof-of-stake block [b] at height [h]. *)
Definition block_randomness (h : BlockHeight) (data : gmap EpochIndex EpochData) (b : TxVerifier.Block) l (r : PoSRandomness) : Prop :=
  exists d key e, TxVerifier.block_consensus_data b = ConsensusPoS d /\ staking_key b l = Some key /\
    ival e = ival h / len /\
    ConsensusPoS.randomness_from_block e (hdr_timestamp (TxVerifier.block_header b)) (sealed_seed (ival h) data) (vrf_data d) key
    = Ok r.

Lemma sealed_index_runs {E} (h : BlockHeight) : ival h < 2 ^ 64 - 1 ->
  sealed_epoch_index (E := E) cfg h =
  Ok (bint_of_Z (if (ival h + 1) mod len =? 0 then ival h / len - dist else ival h / len - (dist + 1))).
Proof. intros Hh. unfold sealed_epoch_index. rewrite last_block_runs by done. done. Qed.

(** The seed that [check_proof_of_stake] reads. *)
Lemma sealed_seed_read (h : BlockHeight) (data : gmap EpochIndex EpochData) : ival h < 2 ^ 64 - 1 ->
  ConsensusPoS.randomness_of_sealed_epoch cfg h (randomness <$> data) = Ok (sealed_seed (ival h) data).
Proof.
  intros Hh. unfold ConsensusPoS.randomness_of_sealed_epoch, sealed_seed. rewrite sealed_index_runs by done. cbn [mbind result_bind].
  destruct (bint_of_Z _) as [e|]; cbn [mbind option_bind]; [|done]. rewrite lookup_fmap. by destruct (data !! e).
Qed.

Definition is_pos (b : TxVerifier.Block) : bool :=
  match TxVerifier.block_consensus_data b with ConsensusPoS _ => true | _ => false end.

Lemma reward_key_runs s b l : holds (tip_pools s) l ->
  match reward_vrf_key tip_error (mk_db (tip_pools s)) b with
  | Ok key => staking_key b l = Some key
  | Err _ => staking_key b l = None
  | Panic => False
  end.
Proof.
  intros Hl. unfold reward_vrf_key, staking_key. destruct (head (TxVerifier.reward b)) as [o|]; [|done].
  cbn [ok_or mbind result_bind]. destruct o; try done.
  rewrite (shows_pool _ _ (holds_represents _ _ Hl)). cbn [map_err mbind result_bind].
  by match goal with |- context [l_pool l ?id] => destruct (l_pool l id) end.
Qed.

Lemma create_randomness_runs s (h : BlockHeight) b l d :
  holds (tip_pools s) l -> TxVerifier.block_consensus_data b = ConsensusPoS d -> ival h < 2 ^ 64 - 1 ->
  match create_randomness_from_block (C := EpochDataCache (EpochStore S)) cfg tip_error (EpochDataCache_new s) (mk_db (tip_pools s)) b h d with
  | Ok r => block_randomness h (epoch_data s) b l r
  | Err _ => forall r, ~ block_randomness h (epoch_data s) b l r
  | Panic => False
  end.
Proof.
  intros Hl Hd Hh. unfold create_randomness_from_block, block_randomness.
  pose proof (reward_key_runs s b l Hl) as Hk.
  destruct (reward_vrf_key tip_error (mk_db (tip_pools s)) b) as [key|err|]; cbn [mbind result_bind]; [| |done].
  2: { intros r (d' & key & e & _ & Hkey & _). congruence. }
  rewrite sealed_index_runs by done. cbn [mbind result_bind].
  destruct (epoch_index_runs (E := EpochSealError (storage_error (S := S))) cfg Hlen h) as (e & -> & He). cbn [mbind result_bind].
  change (match _ ≫= get_epoch_data (EpochDataCache_new s) with Some d0 => _ | None => _ end)
    with (sealed_seed (ival h) (epoch_data s)).
  destruct (ConsensusPoS.randomness_from_block e _ _ _ key) as [r|err|] eqn:Hr; cbn [map_err].
  - by exists d, key, e.
  - intros r (d' & key' & e' & Hd' & Hkey & He' & Hrun). assert (e' = e) as -> by (apply bint_eq; lia). congruence.
  - unfold ConsensusPoS.randomness_from_block, ConsensusPoS.verify_vrf_and_get_vrf_output in Hr. by repeat case_match.
Qed.

(** Connecting changes the data of an epoch only with its last block, and fails
    only when that block has no randomness. *)
Lemma connect_data_runs s (h : BlockHeight) b l : holds (tip_pools s) l -> ival h < 2 ^ 64 - 1 ->
  let last_staked := ((ival h + 1) mod len =? 0) && is_pos b in
  match update_epoch_data_in_store cfg (ConnectBlock h b) s with
  | (s', Ok _) => exists data, s' = with_epoch_data data s /\
      if last_staked then exists r e, ival e = ival h / len /\ block_randomness h (epoch_data s) b l r /\
                                       data = <[e := EpochData_new r]> (epoch_data s)
      else data = epoch_data s
  | (_, Err err) => (exists x, err = TipError.EpochSealError x) /\ last_staked = true /\
      forall r, ~ block_randomness h (epoch_data s) b l r
  | (_, Panic) => False
  end.
Proof.
  intros Hl Hh. unfold update_epoch_data_in_store, update_epoch_data, is_pos, mbind, st_bind, self, lift, modify.
  rewrite last_block_runs by done.
  destruct ((ival h + 1) mod len =? 0); cbn [andb]; [|exists (epoch_data s); by destruct s].
  destruct (TxVerifier.block_consensus_data b) as [|d|d] eqn:Hd; [exists (epoch_data s); by destruct s..|].
  pose proof (create_randomness_runs s h b l d Hl Hd Hh) as Hc.
  destruct (create_randomness_from_block (C := EpochDataCache (EpochStore S)) cfg tip_error (EpochDataCache_new s) (mk_db (tip_pools s)) b h d) as [r|err|]; [| |done].
  - destruct (epoch_index_runs (E := EpochSealError (storage_error (S := S))) cfg Hlen h) as (e & -> & He). cbn [map_err].
    set (m := epoch_cache_consume _). destruct (epoch_flush_lookup m s) as [Hlook Heq].
    eexists. split; [exact Heq|]. exists r, e. split; [done|]. split; [done|].
    apply map_eq. intros e'. rewrite Hlook. cbn. destruct (decide (e = e')) as [->|Hne].
    + unfold cache_get_epoch_data, m, epoch_cache_consume, set_epoch_data. cbn. by rewrite !lookup_insert_eq.
    + unfold cache_get_epoch_data, m, epoch_cache_consume, set_epoch_data. cbn. by rewrite !lookup_insert_ne, lookup_empty.
  - cbn [map_err]. split; [by exists err|]. done.
Qed.

Lemma disconnect_data_runs s (h : BlockHeight) : ival h < 2 ^ 64 - 1 ->
  exists data, update_epoch_data_in_store cfg (DisconnectBlock h) s = (with_epoch_data data s, Ok tt) /\
    forall e, data !! e = if ((ival h + 1) mod len =? 0) && (ival e =? (ival h + 1) / len) then None else epoch_data s !! e.
Proof.
  intros Hh. unfold update_epoch_data_in_store, update_epoch_data, mbind, st_bind, self, lift, modify.
  rewrite last_block_runs by done.
  destruct ((ival h + 1) mod len =? 0); cbn [andb map_err]; [|exists (epoch_data s); by destruct s].
  destruct (next_height_runs (E := EpochSealError (storage_error (S := S))) h Hh) as (n & -> & Vn).
  destruct (epoch_index_runs (E := EpochSealError (storage_error (S := S))) cfg Hlen n) as (e & -> & He). cbn [map_err].
  set (m := epoch_cache_consume _). destruct (epoch_flush_lookup m s) as [Hlook Heq].
  eexists. rewrite Heq. split; [reflexivity|]. intros e'. cbn [epoch_data with_epoch_data]. rewrite Hlook. cbn.
  rewrite Vn in He. unfold cache_get_epoch_data, m, epoch_cache_consume, del_epoch_data. cbn.
  destruct (Z.eqb_spec (ival e') ((ival h + 1) / len)) as [Heq'|Hne].
  - assert (e' = e) as -> by (apply bint_eq; lia). by rewrite lookup_insert_eq.
  - rewrite lookup_insert_ne by congruence. by rewrite lookup_empty.
Qed.
End runs.

(** ** The chain and what the store holds of it *)

Section chain.
Context `{CryptoTypes} (cfg : ChainConfig) (Hlen : 0 < ival (epoch_length cfg)) (l0 : Ledger).
Abbreviation len := (ival (epoch_length cfg)).
Abbreviation dist := (ival (sealed_epoch_distance_from_tip cfg)).
(** The blocks after the genesis, each with the ledger after it. *)
Abbreviation Chain := (list (TxVerifier.Block * Ledger)).
Implicit Types (c : Chain) (e : EpochIndex).

Definition chain_height c : Z := Z.of_nat (length c).
Definition ledger_at c (h : Z) : Ledger :=
  if h <=? 0 then l0 else default l0 (snd <$> c !! Z.to_nat (h - 1)).
Definition tip_ledger c : Ledger := ledger_at c (chain_height c).

Lemma chain_height_snoc c x : chain_height (c ++ [x]) = chain_height c + 1.
Proof. unfold chain_height. rewrite length_app. cbn. lia. Qed.
Lemma ledger_at_snoc c x h : h <= chain_height c -> ledger_at (c ++ [x]) h = ledger_at c h.
Proof.
  intros Hh. unfold ledger_at, chain_height in *. destruct (Z.leb_spec h 0); [done|]. by rewrite lookup_app_l by lia.
Qed.
Lemma tip_ledger_snoc c b l : tip_ledger (c ++ [(b, l)]) = l.
Proof.
  unfold tip_ledger, ledger_at. rewrite chain_height_snoc. unfold chain_height. destruct (Z.leb_spec (Z.of_nat (length c) + 1) 0); [lia|].
  rewrite lookup_app_r by lia. by replace (_ - _)%nat with 0%nat by lia.
Qed.

(** The deltas of the epochs up to the tip. *)
Record deltas_inv c (deltas : gmap EpochIndex PoSAccountingDeltaData) : Prop := {
  future_deltas : forall e, chain_height c / len < ival e -> deltas !! e = None;
  past_deltas : forall e, ival e <= chain_height c / len ->
    delta_rep (default PoSAccountingDeltaData_new (deltas !! e)) (ledger_at c (epoch_base cfg (ival e)))
      (ledger_at c (Z.min (epoch_base cfg (ival e + 1)) (chain_height c)))
}.

(** The undo data of the sealed epochs. *)
Definition undo_inv c (undo : gmap EpochIndex DeltaMergeUndo) : Prop := forall e,
  if ival e <? sealed_epochs cfg (chain_height c)
  then seal_undo (undo !! e) (ledger_at c (epoch_base cfg (ival e))) (ledger_at c (epoch_base cfg (ival e + 1)))
  else undo !! e = None.

Definition seal_ledger c : Ledger := ledger_at c (epoch_base cfg (sealed_epochs cfg (chain_height c))).

Lemma sealed_base_le h : 0 <= h -> epoch_base cfg (sealed_epochs cfg h) <= h.
Proof.
  intros Hh. pose proof (epoch_split cfg Hlen (h + 1) ltac:(lia)). pose proof (bint_range (sealed_epoch_distance_from_tip cfg)).
  unfold epoch_base, sealed_epochs. destruct (Z.max_spec 0 ((h + 1) / len - dist)) as [[? ->]|[? ->]]; nia.
Qed.

(** The base of the epoch of the next block is not above the tip. *)
Lemma next_base_le h : 0 <= h -> epoch_base cfg ((h + 1) / len) <= h.
Proof. intros Hh. pose proof (epoch_split cfg Hlen (h + 1) ltac:(lia)). unfold epoch_base. nia. Qed.
Lemma base_of_next h : 0 <= h -> h < epoch_base cfg (h / len + 1) + 1.
Proof. intros Hh. pose proof (epoch_split cfg Hlen h Hh). unfold epoch_base. nia. Qed.

Section step.
Context (c : Chain) (b : TxVerifier.Block) (l : Ledger) (e : EpochIndex).
Abbreviation c' := (c ++ [(b, l)]).
Context (He : ival e = (chain_height c + 1) / len).

Let Hh : 0 <= chain_height c.
Proof. unfold chain_height. lia. Qed.

(** Before the block is connected, the delta of its epoch leads to the tip. *)
Lemma current_delta deltas : deltas_inv c deltas -> bounded (tip_ledger c) ->
  delta_rep (default PoSAccountingDeltaData_new (deltas !! e)) (ledger_at c (epoch_base cfg (ival e))) (tip_ledger c).
Proof.
  intros [Hf Hp] Hb. pose proof (epoch_next cfg Hlen _ Hh) as Hn. pose proof (base_of_next _ Hh).
  destruct (Z.eqb_spec ((chain_height c + 1) mod len) 0) as [Hm|Hm].
  - rewrite Hf by lia. cbn [default]. apply epoch_last in Hm; [|done..].
    assert (epoch_base cfg (ival e) = chain_height c) as -> by (unfold epoch_base; nia). by apply delta_rep_new_seal.
  - specialize (Hp e ltac:(lia)). rewrite Z.min_r in Hp; [done|]. rewrite He, Hn. lia.
Qed.

(** What changes in the deltas of the epochs when a block is added: the delta of
    its epoch. *)
Lemma deltas_snoc deltas dd : deltas_inv c deltas ->
  delta_rep dd (ledger_at c (epoch_base cfg (ival e))) l -> deltas_inv c' (<[e:=dd]> deltas).
Proof.
  intros [Hf Hp] Hdd. pose proof (next_base_le _ Hh) as Hb. pose proof (epoch_split cfg Hlen (chain_height c + 1) ltac:(lia)) as Hs.
  pose proof (epoch_split cfg Hlen _ Hh) as Hs0. pose proof (tip_ledger_snoc c b l) as Htip. unfold tip_ledger in Htip.
  split; rewrite chain_height_snoc in *; intros e1 He1.
  - rewrite lookup_insert_ne by (intros ->; lia). apply Hf. nia.
  - destruct (decide (e = e1)) as [<-|Hne].
    + rewrite lookup_insert_eq. cbn [default]. rewrite (ledger_at_snoc c _ (epoch_base _ _)) by (rewrite He; lia).
      rewrite Z.min_r by (unfold epoch_base; nia). by rewrite Htip.
    + assert (ival e1 < ival e) as Hlt by (assert (ival e1 <> ival e) by (intros ?%bint_eq; congruence); lia).
      assert ((ival e1 + 1) * len <= ival e * len) by nia.
      rewrite lookup_insert_ne by done. specialize (Hp e1 ltac:(nia)).
      rewrite (Z.min_l _ (chain_height c)) in Hp by (unfold epoch_base; nia).
      rewrite (Z.min_l _ (chain_height c + 1)) by (unfold epoch_base; nia).
      rewrite !ledger_at_snoc by (unfold epoch_base; nia). done.
Qed.

(** The delta that leads to the block that is taken off. *)
Lemma last_delta deltas : deltas_inv c' deltas ->
  delta_rep (default PoSAccountingDeltaData_new (deltas !! e)) (ledger_at c (epoch_base cfg (ival e))) l.
Proof.
  intros [_ Hp]. pose proof (next_base_le _ Hh) as Hb. pose proof (epoch_split cfg Hlen (chain_height c + 1) ltac:(lia)) as Hs.
  pose proof (tip_ledger_snoc c b l) as Htip. unfold tip_ledger in Htip. rewrite chain_height_snoc in *.
  specialize (Hp e ltac:(lia)). rewrite Z.min_r in Hp by (unfold epoch_base; nia). rewrite ledger_at_snoc, Htip in Hp by (rewrite He; lia). done.
Qed.

(** Taking the block off again: the delta of its epoch is cut back, or removed
    with the first block of the epoch. *)
Lemma deltas_unsnoc deltas dd : deltas_inv c' deltas ->
  delta_rep dd (ledger_at c (epoch_base cfg (ival e))) (tip_ledger c) ->
  deltas_inv c (if (chain_height c + 1) mod len =? 0 then delete e (<[e:=dd]> deltas) else <[e:=dd]> deltas).
Proof.
  intros [Hf Hp] Hdd. rewrite chain_height_snoc in *.
  pose proof (epoch_next cfg Hlen _ Hh) as Hn. pose proof (epoch_split cfg Hlen _ Hh) as Hs.
  assert (forall e1, ival e1 <= chain_height c / len -> e1 <> e ->
    delta_rep (default PoSAccountingDeltaData_new (deltas !! e1)) (ledger_at c (epoch_base cfg (ival e1)))
      (ledger_at c (Z.min (epoch_base cfg (ival e1 + 1)) (chain_height c)))) as Hold.
  { intros e1 Hle Hne. assert (ival e1 <> ival e) as Hne' by (intros ?%bint_eq; congruence).
    specialize (Hp e1 ltac:(destruct (_ =? 0); lia)).
    assert ((ival e1 + 1) * len <= chain_height c + 1) as Hend.
    { destruct (Z.eqb_spec ((chain_height c + 1) mod len) 0) as [Hm|Hm].
      - apply epoch_last in Hm; [|done..]. nia.
      - assert (ival e1 + 1 <= chain_height c / len) by lia. nia. }
    rewrite Z.min_l in Hp |- * by (unfold epoch_base; nia). rewrite !ledger_at_snoc in Hp by (unfold epoch_base; nia). done. }
  destruct (Z.eqb_spec ((chain_height c + 1) mod len) 0) as [Hm|Hm]; split; intros e1 He1.
  - destruct (decide (e = e1)) as [->|Hne]; [apply lookup_delete_eq|]. rewrite lookup_delete_ne, lookup_insert_ne by done. apply Hf.
    assert (ival e1 <> ival e) by (intros ?%bint_eq; congruence). lia.
  - assert (e1 <> e) by (intros ->; lia). rewrite lookup_delete_ne, lookup_insert_ne by done. by apply Hold.
  - rewrite lookup_insert_ne by (intros ->; lia). apply Hf. lia.
  - destruct (decide (e = e1)) as [->|Hne]; [|rewrite lookup_insert_ne by done; by apply Hold].
    rewrite lookup_insert_eq. cbn [default]. pose proof (base_of_next _ Hh). rewrite Z.min_r; [done|]. rewrite He, Hn. lia.
Qed.
End step.
End chain.

Section steps.
Context `{ConsensusPoS.StakeCrypto} {S : Type} `{!PoSAccountingStorage S} `{!ReliablePoSStorage S}.
Context (cfg : ChainConfig) (Hlen : 0 < ival (epoch_length cfg)) (l0 : Ledger).
Abbreviation len := (ival (epoch_length cfg)).
Abbreviation dist := (ival (sealed_epoch_distance_from_tip cfg)).
Abbreviation Chain := (list (TxVerifier.Block * Ledger)).
Implicit Types (s : EpochStore S) (e : EpochIndex) (l : Ledger) (c : Chain) (h : BlockHeight).

(** The undo data do not change with a block that seals nothing. *)
Lemma undo_inv_snoc c x undo : sealed_epochs cfg (chain_height c + 1) = sealed_epochs cfg (chain_height c) ->
  undo_inv cfg l0 (c ++ [x]) undo <-> undo_inv cfg l0 c undo.
Proof.
  intros Hsame. assert (0 <= chain_height c) as Hh by (unfold chain_height; lia).
  pose proof (sealed_base_le cfg Hlen _ Hh) as Hle.
  unfold undo_inv. rewrite chain_height_snoc, Hsame. split; intros Hinv e; specialize (Hinv e);
    (destruct (Z.ltb_spec (ival e) (sealed_epochs cfg (chain_height c))) as [Hlt|]; [|done]);
    pose proof (epoch_base_mono cfg Hlen (ival e + 1) (sealed_epochs cfg (chain_height c)) ltac:(lia));
    pose proof (epoch_base_mono cfg Hlen (ival e) (ival e + 1) ltac:(lia));
    rewrite !ledger_at_snoc in * by lia; done.
Qed.

Lemma seal_ledger_snoc c x : sealed_epochs cfg (chain_height c + 1) = sealed_epochs cfg (chain_height c) ->
  seal_ledger cfg l0 (c ++ [x]) = seal_ledger cfg l0 c.
Proof.
  intros Hsame. unfold seal_ledger. rewrite chain_height_snoc, Hsame. apply ledger_at_snoc, sealed_base_le; [done|].
  unfold chain_height. lia.
Qed.

(** Where a seal is due at the height after [c]. *)
Section due.
Context (c : Chain) (x : TxVerifier.Block * Ledger) (e : EpochIndex).
Context (Hlast : (chain_height c + 1 + 1) mod len = 0) (Hdist : dist <= (chain_height c + 1) / len).
Context (He : ival e = (chain_height c + 1) / len - dist).

Let Hh : 0 <= chain_height c.
Proof. unfold chain_height. lia. Qed.

Lemma due_counts : sealed_epochs cfg (chain_height c) = ival e /\ sealed_epochs cfg (chain_height (c ++ [x])) = ival e + 1.
Proof.
  rewrite chain_height_snoc, sealed_epochs_next by done. rewrite (proj2 (Z.eqb_eq _ _)), (proj2 (Z.leb_le _ _)) by done.
  cbn [andb]. rewrite sealed_epochs_due by done. lia.
Qed.

Lemma due_bases : epoch_base cfg (ival e) <= chain_height c /\ epoch_base cfg (ival e + 1) <= chain_height c + 1.
Proof.
  apply epoch_last in Hlast; [|done|lia]. pose proof (bint_range (sealed_epoch_distance_from_tip cfg)).
  pose proof (next_base_le cfg Hlen _ Hh) as Hb. pose proof (epoch_base_mono cfg Hlen (ival e) ((chain_height c + 1) / len) ltac:(lia)).
  split; [lia|]. unfold epoch_base. nia.
Qed.

Lemma undo_inv_due undo : undo_inv cfg l0 c undo <->
  (forall e1, ival e1 < ival e -> seal_undo (undo !! e1) (ledger_at l0 c (epoch_base cfg (ival e1))) (ledger_at l0 c (epoch_base cfg (ival e1 + 1)))) /\
  (forall e1, ival e <= ival e1 -> undo !! e1 = None).
Proof.
  unfold undo_inv. rewrite (proj1 due_counts). split.
  - intros Hinv. split; intros e1 He1; specialize (Hinv e1); destruct (Z.ltb_spec (ival e1) (ival e)); lia || done.
  - intros [H1 H2] e1. destruct (Z.ltb_spec (ival e1) (ival e)); auto.
Qed.
Lemma undo_inv_sealed undo : undo_inv cfg l0 (c ++ [x]) undo <->
  (forall e1, ival e1 < ival e -> seal_undo (undo !! e1) (ledger_at l0 c (epoch_base cfg (ival e1))) (ledger_at l0 c (epoch_base cfg (ival e1 + 1)))) /\
  seal_undo (undo !! e) (ledger_at l0 (c ++ [x]) (epoch_base cfg (ival e))) (ledger_at l0 (c ++ [x]) (epoch_base cfg (ival e + 1))) /\
  (forall e1, ival e < ival e1 -> undo !! e1 = None).
Proof.
  unfold undo_inv. rewrite (proj2 due_counts). pose proof (proj1 due_bases) as Hb.
  assert (forall e1, ival e1 < ival e ->
    ledger_at l0 (c ++ [x]) (epoch_base cfg (ival e1)) = ledger_at l0 c (epoch_base cfg (ival e1)) /\
    ledger_at l0 (c ++ [x]) (epoch_base cfg (ival e1 + 1)) = ledger_at l0 c (epoch_base cfg (ival e1 + 1))) as Hl.
  { intros e1 He1. pose proof (epoch_base_mono cfg Hlen (ival e1) (ival e) ltac:(lia)).
    pose proof (epoch_base_mono cfg Hlen (ival e1 + 1) (ival e) ltac:(lia)). rewrite !ledger_at_snoc by lia. done. }
  split.
  - intros Hinv. split_and!.
    + intros e1 He1. specialize (Hinv e1). destruct (Hl e1 He1) as [E1 E2]. rewrite E1, E2 in Hinv.
      destruct (Z.ltb_spec (ival e1) (ival e + 1)); lia || done.
    + specialize (Hinv e). destruct (Z.ltb_spec (ival e) (ival e + 1)); lia || done.
    + intros e1 He1. specialize (Hinv e1). destruct (Z.ltb_spec (ival e1) (ival e + 1)); lia || done.
  - intros (H1 & H2 & H3) e1. destruct (Z.ltb_spec (ival e1) (ival e + 1)) as [Hlt|]; [|apply H3; lia].
    destruct (decide (e1 = e)) as [->|Hne]; [done|]. assert (ival e1 <> ival e) by (intros ?%bint_eq; congruence).
    destruct (Hl e1 ltac:(lia)) as [E1 E2]. rewrite E1, E2. apply H1. lia.
Qed.
End due.

Lemma seal_connect_runs s c x h :
  ival h = chain_height c + 1 -> ival h < 2 ^ 64 - 1 -> deltas_inv cfg l0 (c ++ [x]) (epoch_deltas s) ->
  undo_inv cfg l0 c (epoch_undo_deltas s) -> holds (sealed_pools s) (seal_ledger cfg l0 c) ->
  exists p u, update_epoch_seal cfg (Connect h) s = (mk_epoch_store (tip_pools s) p (epoch_deltas s) u (epoch_data s), Ok tt) /\
    undo_inv cfg l0 (c ++ [x]) u /\ holds p (seal_ledger cfg l0 (c ++ [x])).
Proof.
  intros Hh Hmax [_ Hd] Hu Hs. assert (0 <= chain_height c) as Hc by (unfold chain_height; lia).
  unfold update_epoch_seal, mbind, st_bind, lift. rewrite due_runs, Hh by done. pose proof (sealed_epochs_next cfg Hlen _ Hc) as Hn.
  destruct (Z.eqb_spec ((chain_height c + 1 + 1) mod len) 0) as [Hlast|], (Z.leb_spec dist ((chain_height c + 1) / len)) as [Hdist|];
    cbn [andb] in *; [|exists (sealed_pools s), (epoch_undo_deltas s); rewrite undo_inv_snoc, seal_ledger_snoc by done; by destruct s..].
  pose proof (bint_range h) as Rh. pose proof (bint_range (sealed_epoch_distance_from_tip cfg)) as Rd.
  destruct (bint_of_Z_is_Some (lo := 0) (hi := 2 ^ 64 - 1) ((chain_height c + 1) / len - dist)) as (e & _ & He).
  { assert ((chain_height c + 1) / len <= chain_height c + 1) by (apply Z.div_le_upper_bound; nia). lia. }
  destruct (due_counts c x e Hlast Hdist He) as [C1 C2]. destruct (due_bases c e Hlast Hdist He) as [B1 B2].
  rewrite (undo_inv_due c x e Hlast Hdist He) in Hu. destruct Hu as [Hu1 Hu2].
  specialize (Hd e). rewrite chain_height_snoc in Hd. specialize (Hd ltac:(lia)). rewrite Z.min_l in Hd by lia.
  unfold seal_ledger in Hs. rewrite C1, <- (ledger_at_snoc l0 c x) in Hs by lia.
  destruct (advance_runs cfg Hlen s h e _ _ ltac:(rewrite Hh; lia) Hs Hd (Hu2 e ltac:(lia))) as (p & u & Hrun & Hp & Hue & Hothers).
  exists p, u. split; [done|]. split.
  - apply (undo_inv_sealed c x e Hlast Hdist He). split_and!; [|done|].
    + intros e1 He1. rewrite Hothers by (intros ->; lia). by apply Hu1.
    + intros e1 He1. rewrite Hothers by (intros ->; lia). apply Hu2. lia.
  - unfold seal_ledger. by rewrite C2.
Qed.

Lemma seal_disconnect_runs s c x h :
  ival h = chain_height c -> ival h + 1 < 2 ^ 64 - 1 ->
  undo_inv cfg l0 (c ++ [x]) (epoch_undo_deltas s) -> holds (sealed_pools s) (seal_ledger cfg l0 (c ++ [x])) ->
  exists p u, update_epoch_seal cfg (Disconnect h) s = (mk_epoch_store (tip_pools s) p (epoch_deltas s) u (epoch_data s), Ok tt) /\
    undo_inv cfg l0 c u /\ holds p (seal_ledger cfg l0 c).
Proof.
  intros Hh Hmax Hu Hs. assert (0 <= chain_height c) as Hc by (unfold chain_height; lia).
  unfold update_epoch_seal, mbind, st_bind, lift.
  destruct (next_height_runs (E := TipError (storage_error (S := S))) h ltac:(lia)) as (n & -> & Vn).
  rewrite due_runs, Vn, Hh by lia. pose proof (sealed_epochs_next cfg Hlen _ Hc) as Hn.
  destruct (Z.eqb_spec ((chain_height c + 1 + 1) mod len) 0) as [Hlast|], (Z.leb_spec dist ((chain_height c + 1) / len)) as [Hdist|];
    cbn [andb] in *; [|exists (sealed_pools s), (epoch_undo_deltas s); rewrite undo_inv_snoc, seal_ledger_snoc in * by done; by destruct s..].
  pose proof (bint_range h) as Rh. pose proof (bint_range (sealed_epoch_distance_from_tip cfg)) as Rd.
  destruct (bint_of_Z_is_Some (lo := 0) (hi := 2 ^ 64 - 1) ((chain_height c + 1) / len - dist)) as (e & _ & He).
  { assert ((chain_height c + 1) / len <= chain_height c + 1) by (apply Z.div_le_upper_bound; nia). lia. }
  destruct (due_counts c x e Hlast Hdist He) as [C1 C2]. destruct (due_bases c e Hlast Hdist He) as [B1 B2].
  rewrite (undo_inv_sealed c x e Hlast Hdist He) in Hu. destruct Hu as (Hu1 & Hu2 & Hu3).
  unfold seal_ledger in Hs. rewrite C2 in Hs.
  destruct (rollback_runs cfg Hlen s n e _ _ ltac:(rewrite Vn, Hh; lia) Hs Hu2) as (p & u & Hrun & Hp & Hue & Hothers).
  exists p, u. split; [done|]. split.
  - apply (undo_inv_due c x e Hlast Hdist He). split.
    + intros e1 He1. rewrite Hothers by (intros ->; lia). by apply Hu1.
    + intros e1 He1. destruct (decide (e1 = e)) as [->|Hne]; [done|]. rewrite Hothers by done. apply Hu3.
      assert (ival e1 <> ival e) by (intros ?%bint_eq; congruence). lia.
  - unfold seal_ledger. rewrite C1, <- (ledger_at_snoc l0 c x) by lia. done.
Qed.

(** ** Whole steps *)

(** The store holds the chain: the pools at the tip, the deltas of its epochs,
    the pools at the seal and the undo data that lead back from there. *)
Record seal_inv c s : Prop := {
  si_tip : holds (tip_pools s) (tip_ledger l0 c);
  si_deltas : deltas_inv cfg l0 c (epoch_deltas s);
  si_undo : undo_inv cfg l0 c (epoch_undo_deltas s);
  si_sealed : holds (sealed_pools s) (seal_ledger cfg l0 c)
}.

(** A block at this height is a proof-of-stake block. *)
Definition staked_at (h : Z) : bool :=
  (0 <? h) &&
  match bint_of_Z h with
  | Some height =>
      match consensus_status (E := unit) (consensus_upgrades cfg) height with
      | Ok (RequiredConsensus.PoS _) => true
      | _ => false
      end
  | None => false
  end.

(** What connecting the next block relies on: its index is in the database, its
    deltas lead from the ledger of the tip to that of the block, and it has the
    kind of consensus data that the chain requires at its height. *)
Record connectable (index : gmap BlockId BlockIndex) c (bi : BlockIndex) (b : TxVerifier.Block)
    (d bd : PoSAccountingDeltaData) l : Prop := {
  co_height : ival (bi_block_height bi) = chain_height c + 1;
  co_max : ival (bi_block_height bi) < 2 ^ 64 - 1;
  co_index : index !! bi_block_id bi = Some bi;
  co_delta : delta_rep d (tip_ledger l0 c) l;
  co_block_delta : delta_rep bd (tip_ledger l0 c) l;
  co_staked : is_pos b = staked_at (chain_height c + 1)
}.
(** What disconnecting the last block relies on: its deltas lead back. *)
Record disconnectable (index : gmap BlockId BlockIndex) c (bi : BlockIndex) (prev : BlockHeight)
    (d bd : PoSAccountingDeltaData) l : Prop := {
  dc_height : ival (bi_block_height bi) = chain_height c + 1;
  dc_max : ival (bi_block_height bi) < 2 ^ 64 - 1;
  dc_prev : ival prev = chain_height c;
  dc_index : index !! bi_block_id bi = Some bi;
  dc_delta : delta_rep d l (tip_ledger l0 c);
  dc_block_delta : delta_rep bd l (tip_ledger l0 c)
}.

(** What happens to the data of the epochs. *)
Definition data_connected (h : BlockHeight) b l (data data' : gmap EpochIndex EpochData) : Prop :=
  if ((ival h + 1) mod len =? 0) && is_pos b
  then exists r e, ival e = ival h / len /\ block_randomness cfg h data b l r /\ data' = <[e := EpochData_new r]> data
  else data' = data.
Definition data_disconnected (prev : Z) (data data' : gmap EpochIndex EpochData) : Prop := forall e,
  data' !! e = if ((prev + 1) mod len =? 0) && (ival e =? (prev + 1) / len) then None else data !! e.

Lemma connect_step s c index bi b d bd l :
  seal_inv c s -> connectable index c bi b d bd l ->
  match connect_pools cfg index bi b d bd s with
  | (s', Ok _) => seal_inv (c ++ [(b, l)]) s' /\ data_connected (bi_block_height bi) b l (epoch_data s) (epoch_data s')
  | (_, Err err) => (exists x, err = TipError.EpochSealError x) /\
      (ival (bi_block_height bi) + 1) mod len = 0 /\ is_pos b = true /\
      forall r, ~ block_randomness cfg (bi_block_height bi) (epoch_data s) b l r
  | (_, Panic) => False
  end.
Proof.
  intros [Ht Hd Hu Hs] [Hh Hmax Hi Hcd Hcbd _]. pose proof (delta_rep_bounded _ _ _ Hcd) as [Hb _].
  destruct (epoch_index_runs (E := unit) cfg Hlen (bi_block_height bi)) as (e & _ & He). rewrite Hh in He.
  pose proof (current_delta cfg Hlen l0 c e He _ Hd Hb) as Hcur.
  destruct (flush_pools_runs cfg Hlen s index _ bi d bd _ _ l e Ht Hcd Hcbd Hi ltac:(rewrite Hh; lia) Hcur) as (t & dd & Hrun & Ht' & Hdd).
  set (s1 := with_epoch_deltas _ _) in Hrun. pose proof (deltas_snoc cfg Hlen l0 c b l e He _ dd Hd Hdd) as Hd'.
  destruct (seal_connect_runs s1 c (b, l) (bi_block_height bi) Hh Hmax Hd' Hu Hs) as (p & u & Hseal & Hu' & Hs').
  unfold connect_pools, mbind, st_bind. rewrite Hrun. unfold post_connect_tip, mbind, st_bind. rewrite Hseal.
  set (s2 := mk_epoch_store _ _ _ _ _). pose proof (connect_data_runs cfg Hlen s2 (bi_block_height bi) b l Ht' Hmax) as Hdata.
  cbv zeta in Hdata. destruct (update_epoch_data_in_store cfg (ConnectBlock (bi_block_height bi) b) s2) as [s3 [v|err|]]; [| |done].
  - destruct Hdata as (data & -> & Hdata). split; [|exact Hdata].
    split; cbn; [by rewrite tip_ledger_snoc|done..].
  - destruct Hdata as (Hx & [Hl%Z.eqb_eq Hp]%andb_prop & Hr). done.
Qed.

Lemma del_unused_runs s (h : BlockHeight) e : ival h < 2 ^ 64 - 1 -> ival e = (ival h + 1) / len ->
  del_unused_epoch_delta cfg h s =
  (with_epoch_deltas (if (ival h + 1) mod len =? 0 then delete e (epoch_deltas s) else epoch_deltas s) s, Ok tt).
Proof.
  intros Hh He. unfold del_unused_epoch_delta, mbind, st_bind, lift, modify. rewrite last_block_runs by done.
  destruct ((ival h + 1) mod len =? 0); [|by destruct s].
  destruct (next_height_runs (E := TipError (storage_error (S := S))) h Hh) as (n & -> & Vn).
  destruct (epoch_index_runs (E := TipError (storage_error (S := S))) cfg Hlen n) as (e' & -> & He').
  by assert (e' = e) as -> by (apply bint_eq; rewrite He', Vn; lia).
Qed.

Lemma disconnect_step s c index bi b prev d bd l :
  seal_inv (c ++ [(b, l)]) s -> disconnectable index c bi prev d bd l ->
  exists s', disconnect_pools cfg index bi prev d bd s = (s', Ok tt) /\ seal_inv c s' /\
    data_disconnected (chain_height c) (epoch_data s) (epoch_data s').
Proof.
  intros [Ht Hd Hu Hs] [Hh Hmax Hp Hi Hcd Hcbd].
  destruct (epoch_index_runs (E := TipError (storage_error (S := S))) cfg Hlen (bi_block_height bi)) as (e & _ & He). rewrite Hh in He.
  pose proof (last_delta cfg Hlen l0 c b l e He _ Hd) as Hcur. rewrite tip_ledger_snoc in Ht.
  destruct (flush_pools_runs cfg Hlen s index _ bi d bd _ _ _ e Ht Hcd Hcbd Hi ltac:(rewrite Hh; lia) Hcur) as (t & dd & Hrun & Ht' & Hdd).
  set (s1 := with_epoch_deltas _ _) in Hrun. pose proof (deltas_unsnoc cfg Hlen l0 c b l e He _ dd Hd Hdd) as Hd'.
  destruct (seal_disconnect_runs s1 c (b, l) prev Hp ltac:(lia) Hu Hs) as (p & u & Hseal & Hu' & Hs').
  unfold disconnect_pools, mbind, st_bind. rewrite Hrun. unfold post_disconnect_tip, mbind, st_bind. rewrite Hseal.
  set (s2 := mk_epoch_store _ _ _ _ _).
  rewrite (del_unused_runs s2 prev e) by (rewrite ?Hp; lia). rewrite Hp.
  change (epoch_deltas s2) with (<[e:=dd]> (epoch_deltas s)).
  set (deltas := if (chain_height c + 1) mod len =? 0 then delete e (<[e:=dd]> (epoch_deltas s)) else <[e:=dd]> (epoch_deltas s)) in Hd' |- *.
  destruct (disconnect_data_runs cfg Hlen (with_epoch_deltas deltas s2) prev ltac:(lia)) as (data & -> & Hdata).
  eexists. split; [reflexivity|]. split; [by split|]. intros e1. cbn. rewrite Hdata, Hp. done.
Qed.

(** ** The data of the epochs *)

Section data.
Context (Hdist : 1 <= dist).
Implicit Types (data : gmap EpochIndex EpochData).

(** The data of the epochs that are complete are those of the chain; an epoch
    whose last block is not a proof-of-stake block has only those of the genesis. *)
Record data_inv c data : Prop := {
  unstaked_data : forall e, staked_at (epoch_base cfg (ival e + 1)) = false -> data !! e = genesis_epoch_data cfg !! e;
  staked_data : forall e h, ival h = epoch_base cfg (ival e + 1) -> ival h <= chain_height c -> staked_at (ival h) = true ->
    exists b l r, c !! Z.to_nat (ival h - 1) = Some (b, l) /\ data !! e = Some (EpochData_new r) /\
      block_randomness cfg h data b l r
}.

(** The seed of a height is read from an epoch that is complete before it. *)
Lemma sealed_seed_ext (h : Z) data data' :
  (forall e, ival e < h / len -> data !! e = data' !! e) -> sealed_seed cfg h data = sealed_seed cfg h data'.
Proof.
  intros Heq. unfold sealed_seed. set (i := if _ =? 0 then _ else _).
  assert (i < h / len) as Hi by (unfold i; destruct (_ =? 0); lia).
  destruct (bint_of_Z i) as [e|] eqn:He; [|done]. apply bint_of_Z_Some in He. cbn [mbind option_bind]. rewrite Heq by lia. done.
Qed.
Lemma block_randomness_ext (h : BlockHeight) data data' b l r :
  (forall e, ival e < ival h / len -> data !! e = data' !! e) ->
  block_randomness cfg h data b l r -> block_randomness cfg h data' b l r.
Proof. intros Heq (d & key & e & ? & ? & ? & Hr). exists d, key, e. by rewrite <- (sealed_seed_ext _ _ _ Heq). Qed.
Lemma block_randomness_fun (h : BlockHeight) data b l r r' :
  block_randomness cfg h data b l r -> block_randomness cfg h data b l r' -> r = r'.
Proof.
  intros (d & key & e & Hd & Hk & He & Hr) (d' & key' & e' & Hd' & Hk' & He' & Hr').
  assert (e' = e) as -> by (apply bint_eq; lia). congruence.
Qed.

(** The epoch of the last block of an epoch. *)
Lemma epoch_of_base (e h : Z) : 0 <= e -> 0 < h -> h = epoch_base cfg (e + 1) -> h / len = e.
Proof. intros He Hh Heq. pose proof (epoch_split cfg Hlen h ltac:(lia)). unfold epoch_base in Heq. nia. Qed.

Lemma staked_positive (h : Z) : staked_at h = true -> 0 < h.
Proof. unfold staked_at. destruct (Z.ltb_spec 0 h); [done|discriminate]. Qed.

(** The data of a complete epoch stay those of its last block while the chain
    and the data up to that epoch stay. *)
Lemma staked_keep c c' data data' e h :
  data_inv c data -> ival h = epoch_base cfg (ival e + 1) -> ival h <= chain_height c -> staked_at (ival h) = true ->
  c' !! Z.to_nat (ival h - 1) = c !! Z.to_nat (ival h - 1) -> (forall e1, ival e1 <= ival e -> data !! e1 = data' !! e1) ->
  exists b l r, c' !! Z.to_nat (ival h - 1) = Some (b, l) /\ data' !! e = Some (EpochData_new r) /\
    block_randomness cfg h data' b l r.
Proof.
  intros [_ Hst] Hh Hle Hs Hc Hdata. destruct (Hst e h Hh Hle Hs) as (b & l & r & Hb & Hd & Hr). exists b, l, r.
  rewrite Hc, <- (Hdata e) by lia. split_and!; [done..|]. eapply block_randomness_ext; [|exact Hr]. pose proof (bint_range e).
  intros e1 He1. rewrite (epoch_of_base (ival e)) in He1 by (lia || by apply staked_positive). apply Hdata. lia.
Qed.

(** A complete epoch of the longer chain that does not end with its last block. *)
Lemma ends_before c e h : ival h = epoch_base cfg (ival e + 1) -> ival h <= chain_height c + 1 -> staked_at (ival h) = true ->
  (ival h = chain_height c + 1 -> (chain_height c + 1 + 1) mod len = 0 -> ival e = (chain_height c + 1) / len -> False) ->
  ival h <= chain_height c /\ ival e < (chain_height c + 1) / len.
Proof.
  intros Hh Hle Hs Hno. apply staked_positive in Hs. pose proof (bint_range e).
  pose proof (epoch_of_base (ival e) (ival h) ltac:(lia) Hs Hh) as He.
  assert (ival h <= chain_height c) as Hle'.
  { assert (ival h <> chain_height c + 1) as Hne; [|lia]. intros Heq. apply Hno; [done| |by rewrite <- Heq, He].
    rewrite <- Heq. apply (epoch_last cfg Hlen); [lia|]. rewrite He. unfold epoch_base in Hh. lia. }
  split; [done|]. pose proof (epoch_split cfg Hlen (chain_height c + 1) ltac:(lia)). unfold epoch_base in Hh. nia.
Qed.

Lemma lookup_below c x (h : Z) : 0 < h -> h <= chain_height c -> (c ++ [x]) !! Z.to_nat (h - 1) = c !! Z.to_nat (h - 1).
Proof. unfold chain_height. intros. apply lookup_app_l. lia. Qed.

Lemma data_inv_connect c index bi b d bd l data data' :
  data_inv c data -> connectable index c bi b d bd l -> data_connected (bi_block_height bi) b l data data' ->
  data_inv (c ++ [(b, l)]) data'.
Proof.
  intros Hinv [Hh Hmax _ _ _ Hpos] Hdata. unfold data_connected in Hdata. rewrite Hh in Hdata.
  assert (0 <= chain_height c) as Hc by (unfold chain_height; lia).
  destruct (((chain_height c + 1 + 1) mod len =? 0) && is_pos b) eqn:Hls.
  - apply andb_prop in Hls as [Hlast%Z.eqb_eq Hb]. destruct Hdata as (r & e & He & Hr & ->).
    assert (epoch_base cfg (ival e + 1) = chain_height c + 1) as Hbase.
    { apply (epoch_last cfg Hlen) in Hlast; [|lia]. unfold epoch_base. rewrite He. lia. }
    assert (forall e1, ival e1 < ival e -> data !! e1 = <[e:=EpochData_new r]> data !! e1) as Hlt.
    { intros e1 He1. by rewrite lookup_insert_ne by (intros ->; lia). }
    split.
    + intros e1 He1. destruct (decide (e = e1)) as [<-|Hne]; [rewrite Hbase in He1; congruence|].
      rewrite lookup_insert_ne by done. by apply (unstaked_data _ _ Hinv).
    + intros e1 h Hh1 Hle Hs. rewrite chain_height_snoc in Hle. destruct (decide (e = e1)) as [<-|Hne].
      * assert (h = bi_block_height bi) as -> by (apply bint_eq; by rewrite Hh, Hh1, Hbase).
        exists b, l, r. rewrite lookup_insert_eq. split_and!; [|done|].
        -- rewrite Hh. unfold chain_height. rewrite lookup_app_r by lia. by replace (_ - _)%nat with 0%nat by lia.
        -- eapply block_randomness_ext; [|exact Hr]. intros e2 He2. apply Hlt. rewrite Hh in He2. lia.
      * destruct (ends_before c e1 h Hh1 Hle Hs) as [Hle' Hlt'].
        { intros _ _ He1. assert (ival e1 <> ival e) by (intros ?%bint_eq; congruence). lia. }
        apply (staked_keep c _ data _ e1 h Hinv Hh1 Hle' Hs); [apply lookup_below; [by apply staked_positive|done]|].
        intros e2 He2. apply Hlt. lia.
  - subst data'. split; [apply (unstaked_data _ _ Hinv)|]. intros e1 h Hh1 Hle Hs. rewrite chain_height_snoc in Hle.
    destruct (ends_before c e1 h Hh1 Hle Hs) as [Hle' _].
    { intros Heq Hm _. rewrite Hm, Hpos, <- Heq, Hs in Hls. done. }
    by apply (staked_keep c _ data _ e1 h Hinv Hh1 Hle' Hs); [apply lookup_below; [by apply staked_positive|done]|].
Qed.

Lemma data_inv_disconnect c x data data' :
  data_inv (c ++ [x]) data -> data_disconnected (chain_height c) data data' -> data_inv c data'.
Proof.
  intros Hinv Hdata. assert (0 <= chain_height c) as Hc by (unfold chain_height; lia). split.
  - intros e He. rewrite Hdata. destruct (_ && _) eqn:Hdel; [|by apply (unstaked_data _ _ Hinv)].
    apply andb_prop in Hdel as [Hm%Z.eqb_eq He1%Z.eqb_eq]. unfold genesis_epoch_data. rewrite lookup_singleton_ne; [done|].
    intros <-. cbn [ival] in He1. pose proof (Z.div_mod (chain_height c + 1) len ltac:(lia)). nia.
  - intros e h Hh Hle Hs. pose proof (staked_positive _ Hs) as Hpos. pose proof (bint_range e).
    pose proof (epoch_of_base (ival e) (ival h) ltac:(lia) Hpos Hh) as He.
    assert (ival e < (chain_height c + 1) / len) as Hlt.
    { pose proof (epoch_split cfg Hlen (chain_height c + 1) ltac:(lia)). unfold epoch_base in Hh. nia. }
    apply (staked_keep (c ++ [x]) _ data _ e h Hinv Hh); [rewrite chain_height_snoc; lia|done|by rewrite lookup_below|].
    intros e1 He1. rewrite Hdata. destruct (Z.eqb_spec (ival e1) ((chain_height c + 1) / len)); [lia|]. by rewrite andb_false_r.
Qed.

(** The data of the complete epochs are determined by the chain. *)
Lemma data_inv_unique c data data' : data_inv c data -> data_inv c data' ->
  forall e, epoch_base cfg (ival e + 1) <= chain_height c -> chain_height c < 2 ^ 64 -> data !! e = data' !! e.
Proof.
  intros H1 H2 e. remember (Z.to_nat (ival e)) as n eqn:Hn. revert e Hn.
  induction n as [n IH] using lt_wf_ind. intros e -> Hle Hmax. pose proof (bint_range e) as Re.
  destruct (staked_at (epoch_base cfg (ival e + 1))) eqn:Hs; [|by rewrite (unstaked_data _ _ H1), (unstaked_data _ _ H2)].
  pose proof (staked_positive _ Hs) as Hpos.
  destruct (bint_of_Z_is_Some (lo := 0) (hi := 2 ^ 64 - 1) (epoch_base cfg (ival e + 1))) as (h & _ & Hh); [lia|].
  rewrite <- Hh in Hle, Hs, Hpos. destruct (staked_data _ _ H1 e h Hh Hle Hs) as (b & l & r & Hc & -> & Hr).
  destruct (staked_data _ _ H2 e h Hh Hle Hs) as (b' & l' & r' & Hc' & -> & Hr'). rewrite Hc in Hc'. injection Hc' as <- <-.
  pose proof (epoch_of_base (ival e) (ival h) ltac:(lia) Hpos Hh) as He.
  f_equal. f_equal. eapply block_randomness_fun; [|exact Hr']. eapply block_randomness_ext; [|exact Hr].
  intros e1 He1. pose proof (bint_range e1). apply (IH (Z.to_nat (ival e1))); [lia|done| |done].
  pose proof (epoch_base_mono cfg Hlen (ival e1 + 1) (ival e + 1) ltac:(lia)). lia.
Qed.
End data.

(** ** Histories *)

(** The stores that any sequence of connected and disconnected blocks leads to
    from a store with what [process_genesis] writes, the pools of the genesis at the
    tip and at the seal and the data of epoch 0, with the chain they leave. *)
Inductive history : EpochStore S -> Chain -> Prop :=
  | history_genesis s : bounded l0 -> holds (tip_pools s) l0 -> holds (sealed_pools s) l0 ->
      epoch_deltas s = ∅ -> epoch_undo_deltas s = ∅ -> epoch_data s = genesis_epoch_data cfg -> history s []
  | history_connect s c index bi b d bd l s' :
      history s c -> connectable index c bi b d bd l ->
      connect_pools cfg index bi b d bd s = (s', Ok tt) -> history s' (c ++ [(b, l)])
  | history_disconnect s c index bi b prev d bd l s' :
      history s (c ++ [(b, l)]) -> disconnectable index c bi prev d bd l ->
      disconnect_pools cfg index bi prev d bd s = (s', Ok tt) -> history s' c.

Lemma genesis_inv s : bounded l0 -> holds (tip_pools s) l0 -> holds (sealed_pools s) l0 ->
  epoch_deltas s = ∅ -> epoch_undo_deltas s = ∅ -> seal_inv [] s.
Proof.
  intros Hb Ht Hs Hd Hu. assert (forall k : Z, ledger_at l0 [] k = l0) as Hl by (intros; unfold ledger_at; by case_match).
  split; [by rewrite <- (Hl (chain_height [])) in Ht| |intros e|by unfold seal_ledger; rewrite Hl].
  - rewrite Hd. split; intros e; rewrite lookup_empty; [done|]. intros _. rewrite !Hl. by apply delta_rep_new_seal.
  - rewrite Hu, lookup_empty. case_match; [|done]. by rewrite !Hl.
Qed.

Lemma history_seal s c : history s c -> seal_inv c s.
Proof.
  induction 1 as [s Hb Ht Hs Hd Hu _|s c index bi b d bd l s' _ IH Hco Hrun|s c index bi b prev d bd l s' _ IH Hdc Hrun].
  - by apply genesis_inv.
  - pose proof (connect_step s c index bi b d bd l IH Hco) as Hstep. rewrite Hrun in Hstep. apply Hstep.
  - destruct (disconnect_step s c index bi b prev d bd l IH Hdc) as (s1 & Hrun' & Hinv & _). congruence.
Qed.

Lemma history_data s c : 1 <= dist -> history s c -> data_inv c (epoch_data s).
Proof.
  intros Hdist. induction 1 as [s _ _ _ _ _ Hdata|s c index bi b d bd l s' Hist IH Hco Hrun|s c index bi b prev d bd l s' Hist IH Hdc Hrun].
  - rewrite Hdata. split; [done|]. intros e h _ Hle Hs%staked_positive. unfold chain_height in Hle. cbn in Hle. lia.
  - pose proof (connect_step s c index bi b d bd l (history_seal _ _ Hist) Hco) as Hstep. rewrite Hrun in Hstep.
    by eapply (data_inv_connect Hdist); [exact IH|exact Hco|apply Hstep].
  - destruct (disconnect_step s c index bi b prev d bd l (history_seal _ _ Hist) Hdc) as (s1 & Hrun' & _ & Hdata).
    assert (s' = s1) as -> by congruence. by eapply (data_inv_disconnect Hdist).
Qed.
End steps.

(** * Theorems *)

(** C23: The epoch seal follows the chain.  After any sequence of connected and
    disconnected blocks, the pools at the tip are those of the current chain and
    the sealed pools are those of the current chain at the end of the last epoch
    that is at least the sealing distance behind.  The bookkeeping never gets
    stuck: the last block can be disconnected, and the next one can be connected
    unless it ends an epoch and has no valid randomness; nothing panics. *)
Theorem epoch_seal_follows_chain `{ConsensusPoS.StakeCrypto} {S} `{!PoSAccountingStorage S} `{!ReliablePoSStorage S}
    (cfg : ChainConfig) (l0 : Ledger) (s : EpochStore S) (c : list (TxVerifier.Block * Ledger)) :
  0 < ival (epoch_length cfg) -> history cfg l0 s c ->
  represents (mk_db (tip_pools s)) (tip_ledger l0 c) /\
  represents (mk_db (sealed_pools s)) (seal_ledger cfg l0 c) /\
  (forall c0 b l index bi prev d bd, c = c0 ++ [(b, l)] -> disconnectable l0 index c0 bi prev d bd l ->
     exists s', disconnect_pools cfg index bi prev d bd s = (s', Ok tt) /\ history cfg l0 s' c0) /\
  (forall b l index bi d bd, connectable cfg l0 index c bi b d bd l ->
     match connect_pools cfg index bi b d bd s with
     | (s', Ok _) => history cfg l0 s' (c ++ [(b, l)])
     | (_, Err err) => (exists e, err = TipError.EpochSealError e) /\
         (ival (bi_block_height bi) + 1) mod ival (epoch_length cfg) = 0 /\
         forall r, ~ block_randomness cfg (bi_block_height bi) (epoch_data s) b l r
     | (_, Panic) => False
     end).
Proof.
  intros Hlen Hist. pose proof (history_seal cfg Hlen l0 s c Hist) as Hinv. split_and!.
  - apply holds_represents, Hinv.
  - apply holds_represents, Hinv.
  - intros c0 b l index bi prev d bd -> Hdc.
    destruct (disconnect_step cfg Hlen l0 s c0 index bi b prev d bd l Hinv Hdc) as (s' & Hrun & _).
    exists s'. split; [done|]. by eapply history_disconnect.
  - intros b l index bi d bd Hco. pose proof (connect_step cfg Hlen l0 s c index bi b d bd l Hinv Hco) as Hstep.
    destruct (connect_pools cfg index bi b d bd s) as [s' [[]|err|]] eqn:Hrun; [by eapply history_connect|naive_solver|done].
Qed.

(** C24: If the seal is at least one epoch behind the tip, the randomness that a
    block is checked with depends on the chain below it and not on the blocks that
    were connected and taken back on the way there.  Two stores whose histories end in the same chain have the same data
    for every epoch that the chain completes, and [check_proof_of_stake] reads
    the same seed from both for the next block.  With a distance of zero this is
    false ([stale_seed_at_distance_zero]); the networks have a distance of two. *)
Theorem seed_independent_of_history `{ConsensusPoS.StakeCrypto} {S} `{!PoSAccountingStorage S} `{!ReliablePoSStorage S}
    (cfg : ChainConfig) (l0 : Ledger) (s1 s2 : EpochStore S) (c : list (TxVerifier.Block * Ledger)) (next : BlockHeight) :
  0 < ival (epoch_length cfg) -> 1 <= ival (sealed_epoch_distance_from_tip cfg) ->
  history cfg l0 s1 c -> history cfg l0 s2 c -> ival next = chain_height c + 1 -> ival next < 2 ^ 64 - 1 ->
  (forall e, epoch_base cfg (ival e + 1) <= chain_height c -> epoch_data s1 !! e = epoch_data s2 !! e) /\
  exists seed,
    ConsensusPoS.randomness_of_sealed_epoch cfg next (randomness <$> epoch_data s1) = Ok seed /\
    ConsensusPoS.randomness_of_sealed_epoch cfg next (randomness <$> epoch_data s2) = Ok seed.
Proof.
  intros Hlen Hdist H1 H2 Hn Hmax.
  assert (forall e, epoch_base cfg (ival e + 1) <= chain_height c -> epoch_data s1 !! e = epoch_data s2 !! e) as Hsame.
  { intros e He. apply (data_inv_unique cfg Hlen Hdist c); [by eapply history_data..|done|lia]. }
  split; [done|]. exists (sealed_seed cfg (ival next) (epoch_data s1)). rewrite !sealed_seed_read by done. split; [done|].
  f_equal. symmetry. apply (sealed_seed_ext cfg Hdist). intros e He. apply Hsame.
  pose proof (epoch_split cfg Hlen (ival next) ltac:(unfold chain_height in *; lia)). pose proof (bint_range e).
  unfold epoch_base. nia.
Qed.

Module Witnesses.
Import ChainConfig.Example PoS.Example.
#[local] Existing Instance ConsensusPoS.Witnesses.plain_crypto.
#[local] Existing Instance ConsensusPoS.Witnesses.root_hashes.
#[local] Open Scope N_scope.

(** Epochs of one block, sealed one epoch behind the tip. *)
Definition chain_cfg : ChainConfig :=
  cfg_epochs (u64_lit 1) (u64_lit 1) (ConsensusUpgrade.PoS None ConsensusPoS.Witnesses.config) 1000.
Definition staked_header (id prev : BlockId) (t : Z) : SignedBlockHeader :=
  with_no_signature (mk_header prev id 0 (u64_lit t)
    (ConsensusPoS {| kernel_inputs := []; stake_pool_id := 1; vrf_data := 3; compact_target := ConsensusPoS.Witnesses.compact_1000 |})).
Definition block (id prev : BlockId) (t : Z) : TxVerifier.Block :=
  TxVerifier.mk_block (staked_header id prev t) [ProduceBlockFromStake AnyoneCanSpend 1] [].
Definition block_index (id prev : BlockId) (t h : Z) : BlockIndex :=
  mk_block_index id (staked_header id prev t) prev (from_u64 4 h) (u64_lit h) (u64_lit t) Amount.ZERO BlockStatus.new true.

(** The first block creates a pool; there are two second blocks. *)
Definition b1 : TxVerifier.Block := block 1 0 100.
Definition b2 : TxVerifier.Block := block 2 1 104.
Definition b2' : TxVerifier.Block := block 3 1 101.
Definition i1 : BlockIndex := block_index 1 0 100 1.
Definition i2 : BlockIndex := block_index 2 1 104 2.
Definition i2' : BlockIndex := block_index 3 1 101 2.
Definition index : gmap BlockId BlockIndex := {[1 := i1; 2 := i2; 3 := i2']}.

Definition s0 : EpochStore InMemoryPoSAccounting :=
  mk_epoch_store InMemoryPoSAccounting_new InMemoryPoSAccounting_new ∅ ∅ (genesis_epoch_data chain_cfg).
Definition none : PoSAccountingDeltaData := PoSAccountingDeltaData_new.
Definition s1 := (connect_pools chain_cfg index i1 b1 (data c1) (data c1) s0).1.
Definition s2 := (connect_pools chain_cfg index i2 b2 none none s1).1.
(** The other way to the same chain, over the other second block. *)
Definition r2 := (connect_pools chain_cfg index i2' b2' none none s1).1.
Definition r1 := (disconnect_pools chain_cfg index i2' (u64_lit 1) none none r2).1.
Definition r3 := (connect_pools chain_cfg index i2 b2 none none r1).1.

Lemma runs_to {A B} (p : A * B) r : p.2 = r -> p = (p.1, r).
Proof. by destruct p as [a b]; intros <-. Qed.

Lemma l1_bounded : bounded l1.
Proof. eapply cache_rep_bounded_pos, c1_rep. Qed.

Lemma s1_history : history chain_cfg empty_ledger s1 [(b1, l1)].
Proof.
  apply (history_connect _ _ s0 [] index i1 b1 (data c1) (data c1) l1 s1); [|split|apply runs_to; vm_compute; reflexivity].
  - apply history_genesis; [apply empty_bounded_pos|apply store_holds|apply store_holds|reflexivity..].
  - reflexivity.
  - reflexivity.
  - reflexivity.
  - apply cache_rep_delta, c1_rep.
  - apply cache_rep_delta, c1_rep.
  - reflexivity.
Qed.

Lemma second_history s i b : history chain_cfg empty_ledger s [(b1, l1)] ->
  connectable chain_cfg empty_ledger index [(b1, l1)] i b none none l1 ->
  (connect_pools chain_cfg index i b none none s).2 = Ok tt ->
  history chain_cfg empty_ledger (connect_pools chain_cfg index i b none none s).1 [(b1, l1); (b, l1)].
Proof. intros Hs Hc Hok%runs_to. by apply (history_connect _ _ s [(b1, l1)] index i b none none l1). Qed.

Lemma s2_history : history chain_cfg empty_ledger s2 [(b1, l1); (b2, l1)].
Proof.
  apply second_history; [exact s1_history| |vm_compute; reflexivity].
  split; [reflexivity..|apply delta_rep_new_seal, l1_bounded|apply delta_rep_new_seal, l1_bounded|reflexivity].
Qed.

Lemma r2_history : history chain_cfg empty_ledger r2 [(b1, l1); (b2', l1)].
Proof.
  apply second_history; [exact s1_history| |vm_compute; reflexivity].
  split; [reflexivity..|apply delta_rep_new_seal, l1_bounded|apply delta_rep_new_seal, l1_bounded|reflexivity].
Qed.

Lemma r1_history : history chain_cfg empty_ledger r1 [(b1, l1)].
Proof.
  assert ((disconnect_pools chain_cfg index i2' (u64_lit 1) none none r2).2 = Ok tt) as Hok by (vm_compute; reflexivity).
  apply runs_to in Hok. apply (history_disconnect _ _ r2 [(b1, l1)] index i2' b2' (u64_lit 1) none none l1);
    [exact r2_history| |exact Hok].
  split; [reflexivity..|apply delta_rep_new_seal, l1_bounded|apply delta_rep_new_seal, l1_bounded].
Qed.

Lemma r3_history : history chain_cfg empty_ledger r3 [(b1, l1); (b2, l1)].
Proof.
  apply second_history; [exact r1_history| |vm_compute; reflexivity].
  split; [reflexivity..|apply delta_rep_new_seal, l1_bounded|apply delta_rep_new_seal, l1_bounded|reflexivity].
Qed.

(** After the second block the pool that the first one created is sealed. *)
Lemma epoch_seal_follows_chain_witness :
  get_pool_data (mk_db (sealed_pools s1)) 1 = Ok None /\ get_pool_data (mk_db (sealed_pools s2)) 1 = Ok (Some pool) /\
  exists s, disconnect_pools chain_cfg index i2 (u64_lit 1) none none s2 = (s, Ok tt) /\
    history chain_cfg empty_ledger s [(b1, l1)].
Proof.
  destruct (epoch_seal_follows_chain chain_cfg empty_ledger s2 [(b1, l1); (b2, l1)]) as (_ & Hs & Hd & _);
    [reflexivity|exact s2_history|].
  split; [vm_compute; reflexivity|]. split; [rewrite (shows_pool _ _ Hs); vm_compute; reflexivity|].
  apply (Hd [(b1, l1)] b2 l1 index i2 (u64_lit 1) none none eq_refl).
  split; [reflexivity..|apply delta_rep_new_seal, l1_bounded|apply delta_rep_new_seal, l1_bounded].
Defined.

(** The block that was taken back had randomness of its own, which is not read
    later. *)
Lemma seed_independent_of_history_witness :
  epoch_data r2 !! u64_lit 2 <> epoch_data s2 !! u64_lit 2 /\
  exists seed,
    ConsensusPoS.randomness_of_sealed_epoch chain_cfg (u64_lit 3) (randomness <$> epoch_data s2) = Ok seed /\
    ConsensusPoS.randomness_of_sealed_epoch chain_cfg (u64_lit 3) (randomness <$> epoch_data r3) = Ok seed.
Proof.
  split; [vm_compute; discriminate|].
  apply (seed_independent_of_history chain_cfg empty_ledger s2 r3 [(b1, l1); (b2, l1)] (u64_lit 3));
    [reflexivity|vm_compute; discriminate|exact s2_history|exact r3_history|reflexivity|reflexivity].
Defined.

(** A seal at the tip is not enough.  With a distance of zero and epochs of two
    blocks, connecting the first block and taking it back leaves its randomness
    behind, and the next block of that height is checked with it instead of the
    initial randomness. *)
Definition tip_cfg : ChainConfig :=
  cfg_epochs (u64_lit 2) (u64_lit 0) (ConsensusUpgrade.PoS None ConsensusPoS.Witnesses.config) 1000.
Definition z1 := (connect_pools tip_cfg index i1 b1 (data c1) (data c1) s0).1.
Definition undo_c1 : PoSAccountingDeltaData :=
  data (PoS.Example.after (OpDecommission 1) (PoSAccountingDelta_new (mk_db (tip_pools z1)))).
Definition z0 := (disconnect_pools tip_cfg index i1 BlockHeight.zero undo_c1 undo_c1 z1).1.
Example stale_seed_at_distance_zero :
  initial_randomness tip_cfg = initial_randomness chain_cfg /\
  ConsensusPoS.randomness_of_sealed_epoch tip_cfg (u64_lit 1) (randomness <$> epoch_data s0) = Ok (initial_randomness tip_cfg) /\
  ConsensusPoS.randomness_of_sealed_epoch tip_cfg (u64_lit 1) (randomness <$> epoch_data z0) = Ok (256 ^ 28) /\
  get_pool_data (mk_db (tip_pools z0)) 1 = Ok None.
Proof. split; [|split; [|split]]; vm_compute; reflexivity. Qed.
End Witnesses.
