(* ===== verification/ChainstateRef.v ===== *)
(** * The block tree of the chainstate

    Models [chainstate/src/detail/chainstateref/mod.rs]: the queries on the
    tree of blocks and on the main chain, the checks of a block, the creation of
    the index of a new block, and the reorganisation that makes another chain
    the main chain.

    The database is a record of maps, as the in-memory store is ([Store]); its
    operations do not fail.  What blocks do to the ledgers is behind the class
    [BlockLedger], which stands for the transaction verification strategy and
    the epoch data; its laws say that disconnecting a block takes its connection
    back.  The verification of the consensus, which hashes, the sizes of
    encoded blocks and the Merkle roots are parameters ([BlockChecks]).  The
    loops that follow parents are recursions whose fuel is the height they start
    from. *)
From S2P Require Import Prelude Amount Uint ChainTypes ChainConfig Compact BlockTree Utxo TxTypes Policy.
From S2P Require Import CheckTransaction TxVerifier.

#[global] Instance PoWData_eq_dec : EqDecision PoWData.
Proof. solve_decision. Defined.
#[global] Instance PoSData_eq_dec `{CryptoTypes} : EqDecision PoSData.
Proof. solve_decision. Defined.
#[global] Instance ConsensusData_eq_dec `{CryptoTypes} : EqDecision ConsensusData.
Proof. solve_decision. Defined.
#[global] Instance BlockHeader_eq_dec `{CryptoTypes} : EqDecision BlockHeader.
Proof. solve_decision. Defined.
#[global] Instance SignedBlockHeader_eq_dec `{CryptoTypes} : EqDecision SignedBlockHeader.
Proof. solve_decision. Defined.
#[global] Instance BlockIndex_eq_dec `{CryptoTypes} : EqDecision BlockIndex.
Proof. solve_decision. Defined.

(** ** Errors ([chainstate/types/src/error.rs], [detail/error.rs]) *)

Module PropertyQueryError.
Inductive PropertyQueryError :=
  | BestBlockIndexNotFound
  | BlockIndexNotFound (id : BlockId)
  | PrevBlockIndexNotFound (block_id prev_block_id : BlockId)
  | BlockForHeightNotFound (height : BlockHeight)
  | GetAncestorError (e : GetAncestorError)
  | GenesisHeaderRequested.
End PropertyQueryError.
Abbreviation PropertyQueryError := PropertyQueryError.PropertyQueryError.

Module OutputMaturityError.
Inductive OutputMaturityError :=
  | InvalidOutputMaturitySettingType (o : UtxoOutPoint)
  | InvalidOutputMaturityDistance (o : UtxoOutPoint) (given required : BlockCount).
End OutputMaturityError.

Module BlockSizeError.
Inductive BlockSizeError :=
  | Header (size limit : N)
  | SizeOfTxs (size limit : N)
  | SizeOfSmartContracts (size limit : N).
End BlockSizeError.

Module CheckBlockTransactionsError.
Inductive CheckBlockTransactionsError :=
  | CheckTransactionError (e : CheckTransactionError.CheckTransactionError)
  | DuplicateInputInBlock (id : BlockId).
End CheckBlockTransactionsError.

(** [BlockProcessingErrorClass]. *)
Module ErrorClass.
Inductive BlockProcessingErrorClass := General | BadBlock | TemporarilyBadBlock.
Definition block_should_be_invalidated (c : BlockProcessingErrorClass) : bool :=
  match c with General | TemporarilyBadBlock => false | BadBlock => true end.
End ErrorClass.
Abbreviation BlockProcessingErrorClass := ErrorClass.BlockProcessingErrorClass.

(** What the checks of a block need beyond this model: the sizes of encoded
    headers, the Merkle roots of a body ([None] when they can not be
    calculated) and the verification of the consensus data against the tree of
    indices and the ledger, with its error and the class of that. *)
Class BlockChecks `{CryptoTypes} (L : Type) := {
  header_size : SignedBlockHeader -> N;
  merkle_roots : Block -> option (H256 * H256);
  consensus_error : Type;
  consensus_error_class : consensus_error -> BlockProcessingErrorClass;
  validate_consensus : gmap BlockId BlockIndex -> L -> SignedBlockHeader -> result consensus_error unit
}.

(** What a block does to the ledgers: [connect_transactions] (connect the block
    in a verifier on the database and flush it), [disconnect_transactions],
    [post_connect_tip] and [post_disconnect_tip]. *)
Class BlockLedger `{CryptoTypes} (L : Type) := {
  ledger_error : Type;
  ledger_error_class : ledger_error -> BlockProcessingErrorClass;
  ledger_connect : gmap BlockId BlockIndex -> BlockIndex -> Block -> BlockTimestamp -> L -> result ledger_error L;
  ledger_post_connect : BlockIndex -> Block -> L -> result ledger_error L;
  ledger_disconnect : Block -> L -> result ledger_error L;
  ledger_post_disconnect : BlockHeight -> L -> result ledger_error L
}.

Module CheckBlockError.
Inductive CheckBlockError `{BlockChecks L} :=
  | PropertyQueryError (e : PropertyQueryError)
  | MerkleRootCalculationFailed (id : BlockId)
  | MerkleRootMismatch
  | ParentBlockMissing (block_id parent_block_id : BlockId)
  | BlockTimeOrderInvalid (t median : BlockTimestamp)
  | BlockFromTheFuture (block_id : BlockId) (t current_time : BlockTimestamp)
  | BlockSizeError (e : BlockSizeError.BlockSizeError)
  | CheckTransactionFailed (e : CheckBlockTransactionsError.CheckBlockTransactionsError)
  | ConsensusVerificationFailed (e : consensus_error)
  | InvalidBlockRewardOutputType (id : BlockId)
  | BlockRewardMaturityError (e : OutputMaturityError.OutputMaturityError)
  | CheckpointMismatch (height : BlockHeight) (expected given : BlockId)
  | GetAncestorError (e : GetAncestorError)
  | AttemptedToAddBlockBeforeReorgLimit (common_ancestor_height tip_block_height min_allowed_height : BlockHeight)
  | InvalidParent (block_id parent_block_id : BlockId)
  | InvalidBlockAlreadyProcessed (id : BlockId).
Arguments CheckBlockError {_} L {_}.
End CheckBlockError.
Abbreviation CheckBlockError := CheckBlockError.CheckBlockError.

Module BlockError.
Inductive BlockError `{BlockChecks L} `{!BlockLedger L} :=
  | LocalOrphan
  | CheckBlockFailed (e : CheckBlockError L)
  | StateUpdateFailed (e : ledger_error)
  | PrevBlockNotFoundForNewBlock (id : BlockId)
  | BlockAlreadyExists (id : BlockId)
  | BlockIndexAlreadyExists (id : BlockId)
  | BlockAlreadyProcessed (id : BlockId)
  | InvalidBlockAlreadyProcessed (id : BlockId)
  | BlockProofCalculationError (id : BlockId)
  | BlockDataMissingForValidBlockIndex (id : BlockId)
  | BestBlockIndexQueryError (e : PropertyQueryError)
  | BlockIndexQueryError (id : BlockId) (e : PropertyQueryError)
  | IsBlockInMainChainQueryError (id : BlockId) (e : PropertyQueryError)
  | PropertyQueryError (e : PropertyQueryError)
  | InvariantErrorFailedToFindNewChainPath (id best : BlockId) (e : PropertyQueryError)
  | InvariantErrorInvalidTip (id : BlockId)
  | InvariantErrorAttemptToConnectInvalidBlock (id : BlockId).
Arguments BlockError {_} L {_ _}.
End BlockError.
Abbreviation BlockError := BlockError.BlockError.

(** ** The database ([chainstate/storage]) *)

Record Store `{CryptoTypes} (L : Type) := mk_store {
  st_index : gmap BlockId BlockIndex;
  st_blocks : gmap BlockId Block;
  st_by_height : gmap BlockHeight BlockId;
  st_best_block : option BlockId;
  st_min_height : option BlockHeight;
  st_ledger : L
}.
Arguments mk_store {_ _} _ _ _ _ _ _.
Arguments st_index {_ _} _.
Arguments st_blocks {_ _} _.
Arguments st_by_height {_ _} _.
Arguments st_best_block {_ _} _.
Arguments st_min_height {_ _} _.
Arguments st_ledger {_ _} _.

(** The configuration of the chainstate that is read here. *)
Record ChainstateConfig := { checkpoints_mismatch_allowed : bool }.

Section chainstate_ref.
Context `{CryptoTypes} `{!TxHash} `{!TxParameters} `{!BlockHashes} `{TimeslotWeights} {L : Type} `{!BlockChecks L} `{!BlockLedger L}.
Context (chain_config : ChainConfig) (chainstate_config : ChainstateConfig).
Implicit Types (s : Store L) (id : BlockId) (bi : BlockIndex) (g : GenBlockIndex) (height : BlockHeight).
Import GenBlockIndex.
Abbreviation PQ := (result PropertyQueryError).

Definition with_index x s : Store L :=
  mk_store x (st_blocks s) (st_by_height s) (st_best_block s) (st_min_height s) (st_ledger s).
Definition with_blocks x s : Store L :=
  mk_store (st_index s) x (st_by_height s) (st_best_block s) (st_min_height s) (st_ledger s).
Definition with_by_height x s : Store L :=
  mk_store (st_index s) (st_blocks s) x (st_best_block s) (st_min_height s) (st_ledger s).
Definition with_best_block x s : Store L :=
  mk_store (st_index s) (st_blocks s) (st_by_height s) x (st_min_height s) (st_ledger s).
Definition with_min_height x s : Store L :=
  mk_store (st_index s) (st_blocks s) (st_by_height s) (st_best_block s) x (st_ledger s).
Definition with_ledger x s : Store L :=
  mk_store (st_index s) (st_blocks s) (st_by_height s) (st_best_block s) (st_min_height s) x.

(** ** Queries *)

Definition get_best_block_id {E} s : result E BlockId := expect (st_best_block s).
Definition get_block_index s id : option BlockIndex := st_index s !! id.
Definition get_existing_block_index s id : PQ BlockIndex :=
  ok_or (PropertyQueryError.BlockIndexNotFound id) (get_block_index s id).
Definition get_gen_block_index s id : option GenBlockIndex := gen_block_index_getter chain_config (st_index s) id.
Definition get_best_block_index s : PQ GenBlockIndex :=
  id ← get_best_block_id s;
  ok_or PropertyQueryError.BestBlockIndexNotFound (get_gen_block_index s id).
(** For a header: its id and the id of its parent. *)
Definition get_previous_block_index s (block_id prev_block_id : BlockId) : PQ GenBlockIndex :=
  ok_or (PropertyQueryError.PrevBlockIndexNotFound block_id prev_block_id) (get_gen_block_index s prev_block_id).
Definition prev_of_index s bi : PQ GenBlockIndex := get_previous_block_index s (bi_block_id bi) (bi_prev_block_id bi).
Definition prev_of_header s (header : SignedBlockHeader) : PQ GenBlockIndex :=
  get_previous_block_index s (header_id header) (hdr_prev_block_id header).

Definition get_block_id_by_height s height : option BlockId := st_by_height s !! height.
Definition get_existing_block_id_by_height s height : PQ BlockId :=
  ok_or (PropertyQueryError.BlockForHeightNotFound height) (get_block_id_by_height s height).
Definition get_header_from_height s height : PQ (option SignedBlockHeader) :=
  id ← get_existing_block_id_by_height s height;
  id ← ok_or PropertyQueryError.GenesisHeaderRequested (classify chain_config id);
  Ok (bi_block_header <$> get_block_index s id).
Definition get_min_height_with_allowed_reorg s : BlockHeight := default BlockHeight.zero (st_min_height s).

Definition get_ancestor s g (target_height : BlockHeight) : result GetAncestorError GenBlockIndex :=
  block_index_ancestor_getter chain_config (st_index s) (AncestorGetterStartingPoint.FromBlockIndex g) target_height.

(** The loop of [last_common_ancestor]: both sides step to their parents. *)
Fixpoint common_ancestor_walk (fuel : nat) s (first second : GenBlockIndex) : PQ GenBlockIndex :=
  if bool_decide (gen_block_id first = gen_block_id second) then Ok first
  else match first, second, fuel with
       | Block first_blkidx, Block second_blkidx, S fuel =>
           first ← prev_of_index s first_blkidx;
           second ← prev_of_index s second_blkidx;
           common_ancestor_walk fuel s first second
       | _, _, _ => Panic
       end.

Definition last_common_ancestor s (first second : GenBlockIndex) : PQ GenBlockIndex :=
  let get g h := map_err PropertyQueryError.GetAncestorError (get_ancestor s g h) in
  '(first, second) ← match ival (gen_block_height first) ?= ival (gen_block_height second) with
                     | Gt => first ← get first (gen_block_height second); Ok (first, second)
                     | Lt => second ← get second (gen_block_height first); Ok (first, second)
                     | Eq => Ok (first, second)
                     end;
  common_ancestor_walk (Z.to_nat (ival (gen_block_height first))) s first second.

Definition last_common_ancestor_in_main_chain s g : PQ GenBlockIndex :=
  best_block_index ← get_best_block_index s;
  last_common_ancestor s g best_block_index.

Definition get_block_height_in_main_chain s id : option BlockHeight :=
  match classify chain_config id with
  | None => Some BlockHeight.zero
  | Some block_id =>
      match get_block_index s block_id with
      | Some block_index =>
          if bool_decide (get_block_id_by_height s (bi_block_height block_index) = Some id)
          then Some (bi_block_height block_index) else None
      | None => None
      end
  end.
Definition is_block_in_main_chain s id : bool := negb (is_none (get_block_height_in_main_chain s id)).

(** The loop of [get_new_chain], with the blocks in front of [result]; the code
    pushes and reverses. *)
Fixpoint new_chain_walk (fuel : nat) s bi (result_ : list BlockIndex) : PQ (list BlockIndex) :=
  if is_block_in_main_chain s (bi_block_id bi) then Ok result_
  else
    prev ← prev_of_index s bi;
    match prev, fuel with
    | Genesis _ _, _ => Ok (bi :: result_)
    | Block blkidx, S fuel => new_chain_walk fuel s blkidx (bi :: result_)
    | Block _, O => Panic
    end.
Definition get_new_chain s (new_tip_block_index : BlockIndex) : PQ (list BlockIndex) :=
  new_chain_walk (Z.to_nat (ival (bi_block_height new_tip_block_index))) s new_tip_block_index [].

(** [get_block_tree_by_height]: ids by height, in the order of the map of
    indices; flattened by [get_higher_block_ids_sorted_by_height]. *)
Definition get_block_tree_by_height s (start_from : BlockHeight) : gmap BlockHeight (list BlockId) :=
  foldl (fun m '(_, bi) =>
           if ival start_from <=? ival (bi_block_height bi)
           then <[bi_block_height bi := default [] (m !! bi_block_height bi) ++ [bi_block_id bi]]> m else m)
    ∅ (btree_iter (st_index s)).
Definition get_higher_block_ids_sorted_by_height s (start_from : BlockHeight) : list BlockId :=
  concat (btree_iter (get_block_tree_by_height s start_from)).*2.

(** The loop of [collect_block_indices_in_branch]. *)
Fixpoint collect_branch s (seen_block_ids : gset BlockId) (ids : list BlockId) : PQ (list BlockIndex) :=
  match ids with
  | [] => Ok []
  | cur_block_id :: ids =>
      cur_block_index ← get_existing_block_index s cur_block_id;
      prev_block_id ← expect (classify chain_config (bi_prev_block_id cur_block_index));
      if bool_decide (prev_block_id ∈ seen_block_ids) then
        rest ← collect_branch s ({[cur_block_id]} ∪ seen_block_ids) ids; Ok (cur_block_index :: rest)
      else collect_branch s seen_block_ids ids
  end.
Definition collect_block_indices_in_branch s (root_block_id : BlockId) : PQ (list BlockIndex) :=
  root_block_index ← get_existing_block_index s root_block_id;
  next_block_height ← BlockHeight.next_height (bi_block_height root_block_index);
  rest ← collect_branch s {[bi_block_id root_block_index]}
           (get_higher_block_ids_sorted_by_height s next_block_height);
  Ok (root_block_index :: rest).

(** ** The index of a new block *)

Definition create_block_index_for_new_block s (block : TxVerifier.Block) (block_status : BlockStatus) :
    result (BlockError L) BlockIndex :=
  let block_id := block_get_id block in
  prev_block_index ← ok_or (BlockError.PrevBlockNotFoundForNewBlock block_id)
                       (get_gen_block_index s (prev_block_id block));
  height ← BlockHeight.next_height (gen_block_height prev_block_index);
  skip_ht ← get_skip_height height;
  some_ancestor ← match get_ancestor s prev_block_index skip_ht with Ok a => Ok (gen_block_id a) | _ => Panic end;
  chain_transaction_count ← expect (bint_of_Z (ival (gen_chain_transaction_count prev_block_index)
                                              + Z.of_nat (length (transactions block))));
  let timestamp := hdr_timestamp (block_header block) in
  let max_ := gen_chain_timestamps_max prev_block_index in
  let chain_time_max := if ival max_ <=? ival timestamp then timestamp else max_ in
  block_proof ← get_block_proof (block_consensus_data block) (gen_block_timestamp prev_block_index) timestamp;
  current_block_proof ← ok_or (BlockError.BlockProofCalculationError block_id) block_proof;
  chain_trust ← expect (Uint.checked_add (gen_chain_trust prev_block_index) current_block_proof);
  Ok (mk_block_index block_id (block_header block) some_ancestor chain_trust height chain_time_max
        chain_transaction_count block_status false).

(** ** Checks of a block *)

Abbreviation checked := (result (CheckBlockError L)).
Import CheckBlockError.

Definition enforce_checkpoint_impl height (expected given : BlockId) : checked unit :=
  if bool_decide (given = expected) then Ok tt
  else if checkpoints_mismatch_allowed chainstate_config then Ok tt
  else Err (CheckpointMismatch height expected given).

Definition enforce_exact_checkpoint_assuming_height (header : SignedBlockHeader) (header_height : BlockHeight) :
    checked bool :=
  match checkpoint_at_height (height_checkpoints chain_config) header_height with
  | Some expected_id => _ ← enforce_checkpoint_impl header_height expected_id (header_id header); Ok true
  | None => Ok false
  end.

Definition enforce_checkpoints s (header : SignedBlockHeader) : checked unit :=
  prev_block_index ← map_err PropertyQueryError (prev_of_header s header);
  current_height ← BlockHeight.next_height (gen_block_height prev_block_index);
  exact ← enforce_exact_checkpoint_assuming_height header current_height;
  if (exact : bool) then Ok tt
  else
    '(expected_checkpoint_height, expected_checkpoint_id) ←
      parent_checkpoint_to_height (height_checkpoints chain_config) current_height;
    parent_checkpoint_block_index ←
      map_err GetAncestorError (get_ancestor s prev_block_index expected_checkpoint_height);
    enforce_checkpoint_impl expected_checkpoint_height expected_checkpoint_id
      (gen_block_id parent_checkpoint_block_index).

Definition check_block_height_vs_max_reorg_depth s (header : SignedBlockHeader) : checked unit :=
  prev_block_index ← map_err PropertyQueryError (prev_of_header s header);
  common_ancestor ← map_err PropertyQueryError (last_common_ancestor_in_main_chain s prev_block_index);
  let common_ancestor_height := gen_block_height common_ancestor in
  let min_allowed_height := get_min_height_with_allowed_reorg s in
  if ival common_ancestor_height <? ival min_allowed_height then
    tip ← map_err PropertyQueryError (get_best_block_index s);
    Err (AttemptedToAddBlockBeforeReorgLimit common_ancestor_height (gen_block_height tip) min_allowed_height)
  else Ok tt.

Definition check_block_parent s (block_header : SignedBlockHeader) : checked GenBlockIndex :=
  let parent_block_id := hdr_prev_block_id block_header in
  parent_block_index ← ok_or (ParentBlockMissing (header_id block_header) parent_block_id)
                         (get_gen_block_index s parent_block_id);
  status ← gen_status parent_block_index;
  parent_ok ← BlockStatus.is_ok status;
  _ ← ensure parent_ok (InvalidParent (header_id block_header) parent_block_id);
  Ok parent_block_index.

Definition skip_check_block_because_block_exists_and_is_checked s id : checked bool :=
  match get_block_index s id with
  | Some block_index =>
      let status := bi_status block_index in
      status_ok ← BlockStatus.is_ok status;
      if (status_ok : bool) then
        stage ← BlockStatus.last_valid_stage status;
        Ok (BlockValidationStage.leb BlockValidationStage.CheckBlockOk stage)
      else Err (InvalidBlockAlreadyProcessed id)
  | None => Ok false
  end.

Definition check_header_size (header : SignedBlockHeader) : checked unit :=
  let size := header_size header in
  ensure (size <=? max_block_header_size chain_config)%N
    (BlockSizeError (BlockSizeError.Header size (max_block_header_size chain_config))).

(** [ChainConfig::max_future_block_time_offset], in seconds. *)
Definition max_future_block_time_offset {E} height : result E Z :=
  match cfg_max_future_block_time_offset chain_config with
  | Some offset => Ok (ival offset)
  | None =>
      upgrade ← chainstate_upgrade_at chain_config height;
      Ok match htlc_activated upgrade with HtlcActivated.Yes => 30 | HtlcActivated.No => 120 end
  end.

Definition check_block_header_impl (current_time : BlockTimestamp) s (header : SignedBlockHeader) : checked unit :=
  parent_block_index ← check_block_parent s header;
  _ ← check_header_size header;
  _ ← enforce_checkpoints s header;
  _ ← check_block_height_vs_max_reorg_depth s header;
  _ ← map_err ConsensusVerificationFailed (validate_consensus (st_index s) (st_ledger s) header);
  median_time_past ← calculate_median_time_past chain_config (st_index s) (hdr_prev_block_id header);
  _ ← ensure (ival median_time_past <=? ival (hdr_timestamp header))
        (BlockTimeOrderInvalid (hdr_timestamp header) median_time_past);
  next ← BlockHeight.next_height (gen_block_height parent_block_index);
  max_future_offset ← max_future_block_time_offset next;
  ensure (ival (hdr_timestamp header) <=? ival current_time + max_future_offset)
    (BlockFromTheFuture (header_id header) (hdr_timestamp header) current_time).

Definition check_block_header (current_time : BlockTimestamp) s (header : SignedBlockHeader) : checked unit :=
  skip ← skip_check_block_because_block_exists_and_is_checked s (header_id header);
  if (skip : bool) then Ok tt else check_block_header_impl current_time s header.

Fixpoint tx_sizes (txs : list SignedTransaction) : N * N :=
  match txs with
  | [] => (0, 0)%N
  | tx :: txs =>
      let '(std, smart) := tx_sizes txs in
      match transaction_data_size tx with
      | ScriptedTransaction size => (std + size, smart)%N
      | SmartContractTransaction size => (std, smart + size)%N
      end
  end.

Definition check_block_size (block : TxVerifier.Block) : checked unit :=
  let '(from_txs, from_smart_contracts) := tx_sizes (transactions block) in
  _ ← check_header_size (block_header block);
  _ ← ensure (from_txs <=? max_block_size_with_standard_txs chain_config)%N
        (BlockSizeError (BlockSizeError.SizeOfTxs from_txs (max_block_size_with_standard_txs chain_config)));
  ensure (from_smart_contracts <=? max_block_size_with_smart_contracts chain_config)%N
    (BlockSizeError (BlockSizeError.SizeOfSmartContracts from_smart_contracts
                       (max_block_size_with_smart_contracts chain_config))).

(** [timelock_check::check_output_maturity_setting]. *)
Definition check_output_maturity_setting (tl : OutputTimeLock) (required : BlockCount) (outpoint : UtxoOutPoint) :
    result OutputMaturityError.OutputMaturityError unit :=
  match tl with
  | ForBlockCount given =>
      ensure (ival required <=? ival given)
        (OutputMaturityError.InvalidOutputMaturityDistance outpoint given required)
  | UntilHeight _ | UntilTime _ | ForSeconds _ => Err (OutputMaturityError.InvalidOutputMaturitySettingType outpoint)
  end.

(** [index as u32] truncates. *)
Definition check_reward_output (block : TxVerifier.Block) (index : nat) (output : TxOutput) : checked unit :=
  let lock required :=
    match output with
    | LockThenTransfer _ _ tl =>
        i ← expect (bint_of_Z (Z.of_nat index mod 2 ^ 32));
        map_err BlockRewardMaturityError (check_output_maturity_setting tl required
          {| op_source_id := SourceBlockReward (block_get_id block); op_output_index := i |})
    | _ => Err (InvalidBlockRewardOutputType (block_get_id block))
    end in
  match block_consensus_data block with
  | ConsensusNone => lock (empty_consensus_reward_maturity_block_count chain_config)
  | ConsensusPoW _ => lock (reward_maturity_distance (proof_of_work_config chain_config))
  | ConsensusPoS _ =>
      match output with
      | ProduceBlockFromStake _ _ => Ok tt
      | _ => Err (InvalidBlockRewardOutputType (block_get_id block))
      end
  end.
Fixpoint check_reward_outputs (block : TxVerifier.Block) (index : nat) (outputs : list TxOutput) : checked unit :=
  match outputs with
  | [] => Ok tt
  | output :: outputs => _ ← check_reward_output block index output; check_reward_outputs block (S index) outputs
  end.
Definition check_block_reward_maturity_settings (block : TxVerifier.Block) : checked unit :=
  check_reward_outputs block 0 (reward block).

Definition must_be_unique (input : TxInput) : bool :=
  match input with
  | InputUtxo _ | InputAccount _ | InputAccountCommand _ _ => true
  | InputOrderAccountCommand cmd =>
      match cmd with
      | OrderAccountCommand.FillOrder _ _ => false
      | OrderAccountCommand.FreezeOrder _ | OrderAccountCommand.ConcludeOrder _ => true
      end
  end.
Fixpoint check_unique_inputs id (block_unique_inputs ins : list TxInput) :
    result CheckBlockTransactionsError.CheckBlockTransactionsError unit :=
  match ins with
  | [] => Ok tt
  | input :: ins =>
      if must_be_unique input then
        _ ← ensure (negb (bool_decide (input ∈ block_unique_inputs)))
              (CheckBlockTransactionsError.DuplicateInputInBlock id);
        check_unique_inputs id (input :: block_unique_inputs) ins
      else check_unique_inputs id block_unique_inputs ins
  end.
Definition check_block_duplicate_inputs (block : TxVerifier.Block) :
    result CheckBlockTransactionsError.CheckBlockTransactionsError unit :=
  check_unique_inputs (block_get_id block) []
    (concat ((fun tx => inputs (transaction tx)) <$> transactions block)).

Fixpoint check_each_transaction height (txs : list SignedTransaction) :
    result CheckBlockTransactionsError.CheckBlockTransactionsError unit :=
  match txs with
  | [] => Ok tt
  | tx :: txs =>
      _ ← map_err CheckBlockTransactionsError.CheckTransactionError (check_transaction chain_config height tx);
      check_each_transaction height txs
  end.
Definition check_transactions (block : TxVerifier.Block) height :
    result CheckBlockTransactionsError.CheckBlockTransactionsError unit :=
  _ ← check_each_transaction height (transactions block);
  check_block_duplicate_inputs block.

Definition check_block (current_time : BlockTimestamp) s (block : TxVerifier.Block) : checked unit :=
  skip ← skip_check_block_because_block_exists_and_is_checked s (block_get_id block);
  if (skip : bool) then Ok tt
  else
    _ ← check_block_header_impl current_time s (block_header block);
    _ ← check_block_size block;
    _ ← check_block_reward_maturity_settings block;
    '(merkle_root, witness_merkle_root) ←
      ok_or (MerkleRootCalculationFailed (block_get_id block)) (merkle_roots block);
    _ ← ensure (bool_decide (hdr_tx_merkle_root (block_header block) = merkle_root)) MerkleRootMismatch;
    _ ← ensure (bool_decide (hdr_witness_merkle_root (block_header block) = witness_merkle_root)) MerkleRootMismatch;
    prev ← map_err PropertyQueryError (prev_of_header s (block_header block));
    next ← BlockHeight.next_height (gen_block_height prev);
    map_err CheckTransactionFailed (check_transactions block next).

(** ** Changes of the main chain *)

Abbreviation M := (ST (Store L) (BlockError L)).

Definition in_ledger (f : L -> result ledger_error L) : M unit := fun s =>
  match f (st_ledger s) with
  | Ok l => (with_ledger l s, Ok tt)
  | Err e => (s, Err (BlockError.StateUpdateFailed e))
  | Panic => (s, Panic)
  end.

Definition set_block_index bi : M unit := modify (fun s => with_index (<[bi_block_id bi := bi]> (st_index s)) s).
Definition set_new_block_index bi : M unit :=
  s ← self;
  _ ← lift (ensure (is_none (get_block_index s (bi_block_id bi))) (BlockError.BlockIndexAlreadyExists (bi_block_id bi)));
  set_block_index bi.
Definition persist_block (block : TxVerifier.Block) : M unit :=
  s ← self;
  _ ← lift (ensure (is_none (st_blocks s !! block_get_id block)) (BlockError.BlockAlreadyExists (block_get_id block)));
  modify (fun s => with_blocks (<[block_get_id block := block]> (st_blocks s)) s).
Definition del_block_index_of_non_persisted_block id : M unit :=
  s ← self;
  match get_block_index s id with
  | Some existing_block_index =>
      _ ← lift (assert_true (negb (bi_is_persisted existing_block_index)));
      modify (fun s => with_index (delete id (st_index s)) s)
  | None => mret tt
  end.
Definition update_block_status bi (block_status : BlockStatus) : M unit :=
  s ← self;
  _ ← lift (assert_true match get_block_index s (bi_block_id bi) with
                        | Some existing_block_index => bool_decide (existing_block_index = bi)
                        | None => true
                        end);
  set_block_index (with_status block_status bi).

Definition calc_min_height_with_allowed_reorg (current_tip_height : BlockHeight) : BlockHeight :=
  default BlockHeight.zero (BlockHeight.sub current_tip_height (max_depth_for_reorg chain_config)).
Definition update_min_height_with_allowed_reorg : M unit :=
  s ← self;
  let stored_min_height := get_min_height_with_allowed_reorg s in
  current_tip ← lift (map_err BlockError.BestBlockIndexQueryError (get_best_block_index s));
  let calculated_min_height := calc_min_height_with_allowed_reorg (gen_block_height current_tip) in
  let max_ := if ival stored_min_height <=? ival calculated_min_height
              then calculated_min_height else stored_min_height in
  modify (with_min_height (Some max_)).

Definition connect_transactions bi (block : TxVerifier.Block) : M unit :=
  s ← self;
  median_time_past ← lift (calculate_median_time_past chain_config (st_index s) (prev_block_id block));
  in_ledger (ledger_connect (st_index s) bi block median_time_past).
Definition disconnect_transactions (block : TxVerifier.Block) : M unit := in_ledger (ledger_disconnect block).

Definition connect_tip (current_time : BlockTimestamp) bi : M unit :=
  let block_status := bi_status bi in
  status_ok ← lift (BlockStatus.is_ok block_status);
  _ ← lift (ensure status_ok (BlockError.InvariantErrorAttemptToConnectInvalidBlock (bi_block_id bi)));
  s ← self;
  block ← lift (ok_or (BlockError.BlockDataMissingForValidBlockIndex (bi_block_id bi)) (st_blocks s !! bi_block_id bi));
  stage ← lift (BlockStatus.last_valid_stage block_status);
  block_status ←
    (if BlockValidationStage.leb BlockValidationStage.CheckBlockOk stage then mret block_status
     else
       _ ← lift (map_err BlockError.CheckBlockFailed (check_block current_time s block));
       lift (BlockStatus.advance_validation_stage_to block_status BlockValidationStage.CheckBlockOk));
  best_block_id ← lift (get_best_block_id s);
  _ ← lift (ensure (bool_decide (best_block_id = bi_prev_block_id bi))
              (BlockError.InvariantErrorInvalidTip (block_get_id block)));
  _ ← connect_transactions bi block;
  _ ← modify (fun s => with_by_height (<[bi_block_height bi := bi_block_id bi]> (st_by_height s)) s);
  _ ← modify (with_best_block (Some (bi_block_id bi)));
  _ ← (if bool_decide (stage = BlockValidationStage.FullyChecked) then mret tt
       else
         block_status ← lift (BlockStatus.advance_validation_stage_to block_status BlockValidationStage.FullyChecked);
         set_block_index (with_status block_status bi));
  in_ledger (ledger_post_connect bi block).

Definition disconnect_tip (expected_tip_block_id : option BlockId) : M GenBlockIndex :=
  s ← self;
  best_block_id ← lift (get_best_block_id s);
  best_block_id ← lift (expect (classify chain_config best_block_id));
  _ ← lift (assert_true match expected_tip_block_id with
                        | Some expected => bool_decide (expected = best_block_id)
                        | None => true
                        end);
  block_index ← lift (expect (get_block_index s best_block_id));
  block ← lift (expect (st_blocks s !! bi_block_id block_index));
  _ ← disconnect_transactions block;
  _ ← modify (with_best_block (Some (bi_prev_block_id block_index)));
  _ ← modify (fun s => with_by_height (delete (bi_block_height block_index) (st_by_height s)) s);
  s ← self;
  prev_block_index ← lift match prev_of_index s block_index with Ok p => Ok p | _ => Panic end;
  _ ← in_ledger (ledger_post_disconnect (gen_block_height prev_block_index));
  mret prev_block_index.

(** The loop of [disconnect_until]. *)
Fixpoint disconnect_until (fuel : nat) (block_id_to_disconnect last_to_remain_connected : BlockId) : M unit :=
  if bool_decide (block_id_to_disconnect = last_to_remain_connected) then mret tt
  else
    cur_block_id ← lift (expect (classify chain_config block_id_to_disconnect));
    match fuel with
    | O => lift Panic
    | S fuel =>
        previous_block_index ← disconnect_tip (Some cur_block_id);
        disconnect_until fuel (gen_block_id previous_block_index) last_to_remain_connected
    end.

Inductive ReorgError :=
  | ConnectTipFailed (id : BlockId) (e : BlockError L)
  | OtherError (e : BlockError L).

Fixpoint connect_chain (current_time : BlockTimestamp) (new_chain : list BlockIndex) : ST (Store L) ReorgError unit :=
  match new_chain with
  | [] => mret tt
  | block_index :: new_chain =>
      _ ← st_map_err (ConnectTipFailed (bi_block_id block_index)) (connect_tip current_time block_index);
      connect_chain current_time new_chain
  end.

(** The height of the best block bounds the number of blocks to disconnect. *)
Definition best_height s : nat :=
  match get_best_block_index s with Ok g => Z.to_nat (ival (gen_block_height g)) | _ => 0%nat end.

Definition reorganize (current_time : BlockTimestamp) (best_block_id : BlockId) (new_block_index : BlockIndex) :
    ST (Store L) ReorgError unit :=
  s ← self;
  new_chain ← lift (map_err (fun e => OtherError (BlockError.InvariantErrorFailedToFindNewChainPath
                                       (bi_block_id new_block_index) best_block_id e))
                      (get_new_chain s new_block_index));
  first_block ← lift (expect (head new_chain));
  let common_ancestor_id := bi_prev_block_id first_block in
  _ ← match classify chain_config best_block_id with
      | Some best_block_id =>
          st_map_err OtherError (disconnect_until (best_height s) best_block_id common_ancestor_id)
      | None => mret tt
      end;
  connect_chain current_time new_chain.

Definition uint_gt (a b : uint) : bool := match Uint.cmp a b with Gt => true | _ => false end.

Definition activate_best_chain (current_time : BlockTimestamp) (new_block_index : BlockIndex) :
    ST (Store L) ReorgError bool :=
  s ← self;
  current_best_block_index ←
    lift (map_err (fun e => OtherError (BlockError.BestBlockIndexQueryError e)) (get_best_block_index s));
  if uint_gt (bi_chain_trust new_block_index) (gen_chain_trust current_best_block_index) then
    _ ← reorganize current_time (gen_block_id current_best_block_index) new_block_index;
    mret true
  else mret false.
End chainstate_ref.

(** * Properties *)

(** What the ledger promises: it respects an equivalence, and disconnecting the
    block that was connected last leads back. *)
Class BlockLedgerLaws `{CryptoTypes} (L : Type) `{!BlockLedger L} := {
  ledger_equiv :: Equiv L;
  ledger_equivalence :: Equivalence (≡@{L});
  ledger_connect_proper idx bi b t l l' r : l ≡ l' -> ledger_connect idx bi b t l = Ok r ->
    exists r', ledger_connect idx bi b t l' = Ok r' /\ r ≡ r';
  ledger_post_connect_proper bi b l l' r : l ≡ l' -> ledger_post_connect bi b l = Ok r ->
    exists r', ledger_post_connect bi b l' = Ok r' /\ r ≡ r';
  ledger_disconnect_proper b l l' r : l ≡ l' -> ledger_disconnect b l = Ok r ->
    exists r', ledger_disconnect b l' = Ok r' /\ r ≡ r';
  ledger_post_disconnect_proper h l l' r : l ≡ l' -> ledger_post_disconnect h l = Ok r ->
    exists r', ledger_post_disconnect h l' = Ok r' /\ r ≡ r';
  ledger_connect_no_panic idx bi b t l : ledger_connect idx bi b t l <> Panic;
  ledger_post_connect_no_panic bi b l : ledger_post_connect bi b l <> Panic;
  ledger_reverts idx bi b t l l1 l2 h : ledger_connect idx bi b t l = Ok l1 -> ledger_post_connect bi b l1 = Ok l2 ->
    ival h + 1 = ival (bi_block_height bi) ->
    exists l3 l4, ledger_disconnect b l2 = Ok l3 /\ ledger_post_disconnect h l3 = Ok l4 /\ l4 ≡ l
}.

Section chain.
Context `{CryptoTypes} `{!TxHash} `{!TxParameters} `{!BlockHashes} `{TimeslotWeights} {L : Type} `{!BlockChecks L}.
Context `{!BlockLedger L} `{!BlockLedgerLaws L}.
Context (chain_config : ChainConfig) (chainstate_config : ChainstateConfig) (genesis_ledger : L).
Implicit Types (s : Store L) (id : BlockId) (bi : BlockIndex) (g p a : GenBlockIndex) (db : gmap BlockId BlockIndex).
Implicit Types (blocks : gmap BlockId TxVerifier.Block).
Import GenBlockIndex.
Abbreviation getter := (gen_block_index_getter chain_config).
Abbreviation follow := (follow chain_config).
Abbreviation wf_tree := (wf_tree chain_config).

(** [l] is the ledger after the blocks of the chain that ends in [id] were
    connected, one after the other, on the ledger of the genesis. *)
Inductive Connected db blocks : BlockId -> L -> Prop :=
  | Connected_genesis l : l ≡ genesis_ledger -> Connected db blocks (genesis_block_id chain_config) l
  | Connected_block idx bi bi0 b t l l1 l2 l' :
      Connected db blocks (bi_prev_block_id bi) l ->
      db !! bi_block_id bi = Some bi0 -> core bi0 = core bi -> blocks !! bi_block_id bi = Some b ->
      calculate_median_time_past (E := Empty_set) chain_config idx (bi_prev_block_id bi) = Ok t ->
      ledger_connect idx bi b t l = Ok l1 -> ledger_post_connect bi b l1 = Ok l2 -> l' ≡ l2 ->
      Connected db blocks (bi_block_id bi) l'.

Lemma Connected_mono db db' blocks blocks' id l : Connected db blocks id l ->
  (forall x bi, db !! x = Some bi -> is_Some (blocks !! x) -> exists bi', db' !! x = Some bi' /\ core bi' = core bi) ->
  blocks ⊆ blocks' -> Connected db' blocks' id l.
Proof.
  intros Hc Hext Hsub. induction Hc as [|idx bi bi0 b t l l1 l2 l' _ IH Hdb Hcore Hb Ht Hl1 Hl2 Heq]; [by constructor|].
  destruct (Hext _ _ Hdb) as (bi' & Hdb' & Hcore'); [eauto|].
  eapply Connected_block; [done|done|congruence|by eapply lookup_weaken|done..].
Qed.

Lemma Connected_equiv db blocks id l l' : Connected db blocks id l -> l' ≡ l -> Connected db blocks id l'.
Proof.
  intros Hc Heq. destruct Hc; [constructor; by transitivity l|].
  eapply Connected_block; [done..|]. by etransitivity.
Qed.

(** The main chain ends in [g]: the map of heights lists the ancestors of [g],
    which are fully valid and stored, and the ledger is what connecting them
    gives. *)
Record chain_ok s g : Prop := {
  ck_tree : wf_tree (st_index s);
  ck_best_id : st_best_block s = Some (gen_block_id g);
  ck_best : getter (st_index s) (gen_block_id g) = Some g;
  ck_by_height h : st_by_height s !! h =
    if ival h <=? ival (gen_block_height g)
    then gen_block_id <$> follow (st_index s) (Z.to_nat (ival (gen_block_height g) - ival h)) g else None;
  ck_valid n b : follow (st_index s) n g = Some (Block b) ->
    ok (bi_status b) = true /\ stage (bi_status b) = Some BlockValidationStage.FullyChecked /\ bi_is_persisted b = true;
  ck_blocks id b : st_blocks s !! id = Some b ->
    exists bi, st_index s !! id = Some bi /\ block_header b = bi_block_header bi;
  ck_connected : Connected (st_index s) (st_blocks s) (gen_block_id g) (st_ledger s)
}.

Section in_chain.
Context (s : Store L) (g : GenBlockIndex) (Hok : chain_ok s g).

Lemma chain_linked : gen_linked chain_config (st_index s) g.
Proof. apply (getter_linked chain_config _ (ck_tree _ _ Hok) _ _ (ck_best _ _ Hok)). Qed.

(** The ancestors of the tip. *)
Lemma chain_ancestor n : Z.of_nat n <= ival (gen_block_height g) ->
  exists a, follow (st_index s) n g = Some a /\ getter (st_index s) (gen_block_id a) = Some a /\
    gen_linked chain_config (st_index s) a /\ ival (gen_block_height a) = ival (gen_block_height g) - Z.of_nat n.
Proof.
  intros Hn. destruct (follow_exists chain_config _ (ck_tree _ _ Hok) n g chain_linked Hn) as (a & Hf & Hl & Hh & _ & Hst).
  exists a. split; [done|]. split; [apply Hst, (ck_best _ _ Hok)|done].
Qed.
End in_chain.

(** Following parents goes at most to the genesis. *)
Lemma follow_bound db n g a : wf_tree db -> gen_linked chain_config db g -> follow db n g = Some a ->
  Z.of_nat n <= ival (gen_block_height g).
Proof.
  intros Hwf. revert g. induction n as [|n IH]; intros g Hg Hf.
  { pose proof (bint_range (gen_block_height g)). lia. }
  destruct g as [bi|]; [|done]. destruct (linked_prev chain_config db Hwf bi Hg) as (p & Hp & Hlp & _ & Hc).
  rewrite (follow_step chain_config db bi p) in Hf by done. apply IH in Hf; [|done].
  pose proof (cont_height _ _ _ _ Hc). simpl. lia.
Qed.

(** Changing the index of a block that is not an ancestor. *)
Lemma follow_avoid db id bi n g : wf_tree db -> gen_linked chain_config db g ->
  (forall m b, (0 < m)%nat -> follow db m g = Some (Block b) -> bi_block_id b <> id) ->
  follow (<[id := bi]> db) n g = follow db n g.
Proof.
  intros Hwf. revert g. induction n as [|n IH]; intros g Hg Havoid; [done|].
  destruct g as [b|]; [|done]. destruct (linked_prev chain_config db Hwf b Hg) as (p & Hp & Hlp & Hpid & _). simpl.
  assert (getter (<[id := bi]> db) (bi_prev_block_id b) = Some p) as Hp'.
  { destruct (getter_inv _ _ _ _ Hp) as [[Hg' ->]|(Hne & b' & -> & Hb')]; [rewrite Hg'; apply getter_genesis|].
    apply getter_block; [|done]. rewrite lookup_insert_ne; [done|]. intros Hid.
    eapply (Havoid 1%nat b'); [lia|simpl; by rewrite Hp|by rewrite Hid]. }
  rewrite Hp, Hp'. simpl. apply IH; [done|]. intros m b' Hm Hf. apply (Havoid (S m)); [lia|]. simpl. by rewrite Hp.
Qed.

(** ** Disconnecting the tip *)

Lemma in_ledger_Ok (f : L -> result ledger_error L) s l :
  f (st_ledger s) = Ok l -> in_ledger f s = (with_ledger l s, Ok tt).
Proof. intros Hf. unfold in_ledger. by rewrite Hf. Qed.

Lemma Connected_stored db blocks id l : Connected db blocks id l -> id <> genesis_block_id chain_config ->
  is_Some (blocks !! id).
Proof. intros [] Hne; [done|eauto]. Qed.

Lemma Connected_inv db blocks bi b l h : Connected db blocks (bi_block_id bi) l ->
  db !! bi_block_id bi = Some bi -> bi_block_id bi <> genesis_block_id chain_config ->
  blocks !! bi_block_id bi = Some b -> ival h + 1 = ival (bi_block_height bi) ->
  exists l3 l4, ledger_disconnect b l = Ok l3 /\ ledger_post_disconnect h l3 = Ok l4 /\
    Connected db blocks (bi_prev_block_id bi) l4.
Proof.
  intros Hc Hdb Hne Hb Hh. inversion Hc as [l0 Hl0 Hid|idx bi' bi0 b' t l0 l1 l2 l' Hprev Hdb' Hcore Hb' Ht Hl1 Hl2 Heq Hid Hl].
  - done.
  - subst l'. rewrite Hid in *. rewrite Hdb in Hdb'. injection Hdb' as <-.
    rewrite Hb in Hb'. injection Hb' as <-.
    assert (bi_block_height bi' = bi_block_height bi /\ bi_prev_block_id bi' = bi_prev_block_id bi) as [Hht Hpr].
    { apply eq_sym in Hcore. by apply core_facts in Hcore as (_ & Hpr & Hht & _). }
    destruct (ledger_reverts idx bi' b t l0 l1 l2 h) as (l3 & l4 & Hd3 & Hd4 & Heq4); [done|done|by rewrite Hht|].
    destruct (ledger_disconnect_proper b l2 l l3) as (l3' & Hd3' & Heq3); [by symmetry|done|].
    destruct (ledger_post_disconnect_proper h l3 l3' l4) as (l4' & Hd4' & Heq4'); [done|done|].
    exists l3', l4'. split; [done|]. split; [done|]. rewrite <- Hpr. eapply Connected_equiv; [done|].
    by rewrite <- Heq4'.
Qed.

Lemma chain_block s bi : chain_ok s (Block bi) -> st_index s !! bi_block_id bi = Some bi /\
  bi_block_id bi <> genesis_block_id chain_config.
Proof.
  intros Hok. destruct (getter_inv _ _ _ _ (ck_best _ _ Hok)) as [[? [=]]|(Hne & b & [= ->] & Hb)]. done.
Qed.

(** Disconnecting the tip makes its parent the tip. *)
Lemma disconnect_tip_spec s bi : chain_ok s (Block bi) ->
  exists s' p, disconnect_tip chain_config (Some (bi_block_id bi)) s = (s', Ok p) /\
    getter (st_index s) (bi_prev_block_id bi) = Some p /\ chain_ok s' p /\
    st_index s' = st_index s /\ st_blocks s' = st_blocks s /\ st_min_height s' = st_min_height s.
Proof.
  intros Hok. destruct (chain_block s bi Hok) as [Hbi Hne]. pose proof (chain_linked s _ Hok) as Hl. simpl in Hl.
  destruct (linked_prev chain_config _ (ck_tree _ _ Hok) bi Hl) as (p & Hp & Hlp & Hpid & Hcont).
  pose proof (cont_height _ _ _ _ Hcont) as Hh.
  pose proof (ck_connected _ _ Hok) as Hconn. simpl in Hconn.
  destruct (Connected_stored _ _ _ _ Hconn Hne) as [b Hb].
  destruct (Connected_inv _ _ bi b _ (gen_block_height p) Hconn Hbi Hne Hb) as (l3 & l4 & Hd3 & Hd4 & Hc4); [lia|].
  unfold disconnect_tip, get_best_block_id, self. rewrite (st_bind_run _ _ s s s) by done.
  rewrite (ck_best_id _ _ Hok). cbn [gen_block_id expect].
  rewrite (st_bind_run _ _ s s (bi_block_id bi)) by done.
  unfold classify. rewrite bool_decide_false by done. rewrite (st_bind_run _ _ s s (bi_block_id bi)) by done.
  rewrite bool_decide_true by done. rewrite (st_bind_run _ _ s s tt) by done.
  unfold get_block_index. rewrite Hbi. rewrite (st_bind_run _ _ s s bi) by done. rewrite Hb.
  rewrite (st_bind_run _ _ s s b) by done.
  unfold disconnect_transactions. erewrite st_bind_run by (by apply in_ledger_Ok).
  do 3 (erewrite st_bind_run by done). cbn -[gen_block_index_getter].
  unfold prev_of_index, get_previous_block_index, get_gen_block_index. cbn -[gen_block_index_getter].
  rewrite Hp. cbn [ok_or]. erewrite st_bind_run by done. erewrite st_bind_run by (by apply in_ledger_Ok).
  eexists _, p. split; [done|]. split; [done|]. split; [|done].
  split; cbn -[gen_block_index_getter].
  - apply (ck_tree _ _ Hok).
  - by rewrite Hpid.
  - by rewrite Hpid.
  - intros h. rewrite lookup_delete, (ck_by_height _ _ Hok h). cbn [gen_block_height].
    destruct (decide _) as [<-|Hnh]; [by replace (_ <=? _) with false by lia|].
    assert (ival h <> ival (bi_block_height bi)) by (intros Heq; by apply Hnh, bint_eq).
    destruct (Z.leb_spec (ival h) (ival (bi_block_height bi))), (Z.leb_spec (ival h) (ival (gen_block_height p))); [|lia..|done].
    replace (Z.to_nat (ival (bi_block_height bi) - ival h)) with (S (Z.to_nat (ival (gen_block_height p) - ival h))) by lia.
    by rewrite (follow_step chain_config _ bi p).
  - intros n b' Hf. apply (ck_valid _ _ Hok (S n)). by rewrite (follow_step chain_config _ bi p).
  - apply (ck_blocks _ _ Hok).
  - by rewrite Hpid.
Qed.
 
(** Disconnecting down to an ancestor. *)
Lemma disconnect_until_spec fuel s g n a : chain_ok s g -> follow (st_index s) n g = Some a -> (n <= fuel)%nat ->
  exists s', disconnect_until chain_config fuel (gen_block_id g) (gen_block_id a) s = (s', Ok tt) /\ chain_ok s' a /\
    st_index s' = st_index s /\ st_blocks s' = st_blocks s /\ st_min_height s' = st_min_height s.
Proof.
  revert s g n. induction fuel as [|fuel IH]; intros s g n Hok Hf Hn; cbn [disconnect_until].
  { destruct n; [|lia]. injection Hf as <-. rewrite bool_decide_true by done. exists s. split_and!; done. }
  pose proof (chain_linked s g Hok) as Hl.
  pose proof (follow_bound _ _ _ _ (ck_tree _ _ Hok) Hl Hf) as Hb.
  destruct (chain_ancestor s g Hok n Hb) as (a' & Hf' & Ha & _ & Hha). rewrite Hf in Hf'. injection Hf' as <-.
  case_bool_decide as Hid.
  { pose proof (ck_best _ _ Hok) as Hg. rewrite Hid, Ha in Hg. injection Hg as <-. exists s. split_and!; done. }
  destruct n as [|n]; [injection Hf as <-; done|]. destruct g as [bi|]; [|done]. simpl in Hid.
  destruct (chain_block s bi Hok) as [Hbi Hne].
  unfold classify. rewrite bool_decide_false by done. cbn [gen_block_id expect].
  rewrite (st_bind_run _ _ s s (bi_block_id bi)) by done.
  destruct (disconnect_tip_spec s bi Hok) as (s1 & p & Hrun & Hp & Hok1 & Hidx & Hblk & Hmin).
  rewrite (st_bind_run _ _ s s1 p) by done.
  rewrite (follow_step chain_config _ bi p) in Hf by done. rewrite <- Hidx in Hf.
  destruct (IH s1 p n Hok1 Hf) as (s2 & Hrun2 & Hok2 & Hidx2 & Hblk2 & Hmin2); [lia|].
  exists s2. split; [done|]. split; [done|]. split; [congruence|]. split; congruence.
Qed.

(** ** Connecting a block on the tip *)

Lemma median_time_exists {E} db id g : getter db id = Some g ->
  exists t, @calculate_median_time_past _ chain_config db E id = Ok t /\
            @calculate_median_time_past _ chain_config db Empty_set id = Ok t.
Proof.
  intros Hg. unfold calculate_median_time_past, calculate_median_time_past_from_blocktimestamps.
  set (l := gen_block_timestamp <$> history _ _ _ _).
  assert (l <> []) as Hl by (unfold l, MEDIAN_TIME_SPAN; simpl; by rewrite Hg).
  assert (length (merge_sort key_le l) / 2 < length (merge_sort key_le l))%nat as Hlt.
  { rewrite (Permutation_length (merge_sort_Permutation key_le l)). destruct l; [done|]. apply Nat.div_lt; simpl; lia. }
  apply lookup_lt_is_Some in Hlt as [t Ht]. exists t. by rewrite Ht.
Qed.

(** An index of a block on the tip [p], with a new status, as the new tip. *)
Lemma chain_extend s p bi bi' b t l1 l2 s' : chain_ok s p ->
  st_index s !! bi_block_id bi = Some bi -> bi_prev_block_id bi = gen_block_id p ->
  core bi' = core bi -> ok (bi_status bi') = true ->
  stage (bi_status bi') = Some BlockValidationStage.FullyChecked -> bi_is_persisted bi' = true ->
  st_blocks s !! bi_block_id bi = Some b ->
  calculate_median_time_past (E := Empty_set) chain_config (st_index s) (bi_prev_block_id bi) = Ok t ->
  ledger_connect (st_index s) bi b t (st_ledger s) = Ok l1 -> ledger_post_connect bi b l1 = Ok l2 ->
  s' = mk_store (<[bi_block_id bi := bi']> (st_index s)) (st_blocks s)
         (<[bi_block_height bi := bi_block_id bi]> (st_by_height s)) (Some (bi_block_id bi)) (st_min_height s) l2 ->
  chain_ok s' (Block bi').
Proof.
  intros Hok Hbi Hprev Hcore Hst Hstage Hper Hb Ht Hl1 Hl2 ->.
  destruct (core_facts _ _ Hcore) as (Hid & Hpr & Hht & Hhdr & _). pose proof (ck_tree _ _ Hok) as Hwf.
  destruct (Hwf _ _ Hbi) as [_ Hl]. pose proof (linked_id _ _ _ Hl) as Hne.
  destruct (linked_prev chain_config _ Hwf bi Hl) as (p' & Hp & Hlp & Hpid & Hcont).
  assert (p' = p) as -> by (rewrite Hprev, (ck_best _ _ Hok) in Hp; congruence).
  pose proof (cont_height _ _ _ _ Hcont) as Hh.
  assert (forall m c, follow (st_index s) m p = Some (Block c) -> bi_block_id c <> bi_block_id bi) as Havoid.
  { intros m c Hf Heq. pose proof (follow_bound _ _ _ _ Hwf Hlp Hf) as Hm.
    destruct (chain_ancestor s p Hok m Hm) as (c' & Hf' & Hc' & _ & Hhc). rewrite Hf in Hf'. injection Hf' as <-.
    simpl in Hc'. rewrite Heq, (getter_block _ _ _ bi) in Hc' by done. injection Hc' as ->. simpl in Hhc. lia. }
  set (db' := <[bi_block_id bi := bi']> (st_index s)).
  assert (forall old, st_index s !! bi_block_id bi' = Some old -> core bi' = core old) as Hold
    by (rewrite Hid, Hbi; by intros old [= <-]).
  assert (wf_tree db') as Hwf'.
  { unfold db'. rewrite <- Hid. apply wf_tree_insert; [done| |done].
    eapply extends_linked; [apply extends_refl|done|done]. }
  assert (extends (st_index s) db') as Hext by (unfold db'; rewrite <- Hid; by apply extends_insert).
  assert (getter db' (bi_block_id bi') = Some (Block bi')) as Hg'
    by (apply getter_block; [unfold db'; by rewrite Hid, lookup_insert_eq|by rewrite Hid]).
  assert (getter db' (bi_prev_block_id bi') = Some p) as Hp'.
  { rewrite Hpr, Hprev. destruct (getter_inv _ _ _ _ (ck_best _ _ Hok)) as [[-> ->]|(Hne' & c & -> & Hc)];
      [apply getter_genesis|]. apply getter_block; [|done]. unfold db'. rewrite lookup_insert_ne; [done|].
    intros Heq. by apply (Havoid 0%nat c). }
  assert (forall n, follow db' n p = follow (st_index s) n p) as Hfol
    by (intros n; apply follow_avoid; [done..|]; intros m c _; apply Havoid).
  split; cbn -[gen_block_index_getter].
  - done.
  - by rewrite Hid.
  - done.
  - intros h. rewrite lookup_insert. destruct (decide _) as [<-|Hnh].
    { rewrite Hht, Z.sub_diag, (proj2 (Z.leb_le _ _)) by lia. simpl. by rewrite Hid. }
    assert (ival h <> ival (bi_block_height bi)) by (intros Heq; by apply Hnh, bint_eq).
    rewrite (ck_by_height _ _ Hok h), Hht. pose proof (bint_range h).
    destruct (Z.leb_spec (ival h) (ival (bi_block_height bi))), (Z.leb_spec (ival h) (ival (gen_block_height p))); [|lia..|done].
    replace (Z.to_nat (ival (bi_block_height bi) - ival h)) with (S (Z.to_nat (ival (gen_block_height p) - ival h))) by lia.
    by rewrite (follow_step chain_config _ bi' p), Hfol.
  - intros [|n] c Hf; [by injection Hf as <-|].
    rewrite (follow_step chain_config _ bi' p), Hfol in Hf by done. by apply (ck_valid _ _ Hok n).
  - intros x c Hc. destruct (ck_blocks _ _ Hok x c Hc) as (bx & Hbx & Hhd).
    destruct (Hext _ _ Hbx) as (bx' & Hbx' & Hcx). exists bx'. split; [done|].
    apply core_facts in Hcx as (_ & _ & _ & -> & _). done.
  - rewrite Hid. eapply (Connected_block _ _ (st_index s) bi bi'); [| |done..].
    + rewrite Hprev. eapply Connected_mono; [apply (ck_connected _ _ Hok)|by intros x c Hc _; apply Hext|done].
    + apply lookup_insert_eq.
Qed.

(** The best block is known, also after a failed attempt to connect blocks. *)
Definition best_known s : Prop := exists g, get_best_block_index chain_config s = Ok g.

Lemma best_known_intro s id g : st_best_block s = Some id -> getter (st_index s) id = Some g -> best_known s.
Proof.
  intros Hb Hg. exists g. unfold get_best_block_index, get_best_block_id, get_gen_block_index.
  rewrite Hb. cbn [expect mbind result_bind]. by rewrite Hg.
Qed.
Lemma chain_ok_best_known s g : chain_ok s g -> best_known s.
Proof. intros Hok. eapply best_known_intro; [apply (ck_best_id _ _ Hok)|apply (ck_best _ _ Hok)]. Qed.

(** What [connect_tip] does, for a block that was checked and stored. *)
Lemma connect_tip_spec now s p bi st : chain_ok s p ->
  st_index s !! bi_block_id bi = Some bi -> bi_prev_block_id bi = gen_block_id p ->
  bi_is_persisted bi = true -> stage (bi_status bi) = Some st ->
  BlockValidationStage.leb BlockValidationStage.CheckBlockOk st = true ->
  match connect_tip chain_config chainstate_config now bi s with
  | (s', Ok _) => ok (bi_status bi) = true /\ exists bi', core bi' = core bi /\ bi_is_persisted bi' = true /\
      st_index s' = <[bi_block_id bi := bi']> (st_index s) /\ chain_ok s' (Block bi') /\
      st_blocks s' = st_blocks s /\ st_min_height s' = st_min_height s
  | (s', Err _) => best_known s'
  | (_, Panic) => False
  end.
Proof.
  intros Hok Hbi Hprev Hper Hstage Hchk. unfold connect_tip. rewrite is_ok_spec.
  rewrite (st_bind_run _ _ s s (ok (bi_status bi))) by done.
  destruct (ok (bi_status bi)) eqn:Hst; [|by apply (chain_ok_best_known s p)]. rewrite (st_bind_run _ _ s s tt) by done.
  rewrite (st_bind_run _ _ s s s) by done.
  destruct (st_blocks s !! bi_block_id bi) as [b|] eqn:Hb; [|by apply (chain_ok_best_known s p)].
  rewrite (st_bind_run _ _ s s b) by done.
  rewrite last_valid_stage_spec, Hstage. rewrite (st_bind_run _ _ s s st) by done.
  rewrite Hchk. rewrite (st_bind_run _ _ s s (bi_status bi)) by done.
  unfold get_best_block_id. rewrite (ck_best_id _ _ Hok). rewrite (st_bind_run _ _ s s (gen_block_id p)) by done.
  rewrite (bool_decide_true (gen_block_id p = bi_prev_block_id bi)) by done. rewrite (st_bind_run _ _ s s tt) by done.
  destruct (ck_blocks _ _ Hok _ _ Hb) as (bi0 & Hbi0 & Hhdr). rewrite Hbi in Hbi0. injection Hbi0 as <-.
  assert (prev_block_id b = bi_prev_block_id bi) as Hpb by (unfold prev_block_id, bi_prev_block_id; by rewrite Hhdr).
  destruct (median_time_exists (E := BlockError L) (st_index s) (bi_prev_block_id bi) p) as (t & Ht & Ht0);
    [rewrite Hprev; apply (ck_best _ _ Hok)|].
  unfold connect_transactions. rewrite Hpb.
  destruct (ledger_connect (st_index s) bi b t (st_ledger s)) as [l1|e|] eqn:Hl1.
  2: { erewrite st_bind_fail; [by apply (chain_ok_best_known s p)|]. erewrite st_bind_run by done. rewrite Ht.
       erewrite st_bind_run by done. unfold in_ledger. by rewrite Hl1. }
  2: { by apply ledger_connect_no_panic in Hl1. }
  erewrite st_bind_run; [|erewrite st_bind_run by done; rewrite Ht; erewrite st_bind_run by done; by apply in_ledger_Ok].
  do 2 (erewrite st_bind_run by done).
  assert (exists bi', core bi' = core bi /\ bi_is_persisted bi' = true /\ ok (bi_status bi') = true /\
    stage (bi_status bi') = Some BlockValidationStage.FullyChecked /\
    (if bool_decide (st = BlockValidationStage.FullyChecked) then mret tt
     else block_status ← lift (BlockStatus.advance_validation_stage_to (bi_status bi) BlockValidationStage.FullyChecked);
          set_block_index (with_status block_status bi)) (mk_store (st_index s) (st_blocks s)
         (<[bi_block_height bi := bi_block_id bi]> (st_by_height s)) (Some (bi_block_id bi)) (st_min_height s) l1) =
    (mk_store (<[bi_block_id bi := bi']> (st_index s)) (st_blocks s)
         (<[bi_block_height bi := bi_block_id bi]> (st_by_height s)) (Some (bi_block_id bi)) (st_min_height s) l1,
     Ok tt : result (BlockError L) unit)) as (bi' & Hcore & Hper' & Hok' & Hst' & Hrun).
  { case_bool_decide as Hfull.
    - exists bi. split_and!; [done..|congruence|]. rewrite (insert_id (st_index s)) by done. done.
    - destruct (advance_validation_stage_to_spec (E := BlockError L) (bi_status bi) st BlockValidationStage.FullyChecked)
        as (x & Hx & Hxok & Hxst); [done|by destruct st|].
      exists (with_status x bi). rewrite Hx. split_and!; [by destruct bi|by destruct bi|by rewrite <- Hst, <- Hxok|done|].
      erewrite st_bind_run by done. done. }
  erewrite st_bind_run by apply Hrun.
  destruct (ledger_post_connect bi b l1) as [l2|e|] eqn:Hl2.
  2: { unfold in_ledger. cbn. rewrite Hl2. eapply best_known_intro; [done|]. cbn. apply getter_block; [apply lookup_insert_eq|].
       by destruct (ck_tree _ _ Hok _ _ Hbi) as [_ []]. }
  2: { by apply ledger_post_connect_no_panic in Hl2. }
  rewrite (in_ledger_Ok _ _ l2) by done. split; [done|]. exists bi'. split_and!; [done..| |done|done].
  eapply (chain_extend s p bi bi' b t l1 l2); done.
Qed.

(** ** The path to a new tip *)

Fixpoint path s (parent : BlockId) (l : list BlockIndex) : Prop :=
  match l with
  | [] => True
  | b :: l => st_index s !! bi_block_id b = Some b /\ bi_prev_block_id b = parent /\ path s (bi_block_id b) l
  end.

Lemma main_chain_iff s g id : chain_ok s g ->
  is_block_in_main_chain chain_config s id = true <->
  exists n a, follow (st_index s) n g = Some a /\ gen_block_id a = id.
Proof.
  intros Hok. unfold is_block_in_main_chain, get_block_height_in_main_chain, classify.
  pose proof (chain_linked s g Hok) as Hl. pose proof (ck_tree _ _ Hok) as Hwf.
  pose proof (bint_range (gen_block_height g)) as Hrg. case_bool_decide as Hgen.
  - split; [intros _|done]. exists (Z.to_nat (ival (gen_block_height g))).
    destruct (chain_ancestor s g Hok (Z.to_nat (ival (gen_block_height g)))) as (a & Hf & Ha & Hla & Hh); [lia|].
    exists a. split; [done|]. destruct a as [b|i tm]; [|simpl in Hla; injection Hla as -> ->; done].
    destruct (linked_prev chain_config _ Hwf b Hla) as (p & _ & _ & _ & Hc). apply cont_height in Hc.
    pose proof (bint_range (gen_block_height p)). simpl in Hh. lia.
  - unfold get_block_index, get_block_id_by_height. split.
    + destruct (st_index s !! id) as [bi|] eqn:Hbi; [|done]. case_bool_decide as Hh; [|done]. intros _.
      rewrite (ck_by_height _ _ Hok) in Hh.
      destruct (Z.leb_spec (ival (bi_block_height bi)) (ival (gen_block_height g))); [|done].
      destruct (follow _ _ g) as [a|] eqn:Hf; [|done]. injection Hh as Hh. eauto.
    + intros (n & a & Hf & Ha). pose proof (follow_bound _ _ _ _ Hwf Hl Hf) as Hn.
      destruct (chain_ancestor s g Hok n Hn) as (a' & Hf' & Hst & _ & Hha). rewrite Hf in Hf'. injection Hf' as <-.
      rewrite Ha in Hst. destruct (getter_inv _ _ _ _ Hst) as [[? _]|(_ & b & -> & Hb)]; [done|]. rewrite Hb.
      simpl in Hha. rewrite (ck_by_height _ _ Hok). rewrite (proj2 (Z.leb_le _ _)) by lia.
      replace (Z.to_nat _) with n by lia. rewrite Hf. simpl in *. by rewrite Ha, bool_decide_true.
Qed.

Lemma path_heights s parent l b : wf_tree (st_index s) -> path s (bi_block_id parent) l ->
  st_index s !! bi_block_id parent = Some parent -> b ∈ l ->
  ival (bi_block_height parent) < ival (bi_block_height b).
Proof.
  intros Hwf. revert parent. induction l as [|c l IH]; intros parent Hp Hpar Hb; [by apply not_elem_of_nil in Hb|].
  destruct Hp as (Hc & Hprev & Hp). destruct (Hwf _ _ Hc) as [_ Hl]. pose proof (linked_id _ _ _ Hl) as _.
  destruct (linked_prev chain_config _ Hwf c Hl) as (p & Hgp & _ & _ & Hcont). apply cont_height in Hcont.
  destruct (Hwf _ _ Hpar) as [_ Hlp]. rewrite Hprev, (getter_block _ _ _ parent) in Hgp by (by destruct Hlp).
  injection Hgp as <-. simpl in Hcont. apply elem_of_cons in Hb as [->|Hb]; [lia|]. pose proof (IH c Hp Hc Hb). lia.
Qed.

(** The walk to the main chain finds a path from a block of it. *)
Lemma new_chain_walk_spec fuel s g bi acc : chain_ok s g -> st_index s !! bi_block_id bi = Some bi ->
  (Z.to_nat (ival (bi_block_height bi)) <= fuel)%nat -> path s (bi_block_id bi) acc ->
  exists l n a, new_chain_walk chain_config fuel s bi acc = Ok (l ++ acc) /\ follow (st_index s) n g = Some a /\
    path s (gen_block_id a) (l ++ acc) /\
    Forall (fun b => is_block_in_main_chain chain_config s (bi_block_id b) = false) l /\
    if is_block_in_main_chain chain_config s (bi_block_id bi) then l = [] else last l = Some bi.
Proof.
  intros Hok. pose proof (ck_tree _ _ Hok) as Hwf. revert bi acc.
  induction fuel as [|fuel IH]; intros bi acc Hbi Hfuel Hpath;
    destruct (Hwf _ _ Hbi) as [_ Hl]; destruct (linked_prev chain_config _ Hwf bi Hl) as (p & Hp & Hlp & Hpid & Hcont);
    apply cont_height in Hcont; pose proof (bint_range (gen_block_height p)); [lia|].
  cbn [new_chain_walk]. destruct (is_block_in_main_chain chain_config s (bi_block_id bi)) eqn:Hmain.
  { apply (main_chain_iff s g _ Hok) in Hmain as (n & a & Hf & Ha). exists [], n, a. rewrite Ha. by split_and!. }
  unfold prev_of_index, get_previous_block_index, get_gen_block_index. rewrite Hp. cbn [ok_or mbind result_bind].
  destruct p as [c|i tm].
  - destruct (getter_inv _ _ _ _ Hp) as [[_ [=]]|(_ & c' & [= <-] & Hc)]. simpl in Hpid, Hcont. rewrite <- Hpid in Hc.
    destruct (IH c (bi :: acc) Hc) as (l & n & a & Hrun & Hf & Hpa & Hall & Hlast); [lia|done|].
    exists (l ++ [bi]), n, a. rewrite <- app_assoc. simpl. split; [done|]. split; [done|]. split; [done|].
    split; [apply Forall_app; by repeat constructor|]. by rewrite last_snoc.
  - destruct (getter_inv _ _ _ _ Hp) as [[Hg [= -> ->]]|(_ & c' & [=] & _)].
    destruct (proj1 (main_chain_iff s g (genesis_block_id chain_config) Hok)) as (n & a & Hf & Ha).
    { unfold is_block_in_main_chain, get_block_height_in_main_chain, classify. by rewrite bool_decide_true. }
    exists [bi], n, a. split; [done|]. split; [done|]. simpl. rewrite Ha, Hg. split; [done|]. split; [by repeat constructor|done].
Qed.

(** ** The indices of all blocks *)

Abbreviation stage_le a b := (BlockValidationStage.leb a b = true).

(** What is known of the indices of the main chain and of all others: they have
    a stage; a block is stored exactly when its index says so, with its header,
    and was checked then; an index without a block is marked as failed; and a
    parent is stored, not failed and as far validated as its children are. *)
Record index_ok s : Prop := {
  ix_stage id bi : st_index s !! id = Some bi -> is_Some (stage (bi_status bi));
  ix_persisted id bi : st_index s !! id = Some bi -> bi_is_persisted bi = true <-> is_Some (st_blocks s !! id);
  ix_failed id bi : st_index s !! id = Some bi -> bi_is_persisted bi = false -> ok (bi_status bi) = false;
  ix_checked id bi st : st_index s !! id = Some bi -> bi_is_persisted bi = true -> stage (bi_status bi) = Some st ->
    stage_le BlockValidationStage.CheckBlockOk st;
  ix_parent id bi pbi : st_index s !! id = Some bi -> st_index s !! bi_prev_block_id bi = Some pbi ->
    bi_prev_block_id bi <> genesis_block_id chain_config ->
    (bi_is_persisted bi = true -> bi_is_persisted pbi = true) /\
    (ok (bi_status bi) = true -> ok (bi_status pbi) = true) /\
    (forall st pst, stage (bi_status bi) = Some st -> stage (bi_status pbi) = Some pst -> stage_le st pst);
  ix_block_id id b : st_blocks s !! id = Some b -> block_get_id b = id
}.

(** [s'] has the blocks of [s], with stages that may be later. *)
Definition advanced s s' : Prop :=
  st_blocks s' = st_blocks s /\ st_min_height s' = st_min_height s /\
  forall id, match st_index s !! id, st_index s' !! id with
             | Some b, Some b' => core b' = core b /\ bi_is_persisted b' = bi_is_persisted b /\
                                  ok (bi_status b') = ok (bi_status b)
             | None, None => True
             | _, _ => False
             end.

Lemma advanced_refl s : advanced s s.
Proof. split_and!; [done..|]. intros id. by destruct (st_index s !! id). Qed.
Lemma advanced_trans s1 s2 s3 : advanced s1 s2 -> advanced s2 s3 -> advanced s1 s3.
Proof.
  intros (Hb1 & Hm1 & H12) (Hb2 & Hm2 & H23). split_and!; [congruence..|]. intros id.
  specialize (H12 id). specialize (H23 id).
  destruct (st_index s1 !! id), (st_index s2 !! id), (st_index s3 !! id); try done.
  destruct H12 as (? & ? & ?), H23 as (? & ? & ?). split_and!; congruence.
Qed.

Lemma advanced_same s s' : st_index s' = st_index s -> st_blocks s' = st_blocks s ->
  st_min_height s' = st_min_height s -> advanced s s'.
Proof. intros Hi Hb Hm. split_and!; [done..|]. intros id. rewrite Hi. by destruct (st_index s !! id). Qed.

Lemma index_ok_same s s' : st_index s' = st_index s -> st_blocks s' = st_blocks s -> index_ok s -> index_ok s'.
Proof. intros Hi Hb []. split; rewrite ?Hi, ?Hb; done. Qed.

Lemma advanced_insert s s' bi bi' : st_index s !! bi_block_id bi = Some bi -> core bi' = core bi ->
  bi_is_persisted bi' = bi_is_persisted bi -> ok (bi_status bi') = ok (bi_status bi) ->
  st_index s' = <[bi_block_id bi := bi']> (st_index s) -> st_blocks s' = st_blocks s ->
  st_min_height s' = st_min_height s -> advanced s s'.
Proof.
  intros Hbi Hcore Hper Hok Hidx Hblk Hmin. split_and!; [done..|]. intros id. rewrite Hidx.
  destruct (decide (id = bi_block_id bi)) as [->|Hne]; [by rewrite Hbi, lookup_insert_eq|].
  rewrite lookup_insert_ne by done. by destruct (st_index s !! id).
Qed.

(** A later stage for a block whose parent is fully checked. *)
Lemma index_ok_advance s s' bi bi' : index_ok s -> st_index s !! bi_block_id bi = Some bi -> core bi' = core bi ->
  bi_is_persisted bi' = bi_is_persisted bi -> ok (bi_status bi') = ok (bi_status bi) ->
  stage (bi_status bi') = Some BlockValidationStage.FullyChecked ->
  (forall pbi, st_index s !! bi_prev_block_id bi = Some pbi -> bi_prev_block_id bi <> genesis_block_id chain_config ->
     stage (bi_status pbi) = Some BlockValidationStage.FullyChecked) ->
  (bi_block_id bi <> bi_prev_block_id bi) ->
  st_index s' = <[bi_block_id bi := bi']> (st_index s) -> st_blocks s' = st_blocks s -> index_ok s'.
Proof.
  intros [Hs Hp Hf Hc Hpar Hid] Hbi Hcore Hper Hok Hst Hpst Hself Hidx Hblk.
  destruct (core_facts _ _ Hcore) as (_ & Hpr & _).
  split; rewrite ?Hidx, ?Hblk.
  - intros id b. rewrite lookup_insert_Some. intros [[<- <-]|[_ Hb]]; [by rewrite Hst|by eapply Hs].
  - intros id b. rewrite lookup_insert_Some. intros [[<- <-]|[_ Hb]]; [rewrite Hper; by apply Hp|by apply Hp].
  - intros id b. rewrite lookup_insert_Some. intros [[<- <-]|[_ Hb]]; [rewrite Hper, Hok; by apply Hf with (bi_block_id bi)|by eapply Hf].
  - intros id b st. rewrite lookup_insert_Some. intros [[<- <-]|[_ Hb]]; [rewrite Hst; by intros _ [= <-]|by eapply Hc].
  - intros id b pbi. rewrite !lookup_insert_Some. intros [[<- <-]|[Hne Hb]] Hpb Hnp.
    + rewrite Hpr in Hpb, Hnp. destruct Hpb as [[Heq _]|[_ Hpb]]; [done|].
      destruct (Hpar _ _ _ Hbi Hpb Hnp) as (H1' & H2' & _). rewrite Hper, Hok, Hst. split_and!; [done..|].
      rewrite (Hpst _ Hpb Hnp). by intros ? ? [= <-] [= <-].
    + destruct Hpb as [[Heq <-]|[_ Hpb]]; [|by eapply Hpar].
      destruct (Hpar _ _ bi Hb) as (H1' & H2' & _); [congruence|done|]. rewrite Hper, Hok, Hst. split_and!; [done..|].
      intros st pst _ [= <-]. by destruct st.
  - done.
Qed.

(** ** Reorganisations *)

Lemma path_same s s' parent l : st_index s' = st_index s -> path s parent l -> path s' parent l.
Proof. intros Hi. revert parent. induction l as [|b l IH]; intros parent; [done|]. simpl. rewrite Hi. naive_solver. Qed.

Lemma path_insert s s' id bi parent l : st_index s' = <[id := bi]> (st_index s) ->
  (forall b, b ∈ l -> bi_block_id b <> id) -> path s parent l -> path s' parent l.
Proof.
  intros Hi. revert parent. induction l as [|b l IH]; intros parent Hne; [done|]. simpl.
  intros (Hb & Hp & Hl). split_and!; [|done|].
  - rewrite Hi, lookup_insert_ne; [done|]. intros ->. apply (Hne b); [left|done].
  - apply IH; [|done]. intros c Hc. apply Hne. by right.
Qed.

(** The id of the last block of a path. *)
Definition path_end (parent : BlockId) (l : list BlockIndex) : BlockId :=
  match last l with Some b => bi_block_id b | None => parent end.

Lemma connect_chain_spec now s p l : chain_ok s p -> index_ok s -> path s (gen_block_id p) l ->
  Forall (fun b => bi_is_persisted b = true) l ->
  match connect_chain chain_config chainstate_config now l s with
  | (s', Ok _) => exists g, chain_ok s' g /\ gen_block_id g = path_end (gen_block_id p) l /\ index_ok s' /\ advanced s s'
  | (s', Err (ConnectTipFailed id _)) => best_known s' /\ exists b, b ∈ l /\ bi_block_id b = id
  | (_, Err (OtherError _)) => False
  | (_, Panic) => False
  end.
Proof.
  revert s p. induction l as [|b l IH]; intros s p Hok Hix Hpath Hper; cbn [connect_chain].
  { exists p. split_and!; [done..|apply advanced_refl]. }
  destruct Hpath as (Hb & Hprev & Hpath). apply Forall_cons in Hper as [Hpb Hper].
  destruct (ix_stage _ Hix _ _ Hb) as [st Hst]. pose proof (ix_checked _ Hix _ _ _ Hb Hpb Hst) as Hchk.
  pose proof (connect_tip_spec now s p b st Hok Hb Hprev Hpb Hst Hchk) as Hspec.
  unfold mbind at 1, st_bind at 1, st_map_err at 1.
  destruct (connect_tip chain_config chainstate_config now b s) as [s1 [[]|e|]]; [|by split; [|exists b; split; [left|]]|done].
  destruct Hspec as (Hokb & b' & Hcore & Hper' & Hidx & Hok1 & Hblk & Hmin).
  destruct (ck_valid _ _ Hok1 0%nat b' eq_refl) as (Hok' & Hst' & _).
  pose proof (ck_tree _ _ Hok) as Hwf. destruct (Hwf _ _ Hb) as [_ Hlb].
  assert (bi_block_id b <> bi_prev_block_id b) as Hself.
  { intros Heq. destruct (linked_prev chain_config _ Hwf b Hlb) as (q & Hq & _ & _ & Hc). apply cont_height in Hc.
    rewrite <- Heq, (getter_block _ _ _ b) in Hq; [|done|by destruct Hlb].
    injection Hq as <-. simpl in Hc. lia. }
  assert (index_ok s1) as Hix1.
  { eapply (index_ok_advance s s1 b b'); try done; [congruence|congruence|].
    intros pbi Hpbi Hne. rewrite Hprev in Hpbi, Hne. pose proof (ck_best _ _ Hok) as Hg.
    rewrite (getter_block _ _ _ pbi) in Hg by done. injection Hg as <-. by apply (ck_valid _ _ Hok 0%nat). }
  assert (path s1 (gen_block_id (Block b')) l) as Hpath1.
  { simpl. destruct (core_facts _ _ Hcore) as (-> & _). eapply path_insert; [done| |done].
    intros c Hc Heq. pose proof (path_heights s b l c Hwf Hpath Hb Hc) as Hlt.
    assert (st_index s !! bi_block_id c = Some c) as Hcs; [|rewrite Heq, Hb in Hcs; injection Hcs as ->; lia].
    clear -Hpath Hc. revert Hpath Hc. generalize (bi_block_id b). induction l as [|d l IH]; intros x Hp Hc;
      [by apply not_elem_of_nil in Hc|]. destruct Hp as (? & _ & Hp). apply elem_of_cons in Hc as [->|Hc]; [done|by eapply IH]. }
  specialize (IH s1 (Block b') Hok1 Hix1 Hpath1 Hper).
  destruct (connect_chain chain_config chainstate_config now l s1) as [s2 [[]|[id e|e]|]]; [| |done|done].
  - destruct IH as (g & Hg & Hend & Hix2 & Hadv). exists g. split; [done|]. split.
    { rewrite Hend. simpl. destruct (core_facts _ _ Hcore) as (-> & _). unfold path_end.
      rewrite last_cons. by destruct (last l). }
    split; [done|]. eapply advanced_trans; [|done]. by eapply (advanced_insert s s1 b b'); try done; congruence.
  - destruct IH as (Hbk & c & Hc & Hid). split; [done|]. exists c. split; [by right|done].
Qed.

(** Stored blocks have stored parents, up to the main chain. *)
Lemma path_persisted s parent l : index_ok s -> wf_tree (st_index s) -> path s parent l ->
  (forall b, last l = Some b -> bi_is_persisted b = true) -> Forall (fun b => bi_is_persisted b = true) l.
Proof.
  intros Hix Hwf. revert parent. induction l as [|b l IH]; intros parent Hpath Hlast; [by constructor|].
  destruct Hpath as (Hb & Hprev & Hpath). destruct l as [|c l]; [constructor; [by apply Hlast|by constructor]|].
  assert (Forall (fun b => bi_is_persisted b = true) (c :: l)) as Hall by (eapply IH; [done|]; intros d Hd; by apply Hlast).
  constructor; [|done]. apply Forall_cons in Hall as [Hc _]. destruct Hpath as (Hcs & Hcp & _).
  destruct (Hwf _ _ Hb) as [_ Hl]. rewrite <- Hcp in Hb.
  apply (ix_parent _ Hix _ _ _ Hcs Hb); [|done]. rewrite Hcp. by destruct Hl.
Qed.

Lemma path_ancestors s parent l b bi : wf_tree (st_index s) -> path s parent l -> b ∈ l -> last l = Some bi ->
  exists m, follow (st_index s) m (Block bi) = Some (Block b).
Proof.
  intros Hwf. revert parent b. induction l as [|c l IH]; intros parent b Hpath Hb Hlast; [done|].
  destruct Hpath as (Hc & Hprev & Hpath). destruct l as [|d l].
  { injection Hlast as ->. apply list_elem_of_singleton in Hb as ->. by exists 0%nat. }
  apply elem_of_cons in Hb as [->|Hb]; [|by eapply IH].
  destruct (IH (bi_block_id c) d Hpath) as (m & Hm); [left|done|]. exists (m + 1)%nat.
  rewrite (follow_add chain_config), Hm. cbn [mbind option_bind]. destruct Hpath as (Hd & Hdp & _).
  rewrite (follow_step chain_config _ d (Block c)); [done|]. rewrite Hdp. apply getter_block; [done|].
  destruct (Hwf _ _ Hc) as [_ Hl]. by destruct Hl.
Qed.

Lemma best_height_spec s g : chain_ok s g -> best_height chain_config s = Z.to_nat (ival (gen_block_height g)).
Proof.
  intros Hok. unfold best_height, get_best_block_index, get_best_block_id, get_gen_block_index.
  rewrite (ck_best_id _ _ Hok). cbn [expect mbind result_bind]. by rewrite (ck_best _ _ Hok).
Qed.

Lemma reorganize_spec now s g bi : chain_ok s g -> index_ok s -> st_index s !! bi_block_id bi = Some bi ->
  bi_is_persisted bi = true -> is_block_in_main_chain chain_config s (bi_block_id bi) = false ->
  match reorganize chain_config chainstate_config now (gen_block_id g) bi s with
  | (s', Ok _) => exists bi', chain_ok s' (Block bi') /\ bi_block_id bi' = bi_block_id bi /\ index_ok s' /\ advanced s s'
  | (s', Err (ConnectTipFailed id _)) => best_known s' /\ exists m c,
      follow (st_index s) m (Block bi) = Some (Block c) /\ bi_block_id c = id /\
      is_block_in_main_chain chain_config s id = false
  | (_, Err (OtherError _)) => False
  | (_, Panic) => False
  end.
Proof.
  intros Hok Hix Hbi Hper Hmain. pose proof (ck_tree _ _ Hok) as Hwf.
  destruct (new_chain_walk_spec (Z.to_nat (ival (bi_block_height bi))) s g bi [] Hok Hbi) as
    (l & n & a & Hrun & Hf & Hpath & Hall & Hlast); [lia|done|]. rewrite Hmain in Hlast. rewrite app_nil_r in *.
  unfold reorganize, get_new_chain. rewrite (st_bind_run _ _ s s s) by done. rewrite Hrun.
  rewrite (st_bind_run _ _ s s l) by done. destruct l as [|first l]; [done|].
  rewrite (st_bind_run _ _ s s first) by done. pose proof Hpath as (_ & Hprev & _). rewrite Hprev.
  assert (exists s1, match classify chain_config (gen_block_id g) with
     | Some best_block_id => st_map_err OtherError
         (disconnect_until chain_config (best_height chain_config s) best_block_id (gen_block_id a))
     | None => mret tt
     end s = (s1, Ok tt : result ReorgError unit) /\ chain_ok s1 a /\ st_index s1 = st_index s /\
     st_blocks s1 = st_blocks s /\ st_min_height s1 = st_min_height s) as (s1 & Hrun1 & Hok1 & Hidx & Hblk & Hmin).
  { pose proof (follow_bound _ _ _ _ Hwf (chain_linked s g Hok) Hf) as Hn. unfold classify. case_bool_decide as Hgen.
    - pose proof (ck_best _ _ Hok) as Hg. rewrite Hgen, getter_genesis in Hg. injection Hg as <-.
      simpl in Hn. assert (n = 0%nat) as -> by lia. injection Hf as <-. exists s. by split_and!.
    - rewrite (best_height_spec s g Hok).
      destruct (disconnect_until_spec (Z.to_nat (ival (gen_block_height g))) s g n a Hok Hf) as (s1 & Hrun1 & ?); [lia|].
      exists s1. unfold st_map_err. by rewrite Hrun1. }
  rewrite (st_bind_run _ _ s s1 tt) by done.
  assert (index_ok s1) as Hix1 by (by eapply index_ok_same).
  assert (path s1 (gen_block_id a) (first :: l)) as Hpath1 by (by eapply path_same).
  assert (Forall (fun b => bi_is_persisted b = true) (first :: l)) as Hpers
    by (apply (path_persisted s (gen_block_id a)); [done..|]; rewrite Hlast; by intros ? [= <-]).
  pose proof (connect_chain_spec now s1 a (first :: l) Hok1 Hix1 Hpath1 Hpers) as Hspec.
  destruct (connect_chain chain_config chainstate_config now (first :: l) s1) as [s2 [[]|[id e|e]|]]; [| |done..].
  - destruct Hspec as (g' & Hg' & Hend & Hix2 & Hadv). unfold path_end in Hend. rewrite Hlast in Hend.
    destruct g' as [bi'|i tm].
    + simpl in Hend. exists bi'. split; [exact Hg'|]. split; [exact Hend|]. split; [exact Hix2|]. eapply advanced_trans; [by eapply advanced_same|done].
    + exfalso. pose proof (chain_linked s2 _ Hg') as Hl. simpl in Hl, Hend. injection Hl as -> _.
      destruct (Hwf _ _ Hbi) as [_ [Hne _]]. done.
  - destruct Hspec as (Hbk & b & Hb & <-). destruct (path_ancestors s _ _ b bi Hwf Hpath Hb Hlast) as (m & Hm).
    split; [done|]. exists m, b. split_and!; [done..|]. by apply (proj1 (Forall_forall _ _) Hall).
Qed.

Lemma uint_gt_value u v : wf 4 u -> wf 4 v -> uint_gt u v = (value v <? value u).
Proof.
  intros Hu Hv. unfold uint_gt. rewrite (cmp_value 4) by done.
  destruct (Z.compare_spec (value u) (value v)), (Z.ltb_spec (value v) (value u)); lia || done.
Qed.

Lemma get_best_block_index_spec s g : chain_ok s g -> get_best_block_index chain_config s = Ok g.
Proof.
  intros Hok. unfold get_best_block_index, get_best_block_id, get_gen_block_index.
  rewrite (ck_best_id _ _ Hok). cbn [expect mbind result_bind]. by rewrite (ck_best _ _ Hok).
Qed.

(** A block with more trust than the tip is not on the main chain. *)
Lemma more_trust_not_main s g bi : chain_ok s g -> st_index s !! bi_block_id bi = Some bi ->
  value (gen_chain_trust g) < value (bi_chain_trust bi) -> is_block_in_main_chain chain_config s (bi_block_id bi) = false.
Proof.
  intros Hok Hbi Htr. pose proof (ck_tree _ _ Hok) as Hwf. destruct (Hwf _ _ Hbi) as [_ Hl].
  apply not_true_iff_false. intros Hm.
  apply (main_chain_iff s g _ Hok) in Hm as (n & a & Hf & Ha).
  pose proof (follow_trust chain_config _ Hwf n g a (chain_linked s g Hok) Hf) as Hle.
  destruct (chain_ancestor s g Hok n) as (a' & Hf' & Hst & _);
    [by eapply follow_bound; [| |apply Hf]; [done|apply chain_linked]|].
  rewrite Hf in Hf'. injection Hf' as <-. rewrite Ha, (getter_block _ _ _ bi) in Hst by (by destruct Hl).
  injection Hst as <-. simpl in Hle. lia.
Qed.

Lemma activate_best_chain_spec now s g bi : chain_ok s g -> index_ok s -> st_index s !! bi_block_id bi = Some bi ->
  bi_is_persisted bi = true ->
  match activate_best_chain chain_config chainstate_config now bi s with
  | (s', Ok true) => value (gen_chain_trust g) < value (bi_chain_trust bi) /\
      exists bi', chain_ok s' (Block bi') /\ bi_block_id bi' = bi_block_id bi /\ index_ok s' /\ advanced s s'
  | (s', Ok false) => value (bi_chain_trust bi) <= value (gen_chain_trust g) /\ s' = s
  | (s', Err (ConnectTipFailed id _)) => value (gen_chain_trust g) < value (bi_chain_trust bi) /\ best_known s' /\
      exists m c, follow (st_index s) m (Block bi) = Some (Block c) /\ bi_block_id c = id /\
      is_block_in_main_chain chain_config s id = false
  | (_, Err (OtherError _)) => False
  | (_, Panic) => False
  end.
Proof.
  intros Hok Hix Hbi Hper. destruct (ck_tree _ _ Hok _ _ Hbi) as [_ Hl].
  pose proof (trust_wf chain_config (st_index s) g (chain_linked s g Hok)) as Hwg.
  pose proof (trust_wf chain_config (st_index s) (Block bi) Hl) as Hwb. simpl in Hwb.
  unfold activate_best_chain. rewrite (st_bind_run _ _ s s s) by done. rewrite (get_best_block_index_spec s g Hok).
  rewrite (st_bind_run _ _ s s g) by done. rewrite uint_gt_value by done.
  destruct (Z.ltb_spec (value (gen_chain_trust g)) (value (bi_chain_trust bi))) as [Htr|Htr]; [|done].
  pose proof (reorganize_spec now s g bi Hok Hix Hbi Hper (more_trust_not_main s g bi Hok Hbi Htr)) as Hspec.
  unfold mbind, st_bind.
  destruct (reorganize chain_config chainstate_config now (gen_block_id g) bi s) as [s' [[]|[id e|e]|]]; done.
Qed.

(** ** New indices *)

(** The index of a new block continues the tree; it is refused when the parent
    is unknown or the proof can not be calculated, and only an overflow stops
    the calculation. *)
Lemma create_block_index_spec s (block : TxVerifier.Block) status : wf_tree (st_index s) ->
  block_get_id block <> genesis_block_id chain_config ->
  match create_block_index_for_new_block chain_config s block status with
  | Ok bi => bi_block_id bi = block_get_id block /\ bi_block_header bi = block_header block /\
      bi_status bi = status /\ bi_is_persisted bi = false /\ linked chain_config (st_index s) bi /\
      exists p, getter (st_index s) (prev_block_id block) = Some p /\
        ival (bi_chain_transaction_count bi) =
          ival (gen_chain_transaction_count p) + Z.of_nat (length (transactions block))
  | Err e => e = BlockError.PrevBlockNotFoundForNewBlock (block_get_id block) /\
               getter (st_index s) (prev_block_id block) = None \/
             e = BlockError.BlockProofCalculationError (block_get_id block)
  | Panic => exists p, getter (st_index s) (prev_block_id block) = Some p /\
      (2 ^ 64 <= ival (gen_block_height p) + 1 \/
       u128_MAX < ival (gen_chain_transaction_count p) + Z.of_nat (length (transactions block)) \/
       exists E (proof : uint), @get_block_proof _ _ E (block_consensus_data block) (gen_block_timestamp p)
                       (hdr_timestamp (block_header block)) = Ok (Some proof) /\
         2 ^ 256 <= value (gen_chain_trust p) + value proof)
  end.
Proof.
  intros Hwf Hne. unfold create_block_index_for_new_block, get_gen_block_index.
  destruct (getter (st_index s) (prev_block_id block)) as [p|] eqn:Hp; [|by left]. cbn [ok_or mbind result_bind].
  destruct (getter_linked chain_config _ Hwf _ _ Hp) as [Hlp Hpid]. pose proof (bint_range (gen_block_height p)).
  unfold BlockHeight.next_height.
  destruct (bint_of_Z (ival (gen_block_height p) + 1)) as [h|] eqn:Hh; cbn [expect mbind result_bind].
  2: { apply bint_of_Z_None in Hh. exists p. split; [done|]. left. lia. }
  apply bint_of_Z_Some in Hh. destruct (get_skip_height_spec (E := BlockError L) h) as (sk & -> & Hsk & Hlt).
  pose proof (bint_range sk). cbn [mbind result_bind]. unfold get_ancestor.
  destruct (ancestor_getter_spec chain_config _ Hwf p sk Hlp) as (anc & -> & Hfa & Hla & Hha & Hst); [lia|].
  cbn [mbind result_bind].
  destruct (bint_of_Z _) as [cnt|] eqn:Hcnt; cbn [expect mbind result_bind].
  2: { apply bint_of_Z_None in Hcnt. exists p. split; [done|]. right. left.
       pose proof (bint_range (gen_chain_transaction_count p)). lia. }
  apply bint_of_Z_Some in Hcnt.
  destruct (get_block_proof_total (E := BlockError L) (block_consensus_data block) (gen_block_timestamp p)
              (hdr_timestamp (block_header block))) as (r & Hr). rewrite Hr. cbn [mbind result_bind].
  destruct r as [proof|]; [|by right]. cbn [ok_or mbind result_bind].
  destruct (get_block_proof_pos _ _ _ _ Hr) as [Hpw Hpos]. pose proof (trust_wf chain_config _ _ Hlp) as Htw.
  pose proof (checked_add_value 4 _ _ Htw Hpw) as Hadd.
  destruct (Uint.checked_add (gen_chain_trust p) proof) as [trust|]; cbn [expect mbind result_bind].
  2: { exists p. split; [done|]. right. right. exists (BlockError L), proof. split; [done|]. by rewrite <- W4. }
  destruct Hadd as [Htrw Htrv]. split_and!; [done..| |exists p; by split_and!].
  split; [done|]. exists p. split; [done|]. split; cbn -[get_block_proof follow_id].
  - done.
  - destruct (follow_exists chain_config _ Hwf (Z.to_nat (ival (gen_block_height p) - ival sk)) p Hlp)
      as (a' & Hf' & _ & _ & Hid & _); [lia|]. rewrite Hfa in Hf'. injection Hf' as <-.
    rewrite <- Hsk. by apply Hid.
  - done.
  - exists (BlockError L), proof. done.
  - unfold bi_block_timestamp. cbn. destruct (Z.leb_spec (ival (gen_chain_timestamps_max p)) (ival (hdr_timestamp (block_header block)))); lia.
  - lia.
Qed.

(** ** The last common ancestor *)

Lemma zero_height db g : wf_tree db -> gen_linked chain_config db g -> ival (gen_block_height g) = 0 ->
  g = genesis chain_config.
Proof.
  intros Hwf Hl Hz. destruct g as [bi|i tm]; [|done]. simpl in Hl.
  destruct (linked_prev chain_config _ Hwf bi Hl) as (p & _ & _ & _ & Hc). apply cont_height in Hc.
  pose proof (bint_range (gen_block_height p)). simpl in Hz. lia.
Qed.

Lemma common_ancestor_walk_spec fuel s f g : wf_tree (st_index s) ->
  gen_linked chain_config (st_index s) f -> gen_linked chain_config (st_index s) g ->
  gen_block_height f = gen_block_height g -> (Z.to_nat (ival (gen_block_height f)) <= fuel)%nat ->
  exists c n d, common_ancestor_walk chain_config fuel s f g = Ok c /\
    follow (st_index s) n f = Some c /\ follow (st_index s) n g = Some d /\ gen_block_id c = gen_block_id d /\
    forall k a b, follow (st_index s) k f = Some a -> follow (st_index s) k g = Some b ->
      gen_block_id a = gen_block_id b -> (n <= k)%nat.
Proof.
  intros Hwf. revert f g. induction fuel as [|fuel IH]; intros f g Hf Hg Hh Hfuel; cbn [common_ancestor_walk].
  - assert (f = genesis chain_config) as ->
      by (apply (zero_height (st_index s)); [done..|]; pose proof (bint_range (gen_block_height f)); lia).
    assert (g = genesis chain_config) as -> by (apply (zero_height (st_index s)); [done..|]; by rewrite <- Hh).
    rewrite bool_decide_true by done. exists (genesis chain_config), 0%nat, (genesis chain_config). split_and!; [done..|lia].
  - case_bool_decide as Hid; [exists f, 0%nat, g; split_and!; [done..|lia]|].
    destruct f as [f|i tm], g as [g|j tn].
    + destruct (linked_prev chain_config _ Hwf f Hf) as (p & Hp & Hlp & _ & Hcp). apply cont_height in Hcp.
      destruct (linked_prev chain_config _ Hwf g Hg) as (q & Hq & Hlq & _ & Hcq). apply cont_height in Hcq.
      simpl in Hh, Hid, Hfuel.
      unfold prev_of_index, get_previous_block_index, get_gen_block_index. rewrite Hp, Hq. cbn [ok_or mbind result_bind].
      destruct (IH p q Hlp Hlq) as (c & n & d & Hrun & Hfc & Hfd & Hcd & Hmin);
        [apply bint_eq; rewrite Hh in Hcp; lia|lia|].
      exists c, (S n), d. rewrite !(follow_step chain_config _ f p), !(follow_step chain_config _ g q) by done.
      split_and!; [done..|]. intros [|k] x y Hx Hy Hxy; [injection Hx as <-; injection Hy as <-; done|].
      rewrite (follow_step chain_config _ f p) in Hx by done. rewrite (follow_step chain_config _ g q) in Hy by done.
      pose proof (Hmin k x y Hx Hy Hxy). lia.
    + destruct Hid. rewrite Hg. simpl in Hh. f_equal. apply (zero_height (st_index s)); [done..|]. simpl. by rewrite Hh.
    + destruct Hid. rewrite Hf. simpl in Hh. symmetry. f_equal. apply (zero_height (st_index s)); [done..|]. simpl. by rewrite <- Hh.
    + destruct Hid. by rewrite Hf, Hg.
Qed.

Lemma follow_at s g n a : wf_tree (st_index s) -> gen_linked chain_config (st_index s) g ->
  follow (st_index s) n g = Some a ->
  gen_linked chain_config (st_index s) a /\
  ival (gen_block_height a) = ival (gen_block_height g) - Z.of_nat n /\
  (getter (st_index s) (gen_block_id g) = Some g -> getter (st_index s) (gen_block_id a) = Some a).
Proof.
  intros Hwf Hl Hf. pose proof (follow_bound _ _ _ _ Hwf Hl Hf) as Hn.
  destruct (follow_exists chain_config _ Hwf n g Hl Hn) as (a' & Hf' & Hla & Hha & _ & Hst).
  rewrite Hf in Hf'. injection Hf' as <-. done.
Qed.

(** The higher one of two blocks is replaced by its ancestor. *)
Lemma lower_to_common_height s f g : wf_tree (st_index s) ->
  gen_linked chain_config (st_index s) f -> gen_linked chain_config (st_index s) g ->
  exists f' g' x y, last_common_ancestor chain_config s f g =
      common_ancestor_walk chain_config (Z.to_nat (ival (gen_block_height f'))) s f' g' /\
    follow (st_index s) x f = Some f' /\ follow (st_index s) y g = Some g' /\
    gen_linked chain_config (st_index s) f' /\ gen_linked chain_config (st_index s) g' /\
    gen_block_height f' = gen_block_height g' /\
    ival (gen_block_height f') = ival (gen_block_height f) - Z.of_nat x /\
    ival (gen_block_height g') = ival (gen_block_height g) - Z.of_nat y /\ (x = 0 \/ y = 0)%nat.
Proof.
  intros Hwf Hf Hg. unfold last_common_ancestor, get_ancestor.
  pose proof (bint_range (gen_block_height f)). pose proof (bint_range (gen_block_height g)).
  destruct (Z.compare_spec (ival (gen_block_height f)) (ival (gen_block_height g))) as [Heq|Hlt|Hgt].
  - exists f, g, 0%nat, 0%nat. cbn [mbind result_bind]. split_and!; [done..|by apply bint_eq|lia|lia|by left].
  - destruct (ancestor_getter_spec chain_config _ Hwf g (gen_block_height f) Hg) as (a & -> & Hfa & Hla & Hha & _); [lia|].
    cbn [map_err mbind result_bind].
    exists f, a, 0%nat, (Z.to_nat (ival (gen_block_height g) - ival (gen_block_height f))).
    split_and!; try done; [lia|rewrite Hha; lia|by left].
  - destruct (ancestor_getter_spec chain_config _ Hwf f (gen_block_height g) Hf) as (a & -> & Hfa & Hla & Hha & _); [lia|].
    cbn [map_err mbind result_bind].
    exists a, g, (Z.to_nat (ival (gen_block_height f) - ival (gen_block_height g))), 0%nat.
    split_and!; try done; [rewrite Hha; lia|lia|by right].
Qed.
End chain.

Lemma last_common_ancestor_found `{CryptoTypes} `{TimeslotWeights} {L} (cfg : ChainConfig) (s : Store L) i j f g :
  wf_tree cfg (st_index s) -> get_gen_block_index cfg s i = Some f -> get_gen_block_index cfg s j = Some g ->
  exists c n m, last_common_ancestor cfg s f g = Ok c /\
    follow cfg (st_index s) n f = Some c /\ follow cfg (st_index s) m g = Some c /\
    forall n' m' a, follow cfg (st_index s) n' f = Some a -> follow cfg (st_index s) m' g = Some a ->
      ival (gen_block_height a) <= ival (gen_block_height c).
Proof.
  intros Hwf Hi Hj. unfold get_gen_block_index in *.
  destruct (getter_linked cfg _ Hwf i f Hi) as [Hlf Hif]. destruct (getter_linked cfg _ Hwf j g Hj) as [Hlg Hig].
  rewrite <- Hif in Hi. rewrite <- Hig in Hj. clear i j Hif Hig.
  destruct (lower_to_common_height cfg s f g Hwf Hlf Hlg) as (f' & g' & x & y & Hrun & Hff & Hgg & Hlf' & Hlg' & Hheq & Hx & Hy & Hxy).
  pose proof (bint_range (gen_block_height f')).
  destruct (common_ancestor_walk_spec cfg (Z.to_nat (ival (gen_block_height f'))) s f' g' Hwf Hlf' Hlg' Hheq)
    as (c & n & d & Hwalk & Hfc & Hfd & Hcd & Hmin); [lia|].
  assert (follow cfg (st_index s) (x + n) f = Some c) as Hc by (rewrite follow_add, Hff; done).
  assert (follow cfg (st_index s) (y + n) g = Some d) as Hd by (rewrite follow_add, Hgg; done).
  destruct (follow_at cfg s f (x + n) c Hwf Hlf Hc) as (_ & Hhc & Hstc).
  destruct (follow_at cfg s g (y + n) d Hwf Hlg Hd) as (_ & Hhd & Hstd).
  assert (d = c) as -> by (specialize (Hstc Hi); specialize (Hstd Hj); rewrite Hcd in Hstc; congruence).
  exists c, (x + n)%nat, (y + n)%nat. split; [by rewrite Hrun|]. split; [done|]. split; [done|].
  intros n' m' a Ha Ha'. destruct (follow_at cfg s f n' a Hwf Hlf Ha) as (_ & Hha & _).
  destruct (follow_at cfg s g m' a Hwf Hlg Ha') as (_ & Hha' & _).
  pose proof (bint_range (gen_block_height a)).
  assert (n <= n' - x)%nat; [|lia]. apply (Hmin _ a a); [| |done].
  - replace n' with (x + (n' - x))%nat in Ha by lia. by rewrite follow_add, Hff in Ha.
  - replace m' with (y + (n' - x))%nat in Ha' by lia. by rewrite follow_add, Hgg in Ha'.
Qed.

(** C14: [last_common_ancestor] finds the highest block that is an ancestor of
    both blocks: in a well-formed tree it never fails, its result is an ancestor
    of either block, and every common ancestor is at most as high. *)
Theorem last_common_ancestor_exact `{CryptoTypes} `{TimeslotWeights} {L} (cfg : ChainConfig) (s : Store L) i j f g :
  wf_tree cfg (st_index s) -> get_gen_block_index cfg s i = Some f -> get_gen_block_index cfg s j = Some g ->
  exists c n m, last_common_ancestor cfg s f g = Ok c /\
    follow cfg (st_index s) n f = Some c /\ follow cfg (st_index s) m g = Some c /\
    forall n' m' a, follow cfg (st_index s) n' f = Some a -> follow cfg (st_index s) m' g = Some a ->
      ival (gen_block_height a) <= ival (gen_block_height c).
Proof. apply last_common_ancestor_found. Qed.
