(* ===== verification/Chainstate.v ===== *)
(** * Processing and invalidating blocks

    Models [chainstate/src/detail/mod.rs] (how a new block is processed),
    [block_invalidation/mod.rs] and [best_chain_candidates.rs] (how blocks are
    invalidated and another chain is found), [error_classification.rs], and
    [chainstateref/consistency_checker.rs], the checks that the chainstate makes
    of itself.

    A database transaction ([with_rw_tx]) commits when it succeeds and changes
    nothing when it fails; the store of the model does not fail, so that nothing
    is attempted twice.  The pool of orphans is not part of the state here: a
    block from a local source whose parent is unknown is refused with the error
    for orphans.  The loop over the candidates for the best chain has the number
    of blocks as its fuel, because every round rules out one more block. *)
From S2P Require Import Prelude Amount Uint ChainTypes ChainConfig Compact BlockTree Utxo TxTypes Policy.
From S2P Require Import CheckTransaction TxVerifier ChainstateRef.

(** ** Classes of errors ([error_classification.rs]) *)

Section classify.
Context `{CryptoTypes} {L : Type} `{!BlockChecks L} `{!BlockLedger L}.
Import ErrorClass.

Definition classify_tokens_error (e : TokensError.TokensError) : BlockProcessingErrorClass :=
  match e with TokensError.StorageError => General | _ => BadBlock end.
Definition classify_check_transaction_error (e : CheckTransactionError.CheckTransactionError) : BlockProcessingErrorClass :=
  match e with
  | CheckTransactionError.PropertyQueryError => General
  | CheckTransactionError.TokensError e => classify_tokens_error e
  | _ => BadBlock
  end.
Definition classify_check_block_error (e : CheckBlockError L) : BlockProcessingErrorClass :=
  match e with
  | CheckBlockError.MerkleRootMismatch | CheckBlockError.ParentBlockMissing _ _
  | CheckBlockError.BlockTimeOrderInvalid _ _ | CheckBlockError.InvalidBlockRewardOutputType _
  | CheckBlockError.CheckpointMismatch _ _ _ | CheckBlockError.AttemptedToAddBlockBeforeReorgLimit _ _ _
  | CheckBlockError.InvalidParent _ _ | CheckBlockError.InvalidBlockAlreadyProcessed _
  | CheckBlockError.MerkleRootCalculationFailed _ | CheckBlockError.BlockSizeError _
  | CheckBlockError.BlockRewardMaturityError _ => BadBlock
  | CheckBlockError.BlockFromTheFuture _ _ _ => TemporarilyBadBlock
  | CheckBlockError.PropertyQueryError _ | CheckBlockError.GetAncestorError _ => General
  | CheckBlockError.CheckTransactionFailed (CheckBlockTransactionsError.DuplicateInputInBlock _) => BadBlock
  | CheckBlockError.CheckTransactionFailed (CheckBlockTransactionsError.CheckTransactionError e) =>
      classify_check_transaction_error e
  | CheckBlockError.ConsensusVerificationFailed e => consensus_error_class e
  end.
Definition classify_block_error (e : BlockError L) : BlockProcessingErrorClass :=
  match e with
  | BlockError.InvariantErrorFailedToFindNewChainPath _ _ _ | BlockError.InvariantErrorInvalidTip _
  | BlockError.InvariantErrorAttemptToConnectInvalidBlock _ | BlockError.BlockAlreadyExists _
  | BlockError.BlockIndexAlreadyExists _ | BlockError.BlockAlreadyProcessed _
  | BlockError.BlockDataMissingForValidBlockIndex _ | BlockError.BestBlockIndexQueryError _
  | BlockError.BlockIndexQueryError _ _ | BlockError.IsBlockInMainChainQueryError _ _
  | BlockError.PropertyQueryError _ => General
  | BlockError.PrevBlockNotFoundForNewBlock _ | BlockError.LocalOrphan => TemporarilyBadBlock
  | BlockError.InvalidBlockAlreadyProcessed _ | BlockError.BlockProofCalculationError _ => BadBlock
  | BlockError.CheckBlockFailed e => classify_check_block_error e
  | BlockError.StateUpdateFailed e => ledger_error_class e
  end.
End classify.

(** ** Consistency checks ([consistency_checker.rs]) *)

Section consistency.
Context `{CryptoTypes} `{!BlockHashes} {L : Type} {E : Type} (chain_config : ChainConfig).
Implicit Types (s : Store L) (id : BlockId).

(** The checks for an index, after those of the merged maps. *)
Definition check_index_entry s id (block_index : BlockIndex) : result E unit :=
  _ ← assert_true (bool_decide (id = bi_block_id block_index));
  _ ← (if bi_is_persisted block_index then
         block ← expect (st_blocks s !! id);
         _ ← assert_true (bool_decide (block_get_id block = id));
         assert_true (bool_decide (block_header block = bi_block_header block_index))
       else Ok tt);
  match classify chain_config (bi_prev_block_id block_index) with
  | None => Ok tt
  | Some parent_id =>
      parent_block_index ← expect (st_index s !! parent_id);
      _ ← (if bi_is_persisted block_index then assert_true (bi_is_persisted parent_block_index) else Ok tt);
      block_ok ← BlockStatus.is_ok (bi_status block_index);
      _ ← (if (block_ok : bool) then
             parent_ok ← BlockStatus.is_ok (bi_status parent_block_index); assert_true parent_ok
           else Ok tt);
      parent_stage ← BlockStatus.last_valid_stage (bi_status parent_block_index);
      stage ← BlockStatus.last_valid_stage (bi_status block_index);
      assert_true (BlockValidationStage.leb stage parent_stage)
  end.

(** One step of the [merge_join_by] of the two maps. *)
Definition check_merged s id : result E unit :=
  match st_blocks s !! id, st_index s !! id with
  | Some _, None => Panic
  | None, Some block_index =>
      _ ← assert_true (negb (bi_is_persisted block_index));
      block_ok ← BlockStatus.is_ok (bi_status block_index);
      _ ← assert_true (negb block_ok);
      check_index_entry s id block_index
  | Some _, Some block_index =>
      _ ← assert_true (bi_is_persisted block_index);
      check_index_entry s id block_index
  | None, None => Ok tt
  end.

Fixpoint check_all {A} (f : A -> result E unit) (l : list A) : result E unit :=
  match l with [] => Ok tt | x :: l => _ ← f x; check_all f l end.

Definition check_block_index_consistency s : result E unit :=
  check_all (check_merged s) (btree_iter (gset_to_gmap tt (dom (st_blocks s) ∪ dom (st_index s)))).*1.

(** [tuple_windows]. *)
Fixpoint tuple_windows {A} (l : list A) : list (A * A) :=
  match l with
  | x :: (y :: _) as l' => (x, y) :: tuple_windows l'
  | _ => []
  end.

Definition check_heights s (w : (BlockHeight * BlockId) * (BlockHeight * BlockId)) : result E unit :=
  let '((prev_height, prev_id), (cur_height, cur_id)) := w in
  next ← BlockHeight.next_height prev_height;
  _ ← assert_true (bool_decide (cur_height = next));
  cur_id ← expect (classify chain_config cur_id);
  cur_block_index ← expect (st_index s !! cur_id);
  _ ← assert_true (bool_decide (bi_prev_block_id cur_block_index = prev_id));
  _ ← assert_true (bi_is_persisted cur_block_index);
  fully_valid ← BlockStatus.is_fully_valid (bi_status cur_block_index);
  assert_true fully_valid.

Definition check_block_height_map_consistency s (best_block_id : BlockId) : result E unit :=
  block_at_zero_height ← expect (st_by_height s !! BlockHeight.zero);
  _ ← assert_true (bool_decide (block_at_zero_height = genesis_block_id chain_config));
  '(max_height, block_at_max_height_id) ← expect (last (btree_iter (st_by_height s)));
  _ ← assert_true (bool_decide (block_at_max_height_id = best_block_id));
  _ ← assert_true (ival (calc_min_height_with_allowed_reorg chain_config max_height)
                   <=? ival (get_min_height_with_allowed_reorg s));
  check_all (check_heights s) (tuple_windows (btree_iter (st_by_height s))).

Definition check_consistency s : result E unit :=
  best_block_id ← expect (st_best_block s);
  _ ← check_block_index_consistency s;
  check_block_height_map_consistency s best_block_id.
End consistency.

(** ** New blocks ([detail/mod.rs]) *)

(** [with_rw_tx]: a transaction of the database. *)
Definition with_rw_tx {S E A} (main_action : ST S E A) : ST S E A := fun s =>
  match main_action s with
  | (s', Ok a) => (s', Ok a)
  | (_, Err e) => (s, Err e)
  | (_, Panic) => (s, Panic)
  end.

(** The result of a fallible operation, which is not returned at once. *)
Definition catch {S E F A} (m : ST S E A) : ST S F (result E A) := fun s =>
  match m s with
  | (s', Panic) => (s', Panic)
  | (s', r) => (s', Ok r)
  end.

Inductive BlockSource := Peer | Local.

Section process.
Context `{CryptoTypes} `{!TxHash} `{!TxParameters} `{!BlockHashes} `{TimeslotWeights} {L : Type} `{!BlockChecks L}.
Context `{!BlockLedger L} (chain_config : ChainConfig) (chainstate_config : ChainstateConfig).
Context (current_time : BlockTimestamp).
Implicit Types (s : Store L) (id : BlockId) (bi : BlockIndex).
Abbreviation M := (ST (Store L) (BlockError L)).

Inductive BlockIntegrationError :=
  | ConnectBlockErrorDuringReorg (e : BlockError L) (status : BlockStatus) (id : BlockId)
  | OtherReorgError (e : BlockError L) (status : BlockStatus)
  | BlockCheckError (e : BlockError L) (status : BlockStatus)
  | OtherNonValidationError (e : BlockError L).

Definition integrate_block (block : TxVerifier.Block) bi : ST (Store L) BlockIntegrationError bool :=
  let block_status := BlockStatus.new in
  s ← self;
  _ ← lift (map_err (fun e => BlockCheckError (BlockError.CheckBlockFailed e) block_status)
              (check_block chain_config chainstate_config current_time s block));
  block_status ← lift (BlockStatus.advance_validation_stage_to block_status BlockValidationStage.CheckBlockOk);
  let block_index := make_persisted (with_status block_status bi) in
  _ ← st_map_err (fun e => BlockCheckError e block_status)
        (_ ← set_new_block_index block_index; persist_block block);
  result_ ← catch (activate_best_chain chain_config chainstate_config current_time block_index);
  _ ← st_map_err OtherNonValidationError (update_min_height_with_allowed_reorg chain_config);
  lift match result_ with
       | Ok reorg_occurred => Ok reorg_occurred
       | Err (ConnectTipFailed id e) => Err (ConnectBlockErrorDuringReorg e block_status id)
       | Err (OtherError e) => Err (OtherReorgError e block_status)
       | Panic => Panic
       end.

(** ** Candidates for the best chain ([best_chain_candidates.rs]) *)

(** [BestChainCandidatesItem], ordered by its trust and then by its id. *)
Definition Item : Type := uint * BlockId.
Definition item_le (a b : Item) : bool :=
  match Uint.cmp a.1 b.1 with Lt => true | Gt => false | Eq => (a.2 <=? b.2)%N end.
Definition from_block_info bi : Item := (bi_chain_trust bi, bi_block_id bi).

Abbreviation BestChainCandidates := (gset Item).

(** [BTreeSet::last]. *)
Definition best_item (self : BestChainCandidates) : option Item :=
  foldr (fun x best => match best with Some y => Some (if item_le x y then y else x) | None => Some x end)
    None (elements self).

(** The loop of [BestChainCandidates::new] over the ids, the highest first. *)
Fixpoint collect_candidates s (min_chain_trust : uint) (candidates : BestChainCandidates)
    (seen_parents : gset BlockId) (ids : list BlockId) : result PropertyQueryError BestChainCandidates :=
  match ids with
  | [] => Ok candidates
  | block_id :: ids =>
      block_info ← get_existing_block_index s block_id;
      block_ok ← BlockStatus.is_ok (bi_status block_info);
      if (block_ok : bool) && Uint.geb (bi_chain_trust block_info) min_chain_trust then
        candidates ←
          (if bool_decide (block_id ∈ seen_parents) then Ok candidates
           else
             last_common_ancestor ← last_common_ancestor_in_main_chain chain_config s (GenBlockIndex.Block block_info);
             Ok (if ival (get_min_height_with_allowed_reorg s) <=? ival (gen_block_height last_common_ancestor)
                 then {[from_block_info block_info]} ∪ candidates else candidates));
        collect_candidates s min_chain_trust candidates ({[bi_prev_block_id block_info]} ∪ seen_parents) ids
      else collect_candidates s min_chain_trust candidates seen_parents ids
  end.
Definition BestChainCandidates_new s (min_chain_trust : uint) : result PropertyQueryError BestChainCandidates :=
  collect_candidates s min_chain_trust ∅ ∅
    (reverse (get_higher_block_ids_sorted_by_height s (get_min_height_with_allowed_reorg s))).

Definition remove_tree_add_parent s (self : BestChainCandidates) (root : BlockIndex) (descendants : list BlockIndex)
    (min_chain_trust : uint) : result PropertyQueryError BestChainCandidates :=
  let self := foldl (fun c bi => c ∖ {[from_block_info bi]}) self (root :: descendants) in
  match classify chain_config (bi_prev_block_id root) with
  | None => Ok self
  | Some parent_block_id =>
      parent_block_info ← get_existing_block_index s parent_block_id;
      Ok (if Uint.geb (bi_chain_trust parent_block_info) min_chain_trust
          then {[from_block_info parent_block_info]} ∪ self else self)
  end.

(** ** Invalidation ([block_invalidation/mod.rs]) *)

Inductive IsExplicit := ExplicitNo | ExplicitYes.

Inductive BlockInvalidatorError :=
  | BlockTooDeepToInvalidate (id : BlockId)
  | BestChainCandidatesError (e : PropertyQueryError)
  | BlocksDisconnectionError (disconnect_until : BlockId) (e : BlockError L)
  | BlockStatusUpdateError (id : BlockId) (e : BlockError L)
  | GenericReorgError (e : BlockError L)
  | BlockIndicesForBranchQueryError (e : PropertyQueryError)
  | BestBlockIndexQueryError (e : PropertyQueryError)
  | BlockIndexQueryError (id : BlockId) (e : PropertyQueryError)
  | DelBlockIndexError (id : BlockId) (e : BlockError L).
Abbreviation MI := (ST (Store L) BlockInvalidatorError).

Definition collect_stale_block_indices_in_branch s (root_block_id : BlockId) :
    result BlockInvalidatorError (list BlockIndex) :=
  _ ← assert_true (negb (is_block_in_main_chain chain_config s root_block_id));
  map_err BlockIndicesForBranchQueryError (collect_block_indices_in_branch chain_config s root_block_id).

Definition update_status bi (f : BlockStatus -> result BlockInvalidatorError BlockStatus) : MI unit :=
  status ← lift (f (bi_status bi));
  st_map_err (BlockStatusUpdateError (bi_block_id bi)) (update_block_status bi status).

Definition invalidate_stale_block id (is_explicit_invalidation : IsExplicit) : MI (list BlockIndex) :=
  s ← self;
  block_indices_to_invalidate ← lift (collect_stale_block_indices_in_branch s id);
  _ ← with_rw_tx
        match block_indices_to_invalidate with
        | [] => mret tt
        | root :: descendants =>
            _ ← update_status root match is_explicit_invalidation with
                                   | ExplicitYes => BlockStatus.set_explicitly_invalidated
                                   | ExplicitNo => BlockStatus.set_validation_failed
                                   end;
            try_for_each (fun bi => update_status bi BlockStatus.set_has_invalid_parent) descendants
        end;
  mret block_indices_to_invalidate.

Inductive ReorgDuringInvalidationError :=
  | ReorgErrorDuring (e : @ReorgError _ L _ _)
  | OtherErrorDuring (e : BlockInvalidatorError).

Definition try_candidate (candidate : Item) : ST (Store L) ReorgDuringInvalidationError unit :=
  with_rw_tx
    (s ← self;
     block_index ← lift (map_err (fun e => OtherErrorDuring (BlockIndexQueryError candidate.2 e))
                          (get_existing_block_index s candidate.2));
     reorg_occurred ← st_map_err ReorgErrorDuring
                       (activate_best_chain chain_config chainstate_config current_time block_index);
     lift (assert_true reorg_occurred)).

(** The loop over the candidates. *)
Fixpoint activate_candidates (fuel : nat) (min_chain_trust : uint) (candidates : BestChainCandidates) : MI bool :=
  match best_item candidates with
  | None => mret false
  | Some candidate =>
      _ ← lift (assert_true (Uint.geb candidate.1 min_chain_trust));
      result_ ← catch (try_candidate candidate);
      match result_ with
      | Ok _ => mret true
      | Err (OtherErrorDuring e) => lift (Err e)
      | Err (ReorgErrorDuring (OtherError e)) => lift (Err (GenericReorgError e))
      | Err (ReorgErrorDuring (ConnectTipFailed id e)) =>
          s ← self;
          indices_to_remove ←
            (if ErrorClass.block_should_be_invalidated (classify_block_error e)
             then invalidate_stale_block id ExplicitNo
             else lift (collect_stale_block_indices_in_branch s id));
          match indices_to_remove, fuel with
          | root :: descendants, S fuel =>
              s ← self;
              candidates ← lift (map_err BestChainCandidatesError
                                  (remove_tree_add_parent s candidates root descendants min_chain_trust));
              activate_candidates fuel min_chain_trust candidates
          | _, _ => lift Panic
          end
      | Panic => lift Panic
      end
  end.

Definition find_and_activate_best_chain : MI bool :=
  s ← self;
  cur_best_block_index ← lift (map_err BestBlockIndexQueryError (get_best_block_index chain_config s));
  min_chain_trust ← lift (expect (Uint.checked_add (gen_chain_trust cur_best_block_index) (ONE 4)));
  best_chain_candidates ← lift (map_err BestChainCandidatesError (BestChainCandidates_new s min_chain_trust));
  activate_candidates (size (st_index s)) min_chain_trust best_chain_candidates.

Definition invalidate_block id (is_explicit_invalidation : IsExplicit) : MI unit :=
  s ← self;
  if negb (is_block_in_main_chain chain_config s id) then
    _ ← invalidate_stale_block id is_explicit_invalidation; mret tt
  else
    block_index ← lift (map_err (BlockIndexQueryError id) (get_existing_block_index s id));
    best_block_index ← lift (map_err BestBlockIndexQueryError (get_best_block_index chain_config s));
    let min_height_with_allowed_reorg := get_min_height_with_allowed_reorg s in
    best_block_id ← lift (expect (classify chain_config (gen_block_id best_block_index)));
    _ ← lift (ensure (ival min_height_with_allowed_reorg <? ival (bi_block_height block_index))
                (BlockTooDeepToInvalidate id));
    _ ← with_rw_tx (st_map_err (BlocksDisconnectionError (bi_prev_block_id block_index))
          (disconnect_until chain_config (best_height chain_config s) best_block_id (bi_prev_block_id block_index)));
    _ ← invalidate_stale_block id is_explicit_invalidation;
    _ ← find_and_activate_best_chain;
    mret tt.

Definition reset_block_failure_flags id : MI unit :=
  s ← self;
  block_indices_to_clear ← lift (map_err BlockIndicesForBranchQueryError (collect_block_indices_in_branch chain_config s id));
  _ ← with_rw_tx (try_for_each (fun cur_index =>
        if negb (bi_is_persisted cur_index) then
          st_map_err (DelBlockIndexError (bi_block_id cur_index))
            (del_block_index_of_non_persisted_block (bi_block_id cur_index))
        else update_status cur_index BlockStatus.with_cleared_fail_bits) block_indices_to_clear);
  _ ← find_and_activate_best_chain;
  mret tt.

(** ** Processing a block *)

(** [process_genesis], with what it makes of the ledgers as an argument. *)
Definition process_genesis (genesis_ledger : L) s : Store L :=
  let s := with_best_block (Some (genesis_block_id chain_config)) s in
  let s := with_by_height (<[BlockHeight.zero := genesis_block_id chain_config]> (st_by_height s)) s in
  with_ledger genesis_ledger s.

(** [attempt_to_process_block]; the results of the changes made after a failure
    are ignored. *)
Definition attempt_to_process_block (block : TxVerifier.Block) (block_source : BlockSource) : M (option BlockIndex) :=
  let block_id := block_get_id block in
  s ← self;
  _ ← lift (ensure match block_source, get_gen_block_index chain_config s (prev_block_id block) with
                   | Local, None => false
                   | _, _ => true
                   end BlockError.LocalOrphan);
  _ ← lift match get_block_index s block_id with
           | Some block_index =>
               status_ok ← BlockStatus.is_ok (bi_status block_index);
               Err (if (status_ok : bool) then BlockError.BlockAlreadyProcessed block_id
                    else BlockError.InvalidBlockAlreadyProcessed block_id)
           | None => Ok tt
           end;
  block_index ← lift (create_block_index_for_new_block chain_config s block BlockStatus.new);
  integrate_block_result ← catch (with_rw_tx (integrate_block block block_index));
  s ← self;
  match integrate_block_result with
  | Ok reorg_occurred =>
      saved_block_index ← lift (map_err (BlockError.BlockIndexQueryError block_id) (get_existing_block_index s block_id));
      status_ok ← lift (BlockStatus.is_ok (bi_status saved_block_index));
      _ ← lift (assert_true status_ok);
      mret (if (reorg_occurred : bool) then Some saved_block_index else None)
  | Err (OtherNonValidationError err) => lift (Err err)
  | Err (ConnectBlockErrorDuringReorg err status first_invalid_parent_id) =>
      _ ← lift (assert_true (negb (is_block_in_main_chain chain_config s first_invalid_parent_id)));
      if ErrorClass.block_should_be_invalidated (classify_block_error err) then
        status_ok ← lift (BlockStatus.is_ok status);
        _ ← lift (assert_true status_ok);
        _ ← catch (F := BlockError L) (with_rw_tx (set_new_block_index (with_status status block_index)));
        _ ← catch (F := BlockError L) (invalidate_block first_invalid_parent_id ExplicitNo);
        lift (Err err)
      else lift (Err err)
  | Err (OtherReorgError err _) => lift (Err err)
  | Err (BlockCheckError err status) =>
      if ErrorClass.block_should_be_invalidated (classify_block_error err) then
        status ← lift (BlockStatus.set_validation_failed status);
        _ ← catch (F := BlockError L) (with_rw_tx (set_new_block_index (with_status status block_index)));
        lift (Err err)
      else lift (Err err)
  | Panic => lift Panic
  end.
End process.
