(* ===== verification/Branches.v ===== *)
(** * Branches of the block tree

    What the operations of [block_invalidation/mod.rs] read and change: the
    blocks by height, the branch that starts at a block
    ([collect_block_indices_in_branch] of [chainstateref/mod.rs]), and the
    statuses of a list of blocks.  The branch is compared with an inductive
    definition ([in_branch]); the changes keep the main chain and the shape of
    the tree. *)
From S2P Require Import Prelude Amount Uint ChainTypes ChainConfig Compact BlockTree Utxo TxTypes Policy.
From S2P Require Import CheckTransaction TxVerifier ChainstateRef Chainstate.

(** A block and everything below it. *)
Inductive in_branch `{CryptoTypes} (db : gmap BlockId BlockIndex) (root : BlockId) : BlockId -> Prop :=
  | in_branch_root : in_branch db root root
  | in_branch_child id bi : db !! id = Some bi -> in_branch db root (bi_prev_block_id bi) -> in_branch db root id.

(** ** Blocks by height *)

Section by_height.
Context `{CryptoTypes} {L : Type} (s : Store L) (start : BlockHeight).
Implicit Types (bi : BlockIndex) (h : BlockHeight) (l : list (BlockId * BlockIndex)).

Definition at_height h l : list BlockId :=
  (fun e => bi_block_id e.2) <$> filter (fun e => bi_block_height e.2 = h) l.
Definition add_by_height (m : gmap BlockHeight (list BlockId)) (e : BlockId * BlockIndex) :=
  let '(_, bi) := e in
  if ival start <=? ival (bi_block_height bi)
  then <[bi_block_height bi := default [] (m !! bi_block_height bi) ++ [bi_block_id bi]]> m else m.

Lemma by_height_lookup l h : foldl add_by_height ∅ l !! h =
  if ival start <=? ival h then match at_height h l with [] => None | ids => Some ids end else None.
Proof.
  induction l as [|[k bi] l IH] using rev_ind; [by destruct (_ <=? _)|].
  rewrite foldl_snoc. unfold at_height. rewrite filter_app, fmap_app. cbn [add_by_height].
  rewrite filter_cons, filter_nil. cbn [snd].
  destruct (decide (bi_block_height bi = h)) as [<-|Hne].
  - destruct (ival start <=? ival (bi_block_height bi)) eqn:Hle; [|done].
    rewrite lookup_insert_eq, IH. fold (at_height (bi_block_height bi) l). by destruct (at_height _ l).
  - rewrite app_nil_r. fold (at_height h l). destruct (ival start <=? ival (bi_block_height bi)); [|done].
    by rewrite lookup_insert_ne.
Qed.

Lemma elem_of_by_height h ids id : get_block_tree_by_height s start !! h = Some ids ->
  id ∈ ids <-> exists k bi, st_index s !! k = Some bi /\ bi_block_id bi = id /\ bi_block_height bi = h.
Proof.
  unfold get_block_tree_by_height. change (foldl _ ∅ ?l) with (foldl add_by_height ∅ l).
  rewrite by_height_lookup. destruct (_ <=? _); [|done]. set (l := btree_iter _).
  assert (id ∈ at_height h l <-> exists k bi, st_index s !! k = Some bi /\ bi_block_id bi = id /\ bi_block_height bi = h) as <-.
  - unfold at_height. rewrite list_elem_of_fmap. setoid_rewrite list_elem_of_filter. split.
    + intros ([k bi] & -> & Hh & Hin%elem_of_btree_iter). eauto.
    + intros (k & bi & Hk & <- & Hh). exists (k, bi). split_and!; [done..|]. by apply elem_of_btree_iter.
  - destruct (at_height h l); [done|]. by intros [= <-].
Qed.

Lemma by_height_bound h : is_Some (get_block_tree_by_height s start !! h) -> ival start <= ival h.
Proof.
  unfold get_block_tree_by_height. change (foldl _ ∅ ?l) with (foldl add_by_height ∅ l).
  rewrite by_height_lookup. destruct (Z.leb_spec (ival start) (ival h)); [done|]. by intros [].
Qed.

Lemma NoDup_by_height h ids : (forall id bi, st_index s !! id = Some bi -> bi_block_id bi = id) ->
  get_block_tree_by_height s start !! h = Some ids -> NoDup ids.
Proof.
  intros Hid. unfold get_block_tree_by_height. change (foldl _ ∅ ?l) with (foldl add_by_height ∅ l).
  rewrite by_height_lookup. destruct (_ <=? _); [|done]. set (l := btree_iter _).
  assert (NoDup (at_height h l)) as Hnd; [|destruct (at_height h l); [done|by intros [= <-]]].
  unfold at_height. rewrite (list_fmap_ext _ fst).
  - eapply sublist_NoDup; [apply (btree_iter_NoDup (st_index s))|]. apply fmap_sublist, sublist_filter.
  - intros i [k bi] Hi%list_elem_of_lookup_2. apply list_elem_of_filter in Hi as [_ Hi%elem_of_btree_iter].
    by apply Hid.
Qed.
End by_height.

(** Lists of values by key, one after the other. *)
Lemma list_same_key {A : Type} (key : A -> Z) (k : Z) (l : list A) : (forall x, x ∈ l -> key x = k) ->
  StronglySorted (fun x y => key x <= key y) l.
Proof.
  induction l as [|x l IH]; intros Hk; constructor.
  - apply IH. intros y Hy. apply Hk. by right.
  - apply Forall_forall. intros y Hy. rewrite (Hk x), (Hk y) by (by constructor). lia.
Qed.

Lemma sorted_concat {A : Type} (key : A -> Z) (l : list (BlockHeight * list A)) :
  StronglySorted entry_le l -> NoDup l.*1 -> (forall h xs, (h, xs) ∈ l -> NoDup xs /\ forall x, x ∈ xs -> key x = ival h) ->
  NoDup (concat l.*2) /\ StronglySorted (fun x y => key x <= key y) (concat l.*2).
Proof.
  induction l as [|[h xs] l IH]; intros Hs Hnd Hall; [by split; constructor|].
  apply StronglySorted_cons in Hs as [Hfst Hs]. csimpl in Hnd. apply NoDup_cons in Hnd as [Hh Hnd].
  destruct IH as [IHn IHs]; [done..|by intros ? ? ?; apply Hall; right|].
  destruct (Hall h xs) as [Hxs Hkey]; [left|]. csimpl.
  assert (forall y, y ∈ concat l.*2 -> exists h' ys, (h', ys) ∈ l /\ key y = ival h') as Hrest.
  { intros y (ys & Hys & Hy)%list_elem_of_In%in_concat. apply list_elem_of_In, list_elem_of_fmap in Hys as ([h' ys'] & -> & Hin).
    exists h', ys'. split; [done|]. apply (Hall h' ys'); [by right|by apply list_elem_of_In]. }
  split.
  - apply NoDup_app. split_and!; [done| |done]. intros x Hx Hx'. apply Hh.
    destruct (Hrest x Hx') as (h' & ys & Hin & Hk). rewrite (Hkey x Hx) in Hk. apply bint_eq in Hk as ->.
    apply (list_elem_of_fmap_2 fst _ _ Hin).
  - apply StronglySorted_app. split_and!; [|by apply (list_same_key key (ival h))|done].
    intros x y Hx Hy. destruct (Hrest y Hy) as (h' & ys & Hin & ->). rewrite (Hkey x Hx).
    by apply (proj1 (Forall_forall _ _) Hfst) in Hin.
Qed.

Section ids.
Context `{CryptoTypes} {L : Type} (s : Store L).
Context (Hids : forall id bi, st_index s !! id = Some bi -> bi_block_id bi = id).
Implicit Types (id : BlockId) (bi : BlockIndex).

Definition height_of id : Z := match st_index s !! id with Some bi => ival (bi_block_height bi) | None => -1 end.

Lemma higher_ids_spec start : let l := get_higher_block_ids_sorted_by_height s start in
  NoDup l /\ StronglySorted (fun x y => height_of x <= height_of y) l /\
  forall id, id ∈ l <-> exists bi, st_index s !! id = Some bi /\ ival start <= ival (bi_block_height bi).
Proof.
  intros l. unfold l, get_higher_block_ids_sorted_by_height. set (m := get_block_tree_by_height s start).
  destruct (sorted_concat height_of (btree_iter m)) as [Hn Hs].
  - apply Sorted_StronglySorted; [apply _|apply btree_iter_sorted].
  - apply btree_iter_NoDup.
  - intros h xs Hin%elem_of_btree_iter. split; [by eapply NoDup_by_height|]. intros x Hx.
    apply (elem_of_by_height _ _ _ _ _ Hin) in Hx as (k & bi & Hk & <- & <-). unfold height_of.
    by rewrite (Hids _ _ Hk), Hk.
  - split_and!; [done..|]. intros id. rewrite list_elem_of_In, in_concat. split.
    + intros (ids & Hin & Hid). apply list_elem_of_In, list_elem_of_fmap in Hin as ([h ids'] & -> & Hm%elem_of_btree_iter).
      pose proof (by_height_bound s start h ltac:(eauto)) as Hb. apply list_elem_of_In in Hid.
      apply (elem_of_by_height _ _ _ _ _ Hm) in Hid as (k & bi & Hk & <- & <-). exists bi. by rewrite (Hids _ _ Hk).
    + intros (bi & Hbi & Hle).
      destruct (m !! bi_block_height bi) as [ids|] eqn:Hm.
      * exists ids. rewrite <- !list_elem_of_In. split.
        -- apply (list_elem_of_fmap_2 snd _ (bi_block_height bi, ids)). by apply elem_of_btree_iter.
        -- apply (elem_of_by_height _ _ _ _ _ Hm). exists id, bi. split_and!; [done|by apply Hids|done].
      * exfalso. unfold m, get_block_tree_by_height in Hm. change (foldl _ ∅ ?l) with (foldl (add_by_height start) ∅ l) in Hm.
        rewrite by_height_lookup, (proj2 (Z.leb_le _ _) Hle) in Hm. destruct (at_height _ _) eqn:Hat; [|done].
        apply (not_elem_of_nil (bi_block_id bi)). rewrite <- Hat. unfold at_height.
        apply list_elem_of_fmap. exists (id, bi). split; [done|]. apply list_elem_of_filter. split; [done|].
        by apply elem_of_btree_iter.
Qed.
End ids.

(** ** The blocks of a branch *)

Section branch.
Context `{CryptoTypes} `{TimeslotWeights} {L : Type} (chain_config : ChainConfig) (s : Store L).
Context (Hwf : wf_tree chain_config (st_index s)).
Implicit Types (id : BlockId) (bi : BlockIndex) (g : GenBlockIndex).
Import GenBlockIndex.
Abbreviation getter := (gen_block_index_getter chain_config).
Abbreviation below root := (in_branch (st_index s) root).

Lemma index_id id bi : st_index s !! id = Some bi -> bi_block_id bi = id.
Proof. by intros [? _]%Hwf. Qed.
Lemma index_not_genesis id bi : st_index s !! id = Some bi -> id <> genesis_block_id chain_config.
Proof. intros Hbi. destruct (Hwf _ _ Hbi) as [<- []]. done. Qed.

(** The parent of a block, one lower. *)
Lemma index_parent id bi : st_index s !! id = Some bi ->
  (bi_prev_block_id bi = genesis_block_id chain_config /\ ival (bi_block_height bi) = 1) \/
  (bi_prev_block_id bi <> genesis_block_id chain_config /\
   exists pbi, st_index s !! bi_prev_block_id bi = Some pbi /\
     ival (bi_block_height bi) = ival (bi_block_height pbi) + 1).
Proof.
  intros Hbi. destruct (Hwf _ _ Hbi) as [_ Hl].
  destruct (linked_prev chain_config _ Hwf bi Hl) as (p & Hp & _ & _ & Hc). apply cont_height in Hc.
  destruct (getter_inv _ _ _ _ Hp) as [[Hg ->]|(Hne & pbi & -> & Hpbi)]; [left|right]; [done|]. eauto.
Qed.

Lemma index_height id bi : st_index s !! id = Some bi -> 1 <= ival (bi_block_height bi).
Proof.
  intros Hbi. destruct (index_parent id bi Hbi) as [[_ ?]|(_ & pbi & _ & ?)]; [lia|].
  pose proof (bint_range (bi_block_height pbi)). lia.
Qed.

Lemma genesis_not_below root rbi : st_index s !! root = Some rbi -> ~ below root (genesis_block_id chain_config).
Proof.
  intros Hr Hb. inversion Hb as [Hx|? x Hx]; subst.
  - by apply (index_not_genesis _ _ Hr).
  - by apply index_not_genesis in Hx.
Qed.

Lemma below_height root rbi id bi : below root id -> st_index s !! root = Some rbi -> st_index s !! id = Some bi ->
  id = root \/ ival (bi_block_height rbi) < ival (bi_block_height bi).
Proof.
  intros Hb Hr. revert bi. induction Hb as [|id bi' Hbi' Hb IH]; intros bi Hbi; [by left|]. right.
  rewrite Hbi in Hbi'. injection Hbi' as <-.
  destruct (index_parent id bi Hbi) as [[Hg Hh]|(_ & pbi & Hp & Hh)].
  - rewrite Hg in Hb. by apply (genesis_not_below root rbi) in Hb.
  - destruct (IH pbi Hp) as [Heq|]; [|lia]. rewrite Heq, Hr in Hp. injection Hp as <-. lia.
Qed.

Lemma below_index root rbi id : st_index s !! root = Some rbi -> below root id -> is_Some (st_index s !! id).
Proof. intros Hr []; eauto. Qed.

Lemma below_parent root id bi : below root id -> st_index s !! id = Some bi -> id <> root -> below root (bi_prev_block_id bi).
Proof. intros Hb Hbi Hne. destruct Hb as [|id bi' Hbi' Hb]; [done|]. rewrite Hbi in Hbi'. by injection Hbi' as <-. Qed.

Lemma parent_not_below root rbi : st_index s !! root = Some rbi -> ~ below root (bi_prev_block_id rbi).
Proof.
  intros Hr Hb. destruct (index_parent root rbi Hr) as [[Hg _]|(_ & pbi & Hp & Hh)].
  - rewrite Hg in Hb. by eapply genesis_not_below.
  - destruct (below_height root rbi _ pbi Hb Hr Hp) as [Heq|]; [|lia]. rewrite Heq, Hr in Hp. injection Hp as <-. lia.
Qed.

Lemma follow_below n g a : getter (st_index s) (gen_block_id g) = Some g ->
  follow chain_config (st_index s) n g = Some a -> below (gen_block_id a) (gen_block_id g).
Proof.
  revert g. induction n as [|n IH]; intros g Hg Hf; [injection Hf as ->; constructor|].
  destruct g as [bi|]; [|done]. destruct (getter_inv _ _ _ _ Hg) as [[_ [=]]|(Hne & b & [= <-] & Hbi)].
  simpl in Hf. destruct (getter (st_index s) (bi_prev_block_id bi)) as [p|] eqn:Hp; [|done]. simpl in Hf.
  destruct (getter_linked chain_config _ Hwf _ _ Hp) as [_ Hpid]. rewrite <- Hpid in Hp.
  eapply in_branch_child; [exact Hbi|]. rewrite <- Hpid. by apply IH.
Qed.

Lemma collect_branch_spec root rbi ids seen : st_index s !! root = Some rbi ->
  (forall x, x ∈ seen -> below root x) -> (forall x, below root x -> x ∈ seen \/ x ∈ ids) ->
  NoDup ids -> StronglySorted (fun x y => height_of s x <= height_of s y) ids ->
  (forall x, x ∈ ids -> exists bi, st_index s !! x = Some bi /\ ival (bi_block_height rbi) < ival (bi_block_height bi)) ->
  exists l, collect_branch chain_config s seen ids = Ok l /\ NoDup (bi_block_id <$> l) /\
    forall bi, bi ∈ l <-> bi_block_id bi ∈ ids /\ below root (bi_block_id bi) /\ st_index s !! bi_block_id bi = Some bi.
Proof.
  intros Hr. revert seen. induction ids as [|id ids IH]; intros seen Hseen Hcov Hnd Hsort Hidx; cbn [collect_branch].
  { exists []. split; [done|]. split; [constructor|]. intros bi. split; [by intros ?%not_elem_of_nil|by intros [?%not_elem_of_nil _]]. }
  apply NoDup_cons in Hnd as [Hni Hnd]. apply StronglySorted_cons in Hsort as [Hfst Hsort].
  destruct (Hidx id) as (bi & Hbi & Hh); [left|]. pose proof (index_id _ _ Hbi) as Hid.
  unfold get_existing_block_index, get_block_index. rewrite Hbi. cbn [ok_or mbind result_bind].
  pose proof (bint_range (bi_block_height rbi)). pose proof (index_height _ _ Hr).
  destruct (index_parent id bi Hbi) as [[_ Hh1]|(Hne & pbi & Hp & Hhp)]; [lia|].
  unfold classify. rewrite bool_decide_false by done. cbn [expect mbind result_bind].
  assert (below root id <-> bi_prev_block_id bi ∈ seen) as Hiff.
  { split; [|intros ?%Hseen; by eapply in_branch_child].
    intros Hb. assert (id <> root) as Hnr by (intros ->; rewrite Hr in Hbi; injection Hbi as ->; lia).
    destruct (Hcov _ (below_parent root id bi Hb Hbi Hnr)) as [|Hin]; [done|]. exfalso.
    apply elem_of_cons in Hin as [Heq|Hin]; [rewrite Heq, Hbi in Hp; injection Hp as ->; lia|].
    apply (proj1 (Forall_forall _ _) Hfst) in Hin. unfold height_of in Hin. rewrite Hbi, Hp in Hin. lia. }
  case_bool_decide as Hin.
  - destruct (IH ({[id]} ∪ seen)) as (l & -> & Hndl & Hl); [set_solver| |done|done|by intros ? ?; apply Hidx; right|].
    { intros x Hx. destruct (Hcov x Hx) as [|[->|]%elem_of_cons]; set_solver. }
    exists (bi :: l). split; [done|]. split.
    + csimpl. apply NoDup_cons. split; [|done]. rewrite Hid. intros (b & -> & Hb)%list_elem_of_fmap. by apply Hl in Hb as [? _].
    + intros b. rewrite !elem_of_cons, Hl. split.
      * intros [->|(? & ? & ?)]; [rewrite Hid; split_and!; [by left|by apply Hiff|done]|naive_solver].
      * intros ([Heq|?] & ? & Hb); [left; rewrite Heq, Hbi in Hb; congruence|by right].
  - destruct (IH seen) as (l & -> & Hndl & Hl); [done| |done|done|by intros ? ?; apply Hidx; right|].
    { intros x Hx. destruct (Hcov x Hx) as [|[->|]%elem_of_cons]; [by left|by apply Hiff in Hx|by right]. }
    exists l. split; [done|]. split; [done|]. intros b. rewrite Hl, elem_of_cons. split; [naive_solver|].
    intros ([Heq|?] & Hb & ?); [rewrite Heq in Hb; by apply Hiff in Hb|done].
Qed.

(** The indices of a branch are the root and everything below it, each once. *)
Lemma collect_branch_exact root rbi : st_index s !! root = Some rbi -> ival (bi_block_height rbi) + 1 < 2 ^ 64 ->
  exists l, collect_block_indices_in_branch chain_config s root = Ok (rbi :: l) /\
    NoDup (bi_block_id <$> rbi :: l) /\
    forall bi, bi ∈ rbi :: l <-> below root (bi_block_id bi) /\ st_index s !! bi_block_id bi = Some bi.
Proof.
  intros Hr Hh. pose proof (index_id _ _ Hr) as Hid.
  unfold collect_block_indices_in_branch, get_existing_block_index, get_block_index. rewrite Hr.
  cbn [ok_or mbind result_bind]. unfold BlockHeight.next_height. pose proof (bint_range (bi_block_height rbi)).
  destruct (bint_of_Z_is_Some (lo := 0) (hi := 2 ^ 64 - 1) (ival (bi_block_height rbi) + 1)) as (h & -> & Hhv); [lia|].
  cbn [expect mbind result_bind]. destruct (higher_ids_spec s index_id h) as (Hnd & Hsort & Hmem).
  destruct (collect_branch_spec root rbi (get_higher_block_ids_sorted_by_height s h) {[bi_block_id rbi]} Hr)
    as (l & -> & Hndl & Hl); [| |done|done| |].
  - intros x ->%elem_of_singleton. rewrite Hid. constructor.
  - intros x Hx. destruct (below_index root rbi x Hr Hx) as [xbi Hxbi].
    destruct (below_height root rbi x xbi Hx Hr Hxbi) as [->|Hlt]; [left; set_solver|]. right. apply Hmem. exists xbi.
    split; [done|lia].
  - intros x (xbi & Hx & Hle)%Hmem. exists xbi. split; [done|lia].
  - exists l. split; [done|]. split.
    + csimpl. apply NoDup_cons. split; [|done]. intros (b & Hb & Hin)%list_elem_of_fmap. apply Hl in Hin as (Hin & _ & _).
      rewrite <- Hb, Hid in Hin. apply Hmem in Hin as (b' & Hb' & Hle). rewrite Hr in Hb'. injection Hb' as <-. lia.
    + intros b. rewrite elem_of_cons, Hl. split.
      * intros [->|(_ & ? & ?)]; [rewrite Hid; split; [constructor|done]|done].
      * intros [Hb Hbi]. destruct (below_height root rbi _ b Hb Hr Hbi) as [Heq|Hlt]; [left; rewrite Heq, Hr in Hbi; congruence|].
        right. split_and!; [|done|done]. apply Hmem. exists b. split; [done|lia].
Qed.
End branch.

(** ** Trees of the same shape *)

Section shape.
Context `{CryptoTypes} `{TimeslotWeights} (chain_config : ChainConfig).
Implicit Types (db : gmap BlockId BlockIndex) (id : BlockId) (bi : BlockIndex) (g : GenBlockIndex).
Import GenBlockIndex.

(** Everything but the statuses. *)
Definition shape db : gmap BlockId (BlockIndex * bool) := (fun bi => (core bi, bi_is_persisted bi)) <$> db.

Lemma shape_lookup db db' id bi : shape db' = shape db -> db !! id = Some bi ->
  exists bi', db' !! id = Some bi' /\ core bi' = core bi /\ bi_is_persisted bi' = bi_is_persisted bi.
Proof.
  intros Hs Hbi. assert (shape db' !! id = Some (core bi, bi_is_persisted bi)) as Hl
    by (rewrite Hs; unfold shape; by rewrite lookup_fmap, Hbi).
  unfold shape in Hl. rewrite lookup_fmap in Hl. destruct (db' !! id) as [bi'|]; [|done]. apply (inj Some), pair_equal_spec in Hl as [Hc Hp]. exists bi'. done.
Qed.
Lemma shape_None db db' id : shape db' = shape db -> db !! id = None <-> db' !! id = None.
Proof.
  intros Hs. rewrite <- (fmap_None (fun bi => (core bi, bi_is_persisted bi))), <- lookup_fmap.
  fold (shape db). rewrite <- Hs. unfold shape. by rewrite lookup_fmap, fmap_None.
Qed.
Lemma shape_extends db db' : shape db' = shape db -> extends db db'.
Proof. intros Hs id bi Hbi. destruct (shape_lookup _ _ _ _ Hs Hbi) as (bi' & ? & ? & _). eauto. Qed.
Lemma shape_insert db id bi bi' : db !! id = Some bi -> core bi' = core bi -> bi_is_persisted bi' = bi_is_persisted bi ->
  shape (<[id := bi']> db) = shape db.
Proof.
  intros Hbi Hc Hp. unfold shape. rewrite fmap_insert. apply insert_id. by rewrite lookup_fmap, Hbi, Hc, Hp.
Qed.
Lemma shape_size db db' : shape db' = shape db -> size db' = size db.
Proof. intros Hs. rewrite <- (map_size_fmap (fun bi => (core bi, bi_is_persisted bi)) db). fold (shape db).
  rewrite <- Hs. unfold shape. by rewrite map_size_fmap. Qed.
Lemma shape_dom db db' : shape db' = shape db -> dom db' = dom db.
Proof. intros Hs. rewrite <- (dom_fmap_L (fun bi => (core bi, bi_is_persisted bi)) db). fold (shape db).
  rewrite <- Hs. unfold shape. by rewrite dom_fmap_L. Qed.

Lemma shape_wf db db' : shape db' = shape db -> wf_tree chain_config db -> wf_tree chain_config db'.
Proof.
  intros Hs Hwf id bi' Hbi'. destruct (shape_lookup db' db id bi') as (bi & Hbi & Hc & _); [done..|].
  destruct (Hwf _ _ Hbi) as [Hid Hl]. split; [by destruct (core_facts _ _ Hc) as (<- & _)|].
  eapply extends_linked; [by apply shape_extends|by symmetry|done].
Qed.

Lemma shape_branch db db' root id : shape db' = shape db -> in_branch db root id -> in_branch db' root id.
Proof.
  intros Hs. induction 1 as [|id bi Hbi _ IH]; [constructor|].
  destruct (shape_lookup _ _ _ _ Hs Hbi) as (bi' & Hbi' & (_ & Hpr & _)%core_facts & _).
  eapply in_branch_child; [done|]. by rewrite Hpr.
Qed.

Lemma advanced_shape {L} (s s' : Store L) : advanced s s' -> shape (st_index s') = shape (st_index s).
Proof.
  intros (_ & _ & Ha). apply map_eq. intros id. unfold shape. rewrite !lookup_fmap. specialize (Ha id).
  destruct (st_index s !! id), (st_index s' !! id); try done. simpl. by destruct Ha as (-> & -> & _).
Qed.

(** Following parents through blocks that did not change. *)
Lemma follow_agree db db' n g :
  (forall m a, follow chain_config db m g = Some a ->
    gen_block_index_getter chain_config db' (gen_block_id a) = gen_block_index_getter chain_config db (gen_block_id a)) ->
  wf_tree chain_config db -> gen_linked chain_config db g ->
  follow chain_config db' n g = follow chain_config db n g.
Proof.
  intros Ha Hwf Hg. revert g Ha Hg. induction n as [|n IH]; intros g Ha Hg; [done|]. destruct g as [bi|]; [|done].
  destruct (linked_prev chain_config _ Hwf bi Hg) as (p & Hp & Hlp & Hpid & _). simpl. rewrite Hp. simpl.
  assert (gen_block_index_getter chain_config db' (bi_prev_block_id bi) = Some p) as ->.
  { rewrite <- Hpid, (Ha 1%nat p) by (simpl; by rewrite Hp). by rewrite Hpid. }
  simpl. apply IH; [|done]. intros m a Hf. apply (Ha (S m)). simpl. by rewrite Hp.
Qed.

(** Removing blocks whose children are removed as well. *)
Lemma wf_tree_sub db db' : wf_tree chain_config db ->
  (forall id bi', db' !! id = Some bi' -> exists bi, db !! id = Some bi /\ core bi = core bi') ->
  (forall id bi', db' !! id = Some bi' -> bi_prev_block_id bi' <> genesis_block_id chain_config ->
     is_Some (db' !! bi_prev_block_id bi')) -> wf_tree chain_config db'.
Proof.
  intros Hwf Hsub Hclosed.
  assert (forall id g, gen_block_index_getter chain_config db id = Some g -> id = genesis_block_id chain_config \/ is_Some (db' !! id) ->
    exists g', gen_block_index_getter chain_config db' id = Some g' /\ gen_core g' = gen_core g /\
      forall pid, gen_prev_block_id g' = Some pid -> pid = genesis_block_id chain_config \/ is_Some (db' !! pid)) as Hget.
  { intros id g [[-> ->]|(Hne & bi & -> & Hbi)]%getter_inv Hkept.
    - exists (genesis chain_config). by rewrite getter_genesis.
    - destruct Hkept as [?|[bi' Hbi']]; [done|]. destruct (Hsub _ _ Hbi') as (b & Hb & Hc). rewrite Hbi in Hb. injection Hb as <-.
      exists (Block bi'). split_and!; [by apply getter_block|simpl; by rewrite Hc|]. intros pid [= <-].
      destruct (decide (bi_prev_block_id bi' = genesis_block_id chain_config)); [by left|right; by eapply Hclosed]. }
  assert (forall n id r, follow_id chain_config db n id = Some r -> id = genesis_block_id chain_config \/ is_Some (db' !! id) ->
    follow_id chain_config db' n id = Some r) as Hfol.
  { induction n as [|n IH]; intros id r Hf Hk; [done|]. simpl in *.
    destruct (gen_block_index_getter chain_config db id) as [g|] eqn:Hg; [|done]. simpl in Hf.
    destruct (Hget id g Hg Hk) as (g' & -> & Hc & Hp). simpl. apply gen_core_facts in Hc as (_ & Hpr & _). rewrite <- Hpr in Hf.
    destruct (gen_prev_block_id g') as [pid|]; [|done]. simpl in *. apply IH; [done|by apply Hp]. }
  intros id bi' Hbi'. destruct (Hsub _ _ Hbi') as (bi & Hbi & Hc). destruct (Hwf _ _ Hbi) as [Hid [Hne (p & Hp & Hcont)]].
  assert (bi_prev_block_id bi = bi_prev_block_id bi') as Hpr by (by apply core_facts in Hc as (_ & -> & _)).
  assert (bi_prev_block_id bi = genesis_block_id chain_config \/ is_Some (db' !! bi_prev_block_id bi)) as Hkept.
  { destruct (decide (bi_prev_block_id bi = genesis_block_id chain_config)) as [|Hpg]; [by left|right]. rewrite Hpr in *. by eapply Hclosed. }
  destruct (Hget _ _ Hp Hkept) as (p' & Hp' & Hcp & _).
  apply gen_core_facts in Hcp as (_ & _ & Hh & Ht & Hm & Htr & Hcnt).
  destruct bi as [i h sa tr ht tm cnt st per], bi' as [i' h' sa' tr' ht' tm' cnt' st' per'].
  injection Hc as -> -> -> -> -> -> ->. split; [done|]. split; [done|]. exists p'. split; [done|].
  destruct Hcont as [Hch Hcs Hcw Hct Hcm Hcc]. unfold bi_prev_block_id, bi_consensus_data, bi_block_timestamp in *.
  cbn -[get_block_proof] in *.
  split; cbn -[get_block_proof]; rewrite ?Hh, ?Ht, ?Hm, ?Htr, ?Hcnt; [done| |done..]. by apply Hfol.
Qed.
End shape.

(** ** Changes of statuses *)

Section statuses.
Context `{CryptoTypes} {L : Type} `{!BlockChecks L} `{!BlockLedger L}.
Implicit Types (s : Store L) (id : BlockId) (bi : BlockIndex).

Lemma update_status_run s bi (f : BlockStatus -> result BlockInvalidatorError BlockStatus) x :
  f (bi_status bi) = Ok x -> st_index s !! bi_block_id bi = Some bi ->
  update_status bi f s = (with_index (<[bi_block_id bi := with_status x bi]> (st_index s)) s, Ok tt).
Proof.
  intros Hf Hbi. unfold update_status. rewrite Hf, (st_bind_run _ _ s s x) by done.
  unfold st_map_err, update_block_status. rewrite (st_bind_run _ _ s s s) by done.
  unfold get_block_index. rewrite Hbi, bool_decide_true by done. erewrite st_bind_run by done.
  unfold set_block_index, modify. by destruct bi.
Qed.

(** What a loop over statuses makes of the indices: those of the list have the
    new status, all others are as before. *)
Definition updated (f : BlockStatus -> result BlockInvalidatorError BlockStatus) (l : list BlockIndex)
    (db db' : gmap BlockId BlockIndex) : Prop :=
  forall id, db' !! id =
    match db !! id with
    | Some bi => if bool_decide (id ∈ bi_block_id <$> l)
                 then match f (bi_status bi) with Ok x => Some (with_status x bi) | _ => Some bi end else Some bi
    | None => None
    end.

Lemma update_statuses_run f l s : (forall x, exists y, f x = Ok y) -> NoDup (bi_block_id <$> l) ->
  (forall bi, bi ∈ l -> st_index s !! bi_block_id bi = Some bi) ->
  exists db', try_for_each (fun bi => update_status bi f) l s = (with_index db' s, Ok tt) /\ updated f l (st_index s) db'.
Proof.
  intros Hf. revert s. induction l as [|bi l IH]; intros s Hnd Hin; cbn [try_for_each].
  { exists (st_index s). split; [by destruct s|]. intros id. rewrite bool_decide_false by (csimpl; apply not_elem_of_nil).
    by destruct (st_index s !! id). }
  csimpl in Hnd. apply NoDup_cons in Hnd as [Hni Hnd]. destruct (Hf (bi_status bi)) as [x Hx].
  pose proof (Hin bi ltac:(left)) as Hbi. rewrite (st_bind_run _ _ _ _ _ (update_status_run s bi f x Hx Hbi)).
  destruct (IH (with_index (<[bi_block_id bi := with_status x bi]> (st_index s)) s)) as (db' & Hrun & Hupd); [done| |].
  { intros b Hb. cbn. rewrite lookup_insert_ne; [apply Hin; by right|]. intros Heq. apply Hni. rewrite Heq.
    by apply list_elem_of_fmap_2. }
  exists db'. split; [done|]. intros id. rewrite (Hupd id). cbn. csimpl.
  destruct (decide (id = bi_block_id bi)) as [->|Hne].
  - rewrite lookup_insert_eq, Hbi, (bool_decide_false _ Hni), bool_decide_true, Hx by left. done.
  - rewrite lookup_insert_ne by done. destruct (st_index s !! id); [|done].
    by rewrite (bool_decide_ext (id ∈ bi_block_id bi :: (bi_block_id <$> l)) (id ∈ bi_block_id <$> l))
      by (rewrite elem_of_cons; naive_solver).
Qed.

Lemma updated_shape f l db db' : updated f l db db' -> shape db' = shape db.
Proof.
  intros Hu. apply map_eq. intros id. unfold shape. rewrite !lookup_fmap, (Hu id). destruct (db !! id) as [bi|]; [|done].
  destruct (bool_decide _), (f (bi_status bi)); by destruct bi.
Qed.
Lemma updated_other f l db db' id : updated f l db db' -> id ∉ bi_block_id <$> l -> db' !! id = db !! id.
Proof. intros Hu Hni. rewrite (Hu id), (bool_decide_false _ Hni). by destruct (db !! id). Qed.
End statuses.
