(* ===== verification/Invalidation.v ===== *)
(** * Invalidated blocks

    What [block_invalidation/mod.rs] does to a chainstate whose main chain and
    indices are in order ([chain_ok], [index_ok]): they stay so, the branch that
    is invalidated is marked as failed, and the search for another best chain
    ends with a chain that has more trust, or with the tip it started from. *)
From S2P Require Import Prelude Amount Uint ChainTypes ChainConfig Compact BlockTree Utxo TxTypes Policy.
From S2P Require Import CheckTransaction TxVerifier ChainstateRef Chainstate Branches.

Section invalidation.
Context `{CryptoTypes} `{!TxHash} `{!TxParameters} `{!BlockHashes} `{TimeslotWeights} {L : Type} `{!BlockChecks L}.
Context `{!BlockLedger L} `{!BlockLedgerLaws L}.
Context (chain_config : ChainConfig) (chainstate_config : ChainstateConfig) (genesis_ledger : L) (now : BlockTimestamp).
Implicit Types (s : Store L) (id root : BlockId) (bi : BlockIndex) (g p a : GenBlockIndex) (db : gmap BlockId BlockIndex).
Import GenBlockIndex.
Abbreviation getter := (gen_block_index_getter chain_config).
Abbreviation follow := (follow chain_config).
Abbreviation wf_tree := (wf_tree chain_config).
Abbreviation chain_ok := (chain_ok chain_config genesis_ledger).
Abbreviation index_ok := (index_ok chain_config).
Abbreviation in_main := (is_block_in_main_chain chain_config).

(** No block is so high that the next height would overflow. *)
Definition heights_fit s : Prop := forall id bi, st_index s !! id = Some bi -> ival (bi_block_height bi) + 1 < 2 ^ 64.

Lemma heights_fit_shape s s' : shape (st_index s') = shape (st_index s) -> heights_fit s -> heights_fit s'.
Proof.
  intros Hs Hh id bi Hbi. destruct (shape_lookup (st_index s') (st_index s) id bi) as (b & Hb & Hc & _); [done..|].
  apply core_facts in Hc as (_ & _ & <- & _). by apply (Hh id).
Qed.

(** ** Changes off the main chain *)

Lemma chain_ok_reindex s s' g : chain_ok s g -> wf_tree (st_index s') ->
  (forall id, in_main s id = true -> id <> genesis_block_id chain_config -> st_index s' !! id = st_index s !! id) ->
  (forall id bi, st_index s !! id = Some bi -> is_Some (st_blocks s !! id) ->
     exists bi', st_index s' !! id = Some bi' /\ core bi' = core bi) ->
  st_blocks s ⊆ st_blocks s' ->
  (forall id b, st_blocks s' !! id = Some b -> st_blocks s !! id = None ->
     exists bi, st_index s' !! id = Some bi /\ block_header b = bi_block_header bi) -> st_by_height s' = st_by_height s -> st_best_block s' = st_best_block s ->
  st_ledger s' = st_ledger s -> chain_ok s' g.
Proof.
  intros Hok Hwf' Hmain Hstored Hsub Hnew Hbh Hbest Hled. pose proof (ck_tree _ _ _ _ Hok) as Hwf.
  assert (forall m a, follow (st_index s) m g = Some a ->
    getter (st_index s') (gen_block_id a) = getter (st_index s) (gen_block_id a)) as Hagree.
  { intros m a Hf. unfold gen_block_index_getter, classify. case_bool_decide as Hgen; [done|].
    rewrite Hmain; [done| |done]. apply (main_chain_iff _ _ s g _ Hok). eauto. }
  assert (forall n, follow (st_index s') n g = follow (st_index s) n g) as Hfol
    by (intros n; apply follow_agree; [done..|by eapply chain_linked]).
  split; rewrite ?Hbest, ?Hled.
  - done.
  - apply (ck_best_id _ _ _ _ Hok).
  - rewrite (Hagree 0%nat g eq_refl). apply (ck_best _ _ _ _ Hok).
  - intros h. by rewrite Hbh, Hfol, (ck_by_height _ _ _ _ Hok).
  - intros n b. rewrite Hfol. apply (ck_valid _ _ _ _ Hok).
  - intros id b Hb. destruct (st_blocks s !! id) as [b0|] eqn:Hb0; [|by apply Hnew].
    assert (b0 = b) as -> by (pose proof (lookup_weaken _ _ _ _ Hb0 Hsub); congruence).
    destruct (ck_blocks _ _ _ _ Hok _ _ Hb0) as (bi & Hbi & Hh).
    destruct (Hstored id bi Hbi) as (bi' & Hbi' & Hc); [eauto|]. exists bi'. split; [done|].
    by apply core_facts in Hc as (_ & _ & _ & -> & _).
  - eapply Connected_mono; [apply (ck_connected _ _ _ _ Hok)|done|done].
Qed.

(** Nothing of the main chain is below a block that is not on it. *)
Lemma main_not_below s g root id : chain_ok s g -> in_branch (st_index s) root id -> in_main s root = false ->
  root <> genesis_block_id chain_config -> id <> genesis_block_id chain_config -> in_main s id = false.
Proof.
  intros Hok Hb Hr Hrg. induction Hb as [|id bi Hbi Hb IH]; intros Hg; [done|].
  apply not_true_iff_false. intros Hm. apply (main_chain_iff _ _ s g _ Hok) in Hm as (n & a & Hf & Ha).
  pose proof (ck_tree _ _ _ _ Hok) as Hwf. pose proof (chain_linked _ _ s g Hok) as Hl.
  destruct (follow_at _ s g n a Hwf Hl Hf) as (_ & _ & Hst). specialize (Hst (ck_best _ _ _ _ Hok)).
  rewrite Ha, (getter_block _ _ _ bi) in Hst by done. injection Hst as <-. simpl in Ha.
  destruct (Hwf _ _ Hbi) as [_ Hlb]. destruct (linked_prev chain_config _ Hwf bi Hlb) as (p & Hp & _ & Hpid & _).
  assert (in_main s (bi_prev_block_id bi) = true) as Hmp.
  { apply (main_chain_iff _ _ s g _ Hok). exists (n + 1)%nat, p. split; [|done].
    rewrite follow_add, Hf. simpl. by rewrite Hp. }
  destruct (decide (bi_prev_block_id bi = genesis_block_id chain_config)) as [Hpg|Hpg]; [|by rewrite IH in Hmp].
  rewrite Hpg in Hb. inversion Hb as [|? b Hgb]; subst; [done|]. by apply (index_not_genesis chain_config s Hwf) in Hgb.
Qed.

Lemma in_main_index s s' id : st_by_height s' = st_by_height s -> shape (st_index s') = shape (st_index s) ->
  in_main s' id = in_main s id.
Proof.
  intros Hbh Hs. unfold is_block_in_main_chain, get_block_height_in_main_chain. destruct (classify chain_config id); [|done].
  unfold get_block_index, get_block_id_by_height. rewrite Hbh. destruct (st_index s !! _) as [bi|] eqn:Hbi.
  - destruct (shape_lookup _ _ _ _ Hs Hbi) as (bi' & -> & Hc & _). apply core_facts in Hc as (_ & _ & -> & _). done.
  - by rewrite (proj1 (shape_None _ _ _ Hs) Hbi).
Qed.

(** ** Marking a branch as failed *)

(** [s'] is [s] with the branch of [root] marked as failed. *)
Definition branch_failed root s s' : Prop :=
  shape (st_index s') = shape (st_index s) /\ st_blocks s' = st_blocks s /\ st_by_height s' = st_by_height s /\
  st_best_block s' = st_best_block s /\ st_min_height s' = st_min_height s /\ st_ledger s' = st_ledger s /\
  (forall id bi bi', st_index s !! id = Some bi -> st_index s' !! id = Some bi' ->
     stage (bi_status bi') = stage (bi_status bi)) /\
  (forall id bi', in_branch (st_index s) root id -> st_index s' !! id = Some bi' -> ok (bi_status bi') = false) /\
  (forall id, ~ in_branch (st_index s) root id -> st_index s' !! id = st_index s !! id).

Lemma branch_failed_index_ok root s s' : wf_tree (st_index s) -> index_ok s -> branch_failed root s s' -> index_ok s'.
Proof.
  intros Hwf [Hst Hper Hfail Hchk Hpar Hid] (Hs & Hblk & _ & _ & _ & _ & Hstage & Hin & Hout).
  assert (forall id bi', st_index s' !! id = Some bi' -> exists bi, st_index s !! id = Some bi /\ core bi' = core bi /\
    bi_is_persisted bi' = bi_is_persisted bi /\ stage (bi_status bi') = stage (bi_status bi) /\
    (ok (bi_status bi') = true -> ok (bi_status bi) = true /\ ~ in_branch (st_index s) root id)) as Hback.
  { intros id bi' Hbi'. destruct (shape_lookup (st_index s') (st_index s) id bi') as (bi & Hbi & Hc & Hp); [done..|].
    exists bi. split_and!; [done..|by eapply Hstage|]. intros Hok.
    assert (~ in_branch (st_index s) root id) as Hnb by (intros Hb; by rewrite (Hin _ _ Hb Hbi') in Hok).
    split; [|done]. rewrite (Hout id Hnb), Hbi in Hbi'. by injection Hbi' as ->. }
  split; rewrite ?Hblk.
  - intros id bi' Hbi'. destruct (Hback _ _ Hbi') as (bi & Hbi & _ & _ & -> & _). by eapply Hst.
  - intros id bi' Hbi'. destruct (Hback _ _ Hbi') as (bi & Hbi & _ & -> & _). by apply Hper.
  - intros id bi' Hbi' Hnp. destruct (Hback _ _ Hbi') as (bi & Hbi & _ & Hp & _ & Hok).
    apply not_true_iff_false. intros Ht. destruct (Hok Ht) as [Hok' _]. rewrite (Hfail _ _ Hbi) in Hok'; congruence.
  - intros id bi' st Hbi'. destruct (Hback _ _ Hbi') as (bi & Hbi & _ & -> & -> & _). by eapply Hchk.
  - intros id bi' pbi' Hbi' Hpbi' Hne. destruct (Hback _ _ Hbi') as (bi & Hbi & Hc & Hp & Hsg & Hok).
    destruct (Hback _ _ Hpbi') as (pbi & Hpbi & Hpc & Hpp & Hpsg & Hpok).
    apply core_facts in Hc as (_ & Hpr & _). rewrite Hpr in Hne, Hpbi, Hpbi'.
    destruct (Hpar _ _ _ Hbi Hpbi Hne) as (H1' & H2' & H3'). rewrite Hp, Hpp, Hsg, Hpsg. split_and!; [done| |done].
    intros Ht. destruct (Hok Ht) as [Hok' Hnb]. assert (~ in_branch (st_index s) root (bi_prev_block_id bi)) as Hpnb
      by (intros Hb; apply Hnb; by eapply in_branch_child).
    rewrite (Hout _ Hpnb), Hpbi in Hpbi'. injection Hpbi' as <-. by apply H2'.
  - done.
Qed.

Lemma branch_failed_chain_ok root s s' g : chain_ok s g -> in_main s root = false ->
  branch_failed root s s' -> chain_ok s' g.
Proof.
  intros Hok Hm (Hs & Hblk & Hbh & Hbest & _ & Hled & _ & _ & Hout). pose proof (ck_tree _ _ _ _ Hok) as Hwf.
  assert (root <> genesis_block_id chain_config) as Hrg.
  { intros ->. unfold is_block_in_main_chain, get_block_height_in_main_chain, classify in Hm. by rewrite bool_decide_true in Hm. }
  apply (chain_ok_reindex s s' g); [done|by eapply shape_wf| |by intros id bi Hbi _; apply (shape_extends _ _ Hs)|by rewrite Hblk|rewrite Hblk; congruence|done..].
  intros id Hid Hg. apply Hout. intros Hb. by rewrite (main_not_below s g root id) in Hid.
Qed.

Lemma failed_fail_bits (f : BlockStatus -> result BlockInvalidatorError BlockStatus) l db db' id bi bi' :
  (forall x, exists y, f x = Ok y /\ ok y = false /\ stage y = stage x) -> updated f l db db' ->
  db !! id = Some bi -> db' !! id = Some bi' ->
  stage (bi_status bi') = stage (bi_status bi) /\ (id ∈ bi_block_id <$> l -> ok (bi_status bi') = false) .
Proof.
  intros Hf Hu Hbi Hbi'. rewrite (Hu id), Hbi in Hbi'. destruct (Hf (bi_status bi)) as (y & Hy & Hok & Hst).
  rewrite Hy in Hbi'. case_bool_decide; injection Hbi' as <-; [|done]. by destruct bi.
Qed.

Lemma invalidate_stale_block_spec explicit s g root rbi : chain_ok s g -> heights_fit s ->
  st_index s !! root = Some rbi -> in_main s root = false ->
  exists s' l, invalidate_stale_block chain_config root explicit s = (s', Ok (rbi :: l)) /\ branch_failed root s s' /\
    (forall bi, bi ∈ rbi :: l <-> in_branch (st_index s) root (bi_block_id bi) /\ st_index s !! bi_block_id bi = Some bi).
Proof.
  intros Hok Hfit Hr Hm. pose proof (ck_tree _ _ _ _ Hok) as Hwf. pose proof (index_id chain_config s Hwf _ _ Hr) as Hrid.
  destruct (collect_branch_exact chain_config s Hwf root rbi Hr (Hfit _ _ Hr)) as (l & Hcol & Hnd & Hl).
  unfold invalidate_stale_block. rewrite (st_bind_run _ _ s s s) by done.
  unfold collect_stale_block_indices_in_branch. rewrite Hm, Hcol. rewrite (st_bind_run _ _ s s (rbi :: l)) by done.
  set (f := match explicit with ExplicitYes => _ | ExplicitNo => _ end).
  assert (exists y, f (bi_status rbi) = Ok y /\ ok y = false /\ stage y = stage (bi_status rbi)) as (y & Hy & Hyok & Hyst)
    by (unfold f; destruct explicit; [apply set_validation_failed_spec|apply set_explicitly_invalidated_spec]).
  assert (st_index s !! bi_block_id rbi = Some rbi) as Hr' by (by rewrite Hrid).
  set (s1 := with_index (<[bi_block_id rbi := with_status y rbi]> (st_index s)) s).
  csimpl in Hnd. apply NoDup_cons in Hnd as [Hni Hnd].
  destruct (update_statuses_run BlockStatus.set_has_invalid_parent l s1) as (db' & Hrun & Hupd).
  { intros x. destruct (set_has_invalid_parent_spec (E := BlockInvalidatorError) x) as (z & Hz & _). eauto. }
  { done. }
  { intros b Hb. unfold s1. cbn. rewrite lookup_insert_ne; [|intros Heq; apply Hni; rewrite Heq; by apply list_elem_of_fmap_2].
    apply Hl. by right. }
  assert (branch_failed root s (with_index db' s)) as Hbf.
  { pose proof (fun id bi bi' => failed_fail_bits BlockStatus.set_has_invalid_parent l (st_index s1) db' id bi bi'
      (set_has_invalid_parent_spec (E := BlockInvalidatorError)) Hupd) as Hff.
    assert (shape (st_index s1) = shape (st_index s)) as Hs1 by (apply (shape_insert _ _ rbi); by destruct rbi).
    split_and!; [by rewrite <- Hs1; apply (updated_shape _ _ _ _ Hupd)|done|done|done|done|done|..]; cbn.
    - intros id bi bi' Hbi Hbi'. destruct (decide (id = bi_block_id rbi)) as [->|Hne].
      + destruct (Hff (bi_block_id rbi) (with_status y rbi) bi') as [-> _]; [unfold s1; cbn; by rewrite lookup_insert_eq|done|].
        rewrite Hr' in Hbi. injection Hbi as <-. by destruct rbi.
      + destruct (Hff id bi bi') as [-> _]; [unfold s1; cbn; by rewrite lookup_insert_ne|done|done].
    - intros id bi' Hb Hbi'. destruct (decide (id = bi_block_id rbi)) as [->|Hne].
      + rewrite (updated_other _ _ _ _ _ Hupd Hni) in Hbi'. unfold s1 in Hbi'. cbn in Hbi'.
        rewrite lookup_insert_eq in Hbi'. injection Hbi' as <-. by destruct rbi.
      + destruct (below_index s root rbi id Hr Hb) as [bi Hbi]. pose proof (index_id chain_config s Hwf _ _ Hbi) as Hbid.
        destruct (Hff id bi bi') as [_ Hbad]; [unfold s1; cbn; by rewrite lookup_insert_ne|done|]. apply Hbad.
        rewrite <- Hbid. apply list_elem_of_fmap_2. assert (bi ∈ rbi :: l) as Hin by (apply Hl; by rewrite Hbid).
        apply elem_of_cons in Hin as [->|]; [congruence|done].
    - intros id Hnb. rewrite (updated_other _ _ _ _ _ Hupd).
      + unfold s1. cbn. rewrite lookup_insert_ne; [done|]. intros <-. apply Hnb. rewrite Hrid. constructor.
      + intros (b & -> & Hb)%list_elem_of_fmap. apply Hnb. apply Hl. by right. }
  exists (with_index db' s), l. split_and!; [|done..]. erewrite st_bind_run; [done|].
  unfold with_rw_tx. rewrite (st_bind_run _ _ _ _ _ (update_status_run s rbi f y Hy Hr')). fold s1. rewrite Hrun. done.
Qed.
(** ** Candidates for the best chain *)

Lemma best_item_spec (c : gset Item) : match best_item c with Some x => x ∈ c | None => c = ∅ end.
Proof.
  unfold best_item. set (pick := foldr _ _).
  assert (forall l, match pick l with Some x => x ∈ l | None => l = [] end) as Hpick.
  { induction l as [|x l IH]; [done|]. simpl. destruct (pick l) as [y|]; [|by left]. destruct (item_le x y); [by right|by left]. }
  specialize (Hpick (elements c)). destruct (pick (elements c)); [by apply elem_of_elements|by apply elements_empty_iff, leibniz_equiv in Hpick].
Qed.

(** A candidate is a stored block with enough trust. *)
Definition candidate_ok s (min_trust : uint) (c : Item) : Prop :=
  exists bi, st_index s !! c.2 = Some bi /\ c.1 = bi_chain_trust bi /\ bi_is_persisted bi = true /\
    value min_trust <= value (bi_chain_trust bi).

Lemma candidate_shape s s' m c : shape (st_index s') = shape (st_index s) -> candidate_ok s m c -> candidate_ok s' m c.
Proof.
  intros Hs (bi & Hbi & Ht & Hp & Hm). destruct (shape_lookup _ _ _ _ Hs Hbi) as (bi' & Hbi' & Hc & Hp').
  apply core_facts in Hc as (_ & _ & _ & _ & Htr). exists bi'. rewrite Htr. split_and!; [done..|congruence|done].
Qed.

Lemma trust_geb s id bi m : wf_tree (st_index s) -> st_index s !! id = Some bi -> wf 4 m ->
  Uint.geb (bi_chain_trust bi) m = (value m <=? value (bi_chain_trust bi)).
Proof.
  intros Hwf Hbi Hm. destruct (Hwf _ _ Hbi) as [_ Hl]. apply (geb_value 4); [|done].
  apply (trust_wf chain_config (st_index s) (Block bi) Hl).
Qed.

Lemma collect_candidates_spec s g m cands seen ids : chain_ok s g -> index_ok s -> wf 4 m ->
  (forall c, c ∈ cands -> candidate_ok s m c) -> (forall id, id ∈ ids -> is_Some (st_index s !! id)) ->
  exists cands', collect_candidates chain_config s m cands seen ids = Ok cands' /\
    forall c, c ∈ cands' -> candidate_ok s m c.
Proof.
  intros Hok Hix Hm. pose proof (ck_tree _ _ _ _ Hok) as Hwf. revert cands seen.
  induction ids as [|id ids IH]; intros cands seen Hc Hids; cbn [collect_candidates]; [eauto|].
  destruct (Hids id) as [bi Hbi]; [left|]. pose proof (index_id chain_config s Hwf _ _ Hbi) as Hid.
  unfold get_existing_block_index, get_block_index. rewrite Hbi. cbn [ok_or mbind result_bind].
  rewrite is_ok_spec. cbn [mbind result_bind]. rewrite (trust_geb s id bi m Hwf Hbi Hm).
  assert (forall id, id ∈ ids -> is_Some (st_index s !! id)) as Hids' by (intros; apply Hids; by right).
  destruct (ok (bi_status bi)) eqn:Hst; [|by apply IH]. cbn [andb].
  destruct (Z.leb_spec (value m) (value (bi_chain_trust bi))) as [Hle|]; [|by apply IH].
  case_bool_decide; [cbn [mbind result_bind]; by apply IH|].
  unfold last_common_ancestor_in_main_chain. rewrite (get_best_block_index_spec _ _ s g Hok). cbn [mbind result_bind].
  destruct (last_common_ancestor_found chain_config s id (gen_block_id g) (Block bi) g) as (c & _ & _ & -> & _);
    [done|apply getter_block; [done|by eapply index_not_genesis]|apply (ck_best _ _ _ _ Hok)|].
  cbn [mbind result_bind]. apply IH; [|done]. intros x Hx. destruct (_ <=? _); [|by apply Hc].
  apply elem_of_union in Hx as [->%elem_of_singleton|]; [|by apply Hc].
  exists bi. unfold from_block_info. simpl. rewrite Hid. split_and!; [done..| |done].
  destruct (bi_is_persisted bi) eqn:Hp; [done|]. by rewrite (ix_failed _ _ Hix _ _ Hbi Hp) in Hst.
Qed.

Lemma BestChainCandidates_new_spec s g m : chain_ok s g -> index_ok s -> wf 4 m ->
  exists cands, BestChainCandidates_new chain_config s m = Ok cands /\ forall c, c ∈ cands -> candidate_ok s m c.
Proof.
  intros Hok Hix Hm. apply (collect_candidates_spec s g); [done..|set_solver|].
  intros id Hid. rewrite elem_of_reverse in Hid.
  destruct (higher_ids_spec s (index_id chain_config s (ck_tree _ _ _ _ Hok)) (get_min_height_with_allowed_reorg s)) as (_ & _ & Hmem).
  apply Hmem in Hid as (bi & Hbi & _). eauto.
Qed.

(** ** The search for another chain *)

(** Stored blocks have stored ancestors. *)
Lemma below_persisted s root rbi id bi : wf_tree (st_index s) -> index_ok s -> in_branch (st_index s) root id ->
  st_index s !! root = Some rbi -> st_index s !! id = Some bi -> bi_is_persisted bi = true -> bi_is_persisted rbi = true.
Proof.
  intros Hwf Hix Hb Hr. revert bi. induction Hb as [|id b Hb' Hb IH]; intros bi Hbi Hp; [congruence|].
  rewrite Hbi in Hb'. injection Hb' as <-.
  destruct (index_parent chain_config s Hwf id bi Hbi) as [[Hg _]|(Hne & pbi & Hpbi & _)].
  - rewrite Hg in Hb. by eapply genesis_not_below in Hb.
  - apply (IH pbi); [done|]. by apply (ix_parent _ _ Hix _ _ _ Hbi Hpbi Hne).
Qed.

Lemma in_branch_trans db r1 r2 id : in_branch db r1 r2 -> in_branch db r2 id -> in_branch db r1 id.
Proof. intros H12. induction 1; [done|]. by eapply in_branch_child. Qed.

Lemma foldl_difference {A} `{Countable B} (f : A -> B) (l : list A) (c : gset B) x :
  x ∈ foldl (fun c y => c ∖ {[f y]}) c l <-> x ∈ c /\ forall y, y ∈ l -> x <> f y.
Proof.
  revert c. induction l as [|y l IH]; intros c; simpl.
  - split; [|by intros []]. intros Hx. split; [done|]. by intros y ?%not_elem_of_nil.
  - rewrite IH, elem_of_difference, elem_of_singleton. setoid_rewrite elem_of_cons. naive_solver.
Qed.

(** After a failed attempt, the candidates of the branch make place for the
    parent of its root. *)
Lemma remove_tree_add_parent_spec s m cands root rbi l : wf_tree (st_index s) -> index_ok s -> wf 4 m ->
  (forall c, c ∈ cands -> candidate_ok s m c) -> st_index s !! root = Some rbi -> bi_is_persisted rbi = true ->
  (forall bi, in_branch (st_index s) root (bi_block_id bi) -> st_index s !! bi_block_id bi = Some bi ->
     from_block_info bi ∈ from_block_info <$> rbi :: l) ->
  exists cands', remove_tree_add_parent chain_config s cands rbi l m = Ok cands' /\
    (forall c, c ∈ cands' -> candidate_ok s m c) /\
    forall c, c ∈ cands' -> ~ in_branch (st_index s) root c.2 /\ (c ∈ cands \/ c.2 = bi_prev_block_id rbi).
Proof.
  intros Hwf Hix Hm Hc Hr Hp Hl. pose proof (index_id chain_config s Hwf _ _ Hr) as Hrid. unfold remove_tree_add_parent.
  set (c1 := foldl _ cands (rbi :: l)).
  assert (forall c, c ∈ c1 -> candidate_ok s m c /\ c ∈ cands /\ ~ in_branch (st_index s) root c.2) as Hc1.
  { intros c [Hin Hne]%foldl_difference. destruct (Hc c Hin) as (bi & Hbi & Ht & Hx). split_and!; [by apply Hc|done|].
    intros Hb. pose proof (index_id chain_config s Hwf _ _ Hbi) as Hid.
    assert (from_block_info bi ∈ from_block_info <$> rbi :: l) as Hin' by (apply Hl; by rewrite Hid).
    apply list_elem_of_fmap in Hin' as (b & Heq & Hbl). apply (Hne b Hbl). rewrite <- Heq. unfold from_block_info.
    rewrite <- Ht, Hid. by destruct c. }
  unfold classify. destruct (index_parent chain_config s Hwf root rbi Hr) as [[Hg _]|(Hne & pbi & Hpbi & Hh)].
  { rewrite bool_decide_true by done. exists c1. split_and!; [done|naive_solver|naive_solver]. }
  rewrite bool_decide_false by done. unfold get_existing_block_index, get_block_index. rewrite Hpbi. cbn [ok_or mbind result_bind].
  rewrite (trust_geb s _ pbi m Hwf Hpbi Hm). pose proof (index_id chain_config s Hwf _ _ Hpbi) as Hpid.
  destruct (Z.leb_spec (value m) (value (bi_chain_trust pbi))) as [Hle|]; [|exists c1; split_and!; [done|naive_solver|naive_solver]].
  eexists. split; [done|]. assert (~ in_branch (st_index s) root (bi_prev_block_id rbi)) as Hnb.
  { by eapply parent_not_below. }
  split.
  - intros c [->%elem_of_singleton|Hin]%elem_of_union; [|by apply Hc1]. exists pbi. unfold from_block_info. simpl. rewrite Hpid.
    split_and!; [done..| |done]. by apply (ix_parent _ _ Hix _ _ _ Hr Hpbi Hne).
  - intros c [->%elem_of_singleton|Hin]%elem_of_union; [|destruct (Hc1 c Hin) as (_ & ? & ?); split; [done|by left]].
    unfold from_block_info. simpl. rewrite Hpid. split; [done|by right].
Qed.
(** What the search keeps: the blocks, the order of the tree, and every mark of
    failure. *)
Definition no_revival s s' : Prop :=
  shape (st_index s') = shape (st_index s) /\ st_blocks s' = st_blocks s /\ st_min_height s' = st_min_height s /\
  forall id bi', st_index s' !! id = Some bi' -> ok (bi_status bi') = true ->
    exists bi, st_index s !! id = Some bi /\ ok (bi_status bi) = true.

Lemma no_revival_refl s : no_revival s s.
Proof. split_and!; [done..|]. eauto. Qed.
Lemma no_revival_trans s1 s2 s3 : no_revival s1 s2 -> no_revival s2 s3 -> no_revival s1 s3.
Proof.
  intros (Hs1 & Hb1 & Hm1 & Hr1) (Hs2 & Hb2 & Hm2 & Hr2). split_and!; [congruence..|].
  intros id bi Hbi Hok. destruct (Hr2 id bi Hbi Hok) as (b & Hb & Hbok). by apply Hr1 in Hb.
Qed.
Lemma no_revival_advanced s s' : advanced s s' -> no_revival s s'.
Proof.
  intros Ha. pose proof (advanced_shape s s' Ha) as Hs. destruct Ha as (Hb & Hm & Ha). split_and!; [done..|].
  intros id bi Hbi Hok. specialize (Ha id). rewrite Hbi in Ha. destruct (st_index s !! id) as [b|]; [|done].
  exists b. split; [done|]. destruct Ha as (_ & _ & <-). done.
Qed.
Lemma no_revival_failed root s s' : branch_failed root s s' -> no_revival s s'.
Proof.
  intros (Hs & Hblk & _ & _ & Hm & _ & _ & Hin & Hout). split_and!; [done..|]. intros id bi Hbi Hok. exists bi. split; [|done].
  rewrite <- Hout; [done|]. intros Hb. by rewrite (Hin id bi Hb Hbi) in Hok.
Qed.

Lemma remove_tree_add_parent_core s s' m cands rbi rbi' l : core rbi' = core rbi ->
  remove_tree_add_parent chain_config s' cands rbi l m = remove_tree_add_parent chain_config s' cands rbi' l m.
Proof.
  intros Hc. destruct (core_facts _ _ Hc) as (Hid & Hpr & _ & _ & Htr). unfold remove_tree_add_parent. rewrite Hpr. simpl.
  assert (from_block_info rbi' = from_block_info rbi) as -> by (unfold from_block_info; by rewrite Hid, Htr). done.
Qed.

(** One attempt to activate a candidate. *)
Lemma try_candidate_spec s g m c : chain_ok s g -> index_ok s -> candidate_ok s m c -> value (gen_chain_trust g) < value m ->
  match try_candidate chain_config chainstate_config now c s with
  | (s', Ok _) => exists bi', chain_ok s' (Block bi') /\ bi_block_id bi' = c.2 /\ index_ok s' /\ advanced s s' /\
      value (gen_chain_trust g) < value (bi_chain_trust bi')
  | (s', Err (ReorgErrorDuring (ConnectTipFailed id _))) => s' = s /\ in_main s id = false /\
      in_branch (st_index s) id c.2 /\ is_Some (st_index s !! id)
  | _ => False
  end.
Proof.
  intros Hok Hix (bi & Hbi & Ht & Hp & Hle) Hlt. pose proof (ck_tree _ _ _ _ Hok) as Hwf.
  pose proof (index_id chain_config s Hwf _ _ Hbi) as Hid. unfold try_candidate, with_rw_tx.
  rewrite (st_bind_run _ _ s s s) by done. unfold get_existing_block_index, get_block_index. rewrite Hbi.
  rewrite (st_bind_run _ _ s s bi) by done. unfold mbind, st_bind, st_map_err.
  assert (st_index s !! bi_block_id bi = Some bi) as Hbi' by (by rewrite Hid).
  pose proof (activate_best_chain_spec chain_config chainstate_config genesis_ledger now s g bi Hok Hix Hbi' Hp) as Hspec.
  destruct (activate_best_chain chain_config chainstate_config now bi s) as [s' [[]|[id e|e]|]].
  - destruct Hspec as (Htr & bi' & Hok' & Hid' & Hix' & Ha). exists bi'. split_and!; [done|congruence|done|done|].
    destruct Ha as (_ & _ & Ha). specialize (Ha (bi_block_id bi)). rewrite Hbi' in Ha.
    pose proof (chain_block _ _ s' bi' Hok') as [Hb' _]. rewrite Hid' in Hb'. rewrite Hb' in Ha. destruct Ha as (Hc & _).
    by apply core_facts in Hc as (_ & _ & _ & _ & ->).
  - destruct Hspec. lia.
  - destruct Hspec as (_ & _ & k & b & Hf & <- & Hm). split_and!; [done..| |].
    + pose proof (follow_below chain_config s Hwf k (Block bi) (Block b)) as Hb. simpl in Hb. rewrite Hid in Hb. apply Hb; [|done].
      apply getter_block; [done|by eapply index_not_genesis].
    + assert (gen_linked chain_config (st_index s) (Block bi)) as Hl by (by apply (Hwf _ _ Hbi)).
      destruct (follow_at _ s (Block bi) k (Block b) Hwf Hl Hf) as (_ & _ & Hst). simpl in Hst.
      destruct (getter_inv _ _ _ _ (Hst (getter_block _ _ _ _ Hbi' ltac:(by rewrite Hid; eapply index_not_genesis)))) as [[_ [=]]|(_ & x & [= <-] & Hx)].
      eauto.
  - done.
  - done.
Qed.

(** A failed attempt: the branch may be marked as failed, and its indices are
    returned. *)
Lemma failed_attempt_spec s g root rbi (b : bool) : chain_ok s g -> index_ok s -> heights_fit s ->
  st_index s !! root = Some rbi -> in_main s root = false ->
  exists s' l, (if b then invalidate_stale_block chain_config root ExplicitNo
      else lift (collect_stale_block_indices_in_branch chain_config s root)) s = (s', Ok (rbi :: l)) /\
    chain_ok s' g /\ index_ok s' /\ no_revival s s' /\
    (forall bi, in_branch (st_index s) root (bi_block_id bi) -> st_index s !! bi_block_id bi = Some bi -> bi ∈ rbi :: l).
Proof.
  intros Hok Hix Hfit Hr Hm. pose proof (ck_tree _ _ _ _ Hok) as Hwf. destruct b.
  - destruct (invalidate_stale_block_spec ExplicitNo s g root rbi Hok Hfit Hr Hm) as (s' & l & -> & Hbf & Hl).
    exists s', l. split_and!; [done|by eapply branch_failed_chain_ok|by eapply branch_failed_index_ok|by eapply no_revival_failed|].
    intros bi Hb Hbi. by apply Hl.
  - destruct (collect_branch_exact chain_config s Hwf root rbi Hr (Hfit _ _ Hr)) as (l & Hcol & _ & Hl).
    exists s, l. unfold collect_stale_block_indices_in_branch, lift. rewrite Hm, Hcol.
    split_and!; [done..|apply no_revival_refl|]. intros bi Hb Hbi. by apply Hl.
Qed.

(** The loop ends: every failed attempt rules out one more block. *)
Lemma activate_candidates_spec fuel s g m cands (failed : gset BlockId) : chain_ok s g -> index_ok s -> heights_fit s ->
  wf 4 m -> value (gen_chain_trust g) < value m -> (forall c, c ∈ cands -> candidate_ok s m c) ->
  (forall c r, c ∈ cands -> r ∈ failed -> ~ in_branch (st_index s) r c.2) ->
  failed ⊆ dom (st_index s) -> (size (st_index s) <= fuel + size failed)%nat ->
  exists s' b g', activate_candidates chain_config chainstate_config now fuel m cands s = (s', Ok b) /\
    chain_ok s' g' /\ index_ok s' /\ no_revival s s' /\
    if b then value (gen_chain_trust g) < value (gen_chain_trust g') else g' = g.
Proof.
  revert s cands failed. induction fuel as [|fuel IH]; intros s cands failed Hok Hix Hfit Hm Hlt Hc Hdis Hsub Hfuel;
    pose proof (ck_tree _ _ _ _ Hok) as Hwf; cbn [activate_candidates]; pose proof (best_item_spec cands) as Hbest;
    destruct (best_item cands) as [c|];
    try (exists s, false, g; split_and!; [done..|apply no_revival_refl|done]).
  all: destruct (Hc c Hbest) as (bi & Hbi & Ht & Hp & Hle); rewrite Ht, (trust_geb s _ bi m Hwf Hbi Hm), (proj2 (Z.leb_le _ _) Hle);
    rewrite (st_bind_run _ _ s s tt) by done;
    pose proof (try_candidate_spec s g m c Hok Hix (Hc c Hbest) Hlt) as Htry; unfold mbind at 1, st_bind at 1, catch at 1;
    destruct (try_candidate chain_config chainstate_config now c s) as [s1 [[]|[[id e|e]|e]|]]; try done;
    try (destruct Htry as (bi' & Hok' & Hid' & Hix' & Ha & Htr); exists s1, true, (Block bi');
      split_and!; [done..|by apply no_revival_advanced|done]).
  all: destruct Htry as (-> & Hmain & Hb & [rbi Hr]);
    assert (id ∉ failed) as Hnf by (intros Hin; by apply (Hdis c id Hbest Hin));
    assert ({[id]} ∪ failed ⊆ dom (st_index s)) as Hsub' by (apply union_subseteq; split; [|done];
      apply singleton_subseteq_l, elem_of_dom; eauto);
    pose proof (subseteq_size _ _ Hsub') as Hsz; rewrite size_union, size_singleton, size_dom in Hsz by set_solver; try (exfalso; lia).
  rewrite (st_bind_run _ _ s s s) by done.
  destruct (failed_attempt_spec s g id rbi (ErrorClass.block_should_be_invalidated (classify_block_error e)) Hok Hix Hfit Hr Hmain)
    as (s' & l & Hrun & Hok' & Hix' & Hnr & Hl).
  rewrite (st_bind_run _ _ _ _ _ Hrun). rewrite (st_bind_run _ _ s' s' s') by done. pose proof Hnr as (Hs & _ & _ & _).
  destruct (shape_lookup _ _ _ _ Hs Hr) as (rbi' & Hr' & Hcr & Hpr).
  assert (bi_is_persisted rbi = true) as Hrp by (by eapply (below_persisted s)).
  pose proof (remove_tree_add_parent_core s s' m cands rbi rbi' l Hcr) as Heq.
  destruct (remove_tree_add_parent_spec s' m cands id rbi' l) as (cands' & Hrem & Hc' & Hnew);
    [by eapply shape_wf|done|done|by intros x Hx; eapply candidate_shape, Hc|done|congruence| |].
  { intros b Hbb Hbi'. destruct (shape_lookup (st_index s') (st_index s) _ _ ltac:(done) Hbi') as (b0 & Hb0 & Hc0 & _).
    assert (from_block_info b = from_block_info b0) as -> by (unfold from_block_info; by apply core_facts in Hc0 as (-> & _ & _ & _ & ->)).
    assert (from_block_info rbi = from_block_info rbi') as Hrr by (unfold from_block_info; by apply core_facts in Hcr as (-> & _ & _ & _ & ->)).
    csimpl. rewrite <- Hrr. change (from_block_info b0 ∈ from_block_info <$> rbi :: l). apply list_elem_of_fmap_2.
    pose proof (index_id chain_config s Hwf _ _ Hb0) as Hid0. apply Hl; rewrite Hid0; [|done].
    by eapply (shape_branch (st_index s')). }
  rewrite Heq, Hrem. rewrite (st_bind_run _ _ s' s' cands') by done.
  destruct (IH s' cands' ({[id]} ∪ failed)) as (s2 & b & g' & Hrun2 & Hok2 & Hix2 & Hnr2 & Hres); [done|done|by eapply heights_fit_shape|done..| | | |].
  - intros x r Hx [->%elem_of_singleton|Hrf]%elem_of_union Hb'; destruct (Hnew x Hx) as [Hn Hor]; [by apply Hn|].
    assert (in_branch (st_index s) r x.2) as Hbx by (by eapply (shape_branch (st_index s'))).
    destruct Hor as [Hin|Hxp]; [by apply (Hdis x r)|]. apply (Hdis c r Hbest Hrf). eapply in_branch_trans; [|exact Hb].
    eapply in_branch_child; [exact Hr|]. apply core_facts in Hcr as (_ & Hpp & _). by rewrite <- Hpp, <- Hxp.
  - by rewrite (shape_dom _ _ Hs).
  - rewrite (shape_size _ _ Hs), size_union, size_singleton by set_solver. lia.
  - exists s2, b, g'. split_and!; [done..|by eapply no_revival_trans|done].
Qed.
(** The trust of the tip can be increased by one. *)
Definition trust_fits g : Prop := value (gen_chain_trust g) + 1 < 2 ^ 256.

Lemma find_and_activate_spec s g : chain_ok s g -> index_ok s -> heights_fit s -> trust_fits g ->
  exists s' b g', find_and_activate_best_chain chain_config chainstate_config now s = (s', Ok b) /\
    chain_ok s' g' /\ index_ok s' /\ no_revival s s' /\
    if b then value (gen_chain_trust g) < value (gen_chain_trust g') else g' = g.
Proof.
  intros Hok Hix Hfit Htf. unfold find_and_activate_best_chain. rewrite (st_bind_run _ _ s s s) by done.
  rewrite (get_best_block_index_spec _ _ s g Hok). rewrite (st_bind_run _ _ s s g) by done.
  pose proof (trust_wf chain_config (st_index s) g (chain_linked _ _ s g Hok)) as Hwg.
  assert (wf 4 (ONE 4) /\ value (ONE 4) = 1) as [H1w H1v] by (split; [by repeat constructor|done]).
  pose proof (checked_add_value 4 _ _ Hwg H1w) as Hadd. rewrite H1v in Hadd.
  destruct (Uint.checked_add (gen_chain_trust g) (ONE 4)) as [m|]; [|rewrite W4 in Hadd; unfold trust_fits in Htf; lia].
  destruct Hadd as [Hm Hmv]. rewrite (st_bind_run _ _ s s m) by done.
  destruct (BestChainCandidates_new_spec s g m Hok Hix Hm) as (cands & -> & Hc). rewrite (st_bind_run _ _ s s cands) by done.
  apply (activate_candidates_spec _ s g m cands ∅); [done..|lia|done|set_solver|set_solver|lia].
Qed.

(** ** Invalidating a block *)

Lemma tip_block_ok s g id bi : chain_ok s g -> in_main s id = true -> st_index s !! id = Some bi -> ok (bi_status bi) = true.
Proof.
  intros Hok (n & a & Hf & Ha)%(main_chain_iff _ _ s g _ Hok) Hbi. pose proof (ck_tree _ _ _ _ Hok) as Hwf.
  destruct (follow_at _ s g n a Hwf (chain_linked _ _ s g Hok) Hf) as (_ & _ & Hst). specialize (Hst (ck_best _ _ _ _ Hok)).
  rewrite Ha, (getter_block _ _ _ bi) in Hst by (done || by eapply index_not_genesis). injection Hst as <-.
  by apply (ck_valid _ _ _ _ Hok n).
Qed.

Lemma invalidate_stale_spec explicit s g root rbi : chain_ok s g -> index_ok s -> heights_fit s ->
  st_index s !! root = Some rbi -> in_main s root = false ->
  exists s' l, invalidate_stale_block chain_config root explicit s = (s', Ok l) /\
    chain_ok s' g /\ index_ok s' /\ branch_failed root s s'.
Proof.
  intros Hok Hix Hfit Hr Hm. pose proof (ck_tree _ _ _ _ Hok) as Hwf.
  destruct (invalidate_stale_block_spec explicit s g root rbi Hok Hfit Hr Hm) as (s' & l & Hrun & Hbf & _).
  exists s', (rbi :: l). split_and!; [done|by eapply branch_failed_chain_ok|by eapply branch_failed_index_ok|done].
Qed.

(** Disconnecting a block of the main chain leaves it off the chain. *)
Lemma disconnect_block s g id bi : chain_ok s g -> in_main s id = true -> st_index s !! id = Some bi ->
  exists s' p, with_rw_tx (st_map_err (BlocksDisconnectionError (bi_prev_block_id bi))
      (disconnect_until chain_config (best_height chain_config s) (gen_block_id g) (bi_prev_block_id bi))) s = (s', Ok tt) /\
    chain_ok s' p /\ st_index s' = st_index s /\ st_blocks s' = st_blocks s /\ st_min_height s' = st_min_height s /\
    in_main s' id = false /\ value (gen_chain_trust p) < value (bi_chain_trust bi) /\ gen_block_id p = bi_prev_block_id bi.
Proof.
  intros Hok Hm Hbi. pose proof (ck_tree _ _ _ _ Hok) as Hwf. pose proof (index_id chain_config s Hwf _ _ Hbi) as Hid.
  apply (main_chain_iff _ _ s g _ Hok) in Hm as (n & a & Hf & Ha).
  pose proof (chain_linked _ _ s g Hok) as Hl.
  destruct (follow_at _ s g n a Hwf Hl Hf) as (_ & _ & Hst). specialize (Hst (ck_best _ _ _ _ Hok)).
  rewrite Ha, (getter_block _ _ _ bi) in Hst by (done || by eapply index_not_genesis). injection Hst as <-.
  destruct (Hwf _ _ Hbi) as [_ Hlb]. destruct (linked_prev chain_config _ Hwf bi Hlb) as (p & Hp & Hlp & Hpid & Hcont).
  assert (follow (st_index s) (n + 1) g = Some p) as Hfp by (rewrite follow_add, Hf; simpl; by rewrite Hp).
  pose proof (follow_bound _ _ _ _ _ Hwf Hl Hfp) as Hn. rewrite (best_height_spec _ _ s g Hok).
  destruct (disconnect_until_spec chain_config genesis_ledger (Z.to_nat (ival (gen_block_height g))) s g (n + 1) p Hok Hfp)
    as (s' & Hrun & Hok' & Hidx & Hblk & Hmin); [lia|].
  exists s', p. unfold with_rw_tx, st_map_err. rewrite <- Hpid, Hrun. pose proof (trust_increases chain_config _ Hwf bi p Hlb Hp) as Htr.
  split_and!; [done..| |done|done].
  rewrite <- Hid. apply (more_trust_not_main _ _ s' p bi Hok'); [by rewrite Hidx, Hid|done].
Qed.
Lemma genesis_in_main s : in_main s (genesis_block_id chain_config) = true.
Proof. unfold is_block_in_main_chain, get_block_height_in_main_chain, classify. by rewrite bool_decide_true. Qed.

Lemma in_main_indexed s id : in_main s id = true -> id <> genesis_block_id chain_config -> is_Some (st_index s !! id).
Proof.
  unfold is_block_in_main_chain, get_block_height_in_main_chain, classify, get_block_index. intros Hm Hne.
  rewrite bool_decide_false in Hm by done. destruct (st_index s !! id); [eauto|done].
Qed.

Lemma tip_in_main s g : chain_ok s g -> gen_block_id g = genesis_block_id chain_config ->
  forall id, in_main s id = true -> id = genesis_block_id chain_config.
Proof.
  intros Hok Hg id (n & a & Hf & <-)%(main_chain_iff _ _ s g _ Hok). pose proof (ck_best _ _ _ _ Hok) as Hbest.
  rewrite Hg, getter_genesis in Hbest. injection Hbest as <-. destruct n; [by injection Hf as <-|done].
Qed.

(** Every block of the branch is marked as failed and off the main chain. *)
Definition branch_out id s s' : Prop :=
  forall x bi', in_branch (st_index s) id x -> st_index s' !! x = Some bi' ->
    ok (bi_status bi') = false /\ in_main s' x = false.

Lemma branch_out_later id s s1 s2 g : branch_failed id s s1 -> no_revival s1 s2 -> chain_ok s2 g -> branch_out id s s2.
Proof.
  intros (_ & _ & _ & _ & _ & _ & _ & Hin & _) (_ & _ & _ & Hnr) Hok x bi Hb Hbi.
  assert (ok (bi_status bi) = false) as Hbad.
  { apply not_true_iff_false. intros Ht. destruct (Hnr x bi Hbi Ht) as (b & Hb1 & Hbt). by rewrite (Hin x b Hb Hb1) in Hbt. }
  split; [done|]. apply not_true_iff_false. intros Hm. by rewrite (tip_block_ok s2 g x bi Hok Hm Hbi) in Hbad.
Qed.

Lemma branch_failed_in_main root s s' id : branch_failed root s s' -> in_main s' id = in_main s id.
Proof. intros (Hs & _ & Hbh & _). by apply in_main_index. Qed.

Lemma invalidate_block_spec explicit s g id : chain_ok s g -> index_ok s -> heights_fit s -> trust_fits g ->
  match invalidate_block chain_config chainstate_config now id explicit s with
  | (s', Ok _) => no_revival s s' /\ branch_out id s s' /\ index_ok s' /\
      exists bi g', st_index s !! id = Some bi /\ chain_ok s' g' /\
        if in_main s id
        then ival (get_min_height_with_allowed_reorg s) < ival (bi_block_height bi) /\
          exists p, getter (st_index s) (bi_prev_block_id bi) = Some p /\
            (g' = p \/ value (gen_chain_trust p) < value (gen_chain_trust g'))
        else g' = g
  | (s', Err (BlockTooDeepToInvalidate x)) => s' = s /\ x = id /\ in_main s id = true /\
      exists bi, st_index s !! id = Some bi /\ ival (bi_block_height bi) <= ival (get_min_height_with_allowed_reorg s)
  | (s', Err (BlockIndexQueryError _ _)) => s' = s /\ id = genesis_block_id chain_config
  | (s', Err (BlockIndicesForBranchQueryError _)) => s' = s /\ st_index s !! id = None
  | _ => False
  end.
Proof.
  intros Hok Hix Hfit Htf. pose proof (ck_tree _ _ _ _ Hok) as Hwf. unfold invalidate_block.
  rewrite (st_bind_run _ _ s s s) by done. destruct (in_main s id) eqn:Hm; cbn [negb].
  - unfold get_existing_block_index, get_block_index. destruct (decide (id = genesis_block_id chain_config)) as [->|Hne].
    { destruct (st_index s !! genesis_block_id chain_config) as [b|] eqn:Hb;
        [by apply (index_not_genesis chain_config s Hwf) in Hb|]. cbn [ok_or map_err]. erewrite st_bind_fail by done. done. }
    destruct (in_main_indexed s id Hm Hne) as [bi Hbi]. rewrite Hbi. rewrite (st_bind_run _ _ s s bi) by done.
    rewrite (get_best_block_index_spec _ _ s g Hok). rewrite (st_bind_run _ _ s s g) by done. unfold classify.
    rewrite bool_decide_false by (intros Hg; apply Hne; by eapply tip_in_main). cbn [expect].
    rewrite (st_bind_run _ _ s s (gen_block_id g)) by done.
    destruct (Z.ltb_spec (ival (get_min_height_with_allowed_reorg s)) (ival (bi_block_height bi))) as [Hlt|Hle].
    2: { erewrite st_bind_fail by done. split_and!; [done..|]. exists bi. split; [done|lia]. }
    rewrite (st_bind_run _ _ s s tt) by done.
    destruct (disconnect_block s g id bi Hok Hm Hbi) as (s1 & p & Hrun & Hok1 & Hidx & Hblk & Hmin & Hm1 & Htr & Hpid).
    rewrite (st_bind_run _ _ s s1 tt) by done.
    destruct (invalidate_stale_spec explicit s1 p id bi Hok1) as (s2 & l & Hrun2 & Hok2 & Hix2 & Hbf); 
      [by eapply index_ok_same|unfold heights_fit; by rewrite Hidx|by rewrite Hidx|done|]. rewrite (st_bind_run _ _ s1 s2 l) by done.
    pose proof (no_revival_failed _ _ _ Hbf) as Hnr2. pose proof Hbf as (Hs2 & _).
    destruct (find_and_activate_spec s2 p Hok2 Hix2) as (s3 & b & g' & Hrun3 & Hok3 & Hix3 & Hnr3 & Hbetter).
    { eapply heights_fit_shape; [done|]. unfold heights_fit. by rewrite Hidx. }
    { unfold trust_fits in *. assert (value (bi_chain_trust bi) <= value (gen_chain_trust g)); [|lia].
      apply (main_chain_iff _ _ s g _ Hok) in Hm as (n & a & Hf & Ha).
      destruct (follow_at _ s g n a Hwf (chain_linked _ _ s g Hok) Hf) as (_ & _ & Hst). specialize (Hst (ck_best _ _ _ _ Hok)).
      rewrite Ha, (getter_block _ _ _ bi) in Hst by done. injection Hst as <-.
      apply (follow_trust chain_config _ Hwf n g (Block bi) (chain_linked _ _ s g Hok) Hf). }
    rewrite (st_bind_run _ _ s2 s3 b) by done. simpl.
    assert (no_revival s s3) as Hnr.
    { eapply (no_revival_trans s s1); [|by eapply no_revival_trans]. split_and!; [by rewrite Hidx|done..|]. rewrite Hidx. eauto. }
    split_and!; [done| |done|].
    + unfold branch_out. rewrite <- Hidx. by eapply (branch_out_later id s1 s2 s3).
    + exists bi, g'. do 2 (split; [done|]). split; [done|]. exists p. rewrite <- Hpid, <- Hidx.
      split; [exact (ck_best _ _ _ _ Hok1)|]. destruct b; [by right|by left].
  - destruct (st_index s !! id) as [bi|] eqn:Hbi.
    + destruct (invalidate_stale_spec explicit s g id bi Hok Hix Hfit Hbi Hm) as (s2 & l & Hrun2 & Hok2 & Hix2 & Hbf).
      rewrite (st_bind_run _ _ s s2 l) by done. simpl.
      split_and!; [by eapply no_revival_failed|by eapply branch_out_later; [|apply no_revival_refl|]|done|by exists bi, g].
    + rewrite (st_bind_fail _ _ s s (BlockIndicesForBranchQueryError (PropertyQueryError.BlockIndexNotFound id))); [done|].
      unfold invalidate_stale_block. rewrite (st_bind_run _ _ s s s) by done.
      unfold collect_stale_block_indices_in_branch, collect_block_indices_in_branch, get_existing_block_index, get_block_index.
      rewrite Hm, Hbi. erewrite st_bind_fail by done. done.
Qed.

(** ** Clearing marks of failure *)

(** What the loop of [reset_block_failure_flags] makes of an index. *)
Definition clear_index bi : option BlockIndex :=
  if bi_is_persisted bi
  then match @BlockStatus.with_cleared_fail_bits BlockInvalidatorError (bi_status bi) with
       | Ok x => Some (with_status x bi)
       | _ => Some bi
       end
  else None.
Definition cleared (l : list BlockIndex) db db' : Prop :=
  forall id, db' !! id = db !! id ≫= fun bi => if bool_decide (id ∈ bi_block_id <$> l) then clear_index bi else Some bi.

Lemma with_same_status bi : bi = with_status (bi_status bi) bi.
Proof. by destruct bi. Qed.

Lemma clear_index_spec bi bi' : clear_index bi = Some bi' ->
  bi_is_persisted bi = true /\ core bi' = core bi /\ bi_is_persisted bi' = true /\ ok (bi_status bi') = true /\
  stage (bi_status bi') = stage (bi_status bi) /\ (ok (bi_status bi) = true -> bi' = bi).
Proof.
  unfold clear_index. destruct (bi_is_persisted bi) eqn:Hp; [|done].
  destruct (with_cleared_fail_bits_spec (E := BlockInvalidatorError) (bi_status bi)) as (x & Hx & Hxok & Hxst). rewrite Hx.
  intros [= <-]. split_and!; [done..|by destruct bi|by destruct bi|by destruct bi|by destruct bi|].
  intros Hok. rewrite (with_cleared_fail_bits_id _ Hok) in Hx. injection Hx as <-. by destruct bi.
Qed.

Lemma clear_loop_run l s : NoDup (bi_block_id <$> l) -> (forall bi, bi ∈ l -> st_index s !! bi_block_id bi = Some bi) ->
  exists db', try_for_each (fun cur_index =>
        if negb (bi_is_persisted cur_index) then
          st_map_err (DelBlockIndexError (bi_block_id cur_index))
            (del_block_index_of_non_persisted_block (bi_block_id cur_index))
        else update_status cur_index BlockStatus.with_cleared_fail_bits) l s = (with_index db' s, Ok tt) /\
    cleared l (st_index s) db'.
Proof.
  revert s. induction l as [|bi l IH]; intros s Hnd Hin; cbn [try_for_each].
  { exists (st_index s). split; [by destruct s|]. intros id. rewrite bool_decide_false by (csimpl; apply not_elem_of_nil).
    by destruct (st_index s !! id). }
  csimpl in Hnd. apply NoDup_cons in Hnd as [Hni Hnd]. pose proof (Hin bi ltac:(left)) as Hbi.
  assert (exists db1, (if negb (bi_is_persisted bi) then
          st_map_err (DelBlockIndexError (bi_block_id bi)) (del_block_index_of_non_persisted_block (bi_block_id bi))
        else update_status bi BlockStatus.with_cleared_fail_bits) s = (with_index db1 s, Ok tt) /\
    db1 !! bi_block_id bi = clear_index bi /\ forall x, x <> bi_block_id bi -> db1 !! x = st_index s !! x) as (db1 & Hrun & Hself & Hother).
  { unfold clear_index. destruct (bi_is_persisted bi) eqn:Hp; cbn [negb].
    - destruct (with_cleared_fail_bits_spec (E := BlockInvalidatorError) (bi_status bi)) as (x & Hx & _). rewrite Hx.
      eexists. split; [by apply (update_status_run s bi _ x)|]. split; [apply lookup_insert_eq|]. intros y Hy. by rewrite lookup_insert_ne.
    - exists (delete (bi_block_id bi) (st_index s)). split.
      + unfold st_map_err, del_block_index_of_non_persisted_block. rewrite (st_bind_run _ _ s s s) by done.
        unfold get_block_index. rewrite Hbi, Hp. done.
      + split; [apply lookup_delete_eq|]. intros y Hy. by rewrite lookup_delete_ne. }
  rewrite (st_bind_run _ _ _ _ _ Hrun).
  destruct (IH (with_index db1 s)) as (db' & Hrun' & Hcl); [done| |].
  { intros b Hb. cbn. rewrite Hother; [apply Hin; by right|]. intros Heq. apply Hni. rewrite <- Heq. by apply list_elem_of_fmap_2. }
  exists db'. split; [done|]. intros id. rewrite (Hcl id). cbn. csimpl.
  destruct (decide (id = bi_block_id bi)) as [->|Hne].
  - rewrite Hself, Hbi, (bool_decide_true (_ ∈ _ :: _)) by left. cbn. destruct (clear_index bi); [|done]. cbn.
    by rewrite bool_decide_false.
  - rewrite Hother by done. by rewrite (bool_decide_ext (id ∈ bi_block_id bi :: (bi_block_id <$> l)) (id ∈ bi_block_id <$> l))
      by (rewrite elem_of_cons; naive_solver).
Qed.

Section cleared_branch.
Context (s s' : Store L) (root : BlockId) (rbi : BlockIndex) (l : list BlockIndex) (g : GenBlockIndex).
Context (Hok : chain_ok s g) (Hix : index_ok s) (Hr : st_index s !! root = Some rbi).
Context (Hl : forall bi, bi ∈ l <-> in_branch (st_index s) root (bi_block_id bi) /\ st_index s !! bi_block_id bi = Some bi).
Context (Hcl : cleared l (st_index s) (st_index s')) (Hblk : st_blocks s' = st_blocks s).
Abbreviation Hwf := (ck_tree _ _ _ _ Hok).

Lemma cleared_back id bi' : st_index s' !! id = Some bi' ->
  exists bi, st_index s !! id = Some bi /\ core bi' = core bi /\ bi_is_persisted bi' = bi_is_persisted bi /\
    stage (bi_status bi') = stage (bi_status bi) /\
    (in_branch (st_index s) root id -> bi_is_persisted bi = true /\ ok (bi_status bi') = true /\ (ok (bi_status bi) = true -> bi' = bi)) /\
    (~ in_branch (st_index s) root id -> bi' = bi).
Proof.
  intros Hbi'. rewrite (Hcl id) in Hbi'. destruct (st_index s !! id) as [bi|] eqn:Hbi; [|done]. cbn in Hbi'.
  pose proof (index_id chain_config s Hwf _ _ Hbi) as Hid. exists bi. split; [done|]. case_bool_decide as Hin.
  - assert (in_branch (st_index s) root id) as Hb by (apply list_elem_of_fmap in Hin as (b & -> & Hb); by apply Hl).
    destruct (clear_index_spec _ _ Hbi') as (Hp & Hc & Hp' & Hok' & Hst & Hsame). split_and!; [done|congruence|done|done|done].
  - injection Hbi' as <-. split_and!; [done..| |done]. intros Hb. destruct Hin. rewrite <- Hid. apply list_elem_of_fmap_2, Hl.
    by rewrite Hid.
Qed.

(** What is stored stays. *)
Lemma cleared_kept id bi : st_index s !! id = Some bi -> bi_is_persisted bi = true \/ ~ in_branch (st_index s) root id ->
  is_Some (st_index s' !! id).
Proof.
  intros Hbi Hk. rewrite (Hcl id), Hbi. cbn. case_bool_decide as Hin; [|eauto].
  assert (in_branch (st_index s) root id) as Hb by (apply list_elem_of_fmap in Hin as (b & -> & Hb); by apply Hl).
  destruct Hk as [Hp|]; [|done]. unfold clear_index. rewrite Hp.
  destruct (with_cleared_fail_bits_spec (E := BlockInvalidatorError) (bi_status bi)) as (x & -> & _). eauto.
Qed.

Lemma cleared_wf : wf_tree (st_index s').
Proof.
  apply (wf_tree_sub chain_config (st_index s)); [exact Hwf| |].
  - intros id bi' Hbi'. destruct (cleared_back id bi' Hbi') as (bi & Hbi & Hc & _). eauto.
  - intros id bi' Hbi' Hne. destruct (cleared_back id bi' Hbi') as (bi & Hbi & Hc & _ & _ & Hin & _).
    apply core_facts in Hc as (_ & Hpr & _). rewrite Hpr in *.
    destruct (index_parent chain_config s Hwf id bi Hbi) as [[? _]|(_ & pbi & Hp & _)]; [done|].
    eapply cleared_kept; [done|]. destruct (bi_is_persisted pbi) eqn:Hpp; [by left|right]. intros Hb.
    destruct Hin as (Hper & _); [by eapply in_branch_child|].
    destruct (ix_parent _ _ Hix _ _ _ Hbi Hp Hne) as (Hpers & _). specialize (Hpers Hper). congruence.
Qed.

Lemma cleared_index_ok : (forall pbi, st_index s !! bi_prev_block_id rbi = Some pbi -> ok (bi_status pbi) = true) -> index_ok s'.
Proof.
  intros Hpok. destruct Hix as [Hst Hper Hfail Hchk Hpar Hid]. split; rewrite ?Hblk.
  - intros id b Hb. destruct (cleared_back id b Hb) as (bi & Hbi & _ & _ & -> & _). by eapply Hst.
  - intros id b Hb. destruct (cleared_back id b Hb) as (bi & Hbi & _ & -> & _). by apply Hper.
  - intros id b Hb Hnp. destruct (cleared_back id b Hb) as (bi & Hbi & _ & Hp & _ & Hin & Hout).
    destruct (bool_decide (id ∈ bi_block_id <$> l)) eqn:Hd.
    + apply bool_decide_eq_true, list_elem_of_fmap in Hd as (c & -> & [Hc _]%Hl). destruct (Hin Hc) as (? & _). congruence.
    + pose proof (Hcl id) as Hc. rewrite Hbi, Hd, Hb in Hc. injection Hc as ->. by eapply Hfail.
  - intros id b st Hb. destruct (cleared_back id b Hb) as (bi & Hbi & _ & -> & -> & _). by eapply Hchk.
  - intros id b pb Hb Hpb Hne. destruct (cleared_back id b Hb) as (bi & Hbi & Hc & Hp & Hs & Hin & Hout).
    destruct (cleared_back _ pb Hpb) as (pbi & Hpbi & Hpc & Hpp & Hps & Hpin & Hpout).
    apply core_facts in Hc as (_ & Hpr & _). rewrite Hpr in Hne, Hpbi, Hpb, Hpin, Hpout.
    destruct (Hpar _ _ _ Hbi Hpbi Hne) as (Hq1 & Hq2 & Hq3). rewrite Hp, Hpp, Hs, Hps. split_and!; [done| |done].
    intros Ht. destruct (decide (id ∈ bi_block_id <$> l)) as [Hd|Hd].
    + apply list_elem_of_fmap in Hd as (c & Hdid & [Hcb _]%Hl). rewrite <- Hdid in Hcb. destruct (decide (id = root)) as [->|Hnr].
      * rewrite Hr in Hbi. injection Hbi as <-. rewrite Hpout by (by eapply parent_not_below, Hr; apply Hwf). by apply Hpok.
      * by apply Hpin, (below_parent s root id bi).
    + assert (~ in_branch (st_index s) root id) as Hnb.
      { intros Hbb. apply Hd. rewrite <- (index_id chain_config s Hwf _ _ Hbi). apply list_elem_of_fmap_2, Hl.
        by rewrite (index_id chain_config s Hwf _ _ Hbi). }
      rewrite (Hout Hnb) in Ht. rewrite (Hpout ltac:(intros Hbb; apply Hnb; by eapply in_branch_child)). by apply Hq2.
  - done.
Qed.

Lemma cleared_chain_ok : st_by_height s' = st_by_height s -> st_best_block s' = st_best_block s -> st_ledger s' = st_ledger s ->
  chain_ok s' g.
Proof.
  intros Hbh Hbest Hled. apply (chain_ok_reindex s s' g Hok cleared_wf); [| |by rewrite Hblk|rewrite Hblk; congruence|done..].
  - intros id Hm Hne. destruct (in_main_indexed s id Hm Hne) as [bi Hbi]. pose proof (tip_block_ok s g id bi Hok Hm Hbi) as Hst.
    assert (bi_is_persisted bi = true) as Hp.
    { destruct (bi_is_persisted bi) eqn:Hp; [done|]. by rewrite (ix_failed _ _ Hix _ _ Hbi Hp) in Hst. }
    rewrite Hbi, (Hcl id), Hbi. cbn. case_bool_decide; [|done].
    unfold clear_index. by rewrite Hp, (with_cleared_fail_bits_id _ Hst), <- (with_same_status bi).
  - intros id bi Hbi Hb. destruct (cleared_kept id bi Hbi) as [bi' Hbi']; [left; by apply (ix_persisted _ _ Hix _ _ Hbi)|].
    exists bi'. split; [done|]. destruct (cleared_back id bi' Hbi') as (b & Hb' & Hc & _). congruence.
Qed.
End cleared_branch.

Lemma reset_block_failure_flags_spec s g root rbi : chain_ok s g -> index_ok s -> heights_fit s -> trust_fits g ->
  st_index s !! root = Some rbi ->
  (forall pbi, st_index s !! bi_prev_block_id rbi = Some pbi -> ok (bi_status pbi) = true) ->
  exists s' g', reset_block_failure_flags chain_config chainstate_config now root s = (s', Ok tt) /\
    chain_ok s' g' /\ index_ok s' /\ st_blocks s' = st_blocks s /\ value (gen_chain_trust g) <= value (gen_chain_trust g').
Proof.
  intros Hok Hix Hfit Htf Hr Hpok. pose proof (ck_tree _ _ _ _ Hok) as Hwf.
  destruct (collect_branch_exact chain_config s Hwf root rbi Hr (Hfit _ _ Hr)) as (l & Hcol & Hnd & Hl).
  unfold reset_block_failure_flags. rewrite (st_bind_run _ _ s s s) by done. rewrite Hcol.
  rewrite (st_bind_run _ _ s s (rbi :: l)) by done.
  destruct (clear_loop_run (rbi :: l) s Hnd) as (db' & Hrun & Hcl); [intros b Hb; by apply Hl|].
  rewrite (st_bind_run _ _ s (with_index db' s) tt) by (unfold with_rw_tx; by rewrite Hrun).
  set (s1 := with_index db' s).
  assert (chain_ok s1 g) as Hok1 by (by eapply (cleared_chain_ok s s1 root (rbi :: l) g)).
  assert (index_ok s1) as Hix1 by (by eapply (cleared_index_ok s s1 root rbi (rbi :: l) g)).
  destruct (find_and_activate_spec s1 g Hok1 Hix1) as (s' & b & g' & Hrun' & Hok' & Hix' & (_ & Hblk & _) & Hb); [|done|].
  { intros id bi Hbi. destruct (cleared_back s s1 root (rbi :: l) g Hok Hl Hcl id bi Hbi) as (bi0 & Hbi0 & Hc & _).
    apply core_facts in Hc as (_ & _ & -> & _). by apply (Hfit id). }
  rewrite (st_bind_run _ _ s1 s' b) by done. exists s', g'. split_and!; [done..|]. destruct b; [lia|by subst].
Qed.
End invalidation.
