(* ===== verification/BlockProcessing.v ===== *)
(** * Processed blocks

    What processing a block ([attempt_to_process_block] of
    [chainstate/src/detail/mod.rs]) and clearing marks of failure
    ([reset_block_failure_flags] of [block_invalidation/mod.rs]) do to a
    chainstate that is in order, and that the checks the chainstate makes of
    itself ([consistency_checker.rs]) accept every chainstate that is reached by
    processing blocks. *)
From S2P Require Import Prelude Amount Uint ChainTypes ChainConfig Compact BlockTree Utxo TxTypes Policy.
From S2P Require Import CheckTransaction TxVerifier ChainstateRef Chainstate Branches Invalidation.

Section processing.
Context `{CryptoTypes} `{!TxHash} `{!TxParameters} `{!BlockHashes} `{TimeslotWeights} {L : Type} `{!BlockChecks L}.
Context `{!BlockLedger L} `{!BlockLedgerLaws L}.
Context (chain_config : ChainConfig) (chainstate_config : ChainstateConfig) (genesis_ledger : L) (now : BlockTimestamp).
Implicit Types (s : Store L) (id root : BlockId) (bi : BlockIndex) (g p a : GenBlockIndex) (db : gmap BlockId BlockIndex).
Implicit Types (block : TxVerifier.Block).
Import GenBlockIndex.
Abbreviation getter := (gen_block_index_getter chain_config).
Abbreviation follow := (follow chain_config).
Abbreviation wf_tree := (wf_tree chain_config).
Abbreviation chain_ok := (chain_ok chain_config genesis_ledger).
Abbreviation index_ok := (index_ok chain_config).
Abbreviation in_main := (is_block_in_main_chain chain_config).

(** ** A new index *)

Lemma chain_ok_insert s s' g bi : chain_ok s g -> linked chain_config (st_index s) bi ->
  st_index s !! bi_block_id bi = None -> st_index s' = <[bi_block_id bi := bi]> (st_index s) ->
  (st_blocks s' = st_blocks s \/ exists b, st_blocks s' = <[bi_block_id bi := b]> (st_blocks s) /\
                                          block_header b = bi_block_header bi) ->
  st_by_height s' = st_by_height s -> st_best_block s' = st_best_block s -> st_ledger s' = st_ledger s -> chain_ok s' g.
Proof.
  intros Hok Hl Hnone Hidx Hblk Hbh Hbest Hled. pose proof (ck_tree _ _ _ _ Hok) as Hwf.
  assert (st_blocks s !! bi_block_id bi = None) as Hnb.
  { destruct (st_blocks s !! bi_block_id bi) as [blk|] eqn:Hb; [|done]. destruct (ck_blocks _ _ _ _ Hok _ _ Hb) as (b & Hbi & _). congruence. }
  eapply (chain_ok_reindex chain_config genesis_ledger s s' g Hok); [..|done|done|done].
  - rewrite Hidx. apply wf_tree_insert; [done..|]. congruence.
  - intros id Hid Hne. rewrite Hidx, lookup_insert_ne; [done|]. intros <-.
    apply (in_main_indexed chain_config s) in Hid as [? ?]; [congruence|done].
  - intros id b Hb _. exists b. rewrite Hidx, lookup_insert_ne; [done|congruence].
  - destruct Hblk as [->|(b & -> & _)]; [done|]. by apply insert_subseteq.
  - intros id b Hb Hn. destruct Hblk as [Hblk|(b' & Hblk & Hh)]; rewrite Hblk in Hb; [congruence|].
    apply lookup_insert_Some in Hb as [[<- <-]|[_ ?]]; [|congruence]. exists bi. by rewrite Hidx, lookup_insert_eq.
Qed.

(** What the index of a new block must satisfy. *)
Record new_index_ok s bi : Prop := {
  ni_stage : is_Some (stage (bi_status bi));
  ni_failed : bi_is_persisted bi = false -> ok (bi_status bi) = false;
  ni_checked st : bi_is_persisted bi = true -> stage (bi_status bi) = Some st ->
    BlockValidationStage.leb BlockValidationStage.CheckBlockOk st = true;
  ni_parent pbi : st_index s !! bi_prev_block_id bi = Some pbi ->
    (bi_is_persisted bi = true -> bi_is_persisted pbi = true) /\
    (ok (bi_status bi) = true -> ok (bi_status pbi) = true) /\
    (forall st pst, stage (bi_status bi) = Some st -> stage (bi_status pbi) = Some pst -> BlockValidationStage.leb st pst = true)
}.

Lemma index_ok_insert s s' bi : wf_tree (st_index s) -> index_ok s -> new_index_ok s bi -> linked chain_config (st_index s) bi ->
  st_index s !! bi_block_id bi = None -> st_index s' = <[bi_block_id bi := bi]> (st_index s) ->
  (bi_is_persisted bi = false /\ st_blocks s' = st_blocks s /\ st_blocks s !! bi_block_id bi = None \/
   bi_is_persisted bi = true /\ exists b, st_blocks s' = <[bi_block_id bi := b]> (st_blocks s) /\ block_get_id b = bi_block_id bi) ->
  index_ok s'.
Proof.
  intros Hwf [Hst Hper Hfail Hchk Hpar Hbid] [Nst Nfail Nchk Npar] Hl Hnone Hidx Hblk.
  assert (bi_prev_block_id bi <> bi_block_id bi) as Hself.
  { intros Heq. destruct Hl as [Hne (p & Hp & _)]. apply getter_inv in Hp as [[Hg _]|(_ & b & _ & Hb)]; congruence. }
  split; rewrite ?Hidx.
  - intros id b [[<- <-]|[_ Hb]]%lookup_insert_Some; [done|by eapply Hst].
  - intros id b [[<- <-]|[Hne Hb]]%lookup_insert_Some.
    + destruct Hblk as [(-> & -> & ->)|(-> & b & -> & _)]; [by split; [|intros []]|rewrite lookup_insert_eq; split; [by eexists|done]].
    + destruct Hblk as [(_ & -> & _)|(_ & b' & -> & _)]; [by apply Hper|]. rewrite lookup_insert_ne by done. by apply Hper.
  - intros id b [[<- <-]|[_ Hb]]%lookup_insert_Some; [done|by eapply Hfail].
  - intros id b st [[<- <-]|[_ Hb]]%lookup_insert_Some; [apply Nchk|by eapply Hchk].
  - intros id b pbi [[<- <-]|[Hne Hb]]%lookup_insert_Some Hp Hg.
    + apply lookup_insert_Some in Hp as [[Heq _]|[_ Hp]]; [done|by apply Npar].
    + apply lookup_insert_Some in Hp as [[Heq _]|[_ Hp]]; [|by eapply Hpar].
      destruct (index_parent chain_config s Hwf id b Hb) as [[? _]|(_ & pb & Hpb & _)]; [done|congruence].
  - intros id b Hb. destruct Hblk as [(_ & Heq & _)|(_ & b' & Heq & Hid)]; rewrite Heq in Hb; [by apply Hbid|].
    apply lookup_insert_Some in Hb as [[<- <-]|[_ Hb]]; [done|by apply Hbid].
Qed.

(** ** The limit of reorganisations *)

Definition min_height_ok s g : Prop :=
  ival (calc_min_height_with_allowed_reorg chain_config (gen_block_height g)) <= ival (get_min_height_with_allowed_reorg s).

Lemma update_min_height_run s g : get_best_block_index chain_config s = Ok g ->
  exists m, update_min_height_with_allowed_reorg chain_config s = (with_min_height (Some m) s, Ok tt) /\
    ival (calc_min_height_with_allowed_reorg chain_config (gen_block_height g)) <= ival m /\
    ival (get_min_height_with_allowed_reorg s) <= ival m.
Proof.
  intros Hg. unfold update_min_height_with_allowed_reorg. rewrite (st_bind_run _ _ s s s) by done. rewrite Hg.
  rewrite (st_bind_run _ _ s s g) by done.
  destruct (Z.leb_spec (ival (get_min_height_with_allowed_reorg s)) (ival (calc_min_height_with_allowed_reorg chain_config (gen_block_height g))));
    (eexists; split; [done|lia]).
Qed.

Lemma chain_ok_min s g m : chain_ok s g -> chain_ok (with_min_height m s) g.
Proof. intros []. by split. Qed.
Lemma index_ok_min s m : index_ok s -> index_ok (with_min_height m s).
Proof. intros []. by split. Qed.

(** ** Integrating a block *)

Lemma parent_checked s block : st_index s !! block_get_id block = None ->
  check_block chain_config chainstate_config now s block = Ok tt ->
  exists p status, getter (st_index s) (prev_block_id block) = Some p /\ @gen_status _ (CheckBlockError L) p = Ok status /\ ok status = true.
Proof.
  intros Hnone. unfold check_block, skip_check_block_because_block_exists_and_is_checked, get_block_index. rewrite Hnone.
  cbn [mbind result_bind]. unfold check_block_header_impl, check_block_parent, get_gen_block_index, prev_block_id.
  destruct (getter (st_index s) (hdr_prev_block_id (block_header block))) as [p|] eqn:Hp; [|done]. cbn [ok_or mbind result_bind].
  destruct (gen_status p) as [status| |] eqn:Hs; [|done..]. cbn [mbind result_bind]. rewrite is_ok_spec. cbn [mbind result_bind].
  destruct (ok status) eqn:Hok; [|done]. intros _. exists p, status. done.
Qed.

Lemma new_status_facts : ok BlockStatus.new = true /\ stage BlockStatus.new = Some BlockValidationStage.Unchecked.
Proof. done. Qed.

(** The heights of new indices. *)
Definition grown s s' : Prop := forall x bi', st_index s' !! x = Some bi' ->
  (exists bi, st_index s !! x = Some bi /\ core bi = core bi') \/
  exists i p, getter (st_index s) i = Some p /\ ival (bi_block_height bi') = ival (gen_block_height p) + 1.

Section new_block.
Context (s : Store L) (g : GenBlockIndex) (Hok : chain_ok s g) (Hix : index_ok s).
Context (block : TxVerifier.Block) (bi : BlockIndex) (Hid : bi_block_id bi = block_get_id block).
Context (Hhdr : bi_block_header bi = block_header block) (Hl : linked chain_config (st_index s) bi).
Context (Hnone : st_index s !! bi_block_id bi = None).

Lemma no_block_stored : st_blocks s !! bi_block_id bi = None.
Proof.
  destruct (st_blocks s !! bi_block_id bi) as [blk|] eqn:Hb; [|done].
  destruct (ck_blocks _ _ _ _ Hok _ _ Hb) as (b & Hbi & _). congruence.
Qed.

Lemma grown_insert s' bi1 : core bi1 = core bi -> shape (st_index s') = shape (<[bi_block_id bi := bi1]> (st_index s)) -> grown s s'.
Proof.
  intros Hc Hs x b Hb. destruct (shape_lookup (st_index s') _ x b ltac:(by symmetry) Hb) as (b' & Hb' & Hc' & _).
  apply lookup_insert_Some in Hb' as [[<- <-]|[_ Hb']]; [right|by left; exists b'].
  pose proof Hl as [_ (p & Hp & Hcont)]. exists (bi_prev_block_id bi), p. split; [done|].
  apply cont_height in Hcont. apply core_facts in Hc as (_ & _ & Hh & _). apply core_facts in Hc' as (_ & _ & Hh' & _). congruence.
Qed.

(** The index of a new block may be added, with or without the block, when its
    parent is not failed; as an index of a failed block in any case. *)
Lemma new_index_checked status persisted : ok status = negb (negb persisted) ->
  stage status = Some BlockValidationStage.CheckBlockOk ->
  check_block chain_config chainstate_config now s block = Ok tt ->
  new_index_ok s (mk_block_index (bi_block_id bi) (bi_block_header bi) (bi_some_ancestor bi) (bi_chain_trust bi)
    (bi_block_height bi) (bi_chain_time_max bi) (bi_chain_transaction_count bi) status persisted).
Proof.
  intros Hst Hstage Hchk. split; cbn; rewrite ?Hstage.
  - eauto.
  - intros ->. done.
  - by intros st _ [= <-].
  - intros pbi Hp. unfold bi_prev_block_id in Hp. cbn in Hp. rewrite Hhdr in Hp.
    destruct (parent_checked s block) as (p & pst & Hgp & Hgs & Hgok); [by rewrite <- Hid|done|].
    fold (prev_block_id block) in Hp. rewrite (getter_block _ _ _ pbi) in Hgp;
      [|done|by eapply (index_not_genesis chain_config s (ck_tree _ _ _ _ Hok))]. injection Hgp as <-. simpl in Hgs.
    injection Hgs as <-. destruct (bi_is_persisted pbi) eqn:Hpp; [|by rewrite (ix_failed _ _ Hix _ _ Hp Hpp) in Hgok].
    split_and!; [done..|]. intros st pst [= <-] Hps. by eapply (ix_checked _ _ Hix).
Qed.

Lemma new_index_failed status : ok status = false -> stage status = Some BlockValidationStage.Unchecked ->
  new_index_ok s (mk_block_index (bi_block_id bi) (bi_block_header bi) (bi_some_ancestor bi) (bi_chain_trust bi)
    (bi_block_height bi) (bi_chain_time_max bi) (bi_chain_transaction_count bi) status false).
Proof.
  intros Hst Hstage. split; cbn; rewrite ?Hst, ?Hstage; [eauto|done|done|]. intros pbi Hp. split_and!; [done..|].
  intros st pst [= <-] _. by destruct pst.
Qed.

Context (Hst : bi_status bi = BlockStatus.new) (Hper : bi_is_persisted bi = false).

(** The index with a new status, and the stores with it. *)
Definition index_at status persisted : BlockIndex :=
  mk_block_index (bi_block_id bi) (bi_block_header bi) (bi_some_ancestor bi) (bi_chain_trust bi)
    (bi_block_height bi) (bi_chain_time_max bi) (bi_chain_transaction_count bi) status persisted.
Definition stored_at status : Store L :=
  mk_store (<[bi_block_id bi := index_at status true]> (st_index s)) (<[bi_block_id bi := block]> (st_blocks s))
    (st_by_height s) (st_best_block s) (st_min_height s) (st_ledger s).
Definition known_at status : Store L := with_index (<[bi_block_id bi := index_at status false]> (st_index s)) s.

Lemma stored_at_ok status : ok status = true -> stage status = Some BlockValidationStage.CheckBlockOk ->
  check_block chain_config chainstate_config now s block = Ok tt ->
  chain_ok (stored_at status) g /\ index_ok (stored_at status).
Proof.
  intros Hs Hstage Hchk. pose proof (ck_tree _ _ _ _ Hok) as Hwf.
  assert (linked chain_config (st_index s) (index_at status true)) as Hl'
    by (by apply (extends_linked chain_config (st_index s) _ bi _ (extends_refl _))).
  split.
  - eapply (chain_ok_insert s _ g (index_at status true)); try done. right. exists block. by rewrite <- Hhdr.
  - eapply (index_ok_insert s _ (index_at status true)); try done; [by apply new_index_checked|].
    right. split; [done|]. exists block. split; [done|]. cbn. by rewrite Hid.
Qed.

Lemma known_at_chain_ok status : chain_ok (known_at status) g.
Proof.
  pose proof (ck_tree _ _ _ _ Hok) as Hwf. eapply (chain_ok_insert s _ g (index_at status false)); try done; [|by left].
  by apply (extends_linked chain_config (st_index s) _ bi _ (extends_refl _)).
Qed.
Lemma known_at_index_ok status : new_index_ok s (index_at status false) -> index_ok (known_at status).
Proof.
  intros Hni. pose proof (ck_tree _ _ _ _ Hok) as Hwf. eapply (index_ok_insert s _ (index_at status false)); try done.
  - by apply (extends_linked chain_config (st_index s) _ bi _ (extends_refl _)).
  - left. split_and!; [done..|]. apply no_block_stored.
Qed.

Lemma set_new_index_run status : set_new_block_index (with_status status bi) s = (known_at status, Ok tt).
Proof.
  unfold set_new_block_index. rewrite (st_bind_run _ _ s s s) by done. unfold get_block_index.
  assert (bi_block_id (with_status status bi) = bi_block_id bi) as -> by done. rewrite Hnone.
  rewrite (st_bind_run _ _ s s tt) by done. unfold set_block_index, modify, known_at, index_at.
  by rewrite <- Hper.
Qed.

Lemma in_main_new s' id : st_by_height s' = st_by_height s -> (forall x, x <> bi_block_id bi -> st_index s' !! x = st_index s !! x) ->
  in_main s' id = false -> in_main s id = false.
Proof.
  unfold is_block_in_main_chain, get_block_height_in_main_chain, classify, get_block_index, get_block_id_by_height.
  intros Hbh Hx. case_bool_decide; [done|]. rewrite Hbh. destruct (decide (id = bi_block_id bi)) as [->|Hne]; [by rewrite Hnone|].
  by rewrite Hx.
Qed.

(** What integrating the block gives; [st1] is the status of a checked block. *)
Lemma integrate_block_spec : exists st1,
  ok st1 = true /\ stage st1 = Some BlockValidationStage.CheckBlockOk /\
  match with_rw_tx (integrate_block chain_config chainstate_config now block bi) s with
  | (s', Ok b) => exists g', chain_ok s' g' /\ index_ok s' /\ min_height_ok s' g' /\ advanced (stored_at st1) (with_min_height (st_min_height s) s') /\
      if b : bool then gen_block_id g' = bi_block_id bi /\ value (gen_chain_trust g) < value (gen_chain_trust g')
      else g' = g /\ value (bi_chain_trust bi) <= value (gen_chain_trust g)
  | (s', Err (BlockCheckError e st)) => s' = s /\ st = BlockStatus.new /\
      exists ce, e = BlockError.CheckBlockFailed ce /\ check_block chain_config chainstate_config now s block = Err ce
  | (s', Err (ConnectBlockErrorDuringReorg e st id)) => s' = s /\ st = st1 /\ in_main s id = false /\
      check_block chain_config chainstate_config now s block = Ok tt /\
      in_branch (<[bi_block_id bi := index_at st1 false]> (st_index s)) id (bi_block_id bi) /\
      is_Some (<[bi_block_id bi := index_at st1 false]> (st_index s) !! id)
  | (_, Err (OtherReorgError _ _)) | (_, Err (OtherNonValidationError _)) => False
  | (_, Panic) => check_block chain_config chainstate_config now s block = Panic
  end.
Proof.
  destruct (advance_validation_stage_to_spec (E := BlockIntegrationError) BlockStatus.new BlockValidationStage.Unchecked
    BlockValidationStage.CheckBlockOk) as (st1 & Hadv & Hok1 & Hst1); [done..|].
  exists st1. split; [done|]. split; [done|]. unfold with_rw_tx, integrate_block. rewrite (st_bind_run _ _ s s s) by done.
  destruct (check_block chain_config chainstate_config now s block) as [[]|ce|] eqn:Hchk.
  2: { rewrite (st_bind_fail _ _ s s (BlockCheckError (BlockError.CheckBlockFailed ce) BlockStatus.new)) by done. eauto 10. }
  2: done.
  rewrite (st_bind_run _ _ s s tt) by done. rewrite Hadv. rewrite (st_bind_run _ _ s s st1) by done.
  assert (make_persisted (with_status st1 bi) = index_at st1 true) as -> by done.
  destruct (stored_at_ok st1 Hok1 Hst1 Hchk) as [Hcok Hcix].
  erewrite (st_bind_run _ _ s (stored_at st1) tt).
  2: { unfold st_map_err, set_new_block_index. rewrite (st_bind_run _ _ s (with_index (<[bi_block_id bi := index_at st1 true]> (st_index s)) s) tt).
       2: { rewrite (st_bind_run _ _ s s s) by done. unfold get_block_index. cbn. rewrite Hnone. done. }
       unfold persist_block. erewrite st_bind_run by done. cbn. rewrite <- Hid, no_block_stored. done. }
  assert (st_index (stored_at st1) !! bi_block_id (index_at st1 true) = Some (index_at st1 true)) as Hin by (cbn; by rewrite lookup_insert_eq).
  pose proof (activate_best_chain_spec chain_config chainstate_config genesis_ledger now (stored_at st1) g (index_at st1 true) Hcok Hcix Hin eq_refl) as Hspec.
  unfold mbind at 1, st_bind at 1, catch. cbn [bi_block_id index_at] in *.
  destruct (activate_best_chain chain_config chainstate_config now (index_at st1 true) (stored_at st1)) as [s2 [b|[id e|e]|]]; [..|done|done].
  - assert (exists g', chain_ok s2 g' /\ index_ok s2 /\ advanced (stored_at st1) s2 /\
      if b then gen_block_id g' = bi_block_id bi /\ value (gen_chain_trust g) < value (gen_chain_trust g')
      else g' = g /\ value (bi_chain_trust bi) <= value (gen_chain_trust g)) as (g' & Hok2 & Hix2 & Hadv2 & Hres).
    { destruct b.
      - destruct Hspec as (Htr & bi' & Hok2 & Hid2 & Hix2 & Ha). exists (Block bi'). split_and!; [done..|].
        pose proof (chain_block _ _ s2 bi' Hok2) as [Hb' _]. rewrite Hid2 in Hb'. destruct Ha as (_ & _ & Ha). specialize (Ha (bi_block_id bi)).
        rewrite Hin, Hb' in Ha. destruct Ha as (Hc & _). apply core_facts in Hc as (_ & _ & _ & _ & Htr'). simpl. by rewrite Htr'.
      - destruct Hspec as [Htr ->]. exists g. split_and!; [done..|apply advanced_refl|done|done]. }
    destruct (update_min_height_run s2 g' (get_best_block_index_spec _ _ s2 g' Hok2)) as (m & Hrun & Hm1 & Hm2).
    rewrite (st_bind_run _ _ s2 (with_min_height (Some m) s2) tt) by (unfold st_map_err; by rewrite Hrun).
    cbn. exists g'. split_and!; [by apply chain_ok_min|by apply index_ok_min|done| |done].
    destruct Hadv2 as (Hb2 & Hmn2 & Ha2). by split_and!.
  - destruct Hspec as (_ & [g2 Hg2] & k & c & Hf & <- & Hm).
    destruct (update_min_height_run s2 g2 Hg2) as (m & Hrun & _).
    rewrite (st_bind_run _ _ s2 (with_min_height (Some m) s2) tt) by (unfold st_map_err; by rewrite Hrun).
    cbn. pose proof (ck_tree _ _ _ _ Hcok) as Hwf1.
    assert (getter (st_index (stored_at st1)) (bi_block_id bi) = Some (Block (index_at st1 true))) as Hgn
      by (apply getter_block; [done|by destruct Hl]).
    pose proof (follow_below chain_config (stored_at st1) Hwf1 k (Block (index_at st1 true)) (Block c) Hgn Hf) as Hb.
    assert (forall x, in_branch (st_index (stored_at st1)) (bi_block_id c) x ->
      in_branch (<[bi_block_id bi := index_at st1 false]> (st_index s)) (bi_block_id c) x) as Hbr.
    { induction 1 as [|x b Hx _ IH]; [constructor|]. cbn in Hx. apply lookup_insert_Some in Hx as [[<- <-]|[Hne Hx]].
      - eapply in_branch_child; [by rewrite lookup_insert_eq|exact IH].
      - eapply in_branch_child; [by rewrite lookup_insert_ne|exact IH]. }
    split_and!; [done|done| |done|by apply Hbr|].
    + apply (in_main_new (stored_at st1)); [done| |done]. intros x Hx. cbn. by rewrite lookup_insert_ne.
    + assert (gen_linked chain_config (st_index (stored_at st1)) (Block (index_at st1 true))) as Hlk by (by apply (Hwf1 _ _ Hin)).
      destruct (follow_at _ (stored_at st1) _ k (Block c) Hwf1 Hlk Hf) as (_ & _ & Hs). specialize (Hs Hgn). simpl in Hs.
      destruct (getter_inv _ _ _ _ Hs) as [[_ [=]]|(_ & x & [= <-] & Hx)]. cbn in Hx.
      destruct (decide (bi_block_id c = bi_block_id bi)) as [->|Hne]; [rewrite lookup_insert_eq; eauto|].
      rewrite lookup_insert_ne in Hx |- * by done. eauto.
Qed.

Lemma known_at_shape x y : shape (st_index (known_at x)) = shape (st_index (known_at y)).
Proof. cbn. unfold shape. by rewrite !fmap_insert. Qed.

Lemma not_in_main_new s' id : st_by_height s' = st_by_height s -> in_main s id = false -> in_main s' id = false.
Proof.
  intros Hbh Hm. apply not_true_iff_false. intros Ht. rewrite <- not_true_iff_false in Hm. apply Hm.
  unfold is_block_in_main_chain, get_block_height_in_main_chain, classify, get_block_id_by_height in Ht.
  destruct (decide (id = genesis_block_id chain_config)) as [->|Hne]; [apply genesis_in_main|].
  rewrite bool_decide_false in Ht by done. destruct (get_block_index s' id) as [b|]; [|done]. case_bool_decide as Hh; [|done].
  rewrite Hbh, (ck_by_height _ _ _ _ Hok) in Hh. destruct (_ <=? _); [|done].
  destruct (follow (st_index s) _ g) as [a|] eqn:Hf; [|done]. injection Hh as Hh.
  apply (main_chain_iff _ _ s g _ Hok). eauto.
Qed.

(** A failure of an earlier block of the chain: the new index is added and the
    branch of that block, which has the new one, is marked as failed. *)
Lemma failed_branch_known st1 id : ok st1 = true -> stage st1 = Some BlockValidationStage.CheckBlockOk ->
  heights_fit (known_at st1) -> check_block chain_config chainstate_config now s block = Ok tt -> in_main s id = false ->
  in_branch (st_index (known_at st1)) id (bi_block_id bi) -> is_Some (st_index (known_at st1) !! id) ->
  exists s', invalidate_block chain_config chainstate_config now id ExplicitNo (known_at st1) = (s', Ok tt) /\
    chain_ok s' g /\ index_ok s' /\ branch_failed id (known_at st1) s'.
Proof.
  intros Hs1 Hstg1 Hfit Hchk Hm Hb [rbi Hr]. pose proof (known_at_chain_ok st1) as Hcok.
  pose proof (ck_tree _ _ _ _ Hcok) as Hwf.
  pose proof (not_in_main_new (known_at st1) id eq_refl Hm) as Hm'.
  destruct (invalidate_stale_block_spec chain_config genesis_ledger ExplicitNo (known_at st1) g id rbi Hcok Hfit Hr Hm')
    as (s' & l & Hrun & Hbf & _).
  exists s'. split; [unfold invalidate_block; rewrite (st_bind_run _ _ (known_at st1) (known_at st1) (known_at st1)) by done;
    rewrite Hm'; cbn [negb]; by rewrite (st_bind_run _ _ _ _ _ Hrun)|].
  split; [by eapply branch_failed_chain_ok|]. split; [|done].
  destruct (set_validation_failed_spec (E := Empty_set) st1) as (y & _ & Hy & Hyst).
  pose proof (known_at_shape y st1) as Hsh.
  apply (branch_failed_index_ok chain_config id (known_at y) s').
  - by eapply shape_wf.
  - apply known_at_index_ok, new_index_checked; [by rewrite Hy|congruence|done].
  - destruct Hbf as (Hs & Hblk & Hbh & Hbest & Hmin & Hled & Hstage & Hin & Hout).
    split_and!; [by rewrite Hsh|done..| | |].
    + intros x b b' Hx Hx'. cbn in Hx. apply lookup_insert_Some in Hx as [[<- <-]|[Hne Hx]].
      * rewrite (Hstage (bi_block_id bi) (index_at st1 false) b'); [done|cbn; by rewrite lookup_insert_eq|done].
      * apply (Hstage x b b'); [cbn; by rewrite lookup_insert_ne|done].
    + intros x b Hx. apply Hin. by eapply shape_branch.
    + intros x Hx. rewrite Hout.
      * cbn. destruct (decide (x = bi_block_id bi)) as [->|Hne]; [|by rewrite !lookup_insert_ne].
        destruct Hx. by eapply shape_branch.
      * intros Hbx. apply Hx. by eapply shape_branch.
Qed.
End new_block.

(** ** Processing a block *)

Definition chainstate_ok s g : Prop := chain_ok s g /\ index_ok s /\ min_height_ok s g.

(** The main chain and the stored blocks are as before. *)
Definition same_chain s s' : Prop :=
  st_blocks s' = st_blocks s /\ st_by_height s' = st_by_height s /\ st_best_block s' = st_best_block s /\
  st_min_height s' = st_min_height s /\ st_ledger s' = st_ledger s.

Lemma grown_refl s : grown s s.
Proof. intros x b Hb. left. eauto. Qed.

(** No block is so high that the height after its child would overflow. *)
Definition heights_fit_child s : Prop := forall id bi, st_index s !! id = Some bi -> ival (bi_block_height bi) + 2 < 2 ^ 64.

Lemma known_heights s g bi st : chain_ok s g -> heights_fit_child s -> linked chain_config (st_index s) bi -> heights_fit (known_at s bi st).
Proof.
  intros Hok Hfit Hl x b Hb. cbn in Hb. apply lookup_insert_Some in Hb as [[_ <-]|[_ Hb]]; [|apply Hfit in Hb; lia]. cbn.
  destruct Hl as [_ (p & Hp & Hc)]. apply cont_height in Hc. apply getter_inv in Hp as [[_ ->]|(_ & pb & -> & Hpb)].
  - cbn in Hc. lia.
  - apply Hfit in Hpb. simpl in Hc. lia.
Qed.

(** The result for a block that was integrated. *)
Lemma integrated_result s g block bi st1 s' (b : bool) : chain_ok s g -> bi_block_id bi = block_get_id block ->
  linked chain_config (st_index s) bi -> st_index s !! bi_block_id bi = None -> ok st1 = true ->
  (exists g', chain_ok s' g' /\ index_ok s' /\ min_height_ok s' g' /\ advanced (stored_at s block bi st1) (with_min_height (st_min_height s) s') /\
      if b then gen_block_id g' = bi_block_id bi /\ value (gen_chain_trust g) < value (gen_chain_trust g')
      else g' = g /\ value (bi_chain_trust bi) <= value (gen_chain_trust g)) ->
  match (saved_block_index ← lift (map_err (BlockError.BlockIndexQueryError (block_get_id block)) (get_existing_block_index s' (block_get_id block)));
         status_ok ← lift (BlockStatus.is_ok (bi_status saved_block_index));
         _ ← lift (assert_true status_ok);
         mret (if b then Some saved_block_index else None)) s' : Store L * result (BlockError L) (option BlockIndex) with
  | (s', Ok r) => grown s s' /\ st_index s !! block_get_id block = None /\
      st_blocks s' = <[block_get_id block := block]> (st_blocks s) /\
      exists g', chainstate_ok s' g' /\
        match r with
        | Some bi => g' = Block bi /\ bi_block_id bi = block_get_id block /\ value (gen_chain_trust g) < value (bi_chain_trust bi)
        | None => g' = g /\ exists bi, st_index s' !! block_get_id block = Some bi /\ value (bi_chain_trust bi) <= value (gen_chain_trust g)
        end
  | _ => False
  end.
Proof.
  intros Hok Hid Hl Hnone Hok1 (g' & Hok' & Hix' & Hmin' & Hadv & Hres). rewrite <- Hid in *.
  pose proof (advanced_shape _ _ Hadv) as Hsh. pose proof Hadv as (Hblk & _ & Ha). cbn in Hblk, Hsh.
  specialize (Ha (bi_block_id bi)). cbn in Ha. rewrite lookup_insert_eq in Ha.
  destruct (st_index s' !! bi_block_id bi) as [saved|] eqn:Hsv; [|done]. destruct Ha as (Hc & _ & Hst). cbn in Hst.
  unfold get_existing_block_index, get_block_index. rewrite Hsv. rewrite (st_bind_run _ _ s' s' saved) by done.
  rewrite is_ok_spec, Hst, Hok1. do 2 (rewrite (st_bind_run _ _ s' s' _) by done).
  split; [by eapply (grown_insert s bi Hl s' (index_at bi st1 true))|]. split_and!; [done..|]. exists g'. split; [done|].
  destruct b.
  - destruct Hres as [Hg Htr]. pose proof (ck_best _ _ _ _ Hok') as Hbest. rewrite Hg, (getter_block _ _ _ saved) in Hbest;
      [|done|by destruct Hl]. injection Hbest as <-. done.
  - destruct Hres as [-> Htr]. split; [done|]. exists saved. apply core_facts in Hc as (_ & _ & _ & _ & ->). done.
Qed.

Lemma attempt_to_process_spec src s g block : chainstate_ok s g -> heights_fit_child s ->
  block_get_id block <> genesis_block_id chain_config ->
  match attempt_to_process_block chain_config chainstate_config now block src s with
  | (s', Ok r) => grown s s' /\ st_index s !! block_get_id block = None /\
      st_blocks s' = <[block_get_id block := block]> (st_blocks s) /\
      exists g', chainstate_ok s' g' /\
        match r with
        | Some bi => g' = Block bi /\ bi_block_id bi = block_get_id block /\ value (gen_chain_trust g) < value (bi_chain_trust bi)
        | None => g' = g /\ exists bi, st_index s' !! block_get_id block = Some bi /\ value (bi_chain_trust bi) <= value (gen_chain_trust g)
        end
  | (s', Err e) => chainstate_ok s' g /\ grown s s' /\ same_chain s s'
  | (_, Panic) => create_block_index_for_new_block chain_config s block BlockStatus.new = Panic \/
                  check_block chain_config chainstate_config now s block = Panic
  end.
Proof.
  intros Hall Hfit Hne. pose proof Hall as (Hok & Hix & Hmin). pose proof (ck_tree _ _ _ _ Hok) as Hwf.
  assert (chainstate_ok s g /\ grown s s /\ same_chain s s) as Hsame by (split_and!; [done|apply grown_refl|done]).
  unfold attempt_to_process_block. rewrite (st_bind_run _ _ s s s) by done.
  match goal with |- context [lift (ensure ?c _)] => destruct c end;
    [rewrite (st_bind_run _ _ s s tt) by done|by rewrite (st_bind_fail _ _ s s BlockError.LocalOrphan)].
  unfold get_block_index. destruct (st_index s !! block_get_id block) as [old|] eqn:Hnone.
  { rewrite is_ok_spec. cbn [mbind result_bind]. by erewrite st_bind_fail. }
  rewrite (st_bind_run _ _ s s tt) by done.
  pose proof (create_block_index_spec chain_config s block BlockStatus.new Hwf Hne) as Hnew.
  destruct (create_block_index_for_new_block chain_config s block BlockStatus.new) as [bi|e|]; [|by erewrite st_bind_fail|by left].
  destruct Hnew as (Hid & Hhdr & Hst & Hper & Hl & _). rewrite (st_bind_run _ _ s s bi) by done. rewrite <- Hid in Hnone.
  destruct (integrate_block_spec s g Hok Hix block bi Hid Hhdr Hl Hnone) as (st1 & Hok1 & Hst1 & Hspec).
  unfold mbind at 1, st_bind at 1, catch at 1.
  destruct (with_rw_tx (integrate_block chain_config chainstate_config now block bi) s) as [s' [b|e|]].
  - rewrite (st_bind_run _ _ s' s' s') by done.
    pose proof (integrated_result s g block bi st1 s' b Hok Hid Hl Hnone Hok1 Hspec) as Hres.
    lazymatch type of Hres with let (_, _) := ?X in _ => destruct X as [? [?|?|]] end; [|done..].
    by destruct Hres as (? & _ & ? & ?).
  - destruct e as [e st id|e st|e st|e]; [|done| |done].
    + destruct Hspec as (-> & -> & Hm & Hchk & Hb & Hr). rewrite (st_bind_run _ _ s s s) by done. rewrite Hm.
      rewrite (st_bind_run _ _ s s tt) by done. destruct (ErrorClass.block_should_be_invalidated _); [|done].
      rewrite is_ok_spec, Hok1. do 2 (rewrite (st_bind_run _ _ s s _) by done).
      rewrite (st_bind_run _ _ s (known_at s bi st1) (Ok tt)) by (unfold catch, with_rw_tx; by rewrite set_new_index_run).
      destruct (failed_branch_known s g Hok Hix block bi Hid Hhdr Hl Hnone st1 id Hok1 Hst1
        (known_heights s g bi st1 Hok Hfit Hl) Hchk Hm Hb Hr) as (s' & Hrun & Hok' & Hix' & Hbf).
      rewrite (st_bind_run _ _ (known_at s bi st1) s' (Ok tt)) by (unfold catch; by rewrite Hrun). cbn.
      pose proof Hbf as (Hs & Hblk & Hbh & Hbest & Hmn & Hled & _).
      split; [split_and!; [done..|]|split; [by eapply (grown_insert s bi Hl _ (index_at bi st1 false))|done]].
      unfold min_height_ok, get_min_height_with_allowed_reorg. by rewrite Hmn.
    + destruct Hspec as (-> & -> & _). rewrite (st_bind_run _ _ s s s) by done.
      destruct (ErrorClass.block_should_be_invalidated _); [|done].
      destruct (set_validation_failed_spec (E := BlockError L) BlockStatus.new) as (y & -> & Hy & Hyst).
      rewrite (st_bind_run _ _ s s y) by done.
      rewrite (st_bind_run _ _ s (known_at s bi y) (Ok tt)) by (unfold catch, with_rw_tx; by rewrite set_new_index_run). cbn.
      split; [split_and!; [by apply known_at_chain_ok| |done]|split; [by eapply (grown_insert s bi Hl _ (index_at bi y false))|done]].
      apply (known_at_index_ok s g Hok Hix bi Hl Hnone). by apply new_index_failed.
  - by right.
Qed.
(** ** The checks of consistency *)

Lemma check_all_ok {E A} (f : A -> result E unit) l : (forall x, x ∈ l -> f x = Ok tt) -> check_all f l = Ok tt.
Proof.
  induction l as [|x l IH]; intros Hf; [done|]. cbn [check_all]. rewrite (Hf x) by left. cbn. apply IH. intros y Hy. apply Hf. by right.
Qed.

Lemma tuple_windows_split {A} (l : list A) x y : (x, y) ∈ tuple_windows l -> exists l1 l2, l = l1 ++ x :: y :: l2.
Proof.
  induction l as [|a [|b l] IH]; [by intros ?%not_elem_of_nil..|]. cbn [tuple_windows].
  intros [[= -> ->]|Hin]%elem_of_cons; [by exists [], l|]. destruct (IH Hin) as (l1 & l2 & ->). by exists (a :: l1), l2.
Qed.

Lemma check_index_entry_ok {E} s g id bi : chain_ok s g -> index_ok s -> st_index s !! id = Some bi ->
  check_index_entry (E := E) chain_config s id bi = Ok tt.
Proof.
  intros Hok Hix Hbi. pose proof (ck_tree _ _ _ _ Hok) as Hwf. pose proof (index_id chain_config s Hwf _ _ Hbi) as Hid.
  unfold check_index_entry. rewrite bool_decide_true by done. cbn [assert_true mbind result_bind].
  assert ((if bi_is_persisted bi then
         block ← expect (st_blocks s !! id);
         _ ← assert_true (bool_decide (block_get_id block = id));
         assert_true (bool_decide (block_header block = bi_block_header bi))
       else Ok tt) = (Ok tt : result E unit)) as ->.
  { destruct (bi_is_persisted bi) eqn:Hp; [|done]. destruct (proj1 (ix_persisted _ _ Hix _ _ Hbi) Hp) as [b Hb]. rewrite Hb. cbn [expect mbind result_bind].
    rewrite (bool_decide_true (block_get_id b = id)) by (by apply (ix_block_id _ _ Hix)). cbn [assert_true mbind result_bind]. destruct (ck_blocks _ _ _ _ Hok _ _ Hb) as (bi' & Hbi' & Hh).
    rewrite bool_decide_true; [done|congruence]. }
  cbn [mbind result_bind]. unfold classify. case_bool_decide as Hg; [done|].
  destruct (index_parent chain_config s Hwf id bi Hbi) as [[? _]|(_ & pbi & Hp & _)]; [done|]. rewrite Hp. cbn [expect mbind result_bind].
  destruct (ix_parent _ _ Hix _ _ _ Hbi Hp Hg) as (Hpp & Hpok & Hpst).
  destruct (ix_stage _ _ Hix _ _ Hbi) as [st Hst], (ix_stage _ _ Hix _ _ Hp) as [pst Hpst'].
  rewrite !is_ok_spec, !last_valid_stage_spec, Hst, Hpst'. cbn.
  destruct (bi_is_persisted bi); rewrite ?Hpp by done; cbn; (destruct (ok (bi_status bi)); rewrite ?Hpok by done; cbn);
    by rewrite (Hpst st pst).
Qed.

Lemma check_merged_ok {E} s g id : chain_ok s g -> index_ok s -> check_merged (E := E) chain_config s id = Ok tt.
Proof.
  intros Hok Hix. unfold check_merged. destruct (st_blocks s !! id) as [b|] eqn:Hb, (st_index s !! id) as [bi|] eqn:Hbi; [..|done].
  - rewrite (proj2 (ix_persisted _ _ Hix _ _ Hbi)) by eauto. cbn. by eapply check_index_entry_ok.
  - destruct (ck_blocks _ _ _ _ Hok _ _ Hb) as (? & ? & _). congruence.
  - destruct (bi_is_persisted bi) eqn:Hp.
    { apply (ix_persisted _ _ Hix _ _ Hbi) in Hp as [? ?]. congruence. }
    rewrite is_ok_spec, (ix_failed _ _ Hix _ _ Hbi Hp). cbn. by eapply check_index_entry_ok.
Qed.

(** The map of heights, as a sorted list. *)
Lemma by_height_entry s g h id : chain_ok s g -> (h, id) ∈ btree_iter (st_by_height s) ->
  ival h <= ival (gen_block_height g) /\
  exists a, follow (st_index s) (Z.to_nat (ival (gen_block_height g) - ival h)) g = Some a /\ gen_block_id a = id /\
    getter (st_index s) id = Some a /\ gen_linked chain_config (st_index s) a /\ gen_block_height a = h.
Proof.
  intros Hok Hin%elem_of_btree_iter. rewrite (ck_by_height _ _ _ _ Hok) in Hin.
  destruct (Z.leb_spec (ival h) (ival (gen_block_height g))) as [Hle|]; [|done]. split; [done|].
  destruct (follow (st_index s) _ g) as [a|] eqn:Hf; [|done]. injection Hin as <-. exists a. pose proof (bint_range h).
  pose proof (ck_tree _ _ _ _ Hok) as Hwf. pose proof (chain_linked _ _ s g Hok) as Hl.
  destruct (follow_at _ s g _ a Hwf Hl Hf) as (Hla & Hh & Hst). split_and!; [done..|by apply Hst, (ck_best _ _ _ _ Hok)|done|].
  apply bint_eq. lia.
Qed.

Lemma by_height_complete s g (h : BlockHeight) : chain_ok s g -> ival h <= ival (gen_block_height g) ->
  exists id, (h, id) ∈ btree_iter (st_by_height s).
Proof.
  intros Hok Hle. setoid_rewrite elem_of_btree_iter. rewrite (ck_by_height _ _ _ _ Hok), (proj2 (Z.leb_le _ _) Hle).
  pose proof (bint_range h). destruct (chain_ancestor _ _ s g Hok (Z.to_nat (ival (gen_block_height g) - ival h))) as (a & Ha & _); [lia|].
  rewrite Ha. by eexists.
Qed.

Lemma by_height_sorted s : StronglySorted entry_le (btree_iter (st_by_height s)).
Proof. apply Sorted_StronglySorted; [apply _|apply btree_iter_sorted]. Qed.

Lemma consecutive_heights s g h1 i1 h2 i2 : chain_ok s g ->
  ((h1, i1), (h2, i2)) ∈ tuple_windows (btree_iter (st_by_height s)) -> ival h2 = ival h1 + 1.
Proof.
  intros Hok (l1 & l2 & Hl)%tuple_windows_split. pose proof (by_height_sorted s) as Hs. pose proof (btree_iter_NoDup (st_by_height s)) as Hnd.
  assert ((h2, i2) ∈ btree_iter (st_by_height s)) as Hin2 by (rewrite Hl; set_solver).
  destruct (by_height_entry s g h2 i2 Hok Hin2) as [Hle2 _].
  rewrite Hl in Hs, Hnd. rewrite fmap_app in Hnd. csimpl in Hnd. apply NoDup_app in Hnd as (_ & _ & [Hne _]%NoDup_cons).
  apply StronglySorted_app in Hs as (Hord & _ & Hs). apply StronglySorted_cons in Hs as [Hfst Hs].
  apply StronglySorted_cons in Hs as [Hsnd _]. apply Forall_cons in Hfst as [H12 _].
  unfold entry_le, key_le in H12. simpl in H12.
  assert (ival h1 <> ival h2) by (intros Heq; apply Hne, elem_of_cons; left; by apply bint_eq).
  pose proof (bint_range h1). pose proof (bint_range h2).
  destruct (bint_of_Z_is_Some (lo := 0) (hi := 2 ^ 64 - 1) (ival h1 + 1)) as (h & _ & Hh); [lia|].
  destruct (by_height_complete s g h Hok) as [id Hin]; [lia|]. rewrite Hl in Hin.
  apply elem_of_app in Hin as [Hin|Hin].
  - specialize (Hord (h, id) (h1, i1) Hin ltac:(left)). unfold entry_le, key_le in Hord. simpl in Hord. lia.
  - apply elem_of_cons in Hin as [[= -> ->]|[[= -> ->]|Hin]%elem_of_cons]; [lia|lia|].
    apply (proj1 (Forall_forall _ _) Hsnd) in Hin. unfold entry_le, key_le in Hin. simpl in Hin. lia.
Qed.

Lemma check_heights_ok {E} s g w : chain_ok s g -> w ∈ tuple_windows (btree_iter (st_by_height s)) ->
  check_heights (E := E) chain_config s w = Ok tt.
Proof.
  destruct w as [[h1 i1] [h2 i2]]. intros Hok Hw. pose proof (consecutive_heights s g _ _ _ _ Hok Hw) as Hnext.
  apply tuple_windows_split in Hw as (l1 & l2 & Hl). pose proof (ck_tree _ _ _ _ Hok) as Hwf.
  destruct (by_height_entry s g h1 i1 Hok) as (Hle1 & a1 & Hf1 & <- & Hg1 & _ & Hh1); [rewrite Hl; set_solver|].
  destruct (by_height_entry s g h2 i2 Hok) as (Hle2 & a2 & Hf2 & <- & Hg2 & Hl2 & Hh2); [rewrite Hl; set_solver|].
  pose proof (bint_range h1). unfold check_heights, BlockHeight.next_height. rewrite <- Hnext, bint_of_Z_ival. cbn [expect mbind result_bind].
  rewrite bool_decide_true by done. cbn [assert_true mbind result_bind].
  destruct (getter_inv _ _ _ _ Hg2) as [[_ ->]|(Hne & b2 & -> & Hb2)].
  { exfalso. rewrite <- Hh2 in Hnext. cbn in Hnext. lia. }
  unfold classify. rewrite bool_decide_false by done. cbn [expect mbind result_bind]. rewrite Hb2. cbn [expect mbind result_bind].
  destruct (linked_prev chain_config _ Hwf b2 Hl2) as (p & Hp & _ & Hpid & _).
  assert (p = a1) as ->.
  { replace (Z.to_nat (ival (gen_block_height g) - ival h1)) with (Z.to_nat (ival (gen_block_height g) - ival h2) + 1)%nat in Hf1 by lia.
    rewrite follow_add, Hf2 in Hf1. simpl in Hf1. rewrite Hp in Hf1. by injection Hf1. }
  rewrite bool_decide_true by done. cbn [assert_true mbind result_bind].
  destruct (ck_valid _ _ _ _ Hok _ _ Hf2) as (Hbok & Hbst & ->). cbn [assert_true mbind result_bind].
  unfold BlockStatus.is_fully_valid. rewrite last_valid_stage_spec, is_ok_spec, Hbst, Hbok. done.
Qed.

Lemma last_entry s g : chain_ok s g -> last (btree_iter (st_by_height s)) = Some (gen_block_height g, gen_block_id g).
Proof.
  intros Hok. destruct (by_height_complete s g (gen_block_height g) Hok) as [id Hin]; [lia|].
  destruct (last (btree_iter (st_by_height s))) as [[h i]|] eqn:Hlast.
  2: { apply last_None in Hlast. rewrite Hlast in Hin. by apply not_elem_of_nil in Hin. }
  apply last_Some in Hlast as [l' Hl]. pose proof (by_height_sorted s) as Hs.
  destruct (by_height_entry s g h i Hok) as (Hle & a & Hf & <- & _); [rewrite Hl; set_solver|].
  assert (ival (gen_block_height g) <= ival h) as Hge.
  { rewrite Hl in Hin, Hs. apply elem_of_app in Hin as [Hin|[= <- _]%list_elem_of_singleton]; [|lia].
    apply StronglySorted_app in Hs as (Hord & _). apply (Hord _ (h, gen_block_id a) Hin). by left. }
  assert (h = gen_block_height g) as -> by (apply bint_eq; lia).
  rewrite Z.sub_diag in Hf. by injection Hf as <-.
Qed.

(** A chainstate in order passes the checks. *)
Lemma check_consistency_ok {E} s g : chainstate_ok s g -> check_consistency (E := E) chain_config s = Ok tt.
Proof.
  intros (Hok & Hix & Hmin). unfold check_consistency. rewrite (ck_best_id _ _ _ _ Hok). cbn [expect mbind result_bind].
  unfold check_block_index_consistency. rewrite check_all_ok by (intros id _; by eapply check_merged_ok). cbn [mbind result_bind].
  unfold check_block_height_map_consistency.
  destruct (by_height_complete s g BlockHeight.zero Hok) as [id Hin]; [pose proof (bint_range (gen_block_height g)); cbn; lia|].
  destruct (by_height_entry s g _ id Hok Hin) as (_ & a & _ & Ha & _ & Hla & Hh).
  apply elem_of_btree_iter in Hin. rewrite Hin. cbn [expect mbind result_bind].
  assert (a = genesis chain_config) as -> by (apply (zero_height chain_config (st_index s)); [apply (ck_tree _ _ _ _ Hok)|done|by rewrite Hh]).
  rewrite bool_decide_true by done. cbn [assert_true mbind result_bind]. rewrite (last_entry s g Hok). cbn [expect mbind result_bind].
  rewrite bool_decide_true by done. cbn [assert_true mbind result_bind]. rewrite (proj2 (Z.leb_le _ _) Hmin). cbn [assert_true mbind result_bind].
  apply check_all_ok. intros w Hw. by eapply check_heights_ok.
Qed.
End processing.

(** * Reachable chainstates *)

Section reachable.
Context `{CryptoTypes} `{!TxHash} `{!TxParameters} `{!BlockHashes} `{TimeslotWeights} {L : Type} `{!BlockChecks L}.
Context `{!BlockLedger L} `{!BlockLedgerLaws L}.
Context (chain_config : ChainConfig) (chainstate_config : ChainstateConfig) (genesis_ledger : L).
Context (Hdepth : 0 <= ival (max_depth_for_reorg chain_config)).

Definition empty_store : Store L := mk_store ∅ ∅ ∅ None None genesis_ledger.

(** The chainstates after [n] blocks were processed, in any order, at any time
    and from any source, whether they were accepted or refused. *)
Inductive Processed : nat -> Store L -> Prop :=
  | Processed_genesis : Processed 0 (process_genesis chain_config genesis_ledger empty_store)
  | Processed_block n s now (block : TxVerifier.Block) source s' r :
      Processed n s -> block_get_id block <> genesis_block_id chain_config ->
      attempt_to_process_block chain_config chainstate_config now block source s = (s', r) -> r <> Panic ->
      Processed (S n) s'.

Lemma calc_min_height_le h : ival (calc_min_height_with_allowed_reorg chain_config h) <= ival h.
Proof.
  pose proof (bint_range h). unfold calc_min_height_with_allowed_reorg.
  destruct (BlockHeight.sub h (max_depth_for_reorg chain_config)) as [r|] eqn:Hs; [|cbn; lia]. cbn.
  unfold BlockHeight.sub, BlockHeight.try_into_i64 in Hs. apply bind_Some in Hs as (i & Hi%bint_of_Z_Some & Hs).
  destruct (_ <? 0); [done|]. apply bind_Some in Hs as (k & Hk%bint_of_Z_Some & Hs). destruct (_ <? 0); [done|].
  apply bint_of_Z_Some in Hs. lia.
Qed.

Lemma genesis_chainstate_ok :
  chainstate_ok chain_config genesis_ledger (process_genesis chain_config genesis_ledger empty_store) (genesis chain_config).
Proof.
  assert (forall n b, follow chain_config (∅ : gmap BlockId BlockIndex) n (genesis chain_config) <> Some (GenBlockIndex.Block b)) as Hno
    by (intros [|n] b; done).
  split_and!.
  - split; cbn -[gen_block_index_getter].
    + by intros id bi ?%lookup_empty_Some.
    + done.
    + apply getter_genesis.
    + intros h. rewrite lookup_insert. destruct (decide _) as [<-|Hne]; [done|]. rewrite lookup_empty.
      pose proof (bint_range h). destruct (Z.leb_spec (ival h) 0); [|done]. destruct Hne. apply bint_eq. cbn. lia.
    + by intros n b ?%Hno.
    + by intros id b ?%lookup_empty_Some.
    + by constructor.
  - split; cbn; by intros ? ? ?%lookup_empty_Some || by intros ? ? ? ?%lookup_empty_Some.
  - unfold min_height_ok. cbn [gen_block_height genesis]. pose proof (calc_min_height_le BlockHeight.zero) as Hle. cbn in Hle |- *. lia.
Qed.

Lemma processed_ok n s : Processed n s -> Z.of_nat n + 3 < 2 ^ 64 ->
  (exists g, chainstate_ok chain_config genesis_ledger s g) /\
  forall id bi, st_index s !! id = Some bi -> ival (bi_block_height bi) <= Z.of_nat n.
Proof.
  induction 1 as [|n s now block source s' r _ IH Hne Hrun Hr]; intros Hn.
  { split; [eexists; apply genesis_chainstate_ok|]. intros id bi Hbi. cbn in Hbi. by apply lookup_empty_Some in Hbi. }
  destruct IH as [[g Hok] Hh]; [lia|].
  assert (heights_fit_child s) as Hfit by (intros id bi Hbi; specialize (Hh id bi Hbi); lia).
  pose proof (attempt_to_process_spec chain_config chainstate_config genesis_ledger now source s g block Hok Hfit Hne) as Hspec.
  rewrite Hrun in Hspec.
  assert ((exists g', chainstate_ok chain_config genesis_ledger s' g') /\ grown chain_config s s') as [Hok' Hgr].
  { destruct r as [o|e|]; [|by destruct Hspec as (? & ? & _); eauto|done]. destruct Hspec as (? & _ & _ & g' & ? & _). eauto. }
  split; [done|]. intros id bi Hbi. destruct (Hgr id bi Hbi) as [(b & Hb & Hc)|(i & p & Hp & Hhp)].
  - apply core_facts in Hc as (_ & _ & Heq & _). rewrite <- Heq. specialize (Hh id b Hb). lia.
  - apply getter_inv in Hp as [[_ ->]|(_ & b & -> & Hb)]; [cbn in Hhp; lia|]. specialize (Hh i b Hb). simpl in Hhp. lia.
Qed.
End reachable.
