(* ===== verification/ChainstateTheorems.v ===== *)
(** * What the chainstate guarantees

    The theorems on the chainstate ([chainstate/src/detail]) as a whole: what
    activating, processing and invalidating blocks does, and that the checks of
    consistency accept what processing leads to.  Their proofs are in
    ChainstateRef.v, Invalidation.v and BlockProcessing.v.

    [Example] has a small chain whose ledger is the list of the connected
    blocks; it shows that the hypotheses can hold, and two sequences of
    operations after which the checks of consistency fail. *)
From S2P Require Import Prelude Amount Uint ChainTypes ChainConfig Compact BlockTree Utxo TxTypes Policy.
From S2P Require Import CheckTransaction TxVerifier ChainstateRef Chainstate Branches Invalidation BlockProcessing.
From S2P Require Connect.

(** * A small chain *)

Module Example.
#[export] Existing Instance numbered_keys.
#[export] Existing Instance BlockTree.Witnesses.flat_weights.
#[export] Existing Instance Utxo.Example.numbered_txs.
#[export] Existing Instance Connect.Witnesses.small.
Export ChainConfig.Example.

(** The id of a block is the number in place of its first Merkle root. *)
#[export] Instance numbered_blocks : BlockHashes := {| header_id := hdr_tx_merkle_root |}.

(** Every block is fine, except that the ledger refuses those whose second root
    is 1. *)
#[export] Instance no_checks : BlockChecks (list BlockId) := {|
  header_size := fun _ => 100%N;
  merkle_roots := fun b => Some (hdr_tx_merkle_root (block_header b), hdr_witness_merkle_root (block_header b));
  consensus_error := Empty_set;
  consensus_error_class := fun e => match e with end;
  validate_consensus := fun _ _ _ => Ok tt
|}.
#[export] Instance list_ledger : BlockLedger (list BlockId) := {|
  ledger_error := unit;
  ledger_error_class := fun _ => ErrorClass.BadBlock;
  ledger_connect := fun _ bi b _ l =>
    if (hdr_witness_merkle_root (block_header b) =? 1)%N then Err tt else Ok (bi_block_id bi :: l);
  ledger_post_connect := fun _ _ l => Ok l;
  ledger_disconnect := fun _ l => match l with [] => Err tt | _ :: l => Ok l end;
  ledger_post_disconnect := fun _ l => Ok l
|}.
#[export] Instance list_ledger_laws : BlockLedgerLaws (list BlockId).
Proof.
  refine {| ledger_equiv := eq |}.
  - intros idx bi b t l l' r -> Hr. eauto.
  - intros bi b l l' r -> Hr. eauto.
  - intros b l l' r -> Hr. eauto.
  - intros h l l' r -> Hr. eauto.
  - intros idx bi b t l. cbn. by destruct (_ =? _)%N.
  - done.
  - intros idx bi b t l l1 l2 h. cbn. destruct (_ =? _)%N; [done|]. intros [= <-] [= <-] _. by exists l, l.
Defined.

Definition conf : ChainstateConfig := {| checkpoints_mismatch_allowed := false |}.
Definition noon : BlockTimestamp := u64_lit 43200.

(** A block with its number, its parent and its time in units of 100 seconds;
    [heavy] blocks add more trust than the light ones. *)
Definition light (id prev : BlockId) (n : Z) : TxVerifier.Block :=
  mk_block (with_no_signature (mk_header prev id 0 (u64_lit (100 * n)) ConsensusNone)) [] [].
Definition heavy (id prev : BlockId) (n : Z) : TxVerifier.Block :=
  mk_block (with_no_signature (mk_header prev id 0 (u64_lit (100 * n))
    (ConsensusPoS {| kernel_inputs := []; stake_pool_id := 0; vrf_data := 0%N;
                     compact_target := @mk_bint 0 (2 ^ 32 - 1) 0 eq_refl |}))) [] [].
(** A block that the ledger refuses. *)
Definition refused (id prev : BlockId) (n : Z) : TxVerifier.Block :=
  mk_block (with_no_signature (mk_header prev id 1 (u64_lit (100 * n)) ConsensusNone)) [] [].

Section runs.
Context (chain_config : ChainConfig).

Definition start : Store (list BlockId) := process_genesis chain_config [] (empty_store []).
Definition process (b : TxVerifier.Block) (s : Store (list BlockId)) :=
  attempt_to_process_block chain_config conf noon b Peer s.
Definition run (bs : list TxVerifier.Block) : Store (list BlockId) := foldl (fun s b => (process b s).1) start bs.
End runs.
End Example.

(** * Theorems *)

Section theorems.
Context `{CryptoTypes} `{!TxHash} `{!TxParameters} `{!BlockHashes} `{TimeslotWeights} {L : Type} `{!BlockChecks L}.
Context `{!BlockLedger L} `{!BlockLedgerLaws L}.
Context (chain_config : ChainConfig) (chainstate_config : ChainstateConfig) (genesis_ledger : L).
Implicit Types (s : Store L) (id : BlockId) (bi : BlockIndex) (g : GenBlockIndex) (now : BlockTimestamp).
Abbreviation in_main := (is_block_in_main_chain chain_config).

(** C1: every chainstate that is reached from the genesis by processing blocks,
    in any order, at any times and whether they are accepted or refused, passes
    the checks that the chainstate makes of itself; its main chain consists of
    the ancestors of the best block, all of them fully valid, and its ledger is
    the one that connecting them in turn gives.  The number of blocks is bounded
    because heights are 64-bit numbers. *)
Theorem processed_chainstate_consistent n s : 0 <= ival (max_depth_for_reorg chain_config) ->
  Processed chain_config chainstate_config genesis_ledger n s -> Z.of_nat n + 3 < 2 ^ 64 ->
  check_consistency (E := Empty_set) chain_config s = Ok tt /\
  exists g, chain_ok chain_config genesis_ledger s g /\ index_ok chain_config s.
Proof.
  intros Hd Hp Hn. destruct (processed_ok chain_config chainstate_config genesis_ledger Hd n s Hp Hn) as [[g Hok] _].
  split; [by eapply check_consistency_ok|]. destruct Hok as (? & ? & _). eauto.
Qed.

(** C2: processing a block.  A block with more trust than the tip becomes the
    tip, with the ledger of its chain; one with at most that trust is stored;
    and when a block is refused, the main chain, the stored blocks and the
    ledger are as before, whatever was connected before the failure, and the
    indices stay in order.  The code panics only where creating the index
    overflows or a check of the block panics. *)
Theorem processing_a_block now source s g (block : TxVerifier.Block) :
  chainstate_ok chain_config genesis_ledger s g -> heights_fit_child s ->
  block_get_id block <> genesis_block_id chain_config ->
  match attempt_to_process_block chain_config chainstate_config now block source s with
  | (s', Ok (Some bi)) => chainstate_ok chain_config genesis_ledger s' (GenBlockIndex.Block bi) /\
      bi_block_id bi = block_get_id block /\ st_blocks s' = <[block_get_id block := block]> (st_blocks s) /\
      value (gen_chain_trust g) < value (bi_chain_trust bi)
  | (s', Ok None) => chainstate_ok chain_config genesis_ledger s' g /\
      st_blocks s' = <[block_get_id block := block]> (st_blocks s) /\
      exists bi, st_index s' !! block_get_id block = Some bi /\ value (bi_chain_trust bi) <= value (gen_chain_trust g)
  | (s', Err e) => chainstate_ok chain_config genesis_ledger s' g /\ same_chain s s'
  | (_, Panic) => create_block_index_for_new_block chain_config s block BlockStatus.new = Panic \/
                  check_block chain_config chainstate_config now s block = Panic
  end.
Proof.
  intros Hok Hfit Hne.
  pose proof (attempt_to_process_spec chain_config chainstate_config genesis_ledger now source s g block Hok Hfit Hne) as Hspec.
  destruct (attempt_to_process_block chain_config chainstate_config now block source s) as [s' [[bi|]|e|]].
  - destruct Hspec as (_ & _ & Hblk & g' & Hok' & -> & Hid & Htr). done.
  - destruct Hspec as (_ & _ & Hblk & g' & Hok' & -> & Hbi). done.
  - destruct Hspec as (? & _ & ?). done.
  - done.
Qed.

(** C3: activating a stored block.  If it has more trust than the tip, the main
    chain is rewritten to end in it and the ledger is the one of the new chain;
    otherwise nothing changes.  The only failure is that of a block of the new
    chain, off the old one, to be connected; no error of the chainstate's own
    and no panic arises, however far the two chains are apart. *)
Theorem activating_a_block now s g bi : chain_ok chain_config genesis_ledger s g -> index_ok chain_config s ->
  st_index s !! bi_block_id bi = Some bi -> bi_is_persisted bi = true ->
  match activate_best_chain chain_config chainstate_config now bi s with
  | (s', Ok true) => value (gen_chain_trust g) < value (bi_chain_trust bi) /\ index_ok chain_config s' /\
      exists bi', chain_ok chain_config genesis_ledger s' (GenBlockIndex.Block bi') /\ bi_block_id bi' = bi_block_id bi
  | (s', Ok false) => value (bi_chain_trust bi) <= value (gen_chain_trust g) /\ s' = s
  | (_, Err (ConnectTipFailed id _)) => in_main s id = false /\ in_branch (st_index s) id (bi_block_id bi)
  | (_, Err (OtherError _)) | (_, Panic) => False
  end.
Proof.
  intros Hok Hix Hbi Hp.
  pose proof (activate_best_chain_spec chain_config chainstate_config genesis_ledger now s g bi Hok Hix Hbi Hp) as Hspec.
  destruct (activate_best_chain chain_config chainstate_config now bi s) as [s' [[]|[id e|e]|]]; [| | |done..].
  - destruct Hspec as (Htr & bi' & Hok' & Hid & Hix' & _). eauto.
  - done.
  - destruct Hspec as (_ & _ & k & c & Hf & <- & Hm). split; [done|]. pose proof (ck_tree _ _ _ _ Hok) as Hwf.
    apply (follow_below chain_config s Hwf k (GenBlockIndex.Block bi) (GenBlockIndex.Block c)); [|done].
    apply getter_block; [done|by eapply index_not_genesis].
Qed.

(** C12: invalidating a block.  If it succeeds, the block and everything below it
    is marked as failed and off the main chain, nothing that was marked before is
    valid again, the main chain is again the ancestry of the tip with the ledger
    that its blocks give ([chain_ok]), and the index is consistent ([index_ok]).  A
    block of the main chain is then above the height up to which reorganisations are
    not allowed, and the new tip is its parent or has more trust than its parent; a
    block off the main chain is invalidated without moving the tip.  It is refused
    for the genesis, for an unknown block, and for a block of the main chain that is
    not above that height, and nothing changes then.  No other error and no panic
    arises.  The stored height itself is not raised when the new tip is higher than
    the old one ([invalidation_keeps_the_limit]), so [check_consistency], which also
    looks at it, is not part of the claim. *)
Theorem invalidating_a_block now explicit s g id : chain_ok chain_config genesis_ledger s g -> index_ok chain_config s ->
  heights_fit s -> trust_fits g ->
  match invalidate_block chain_config chainstate_config now id explicit s with
  | (s', Ok _) => no_revival s s' /\ branch_out chain_config id s s' /\ index_ok chain_config s' /\
      exists bi g', st_index s !! id = Some bi /\ chain_ok chain_config genesis_ledger s' g' /\
        if in_main s id
        then ival (get_min_height_with_allowed_reorg s) < ival (bi_block_height bi) /\
          exists p, get_gen_block_index chain_config s (bi_prev_block_id bi) = Some p /\
            (g' = p \/ value (gen_chain_trust p) < value (gen_chain_trust g'))
        else g' = g
  | (s', Err (BlockTooDeepToInvalidate x)) => s' = s /\ x = id /\ in_main s id = true /\
      exists bi, st_index s !! id = Some bi /\ ival (bi_block_height bi) <= ival (get_min_height_with_allowed_reorg s)
  | (s', Err (BlockIndexQueryError _ _)) => s' = s /\ id = genesis_block_id chain_config
  | (s', Err (BlockIndicesForBranchQueryError _)) => s' = s /\ st_index s !! id = None
  | _ => False
  end.
Proof. apply invalidate_block_spec. Qed.

(** C13: the search for a better chain ends.  Whatever blocks fail to connect,
    trying the candidates ends, within as many rounds as there are blocks,
    without an error or a failing assertion: either with a chain that has more
    trust than the tip, or with the tip it started from. *)
Theorem best_chain_search_ends now s g : chain_ok chain_config genesis_ledger s g -> index_ok chain_config s ->
  heights_fit s -> trust_fits g ->
  exists s' reorg_occurred g', find_and_activate_best_chain chain_config chainstate_config now s = (s', Ok reorg_occurred) /\
    chain_ok chain_config genesis_ledger s' g' /\ index_ok chain_config s' /\ no_revival s s' /\
    if reorg_occurred : bool then value (gen_chain_trust g) < value (gen_chain_trust g') else g' = g.
Proof. apply find_and_activate_spec. Qed.

(** Clearing the marks of failure of a branch whose root has a valid parent
    succeeds and keeps the chainstate in order, with a tip of at least the
    trust of the old one. *)
Theorem clearing_failures now s g root rbi : chain_ok chain_config genesis_ledger s g -> index_ok chain_config s ->
  heights_fit s -> trust_fits g -> st_index s !! root = Some rbi ->
  (forall pbi, st_index s !! bi_prev_block_id rbi = Some pbi -> ok (bi_status pbi) = true) ->
  exists s' g', reset_block_failure_flags chain_config chainstate_config now root s = (s', Ok tt) /\
    chain_ok chain_config genesis_ledger s' g' /\ index_ok chain_config s' /\ st_blocks s' = st_blocks s /\
    value (gen_chain_trust g) <= value (gen_chain_trust g').
Proof. apply reset_block_failure_flags_spec. Qed.
End theorems.

(** * The theorems for the small chain *)

Module Witnesses.
Import Example.

(** No block of the list has the id of the genesis, and none makes the code
    panic. *)
Fixpoint runs_through chain_config (bs : list TxVerifier.Block) (s : Store (list BlockId)) : bool :=
  match bs with
  | [] => true
  | b :: bs =>
      negb (bool_decide (block_get_id b = genesis_block_id chain_config)) &&
      match process chain_config b s with
      | (_, Panic) => false
      | (s', _) => runs_through chain_config bs s'
      end
  end.

Lemma run_processed chain_config bs n s : runs_through chain_config bs s = true -> Processed chain_config conf [] n s ->
  Processed chain_config conf [] (length bs + n) (foldl (fun s b => (process chain_config b s).1) s bs).
Proof.
  revert n s. induction bs as [|b bs IH]; intros n s Hr Hp; [done|]. cbn [runs_through] in Hr. apply andb_true_iff in Hr as [Hne Hr].
  apply negb_true_iff, bool_decide_eq_false in Hne. simpl. rewrite plus_n_Sm. destruct (process chain_config b s) as [s' r] eqn:Hrun.
  apply IH; [by destruct r|]. eapply (Processed_block _ _ _ n s noon b Peer s' r); [done..|by destruct r].
Qed.

Lemma run_ok depth bs : 0 <= ival (max_depth_for_reorg (cfg_with_depth depth)) -> Z.of_nat (length bs) + 3 < 2 ^ 64 ->
  runs_through (cfg_with_depth depth) bs (start (cfg_with_depth depth)) = true ->
  exists g, chainstate_ok (cfg_with_depth depth) [] (run (cfg_with_depth depth) bs) g.
Proof.
  intros Hd Hlen Hr. pose proof (run_processed _ bs 0 _ Hr (Processed_genesis _ _ _)) as Hp. rewrite Nat.add_0_r in Hp.
  by destruct (processed_ok _ _ _ Hd _ _ Hp Hlen).
Qed.

(** Blocks 1, 2 and 3; 4 on block 1; 5, which the ledger refuses, on block 4,
    and 6 on block 5. *)
Definition blocks : list TxVerifier.Block := [light 1 0 1; light 2 1 2; light 3 2 3; light 4 1 2; refused 5 4 3; light 6 5 4]%N.
Definition after_blocks : Store (list BlockId) := run cfg blocks.

Lemma processed_chainstate_consistent_witness : check_consistency (E := Empty_set) cfg after_blocks = Ok tt /\
  st_ledger after_blocks = [3; 2; 1]%N.
Proof.
  split; [|vm_compute; reflexivity]. apply (processed_chainstate_consistent cfg conf [] 6 after_blocks); [vm_compute; discriminate| |lia].
  apply (run_processed cfg blocks 0); [vm_compute; reflexivity|constructor].
Defined.

Definition three : list TxVerifier.Block := [light 1 0 1; light 2 1 2; light 3 2 3]%N.
Definition tip (n : nat) : GenBlockIndex :=
  match get_gen_block_index cfg (run cfg (take n three)) (N.of_nat n) with Some g => g | None => genesis cfg end.

Lemma three_ok n : (n <= 3)%nat -> chainstate_ok cfg [] (run cfg (take n three)) (tip n).
Proof.
  intros Hn. destruct (run_ok 1000 (take n three)) as [g Hg].
  - vm_compute. discriminate.
  - rewrite length_take. simpl. lia.
  - do 4 (destruct n; [vm_compute; reflexivity|]). lia.
  - assert (tip n = g) as ->; [|exact Hg]. destruct Hg as (Hok & _ & _). pose proof (ck_best _ _ _ _ Hok) as Hb.
    assert (gen_block_id g = N.of_nat n) as Hid.
    { pose proof (ck_best_id _ _ _ _ Hok) as Hbest. do 4 (destruct n; [vm_compute in Hbest; by injection Hbest|]). lia. }
    unfold tip, get_gen_block_index. rewrite <- Hid. change (cfg_with_depth 1000) with cfg in Hb. by rewrite Hb.
Qed.

Lemma fits_of {A : Type} (f : BlockIndex -> bool) (db : gmap BlockId BlockIndex) :
  forallb (fun e => f e.2) (map_to_list db) = true -> forall id bi, db !! id = Some bi -> f bi = true.
Proof.
  intros Hall id bi Hbi. rewrite forallb_forall in Hall. apply (Hall (id, bi)). apply list_elem_of_In. by apply elem_of_map_to_list.
Qed.

Lemma heights_small (s : Store (list BlockId)) : forallb (fun e => ival (bi_block_height e.2) <? 100) (map_to_list (st_index s)) = true ->
  heights_fit_child s /\ heights_fit s.
Proof.
  intros Hall. pose proof (fits_of (A := unit) (fun bi => ival (bi_block_height bi) <? 100) _ Hall) as Hf.
  split; intros id bi Hbi; apply Hf in Hbi; lia.
Qed.

Definition two : Store (list BlockId) := run cfg (take 2 three).
Lemma two_ok : chainstate_ok cfg [] two (tip 2).
Proof. apply three_ok. lia. Qed.
Lemma two_heights : heights_fit_child two /\ heights_fit two.
Proof. apply heights_small. vm_compute. reflexivity. Qed.

(** Block 3 on blocks 1 and 2. *)
Lemma processing_a_block_witness : exists bi, (process cfg (light 3 2 3) two).2 = Ok (Some bi) /\
  chainstate_ok cfg [] (process cfg (light 3 2 3) two).1 (GenBlockIndex.Block bi).
Proof.
  pose proof (processing_a_block cfg conf [] noon Peer two (tip 2) (light 3 2 3) two_ok (proj1 two_heights) ltac:(discriminate)) as Ht.
  fold (process cfg (light 3 2 3) two) in Ht.
  assert (exists bi, (process cfg (light 3 2 3) two).2 = Ok (Some bi)) as [bi Hbi] by (vm_compute; eauto).
  exists bi. split; [done|]. destruct (process cfg (light 3 2 3) two) as [s' r]. cbn [fst snd] in *. subst r. by destruct Ht.
Defined.

(** Block 3 again, after it was disconnected. *)
Definition full : Store (list BlockId) := run cfg three.
Definition undone : Store (list BlockId) := (disconnect_until cfg 3 3%N 2%N full).1.
Definition stored3 : BlockIndex := match st_index undone !! 3%N with Some bi => bi | None => BlockTree.Witnesses.index 0 0 0 0 end.

Lemma full_ok : chainstate_ok cfg [] full (tip 3).
Proof. apply (three_ok 3). lia. Qed.
Lemma undone_ok : exists g, chain_ok cfg [] undone g /\ index_ok cfg undone /\ gen_block_id g = 2%N.
Proof.
  destruct full_ok as (Hok & Hix & _).
  assert (exists a, follow cfg (st_index full) 1 (tip 3) = Some a /\ gen_block_id a = 2%N) as (a & Ha & Hid)
    by (eexists; split; vm_compute; reflexivity).
  destruct (disconnect_until_spec cfg [] 3 full (tip 3) 1 a Hok Ha) as (s' & Hrun & Hok' & Hidx & Hblk & _); [lia|].
  change (gen_block_id (tip 3)) with 3%N in Hrun. rewrite Hid in Hrun. unfold undone. rewrite Hrun. exists a.
  split_and!; [done|by eapply index_ok_same|done].
Qed.

Lemma activating_a_block_witness : exists s', activate_best_chain cfg conf noon stored3 undone = (s', Ok true) /\
  index_ok cfg s' /\ st_ledger s' = [3; 2; 1]%N.
Proof.
  destruct undone_ok as (g & Hok & Hix & _).
  pose proof (activating_a_block cfg conf [] noon undone g stored3 Hok Hix ltac:(vm_compute; reflexivity) ltac:(vm_compute; reflexivity)) as Ht.
  assert ((activate_best_chain cfg conf noon stored3 undone).2 = Ok true) as Hres by (vm_compute; reflexivity).
  assert (st_ledger (activate_best_chain cfg conf noon stored3 undone).1 = [3; 2; 1]%N) as Hl by (vm_compute; reflexivity).
  destruct (activate_best_chain cfg conf noon stored3 undone) as [s' r]. cbn [fst snd] in *. subst r. exists s'. by destruct Ht as (_ & ? & _).
Defined.

(** Block 2, with block 3 on it, is invalidated. *)
Lemma trust_small : trust_fits (tip 3).
Proof. vm_compute. reflexivity. Qed.
Lemma full_heights : heights_fit_child full /\ heights_fit full.
Proof. apply heights_small. vm_compute. reflexivity. Qed.

Definition invalidated : Store (list BlockId) := (invalidate_block cfg conf noon 2%N ExplicitYes full).1.

Lemma invalidated_ok : index_ok cfg invalidated /\ exists g, chain_ok cfg [] invalidated g.
Proof.
  destruct full_ok as (Hok & Hix & _).
  pose proof (invalidate_block_spec cfg conf [] noon ExplicitYes full (tip 3) 2%N Hok Hix (proj2 full_heights) trust_small) as Ht.
  assert ((invalidate_block cfg conf noon 2%N ExplicitYes full).2 = Ok tt) as Hres by (vm_compute; reflexivity).
  unfold invalidated. destruct (invalidate_block cfg conf noon 2%N ExplicitYes full) as [s' r]. cbn [fst snd] in *. subst r.
  destruct Ht as (_ & _ & ? & bi & g & _ & ? & _). eauto.
Qed.

Lemma invalidating_a_block_witness : st_ledger invalidated = [1]%N /\ branch_out cfg 2%N full invalidated.
Proof.
  destruct full_ok as (Hok & Hix & _). split; [vm_compute; reflexivity|].
  pose proof (invalidating_a_block cfg conf [] noon ExplicitYes full (tip 3) 2%N Hok Hix (proj2 full_heights) trust_small) as Ht.
  assert ((invalidate_block cfg conf noon 2%N ExplicitYes full).2 = Ok tt) as Hres by (vm_compute; reflexivity).
  unfold invalidated. destruct (invalidate_block cfg conf noon 2%N ExplicitYes full) as [s' r]. cbn [fst snd] in *. subst r.
  by destruct Ht as (_ & ? & _).
Defined.

(** The search finds block 3 again after it was disconnected. *)
Lemma undone_fits : (forall g, gen_block_id g = 2%N -> chain_ok cfg [] undone g -> trust_fits g) /\ heights_fit undone.
Proof.
  split; [|apply heights_small; vm_compute; reflexivity]. intros g Hid Hok. pose proof (ck_best _ _ _ _ Hok) as Hb. rewrite Hid in Hb.
  vm_compute in Hb. injection Hb as <-. vm_compute. reflexivity.
Qed.
Lemma best_chain_search_ends_witness : exists s' g', find_and_activate_best_chain cfg conf noon undone = (s', Ok true) /\
  chain_ok cfg [] s' g' /\ gen_block_id g' = 3%N.
Proof.
  destruct undone_ok as (g & Hok & Hix & Hid). destruct undone_fits as [Htr Hh].
  destruct (best_chain_search_ends cfg conf [] noon undone g Hok Hix Hh (Htr g Hid Hok)) as (s' & b & g' & Hrun & Hok' & _).
  assert ((find_and_activate_best_chain cfg conf noon undone).2 = Ok true) as Hres by (vm_compute; reflexivity).
  assert (st_best_block (find_and_activate_best_chain cfg conf noon undone).1 = Some 3%N) as Hbest by (vm_compute; reflexivity).
  rewrite Hrun in Hres, Hbest. injection Hres as ->. exists s', g'. split_and!; [done..|].
  pose proof (ck_best_id _ _ _ _ Hok') as Hb. simpl in Hbest. congruence.
Defined.

(** The marks of block 2 and block 3 are cleared. *)
Definition marked2 : BlockIndex := match st_index invalidated !! 2%N with Some bi => bi | None => BlockTree.Witnesses.index 0 0 0 0 end.
Lemma clearing_failures_witness : exists s' g', reset_block_failure_flags cfg conf noon 2%N invalidated = (s', Ok tt) /\
  chain_ok cfg [] s' g' /\ st_ledger s' = [3; 2; 1]%N.
Proof.
  destruct invalidated_ok as [Hix [g Hok]].
  assert (trust_fits g) as Htr.
  { pose proof (ck_best _ _ _ _ Hok) as Hb. pose proof (ck_best_id _ _ _ _ Hok) as Hbid.
    assert (st_best_block invalidated = Some 1%N) as Hone by (vm_compute; reflexivity). rewrite Hone in Hbid. injection Hbid as Hbid.
    rewrite <- Hbid in Hb. vm_compute in Hb. injection Hb as <-. vm_compute. reflexivity. }
  destruct (clearing_failures cfg conf [] noon invalidated g 2%N marked2 Hok Hix) as (s' & g' & Hrun & Hok' & _).
  - apply heights_small. vm_compute. reflexivity.
  - done.
  - vm_compute. reflexivity.
  - intros pbi Hp. vm_compute in Hp. injection Hp as <-. vm_compute. reflexivity.
  - exists s', g'. split_and!; [done..|].
    assert (st_ledger (reset_block_failure_flags cfg conf noon 2%N invalidated).1 = [3; 2; 1]%N) as Hl by (vm_compute; reflexivity).
    by rewrite Hrun in Hl.
Defined.

(** ** Where the checks of consistency fail *)

(** Clearing the marks of block 3 alone, whose parent stays marked, succeeds and
    leaves a valid block with an invalid parent. *)
Lemma clearing_below_a_failed_block :
  check_consistency (E := Empty_set) cfg invalidated = Ok tt /\
  (reset_block_failure_flags cfg conf noon 3%N invalidated).2 = Ok tt /\
  check_consistency (E := Empty_set) cfg (reset_block_failure_flags cfg conf noon 3%N invalidated).1 = Panic.
Proof. split_and!; vm_compute; reflexivity. Qed.

(** With reorganisations of at most one block: a heavy block 1, and the light
    blocks 2, 3 and 4 beside it.  Invalidating block 1 makes block 4, at height
    3, the tip, and the stored limit stays at height 0. *)
Definition beside : Store (list BlockId) := run (cfg_with_depth 1) [heavy 1 0 1; light 2 0 1; light 3 2 2; light 4 3 3]%N.
Lemma invalidation_keeps_the_limit :
  check_consistency (E := Empty_set) (cfg_with_depth 1) beside = Ok tt /\
  let '(s', r) := invalidate_block (cfg_with_depth 1) conf noon 1%N ExplicitYes beside in
  r = Ok tt /\ st_best_block s' = Some 4%N /\ get_min_height_with_allowed_reorg s' = BlockHeight.zero /\
  check_consistency (E := Empty_set) (cfg_with_depth 1) s' = Panic.
Proof. split; vm_compute; split_and?; reflexivity. Qed.

(** Blocks 3 and 4 of [blocks] branch off at block 1. *)
Lemma last_common_ancestor_exact_witness : exists f g c, get_gen_block_index cfg after_blocks 3%N = Some f /\
  get_gen_block_index cfg after_blocks 4%N = Some g /\ last_common_ancestor cfg after_blocks f g = Ok c /\ gen_block_id c = 1%N.
Proof.
  destruct (run_ok 1000 blocks) as [t (Hok & _ & _)]; [vm_compute; discriminate|simpl; lia|vm_compute; reflexivity|].
  destruct (get_gen_block_index cfg after_blocks 3%N) as [f|] eqn:Hf; [|vm_compute in Hf; discriminate].
  destruct (get_gen_block_index cfg after_blocks 4%N) as [g|] eqn:Hg; [|vm_compute in Hg; discriminate].
  destruct (last_common_ancestor_exact cfg after_blocks 3%N 4%N f g (ck_tree _ _ _ _ Hok) Hf Hg) as (c & n & m & Hrun & _).
  exists f, g, c. split_and!; [done..|]. vm_compute in Hf, Hg. injection Hf as <-. injection Hg as <-.
  vm_compute in Hrun. by injection Hrun as <-.
Defined.
End Witnesses.
