(* ===== verification/Consensus.v ===== *)
(** * Consensus: validation and production of headers

    Models [consensus/src/validator.rs] and [lib.rs] with the input data of
    [pos/input_data.rs] and [pow/input_data.rs]: the dispatch on the consensus
    that the chain requires at a height, the data and the reward that a producer
    starts from, and how it finishes the header by mining or staking; and the
    classes that [error_classification.rs] gives to the errors.  The checks of
    the chainstate (ChainstateRef.v) take this validation as their instance
    ([consensus_checks]).  The theorems say which headers are valid and that
    what a producer finishes is valid. *)
From S2P Require Import Prelude Amount Uint ChainTypes ChainConfig Compact BlockTree.
From S2P Require Accounting PoS Utxo ConsensusPoW ConsensusPoS ChainstateRef.
Import ConsensusPoW(ConsensusPoWError, MiningResult, MiningSuccess, MiningFailed, MiningStopped, check_pow_consensus,
  calculate_work_required, get_ancestor_from_block_index_handle, CrateChainstateError).
Import ConsensusPoS(StakeCrypto, ConsensusPoSError, StakingKeys, PoSFinalizeBlockInputData, StakeResult, StakeSuccess,
  StakeFailed, StakeStopped, check_proof_of_stake, stake).

Module ConsensusVerificationError.
Inductive ConsensusVerificationError `{StakeCrypto} :=
  | PrevBlockNotFound (prev id : BlockId)
  | ConsensusTypeMismatch
  | PoWError (e : ConsensusPoWError)
  | PoSError (e : ConsensusPoSError).
End ConsensusVerificationError.
Abbreviation ConsensusVerificationError := ConsensusVerificationError.ConsensusVerificationError.

(** ** Validation ([validator.rs]) *)

Section validate.
Context `{StakeCrypto} `{!BlockHashes} {U P : Type} `{!Utxo.UtxosView U} `{!PoS.PoSAccountingView P}.
Context (pos_error : PoS.view_error -> PoS.Error) (chain_config : ChainConfig) (block_index_handle : gmap BlockId BlockIndex).
Context (epoch_data_storage : gmap u64 H256) (utxos_view : U) (pos_accounting_view : P).
Import ConsensusVerificationError.
Abbreviation verified := (result ConsensusVerificationError unit).

Definition validate_pow_consensus (header : BlockHeader) (pow_status : PoWStatus) : verified :=
  match hdr_consensus_data header with
  | ConsensusNone | ConsensusPoS _ => Err ConsensusTypeMismatch
  | ConsensusPoW pow_data =>
      map_err PoWError (check_pow_consensus chain_config block_index_handle header pow_data pow_status)
  end.

Definition validate_ignore_consensus (header : BlockHeader) : verified :=
  match hdr_consensus_data header with
  | ConsensusNone => Ok tt
  | ConsensusPoW _ | ConsensusPoS _ => Err ConsensusTypeMismatch
  end.

Definition validate_pos_consensus (header : SignedBlockHeader) (pos_status : PoSStatus) : verified :=
  match hdr_consensus_data header with
  | ConsensusNone | ConsensusPoW _ => Err ConsensusTypeMismatch
  | ConsensusPoS pos_data =>
      map_err PoSError (check_proof_of_stake pos_error chain_config pos_status header pos_data block_index_handle
                          epoch_data_storage utxos_view pos_accounting_view)
  end.

Definition validate_consensus (header : SignedBlockHeader) : verified :=
  prev ← ok_or (PrevBlockNotFound (hdr_prev_block_id header) (header_id header))
           (gen_block_index_getter chain_config block_index_handle (hdr_prev_block_id header));
  block_height ← BlockHeight.next_height (gen_block_height prev);
  consensus_status ← consensus_status (consensus_upgrades chain_config) block_height;
  match consensus_status with
  | RequiredConsensus.PoW pow_status => validate_pow_consensus header pow_status
  | RequiredConsensus.IgnoreConsensus => validate_ignore_consensus header
  | RequiredConsensus.PoS pos_status => validate_pos_consensus header pos_status
  end.
End validate.

(** ** The classes of the errors ([error_classification.rs]) *)

Section classify.
Context `{StakeCrypto}.
Import ChainstateRef.ErrorClass.

(** [accounting::Error] and [pos_accounting::Error]. *)
Definition classify_accounting_error (e : Accounting.Error) : BlockProcessingErrorClass := BadBlock.
Definition classify_pos_accounting_error (e : PoS.Error) : BlockProcessingErrorClass :=
  match e with
  | PoS.ViewFail | PoS.StorageWrite => General
  | PoS.AccountingError err => classify_accounting_error err
  | _ => BadBlock
  end.

Definition classify_crate_chainstate_error (e : CrateChainstateError) : BlockProcessingErrorClass := General.

Definition classify_pow_error (e : ConsensusPoWError) : BlockProcessingErrorClass :=
  match e with
  | ConsensusPoW.ConsensusPoWError.PreviousBitsDecodingFailed _ => General
  | ConsensusPoW.ConsensusPoWError.ChainstateError err => classify_crate_chainstate_error err
  | _ => BadBlock
  end.

Definition classify_pos_error (e : ConsensusPoSError) : BlockProcessingErrorClass :=
  match e with
  | ConsensusPoS.ConsensusPoSError.PrevBlockIndexNotFound _ | ConsensusPoS.ConsensusPoSError.PoolDataNotFound _
  | ConsensusPoS.ConsensusPoSError.FailedToFetchUtxo | ConsensusPoS.ConsensusPoSError.FailedToSignBlockHeader
  | ConsensusPoS.ConsensusPoSError.FailedToSignKernel | ConsensusPoS.ConsensusPoSError.FutureTimestampInThePast => General
  | ConsensusPoS.ConsensusPoSError.ChainstateError err => classify_crate_chainstate_error err
  | ConsensusPoS.ConsensusPoSError.PoSAccountingError err => classify_pos_accounting_error err
  | _ => BadBlock
  end.

Definition classify_consensus_error (e : ConsensusVerificationError) : BlockProcessingErrorClass :=
  match e with
  | ConsensusVerificationError.PrevBlockNotFound _ _ | ConsensusVerificationError.ConsensusTypeMismatch => BadBlock
  | ConsensusVerificationError.PoWError err => classify_pow_error err
  | ConsensusVerificationError.PoSError err => classify_pos_error err
  end.

(** The checks of the chainstate with this validation: the ledger [L] shows its
    unspent outputs, its pools and its epoch data. *)
Definition consensus_checks {L U P : Type} `{!BlockHashes} `{!Utxo.UtxosView U} `{!PoS.PoSAccountingView P}
    (pos_error : PoS.view_error -> PoS.Error) (chain_config : ChainConfig)
    (utxos_of : L -> U) (pools_of : L -> P) (epochs_of : L -> gmap u64 H256)
    (size : SignedBlockHeader -> N) (roots : TxVerifier.Block -> option (H256 * H256)) : ChainstateRef.BlockChecks L := {|
  ChainstateRef.header_size := size;
  ChainstateRef.merkle_roots := roots;
  ChainstateRef.consensus_error := ConsensusVerificationError;
  ChainstateRef.consensus_error_class := classify_consensus_error;
  ChainstateRef.validate_consensus db ledger header :=
    validate_consensus pos_error chain_config db (epochs_of ledger) (utxos_of ledger) (pools_of ledger) header
|}.
End classify.

(** ** Production ([lib.rs], [pos/input_data.rs], [pow/input_data.rs]) *)

(** Signing: the key of a staker, the signature of a kernel and of a header. *)
Class BlockSigning `{CryptoTypes} := {
  PrivateKey : Type;
  public_key : PrivateKey -> PublicKey;
  sign_kernel : PrivateKey -> list TxInput -> list TxOutput -> PoolId -> bool;
  sign_message : PrivateKey -> BlockHeader -> option Signature
}.

Module ConsensusCreationError.
Inductive ConsensusCreationError `{StakeCrypto} :=
  | MiningError (e : ConsensusPoWError)
  | MiningStopped
  | MiningFailed
  | StakingError (e : ConsensusPoSError)
  | StakingFailed
  | StakingStopped.
End ConsensusCreationError.
Abbreviation ConsensusCreationError := ConsensusCreationError.ConsensusCreationError.

Record PoSGenerateBlockInputData `{BlockSigning} {R} `{!StakingKeys R} := {
  gen_stake_private_key : PrivateKey;
  gen_vrf_private_key : ConsensusPoS.VRFPrivateKey;
  gen_pool_id : PoolId;
  gen_kernel_inputs : list TxInput;
  gen_kernel_input_utxos : list TxOutput
}.

Inductive FinalizeBlockInputData `{BlockSigning} {R} `{!StakingKeys R} :=
  | FinalizePoW
  | FinalizePoS (stake_private_key : PrivateKey) (data : PoSFinalizeBlockInputData)
  | FinalizeNone.

Section produce.
Context `{StakeCrypto} `{!BlockHashes} `{!BlockSigning} {R : Type} `{!StakingKeys R} (chain_config : ChainConfig).
Implicit Types (get_ancestor : BlockIndex -> BlockHeight -> result CrateChainstateError GenBlockIndex).

Definition generate_consensus_data_and_reward_ignore_consensus (block_height : BlockHeight) :
    result ConsensusCreationError (ConsensusData * list TxOutput) :=
  subsidy ← block_subsidy_at_height chain_config block_height;
  Ok (ConsensusNone,
      [LockThenTransfer (Coin subsidy) AnyoneCanSpend
         (ForBlockCount (empty_consensus_reward_maturity_block_count chain_config))]).

Definition generate_pow_consensus_data_and_reward (prev_gen_block_index : GenBlockIndex) (block_timestamp : BlockTimestamp)
    (pow_status : PoWStatus) get_ancestor (reward_destination : Destination) (block_height : BlockHeight) :
    result ConsensusPoWError (PoWData * list TxOutput) :=
  work_required ← calculate_work_required chain_config prev_gen_block_index block_timestamp pow_status get_ancestor;
  subsidy ← block_subsidy_at_height chain_config block_height;
  Ok ({| bits := work_required; nonce := Amount.ZERO |},
      [LockThenTransfer (Coin subsidy) reward_destination
         (ForBlockCount (reward_maturity_distance (proof_of_work_config chain_config)))]).

(** The kernel signature becomes the witness of the kernel, which is left out of
    the model of [PoSData]. *)
Definition generate_pos_consensus_data_and_reward (prev_block_index : GenBlockIndex)
    (pos_input_data : PoSGenerateBlockInputData (R := R)) (pos_status : PoSStatus) (sealed_epoch_randomness : H256)
    (block_timestamp : BlockTimestamp) (block_height : BlockHeight) get_ancestor (rng : R) :
    result ConsensusPoSError (PoSData * list TxOutput) :=
  let reward_destination := DestPublicKey (public_key (gen_stake_private_key pos_input_data)) in
  let kernel_output := [ProduceBlockFromStake reward_destination (gen_pool_id pos_input_data)] in
  _ ← ensure (sign_kernel (gen_stake_private_key pos_input_data) (gen_kernel_inputs pos_input_data)
                (gen_kernel_input_utxos pos_input_data) (gen_pool_id pos_input_data))
        ConsensusPoS.ConsensusPoSError.FailedToSignKernel;
  epoch_index ← expect (bint_of_Z (epoch_index_from_height chain_config block_height));
  let '(vrf_data, _) := ConsensusPoS.produce_vrf_data epoch_index sealed_epoch_randomness block_timestamp
                          (gen_vrf_private_key pos_input_data) rng in
  target_required ← ConsensusPoS.calculate_target_required_from_block_index chain_config pos_status prev_block_index get_ancestor;
  Ok ({| kernel_inputs := gen_kernel_inputs pos_input_data; stake_pool_id := gen_pool_id pos_input_data;
         vrf_data := vrf_data; compact_target := target_required |}, kernel_output).

(** [block_height] is the height of the previous block; the header and the
    timestamp change in place. *)
Definition finalize_consensus_data (block_height : BlockHeight) (max_block_timestamp_for_pos : BlockTimestamp)
    (stop_flag : u128 -> bool) (finalize_data : FinalizeBlockInputData (R := R)) (rng : R) :
    ST (BlockHeader * BlockTimestamp) ConsensusCreationError SignedBlockHeader :=
  next_height ← lift (BlockHeight.next_height block_height);
  status ← lift (consensus_status (consensus_upgrades chain_config) next_height);
  '(block_header, _) ← self;
  match status with
  | RequiredConsensus.IgnoreConsensus => mret (with_no_signature block_header)
  | RequiredConsensus.PoS pos_status =>
      match hdr_consensus_data block_header, finalize_data with
      | ConsensusNone, _ => lift (Err (ConsensusCreationError.StakingError ConsensusPoS.ConsensusPoSError.NoInputDataProvided))
      | ConsensusPoW _, _ => lift (Err (ConsensusCreationError.StakingError ConsensusPoS.ConsensusPoSError.PoWInputDataProvided))
      | ConsensusPoS _, FinalizeNone =>
          lift (Err (ConsensusCreationError.StakingError ConsensusPoS.ConsensusPoSError.NoInputDataProvided))
      | ConsensusPoS _, FinalizePoW =>
          lift (Err (ConsensusCreationError.StakingError ConsensusPoS.ConsensusPoSError.PoWInputDataProvided))
      | ConsensusPoS pos_data, FinalizePoS stake_private_key finalize_pos_data =>
          stake_result ← st_map_err ConsensusCreationError.StakingError
            (stake chain_config (PoSStatus.get_chain_config pos_status) pos_data max_block_timestamp_for_pos
               finalize_pos_data rng);
          '(block_header, _) ← self;
          signature ← lift (ok_or (ConsensusCreationError.StakingError ConsensusPoS.ConsensusPoSError.FailedToSignBlockHeader)
            (sign_message stake_private_key block_header));
          match stake_result with
          | StakeSuccess => mret (with_signature block_header (Some signature))
          | StakeFailed => lift (Err ConsensusCreationError.StakingFailed)
          | StakeStopped => lift (Err ConsensusCreationError.StakingStopped)
          end
      end
  | RequiredConsensus.PoW _ =>
      match hdr_consensus_data block_header with
      | ConsensusNone => lift (Err (ConsensusCreationError.MiningError ConsensusPoW.ConsensusPoWError.NoInputDataProvided))
      | ConsensusPoS _ => lift (Err (ConsensusCreationError.MiningError ConsensusPoW.ConsensusPoWError.PoSInputDataProvided))
      | ConsensusPoW pow_data =>
          mine_result ← zoom fst (fun h s => (h, s.2)) ConsensusCreationError.MiningError
            (ConsensusPoW.mine (bits pow_data) stop_flag Amount.MAX);
          '(block_header, _) ← self;
          match mine_result with
          | MiningSuccess => mret (with_no_signature block_header)
          | MiningFailed => lift (Err ConsensusCreationError.MiningFailed)
          | MiningStopped => lift (Err ConsensusCreationError.MiningStopped)
          end
      end
  end.
End produce.

(** * Properties *)

Section valid.
Context `{StakeCrypto} `{!BlockHashes} {U P : Type} `{!Utxo.UtxosView U} `{!PoS.PoSAccountingView P}.
Context (pos_error : PoS.view_error -> PoS.Error) (cfg : ChainConfig) (db : gmap BlockId BlockIndex).
Context (epochs : gmap u64 H256) (utxos : U) (pools : P).

(** What the consensus that is required at the height of a header asks of it. *)
Definition meets_consensus (header : SignedBlockHeader) (g : GenBlockIndex) (required : RequiredConsensus) : Prop :=
  match required with
  | RequiredConsensus.IgnoreConsensus => hdr_consensus_data header = ConsensusNone
  | RequiredConsensus.PoW status => exists d, hdr_consensus_data header = ConsensusPoW d /\
      calculate_work_required cfg g (hdr_timestamp header) status (get_ancestor_from_block_index_handle cfg db) = Ok (bits d) /\
      exists target, try_from_compact (bits d) = Ok target /\ value (hash_to_uint (header_id header)) <= value target
  | RequiredConsensus.PoS status => exists d, hdr_consensus_data header = ConsensusPoS d /\
      ConsensusPoS.stake_accepted cfg db epochs utxos pools status header d g
  end.

Lemma validate_consensus_Ok (header : SignedBlockHeader) :
  validate_consensus pos_error cfg db epochs utxos pools header = Ok tt <->
  exists g (height : BlockHeight) required,
    gen_block_index_getter cfg db (hdr_prev_block_id header) = Some g /\
    ival height = ival (gen_block_height g) + 1 /\
    consensus_status (E := ConsensusVerificationError) (consensus_upgrades cfg) height = Ok required /\
    meets_consensus header g required.
Proof.
  unfold validate_consensus, BlockHeight.next_height. split.
  - intros Hok. run_inv. do 3 eexists. split; [eassumption|]. split; [by apply bint_of_Z_Some|]. split; [eassumption|].
    match goal with Hs : consensus_status _ _ = Ok ?r |- _ => destruct r as [st|st|] end;
      unfold validate_pow_consensus, validate_pos_consensus, validate_ignore_consensus in *; cbn [meets_consensus];
      destruct (hdr_consensus_data header) as [|d|d] eqn:Hd; try discriminate; try done; exists d; (split; [done|]); run_inv.
    + rewrite <- ConsensusPoW.check_proof_of_work_iff. by eapply ConsensusPoW.check_pow_consensus_Ok.
    + by eapply ConsensusPoS.check_proof_of_stake_Ok.
  - intros (g & height & required & Hg & Hh & Hst & Hm). rewrite Hg. cbn [ok_or mbind result_bind].
    rewrite (proj2 (bint_of_Z_Some _ height) Hh). cbn [expect mbind result_bind]. rewrite Hst. cbn [mbind result_bind].
    destruct required as [st|st|]; cbn [meets_consensus] in Hm.
    + destruct Hm as (d & Hd & Hm). unfold validate_pow_consensus. rewrite Hd. apply map_err_Ok.
      apply (ConsensusPoW.check_pow_consensus_Ok _ _ _ _ _ _ Hg). by rewrite ConsensusPoW.check_proof_of_work_iff.
    + destruct Hm as (d & Hd & Hm). unfold validate_pos_consensus. rewrite Hd. apply map_err_Ok.
      by apply (ConsensusPoS.check_proof_of_stake_Ok _ _ _ _ _ _ _ _ _ _ Hg).
    + unfold validate_ignore_consensus. by rewrite Hm.
Qed.
End valid.

(** The status of a height does not depend on the error type it is read in. *)
Lemma consensus_status_any {E F} u (h : BlockHeight) r :
  consensus_status (E := E) u h = Ok r -> consensus_status (E := F) u h = Ok r.
Proof.
  unfold consensus_status, version_at_height.
  destruct (List.find _ _) as [[last [d|d c|]]|]; cbn [expect mbind result_bind]; [| |intros [= <-]; done|done];
    (destruct (ival last <? ival h); [intros [= <-]; done|]); (case_bool_decide; [|done]); intros [= <-]; done.
Qed.

Section produced.
Context `{StakeCrypto} `{!BlockHashes} `{!BlockSigning} {R : Type} `{!StakingKeys R} {U P : Type} `{!Utxo.UtxosView U}.
Context `{!PoS.PoSAccountingView P} (pos_error : PoS.view_error -> PoS.Error) (cfg : ChainConfig) (db : gmap BlockId BlockIndex).
Context (epochs : gmap u64 H256) (utxos : U) (pools : P).

(** What a producer starts from: the consensus data that the chain requires
    after [g], and for staking the inputs of [staking_inputs] with the key that
    signs the header. *)
Definition production_inputs (required : RequiredConsensus) (g : GenBlockIndex) (h : BlockHeader)
    (first last : BlockTimestamp) (data : FinalizeBlockInputData (R := R)) : Prop :=
  match required with
  | RequiredConsensus.IgnoreConsensus => hdr_consensus_data h = ConsensusNone
  | RequiredConsensus.PoW status => exists d, hdr_consensus_data h = ConsensusPoW d /\
      calculate_work_required cfg g (hdr_timestamp h) status (get_ancestor_from_block_index_handle cfg db) = Ok (bits d)
  | RequiredConsensus.PoS status => exists d stake_key fin pool supply target out,
      hdr_consensus_data h = ConsensusPoS d /\ data = FinalizePoS stake_key fin /\
      ConsensusPoS.staking_inputs cfg db epochs utxos pools status d g fin h first last (public_key stake_key) pool supply
        target out
  end.

Definition production_outcome (r : result ConsensusCreationError SignedBlockHeader) : Prop :=
  match r with
  | Ok header => validate_consensus pos_error cfg db epochs utxos pools header = Ok tt
  | Err e => e = ConsensusCreationError.MiningFailed \/ e = ConsensusCreationError.MiningStopped \/
             e = ConsensusCreationError.StakingFailed \/
             e = ConsensusCreationError.StakingError ConsensusPoS.ConsensusPoSError.FailedToSignBlockHeader \/
             exists bs, e = ConsensusCreationError.MiningError (ConsensusPoW.ConsensusPoWError.DecodingBitsFailed bs)
  | Panic => False
  end.

Context (sign_verifies : forall k h sig, sign_message k h = Some sig -> ConsensusPoS.verify_message (public_key k) sig h = true).

Lemma finalize_runs required g (height next : BlockHeight) h first last stop data rng :
  gen_block_index_getter cfg db (hdr_prev_block_id h) = Some g -> height = gen_block_height g ->
  ival next = ival height + 1 -> consensus_status (E := ConsensusVerificationError) (consensus_upgrades cfg) next = Ok required ->
  production_inputs required g h first last data ->
  production_outcome (finalize_consensus_data cfg height last stop data rng (h, first)).2.
Proof.
  intros Hg -> Hnext Hst Hin.
  assert (forall sh : SignedBlockHeader, hdr_prev_block_id sh = hdr_prev_block_id h ->
            meets_consensus cfg db epochs utxos pools sh g required ->
            validate_consensus pos_error cfg db epochs utxos pools sh = Ok tt) as Hvalid.
  { intros sh Hsh Hm. apply validate_consensus_Ok. exists g, next, required. by rewrite Hsh. }
  unfold finalize_consensus_data, BlockHeight.next_height.
  rewrite (proj2 (bint_of_Z_Some _ next) Hnext). unfold mbind at 1, st_bind at 1, lift at 1. cbn [expect].
  unfold mbind at 1, st_bind at 1, lift at 1. rewrite (consensus_status_any _ _ _ Hst).
  unfold mbind at 1, st_bind at 1, self at 1.
  destruct required as [status|status|]; cbn [production_inputs] in Hin.
  - destruct Hin as (d & Hd & Hreq). rewrite Hd. unfold mbind, st_bind, zoom. cbn [fst snd].
    pose proof (ConsensusPoW.mine_outcome (bits d) stop h Amount.MAX) as Hout.
    destruct (ConsensusPoW.mine (bits d) stop Amount.MAX h) as [h' r]. cbn [map_err].
    destruct r as [[| |]|e|]; cbn in Hout |- *; [|tauto..| |done].
    + destruct Hout as (n & _ & -> & Hmeets & _). apply Hvalid; [done|]. eexists. split; [done|]. split; [exact Hreq|].
      by apply ConsensusPoW.check_proof_of_work_iff.
    + destruct Hout as (-> & _ & _). do 4 right. by eexists.
  - destruct Hin as (d & sk & fin & pool & supply & target & out & Hd & -> & Hin). rewrite Hd.
    unfold mbind, st_bind, st_map_err.
    pose proof (ConsensusPoS.stake_runs pos_error cfg db epochs utxos pools status d g fin h first last (public_key sk)
      pool supply target out rng Hin) as Hout.
    destruct (stake cfg (PoSStatus.get_chain_config status) d last fin rng (h, first)) as [[h' t] r].
    destruct r as [[| |]|e|]; cbn in Hout |- *; [| |done..].
    + destruct Hout as (_ & _ & d' & Hd' & Ht & Hprev & Hok).
      destruct (sign_message sk h') as [sig|] eqn:Hsig; cbn; [|tauto].
      apply Hvalid; [done|]. exists d'. split; [done|].
      apply (ConsensusPoS.check_proof_of_stake_Ok pos_error); [cbn; by rewrite Hprev|]. apply Hok. by apply sign_verifies.
    + destruct (sign_message sk h') as [sig|]; cbn; tauto.
  - apply Hvalid; [done|]. done.
Qed.
End produced.

(** * Theorems *)

(** C22: A header passes the consensus validation exactly when its parent is
    known and it meets the consensus that the chain requires at its height:
    nothing, the proof of work of the required bits, or a stake that is
    accepted; consensus data of another kind is never accepted. *)
Theorem consensus_valid_exactly `{StakeCrypto} `{!BlockHashes} {U P} `{!Utxo.UtxosView U} `{!PoS.PoSAccountingView P}
    (pos_error : PoS.view_error -> PoS.Error) (cfg : ChainConfig) (db : gmap BlockId BlockIndex) (epochs : gmap u64 H256)
    (utxos : U) (pools : P) (header : SignedBlockHeader) :
  validate_consensus pos_error cfg db epochs utxos pools header = Ok tt <->
  exists g (height : BlockHeight) required,
    gen_block_index_getter cfg db (hdr_prev_block_id header) = Some g /\
    ival height = ival (gen_block_height g) + 1 /\
    consensus_status (E := ConsensusVerificationError) (consensus_upgrades cfg) height = Ok required /\
    meets_consensus cfg db epochs utxos pools header g required.
Proof. apply validate_consensus_Ok. Qed.

(** C21: A header that a producer finishes is valid: starting from the consensus
    data that the chain requires after the previous block, finishing it (nothing
    to do, mining, or staking and signing) returns a header that passes the
    consensus validation, or reports that no nonce or time slot was found, that
    it was stopped or that the key could not sign; it never panics. *)
Theorem finished_header_valid `{StakeCrypto} `{!BlockHashes} `{!BlockSigning} {R} `{!StakingKeys R} {U P} `{!Utxo.UtxosView U}
    `{!PoS.PoSAccountingView P} (pos_error : PoS.view_error -> PoS.Error) (cfg : ChainConfig) (db : gmap BlockId BlockIndex)
    (epochs : gmap u64 H256) (utxos : U) (pools : P) (required : RequiredConsensus) (g : GenBlockIndex) (next : BlockHeight)
    (h : BlockHeader) (first last : BlockTimestamp) (stop : u128 -> bool) (data : FinalizeBlockInputData) (rng : R) :
  (forall k m sig, sign_message k m = Some sig -> ConsensusPoS.verify_message (public_key k) sig m = true) ->
  gen_block_index_getter cfg db (hdr_prev_block_id h) = Some g -> ival next = ival (gen_block_height g) + 1 ->
  consensus_status (E := ConsensusVerificationError) (consensus_upgrades cfg) next = Ok required ->
  production_inputs cfg db epochs utxos pools required g h first last data ->
  production_outcome pos_error cfg db epochs utxos pools
    (finalize_consensus_data cfg (gen_block_height g) last stop data rng (h, first)).2.
Proof. intros Hsign Hg Hnext Hst Hin. by apply (finalize_runs pos_error cfg db epochs utxos pools Hsign required g _ next). Qed.

Module Witnesses.
Import ChainConfig.Example ConsensusPoS.Witnesses.
#[local] Existing Instance numbered_keys.
#[local] Open Scope N_scope.

(** A private key is its public key, and so is its signature. *)
#[local] Instance plain_signing : BlockSigning :=
  {| PrivateKey := N; public_key := id; sign_kernel _ _ _ _ := true; sign_message key _ := Some key |}.

Definition staker_key : PrivateKey := 7.
Definition kernel_output : TxOutput := ProduceBlockFromStake (DestPublicKey 7) 5.

(** The header before staking, with the target that the chain requires. *)
Definition unstaked : BlockHeader := ConsensusPoW.update_consensus_data (ConsensusPoS (data compact_1000)) header.

(** The staker of the pool finishes the first block after the genesis. *)
Lemma finished_header_valid_witness : exists signed,
  (finalize_consensus_data staking BlockHeight.zero (u64_lit 110) (fun _ => false) (FinalizePoS staker_key fin) tt
     (unstaked, u64_lit 101)).2 = Ok signed /\
  validate_consensus same_error staking ∅ ∅ utxos pools signed = Ok tt.
Proof.
  exists (with_signature staked (Some 7)).
  assert ((finalize_consensus_data staking BlockHeight.zero (u64_lit 110) (fun _ => false) (FinalizePoS staker_key fin) tt
             (unstaked, u64_lit 101)).2 = Ok (with_signature staked (Some 7))) as Hrun by (vm_compute; reflexivity).
  split; [exact Hrun|].
  pose proof (finished_header_valid same_error staking ∅ ∅ utxos pools (RequiredConsensus.PoS status) (genesis staking)
    (u64_lit 1) unstaked (u64_lit 101) (u64_lit 110) (fun _ => false) (FinalizePoS staker_key fin) tt) as H.
  specialize (H ltac:(intros k m sig [= <-]; apply N.eqb_refl) ltac:(vm_compute; reflexivity) ltac:(vm_compute; reflexivity)
    ltac:(vm_compute; reflexivity)).
  change (gen_block_height (genesis staking)) with BlockHeight.zero in H. rewrite Hrun in H. apply H.
  exists (data compact_1000), staker_key, fin, pool, supply, (from_u64 4 1000), kernel_output.
  split; [reflexivity|]. split; [reflexivity|].
  destruct staking_inputs_ok as [H1 H2 H3 H4 H5 H6 H7 H8 H9 H10]. by split.
Defined.

(** A header without consensus data is not valid on a chain that stakes. *)
Example no_consensus_data : validate_consensus same_error staking ∅ ∅ utxos pools (with_no_signature header) =
  Err ConsensusVerificationError.ConsensusTypeMismatch.
Proof. vm_compute. reflexivity. Qed.
End Witnesses.
