(* ===== verification/Traversal.v ===== *)
(** * Traversals of directed graphs

    Models [utils/src/graph_traversals.rs] and the recursive search that the
    mempool uses for ancestors and descendants
    ([unconfirmed_ancestors_inner] and [unconfirmed_descendants_inner] of
    [tx_pool/store/mod.rs]).  The edges are a function that may panic, as the
    closures of the code do for an item that is not there.

    Both loops of the code end because an item is never visited twice; the
    fuel of the model counts items, and running out of it is a panic, so that
    the theorems, which say that there is a result, also say that the fuel is
    enough. *)
From S2P Require Import Prelude.

Section traversal.
Context {K : Type} `{Countable K} {E : Type}.
Implicit Types (children : K -> result E (list K)) (visited : gset K).

(** ** Depth-first search with a set of visited items *)

(** [for x in items { if visited.insert(x) { visit(x's successors) } }]. *)
Fixpoint visit (fuel : nat) children (items : list K) visited {struct fuel} : result E (gset K) :=
  match fuel with
  | O => Panic
  | S fuel =>
      (fix loop items visited :=
         match items with
         | [] => Ok visited
         | x :: items =>
             if bool_decide (x ∈ visited) then loop items visited
             else
               next ← children x;
               visited ← visit fuel children next ({[x]} ∪ visited);
               loop items visited
         end) items visited
  end.

(** ** Post order *)

(** A frame of the stack: the children of an item that are still to be looked
    at, and the item. *)
Abbreviation frame := (list K * K)%type.

(** The inner loop: push items onto the stack until there is one without
    further children. *)
Fixpoint push_children (fuel : nat) children (stack : list frame) visited
    (top_children : list K) (top_item : K) {struct fuel} : result E (list frame * gset K * K) :=
  match fuel with
  | O => Panic
  | S fuel =>
      (fix loop top_children :=
         match top_children with
         | [] => Ok (stack, visited, top_item)
         | next_top_item :: top_children =>
             if bool_decide (next_top_item ∈ visited) then loop top_children
             else
               next_children ← children next_top_item;
               push_children fuel children ((top_children, top_item) :: stack)
                 ({[next_top_item]} ∪ visited) next_children next_top_item
         end) top_children
  end.

(** The items that the iterator yields from a stack on ([n] bounds their number). *)
Fixpoint yield_all (n fuel : nat) children (stack : list frame) visited {struct n} : result E (list K) :=
  match stack with
  | [] => Ok []
  | (top_children, top_item) :: stack =>
      match n with
      | O => Panic
      | S n =>
          '(stack, visited, item) ← push_children fuel children stack visited top_children top_item;
          items ← yield_all n fuel children stack visited;
          mret (item :: items)
      end
  end.

(** The stack of the roots, the first root on top. *)
Fixpoint root_frames children (roots : list K) : result E (list frame) :=
  match roots with
  | [] => Ok []
  | x :: roots =>
      frames ← root_frames children roots;
      cs ← children x;
      mret ((cs, x) :: frames)
  end.

(** [bound] is a bound on the number of items of the graph. *)
Definition dag_depth_postorder_multiroot (bound : nat) (roots : list K) children : result E (list K) :=
  stack ← root_frames children roots;
  yield_all (length roots + bound) (S bound) children stack (list_to_set roots).

Definition dag_depth_postorder (bound : nat) (root : K) children : result E (list K) :=
  dag_depth_postorder_multiroot bound [root] children.

(** ** What the traversals compute *)

Definition edge children : relation K := fun x y => exists cs, children x = Ok cs /\ y ∈ cs.

(** The edges are defined in [D] and do not lead out of it. *)
Definition closed children (D : gset K) : Prop :=
  forall x, x ∈ D -> exists cs, children x = Ok cs /\ forall y, y ∈ cs -> y ∈ D.

Lemma closed_edge children D x y : closed children D -> x ∈ D -> edge children x y -> y ∈ D.
Proof.
  intros Hc Hx (cs & Hcs & Hy). destruct (Hc x Hx) as (cs' & Hcs' & Hin). rewrite Hcs in Hcs'. simplify_eq. by apply Hin.
Qed.

Lemma closed_rtc children D x y : closed children D -> x ∈ D -> rtc (edge children) x y -> y ∈ D.
Proof. intros Hc Hx Hr. induction Hr as [|x y z Hxy _ IH]; [done|]. apply IH. by eapply closed_edge. Qed.

Lemma unvisited_less (D visited : gset K) x :
  x ∈ D -> x ∉ visited -> (size (D ∖ ({[x]} ∪ visited)) < size (D ∖ visited))%nat.
Proof. intros HD Hv. apply subset_size. set_solver. Qed.

Lemma unvisited_le (D visited visited' : gset K) :
  visited ⊆ visited' -> (size (D ∖ visited') <= size (D ∖ visited))%nat.
Proof. intros Hsub. apply subseteq_size. set_solver. Qed.

(** The search adds what can be reached from the items, and all that what it
    adds leads to. *)
Lemma visit_spec children D fuel items visited :
  closed children D -> (forall x, x ∈ items -> x ∈ D) -> (size (D ∖ visited) < fuel)%nat ->
  exists visited', visit fuel children items visited = Ok visited' /\
    visited ⊆ visited' /\ (forall x, x ∈ items -> x ∈ visited') /\
    (forall x, x ∈ visited' -> x ∈ visited \/ exists a, a ∈ items /\ rtc (edge children) a x) /\
    (forall x y, x ∈ visited' -> x ∉ visited -> edge children x y -> y ∈ visited').
Proof.
  intros Hclosed. revert items visited. induction fuel as [|fuel IH]; intros items visited HD Hfuel; [lia|].
  cbn [visit]. revert visited HD Hfuel. induction items as [|x items IHi]; intros visited HD Hfuel.
  { exists visited. split_and!; [done|done|intros x Hx; by apply not_elem_of_nil in Hx|by left|done]. }
  case_bool_decide as Hx.
  - destruct (IHi visited ltac:(intros; apply HD; by right) Hfuel) as (v & Hrun & Hsub & Hin & Hfrom & Hto).
    exists v. split_and!; [done|done| | |done].
    + intros y [->|Hy]%elem_of_cons; [by apply Hsub|by apply Hin].
    + intros y [Hy|(a & Ha & Hr)]%Hfrom; [by left|right]. exists a. split; [by right|done].
  - assert (x ∈ D) as HxD by (apply HD; by left).
    destruct (Hclosed x HxD) as (cs & Hcs & HcsD). pose proof (unvisited_less D visited x HxD Hx).
    destruct (IH cs ({[x]} ∪ visited) HcsD ltac:(lia)) as (v1 & Hrun1 & Hsub1 & Hin1 & Hfrom1 & Hto1).
    pose proof (unvisited_le D visited v1 ltac:(set_solver)).
    destruct (IHi v1 ltac:(intros; apply HD; by right) ltac:(lia)) as (v & Hrun & Hsub & Hin & Hfrom & Hto).
    exists v. rewrite Hcs. cbn. rewrite Hrun1. cbn. split_and!; [done|set_solver| | |].
    + intros y [->|Hy]%elem_of_cons; [set_solver|by apply Hin].
    + intros y [[Hy|(a & Ha & Hr)]%Hfrom1|(a & Ha & Hr)]%Hfrom.
      * apply elem_of_union in Hy as [->%elem_of_singleton|Hy]; [right|by left].
        exists x. split; [by left|done].
      * right. exists x. split; [by left|]. eapply rtc_l; [|done]. by exists cs.
      * right. exists a. split; [by right|done].
    + intros y z Hy Hny Hyz. destruct (decide (y ∈ v1)) as [Hy1|Hy1]; [|by eapply Hto].
      apply Hsub. destruct (decide (y = x)) as [->|Hne].
      * destruct Hyz as (cs' & Hcs' & Hz). rewrite Hcs in Hcs'. simplify_eq. by apply Hin1.
      * apply (Hto1 y z Hy1); [set_solver|done].
Qed.

(** From nothing visited, the search finds exactly what can be reached. *)
Lemma visit_reach children D items :
  closed children D -> (forall x, x ∈ items -> x ∈ D) ->
  exists visited, visit (S (size D)) children items ∅ = Ok visited /\
    forall x, x ∈ visited <-> exists a, a ∈ items /\ rtc (edge children) a x.
Proof.
  intros Hclosed HD.
  destruct (visit_spec children D (S (size D)) items ∅ Hclosed HD) as (v & Hrun & _ & Hin & Hfrom & Hto).
  { pose proof (unvisited_le D ∅ ∅ ltac:(done)). rewrite difference_empty_L in *. lia. }
  exists v. split; [done|]. intros x. split; [intros [?|?]%Hfrom; [set_solver|done]|].
  intros (a & Ha%Hin & Hr). induction Hr as [|x y z Hxy _ IH]; [done|]. apply IH. apply (Hto x y Ha); [set_solver|done].
Qed.

(** The same, for a set that is known to be what can be reached along [R], when
    the edges agree with [R] there. *)
Lemma visit_exact children (R : relation K) (A : gset K) fuel items :
  (forall x, x ∈ A -> exists cs, children x = Ok cs /\ forall y, y ∈ cs <-> R x y) ->
  (forall x, x ∈ A <-> exists a, a ∈ items /\ rtc R a x) -> (size A < fuel)%nat ->
  visit fuel children items ∅ = Ok A.
Proof.
  intros Hedges HA Hfuel. assert (forall x y, x ∈ A -> R x y -> y ∈ A) as Hstep.
  { intros x y (a & Ha & Hr)%HA Hxy. apply HA. exists a. split; [done|]. by eapply rtc_r. }
  assert (closed children A) as Hclosed.
  { intros x Hx. destruct (Hedges x Hx) as (cs & Hcs & Hy). exists cs. split; [done|]. intros y ?%Hy. by apply (Hstep x). }
  destruct (visit_spec children A fuel items ∅ Hclosed) as (v & Hrun & _ & Hin & Hfrom & Hto).
  { intros x Hx. apply HA. by exists x. }
  { by rewrite difference_empty_L. }
  rewrite Hrun. f_equal. apply set_eq. intros x. split.
  - intros [?|(a & Ha & Hr)]%Hfrom; [set_solver|]. eapply closed_rtc; [done| |done]. apply HA. by exists a.
  - intros (a & Ha & Hr)%HA. assert (a ∈ A) as HaA by (apply HA; by exists a). apply Hin in Ha.
    induction Hr as [|x y z Hxy _ IH]; [done|]. apply IH; [|by apply (Hstep x)].
    apply (Hto x y Ha); [set_solver|]. destruct (Hedges x HaA) as (cs & Hcs & Hy). exists cs. split; [done|by apply Hy].
Qed.

(** *** Steps of the post-order iterator *)

Definition po_state : Type := list frame * gset K * list K.

Inductive po_step children : relation po_state :=
  | step_skip c cs x st v out : c ∈ v ->
      po_step children ((c :: cs, x) :: st, v, out) ((cs, x) :: st, v, out)
  | step_push c cs x st v out next : c ∉ v -> children c = Ok next ->
      po_step children ((c :: cs, x) :: st, v, out) ((next, c) :: (cs, x) :: st, {[c]} ∪ v, out)
  | step_emit x st v out : po_step children (([], x) :: st, v, out) (st, v, out ++ [x]).

Lemma push_children_steps children D fuel stack visited cs x out :
  closed children D -> (forall y, y ∈ cs -> y ∈ D) -> (forall f, f ∈ stack -> forall y, y ∈ f.1 -> y ∈ D) ->
  (size (D ∖ visited) < fuel)%nat ->
  exists stack' visited' x', push_children fuel children stack visited cs x = Ok (stack', visited', x') /\
    rtc (po_step children) ((cs, x) :: stack, visited, out) (([], x') :: stack', visited', out) /\
    (length stack' + size (D ∖ visited') <= length stack + size (D ∖ visited))%nat /\
    (size (D ∖ visited') <= size (D ∖ visited))%nat /\
    (forall f, f ∈ stack' -> forall y, y ∈ f.1 -> y ∈ D).
Proof.
  intros Hclosed. revert stack visited cs x.
  induction fuel as [|fuel IH]; intros stack visited cs x Hcs Hst Hfuel; [lia|]. cbn [push_children].
  induction cs as [|c cs IHc]; [by exists stack, visited, x|].
  case_bool_decide as Hc.
  - destruct IHc as (st & v & x' & Hrun & Hsteps & Hlen & Hle & Hf); [intros; apply Hcs; by right|].
    exists st, v, x'. split_and!; [done| |done|done|done]. eapply rtc_l; [by apply step_skip|done].
  - assert (c ∈ D) as HcD by (apply Hcs; by left).
    destruct (Hclosed c HcD) as (next & Hnext & HnextD). pose proof (unvisited_less D visited c HcD Hc).
    destruct (IH ((cs, x) :: stack) ({[c]} ∪ visited) next c HnextD) as (st & v & x' & Hrun & Hsteps & Hlen & Hle & Hf).
    { intros f [->|Hf]%elem_of_cons y Hy; [apply Hcs; by right|by eapply Hst]. }
    { lia. }
    exists st, v, x'. rewrite Hnext. cbn [mbind result_bind]. split_and!; [done| |cbn in Hlen; lia|lia|done].
    eapply rtc_l; [by apply step_push|done].
Qed.

Lemma yield_all_steps children D n fuel stack visited out :
  closed children D -> (forall f, f ∈ stack -> forall y, y ∈ f.1 -> y ∈ D) ->
  (length stack + size (D ∖ visited) <= n)%nat -> (size (D ∖ visited) < fuel)%nat ->
  exists items visited', yield_all n fuel children stack visited = Ok items /\
    rtc (po_step children) (stack, visited, out) ([], visited', out ++ items).
Proof.
  intros Hclosed. revert stack visited out.
  induction n as [|n IH]; intros [|[cs x] stack] visited out Hst Hn Hfuel; cbn [yield_all]; cbn in Hn; [|lia| |].
  1, 2: exists [], visited; split; [done|by rewrite app_nil_r].
  destruct (push_children_steps children D fuel stack visited cs x out Hclosed) as (st & v & x' & Hrun & Hsteps & Hlen & Hle & Hf);
    [intros y Hy; apply (Hst (cs, x)); [by left|done]|intros f Hfin; apply Hst; by right|done|].
  destruct (IH st v (out ++ [x']) Hf) as (items & v' & Hrun' & Hsteps'); [lia|lia|].
  exists (x' :: items), v'. rewrite Hrun. cbn. rewrite Hrun'. split; [done|].
  etrans; [done|]. eapply rtc_l; [by apply step_emit|]. by rewrite <- app_assoc in Hsteps'.
Qed.

(** What holds in every state: the visited items are those on the stack and
    those yielded, all can be reached from the roots, and every child of such an
    item is visited or is still to be looked at. *)
Record po_inv children (roots : list K) (s : po_state) : Prop := {
  po_roots : forall x, x ∈ roots -> x ∈ s.1.2;
  po_visited : forall x, x ∈ s.1.2 <-> x ∈ s.1.1.*2 \/ x ∈ s.2;
  po_reached : forall x, x ∈ s.1.2 -> exists a, a ∈ roots /\ rtc (edge children) a x;
  po_frames : forall cs x y, (cs, x) ∈ s.1.1 -> edge children x y -> y ∈ cs \/ y ∈ s.1.2;
  po_edges : forall cs x y, (cs, x) ∈ s.1.1 -> y ∈ cs -> edge children x y;
  po_out : forall x y, x ∈ s.2 -> edge children x y -> y ∈ s.1.2
}.

Lemma po_step_inv children roots s s' : po_step children s s' -> po_inv children roots s -> po_inv children roots s'.
Proof.
  intros [c cs x st v out Hc|c cs x st v out next Hc Hnext|x st v out] [Hr Hv Hre Hf He Ho]; cbn in *; split; cbn.
  - done.
  - done.
  - done.
  - intros cs' x' y [Heq|Hin]%elem_of_cons Hy; try (apply pair_equal_spec in Heq as [-> ->]); [|apply (Hf cs' x'); [by right|done]].
    destruct (Hf (c :: cs) x y ltac:(by left) Hy) as [[->|?]%elem_of_cons|?]; auto.
  - intros cs' x' y [Heq|Hin]%elem_of_cons Hy; try (apply pair_equal_spec in Heq as [-> ->]); [apply (He (c :: cs)); [left|by right]|apply (He cs'); [by right|done]].
  - done.
  - intros y Hy. apply elem_of_union_r. auto.
  - intros y. rewrite elem_of_union, Hv, !elem_of_cons, elem_of_singleton. tauto.
  - intros y [->%elem_of_singleton|Hy]%elem_of_union; [|by apply Hre].
    destruct (Hre x) as (a & Ha & Hax); [apply Hv; left; left|]. exists a. split; [done|].
    eapply rtc_r; [done|]. apply (He (c :: cs)); left.
  - intros cs' x' y [Heq|[Heq|Hin]%elem_of_cons]%elem_of_cons Hy; try (apply pair_equal_spec in Heq as [-> ->]).
    + destruct Hy as (cs'' & Hcs'' & Hy). rewrite Hnext in Hcs''. simplify_eq. by left.
    + destruct (Hf (c :: cs) x y ltac:(by left) Hy) as [[->|?]%elem_of_cons|?]; set_solver.
    + destruct (Hf cs' x' y ltac:(by right) Hy); set_solver.
  - intros cs' x' y [Heq|[Heq|Hin]%elem_of_cons]%elem_of_cons Hy; try (apply pair_equal_spec in Heq as [-> ->]).
    + by exists next.
    + apply (He (c :: cs)); [left|by right].
    + apply (He cs'); [by right|done].
  - intros x' y Hx' Hy. apply elem_of_union_r. by eapply Ho.
  - done.
  - intros y. rewrite Hv, elem_of_app, elem_of_cons, list_elem_of_singleton. tauto.
  - done.
  - intros cs' x' y Hin Hy. apply (Hf cs' x'); [by right|done].
  - intros cs' x' y Hin Hy. apply (He cs'); [by right|done].
  - intros x' y [Hx'| ->%list_elem_of_singleton]%elem_of_app Hy; [by eapply Ho|].
    destruct (Hf [] x y ltac:(by left) Hy) as [?%not_elem_of_nil|?]; done.
Qed.

(** No item is on the stack twice, or yielded twice. *)
Lemma po_step_nodup children s s' : po_step children s s' ->
  (forall x, x ∈ s.1.1.*2 \/ x ∈ s.2 -> x ∈ s.1.2) -> NoDup (s.1.1.*2 ++ s.2) -> NoDup (s'.1.1.*2 ++ s'.2).
Proof.
  intros [c cs x st v out Hc|c cs x st v out next Hc Hnext|x st v out] Hv Hnd; cbn in *; [done| |].
  - apply NoDup_cons. split; [|done]. change (x :: st.*2 ++ out) with ((x :: st.*2) ++ out).
    rewrite elem_of_app. intros Hin. by apply Hc, Hv.
  - by rewrite app_assoc, Permutation_app_comm.
Qed.

(** No item of the stack leads to an item below it. *)
Fixpoint separated children (items : list K) : Prop :=
  match items with
  | [] => True
  | x :: items => (forall y, y ∈ items -> ~ tc (edge children) x y) /\ separated children items
  end.

(** Every child of an item comes before it. *)
Definition children_first children (l : list K) : Prop :=
  forall l1 x l2 y, l = l1 ++ x :: l2 -> edge children x y -> y ∈ l1.

Lemma children_first_snoc children l x :
  children_first children l -> (forall y, edge children x y -> y ∈ l) -> children_first children (l ++ [x]).
Proof.
  intros Hl Hx l1 z l2 y Heq Hy. destruct l2 as [|z' l2] using rev_ind.
  - apply app_inj_tail in Heq as [-> ->]. by apply Hx.
  - rewrite app_comm_cons, app_assoc in Heq. apply app_inj_tail in Heq as [-> _]. by eapply Hl.
Qed.

Definition ordered_inv children (s : po_state) : Prop :=
  separated children s.1.1.*2 /\ children_first children s.2.

Lemma po_step_ordered children roots s s' : (forall x, ~ tc (edge children) x x) ->
  po_step children s s' -> po_inv children roots s -> ordered_inv children s -> ordered_inv children s'.
Proof.
  intros Hacyclic [c cs x st v out Hc|c cs x st v out next Hc Hnext|x st v out] [Hr Hv Hre Hf He Ho] [Hsep Hfst];
    unfold ordered_inv in *; cbn in *; [done| |].
  - assert (edge children x c) as Hxc by (apply (He (c :: cs)); left). split; [|done]. split; [|done].
    intros y [->|Hy]%elem_of_cons Hcy.
    + apply (Hacyclic x). by eapply tc_l.
    + apply (proj1 Hsep y Hy). by eapply tc_l.
  - split; [apply Hsep|]. apply children_first_snoc; [done|]. intros y Hy.
    destruct (Hf [] x y ltac:(by left) Hy) as [?%not_elem_of_nil|[Hin|?]%Hv]; [done| |done].
    apply elem_of_cons in Hin as [->|Hin]; exfalso; [by apply (Hacyclic x), tc_once|].
    by apply (proj1 Hsep y Hin), tc_once.
Qed.

Lemma root_frames_spec children D roots : closed children D -> (forall x, x ∈ roots -> x ∈ D) ->
  exists frames, root_frames children roots = Ok frames /\ frames.*2 = roots /\
    forall cs x, (cs, x) ∈ frames -> children x = Ok cs /\ forall y, y ∈ cs -> y ∈ D.
Proof.
  intros Hclosed. induction roots as [|x roots IH]; intros HD.
  { exists []. split_and!; [done|done|]. intros ?? ?%not_elem_of_nil. done. }
  destruct IH as (frames & Hrun & Heq & Hfr); [intros; apply HD; by right|].
  destruct (Hclosed x) as (cs & Hcs & HcsD); [apply HD; by left|].
  exists ((cs, x) :: frames). cbn. rewrite Hrun. cbn. rewrite Hcs. split_and!; [done|by rewrite Heq|].
  intros cs' x' [Hp|Hin]%elem_of_cons; [by apply pair_equal_spec in Hp as [-> ->]|by apply Hfr].
Qed.

Lemma po_inv_start children roots frames : frames.*2 = roots ->
  (forall cs x, (cs, x) ∈ frames -> children x = Ok cs) ->
  po_inv children roots (frames, list_to_set roots, []).
Proof.
  intros <- Hfr. split; cbn.
  - intros x Hx. by apply elem_of_list_to_set.
  - intros x. rewrite elem_of_list_to_set. split; [by left|intros [?|?%not_elem_of_nil]; done].
  - intros x Hx%elem_of_list_to_set. by exists x.
  - intros cs x y Hin (cs' & Hcs' & Hy). rewrite (Hfr _ _ Hin) in Hcs'. simplify_eq. by left.
  - intros cs x y Hin Hy. exists cs. split; [by apply Hfr|done].
  - intros x y ?%not_elem_of_nil. done.
Qed.

(** The iterator ends, yields exactly the items that can be reached, each once,
    and, where the roots do not lead to each other and there is no cycle, every
    item after its children. *)
Lemma postorder_spec children D bound roots :
  closed children D -> (forall x, x ∈ roots -> x ∈ D) -> (size D <= bound)%nat ->
  exists items, dag_depth_postorder_multiroot bound roots children = Ok items /\
    (forall x, x ∈ items <-> exists a, a ∈ roots /\ rtc (edge children) a x) /\
    (NoDup roots -> NoDup items) /\
    (separated children roots -> (forall x, ~ tc (edge children) x x) -> children_first children items).
Proof.
  intros Hclosed HD Hbound. destruct (root_frames_spec children D roots Hclosed HD) as (frames & Hrun & Heq & Hfr).
  pose proof (unvisited_le D ∅ (list_to_set roots) ltac:(set_solver)) as Hle. rewrite difference_empty_L in Hle.
  assert (length frames = length roots) as Hlen by (by rewrite <- Heq, length_fmap).
  destruct (yield_all_steps children D (length roots + bound) (S bound) frames (list_to_set roots) [] Hclosed)
    as (items & v & Hy & Hsteps); [|lia|lia|].
  { intros [cs x] Hin y Hcs. by eapply (proj2 (Hfr _ _ Hin)). }
  exists items. unfold dag_depth_postorder_multiroot. rewrite Hrun. split; [done|]. cbn [app] in Hsteps.
  pose proof (po_inv_start children roots frames Heq (fun cs x Hin => proj1 (Hfr cs x Hin))) as Hinv.
  assert (forall s s', rtc (po_step children) s s' -> po_inv children roots s ->
    po_inv children roots s' /\ (NoDup (s.1.1.*2 ++ s.2) -> NoDup (s'.1.1.*2 ++ s'.2)) /\
    ((forall x, ~ tc (edge children) x x) -> ordered_inv children s -> ordered_inv children s')) as Hgen.
  { clear. intros s s' Hr. induction Hr as [|s1 s2 s3 Hs _ IH]; intros Hinv; [done|].
    destruct (IH (po_step_inv _ _ _ _ Hs Hinv)) as (H1 & H2 & H3). split_and!; [done| |].
    - intros Hnd. apply H2. eapply po_step_nodup; [done|by intros x Hx; apply (po_visited _ _ _ Hinv)|done].
    - intros Hac Hord. apply H3; [done|]. by eapply po_step_ordered. }
  destruct (Hgen _ _ Hsteps Hinv) as (Hend & Hnd & Hord). clear Hgen. cbn in Hnd. split_and!.
  - intros x. assert (x ∈ items <-> x ∈ v) as ->.
    { rewrite (po_visited _ _ _ Hend x). cbn. rewrite elem_of_nil. tauto. }
    split; [by apply (po_reached _ _ _ Hend)|]. intros (a & Ha & Hax).
    pose proof (po_roots _ _ _ Hend a Ha) as Hav. cbn in Hav. clear Ha.
    induction Hax as [|x y z Hxy _ IH]; [done|]. apply IH. apply (po_out _ _ _ Hend x y); [|done].
    apply (po_visited _ _ _ Hend) in Hav as [?%not_elem_of_nil|?]; done.
  - intros Hroots. apply Hnd. by rewrite app_nil_r, Heq.
  - intros Hsep Hac. apply (Hord Hac). split; cbn; [by rewrite Heq|].
    intros l1 x l2 y Hnil. by destruct l1.
Qed.
End traversal.
