(* ===== verification/MempoolEntry.v ===== *)
(** * Entries of the mempool

    Models the types of [mempool/src/pool]: where a transaction comes from
    ([tx_origin.rs], [tx_options.rs]), its dependencies and the entry that is
    made of it ([entry.rs]), fees and fee rates ([fee.rs], [feerate.rs]), the
    time ([common/src/primitives/time.rs]) and the errors ([error/mod.rs]). *)
From S2P Require Import Prelude Amount ChainTypes ChainConfig Utxo TxTypes CheckTransaction.

(** ** Machine integers and time *)

Abbreviation usize := u64 (only parsing).
Abbreviation NonZeroUsize := (bint 1 (2 ^ 64 - 1)) (only parsing).

(** The sum of an iterator of [usize]; overflow panics. *)
Definition usize_add {E} (a b : usize) : result E usize := expect (bint_of_Z (ival a + ival b)).
Definition usize_sum {E} (l : list usize) : result E usize :=
  try_fold usize_add (@mk_bint 0 (2 ^ 64 - 1) 0 eq_refl) l.

(** [NonZeroUsize::get], [NonZeroUsize::checked_add]. *)
Definition nz_get (n : NonZeroUsize) : usize := default (@mk_bint 0 (2 ^ 64 - 1) 0 eq_refl) (bint_of_Z (ival n)).
Definition nz_checked_add (n : NonZeroUsize) (m : usize) : option NonZeroUsize := bint_of_Z (ival n + ival m).

(** A [Duration], in nanoseconds: 64 bits of seconds and a fraction of a second. *)
Definition DURATION_MAX : Z := 2 ^ 64 * 1000000000 - 1.
Abbreviation Duration := (bint 0 DURATION_MAX) (only parsing).
Abbreviation Time := (bint 0 DURATION_MAX) (only parsing).

Module Time.
Definition clamp (z : Z) : Time := default (@mk_bint 0 DURATION_MAX 0 eq_refl) (bint_of_Z (Z.max 0 (Z.min z DURATION_MAX))).
Definition saturating_duration_add (t : Time) (d : Duration) : Time := clamp (ival t + ival d).
Definition saturating_duration_sub (t : Time) (d : Duration) : Time := clamp (ival t - ival d).
Definition saturating_sub (t u : Time) : Duration := clamp (ival t - ival u).
Definition add (t : Time) (d : Duration) : option Time := bint_of_Z (ival t + ival d).
Definition sub (t u : Time) : option Duration := bint_of_Z (ival t - ival u).
Definition as_secs (t : Time) : Z := ival t / 1000000000.
End Time.

(** ** Origins and options *)

Abbreviation PeerId := u64 (only parsing).

Inductive LocalTxOrigin := OriginMempool | OriginP2p | OriginPastBlock.
(** [RemoteTxOrigin] is a struct around the id of the peer. *)
Abbreviation RemoteTxOrigin := PeerId (only parsing).
Inductive TxOrigin :=
  | OriginLocal (o : LocalTxOrigin)
  | OriginRemote (o : RemoteTxOrigin).

Inductive TxTrustPolicy := Trusted | Untrusted.
Inductive TxRelayPolicy := DoRelay | DontRelay.
Record TxOptions := mk_options { trust_policy : TxTrustPolicy; relay_policy : TxRelayPolicy }.

Definition TxOptions_default_for (origin : TxOrigin) : TxOptions :=
  mk_options Untrusted
    match origin with
    | OriginLocal OriginMempool => DontRelay
    | OriginLocal OriginP2p => DoRelay
    | OriginLocal OriginPastBlock => DontRelay
    | OriginRemote _ => DoRelay
    end.

(** ** Errors *)

Inductive MempoolConflictError := Irreplacable | SpendsNewUnconfirmed | TooManyReplacements.

Abbreviation Fee := Amount (only parsing).

(** [DisplayAmount] is an amount as it is printed. *)
Module MempoolPolicyError.
Inductive MempoolPolicyError :=
  | Conflict (e : MempoolConflictError)
  | MempoolFull
  | NoInputs
  | NoOutputs
  | ExceedsMaxBlockSize
  | ReplacementFeeLowerThanOriginal (replacement_tx : TxId) (replacement_fee : Fee) (original_tx : TxId) (original_fee : Fee)
  | ConflictsFeeOverflow
  | TransactionFeeLowerThanConflictsWithDescendants
  | AdditionalFeesUnderflow
  | InsufficientFeesToRelay (tx_fee min_relay_fee : Fee)
  | InsufficientFeesToRelayRBF
  | RollingFeeThresholdNotMet (minimum_fee tx_fee : Fee)
  | AncestorFeeOverflow
  | AncestorFeeUpdateOverflow
  | FeeOverflow
  | GetParentError
  | DescendantOfExpiredTransaction
  | RelayFeeOverflow.
End MempoolPolicyError.
Abbreviation MempoolPolicyError := MempoolPolicyError.MempoolPolicyError.

(** ** Dependencies *)

Inductive TxDependency :=
  | DelegationAccount (id : DelegationId) (nonce : AccountNonce)
  | TokenSupplyAccount (id : TokenId) (nonce : AccountNonce)
  | OrderV0Account (id : OrderId) (nonce : AccountNonce)
  | TxOutputDep (id : TxId) (index : u32).

#[global] Instance TxDependency_eq_dec : EqDecision TxDependency.
Proof. solve_decision. Defined.

Definition dep_to_sum (d : TxDependency) : (N * u64) + ((N * u64) + ((N * u64) + (N * u32))) :=
  match d with
  | DelegationAccount i n => inl (i, n)
  | TokenSupplyAccount i n => inr (inl (i, n))
  | OrderV0Account i n => inr (inr (inl (i, n)))
  | TxOutputDep i n => inr (inr (inr (i, n)))
  end.
Definition dep_of_sum (s : (N * u64) + ((N * u64) + ((N * u64) + (N * u32)))) : TxDependency :=
  match s with
  | inl (i, n) => DelegationAccount i n
  | inr (inl (i, n)) => TokenSupplyAccount i n
  | inr (inr (inl (i, n))) => OrderV0Account i n
  | inr (inr (inr (i, n))) => TxOutputDep i n
  end.
#[global] Program Instance TxDependency_countable : Countable TxDependency :=
  inj_countable' dep_to_sum dep_of_sum _.
Next Obligation. by intros []. Qed.

Module TxDependency.
Section dependency.
Context `{CryptoTypes}.

Definition from_utxo (output : UtxoOutPoint) : option TxDependency :=
  (fun id => TxOutputDep id (op_output_index output)) <$> get_tx_id (op_source_id output).

Definition from_account (account : AccountSpending) (nonce : AccountNonce) : TxDependency :=
  match account with DelegationBalance id _ => DelegationAccount id nonce end.

Definition from_account_cmd (cmd : AccountCommand) (nonce : AccountNonce) : TxDependency :=
  match cmd with
  | AccountCommand.MintTokens id _ | AccountCommand.UnmintTokens id | AccountCommand.LockTokenSupply id
  | AccountCommand.FreezeToken id _ | AccountCommand.UnfreezeToken id
  | AccountCommand.ChangeTokenMetadataUri id _ | AccountCommand.ChangeTokenAuthority id _ =>
      TokenSupplyAccount id nonce
  | AccountCommand.ConcludeOrder id | AccountCommand.FillOrder id _ _ => OrderV0Account id nonce
  end.

Definition from_input_requires (input : TxInput) : option TxDependency :=
  match input with
  | InputUtxo utxo => from_utxo utxo
  | InputAccount acct => from_account (ao_account acct) <$> AccountNonce_decrement (ao_nonce acct)
  | InputAccountCommand nonce op => from_account_cmd op <$> AccountNonce_decrement nonce
  | InputOrderAccountCommand _ => None
  end.

Definition from_input_provides (input : TxInput) : option TxDependency :=
  match input with
  | InputUtxo _ => None
  | InputAccount acct => Some (from_account (ao_account acct) (ao_nonce acct))
  | InputAccountCommand nonce op => Some (from_account_cmd op nonce)
  | InputOrderAccountCommand _ => None
  end.
End dependency.
End TxDependency.

(** ** Entries *)

Record TxEntry `{CryptoTypes} (O : Type) := mk_entry {
  te_tx_id : TxId;
  te_transaction : SignedTransaction;
  te_creation_time : Time;
  te_encoded_size : NonZeroUsize;
  te_origin : O;
  te_options : TxOptions
}.
Arguments mk_entry {_ _} _ _ _ _ _ _.
Arguments te_tx_id {_ _} _.
Arguments te_transaction {_ _} _.
Arguments te_creation_time {_ _} _.
Arguments te_encoded_size {_ _} _.
Arguments te_origin {_ _} _.
Arguments te_options {_ _} _.

Section entry.
Context `{CryptoTypes}.

Definition TxEntry_new `{!TxHash} `{!TxParameters} {E O} (transaction : SignedTransaction) (creation_time : Time)
    (origin : O) (options : TxOptions) : result E (TxEntry O) :=
  size ← expect (bint_of_Z (Z.of_N (encoded_size transaction)));
  mret (mk_entry (get_id (CheckTransaction.transaction transaction)) transaction creation_time size origin options).

Definition tx_inputs {O} (e : TxEntry O) : list TxInput := inputs (transaction (te_transaction e)).

Definition requires {O} (e : TxEntry O) : list TxDependency := omap TxDependency.from_input_requires (tx_inputs e).

(** [(0..n)] for [n: u32], the number of outputs truncated to 32 bits. *)
Definition provides {O} (e : TxEntry O) : list TxDependency :=
  let n_outputs := Z.of_nat (length (outputs (transaction (te_transaction e)))) mod 2 ^ 32 in
  (TxOutputDep (te_tx_id e) <$> omap bint_of_Z (seqZ 0 n_outputs)) ++
  omap TxDependency.from_input_provides (tx_inputs e).

Definition try_map_origin {E O R} (func : O -> result E R) (e : TxEntry O) : result E (TxEntry R) :=
  origin ← func (te_origin e);
  mret (mk_entry (te_tx_id e) (te_transaction e) (te_creation_time e) (te_encoded_size e) origin (te_options e)).

Definition map_origin {O R} (func : O -> R) (e : TxEntry O) : TxEntry R :=
  mk_entry (te_tx_id e) (te_transaction e) (te_creation_time e) (te_encoded_size e) (func (te_origin e)) (te_options e).

Record TxEntryWithFee := mk_with_fee { wf_entry : TxEntry TxOrigin; wf_fee : Fee }.

(** [Transaction::is_replaceable]: the lowest flag. *)
Definition is_replaceable (tx : SignedTransaction) : bool := Z.testbit (ival (flags (transaction tx))) 0.
End entry.

(** ** Fee rates *)

(** [FeeRate] is a struct around the amount per thousand bytes. *)
Abbreviation FeeRate := Amount (only parsing).

Module FeeRate.
Import MempoolPolicyError.
Definition from_total_tx_fee (total_tx_fee : Fee) (tx_size : NonZeroUsize) : result MempoolPolicyError FeeRate :=
  tx_size ← expect (bint_of_Z (ival tx_size));
  scaled_fee ← ok_or FeeOverflow (Amount.mul total_tx_fee (Amount.lit 1000));
  expect (Amount.div scaled_fee tx_size).

Definition compute_fee (rate : FeeRate) (size : usize) : result MempoolPolicyError Fee :=
  size ← expect (bint_of_Z (ival size));
  fee ← ok_or FeeOverflow (Amount.mul rate size);
  fee ← ok_or FeeOverflow (Amount.add fee (Amount.lit 999));
  expect (Amount.div fee (Amount.lit 1000)).

Definition add (a b : FeeRate) : option FeeRate := Amount.add a b.
Definition max (a b : FeeRate) : FeeRate := if Amount.leb a b then b else a.
Definition min (a b : FeeRate) : FeeRate := if Amount.leb a b then a else b.
End FeeRate.

(** ** What the rates compute *)

Lemma from_total_tx_fee_value fee (size : NonZeroUsize) : 1000 * ival fee <= u128_MAX ->
  exists r, FeeRate.from_total_tx_fee fee size = Ok r /\ ival r = 1000 * ival fee / ival size.
Proof.
  intros Hfee. unfold FeeRate.from_total_tx_fee. pose proof (bint_range size).
  destruct (bint_of_Z_is_Some (lo := 0) (hi := u128_MAX) (ival size)) as (sz & Hsz & Hv); [blia|]. rewrite Hsz. cbn.
  destruct (bint_of_Z_is_Some (lo := 0) (hi := u128_MAX) (ival fee * 1000)) as (sf & Hsf & Hsv); [blia|].
  unfold Amount.mul. change (ival (Amount.lit 1000)) with 1000. rewrite Hsf. cbn.
  unfold Amount.div. rewrite Hv. destruct (ival size =? 0) eqn:Hz; [lia|].
  destruct (bint_of_Z_is_Some (lo := 0) (hi := u128_MAX) (ival sf / ival size)) as (r & Hr & Hrv).
  { split; [apply Z.div_pos; blia|]. enough (ival sf / ival size <= ival sf) by blia.
    apply Z.div_le_upper_bound; [lia|]. pose proof (bint_range sf). nia. }
  rewrite Hr. exists r. split; [done|]. rewrite Hrv, Hsv. f_equal. lia.
Qed.
