(* ===== verification/MempoolStore.v ===== *)
(** * The store of the mempool

    Models [mempool/src/pool/tx_pool/store/mod.rs]: the transactions of the
    mempool with their parents and children, the sums over ancestors and
    descendants that the scores are made of, and the indices by score, by time,
    by spent dependency and by order of insertion.  The tracking of memory is
    left out, as it changes nothing else.

    A mutable entry of the map is [entry_mut]; what a failing operation leaves
    behind is part of the model. *)
From S2P Require Import Prelude Amount ChainTypes ChainConfig Utxo TxTypes CheckTransaction.
From S2P Require Import Traversal MempoolEntry.

(** ** Data *)

Inductive MempoolRemovalReason := ReasonBlock | ReasonExpiry | ReasonSizeLimit | ReasonReplaced.
#[global] Instance MempoolRemovalReason_eq_dec : EqDecision MempoolRemovalReason.
Proof. solve_decision. Defined.

(** Scores are structs around a rate. *)
Abbreviation DescendantScore := FeeRate (only parsing).
Abbreviation AncestorScore := FeeRate (only parsing).

Record TxMempoolEntry `{CryptoTypes} := mk_mempool_entry {
  entry : TxEntry TxOrigin;
  fee : Fee;
  parents : gset TxId;
  children : gset TxId;
  count_with_descendants : usize;
  count_with_ancestors : usize;
  fees_with_descendants : Fee;
  fees_with_ancestors : Fee;
  size_with_descendants : NonZeroUsize;
  size_with_ancestors : NonZeroUsize
}.

Record MempoolStore `{CryptoTypes} := mk_store {
  txs_by_id : gmap TxId TxMempoolEntry;
  txs_by_descendant_score : gset (DescendantScore * TxId);
  txs_by_ancestor_score : gset (AncestorScore * TxId);
  txs_by_creation_time : gset (Time * TxId);
  spender_txs : gmap TxDependency TxId;
  txs_by_seq_no : gmap usize TxId;
  seq_nos_by_tx : gmap TxId usize;
  next_seq_no : usize
}.

Arguments mk_mempool_entry {_} _ _ _ _ _ _ _ _ _ _.
Arguments mk_store {_} _ _ _ _ _ _ _ _.

Definition usize_zero : usize := @mk_bint 0 (2 ^ 64 - 1) 0 eq_refl.
Definition usize_one : usize := @mk_bint 0 (2 ^ 64 - 1) 1 eq_refl.

Section store.
Context `{CryptoTypes}.
Implicit Types (s : MempoolStore) (e : TxMempoolEntry).

Definition MempoolStore_new : MempoolStore := mk_store ∅ ∅ ∅ ∅ ∅ ∅ ∅ usize_zero.

Definition is_empty s : bool := bool_decide (txs_by_id s = ∅).
Definition get_entry s (id : TxId) : option TxMempoolEntry := txs_by_id s !! id.
Definition contains s (id : TxId) : bool := bool_decide (is_Some (txs_by_id s !! id)).

(** Replacing one field. *)
Definition with_txs f s : MempoolStore :=
  mk_store (f (txs_by_id s)) (txs_by_descendant_score s) (txs_by_ancestor_score s) (txs_by_creation_time s)
    (spender_txs s) (txs_by_seq_no s) (seq_nos_by_tx s) (next_seq_no s).
Definition with_descendant_score f s : MempoolStore :=
  mk_store (txs_by_id s) (f (txs_by_descendant_score s)) (txs_by_ancestor_score s) (txs_by_creation_time s)
    (spender_txs s) (txs_by_seq_no s) (seq_nos_by_tx s) (next_seq_no s).
Definition with_ancestor_score f s : MempoolStore :=
  mk_store (txs_by_id s) (txs_by_descendant_score s) (f (txs_by_ancestor_score s)) (txs_by_creation_time s)
    (spender_txs s) (txs_by_seq_no s) (seq_nos_by_tx s) (next_seq_no s).
Definition with_creation_time f s : MempoolStore :=
  mk_store (txs_by_id s) (txs_by_descendant_score s) (txs_by_ancestor_score s) (f (txs_by_creation_time s))
    (spender_txs s) (txs_by_seq_no s) (seq_nos_by_tx s) (next_seq_no s).
Definition with_spender f s : MempoolStore :=
  mk_store (txs_by_id s) (txs_by_descendant_score s) (txs_by_ancestor_score s) (txs_by_creation_time s)
    (f (spender_txs s)) (txs_by_seq_no s) (seq_nos_by_tx s) (next_seq_no s).
Definition with_seq_nos f g n s : MempoolStore :=
  mk_store (txs_by_id s) (txs_by_descendant_score s) (txs_by_ancestor_score s) (txs_by_creation_time s)
    (spender_txs s) (f (txs_by_seq_no s)) (g (seq_nos_by_tx s)) (n (next_seq_no s)).

(** ** Entries *)

Definition tx_id e : TxId := te_tx_id (entry e).
Definition size e : NonZeroUsize := te_encoded_size (entry e).
Definition creation_time e : Time := te_creation_time (entry e).

Definition with_parents f e : TxMempoolEntry :=
  mk_mempool_entry (entry e) (fee e) (f (parents e)) (children e) (count_with_descendants e) (count_with_ancestors e)
    (fees_with_descendants e) (fees_with_ancestors e) (size_with_descendants e) (size_with_ancestors e).
Definition with_children f e : TxMempoolEntry :=
  mk_mempool_entry (entry e) (fee e) (parents e) (f (children e)) (count_with_descendants e) (count_with_ancestors e)
    (fees_with_descendants e) (fees_with_ancestors e) (size_with_descendants e) (size_with_ancestors e).
Definition with_descendants_state count fees sz e : TxMempoolEntry :=
  mk_mempool_entry (entry e) (fee e) (parents e) (children e) count (count_with_ancestors e)
    fees (fees_with_ancestors e) sz (size_with_ancestors e).
Definition with_ancestors_state count fees sz e : TxMempoolEntry :=
  mk_mempool_entry (entry e) (fee e) (parents e) (children e) (count_with_descendants e) count
    (fees_with_descendants e) fees (size_with_descendants e) sz.

(** The ancestors come from a set that is ordered from the greatest id down. *)
Definition TxMempoolEntry_new (ent : TxEntryWithFee) (parents : gset TxId) (ancestors : list TxMempoolEntry) :
    result MempoolPolicyError TxMempoolEntry :=
  let sz := te_encoded_size (wf_entry ent) in
  ancestors_size ← usize_sum (nz_get ∘ size <$> ancestors);
  size_with_ancestors ← expect (nz_checked_add sz ancestors_size);
  ancestor_fees ← ok_or MempoolPolicyError.AncestorFeeOverflow (Amount.sum (fee <$> ancestors));
  fees_with_ancestors ← ok_or MempoolPolicyError.AncestorFeeOverflow (Amount.add (wf_fee ent) ancestor_fees);
  count_with_ancestors ← expect (bint_of_Z (1 + Z.of_nat (length ancestors)));
  mret (mk_mempool_entry (wf_entry ent) (wf_fee ent) parents ∅ usize_one count_with_ancestors (wf_fee ent)
    fees_with_ancestors sz size_with_ancestors).

(** The [expect] on a rate that does not fit panics. *)
Definition expect_rate {E} (r : result MempoolPolicyError FeeRate) : result E FeeRate :=
  match r with Ok x => Ok x | _ => Panic end.

Definition descendant_score {E} e : result E DescendantScore :=
  a ← expect_rate (FeeRate.from_total_tx_fee (fees_with_descendants e) (size_with_descendants e));
  b ← expect_rate (FeeRate.from_total_tx_fee (fee e) (size e));
  mret (FeeRate.max a b).

Definition ancestor_score {E} e : result E AncestorScore :=
  a ← expect_rate (FeeRate.from_total_tx_fee (fees_with_ancestors e) (size_with_ancestors e));
  b ← expect_rate (FeeRate.from_total_tx_fee (fee e) (size e));
  mret (FeeRate.min a b).

(** ** Ancestors and descendants *)

Definition parents_of {E} s (id : TxId) : result E (list TxId) :=
  e ← expect (get_entry s id); mret (set_iter (parents e)).
Definition children_of {E} s (id : TxId) : result E (list TxId) :=
  e ← expect (get_entry s id); mret (set_iter (children e)).

(** A bound on the depth of the recursion. *)
Definition depth s : nat := S (base.size (txs_by_id s)).

Definition unconfirmed_ancestors_inner {E} e (visited : gset TxId) s : result E (gset TxId) :=
  visit (depth s) (parents_of s) (set_iter (parents e)) visited.
Definition unconfirmed_ancestors {E} e s : result E (gset TxId) := unconfirmed_ancestors_inner e ∅ s.

Definition unconfirmed_ancestors_from_parents (parents : gset TxId) s : result MempoolPolicyError (gset TxId) :=
  try_fold (fun ancestors parent =>
    parent ← ok_or MempoolPolicyError.GetParentError (get_entry s parent);
    unconfirmed_ancestors_inner parent ancestors s) parents (set_iter parents).

Definition unconfirmed_descendants_inner {E} e (visited : gset TxId) s : result E (gset TxId) :=
  visit (depth s) (children_of s) (set_iter (children e)) visited.
Definition unconfirmed_descendants {E} e s : result E (gset TxId) := unconfirmed_descendants_inner e ∅ s.

Definition depth_postorder_descendants {E} e s : result E (list TxId) :=
  dag_depth_postorder (base.size (txs_by_id s)) (tx_id e) (children_of s).

Definition is_replaceable_in {E} e s : result E bool :=
  if is_replaceable (te_transaction (entry e)) then Ok true
  else
    ancestors ← unconfirmed_ancestors e s;
    try_fold (fun (acc : bool) id => if acc then Ok true else
      a ← expect (get_entry s id); mret (is_replaceable (te_transaction (entry a)))) false (set_iter ancestors).

(** ** Updates of the entries *)

(** [txs_by_id.get_mut(id).expect(..)] and a change of the entry. *)
Definition entry_mut {E A} (id : TxId) (m : ST TxMempoolEntry E A) : ST MempoolStore E A := fun s =>
  match txs_by_id s !! id with
  | None => (s, Panic)
  | Some e => let '(e', r) := m e in (with_txs <[id := e']> s, r)
  end.

Definition append_to_parents {E} e : ST MempoolStore E unit :=
  try_for_each (fun parent_id => entry_mut parent_id (modify (with_children (union {[tx_id e]})))) (set_iter (parents e)).

Definition remove_from_parents {E} e : ST MempoolStore E unit :=
  try_for_each (fun parent_id => entry_mut parent_id (modify (with_children (fun c => c ∖ {[tx_id e]})))) (set_iter (parents e)).

Definition remove_from_children {E} e : ST MempoolStore E unit :=
  try_for_each (fun child_id => entry_mut child_id (modify (with_parents (fun p => p ∖ {[tx_id e]})))) (set_iter (children e)).

(** The closure of [update_ancestor_state_for_add]. *)
Definition add_descendant e : ST TxMempoolEntry MempoolPolicyError unit := fun ancestor =>
  match Amount.add (fees_with_descendants ancestor) (fee e) with
  | None => (ancestor, Err MempoolPolicyError.AncestorFeeUpdateOverflow)
  | Some total_fee =>
      match nz_checked_add (size e) (nz_get (size_with_descendants ancestor)),
            bint_of_Z (ival (count_with_descendants ancestor) + 1) with
      | Some sz, Some count => (with_descendants_state count total_fee sz ancestor, Ok tt)
      | _, _ => (ancestor, Panic)
      end
  end.

Definition update_ancestor_state_for_add e : ST MempoolStore MempoolPolicyError unit :=
  ancestors ← gets (unconfirmed_ancestors e);
  try_for_each (fun ancestor_id => entry_mut ancestor_id (add_descendant e)) (set_iter ancestors).

(** The closure of [update_ancestor_state_for_drop]. *)
Definition drop_descendant {E} e : ST TxMempoolEntry E unit := fun ancestor =>
  match Amount.sub (fees_with_descendants ancestor) (fee e),
        bint_of_Z (ival (size_with_descendants ancestor) - ival (size e)),
        bint_of_Z (ival (count_with_descendants ancestor) - 1) with
  | Some fees, Some sz, Some count => (with_descendants_state count fees sz ancestor, Ok tt)
  | _, _, _ => (ancestor, Panic)
  end.

Definition update_ancestor_state_for_drop {E} e : ST MempoolStore E unit :=
  ancestors ← gets (unconfirmed_ancestors e);
  try_for_each (fun ancestor_id => entry_mut ancestor_id (drop_descendant e)) (set_iter ancestors).

(** The closure of [update_descendant_state_for_drop]. *)
Definition drop_ancestor {E} e : ST TxMempoolEntry E unit := fun descendant =>
  match Amount.sub (fees_with_ancestors descendant) (fee e),
        bint_of_Z (ival (size_with_ancestors descendant) - ival (size e)),
        bint_of_Z (ival (count_with_ancestors descendant) - 1) with
  | Some fees, Some sz, Some count => (with_ancestors_state count fees sz descendant, Ok tt)
  | _, _, _ => (descendant, Panic)
  end.

Definition update_descendant_state_for_drop {E} e : ST MempoolStore E unit :=
  descendants ← gets (unconfirmed_descendants e);
  try_for_each (fun descendant_id => entry_mut descendant_id (drop_ancestor e)) (set_iter descendants).

(** ** Indices *)

Definition mark_outpoints_as_spent {E} e : ST MempoolStore E unit :=
  modify (with_spender (fun spender_txs => foldl (fun m dep => <[dep := tx_id e]> m) spender_txs (requires (entry e)))).

Definition unspend_outpoints {E} e : ST MempoolStore E unit :=
  try_for_each (fun dep =>
    removed ← gets (fun s => Ok (spender_txs s !! dep));
    _ ← modify (with_spender (delete dep));
    lift (assert_true (bool_decide (removed = Some (tx_id e))))) (requires (entry e)).

(** Take the entries of [ids] out of an index by score and put them back with
    their scores. *)
Definition reinsert {E : Type} (with_index : (gset (FeeRate * TxId) -> gset (FeeRate * TxId)) -> MempoolStore -> MempoolStore)
    (score : TxMempoolEntry -> result E FeeRate) (ids : gset TxId) : ST MempoolStore E unit :=
  _ ← modify (with_index (filter (fun p => p.2 ∉ ids)));
  try_for_each (fun id =>
    sc ← gets (fun s => e ← expect (get_entry s id); score e);
    modify (with_index (union {[(sc, id)]}))) (set_iter ids).

Definition refresh_ancestors {E} e : ST MempoolStore E unit :=
  ancestors ← gets (unconfirmed_ancestors e);
  reinsert with_descendant_score descendant_score ancestors.

Definition refresh_descendants {E} e : ST MempoolStore E unit :=
  descendants ← gets (unconfirmed_descendants e);
  reinsert with_ancestor_score ancestor_score descendants.

Definition add_to_descendant_score_index {E} e : ST MempoolStore E unit :=
  _ ← refresh_ancestors e;
  score ← lift (descendant_score e);
  modify (with_descendant_score (union {[(score, tx_id e)]})).

Definition add_to_ancestor_score_index {E} e : ST MempoolStore E unit :=
  score ← lift (ancestor_score e);
  modify (with_ancestor_score (union {[(score, tx_id e)]})).

Definition remove_from_descendant_score_index {E} e : ST MempoolStore E unit :=
  _ ← refresh_ancestors e;
  score ← lift (descendant_score e);
  modify (with_descendant_score (fun x => x ∖ {[(score, tx_id e)]})).

Definition remove_from_ancestor_score_index {E} e : ST MempoolStore E unit :=
  _ ← refresh_descendants e;
  score ← lift (ancestor_score e);
  modify (with_ancestor_score (fun x => x ∖ {[(score, tx_id e)]})).

Definition remove_from_creation_time_index {E} e : ST MempoolStore E unit :=
  modify (with_creation_time (fun x => x ∖ {[(creation_time e, tx_id e)]})).

Definition remove_from_seq_no_index {E} e : ST MempoolStore E unit :=
  seq ← gets (fun s => Ok (seq_nos_by_tx s !! tx_id e));
  _ ← modify (with_seq_nos id (delete (tx_id e)) id);
  seq ← lift (expect seq);
  tx_id_seq ← gets (fun s => Ok (txs_by_seq_no s !! seq));
  _ ← modify (with_seq_nos (delete seq) id id);
  lift (assert_true (bool_decide (tx_id_seq = Some (tx_id e)))).

(** ** Adding a transaction *)

Definition add_tx_entry e : ST MempoolStore MempoolPolicyError unit :=
  _ ← append_to_parents e;
  _ ← update_ancestor_state_for_add e;
  _ ← mark_outpoints_as_spent e;
  seq_no ← gets (fun s => Ok (next_seq_no s));
  next ← lift (expect (bint_of_Z (ival seq_no + 1)));
  _ ← modify (with_seq_nos id id (fun _ => next));
  _ ← add_to_descendant_score_index e;
  _ ← add_to_ancestor_score_index e;
  _ ← modify (with_creation_time (union {[(creation_time e, tx_id e)]}));
  _ ← modify (with_seq_nos <[seq_no := tx_id e]> <[tx_id e := seq_no]> id);
  prev ← gets (fun s => Ok (txs_by_id s !! tx_id e));
  _ ← modify (with_txs <[tx_id e := e]>);
  lift (assert_true (is_none prev)).

(** The transaction whose output an input spends. *)
Definition spent_tx (i : TxInput) : option TxId :=
  match i with
  | InputUtxo outpoint => get_tx_id (op_source_id outpoint)
  | InputAccount _ | InputAccountCommand _ _ | InputOrderAccountCommand _ => None
  end.

Definition add_transaction (ent : TxEntryWithFee) : ST MempoolStore MempoolPolicyError unit :=
  parents ← gets (fun s => Ok (list_to_set (filter (fun id => is_Some (txs_by_id s !! id))
    (omap spent_tx (tx_inputs (wf_entry ent))))));
  ancestor_ids ← gets (unconfirmed_ancestors_from_parents parents);
  ancestors ← gets (fun s => try_fold (fun acc id => a ← expect (get_entry s id); mret (a :: acc)) [] (set_iter ancestor_ids));
  e ← lift (TxMempoolEntry_new ent parents ancestors);
  add_tx_entry e.

(** ** Removing transactions *)

Definition update_for_drop {E} e : ST MempoolStore E unit :=
  _ ← remove_from_parents e;
  remove_from_children e.

Definition drop_tx {E} e : ST MempoolStore E unit :=
  _ ← update_for_drop e;
  _ ← remove_from_descendant_score_index e;
  _ ← remove_from_ancestor_score_index e;
  _ ← remove_from_creation_time_index e;
  _ ← remove_from_seq_no_index e;
  unspend_outpoints e.

Definition remove_tx {E} (id : TxId) (reason : MempoolRemovalReason) : ST MempoolStore E (option TxMempoolEntry) :=
  removed ← gets (fun s => Ok (txs_by_id s !! id));
  _ ← modify (with_txs (delete id));
  match removed with
  | Some e =>
      _ ← update_ancestor_state_for_drop e;
      _ ← if bool_decide (reason = ReasonBlock) then update_descendant_state_for_drop e else mret tt;
      _ ← drop_tx e;
      mret (Some e)
  | None =>
      _ ← gets (fun s => assert_true (forallb (fun p => negb (bool_decide (p.2 = id))) (elements (txs_by_descendant_score s))));
      _ ← gets (fun s => assert_true (forallb (fun p => negb (bool_decide (p.2 = id))) (map_to_list (spender_txs s))));
      mret None
  end.

Definition drop_conflicts {E} (conflicts : gset TxId) : ST MempoolStore E unit :=
  try_for_each (fun conflict => _ ← remove_tx conflict ReasonReplaced; mret tt) (set_iter conflicts).

(** The ids that [drop_tx_and_descendants] removes, collected before the first
    removal. *)
Definition ids_to_drop {E} (id : TxId) s : result E (list TxId) :=
  match get_entry s id with
  | Some e => depth_postorder_descendants e s
  | None => Ok []
  end.

(** The iterator that is returned, run to its end. *)
Definition drop_tx_and_descendants {E} (id : TxId) (reason : MempoolRemovalReason) : ST MempoolStore E (list TxMempoolEntry) :=
  to_remove ← gets (ids_to_drop id);
  try_filter_map (fun id => remove_tx id reason) to_remove.

Definition find_conflicting_tx s (dep : TxDependency) : option TxId := spender_txs s !! dep.

(** [txs_by_seq_no.into_values().map(|id| txs_by_id.remove(&id).expect(..).entry)]. *)
Definition into_transactions {E} s : result E (list (TxEntry TxOrigin)) :=
  (try_collect (fun id (m : gmap TxId TxMempoolEntry) =>
    match m !! id with
    | Some e => (delete id m, Ok (entry e))
    | None => (m, Panic)
    end) (btree_iter (txs_by_seq_no s)).*2 (txs_by_id s)).2.
End store.
