(* ===== verification/MempoolGraph.v ===== *)
(** * The graph of the mempool

    What adding a leaf and removing a leaf or a root do to the ancestors and the
    descendants, what the loops of MempoolStore.v over entries and over indices
    compute, and what its traversals find. *)
From S2P Require Import Prelude Amount ChainTypes ChainConfig Utxo TxTypes CheckTransaction.
From S2P Require Import Traversal MempoolEntry MempoolStore.

(** ** Relations *)

Section relations.
Context {K : Type}.
Implicit Types R : relation K.

Lemma tc_iff_rtc R x y : tc R x y <-> exists z, R x z /\ rtc R z y.
Proof.
  split; [intros Ht|intros (z & Hz & Hr); by eapply tc_rtc_r; [apply tc_once|]].
  destruct Ht as [x y Hxy|x y z Hxy Hyz]; [by exists y|]. exists y. split; [done|]. by apply tc_rtc.
Qed.

Lemma rtc_iff_tc R x y : rtc R x y <-> x = y \/ tc R x y.
Proof.
  split; [intros Hr|intros [->|Ht]; [done|by apply tc_rtc]].
  destruct Hr as [x|x y z Hxy Hyz]; [by left|right]. apply tc_iff_rtc. by exists y.
Qed.

(** Paths from [x] are those of a relation that agrees where they pass. *)
Lemma rtc_agree R R' x y : (forall u v, rtc R x u -> R u v -> R' u v) -> rtc R x y -> rtc R' x y.
Proof.
  intros Hag Hr. revert Hag. induction Hr as [|x y z Hxy Hyz IH]; intros Hag; [done|].
  eapply rtc_l; [by apply Hag|]. apply IH. intros u v Hu. apply Hag. by eapply rtc_l.
Qed.

Lemma tc_rank R (rank : K -> Z) x y : (forall u v, R u v -> rank v < rank u) -> tc R x y -> rank y < rank x.
Proof. intros HR Ht. induction Ht as [x y Hxy|x y z Hxy _ IH]; [by apply HR|]. specialize (HR _ _ Hxy). lia. Qed.

(** A new item [n] with edges to [P]. *)
Lemma tc_add_leaf R R' n (P : K -> Prop) x y :
  (forall u v, R' u v <-> R u v \/ (u = n /\ P v)) -> (forall v, ~ R n v) -> (forall u, ~ R u n) -> ~ P n ->
  tc R' x y <-> tc R x y \/ (x = n /\ exists a, P a /\ rtc R a y).
Proof.
  intros HR' Hout Hin HPn. assert (forall a z, a <> n -> rtc R' a z -> rtc R a z /\ z <> n) as Hback.
  { intros a z Ha Hr. induction Hr as [a|a b c Hab _ IH]; [done|].
    apply HR' in Hab as [Hab|[-> _]]; [|done]. destruct IH as [Hr Hc]; [intros ->; by eapply Hin|].
    split; [by eapply rtc_l|done]. }
  assert (forall a z, rtc R a z -> rtc R' a z) as Hfwd.
  { intros a z Hr. eapply rtc_subrel; [|done]. intros u v Huv. apply HR'. by left. }
  rewrite (tc_iff_rtc R'), (tc_iff_rtc R). split.
  - intros (z & [Hxz|[-> Hz]]%HR' & Hr).
    + left. exists z. split; [done|]. apply Hback; [intros ->; by eapply Hin|done].
    + right. split; [done|]. exists z. split; [done|]. apply Hback; [by intros ->|done].
  - intros [(z & Hxz & Hr)|(-> & a & Ha & Hr)].
    + exists z. split; [apply HR'; by left|by apply Hfwd].
    + exists a. split; [apply HR'; by right|by apply Hfwd].
Qed.

(** The item [n] removed. *)
Lemma tc_remove R R' n x y :
  (forall u v, R' u v <-> R u v /\ u <> n /\ v <> n) -> (forall u, ~ R u n) \/ (forall v, ~ R n v) ->
  tc R' x y <-> tc R x y /\ x <> n /\ y <> n.
Proof.
  intros HR' Hend. split.
  - intros Ht. induction Ht as [x y Hxy|x y z Hxy _ IH]; apply HR' in Hxy as (Hxy & Hx & Hy).
    + split; [by apply tc_once|done].
    + destruct IH as (Ht & _ & Hz). split; [by eapply tc_l|done].
  - intros (Ht & Hx & Hy). induction Ht as [x y Hxy|x y z Hxy Ht IH]; [by apply tc_once, HR'|].
    assert (y <> n) as Hyn.
    { intros ->. destruct Hend as [Hend|Hend]; [by eapply Hend|].
      apply tc_iff_rtc in Ht as (w & Hw & _). by eapply Hend. }
    eapply tc_l; [by apply HR'|by apply IH].
Qed.

(** A set is the set of the items that satisfy a predicate. *)
Definition is_set `{Countable K} (A : gset K) (P : K -> Prop) : Prop := forall x, x ∈ A <-> P x.

Lemma is_set_unique `{Countable K} (A B : gset K) P : is_set A P -> is_set B P -> A = B.
Proof. intros HA HB. apply set_eq. intros x. by rewrite (HA x), (HB x). Qed.
End relations.

(** ** Loops over entries *)

Section loops.
Context `{CryptoTypes}.
Implicit Types (s : MempoolStore) (e : TxMempoolEntry) (m : gmap TxId TxMempoolEntry) (X : gset TxId).

Definition alter_set X (f : TxMempoolEntry -> TxMempoolEntry) m : gmap TxId TxMempoolEntry :=
  map_imap (fun k e => Some (if decide (k ∈ X) then f e else e)) m.

Lemma lookup_alter_set X f m k :
  alter_set X f m !! k = (fun e => if decide (k ∈ X) then f e else e) <$> m !! k.
Proof. unfold alter_set. rewrite map_lookup_imap. by destruct (m !! k). Qed.

Lemma alter_set_empty f m : alter_set ∅ f m = m.
Proof. apply map_eq. intros k. rewrite lookup_alter_set. by destruct (m !! k). Qed.

Lemma size_alter_set X f m : base.size (alter_set X f m) = base.size m.
Proof.
  rewrite <- !size_dom. f_equal. apply set_eq. intros k. rewrite !elem_of_dom, lookup_alter_set.
  by rewrite fmap_is_Some.
Qed.

Lemma with_txs_id s : with_txs (fun m => m) s = s.
Proof. by destruct s. Qed.

Lemma entry_loop {E} (f : ST TxMempoolEntry E unit) ids s :
  NoDup ids -> (forall id, id ∈ ids -> exists e, txs_by_id s !! id = Some e /\ (f e).2 = Ok tt) ->
  try_for_each (fun id => entry_mut id f) ids s =
  (with_txs (alter_set (list_to_set ids) (fun e => (f e).1)) s, Ok tt).
Proof.
  intros Hnd. revert s. induction Hnd as [|id ids Hid _ IH]; intros s Hs.
  { cbn. rewrite <- (with_txs_id s) at 1. unfold with_txs, mret, st_ret. by rewrite alter_set_empty. }
  destruct (Hs id ltac:(by left)) as (e & He & Hok). cbn [try_for_each].
  rewrite (st_bind_run _ _ _ (with_txs <[id := (f e).1]> s) tt).
  - rewrite IH.
    + f_equal. unfold with_txs. cbn. f_equal. apply map_eq. intros k.
      rewrite !lookup_alter_set. destruct (decide (k = id)) as [->|Hne].
      * rewrite lookup_insert_eq, He. cbn. by repeat case_decide; first [done|set_solver].
      * rewrite lookup_insert_ne by done. destruct (txs_by_id s !! k); [|done]. cbn. f_equal.
        apply decide_ext. set_solver.
    + intros id' Hid'. destruct (Hs id' ltac:(by right)) as (e' & He' & Hok'). exists e'. split; [|done].
      cbn. rewrite lookup_insert_ne; [done|]. by intros ->.
  - unfold entry_mut. rewrite He. destruct (f e) as [e' r]. cbn in *. by rewrite Hok.
Qed.

Lemma entry_loop_set {E} (f : ST TxMempoolEntry E unit) X s :
  (forall id, id ∈ X -> exists e, txs_by_id s !! id = Some e /\ (f e).2 = Ok tt) ->
  try_for_each (fun id => entry_mut id f) (set_iter X) s = (with_txs (alter_set X (fun e => (f e).1)) s, Ok tt).
Proof.
  intros Hs. rewrite entry_loop; [|apply NoDup_set_iter|intros id Hid; by apply Hs, elem_of_set_iter].
  do 3 f_equal. apply set_eq. intros x. by rewrite elem_of_list_to_set, elem_of_set_iter.
Qed.

(** ** Loops over indices *)

(** The pairs of score and id of the entries of [X]. *)
Definition scored {E : Type} (score : TxMempoolEntry -> result E FeeRate) m X : gset (FeeRate * TxId) :=
  list_to_set (omap (fun id => match m !! id with
    | Some e => match score e with Ok sc => Some (sc, id) | _ => None end
    | None => None
    end) (set_iter X)).

Lemma elem_of_scored {E : Type} (score : TxMempoolEntry -> result E FeeRate) m X sc id :
  (sc, id) ∈ scored score m X <-> id ∈ X /\ exists e, m !! id = Some e /\ score e = Ok sc.
Proof.
  unfold scored. rewrite elem_of_list_to_set, list_elem_of_omap. split.
  - intros (id' & Hid'%elem_of_set_iter & Heq). destruct (m !! id') as [e|] eqn:He; [|done].
    destruct (score e) eqn:Hsc; simplify_eq. split; [done|by exists e].
  - intros (Hid & e & He & Hsc). exists id. rewrite elem_of_set_iter, He, Hsc. done.
Qed.

(** [with_index] replaces one index and leaves the entries alone. *)
Definition index_setter (with_index : (gset (FeeRate * TxId) -> gset (FeeRate * TxId)) -> MempoolStore -> MempoolStore) : Prop :=
  (forall f s, txs_by_id (with_index f s) = txs_by_id s) /\
  (forall f g s, with_index f (with_index g s) = with_index (f ∘ g) s) /\
  (forall f g s, (forall x, f x = g x) -> with_index f s = with_index g s).

Lemma with_descendant_score_setter : index_setter with_descendant_score.
Proof. split_and!; [done|done|]. intros f g s Hfg. unfold with_descendant_score. by rewrite Hfg. Qed.
Lemma with_ancestor_score_setter : index_setter with_ancestor_score.
Proof. split_and!; [done|done|]. intros f g s Hfg. unfold with_ancestor_score. by rewrite Hfg. Qed.

Lemma reinsert_run {E : Type} with_index (score : TxMempoolEntry -> result E FeeRate) X s :
  index_setter with_index ->
  (forall id, id ∈ X -> exists e sc, txs_by_id s !! id = Some e /\ score e = Ok sc) ->
  reinsert with_index score X s =
  (with_index (fun ix => scored score (txs_by_id s) X ∪ filter (fun p => p.2 ∉ X) ix) s, Ok tt).
Proof.
  intros (Htxs & Hcomp & Hext) Hs. unfold reinsert. rewrite (st_bind_run _ _ _ (with_index (filter (fun p => p.2 ∉ X)) s) tt) by done.
  unfold scored. assert (forall id, id ∈ set_iter X -> exists e sc, txs_by_id s !! id = Some e /\ score e = Ok sc) as Hl.
  { intros id Hid. by apply Hs, elem_of_set_iter. }
  revert Hl. clear Hs. generalize (set_iter X) as l. generalize (filter (fun p => p.2 ∉ X) : gset (FeeRate * TxId) -> gset (FeeRate * TxId)) as g.
  intros g l. revert g. induction l as [|id l IH]; intros g Hl.
  { cbn. unfold mret, st_ret. f_equal. apply Hext. intros ix. by rewrite union_empty_l_L. }
  destruct (Hl id ltac:(by left)) as (e & sc & He & Hsc). cbn [try_for_each omap list_omap].
  rewrite He, Hsc, (st_bind_run _ _ _ (with_index (union {[(sc, id)]} ∘ g) s) tt).
  - rewrite IH by (intros; apply Hl; by right). f_equal. apply Hext. intros ix. cbn. set_solver.
  - rewrite (st_bind_run _ _ _ (with_index g s) sc); [unfold modify; by rewrite Hcomp|].
    rewrite gets_run. unfold get_entry. rewrite Htxs, He. cbn. by rewrite Hsc.
Qed.

(** ** The edges of the store *)

(** [x] has the parent [y]. *)
Definition parent_edge m : relation TxId := fun x y => exists e, m !! x = Some e /\ y ∈ parents e.
Definition child_edge m : relation TxId := fun x y => exists e, m !! x = Some e /\ y ∈ children e.

Lemma edge_parents {E} s x y : edge (E := E) (parents_of s) x y <-> parent_edge (txs_by_id s) x y.
Proof.
  unfold edge, parents_of, parent_edge, get_entry. destruct (txs_by_id s !! x) as [e|]; cbn.
  - split.
    + intros (cs & [= <-] & Hy%elem_of_set_iter). by exists e.
    + intros (e' & [= <-] & Hy). exists (set_iter (parents e)). split; [done|by apply elem_of_set_iter].
  - split; [by intros (cs & ? & _)|by intros (e' & ? & _)].
Qed.

Lemma edge_children {E} s x y : edge (E := E) (children_of s) x y <-> child_edge (txs_by_id s) x y.
Proof.
  unfold edge, children_of, child_edge, get_entry. destruct (txs_by_id s !! x) as [e|]; cbn.
  - split.
    + intros (cs & [= <-] & Hy%elem_of_set_iter). by exists e.
    + intros (e' & [= <-] & Hy). exists (set_iter (children e)). split; [done|by apply elem_of_set_iter].
  - split; [by intros (cs & ? & _)|by intros (e' & ? & _)].
Qed.

Lemma rtc_iff {K} (R R' : relation K) x y : (forall u v, R u v <-> R' u v) -> rtc R x y <-> rtc R' x y.
Proof. intros Heq. split; apply rtc_subrel; intros u v; apply Heq. Qed.
Lemma tc_iff {K} (R R' : relation K) x y : (forall u v, R u v <-> R' u v) -> tc R x y <-> tc R' x y.
Proof.
  intros Heq. split; induction 1 as [x y Hxy|x y z Hxy _ IH];
    first [by apply tc_once, Heq|by eapply tc_l; [apply Heq|]].
Qed.

(** The entries of a set have all their parents (children) in the store. *)
Definition parents_in m : Prop := forall x y, parent_edge m x y -> is_Some (m !! y).
Definition children_in m : Prop := forall x y, child_edge m x y -> is_Some (m !! y).

Lemma closed_parents {E} s : parents_in (txs_by_id s) -> closed (E := E) (parents_of s) (dom (txs_by_id s)).
Proof.
  intros Hin x [e He]%elem_of_dom. exists (set_iter (parents e)). unfold parents_of, get_entry. rewrite He.
  split; [done|]. intros y Hy%elem_of_set_iter. apply elem_of_dom, (Hin x). by exists e.
Qed.
Lemma closed_children {E} s : children_in (txs_by_id s) -> closed (E := E) (children_of s) (dom (txs_by_id s)).
Proof.
  intros Hin x [e He]%elem_of_dom. exists (set_iter (children e)). unfold children_of, get_entry. rewrite He.
  split; [done|]. intros y Hy%elem_of_set_iter. apply elem_of_dom, (Hin x). by exists e.
Qed.

(** What is reached from the items of [P], themselves included. *)
Definition reach_from (R : relation TxId) (P : gset TxId) (x : TxId) : Prop := exists a, a ∈ P /\ rtc R a x.

(** The searches find a set that is known to be what can be reached along [R],
    when the edges of the store agree with [R] there. *)
Lemma ancestors_found {E} e s A (R : relation TxId) :
  (forall x, x ∈ A -> is_Some (txs_by_id s !! x)) ->
  (forall x y, x ∈ A -> parent_edge (txs_by_id s) x y <-> R x y) ->
  is_set A (reach_from R (parents e)) -> unconfirmed_ancestors (E := E) e s = Ok A.
Proof.
  intros HA HR Hset. apply (visit_exact _ R).
  - intros x Hx. destruct (HA x Hx) as [a Ha]. exists (set_iter (parents a)). unfold parents_of, get_entry. rewrite Ha.
    split; [done|]. intros y. rewrite elem_of_set_iter, <- (HR x y Hx). unfold parent_edge. rewrite Ha. naive_solver.
  - intros x. rewrite (Hset x). unfold reach_from. by setoid_rewrite elem_of_set_iter.
  - unfold depth. rewrite <- size_dom. apply Nat.lt_succ_r, subseteq_size. intros x Hx. by apply elem_of_dom, HA.
Qed.

Lemma descendants_found {E} e s A (R : relation TxId) :
  (forall x, x ∈ A -> is_Some (txs_by_id s !! x)) ->
  (forall x y, x ∈ A -> child_edge (txs_by_id s) x y <-> R x y) ->
  is_set A (reach_from R (children e)) -> unconfirmed_descendants (E := E) e s = Ok A.
Proof.
  intros HA HR Hset. apply (visit_exact _ R).
  - intros x Hx. destruct (HA x Hx) as [a Ha]. exists (set_iter (children a)). unfold children_of, get_entry. rewrite Ha.
    split; [done|]. intros y. rewrite elem_of_set_iter, <- (HR x y Hx). unfold child_edge. rewrite Ha. naive_solver.
  - intros x. rewrite (Hset x). unfold reach_from. by setoid_rewrite elem_of_set_iter.
  - unfold depth. rewrite <- size_dom. apply Nat.lt_succ_r, subseteq_size. intros x Hx. by apply elem_of_dom, HA.
Qed.
End loops.
