(* ===== verification/MempoolInvariant.v ===== *)
(** * The invariant of the mempool's store

    The entries form a graph without cycles in which the children are the
    inverse of the parents; the counts, fees and sizes with ancestors and with
    descendants are the sums over what can be reached; every index has exactly
    the entries.  The invariant is kept by adding a transaction and by removing
    a leaf or, for a transaction that got into a block, a root; and with it no
    operation panics. *)
From S2P Require Import Prelude Amount ChainTypes ChainConfig Utxo TxTypes CheckTransaction.
From S2P Require Import Traversal MempoolEntry MempoolStore MempoolGraph.

Section invariant.
Context `{CryptoTypes}.
Implicit Types (s : MempoolStore) (e : TxMempoolEntry) (m : gmap TxId TxMempoolEntry) (A P X : gset TxId).

(** ** The entries as a graph with weights *)

Definition fee_of m (x : TxId) : Z := match m !! x with Some e => ival (fee e) | None => 0 end.
Definition size_of m (x : TxId) : Z := match m !! x with Some e => ival (size e) | None => 0 end.
Definition total_fees m : Z := sum_over (dom m) (fee_of m).
Definition total_size m : Z := sum_over (dom m) (size_of m).

(** The fees of everything, as a rate, and all sizes are in range. *)
Definition fits m : Prop := 1000 * total_fees m <= u128_MAX /\ total_size m < 2 ^ 64.

(** The transactions whose outputs an entry spends. *)
Definition sources e : list TxId := omap spent_tx (tx_inputs (entry e)).

(** Count, fees and size of an entry and of those of [A]. *)
Record sums m A e (count : usize) (fees : Fee) (sz : NonZeroUsize) : Prop := {
  sums_count : ival count = 1 + Z.of_nat (base.size A);
  sums_fees : ival fees = ival (fee e) + sum_over A (fee_of m);
  sums_size : ival sz = ival (size e) + sum_over A (size_of m)
}.

Record entries_inv m : Prop := {
  inv_id : forall x e, m !! x = Some e -> tx_id e = x;
  inv_parents : forall x e y, m !! x = Some e -> y ∈ parents e <-> y ∈ sources e /\ is_Some (m !! y);
  inv_children : forall x e y, m !! x = Some e -> y ∈ children e <-> parent_edge m y x;
  inv_rank : exists rank : TxId -> Z, forall x y, parent_edge m x y -> rank y < rank x;
  inv_ancestors : forall x e, m !! x = Some e -> exists A, is_set A (tc (parent_edge m) x) /\
    sums m A e (count_with_ancestors e) (fees_with_ancestors e) (size_with_ancestors e);
  inv_descendants : forall x e, m !! x = Some e -> exists A, is_set A (fun y => tc (parent_edge m) y x) /\
    sums m A e (count_with_descendants e) (fees_with_descendants e) (size_with_descendants e)
}.

Lemma fee_of_nonneg m x : 0 <= fee_of m x.
Proof. unfold fee_of. destruct (m !! x) as [e|]; [|done]. pose proof (bint_range (fee e)). lia. Qed.
Lemma size_of_nonneg m x : 0 <= size_of m x.
Proof. unfold size_of. destruct (m !! x) as [e|]; [|done]. pose proof (bint_range (size e)). lia. Qed.

Lemma sum_over_le (D D' : gset TxId) f : D ⊆ D' -> (forall k, 0 <= f k) -> sum_over D f <= sum_over D' f.
Proof.
  intros Hsub Hf. set (g := fun k => if decide (k ∈ D) then f k else 0).
  rewrite (sum_over_ext D f g) by (intros k Hk; unfold g; by rewrite decide_True).
  rewrite <- (sum_over_subset D D' g) by (done || intros k Hk; unfold g; by rewrite decide_False).
  apply sum_over_mono. intros k _. unfold g. case_decide; [lia|apply Hf].
Qed.

Lemma sum_over_pos (D : gset TxId) f : (forall k, k ∈ D -> 1 <= f k) -> Z.of_nat (base.size D) <= sum_over D f.
Proof.
  intros Hf. transitivity (sum_over D (fun _ => 1)); [|by apply sum_over_mono].
  unfold sum_over. assert (forall l : list TxId, Zsum ((fun _ => 1) <$> l) = Z.of_nat (length l)) as Hlen.
  { intros l. induction l as [|x l IH]; [done|]. cbn [fmap list_fmap length Zsum foldr]. fold (Zsum ((fun _ => 1) <$> l)). lia. }
  rewrite Hlen. unfold base.size, set_size. cbn. lia.
Qed.

(** ** Facts about the graph *)

Section graph.
Context (m : gmap TxId TxMempoolEntry) (Hinv : entries_inv m).

Lemma parent_edge_in x y : parent_edge m x y -> is_Some (m !! x) /\ is_Some (m !! y).
Proof. intros (e & He & Hy). split; [by exists e|]. by apply (inv_parents m Hinv x e y He). Qed.

Lemma inv_parents_in : parents_in m.
Proof. intros x y Hxy. by eapply parent_edge_in. Qed.

Lemma child_edge_iff x y : child_edge m x y <-> parent_edge m y x.
Proof.
  split.
  - intros (e & He & Hy). by apply (inv_children m Hinv x e y He).
  - intros Hyx. destruct (parent_edge_in _ _ Hyx) as [_ [e He]]. exists e. split; [done|].
    by apply (inv_children m Hinv x e y He).
Qed.

Lemma inv_children_in : children_in m.
Proof. intros x y Hxy%child_edge_iff. by apply parent_edge_in in Hxy as [? _]. Qed.

Lemma acyclic x : ~ tc (parent_edge m) x x.
Proof. intros Hx. destruct (inv_rank m Hinv) as [rank Hr]. pose proof (tc_rank _ rank _ _ Hr Hx). lia. Qed.

Lemma tc_in x y : tc (parent_edge m) x y -> is_Some (m !! x) /\ is_Some (m !! y).
Proof.
  induction 1 as [x y Hxy|x y z Hxy _ [_ IH]]; [by apply parent_edge_in|].
  split; [by apply parent_edge_in in Hxy as [? _]|done].
Qed.

Lemma tc_child x y : tc (child_edge m) x y <-> tc (parent_edge m) y x.
Proof.
  rewrite (tc_iff (child_edge m) (flip (parent_edge m))) by apply child_edge_iff.
  split; (induction 1 as [x y Hxy|x y z Hxy _ IH]; [by apply tc_once|]); (eapply tc_r; [exact IH|done]).
Qed.

(** Sums over other entries stay below the totals. *)
Lemma sums_le x e A count fees sz : m !! x = Some e -> x ∉ A -> (forall y, y ∈ A -> is_Some (m !! y)) ->
  sums m A e count fees sz ->
  ival fees <= total_fees m /\ ival sz <= total_size m /\ ival count <= total_size m.
Proof.
  intros He Hx HA [Hc Hf Hs].
  assert ({[x]} ∪ A ⊆ dom m) as Hsub.
  { intros y [->%elem_of_singleton|Hy]%elem_of_union; apply elem_of_dom; [by exists e|by apply HA]. }
  pose proof (sum_over_le _ _ (fee_of m) Hsub (fee_of_nonneg m)) as Hlf.
  pose proof (sum_over_le _ _ (size_of m) Hsub (size_of_nonneg m)) as Hls.
  rewrite sum_over_insert in Hlf, Hls by done.
  unfold fee_of at 1 in Hlf. unfold size_of at 1 in Hls. rewrite He in Hlf, Hls.
  assert (Z.of_nat (base.size A) <= sum_over A (size_of m)) as Hcount.
  { apply sum_over_pos. intros y [e' He']%HA. unfold size_of. rewrite He'. pose proof (bint_range (size e')). lia. }
  pose proof (bint_range (size e)). unfold total_fees, total_size. lia.
Qed.

Lemma ancestors_le x e : m !! x = Some e ->
  ival (fees_with_ancestors e) <= total_fees m /\ ival (size_with_ancestors e) <= total_size m /\
  ival (count_with_ancestors e) <= total_size m.
Proof.
  intros He. destruct (inv_ancestors m Hinv x e He) as (A & HA & Hsums).
  apply (sums_le x e A); [done| | |done].
  - intros Hx%HA. by apply acyclic in Hx.
  - intros y Hy%HA. by apply tc_in in Hy as [_ ?].
Qed.

Lemma descendants_le x e : m !! x = Some e ->
  ival (fees_with_descendants e) <= total_fees m /\ ival (size_with_descendants e) <= total_size m /\
  ival (count_with_descendants e) <= total_size m.
Proof.
  intros He. destruct (inv_descendants m Hinv x e He) as (A & HA & Hsums).
  apply (sums_le x e A); [done| | |done].
  - intros Hx%HA. by apply acyclic in Hx.
  - intros y Hy%HA. by apply tc_in in Hy as [? _].
Qed.

Lemma fee_le_total x e : m !! x = Some e -> ival (fee e) <= total_fees m.
Proof.
  intros He. pose proof (sum_over_member (dom m) (fee_of m) x (fee_of_nonneg m)) as Hle.
  unfold fee_of at 1 in Hle. rewrite He in Hle. apply Hle. apply elem_of_dom. by exists e.
Qed.

(** With the totals in range every entry has its scores. *)
Lemma descendant_score_runs {E} x e : fits m -> m !! x = Some e -> exists sc, descendant_score (E := E) e = Ok sc.
Proof.
  intros [Hf _] He. destruct (descendants_le x e He) as (Hle & _ & _). pose proof (fee_le_total x e He).
  destruct (from_total_tx_fee_value (fees_with_descendants e) (size_with_descendants e)) as (a & Ha & _); [lia|].
  destruct (from_total_tx_fee_value (fee e) (size e)) as (b & Hb & _); [lia|].
  unfold descendant_score. rewrite Ha, Hb. cbn. eauto.
Qed.

Lemma ancestor_score_runs {E} x e : fits m -> m !! x = Some e -> exists sc, ancestor_score (E := E) e = Ok sc.
Proof.
  intros [Hf _] He. destruct (ancestors_le x e He) as (Hle & _ & _). pose proof (fee_le_total x e He).
  destruct (from_total_tx_fee_value (fees_with_ancestors e) (size_with_ancestors e)) as (a & Ha & _); [lia|].
  destruct (from_total_tx_fee_value (fee e) (size e)) as (b & Hb & _); [lia|].
  unfold ancestor_score. rewrite Ha, Hb. cbn. eauto.
Qed.
End graph.

(** ** Adding a leaf *)

Section add.
Context (m : gmap TxId TxMempoolEntry) (Hinv : entries_inv m).
Context (e : TxMempoolEntry) (A : gset TxId).
Let n := tx_id e.
Context (Hnew : m !! tx_id e = None).
Context (Hparents : forall y, y ∈ parents e <-> y ∈ sources e /\ is_Some (m !! y)).
(** Nothing in the store spends an output of the new transaction. *)
Context (Hleaf : forall x e', m !! x = Some e' -> n ∉ sources e').
Context (Hself : n ∉ sources e).
Context (Hchildren : children e = ∅).
Context (HA : is_set A (reach_from (parent_edge m) (parents e))).
Context (Hanc : sums m A e (count_with_ancestors e) (fees_with_ancestors e) (size_with_ancestors e)).
Context (Hdesc : sums m ∅ e (count_with_descendants e) (fees_with_descendants e) (size_with_descendants e)).

Definition linked : gmap TxId TxMempoolEntry := alter_set (parents e) (with_children (union {[n]})) m.
Definition counted : gmap TxId TxMempoolEntry := alter_set A (fun a => (add_descendant e a).1) linked.
Definition added : gmap TxId TxMempoolEntry := <[n := e]> counted.

Context (Hfits : fits added).

Lemma lookup_counted k : counted !! k =
  (fun a => let a := if decide (k ∈ parents e) then with_children (union {[n]}) a else a in
    if decide (k ∈ A) then (add_descendant e a).1 else a) <$> m !! k.
Proof. unfold counted, linked. rewrite !lookup_alter_set. by destruct (m !! k). Qed.

(** The step of an ancestor, when it does not overflow. *)
Lemma add_descendant_static a : let a' := (add_descendant e a).1 in
  entry a' = entry a /\ fee a' = fee a /\ parents a' = parents a /\ children a' = children a /\
  count_with_ancestors a' = count_with_ancestors a /\ fees_with_ancestors a' = fees_with_ancestors a /\
  size_with_ancestors a' = size_with_ancestors a.
Proof. cbv zeta. unfold add_descendant. repeat case_match; done. Qed.

(** What stays of an entry that was there. *)
Lemma added_old k a' : k <> n -> added !! k = Some a' -> exists a, m !! k = Some a /\
  entry a' = entry a /\ fee a' = fee a /\ parents a' = parents a /\
  children a' = (if decide (k ∈ parents e) then {[n]} ∪ children a else children a) /\
  count_with_ancestors a' = count_with_ancestors a /\ fees_with_ancestors a' = fees_with_ancestors a /\
  size_with_ancestors a' = size_with_ancestors a /\
  (k ∉ A -> count_with_descendants a' = count_with_descendants a /\
    fees_with_descendants a' = fees_with_descendants a /\ size_with_descendants a' = size_with_descendants a) /\
  (k ∈ A -> a' = (add_descendant e (if decide (k ∈ parents e) then with_children (union {[n]}) a else a)).1).
Proof.
  intros Hk. unfold added. rewrite lookup_insert_ne, lookup_counted by done.
  destruct (m !! k) as [a|]; [|done]. cbn. intros [= <-]. exists a. split; [done|].
  pose proof (add_descendant_static (if decide (k ∈ parents e) then with_children (union {[n]}) a else a)) as Hst.
  cbv zeta in Hst. destruct (decide (k ∈ A)) as [HkA|HkA].
  - destruct Hst as (-> & -> & -> & -> & -> & -> & ->). case_decide; cbn; (split_and!; done).
  - clear Hst. case_decide; cbn; (split_and!; done).
Qed.

Lemma added_is_Some k : is_Some (added !! k) <-> k = n \/ is_Some (m !! k).
Proof.
  unfold added. destruct (decide (k = n)) as [->|Hk].
  - rewrite lookup_insert_eq. split; [by left|by eexists].
  - rewrite lookup_insert_ne, lookup_counted, fmap_is_Some by done. split; [by right|by intros [?|?]].
Qed.

Lemma added_edge x y : parent_edge added x y <-> parent_edge m x y \/ (x = n /\ y ∈ parents e).
Proof.
  destruct (decide (x = n)) as [->|Hx].
  - split.
    + intros (e' & He' & Hy). unfold added in He'. rewrite lookup_insert_eq in He'. simplify_eq. by right.
    + intros [(e' & He' & _)|[_ Hy]]; [unfold n in He'; congruence|]. exists e. unfold added. by rewrite lookup_insert_eq.
  - split.
    + intros (a' & Ha' & Hy). destruct (added_old x a' Hx Ha') as (a & Ha & _ & _ & Hp & _).
      left. exists a. by rewrite <- Hp.
    + intros [(a & Ha & Hy)|[-> _]]; [|done].
      destruct (added !! x) as [a'|] eqn:Ha'; [|apply eq_None_not_Some in Ha'; destruct Ha'; apply added_is_Some; right; by exists a].
      destruct (added_old x a' Hx Ha') as (a0 & Ha0 & _ & _ & Hp & _). exists a'. split; [done|]. rewrite Hp. congruence.
Qed.

Lemma n_no_edges y : ~ parent_edge m n y /\ ~ parent_edge m y n.
Proof.
  assert (~ is_Some (m !! n)) by (apply eq_None_not_Some; exact Hnew).
  split; intros Hy; apply (parent_edge_in m Hinv) in Hy as [??]; done.
Qed.

Lemma n_not_parent : n ∉ parents e.
Proof. rewrite Hparents. intros [_ Hn]. unfold n in Hn. rewrite Hnew in Hn. by destruct Hn. Qed.

Lemma added_tc x y : tc (parent_edge added) x y <-> tc (parent_edge m) x y \/ (x = n /\ y ∈ A).
Proof.
  rewrite (tc_add_leaf (parent_edge m) (parent_edge added) n (fun p => p ∈ parents e)).
  - by rewrite (HA y).
  - intros u v. apply added_edge.
  - intros v. apply n_no_edges.
  - intros u. apply n_no_edges.
  - apply n_not_parent.
Qed.

Lemma ancestors_in y : y ∈ A -> is_Some (m !! y).
Proof.
  intros (a & Ha & Hr)%HA. apply rtc_iff_tc in Hr as [<-|Ht]; [by apply Hparents|].
  by apply (tc_in m Hinv) in Ht as [_ ?].
Qed.

Lemma n_not_ancestor : n ∉ A.
Proof. intros Hn%ancestors_in. unfold n in Hn. rewrite Hnew in Hn. by destruct Hn. Qed.

Lemma added_weights k : k <> n -> fee_of added k = fee_of m k /\ size_of added k = size_of m k.
Proof.
  intros Hk. unfold fee_of, size_of. destruct (added !! k) as [a'|] eqn:Ha'.
  - destruct (added_old k a' Hk Ha') as (a & Ha & Hent & Hfee & _). unfold size. by rewrite Ha, Hfee, Hent.
  - destruct (m !! k) eqn:Hm; [|done]. apply eq_None_not_Some in Ha'. destruct Ha'. apply added_is_Some. right. by eexists.
Qed.

Lemma added_weights_new : fee_of added n = ival (fee e) /\ size_of added n = ival (size e).
Proof. unfold fee_of, size_of, added. by rewrite lookup_insert_eq. Qed.

Lemma added_sums X a count fees sz : n ∉ X -> sums m X a count fees sz -> sums added X a count fees sz.
Proof.
  intros HX [Hc Hf Hs]. split; [done| |].
  - rewrite Hf. f_equal. apply sum_over_ext. intros k Hk. symmetry. apply added_weights. by intros ->.
  - rewrite Hs. f_equal. apply sum_over_ext. intros k Hk. symmetry. apply added_weights. by intros ->.
Qed.

Lemma added_dom : dom added = {[n]} ∪ dom m.
Proof. apply set_eq. intros k. rewrite elem_of_union, elem_of_singleton, !elem_of_dom. apply added_is_Some. Qed.

Lemma added_totals : total_fees added = ival (fee e) + total_fees m /\ total_size added = ival (size e) + total_size m.
Proof.
  unfold total_fees, total_size. rewrite added_dom, !sum_over_insert by (rewrite not_elem_of_dom; exact Hnew).
  destruct added_weights_new as [-> ->].
  split; f_equal; apply sum_over_ext; intros k [a Ha]%elem_of_dom; apply added_weights; intros ->; unfold n in Ha; congruence.
Qed.

Lemma add_descendant_runs k a : k ∈ A -> m !! k = Some a -> forall cs, exists count fees sz,
  add_descendant e (with_children (fun _ => cs) a) = (with_descendants_state count fees sz (with_children (fun _ => cs) a), Ok tt) /\
  ival count = ival (count_with_descendants a) + 1 /\ ival fees = ival (fees_with_descendants a) + ival (fee e) /\
  ival sz = ival (size_with_descendants a) + ival (size e).
Proof.
  intros Hk Ha cs. destruct (descendants_le m Hinv k a Ha) as (Hf & Hs & Hc).
  destruct added_totals as [Htf Hts]. destruct Hfits as [Hff Hfs]. unfold add_descendant. cbn.
  pose proof (bint_range (fees_with_descendants a)). pose proof (bint_range (fee e)). pose proof (bint_range (size e)).
  pose proof (bint_range (size_with_descendants a)). pose proof (bint_range (count_with_descendants a)).
  destruct (bint_of_Z_is_Some (lo := 0) (hi := u128_MAX) (ival (fees_with_descendants a) + ival (fee e))) as (f & Hfe & Hfv); [lia|].
  unfold Amount.add. rewrite Hfe. unfold nz_checked_add, nz_get.
  destruct (bint_of_Z_is_Some (lo := 0) (hi := 2 ^ 64 - 1) (ival (size_with_descendants a))) as (z0 & Hz0 & Hz0v); [lia|].
  rewrite Hz0. cbn.
  destruct (bint_of_Z_is_Some (lo := 1) (hi := 2 ^ 64 - 1) (ival (size e) + ival z0)) as (z & Hz & Hzv); [lia|].
  destruct (bint_of_Z_is_Some (lo := 0) (hi := 2 ^ 64 - 1) (ival (count_with_descendants a) + 1)) as (c & Hce & Hcv); [lia|].
  rewrite Hz, Hce. exists c, f, z. split_and!; [done|lia|lia|lia].
Qed.

Lemma if_children k a : exists cs, (if decide (k ∈ parents e) then with_children (union {[n]}) a else a) = with_children (fun _ => cs) a.
Proof. case_decide; [by exists ({[n]} ∪ children a)|exists (children a); by destruct a]. Qed.

Lemma added_inv : entries_inv added.
Proof.
  split.
  - intros x a'. destruct (decide (x = n)) as [->|Hx].
    + unfold added. rewrite lookup_insert_eq. by intros [= <-].
    + intros (a & Ha & Hent & _)%added_old; [|done]. unfold tx_id. rewrite Hent. by apply (inv_id m Hinv).
  - intros x a' y Ha'. rewrite added_is_Some. destruct (decide (x = n)) as [->|Hx].
    + unfold added in Ha'. rewrite lookup_insert_eq in Ha'. injection Ha' as <-. rewrite Hparents.
      split; [naive_solver|]. intros (Hy & [->|?]); done.
    + destruct (added_old x a' Hx Ha') as (a & Ha & Hent & _ & -> & _). unfold sources. rewrite Hent.
      rewrite (inv_parents m Hinv x a y Ha). split; [naive_solver|]. intros (Hy & [->|?]); [|done].
      by apply (Hleaf x a) in Hy.
  - intros x a' y Ha'. rewrite added_edge. destruct (decide (x = n)) as [->|Hx].
    + unfold added in Ha'. rewrite lookup_insert_eq in Ha'. injection Ha' as <-. rewrite Hchildren.
      split; [set_solver|]. intros [Hy|[-> Hy]]; [by apply n_no_edges in Hy|by apply n_not_parent in Hy].
    + destruct (added_old x a' Hx Ha') as (a & Ha & _ & _ & _ & -> & _). rewrite <- (inv_children m Hinv x a y Ha).
      case_decide; set_solver.
  - destruct (inv_rank m Hinv) as [rank Hrank].
    exists (fun x => if decide (x = n) then 1 + sum_over (dom m) (fun k => Z.abs (rank k)) else rank x).
    intros x y [Hxy|[-> Hy]]%added_edge.
    + rewrite !decide_False; [by apply Hrank|intros ->; by apply n_no_edges in Hxy|intros ->; by apply n_no_edges in Hxy].
    + destruct (decide (y = n)) as [->|_]; [by apply n_not_parent in Hy|]. rewrite decide_True by done.
      apply Hparents in Hy as [_ Hy%elem_of_dom].
      pose proof (sum_over_member (dom m) (fun k => Z.abs (rank k)) y ltac:(intros; lia) Hy). cbn in *. lia.
  - intros x a' Ha'. destruct (decide (x = n)) as [->|Hx].
    + unfold added in Ha'. rewrite lookup_insert_eq in Ha'. injection Ha' as <-. exists A. split.
      * intros y. rewrite added_tc. split; [by right|]. intros [Hy|[_ Hy]]; [|done].
        apply (tc_in m Hinv) in Hy as [Hn _]. unfold n in Hn. rewrite Hnew in Hn. by destruct Hn.
      * apply added_sums; [apply n_not_ancestor|done].
    + destruct (added_old x a' Hx Ha') as (a & Ha & Hent & Hfee & _ & _ & -> & -> & -> & _).
      destruct (inv_ancestors m Hinv x a Ha) as (X & HX & Hsums). exists X. split.
      * intros y. rewrite added_tc, (HX y). naive_solver.
      * assert (n ∉ X) as HnX. { intros Hy%HX%(tc_in m Hinv). unfold n in Hy. rewrite Hnew in Hy. by destruct Hy as [_ []]. }
        destruct (added_sums X a _ _ _ HnX Hsums) as [Hc Hf Hs]. split; [done|by rewrite Hfee|]. unfold size. by rewrite Hent.
  - intros x a' Ha'. destruct (decide (x = n)) as [->|Hx].
    + unfold added in Ha'. rewrite lookup_insert_eq in Ha'. injection Ha' as <-. exists ∅. split.
      * intros y. rewrite added_tc. split; [set_solver|]. intros [Hy|[_ Hy]]; [|by apply n_not_ancestor in Hy].
        apply (tc_in m Hinv) in Hy as [_ Hn]. unfold n in Hn. rewrite Hnew in Hn. by destruct Hn.
      * by apply added_sums.
    + destruct (added_old x a' Hx Ha') as (a & Ha & Hent & Hfee & _ & _ & _ & _ & _ & Hout & Hin).
      destruct (inv_descendants m Hinv x a Ha) as (X & HX & Hsums).
      assert (n ∉ X) as HnX. { intros Hy%HX%(tc_in m Hinv). unfold n in Hy. rewrite Hnew in Hy. by destruct Hy as [[] _]. }
      destruct (added_sums X a _ _ _ HnX Hsums) as [Hc Hf Hs]. destruct (decide (x ∈ A)) as [HxA|HxA].
      * exists ({[n]} ∪ X). split.
        { intros y. rewrite added_tc, elem_of_union, elem_of_singleton, (HX y). naive_solver. }
        destruct (if_children x a) as [cs Hcs]. specialize (Hin HxA). rewrite Hcs in Hin.
        destruct (add_descendant_runs x a HxA Ha cs) as (c & f & z & Hrun & Hcv & Hfv & Hzv).
        rewrite Hrun in Hin. cbn in Hin. subst a'. destruct added_weights_new as [Hwf Hws].
        split; cbn; unfold size; cbn; fold (size a).
        -- rewrite size_union, size_singleton by set_solver. lia.
        -- rewrite sum_over_insert, Hwf by done. lia.
        -- rewrite sum_over_insert, Hws by done. lia.
      * exists X. destruct (Hout HxA) as (-> & -> & ->). split.
        { intros y. rewrite added_tc, (HX y). naive_solver. }
        split; [done|by rewrite Hfee|]. unfold size. by rewrite Hent.
Qed.
End add.

(** ** Removing a leaf or a root *)

Section remove.
Context (m : gmap TxId TxMempoolEntry) (Hinv : entries_inv m).
Context (n : TxId) (e : TxMempoolEntry) (He : m !! n = Some e).
Context (A D : gset TxId) (HA : is_set A (tc (parent_edge m) n)) (HD : is_set D (fun y => tc (parent_edge m) y n)).
(** The entries whose sums over ancestors are updated. *)
Context (D' : gset TxId) (HD' : D' ⊆ D).

Definition uncounted : gmap TxId TxMempoolEntry :=
  alter_set D' (fun a => (drop_ancestor (E := Empty_set) e a).1)
    (alter_set A (fun a => (drop_descendant (E := Empty_set) e a).1) (delete n m)).
Definition removed : gmap TxId TxMempoolEntry :=
  alter_set (children e) (with_parents (fun p => p ∖ {[tx_id e]}))
    (alter_set (parents e) (with_children (fun c => c ∖ {[tx_id e]})) uncounted).

(** A sum that includes the removed entry is at least what is taken from it. *)
Lemma sums_drop X a count fees sz : n ∈ X -> sums m X a count fees sz ->
  ival count - 1 = 1 + Z.of_nat (base.size (X ∖ {[n]})) /\
  ival fees - ival (fee e) = ival (fee a) + sum_over (X ∖ {[n]}) (fee_of m) /\
  ival sz - ival (size e) = ival (size a) + sum_over (X ∖ {[n]}) (size_of m).
Proof.
  intros Hn [Hc Hf Hs]. rewrite (sum_over_split X _ n Hn) in Hf. rewrite (sum_over_split X _ n Hn) in Hs. unfold fee_of at 1 in Hf. unfold size_of at 1 in Hs.
  rewrite He in Hf, Hs. split_and!; [|lia|lia].
  rewrite Hc. rewrite (union_difference_singleton_L n X Hn) at 1. rewrite size_union, size_singleton by set_solver. lia.
Qed.

Lemma sum_nonneg X : 0 <= sum_over X (fee_of m) /\ 0 <= sum_over X (size_of m).
Proof. split; apply sum_over_nonneg; [apply fee_of_nonneg|apply size_of_nonneg]. Qed.

Lemma drop_descendant_runs {E} k a : k ∈ A -> m !! k = Some a -> exists count fees sz,
  drop_descendant (E := E) e a = (with_descendants_state count fees sz a, Ok tt) /\
  ival count = ival (count_with_descendants a) - 1 /\ ival fees = ival (fees_with_descendants a) - ival (fee e) /\
  ival sz = ival (size_with_descendants a) - ival (size e).
Proof.
  intros Hk%HA Ha. destruct (inv_descendants m Hinv k a Ha) as (X & HX & Hsums).
  destruct (sums_drop X a _ _ _ (proj2 (HX n) Hk) Hsums) as (Hc & Hf & Hs). destruct (sum_nonneg (X ∖ {[n]})) as [Hnf Hns].
  unfold drop_descendant. pose proof (bint_range (fee a)). pose proof (bint_range (size a)). pose proof (bint_range (fee e)).
  pose proof (bint_range (size e)). pose proof (bint_range (fees_with_descendants a)). pose proof (bint_range (size_with_descendants a)).
  pose proof (bint_range (count_with_descendants a)). unfold Amount.sub.
  destruct (bint_of_Z_is_Some (lo := 0) (hi := u128_MAX) (ival (fees_with_descendants a) - ival (fee e))) as (f & Hfe & Hfv); [lia|].
  destruct (bint_of_Z_is_Some (lo := 1) (hi := 2 ^ 64 - 1) (ival (size_with_descendants a) - ival (size e))) as (z & Hz & Hzv); [lia|].
  destruct (bint_of_Z_is_Some (lo := 0) (hi := 2 ^ 64 - 1) (ival (count_with_descendants a) - 1)) as (c & Hce & Hcv); [lia|].
  rewrite Hfe, Hz, Hce. by exists c, f, z.
Qed.

Lemma drop_ancestor_runs {E} k a a1 : k ∈ D -> m !! k = Some a -> fees_with_ancestors a1 = fees_with_ancestors a ->
  size_with_ancestors a1 = size_with_ancestors a -> count_with_ancestors a1 = count_with_ancestors a ->
  exists count fees sz, drop_ancestor (E := E) e a1 = (with_ancestors_state count fees sz a1, Ok tt) /\
    ival count = ival (count_with_ancestors a) - 1 /\ ival fees = ival (fees_with_ancestors a) - ival (fee e) /\
    ival sz = ival (size_with_ancestors a) - ival (size e).
Proof.
  intros Hk%HD Ha Heqf Heqs Heqc. destruct (inv_ancestors m Hinv k a Ha) as (X & HX & Hsums).
  destruct (sums_drop X a _ _ _ (proj2 (HX n) Hk) Hsums) as (Hc & Hf & Hs). destruct (sum_nonneg (X ∖ {[n]})) as [Hnf Hns].
  unfold drop_ancestor. rewrite Heqf, Heqs, Heqc.
  pose proof (bint_range (fee a)). pose proof (bint_range (size a)). pose proof (bint_range (fee e)).
  pose proof (bint_range (size e)). pose proof (bint_range (fees_with_ancestors a)). pose proof (bint_range (size_with_ancestors a)).
  pose proof (bint_range (count_with_ancestors a)). unfold Amount.sub.
  destruct (bint_of_Z_is_Some (lo := 0) (hi := u128_MAX) (ival (fees_with_ancestors a) - ival (fee e))) as (f & Hfe & Hfv); [lia|].
  destruct (bint_of_Z_is_Some (lo := 1) (hi := 2 ^ 64 - 1) (ival (size_with_ancestors a) - ival (size e))) as (z & Hz & Hzv); [lia|].
  destruct (bint_of_Z_is_Some (lo := 0) (hi := 2 ^ 64 - 1) (ival (count_with_ancestors a) - 1)) as (c & Hce & Hcv); [lia|].
  rewrite Hfe, Hz, Hce. by exists c, f, z.
Qed.

(** What is left of an entry. *)
Definition descendants_state a := (count_with_descendants a, fees_with_descendants a, size_with_descendants a).
Definition ancestors_state a := (count_with_ancestors a, fees_with_ancestors a, size_with_ancestors a).
(** One state is another less the removed entry. *)
Definition less (st st0 : usize * Fee * NonZeroUsize) : Prop :=
  ival st.1.1 = ival st0.1.1 - 1 /\ ival st.1.2 = ival st0.1.2 - ival (fee e) /\ ival st.2 = ival st0.2 - ival (size e).

Lemma uncounted_old k : k <> n -> forall a, m !! k = Some a -> exists a', uncounted !! k = Some a' /\
  entry a' = entry a /\ fee a' = fee a /\ parents a' = parents a /\ children a' = children a /\
  (k ∉ D' -> ancestors_state a' = ancestors_state a) /\ (k ∈ D' -> less (ancestors_state a') (ancestors_state a)) /\
  (k ∉ A -> descendants_state a' = descendants_state a) /\ (k ∈ A -> less (descendants_state a') (descendants_state a)).
Proof.
  intros Hk a Ha. unfold uncounted. rewrite !lookup_alter_set, lookup_delete_ne, Ha by done. cbn [fmap option_fmap option_map].
  eexists. split; [done|]. destruct (decide (k ∈ A)) as [HkA|HkA].
  - destruct (drop_descendant_runs (E := Empty_set) k a HkA Ha) as (c & f & z & -> & Hc & Hf & Hz). cbn [fst].
    destruct (decide (k ∈ D')) as [HkD|HkD]; [|by repeat split].
    destruct (drop_ancestor_runs (E := Empty_set) k a (with_descendants_state c f z a)) as (c' & f' & z' & -> & Hc' & Hf' & Hz');
      [by apply HD'|done|done|done|done|]. by repeat split.
  - destruct (decide (k ∈ D')) as [HkD|HkD]; [|by repeat split].
    destruct (drop_ancestor_runs (E := Empty_set) k a a) as (c' & f' & z' & -> & Hc' & Hf' & Hz');
      [by apply HD'|done|done|done|done|]. by repeat split.
Qed.

Lemma edge_n k a : m !! k = Some a -> (k ∈ children e <-> n ∈ parents a) /\ (k ∈ parents e <-> n ∈ children a).
Proof.
  intros Ha. split.
  - rewrite (inv_children m Hinv n e k He). split; [|by exists a]. intros (a' & Ha' & Hn). by simplify_eq.
  - rewrite (inv_children m Hinv k a n Ha). split; [by exists e|]. intros (e' & He' & Hn). by simplify_eq.
Qed.

Lemma removed_old k : k <> n -> forall a, m !! k = Some a -> exists a', removed !! k = Some a' /\
  entry a' = entry a /\ fee a' = fee a /\ parents a' = parents a ∖ {[n]} /\ children a' = children a ∖ {[n]} /\
  (k ∉ D' -> ancestors_state a' = ancestors_state a) /\ (k ∈ D' -> less (ancestors_state a') (ancestors_state a)) /\
  (k ∉ A -> descendants_state a' = descendants_state a) /\ (k ∈ A -> less (descendants_state a') (descendants_state a)).
Proof.
  intros Hk a Ha. destruct (uncounted_old k Hk a Ha) as (u & Hu & Hent & Hfee & Hp & Hc & Hst).
  unfold removed. rewrite !lookup_alter_set, Hu, (inv_id m Hinv n e He). cbn [fmap option_fmap option_map].
  eexists. split; [done|]. destruct (edge_n k a Ha) as [Hcn Hpn].
  destruct (decide (k ∈ parents e)) as [HkP|HkP], (decide (k ∈ children e)) as [HkC|HkC]; cbn;
    (split_and!; try done; try (by rewrite Hp); try (by rewrite Hc); try apply Hst);
    first [rewrite Hp|rewrite Hc]; set_solver.
Qed.

Lemma removed_n : removed !! n = None.
Proof. unfold removed, uncounted. by rewrite !lookup_alter_set, lookup_delete_eq. Qed.

Lemma removed_inv_old k a' : removed !! k = Some a' -> k <> n /\ is_Some (m !! k).
Proof.
  intros Ha'. assert (k <> n) as Hk by (intros ->; by rewrite removed_n in Ha'). split; [done|].
  destruct (m !! k) as [a|] eqn:Ha; [by eexists|].
  unfold removed, uncounted in Ha'. by rewrite !lookup_alter_set, lookup_delete_ne, Ha in Ha'.
Qed.

Lemma removed_is_Some k : is_Some (removed !! k) <-> k <> n /\ is_Some (m !! k).
Proof.
  split; [intros [a' Ha']; by eapply removed_inv_old|]. intros [Hk [a Ha]].
  destruct (removed_old k Hk a Ha) as (a' & -> & _). by eexists.
Qed.

Lemma removed_edge x y : parent_edge removed x y <-> parent_edge m x y /\ x <> n /\ y <> n.
Proof.
  split.
  - intros (a' & Ha' & Hy). destruct (removed_inv_old x a' Ha') as [Hx [a Ha]].
    destruct (removed_old x Hx a Ha) as (a'' & Ha'' & _ & _ & Hp & _). simplify_eq. rewrite Hp in Hy.
    split_and!; [exists a; set_solver|done|set_solver].
  - intros ((a & Ha & Hy) & Hx & Hyn). destruct (removed_old x Hx a Ha) as (a' & Ha' & _ & _ & Hp & _).
    exists a'. split; [done|]. rewrite Hp. set_solver.
Qed.

Lemma removed_weights k : k <> n -> fee_of removed k = fee_of m k /\ size_of removed k = size_of m k.
Proof.
  intros Hk. unfold fee_of, size_of. destruct (m !! k) as [a|] eqn:Ha.
  - destruct (removed_old k Hk a Ha) as (a' & -> & Hent & Hfee & _). unfold size. by rewrite Hfee, Hent.
  - destruct (removed !! k) eqn:Hr; [|done]. apply removed_inv_old in Hr as [_ [? ?]]. congruence.
Qed.

(** The removed entry is a leaf, or a root and its descendants are updated. *)
Context (Hend : children e = ∅ \/ (parents e = ∅ /\ D' = D)).

Lemma removed_tc x y : tc (parent_edge removed) x y <-> tc (parent_edge m) x y /\ x <> n /\ y <> n.
Proof.
  apply tc_remove; [apply removed_edge|]. destruct Hend as [Hc|[Hp _]]; [left|right].
  - intros u Hu. assert (u ∈ children e) by (by apply (inv_children m Hinv n e u He)). set_solver.
  - intros v (e' & He' & Hv). simplify_eq. set_solver.
Qed.

(** The entries that had the removed one as an ancestor are those updated. *)
Lemma updated_iff k : is_Some (m !! k) -> tc (parent_edge m) k n <-> k ∈ D'.
Proof.
  intros _. destruct Hend as [Hc|[_ ->]]; [|symmetry; apply HD].
  assert (forall x, ~ tc (parent_edge m) x n) as Hno.
  { intros x Hx. apply (tc_child m Hinv), tc_iff_rtc in Hx as (z & (e' & He' & Hz) & _). simplify_eq. set_solver. }
  split; [by intros ?%Hno|]. intros Hk%HD'%HD. done.
Qed.

Lemma removed_sums X a a' st st' : entry a' = entry a -> fee a' = fee a ->
  sums m X a st.1.1 st.1.2 st.2 -> (n ∈ X -> less st' st) -> (n ∉ X -> st' = st) ->
  sums removed (X ∖ {[n]}) a' st'.1.1 st'.1.2 st'.2.
Proof.
  intros Hent Hfee Hsums Hin Hout.
  assert (sum_over (X ∖ {[n]}) (fee_of removed) = sum_over (X ∖ {[n]}) (fee_of m)) as Hwf.
  { apply sum_over_ext. intros k Hk. apply removed_weights. set_solver. }
  assert (sum_over (X ∖ {[n]}) (size_of removed) = sum_over (X ∖ {[n]}) (size_of m)) as Hws.
  { apply sum_over_ext. intros k Hk. apply removed_weights. set_solver. }
  assert (size a' = size a) as Hsz by (unfold size; by rewrite Hent).
  destruct (decide (n ∈ X)) as [HnX|HnX].
  - destruct (sums_drop X a _ _ _ HnX Hsums) as (Hc & Hf & Hs). destruct (Hin HnX) as (Hc' & Hf' & Hs').
    split; [lia|rewrite Hwf, Hfee; lia|rewrite Hws, Hsz; lia].
  - rewrite (Hout HnX). replace (X ∖ {[n]}) with X in * by set_solver. destruct Hsums as [Hc Hf Hs].
    split; [done|rewrite Hwf, Hfee; lia|rewrite Hws, Hsz; lia].
Qed.

Lemma removed_inv : entries_inv removed.
Proof.
  assert (forall k a', removed !! k = Some a' -> exists a, k <> n /\ m !! k = Some a) as Hback.
  { intros k a' [Hk [a Ha]]%removed_inv_old. by exists a. }
  split.
  - intros x a' Ha'. destruct (Hback x a' Ha') as (a & Hx & Ha).
    destruct (removed_old x Hx a Ha) as (a'' & Ha'' & Hent & _). simplify_eq.
    unfold tx_id. rewrite Hent. by apply (inv_id m Hinv).
  - intros x a' y Ha'. destruct (Hback x a' Ha') as (a & Hx & Ha).
    destruct (removed_old x Hx a Ha) as (a'' & Ha'' & Hent & _ & Hp & _). simplify_eq. rewrite Hp.
    rewrite elem_of_difference, elem_of_singleton, (inv_parents m Hinv x a y Ha), removed_is_Some.
    unfold sources. rewrite Hent. naive_solver.
  - intros x a' y Ha'. destruct (Hback x a' Ha') as (a & Hx & Ha).
    destruct (removed_old x Hx a Ha) as (a'' & Ha'' & _ & _ & _ & Hc & _). simplify_eq. rewrite Hc.
    rewrite elem_of_difference, elem_of_singleton, (inv_children m Hinv x a y Ha), removed_edge. naive_solver.
  - destruct (inv_rank m Hinv) as [rank Hrank]. exists rank. intros x y [Hxy _]%removed_edge. by apply Hrank.
  - intros x a' Ha'. destruct (Hback x a' Ha') as (a & Hx & Ha).
    destruct (removed_old x Hx a Ha) as (a'' & Ha'' & Hent & Hfee & _ & _ & Hout & Hin & _). simplify_eq.
    destruct (inv_ancestors m Hinv x a Ha) as (X & HX & Hsums). exists (X ∖ {[n]}). split.
    + intros y. rewrite elem_of_difference, elem_of_singleton, (HX y), removed_tc. naive_solver.
    + apply (removed_sums X a a' (ancestors_state a) (ancestors_state a')); [done|done|done| |].
      * intros Hn%HX. apply Hin, updated_iff; [by exists a|done].
      * intros Hn. apply Hout. intros Hk%updated_iff; [by apply HX in Hk|by exists a].
  - intros x a' Ha'. destruct (Hback x a' Ha') as (a & Hx & Ha).
    destruct (removed_old x Hx a Ha) as (a'' & Ha'' & Hent & Hfee & _ & _ & _ & _ & Hout & Hin). simplify_eq.
    destruct (inv_descendants m Hinv x a Ha) as (X & HX & Hsums). exists (X ∖ {[n]}). split.
    + intros y. rewrite elem_of_difference, elem_of_singleton, (HX y), removed_tc. naive_solver.
    + apply (removed_sums X a a' (descendants_state a) (descendants_state a')); [done|done|done| |].
      * intros Hn%HX. by apply Hin, HA.
      * intros Hn. apply Hout. intros Hk%HA. by apply Hn, HX.
Qed.

Lemma removed_dom : dom removed = dom m ∖ {[n]}.
Proof. apply set_eq. intros k. rewrite elem_of_difference, elem_of_singleton, !elem_of_dom, removed_is_Some. tauto. Qed.

Lemma removed_totals : total_fees removed = total_fees m - ival (fee e) /\ total_size removed = total_size m - ival (size e).
Proof.
  unfold total_fees, total_size. rewrite removed_dom.
  assert (n ∈ dom m) as Hn by (apply elem_of_dom; by exists e).
  rewrite (sum_over_split (dom m) (fee_of m) n Hn), (sum_over_split (dom m) (size_of m) n Hn).
  unfold fee_of at 2, size_of at 2. rewrite He.
  rewrite (sum_over_ext _ (fee_of removed) (fee_of m)) by (intros k Hk; apply removed_weights; set_solver).
  rewrite (sum_over_ext _ (size_of removed) (size_of m)) by (intros k Hk; apply removed_weights; set_solver). lia.
Qed.

Lemma removed_fits : fits m -> fits removed.
Proof.
  intros [Hf Hs]. destruct removed_totals as [Htf Hts]. split; [|rewrite Hts; pose proof (bint_range (size e)); lia].
  rewrite Htf. pose proof (bint_range (fee e)). lia.
Qed.
End remove.
End invariant.
