(* ===== verification/MempoolOps.v ===== *)
(** * Operations of the mempool's store

    The invariant of the whole store, with its indices, and what
    [add_transaction], [remove_tx], [drop_tx_and_descendants] and
    [into_transactions] do to a store that satisfies it. *)
From S2P Require Import Prelude Amount ChainTypes ChainConfig Utxo TxTypes CheckTransaction.
From S2P Require Import Traversal MempoolEntry MempoolStore MempoolGraph MempoolInvariant.

Section operations.
Context `{CryptoTypes}.
Implicit Types (s : MempoolStore) (e : TxMempoolEntry) (m : gmap TxId TxMempoolEntry) (A P X : gset TxId).

(** ** The invariant *)

Record store_inv s : Prop := {
  st_entries : entries_inv (txs_by_id s);
  st_fits : fits (txs_by_id s);
  st_descendant_score : forall sc x, (sc, x) ∈ txs_by_descendant_score s <->
    exists e, txs_by_id s !! x = Some e /\ descendant_score (E := Empty_set) e = Ok sc;
  st_ancestor_score : forall sc x, (sc, x) ∈ txs_by_ancestor_score s <->
    exists e, txs_by_id s !! x = Some e /\ ancestor_score (E := Empty_set) e = Ok sc;
  st_creation_time : forall t x, (t, x) ∈ txs_by_creation_time s <->
    exists e, txs_by_id s !! x = Some e /\ creation_time e = t;
  st_spent : forall d x, spender_txs s !! d = Some x <->
    exists e, txs_by_id s !! x = Some e /\ d ∈ requires (entry e);
  st_requires : forall x e, txs_by_id s !! x = Some e -> NoDup (requires (entry e));
  st_seq : forall k x, txs_by_seq_no s !! k = Some x <-> seq_nos_by_tx s !! x = Some k;
  st_seq_dom : forall x, is_Some (seq_nos_by_tx s !! x) <-> is_Some (txs_by_id s !! x);
  st_seq_next : forall x k, seq_nos_by_tx s !! x = Some k -> ival k < ival (next_seq_no s);
  st_seq_order : forall x y kx ky, parent_edge (txs_by_id s) x y ->
    seq_nos_by_tx s !! x = Some kx -> seq_nos_by_tx s !! y = Some ky -> ival ky < ival kx
}.

(** ** Shared facts *)

(** A score does not depend on the type of errors around it. *)
Lemma descendant_score_any {E F} e sc : descendant_score (E := E) e = Ok sc -> descendant_score (E := F) e = Ok sc.
Proof. unfold descendant_score. destruct (FeeRate.from_total_tx_fee _ _), (FeeRate.from_total_tx_fee _ _); cbn; try done; by intros [= <-]. Qed.
Lemma ancestor_score_any {E F} e sc : ancestor_score (E := E) e = Ok sc -> ancestor_score (E := F) e = Ok sc.
Proof. unfold ancestor_score. destruct (FeeRate.from_total_tx_fee _ _), (FeeRate.from_total_tx_fee _ _); cbn; try done; by intros [= <-]. Qed.

Lemma alter_set_edge X f m x y : (forall e, parents (f e) = parents e) ->
  parent_edge (alter_set X f m) x y <-> parent_edge m x y.
Proof.
  intros Hf. unfold parent_edge. setoid_rewrite lookup_alter_set. split.
  - intros (a' & (a & Ha & ->)%fmap_Some & Hy). exists a. split; [done|]. case_decide; [by rewrite Hf in Hy|done].
  - intros (a & Ha & Hy). rewrite Ha. eexists. split; [done|]. case_decide; [by rewrite Hf|done].
Qed.

Lemma alter_set_child_edge X f m x y : (forall e, children (f e) = children e) ->
  child_edge (alter_set X f m) x y <-> child_edge m x y.
Proof.
  intros Hf. unfold child_edge. setoid_rewrite lookup_alter_set. split.
  - intros (a' & (a & Ha & ->)%fmap_Some & Hy). exists a. split; [done|]. case_decide; [by rewrite Hf in Hy|done].
  - intros (a & Ha & Hy). rewrite Ha. eexists. split; [done|]. case_decide; [by rewrite Hf|done].
Qed.

Lemma alter_set_is_Some X f m x : is_Some (alter_set X f m !! x) <-> is_Some (m !! x).
Proof. by rewrite lookup_alter_set, fmap_is_Some. Qed.

(** The index by score after the entries of [X] were put back. *)
Lemma elem_of_reindexed {E} (score : TxMempoolEntry -> result E FeeRate) m X (ix : gset (FeeRate * TxId)) sc x :
  (sc, x) ∈ (scored score m X ∪ filter (fun p => p.2 ∉ X) ix) <->
  (x ∈ X /\ exists e, m !! x = Some e /\ score e = Ok sc) \/ ((x ∉ X) /\ (sc, x) ∈ ix).
Proof. rewrite elem_of_union, elem_of_scored, elem_of_filter. cbn. tauto. Qed.

Lemma descendant_score_ext {E} a a' : fees_with_descendants a = fees_with_descendants a' ->
  size_with_descendants a = size_with_descendants a' -> fee a = fee a' -> entry a = entry a' ->
  descendant_score (E := E) a = descendant_score a'.
Proof. intros H1 H2 H3 H4. unfold descendant_score, size. by rewrite H1, H2, H3, H4. Qed.
Lemma ancestor_score_ext {E} a a' : fees_with_ancestors a = fees_with_ancestors a' ->
  size_with_ancestors a = size_with_ancestors a' -> fee a = fee a' -> entry a = entry a' ->
  ancestor_score (E := E) a = ancestor_score a'.
Proof. intros H1 H2 H3 H4. unfold ancestor_score, size. by rewrite H1, H2, H3, H4. Qed.

Lemma lookup_mark (M : gmap TxDependency TxId) (n : TxId) deps d :
  foldl (fun mm dep => <[dep := n]> mm) M deps !! d = if decide (d ∈ deps) then Some n else M !! d.
Proof.
  revert M. induction deps as [|d' deps IH]; intros M; cbn [foldl].
  - rewrite decide_False; [done|]. apply not_elem_of_nil.
  - rewrite IH. destruct (decide (d = d')) as [->|Hne].
    + rewrite lookup_insert_eq. repeat case_decide; first [done|set_solver].
    + rewrite lookup_insert_ne by done. apply decide_ext. set_solver.
Qed.

(** ** Adding *)

Section add.
Context (s : MempoolStore) (Hinv : store_inv s) (e : TxMempoolEntry) (A : gset TxId).
Let m := txs_by_id s.
Let n := tx_id e.
Context (Hnew : m !! n = None).
Context (Hparents : forall y, y ∈ parents e <-> y ∈ sources e /\ is_Some (m !! y)).
Context (Hleaf : forall x e', m !! x = Some e' -> n ∉ sources e') (Hself : n ∉ sources e).
Context (Hchildren : children e = ∅).
Context (HA : is_set A (reach_from (parent_edge m) (parents e))).
Context (Hanc : sums m A e (count_with_ancestors e) (fees_with_ancestors e) (size_with_ancestors e)).
Context (Hdesc : sums m ∅ e (count_with_descendants e) (fees_with_descendants e) (size_with_descendants e)).
Context (Hfits : fits (added m e A)).
Context (Hdeps : NoDup (requires (entry e))) (Hfree : forall d, d ∈ requires (entry e) -> spender_txs s !! d = None).
Context (Hroom : ival (next_seq_no s) + 1 < 2 ^ 64).

Let Hm : entries_inv m := st_entries s Hinv.

Lemma added_entries : entries_inv (added m e A).
Proof. by apply added_inv. Qed.

(** The search finds the same ancestors while the entries are updated. *)
Lemma ancestors_while_adding {E} s' : (forall x y, parent_edge (txs_by_id s') x y <-> parent_edge m x y) ->
  (forall x, is_Some (txs_by_id s' !! x) <-> is_Some (m !! x)) -> unconfirmed_ancestors (E := E) e s' = Ok A.
Proof.
  intros Hedge Hdom. apply (ancestors_found e s' A (parent_edge m)).
  - intros x Hx. by apply Hdom, (ancestors_in m Hm e A Hparents HA).
  - intros x y _. apply Hedge.
  - done.
Qed.

Lemma linked_edge x y : parent_edge (linked m e) x y <-> parent_edge m x y.
Proof. unfold linked. by apply alter_set_edge. Qed.
Lemma counted_edge x y : parent_edge (counted m e A) x y <-> parent_edge m x y.
Proof.
  unfold counted. rewrite alter_set_edge; [apply linked_edge|]. intros a.
  by destruct (add_descendant_static e a) as (_ & _ & -> & _).
Qed.
Lemma counted_is_Some x : is_Some (counted m e A !! x) <-> is_Some (m !! x).
Proof. unfold counted, linked. by rewrite !alter_set_is_Some. Qed.

Lemma ancestors_update k : k ∈ A -> exists a, linked m e !! k = Some a /\ (add_descendant e a).2 = Ok tt.
Proof.
  intros Hk. destruct (ancestors_in m Hm e A Hparents HA k Hk) as [a Ha].
  destruct (if_children e k a) as [cs Hcs].
  destruct (add_descendant_runs m Hm e A Hnew Hfits k a Hk Ha cs) as (c & f & z & Hrun & _).
  unfold linked. rewrite lookup_alter_set, Ha. eexists. split; [done|]. cbn. rewrite Hcs. by rewrite Hrun.
Qed.

(** The store after the addition. *)
Definition indexed next : MempoolStore :=
  mk_store (added m e A)
    ({[(default Amount.ZERO (match descendant_score (E := Empty_set) e with Ok sc => Some sc | _ => None end), n)]} ∪
     (scored (descendant_score (E := Empty_set)) (counted m e A) A ∪ filter (fun p => p.2 ∉ A) (txs_by_descendant_score s)))
    ({[(default Amount.ZERO (match ancestor_score (E := Empty_set) e with Ok sc => Some sc | _ => None end), n)]} ∪
     txs_by_ancestor_score s)
    ({[(creation_time e, n)]} ∪ txs_by_creation_time s)
    (foldl (fun mm dep => <[dep := n]> mm) (spender_txs s) (requires (entry e)))
    (<[next_seq_no s := n]> (txs_by_seq_no s)) (<[n := next_seq_no s]> (seq_nos_by_tx s)) next.

Lemma scored_any {E F} X : scored (E := E) descendant_score (counted m e A) X = scored (E := F) descendant_score (counted m e A) X.
Proof.
  apply set_eq. intros [sc x]. rewrite !elem_of_scored.
  split; intros (Hx & a & Ha & Hsc); (split; [done|]); exists a; (split; [done|]); by eapply descendant_score_any.
Qed.

Lemma counted_score k : k ∈ A -> exists a sc, counted m e A !! k = Some a /\ descendant_score (E := MempoolPolicyError) a = Ok sc.
Proof.
  intros Hk. destruct (ancestors_in m Hm e A Hparents HA k Hk) as [a Ha].
  destruct (proj2 (counted_is_Some k)) as [a' Ha']; [by exists a|]. exists a'.
  destruct (descendant_score_runs (E := MempoolPolicyError) (added m e A) added_entries k a' Hfits) as [sc Hsc].
  { unfold added. rewrite lookup_insert_ne; [done|]. intros <-. unfold n in Hnew. congruence. }
  by exists sc.
Qed.

Lemma add_tx_entry_run : exists next, ival next = ival (next_seq_no s) + 1 /\ add_tx_entry e s = (indexed next, Ok tt).
Proof.
  assert (added m e A !! n = Some e) as Hn by (unfold added; apply lookup_insert_eq).
  destruct (bint_of_Z_is_Some (lo := 0) (hi := 2 ^ 64 - 1) (ival (next_seq_no s) + 1)) as (next & Hnext & Hnv).
  { pose proof (bint_range (next_seq_no s)). lia. }
  destruct (descendant_score_runs (E := MempoolPolicyError) _ added_entries n e Hfits Hn) as [ds Hds].
  destruct (ancestor_score_runs (E := MempoolPolicyError) _ added_entries n e Hfits Hn) as [an Has].
  exists next. split; [done|]. unfold add_tx_entry, append_to_parents, update_ancestor_state_for_add.
  erewrite st_bind_run by (apply entry_loop_set; intros k [_ [a Ha]]%Hparents; by exists a). cbn [modify fst].
  erewrite st_bind_run; [|erewrite st_bind_run by
    (rewrite gets_run; f_equal; apply ancestors_while_adding; [apply linked_edge|intros x; apply alter_set_is_Some]);
    apply entry_loop_set, ancestors_update].
  unfold mark_outpoints_as_spent. erewrite st_bind_run by done. erewrite st_bind_run by done.
  cbn [next_seq_no with_txs with_spender]. rewrite Hnext. erewrite st_bind_run by done. erewrite st_bind_run by done.
  unfold add_to_descendant_score_index, refresh_ancestors, add_to_ancestor_score_index. rewrite Hds, Has.
  erewrite st_bind_run; [|erewrite st_bind_run by
    (erewrite st_bind_run by (rewrite gets_run; f_equal; apply ancestors_while_adding; [apply counted_edge|apply counted_is_Some]);
     apply reinsert_run; [apply with_descendant_score_setter|apply counted_score]);
    erewrite st_bind_run by done; done].
  erewrite st_bind_run; [|erewrite st_bind_run by done; done].
  erewrite st_bind_run by done. erewrite st_bind_run by done. erewrite st_bind_run by done. erewrite st_bind_run by done.
  assert (counted m e A !! n = None) as Hnc.
  { apply eq_None_not_Some. rewrite counted_is_Some. by apply eq_None_not_Some. }
  cbn. fold m n. change (alter_set A _ _) with (counted m e A). rewrite Hnc. unfold lift. cbn. f_equal.
  unfold indexed. rewrite (descendant_score_any e ds Hds), (ancestor_score_any e an Has), (scored_any (E := Empty_set) (F := MempoolPolicyError)).
  done.
Qed.

Lemma old_not_new x a : m !! x = Some a -> x <> n.
Proof. intros Ha ->. congruence. Qed.

Lemma added_from x a : m !! x = Some a -> exists a', added m e A !! x = Some a' /\ entry a' = entry a.
Proof.
  intros Ha. destruct (added m e A !! x) as [a'|] eqn:Ha'.
  - exists a'. split; [done|]. destruct (added_old m e A x a' (old_not_new x a Ha) Ha') as (a0 & Ha0 & Hent & _). by simplify_eq.
  - apply eq_None_not_Some in Ha'. destruct Ha'. apply added_is_Some. right. by exists a.
Qed.

(** A fact about the static part of the entries, before and after. *)
Lemma added_static (Q : TxEntry TxOrigin -> Prop) x :
  (exists a', added m e A !! x = Some a' /\ Q (entry a')) <->
  (x = n /\ Q (entry e)) \/ (exists a, m !! x = Some a /\ Q (entry a)).
Proof.
  split.
  - intros (a' & Ha' & HQ). destruct (decide (x = n)) as [->|Hx].
    + left. unfold added in Ha'. rewrite lookup_insert_eq in Ha'. by simplify_eq.
    + right. destruct (added_old m e A x a' Hx Ha') as (a & Ha & Hent & _). exists a. by rewrite <- Hent.
  - intros [[-> HQ]|(a & Ha & HQ)].
    + exists e. split; [apply lookup_insert_eq|done].
    + destruct (added_from x a Ha) as (a' & Ha' & Hent). exists a'. by rewrite Hent.
Qed.

Lemma indexed_descendant_score next sc x : (sc, x) ∈ txs_by_descendant_score (indexed next) <->
  exists a, added m e A !! x = Some a /\ descendant_score (E := Empty_set) a = Ok sc.
Proof.
  destruct (descendant_score_runs (E := Empty_set) _ added_entries n e Hfits) as [ds Hds]; [apply lookup_insert_eq|].
  cbn. rewrite Hds. cbn. rewrite elem_of_union, elem_of_singleton, elem_of_reindexed, (st_descendant_score s Hinv). fold m.
  destruct (decide (x = n)) as [->|Hx].
  - unfold added. rewrite lookup_insert_eq. split.
    + intros [[= ->]|[[Hn _]|[_ (a & Ha & _)]]]; [by exists e|by apply (n_not_ancestor m Hm e A Hnew Hparents HA) in Hn|congruence].
    + intros (a & [= <-] & Hsc). left. congruence.
  - destruct (decide (x ∈ A)) as [HxA|HxA].
    + unfold added. rewrite lookup_insert_ne by done. naive_solver.
    + split.
      * intros [[=]|[[? _]|[_ (a & Ha & Hsc)]]]; [done|done|].
        destruct (added_from x a Ha) as (a' & Ha' & _). exists a'. split; [done|].
        destruct (added_old m e A x a' Hx Ha') as (a0 & Ha0 & Hent & Hfee & _ & _ & _ & _ & _ & Hout & _). simplify_eq.
        destruct (Hout HxA) as (_ & Hf & Hs). by rewrite (descendant_score_ext a' a).
      * intros (a' & Ha' & Hsc). right. right. split; [done|].
        destruct (added_old m e A x a' Hx Ha') as (a & Ha & Hent & Hfee & _ & _ & _ & _ & _ & Hout & _).
        exists a. split; [done|]. destruct (Hout HxA) as (_ & Hf & Hs). by rewrite <- (descendant_score_ext a' a).
Qed.

Lemma indexed_ancestor_score next sc x : (sc, x) ∈ txs_by_ancestor_score (indexed next) <->
  exists a, added m e A !! x = Some a /\ ancestor_score (E := Empty_set) a = Ok sc.
Proof.
  destruct (ancestor_score_runs (E := Empty_set) _ added_entries n e Hfits) as [an Han]; [apply lookup_insert_eq|].
  cbn. rewrite Han. cbn. rewrite elem_of_union, elem_of_singleton, (st_ancestor_score s Hinv). fold m.
  destruct (decide (x = n)) as [->|Hx].
  - unfold added. rewrite lookup_insert_eq. split.
    + intros [[= ->]|(a & Ha & _)]; [by exists e|congruence].
    + intros (a & [= <-] & Hsc). left. congruence.
  - split.
    + intros [[=]|(a & Ha & Hsc)]; [done|]. destruct (added_from x a Ha) as (a' & Ha' & _). exists a'. split; [done|].
      destruct (added_old m e A x a' Hx Ha') as (a0 & Ha0 & Hent & Hfee & _ & _ & _ & Hf & Hs & _). simplify_eq.
      by rewrite (ancestor_score_ext a' a).
    + intros (a' & Ha' & Hsc). right.
      destruct (added_old m e A x a' Hx Ha') as (a & Ha & Hent & Hfee & _ & _ & _ & Hf & Hs & _).
      exists a. split; [done|]. by rewrite <- (ancestor_score_ext a' a).
Qed.

Lemma indexed_inv next : ival next = ival (next_seq_no s) + 1 -> store_inv (indexed next).
Proof.
  intros Hnext. assert (seq_nos_by_tx s !! n = None) as Hseqn.
  { apply eq_None_not_Some. rewrite (st_seq_dom s Hinv). by apply eq_None_not_Some. }
  assert (txs_by_seq_no s !! next_seq_no s = None) as Hnextfree.
  { destruct (txs_by_seq_no s !! next_seq_no s) as [x|] eqn:Hx; [|done]. exfalso.
    apply (st_seq s Hinv), (st_seq_next s Hinv) in Hx. lia. }
  split.
  - apply added_entries.
  - exact Hfits.
  - apply indexed_descendant_score.
  - apply indexed_ancestor_score.
  - intros t x. cbn. rewrite elem_of_union, elem_of_singleton, (st_creation_time s Hinv). fold m.
    unfold creation_time at 3. rewrite (added_static (fun a => te_creation_time a = t)). unfold creation_time. naive_solver.
  - intros d x. cbn. rewrite lookup_mark, (added_static (fun a => d ∈ requires a)).
    unfold m. rewrite <- (st_spent s Hinv). case_decide as Hd; [|naive_solver].
    rewrite (Hfree d Hd). naive_solver.
  - intros x a Ha. cbn in Ha.
    destruct (proj1 (added_static (fun t => t = entry a) x)) as [[_ <-]|(a0 & Ha0 & <-)]; [by exists a|done|by apply (st_requires s Hinv x)].
  - intros k x. cbn. destruct (decide (x = n)) as [->|Hx].
    + rewrite lookup_insert_eq. split.
      * intros Hk. destruct (decide (k = next_seq_no s)) as [->|Hne]; [done|]. rewrite lookup_insert_ne in Hk by done.
        apply (st_seq s Hinv) in Hk. congruence.
      * intros [= ->]. by rewrite lookup_insert_eq.
    + rewrite (lookup_insert_ne (seq_nos_by_tx s)) by done. destruct (decide (k = next_seq_no s)) as [->|Hne].
      * rewrite lookup_insert_eq. split; [congruence|]. intros Hk%(st_seq_next s Hinv). lia.
      * rewrite lookup_insert_ne by done. apply (st_seq s Hinv).
  - intros x. cbn. rewrite added_is_Some. fold n m. destruct (decide (x = n)) as [->|Hx].
    + rewrite lookup_insert_eq. split; [by left|by eexists].
    + rewrite lookup_insert_ne by done. rewrite (st_seq_dom s Hinv). naive_solver.
  - intros x k. cbn. destruct (decide (x = n)) as [->|Hx].
    + rewrite lookup_insert_eq. intros [= <-]. lia.
    + rewrite lookup_insert_ne by done. intros Hk%(st_seq_next s Hinv). lia.
  - intros x y kx ky Hxy. cbn in *. apply (added_edge m e A Hnew) in Hxy as [Hxy|[-> Hy]].
    + destruct (parent_edge_in m Hm _ _ Hxy) as [[ax Hax] [ay Hay]].
      rewrite !lookup_insert_ne by (by intros Heq; symmetry in Heq; eapply old_not_new in Heq).
      by apply (st_seq_order s Hinv).
    + apply Hparents in Hy as [_ [ay Hay]]. fold n. rewrite lookup_insert_eq, lookup_insert_ne.
      * intros [= <-] Hk%(st_seq_next s Hinv). lia.
      * intros Heq. by eapply old_not_new in Hay.
Qed.
End add.

(** *** The ancestors and the sums of a new entry *)

Lemma from_parents_fold s l V : parents_in (txs_by_id s) -> (forall x, x ∈ l -> is_Some (txs_by_id s !! x)) ->
  exists V', try_fold (fun ancestors parent =>
      parent ← ok_or MempoolPolicyError.GetParentError (get_entry s parent);
      unconfirmed_ancestors_inner parent ancestors s) V l = Ok V' /\ V ⊆ V' /\
    (forall x, x ∈ V' -> x ∈ V \/ exists a, a ∈ l /\ rtc (parent_edge (txs_by_id s)) a x) /\
    (forall x y, x ∈ V' -> x ∉ V \/ x ∈ l -> parent_edge (txs_by_id s) x y -> y ∈ V').
Proof.
  intros Hin. revert V. induction l as [|p l IH]; intros V Hl.
  { exists V. split_and!; [done|done|by left|]. intros x y Hx [?|?%not_elem_of_nil]; done. }
  destruct (Hl p ltac:(by left)) as [ep Hep]. assert (get_entry s p = Some ep) as Hge by done. cbn [try_fold].
  rewrite Hge. cbn [ok_or mbind result_bind].
  destruct (visit_spec (E := MempoolPolicyError) (parents_of s) (dom (txs_by_id s)) (depth s) (set_iter (parents ep)) V)
    as (V1 & Hrun & Hsub & Hitems & Hfrom & Hto).
  { by apply closed_parents. }
  { intros x Hx%elem_of_set_iter. apply elem_of_dom, (Hin p). by exists ep. }
  { unfold depth. rewrite <- size_dom. pose proof (unvisited_le (dom (txs_by_id s)) ∅ V ltac:(set_solver)) as Hle.
    rewrite difference_empty_L in Hle. lia. }
  assert (unconfirmed_ancestors_inner ep V s = Ok V1) as -> by done. cbn [mbind result_bind].
  destruct (IH V1 ltac:(intros; apply Hl; by right)) as (V' & Hrun' & Hsub' & Hfrom' & Hto').
  exists V'. split_and!; [done|set_solver| |].
  - intros x [[Hx|(a & Ha%elem_of_set_iter & Hr)]%Hfrom|(a & Ha & Hr)]%Hfrom'; [by left|right|right].
    + exists p. split; [by left|]. eapply rtc_l; [by exists ep|]. by apply (rtc_iff _ _ _ _ (edge_parents (E := MempoolPolicyError) s)).
    + exists a. split; [by right|done].
  - intros x y Hx Hnew Hxy. destruct (decide (x ∈ l)) as [Hxl|Hxl]; [by apply (Hto' x y Hx); [right|]|].
    destruct (decide (x ∈ V1)) as [Hx1|Hx1]; [|by apply (Hto' x y Hx); [left|]]. apply Hsub'.
    destruct Hnew as [HxV|[->|?]%elem_of_cons]; [apply (Hto x y); [done|done|by apply edge_parents]| |done].
    destruct Hxy as (e' & He' & Hy). simplify_eq. by apply Hitems, elem_of_set_iter.
Qed.

Lemma from_parents_run s P : parents_in (txs_by_id s) -> (forall x, x ∈ P -> is_Some (txs_by_id s !! x)) ->
  exists A, unconfirmed_ancestors_from_parents P s = Ok A /\ is_set A (reach_from (parent_edge (txs_by_id s)) P).
Proof.
  intros Hin HP. destruct (from_parents_fold s (set_iter P) P Hin) as (A & Hrun & Hsub & Hfrom & Hto).
  { intros x Hx%elem_of_set_iter. by apply HP. }
  exists A. split; [done|]. intros x. split.
  - intros [Hx|(a & Ha%elem_of_set_iter & Hr)]%Hfrom; [by exists x|by exists a].
  - intros (a & Ha & Hr). assert (a ∈ A) as HaA by (by apply Hsub). clear Ha.
    induction Hr as [|x y z Hxy _ IH]; [done|]. apply IH. apply (Hto x y HaA); [|done].
    destruct (decide (x ∈ P)) as [Hx|Hx]; [right; by apply elem_of_set_iter|by left].
Qed.

Lemma collect_entries s ids acc : (forall x, x ∈ ids -> is_Some (txs_by_id s !! x)) ->
  exists l, try_fold (E := MempoolPolicyError) (fun acc id => a ← expect (get_entry s id); mret (a :: acc)) acc ids = Ok (l ++ acc) /\
    length l = length ids /\ Zsum (ival ∘ fee <$> l) = Zsum (fee_of (txs_by_id s) <$> ids) /\
    Zsum (ival ∘ size <$> l) = Zsum (size_of (txs_by_id s) <$> ids).
Proof.
  revert acc. induction ids as [|x ids IH]; intros acc Hids; [by exists []|].
  destruct (Hids x ltac:(by left)) as [a Ha]. assert (get_entry s x = Some a) as Hge by done. cbn [try_fold].
  rewrite Hge. cbn [expect mbind result_bind mret result_ret].
  destruct (IH (a :: acc) ltac:(intros; apply Hids; by right)) as (l & Hrun & Hlen & Hf & Hs).
  exists (l ++ [a]). rewrite Hrun, <- app_assoc. cbn [app]. split; [done|].
  assert (fee_of (txs_by_id s) x = ival (fee a)) as Hfx by (unfold fee_of; by rewrite Ha).
  assert (size_of (txs_by_id s) x = ival (size a)) as Hsx by (unfold size_of; by rewrite Ha).
  change (x :: ids) with ([x] ++ ids). rewrite !length_app, !fmap_app, !Zsum_app, Hf, Hs, Hlen.
  cbn [fmap list_fmap Zsum foldr length]. unfold compose. rewrite Hfx, Hsx. split_and!; lia.
Qed.

Lemma sumZ_usize_nonneg (l : list usize) : 0 <= sumZ l.
Proof. induction l as [|x l IH]; [done|]. cbn [sumZ foldr]. fold (sumZ l). pose proof (bint_range x). lia. Qed.

Lemma usize_sum_run {E} (l : list usize) : sumZ l < 2 ^ 64 -> exists v, usize_sum (E := E) l = Ok v /\ ival v = sumZ l.
Proof.
  unfold usize_sum. intros Hl. enough (forall b : usize, ival b + sumZ l < 2 ^ 64 ->
    exists v, try_fold (usize_add (E := E)) b l = Ok v /\ ival v = ival b + sumZ l) as Hgen by (by apply Hgen).
  clear Hl. induction l as [|a l IH]; intros b Hb; cbn [sumZ foldr] in *.
  - exists b. split; [done|lia].
  - fold (sumZ l) in *. pose proof (sumZ_usize_nonneg l). cbn [try_fold].
    destruct (bint_of_Z_is_Some (lo := 0) (hi := 2 ^ 64 - 1) (ival b + ival a)) as (c & Hce & Hc).
    { pose proof (bint_range a). pose proof (bint_range b). lia. }
    assert (usize_add (E := E) b a = Ok c) as -> by (unfold usize_add; by rewrite Hce).
    cbn [expect mbind result_bind]. destruct (IH c) as (v & Hv & Hval); [lia|]. exists v. split; [done|lia].
Qed.

Lemma ival_nz_get (n : NonZeroUsize) : ival (nz_get n) = ival n.
Proof.
  unfold nz_get. destruct (bint_of_Z_is_Some (lo := 0) (hi := 2 ^ 64 - 1) (ival n)) as (v & -> & Hv); [|done].
  pose proof (bint_range n). lia.
Qed.

Lemma new_entry_run m A ent P l : sum_over A (fee_of m) + ival (wf_fee ent) <= u128_MAX ->
  sum_over A (size_of m) + ival (te_encoded_size (wf_entry ent)) < 2 ^ 64 -> Z.of_nat (base.size A) + 1 < 2 ^ 64 ->
  length l = base.size A -> Zsum (ival ∘ fee <$> l) = sum_over A (fee_of m) ->
  Zsum (ival ∘ size <$> l) = sum_over A (size_of m) ->
  exists e, TxMempoolEntry_new ent P l = Ok e /\ entry e = wf_entry ent /\ fee e = wf_fee ent /\ parents e = P /\
    children e = ∅ /\ sums m A e (count_with_ancestors e) (fees_with_ancestors e) (size_with_ancestors e) /\
    sums m ∅ e (count_with_descendants e) (fees_with_descendants e) (size_with_descendants e).
Proof.
  intros Hf Hs Hc Hlen Hlf Hls. unfold TxMempoolEntry_new.
  assert (sumZ (nz_get ∘ size <$> l) = sum_over A (size_of m)) as Hsz.
  { rewrite <- Hls. clear. induction l as [|a l IH]; [done|]. cbn in *. unfold sumZ, Zsum in *. rewrite ival_nz_get. lia. }
  assert (sumZ (fee <$> l) = sum_over A (fee_of m)) as Hfe.
  { rewrite <- Hlf. clear. induction l as [|a l IH]; [done|]. cbn in *. unfold sumZ, Zsum in *. lia. }
  pose proof (bint_range (wf_fee ent)). pose proof (bint_range (te_encoded_size (wf_entry ent))).
  assert (0 <= sum_over A (fee_of m)) by apply sum_over_nonneg, fee_of_nonneg.
  assert (0 <= sum_over A (size_of m)) by apply sum_over_nonneg, size_of_nonneg.
  destruct (usize_sum_run (E := MempoolPolicyError) (nz_get ∘ size <$> l)) as (v & -> & Hv); [lia|]. cbn [mbind result_bind].
  unfold nz_checked_add.
  destruct (bint_of_Z_is_Some (lo := 1) (hi := 2 ^ 64 - 1) (ival (te_encoded_size (wf_entry ent)) + ival v)) as (z & -> & Hz); [lia|].
  cbn [expect mbind result_bind]. rewrite Amount_sum_eq, Hfe.
  destruct (bint_of_Z_is_Some (lo := 0) (hi := u128_MAX) (sum_over A (fee_of m))) as (f & -> & Hfv); [lia|].
  cbn [ok_or mbind result_bind]. unfold Amount.add.
  destruct (bint_of_Z_is_Some (lo := 0) (hi := u128_MAX) (ival (wf_fee ent) + ival f)) as (f' & -> & Hfv'); [lia|].
  cbn [ok_or mbind result_bind]. rewrite Hlen.
  destruct (bint_of_Z_is_Some (lo := 0) (hi := 2 ^ 64 - 1) (1 + Z.of_nat (base.size A))) as (c & -> & Hcv); [lia|].
  cbn [expect mbind result_bind mret result_ret]. eexists. split; [done|]. cbn. split_and!; try done.
  - split; cbn; [lia|lia|]. unfold size. cbn. lia.
  - split; cbn; rewrite ?sum_over_empty; [done|lia|]. unfold size. cbn. lia.
Qed.

(** *** [add_transaction] *)

(** The transactions that an entry spends. *)
Definition entry_sources (t : TxEntry TxOrigin) : list TxId := omap spent_tx (tx_inputs t).

(** What the checks before the store promise of a new transaction: it is new, no
    transaction of the mempool spends its outputs, it needs nothing twice and
    nothing that another one has taken, and the totals stay in range. *)
Record addable s (ent : TxEntryWithFee) : Prop := {
  ad_new : txs_by_id s !! te_tx_id (wf_entry ent) = None;
  ad_unspent : forall x e, txs_by_id s !! x = Some e -> te_tx_id (wf_entry ent) ∉ sources e;
  ad_self : te_tx_id (wf_entry ent) ∉ entry_sources (wf_entry ent);
  ad_requires : NoDup (requires (wf_entry ent));
  ad_free : forall d, d ∈ requires (wf_entry ent) -> find_conflicting_tx s d = None;
  ad_fees : 1000 * (total_fees (txs_by_id s) + ival (wf_fee ent)) <= u128_MAX;
  ad_size : total_size (txs_by_id s) + ival (te_encoded_size (wf_entry ent)) < 2 ^ 64;
  ad_room : ival (next_seq_no s) + 1 < 2 ^ 64
}.

(** The parents of a new entry. *)
Definition parents_in_store s (ent : TxEntryWithFee) : gset TxId :=
  list_to_set (filter (fun id => is_Some (txs_by_id s !! id)) (omap spent_tx (tx_inputs (wf_entry ent)))).

Lemma elem_of_parents_in_store s ent y :
  y ∈ parents_in_store s ent <-> y ∈ entry_sources (wf_entry ent) /\ is_Some (txs_by_id s !! y).
Proof. unfold parents_in_store, entry_sources. rewrite elem_of_list_to_set, list_elem_of_filter. tauto. Qed.

Lemma add_transaction_run s ent : store_inv s -> addable s ent ->
  exists e A next, add_transaction ent s = (indexed s e A next, Ok tt) /\ store_inv (indexed s e A next) /\
    entry e = wf_entry ent /\ fee e = wf_fee ent /\ is_set A (reach_from (parent_edge (txs_by_id s)) (parents e)) /\
    parents e = parents_in_store s ent /\ ival next = ival (next_seq_no s) + 1.
Proof.
  intros Hinv [Hnew Huns Hself Hreq Hfree Hfees Hsize Hroom]. pose proof (st_entries s Hinv) as Hm.
  pose proof (inv_parents_in _ Hm) as Hin.
  destruct (from_parents_run s (parents_in_store s ent) Hin) as (A & HA & Hset).
  { intros x Hx%elem_of_parents_in_store. apply Hx. }
  assert (forall x, x ∈ A -> is_Some (txs_by_id s !! x)) as HAin.
  { intros x (a & Ha%elem_of_parents_in_store & Hr)%Hset. apply rtc_iff_tc in Hr as [<-|Ht]; [apply Ha|].
    by apply (tc_in _ Hm) in Ht as [_ ?]. }
  assert (A ⊆ dom (txs_by_id s)) as HAdom by (intros x Hx; by apply elem_of_dom, HAin).
  destruct (collect_entries s (set_iter A) []) as (l & Hl & Hlen & Hlf & Hls).
  { intros x Hx%elem_of_set_iter. by apply HAin. }
  rewrite app_nil_r in Hl. rewrite (fmap_Permutation _ _ _ (set_iter_perm A)) in Hlf. rewrite (fmap_Permutation _ _ _ (set_iter_perm A)) in Hls.
  rewrite (Permutation_length (set_iter_perm A)) in Hlen.
  pose proof (sum_over_le A _ _ HAdom (fee_of_nonneg (txs_by_id s))) as HleF.
  pose proof (sum_over_le A _ _ HAdom (size_of_nonneg (txs_by_id s))) as HleS.
  fold (total_fees (txs_by_id s)) in HleF. fold (total_size (txs_by_id s)) in HleS.
  assert (Z.of_nat (base.size A) <= sum_over A (size_of (txs_by_id s))) as Hcount.
  { apply sum_over_pos. intros y [a Ha]%HAin. unfold size_of. rewrite Ha. pose proof (bint_range (size a)). lia. }
  pose proof (bint_range (wf_fee ent)). pose proof (bint_range (te_encoded_size (wf_entry ent))).
  assert (0 <= total_fees (txs_by_id s)) by apply sum_over_nonneg, fee_of_nonneg.
  destruct (new_entry_run (txs_by_id s) A ent (parents_in_store s ent) l) as (e & He & Hent & Hfee & Hpar & Hchi & Hanc & Hdesc);
    [lia|lia|lia|done|done|done|].
  assert (tx_id e = te_tx_id (wf_entry ent)) as Hid by (unfold tx_id; by rewrite Hent).
  assert (forall y, y ∈ parents e <-> y ∈ sources e /\ is_Some (txs_by_id s !! y)) as Hp.
  { intros y. rewrite Hpar. unfold sources. rewrite Hent. apply elem_of_parents_in_store. }
  rewrite <- Hpar in Hset. rewrite <- Hid in *.
  assert (fits (added (txs_by_id s) e A)) as Hfits.
  { destruct (added_totals (txs_by_id s) e A Hnew) as [Htf Hts]. split; rewrite ?Htf, ?Hts, ?Hfee.
    - lia.
    - unfold size. rewrite Hent. lia. }
  assert (tx_id e ∉ sources e) as Hself' by (unfold sources; by rewrite Hent).
  assert (NoDup (requires (entry e))) as Hreq' by (by rewrite Hent).
  assert (forall d, d ∈ requires (entry e) -> spender_txs s !! d = None) as Hfree' by (by rewrite Hent).
  destruct (add_tx_entry_run s Hinv e A) as (next & Hnv & Hrun); try done.
  exists e, A, next. split_and!; try done; [|by apply indexed_inv].
  unfold add_transaction. erewrite st_bind_run by done. fold (parents_in_store s ent).
  erewrite st_bind_run by (rewrite gets_run; f_equal; exact HA).
  erewrite st_bind_run by (rewrite gets_run; f_equal; exact Hl).
  erewrite st_bind_run by (rewrite lift_run; f_equal; exact He). exact Hrun.
Qed.
End operations.
