(* ===== verification/MempoolRemoval.v ===== *)
(** * Removal of transactions from the mempool's store

    What [remove_tx] does to a leaf, and to a root that got into a block; that
    [drop_tx_and_descendants] removes a transaction and its descendants, children
    first; and the order in which [into_transactions] gives the transactions
    back. *)
From S2P Require Import Prelude Amount ChainTypes ChainConfig Utxo TxTypes CheckTransaction.
From S2P Require Import Traversal MempoolEntry MempoolStore MempoolGraph MempoolInvariant MempoolOps.

Section removal.
Context `{CryptoTypes}.
Implicit Types (s : MempoolStore) (e : TxMempoolEntry) (m : gmap TxId TxMempoolEntry) (A P X : gset TxId).

Lemma unspend_run {E} (n : TxId) deps s : NoDup deps -> (forall d, d ∈ deps -> spender_txs s !! d = Some n) ->
  try_for_each (E := E) (fun dep =>
    removed ← gets (fun s => Ok (spender_txs s !! dep));
    _ ← modify (with_spender (delete dep));
    lift (assert_true (bool_decide (removed = Some n)))) deps s =
  (with_spender (fun M => foldl (fun M d => delete d M) M deps) s, Ok tt).
Proof.
  intros Hnd. revert s. induction Hnd as [|d deps Hd _ IH]; intros s Hs; [by destruct s|].
  cbn [try_for_each]. rewrite (st_bind_run _ _ _ (with_spender (delete d) s) tt).
  - rewrite IH; [done|]. intros d' Hd'. cbn. rewrite lookup_delete_ne by (by intros ->). apply Hs. by right.
  - erewrite st_bind_run by done. erewrite st_bind_run by done. rewrite (Hs d) by left. by rewrite bool_decide_true.
Qed.

Lemma lookup_unspend (M : gmap TxDependency TxId) deps d :
  foldl (fun M d => delete d M) M deps !! d = if decide (d ∈ deps) then None else M !! d.
Proof.
  revert M. induction deps as [|d' deps IH]; intros M; cbn [foldl].
  - rewrite decide_False; [done|]. apply not_elem_of_nil.
  - rewrite IH. destruct (decide (d = d')) as [->|Hne].
    + rewrite lookup_delete_eq. repeat case_decide; first [done|set_solver].
    + rewrite lookup_delete_ne by done. apply decide_ext. set_solver.
Qed.

Section remove.
Context (s : MempoolStore) (Hinv : store_inv s) (n : TxId) (e : TxMempoolEntry).
Let m := txs_by_id s.
Context (He : m !! n = Some e) (reason : MempoolRemovalReason) (A D : gset TxId).
Context (HA : is_set A (tc (parent_edge m) n)) (HD : is_set D (fun y => tc (parent_edge m) y n)).
Context (Hend : children e = ∅ \/ (parents e = ∅ /\ reason = ReasonBlock)).
Let Hm : entries_inv m := st_entries s Hinv.

(** The descendants whose sums are updated. *)
Definition updated : gset TxId := if decide (reason = ReasonBlock) then D else ∅.

Lemma updated_sub : updated ⊆ D.
Proof. unfold updated. case_decide; set_solver. Qed.

Lemma updated_end : children e = ∅ \/ (parents e = ∅ /\ updated = D).
Proof. destruct Hend as [?|[Hp Hr]]; [by left|right]. unfold updated. by rewrite decide_True. Qed.

Lemma tx_id_e : tx_id e = n.
Proof. by apply (inv_id m Hm). Qed.

Lemma ancestors_set : is_set A (reach_from (parent_edge m) (parents e)).
Proof.
  intros x. rewrite (HA x), tc_iff_rtc. unfold reach_from. split.
  - intros (z & (e' & He' & Hz) & Hr). simplify_eq. by exists z.
  - intros (z & Hz & Hr). exists z. split; [by exists e|done].
Qed.

Lemma descendants_set : is_set D (reach_from (child_edge m) (children e)).
Proof.
  intros x. rewrite (HD x), <- (tc_child m Hm), tc_iff_rtc. unfold reach_from. split.
  - intros (z & (e' & He' & Hz) & Hr). simplify_eq. by exists z.
  - intros (z & Hz & Hr). exists z. split; [by exists e|done].
Qed.

Lemma ancestor_in x : x ∈ A -> x <> n /\ is_Some (m !! x) /\ forall y, parent_edge m x y -> y <> n.
Proof.
  intros Hx%HA. split_and!.
  - intros ->. by apply (acyclic m Hm) in Hx.
  - by apply (tc_in m Hm) in Hx as [_ ?].
  - intros y Hxy ->. apply (acyclic m Hm n). by eapply tc_r.
Qed.

Lemma descendant_in x : x ∈ D -> x <> n /\ is_Some (m !! x) /\ forall y, child_edge m x y -> y <> n.
Proof.
  intros Hx%HD. split_and!.
  - intros ->. by apply (acyclic m Hm) in Hx.
  - by apply (tc_in m Hm) in Hx as [? _].
  - intros y Hxy%(child_edge_iff m Hm) ->. apply (acyclic m Hm n). by eapply tc_l.
Qed.

(** The searches, in a store that differs only at the removed entry. *)
Lemma ancestors_while_removing {E} s' : (forall x, x <> n -> is_Some (m !! x) -> is_Some (txs_by_id s' !! x)) ->
  (forall x y, x <> n -> y <> n -> parent_edge (txs_by_id s') x y <-> parent_edge m x y) ->
  (forall x, x ∈ A -> ~ parent_edge (txs_by_id s') x n) ->
  unconfirmed_ancestors (E := E) e s' = Ok A.
Proof.
  intros Hdom Hedge Hn. apply (ancestors_found e s' A (parent_edge m)).
  - intros x Hx. destruct (ancestor_in x Hx) as (Hxn & Hin & _). by apply Hdom.
  - intros x y Hx. destruct (ancestor_in x Hx) as (Hxn & _ & Hy). destruct (decide (y = n)) as [->|Hyn].
    + split; [by intros ?%Hn|by intros ?%Hy].
    + by apply Hedge.
  - apply ancestors_set.
Qed.

Lemma descendants_while_removing {E} s' : (forall x, x <> n -> is_Some (m !! x) -> is_Some (txs_by_id s' !! x)) ->
  (forall x y, x <> n -> y <> n -> child_edge (txs_by_id s') x y <-> child_edge m x y) ->
  (forall x, x ∈ D -> ~ child_edge (txs_by_id s') x n) ->
  unconfirmed_descendants (E := E) e s' = Ok D.
Proof.
  intros Hdom Hedge Hn. apply (descendants_found e s' D (child_edge m)).
  - intros x Hx. destruct (descendant_in x Hx) as (Hxn & Hin & _). by apply Hdom.
  - intros x y Hx. destruct (descendant_in x Hx) as (Hxn & _ & Hy). destruct (decide (y = n)) as [->|Hyn].
    + split; [by intros ?%Hn|by intros ?%Hy].
    + by apply Hedge.
  - apply descendants_set.
Qed.

Lemma delete_edge x y : parent_edge (delete n m) x y <-> x <> n /\ parent_edge m x y.
Proof. unfold parent_edge. setoid_rewrite lookup_delete_Some. naive_solver. Qed.
Lemma delete_child_edge x y : child_edge (delete n m) x y <-> x <> n /\ child_edge m x y.
Proof. unfold child_edge. setoid_rewrite lookup_delete_Some. naive_solver. Qed.

Lemma drop_descendant_static {E} a : let a' := (drop_descendant (E := E) e a).1 in
  parents a' = parents a /\ children a' = children a.
Proof. cbv zeta. unfold drop_descendant. repeat case_match; done. Qed.
Lemma drop_ancestor_static {E} a : let a' := (drop_ancestor (E := E) e a).1 in
  parents a' = parents a /\ children a' = children a.
Proof. cbv zeta. unfold drop_ancestor. repeat case_match; done. Qed.

(** The map does not depend on the type of errors. *)
Lemma drop_descendant_any {E F} a : (drop_descendant (E := E) e a).1 = (drop_descendant (E := F) e a).1.
Proof. unfold drop_descendant. repeat case_match; done. Qed.
Lemma drop_ancestor_any {E F} a : (drop_ancestor (E := E) e a).1 = (drop_ancestor (E := F) e a).1.
Proof. unfold drop_ancestor. repeat case_match; done. Qed.
Lemma alter_set_ext X f g m' : (forall a, f a = g a) -> alter_set X f m' = alter_set X g m'.
Proof. intros Hfg. apply map_eq. intros k. rewrite !lookup_alter_set. destruct (m' !! k); [|done]. cbn. by case_decide; rewrite ?Hfg. Qed.

Definition score_or_zero (r : result Empty_set FeeRate) : FeeRate := match r with Ok sc => sc | _ => Amount.ZERO end.

(** The store after the removal; [k] is the number of the removed entry. *)
Definition dropped (k : usize) : MempoolStore :=
  let txs := removed m n e A updated in
  mk_store txs
    ((scored (descendant_score (E := Empty_set)) txs A ∪ filter (fun p => p.2 ∉ A) (txs_by_descendant_score s))
      ∖ {[(score_or_zero (descendant_score e), n)]})
    ((scored (ancestor_score (E := Empty_set)) txs D ∪ filter (fun p => p.2 ∉ D) (txs_by_ancestor_score s))
      ∖ {[(score_or_zero (ancestor_score e), n)]})
    (txs_by_creation_time s ∖ {[(creation_time e, n)]})
    (foldl (fun M d => delete d M) (spender_txs s) (requires (entry e)))
    (delete k (txs_by_seq_no s)) (delete n (seq_nos_by_tx s)) (next_seq_no s).

Let txs' : gmap TxId TxMempoolEntry := removed m n e A updated.

Lemma dropped_entries : entries_inv txs'.
Proof. apply (removed_inv m Hm n e He A D); [done|done|apply updated_sub|apply updated_end]. Qed.
Lemma dropped_fits : fits txs'.
Proof. apply (removed_fits m Hm n e He A D HA HD updated updated_sub); [apply updated_end|apply (st_fits s Hinv)]. Qed.

Lemma dropped_edge x y : parent_edge txs' x y <-> parent_edge m x y /\ x <> n /\ y <> n.
Proof. apply (removed_edge m Hm n e He A D); [done|done|apply updated_sub]. Qed.
Lemma dropped_child_edge x y : child_edge txs' x y <-> child_edge m x y /\ x <> n /\ y <> n.
Proof. rewrite (child_edge_iff _ dropped_entries), dropped_edge, (child_edge_iff m Hm). tauto. Qed.
Lemma dropped_is_Some x : is_Some (txs' !! x) <-> x <> n /\ is_Some (m !! x).
Proof. apply (removed_is_Some m Hm n e He A D); [done|done|apply updated_sub]. Qed.

Lemma scored_ds_any {E F} X : scored (E := E) descendant_score txs' X = scored (E := F) descendant_score txs' X.
Proof.
  apply set_eq. intros [sc x]. rewrite !elem_of_scored.
  split; intros (Hx & a & Ha & Hsc); (split; [done|]); exists a; (split; [done|]); by eapply descendant_score_any.
Qed.
Lemma scored_as_any {E F} X : scored (E := E) ancestor_score txs' X = scored (E := F) ancestor_score txs' X.
Proof.
  apply set_eq. intros [sc x]. rewrite !elem_of_scored.
  split; intros (Hx & a & Ha & Hsc); (split; [done|]); exists a; (split; [done|]); by eapply ancestor_score_any.
Qed.

(** The first half of the removal: the entry is gone and the sums are updated. *)
Lemma update_states_run {E} : exists s1, (forall B (f : unit -> ST MempoolStore E B),
    (_ ← update_ancestor_state_for_drop e;
     _ ← if bool_decide (reason = ReasonBlock) then update_descendant_state_for_drop e else mret tt;
     f tt) (with_txs (delete n) s) = f tt s1) /\
  s1 = with_txs (fun _ => uncounted m n e A updated) s.
Proof.
  eexists. split; [|done]. intros B f. unfold update_ancestor_state_for_drop.
  erewrite st_bind_run; [|erewrite st_bind_run by (rewrite gets_run; f_equal; apply ancestors_while_removing;
    [intros x Hx Hin; cbn; by rewrite lookup_delete_ne
    |intros x y Hx Hy; cbn; fold m; rewrite delete_edge; tauto
    |intros x Hx; cbn; fold m; rewrite delete_edge; intros [_ Hxy]; by destruct (ancestor_in x Hx) as (_ & _ & Hn); apply Hn in Hxy]);
    apply entry_loop_set; intros k Hk; destruct (ancestor_in k Hk) as (Hkn & [a Ha] & _); exists a; cbn; rewrite lookup_delete_ne by done;
    split; [done|]; by destruct (drop_descendant_runs (E := E) m Hm n e He A D HA HD updated updated_sub k a Hk Ha) as (? & ? & ? & -> & _)].
  unfold updated in *. destruct (decide (reason = ReasonBlock)) as [Hr|Hr].
  - rewrite bool_decide_true by done. unfold update_descendant_state_for_drop.
    erewrite st_bind_run; [|erewrite st_bind_run by (rewrite gets_run; f_equal; apply descendants_while_removing;
      [intros x Hx Hin; cbn; apply alter_set_is_Some; by rewrite lookup_delete_ne
      |intros x y Hx Hy; cbn; rewrite alter_set_child_edge by (intros; apply drop_descendant_static); fold m; rewrite delete_child_edge; tauto
      |intros x Hx; cbn; rewrite alter_set_child_edge by (intros; apply drop_descendant_static); fold m; rewrite delete_child_edge;
       intros [_ Hxy]; by destruct (descendant_in x Hx) as (_ & _ & Hn); apply Hn in Hxy]);
      apply entry_loop_set; intros k Hk].
    + f_equal. unfold with_txs. cbn. f_equal. unfold uncounted.
      rewrite (alter_set_ext D _ (fun a => (drop_ancestor (E := Empty_set) e a).1)) by (intros; apply drop_ancestor_any).
      by rewrite (alter_set_ext A _ (fun a => (drop_descendant (E := Empty_set) e a).1)) by (intros; apply drop_descendant_any).
    + cbn. fold m. destruct (descendant_in k Hk) as (Hkn & [a Ha] & _). rewrite lookup_alter_set, lookup_delete_ne, Ha by done.
      eexists. split; [done|]. cbn.
      edestruct (drop_ancestor_runs (E := E) m Hm n e He A D HA HD D ltac:(done) k a) as (? & ? & ? & -> & _); [done|done| | | |done];
        case_decide; try done; unfold drop_descendant; repeat case_match; done.
  - rewrite bool_decide_false by done. erewrite st_bind_run by done. f_equal. unfold with_txs. cbn. f_equal. unfold uncounted.
    rewrite alter_set_empty.
    by rewrite (alter_set_ext A _ (fun a => (drop_descendant (E := Empty_set) e a).1)) by (intros; apply drop_descendant_any).
Qed.

Lemma uncounted_is_Some x : is_Some (uncounted m n e A updated !! x) <-> x <> n /\ is_Some (m !! x).
Proof.
  unfold uncounted. rewrite !alter_set_is_Some. destruct (decide (x = n)) as [->|Hx].
  - rewrite lookup_delete_eq. split; [by intros []|by intros [? _]].
  - rewrite lookup_delete_ne by done. tauto.
Qed.

(** Parents and children of the removed entry are other entries. *)
Lemma neighbour_in x : x ∈ parents e \/ x ∈ children e -> x <> n /\ is_Some (m !! x).
Proof.
  intros [Hx|Hx].
  - assert (parent_edge m n x) as Hnx by (by exists e). split; [|by apply (parent_edge_in m Hm) in Hnx as [_ ?]].
    intros ->. by apply (acyclic m Hm n), tc_once.
  - apply (inv_children m Hm n e x He) in Hx. split; [|by apply (parent_edge_in m Hm) in Hx as [? _]].
    intros ->. by apply (acyclic m Hm n), tc_once.
Qed.

Lemma dropped_ds_score {E} k : k ∈ A -> exists a sc, txs' !! k = Some a /\ descendant_score (E := E) a = Ok sc.
Proof.
  intros Hk. destruct (ancestor_in k Hk) as (Hkn & Hin & _).
  destruct (proj2 (dropped_is_Some k)) as [a Ha]; [done|]. exists a.
  destruct (descendant_score_runs (E := E) txs' dropped_entries k a dropped_fits Ha) as [sc Hsc]. by exists sc.
Qed.
Lemma dropped_as_score {E} k : k ∈ D -> exists a sc, txs' !! k = Some a /\ ancestor_score (E := E) a = Ok sc.
Proof.
  intros Hk. destruct (descendant_in k Hk) as (Hkn & Hin & _).
  destruct (proj2 (dropped_is_Some k)) as [a Ha]; [done|]. exists a.
  destruct (ancestor_score_runs (E := E) txs' dropped_entries k a dropped_fits Ha) as [sc Hsc]. by exists sc.
Qed.

Lemma dropped_ancestors {E} s' : txs_by_id s' = txs' -> unconfirmed_ancestors (E := E) e s' = Ok A.
Proof.
  intros Htxs. apply ancestors_while_removing; rewrite Htxs.
  - intros x Hx Hin. by apply dropped_is_Some.
  - intros x y Hx Hy. rewrite dropped_edge. tauto.
  - intros x _. rewrite dropped_edge. naive_solver.
Qed.
Lemma dropped_descendants {E} s' : txs_by_id s' = txs' -> unconfirmed_descendants (E := E) e s' = Ok D.
Proof.
  intros Htxs. apply descendants_while_removing; rewrite Htxs.
  - intros x Hx Hin. by apply dropped_is_Some.
  - intros x y Hx Hy. rewrite dropped_child_edge. tauto.
  - intros x _. rewrite dropped_child_edge. naive_solver.
Qed.

Lemma score_or_zero_ds {E} sc : descendant_score (E := E) e = Ok sc -> score_or_zero (descendant_score e) = sc.
Proof. intros Hsc. by rewrite (descendant_score_any e sc Hsc). Qed.
Lemma score_or_zero_as {E} sc : ancestor_score (E := E) e = Ok sc -> score_or_zero (ancestor_score e) = sc.
Proof. intros Hsc. by rewrite (ancestor_score_any e sc Hsc). Qed.

Lemma drop_tx_run {E} k : seq_nos_by_tx s !! n = Some k ->
  drop_tx (E := E) e (with_txs (fun _ => uncounted m n e A updated) s) = (dropped k, Ok tt).
Proof.
  intros Hk. destruct (descendant_score_runs (E := E) m Hm n e (st_fits s Hinv) He) as [ds Hds].
  destruct (ancestor_score_runs (E := E) m Hm n e (st_fits s Hinv) He) as [an Han].
  unfold drop_tx, update_for_drop, remove_from_parents, remove_from_children.
  erewrite st_bind_run; [|erewrite st_bind_run by
    (apply entry_loop_set; intros x Hx; cbn; destruct (proj2 (uncounted_is_Some x)) as [a Ha]; [by apply neighbour_in; left|by exists a]);
    apply entry_loop_set; intros x Hx; cbn;
    destruct (proj2 (alter_set_is_Some (parents e) (fun a => (modify (E := E) (with_children (fun c => c ∖ {[tx_id e]})) a).1) (uncounted m n e A updated) x)) as [a Ha];
    [by apply uncounted_is_Some, neighbour_in; right|by exists a]].
  cbn [modify fst].
  set (s1 := with_txs _ _). assert (txs_by_id s1 = txs') as Hs1 by done.
  unfold remove_from_descendant_score_index, refresh_ancestors. rewrite Hds.
  erewrite st_bind_run; [|erewrite st_bind_run by
    (erewrite st_bind_run by (rewrite gets_run; f_equal; by apply dropped_ancestors);
     apply reinsert_run; [apply with_descendant_score_setter|exact dropped_ds_score]);
    erewrite st_bind_run by done; done].
  unfold remove_from_ancestor_score_index, refresh_descendants. rewrite Han.
  erewrite st_bind_run; [|erewrite st_bind_run by
    (erewrite st_bind_run by (rewrite gets_run; f_equal; by apply dropped_descendants);
     apply reinsert_run; [apply with_ancestor_score_setter|exact dropped_as_score]);
    erewrite st_bind_run by done; done].
  unfold remove_from_creation_time_index, remove_from_seq_no_index. erewrite st_bind_run by done.
  erewrite st_bind_run; [|erewrite st_bind_run by done; erewrite st_bind_run by done; cbn; rewrite tx_id_e, Hk;
    erewrite st_bind_run by done; erewrite st_bind_run by done; erewrite st_bind_run by done; cbn;
    rewrite (proj2 (st_seq s Hinv k n) Hk), bool_decide_true by done; done].
  unfold unspend_outpoints. rewrite tx_id_e, (unspend_run n (requires (entry e))).
  - unfold with_spender, dropped. rewrite (score_or_zero_ds ds Hds), (score_or_zero_as an Han). cbn. fold txs'.
    rewrite (scored_ds_any (E := Empty_set) (F := E)), (scored_as_any (E := Empty_set) (F := E)).
    unfold txs', removed. by rewrite tx_id_e.
  - by apply (st_requires s Hinv n).
  - intros d Hd. cbn. apply (st_spent s Hinv). by exists e.
Qed.

Lemma remove_tx_run {E} k : seq_nos_by_tx s !! n = Some k ->
  remove_tx (E := E) n reason s = (dropped k, Ok (Some e)).
Proof.
  intros Hk. unfold remove_tx. erewrite st_bind_run by done. fold m. rewrite He. erewrite st_bind_run by done.
  destruct (update_states_run (E := E)) as (s1 & Hrun & ->). rewrite (Hrun _ (fun _ => _ ← drop_tx e; mret (Some e))).
  by erewrite st_bind_run by (by apply drop_tx_run).
Qed.

(** What is left of another entry, whatever was updated. *)
Lemma dropped_old x a : x <> n -> m !! x = Some a -> exists a', txs' !! x = Some a' /\ entry a' = entry a /\ fee a' = fee a /\
  (x ∉ D -> ancestors_state a' = ancestors_state a) /\ (x ∉ A -> descendants_state a' = descendants_state a).
Proof.
  intros Hx Ha. destruct (removed_old m Hm n e He A D HA HD updated updated_sub x Hx a Ha)
    as (a' & Ha' & Hent & Hfee & _ & _ & Hanc & _ & Hdesc & _).
  exists a'. split_and!; [done|done|done| |done]. intros HxD. apply Hanc. intros HxU. by apply HxD, updated_sub.
Qed.

Lemma dropped_static (Q : TxEntry TxOrigin -> Prop) x :
  (exists a', txs' !! x = Some a' /\ Q (entry a')) <-> x <> n /\ exists a, m !! x = Some a /\ Q (entry a).
Proof.
  split.
  - intros (a' & Ha' & HQ). destruct (proj1 (dropped_is_Some x)) as [Hx [a Ha]]; [by exists a'|].
    destruct (dropped_old x a Hx Ha) as (a'' & Ha'' & Hent & _). simplify_eq. split; [done|]. exists a. by rewrite <- Hent.
  - intros (Hx & a & Ha & HQ). destruct (dropped_old x a Hx Ha) as (a' & Ha' & Hent & _). exists a'. by rewrite Hent.
Qed.

Lemma dropped_descendant_score k sc x : (sc, x) ∈ txs_by_descendant_score (dropped k) <->
  exists a, txs' !! x = Some a /\ descendant_score (E := Empty_set) a = Ok sc.
Proof.
  cbn. fold txs'. rewrite elem_of_difference, elem_of_singleton, elem_of_reindexed, (st_descendant_score s Hinv). fold m.
  destruct (decide (x = n)) as [->|Hx].
  - split.
    + intros [[[HnA _]|[_ (a & Ha & Hsc)]] Hne]; [by apply ancestor_in in HnA as [? _]|].
      simplify_eq. by rewrite (score_or_zero_ds sc Hsc) in Hne.
    + intros (a & Ha & _). destruct (proj1 (dropped_is_Some n)) as [? _]; [by exists a|done].
  - destruct (decide (x ∈ A)) as [HxA|HxA]; [naive_solver|]. split.
    + intros [[[? _]|[_ (a & Ha & Hsc)]] _]; [done|]. destruct (dropped_old x a Hx Ha) as (a' & Ha' & Hent & Hfee & _ & Hst).
      exists a'. split; [done|]. specialize (Hst HxA). unfold descendants_state in Hst. rewrite (descendant_score_ext a' a); congruence.
    + intros (a' & Ha' & Hsc). split; [right; split; [done|]|congruence].
      destruct (proj1 (dropped_is_Some x)) as [_ [a Ha]]; [by exists a'|].
      destruct (dropped_old x a Hx Ha) as (a'' & Ha'' & Hent & Hfee & _ & Hst). simplify_eq.
      exists a. split; [done|]. specialize (Hst HxA). unfold descendants_state in Hst. rewrite (descendant_score_ext a a'); congruence.
Qed.

Lemma dropped_ancestor_score k sc x : (sc, x) ∈ txs_by_ancestor_score (dropped k) <->
  exists a, txs' !! x = Some a /\ ancestor_score (E := Empty_set) a = Ok sc.
Proof.
  cbn. fold txs'. rewrite elem_of_difference, elem_of_singleton, elem_of_reindexed, (st_ancestor_score s Hinv). fold m.
  destruct (decide (x = n)) as [->|Hx].
  - split.
    + intros [[[HnD _]|[_ (a & Ha & Hsc)]] Hne]; [by apply descendant_in in HnD as [? _]|].
      simplify_eq. by rewrite (score_or_zero_as sc Hsc) in Hne.
    + intros (a & Ha & _). destruct (proj1 (dropped_is_Some n)) as [? _]; [by exists a|done].
  - destruct (decide (x ∈ D)) as [HxD|HxD]; [naive_solver|]. split.
    + intros [[[? _]|[_ (a & Ha & Hsc)]] _]; [done|]. destruct (dropped_old x a Hx Ha) as (a' & Ha' & Hent & Hfee & Hst & _).
      exists a'. split; [done|]. specialize (Hst HxD). unfold ancestors_state in Hst. rewrite (ancestor_score_ext a' a); congruence.
    + intros (a' & Ha' & Hsc). split; [right; split; [done|]|congruence].
      destruct (proj1 (dropped_is_Some x)) as [_ [a Ha]]; [by exists a'|].
      destruct (dropped_old x a Hx Ha) as (a'' & Ha'' & Hent & Hfee & Hst & _). simplify_eq.
      exists a. split; [done|]. specialize (Hst HxD). unfold ancestors_state in Hst. rewrite (ancestor_score_ext a a'); congruence.
Qed.

Lemma dropped_inv k : seq_nos_by_tx s !! n = Some k -> store_inv (dropped k).
Proof.
  intros Hk. split.
  - apply dropped_entries.
  - apply dropped_fits.
  - apply dropped_descendant_score.
  - apply dropped_ancestor_score.
  - intros t x. cbn. fold txs'. rewrite elem_of_difference, elem_of_singleton, (st_creation_time s Hinv). fold m.
    unfold creation_time at 3. rewrite (dropped_static (fun a => te_creation_time a = t)). unfold creation_time. split.
    + intros [(a & Ha & <-) Hne]. split; [intros ->; apply Hne; congruence|by exists a].
    + intros (Hx & a & Ha & <-). split; [by exists a|]. congruence.
  - intros d x. cbn. fold txs'. rewrite lookup_unspend, (dropped_static (fun a => d ∈ requires a)). unfold m.
    rewrite <- (st_spent s Hinv). case_decide as Hd.
    + assert (spender_txs s !! d = Some n) as Hdn by (apply (st_spent s Hinv); by exists e).
      split; [done|]. intros [Hx Hdx]. congruence.
    + split; [|by intros [_ ?]]. intros Hdx. split; [|done]. intros ->.
      apply (st_spent s Hinv) in Hdx as (e' & He' & Hd'). fold m in He'. by simplify_eq.
  - intros x a Ha. destruct (proj1 (dropped_static (fun t => t = entry a) x)) as (_ & a0 & Ha0 & <-); [by exists a|].
    by apply (st_requires s Hinv x).
  - intros j x. cbn. rewrite !lookup_delete_Some. split.
    + intros [Hj Hx%(st_seq s Hinv)]. split; [|done]. intros <-. congruence.
    + intros [Hx Hj]. apply (st_seq s Hinv) in Hj. split; [|done]. intros <-.
      apply (st_seq s Hinv) in Hk. congruence.
  - intros x. cbn. fold txs'. rewrite dropped_is_Some. destruct (decide (x = n)) as [->|Hx].
    + rewrite lookup_delete_eq. split; [by intros []|by intros [? _]].
    + rewrite lookup_delete_ne, (st_seq_dom s Hinv) by done. fold m. tauto.
  - intros x j. cbn. intros [_ Hj]%lookup_delete_Some. by apply (st_seq_next s Hinv x).
  - intros x y jx jy Hxy. cbn. apply dropped_edge in Hxy as (Hxy & Hx & Hy).
    rewrite !lookup_delete_ne by done. by apply (st_seq_order s Hinv).
Qed.
End remove.

(** The two removals that keep the invariant. *)
Lemma remove_end {E} s n e reason : store_inv s -> txs_by_id s !! n = Some e ->
  children e = ∅ \/ (parents e = ∅ /\ reason = ReasonBlock) ->
  exists s', remove_tx (E := E) n reason s = (s', Ok (Some e)) /\ store_inv s' /\
    dom (txs_by_id s') = dom (txs_by_id s) ∖ {[n]} /\
    (forall x y, parent_edge (txs_by_id s') x y <-> parent_edge (txs_by_id s) x y /\ x <> n /\ y <> n) /\
    (forall x a, x <> n -> txs_by_id s !! x = Some a ->
      exists a', txs_by_id s' !! x = Some a' /\ entry a' = entry a /\ fee a' = fee a) /\
    seq_nos_by_tx s' = delete n (seq_nos_by_tx s).
Proof.
  intros Hinv He Hend. pose proof (st_entries s Hinv) as Hm.
  destruct (inv_ancestors _ Hm n e He) as (A & HA & _). destruct (inv_descendants _ Hm n e He) as (D & HD & _).
  destruct (proj2 (st_seq_dom s Hinv n)) as [k Hk]; [by exists e|].
  exists (dropped s n e reason A D k). split_and!.
  - by apply remove_tx_run.
  - by apply dropped_inv.
  - apply set_eq. intros x. rewrite elem_of_difference, elem_of_singleton, !elem_of_dom.
    rewrite (dropped_is_Some s Hinv n e He reason A D HA HD Hend x). tauto.
  - intros x y. by apply (dropped_edge s Hinv n e He reason A D).
  - intros x a Hx Ha. destruct (dropped_old s Hinv n e He reason A D HA HD Hend x a Hx Ha) as (a' & Ha' & Hent & Hfee & _). eauto.
  - done.
Qed.

(** ** A transaction with its descendants *)

(** [s'] is [s] without the transactions of [gone]. *)
Record without (gone : list TxId) s s' : Prop := {
  wo_dom : forall x, is_Some (txs_by_id s' !! x) <-> is_Some (txs_by_id s !! x) /\ x ∉ gone;
  wo_edge : forall x y, parent_edge (txs_by_id s') x y <-> parent_edge (txs_by_id s) x y /\ (x ∉ gone) /\ y ∉ gone;
  wo_entry : forall x a', txs_by_id s' !! x = Some a' -> exists a, txs_by_id s !! x = Some a /\ entry a' = entry a /\ fee a' = fee a;
  wo_seq : forall x, x ∉ gone -> seq_nos_by_tx s' !! x = seq_nos_by_tx s !! x
}.

Lemma without_refl s : without [] s s.
Proof.
  split; [| |by eauto|done].
  - intros x. pose proof (not_elem_of_nil x). tauto.
  - intros x y. pose proof (not_elem_of_nil x). pose proof (not_elem_of_nil y). tauto.
Qed.

Lemma without_snoc gone x s s' s'' e : without gone s s' -> txs_by_id s' !! x = Some e ->
  dom (txs_by_id s'') = dom (txs_by_id s') ∖ {[x]} ->
  (forall u v, parent_edge (txs_by_id s'') u v <-> parent_edge (txs_by_id s') u v /\ u <> x /\ v <> x) ->
  (forall u a, u <> x -> txs_by_id s' !! u = Some a -> exists a', txs_by_id s'' !! u = Some a' /\ entry a' = entry a /\ fee a' = fee a) ->
  seq_nos_by_tx s'' = delete x (seq_nos_by_tx s') -> without (gone ++ [x]) s s''.
Proof.
  intros [Hdom Hedge Hent Hseq] He Hdom' Hedge' Hent' Hseq'.
  assert (forall u, u ∉ gone ++ [x] <-> (u ∉ gone) /\ u <> x) as Hnot.
  { intros u. rewrite not_elem_of_app, not_elem_of_cons. pose proof (not_elem_of_nil u). tauto. }
  assert (forall u, is_Some (txs_by_id s'' !! u) <-> is_Some (txs_by_id s' !! u) /\ u <> x) as Hsome.
  { intros u. rewrite <- !elem_of_dom, Hdom'. set_solver. }
  split.
  - intros u. rewrite Hsome, Hdom, Hnot. tauto.
  - intros u v. rewrite Hedge', Hedge, !Hnot. tauto.
  - intros u a'' Ha''. destruct (proj1 (Hsome u)) as [[a' Ha'] Hux]; [by exists a''|].
    destruct (Hent' u a' Hux Ha') as (b & Hb & Hbe & Hbf). destruct (Hent u a' Ha') as (a & Ha & Hae & Haf).
    exists a. split; [done|]. split; congruence.
  - intros u [Hu Hux]%Hnot. rewrite Hseq', lookup_delete_ne by done. by apply Hseq.
Qed.

(** Removing a list of transactions, each after its children. *)
Lemma drop_list {E} s reason l : store_inv s -> forall gone rest s', l = gone ++ rest -> NoDup l ->
  (forall x, x ∈ l -> is_Some (txs_by_id s !! x)) ->
  (forall l1 x l2 y, l = l1 ++ x :: l2 -> parent_edge (txs_by_id s) y x -> y ∈ l1) ->
  store_inv s' -> without gone s s' ->
  exists s'' removed, try_filter_map (E := E) (fun id => remove_tx id reason) rest s' = (s'', Ok removed) /\
    store_inv s'' /\ without l s s'' /\ tx_id <$> removed = rest.
Proof.
  intros Hinv gone rest. revert gone. induction rest as [|x rest IH]; intros gone s' -> Hnd Hin Hfirst Hinv' Hwo.
  { exists s', []. rewrite app_nil_r. done. }
  assert (x ∉ gone) as Hxg. { intros Hx. apply NoDup_app in Hnd as (_ & Hdis & _). apply (Hdis x Hx). by left. }
  destruct (proj2 (wo_dom _ _ _ Hwo x)) as [e He]; [split; [apply Hin; set_solver|done]|].
  assert (children e = ∅) as Hleaf.
  { apply elem_of_equiv_empty_L. intros y Hy. apply (inv_children _ (st_entries s' Hinv') x e y He), (wo_edge _ _ _ Hwo) in Hy as (Hyx & Hyg & _).
    by apply Hyg, (Hfirst gone x rest y). }
  destruct (remove_end (E := E) s' x e reason Hinv' He ltac:(by left)) as (s1 & Hrun & Hinv1 & Hdom1 & Hedge1 & Hent1 & Hseq1).
  destruct (IH (gone ++ [x]) s1) as (s'' & removed & Hrun' & Hinv'' & Hwo'' & Hids); try done.
  { by rewrite <- app_assoc. }
  { by eapply without_snoc. }
  exists s'', (e :: removed). cbn [try_filter_map]. erewrite st_bind_run by exact Hrun. erewrite st_bind_run by exact Hrun'.
  split_and!; [done|done|done|]. cbn. rewrite Hids. f_equal. by apply (inv_id _ (st_entries s' Hinv')).
Qed.

Lemma drop_tx_and_descendants_run {E} s n reason : store_inv s ->
  exists s' removed, drop_tx_and_descendants (E := E) n reason s = (s', Ok removed) /\ store_inv s' /\
    without (tx_id <$> removed) s s' /\ NoDup (tx_id <$> removed) /\
    (forall x, x ∈ tx_id <$> removed <-> is_Some (txs_by_id s !! n) /\ (x = n \/ tc (parent_edge (txs_by_id s)) x n)) /\
    (forall l1 x l2 y, tx_id <$> removed = l1 ++ x :: l2 -> parent_edge (txs_by_id s) y x -> y ∈ l1).
Proof.
  intros Hinv. pose proof (st_entries s Hinv) as Hm. unfold drop_tx_and_descendants, ids_to_drop, get_entry.
  destruct (txs_by_id s !! n) as [e|] eqn:He.
  - destruct (postorder_spec (E := E) (children_of s) (dom (txs_by_id s)) (base.size (txs_by_id s)) [n])
      as (l & Hl & Hset & Hnd & Hord).
    { by apply closed_children, inv_children_in. }
    { intros x ->%list_elem_of_singleton. apply elem_of_dom. by exists e. }
    { by rewrite size_dom. }
    assert (forall x, x ∈ l <-> x = n \/ tc (parent_edge (txs_by_id s)) x n) as Hiff.
    { intros x. rewrite Hset, <- (tc_child _ Hm). setoid_rewrite list_elem_of_singleton.
      setoid_rewrite (rtc_iff _ _ _ _ (edge_children (E := E) s)). setoid_rewrite rtc_iff_tc. naive_solver. }
    assert (children_first (E := E) (children_of s) l) as Hfirst.
    { apply Hord; [cbn; split; [by intros y ?%not_elem_of_nil|done]|]. intros x.
      rewrite (tc_iff _ _ _ _ (edge_children (E := E) s)), (tc_child _ Hm). by apply acyclic. }
    destruct (drop_list (E := E) s reason l Hinv [] l s) as (s' & removed & Hrun & Hinv' & Hwo & Hids); try done.
    { apply Hnd, NoDup_singleton. }
    { intros x [->|Hx]%Hiff; [by exists e|]. by apply (tc_in _ Hm) in Hx as [? _]. }
    { intros l1 x l2 y -> Hyx. apply (Hfirst l1 x l2 y); [done|]. by apply edge_children, (child_edge_iff _ Hm). }
    { apply without_refl. }
    exists s', removed. rewrite Hids. split_and!; [|done|done|apply Hnd, NoDup_singleton| |].
    + erewrite st_bind_run; [exact Hrun|]. rewrite gets_run. f_equal. rewrite He.
      unfold depth_postorder_descendants, dag_depth_postorder. by rewrite (inv_id _ Hm n e He).
    + intros x. rewrite Hiff. split; [|by intros [_ ?]]. intros Hx. split; [by eexists|done].
    + intros l1 x l2 y -> Hyx. apply (Hfirst l1 x l2 y); [done|]. by apply edge_children, (child_edge_iff _ Hm).
  - exists s, []. erewrite st_bind_run by (rewrite gets_run; f_equal; by rewrite He). split_and!; try done.
    + apply without_refl.
    + apply NoDup_nil_2.
    + intros x. cbn. rewrite elem_of_nil. split; [done|]. by intros [[] _].
    + intros l1 x l2 y Hnil. by destruct l1.
Qed.
End removal.
