(* ===== verification/MempoolHistory.v ===== *)
(** * Histories of the mempool's store

    The stores that additions and removals lead to from the empty one, with the
    transactions in the order of their insertion; the theorems about them, and a
    small store to run them on. *)
From S2P Require Import Prelude Amount ChainTypes ChainConfig Utxo TxTypes CheckTransaction.
From S2P Require Import Traversal MempoolEntry MempoolStore MempoolGraph MempoolInvariant MempoolOps MempoolRemoval.

Section history.
Context `{CryptoTypes}.
Implicit Types (s : MempoolStore) (e : TxMempoolEntry) (t : TxEntry TxOrigin) (l : list (TxEntry TxOrigin)).

(** ** Histories *)

Definition keep (gone : list TxId) l : list (TxEntry TxOrigin) := filter (fun t => te_tx_id t ∉ gone) l.

(** The transactions of the store in [l], each after its children. *)
Definition after_children s (l : list TxId) : Prop :=
  (forall x, x ∈ l -> is_Some (txs_by_id s !! x)) /\
  forall (l1 l2 : list TxId) x y, l = l1 ++ x :: l2 -> parent_edge (txs_by_id s) y x -> y ∈ l1.

(** [history l s]: the operations of the code lead to [s], and [l] are the
    transactions in it, in the order of their insertion.  A transaction that got
    into a block is removed once its parents are.  The conflicts of a replacing
    transaction are removed in the order of their ids; the step covers the sets in
    which that order has every conflict after its children.  For the others
    [drop_conflicts] leaves wrong sums ([replaced_descendants_stay_counted] below);
    the code removes conflicts only when it replaces by fee, which [ENABLE_RBF]
    turns off. *)
Inductive history : list (TxEntry TxOrigin) -> MempoolStore -> Prop :=
  | history_new : history [] MempoolStore_new
  | history_add l s ent s' : history l s -> addable s ent -> add_transaction ent s = (s', Ok tt) ->
      history (l ++ [wf_entry ent]) s'
  | history_drop l s id reason s' removed : history l s ->
      drop_tx_and_descendants (E := Empty_set) id reason s = (s', Ok removed) ->
      history (keep (tx_id <$> removed) l) s'
  | history_confirm l s id e s' removed : history l s -> txs_by_id s !! id = Some e -> parents e = ∅ ->
      remove_tx (E := Empty_set) id ReasonBlock s = (s', Ok removed) -> history (keep [id] l) s'
  | history_replace l s conflicts s' : history l s -> after_children s (set_iter conflicts) ->
      drop_conflicts (E := Empty_set) conflicts s = (s', Ok tt) -> history (keep (set_iter conflicts) l) s'.

(** The number of a transaction. *)
Definition seq_of s t : Z := match seq_nos_by_tx s !! te_tx_id t with Some k => ival k | None => 0 end.

Record in_order l s : Prop := {
  io_entries : forall t, t ∈ l <-> exists e, txs_by_id s !! te_tx_id t = Some e /\ entry e = t;
  io_sorted : StronglySorted (fun t u => seq_of s t < seq_of s u) l
}.

Lemma new_inv : store_inv MempoolStore_new.
Proof.
  split.
  - split; try (intros x e He; cbn in He; by rewrite lookup_empty in He).
    + intros x e y He. cbn in He. by rewrite lookup_empty in He.
    + intros x e y He. cbn in He. by rewrite lookup_empty in He.
    + exists (fun _ => 0). intros x y (e & He & _). cbn in He. by rewrite lookup_empty in He.
  - split; unfold total_fees, total_size; cbn; rewrite dom_empty_L, sum_over_empty; [rewrite u128_MAX_eq|]; lia.
  - intros sc x. cbn. setoid_rewrite lookup_empty. set_solver.
  - intros sc x. cbn. setoid_rewrite lookup_empty. set_solver.
  - intros t x. cbn. setoid_rewrite lookup_empty. set_solver.
  - intros d x. cbn. setoid_rewrite lookup_empty. naive_solver.
  - intros x e He. cbn in He. by rewrite lookup_empty in He.
  - intros k x. cbn. by rewrite !lookup_empty.
  - intros x. cbn. by rewrite !lookup_empty.
  - intros x k Hk. cbn in Hk. by rewrite lookup_empty in Hk.
  - intros x y kx ky (e & He & _). cbn in He. by rewrite lookup_empty in He.
Qed.

Lemma StronglySorted_snoc {B} (R : relation B) (l : list B) x :
  StronglySorted R l -> (forall y, y ∈ l -> R y x) -> StronglySorted R (l ++ [x]).
Proof.
  intros Hs. induction Hs as [|y l Hs IH Hy]; intros Hx; cbn.
  - repeat constructor.
  - constructor; [apply IH; intros z Hz; apply Hx; by right|]. apply Forall_app. split; [done|].
    constructor; [apply Hx; by left|constructor].
Qed.

Lemma StronglySorted_ext {B} (R R' : relation B) (l : list B) :
  (forall x y, x ∈ l -> y ∈ l -> R x y -> R' x y) -> StronglySorted R l -> StronglySorted R' l.
Proof.
  intros Heq Hs. induction Hs as [|y l Hs IH Hy]; constructor.
  - apply IH. intros a b Ha Hb. apply Heq; by right.
  - rewrite Forall_forall in Hy |- *. intros z Hz. apply Heq; [by left|by right|by apply Hy].
Qed.

Lemma in_order_add l s ent s' e A next : store_inv s -> in_order l s -> txs_by_id s !! te_tx_id (wf_entry ent) = None ->
  entry e = wf_entry ent -> s' = indexed s e A next -> in_order (l ++ [wf_entry ent]) s'.
Proof.
  intros Hinv [Hent Hsort] Hnew He ->. set (n := te_tx_id (wf_entry ent)) in *.
  assert (tx_id e = n) as Hn by (unfold tx_id; by rewrite He).
  assert (forall t, t ∈ l -> te_tx_id t <> n) as Hold. { intros t (a & Ha & _)%Hent Heq. congruence. }
  assert (forall t, t ∈ l -> seq_of (indexed s e A next) t = seq_of s t) as Hseq.
  { intros t Ht. unfold seq_of. cbn. rewrite Hn, lookup_insert_ne; [done|]. intros Heq. by apply (Hold t Ht). }
  split.
  - intros t. rewrite elem_of_app, list_elem_of_singleton. split.
    + intros [(a & Ha & Hae)%Hent| ->].
      * destruct (added_from s e A ltac:(by rewrite Hn) _ a Ha) as (a' & Ha' & Hae'). exists a'. split; [done|congruence].
      * exists e. split; [|done]. cbn. unfold added. fold n. rewrite <- Hn. apply lookup_insert_eq.
    + intros (a' & Ha' & Hae). cbn in Ha'. destruct (decide (te_tx_id t = n)) as [Heq|Hne].
      * right. rewrite Heq in Ha'. unfold added in Ha'. rewrite <- Hn, lookup_insert_eq in Ha'. congruence.
      * left. apply Hent. destruct (added_old (txs_by_id s) e A (te_tx_id t) a') as (a & Ha & Hea & _); [by rewrite Hn|done|].
        exists a. split; [done|congruence].
  - apply StronglySorted_snoc.
    + eapply StronglySorted_ext; [|exact Hsort]. intros t u Ht Hu. by rewrite !Hseq.
    + intros t Ht. rewrite (Hseq t Ht). unfold seq_of. cbn. fold n. rewrite Hn, lookup_insert_eq.
      apply Hent in Ht as (a & Ha & _). destruct (proj2 (st_seq_dom s Hinv (te_tx_id t))) as [k Hk]; [by exists a|].
      rewrite Hk. by apply (st_seq_next s Hinv _ _ Hk).
Qed.

Lemma in_order_without l s s' gone : in_order l s -> without gone s s' -> in_order (keep gone l) s'.
Proof.
  intros [Hent Hsort] [Hdom Hedge Hstat Hseq]. split.
  - intros t. unfold keep. rewrite list_elem_of_filter, Hent. split.
    + intros (Hg & a & Ha & Hae). destruct (proj2 (Hdom (te_tx_id t))) as [a' Ha']; [split; [by exists a|done]|].
      exists a'. split; [done|]. destruct (Hstat _ _ Ha') as (a0 & Ha0 & He & _). congruence.
    + intros (a' & Ha' & Hae). destruct (proj1 (Hdom (te_tx_id t))) as [_ Hg]; [by exists a'|]. split; [done|].
      destruct (Hstat _ _ Ha') as (a0 & Ha0 & He & _). exists a0. split; [done|congruence].
  - eapply StronglySorted_ext; [|apply StronglySorted_filter, Hsort].
    intros t u [Ht _]%list_elem_of_filter [Hu _]%list_elem_of_filter. unfold seq_of. by rewrite !Hseq.
Qed.

Lemma remove_end_without s s' x e : txs_by_id s !! x = Some e ->
  dom (txs_by_id s') = dom (txs_by_id s) ∖ {[x]} ->
  (forall u v, parent_edge (txs_by_id s') u v <-> parent_edge (txs_by_id s) u v /\ u <> x /\ v <> x) ->
  (forall u a, u <> x -> txs_by_id s !! u = Some a -> exists a', txs_by_id s' !! u = Some a' /\ entry a' = entry a /\ fee a' = fee a) ->
  seq_nos_by_tx s' = delete x (seq_nos_by_tx s) -> without [x] s s'.
Proof. intros He Hd Hed Hen Hs. exact (without_snoc [] x s s s' e (without_refl s) He Hd Hed Hen Hs). Qed.

Lemma drop_conflicts_run s conflicts : store_inv s -> after_children s (set_iter conflicts) ->
  exists s', drop_conflicts (E := Empty_set) conflicts s = (s', Ok tt) /\ store_inv s' /\ without (set_iter conflicts) s s'.
Proof.
  intros Hinv [Hin Hfirst].
  destruct (drop_list (E := Empty_set) s ReasonReplaced (set_iter conflicts) Hinv [] (set_iter conflicts) s)
    as (s' & removed & Hrun & Hinv' & Hwo & _); try done; [apply NoDup_set_iter|by intros l1 x l2 y; apply Hfirst|apply without_refl|].
  exists s'. split; [|done]. unfold drop_conflicts. clear -Hrun. revert s removed Hrun.
  induction (set_iter conflicts) as [|x l IH]; intros s removed; cbn [try_filter_map try_for_each]; [by intros [-> _]%mret_Ok|].
  intros (o & s1 & Hx & (ys & s2 & Hrun & [-> _]%mret_Ok)%st_bind_Ok)%st_bind_Ok.
  erewrite st_bind_run; [by eapply IH|]. by erewrite st_bind_run by exact Hx.
Qed.

Lemma history_inv l s : history l s -> store_inv s /\ in_order l s.
Proof.
  induction 1 as [|l s ent s' _ [Hinv Hord] Hadd Hrun|l s id reason s' removed _ [Hinv Hord] Hrun|l s id e s' removed _ [Hinv Hord] He Hp Hrun
    |l s conflicts s' _ [Hinv Hord] Haft Hrun].
  - split; [apply new_inv|]. split; [|constructor]. intros t. cbn. setoid_rewrite lookup_empty.
    split; [by intros ?%not_elem_of_nil|naive_solver].
  - destruct (add_transaction_run s ent Hinv Hadd) as (e & A & next & Hrun' & Hinv' & He & _).
    rewrite Hrun in Hrun'. injection Hrun' as ->. split; [done|].
    apply (in_order_add l s ent _ e A next); try done. apply Hadd.
  - destruct (drop_tx_and_descendants_run (E := Empty_set) s id reason Hinv) as (s1 & r & Hrun' & Hinv' & Hwo & _).
    rewrite Hrun in Hrun'. injection Hrun' as -> ->. split; [done|]. by apply (in_order_without l s).
  - destruct (remove_end (E := Empty_set) s id e ReasonBlock Hinv He ltac:(by right)) as (s1 & Hrun' & Hinv' & Hd & Hed & Hen & Hs).
    rewrite Hrun in Hrun'. injection Hrun' as -> ->. split; [done|].
    apply (in_order_without l s); [done|]. by apply (remove_end_without s s1 id e).
  - destruct (drop_conflicts_run s conflicts Hinv Haft) as (s1 & Hrun' & Hinv' & Hwo).
    rewrite Hrun in Hrun'. injection Hrun' as ->. split; [done|]. by apply (in_order_without l s).
Qed.

(** ** The transactions in the order of insertion *)

Lemma take_entries {E} l : forall txs : gmap TxId TxMempoolEntry, NoDup (te_tx_id <$> l) ->
  (forall t, t ∈ l -> exists e, txs !! te_tx_id t = Some e /\ entry e = t) ->
  (try_collect (E := E) (fun id (m : gmap TxId TxMempoolEntry) =>
    match m !! id with Some e => (delete id m, Ok (entry e)) | None => (m, Panic) end) (te_tx_id <$> l) txs).2 = Ok l.
Proof.
  induction l as [|t l IH]; intros txs Hnd Hl; [done|]. cbn [fmap list_fmap] in *. apply NoDup_cons in Hnd as [Ht Hnd].
  destruct (Hl t ltac:(by left)) as (e & He & Het). cbn [try_collect].
  rewrite (st_bind_run _ _ _ (delete (te_tx_id t) txs) t) by (rewrite He; by rewrite Het).
  specialize (IH (delete (te_tx_id t) txs) Hnd). unfold mbind, st_bind at 1. cbv beta.
  destruct (try_collect _ (te_tx_id <$> l) (delete (te_tx_id t) txs)) as [s' r]. cbn in IH. rewrite IH.
  - done.
  - intros u Hu. destruct (Hl u ltac:(by right)) as (eu & Heu & Hu'). exists eu. split; [|done].
    rewrite lookup_delete_ne; [done|]. intros Heq. apply Ht. rewrite Heq. by apply list_elem_of_fmap_2.
Qed.

Definition numbered s t : usize * TxId := (default usize_zero (seq_nos_by_tx s !! te_tx_id t), te_tx_id t).

Lemma ival_numbered s t : ival (numbered s t).1 = seq_of s t.
Proof. unfold numbered, seq_of. by destruct (seq_nos_by_tx s !! te_tx_id t). Qed.

Lemma sorted_NoDup l s : StronglySorted (fun t u => seq_of s t < seq_of s u) l -> NoDup (numbered s <$> l).*1.
Proof.
  induction 1 as [|t l _ IH Ht]; cbn; [constructor|]. constructor; [|done].
  intros Hin. apply list_elem_of_fmap in Hin as (p & Heq & Hp). apply list_elem_of_fmap in Hp as (u & -> & Hu).
  rewrite Forall_forall in Ht. specialize (Ht u Hu). rewrite <- !ival_numbered in Ht.
  change (default usize_zero (seq_nos_by_tx s !! te_tx_id t)) with (numbered s t).1 in Heq. rewrite Heq in Ht. lia.
Qed.

Lemma numbered_iter l s : store_inv s -> in_order l s -> btree_iter (txs_by_seq_no s) = numbered s <$> l.
Proof.
  intros Hinv [Hent Hsort]. pose proof (sorted_NoDup l s Hsort) as Hnd.
  rewrite <- (btree_iter_of_sorted (numbered s <$> l)).
  - f_equal. apply map_eq. intros k. apply option_eq. intros x. rewrite <- elem_of_list_to_map by done.
    rewrite (st_seq s Hinv), list_elem_of_fmap. split.
    + intros Hk. destruct (proj1 (st_seq_dom s Hinv x)) as [e He]; [by exists k|].
      assert (te_tx_id (entry e) = x) as Hx by (by apply (inv_id _ (st_entries s Hinv))).
      exists (entry e). unfold numbered. rewrite Hx, Hk. split; [done|]. apply Hent. exists e. by rewrite Hx.
    + intros (t & Heq & (e & He & _)%Hent). unfold numbered in Heq. injection Heq as -> ->.
      destruct (proj2 (st_seq_dom s Hinv (te_tx_id t))) as [j ->]; [by exists e|done].
  - apply StronglySorted_Sorted. clear Hnd Hent. induction Hsort as [|t l _ IH Ht]; cbn; constructor; [done|].
    apply Forall_fmap. eapply Forall_impl; [exact Ht|]. intros u Hu.
    change (ival (numbered s t).1 <= ival (numbered s u).1). rewrite !ival_numbered. cbn in Hu. lia.
  - done.
Qed.

Lemma into_transactions_run {E} l s : store_inv s -> in_order l s -> into_transactions (E := E) s = Ok l.
Proof.
  intros Hinv Hord. unfold into_transactions. rewrite (numbered_iter l s Hinv Hord), <- list_fmap_compose.
  change (snd ∘ numbered s) with (@te_tx_id _ TxOrigin). apply take_entries.
  - pose proof (sorted_NoDup l s (io_sorted _ _ Hord)) as Hnd. rewrite <- list_fmap_compose in Hnd.
    apply (NoDup_fmap_1 (fun id => default usize_zero (seq_nos_by_tx s !! id))). by rewrite <- list_fmap_compose.
  - intros t (e & He & Het)%(io_entries _ _ Hord). eauto.
Qed.

(** ** Theorems *)

(** C17: Whatever transactions are added to the mempool's store and removed from
    it (by [history]: conflicts only with every conflict after its children), the
    store is consistent: parents and children are each other's inverse, the searches
    for ancestors and descendants return exactly what can be reached, the counts,
    fees and sizes kept with every entry are the sums over them; the indices by
    descendant score, ancestor score and creation time have exactly the entries with
    their current scores and times, the index of spenders has exactly what the
    entries need, and the sequence numbers, different for different entries and below
    the next one, are given to exactly the entries, a parent's before a child's. *)
Theorem mempool_store_consistent l s : history l s ->
  (forall x e, txs_by_id s !! x = Some e -> exists A D,
    unconfirmed_ancestors (E := Empty_set) e s = Ok A /\ is_set A (tc (parent_edge (txs_by_id s)) x) /\
    unconfirmed_descendants (E := Empty_set) e s = Ok D /\ is_set D (fun y => tc (parent_edge (txs_by_id s)) y x) /\
    sums (txs_by_id s) A e (count_with_ancestors e) (fees_with_ancestors e) (size_with_ancestors e) /\
    sums (txs_by_id s) D e (count_with_descendants e) (fees_with_descendants e) (size_with_descendants e) /\
    (forall y, y ∈ parents e <-> y ∈ sources e /\ is_Some (txs_by_id s !! y)) /\
    (forall y, y ∈ children e <-> parent_edge (txs_by_id s) y x)) /\
  (forall sc x, (sc, x) ∈ txs_by_descendant_score s <->
    exists e, txs_by_id s !! x = Some e /\ descendant_score (E := Empty_set) e = Ok sc) /\
  (forall sc x, (sc, x) ∈ txs_by_ancestor_score s <->
    exists e, txs_by_id s !! x = Some e /\ ancestor_score (E := Empty_set) e = Ok sc) /\
  (forall d x, find_conflicting_tx s d = Some x <->
    exists e, txs_by_id s !! x = Some e /\ d ∈ requires (entry e)) /\
  (forall time x, (time, x) ∈ txs_by_creation_time s <->
    exists e, txs_by_id s !! x = Some e /\ creation_time e = time) /\
  (forall x, is_Some (seq_nos_by_tx s !! x) <-> is_Some (txs_by_id s !! x)) /\
  (forall k x, txs_by_seq_no s !! k = Some x <-> seq_nos_by_tx s !! x = Some k) /\
  (forall x k, seq_nos_by_tx s !! x = Some k -> ival k < ival (next_seq_no s)) /\
  (forall x y kx ky, parent_edge (txs_by_id s) x y ->
    seq_nos_by_tx s !! x = Some kx -> seq_nos_by_tx s !! y = Some ky -> ival ky < ival kx).
Proof.
  intros [Hinv _]%history_inv. pose proof (st_entries s Hinv) as Hm.
  split; [|split_and!; apply Hinv].
  intros x e He. destruct (inv_ancestors _ Hm x e He) as (A & HA & Hsa). destruct (inv_descendants _ Hm x e He) as (D & HD & Hsd).
  exists A, D. split_and!; try done.
  - apply (ancestors_found e s A (parent_edge (txs_by_id s))); [|done|by apply (ancestors_set s x e He)].
    intros y Hy%HA. by apply (tc_in _ Hm) in Hy as [_ ?].
  - apply (descendants_found e s D (child_edge (txs_by_id s))); [|done|by apply (descendants_set s Hinv x e He)].
    intros y Hy%HD. by apply (tc_in _ Hm) in Hy as [? _].
  - intros y. by apply (inv_parents _ Hm x).
  - intros y. by apply (inv_children _ Hm x).
Qed.

(** C19: In such a store no operation panics: an addable transaction is added,
    with its parents the transactions of the store that it spends; and dropping
    a transaction removes exactly it and its descendants, every one after its
    children, and leaves the other transactions and their fees as they are. *)
Theorem mempool_store_operations l s : history l s ->
  (forall ent, addable s ent -> exists s' e, add_transaction ent s = (s', Ok tt) /\
    txs_by_id s' !! te_tx_id (wf_entry ent) = Some e /\ entry e = wf_entry ent /\ fee e = wf_fee ent /\
    (forall y, y ∈ parents e <-> y ∈ entry_sources (wf_entry ent) /\ is_Some (txs_by_id s !! y)) /\
    forall x, is_Some (txs_by_id s' !! x) <-> x = te_tx_id (wf_entry ent) \/ is_Some (txs_by_id s !! x)) /\
  (forall id reason, exists s' removed,
    drop_tx_and_descendants (E := Empty_set) id reason s = (s', Ok removed) /\ NoDup (tx_id <$> removed) /\
    (forall x, x ∈ tx_id <$> removed <-> is_Some (txs_by_id s !! id) /\ (x = id \/ tc (parent_edge (txs_by_id s)) x id)) /\
    (forall (l1 l2 : list TxId) x y, tx_id <$> removed = l1 ++ x :: l2 -> parent_edge (txs_by_id s) y x -> y ∈ l1) /\
    (forall x, is_Some (txs_by_id s' !! x) <-> is_Some (txs_by_id s !! x) /\ x ∉ tx_id <$> removed) /\
    (forall x a', txs_by_id s' !! x = Some a' -> exists a, txs_by_id s !! x = Some a /\ entry a' = entry a /\ fee a' = fee a)).
Proof.
  intros [Hinv _]%history_inv. split.
  - intros ent Hadd. destruct (add_transaction_run s ent Hinv Hadd) as (e & A & next & Hrun & _ & He & Hf & _ & Hp & _).
    assert (tx_id e = te_tx_id (wf_entry ent)) as Hid by (unfold tx_id; by rewrite He).
    exists (indexed s e A next), e. rewrite <- Hid. split_and!; try done.
    + apply lookup_insert_eq.
    + intros y. rewrite Hp. apply elem_of_parents_in_store.
    + intros x. apply added_is_Some.
  - intros id reason.
    destruct (drop_tx_and_descendants_run (E := Empty_set) s id reason Hinv) as (s' & r & Hrun & _ & Hwo & Hnd & Hiff & Hord).
    exists s', r. split_and!; try done; [|apply Hwo|apply Hwo]. intros l1 l2 x y Heq Hyx. by apply (Hord l1 x l2 y).
Qed.

(** C20: The transactions that are taken out of the store after any history come
    in the order in which they were inserted, without those that were removed,
    and a transaction comes after every transaction it spends that is there. *)
Theorem mempool_insertion_order l s : history l s ->
  into_transactions (E := Empty_set) s = Ok l /\
  forall l1 t l2 y, l = l1 ++ t :: l2 -> y ∈ entry_sources t -> y ∈ te_tx_id <$> l -> y ∈ te_tx_id <$> l1.
Proof.
  intros [Hinv Hord]%history_inv. split; [by apply into_transactions_run|].
  intros l1 t l2 y -> Hy Hin. apply list_elem_of_fmap in Hin as (u & -> & Hu).
  destruct (proj1 (io_entries _ _ Hord t)) as (e & He & Het); [set_solver|].
  destruct (proj1 (io_entries _ _ Hord u) Hu) as (eu & Heu & _).
  assert (parent_edge (txs_by_id s) (te_tx_id t) (te_tx_id u)) as Hedge.
  { exists e. split; [done|]. apply (inv_parents _ (st_entries s Hinv) _ _ _ He). split; [|by eexists].
    unfold sources. by rewrite Het. }
  destruct (proj2 (st_seq_dom s Hinv (te_tx_id t))) as [kt Hkt]; [by eexists|].
  destruct (proj2 (st_seq_dom s Hinv (te_tx_id u))) as [ku Hku]; [by eexists|].
  pose proof (st_seq_order s Hinv _ _ _ _ Hedge Hkt Hku) as Hlt.
  assert (seq_of s u < seq_of s t) as Hseq by (unfold seq_of; by rewrite Hkt, Hku).
  pose proof (io_sorted _ _ Hord) as Hsort. apply elem_of_app in Hu as [Hu|Hu]; [by apply list_elem_of_fmap_2|].
  apply StronglySorted_app in Hsort as (_ & _ & Hsort). inversion Hsort as [|? ? _ Hall]. subst.
  apply elem_of_cons in Hu as [->|Hu]; [lia|]. rewrite Forall_forall in Hall. specialize (Hall u Hu). cbn in Hall. lia.
Qed.
End history.

(** ** A small mempool *)

Module Witnesses.
#[local] Existing Instance numbered_keys.

Definition addableb (s : MempoolStore) (ent : TxEntryWithFee) : bool :=
  let n := te_tx_id (wf_entry ent) in
  is_none (txs_by_id s !! n) && forallb (fun p => bool_decide (n ∉ sources p.2)) (map_to_list (txs_by_id s)) &&
  bool_decide (n ∉ entry_sources (wf_entry ent)) && bool_decide (NoDup (requires (wf_entry ent))) &&
  forallb (fun d => is_none (find_conflicting_tx s d)) (requires (wf_entry ent)) &&
  (1000 * (total_fees (txs_by_id s) + ival (wf_fee ent)) <=? u128_MAX) &&
  (total_size (txs_by_id s) + ival (te_encoded_size (wf_entry ent)) <? 2 ^ 64) && (ival (next_seq_no s) + 1 <? 2 ^ 64).

Lemma addableb_addable s ent : addableb s ent = true -> addable s ent.
Proof.
  unfold addableb. rewrite !andb_true_iff. intros (((((((Hn & Hu) & Hs) & Hr) & Hf) & Hfe) & Hsz) & Hro).
  split.
  - by destruct (txs_by_id s !! te_tx_id (wf_entry ent)).
  - intros x e He. rewrite forallb_forall in Hu. apply (bool_decide_eq_true_1 _ (Hu (x, e) (proj1 (list_elem_of_In _ _) (proj2 (elem_of_map_to_list _ _ _) He)))).
  - by apply bool_decide_eq_true in Hs.
  - by apply bool_decide_eq_true in Hr.
  - intros d Hd. rewrite forallb_forall in Hf. specialize (Hf d (proj1 (list_elem_of_In _ _) Hd)).
    by destruct (find_conflicting_tx s d).
  - lia.
  - lia.
  - lia.
Qed.

Lemma history_runs l s ent : history l s -> addableb s ent = true -> (add_transaction ent s).2 = Ok tt ->
  history (l ++ [wf_entry ent]) (add_transaction ent s).1.
Proof.
  intros Hl Ha%addableb_addable Hok. apply (history_add l s ent); [done|done|]. rewrite <- Hok. apply surjective_pairing.
Qed.

(** Transaction [id] spends the given outputs. *)
Definition out (id index : Z) : TxInput :=
  InputUtxo {| op_source_id := SourceTransaction (Z.to_N id); op_output_index := default (@mk_bint 0 (2 ^ 32 - 1) 0 eq_refl) (bint_of_Z index) |}.
Definition nz (z : Z) : NonZeroUsize := default (@mk_bint 1 (2 ^ 64 - 1) 1 eq_refl) (bint_of_Z z).
Definition ent (id : Z) (ins : list TxInput) (f sz : Z) : TxEntryWithFee :=
  mk_with_fee (mk_entry (Z.to_N id) (mk_signed (mk_tx (Amount.lit 0) ins []) []) (Time.clamp id) (nz sz)
    (OriginLocal OriginP2p) (TxOptions_default_for (OriginLocal OriginP2p))) (Amount.lit f).

(** A chain of a parent, a child and a grandchild that spends both. *)
Definition t1 := ent 1 [out 100 0] 50 100.
Definition t2 := ent 2 [out 1 0] 70 200.
Definition t3 := ent 3 [out 1 1; out 2 0] 90 300.
Definition s1 := (add_transaction t1 MempoolStore_new).1.
Definition s2 := (add_transaction t2 s1).1.
Definition s3 := (add_transaction t3 s2).1.
Definition l3 := [wf_entry t1; wf_entry t2; wf_entry t3].

Lemma s3_history : history l3 s3.
Proof.
  apply (history_runs [wf_entry t1; wf_entry t2] s2 t3); [|vm_compute; reflexivity|vm_compute; reflexivity].
  apply (history_runs [wf_entry t1] s1 t2); [|vm_compute; reflexivity|vm_compute; reflexivity].
  apply (history_runs [] MempoolStore_new t1); [apply history_new|vm_compute; reflexivity|vm_compute; reflexivity].
Qed.

Lemma at_s3 : exists e, txs_by_id s3 !! 3%N = Some e.
Proof.
  assert (is_none (txs_by_id s3 !! 3%N) = false) as Hn by (vm_compute; reflexivity).
  destruct (txs_by_id s3 !! 3%N) as [e|]; [by exists e|done].
Defined.

Lemma mempool_store_consistent_witness : history l3 s3 /\
  exists e A, txs_by_id s3 !! 3%N = Some e /\ unconfirmed_ancestors (E := Empty_set) e s3 = Ok A /\
    is_set A (tc (parent_edge (txs_by_id s3)) 3%N) /\ ival (fees_with_ancestors e) = ival (fee e) + sum_over A (fee_of (txs_by_id s3)).
Proof.
  split; [exact s3_history|]. destruct at_s3 as [e He]. exists e.
  destruct (mempool_store_consistent l3 s3 s3_history) as [Hall _].
  destruct (Hall 3%N e He) as (A & D & Hrun & HA & _ & _ & [_ Hf _] & _). exists A. exact (conj He (conj Hrun (conj HA Hf))).
Defined.

Lemma mempool_store_operations_witness : history l3 s3 /\ exists s' removed,
  drop_tx_and_descendants (E := Empty_set) 2%N ReasonExpiry s3 = (s', Ok removed) /\ NoDup (tx_id <$> removed).
Proof.
  split; [exact s3_history|]. destruct (mempool_store_operations l3 s3 s3_history) as [_ Hdrop].
  destruct (Hdrop 2%N ReasonExpiry) as (s' & removed & Hrun & Hnd & _). exists s', removed. exact (conj Hrun Hnd).
Defined.

(** The sums of the small mempool, and what dropping its first transaction removes. *)
Example s3_sums :
  (fun e => (ival (count_with_descendants e), ival (fees_with_descendants e), ival (size_with_descendants e))) <$> txs_by_id s3 !! 1%N
    = Some (3, 210, 600) /\
  (fun e => (ival (count_with_ancestors e), ival (fees_with_ancestors e), ival (size_with_ancestors e))) <$> txs_by_id s3 !! 3%N
    = Some (3, 210, 600).
Proof. split; vm_compute; reflexivity. Qed.
Example s3_drop : match (drop_tx_and_descendants (E := Empty_set) 1%N ReasonExpiry s3).2 with Ok l => tx_id <$> l | _ => [] end = [3%N; 2%N; 1%N].
Proof. vm_compute. reflexivity. Qed.

Lemma mempool_insertion_order_witness : history l3 s3 /\ into_transactions (E := Empty_set) s3 = Ok l3.
Proof. split; [exact s3_history|]. apply (mempool_insertion_order l3 s3 s3_history). Defined.

(** [drop_conflicts] removes a set of conflicts in the order of their ids.  When a
    conflict goes before its descendant, the ancestors that the descendant had
    only through it still count it: here transaction 1 is left alone with two
    descendants. *)
Definition t3' := ent 3 [out 2 0] 90 300.
Definition s3' := (add_transaction t3' s2).1.
Definition replaced := (drop_conflicts (E := Empty_set) (list_to_set [2%N; 3%N]) s3').1.
Example replaced_descendants_stay_counted :
  base.size (txs_by_id replaced) = 1%nat /\
  (fun e => (ival (count_with_descendants e), ival (fees_with_descendants e))) <$> txs_by_id replaced !! 1%N = Some (2, 140).
Proof. split; vm_compute; reflexivity. Qed.
End Witnesses.
