(* ===== verification/CollectTxs.v ===== *)
(** * Transactions for a new block

    Models [tx_accumulator/mod.rs] and [tx_pool/collect_txs.rs] of the mempool:
    the choice of transactions for a block, best ancestor score first, parents
    before children.

    The verifier of transactions, the check of timelocks and the size of an
    encoded length are parameters; the accumulator is an interface, of which
    [DefaultTxAccumulator] is an instance.  The answers of the chainstate, which can
    be errors, are an argument of [collect_txs].  The candidates of the code's lazy
    iterator are computed at once: nothing that the loop changes is read by it. *)
From S2P Require Import Prelude Amount ChainTypes ChainConfig BlockTree Utxo TxTypes CheckTransaction.
From S2P Require Import Traversal MempoolEntry MempoolStore MempoolGraph MempoolInvariant MempoolOps MempoolRemoval MempoolHistory.

(** ** Accumulators *)

Inductive TxAccumulatorError := FeeAccumulationError (a b : Fee).
Inductive PackingStrategy := FillSpaceFromMempool | LeaveEmptySpace.

Class TransactionAccumulator `{CryptoTypes} (A : Type) := {
  add_tx : SignedTransaction -> Fee -> ST A TxAccumulatorError unit;
  done : A -> bool;
  transactions : A -> list SignedTransaction;
  acc_fees : A -> Fee;
  expected_tip : A -> BlockId;
  unlock_timestamp : A -> BlockTimestamp
}.

(** What [collect_txs] relies on: an accumulator that is [acc_safe] takes a
    transaction that is [tx_safe], or says that it is done, and does not panic. *)
Class AccumulatorLaws `{TransactionAccumulator A} (acc_safe : A -> Prop) (tx_safe : SignedTransaction -> Prop) :=
  add_tx_spec : forall tx f a, acc_safe a -> tx_safe tx ->
    let '(a', r) := add_tx tx f a in acc_safe a' /\
    match r with
    | Ok _ => (transactions a' = transactions a ++ [tx] /\ ival (acc_fees a') = ival (acc_fees a) + ival f) \/
        (done a' = true /\ transactions a' = transactions a /\ acc_fees a' = acc_fees a)
    | Err _ => transactions a' = transactions a /\ acc_fees a' = acc_fees a
    | Panic => False
    end.

(** The length of the compact encoding of a number of elements. *)
Class CompactSize := compact_encoded_size : u64 -> usize.

Record DefaultTxAccumulator `{CryptoTypes} := mk_accumulator {
  da_txs : list SignedTransaction;
  da_txs_size : usize;
  da_target_size : usize;
  da_done : bool;
  da_total_fees : Fee;
  da_expected_tip : BlockId;
  da_unlock_timestamp : BlockTimestamp
}.
Arguments mk_accumulator {_} _ _ _ _ _ _ _.

Section default.
Context `{TxParameters} `{CompactSize}.

Definition DefaultTxAccumulator_new (target_size : usize) (tip : BlockId) (t : BlockTimestamp) : DefaultTxAccumulator :=
  mk_accumulator [] usize_zero target_size false Amount.ZERO tip t.

(** [len as u64]. *)
Definition len_u64 (n : nat) : u64 := default usize_zero (bint_of_Z (Z.of_nat n mod 2 ^ 64)).

Definition total_size {E} (a : DefaultTxAccumulator) : result E usize :=
  usize_add (compact_encoded_size (len_u64 (length (da_txs a)))) (da_txs_size a).

Definition total_size_with {E} (a : DefaultTxAccumulator) (new_size : usize) : result E usize :=
  n ← usize_add (len_u64 (length (da_txs a))) usize_one;
  x ← usize_add (compact_encoded_size n) (da_txs_size a);
  usize_add x new_size.

Definition default_add_tx (tx : SignedTransaction) (tx_fee : Fee) : ST DefaultTxAccumulator TxAccumulatorError unit := fun a =>
  match (tx_size ← expect (bint_of_Z (Z.of_N (encoded_size tx)));
         total ← total_size_with a tx_size;
         mret (tx_size, total)) with
  | Ok (tx_size, total_size_with_tx) =>
      if ival total_size_with_tx <=? ival (da_target_size a) then
        match bint_of_Z (ival (da_txs_size a) + ival tx_size) with
        | None => (a, Panic)
        | Some txs_size =>
            let a1 := mk_accumulator (da_txs a) txs_size (da_target_size a) (da_done a) (da_total_fees a)
              (da_expected_tip a) (da_unlock_timestamp a) in
            match Amount.add (da_total_fees a) tx_fee with
            | None => (a1, Err (FeeAccumulationError (da_total_fees a) tx_fee))
            | Some fees =>
                let a2 := mk_accumulator (da_txs a ++ [tx]) txs_size (da_target_size a) (da_done a) fees
                  (da_expected_tip a) (da_unlock_timestamp a) in
                (a2, size ← total_size a2; assert_true (bool_decide (total_size_with_tx = size)))
            end
        end
      else (mk_accumulator (da_txs a) (da_txs_size a) (da_target_size a) true (da_total_fees a)
              (da_expected_tip a) (da_unlock_timestamp a), Ok tt)
  | Err e => (a, Err e)
  | Panic => (a, Panic)
  end.

#[export] Instance DefaultTxAccumulator_accumulator : TransactionAccumulator DefaultTxAccumulator := {|
  add_tx := default_add_tx;
  done := da_done;
  transactions := da_txs;
  acc_fees := da_total_fees;
  expected_tip := da_expected_tip;
  unlock_timestamp := da_unlock_timestamp
|}.
End default.

(** ** The collection *)

Inductive BlockConstructionError (VE CE : Type) :=
  | Validity (e : VE)
  | TipMoved (a b : BlockId)
  | Call (e : CE)
  | TxNotFound (id : TxId).
Arguments Validity {_ _} _.
Arguments TipMoved {_ _} _ _.
Arguments Call {_ _} _.
Arguments TxNotFound {_ _} _.

Section collect.
Context `{CryptoTypes} `{!TxHash}.
(** The transaction verifier and the check of timelocks, for the tip of the chain
    and the time of the accumulator. *)
Context {V VE CE : Type} (connect_transaction : SignedTransaction -> ST V VE unit).
Context (verify_timelocks : SignedTransaction -> bool).
Context {Acc : Type} `{!TransactionAccumulator Acc}.
Implicit Types (s : MempoolStore) (e : TxMempoolEntry).

Abbreviation Error := (BlockConstructionError VE CE) (only parsing).

Definition signed e : SignedTransaction := te_transaction (entry e).

(** The ids of the transactions that are in the accumulator already. *)
Definition connect_accumulated (acc : Acc) : ST V Error (list TxId) :=
  try_collect (fun tx => _ ← st_map_err Validity (connect_transaction tx); mret (get_id (transaction tx))) (transactions acc).

(** The closure of [filter_map], along the ids. *)
Fixpoint filter_candidates s (ids : list TxId) (processed : gset TxId) : result Error (list TxMempoolEntry) :=
  match ids with
  | [] => Ok []
  | id :: ids =>
      if bool_decide (id ∈ processed) then filter_candidates s ids processed
      else
        e ← expect (get_entry s id);
        es ← filter_candidates s ids ({[id]} ∪ processed);
        mret (if verify_timelocks (signed e) then e :: es else es)
  end.

Definition candidates s (transaction_ids : list TxId) (strategy : PackingStrategy) (processed : gset TxId) :
    result Error (list TxMempoolEntry) :=
  _ ← try_fold (fun (_ : unit) id => ensure (contains s id) (TxNotFound id)) tt transaction_ids;
  given_txids ← dag_depth_postorder_multiroot (base.size (txs_by_id s)) transaction_ids (parents_of s);
  let mempool_txids := match strategy with
    | FillSpaceFromMempool => reverse (set_iter (txs_by_ancestor_score s)).*2
    | LeaveEmptySpace => []
    end in
  filter_candidates s (given_txids ++ mempool_txids) processed.

(** *** The loop *)

Record loop_state := mk_loop {
  tx_iter : list TxMempoolEntry;
  pending : gmap TxId nat;
  ready : list (AncestorScore * TxMempoolEntry);
  emitted : gset TxId;
  tx_verifier : V;
  tx_accumulator : Acc
}.

Definition missing_parents (emitted : gset TxId) e : nat := length (filter (fun p => p ∉ emitted) (set_iter (parents e))).

(** Put the candidates that wait for a parent aside. *)
Fixpoint skip_waiting (emitted : gset TxId) (iter : list TxMempoolEntry) (pending : gmap TxId nat) :
    list TxMempoolEntry * gmap TxId nat :=
  match iter with
  | [] => ([], pending)
  | e :: iter' =>
      match missing_parents emitted e with
      | O => (iter, pending)
      | n => skip_waiting emitted iter' (<[tx_id e := n]> pending)
      end
  end.

(** The order of the heap: by score, then by id. *)
Definition heap_le (p q : AncestorScore * TxMempoolEntry) : bool :=
  (ival p.1 <? ival q.1) || ((ival p.1 =? ival q.1) && (tx_id p.2 <=? tx_id q.2)%N).

(** The greatest entry of the heap and the others. *)
Fixpoint heap_pop (h : list (AncestorScore * TxMempoolEntry)) : option ((AncestorScore * TxMempoolEntry) * list (AncestorScore * TxMempoolEntry)) :=
  match h with
  | [] => None
  | p :: h =>
      match heap_pop h with
      | None => Some (p, [])
      | Some (q, rest) => if heap_le p q then Some (q, p :: rest) else Some (p, h)
      end
  end.

(** [match (tx_iter.peek(), ready.peek_mut())]. *)
Definition choose (iter : list TxMempoolEntry) (h : list (AncestorScore * TxMempoolEntry)) :
    result Error (option (TxMempoolEntry * list TxMempoolEntry * list (AncestorScore * TxMempoolEntry))) :=
  match iter, heap_pop h with
  | e :: iter', Some ((score, r), h') =>
      store_score ← ancestor_score e;
      if ival score <? ival store_score then Ok (Some (e, iter', h)) else Ok (Some (r, iter, h'))
  | e :: iter', None => Ok (Some (e, iter', h))
  | [], Some ((_, r), h') => Ok (Some (r, [], h'))
  | [], None => Ok None
  end.

(** Release the children of an emitted transaction that wait for nothing else. *)
Definition release s (e : TxMempoolEntry) (st : gmap TxId nat * list (AncestorScore * TxMempoolEntry)) :
    result Error (gmap TxId nat * list (AncestorScore * TxMempoolEntry)) :=
  try_fold (fun '(pending, ready) child =>
    match pending !! child with
    | None => Ok (pending, ready)
    | Some O => Panic
    | Some 1%nat =>
        c ← expect (get_entry s child);
        score ← ancestor_score c;
        mret (delete child pending, (score, c) :: ready)
    | Some (S n) => Ok (<[child := n]> pending, ready)
    end) st (set_iter (children e)).

(** One pass of the loop: go on ([inl]) or stop ([inr]). *)
Definition pass s (st : loop_state) : result Error (loop_state + loop_state) :=
  if done (tx_accumulator st) then Ok (inr st)
  else
    let '(iter, waiting) := skip_waiting (emitted st) (tx_iter st) (pending st) in
    next ← choose iter (ready st);
    match next with
    | None => Ok (inr (mk_loop iter waiting (ready st) (emitted st) (tx_verifier st) (tx_accumulator st)))
    | Some (next_tx, iter, heap) =>
        let '(v, r) := connect_transaction (signed next_tx) (tx_verifier st) in
        match r with
        | Panic => Panic
        | Err _ => Ok (inl (mk_loop iter waiting heap (emitted st) v (tx_accumulator st)))
        | Ok _ =>
            let '(acc, r) := add_tx (signed next_tx) (fee next_tx) (tx_accumulator st) in
            match r with
            | Panic => Panic
            | Err _ => Ok (inr (mk_loop iter waiting heap (emitted st) v acc))
            | Ok _ =>
                '(waiting, heap) ← release s next_tx (waiting, heap);
                Ok (inl (mk_loop iter waiting heap ({[tx_id next_tx]} ∪ emitted st) v acc))
            end
        end
    end.

(** Every pass takes one of the candidates, so that [fuel] is their number. *)
Fixpoint passes (fuel : nat) s (st : loop_state) : result Error loop_state :=
  match fuel with
  | O => Panic
  | S fuel =>
      next ← pass s st;
      match next with
      | inl st => passes fuel s st
      | inr st => Ok st
      end
  end.

(** From the transactions of the accumulator on to the end of the loop, with the new
    verifier [fresh]. *)
Definition collection s (fresh : V) (acc : Acc) (transaction_ids : list TxId) (strategy : PackingStrategy) : result Error Acc :=
  let '(v, r) := connect_accumulated acc fresh in
  accum_ids ← r;
  let accumulated : gset TxId := list_to_set accum_ids in
  iter ← candidates s transaction_ids strategy accumulated;
  st ← passes (S (length iter)) s (mk_loop iter ∅ [] accumulated v acc);
  mret (tx_accumulator st).

(** ** What is collected *)

Context {acc_safe : Acc -> Prop} {tx_safe : SignedTransaction -> Prop} `{!AccumulatorLaws acc_safe tx_safe}.

Section loop.
Context (eligible : TxMempoolEntry -> Prop).
Context (s : MempoolStore) (Hinv : store_inv s) (acc0 : Acc) (accumulated : gset TxId).
Let m := txs_by_id s.

(** Every parent that is in the mempool comes before, or was in the accumulator. *)
Definition parents_first (out : list TxMempoolEntry) : Prop := forall l1 e l2 p, out = l1 ++ e :: l2 ->
  p ∈ parents e -> p ∈ accumulated \/ p ∈ tx_id <$> l1.

Record collected (out : list TxMempoolEntry) (acc : Acc) : Prop := {
  co_transactions : transactions acc = transactions acc0 ++ (signed <$> out);
  co_fees : ival (acc_fees acc) = ival (acc_fees acc0) + Zsum (ival ∘ fee <$> out);
  co_entries : forall e, e ∈ out -> m !! tx_id e = Some e /\ eligible e /\ tx_id e ∉ accumulated;
  co_nodup : NoDup (tx_id <$> out);
  co_order : parents_first out;
  co_safe : acc_safe acc
}.

(** The ids that are still to be dealt with. *)
Definition waiting_ids (st : loop_state) : list TxId :=
  (tx_id <$> tx_iter st) ++ (tx_id ∘ snd <$> ready st) ++ (map_to_list (pending st)).*1.

Record loop_inv (out : list TxMempoolEntry) (st : loop_state) : Prop := {
  li_iter : forall e, e ∈ tx_iter st -> m !! tx_id e = Some e /\ eligible e;
  li_ready : forall sc e, (sc, e) ∈ ready st -> m !! tx_id e = Some e /\ eligible e /\ parents e ⊆ emitted st;
  li_pending : forall c k, pending st !! c = Some k -> exists e, m !! c = Some e /\ eligible e /\
    k = base.size (parents e ∖ emitted st) /\ (0 < k)%nat;
  li_nodup : NoDup (waiting_ids st);
  li_fresh : forall x, x ∈ waiting_ids st -> x ∉ emitted st;
  li_emitted : emitted st = accumulated ∪ list_to_set (tx_id <$> out);
  li_collected : collected out (tx_accumulator st)
}.

Lemma missing_parents_size (X : gset TxId) e : missing_parents X e = base.size (parents e ∖ X).
Proof.
  unfold missing_parents, base.size, set_size. cbn. apply Permutation_length, NoDup_Permutation.
  - apply NoDup_filter, NoDup_set_iter.
  - apply NoDup_elements.
  - intros x. rewrite list_elem_of_filter, elem_of_set_iter, elem_of_elements, elem_of_difference. tauto.
Qed.

Lemma elem_of_pending_ids (pend : gmap TxId nat) c : c ∈ (map_to_list pend).*1 <-> is_Some (pend !! c).
Proof.
  rewrite list_elem_of_fmap. split.
  - intros ([c' k] & -> & Hc%elem_of_map_to_list). by exists k.
  - intros [k Hk]. exists (c, k). split; [done|]. by apply elem_of_map_to_list.
Qed.

(** Setting candidates aside. *)
Lemma skip_waiting_spec (X : gset TxId) iter pend ids iter' pend' : skip_waiting X iter pend = (iter', pend') ->
  NoDup ((tx_id <$> iter) ++ ids ++ (map_to_list pend).*1) ->
  (tx_id <$> iter') ++ ids ++ (map_to_list pend').*1 ≡ₚ (tx_id <$> iter) ++ ids ++ (map_to_list pend).*1 /\
  (forall e, e ∈ iter' -> e ∈ iter) /\
  (forall c k, pend' !! c = Some k -> pend !! c = Some k \/ exists e, e ∈ iter /\ tx_id e = c /\ k = missing_parents X e /\ (0 < k)%nat) /\
  (forall e iter'', iter' = e :: iter'' -> missing_parents X e = 0%nat).
Proof.
  revert pend. induction iter as [|e iter IH]; intros pend; cbn [skip_waiting].
  { intros [= <- <-] _. split_and!; [done|done|by left|done]. }
  destruct (missing_parents X e) as [|n] eqn:Hn.
  - intros [= <- <-] _. split_and!; [done|done|by left|]. intros e' iter'' [= <- <-]. done.
  - intros Hrun Hnd. cbn [fmap list_fmap] in Hnd. apply NoDup_cons in Hnd as [Hnew Hnd].
    assert (pend !! tx_id e = None) as Hnone.
    { apply eq_None_not_Some. intros Hs%elem_of_pending_ids. apply Hnew. set_solver. }
    assert ((tx_id <$> iter) ++ ids ++ (map_to_list (<[tx_id e := S n]> pend)).*1 ≡ₚ
            (tx_id <$> e :: iter) ++ ids ++ (map_to_list pend).*1) as Hperm.
    { rewrite (map_to_list_insert pend) by done. cbn. rewrite !app_assoc. by rewrite Permutation_middle. }
    destruct (IH _ Hrun) as (Hp & Hin & Hpend & Hhead).
    { rewrite Hperm. cbn. by constructor. }
    split_and!; [by rewrite Hp|intros e' He'; right; by apply Hin| |done].
    intros c k Hk. destruct (Hpend c k Hk) as [Hk'|(e' & He' & Hc & Hk')].
    + destruct (decide (c = tx_id e)) as [->|Hne].
      * rewrite lookup_insert_eq in Hk'. injection Hk' as <-. right. exists e. split_and!; [by left|done|done|lia].
      * rewrite lookup_insert_ne in Hk' by done. by left.
    + right. exists e'. split_and!; [by right|done|apply Hk'|apply Hk'].
Qed.

Lemma heap_pop_spec h : match heap_pop h with
  | None => h = []
  | Some (p, rest) => p :: rest ≡ₚ h
  end.
Proof.
  induction h as [|p h IH]; [done|]. cbn [heap_pop]. destruct (heap_pop h) as [[q rest]|].
  - destruct (heap_le p q); [|done]. by rewrite Permutation_swap, IH.
  - by rewrite IH.
Qed.

Lemma choose_run iter h : (forall e, e ∈ iter -> exists sc, ancestor_score (E := Error) e = Ok sc) ->
  exists o, choose iter h = Ok o /\
    match o with
    | None => iter = [] /\ h = []
    | Some (e, iter', h') => (iter = e :: iter' /\ h' = h) \/ (iter' = iter /\ exists sc, (sc, e) :: h' ≡ₚ h)
    end.
Proof.
  intros Hsc. pose proof (heap_pop_spec h) as Hpop. unfold choose.
  destruct iter as [|e iter], (heap_pop h) as [[[sc r] h']|].
  - eexists. split; [done|]. right. split; [done|]. by exists sc.
  - eexists. split; [done|]. done.
  - destruct (Hsc e ltac:(by left)) as [sc' ->]. cbn [mbind result_bind].
    destruct (ival sc <? ival sc'); (eexists; split; [done|]); [by left|right]. split; [done|]. by exists sc.
  - eexists. split; [done|]. by left.
Qed.

(** The pending entries, when those of [l] have not heard of the emitted [n] yet. *)
Definition pending_ok (X X' : gset TxId) (l : list TxId) (pend : gmap TxId nat) : Prop := forall c k, pend !! c = Some k ->
  exists e, m !! c = Some e /\ eligible e /\
    k = base.size (parents e ∖ (if decide (c ∈ l) then X else X')) /\ (0 < k)%nat.

Lemma missing_step (n : TxId) (X P : gset TxId) : n ∈ P -> n ∉ X -> base.size (P ∖ X) = S (base.size (P ∖ ({[n]} ∪ X))).
Proof.
  intros HP HX. replace (P ∖ X) with ({[n]} ∪ P ∖ ({[n]} ∪ X)).
  - rewrite size_union, size_singleton by set_solver. done.
  - apply set_eq. intros x. destruct (decide (x = n)); set_solver.
Qed.

Lemma release_fold (n : TxId) (X : gset TxId) l : n ∉ X -> NoDup l -> forall pend heap,
  (forall c e, c ∈ l -> m !! c = Some e -> n ∈ parents e) -> pending_ok X ({[n]} ∪ X) l pend ->
  exists pend' heap', try_fold (fun '(pending, ready) child =>
      match pending !! child with
      | None => Ok (pending, ready)
      | Some O => Panic
      | Some 1%nat =>
          c ← expect (get_entry s child);
          score ← ancestor_score c;
          mret (delete child pending, (score, c) :: ready)
      | Some (S n) => Ok (<[child := n]> pending, ready)
      end) (pend, heap) l = Ok (pend', heap') :> result Error _ /\
    (tx_id ∘ snd <$> heap') ++ (map_to_list pend').*1 ≡ₚ (tx_id ∘ snd <$> heap) ++ (map_to_list pend).*1 /\
    pending_ok X ({[n]} ∪ X) [] pend' /\
    (forall sc r, (sc, r) ∈ heap' -> (sc, r) ∈ heap \/
      (m !! tx_id r = Some r /\ eligible r /\ parents r ⊆ {[n]} ∪ X)).
Proof.
  intros HnX Hnd. induction Hnd as [|c l Hc Hnd IH]; intros pend heap Hpar Hok.
  { exists pend, heap. split_and!; [done|done|done|by left]. }
  cbn [try_fold]. destruct (pend !! c) as [k|] eqn:Hk.
  - destruct (Hok c k Hk) as (e & He & Hver & Hsize & Hpos). rewrite decide_True in Hsize by left.
    rewrite (missing_step n X (parents e)) in Hsize by (by apply (Hpar c e); [left|]) || done.
    assert (tx_id e = c) as Hid by (by apply (inv_id _ (st_entries s Hinv))).
    destruct k as [|[|k]]; [lia| |].
    + destruct (ancestor_score_runs (E := Error) m (st_entries s Hinv) c e (st_fits s Hinv) He) as [sc Hsc].
      assert (get_entry s c = Some e) as -> by exact He. cbn [expect mbind result_bind]. rewrite Hsc. cbn [mbind result_bind mret result_ret].
      destruct (IH (delete c pend) ((sc, e) :: heap)) as (pend' & heap' & Hrun & Hperm & Hok' & Hheap).
      { intros c' e' Hc'. apply Hpar. by right. }
      { intros c' k' [Hne Hk']%lookup_delete_Some. destruct (Hok c' k' Hk') as (e' & He' & Hv' & Hs' & Hp').
        exists e'. split_and!; [done|done| |done]. rewrite Hs'. do 2 f_equal. apply decide_ext. set_solver. }
      exists pend', heap'. split_and!; [done| |done|].
      * rewrite Hperm. cbn [fmap list_fmap]. unfold compose at 1. cbn [snd]. rewrite Hid.
        rewrite <- (map_to_list_delete pend c 1%nat Hk). cbn [fmap list_fmap fst]. by rewrite <- Permutation_middle.
      * intros sc' r Hr. destruct (Hheap sc' r Hr) as [[[= -> ->]|?]%elem_of_cons|?]; [right|by left|by right].
        rewrite Hid. split_and!; [done|done|]. intros x Hx. destruct (decide (x ∈ {[n]} ∪ X)) as [?|Hx']; [done|].
        assert (x ∈ parents e ∖ ({[n]} ∪ X)) as Hin by set_solver.
        assert (base.size (parents e ∖ ({[n]} ∪ X)) = 0%nat) as Hzero by lia. apply size_empty_inv in Hzero. set_solver.
    + destruct (IH (<[c := S k]> pend) heap) as (pend' & heap' & Hrun & Hperm & Hok' & Hheap).
      { intros c' e' Hc'. apply Hpar. by right. }
      { intros c' k' Hk'. destruct (decide (c' = c)) as [->|Hne].
        - rewrite lookup_insert_eq in Hk'. injection Hk' as <-. exists e. rewrite decide_False by done. split_and!; [done|done|lia|lia].
        - rewrite lookup_insert_ne in Hk' by done. destruct (Hok c' k' Hk') as (e' & He' & Hv' & Hs' & Hp').
          exists e'. split_and!; [done|done| |done]. rewrite Hs'. do 2 f_equal. apply decide_ext. set_solver. }
      exists pend', heap'. split_and!; [done| |done|done]. rewrite Hperm. f_equiv.
      apply NoDup_Permutation; [apply NoDup_fst_map_to_list|apply NoDup_fst_map_to_list|].
      intros x. rewrite !elem_of_pending_ids. destruct (decide (x = c)) as [->|Hne].
      * rewrite lookup_insert_eq, Hk. split; by eexists.
      * by rewrite lookup_insert_ne.
  - destruct (IH pend heap) as (pend' & heap' & Hrun & Hperm & Hok' & Hheap).
    { intros c' e' Hc'. apply Hpar. by right. }
    { intros c' k' Hk'. destruct (Hok c' k' Hk') as (e' & He' & Hv' & Hs' & Hp').
      assert (c' <> c) as Hne by (intros ->; congruence).
      exists e'. split_and!; [done|done| |done]. rewrite Hs'. do 2 f_equal. apply decide_ext. set_solver. }
    exists pend', heap'. by split_and!.
Qed.

Lemma covered (X P : gset TxId) : base.size (P ∖ X) = 0%nat -> P ⊆ X.
Proof. intros Hz%size_empty_inv. intros x Hx. destruct (decide (x ∈ X)); [done|]. set_solver. Qed.

Lemma skip_inv out st iter pend : loop_inv out st -> skip_waiting (emitted st) (tx_iter st) (pending st) = (iter, pend) ->
  let st1 := mk_loop iter pend (ready st) (emitted st) (tx_verifier st) (tx_accumulator st) in
  loop_inv out st1 /\ waiting_ids st1 ≡ₚ waiting_ids st /\
  forall e iter', iter = e :: iter' -> parents e ⊆ emitted st.
Proof.
  intros [Hi Hr Hp Hnd Hf He Hc] Hskip.
  destruct (skip_waiting_spec _ _ _ (tx_id ∘ snd <$> ready st) _ _ Hskip Hnd) as (Hperm & Hsub & Hpend & Hhead).
  cbv zeta. split_and!; [split; cbn|done|].
  - intros e Hin. by apply Hi, Hsub.
  - done.
  - intros c k [Hk|(e & Hin & <- & -> & Hpos)]%Hpend; [by apply Hp|]. exists e. rewrite missing_parents_size in *.
    destruct (Hi e Hin) as [He' Hv]. by split_and!.
  - unfold waiting_ids. cbn. by rewrite Hperm.
  - intros x. unfold waiting_ids. cbn. rewrite Hperm. apply Hf.
  - done.
  - done.
  - intros e iter' Heq. specialize (Hhead e iter' Heq). rewrite missing_parents_size in Hhead. by apply covered.
Qed.

Lemma choose_inv out st e iter heap : loop_inv out st -> (forall e iter', tx_iter st = e :: iter' -> parents e ⊆ emitted st) ->
  choose (tx_iter st) (ready st) = Ok (Some (e, iter, heap)) ->
  (m !! tx_id e = Some e /\ eligible e /\ parents e ⊆ emitted st /\ tx_id e ∉ emitted st) /\
  forall v, let st1 := mk_loop iter (pending st) heap (emitted st) v (tx_accumulator st) in
  loop_inv out st1 /\ tx_id e :: waiting_ids st1 ≡ₚ waiting_ids st.
Proof.
  intros [Hi Hr Hp Hnd Hf He Hc] Hhead Hch.
  destruct (choose_run (tx_iter st) (ready st)) as (o & Hrun & Ho).
  { intros e' [He' _]%Hi. by apply (ancestor_score_runs m (st_entries s Hinv) (tx_id e') e' (st_fits s Hinv)). }
  rewrite Hch in Hrun. injection Hrun as <-.
  assert (tx_id e :: (tx_id <$> iter) ++ (tx_id ∘ snd <$> heap) ++ (map_to_list (pending st)).*1 ≡ₚ waiting_ids st) as Hperm.
  { unfold waiting_ids. destruct Ho as [[-> ->]|(-> & sc & Hperm)]; [done|]. rewrite <- Hperm.
    change ((tx_id ∘ snd <$> (sc, e) :: heap) ++ ?l) with (tx_id e :: (tx_id ∘ snd <$> heap) ++ l). apply Permutation_middle. }
  assert (m !! tx_id e = Some e /\ eligible e /\ parents e ⊆ emitted st) as (Hme & Hver & Hpar).
  { destruct Ho as [[Heq _]|(-> & sc & Hperm')].
    - destruct (Hi e) as [??]; [rewrite Heq; by left|]. split_and!; [done|done|]. by eapply Hhead.
    - apply (Hr sc e). rewrite <- Hperm'. by left. }
  split.
  - split_and!; [done|done|done|]. apply Hf. rewrite <- Hperm. by left.
  - intros v. cbv zeta. split; [split; cbn|done].
    + intros e' He'. apply Hi. destruct Ho as [[-> _]|(-> & _)]; [by right|done].
    + intros sc' e' He'. apply (Hr sc'). destruct Ho as [[_ ->]|(_ & sc & Hperm')]; [done|]. rewrite <- Hperm'. by right.
    + done.
    + unfold waiting_ids. cbn. rewrite <- Hperm in Hnd. by apply NoDup_cons in Hnd as [_ ?].
    + intros x Hx. apply Hf. rewrite <- Hperm. by right.
    + done.
    + done.
Qed.

(** Emitting a transaction whose parents are out. *)
Lemma collected_snoc out acc acc' e : collected out acc -> m !! tx_id e = Some e -> eligible e ->
  parents e ⊆ accumulated ∪ list_to_set (tx_id <$> out) -> tx_id e ∉ accumulated ∪ list_to_set (tx_id <$> out) ->
  transactions acc' = transactions acc ++ [signed e] -> ival (acc_fees acc') = ival (acc_fees acc) + ival (fee e) ->
  acc_safe acc' -> collected (out ++ [e]) acc'.
Proof.
  intros [Htx Hfee Hent Hnd Hord _] Hme Hver Hpar Hnew Htx' Hfee' Hsafe. apply not_elem_of_union in Hnew as [Hna Hno].
  rewrite elem_of_list_to_set in Hno. split.
  - by rewrite Htx', Htx, fmap_app, <- app_assoc.
  - rewrite Hfee', Hfee, fmap_app, Zsum_app. cbn. unfold compose. lia.
  - intros e' [He'|He']%elem_of_app; [by apply Hent|]. apply list_elem_of_singleton in He' as ->. done.
  - rewrite fmap_app. apply NoDup_app. split_and!; [done| |apply NoDup_singleton].
    intros x Hx Hx'. cbn in Hx'. apply list_elem_of_singleton in Hx' as ->. done.
  - intros l1 x l2 p Heq Hp. destruct l2 as [|z l2] using rev_ind.
    + apply app_inj_tail in Heq as [-> ->]. apply Hpar in Hp. set_solver.
    + rewrite app_comm_cons, app_assoc in Heq. apply app_inj_tail in Heq as [-> _]. by apply (Hord l1 x l2 p).
  - done.
Qed.

Lemma collected_same out acc acc' : collected out acc -> transactions acc' = transactions acc -> acc_fees acc' = acc_fees acc ->
  acc_safe acc' -> collected out acc'.
Proof. intros [Htx Hfee Hent Hnd Hord _] Ht Hf Hs. split; [by rewrite Ht|by rewrite Hf|done|done|done|done]. Qed.

(** The verifier does not panic in the states it can be in, and the transactions are
    safe for the accumulator. *)
Context (vinv : V -> Prop).
Context (Hverifier : forall tx v, vinv v -> vinv (connect_transaction tx v).1 /\ (connect_transaction tx v).2 <> Panic).
Context (Htxs : forall x e, m !! x = Some e -> tx_safe (signed e)).

Lemma release_inv out st e acc v : loop_inv out st -> m !! tx_id e = Some e -> tx_id e ∉ emitted st ->
  parents e ⊆ emitted st -> eligible e -> tx_id e ∉ waiting_ids st ->
  exists pend heap, release s e (pending st, ready st) = Ok (pend, heap) /\
    let st1 := mk_loop (tx_iter st) pend heap ({[tx_id e]} ∪ emitted st) v acc in
    length (waiting_ids st1) = length (waiting_ids st) /\
    (collected (out ++ [e]) acc -> loop_inv (out ++ [e]) st1).
Proof.
  intros [Hi Hr Hp Hnd Hf He Hc] Hme Hnew Hpar Hver Hwait.
  destruct (release_fold (tx_id e) (emitted st) (set_iter (children e)) Hnew (NoDup_set_iter _) (pending st) (ready st))
    as (pend & heap & Hrun & Hperm & Hok & Hheap).
  { intros c ec Hc'%elem_of_set_iter Hec. apply (inv_children _ (st_entries s Hinv) (tx_id e) e c Hme) in Hc' as (e' & He' & Hin).
    fold m in He'. congruence. }
  { intros c k Hk. destruct (Hp c k Hk) as (ec & Hec & Hv & Hs & Hpos). exists ec. split_and!; [done|done| |done].
    case_decide as Hin; [done|]. rewrite Hs. f_equal. apply set_eq. intros x.
    assert (tx_id e ∉ parents ec) as Hno; [|set_solver]. intros Hin'. apply Hin, elem_of_set_iter.
    apply (inv_children _ (st_entries s Hinv) (tx_id e) e c Hme). by exists ec. }
  exists pend, heap. split; [done|]. cbv zeta.
  assert (waiting_ids (mk_loop (tx_iter st) pend heap ({[tx_id e]} ∪ emitted st) v acc) ≡ₚ waiting_ids st) as Hids.
  { unfold waiting_ids. cbn. by rewrite Hperm. }
  split; [by rewrite Hids|]. intros Hcol. split; cbn.
  - done.
  - intros sc r Hin. destruct (Hheap sc r Hin) as [(Hmr & Hvr & Hpr)%Hr|?]; [|done]. split_and!; [done|done|set_solver].
  - intros c k Hk. destruct (Hok c k Hk) as (ec & Hec & Hv & Hs & Hpos). exists ec.
    rewrite decide_False in Hs by apply not_elem_of_nil. done.
  - by rewrite Hids.
  - intros x Hx. rewrite Hids in Hx. pose proof (Hf x Hx). assert (x <> tx_id e) by (by intros ->). set_solver.
  - rewrite He, fmap_app, list_to_set_app_L. set_solver.
  - done.
Qed.

Lemma pass_run out st : loop_inv out st -> vinv (tx_verifier st) -> exists r, pass s st = Ok r /\
  match r with
  | inr st' => exists out', collected out' (tx_accumulator st')
  | inl st' => vinv (tx_verifier st') /\ (length (waiting_ids st') < length (waiting_ids st))%nat /\
      ((exists out', loop_inv out' st') \/ (done (tx_accumulator st') = true /\ exists out', collected out' (tx_accumulator st')))
  end.
Proof.
  intros Hst Hvi. pose proof (li_collected _ _ Hst) as Hcol. unfold pass.
  destruct (done (tx_accumulator st)) eqn:Hd; [eexists; split; [done|]; by exists out|].
  destruct (skip_waiting (emitted st) (tx_iter st) (pending st)) as [iter pend] eqn:Hskip.
  destruct (skip_inv out st iter pend Hst Hskip) as (Hst1 & Hids1 & Hhead). set (st1 := mk_loop iter pend _ _ _ _) in *.
  destruct (choose_run iter (ready st)) as (o & Hch & Ho).
  { intros e' [He' _]%(li_iter _ _ Hst1). by apply (ancestor_score_runs m (st_entries s Hinv) (tx_id e') e' (st_fits s Hinv)). }
  rewrite Hch. cbn [mbind result_bind]. destruct o as [[[e iter'] heap]|]; [|eexists; split; [done|]; by exists out].
  destruct (choose_inv out st1 e iter' heap Hst1 Hhead Hch) as ((Hme & Hver & Hpar & Hnew) & Hst2).
  pose proof (Hverifier (signed e) (tx_verifier st) Hvi) as [Hvi' Hnp].
  destruct (connect_transaction (signed e) (tx_verifier st)) as [v r].
  destruct (Hst2 v) as [Hinv2 Hids2]. set (st2 := mk_loop iter' _ heap _ v _) in *.
  assert (length (waiting_ids st2) < length (waiting_ids st))%nat as Hlt by (rewrite <- Hids1, <- Hids2; cbn; lia).
  destruct r as [u|e'|]; [|eexists; split; [done|]; split; [done|]; split; [done|left; by exists out]|by destruct Hnp].
  pose proof (add_tx_spec (signed e) (fee e) (tx_accumulator st) (co_safe _ _ Hcol) (Htxs _ _ Hme)) as Hadd.
  destruct (add_tx (signed e) (fee e) (tx_accumulator st)) as [acc r]. destruct Hadd as [Hsafe Hadd].
  destruct r as [u'|e'|]; [| |done].
  - assert (tx_id e ∉ waiting_ids st2) as Hwait.
    { pose proof (li_nodup _ _ Hst1) as Hnd. rewrite <- Hids2 in Hnd. by apply NoDup_cons in Hnd as [? _]. }
    destruct (release_inv out st2 e acc v Hinv2 Hme Hnew Hpar Hver Hwait) as (pend' & heap' & Hrel & Hlen & Hnext).
    change (release s e (pend, heap)) with (release s e (pending st2, ready st2)). rewrite Hrel. cbn [mbind result_bind].
    eexists. split; [done|]. split; [done|]. split; [eapply Nat.le_lt_trans; [apply Nat.eq_le_incl; exact Hlen|exact Hlt]|].
    destruct Hadd as [[Htx Hfee]|(Hdone & Htx & Hfee)].
    + left. exists (out ++ [e]). apply Hnext. pose proof (li_emitted _ _ Hinv2) as Hem.
      change (emitted st2) with (emitted st1) in Hem. rewrite Hem in Hpar, Hnew.
      exact (collected_snoc out (tx_accumulator st) acc e Hcol Hme Hver Hpar Hnew Htx Hfee Hsafe).
    + right. split; [done|]. exists out. exact (collected_same out _ acc Hcol Htx Hfee Hsafe).
  - eexists. split; [done|]. exists out. destruct Hadd as [Htx Hfee]. exact (collected_same out _ acc Hcol Htx Hfee Hsafe).
Qed.

Lemma passes_run out st fuel : loop_inv out st -> vinv (tx_verifier st) -> (length (waiting_ids st) < fuel)%nat ->
  exists st' out', passes fuel s st = Ok st' /\ collected out' (tx_accumulator st').
Proof.
  revert out st. induction fuel as [|fuel IH]; intros out st Hst Hvi Hfuel; [lia|]. cbn [passes].
  destruct (pass_run out st Hst Hvi) as (r & -> & Hr). cbn [mbind result_bind]. destruct r as [st'|st'].
  - destruct Hr as (Hvi' & Hlt & [[out' Hst']|(Hdone & out' & Hcol)]); [by apply (IH out'); [| |lia]|].
    destruct fuel as [|fuel]; [lia|]. cbn [passes]. unfold pass. rewrite Hdone. cbn. by exists st', out'.
  - destruct Hr as [out' Hcol]. by exists st', out'.
Qed.
End loop.

(** ** The candidates *)

Lemma filter_candidates_run s ids processed : entries_inv (txs_by_id s) -> (forall x, x ∈ ids -> is_Some (txs_by_id s !! x)) ->
  exists es, filter_candidates s ids processed = Ok es /\ NoDup (tx_id <$> es) /\
    forall e, e ∈ es <-> txs_by_id s !! tx_id e = Some e /\ verify_timelocks (signed e) = true /\
      tx_id e ∈ ids /\ (tx_id e ∉ processed).
Proof.
  intros Hm. revert processed. induction ids as [|id ids IH]; intros processed Hin; cbn [filter_candidates].
  { exists []. split_and!; [done|constructor|]. intros e. set_solver. }
  case_bool_decide as Hp.
  - destruct (IH processed) as (es & Hrun & Hnd & Hes); [set_solver|]. exists es. split_and!; [done|done|].
    intros e. rewrite Hes. assert (tx_id e <> id \/ tx_id e = id) as [?|?] by (destruct (decide (tx_id e = id)); auto); set_solver.
  - destruct (Hin id ltac:(set_solver)) as [e He]. pose proof (inv_id _ Hm id e He) as Hid.
    destruct (IH ({[id]} ∪ processed)) as (es & -> & Hnd & Hes); [set_solver|].
    unfold get_entry. rewrite He. cbn [expect mbind result_bind mret result_ret]. eexists. split; [done|].
    assert (id ∉ tx_id <$> es) as Hnot. { intros (e' & -> & He')%list_elem_of_fmap. apply Hes in He'. set_solver. }
    split; [case_match; [by cbn; rewrite Hid; constructor|done]|].
    intros e'. destruct (decide (tx_id e' = id)) as [Heq|Hne].
    + assert (e' ∈ es -> False) as Hn. { intros Hi. apply Hnot. rewrite <- Heq. by apply list_elem_of_fmap_2. }
      split.
      * intros Hi. case_match eqn:Hv; [|done]. apply elem_of_cons in Hi as [->|?]; [|done]. rewrite Hid. set_solver.
      * rewrite Heq. intros (He' & Hv & _). rewrite He in He'. injection He' as <-. rewrite Hv. by left.
    + assert (e' ∈ (if verify_timelocks (signed e) then e :: es else es) <-> e' ∈ es) as ->.
      { case_match; [|done]. rewrite elem_of_cons. split; [intros [->|?]; done|by right]. }
      rewrite Hes. set_solver.
Qed.

(** The ids among which a block is filled: the given ones with their ancestors, and
    with [FillSpaceFromMempool] all. *)
Definition proposed s (given : list TxId) (strategy : PackingStrategy) (x : TxId) : Prop :=
  strategy = FillSpaceFromMempool \/ exists a, a ∈ given /\ rtc (parent_edge (txs_by_id s)) a x.

Lemma ensure_all s ids : (forall x, x ∈ ids -> is_Some (txs_by_id s !! x)) ->
  try_fold (fun (_ : unit) id => ensure (contains s id) (TxNotFound id)) tt ids = Ok tt :> result Error unit.
Proof.
  induction ids as [|id ids IH]; intros Hin; [done|]. cbn [try_fold].
  assert (contains s id = true) as -> by (apply bool_decide_true, Hin; by left). cbn. apply IH. set_solver.
Qed.

Lemma rtc_edge_parents s x y : rtc (edge (E := Error) (parents_of s)) x y <-> rtc (parent_edge (txs_by_id s)) x y.
Proof.
  split; (induction 1 as [|x' y' z' Hxy _ IH]; [done|]); (eapply rtc_l; [|exact IH]); by apply (edge_parents (E := Error)).
Qed.


Lemma ensure_missing s ids x : x ∈ ids -> txs_by_id s !! x = None -> exists y, y ∈ ids /\ txs_by_id s !! y = None /\
  try_fold (fun (_ : unit) id => ensure (contains s id) (TxNotFound id)) tt ids = Err (TxNotFound y) :> result Error unit.
Proof.
  intros Hx Hnone. induction ids as [|id ids IH]; [by apply not_elem_of_nil in Hx|]. cbn [try_fold].
  destruct (contains s id) eqn:Hid; cbn; [apply bool_decide_eq_true in Hid|apply bool_decide_eq_false in Hid].
  - apply elem_of_cons in Hx as [->|Hx]; [rewrite Hnone in Hid; by destruct Hid|].
    destruct (IH Hx) as (y & Hy & Hn & Hrun). exists y. split_and!; [by right|done|done].
  - exists id. split_and!; [by left|by apply eq_None_not_Some|done].
Qed.

Lemma candidates_run s given strategy processed : store_inv s -> (forall x, x ∈ given -> is_Some (txs_by_id s !! x)) ->
  exists es, candidates s given strategy processed = Ok es /\ NoDup (tx_id <$> es) /\
    forall e, e ∈ es <-> txs_by_id s !! tx_id e = Some e /\ verify_timelocks (signed e) = true /\
      proposed s given strategy (tx_id e) /\ (tx_id e ∉ processed).
Proof.
  intros Hinv Hgiven. pose proof (st_entries s Hinv) as Hm. pose proof (inv_parents_in _ Hm) as Hin.
  unfold candidates. rewrite ensure_all by done. cbn [mbind result_bind].
  destruct (postorder_spec (E := Error) (parents_of s) (dom (txs_by_id s)) (base.size (txs_by_id s)) given)
    as (items & Hrun & Hitems & _).
  { by apply closed_parents. }
  { intros x Hx. by apply elem_of_dom, Hgiven. }
  { by rewrite size_dom. }
  rewrite Hrun. cbn [mbind result_bind]. set (filling := match strategy with FillSpaceFromMempool => _ | LeaveEmptySpace => _ end).
  assert (forall x, x ∈ filling <-> strategy = FillSpaceFromMempool /\ is_Some (txs_by_id s !! x)) as Hfill.
  { intros x. unfold filling. destruct strategy; [|set_solver]. rewrite elem_of_reverse, list_elem_of_fmap. split.
    - intros ([sc y] & -> & Hy%elem_of_set_iter). apply (st_ancestor_score s Hinv) in Hy as (e & He & _). by split; [|exists e].
    - intros [_ [e He]]. destruct (ancestor_score_runs (E := Empty_set) _ Hm x e (st_fits s Hinv) He) as [sc Hsc].
      exists (sc, x). split; [done|]. apply elem_of_set_iter, (st_ancestor_score s Hinv). by exists e. }
  assert (forall x, x ∈ items -> is_Some (txs_by_id s !! x)) as Hknown.
  { intros x (a & Ha & Hr)%Hitems. apply elem_of_dom.
    eapply (closed_rtc (E := Error) (parents_of s)); [by apply closed_parents| |done]. by apply elem_of_dom, Hgiven. }
  destruct (filter_candidates_run s (items ++ filling) processed Hm) as (es & Hes & Hnd & Hall).
  { intros x [Hx|Hx]%elem_of_app; [by apply Hknown|by apply Hfill]. }
  exists es. split_and!; [done|done|]. intros e. rewrite Hall, elem_of_app, Hfill, Hitems. unfold proposed.
  setoid_rewrite rtc_edge_parents. split.
  - intros (He & Hv & Hp & Hn). split_and!; [done|done| |done]. destruct Hp as [?|[? _]]; [by right|by left].
  - intros (He & Hv & Hp & Hn). split_and!; [done|done| |done]. destruct Hp as [?|?]; [right; by split; [|exists e]|by left].
Qed.

(** ** The whole collection *)

Definition accumulated_ids (acc : Acc) : gset TxId := list_to_set ((fun tx => get_id (transaction tx)) <$> transactions acc).

(** What a transaction of the mempool needs for a place in the block. *)
Definition may_enter s given strategy e : Prop :=
  verify_timelocks (signed e) = true /\ proposed s given strategy (tx_id e).

Context (vinv : V -> Prop).
Context (Hverifier : forall tx v, vinv v -> vinv (connect_transaction tx v).1 /\ (connect_transaction tx v).2 <> Panic).

Lemma connect_accumulated_run acc v : vinv v -> vinv (connect_accumulated acc v).1 /\ match (connect_accumulated acc v).2 with
  | Ok ids => (list_to_set ids : gset TxId) = accumulated_ids acc
  | Err (Validity e) => exists tx v1, tx ∈ transactions acc /\ (connect_transaction tx v1).2 = Err e
  | _ => False
  end.
Proof.
  unfold connect_accumulated, accumulated_ids. generalize (transactions acc) as l. intros l. set (F := fun tx : SignedTransaction => _).
  assert (forall tx v, F tx v = match connect_transaction tx v with
    | (v', Ok _) => (v', Ok (get_id (transaction tx)))
    | (v', Err e) => (v', Err (Validity e))
    | (v', Panic) => (v', Panic)
    end) as HF.
  { intros tx v'. unfold F, mbind, st_bind, st_map_err. by destruct (connect_transaction tx v') as [? [| |]]. }
  clearbody F. revert v. induction l as [|tx l IH]; intros v Hv; [done|]. cbn [try_collect]. unfold mbind, st_bind.
  rewrite HF. pose proof (Hverifier tx v Hv) as [Hv1 Hnp].
  destruct (connect_transaction tx v) as [v1 [u|e|]] eqn:Htx; cbn in *; [|split; [done|]; exists tx, v; rewrite Htx; split; [by left|done]|done].
  specialize (IH v1 Hv1). destruct (try_collect F l v1) as [v2 [ids|e|]]; cbn in *; destruct IH as [Hv2 IH]; (split; [done|]); [by rewrite IH| |done].
  destruct e as [e| | |]; [|done..]. destruct IH as (tx' & v' & Hin & He). exists tx', v'. split; [by right|done].
Qed.

Lemma collection_run s fresh acc given strategy : store_inv s ->
  (forall x e, txs_by_id s !! x = Some e -> tx_safe (signed e)) -> acc_safe acc -> vinv fresh ->
  match collection s fresh acc given strategy with
  | Ok acc' => (forall x, x ∈ given -> is_Some (txs_by_id s !! x)) /\
      exists out, collected (may_enter s given strategy) s acc (accumulated_ids acc) out acc'
  | Err (TxNotFound x) => x ∈ given /\ txs_by_id s !! x = None
  | Err (Validity e) => exists tx v, tx ∈ transactions acc /\ (connect_transaction tx v).2 = Err e
  | Err (TipMoved _ _) | Err (Call _) | Panic => False
  end.
Proof.
  intros Hinv Htxs Hsafe Hfresh. unfold collection.
  destruct (connect_accumulated_run acc fresh Hfresh) as [Hvi Hacc].
  destruct (connect_accumulated acc fresh) as [v [ids|e|]]; cbn [fst snd mbind result_bind] in *; [|by destruct e|done].
  rewrite Hacc. destruct (decide (Forall (fun x => is_Some (txs_by_id s !! x)) given)) as [Hall|Hmissing].
  - rewrite Forall_forall in Hall. destruct (candidates_run s given strategy (accumulated_ids acc) Hinv Hall) as (es & -> & Hnd & Hes).
    cbn [mbind result_bind].
    destruct (passes_run (may_enter s given strategy) s Hinv acc (accumulated_ids acc) vinv Hverifier Htxs []
      (mk_loop es ∅ [] (accumulated_ids acc) v acc) (S (length es))) as (st & out & -> & Hcol).
    + split; cbn.
      * intros e (He & Hv & Hp & _)%Hes. done.
      * intros sc e ?%not_elem_of_nil. done.
      * intros c k. by rewrite lookup_empty.
      * unfold waiting_ids. cbn. by rewrite map_to_list_empty, app_nil_r.
      * intros x. unfold waiting_ids. cbn. rewrite map_to_list_empty, app_nil_r. intros (e & -> & He%Hes)%list_elem_of_fmap. apply He.
      * set_solver.
      * split; cbn; [by rewrite app_nil_r|lia|intros e ?%not_elem_of_nil; done|constructor| |done]. intros l1 e l2 p Hnil. by destruct l1.
    + done.
    + unfold waiting_ids. cbn. rewrite map_to_list_empty, app_nil_r, length_fmap. lia.
    + cbn [mbind result_bind]. split; [done|]. by exists out.
  - apply not_Forall_Exists, Exists_exists in Hmissing as (x & Hx & Hn%eq_None_not_Some); [|intros y; apply _].
    destruct (ensure_missing s given x Hx Hn) as (y & Hy & Hny & Herr). unfold candidates. rewrite Herr. done.
Qed.
End collect.

(** ** The whole of [collect_txs] *)

Section collect_txs.
Context `{CryptoTypes} `{!TxHash}.
(** The verifier, its errors, the errors of a call to the chainstate, of the
    chainstate and of the handle; then [connect_transaction] of the verifier and
    [verify_timelocks] for a tip, the height of the next block and a time. *)
Context {V VE CE HE : Type}.
Context (connect_transaction : TransactionSourceForConnect -> SignedTransaction -> BlockTimestamp -> ST V VE unit).
Context (verify_timelocks : BlockId -> BlockHeight -> BlockTimestamp -> SignedTransaction -> bool).
Context {Acc : Type} `{!TransactionAccumulator Acc}.
Implicit Types (s : MempoolStore) (e : TxMempoolEntry).

(** What the chainstate answers: to [tx_verifier::create], which panics if the best
    block can not be read, to [get_best_block_index], and to [best_block_hash] at the
    end. *)
Record Answers := mk_answers {
  ans_verifier : result Empty_set V;
  ans_best_index : result CE (result HE GenBlockIndex);
  ans_final_tip : result HE BlockId
}.

(** [Result::expect]. *)
Definition expect_ok {E F A} (r : result E A) : result F A := match r with Ok a => Ok a | _ => Panic end.

Definition collect_txs s (mempool_tip : BlockId) (ans : Answers) (acc : Acc) (transaction_ids : list TxId)
    (strategy : PackingStrategy) : result (BlockConstructionError VE CE) (option Acc) :=
  let time := unlock_timestamp acc in
  if negb (bool_decide (expected_tip acc = mempool_tip)) then Ok None
  else
    verifier ← expect_ok (ans_verifier ans);
    best_index ← map_err Call (ans_best_index ans);
    best_index ← expect_ok best_index;
    tx_source ← for_mempool best_index;
    next_height ← BlockHeight.next_height (gen_block_height best_index);
    acc ← collection (fun tx => connect_transaction tx_source tx time) (verify_timelocks mempool_tip next_height time)
            s verifier acc transaction_ids strategy;
    final_chainstate_tip ← expect_ok (ans_final_tip ans);
    _ ← ensure (bool_decide (mempool_tip = final_chainstate_tip)) (TipMoved mempool_tip final_chainstate_tip);
    mret (Some acc).

(** The chainstate answers everything. *)
Definition answered ans : Prop :=
  (exists v, ans_verifier ans = Ok v) /\
  (exists best, ans_best_index ans = Ok (Ok best) /\ ival (gen_block_height best) < 2 ^ 64 - 1) /\
  exists tip, ans_final_tip ans = Ok tip.

Context {acc_safe : Acc -> Prop} {tx_safe : SignedTransaction -> Prop} `{!AccumulatorLaws acc_safe tx_safe}.
Context (vinv : V -> Prop).
Context (Hverifier : forall src tx t v, vinv v ->
  vinv (connect_transaction src tx t v).1 /\ (connect_transaction src tx t v).2 <> Panic).

Lemma collect_txs_run s tip ans acc given strategy : store_inv s ->
  (forall x e, txs_by_id s !! x = Some e -> tx_safe (signed e)) -> acc_safe acc ->
  (forall v, ans_verifier ans = Ok v -> vinv v) ->
  match collect_txs s tip ans acc given strategy with
  | Ok None => expected_tip acc <> tip
  | Ok (Some acc') => expected_tip acc = tip /\ ans_final_tip ans = Ok tip /\
      exists best next out, ans_best_index ans = Ok (Ok best) /\ ival next = ival (gen_block_height best) + 1 /\
        collected (may_enter (verify_timelocks tip next (unlock_timestamp acc)) s given strategy) s acc
          (accumulated_ids acc) out acc' (acc_safe := acc_safe)
  | Err (TxNotFound x) => x ∈ given /\ txs_by_id s !! x = None
  | Err (TipMoved a b) => a = tip /\ ans_final_tip ans = Ok b /\ a <> b
  | Err (Call e) => ans_best_index ans = Err e
  | Err (Validity e) => exists src tx v, tx ∈ transactions acc /\ (connect_transaction src tx (unlock_timestamp acc) v).2 = Err e
  | Panic => ~ answered ans
  end.
Proof.
  intros Hinv Htxs Hsafe Hfresh. unfold collect_txs. case_bool_decide as Htip; cbn [negb]; [|done]. unfold answered.
  destruct (ans_verifier ans) as [v|[]|] eqn:Hv; cbn [expect_ok mbind result_bind]; [|naive_solver].
  destruct (ans_best_index ans) as [[best|e|]|e|] eqn:Hb; cbn [map_err expect_ok mbind result_bind]; [|naive_solver..].
  unfold for_mempool, for_mempool_with_height, BlockHeight.next_height.
  destruct (bint_of_Z (ival (gen_block_height best) + 1)) as [next|] eqn:Hn; cbn [expect mbind result_bind].
  2: { apply bint_of_Z_None in Hn. pose proof (bint_range (gen_block_height best)). intros (_ & (b & [= <-] & Hlt) & _). lia. }
  apply bint_of_Z_Some in Hn. rewrite (proj2 (Z.ltb_lt _ _)) by lia. cbn [assert_true mbind result_bind].
  set (src := SourceMempool best next).
  pose proof (collection_run (CE := CE) (fun tx => connect_transaction src tx (unlock_timestamp acc))
    (verify_timelocks tip next (unlock_timestamp acc)) vinv (fun tx v => Hverifier src tx (unlock_timestamp acc) v)
    s v acc given strategy Hinv Htxs Hsafe (Hfresh v eq_refl)) as Hrun.
  destruct (collection _ _ s v acc given strategy) as [acc'|[e|? ?|?|x]|]; cbn [mbind result_bind]; [| |done..].
  - destruct Hrun as [_ [out Hout]]. destruct (ans_final_tip ans) as [b|?|] eqn:Hf; cbn [expect_ok mbind result_bind]; [|naive_solver..].
    case_bool_decide as Heq; cbn; [|done]. subst b. split_and!; [done|done|]. by exists best, next, out.
  - destruct Hrun as (tx & v1 & Hin & He). by exists src, tx, v1.
Qed.
End collect_txs.

(** ** The default accumulator *)

(** What is documented of the compact encoding: at most nine bytes for a [u64]. *)
Class CompactSizeLaws `{CompactSize} := compact_encoded_size_bound : forall n, ival (compact_encoded_size n) <= 9.

Section default_laws.
Context `{TxParameters} `{!CompactSize} `{!CompactSizeLaws}.

(** The sizes are far from [usize::MAX]. *)
Definition tx_fits (tx : SignedTransaction) : Prop := (0 < encoded_size tx)%N /\ Z.of_N (encoded_size tx) < 2 ^ 62.

Record accumulator_fits (target : usize) (a : DefaultTxAccumulator) : Prop := {
  af_target : da_target_size a = target;
  af_small : ival target < 2 ^ 62;
  af_size : ival (da_txs_size a) <= ival target;
  af_sum : Zsum ((fun tx => Z.of_N (encoded_size tx)) <$> da_txs a) <= ival (da_txs_size a);
  af_txs : forall tx, tx ∈ da_txs a -> (0 < encoded_size tx)%N;
  af_total : da_txs a <> [] -> ival (compact_encoded_size (len_u64 (length (da_txs a)))) +
    Zsum ((fun tx => Z.of_N (encoded_size tx)) <$> da_txs a) <= ival target
}.

Lemma length_le_sum (l : list SignedTransaction) : (forall tx, tx ∈ l -> (0 < encoded_size tx)%N) ->
  Z.of_nat (length l) <= Zsum ((fun tx => Z.of_N (encoded_size tx)) <$> l).
Proof.
  induction l as [|tx l IH]; intros Hl; [done|]. rewrite fmap_cons. cbn [Zsum foldr length].
  pose proof (Hl tx ltac:(by left)). specialize (IH ltac:(set_solver)). unfold Zsum in *. lia.
Qed.

Lemma len_u64_small (n : nat) : Z.of_nat n < 2 ^ 64 -> ival (len_u64 n) = Z.of_nat n.
Proof.
  intros Hn. unfold len_u64. rewrite Z.mod_small by lia. destruct (bint_of_Z (Z.of_nat n)) as [k|] eqn:Hk; cbn.
  - by apply bint_of_Z_Some in Hk.
  - apply bint_of_Z_None in Hk. lia.
Qed.

Lemma usize_add_fits {E} (a b : usize) : ival a + ival b < 2 ^ 64 -> exists c, usize_add a b = Ok c :> result E usize /\ ival c = ival a + ival b.
Proof.
  intros Hlt. unfold usize_add. destruct (bint_of_Z (ival a + ival b)) as [c|] eqn:Hc; cbn.
  - exists c. split; [done|]. by apply bint_of_Z_Some in Hc.
  - apply bint_of_Z_None in Hc. pose proof (bint_range a). pose proof (bint_range b). lia.
Qed.

Lemma accumulated_length target a : accumulator_fits target a -> Z.of_nat (length (da_txs a)) < 2 ^ 62.
Proof. intros [_ Ht Hs Hsum Htx _]. pose proof (length_le_sum _ Htx). lia. Qed.

Lemma total_size_with_run {E} target a n : accumulator_fits target a -> ival n < 2 ^ 62 -> exists c total,
  total_size_with a n = Ok total :> result E usize /\ c = compact_encoded_size (len_u64 (S (length (da_txs a)))) /\
  ival total = ival c + ival (da_txs_size a) + ival n.
Proof.
  intros Ha Hn. pose proof (accumulated_length target a Ha) as Hlen. destruct Ha as [_ Ht Hs _ _ _]. pose proof (compact_encoded_size_bound (len_u64 (S (length (da_txs a))))) as Hb.
  eexists. unfold total_size_with.
  destruct (usize_add_fits (E := E) (len_u64 (length (da_txs a))) usize_one) as (k & -> & Hk).
  { rewrite len_u64_small by lia. cbn. lia. }
  rewrite len_u64_small in Hk by lia. cbn in Hk. cbn [mbind result_bind].
  assert (k = len_u64 (S (length (da_txs a)))) as ->. { apply bint_eq. rewrite len_u64_small; lia. }
  destruct (usize_add_fits (E := E) (compact_encoded_size (len_u64 (S (length (da_txs a))))) (da_txs_size a)) as (x & -> & Hx); [lia|].
  cbn [mbind result_bind]. destruct (usize_add_fits (E := E) x n) as (total & -> & Htot); [lia|].
  exists total. split_and!; [done|done|lia].
Qed.

#[export] Instance default_laws target : AccumulatorLaws (accumulator_fits target) tx_fits.
Proof.
  intros tx f a Ha [Hpos Hlt]. cbn [add_tx DefaultTxAccumulator_accumulator]. unfold default_add_tx.
  destruct (bint_of_Z (Z.of_N (encoded_size tx))) as [n|] eqn:Hn; [|apply bint_of_Z_None in Hn; lia].
  apply bint_of_Z_Some in Hn. cbn [expect mbind result_bind].
  destruct (total_size_with_run (E := TxAccumulatorError) target a n Ha ltac:(lia)) as (c & total & -> & -> & Htot). cbn [mbind result_bind mret result_ret].
  pose proof (bint_range (compact_encoded_size (len_u64 (S (length (da_txs a)))))) as Hc.
  pose proof (accumulated_length target a Ha) as Hlen. destruct Ha as [Heq Ht Hs Hsum Htx Hto]. rewrite Heq.
  destruct (Z.leb_spec (ival total) (ival target)) as [Hle|Hgt]; [|split; [by split|by right]].
  destruct (bint_of_Z (ival (da_txs_size a) + ival n)) as [k|] eqn:Hk; [|apply bint_of_Z_None in Hk; pose proof (bint_range (da_txs_size a)); lia].
  apply bint_of_Z_Some in Hk. destruct (Amount.add (da_total_fees a) f) as [fees|] eqn:Hf.
  - apply Amount_add_Some in Hf. assert (length (da_txs a ++ [tx]) = S (length (da_txs a))) as Hl by (rewrite length_app; cbn; lia).
    destruct (usize_add_fits (E := TxAccumulatorError) (compact_encoded_size (len_u64 (S (length (da_txs a))))) k) as (sz & Hrun & Hsz); [lia|].
    assert (sz = total) as -> by (apply bint_eq; lia). unfold total_size. cbn [da_txs da_txs_size]. rewrite Hl, Hrun. cbn [mbind result_bind].
    rewrite bool_decide_true by done. split; [|by left].
    assert (Zsum ((fun tx => Z.of_N (encoded_size tx)) <$> da_txs a ++ [tx]) =
            Zsum ((fun tx => Z.of_N (encoded_size tx)) <$> da_txs a) + Z.of_N (encoded_size tx)) as Hsum'.
    { rewrite fmap_app, Zsum_app. cbn. lia. }
    split; cbn [da_txs da_txs_size da_target_size]; [done|done|lia|lia| |rewrite Hl; lia].
    intros tx' [?|Htx1%list_elem_of_singleton]%elem_of_app; [by apply Htx|by subst].
  - split; [|done]. split; cbn [da_txs da_txs_size da_target_size]; [done|done|lia|lia|done|done].
Qed.
End default_laws.

(** ** The template of a block *)

Section template.
Context `{CryptoTypes} `{!TxHash} `{!TxParameters} `{!CompactSize} `{!CompactSizeLaws}.
Context {V VE CE HE : Type}.
Context (connect_transaction : TransactionSourceForConnect -> SignedTransaction -> BlockTimestamp -> ST V VE unit).
Context (verify_timelocks : BlockId -> BlockHeight -> BlockTimestamp -> SignedTransaction -> bool).

(** C18: A block template made from the mempool after any history.  The verifier is
    any one that does not panic in the states [vinv] it can be in.  Making the
    template panics only if the chainstate does not answer: the verifier can not be
    made, the best index (below the greatest height) or the tip at the end can not
    be read.  It is refused only when the expected tip is not the mempool's, when
    the call to the chainstate fails, when a given transaction is not in the mempool,
    or when the tip moved meanwhile.  Otherwise the transactions are distinct ones of
    the mempool whose timelocks are open at the next height, each of them after every
    transaction of the mempool that it spends from; they are the given ones with
    their ancestors unless the rest of the mempool may fill the block, they fit into
    the target size, and the fees are the sum of theirs. *)
Theorem block_template l s tip (ans : Answers (V := V) (CE := CE) (HE := HE)) (vinv : V -> Prop) target expected t given strategy :
  history l s ->
  (forall v, ans_verifier ans = Ok v -> vinv v) ->
  (forall src tx time v, vinv v ->
    vinv (connect_transaction src tx time v).1 /\ (connect_transaction src tx time v).2 <> Panic) ->
  (forall x e, txs_by_id s !! x = Some e -> tx_fits (signed e)) -> ival target < 2 ^ 62 ->
  match collect_txs connect_transaction verify_timelocks s tip ans (DefaultTxAccumulator_new target expected t) given strategy with
  | Ok None => expected <> tip
  | Ok (Some a) => expected = tip /\ ans_final_tip ans = Ok tip /\
      exists (best : GenBlockIndex) (next : BlockHeight) (out : list TxMempoolEntry),
      ans_best_index ans = Ok (Ok best) /\ ival next = ival (gen_block_height best) + 1 /\
      da_txs a = signed <$> out /\ ival (da_total_fees a) = Zsum (ival ∘ fee <$> out) /\ NoDup (tx_id <$> out) /\
      (forall e, e ∈ out -> txs_by_id s !! tx_id e = Some e /\ verify_timelocks tip next t (signed e) = true /\
        (strategy = FillSpaceFromMempool \/ exists g, g ∈ given /\ rtc (parent_edge (txs_by_id s)) g (tx_id e))) /\
      (forall l1 e l2 p, out = l1 ++ e :: l2 -> p ∈ entry_sources (entry e) -> is_Some (txs_by_id s !! p) -> p ∈ tx_id <$> l1) /\
      (out <> [] -> ival (compact_encoded_size (len_u64 (length out))) +
        Zsum ((fun e => Z.of_N (encoded_size (signed e))) <$> out) <= ival target)
  | Err (TxNotFound x) => x ∈ given /\ txs_by_id s !! x = None
  | Err (TipMoved a b) => a = tip /\ ans_final_tip ans = Ok b /\ a <> b
  | Err (Call e) => ans_best_index ans = Err e
  | Err (Validity _) => False
  | Panic => ~ answered ans
  end.
Proof.
  intros [Hinv _]%history_inv Hfresh Hv Hfits Htarget. set (a0 := DefaultTxAccumulator_new target expected t).
  assert (accumulator_fits target a0) as Ha0.
  { split; cbn; [done|done|apply (bint_range target)|lia|intros tx ?%not_elem_of_nil; done|done]. }
  pose proof (collect_txs_run connect_transaction verify_timelocks vinv Hv s tip ans a0 given strategy Hinv Hfits Ha0 Hfresh) as Hrun.
  destruct (collect_txs _ _ _ _ _ _ _ _) as [[a|]|[e|b1 b2|e|x]|]; [|done| |done..].
  - destruct Hrun as (He & Hf & best & next & out & Hbest & Hnext & [Htx Hfee Hent Hnd Hord Hsafe]).
    cbn [transactions acc_fees DefaultTxAccumulator_accumulator a0 DefaultTxAccumulator_new da_txs da_total_fees app] in Htx, Hfee.
    split_and!; [done|done|]. exists best, next, out. split_and!; [done|done|done|done|done| | |].
    + intros e (Hme & [Hvt Hp] & _)%Hent. done.
    + intros l1 e l2 p Heq Hp Hsome. destruct (Hord l1 e l2 p Heq) as [Hno|?]; [|by apply not_elem_of_empty in Hno|done].
      apply (inv_parents _ (st_entries s Hinv) (tx_id e) e); [apply Hent; set_solver|done].
    + intros Hne. pose proof (af_total target a Hsafe) as Htot.
      rewrite Htx, length_fmap, <- list_fmap_compose in Htot. apply Htot. by destruct out.
  - by destruct Hrun as (src & tx & v & Hno%not_elem_of_nil & _).
Qed.
End template.

(** ** A block template of the small mempool *)

Module TemplateWitnesses.
Import MempoolHistory.Witnesses.
#[local] Existing Instance numbered_keys.
#[local] Instance any_hash : TxHash := fun _ => 0%N.
#[local] Instance sizes : TxParameters := {| encoded_size := fun tx => N.of_nat (length (inputs (transaction tx))); is_alphanumeric_beyond_ascii := fun _ => false |}.
#[local] Instance one_byte : CompactSize := fun _ => usize_one.
#[local] Instance one_byte_laws : CompactSizeLaws.
Proof. intros n. cbn. lia. Qed.

(** A verifier that counts what it connects, and panics beyond a thousand. *)
Definition counts (_ : TransactionSourceForConnect) (tx : SignedTransaction) (_ : BlockTimestamp) : ST nat Empty_set unit :=
  fun n => if (n <? 1000)%nat then (Nat.min (S n) 999, Ok tt) else (n, Panic).
Definition target : usize := default usize_zero (bint_of_Z 5).
Definition time0 : BlockTimestamp := default (@mk_bint 0 (2 ^ 64 - 1) 0 eq_refl) (bint_of_Z 0).
Definition answers : Answers (CE := Empty_set) (HE := Empty_set) :=
  mk_answers (Ok 0%nat) (Ok (Ok (GenBlockIndex.Genesis 7%N time0))) (Ok 7%N).
Definition template (given : list TxId) (strategy : PackingStrategy) :=
  collect_txs counts (fun _ _ _ _ => true) s3 7%N answers (DefaultTxAccumulator_new target 7%N time0) given strategy.

(** The parents come along and come first. *)
Example template_runs :
  match template [3%N] LeaveEmptySpace with Ok (Some a) => Some (length <$> (inputs ∘ transaction <$> da_txs a), ival (da_total_fees a)) | _ => None end
    = Some ([1%nat; 1%nat; 2%nat], 210).
Proof. vm_compute. reflexivity. Qed.

(** The post order alone does not give that: with a transaction and its grandparent
    as the roots, the grandparent comes last, and the others wait for it. *)
Example roots_come_last :
  dag_depth_postorder_multiroot (E := Empty_set) 3 [3%N; 1%N] (parents_of s3) = Ok [2%N; 3%N; 1%N] /\
  match template [3%N; 1%N] LeaveEmptySpace with Ok (Some a) => Some (length <$> (inputs ∘ transaction <$> da_txs a)) | _ => None end
    = Some [1%nat; 1%nat; 2%nat].
Proof. split; vm_compute; reflexivity. Qed.

Lemma s3_fits x e : txs_by_id s3 !! x = Some e -> tx_fits (signed e).
Proof.
  intros He. assert (forallb (fun p => (0 <? encoded_size (signed p.2))%N && (Z.of_N (encoded_size (signed p.2)) <? 2 ^ 62))
    (map_to_list (txs_by_id s3)) = true) as Hall by (vm_compute; reflexivity).
  rewrite forallb_forall in Hall. apply elem_of_map_to_list, list_elem_of_In, Hall in He.
  apply andb_true_iff in He as [H1%N.ltb_lt H2%Z.ltb_lt]. exact (conj H1 H2).
Qed.

Lemma fresh_counts (n : nat) : ans_verifier answers = Ok n -> (n < 1000)%nat.
Proof. intros [= <-]. lia. Qed.
Lemma counts_on src tx time n : (n < 1000)%nat -> ((counts src tx time n).1 < 1000)%nat /\ (counts src tx time n).2 <> Panic.
Proof. intros Hn%Nat.ltb_lt. unfold counts. rewrite Hn. cbn [fst snd]. split; [lia|discriminate]. Qed.

(** Without an answer at the end there is no template. *)
Example no_final_tip : collect_txs counts (fun _ _ _ _ => true) s3 7%N
  (mk_answers (CE := Empty_set) (HE := unit) (Ok 0%nat) (Ok (Ok (GenBlockIndex.Genesis 7%N time0))) (Err tt))
  (DefaultTxAccumulator_new target 7%N time0) [3%N] LeaveEmptySpace = Panic.
Proof. vm_compute. reflexivity. Qed.

Lemma block_template_witness : history l3 s3 /\ exists a out, template [3%N] LeaveEmptySpace = Ok (Some a) /\
  da_txs a = signed <$> out /\ NoDup (tx_id <$> out) /\ ival (da_total_fees a) = Zsum (ival ∘ fee <$> out).
Proof.
  split; [exact s3_history|].
  assert (match template [3%N] LeaveEmptySpace with Ok (Some _) => true | _ => false end = true) as Hok by (vm_compute; reflexivity).
  pose proof (block_template counts (fun _ _ _ _ => true) l3 s3 7%N answers (fun n => n < 1000)%nat target 7%N time0 [3%N] LeaveEmptySpace
    s3_history fresh_counts counts_on s3_fits ltac:(vm_compute; reflexivity)) as Ht. fold (template [3%N] LeaveEmptySpace) in Ht.
  destruct (template [3%N] LeaveEmptySpace) as [[a|]|e|]; [|discriminate Hok|discriminate Hok|discriminate Hok].
  destruct Ht as (_ & _ & _ & _ & out & _ & _ & Htx & Hf & Hnd & _). exists a, out. exact (conj eq_refl (conj Htx (conj Hnd Hf))).
Defined.
End TemplateWitnesses.
