(* ===== verification/WorkQueue.v ===== *)
(** * The queue of orphans to be processed

    Models [pool/work_queue/mod.rs] of the mempool: per-peer queues of work that
    are served in rounds, one item for each peer that has work.

    The pseudo-random generators are a parameter: a source of numbers and
    permutations that is threaded through the operations.  The handler of [pick]
    changes a state of its own, which is threaded as well. *)
From S2P Require Import Prelude Amount ChainTypes MempoolEntry.

(** ** Randomness *)

(** [gen_range(0..n)] and [shuffle]. *)
Class Randomness (R : Type) := {
  gen_range : nat -> R -> nat * R;
  shuffle : list PeerId -> R -> list PeerId * R
}.
Class RandomnessLaws `{Randomness R} := {
  gen_range_lt : forall n r, (0 < n)%nat -> ((gen_range n r).1 < n)%nat;
  shuffle_perm : forall l r, (shuffle l r).1 ≡ₚ l
}.

(** [Vec::pop] and [slice::swap]. *)
Definition vec_pop {A} (l : list A) : option (A * list A) :=
  match reverse l with
  | [] => None
  | x :: rest => Some (x, reverse rest)
  end.

Definition vec_swap {A} (i j : nat) (l : list A) : list A :=
  match l !! i, l !! j with
  | Some x, Some y => <[j := x]> (<[i := y]> l)
  | _, _ => l
  end.

(** ** The queues *)

Abbreviation PeerQueue W := (gset W).

Section peer_queue.
Context `{BTreeKey W}.

Definition pop_first (q : PeerQueue W) : option (W * PeerQueue W) :=
  match set_iter q with
  | [] => None
  | x :: _ => Some (x, q ∖ {[x]})
  end.

(** Every turn takes an item, so that [fuel] is their number and one. *)
Fixpoint peer_pick {E H B} (fuel : nat) (handler : W -> H -> result E (H * option B)) (q : PeerQueue W) (h : H) :
    result E (PeerQueue W * H * option B) :=
  match fuel with
  | O => Panic
  | S fuel =>
      match pop_first q with
      | None => Ok (q, h, None)
      | Some (x, q) =>
          '(h, ret) ← handler x h;
          match ret with
          | Some b => Ok (q, h, Some b)
          | None => peer_pick fuel handler q h
          end
      end
  end.
End peer_queue.

Record WorkQueue (W : Type) `{Countable W} := mk_queue {
  work_queue : gmap PeerId (PeerQueue W);
  scheduled : list PeerId
}.
Arguments mk_queue {_ _ _} _ _.
Arguments work_queue {_ _ _} _.
Arguments scheduled {_ _ _} _.

Section queue.
Context `{BTreeKey W} `{Randomness R}.
Implicit Types (wq : WorkQueue W) (r : R) (p : PeerId).

Definition WorkQueue_new : WorkQueue W := mk_queue ∅ [].
Definition queue_is_empty wq : bool := match scheduled wq with [] => true | _ => false end.

Definition queue_insert p (item : W) wq r : WorkQueue W * R * bool :=
  match work_queue wq !! p with
  | Some q => (mk_queue (<[p := {[item]} ∪ q]> (work_queue wq)) (scheduled wq), r, bool_decide (item ∉ q))
  | None =>
      let sched := scheduled wq ++ [p] in
      let '(pos, r) := gen_range (length sched) r in
      (mk_queue (<[p := {[item]}]> (work_queue wq)) (vec_swap pos (length sched - 1) sched), r, true)
  end.

Definition advance_round wq r : WorkQueue W * R :=
  match scheduled wq with
  | [] =>
      let kept := filter (fun pq => pq.2 <> ∅) (work_queue wq) in
      let '(sched, r) := shuffle (btree_iter kept).*1 r in
      (mk_queue kept sched, r)
  | _ => (wq, r)
  end.

(** Every turn takes a peer from the schedule, which is filled again at most once:
    [fuel] is its length and two. *)
Fixpoint pick_loop {E H B} (fuel : nat) (handler : PeerId -> W -> H -> result E (H * option B)) wq r (h : H) :
    result E (WorkQueue W * R * H * option B) :=
  match fuel with
  | O => Panic
  | S fuel =>
      match vec_pop (scheduled wq) with
      | None => Ok (wq, r, h, None)
      | Some (peer, rest) =>
          let wq := mk_queue (work_queue wq) rest in
          match work_queue wq !! peer with
          | None =>
              let '(wq, r) := advance_round wq r in
              pick_loop fuel handler wq r h
          | Some q =>
              _ ← assert_true (negb (bool_decide (q = ∅)));
              '(q, h, ret) ← peer_pick (S (base.size q)) (handler peer) q h;
              let '(wq, r) := advance_round (mk_queue (<[peer := q]> (work_queue wq)) rest) r in
              Ok (wq, r, h, ret)
          end
      end
  end.

Definition pick {E H B} (handler : PeerId -> W -> H -> result E (H * option B)) wq r (h : H) :=
  pick_loop (length (scheduled wq) + 2) handler wq r h.

Definition remove_peer p wq : WorkQueue W * bool :=
  (mk_queue (delete p (work_queue wq)) (scheduled wq), bool_decide (is_Some (work_queue wq !! p))).

(** ** The states of a peer *)

Inductive peer_state := Absent | Scheduled | Waiting | Done | Disconnected.

(** [None] is the state that the data structure excludes. *)
Definition state_of wq p : option peer_state :=
  match bool_decide (p ∈ scheduled wq), (fun q : gset W => bool_decide (q = ∅)) <$> work_queue wq !! p with
  | false, None => Some Absent
  | false, Some false => Some Waiting
  | false, Some true => Some Done
  | true, None => Some Disconnected
  | true, Some false => Some Scheduled
  | true, Some true => None
  end.

(** The items that wait for a peer. *)
Definition work_of wq p : gset W := default ∅ (work_queue wq !! p).

Record queue_inv wq : Prop := {
  qi_nodup : NoDup (scheduled wq);
  qi_work : forall p, p ∈ scheduled wq -> work_queue wq !! p <> Some ∅;
  qi_round : scheduled wq = [] -> work_queue wq = ∅
}.

Lemma state_of_total wq p : queue_inv wq -> is_Some (state_of wq p).
Proof.
  intros Hinv. unfold state_of. case_bool_decide as Hp; [|by destruct (work_queue wq !! p) as [q|]; cbn; try case_bool_decide].
  pose proof (qi_work wq Hinv p Hp) as Hq. destruct (work_queue wq !! p) as [q|]; cbn; [|done].
  rewrite bool_decide_false; [done|congruence].
Qed.

(** ** Vectors *)

Lemma vec_pop_None {A} (l : list A) : vec_pop l = None <-> l = [].
Proof.
  unfold vec_pop. destruct (reverse l) as [|x l'] eqn:Hl; split; try done.
  - intros _. apply (f_equal reverse) in Hl. by rewrite reverse_involutive in Hl.
  - intros ->. done.
Qed.

Lemma vec_pop_Some {A} (l : list A) x rest : vec_pop l = Some (x, rest) <-> l = rest ++ [x].
Proof.
  unfold vec_pop. split.
  - destruct (reverse l) as [|y l'] eqn:Hl; [done|]. intros [= <- <-]. apply (f_equal reverse) in Hl.
    by rewrite reverse_involutive, reverse_cons in Hl.
  - intros ->. rewrite reverse_app, reverse_singleton. cbn [app]. by rewrite reverse_involutive.
Qed.

(** The new element and a random other one change places. *)
Lemma vec_swap_last {A} (l : list A) x pos : (pos < length (l ++ [x]))%nat ->
  vec_swap pos (length (l ++ [x]) - 1) (l ++ [x]) ≡ₚ l ++ [x].
Proof.
  rewrite length_app. cbn. intros Hpos. replace (length l + 1 - 1)%nat with (length l) by lia. unfold vec_swap.
  rewrite (list_lookup_middle l [] x (length l)) by done.
  destruct (decide (pos = length l)) as [->|Hne].
  - rewrite (list_lookup_middle l [] x (length l)) by done. rewrite !list_insert_id; [done| |]; rewrite ?list_insert_id; by apply list_lookup_middle.
  - destruct (lookup_lt_is_Some_2 l pos) as [y Hy]; [lia|]. rewrite lookup_app_l, Hy by lia.
    rewrite insert_app_l by lia. rewrite insert_app_r_alt by (rewrite length_insert; lia).
    rewrite length_insert, Nat.sub_diag. cbn.
    transitivity ((take pos l ++ y :: drop (S pos) l) ++ [x]); [|by rewrite take_drop_middle].
    rewrite insert_take_drop by lia. rewrite <- !app_assoc. f_equiv. cbn. rewrite <- !Permutation_cons_append. constructor.
Qed.

(** ** Serving one peer *)

(** [handled h l h' o]: the handler looks at the items [l], one after the other,
    dismissing all but the last. *)
Inductive handled {E H B} (handler : W -> H -> result E (H * option B)) : H -> list W -> H -> option B -> Prop :=
  | handled_none h : handled handler h [] h None
  | handled_accepted h x h' b : handler x h = Ok (h', Some b) -> handled handler h [x] h' (Some b)
  | handled_dismissed h x h1 l h2 o : handler x h = Ok (h1, None) -> handled handler h1 l h2 o -> handled handler h (x :: l) h2 o.

Lemma set_iter_head (q : gset W) x l : set_iter q = x :: l -> x ∈ q /\ set_iter (q ∖ {[x]}) = l.
Proof.
  intros Hq. assert (x ∈ q) as Hx by (apply elem_of_set_iter; rewrite Hq; by left). split; [done|].
  pose proof (NoDup_set_iter q) as Hnd. rewrite Hq in Hnd. apply NoDup_cons in Hnd as [Hxl Hnd].
  pose proof (set_iter_sorted q) as Hs. rewrite Hq in Hs. apply StronglySorted_inv in Hs as [Hs _].
  apply (StronglySorted_unique key_le); [apply set_iter_sorted|done|].
  apply NoDup_Permutation; [apply NoDup_set_iter|done|]. intros y.
  assert (y ∈ set_iter q <-> y = x \/ y ∈ l) as Hy by (rewrite Hq; apply elem_of_cons). rewrite elem_of_set_iter in Hy.
  rewrite elem_of_set_iter, elem_of_difference, elem_of_singleton, Hy. split; [tauto|]. intros Hl. split; [by right|]. by intros ->.
Qed.

Lemma set_iter_nil (q : gset W) : set_iter q = [] <-> q = ∅.
Proof.
  split; [|by intros ->; apply set_iter_empty]. intros Hq. apply set_eq. intros x. rewrite <- elem_of_set_iter, Hq. set_solver.
Qed.

Lemma peer_pick_run {E H' B} (handler : W -> H' -> result E (H' * option B)) fuel q h :
  (forall x h, exists ho, handler x h = Ok ho) -> (base.size q < fuel)%nat ->
  exists tried rest h' o, peer_pick fuel handler q h = Ok (q ∖ list_to_set tried, h', o) /\
    set_iter q = tried ++ rest /\ handled handler h tried h' o /\ (o = None -> rest = []) /\ (q <> ∅ -> tried <> []).
Proof.
  intros Hok. revert q h. induction fuel as [|fuel IH]; intros q h Hfuel; [lia|]. cbn [peer_pick]. unfold pop_first.
  destruct (set_iter q) as [|x l] eqn:Hq.
  { apply set_iter_nil in Hq as ->. exists [], [], h, None. split_and!; [do 3 f_equal; set_solver|done|constructor|done|done]. }
  destruct (set_iter_head q x l Hq) as [Hx Hl]. destruct (Hok x h) as [[h1 o] Hrun]. rewrite Hrun. cbn [mbind result_bind].
  destruct o as [b|].
  - exists [x], l, h1, (Some b). split_and!; [|done|by constructor|done|done]. do 3 f_equal. cbn. set_solver.
  - destruct (IH (q ∖ {[x]}) h1) as (tried & rest & h2 & o & Hpick & Hl' & Hh & Hend & _).
    { rewrite size_difference, size_singleton by set_solver. assert (base.size q <> 0%nat); [|lia]. intros Hz%size_empty_inv. set_solver. }
    exists (x :: tried), rest, h2, o. rewrite Hpick. split_and!; [|by rewrite <- Hl, Hl'|by econstructor|done|done].
    do 3 f_equal. cbn. set_solver.
Qed.

(** ** Rounds *)

Definition new_round (s : peer_state) : peer_state :=
  match s with
  | Waiting => Scheduled
  | Done => Absent
  | s => s
  end.

Lemma state_of_scheduled wq p : p ∈ scheduled wq -> state_of wq p =
  match work_queue wq !! p with None => Some Disconnected | Some q => if bool_decide (q = ∅) then None else Some Scheduled end.
Proof. intros Hp. unfold state_of. rewrite bool_decide_true by done. destruct (work_queue wq !! p) as [q|]; cbn; [|done]. by case_bool_decide. Qed.

Lemma state_of_not_scheduled wq p : p ∉ scheduled wq -> state_of wq p =
  match work_queue wq !! p with None => Some Absent | Some q => if bool_decide (q = ∅) then Some Done else Some Waiting end.
Proof. intros Hp. unfold state_of. rewrite bool_decide_false by done. destruct (work_queue wq !! p) as [q|]; cbn; [|done]. by case_bool_decide. Qed.

Context `{!RandomnessLaws}.

Lemma advance_round_run wq r : NoDup (scheduled wq) -> (forall p, p ∈ scheduled wq -> work_queue wq !! p <> Some ∅) ->
  queue_inv (advance_round wq r).1 /\ (forall p, work_of (advance_round wq r).1 p = work_of wq p) /\
  forall p s, state_of wq p = Some s ->
    state_of (advance_round wq r).1 p = Some (if decide (scheduled wq = []) then new_round s else s).
Proof.
  intros Hnd Hwork. unfold advance_round. destruct (scheduled wq) as [|p0 sched] eqn:Hsched; cycle 1.
  { cbn. split_and!; [split; rewrite Hsched; done|done|]. intros p s Hs. by rewrite Hs. }
  set (kept := filter _ _). pose proof (shuffle_perm (btree_iter kept).*1 r) as Hperm.
  destruct (shuffle (btree_iter kept).*1 r) as [sched r']. cbn in Hperm |- *.
  assert (forall p, p ∈ sched <-> is_Some (kept !! p)) as Hin.
  { intros p. rewrite Hperm, list_elem_of_fmap. split.
    - intros ([p' q] & -> & Hq%elem_of_btree_iter). by exists q.
    - intros [q Hq]. exists (p, q). split; [done|]. by apply elem_of_btree_iter. }
  assert (forall p, kept !! p = match work_queue wq !! p with Some q => if bool_decide (q = ∅) then None else Some q | None => None end) as Hkept.
  { intros p. unfold kept. rewrite map_lookup_filter. destruct (work_queue wq !! p) as [q|]; cbn; [|done].
    case_bool_decide as Hq; [by rewrite option_guard_False by (by intros ?)|by rewrite option_guard_True]. }
  split_and!.
  - split; cbn.
    + rewrite Hperm. apply btree_iter_NoDup.
    + intros p _. rewrite Hkept. destruct (work_queue wq !! p) as [q|]; [|done]. case_bool_decide; [done|congruence].
    + intros ->. apply map_empty. intros p. destruct (kept !! p) as [q|] eqn:Hq; [|done].
      assert (p ∈ ([] : list PeerId)) as Hp by (apply Hin; by exists q). by apply not_elem_of_nil in Hp.
  - intros p. unfold work_of. cbn. rewrite Hkept. destruct (work_queue wq !! p) as [q|]; cbn; [|done]. by case_bool_decide as Hq; subst.
  - intros p s. rewrite (state_of_not_scheduled wq) by (rewrite Hsched; apply not_elem_of_nil).
    destruct (decide (p ∈ sched)) as [Hp|Hp].
    + rewrite state_of_scheduled by done. cbn. rewrite Hin, Hkept in Hp. rewrite Hkept.
      destruct (work_queue wq !! p) as [q|]; [|by destruct Hp]. case_bool_decide as Hq; [by destruct Hp|]. rewrite bool_decide_false by done.
      by intros [= <-].
    + rewrite state_of_not_scheduled by done. cbn. rewrite Hin, Hkept in Hp. rewrite Hkept.
      destruct (work_queue wq !! p) as [q|]; [|by intros [= <-]]. case_bool_decide as Hq; [by intros [= <-]|]. destruct Hp. by exists q.
Qed.

(** ** The next peer *)

(** The turns of [pick] that only take disconnected peers from the schedule. *)
Fixpoint skip_gone (fuel : nat) wq r : WorkQueue W * R :=
  match fuel with
  | O => (wq, r)
  | S fuel =>
      match vec_pop (scheduled wq) with
      | None => (wq, r)
      | Some (peer, rest) =>
          match work_queue wq !! peer with
          | None => let '(wq, r) := advance_round (mk_queue (work_queue wq) rest) r in skip_gone fuel wq r
          | Some _ => (wq, r)
          end
      end
  end.

(** The peer that [pick] serves. *)
Definition served wq r : option PeerId :=
  fst <$> vec_pop (scheduled (skip_gone (length (scheduled wq) + 2) wq r).1).

(** The last peer of the schedule is there. *)
Definition top_there wq : Prop := match vec_pop (scheduled wq) with None => True | Some (p, _) => is_Some (work_queue wq !! p) end.

(** The entry of a disconnected peer may go from the schedule. *)
Definition forgotten (s s' : peer_state) : Prop := s' = s \/ (s = Disconnected /\ s' = Absent).

(** [wq'] is [wq] without some of the disconnected peers, in a new round if [pre]. *)
Definition skipped (pre : bool) wq wq' : Prop :=
  (forall p, work_of wq' p = work_of wq p) /\ (pre = false -> length (scheduled wq') <= length (scheduled wq))%nat /\
  forall p s, state_of wq p = Some s -> (pre = true -> s <> Scheduled) /\
    exists s1, forgotten s s1 /\ state_of wq' p = Some (if pre then new_round s1 else s1).

Lemma skipped_refl wq : skipped false wq wq.
Proof. split_and!; [done|done|]. intros p s Hs. split; [done|]. exists s. split; [by left|done]. Qed.

Lemma skip_one wq r p rest : queue_inv wq -> scheduled wq = rest ++ [p] -> work_queue wq !! p = None ->
  let wq' := (advance_round (mk_queue (work_queue wq) rest) r).1 in
  queue_inv wq' /\ skipped (bool_decide (rest = [])) wq wq' /\ (rest = [] -> top_there wq') /\ (rest <> [] -> scheduled wq' = rest).
Proof.
  intros Hinv Hsched Hp. pose proof (qi_nodup wq Hinv) as Hnd. rewrite Hsched in Hnd. apply NoDup_app in Hnd as (Hnd & Hnp & _).
  assert (p ∉ rest) as Hpr by (intros Hpr; apply (Hnp p Hpr); by left).
  destruct (advance_round_run (mk_queue (work_queue wq) rest) r) as (Hinv' & Hwork & Hstate); [done| |].
  { intros p' Hp'. apply (qi_work wq Hinv). rewrite Hsched. apply elem_of_app. by left. }
  cbv zeta. cbn [scheduled] in Hstate. split_and!; [done| | |].
  - split_and!; [done| |].
    { intros Hne%bool_decide_eq_false. unfold advance_round. cbn. rewrite Hsched, length_app. destruct rest; [done|]. cbn. lia. }
    intros p' s Hs. assert (exists s1, forgotten s s1 /\ state_of (mk_queue (work_queue wq) rest) p' = Some s1) as (s1 & Hf & Hs1).
    { destruct (decide (p' = p)) as [->|Hne].
      - exists Absent. rewrite (state_of_scheduled wq) in Hs by (rewrite Hsched; set_solver). rewrite Hp in Hs. injection Hs as <-.
        split; [by right|]. rewrite state_of_not_scheduled by done. cbn. by rewrite Hp.
      - exists s. split; [by left|]. rewrite <- Hs. destruct (decide (p' ∈ rest)) as [Hin|Hin].
        + rewrite !state_of_scheduled; [done| |done]. rewrite Hsched. set_solver.
        + rewrite !state_of_not_scheduled; [done| |done]. rewrite Hsched. set_solver. }
    split.
    + intros Hpre%bool_decide_eq_true. subst rest. intros ->. destruct (decide (p' = p)) as [->|Hne].
      * rewrite (state_of_scheduled wq) in Hs by (rewrite Hsched; set_solver). by rewrite Hp in Hs.
      * rewrite (state_of_not_scheduled wq) in Hs by (rewrite Hsched; set_solver).
        destruct (work_queue wq !! p') as [q|]; [|done]. by case_bool_decide.
    + exists s1. split; [done|]. rewrite (Hstate p' s1 Hs1). case_decide; [by rewrite bool_decide_true|by rewrite bool_decide_false].
  - intros ->. unfold top_there. destruct (vec_pop _) as [[p' rest']|] eqn:Hpop; [|done]. apply vec_pop_Some in Hpop.
    revert Hpop. unfold advance_round. cbn [scheduled work_queue]. set (kept := filter _ _).
    pose proof (shuffle_perm (btree_iter kept).*1 r) as Hperm. destruct (shuffle _ r) as [sched r']. cbn in Hperm |- *. intros ->.
    assert (p' ∈ (btree_iter kept).*1) as ([p2 q] & -> & Hq%elem_of_btree_iter)%list_elem_of_fmap by (rewrite <- Hperm; set_solver).
    by exists q.
  - intros Hne. unfold advance_round. cbn. by destruct rest.
Qed.

Lemma skipped_trans pre wq1 wq2 wq3 : skipped false wq1 wq2 -> skipped pre wq2 wq3 -> skipped pre wq1 wq3.
Proof.
  intros (Hw1 & Hl1 & Hs1) (Hw2 & Hl2 & Hs2). split_and!; [intros p; by rewrite Hw2, Hw1| |].
  { intros Hpre. specialize (Hl1 eq_refl). specialize (Hl2 Hpre). lia. }
  intros p s Hs.
  destruct (Hs1 p s Hs) as (_ & s1 & Hf1 & Hst1). destruct (Hs2 p s1 Hst1) as (Hno & s2 & Hf2 & Hst2). split.
  - intros Hpre ->. destruct Hf1 as [->|[? _]]; [by apply Hno|done].
  - exists s2. split; [|done]. destruct Hf1 as [->|[-> ->]]; [done|]. destruct Hf2 as [->|[? _]]; [by right|done].
Qed.

Lemma skip_gone_run fuel wq r : queue_inv wq -> (length (scheduled wq) + 2 <= fuel \/ (1 <= fuel /\ top_there wq))%nat ->
  let '(wq', r') := skip_gone fuel wq r in
  queue_inv wq' /\ top_there wq' /\ exists pre, skipped pre wq wq'.
Proof.
  revert wq r. induction fuel as [|fuel IH]; intros wq r Hinv Hfuel; [lia|]. cbn [skip_gone].
  destruct (vec_pop (scheduled wq)) as [[p rest]|] eqn:Hpop; cycle 1.
  { split_and!; [done|unfold top_there; by rewrite Hpop|]. exists false. apply skipped_refl. }
  destruct (work_queue wq !! p) as [q|] eqn:Hp.
  { split_and!; [done|unfold top_there; rewrite Hpop; by exists q|]. exists false. apply skipped_refl. }
  assert (length (scheduled wq) + 2 <= S fuel)%nat as Hlen.
  { destruct Hfuel as [?|[_ Htop]]; [done|]. unfold top_there in Htop. rewrite Hpop, Hp in Htop. by destruct Htop. }
  apply vec_pop_Some in Hpop. destruct (skip_one wq r p rest Hinv Hpop Hp) as (Hinv' & Hskip & Htop & Hrest).
  rewrite Hpop, length_app in Hlen. cbn in Hlen.
  destruct (advance_round (mk_queue (work_queue wq) rest) r) as [wq1 r1]. cbn in *. specialize (IH wq1 r1 Hinv').
  destruct (decide (rest = [])) as [->|Hne].
  - rewrite bool_decide_true in Hskip by done. specialize (Htop eq_refl).
    assert (skip_gone fuel wq1 r1 = (wq1, r1)) as ->.
    { destruct fuel as [|fuel']; [lia|]. cbn [skip_gone]. unfold top_there in Htop. destruct (vec_pop (scheduled wq1)) as [[p1 rest1]|]; [|done].
      by destruct Htop as [q1 ->]. }
    split_and!; [done|done|]. by exists true.
  - rewrite bool_decide_false in Hskip by done. rewrite Hrest in IH by done. specialize (IH ltac:(lia)).
    destruct (skip_gone fuel wq1 r1) as [wq2 r2]. destruct IH as (Hinv2 & Htop2 & pre & Hskip2).
    split_and!; [done|done|]. exists pre. by eapply skipped_trans.
Qed.

(** The turn of [pick] that serves the last peer of the schedule. *)
Definition serve {E H B} (handler : PeerId -> W -> H -> result E (H * option B)) p rest wq r (h : H) :=
  match work_queue wq !! p with
  | None => Panic
  | Some q =>
      _ ← assert_true (negb (bool_decide (q = ∅)));
      '(q, h, ret) ← peer_pick (S (base.size q)) (handler p) q h;
      let '(wq, r) := advance_round (mk_queue (<[p := q]> (work_queue wq)) rest) r in
      Ok (wq, r, h, ret)
  end.

Lemma pick_loop_skip {E H' B} (handler : PeerId -> W -> H' -> result E (H' * option B)) fuel wq r h : queue_inv wq ->
  (length (scheduled wq) + 2 <= fuel \/ (1 <= fuel /\ top_there wq))%nat ->
  pick_loop fuel handler wq r h =
    let '(wq', r') := skip_gone fuel wq r in
    match vec_pop (scheduled wq') with
    | None => Ok (wq', r', h, None)
    | Some (p, rest) => serve handler p rest wq' r' h
    end.
Proof.
  revert wq r. induction fuel as [|fuel IH]; intros wq r Hinv Hfuel; [lia|]. cbn [pick_loop skip_gone].
  destruct (vec_pop (scheduled wq)) as [[p rest]|] eqn:Hpop; [|by rewrite Hpop]. cbn [work_queue].
  destruct (work_queue wq !! p) as [q|] eqn:Hp; [rewrite Hpop; unfold serve; by rewrite Hp|].
  assert (length (scheduled wq) + 2 <= S fuel)%nat as Hlen.
  { destruct Hfuel as [?|[_ Htop]]; [done|]. unfold top_there in Htop. rewrite Hpop, Hp in Htop. by destruct Htop. }
  apply vec_pop_Some in Hpop. destruct (skip_one wq r p rest Hinv Hpop Hp) as (Hinv' & _ & Htop & Hrest).
  rewrite Hpop, length_app in Hlen. cbn in Hlen.
  destruct (advance_round (mk_queue (work_queue wq) rest) r) as [wq1 r1]. cbn in *. apply IH; [done|].
  destruct (decide (rest = [])) as [->|Hne]; [right; split; [lia|by apply Htop]|left]. rewrite Hrest by done. lia.
Qed.

Lemma left_empty (q : gset W) tried left : set_iter q = tried ++ left -> q ∖ list_to_set tried = ∅ <-> left = [].
Proof.
  intros Hiter. pose proof (NoDup_set_iter q) as Hnd. rewrite Hiter in Hnd. apply NoDup_app in Hnd as (_ & Hdis & _).
  assert (forall x, x ∈ q <-> x ∈ tried \/ x ∈ left) as Hin by (intros x; by rewrite <- elem_of_set_iter, Hiter, elem_of_app).
  split; [|intros ->; set_solver]. intros Hempty. destruct left as [|x left]; [done|]. exfalso.
  assert (x ∈ q ∖ list_to_set tried) as Hx; [|by rewrite Hempty in Hx; apply not_elem_of_empty in Hx].
  apply elem_of_difference. split; [apply Hin; right; by left|]. rewrite elem_of_list_to_set. intros Hxt. apply (Hdis x Hxt). by left.
Qed.

(** What [serve] does to the states. *)
Lemma serve_run {E H' B} (handler : PeerId -> W -> H' -> result E (H' * option B)) p rest wq r h :
  queue_inv wq -> scheduled wq = rest ++ [p] -> is_Some (work_queue wq !! p) -> (forall x h, exists ho, handler p x h = Ok ho) ->
  exists wq' r' h' o tried left, serve handler p rest wq r h = Ok (wq', r', h', o) /\ queue_inv wq' /\
    set_iter (work_of wq p) = tried ++ left /\ tried <> [] /\ handled (handler p) h tried h' o /\ (o = None -> left = []) /\
    work_of wq' p = work_of wq p ∖ list_to_set tried /\ (forall p', p' <> p -> work_of wq' p' = work_of wq p') /\
    state_of wq p = Some Scheduled /\ (rest <> [] -> scheduled wq' = rest) /\
    forall p' s, state_of wq p' = Some s -> (rest = [] -> p' <> p -> s <> Scheduled) /\
      let s1 := if decide (p' = p) then (if bool_decide (left = []) then Done else Waiting) else s in
      state_of wq' p' = Some (if decide (rest = []) then new_round s1 else s1).
Proof.
  intros Hinv Hsched [q Hq] Hok. pose proof (qi_nodup wq Hinv) as Hnd. rewrite Hsched in Hnd. apply NoDup_app in Hnd as (Hnd & Hnp & _).
  assert (p ∉ rest) as Hpr by (intros Hpr; apply (Hnp p Hpr); by left).
  assert (p ∈ scheduled wq) as Hp by (rewrite Hsched; set_solver).
  assert (q <> ∅) as Hne by (intros ->; by apply (qi_work wq Hinv p Hp)).
  unfold serve. rewrite Hq, bool_decide_false by done. cbn [negb assert_true mbind result_bind].
  destruct (peer_pick_run (handler p) (S (base.size q)) q h Hok ltac:(lia)) as (tried & left & h' & o & -> & Hiter & Hh & Hend & Htried).
  cbn [mbind result_bind]. set (wq2 := mk_queue _ rest).
  pose proof (left_empty q tried left Hiter) as Hleft.
  destruct (advance_round_run wq2 r) as (Hinv' & Hwork & Hstate); [done| |].
  { intros p' Hp'. cbn. rewrite lookup_insert_ne by (by intros ->). apply (qi_work wq Hinv). rewrite Hsched. set_solver. }
  assert (rest <> [] -> scheduled (advance_round wq2 r).1 = rest) as Hrest by (intros ?; unfold advance_round; cbn; by destruct rest).
  destruct (advance_round wq2 r) as [wq' r']. cbn [fst] in *. exists wq', r', h', o, tried, left.
  assert (work_of wq p = q) as Hw by (unfold work_of; by rewrite Hq). rewrite Hw.
  split_and!; [done|done|done|by apply Htried|done|done| | | |done|].
  - rewrite Hwork. unfold work_of. cbn. by rewrite lookup_insert_eq.
  - intros p' Hp'. rewrite Hwork. unfold work_of. cbn. by rewrite lookup_insert_ne.
  - rewrite state_of_scheduled, Hq by done. by rewrite bool_decide_false.
  - intros p' s Hs. split.
    + intros -> Hne' ->. rewrite state_of_not_scheduled in Hs by (rewrite Hsched; set_solver).
      destruct (work_queue wq !! p') as [q'|]; [|done]. by case_bool_decide.
    + cbv zeta. apply (Hstate p'). destruct (decide (p' = p)) as [->|Hne'].
      * rewrite state_of_not_scheduled by done. cbn. rewrite lookup_insert_eq. by rewrite (bool_decide_ext _ _ Hleft); case_bool_decide.
      * rewrite <- Hs. destruct (decide (p' ∈ rest)) as [Hin|Hin].
        -- rewrite !state_of_scheduled; [|rewrite Hsched; set_solver|done]. cbn. by rewrite lookup_insert_ne.
        -- rewrite !state_of_not_scheduled; [|rewrite Hsched; set_solver|done]. cbn. by rewrite lookup_insert_ne.
Qed.

(** The states after the disconnected peers were skipped ([pre]: that ended the
    round), [p] was served ([left]: with work left), and the round ended ([post]). *)
Definition picked (pre post left : bool) (p : PeerId) wq wq' : Prop := forall p' s, state_of wq p' = Some s ->
  (pre = true -> s <> Scheduled) /\ exists s1, forgotten s s1 /\
  let s2 := if pre then new_round s1 else s1 in
  (p' = p -> s2 = Scheduled) /\ (post = true -> p' <> p -> s2 <> Scheduled) /\
  let s3 := if decide (p' = p) then (if left then Waiting else Done) else s2 in
  state_of wq' p' = Some (if post then new_round s3 else s3).

Record pick_result {E H B} (handler : PeerId -> W -> H -> result E (H * option B)) (p : PeerId) wq h wq' h' (o : option B) : Prop := {
  pr_states : exists pre post, picked pre post (bool_decide (work_of wq' p <> ∅)) p wq wq' /\
    (pre = false -> post = false -> length (scheduled wq') < length (scheduled wq))%nat;
  pr_items : exists tried left, set_iter (work_of wq p) = tried ++ left /\ tried <> [] /\
    handled (handler p) h tried h' o /\ (o = None -> left = []) /\ work_of wq' p = work_of wq p ∖ list_to_set tried;
  pr_others : forall p', p' <> p -> work_of wq' p' = work_of wq p'
}.

Lemma pick_run {E H' B} (handler : PeerId -> W -> H' -> result E (H' * option B)) wq r h : queue_inv wq ->
  (forall p x h, exists ho, handler p x h = Ok ho) ->
  exists wq' r' h' o, pick handler wq r h = Ok (wq', r', h', o) /\ queue_inv wq' /\
    match served wq r with
    | None => o = None /\ h' = h /\ (forall p, work_of wq p = ∅) /\ scheduled wq' = []
    | Some p => pick_result handler p wq h wq' h' o
    end.
Proof.
  intros Hinv Hok. unfold pick, served. rewrite pick_loop_skip by (done || by left).
  pose proof (skip_gone_run (length (scheduled wq) + 2) wq r Hinv ltac:(by left)) as Hskip.
  destruct (skip_gone (length (scheduled wq) + 2) wq r) as [wq1 r1]. destruct Hskip as (Hinv1 & Htop & pre & Hwork & Hlen & Hstates).
  cbn [fst]. unfold top_there in Htop. destruct (vec_pop (scheduled wq1)) as [[p rest]|] eqn:Hpop; cbn [fmap option_fmap option_map fst].
  - apply vec_pop_Some in Hpop.
    destruct (serve_run handler p rest wq1 r1 h Hinv1 Hpop Htop (Hok p)) as (wq' & r' & h' & o & tried & left & Hrun & Hinv' & Hiter & Htried & Hh & Hend & Hw & Hothers & Hsched & Hrest & Hst).
    exists wq', r', h', o. split_and!; [done|done|]. split.
    + exists pre, (bool_decide (rest = [])). split.
      * intros p' s Hs. destruct (Hstates p' s Hs) as (Hno & s1 & Hf & Hs1). split; [done|]. exists s1. split; [done|]. cbv zeta.
        destruct (Hst p' _ Hs1) as (Hlast & Hnext). cbv zeta in Hnext. split_and!.
        -- intros ->. by simplify_eq.
        -- intros Hr%bool_decide_eq_true. by apply Hlast.
        -- rewrite Hnext. assert (bool_decide (work_of wq' p <> ∅) = negb (bool_decide (left = []))) as ->.
           { rewrite Hw, <- bool_decide_not. apply bool_decide_ext. by rewrite (left_empty _ _ _ Hiter). }
           do 2 case_bool_decide; case_decide; try done; by case_decide.
      * intros -> Hpost%bool_decide_eq_false. specialize (Hlen eq_refl). rewrite (Hrest Hpost). rewrite Hpop, length_app in Hlen. cbn in Hlen. lia.
    + exists tried, left. rewrite <- Hwork. by split_and!.
    + intros p' Hp'. by rewrite Hothers.
  - exists wq1, r1, h, None. apply vec_pop_None in Hpop. split_and!; [done|done|done|done| |done].
    intros p. rewrite <- Hwork. unfold work_of. by rewrite (qi_round wq1 Hinv1 Hpop), lookup_empty.
Qed.

(** ** Insertion and removal *)

Definition inserted (s : peer_state) : peer_state :=
  match s with
  | Absent => Scheduled
  | Done => Waiting
  | s => s
  end.

Definition removed (s : peer_state) : peer_state :=
  match s with
  | Scheduled | Disconnected => Disconnected
  | _ => Absent
  end.

Lemma state_of_ext wq wq' p : (p ∈ scheduled wq' <-> p ∈ scheduled wq) -> work_queue wq' !! p = work_queue wq !! p ->
  state_of wq' p = state_of wq p.
Proof. intros Hs Hw. unfold state_of. by rewrite Hw, (bool_decide_ext _ _ Hs). Qed.

Lemma queue_insert_run p x wq r : queue_inv wq -> state_of wq p <> Some Disconnected ->
  let '(wq', _, new) := queue_insert p x wq r in
  queue_inv wq' /\ new = bool_decide (x ∉ work_of wq p) /\ work_of wq' p = {[x]} ∪ work_of wq p /\
  (length (scheduled wq') <= length (scheduled wq) + 1)%nat /\
  (forall p', p' <> p -> work_of wq' p' = work_of wq p' /\ state_of wq' p' = state_of wq p') /\
  state_of wq' p = inserted <$> state_of wq p.
Proof.
  intros Hinv Hdis. unfold queue_insert. destruct (work_queue wq !! p) as [q|] eqn:Hp.
  - assert ({[x]} ∪ q <> ∅) as Hne by set_solver. split_and!.
    + split; cbn; [apply Hinv| |].
      * intros p' Hp'. destruct (decide (p' = p)) as [->|Hne']; [rewrite lookup_insert_eq; congruence|].
        rewrite lookup_insert_ne by done. by apply (qi_work wq Hinv).
      * intros Hnil. rewrite (qi_round wq Hinv Hnil), lookup_empty in Hp. done.
    + unfold work_of. by rewrite Hp.
    + unfold work_of. cbn. by rewrite lookup_insert_eq, Hp.
    + cbn. lia.
    + intros p' Hp'. split; [unfold work_of; cbn; by rewrite lookup_insert_ne|]. apply state_of_ext; [done|]. cbn. by rewrite lookup_insert_ne.
    + destruct (decide (p ∈ scheduled wq)) as [Hin|Hin].
      * rewrite !state_of_scheduled by done. cbn. rewrite lookup_insert_eq, Hp, !bool_decide_false; [done| |done].
        intros ->. by apply (qi_work wq Hinv p Hin).
      * rewrite !state_of_not_scheduled by done. cbn. rewrite lookup_insert_eq, Hp, bool_decide_false by done. by case_bool_decide.
  - assert (p ∉ scheduled wq) as Hin. { intros Hin. apply Hdis. rewrite state_of_scheduled by done. by rewrite Hp. }
    pose proof (gen_range_lt (length (scheduled wq ++ [p])) r) as Hpos. rewrite length_app in Hpos. specialize (Hpos ltac:(cbn; lia)).
    rewrite length_app. destruct (gen_range _ r) as [pos r']. cbn [fst] in Hpos. rewrite <- length_app in Hpos |- *.
    pose proof (vec_swap_last (scheduled wq) p pos Hpos) as Hperm. set (sched := vec_swap _ _ _) in *.
    assert (forall p', p' ∈ sched <-> p' = p \/ p' ∈ scheduled wq) as Hsched by (intros p'; rewrite Hperm; set_solver).
    split_and!.
    + split; cbn.
      * rewrite Hperm. apply NoDup_app. split_and!; [apply Hinv| |apply NoDup_singleton]. intros p' Hp' Hpp%list_elem_of_singleton. by subst.
      * intros p' Hp'. destruct (decide (p' = p)) as [->|Hne']; [rewrite lookup_insert_eq; intros [= ?]; set_solver|].
        rewrite lookup_insert_ne by done. apply (qi_work wq Hinv). apply Hsched in Hp' as [?|?]; done.
      * intros Hnil. rewrite Hnil in Hperm. by apply Permutation_nil_l, eq_sym, app_eq_nil in Hperm as [_ ?].
    + rewrite bool_decide_true; [done|]. unfold work_of. rewrite Hp. set_solver.
    + unfold work_of. cbn. rewrite lookup_insert_eq, Hp. cbn. set_solver.
    + cbn. rewrite Hperm, length_app. cbn. lia.
    + intros p' Hp'. split; [unfold work_of; cbn; by rewrite lookup_insert_ne|].
      apply state_of_ext; cbn; [rewrite Hsched; naive_solver|by rewrite lookup_insert_ne].
    + rewrite (state_of_not_scheduled wq), Hp by done. rewrite state_of_scheduled by (apply Hsched; by left). cbn.
      rewrite lookup_insert_eq, bool_decide_false by set_solver. done.
Qed.

Lemma remove_peer_run p wq : queue_inv wq -> let '(wq', was) := remove_peer p wq in
  queue_inv wq' /\ was = bool_decide (is_Some (work_queue wq !! p)) /\ work_of wq' p = ∅ /\ scheduled wq' = scheduled wq /\
  (forall p', p' <> p -> work_of wq' p' = work_of wq p' /\ state_of wq' p' = state_of wq p') /\
  state_of wq' p = removed <$> state_of wq p.
Proof.
  intros Hinv. cbn. split_and!; [|done| |done| |].
  - split; cbn; [apply Hinv| |].
    + intros p' Hp' [_ Hw]%lookup_delete_Some. by apply (qi_work wq Hinv p' Hp').
    + intros Hnil. by rewrite (qi_round wq Hinv Hnil), delete_empty.
  - unfold work_of. cbn. by rewrite lookup_delete_eq.
  - intros p' Hp'. split; [unfold work_of; cbn; by rewrite lookup_delete_ne|]. apply state_of_ext; cbn; [done|by rewrite lookup_delete_ne].
  - pose proof (state_of_total wq p Hinv) as [s Hs]. rewrite Hs. cbn. revert Hs. destruct (decide (p ∈ scheduled wq)) as [Hin|Hin].
    + rewrite !state_of_scheduled by done. cbn. rewrite lookup_delete_eq. destruct (work_queue wq !! p) as [q|]; [case_bool_decide; [done|]|]; by intros [= <-].
    + rewrite !state_of_not_scheduled by done. cbn. rewrite lookup_delete_eq. destruct (work_queue wq !! p) as [q|]; [case_bool_decide|]; by intros [= <-].
Qed.

(** ** Runs *)

Inductive event := Inserted (p : PeerId) | Removed (p : PeerId) | Picked (p : option PeerId).

(** Sequences of operations; the identifiers of disconnected peers are not used again. *)
Inductive run : WorkQueue W -> list event -> WorkQueue W -> Prop :=
  | run_nil wq : run wq [] wq
  | run_insert p x wq r evs wq' : state_of wq p <> Some Disconnected -> run (queue_insert p x wq r).1.1 evs wq' ->
      run wq (Inserted p :: evs) wq'
  | run_remove p wq evs wq' : run (remove_peer p wq).1 evs wq' -> run wq (Removed p :: evs) wq'
  | run_pick {E H B} (handler : PeerId -> W -> H -> result E (H * option B)) wq r h wq1 r1 h1 o evs wq' :
      (forall p x h, exists ho, handler p x h = Ok ho) -> pick handler wq r h = Ok (wq1, r1, h1, o) -> run wq1 evs wq' ->
      run wq (Picked (served wq r) :: evs) wq'.

Lemma new_queue_inv : queue_inv WorkQueue_new.
Proof. split; cbn; [constructor|by intros p ?%not_elem_of_nil|done]. Qed.

Lemma run_inv wq evs wq' : run wq evs wq' -> queue_inv wq -> queue_inv wq'.
Proof.
  induction 1 as [|p x wq r evs wq' Hdis _ IH|p wq evs wq' _ IH|E H' B handler wq r h wq1 r1 h1 o evs wq' Hok Hpick _ IH]; intros Hinv; [done|..]; apply IH.
  - pose proof (queue_insert_run p x wq r Hinv Hdis) as Hi. destruct (queue_insert p x wq r) as [[wq1 r1] b]. apply Hi.
  - by destruct (remove_peer_run p wq Hinv) as [? _].
  - destruct (pick_run handler wq r h Hinv Hok) as (? & ? & ? & ? & Hpick' & Hinv' & _). rewrite Hpick in Hpick'. by injection Hpick' as -> -> -> ->.
Qed.

(** ** The documented behaviour *)

(** After any sequence of operations every peer is in one of the documented
    states, and each operation moves it as documented.  Inserting adds the item:
    an absent peer is scheduled, one that is done waits.  Removing a peer drops
    its items: a scheduled peer is disconnected, any other is absent.  Picking
    never fails; when there is work it serves one peer that is scheduled in the
    round, or in the next one if only disconnected peers were left, hands its
    items to the handler in order up to the first that is accepted, and lets the
    peer wait, or be done, until the next round, in which those who wait are
    scheduled; no other peer's items change.  Without work it does nothing. *)
Theorem work_queue_states evs wq : run WorkQueue_new evs wq ->
  (forall p, is_Some (state_of wq p)) /\
  (forall p x r, state_of wq p <> Some Disconnected -> let '(wq', _, new) := queue_insert p x wq r in
    new = bool_decide (x ∉ work_of wq p) /\ work_of wq' p = {[x]} ∪ work_of wq p /\
    (forall p', p' <> p -> work_of wq' p' = work_of wq p' /\ state_of wq' p' = state_of wq p') /\
    state_of wq' p = inserted <$> state_of wq p) /\
  (forall p, let '(wq', was) := remove_peer p wq in
    was = bool_decide (is_Some (work_queue wq !! p)) /\ work_of wq' p = ∅ /\
    (forall p', p' <> p -> work_of wq' p' = work_of wq p' /\ state_of wq' p' = state_of wq p') /\
    state_of wq' p = removed <$> state_of wq p) /\
  (forall E H' B (handler : PeerId -> W -> H' -> result E (H' * option B)) r h, (forall p x h, exists ho, handler p x h = Ok ho) ->
    exists wq' r' h' o, pick handler wq r h = Ok (wq', r', h', o) /\
    match served wq r with
    | None => o = None /\ h' = h /\ (forall p, work_of wq p = ∅) /\ queue_is_empty wq' = true
    | Some p => pick_result handler p wq h wq' h' o
    end).
Proof.
  intros Hrun. pose proof (run_inv _ _ _ Hrun new_queue_inv) as Hinv. split_and!.
  - intros p. by apply state_of_total.
  - intros p x r Hdis. pose proof (queue_insert_run p x wq r Hinv Hdis) as Hi. destruct (queue_insert p x wq r) as [[wq' r'] new]. naive_solver.
  - intros p. pose proof (remove_peer_run p wq Hinv) as Hr. destruct (remove_peer p wq) as [wq' was]. naive_solver.
  - intros E H' B handler r h Hok. destruct (pick_run handler wq r h Hinv Hok) as (wq' & r' & h' & o & Hpick & _ & Hres).
    exists wq', r', h', o. split; [done|]. destruct (served wq r); [done|]. destruct Hres as (? & ? & ? & Hs). split_and!; [done|done|done|].
    unfold queue_is_empty. by rewrite Hs.
Qed.

Definition is_insert (e : event) : bool := match e with Inserted _ => true | _ => false end.
Definition is_pick (e : event) : bool := match e with Picked _ => true | _ => false end.
Definition count (f : event -> bool) (evs : list event) : nat := length (List.filter f evs).

(** While the scheduled [q] is not served, [p], which was served in the round, is not either. *)
Lemma picked_other pre post left p0 wq wq' p q : picked pre post left p0 wq wq' -> p0 <> q -> state_of wq q = Some Scheduled ->
  pre = false /\ post = false /\ state_of wq' q = Some Scheduled /\
  forall s, state_of wq p = Some s -> s = Waiting \/ s = Done -> p0 <> p /\ state_of wq' p = Some s.
Proof.
  intros Hpicked Hne Hq. destruct (Hpicked q _ Hq) as (Hpre & s1 & Hf & _ & Hpost & Hst).
  assert (pre = false) as -> by (destruct pre; [by destruct (Hpre eq_refl)|done]).
  assert (s1 = Scheduled) as -> by (destruct Hf as [->|[? _]]; done).
  assert (post = false) as -> by (destruct post; [destruct (Hpost eq_refl ltac:(done) eq_refl)|done]).
  rewrite decide_False in Hst by done. split_and!; [done|done|done|]. intros s Hs Hws.
  destruct (Hpicked p s Hs) as (_ & s2 & Hf2 & Hserved & _ & Hst2).
  assert (s2 = s) as -> by (destruct Hf2 as [->|[-> _]]; [done|destruct Hws; done]).
  assert (p0 <> p) as Hp. { intros ->. specialize (Hserved eq_refl). destruct Hws; congruence. }
  rewrite decide_False in Hst2 by done. done.
Qed.

(** The queue is fair.  A peer that has been served is not served again
    before every peer that was scheduled then has been, as long as neither of
    them is removed; and a scheduled peer is served after fewer further picks
    than there are scheduled peers and insertions. *)
Theorem work_queue_fair evs0 evs wq wq' p q s : run WorkQueue_new evs0 wq -> run wq evs wq' ->
  state_of wq p = Some s -> s = Waiting \/ s = Done -> state_of wq q = Some Scheduled ->
  Removed p ∉ evs -> Removed q ∉ evs -> Picked (Some q) ∉ evs ->
  (Picked (Some p) ∉ evs) /\ (count is_pick evs < length (scheduled wq) + count is_insert evs)%nat.
Proof.
  intros Hrun0 Hrun. pose proof (run_inv _ _ _ Hrun0 new_queue_inv) as Hinv. clear Hrun0 evs0. revert s.
  induction Hrun as [wq|p0 x wq r evs wq' Hdis _ IH|p0 wq evs wq' _ IH|E H' B handler wq r h wq1 r1 h1 o evs wq' Hok Hpick _ IH];
    intros s Hp Hs Hq Hnp Hnq Hpq.
  - split; [apply not_elem_of_nil|]. cbn. destruct (scheduled wq) eqn:Hw; [|cbn; lia]. exfalso.
    rewrite state_of_not_scheduled in Hq by (rewrite Hw; apply not_elem_of_nil). destruct (work_queue wq !! q) as [q0|]; [by case_bool_decide|done].
  - apply not_elem_of_cons in Hnp as [_ Hnp], Hnq as [_ Hnq], Hpq as [_ Hpq].
    pose proof (queue_insert_run p0 x wq r Hinv Hdis) as Hi. destruct (queue_insert p0 x wq r) as [[wq1 r1] new]. cbn [fst] in IH.
    destruct Hi as (Hinv1 & _ & _ & Hlen & Hother & Hst).
    destruct (IH Hinv1 (if decide (p0 = p) then Waiting else s)) as [Hno Hcount]; [| | |done|done|done|].
    + case_decide as Heq; [subst p0|by rewrite (proj2 (Hother p ltac:(done)))]. rewrite Hst, Hp. by destruct Hs as [-> | ->].
    + case_decide; [by left|done].
    + destruct (decide (q = p0)) as [->|Hne]; [by rewrite Hst, Hq|by rewrite (proj2 (Hother q ltac:(done)))].
    + split; [by apply not_elem_of_cons|]. unfold count in *. cbn. lia.
  - apply not_elem_of_cons in Hnp as [Hnp0 Hnp], Hnq as [Hnq0 Hnq], Hpq as [_ Hpq].
    destruct (remove_peer_run p0 wq Hinv) as (Hinv1 & _ & _ & Hlen & Hother & _). cbn [remove_peer fst] in *.
    destruct (IH Hinv1 s) as [Hno Hcount]; [|done| |done|done|done|].
    + rewrite (proj2 (Hother p ltac:(congruence))). done.
    + rewrite (proj2 (Hother q ltac:(congruence))). done.
    + split; [by apply not_elem_of_cons|]. unfold count in *. cbn in *. lia.
  - apply not_elem_of_cons in Hnp as [_ Hnp], Hnq as [_ Hnq], Hpq as [Hpq0 Hpq].
    destruct (pick_run handler wq r h Hinv Hok) as (? & ? & ? & ? & Hpick' & Hinv1 & Hres). rewrite Hpick in Hpick'. injection Hpick' as <- <- <- <-.
    destruct (served wq r) as [p0|]; cycle 1.
    { destruct Hres as (_ & _ & Hno & _). specialize (Hno q). unfold work_of in Hno. unfold state_of in Hq.
      destruct (work_queue wq !! q) as [q0|]; cbn in *; [subst q0; rewrite (bool_decide_true (∅ = ∅)) in Hq by done|]; by case_bool_decide. }
    destruct Hres as [(pre & post & Hpicked & Hlen) _ _].
    destruct (picked_other _ _ _ _ _ _ p q Hpicked ltac:(congruence) Hq) as (-> & -> & Hq1 & Hp1). destruct (Hp1 s Hp Hs) as [Hne Hp2].
    destruct (IH Hinv1 s Hp2 Hs Hq1 Hnp Hnq Hpq) as [Hno Hcount]. specialize (Hlen eq_refl eq_refl).
    split; [apply not_elem_of_cons; split; [congruence|done]|]. unfold count in *. cbn. lia.
Qed.
End queue.

(** ** Two peers *)

Module QueueWitnesses.
#[local] Instance no_randomness : Randomness unit := {| gen_range := fun _ r => (O, r); shuffle := fun l r => (l, r) |}.
#[local] Instance no_randomness_laws : RandomnessLaws.
Proof. split; [intros n r Hn; exact Hn|done]. Qed.

Definition peer (z : Z) : PeerId := default (@mk_bint 0 (2 ^ 64 - 1) 0 eq_refl) (bint_of_Z z).
Definition accept (p : PeerId) (x : N) (h : list (PeerId * N)) : result Empty_set (list (PeerId * N) * option N) :=
  Ok (h ++ [(p, x)], Some x).
Lemma accept_total p x h : exists ho, accept p x h = Ok ho.
Proof. by eexists. Qed.

Definition insert_ (z : Z) (x : N) (wq : WorkQueue N) : WorkQueue N := (queue_insert (peer z) x wq tt).1.1.
Definition pick_ (wq : WorkQueue N) : WorkQueue N :=
  match pick accept wq tt [] with Ok (wq, _, _, _) => wq | _ => wq end.

(** Peer 1 has two items, peer 2 one; the first pick serves peer 1. *)
Definition q3 : WorkQueue N := insert_ 1 12 (insert_ 2 20 (insert_ 1 11 WorkQueue_new)).
Definition q4 : WorkQueue N := pick_ q3.
Definition q5 : WorkQueue N := insert_ 1 13 q4.

Lemma q4_run : run WorkQueue_new [Inserted (peer 1); Inserted (peer 2); Inserted (peer 1); Picked (served q3 tt)] q4.
Proof.
  apply (run_insert _ 11%N _ tt); [vm_compute; discriminate|]. apply (run_insert _ 20%N _ tt); [vm_compute; discriminate|].
  apply (run_insert _ 12%N _ tt); [vm_compute; discriminate|].
  destruct (pick_run accept q3 tt [] ltac:(apply (run_inv WorkQueue_new [Inserted (peer 1); Inserted (peer 2); Inserted (peer 1)]); [|apply new_queue_inv];
    apply (run_insert _ 11%N _ tt); [vm_compute; discriminate|]; apply (run_insert _ 20%N _ tt); [vm_compute; discriminate|];
    apply (run_insert _ 12%N _ tt); [vm_compute; discriminate|]; apply run_nil) accept_total) as (wq' & r' & h' & o & Hpick & _).
  assert (q4 = wq') as -> by (unfold q4, pick_; by rewrite Hpick).
  apply (run_pick accept q3 tt [] wq' r' h' o [] wq' accept_total Hpick). apply run_nil.
Qed.

Lemma work_queue_states_witness : (exists evs, run WorkQueue_new evs q4) /\ state_of q4 (peer 1) = Some Waiting /\
  is_Some (state_of q4 (peer 2)).
Proof.
  split; [eexists; exact q4_run|]. split; [vm_compute; reflexivity|]. destruct (work_queue_states _ q4 q4_run) as [Hs _]. apply Hs.
Defined.

Lemma work_queue_fair_witness : state_of q4 (peer 1) = Some Waiting /\ state_of q4 (peer 2) = Some Scheduled /\
  run q4 [Inserted (peer 1)] q5 /\ (Picked (Some (peer 1)) ∉ [Inserted (peer 1)]).
Proof.
  split; [vm_compute; reflexivity|]. split; [vm_compute; reflexivity|].
  assert (run q4 [Inserted (peer 1)] q5) as Hrun. { apply (run_insert _ 13%N _ tt); [vm_compute; discriminate|]. apply run_nil. }
  split; [exact Hrun|].
  apply (work_queue_fair _ [Inserted (peer 1)] q4 q5 (peer 1) (peer 2) Waiting q4_run Hrun);
    [vm_compute; reflexivity|left; reflexivity|vm_compute; reflexivity|intros Hin; inversion Hin as [|? ? ? Hn]; inversion Hn..].
Defined.

(** The items that a sequence of picks hands out. *)
Fixpoint picks (n : nat) (wq : WorkQueue N) (h : list (PeerId * N)) : result Empty_set (list (PeerId * N)) :=
  match n with
  | O => Ok h
  | S n => '(wq, _, h, _) ← pick accept wq tt h; picks n wq h
  end.

Example picks_alternate :
  match picks 4 q3 [] with Ok l => Some (map (fun px : PeerId * N => (ival px.1, px.2)) l) | _ => None end
  = Some [(1, 11%N); (2, 20%N); (1, 12%N)].
Proof. vm_compute. reflexivity. Qed.

(** An item that is inserted for a disconnected peer puts it on the schedule a second
    time, and the assertion of the second turn fails. *)
Example reinserted_peer_panics :
  match picks 2 (insert_ 1 12 (remove_peer (peer 1) (insert_ 1 11 WorkQueue_new)).1) [] with Panic => true | _ => false end = true.
Proof. vm_compute. reflexivity. Qed.
End QueueWitnesses.
