(* ===== verification/OrphanPool.v ===== *)
(** * The orphan pool

    Models [pool/orphans/mod.rs] and [pool/orphans/detect.rs] of the mempool:
    transactions whose parents are not known, in a vector with indices by id,
    time, origin and dependency, limited in number and age.

    The numbers that evictions draw come from the source of randomness of
    [WorkQueue].  Internal ids are positions in the vector, below the hard limit. *)
From S2P Require Import Prelude Amount ChainTypes ChainConfig Utxo TxTypes CheckTransaction MempoolEntry WorkQueue.

(** ** Constants and errors *)

Definition ORPHAN_POOL_SIZE_HARD_LIMIT : N := 50000.
Definition DEFAULT_ORPHAN_POOL_CAPACITY : N := 100.
Definition DEFAULT_ORPHAN_TX_EXPIRY_INTERVAL : Duration := Time.clamp (5 * 10 * 1000000000).

Inductive TxStatus := InMempool | InMempoolDuplicate | InOrphanPool | InOrphanPoolDuplicate.

Inductive OrphanPoolError :=
  | OrphanConflict (e : MempoolConflictError)
  | TooLarge (size max : Z)
  | Full
  | NonceGapTooLarge (gap : Z)
  | MempoolConflict
  | NotSupportedForLocalOrigin (o : LocalTxOrigin).

(** ** Internal ids *)

Abbreviation InternalId := N (only parsing).

Definition InternalId_new {E} (n : N) : result E InternalId :=
  _ ← assert_true (n <? ORPHAN_POOL_SIZE_HARD_LIMIT)%N;
  mret n.

(** [Vec::swap_remove]: the last element takes the place of the removed one. *)
Definition swap_remove {A} (i : nat) (l : list A) : option (A * list A) :=
  match l !! i, vec_pop l with
  | Some x, Some (last, rest) => Some (x, <[i := last]> rest)
  | _, _ => None
  end.

(** ** The pool *)

Abbreviation OrphanEntry := (TxEntry RemoteTxOrigin).

Record TxOrphanPoolMaps := mk_maps {
  by_tx_id : gmap TxId InternalId;
  by_insertion_time : gset (Time * InternalId);
  by_deps : gset (TxDependency * InternalId);
  by_origin : gset (RemoteTxOrigin * InternalId)
}.

Record TxOrphanPool `{CryptoTypes} := mk_pool {
  transactions : list OrphanEntry;
  maps : TxOrphanPoolMaps;
  transaction_count_limit : N
}.
Arguments mk_pool {_} _ _ _.

(** [range((k, ZERO)..=(k, MAX))] of an index. *)
Definition range_of `{Countable K} (k : K) (X : gset (K * InternalId)) : list InternalId :=
  set_iter (set_map snd (filter (fun p : K * InternalId => p.1 = k) X)).

Section pool.
Context `{CryptoTypes} `{Randomness R} {E : Type}.
Implicit Types (e : OrphanEntry) (m : TxOrphanPoolMaps) (p : TxOrphanPool) (r : R).

Definition TxOrphanPoolMaps_new : TxOrphanPoolMaps := mk_maps ∅ ∅ ∅ ∅.

Definition maps_insert e (iid : InternalId) m : result E TxOrphanPoolMaps :=
  _ ← assert_true (negb (bool_decide (is_Some (by_tx_id m !! te_tx_id e))));
  _ ← assert_true (bool_decide ((te_creation_time e, iid) ∉ by_insertion_time m));
  _ ← assert_true (bool_decide ((te_origin e, iid) ∉ by_origin m));
  mret (mk_maps (<[te_tx_id e := iid]> (by_tx_id m)) ({[(te_creation_time e, iid)]} ∪ by_insertion_time m)
    (list_to_set ((fun dep => (dep, iid)) <$> requires e) ∪ by_deps m) ({[(te_origin e, iid)]} ∪ by_origin m)).

Definition maps_remove e m : result E TxOrphanPoolMaps :=
  iid ← expect (by_tx_id m !! te_tx_id e);
  _ ← assert_true (bool_decide ((te_creation_time e, iid) ∈ by_insertion_time m));
  _ ← assert_true (bool_decide ((te_origin e, iid) ∈ by_origin m));
  mret (mk_maps (delete (te_tx_id e) (by_tx_id m)) (by_insertion_time m ∖ {[(te_creation_time e, iid)]})
    (by_deps m ∖ list_to_set ((fun dep => (dep, iid)) <$> requires e)) (by_origin m ∖ {[(te_origin e, iid)]})).

Definition TxOrphanPool_new : TxOrphanPool := mk_pool [] TxOrphanPoolMaps_new DEFAULT_ORPHAN_POOL_CAPACITY.

Definition get_at p (iid : InternalId) : result E OrphanEntry := expect (transactions p !! N.to_nat iid).
Definition orphan_get p (id : TxId) : result E (option OrphanEntry) :=
  match by_tx_id (maps p) !! id with
  | None => Ok None
  | Some iid => e ← get_at p iid; mret (Some e)
  end.
Definition orphan_contains p (id : TxId) : bool := bool_decide (is_Some (by_tx_id (maps p) !! id)).
Definition pool_len p : N := len (transactions p).

(** The orphans that need what the transaction provides. *)
Definition children_of {O} p (entry : TxEntry O) : result E (list OrphanEntry) :=
  try_fold (fun acc iid => e ← get_at p iid; mret (acc ++ [e])) []
    (mjoin ((fun dep => range_of dep (by_deps (maps p))) <$> provides entry)).

(** The entry at the position and the pool without it. *)
Definition remove_at p (iid : InternalId) : result E (OrphanEntry * TxOrphanPool) :=
  '(entry, txs) ← expect (swap_remove (N.to_nat iid) (transactions p));
  m ← maps_remove entry (maps p);
  m ← match txs !! N.to_nat iid with
      | Some moved_entry => m ← maps_remove moved_entry m; maps_insert moved_entry iid m
      | None => Ok m
      end;
  mret (entry, mk_pool txs m (transaction_count_limit p)).

(** Evictions, each of which takes one transaction: [fuel] is their number and one. *)
Fixpoint enforce_max_size_loop (fuel : nat) (max_size : N) p r (n_evicted : N) : result E (TxOrphanPool * R * N) :=
  match fuel with
  | O => Panic
  | S fuel =>
      if (max_size <? pool_len p)%N then
        let '(i, r) := gen_range (length (transactions p)) r in
        iid ← InternalId_new (N.of_nat i);
        '(_, p) ← remove_at p iid;
        enforce_max_size_loop fuel max_size p r (n_evicted + 1)
      else Ok (p, r, n_evicted)
  end.
Definition enforce_max_size (max_size : N) p r : result E (TxOrphanPool * R * N) :=
  enforce_max_size_loop (S (length (transactions p))) max_size p r 0.

Fixpoint remove_expired_loop (fuel : nat) (expiry : Time) p (n_expired : N) : result E (TxOrphanPool * N) :=
  match fuel with
  | O => Panic
  | S fuel =>
      match set_iter (by_insertion_time (maps p)) with
      | (t, iid) :: _ =>
          if ival t <? ival expiry then
            '(_, p) ← remove_at p iid;
            remove_expired_loop fuel expiry p (n_expired + 1)
          else Ok (p, n_expired)
      | [] => Ok (p, n_expired)
      end
  end.
Definition orphan_expiry (cur_time : Time) : Time := Time.saturating_duration_sub cur_time DEFAULT_ORPHAN_TX_EXPIRY_INTERVAL.
Definition remove_expired (cur_time : Time) p : result E (TxOrphanPool * N) :=
  remove_expired_loop (S (length (transactions p))) (orphan_expiry cur_time) p 0.

Definition enforce_limits (cur_time : Time) p r : result E (TxOrphanPool * R * N) :=
  '(p, n_expired) ← remove_expired cur_time p;
  '(p, r, n_evicted) ← enforce_max_size (transaction_count_limit p) p r;
  mret (p, r, (n_expired + n_evicted)%N).

Definition pick_by_origin (origin : RemoteTxOrigin) p : option InternalId := head (range_of origin (by_origin (maps p))).

Fixpoint remove_by_origin_loop (fuel : nat) (origin : RemoteTxOrigin) p (n_removed : N) : result E (TxOrphanPool * N) :=
  match fuel with
  | O => Panic
  | S fuel =>
      match pick_by_origin origin p with
      | Some iid =>
          '(_, p) ← remove_at p iid;
          remove_by_origin_loop fuel origin p (n_removed + 1)
      | None => Ok (p, n_removed)
      end
  end.
Definition remove_by_origin (origin : RemoteTxOrigin) p : result E (TxOrphanPool * N) :=
  remove_by_origin_loop (S (length (transactions p))) origin p 0.

(** [PoolEntry]. *)
Definition pool_entry p (id : TxId) : option InternalId := by_tx_id (maps p) !! id.

Definition is_ready p (iid : InternalId) : result E bool :=
  entry ← get_at p iid;
  mret (negb (existsb (fun dep =>
    match dep with
    | TxOutputDep tx_id _ => orphan_contains p tx_id
    | _ => false
    end) (requires entry))).

Definition take_entry p (iid : InternalId) : result E (OrphanEntry * TxOrphanPool) := remove_at p iid.
End pool.

(** *** Insertion, which can fail after it changed the pool *)

Section insertion.
Context `{CryptoTypes} `{Randomness R}.

Definition orphan_insert (entry : OrphanEntry) : ST (TxOrphanPool * R) OrphanPoolError TxStatus := fun '(p, r) =>
  let tx_id := te_tx_id entry in
  if orphan_contains p tx_id then ((p, r), Ok InOrphanPoolDuplicate)
  else
    match (iid ← InternalId_new (pool_len p); m ← maps_insert entry iid (maps p);
           enforce_max_size ORPHAN_POOL_SIZE_HARD_LIMIT (mk_pool (transactions p ++ [entry]) m (transaction_count_limit p)) r) with
    | Ok (p, r, n) =>
        ((p, r), if (0 <? n)%N then _ ← ensure (orphan_contains p tx_id) Full; mret InOrphanPool else Ok InOrphanPool)
    | Err e => ((p, r), Err e)
    | Panic => ((p, r), Panic)
    end.

Definition insert_and_enforce_limits (entry : OrphanEntry) (cur_time : Time) : ST (TxOrphanPool * R) OrphanPoolError TxStatus := fun s =>
  let tx_id := te_tx_id entry in
  match orphan_insert entry s with
  | ((p, r), Ok status) =>
      match enforce_limits cur_time p r with
      | Ok (p, r, _) => ((p, r), _ ← ensure (orphan_contains p tx_id) Full; mret status)
      | Err e => ((p, r), Err e)
      | Panic => ((p, r), Panic)
      end
  | failed => failed
  end.
End insertion.

(** ** The indices *)

Section indices.
Context `{CryptoTypes}.
Implicit Types (e : OrphanEntry) (m : TxOrphanPoolMaps) (f : InternalId -> option OrphanEntry).

(** The indices of the entries that [f] has at the internal ids. *)
Record maps_ok f m : Prop := {
  mo_id : forall id i, by_tx_id m !! id = Some i <-> exists e, f i = Some e /\ te_tx_id e = id;
  mo_time : forall t i, (t, i) ∈ by_insertion_time m <-> exists e, f i = Some e /\ te_creation_time e = t;
  mo_deps : forall d i, (d, i) ∈ by_deps m <-> exists e, f i = Some e /\ d ∈ requires e;
  mo_origin : forall o i, (o, i) ∈ by_origin m <-> exists e, f i = Some e /\ te_origin e = o
}.

Definition clear (i : InternalId) f : InternalId -> option OrphanEntry := fun j => if decide (j = i) then None else f j.
Definition put (i : InternalId) e f : InternalId -> option OrphanEntry := fun j => if decide (j = i) then Some e else f j.

Lemma maps_ok_ext f g m : (forall i, f i = g i) -> maps_ok f m -> maps_ok g m.
Proof. intros Heq [H1 H2 H3 H4]. split; intros k i; setoid_rewrite <- Heq; auto. Qed.

Lemma maps_ok_unique f m i j e e' : maps_ok f m -> f i = Some e -> f j = Some e' -> te_tx_id e = te_tx_id e' -> i = j.
Proof.
  intros Hm Hi Hj Hid. assert (by_tx_id m !! te_tx_id e = Some i) as H1 by (apply (mo_id f m Hm); by exists e).
  assert (by_tx_id m !! te_tx_id e = Some j) as H2 by (apply (mo_id f m Hm); by exists e'). congruence.
Qed.

Lemma elem_of_deps (d : TxDependency) (i j : InternalId) e :
  (d, j) ∈ (list_to_set ((fun dep => (dep, i)) <$> requires e) : gset (TxDependency * InternalId)) <-> j = i /\ d ∈ requires e.
Proof. rewrite elem_of_list_to_set, list_elem_of_fmap. split; [intros (d' & [= -> ->] & Hd); done|intros [-> Hd]; by exists d]. Qed.

Lemma maps_remove_run {E} f m i e : maps_ok f m -> f i = Some e ->
  exists m', maps_remove e m = Ok m' :> result E _ /\ maps_ok (clear i f) m'.
Proof.
  intros Hm Hi. unfold maps_remove. assert (by_tx_id m !! te_tx_id e = Some i) as -> by (apply (mo_id f m Hm); by exists e).
  cbn [expect mbind result_bind]. rewrite !bool_decide_true; [|apply (mo_time f m Hm); by exists e|apply (mo_origin f m Hm); by exists e].
  eexists. split; [done|]. split; cbn.
  - intros id j. rewrite lookup_delete_Some, (mo_id f m Hm). unfold clear. split.
    + intros (Hne & e' & He' & Hid). exists e'. rewrite decide_False; [done|]. intros ->. congruence.
    + intros (e' & He' & <-). case_decide as Hj; [done|]. split; [|by exists e']. intros Hid. apply Hj. by apply (maps_ok_unique f m j i e' e).
  - intros t j. rewrite elem_of_difference, elem_of_singleton, (mo_time f m Hm). unfold clear. split.
    + intros ((e' & He' & Ht) & Hne). exists e'. rewrite decide_False; [done|]. intros ->. apply Hne. congruence.
    + intros (e' & He' & Ht). case_decide as Hj; [done|]. split; [by exists e'|congruence].
  - intros d j. rewrite elem_of_difference, elem_of_deps, (mo_deps f m Hm). unfold clear. split.
    + intros ((e' & He' & Hd) & Hne). exists e'. rewrite decide_False; [done|]. intros ->. apply Hne. split; congruence.
    + intros (e' & He' & Hd). case_decide as Hj; [done|]. split; [by exists e'|]. by intros [? _].
  - intros o j. rewrite elem_of_difference, elem_of_singleton, (mo_origin f m Hm). unfold clear. split.
    + intros ((e' & He' & Ho) & Hne). exists e'. rewrite decide_False; [done|]. intros ->. apply Hne. congruence.
    + intros (e' & He' & Ho). case_decide as Hj; [done|]. split; [by exists e'|congruence].
Qed.

Lemma maps_insert_run {E} f m i e : maps_ok f m -> f i = None -> (forall j e', f j = Some e' -> te_tx_id e' <> te_tx_id e) ->
  exists m', maps_insert e i m = Ok m' :> result E _ /\ maps_ok (put i e f) m'.
Proof.
  intros Hm Hi Hnew. unfold maps_insert.
  assert (~ is_Some (by_tx_id m !! te_tx_id e)) as Hfree.
  { intros [j Hj]. apply (mo_id f m Hm) in Hj as (e' & He' & Hid). by apply (Hnew j e' He'). }
  rewrite (bool_decide_false (is_Some (by_tx_id m !! te_tx_id e))) by done. cbn [negb assert_true mbind result_bind].
  rewrite !bool_decide_true; [|intros (e' & He' & _)%(mo_time f m Hm); congruence|intros (e' & He' & _)%(mo_origin f m Hm); congruence].
  eexists. split; [done|]. unfold put. split; cbn.
  - intros id j. destruct (decide (j = i)) as [->|Hj].
    + split.
      * intros [[<- _]|[_ (e' & He' & _)%(mo_id f m Hm)]]%lookup_insert_Some; [by exists e|congruence].
      * intros (e' & [= <-] & <-). by rewrite lookup_insert_eq.
    + rewrite lookup_insert_Some, (mo_id f m Hm). split; [|intros (e' & He' & <-); right; split; [|by exists e']].
      * intros [[_ ?]|[_ ?]]; [congruence|done].
      * intros Hid. by apply (Hnew j e' He').
  - intros t j. rewrite elem_of_union, elem_of_singleton, (mo_time f m Hm). destruct (decide (j = i)) as [->|Hj].
    + split; [intros [[= ->]|(e' & He' & _)]; [by exists e|congruence]|intros (e' & [= <-] & <-); by left].
    + split; [intros [[= _ ?]|?]; done|by right].
  - intros d j. rewrite elem_of_union, elem_of_deps, (mo_deps f m Hm). destruct (decide (j = i)) as [->|Hj].
    + split; [intros [[_ Hd]|(e' & He' & _)]; [by exists e|congruence]|intros (e' & [= <-] & Hd); by left].
    + split; [intros [[? _]|?]; done|by right].
  - intros o j. rewrite elem_of_union, elem_of_singleton, (mo_origin f m Hm). destruct (decide (j = i)) as [->|Hj].
    + split; [intros [[= ->]|(e' & He' & _)]; [by exists e|congruence]|intros (e' & [= <-] & <-); by left].
    + split; [intros [[= _ ?]|?]; done|by right].
Qed.
End indices.

(** ** The operations *)

Lemma swap_remove_run {A} (l : list A) i x : l !! i = Some x -> exists l' y, swap_remove i l = Some (x, l') /\ l ≡ₚ x :: l' /\
  l !! (length l - 1)%nat = Some y /\ forall j, l' !! j = if decide (j = (length l - 1)%nat) then None else if decide (j = i) then Some y else l !! j.
Proof.
  intros Hx. destruct l as [|y rest _] using rev_ind; [done|]. unfold swap_remove. rewrite Hx.
  rewrite (proj2 (vec_pop_Some (rest ++ [y]) y rest) eq_refl). exists (<[i := y]> rest), y. rewrite length_app. cbn [length].
  replace (length rest + 1 - 1)%nat with (length rest) by lia. rewrite list_lookup_middle by done.
  pose proof (lookup_lt_Some _ _ _ Hx) as Hlt. rewrite length_app in Hlt. cbn in Hlt.
  destruct (decide (i = length rest)) as [->|Hne].
  - rewrite list_lookup_middle in Hx by done. injection Hx as ->. rewrite list_insert_ge by lia. split_and!; [done| |done|].
    + symmetry. apply Permutation_cons_append.
    + intros j. destruct (decide (j = length rest)) as [->|Hj]; [by apply lookup_ge_None|].
      destruct (decide (j < length rest)%nat); [by rewrite lookup_app_l|]. rewrite !lookup_ge_None_2; [done|rewrite length_app; cbn; lia|lia].
  - rewrite lookup_app_l in Hx by lia. split_and!; [done| |done|].
    + rewrite insert_take_drop by lia. transitivity ((take i rest ++ x :: drop (S i) rest) ++ [y]); [by rewrite take_drop_middle|].
      rewrite <- app_assoc. cbn. rewrite <- (Permutation_middle (take i rest) _ x). do 2 f_equiv. by rewrite <- Permutation_cons_append.
    + intros j. destruct (decide (j = length rest)) as [->|Hj]; [apply lookup_ge_None; rewrite length_insert; lia|].
      destruct (decide (j = i)) as [->|Hji]; [apply list_lookup_insert_eq; lia|]. rewrite list_lookup_insert_ne by done.
      destruct (decide (j < length rest)%nat); [by rewrite lookup_app_l|]. rewrite !lookup_ge_None_2; [done|rewrite length_app; cbn; lia|lia].
Qed.

Lemma elem_of_range `{Countable K} (k : K) (X : gset (K * InternalId)) i : i ∈ range_of k X <-> (k, i) ∈ X.
Proof.
  unfold range_of. rewrite elem_of_set_iter, elem_of_map. split.
  - intros ([k' i'] & -> & [Hk Hin]%elem_of_filter). cbn in *. by subst.
  - intros Hin. exists (k, i). split; [done|]. by apply elem_of_filter.
Qed.

Section operations.
Context `{CryptoTypes} `{RandomnessLaws R} {E : Type}.
Implicit Types (e : OrphanEntry) (p : TxOrphanPool).

Record pool_inv p : Prop := {
  pi_maps : maps_ok (fun i => transactions p !! N.to_nat i) (maps p);
  pi_len : (pool_len p <= ORPHAN_POOL_SIZE_HARD_LIMIT)%N
}.

Lemma pool_ids p : pool_inv p -> NoDup (te_tx_id <$> transactions p).
Proof.
  intros [Hm _]. apply NoDup_alt. intros i j id. rewrite !list_lookup_fmap. intros Hi Hj.
  apply fmap_Some in Hi as (e & He & ->), Hj as (e' & He' & Hid).
  assert (N.of_nat i = N.of_nat j) as Heq; [|lia]. apply (maps_ok_unique _ _ _ _ e e' Hm); [by rewrite Nat2N.id|by rewrite Nat2N.id|done].
Qed.

Lemma pool_contains p id : pool_inv p -> orphan_contains p id = bool_decide (id ∈ te_tx_id <$> transactions p).
Proof.
  intros [Hm _]. unfold orphan_contains. apply bool_decide_ext. rewrite list_elem_of_fmap. split.
  - intros [i Hi]. apply (mo_id _ _ Hm) in Hi as (e & He & <-). exists e. split; [done|]. by apply list_elem_of_lookup_2 in He.
  - intros (e & -> & [i Hi]%list_elem_of_lookup). exists (N.of_nat i). apply (mo_id _ _ Hm). exists e. by rewrite Nat2N.id.
Qed.

Lemma remove_at_run p i e : pool_inv p -> transactions p !! N.to_nat i = Some e ->
  exists p', remove_at p i = Ok (e, p') :> result E _ /\ pool_inv p' /\ transactions p ≡ₚ e :: transactions p' /\
    transaction_count_limit p' = transaction_count_limit p.
Proof.
  intros [Hm Hlen] Hi. unfold remove_at. set (l := transactions p) in *.
  destruct (swap_remove_run l (N.to_nat i) e Hi) as (l' & y & -> & Hperm & Hlast & Hlook). cbn [expect mbind result_bind].
  destruct (maps_remove_run (E := E) _ _ i e Hm Hi) as (m1 & -> & Hm1). cbn [mbind result_bind]. set (n := (length l - 1)%nat) in *.
  assert (pool_len (mk_pool l' m1 (transaction_count_limit p)) <= ORPHAN_POOL_SIZE_HARD_LIMIT)%N as Hlen'.
  { unfold pool_len, len in *. cbn. fold l in Hlen. apply Permutation_length in Hperm. cbn in Hperm. lia. }
  destruct (decide (N.to_nat i = n)) as [Hin|Hin].
  - rewrite (Hlook (N.to_nat i)), decide_True by done. cbn [mbind result_bind mret result_ret]. eexists. split_and!; [done| |done|done].
    split; [|done]. eapply maps_ok_ext; [|exact Hm1]. intros j. cbn. unfold clear. rewrite Hlook.
    destruct (decide (j = i)) as [->|Hj]; [by rewrite decide_True|]. rewrite !decide_False; [done|lia|lia].
  - rewrite (Hlook (N.to_nat i)), decide_False, decide_True by done. cbn [mbind result_bind].
    destruct (maps_remove_run (E := E) _ m1 (N.of_nat n) y Hm1) as (m2 & -> & Hm2).
    { unfold clear. rewrite decide_False by lia. by rewrite Nat2N.id. }
    cbn [mbind result_bind]. destruct (maps_insert_run (E := E) _ m2 i y Hm2) as (m3 & -> & Hm3).
    { unfold clear. case_decide; [done|]. by rewrite decide_True. }
    { intros j e'. unfold clear. case_decide as Hj; [done|]. case_decide as Hj'; [done|]. intros He' Hid. apply Hj.
      apply (maps_ok_unique _ _ _ _ e' y Hm); [done| |done]. by rewrite Nat2N.id. }
    cbn [mbind result_bind mret result_ret]. eexists. split_and!; [done| |done|done]. split; [|done].
    eapply maps_ok_ext; [|exact Hm3]. intros j. cbn. unfold put, clear. rewrite Hlook.
    destruct (decide (j = i)) as [->|Hj]; [by rewrite decide_False, decide_True|].
    destruct (decide (j = N.of_nat n)) as [->|Hjn]; [by rewrite decide_True by lia|]. rewrite !decide_False; [done|lia|lia].
Qed.

Lemma enforce_max_size_loop_run fuel max_size p r n : pool_inv p -> (length (transactions p) < fuel)%nat ->
  exists p' r', enforce_max_size_loop fuel max_size p r n = Ok (p', r', (n + (pool_len p - pool_len p'))%N) :> result E _ /\
    pool_inv p' /\ transaction_count_limit p' = transaction_count_limit p /\ transactions p' ⊆+ transactions p /\
    pool_len p' = N.min (pool_len p) max_size.
Proof.
  revert p r n. induction fuel as [|fuel IH]; intros p r n Hinv Hfuel; [lia|]. cbn [enforce_max_size_loop].
  destruct (N.ltb_spec max_size (pool_len p)) as [Hlt|Hge]; cycle 1.
  { exists p, r. split_and!; [|done|done|done|lia]. do 2 f_equal. lia. }
  pose proof (gen_range_lt (length (transactions p)) r) as Hi. unfold pool_len, len in Hlt. specialize (Hi ltac:(lia)).
  destruct (gen_range (length (transactions p)) r) as [i r1]. cbn [fst] in Hi.
  pose proof (pi_len p Hinv) as Hlen. unfold pool_len, len in Hlen. unfold InternalId_new.
  rewrite (proj2 (N.ltb_lt _ _)) by lia. cbn [assert_true mbind result_bind mret result_ret].
  destruct (lookup_lt_is_Some_2 (transactions p) i Hi) as [e He].
  destruct (remove_at_run p (N.of_nat i) e Hinv) as (p1 & -> & Hinv1 & Hperm & Hlim); [by rewrite Nat2N.id|]. cbn [mbind result_bind].
  assert (length (transactions p) = S (length (transactions p1))) as Hlen1 by (by rewrite Hperm).
  destruct (IH p1 r1 (n + 1)%N Hinv1 ltac:(lia)) as (p' & r' & -> & Hinv' & Hlim' & Hsub & Hmin).
  exists p', r'. unfold pool_len, len in *. split_and!; [|done|congruence| |lia].
  - do 2 f_equal. lia.
  - rewrite Hsub, Hperm. by apply submseteq_cons.
Qed.

Lemma enforce_max_size_run max_size p r : pool_inv p ->
  exists p' r', enforce_max_size max_size p r = Ok (p', r', (pool_len p - pool_len p')%N) :> result E _ /\
    pool_inv p' /\ transaction_count_limit p' = transaction_count_limit p /\ transactions p' ⊆+ transactions p /\
    pool_len p' = N.min (pool_len p) max_size.
Proof. intros Hinv. apply (enforce_max_size_loop_run (S (length (transactions p))) max_size p r 0 Hinv). lia. Qed.

(** Removing the entries of a kind one by one. *)
Lemma filter_removed (P : OrphanEntry -> Prop) `{!forall e, Decision (P e)} (l l1 l' : list OrphanEntry) e :
  l ≡ₚ e :: l1 -> ~ P e -> l' ≡ₚ filter P l1 -> l' ≡ₚ filter P l.
Proof. intros Hl HP ->. rewrite Hl. by rewrite filter_cons_False. Qed.

Lemma filter_kept (P : OrphanEntry -> Prop) `{!forall e, Decision (P e)} (l : list OrphanEntry) :
  (forall e, e ∈ l -> P e) -> l ≡ₚ filter P l.
Proof.
  induction l as [|e l IH]; intros Hall; [done|]. rewrite filter_cons_True by (apply Hall; by left). f_equiv. apply IH.
  intros e' He'. apply Hall. by right.
Qed.

Definition alive (expiry : Time) e : Prop := ival expiry <= ival (te_creation_time e).
#[export] Instance alive_dec expiry e : Decision (alive expiry e) := Z_le_dec _ _.

Lemma set_iter_least `{BTreeKey K} (X : gset K) x l y : set_iter X = x :: l -> y ∈ X -> key_le x y.
Proof.
  intros Hx Hy. apply elem_of_set_iter in Hy. pose proof (set_iter_sorted X) as Hs. rewrite Hx in Hs, Hy.
  apply StronglySorted_inv in Hs as [_ Hall]. apply elem_of_cons in Hy as [->|Hy]; [reflexivity|]. rewrite Forall_forall in Hall. by apply Hall.
Qed.

Lemma remove_expired_loop_run fuel expiry p n : pool_inv p -> (length (transactions p) < fuel)%nat ->
  exists p', remove_expired_loop fuel expiry p n = Ok (p', (n + (pool_len p - pool_len p'))%N) :> result E _ /\ pool_inv p' /\
    transaction_count_limit p' = transaction_count_limit p /\ transactions p' ≡ₚ filter (alive expiry) (transactions p).
Proof.
  revert p n. induction fuel as [|fuel IH]; intros p n Hinv Hfuel; [lia|]. cbn [remove_expired_loop]. pose proof (pi_maps p Hinv) as Hm.
  destruct (set_iter (by_insertion_time (maps p))) as [|[t i] l] eqn:Hiter.
  - exists p. split_and!; [do 2 f_equal; lia|done|done|]. apply filter_kept. intros e [i Hi]%list_elem_of_lookup.
    assert ((te_creation_time e, N.of_nat i) ∈ by_insertion_time (maps p)) as Hin by (apply (mo_time _ _ Hm); exists e; by rewrite Nat2N.id).
    rewrite <- elem_of_set_iter, Hiter in Hin. by apply not_elem_of_nil in Hin.
  - destruct (Z.ltb_spec (ival t) (ival expiry)) as [Hlt|Hge].
    + assert ((t, i) ∈ by_insertion_time (maps p)) as Hin by (rewrite <- elem_of_set_iter, Hiter; by left).
      apply (mo_time _ _ Hm) in Hin as (e & He & <-).
      destruct (remove_at_run p i e Hinv He) as (p1 & -> & Hinv1 & Hperm & Hlim). cbn [mbind result_bind].
      assert (length (transactions p) = S (length (transactions p1))) as Hlen1 by (by rewrite Hperm).
      destruct (IH p1 (n + 1)%N Hinv1 ltac:(lia)) as (p' & -> & Hinv' & Hlim' & Hfil).
      exists p'. split_and!; [|done|congruence|].
      * do 2 f_equal. apply Permutation_length in Hfil. pose proof (length_filter (alive expiry) (transactions p1)). unfold pool_len, len in *. lia.
      * eapply filter_removed; [done|unfold alive; lia|done].
    + exists p. split_and!; [do 2 f_equal; lia|done|done|]. apply filter_kept. intros e [j Hj]%list_elem_of_lookup.
      assert ((te_creation_time e, N.of_nat j) ∈ by_insertion_time (maps p)) as Hin by (apply (mo_time _ _ Hm); exists e; by rewrite Nat2N.id).
      apply (set_iter_least _ _ _ _ Hiter) in Hin. unfold alive. cbn in Hin. unfold lex_le in Hin. cbn in Hin.
      destruct Hin as [[_ Hle]|[<- _]]; lia.
Qed.

Lemma remove_by_origin_loop_run fuel origin p n : pool_inv p -> (length (transactions p) < fuel)%nat ->
  exists p', remove_by_origin_loop fuel origin p n = Ok (p', (n + (pool_len p - pool_len p'))%N) :> result E _ /\ pool_inv p' /\
    transaction_count_limit p' = transaction_count_limit p /\ transactions p' ≡ₚ filter (fun e => te_origin e <> origin) (transactions p).
Proof.
  revert p n. induction fuel as [|fuel IH]; intros p n Hinv Hfuel; [lia|]. cbn [remove_by_origin_loop]. pose proof (pi_maps p Hinv) as Hm.
  unfold pick_by_origin. destruct (range_of origin (by_origin (maps p))) as [|i l] eqn:Hrange; cbn [head].
  - exists p. split_and!; [do 2 f_equal; lia|done|done|]. apply filter_kept. intros e [i Hi]%list_elem_of_lookup Ho.
    assert (N.of_nat i ∈ range_of origin (by_origin (maps p))) as Hin.
    { apply elem_of_range, (mo_origin _ _ Hm). exists e. by rewrite Nat2N.id. }
    rewrite Hrange in Hin. by apply not_elem_of_nil in Hin.
  - assert (i ∈ range_of origin (by_origin (maps p))) as Hin by (rewrite Hrange; by left).
    apply elem_of_range, (mo_origin _ _ Hm) in Hin as (e & He & Ho).
    destruct (remove_at_run p i e Hinv He) as (p1 & -> & Hinv1 & Hperm & Hlim). cbn [mbind result_bind].
    assert (length (transactions p) = S (length (transactions p1))) as Hlen1 by (by rewrite Hperm).
    destruct (IH p1 (n + 1)%N Hinv1 ltac:(lia)) as (p' & -> & Hinv' & Hlim' & Hfil).
    exists p'. split_and!; [|done|congruence|].
    + do 2 f_equal. apply Permutation_length in Hfil. pose proof (length_filter (fun e => te_origin e <> origin) (transactions p1)).
      unfold pool_len, len in *. lia.
    + eapply (filter_removed (fun e => te_origin e <> origin)); [done|by intros Hno; apply Hno|done].
Qed.

(** ** Queries *)

Lemma orphan_get_run p id : pool_inv p ->
  exists o, orphan_get p id = Ok o :> result E _ /\ forall e, o = Some e <-> e ∈ transactions p /\ te_tx_id e = id.
Proof.
  intros Hinv. pose proof (pi_maps p Hinv) as Hm. unfold orphan_get, get_at. destruct (by_tx_id (maps p) !! id) as [i|] eqn:Hi.
  - apply (mo_id _ _ Hm) in Hi as (e & He & Hid). rewrite He. cbn. eexists. split; [done|]. intros e'. split.
    + intros [= <-]. split; [by apply list_elem_of_lookup_2 in He|done].
    + intros ([j Hj]%list_elem_of_lookup & Hid'). f_equal.
      assert (i = N.of_nat j) as ->; [|rewrite Nat2N.id in He; congruence].
      apply (maps_ok_unique _ _ _ _ e e' Hm); [done|by rewrite Nat2N.id|congruence].
  - eexists. split; [done|]. intros e. split; [done|]. intros ([j Hj]%list_elem_of_lookup & Hid).
    assert (by_tx_id (maps p) !! id = Some (N.of_nat j)); [|congruence]. apply (mo_id _ _ Hm). exists e. by rewrite Nat2N.id.
Qed.

Lemma children_of_run {O} p (t : TxEntry O) : pool_inv p ->
  exists l, children_of p t = Ok l :> result E _ /\
    forall e, e ∈ l <-> e ∈ transactions p /\ exists d, d ∈ provides t /\ d ∈ requires e.
Proof.
  intros Hinv. pose proof (pi_maps p Hinv) as Hm. unfold children_of. set (ids := mjoin _).
  assert (forall i, i ∈ ids <-> exists e, transactions p !! N.to_nat i = Some e /\ exists d, d ∈ provides t /\ d ∈ requires e) as Hids.
  { intros i. unfold ids. rewrite list_elem_of_join. setoid_rewrite list_elem_of_fmap. split.
    - intros (l & Hi & d & -> & Hd). apply elem_of_range, (mo_deps _ _ Hm) in Hi as (e & He & Hr). exists e. split; [done|]. by exists d.
    - intros (e & He & d & Hd & Hr). eexists. split; [|by exists d]. apply elem_of_range, (mo_deps _ _ Hm). by exists e. }
  assert (forall acc, exists l, try_fold (fun acc iid => e ← get_at (E := E) p iid; mret (acc ++ [e])) acc ids = Ok (acc ++ l) /\
    forall e, e ∈ l <-> exists i, i ∈ ids /\ transactions p !! N.to_nat i = Some e) as Hfold.
  { assert (forall i, i ∈ ids -> is_Some (transactions p !! N.to_nat i)) as Hsome by (intros i (e & He & _)%Hids; by exists e).
    clear Hids. clearbody ids. induction ids as [|i ids IH]; intros acc.
    - exists []. split; [by rewrite app_nil_r|]. intros e. set_solver.
    - destruct (Hsome i ltac:(by left)) as [e He]. cbn [try_fold].
      assert (get_at (E := E) p i = Ok e) as -> by (unfold get_at; by rewrite He). cbn [mbind result_bind mret result_ret].
      destruct (IH ltac:(intros; apply Hsome; by right) (acc ++ [e])) as (l & Hl & Hin). rewrite Hl.
      exists (e :: l). split; [by rewrite <- app_assoc|]. intros e'. rewrite elem_of_cons, Hin. setoid_rewrite elem_of_cons. split.
      + intros [->|(j & Hj & He')]; [exists i; by split; [left|]|exists j; by split; [right|]].
      + intros (j & [->|Hj] & He'); [left; congruence|right; by exists j]. }
  destruct (Hfold []) as (l & Hl & Hin). exists l. split; [exact Hl|]. intros e. rewrite Hin. split.
  - intros (i & (e' & He' & Hd)%Hids & He). assert (e' = e) as -> by congruence. split; [by apply list_elem_of_lookup_2 in He|done].
  - intros ([i Hi]%list_elem_of_lookup & Hd). exists (N.of_nat i). rewrite Nat2N.id. split; [|done]. apply Hids. exists e. rewrite Nat2N.id. done.
Qed.

Lemma pool_entry_run p id i : pool_inv p -> pool_entry p id = Some i ->
  exists e p' ready, transactions p !! N.to_nat i = Some e /\ te_tx_id e = id /\ pool_inv p' /\
    take_entry p i = Ok (e, p') :> result E _ /\ transactions p ≡ₚ e :: transactions p' /\
    transaction_count_limit p' = transaction_count_limit p /\ is_ready p i = Ok ready :> result E _ /\
    (ready = true <-> forall x n, TxOutputDep x n ∈ requires e -> x ∉ te_tx_id <$> transactions p).
Proof.
  intros Hinv Hi. apply (mo_id _ _ (pi_maps p Hinv)) in Hi as (e & He & Hid).
  destruct (remove_at_run p i e Hinv He) as (p' & Hrun & Hinv' & Hperm & Hlim). unfold is_ready, get_at. rewrite He. cbn [expect mbind result_bind].
  eexists e, p', _. split_and!; [done|done|done|done|done|done|done|]. rewrite negb_true_iff. split.
  - intros Hno x n Hx Hin. rewrite <- not_true_iff_false in Hno. apply Hno. apply existsb_exists. exists (TxOutputDep x n).
    split; [by apply list_elem_of_In|]. by rewrite pool_contains, bool_decide_eq_true.
  - intros Hno. apply not_true_iff_false. intros ([d n|d n|d n|x n] & Hx%list_elem_of_In & Hc)%existsb_exists; try done.
    rewrite pool_contains, bool_decide_eq_true in Hc by done. by eapply Hno.
Qed.
End operations.

(** ** Insertion *)

Section insertions.
Context `{CryptoTypes} `{RandomnessLaws R}.
Implicit Types (e : OrphanEntry) (p : TxOrphanPool) (r : R).

(** The transactions once [e] is offered. *)
Definition offered e p : list OrphanEntry :=
  if bool_decide (te_tx_id e ∈ te_tx_id <$> transactions p) then transactions p else transactions p ++ [e].
Definition offered_status e p : TxStatus :=
  if bool_decide (te_tx_id e ∈ te_tx_id <$> transactions p) then InOrphanPoolDuplicate else InOrphanPool.

Lemma orphan_insert_run e p r : pool_inv p -> (pool_len p < ORPHAN_POOL_SIZE_HARD_LIMIT)%N ->
  exists p', orphan_insert e (p, r) = ((p', r), Ok (offered_status e p)) /\ pool_inv p' /\ transactions p' = offered e p /\
    transaction_count_limit p' = transaction_count_limit p.
Proof.
  intros Hinv Hlen. unfold orphan_insert, offered, offered_status. rewrite pool_contains by done.
  case_bool_decide as Hin; [by exists p|]. unfold InternalId_new. rewrite (proj2 (N.ltb_lt _ _) Hlen). cbn [assert_true mbind result_bind mret result_ret].
  destruct (maps_insert_run (E := OrphanPoolError) _ (maps p) (pool_len p) e (pi_maps p Hinv)) as (m & -> & Hm).
  { apply lookup_ge_None_2. unfold pool_len, len. lia. }
  { intros j e' He' Hid. apply Hin. rewrite <- Hid. apply list_elem_of_fmap_2. by apply list_elem_of_lookup_2 in He'. }
  cbn [mbind result_bind]. unfold enforce_max_size. cbn [enforce_max_size_loop transactions].
  set (p' := mk_pool _ m _). assert (pool_len p' = pool_len p + 1)%N as Hlen' by (unfold pool_len, len, p'; cbn; rewrite length_app; cbn; lia).
  rewrite (proj2 (N.ltb_ge _ _)) by lia. exists p'. split_and!; [done| |done|done]. split; [|lia].
  eapply maps_ok_ext; [|exact Hm]. intros j. unfold put, p'. cbn. case_decide as Hj.
  - subst j. unfold pool_len, len. rewrite Nat2N.id. by rewrite list_lookup_middle.
  - destruct (decide (N.to_nat j < length (transactions p))%nat); [by rewrite lookup_app_l|].
    rewrite !lookup_ge_None_2; [done|unfold pool_len, len in *; rewrite length_app; cbn; lia|lia].
Qed.

(** At the hard limit the assertion on internal ids fails before anything is evicted. *)
Lemma full_pool_panics e p r : pool_inv p -> pool_len p = ORPHAN_POOL_SIZE_HARD_LIMIT -> te_tx_id e ∉ te_tx_id <$> transactions p ->
  (orphan_insert e (p, r)).2 = Panic.
Proof.
  intros Hinv Hlen Hin. unfold orphan_insert. rewrite pool_contains, bool_decide_false by done. unfold InternalId_new. by rewrite Hlen.
Qed.

Lemma insert_and_enforce_limits_run e now p r : pool_inv p -> (pool_len p < ORPHAN_POOL_SIZE_HARD_LIMIT)%N ->
  exists p' r', insert_and_enforce_limits e now (p, r) =
      ((p', r'), if bool_decide (te_tx_id e ∈ te_tx_id <$> transactions p') then Ok (offered_status e p) else Err Full) /\
    pool_inv p' /\ transaction_count_limit p' = transaction_count_limit p /\
    transactions p' ⊆+ filter (alive (orphan_expiry now)) (offered e p) /\
    pool_len p' = N.min (len (filter (alive (orphan_expiry now)) (offered e p))) (transaction_count_limit p).
Proof.
  intros Hinv Hlen. destruct (orphan_insert_run e p r Hinv Hlen) as (p1 & Hins & Hinv1 & Htx1 & Hlim1).
  unfold insert_and_enforce_limits. rewrite Hins. unfold enforce_limits, remove_expired.
  destruct (remove_expired_loop_run (E := OrphanPoolError) (S (length (transactions p1))) (orphan_expiry now) p1 0 Hinv1 ltac:(lia)) as (p2 & -> & Hinv2 & Hlim2 & Hfil).
  cbn [mbind result_bind]. destruct (enforce_max_size_run (E := OrphanPoolError) (transaction_count_limit p2) p2 r Hinv2) as (p3 & r3 & -> & Hinv3 & Hlim3 & Hsub & Hmin).
  cbn [mbind result_bind mret result_ret]. exists p3, r3. rewrite Htx1 in Hfil. split_and!; [|done|congruence|by rewrite <- Hfil|].
  - rewrite pool_contains by done. by case_bool_decide.
  - rewrite Hmin, Hlim2, Hlim1. f_equal. unfold pool_len, len. by rewrite Hfil.
Qed.

(** ** Histories *)

Inductive orphan_history : TxOrphanPool -> Prop :=
  | orphan_new : orphan_history TxOrphanPool_new
  | orphan_inserted p e now r p' r' res : orphan_history p -> insert_and_enforce_limits e now (p, r) = ((p', r'), res) ->
      orphan_history p'
  | orphan_taken p id i e p' : orphan_history p -> pool_entry p id = Some i -> take_entry p i = Ok (e, p') :> result Empty_set _ ->
      orphan_history p'
  | orphan_disconnected p o p' n : orphan_history p -> remove_by_origin o p = Ok (p', n) :> result Empty_set _ -> orphan_history p'.

Lemma orphan_history_inv p : orphan_history p ->
  pool_inv p /\ transaction_count_limit p = DEFAULT_ORPHAN_POOL_CAPACITY /\ (pool_len p <= DEFAULT_ORPHAN_POOL_CAPACITY)%N.
Proof.
  induction 1 as [|p e now r p' r' res _ (Hinv & Hlim & Hlen) Hins|p id i e p' _ (Hinv & Hlim & Hlen) Hi Hrun|p o p' n _ (Hinv & Hlim & Hlen) Hrun].
  - split_and!; [|done|done]. split; [|done]. split; cbn.
    + intros id i. rewrite lookup_empty. split; [done|]. by intros (e & He & _).
    + intros t i. split; [set_solver|]. by intros (e & He & _).
    + intros d i. split; [set_solver|]. by intros (e & He & _).
    + intros o i. split; [set_solver|]. by intros (e & He & _).
  - destruct (insert_and_enforce_limits_run e now p r Hinv) as (p1 & r1 & Hins1 & Hinv1 & Hlim1 & _ & Hmin).
    { unfold ORPHAN_POOL_SIZE_HARD_LIMIT, DEFAULT_ORPHAN_POOL_CAPACITY in *. lia. }
    rewrite Hins in Hins1. injection Hins1 as -> -> _. split_and!; [done|congruence|]. rewrite Hmin, Hlim. lia.
  - destruct (pool_entry_run (E := Empty_set) p id i Hinv Hi) as (e1 & p1 & b & _ & _ & Hinv1 & Hrun1 & Hperm & Hlim1 & _).
    rewrite Hrun in Hrun1. injection Hrun1 as -> ->. split_and!; [done|congruence|].
    apply Permutation_length in Hperm. cbn in Hperm. unfold pool_len, len in *. lia.
  - destruct (remove_by_origin_loop_run (E := Empty_set) (S (length (transactions p))) o p 0 Hinv ltac:(lia)) as (p1 & Hrun1 & Hinv1 & Hlim1 & Hfil).
    unfold remove_by_origin in Hrun. rewrite Hrun in Hrun1. injection Hrun1 as -> ->. split_and!; [done|congruence|].
    apply Permutation_length in Hfil. pose proof (length_filter (fun e => te_origin e <> o) (transactions p)). unfold pool_len, len in *. lia.
Qed.

(** The orphan pool is a set of at most a hundred transactions with distinct
    ids, and no operation on it panics.  Looking up an id and the orphans that
    need an output of a transaction are exact; an orphan is ready when none of
    the transactions it spends is an orphan, and taking it removes it and nothing
    else; removing the orphans of a peer removes all of them and no others; and
    inserting one adds it unless it is there, removes the expired orphans, evicts
    only as many others as the limit needs, and reports a full pool exactly when
    the new orphan is not kept. *)
Theorem orphan_pool_operations p : orphan_history p ->
  NoDup (te_tx_id <$> transactions p) /\ (pool_len p <= DEFAULT_ORPHAN_POOL_CAPACITY)%N /\
  (forall id, exists o, orphan_get p id = Ok o :> result Empty_set _ /\ forall e, o = Some e <-> e ∈ transactions p /\ te_tx_id e = id) /\
  (forall O (t : TxEntry O), exists l, children_of p t = Ok l :> result Empty_set _ /\
    forall e, e ∈ l <-> e ∈ transactions p /\ exists d, d ∈ provides t /\ d ∈ requires e) /\
  (forall id i, pool_entry p id = Some i -> exists e p' ready, te_tx_id e = id /\
    take_entry p i = Ok (e, p') :> result Empty_set _ /\ transactions p ≡ₚ e :: transactions p' /\ is_ready p i = Ok ready :> result Empty_set _ /\
    (ready = true <-> forall x n, TxOutputDep x n ∈ requires e -> x ∉ te_tx_id <$> transactions p)) /\
  (forall o, exists p', remove_by_origin o p = Ok (p', (pool_len p - pool_len p')%N) :> result Empty_set _ /\
    transactions p' ≡ₚ filter (fun e => te_origin e <> o) (transactions p)) /\
  (forall e now r, exists p' r', insert_and_enforce_limits e now (p, r) =
      ((p', r'), if bool_decide (te_tx_id e ∈ te_tx_id <$> transactions p') then Ok (offered_status e p) else Err Full) /\
    transactions p' ⊆+ filter (alive (orphan_expiry now)) (offered e p) /\
    pool_len p' = N.min (len (filter (alive (orphan_expiry now)) (offered e p))) DEFAULT_ORPHAN_POOL_CAPACITY).
Proof.
  intros (Hinv & Hlim & Hlen)%orphan_history_inv. split_and!; [by apply pool_ids|done| | | | |].
  - intros id. by apply orphan_get_run.
  - intros O t. by apply children_of_run.
  - intros id i Hi. destruct (pool_entry_run (E := Empty_set) p id i Hinv Hi) as (e & p' & b & _ & Hid & _ & Hrun & Hperm & _ & Hr & Hb). by exists e, p', b.
  - intros o. destruct (remove_by_origin_loop_run (E := Empty_set) (S (length (transactions p))) o p 0 Hinv ltac:(lia)) as (p' & Hrun & _ & _ & Hfil).
    exists p'. split; [exact Hrun|done].
  - intros e now r. destruct (insert_and_enforce_limits_run e now p r Hinv) as (p' & r' & Hins & _ & _ & Hsub & Hmin).
    { unfold ORPHAN_POOL_SIZE_HARD_LIMIT, DEFAULT_ORPHAN_POOL_CAPACITY in *. lia. }
    exists p', r'. rewrite <- Hlim. by split_and!.
Qed.
End insertions.

(** ** Two orphans *)

Module OrphanWitnesses.
#[local] Existing Instance numbered_keys.
#[local] Existing Instance QueueWitnesses.no_randomness.
#[local] Existing Instance QueueWitnesses.no_randomness_laws.

Definition spends (id : N) : TxInput :=
  InputUtxo {| op_source_id := SourceTransaction id; op_output_index := @mk_bint 0 (2 ^ 32 - 1) 0 eq_refl |}.
Definition orphan (id : N) (ins : list TxInput) (origin t : Z) : OrphanEntry :=
  mk_entry id (mk_signed (mk_tx (Amount.lit 0) ins []) []) (Time.clamp t) (@mk_bint 1 (2 ^ 64 - 1) 100 eq_refl)
    (QueueWitnesses.peer origin) (TxOptions_default_for (OriginLocal OriginP2p)).

(** Orphan 5 of peer 1 spends orphan 4 of peer 2, which spends an unknown transaction. *)
Definition o4 := orphan 4 [spends 3] 2 0.
Definition o5 := orphan 5 [spends 4] 1 0.
Definition now : Time := Time.clamp 1000.
Definition p1 : TxOrphanPool := (insert_and_enforce_limits o4 now (TxOrphanPool_new, tt)).1.1.
Definition p2 : TxOrphanPool := (insert_and_enforce_limits o5 now (p1, tt)).1.1.

Lemma insertion_history e t p : orphan_history p -> orphan_history (insert_and_enforce_limits e t (p, tt)).1.1.
Proof.
  intros Hp. apply (orphan_inserted p e t tt _ tt (insert_and_enforce_limits e t (p, tt)).2 Hp).
  by destruct (insert_and_enforce_limits e t (p, tt)) as [[p' []] res].
Qed.

Lemma p2_history : orphan_history p2.
Proof. apply insertion_history, insertion_history, orphan_new. Qed.

Lemma orphan_pool_operations_witness : orphan_history p2 /\ (te_tx_id <$> transactions p2) = [4%N; 5%N] /\
  exists p', remove_by_origin (QueueWitnesses.peer 2) p2 = Ok (p', (pool_len p2 - pool_len p')%N) :> result Empty_set _ /\
    transactions p' ≡ₚ filter (fun e => te_origin e <> QueueWitnesses.peer 2) (transactions p2).
Proof.
  split; [exact p2_history|]. split; [vm_compute; reflexivity|].
  destruct (orphan_pool_operations p2 p2_history) as (_ & _ & _ & _ & _ & Horigin & _). apply Horigin.
Defined.

(** The parent is ready, the child is not; once the parent is taken it is. *)
Example orphans_ready :
  (is_ready p2 0, is_ready p2 1) = (Ok true, Ok false) :> result Empty_set bool * result Empty_set bool /\
  match take_entry (E := Empty_set) p2 0 with Ok (e, p) => Some (te_tx_id e, is_ready p 0) | _ => None end = Some (4%N, Ok true) :> option (N * result Empty_set bool).
Proof. split; vm_compute; reflexivity. Qed.

(** Everything is removed once it is older than fifty seconds. *)
Example orphans_expire : match remove_expired (E := Empty_set) (Time.clamp 50000000001) p2 with Ok (p, n) => Some (length (transactions p), n) | _ => None end
  = Some (O, 2%N).
Proof. vm_compute. reflexivity. Qed.
End OrphanWitnesses.
